(* ===== verification/_CoqProject ===== *)
-Q . S2P
Prelude.v
Bitops.v
Kfifo.v
Timer.v
TimerFacts.v
Users.v
Creds.v
CredFacts.v
Buddy.v
BuddyFacts.v
PcpFacts.v
Sched.v
SchedFacts.v
RunqueueFacts.v
SchedSafety.v
SchedOps.v
SchedTheorems.v
Ipc.v
IpcFacts.v
Sem.v
SemFacts.v
SemSystem.v
SemCalls.v
SemUndo.v
SemTrace.v
SemTheorems.v
Resource.v
ResourceFacts.v
ResourceOps.v
ResourceInsert.v
ResourceAlloc.v
ResourceTheorems.v
Rwsem.v
RwsemFacts.v
RwsemSteps.v
RwsemTheorems.v
Pidmap.v
PidmapFacts.v
PidmapConc.v
PidHash.v
PidHashFacts.v
PidTheorems.v
Radix.v
RadixFacts.v
RadixOps.v
RadixRoot.v
RadixGang.v
RadixTheorems.v
Msg.v
MsgFacts.v
MsgSystem.v
MsgSteps.v
MsgKeep.v
MsgSend.v
MsgSleep.v
MsgReceive.v
MsgCalls.v
MsgTrace.v
MsgTheorems.v
Rbtree.v
RbtreeFacts.v
RbtreeInsert.v
RbtreeErase.v
RbtreeOps.v
RbtreeTheorems.v
Waitq.v
Ksem.v
KsemFacts.v
KsemSteps.v
KsemSettle.v
KsemTheorems.v
Completion.v
CompletionFacts.v
CompletionSteps.v
CompletionTheorems.v
Event.v
EventFacts.v
EventSteps.v
EventTheorems.v
WaitqSched.v
