(* ===== verification/Prelude.v ===== *)
(** * Linux 2.6.11.12 core kernel: a verification library (root file)

    This library models parts of the annotated Linux 2.6.11.12 kernel under
    src/linux that carry the core logic of the kernel proper (kernel/, mm/, lib/,
    ipc/ and the capability code of security/) and proves what makes them correct.
    It is a shallow embedding: C functions become Gallina functions, functions
    that update shared state become state transformers of the monad [SM] below,
    error returns and [BUG()] become values of [outcome].

    ** Configuration and machine

    i386 data model: [int], [long] and pointers are 32 bits; a machine word is a
    [Z] and its wrap-around is written out ([wrap32], [sgn32], [wrap64]) wherever
    the code can reach it.  HZ is 1000; one CPU; CONFIG_SECURITY, CONFIG_KEYS,
    CONFIG_HUGETLB_PAGE, CONFIG_SCHEDSTATS, CONFIG_HOTPLUG_CPU and kernel
    preemption are off; read-write semaphores are the generic spinlock version.  A
    function that runs under a lock is one atomic step.  Code that is meant to run
    without one (the kernel FIFO, the pid bitmap) or that drops its lock to sleep
    (the semaphores, completions and wait queues of kernel/, lib/ and arch/) is split into its
    shared accesses, on sequentially consistent memory, and any number of tasks interleave.  The
    system calls of ipc/ are coarser: a call is one step up to the point where it sleeps and one
    step after that, so that two calls do not interleave where one drops its lock to allocate
    or to copy (Sem.v, Msg.v); likewise [alloc_uid] (Users.v).  Memory allocators, clocks, [capable()] where a
    component only asks it, and user-memory accesses are arguments.  An access
    outside an object, like [BUG()], is the outcome [Bug]: "never [Bug]" includes
    memory safety.

    ** Files, and the sources they model

    - Prelude.v (this file): machine words, outcomes, the state monad, automation,
      shared lemmas.
    - Bitops.v: include/linux/bitops.h, lib/int_sqrt.c, lib/div64.c.
    - Kfifo.v: kernel/kfifo.c and include/linux/kfifo.h.  Module [Kfifo] has the
      operations and their refinement to a bounded queue, [Spsc] the interleaved
      lock-free use, [KfifoWitness] concrete runs.
    - Timer.v (Module [Wheel]), TimerFacts.v: the timer wheel of kernel/timer.c.
    - Users.v: kernel/user.c, the cache of [user_struct] with its reference and
      process counts.
    - Creds.v (Modules [Creds], [Capset]), CredFacts.v: the set*id calls of
      kernel/sys.c, security/commoncap.c, kernel/capability.c; they call Users.v.
    - Buddy.v, BuddyFacts.v, PcpFacts.v: the page allocator of one zone,
      mm/page_alloc.c: the buddy system, the per-CPU lists, watermarks.
    - Sched.v: kernel/sched.c on one CPU.  SchedFacts.v: priorities and time
      slices; RunqueueFacts.v: the run queue invariant and the queue operations;
      SchedSafety.v: activation, wake-up, tick and [schedule], and in Module [SchedTick] what
      the tick does to the queues; SchedOps.v: nice,
      policies, yield, fork, exit, and sequences of operations; SchedTheorems.v:
      the resulting properties with a small concrete system.
    - Ipc.v, IpcFacts.v: the identifier arrays of ipc/util.c, over any type of
      objects (class [IpcObject]).
    - Sem.v: ipc/sem.c.  SemFacts.v: operations on one set and the queue of
      sleeping operations; SemSystem.v: the invariant of the whole system;
      SemCalls.v: semget and semctl; SemUndo.v: undo structures and lists;
      SemTrace.v: semop, sleep and wake-up, fork, exit, and histories, and
      in Module [SemExit] what exit does to the values of a set;
      SemTheorems.v: the resulting properties.
    - Resource.v: kernel/resource.c.  ResourceFacts.v: the invariant of the tree,
      linking and unlinking; ResourceOps.v: adjusting; ResourceInsert.v: inserting
      over existing resources; ResourceAlloc.v: regions and first-fit allocation;
      ResourceTheorems.v: the resulting properties.
    - Rwsem.v: lib/rwsem-spinlock.c with the tasks that use a semaphore.
      RwsemFacts.v: the specification, a fair read-write lock, and the invariant;
      RwsemSteps.v: waking and sleeping; RwsemTheorems.v: the calls and histories.
    - Pidmap.v: the pid bitmap of kernel/pid.c.  PidmapFacts.v: scanning and
      marking; PidmapConc.v: any number of concurrent callers.  PidHash.v: the pid
      hash tables of kernel/pid.c; PidHashFacts.v: attach, detach and lookup;
      PidTheorems.v: allocation, and histories of processes.
    - Radix.v: lib/radix-tree.c.  RadixFacts.v: what a tree stands for, its
      invariant, insertion; RadixOps.v: lookup, tags, deletion; RadixRoot.v: the
      operations of a root, growth; RadixGang.v: gang lookup; RadixTheorems.v:
      histories against a map, and lack of memory.
    - Msg.v: ipc/msg.c and ipc/msgutil.c, the second client of Ipc.v.  MsgFacts.v:
      selection and texts of messages; MsgSystem.v: sums over queues and waiting
      tasks and the invariant of the whole system; MsgSteps.v: waking and handing
      over; MsgKeep.v: which changes keep the invariant; MsgSend.v, MsgSleep.v:
      sending, sleeping senders; MsgReceive.v: receiving; MsgCalls.v: msgget,
      msgctl, removal; MsgTrace.v: histories; MsgTheorems.v: the resulting
      properties.
    - Rbtree.v: lib/rbtree.c and include/linux/rbtree.h.  RbtreeFacts.v: trees in
      memory, contexts, rotations; RbtreeInsert.v: linking and rebalancing;
      RbtreeErase.v: rebalancing after a removal; RbtreeOps.v: removal, replacement
      and walking; RbtreeTheorems.v: histories against a list, and balance.
    - Waitq.v: wait queues of kernel/sched.c, kernel/wait.c and include/linux/wait.h:
      what their three users share, over any data beside the queue and any program
      counters.  WaitqSched.v: the scheduler of Sched.v implements what Waitq.v assumes.
    - Ksem.v: the semaphores of arch/i386/kernel/semaphore.c and
      include/asm-i386/semaphore.h.  KsemFacts.v: the invariant; KsemSteps.v: the steps;
      KsemSettle.v: a measure; KsemTheorems.v: the resulting properties.
    - Completion.v: completions of kernel/sched.c.  CompletionFacts.v, CompletionSteps.v,
      CompletionTheorems.v: invariant, steps, properties.
    - Event.v: the wait_event macros with prepare_to_wait and finish_wait.
      EventFacts.v, EventSteps.v, EventTheorems.v: invariant, steps, properties.

    Records keep the field names of the C structures; lists of the C code are
    Rocq lists in list order; objects are named by numbers (page index, task
    number, user address).

    ** What the theorems show

    - Timers (TimerFacts.v): whatever timer calls the handlers make, and they may depend on
      the whole state, [__run_timers] terminates without a BUG and keeps the wheel
      consistent; no timer runs before its tick, and one that the handlers of other
      timers leave alone runs at exactly its tick.
    - Pages (BuddyFacts.v, PcpFacts.v): [__free_pages_bulk] and [__rmqueue]
      implement release and allocation of aligned blocks on the set of free pages,
      fully coalesced; no page is handed out twice or lost in any history; an
      accepted watermark request can be satisfied.
    - Credentials (CredFacts.v): unprivileged tasks stay confined under any
      sequence of calls, root is dropped for good by setuid, capset and execve give
      no capability away, failing calls change nothing, user accounting is exact.
    - Scheduler (SchedTheorems.v, SchedFacts.v): the run queue stays consistent in
      every history and no operation hits a BUG; [schedule] picks the first task of
      the best priority; the tick charges the running task and moves it in the queues at the
      end of its slice, and moves no other; wake-ups, fork, nice and policy changes are
      specified on every branch; priorities and time slices are bounded.
    - FIFO (Kfifo.v): put and get implement a bounded byte queue, also when one
      reader and one writer run without a lock.
    - Words (Bitops.v): each routine equals its mathematical definition.
    - Semaphores (SemFacts.v, SemTheorems.v): a semop call is all or nothing;
      [update_queue] terminates and leaves no operation asleep that could
      complete; exit takes back what SEM_UNDO operations of a task did to a set on which
      nobody sleeps; in every history no call hits a
      BUG or a freed structure and all counts are exact.
    - IPC identifiers (IpcFacts.v): a new identifier finds its object, a stale one
      is refused until the sequence numbers come round.
    - Resources (ResourceTheorems.v): the tree stays nested, ordered and disjoint in
      every history; a request succeeds exactly when its range is free; allocation
      finds the lowest free aligned range.
    - Read-write semaphores (RwsemTheorems.v): in every interleaving the calls and their
      returns are those of a first-come first-served read-write lock: the tasks that
      wait get it in the order in which they asked; no wake-up is lost and no freed
      structure is touched.
    - Process identifiers (PidmapConc.v, PidTheorems.v): without a lock no
      identifier is given out twice; allocation finds the next free one; in every
      history of processes the bitmap marks exactly the identifiers in use as
      process, thread group, group or session, and lookups are exact.
    - Radix tree (RadixTheorems.v): in every history a tree answers as a map with two
      sets of tags, gang lookups included, and never follows a NULL pointer or
      frees a node in use, provided that an insertion into an empty tree gets its first
      node; how many nodes an insertion needs.
    - Message queues (MsgTheorems.v): in every history no call uses a freed queue,
      every message and queue in memory is accounted for, and no sleeping task has
      missed what it waits for; a message goes to the first receiver that can take
      it; what is sent is received; which message a call takes for every type argument.
    - Red-black tree (RbtreeTheorems.v): in every history the tree answers as the
      list of its nodes in order; it stays correctly linked and coloured, so its
      height is at most twice the logarithm of its size.
    - Kernel semaphores (KsemTheorems.v): in every interleaving no more units are held
      than there are, no wake-up is lost, and the code comes to rest within a bound.
    - Completions (CompletionTheorems.v): events are counted exactly and announced,
      unless a timeout expires, in which case one can be left behind.
    - Condition waits (EventTheorems.v): no stale wait structure is touched, although
      [finish_wait] looks at the links of its entry without the lock while a waker may have
      written one of them only; no wake-up is lost for waiters that are not exclusive.
    - Wait queues on the scheduler (WaitqSched.v): [try_to_wake_up] and the whole of
      [schedule] do to the tasks what the models of wait queues assume.

    Some theorems record where the code does not do what it means to or what its
    comments say: [cap_set_pg] skips every process leader, the sleep time of
    [recalc_task_prio] overflows 32 bits, the undo range check of
    [try_atomic_semop] does not add up the operations of one call,
    [find_resource] wraps around 2^32 and misses holes of one unit,
    [alloc_pidmap] never looks at the last identifier again after wrapping around,
    [radix_tree_preload] provides too few nodes, a failed first
    [radix_tree_insert] leaves a root that a gang lookup does not survive,
    [convert_mode] of ipc/msg.c overflows for the least type and takes types up to the
    bound that its comment excludes, [wait_for_completion_timeout] can lose an event,
    and the interactivity table of kernel/sched.c is off at nice -10.

    ** Bounds and fuel

    Loops that are not structural carry fuel: 17 for the square root (the 16 bit
    pairs of a word), 64 for the 64-bit division, the number of orders for buddy
    merging and splitting, the number of ticks and of queued timers for
    [__run_timers].  In each case the theorem states the result for the whole input
    range, so the fuel is proved to be enough.  [update_queue] over n sleeping
    operations has n*n + n: each completed operation may start the scan again, and
    [update_queue_drains] proves that this is enough.  [semop_locked] has one retry,
    which the histories never use up.  The loops of kernel/resource.c that descend
    the tree have as many steps as there are resources; the rank of the tree's
    invariant bounds the descent.  [alloc_pidmap] has two scans of every page of the
    bitmap and a few steps more, proved enough in [alloc_pidmap_correct].  The
    outer loop of a gang lookup has 2^33 rounds, run as 33 doublings: every round
    moves on by one index at least.  [load_segs] has as many steps as there are bytes.
    The loops of lib/rbtree.c have as many rounds as there are nodes in memory, and
    two more: every round moves along a path of the tree.  Histories of semaphores, read-write semaphores and
    completions have at most 2^22 tasks, the limit of process identifiers, and never
    more units than an int holds; so the counters do not wrap around.
    The histories of message queues assume that all messages together take less than
    2^32 bytes, the address space; the 32-bit counts of a queue are then exact.

    ** Not modelled

    Architecture code, drivers, file systems, networking, sound, crypto, SELinux
    and the build and boot code are outside: they are device-specific, generated or
    mostly I/O.  Of the modelled files: SMP load balancing and migration, CPU
    hotplug, scheduler statistics and the racy sleep_on functions (kernel/sched.c);
    wait_on_bit (kernel/wait.c); the zone-list
    walk and reclaim of [__alloc_pages], compound pages, boot-time set-up
    (mm/page_alloc.c); [del_timer_sync] busy waiting and the clock code
    (kernel/timer.c); the calls of kernel/sys.c that do not concern credentials; the
    /proc listings of ipc/sem.c and ipc/msg.c and the object allocation of ipc/util.c; the list of
    all processes (kernel/pid.c); [radix_tree_tag_get], which the kernel does not
    compile.

    ** Plan

    Next: the idr and the priority search tree of lib/, and work queues on top of the
    wait queues. *)

From stdpp Require Import prelude numbers list gmap.
From Stdlib Require Import ZArith Lia.

#[local] Set Default Goal Selector "!".
#[local] Open Scope Z_scope.

(** ** Machine integers

    The model fixes the i386 data model: [int], [unsigned int], [long] and
    [unsigned long] are 32 bits wide.  A machine word is a [Z] kept in range by
    the wrap-around functions below. *)

Definition BITS_PER_LONG : Z := 32.

(** Conversion to [unsigned int] / [unsigned long]. *)
Definition wrap32 (x : Z) : Z := x mod 2 ^ 32.

(** Conversion to [int] / [long] (two's complement). *)
Definition sgn32 (x : Z) : Z :=
  let y := wrap32 x in if y <? 2 ^ 31 then y else y - 2 ^ 32.

(** Conversion to [unsigned short] and to [short]. *)
Definition wrap16 (x : Z) : Z := x mod 2 ^ 16.
Definition sgn16 (x : Z) : Z :=
  let y := wrap16 x in if y <? 2 ^ 15 then y else y - 2 ^ 16.

Definition is_u32 (x : Z) : Prop := 0 <= x < 2 ^ 32.

Declare Scope cword_scope.
Delimit Scope cword_scope with cw.
Notation "x +u y" := (wrap32 (x + y)) (at level 50, left associativity) : cword_scope.
Notation "x -u y" := (wrap32 (x - y)) (at level 50, left associativity) : cword_scope.

(** ** Outcomes of kernel functions

    A kernel function returns a value, returns a negative error code
    ([-ENOMEM], or an [ERR_PTR] of it), or stops the machine in [BUG()].  An
    access outside an object also is [Bug]: the theorems that a call is [Ok]
    or [Err] therefore include its memory safety. *)

Inductive outcome (A : Type) : Type :=
| Ok (a : A)
| Err (e : Z)
| Bug.
Arguments Ok {A} _.
Arguments Err {A} _.
Arguments Bug {A}.

#[export] Instance outcome_ret : MRet outcome := λ A a, Ok a.
#[export] Instance outcome_bind : MBind outcome := λ A B k m,
  match m with
  | Ok a => k a
  | Err e => Err e
  | Bug => Bug
  end.

(** [BUG_ON(c)] *)
Definition BUG_ON (c : bool) : outcome unit := if c then Bug else Ok tt.

(** Code that updates shared state: a state transformer whose state survives
    an error return, as the kernel's does. *)
Definition SM (S A : Type) : Type := S → outcome A * S.

#[export] Instance SM_ret {S} : MRet (SM S) := λ A a s, (Ok a, s).
#[export] Instance SM_bind {S} : MBind (SM S) := λ A B k m s,
  match m s with
  | (Ok a, s') => k a s'
  | (Err e, s') => (Err e, s')
  | (Bug, s') => (Bug, s')
  end.

(** Reading the state, changing it, and returning an error. *)
Definition gets {S A} (f : S → A) : SM S A := λ s, (Ok (f s), s).
Definition modify {S} (f : S → S) : SM S unit := λ s, (Ok tt, f s).
Definition fail {S A} (e : Z) : SM S A := λ s, (Err e, s).
Definition bug {S A} : SM S A := λ s, (Bug, s).
Definition when {S} (c : bool) (m : SM S unit) : SM S unit :=
  if c then m else mret tt.

(** C's short-circuit operators on conditions with effects. *)
Definition orM {S} (c : bool) (m : SM S bool) : SM S bool :=
  if c then mret true else m.
Definition andM {S} (c : bool) (m : SM S bool) : SM S bool :=
  if c then m else mret false.

(** Error numbers of include/asm-generic/errno-base.h used by the models. *)
Definition EPERM : Z := 1.
Definition ENOENT : Z := 2.
Definition ESRCH : Z := 3.
Definition EINTR : Z := 4.
Definition E2BIG : Z := 7.
Definition EAGAIN : Z := 11.
Definition ENOMEM : Z := 12.
Definition EACCES : Z := 13.
Definition EFAULT : Z := 14.
Definition EBUSY : Z := 16.
Definition EEXIST : Z := 17.
Definition EINVAL : Z := 22.
Definition EFBIG : Z := 27.
Definition ENOSPC : Z := 28.
Definition ERANGE : Z := 34.
Definition EIDRM : Z := 43.

(** ** Proof automation *)

Create HintDb kern.
Create Rewrite HintDb kern.

(** Turns boolean comparisons of the code into propositions. *)
Ltac zb_hyps :=
  repeat match goal with
  | H : (_ <? _) = true |- _ => apply Z.ltb_lt in H
  | H : (_ <? _) = false |- _ => apply Z.ltb_ge in H
  | H : (_ <=? _) = true |- _ => apply Z.leb_le in H
  | H : (_ <=? _) = false |- _ => apply Z.leb_gt in H
  | H : (_ =? _) = true |- _ => apply Z.eqb_eq in H
  | H : (_ =? _) = false |- _ => apply Z.eqb_neq in H
  | H : (_ && _) = true |- _ => apply andb_true_iff in H; destruct H
  | H : (_ || _) = false |- _ => apply orb_false_iff in H; destruct H
  | H : negb _ = true |- _ => apply negb_true_iff in H
  | H : negb _ = false |- _ => apply negb_false_iff in H
  end.

(** Case analysis on one comparison of the goal. *)
Ltac case_zb :=
  match goal with
  | |- context [?a <? ?b] => destruct (Z.ltb_spec a b)
  | |- context [?a <=? ?b] => destruct (Z.leb_spec a b)
  | |- context [?a =? ?b] => destruct (Z.eqb_spec a b)
  end.

(** The same on a hypothesis. *)
Ltac case_zb_in H :=
  match type of H with
  | context [?a <? ?b] => destruct (Z.ltb_spec a b)
  | context [?a <=? ?b] => destruct (Z.leb_spec a b)
  | context [?a =? ?b] => destruct (Z.eqb_spec a b)
  end.

(** Unfolds the state monad's structure, nothing else. *)
Ltac sm_unfold :=
  unfold when, orM, andM, gets, modify, fail, bug, mbind, SM_bind, mret, SM_ret;
  cbv beta iota.

(** Linear arithmetic with quotients and remainders by numerals. *)
Ltac zdm := Z.div_mod_to_equations; lia.

(** ** Weakest preconditions

    [wp m Φ Ψ s]: from [s] the code does not stop in [Bug]; it ends in [Φ] with its
    result, or in [Ψ] with its error. *)
Section wp.
Context {S : Type}.
Implicit Types (s : S).

Definition wp {A} (m : SM S A) (Φ : A → S → Prop) (Ψ : Z → S → Prop) (s : S) : Prop :=
  match m s with
  | (Ok a, s') => Φ a s'
  | (Err e, s') => Ψ e s'
  | (Bug, _) => False
  end.

Lemma wp_bind {A B} (m : SM S A) (k : A → SM S B) Φ Ψ s :
  wp m (λ a s', wp (k a) Φ Ψ s') Ψ s → wp (m ≫= k) Φ Ψ s.
Proof. unfold wp, mbind, SM_bind. by destruct (m s) as [[a|e|] s']. Qed.

Lemma wp_bind_inv {A B} (m : SM S A) (k : A → SM S B) Φ Ψ s :
  wp (m ≫= k) Φ Ψ s → wp m (λ a s', wp (k a) Φ Ψ s') Ψ s.
Proof. unfold wp, mbind, SM_bind. by destruct (m s) as [[a|e|] s']. Qed.

Lemma wp_mono {A} (m : SM S A) (Φ Φ' : A → S → Prop) Ψ s :
  wp m Φ' Ψ s → (∀ a s', Φ' a s' → Φ a s') → wp m Φ Ψ s.
Proof. unfold wp. destruct (m s) as [[a|e|] s']; auto. Qed.

Lemma wp_mono_err {A} (m : SM S A) (Φ : A → S → Prop) (Ψ Ψ' : Z → S → Prop) s :
  wp m Φ Ψ' s → (∀ e s', Ψ' e s' → Ψ e s') → wp m Φ Ψ s.
Proof. unfold wp. destruct (m s) as [[a|e|] s']; auto. Qed.

Lemma wp_impl {A} (m : SM S A) (Φ Φ' : A → S → Prop) (Ψ Ψ' : Z → S → Prop) s :
  wp m Φ' Ψ' s → (∀ a s', Φ' a s' → Φ a s') → (∀ e s', Ψ' e s' → Ψ e s') → wp m Φ Ψ s.
Proof. unfold wp. destruct (m s) as [[a|e|] s']; auto. Qed.

(** Code that returns no error. *)
Lemma wp_noerr {A} (m : SM S A) (Φ : A → S → Prop) Ψ s :
  wp m Φ (λ _ _, False) s → wp m Φ Ψ s.
Proof. unfold wp. by destruct (m s) as [[a|e|] s']. Qed.

Lemma wp_ret {A} (a : A) (Φ : A → S → Prop) Ψ s : Φ a s → wp (mret a) Φ Ψ s.
Proof. done. Qed.

Lemma wp_fail {A} e (Φ : A → S → Prop) (Ψ : Z → S → Prop) s : Ψ e s → wp (fail e) Φ Ψ s.
Proof. done. Qed.

Lemma wp_gets {A} (f : S → A) (Φ : A → S → Prop) Ψ s : Φ (f s) s → wp (gets f) Φ Ψ s.
Proof. done. Qed.

Lemma wp_modify f (Φ : unit → S → Prop) Ψ s : Φ tt (f s) → wp (modify f) Φ Ψ s.
Proof. done. Qed.

Lemma wp_when (c : bool) m (Φ : unit → S → Prop) Ψ s :
  (c = true → wp m Φ Ψ s) → (c = false → Φ tt s) → wp (when c m) Φ Ψ s.
Proof. destruct c; cbn; auto. Qed.

Lemma wp_ok {A} (m : SM S A) Φ s : wp m Φ (λ _ _, False) s → ∃ a s', m s = (Ok a, s') ∧ Φ a s'.
Proof. unfold wp. destruct (m s) as [[a|e|] s']; [eauto|done|done]. Qed.

Lemma wp_post {A} (m : SM S A) (Φ : A → S → Prop) (P : S → Prop) s :
  wp m Φ (λ _ _, False) s → (∀ a s', Φ a s' → P s') → wp m (λ _ s', P s') (λ _ s', P s') s.
Proof. unfold wp. destruct (m s) as [[a|e|] s']; [eauto|done|done]. Qed.

(** What a run that succeeds establishes. *)
Definition post {A} (m : SM S A) (Φ : A → S → Prop) (s : S) : Prop :=
  match m s with (Ok a, s') => Φ a s' | _ => True end.

Lemma post_bind {A B} (m : SM S A) (k : A → SM S B) Φ s :
  post m (λ a, post (k a) Φ) s → post (m ≫= k) Φ s.
Proof. unfold post, mbind, SM_bind. by destruct (m s) as [[a|e|] s']. Qed.
Lemma post_mono {A} (m : SM S A) (Φ Φ' : A → S → Prop) s :
  post m Φ s → (∀ a s', Φ a s' → Φ' a s') → post m Φ' s.
Proof. unfold post. destruct (m s) as [[a|e|] s']; auto. Qed.
Lemma post_and {A} (m : SM S A) (Φ Φ' : A → S → Prop) s :
  post m Φ s → post m Φ' s → post m (λ a s', Φ a s' ∧ Φ' a s') s.
Proof. unfold post. by destruct (m s) as [[a|e|] s']. Qed.
Lemma post_wp {A} (m : SM S A) (Φ : A → S → Prop) Ψ s : wp m Φ Ψ s → post m Φ s.
Proof. unfold wp, post. by destruct (m s) as [[a|e|] s']. Qed.
End wp.

(** ** Sums over a map *)

Definition msum {A} (f : A → Z) (m : gmap Z A) : Z := map_fold (λ _ x n, f x + n) 0 m.

Lemma msum_insert {A} (f : A → Z) m t x : m !! t = None → msum f (<[t := x]> m) = f x + msum f m.
Proof. intros H. unfold msum. rewrite map_fold_insert_L; [done|intros; lia|done]. Qed.

Lemma msum_delete {A} (f : A → Z) m t x : m !! t = Some x → msum f (delete t m) = msum f m - f x.
Proof.
  intros H. unfold msum. rewrite (map_fold_delete_L _ _ t x m); [lia|intros; lia|done].
Qed.

Lemma msum_replace {A} (f : A → Z) m t x y :
  m !! t = Some x → msum f (<[t := y]> m) = msum f m - f x + f y.
Proof.
  intros H. rewrite <- insert_delete_eq, msum_insert by apply lookup_delete_eq.
  rewrite (msum_delete _ _ _ _ H). lia.
Qed.

Lemma msum_ge {A} (f : A → Z) m t x : (∀ y, 0 <= f y) → m !! t = Some x → f x <= msum f m.
Proof.
  intros Hf H. unfold msum. rewrite (map_fold_delete_L _ _ t x m); [|intros; lia|done].
  assert (0 <= map_fold (λ (_ : Z) x n, f x + n) 0 (delete t m)); [|lia].
  apply (map_fold_weak_ind (λ n _, 0 <= n)); [lia|]. intros ? y ? ? _ ?. pose proof (Hf y). lia.
Qed.

Lemma msum_zero {A} (f : A → Z) m : (∀ t x, m !! t = Some x → f x = 0) → msum f m = 0.
Proof.
  unfold msum. induction m as [|t x m Hm IH] using map_ind; [done|]. intros H.
  rewrite map_fold_insert_L; [|intros; lia|done]. rewrite IH, (H t x (lookup_insert_eq _ _ _)); [done|].
  intros u y Hy. apply (H u). rewrite lookup_insert_ne; [done|]. congruence.
Qed.

Lemma msum_mono {A} (f g : A → Z) m : (∀ t x, m !! t = Some x → f x <= g x) → msum f m <= msum g m.
Proof.
  unfold msum. induction m as [|t x m Hm IH] using map_ind; [done|]. intros H.
  rewrite !map_fold_insert_L by (done || intros; lia). pose proof (H t x (lookup_insert_eq _ _ _)).
  assert (map_fold (λ _ x n, f x + n) 0 m <= map_fold (λ _ x n, g x + n) 0 m); [|lia].
  apply IH. intros u y Hy. apply (H u). rewrite lookup_insert_ne; [done|]. congruence.
Qed.

(** A positive sum has a positive term. *)
Lemma msum_pos {A} (f : A → Z) m : (∀ y, 0 <= f y) → 0 < msum f m → ∃ t x, m !! t = Some x ∧ 0 < f x.
Proof.
  intros Hf. unfold msum. induction m as [|t x m Hm IH] using map_ind; [by rewrite map_fold_empty|].
  rewrite map_fold_insert_L; [|intros; lia|done]. intros H. destruct (decide (0 < f x)) as [Hx|Hx].
  - exists t, x. by rewrite lookup_insert_eq.
  - pose proof (Hf x). destruct IH as (u & y & Hy & ?); [lia|]. exists u, y. split; [|done].
    rewrite lookup_insert_ne; [done|]. congruence.
Qed.

Lemma msum_bounds {A} (f : A → Z) m b : (∀ y, 0 <= f y <= b) → 0 <= msum f m <= b * Z.of_nat (size m).
Proof.
  intros Hf. unfold msum. induction m as [|t x m Hm IH] using map_ind; [rewrite map_fold_empty, map_size_empty; lia|].
  rewrite map_fold_insert_L; [|intros; lia|done]. rewrite map_size_insert_None by done. pose proof (Hf x). lia.
Qed.

(** ** Generic lemmas: machine words *)

Lemma wrap32_range x : 0 <= wrap32 x < 2 ^ 32.
Proof. apply Z.mod_pos_bound. lia. Qed.

Lemma wrap32_is_u32 x : is_u32 (wrap32 x).
Proof. apply wrap32_range. Qed.
#[export] Hint Resolve wrap32_is_u32 : kern.

Lemma wrap32_id x : is_u32 x → wrap32 x = x.
Proof. intros. by apply Z.mod_small. Qed.

Lemma wrap32_wrap x : wrap32 (wrap32 x) = wrap32 x.
Proof. apply wrap32_id, wrap32_is_u32. Qed.

Lemma wrap32_add_l x y : wrap32 (wrap32 x + y) = wrap32 (x + y).
Proof. apply Zplus_mod_idemp_l. Qed.

Lemma wrap32_add_r x y : wrap32 (x + wrap32 y) = wrap32 (x + y).
Proof. apply Zplus_mod_idemp_r. Qed.

Lemma wrap32_sub_l x y : wrap32 (wrap32 x - y) = wrap32 (x - y).
Proof. apply Zminus_mod_idemp_l. Qed.

Lemma wrap32_sub_r x y : wrap32 (x - wrap32 y) = wrap32 (x - y).
Proof. apply Zminus_mod_idemp_r. Qed.
#[export] Hint Rewrite wrap32_wrap wrap32_add_l wrap32_add_r wrap32_sub_l
  wrap32_sub_r : kern.

Lemma sgn32_id x : - 2 ^ 31 <= x < 2 ^ 31 → sgn32 x = x.
Proof.
  intros H. unfold sgn32, wrap32. destruct (Z.ltb_spec (x mod 2 ^ 32) (2 ^ 31)); zdm.
Qed.

Lemma wrap32_mod_pow2 x k : 0 <= k <= 32 → wrap32 x mod 2 ^ k = x mod 2 ^ k.
Proof.
  intros Hk. unfold wrap32.
  replace (2 ^ 32) with (2 ^ k * 2 ^ (32 - k))
    by (rewrite <- Z.pow_add_r by lia; f_equal; lia).
  rewrite Z.rem_mul_r by (apply Z.pow_nonzero || apply Z.pow_pos_nonneg; lia).
  rewrite Z.mul_comm, Z_mod_plus_full. by rewrite Zmod_mod.
Qed.

(** [x & (2^k - 1)] is the remainder by [2^k]. *)
Lemma land_mask x k : 0 <= k → Z.land x (2 ^ k - 1) = x mod 2 ^ k.
Proof.
  intros. rewrite <- Z.land_ones by lia. rewrite Z.ones_equiv. f_equal.
Qed.

Lemma land_bound u m k : 0 <= k → 0 <= m < 2 ^ k → 0 <= Z.land u m < 2 ^ k.
Proof.
  intros Hk Hm. rewrite <- (Z.mod_small m (2 ^ k)) by done.
  rewrite <- Z.land_ones, Z.land_assoc, Z.land_ones by done.
  apply Z.mod_pos_bound. by apply Z.pow_pos_nonneg.
Qed.

Lemma pow2_pos k : 0 <= k → 0 < 2 ^ k.
Proof. intros. apply Z.pow_pos_nonneg; lia. Qed.
#[export] Hint Resolve pow2_pos : kern.

(** ** Generic lemmas: lists *)

Section list_facts.
Context {A : Type}.
Implicit Types (l k : list A).

Lemma take_take_min l n m : take n (take m l) = take (n `min` m) l.
Proof. apply take_take. Qed.

Lemma list_filter_all (P : A → Prop) `{!∀ x, Decision (P x)} l :
  Forall P l → filter P l = l.
Proof. induction 1; [done|]. rewrite filter_cons_True by done. by f_equal. Qed.

Lemma list_filter_none (P : A → Prop) `{!∀ x, Decision (P x)} l :
  Forall (λ x, ¬ P x) l → filter P l = [].
Proof. induction 1; [done|]. by rewrite filter_cons_False by done. Qed.
End list_facts.
