(* ===== verification/Bitops.v ===== *)
(** * Word arithmetic: include/linux/bitops.h, lib/int_sqrt.c, lib/div64.c

    The bit scans [generic_ffs] and [generic_fls], the SWAR population count
    [generic_hweight32], the integer square root and the 64-by-32 bit division
    the 32-bit ports use.  Each is the branchy or shift-based routine of the
    source; the theorems equate it with its mathematical definition. *)

From stdpp Require Import prelude numbers list.
From Stdlib Require Import ZArith Lia.
From S2P Require Import Prelude.

#[local] Set Default Goal Selector "!".
#[local] Open Scope Z_scope.

(** ** Definitions *)

(** One halving step of [generic_ffs]: [if (!(x & mask)) { x >>= n; r += n; }].
    [x] is an [int]; [>>=] is the arithmetic shift. *)
Definition ffs_step (mask n : Z) (s : Z * Z) : Z * Z :=
  let '(x, r) := s in
  if Z.land x mask =? 0 then (Z.shiftr x n, r + n) else (x, r).

Definition generic_ffs (x : Z) : Z :=
  if x =? 0 then 0
  else
    let s := (x, 1) in
    let s := ffs_step 0xffff 16 s in
    let s := ffs_step 0xff 8 s in
    let s := ffs_step 0xf 4 s in
    let s := ffs_step 3 2 s in
    let s := ffs_step 1 1 s in
    snd s.

(** One halving step of [generic_fls]: [if (!(x & mask)) { x <<= n; r -= n; }].
    [x] is kept as its 32-bit pattern, which is what [&] with an unsigned mask
    and [<<=] see. *)
Definition fls_step (mask n : Z) (s : Z * Z) : Z * Z :=
  let '(x, r) := s in
  if Z.land x mask =? 0 then (wrap32 (Z.shiftl x n), r - n) else (x, r).

Definition generic_fls (x : Z) : Z :=
  if x =? 0 then 0
  else
    let s := (x, 32) in
    let s := fls_step 0xffff0000 16 s in
    let s := fls_step 0xff000000 8 s in
    let s := fls_step 0xf0000000 4 s in
    let s := fls_step 0xc0000000 2 s in
    let s := fls_step 0x80000000 1 s in
    snd s.

(** [fls(x)] is [generic_fls(x)] on i386; include/linux/kernel.h rounds a size
    up with it. *)
Definition roundup_pow_of_two (x : Z) : Z :=
  wrap32 (Z.shiftl 1 (generic_fls (wrap32 (x - 1)))).

(** One mask-and-add step [(res & mask) + ((res >> n) & mask)], before the sum
    is truncated to the word. *)
Definition swar_step (mask n x : Z) : Z := Z.land x mask + Z.land (Z.shiftr x n) mask.

Definition generic_hweight32 (w : Z) : Z :=
  let res := wrap32 (swar_step 0x55555555 1 w) in
  let res := wrap32 (swar_step 0x33333333 2 res) in
  let res := wrap32 (swar_step 0x0F0F0F0F 4 res) in
  let res := wrap32 (swar_step 0x00FF00FF 8 res) in
  wrap32 (swar_step 0x0000FFFF 16 res).

(** [while (one > op) one >>= 2;] of [int_sqrt]. *)
Fixpoint isqrt_start (fuel : nat) (op one : Z) : Z :=
  match fuel with
  | O => one
  | S fuel => if op <? one then isqrt_start fuel op (Z.shiftr one 2) else one
  end.

(** The digit loop [while (one != 0) ...] of [int_sqrt]. *)
Fixpoint isqrt_loop (fuel : nat) (op res one : Z) : Z :=
  match fuel with
  | O => res
  | S fuel =>
    if one =? 0 then res
    else
      let '(op, res) :=
        if wrap32 (res + one) <=? op
        then (wrap32 (op - wrap32 (res + one)), wrap32 (res + wrap32 (2 * one)))
        else (op, res) in
      isqrt_loop fuel op (res / 2) (one / 4)
  end.

(** [one] starts at [1 << 30] and each pass divides it by four: sixteen passes
    bring it to zero, so [isqrt_fuel] never cuts a loop short. *)
Definition isqrt_fuel : nat := 17.

Definition int_sqrt (x : Z) : Z :=
  let one := isqrt_start isqrt_fuel x (2 ^ 30) in
  isqrt_loop isqrt_fuel x 0 one.

(** 64-bit unsigned and signed views, for lib/div64.c. *)
Definition wrap64 (x : Z) : Z := x mod 2 ^ 64.
Definition sgn64 (x : Z) : Z :=
  let y := wrap64 x in if y <? 2 ^ 63 then y else y - 2 ^ 64.

(** [while ((int64_t)b > 0 && b < rem) { b = b+b; d = d+d; }] *)
Fixpoint div64_scale (fuel : nat) (rem b d : Z) : Z * Z :=
  match fuel with
  | O => (b, d)
  | S fuel =>
    if (0 <? sgn64 b) && (b <? rem)
    then div64_scale fuel rem (wrap64 (b + b)) (wrap64 (d + d))
    else (b, d)
  end.

(** [do { if (rem >= b) ...; b >>= 1; d >>= 1; } while (d);] *)
Fixpoint div64_loop (fuel : nat) (rem res b d : Z) : Z * Z :=
  match fuel with
  | O => (res, rem)
  | S fuel =>
    let '(rem, res) :=
      if b <=? rem then (wrap64 (rem - b), wrap64 (res + d)) else (rem, res) in
    let b := Z.shiftr b 1 in
    let d := Z.shiftr d 1 in
    if d =? 0 then (res, rem) else div64_loop fuel rem res b d
  end.

(** [b] doubles from at least 1 while it is a positive [int64_t], at most 63
    times, and [d] is then halved to zero. *)
Definition div64_fuel : nat := 64.

(** [__div64_32(&n, base)]: the new [*n] (quotient) and the returned remainder. *)
Definition __div64_32 (n base : Z) : Z * Z :=
  let rem := n in
  let high := wrap32 (Z.shiftr rem 32) in
  let '(res, rem) :=
    if base <=? high
    then let high := high / base in
         (wrap64 (Z.shiftl high 32),
          wrap64 (rem - wrap64 (Z.shiftl (wrap32 (high * base)) 32)))
    else (0, rem) in
  let '(b, d) := div64_scale div64_fuel rem base 1 in
  let '(res, rem) := div64_loop div64_fuel rem res b d in
  (res, wrap32 rem).

(** ** Bit scans *)

(** Masking with the bits [k..31] of a word clears its low [k] bits. *)
Lemma land_high x k :
  is_u32 x → 0 <= k <= 32 → Z.land x (2 ^ 32 - 2 ^ k) = x / 2 ^ k * 2 ^ k.
Proof.
  intros [Hx1 Hx2] Hk.
  replace (2 ^ 32 - 2 ^ k) with (Z.shiftl (Z.ones (32 - k)) k).
  2: { rewrite Z.ones_equiv, Z.shiftl_mul_pow2 by lia.
       rewrite <- Z.sub_1_r, Z.mul_sub_distr_r, <- Z.pow_add_r by lia.
       replace (32 - k + k) with 32 by lia. lia. }
  apply Z.bits_inj'. intros n Hn.
  rewrite <- Z.shiftl_mul_pow2, <- Z.shiftr_div_pow2 by lia.
  rewrite Z.land_spec, !Z.shiftl_spec by lia.
  destruct (Z.ltb_spec n k).
  - rewrite !(Z.testbit_neg_r _ (n - k)) by lia. by rewrite andb_false_r.
  - rewrite Z.shiftr_spec by lia. replace (n - k + k) with n by lia.
    destruct (Z.ltb_spec (n - k) (32 - k)).
    + by rewrite Z.ones_spec_low, andb_true_r by lia.
    + rewrite Z.ones_spec_high, andb_false_r by lia. symmetry.
      rewrite <- (Z.mod_small x (2 ^ 32)) by lia.
      apply Z.mod_pow2_bits_high. lia.
Qed.

Lemma land_high_zero x k :
  is_u32 x → 0 <= k <= 32 →
  (Z.land x (2 ^ 32 - 2 ^ k) =? 0) = (x <? 2 ^ k).
Proof.
  intros Hx Hk. rewrite land_high by done.
  pose proof (pow2_pos k). destruct Hx.
  destruct (Z.ltb_spec x (2 ^ k)).
  - rewrite Z.div_small by lia. done.
  - apply Z.eqb_neq. assert (1 <= x / 2 ^ k) by (apply Z.div_le_lower_bound; lia). nia.
Qed.

(** Invariant of [generic_fls]: the pair [(x, r)] stands for the argument. *)
Definition fls_inv (x0 : Z) (s : Z * Z) : Prop :=
  is_u32 (fst s) ∧ fst s = x0 * 2 ^ (32 - snd s) ∧ snd s <= 32.

Lemma fls_step_inv x0 n s :
  0 < x0 → 0 < n <= 16 →
  fls_inv x0 s → 2 ^ (32 - 2 * n) <= fst s →
  fls_inv x0 (fls_step (2 ^ 32 - 2 ^ (32 - n)) n s) ∧
  2 ^ (32 - n) <= fst (fls_step (2 ^ 32 - 2 ^ (32 - n)) n s).
Proof.
  intros Hx0 Hn (Hu & He & Hr) Hlo. destruct s as [x r]; simpl in *.
  rewrite land_high_zero by (done || lia).
  destruct (Z.ltb_spec x (2 ^ (32 - n))); [|by unfold fls_inv].
  rewrite Z.shiftl_mul_pow2 by lia.
  assert (x * 2 ^ n < 2 ^ 32).
  { replace (2 ^ 32) with (2 ^ (32 - n) * 2 ^ n)
      by (rewrite <- Z.pow_add_r by lia; f_equal; lia). nia. }
  destruct Hu. assert (0 <= x * 2 ^ n) by nia.
  rewrite wrap32_id by (unfold is_u32; lia).
  split; [split; [done|split]|]; simpl; [|lia|].
  - rewrite He, <- Z.mul_assoc, <- Z.pow_add_r by lia. do 2 f_equal. lia.
  - replace (32 - n) with (32 - 2 * n + n) by lia.
    rewrite Z.pow_add_r by lia. nia.
Qed.

(** [generic_fls], and with it [fls], is one more than the integer
    logarithm: the 1-based index of the most significant set bit. *)
Theorem generic_fls_log2 x : 0 < x < 2 ^ 32 → generic_fls x = Z.log2 x + 1.
Proof.
  intros Hx. unfold generic_fls. destruct (Z.eqb_spec x 0); [lia|].
  assert (H0 : fls_inv x (x, 32)) by (repeat split; simpl; lia).
  destruct (fls_step_inv x 16 (x, 32)) as [H1 L1]; [lia|lia|done|simpl; lia|].
  destruct (fls_step_inv x 8 _ ltac:(lia) ltac:(lia) H1 L1) as [H2 L2].
  destruct (fls_step_inv x 4 _ ltac:(lia) ltac:(lia) H2 L2) as [H3 L3].
  destruct (fls_step_inv x 2 _ ltac:(lia) ltac:(lia) H3 L3) as [H4 L4].
  destruct (fls_step_inv x 1 _ ltac:(lia) ltac:(lia) H4 L4) as [H5 L5].
  change (2 ^ 32 - 2 ^ (32 - 16)) with 0xffff0000 in *.
  change (2 ^ 32 - 2 ^ (32 - 8)) with 0xff000000 in *.
  change (2 ^ 32 - 2 ^ (32 - 4)) with 0xf0000000 in *.
  change (2 ^ 32 - 2 ^ (32 - 2)) with 0xc0000000 in *.
  change (2 ^ 32 - 2 ^ (32 - 1)) with 0x80000000 in *.
  clear H1 L1 H2 L2 H3 L3 H4 L4.
  set (s := fls_step 0x80000000 1 _) in *.
  destruct s as [y r], H5 as ([_ Hy2] & He & Hr); simpl in *.
  assert (Z.log2 y = 31) as Hl by (apply Z.log2_unique; lia).
  rewrite He, Z.log2_mul_pow2 in Hl by lia. lia.
Qed.

(** Invariant of [generic_ffs]. *)
Definition ffs_inv (x0 : Z) (s : Z * Z) : Prop :=
  1 <= snd s ∧ x0 = fst s * 2 ^ (snd s - 1).

Lemma ffs_step_inv x0 n s :
  0 < n → ffs_inv x0 s → fst s mod 2 ^ (2 * n) ≠ 0 →
  ffs_inv x0 (ffs_step (2 ^ n - 1) n s) ∧
  fst (ffs_step (2 ^ n - 1) n s) mod 2 ^ n ≠ 0 ∧
  snd s <= snd (ffs_step (2 ^ n - 1) n s) <= snd s + n.
Proof.
  intros Hn (Hr & He) Hm. destruct s as [x r]; simpl in *.
  rewrite land_mask by lia. pose proof (pow2_pos n).
  destruct (Z.eqb_spec (x mod 2 ^ n) 0) as [H0|?]; simpl; [|repeat split; simpl; lia].
  rewrite Z.shiftr_div_pow2 by lia.
  assert (x = 2 ^ n * (x / 2 ^ n)) as Hx by (apply Z_div_exact_full_2; lia).
  split; [split; simpl; [lia|]|split; [|lia]].
  - replace (r + n - 1) with (n + (r - 1)) by lia.
    rewrite Z.pow_add_r by lia. rewrite Z.mul_assoc.
    rewrite (Z.mul_comm (x / 2 ^ n)), <- Hx. done.
  - intros Hz. apply Hm. replace (2 * n) with (n + n) by lia.
    rewrite Z.pow_add_r, Z.rem_mul_r by lia. rewrite H0, Hz. lia.
Qed.

Lemma generic_ffs_spec x :
  - 2 ^ 31 <= x < 2 ^ 31 → x ≠ 0 →
  1 <= generic_ffs x <= 32 ∧
  Z.testbit x (generic_ffs x - 1) = true ∧
  ∀ i, i < generic_ffs x - 1 → Z.testbit x i = false.
Proof.
  intros Hx Hnz. unfold generic_ffs. destruct (Z.eqb_spec x 0); [lia|].
  assert (H0 : ffs_inv x (x, 1)) by (split; simpl; lia).
  destruct (ffs_step_inv x 16 (x, 1)) as (H1 & L1 & B1); [lia|done|simpl; zdm|].
  destruct (ffs_step_inv x 8 _ ltac:(lia) H1 L1) as (H2 & L2 & B2).
  destruct (ffs_step_inv x 4 _ ltac:(lia) H2 L2) as (H3 & L3 & B3).
  destruct (ffs_step_inv x 2 _ ltac:(lia) H3 L3) as (H4 & L4 & B4).
  destruct (ffs_step_inv x 1 _ ltac:(lia) H4 L4) as (H5 & L5 & B5).
  change (2 ^ 16 - 1) with 0xffff in *. change (2 ^ 8 - 1) with 0xff in *.
  change (2 ^ 4 - 1) with 0xf in *. change (2 ^ 2 - 1) with 3 in *.
  change (2 ^ 1 - 1) with 1 in *.
  set (s := ffs_step 1 1 _) in *. change (snd (x, 1)) with 1 in B1.
  assert (snd s <= 32) as Hs32 by lia.
  clear - Hs32 H5 L5. destruct s as [y r], H5 as (Hr & He); simpl in *.
  split; [lia|]. rewrite He. split.
  - rewrite Z.mul_pow2_bits by lia. rewrite Z.sub_diag, Z.bit0_odd.
    rewrite Z.pow_1_r, Zmod_odd in L5. by destruct (Z.odd y).
  - intros i Hi. destruct (Z.ltb_spec i 0).
    + by apply Z.testbit_neg_r.
    + rewrite Z.mul_pow2_bits by lia. apply Z.testbit_neg_r. lia.
Qed.

(** [generic_ffs] of a non-zero [int] is the 1-based index of its least
    significant set bit: that bit is set, every lower one is clear, and the
    index lies in 1..32. *)
Theorem generic_ffs_lowest x :
  - 2 ^ 31 <= x < 2 ^ 31 → x ≠ 0 →
  1 <= generic_ffs x <= 32 ∧
  Z.testbit x (generic_ffs x - 1) = true ∧
  ∀ i, i < generic_ffs x - 1 → Z.testbit x i = false.
Proof. apply generic_ffs_spec. Qed.

(** ** Rounding up to a power of two *)

Lemma roundup_pow_of_two_spec x :
  0 < x <= 2 ^ 31 →
  ∃ k, 0 <= k <= 31 ∧ roundup_pow_of_two x = 2 ^ k ∧
       x <= 2 ^ k ∧ (x = 1 ∨ 2 ^ (k - 1) < x).
Proof.
  intros Hx. unfold roundup_pow_of_two.
  rewrite (wrap32_id (x - 1)) by (unfold is_u32; lia).
  destruct (Z.eqb_spec x 1) as [->|Hne].
  { exists 0. split; [lia|]. split; [reflexivity|]. split; [simpl; lia|auto]. }
  rewrite generic_fls_log2 by lia.
  pose proof (Z.log2_spec (x - 1) ltac:(lia)) as [Hl Hu].
  assert (Z.log2 (x - 1) <= 30).
  { apply Z.lt_succ_r. apply Z.log2_lt_pow2; lia. }
  pose proof (Z.log2_nonneg (x - 1)).
  exists (Z.log2 (x - 1) + 1). rewrite Z.shiftl_mul_pow2, Z.mul_1_l by lia.
  rewrite <- Z.add_1_r in Hu.
  assert (2 ^ (Z.log2 (x - 1) + 1) <= 2 ^ 31) by (apply Z.pow_le_mono_r; lia).
  split; [lia|]. split; [|split; [lia|]].
  - apply wrap32_id. unfold is_u32. split; [|lia]. pose proof (pow2_pos (Z.log2 (x-1)+1)); lia.
  - right. replace (Z.log2 (x - 1) + 1 - 1) with (Z.log2 (x - 1)) by lia. lia.
Qed.

(** ** Integer square root *)

(** The value of [one] when [n] binary digits of the root remain. *)
Definition isqrt_one (n : nat) : Z :=
  match n with O => 0 | S m => 4 ^ Z.of_nat m end.

Lemma isqrt_one_div n : isqrt_one (S n) / 4 = isqrt_one n.
Proof.
  destruct n as [|n]; [done|]. simpl isqrt_one.
  rewrite Nat2Z.inj_succ, Z.pow_succ_r by lia. rewrite Z.mul_comm. apply Z.div_mul. lia.
Qed.

Lemma isqrt_start_spec n : ∀ fuel x,
  (n < fuel)%nat → 0 <= x < 4 ^ Z.of_nat n →
  ∃ m, (m <= n)%nat ∧ isqrt_start fuel x (isqrt_one n) = isqrt_one m ∧
       x < 4 ^ Z.of_nat m.
Proof.
  induction n as [|n IH]; intros [|fuel] x Hf Hx; try lia; simpl isqrt_start.
  - exists 0%nat. replace x with 0 by (simpl in Hx; lia). done.
  - change (4 ^ Z.of_nat n) with (isqrt_one (S n)).
    rewrite Z.shiftr_div_pow2 by lia. change (2 ^ 2) with 4.
    rewrite isqrt_one_div. case_zb; [|exists (S n); split; [lia|split; [done|lia]]].
    destruct (IH fuel x) as (m & ? & ? & ?); [lia|simpl in H; lia|].
    exists m. split; [lia|done].
Qed.

Lemma isqrt_loop_spec n : ∀ fuel x op R,
  (n < fuel)%nat → (n <= 16)%nat →
  0 <= R → R mod 2 ^ Z.of_nat n = 0 → R + 2 ^ Z.of_nat n <= 2 ^ 16 →
  is_u32 op → x = op + R * R → x < (R + 2 ^ Z.of_nat n) * (R + 2 ^ Z.of_nat n) →
  ∃ Q, isqrt_loop fuel op (R * 2 ^ Z.of_nat n) (isqrt_one n) = Q ∧
       0 <= Q ∧ Q * Q <= x < (Q + 1) * (Q + 1).
Proof.
  induction n as [|n IH]; intros [|fuel] x op R Hf Hn HR Hdiv Hle [Hop1 Hop2] Hx Hlt;
    try lia; simpl isqrt_loop.
  { exists (R * 1). simpl in Hlt. split; [done|]. nia. }
  rewrite Nat2Z.inj_succ, Z.pow_succ_r in * by lia.
  set (h := 2 ^ Z.of_nat n) in *.
  assert (Hh : 1 <= h) by (subst h; pose proof (pow2_pos (Z.of_nat n)); lia).
  assert (Hone : 4 ^ Z.of_nat n = h * h)
    by (change 4 with (2 * 2); by rewrite Z.pow_mul_l by lia).
  rewrite Hone. destruct (Z.eqb_spec (h * h) 0) as [|_]; [nia|].
  assert (Hh15 : 2 * h <= 2 ^ 16) by lia.
  assert (R * (2 * h) <= 2 ^ 30).
  { assert (R * (2 * h) <= (2 ^ 16 - 2 * h) * (2 * h))
      by (apply Z.mul_le_mono_nonneg_r; lia).
    pose proof (Z.square_nonneg (2 ^ 15 - 2 * h)). lia. }
  assert (1 <= h * h <= 2 ^ 30) by nia.
  assert (0 <= R * (2 * h)) by nia.
  rewrite !wrap32_id by (unfold is_u32; lia).
  assert (HRh : ∃ q, R = q * (2 * h)).
  { apply Zmod_divides in Hdiv; [|lia]. destruct Hdiv as [q ->]. exists q. lia. }
  destruct HRh as [q HRq].
  rewrite <- Hone. change (4 ^ Z.of_nat n) with (isqrt_one (S n)). rewrite isqrt_one_div.
  simpl (isqrt_one (S n)). rewrite Hone.
  destruct (Z.leb_spec (R * (2 * h) + h * h) op) as [Hc|Hc].
  - rewrite (wrap32_id (2 * (h * h))), !wrap32_id by (unfold is_u32; lia).
    rewrite ?(wrap32_id (R * (2 * h) + 2 * (h * h))) by (unfold is_u32; lia).
    replace ((R * (2 * h) + 2 * (h * h)) / 2) with ((R + h) * h)
      by (symmetry; replace (R * (2 * h) + 2 * (h * h)) with (((R + h) * h) * 2) by lia;
          apply Z.div_mul; lia).
    apply IH; unfold is_u32; try lia.
    rewrite HRq. replace (q * (2 * h) + h) with ((2 * q + 1) * h) by lia.
    apply Z_mod_mult.
  - replace ((R * (2 * h)) / 2) with (R * h)
      by (symmetry; replace (R * (2 * h)) with (R * h * 2) by lia; apply Z.div_mul; lia).
    apply IH; unfold is_u32; try lia.
    rewrite HRq. replace (q * (2 * h)) with ((2 * q) * h) by lia. apply Z_mod_mult.
Qed.

(** [int_sqrt], described in the source as a rough approximation, is the
    exact floor of the square root on every [unsigned long]. *)
Theorem int_sqrt_exact x : is_u32 x → int_sqrt x = Z.sqrt x.
Proof.
  intros [H1 H2]. unfold int_sqrt, isqrt_fuel.
  change (2 ^ 30) with (isqrt_one 16).
  destruct (isqrt_start_spec 16 17 x) as (m & Hm & -> & Hlt); [lia|simpl; lia|].
  assert (4 ^ Z.of_nat m = 2 ^ Z.of_nat m * 2 ^ Z.of_nat m)
    by (change 4 with (2 * 2); by rewrite Z.pow_mul_l by lia).
  assert (2 ^ Z.of_nat m <= 2 ^ 16) by (apply Z.pow_le_mono_r; lia).
  destruct (isqrt_loop_spec m 17 x x 0) as (Q & HQ & ? & ? & ?);
    try lia; [by rewrite Zmod_0_l|by unfold is_u32|].
  rewrite Z.mul_0_l in HQ. rewrite HQ. symmetry. apply Z.sqrt_unique. lia.
Qed.

(** ** Population count *)

(** The number of set bits among the low [n] bits. *)
Fixpoint popcount (n : nat) (w : Z) : Z :=
  match n with
  | O => 0
  | S n => w mod 2 + popcount n (w / 2)
  end.

Lemma land_split k a y m M :
  0 <= k → 0 <= a < 2 ^ k → 0 <= m < 2 ^ k →
  Z.land (a + 2 ^ k * y) (m + 2 ^ k * M) = Z.land a m + 2 ^ k * Z.land y M.
Proof.
  intros Hk Ha Hm.
  assert (E : ∀ u v, 0 <= u < 2 ^ k → u + 2 ^ k * v = Z.lor (Z.shiftl v k) u).
  { intros u v Hu. rewrite Z.lor_comm, Z.shiftl_mul_pow2, (Z.mul_comm _ v) by lia.
    apply Z.add_nocarry_lor. apply Z.bits_inj'. intros n Hn. rewrite Z.land_spec, Z.bits_0.
    destruct (Z.ltb_spec n k).
    - by rewrite Z.mul_pow2_bits_low, andb_false_r by lia.
    - rewrite <- (Z.mod_small u (2 ^ k)) by lia.
      by rewrite Z.mod_pow2_bits_high by lia. }
  pose proof (land_bound a m k Hk Hm).
  rewrite !E by done. apply Z.bits_inj'. intros n Hn.
  rewrite !Z.lor_spec, Z.land_spec, !Z.lor_spec, !Z.land_spec, !Z.shiftl_spec,
    Z.land_spec by lia.
  destruct (Z.ltb_spec n k).
  - rewrite !(Z.testbit_neg_r _ (n - k)) by lia. done.
  - rewrite <- (Z.mod_small a (2 ^ k)), <- (Z.mod_small m (2 ^ k)) by lia.
    rewrite !Z.mod_pow2_bits_high by lia. by rewrite !orb_false_r.
Qed.

(** The fields of a SWAR word do not interact: a step works field by field. *)
Lemma swar_split k n a y m M :
  0 <= n <= k → 0 <= a < 2 ^ k → 0 <= m < 2 ^ (k - n) →
  swar_step (m + 2 ^ k * M) n (a + 2 ^ k * y)
  = swar_step m n a + 2 ^ k * swar_step M n y.
Proof.
  intros Hn Ha Hm. unfold swar_step.
  assert (2 ^ k = 2 ^ (k - n) * 2 ^ n) as Hp
    by (rewrite <- Z.pow_add_r by lia; f_equal; lia).
  pose proof (pow2_pos n). pose proof (pow2_pos (k - n)).
  rewrite land_split by nia.
  replace (Z.shiftr (a + 2 ^ k * y) n)
    with ((Z.shiftr a n + 2 ^ (k - n) * (y mod 2 ^ n)) + 2 ^ k * Z.shiftr y n).
  - rewrite land_split; [|lia| |nia].
    + replace (Z.land (Z.shiftr a n + 2 ^ (k - n) * (y mod 2 ^ n)) m)
        with (Z.land (Z.shiftr a n) m); [lia|].
      rewrite <- (Z.add_0_r m) at 2. rewrite <- (Z.mul_0_r (2 ^ (k - n))).
      rewrite land_split; rewrite ?Z.land_0_r; try lia.
      rewrite Z.shiftr_div_pow2 by lia. split; [apply Z.div_pos; lia|].
      apply Z.div_lt_upper_bound; nia.
    + rewrite Z.shiftr_div_pow2 by lia.
      assert (0 <= a / 2 ^ n < 2 ^ (k - n))
        by (split; [apply Z.div_pos; lia|apply Z.div_lt_upper_bound; nia]).
      pose proof (Z.mod_pos_bound y (2 ^ n)). nia.
  - rewrite !Z.shiftr_div_pow2 by lia. rewrite Hp.
    replace (a + 2 ^ (k - n) * 2 ^ n * y) with (a + (2 ^ (k - n) * y) * 2 ^ n) by lia.
    rewrite Z.div_add by lia. rewrite (Z.div_mod y (2 ^ n)) at 3 by lia. lia.
Qed.

Lemma popcount_split n a y :
  0 <= a < 2 ^ Z.of_nat n →
  ∀ k, popcount (n + k) (a + 2 ^ Z.of_nat n * y) = popcount n a + popcount k y.
Proof.
  revert a y. induction n as [|n IH]; intros a y Ha k.
  - simpl in *. replace a with 0 by lia. by rewrite Z.add_0_l, Z.mul_1_l.
  - rewrite Nat2Z.inj_succ, Z.pow_succ_r in * by lia. simpl popcount.
    replace (a + 2 * 2 ^ Z.of_nat n * y) with (a + (2 ^ Z.of_nat n * y) * 2) by lia.
    rewrite Z_mod_plus_full, Z.div_add by lia. rewrite IH by zdm. lia.
Qed.

Lemma popcount_split8 k a y :
  0 <= a < 256 → popcount (8 + k) (a + 256 * y) = popcount 8 a + popcount k y.
Proof. intros. by apply (popcount_split 8). Qed.

(** Three SWAR steps count the bits of a byte (checked on all 256 of them). *)
Definition swar8 (x : Z) : Z :=
  swar_step 0x0F 4 (swar_step 0x33 2 (swar_step 0x55 1 x)).

Definition swar8_ok (x : Z) : bool :=
  (swar8 x =? popcount 8 x) && (0 <=? swar8 x) && (swar8 x <=? 8)
  && (0 <=? swar_step 0x55 1 x) && (swar_step 0x55 1 x <? 256)
  && (0 <=? swar_step 0x33 2 (swar_step 0x55 1 x))
  && (swar_step 0x33 2 (swar_step 0x55 1 x) <? 256).

Lemma swar8_all x : 0 <= x < 256 → swar8_ok x = true.
Proof.
  intros Hx.
  assert (forallb swar8_ok (seqZ 0 256) = true) as H by (vm_compute; reflexivity).
  rewrite forallb_forall in H. apply H. apply list_elem_of_In, elem_of_seqZ. lia.
Qed.

Lemma swar8_popcount x :
  0 <= x < 256 →
  swar8 x = popcount 8 x ∧ 0 <= swar8 x <= 8 ∧
  0 <= swar_step 0x55 1 x < 256 ∧
  0 <= swar_step 0x33 2 (swar_step 0x55 1 x) < 256.
Proof. intros Hx. pose proof (swar8_all x Hx) as H. unfold swar8_ok in H. zb_hyps. lia. Qed.

(** The three byte-local steps of [generic_hweight32] on a word split into
    bytes, one byte at a time from the top. *)
Lemma swar_bytes n a b c d m :
  0 <= n <= 8 → 0 <= m < 2 ^ (8 - n) →
  0 <= a < 256 → 0 <= b < 256 → 0 <= c < 256 →
  swar_step (m + 256 * (m + 256 * (m + 256 * m))) n (a + 256 * (b + 256 * (c + 256 * d)))
  = swar_step m n a + 256 * (swar_step m n b + 256 * (swar_step m n c + 256 * swar_step m n d)).
Proof. intros. change 256 with (2 ^ 8). by rewrite !swar_split by lia. Qed.

Lemma hweight_halves x y z t :
  0 <= x <= 8 → 0 <= y <= 8 → 0 <= z <= 8 → 0 <= t <= 8 →
  swar_step 0xFFFF 16 (swar_step 0x00FF00FF 8 (x + 256 * (y + 256 * (z + 256 * t))))
  = x + y + z + t.
Proof.
  intros. replace (x + 256 * (y + 256 * (z + 256 * t)))
    with ((x + 2 ^ 8 * y) + 2 ^ 16 * (z + 2 ^ 8 * t)) by lia.
  change 0x00FF00FF with (255 + 2 ^ 16 * 255). rewrite swar_split by lia.
  assert (E : ∀ k u v, 0 <= k → 0 <= u < 2 ^ k → 0 <= v < 2 ^ k →
    swar_step (2 ^ k - 1) k (u + 2 ^ k * v) = u + v).
  { intros k u v ???. unfold swar_step. rewrite !land_mask, Z.shiftr_div_pow2 by lia.
    rewrite (Z.mul_comm _ v), Z_mod_plus_full, Z.div_add by lia.
    rewrite (Z.div_small u) by lia. rewrite !Z.mod_small by lia. done. }
  change 255 with (2 ^ 8 - 1). rewrite !E by lia.
  change 0xFFFF with (2 ^ 16 - 1). rewrite E by lia. lia.
Qed.

Lemma bytes_of_u32 w :
  is_u32 w → ∃ a b c d,
  w = a + 256 * (b + 256 * (c + 256 * d)) ∧
  0 <= a < 256 ∧ 0 <= b < 256 ∧ 0 <= c < 256 ∧ 0 <= d < 256.
Proof.
  intros [? ?]. exists (w mod 256), (w / 256 mod 256), (w / 65536 mod 256), (w / 16777216).
  zdm.
Qed.

Lemma swar_step_u32 m n x : 0 <= m < 2 ^ 30 → is_u32 (swar_step m n x).
Proof.
  intros Hm. pose proof (land_bound x m 30). pose proof (land_bound (Z.shiftr x n) m 30).
  unfold swar_step, is_u32. lia.
Qed.

(** the five mask-and-add steps of [generic_hweight32] count the set bits
    of every 32-bit word. *)
Theorem generic_hweight32_popcount w :
  is_u32 w → generic_hweight32 w = popcount 32 w.
Proof.
  intros Hw. destruct (bytes_of_u32 w Hw) as (a & b & c & d & -> & Ha & Hb & Hc & Hd).
  destruct (swar8_popcount a Ha) as (Pa & Ra & A1 & A2).
  destruct (swar8_popcount b Hb) as (Pb & Rb & B1 & B2).
  destruct (swar8_popcount c Hc) as (Pc & Rc & C1 & C2).
  destruct (swar8_popcount d Hd) as (Pd & Rd & D1 & D2).
  unfold generic_hweight32.
  rewrite (ltac:(reflexivity) : 0x55555555 = 0x55 + 256 * (0x55 + 256 * (0x55 + 256 * 0x55))).
  rewrite (ltac:(reflexivity) : 0x33333333 = 0x33 + 256 * (0x33 + 256 * (0x33 + 256 * 0x33))).
  rewrite (ltac:(reflexivity) : 0x0F0F0F0F = 0x0F + 256 * (0x0F + 256 * (0x0F + 256 * 0x0F))).
  rewrite (swar_bytes 1) by lia. rewrite (wrap32_id (swar_step 0x55 1 a + _)) by (unfold is_u32; lia).
  rewrite (swar_bytes 2) by lia. rewrite (wrap32_id (swar_step 0x33 2 _ + _)) by (unfold is_u32; lia).
  rewrite (swar_bytes 4) by lia. fold (swar8 a) (swar8 b) (swar8 c) (swar8 d).
  rewrite (wrap32_id (swar8 a + _)) by (unfold is_u32; lia).
  pose proof (hweight_halves (swar8 a) (swar8 b) (swar8 c) (swar8 d) Ra Rb Rc Rd) as Hh.
  rewrite (wrap32_id (swar_step 0x00FF00FF 8 _)) by (apply swar_step_u32; lia).
  rewrite Hh, Pa, Pb, Pc, Pd, wrap32_id by (unfold is_u32; lia).
  rewrite (popcount_split8 24), (popcount_split8 16), (popcount_split8 8) by done. lia.
Qed.

(** ** 64-by-32 division *)

Lemma sgn64_pos x : 0 <= x < 2 ^ 64 → (0 <? sgn64 x) = (0 <? x) && (x <? 2 ^ 63).
Proof.
  intros. unfold sgn64, wrap64. rewrite Z.mod_small by lia.
  destruct (Z.ltb_spec x (2 ^ 63)).
  - by rewrite andb_true_r.
  - rewrite andb_false_r. apply Z.ltb_ge. lia.
Qed.

Lemma div64_scale_spec fuel : ∀ rem base k,
  1 <= base → 0 <= rem < 2 ^ 64 → 0 <= k →
  64 <= Z.of_nat fuel + k → base * 2 ^ k < 2 ^ 64 →
  ∃ j, k <= j <= 63 ∧ base * 2 ^ j < 2 ^ 64 ∧
       div64_scale fuel rem (base * 2 ^ k) (2 ^ k) = (base * 2 ^ j, 2 ^ j) ∧
       rem < 2 * (base * 2 ^ j).
Proof.
  induction fuel as [|fuel IH]; intros rem base k Hb Hr Hk Hf Hov; simpl div64_scale;
    pose proof (pow2_pos k Hk).
  { assert (2 ^ 64 <= 2 ^ k) by (apply Z.pow_le_mono_r; lia). nia. }
  assert (k <= 63).
  { destruct (Z.leb_spec k 63); [done|].
    assert (2 ^ 64 <= 2 ^ k) by (apply Z.pow_le_mono_r; lia). nia. }
  rewrite sgn64_pos by nia.
  destruct (Z.ltb_spec 0 (base * 2 ^ k)); [|nia].
  destruct (Z.ltb_spec (base * 2 ^ k) (2 ^ 63)); simpl.
  2: { exists k. repeat split; lia. }
  destruct (Z.ltb_spec (base * 2 ^ k) rem); simpl.
  2: { exists k. repeat split; lia. }
  assert (Hd : 2 ^ k <= base * 2 ^ k) by nia.
  unfold wrap64. rewrite !Z.mod_small by lia.
  replace (base * 2 ^ k + base * 2 ^ k) with (base * 2 ^ (k + 1))
    by (rewrite Z.pow_add_r by lia; lia).
  replace (2 ^ k + 2 ^ k) with (2 ^ (k + 1)) by (rewrite Z.pow_add_r by lia; lia).
  destruct (IH rem base (k + 1)) as (j & ? & ? & ? & ?); try lia.
  { rewrite Z.pow_add_r by lia. lia. }
  exists j. split; [lia|done].
Qed.

Lemma div64_loop_spec k : ∀ fuel n rem res base,
  (k < fuel)%nat → 1 <= base → 0 <= rem → 0 <= res → n < 2 ^ 64 →
  res * base + rem = n → rem < 2 * (base * 2 ^ Z.of_nat k) →
  div64_loop fuel rem res (base * 2 ^ Z.of_nat k) (2 ^ Z.of_nat k) = (n / base, n mod base).
Proof.
  induction k as [|k IH]; intros [|fuel] n rem res base Hf Hb Hr Hs Hn He Hlt; try lia;
    cbn [div64_loop]; rewrite !Z.shiftr_div_pow2 by lia; change (2 ^ 1) with 2.
  - rewrite Z.mul_1_r in *. change (1 / 2) with 0. change (0 =? 0) with true. unfold wrap64.
    destruct (Z.leb_spec base rem).
    + rewrite !Z.mod_small by nia. f_equal.
      * apply Z.div_unique with (rem - base); nia.
      * apply Z.mod_unique with (res + 1); nia.
    + f_equal; [apply Z.div_unique with rem|apply Z.mod_unique with res]; nia.
  - rewrite Nat2Z.inj_succ, Z.pow_succ_r in * by lia.
    set (p := 2 ^ Z.of_nat k) in *. assert (1 <= p) by (pose proof (pow2_pos (Z.of_nat k)); lia).
    replace (base * (2 * p) / 2) with (base * p)
      by (symmetry; replace (base * (2 * p)) with (base * p * 2) by lia; apply Z.div_mul; lia).
    replace (2 * p / 2) with p by (symmetry; rewrite Z.mul_comm; apply Z.div_mul; lia).
    destruct (Z.eqb_spec p 0); [lia|]. unfold wrap64.
    destruct (Z.leb_spec (base * (2 * p)) rem).
    + rewrite !Z.mod_small by nia. apply IH; try lia; try nia.
    + apply IH; lia.
Qed.

(** [__div64_32] divides: for every 64-bit dividend and non-zero 32-bit
    divisor it leaves the quotient in [*n] and returns the remainder, and both
    of its loops end within their fuel. *)
Theorem div64_32_correct n base :
  0 <= n < 2 ^ 64 → 1 <= base < 2 ^ 32 →
  __div64_32 n base = (n / base, n mod base).
Proof.
  intros Hn Hb. unfold __div64_32. rewrite Z.shiftr_div_pow2 by lia.
  assert (Hh : is_u32 (n / 2 ^ 32)) by (unfold is_u32; zdm).
  rewrite wrap32_id by done. set (high := n / 2 ^ 32) in *.
  assert (Hmain : ∀ res rem, 0 <= res → 0 <= rem → res * base + rem = n →
    (let '(b, d) := div64_scale div64_fuel rem base 1 in
     let '(res, rem) := div64_loop div64_fuel rem res b d in (res, wrap32 rem))
    = (n / base, n mod base)).
  { intros res rem ? ? He.
    assert (0 <= res * base) by (apply Z.mul_nonneg_nonneg; lia).
    destruct (div64_scale_spec div64_fuel rem base 0) as (j & Hj & Hov & Hs & Hlt);
      try (unfold div64_fuel; lia).
    rewrite Z.pow_0_r, Z.mul_1_r in Hs. rewrite Hs.
    replace j with (Z.of_nat (Z.to_nat j)) in * by lia.
    rewrite (div64_loop_spec (Z.to_nat j) div64_fuel n rem res base);
      try (unfold div64_fuel; lia).
    rewrite wrap32_id; [done|]. pose proof (Z.mod_pos_bound n base). unfold is_u32. lia. }
  destruct (Z.leb_spec base high) as [Hc|Hc]; [|apply Hmain; lia].
  assert (Hq : high / base * base <= high) by (rewrite Z.mul_comm; apply Z.mul_div_le; lia).
  assert (0 <= high / base) by (apply Z.div_pos; lia).
  assert (high * 2 ^ 32 <= n) by (subst high; zdm).
  assert (0 <= high / base * base) by (apply Z.mul_nonneg_nonneg; lia).
  assert (high / base <= high / base * base) by nia.
  destruct Hh as [_ Hh2]. rewrite (wrap32_id (high / base * base)) by (unfold is_u32; lia).
  rewrite !Z.shiftl_mul_pow2 by lia. unfold wrap64.
  rewrite (Z.mod_small (high / base * 2 ^ 32)), (Z.mod_small (high / base * base * 2 ^ 32)),
    Z.mod_small by lia.
  apply Hmain; lia.
Qed.

(** ** Concrete instances *)

Lemma generic_fls_log2_witness : generic_fls 0x80000001 = Z.log2 0x80000001 + 1.
Proof. apply generic_fls_log2. done. Defined.

Lemma generic_ffs_lowest_witness :
  Z.testbit (-40) (generic_ffs (-40) - 1) = true ∧ generic_ffs (-40) = 4.
Proof.
  split; [|reflexivity]. apply (generic_ffs_lowest (-40)); done.
Defined.

Lemma int_sqrt_exact_witness : int_sqrt 4294967295 = Z.sqrt 4294967295.
Proof. apply int_sqrt_exact. done. Defined.

Lemma generic_hweight32_popcount_witness : generic_hweight32 0xF0F1 = popcount 32 0xF0F1.
Proof. apply generic_hweight32_popcount. done. Defined.

Lemma div64_32_correct_witness :
  __div64_32 (2 ^ 63 + 12345) 77 = ((2 ^ 63 + 12345) / 77, (2 ^ 63 + 12345) mod 77).
Proof. apply div64_32_correct; done. Defined.
