(* ===== verification/Kfifo.v ===== *)
(** * kernel/kfifo.c: the generic kernel FIFO

    A power-of-two byte ring whose [in] and [out] indices run freely over the
    whole [unsigned int] range.  [Kfifo] holds the data, the operations of
    kernel/kfifo.c and include/linux/kfifo.h and their refinement to a bounded
    queue of bytes; [Spsc] splits [__kfifo_put] and [__kfifo_get] into their
    shared accesses and proves the lock-free one-reader/one-writer use that
    the source's comments promise. *)

From stdpp Require Import prelude numbers list.
From Stdlib Require Import ZArith Lia.
From S2P Require Import Prelude Bitops.

#[local] Set Default Goal Selector "!".
#[local] Open Scope Z_scope.

(** [memcpy(dst + doff, src + soff, n)]; leaving either object is [Bug]. *)
Definition memcpy (dst : list Z) (doff : Z) (src : list Z) (soff n : Z)
    : outcome (list Z) :=
  if (0 <=? doff) && (0 <=? soff) && (0 <=? n)
     && (doff + n <=? Z.of_nat (length dst)) && (soff + n <=? Z.of_nat (length src))
  then Ok (take (Z.to_nat doff) dst
           ++ take (Z.to_nat n) (drop (Z.to_nat soff) src)
           ++ drop (Z.to_nat (doff + n)) dst)
  else Bug.

Module Kfifo.

(** [struct kfifo]; the lock pointer carries no data. *)
Record kfifo := mk_kfifo {
  buffer : list Z;
  size : Z;
  in_ : Z;
  out : Z;
}.

Definition set_buffer (f : kfifo) (b : list Z) : kfifo :=
  mk_kfifo b (size f) (in_ f) (out f).
Definition set_in (f : kfifo) (i : Z) : kfifo :=
  mk_kfifo (buffer f) (size f) i (out f).
Definition set_out (f : kfifo) (o : Z) : kfifo :=
  mk_kfifo (buffer f) (size f) (in_ f) o.



(** The four accesses of [__kfifo_put]: the length that fits, the copy up to
    the end of the ring, the copy at its beginning, the publication of [in]. *)
Definition put_len (f : kfifo) (len : Z) : Z :=
  Z.min len (wrap32 (wrap32 (size f - in_ f) + out f)).
Definition put_l (f : kfifo) (len : Z) : Z :=
  Z.min len (wrap32 (size f - Z.land (in_ f) (wrap32 (size f - 1)))).
Definition put_copy1 (f : kfifo) (data : list Z) (len : Z) : outcome kfifo :=
  b ← memcpy (buffer f) (Z.land (in_ f) (wrap32 (size f - 1))) data 0 (put_l f len);
  Ok (set_buffer f b).
Definition put_copy2 (f : kfifo) (data : list Z) (len : Z) : outcome kfifo :=
  let l := put_l f len in
  b ← memcpy (buffer f) 0 data l (wrap32 (len - l));
  Ok (set_buffer f b).
Definition put_publish (f : kfifo) (len : Z) : kfifo :=
  set_in f (wrap32 (in_ f + len)).

Definition __kfifo_put (f : kfifo) (data : list Z) (len : Z) : outcome (kfifo * Z) :=
  let len := put_len f len in
  f ← put_copy1 f data len;
  f ← put_copy2 f data len;
  Ok (put_publish f len, len).

(** The four accesses of [__kfifo_get]. *)
Definition get_len (f : kfifo) (len : Z) : Z :=
  Z.min len (wrap32 (in_ f - out f)).
Definition get_l (f : kfifo) (len : Z) : Z :=
  Z.min len (wrap32 (size f - Z.land (out f) (wrap32 (size f - 1)))).
Definition get_copy1 (f : kfifo) (dst : list Z) (len : Z) : outcome (list Z) :=
  memcpy dst 0 (buffer f) (Z.land (out f) (wrap32 (size f - 1))) (get_l f len).
Definition get_copy2 (f : kfifo) (dst : list Z) (len : Z) : outcome (list Z) :=
  let l := get_l f len in
  memcpy dst l (buffer f) 0 (wrap32 (len - l)).
Definition get_publish (f : kfifo) (len : Z) : kfifo :=
  set_out f (wrap32 (out f + len)).

(** Returns the fifo, the destination buffer and the number of bytes copied. *)
Definition __kfifo_get (f : kfifo) (dst : list Z) (len : Z)
    : outcome (kfifo * list Z * Z) :=
  let len := get_len f len in
  dst ← get_copy1 f dst len;
  dst ← get_copy2 f dst len;
  Ok (get_publish f len, dst, len).

Definition __kfifo_reset (f : kfifo) : kfifo := set_out (set_in f 0) 0.

(** The locked entry points of include/linux/kfifo.h. *)
Definition kfifo_get (f : kfifo) (dst : list Z) (len : Z)
    : outcome (kfifo * list Z * Z) :=
  '(f, dst, ret) ← __kfifo_get f dst len;
  let f := if in_ f =? out f then set_out (set_in f 0) 0 else f in
  Ok (f, dst, ret).

Definition __kfifo_len (f : kfifo) : Z := wrap32 (in_ f - out f).

(** ** Invariant and abstraction *)

Record wf (f : kfifo) : Prop := {
  wf_size : ∃ k, 0 <= k <= 31 ∧ size f = 2 ^ k;
  wf_length : Z.of_nat (length (buffer f)) = size f;
  wf_in : is_u32 (in_ f);
  wf_out : is_u32 (out f);
  wf_used : __kfifo_len f <= size f;
}.

(** The byte a free-running position [p] denotes. *)
Definition ring (b : list Z) (sz p : Z) : Z := b !!! Z.to_nat (p mod sz).

(** The queue a fifo stands for. *)
Definition contents (f : kfifo) : list Z :=
  (λ i, ring (buffer f) (size f) (out f + i)) <$> seqZ 0 (__kfifo_len f).

(** ** Lemmas on the ring *)

Lemma memcpy_spec dst doff src soff n :
  0 <= doff → 0 <= soff → 0 <= n →
  doff + n <= Z.of_nat (length dst) → soff + n <= Z.of_nat (length src) →
  ∃ d, memcpy dst doff src soff n = Ok d ∧ length d = length dst ∧
    ∀ j, 0 <= j →
      d !!! Z.to_nat j =
        if decide (doff <= j < doff + n)
        then src !!! Z.to_nat (soff + (j - doff)) else dst !!! Z.to_nat j.
Proof.
  intros H1 H2 H3 H4 H5. eexists. split.
  { unfold memcpy. repeat (case_zb; [|lia]). done. }
  split.
  { rewrite !length_app, !length_take, !length_drop. lia. }
  intros j Hj. rewrite !list_lookup_total_alt.
  destruct (decide (j < doff)).
  { rewrite lookup_app_l by (rewrite length_take; lia).
    rewrite decide_False by lia. by rewrite lookup_take_lt by lia. }
  rewrite lookup_app_r, length_take by (rewrite length_take; lia).
  destruct (decide (j < doff + n)).
  - rewrite decide_True by lia.
    rewrite lookup_app_l by (rewrite length_take, length_drop; lia).
    rewrite lookup_take_lt, lookup_drop by lia. do 2 f_equal. lia.
  - rewrite decide_False by lia.
    rewrite lookup_app_r by (rewrite length_take, length_drop; lia).
    rewrite lookup_drop, length_take, length_drop. do 2 f_equal. lia.
Qed.

Section ring.
Context (k sz : Z) (Hk : 0 <= k <= 31) (Hsz : sz = 2 ^ k).

Lemma size_pos : 1 <= sz <= 2 ^ 31.
Proof using Hk Hsz.
  subst sz. pose proof (pow2_pos k).
  assert (2 ^ k <= 2 ^ 31) by (apply Z.pow_le_mono_r; lia). lia.
Qed.

(** The offset the code computes with [& (size - 1)]. *)
Lemma ring_mask p : Z.land p (wrap32 (sz - 1)) = p mod sz.
Proof using Hk Hsz.
  pose proof size_pos. rewrite wrap32_id by (unfold is_u32; lia).
  subst sz. apply land_mask. lia.
Qed.

Lemma ring_mod p i :
  0 <= i < sz → (p + i) mod sz = if decide (i < sz - p mod sz) then p mod sz + i
                                 else p mod sz + i - sz.
Proof using Hk Hsz.
  intros Hi. pose proof size_pos. pose proof (Z.mod_pos_bound p sz ltac:(lia)).
  rewrite <- Zplus_mod_idemp_l. case_decide.
  - apply Z.mod_small. lia.
  - symmetry. apply Z.mod_unique with 1; lia.
Qed.

Lemma ring_wrap b p : ring b sz (wrap32 p) = ring b sz p.
Proof using Hk Hsz.
  unfold ring. subst sz. by rewrite wrap32_mod_pow2 by lia.
Qed.

Lemma ring_period b p : ring b sz (p + sz) = ring b sz p.
Proof using Hk Hsz.
  unfold ring. replace (p + sz) with (p + 1 * sz) by lia. by rewrite Z_mod_plus_full.
Qed.

(** Copying [n] bytes of [src] from [soff] to ring positions [p + i0 ..], where
    the run does not cross the end of the ring. *)
Lemma ring_memcpy b p i0 src soff n :
  Z.of_nat (length b) = sz → 0 <= i0 → 0 <= n → i0 + n <= sz → 0 <= soff →
  soff + n <= Z.of_nat (length src) →
  (n = 0 ∨ (p + i0) mod sz + n <= sz) →
  ∀ doff, (n = 0 → 0 <= doff <= sz) → (0 < n → doff = (p + i0) mod sz) →
  ∃ b', memcpy b doff src soff n = Ok b' ∧ length b' = length b ∧
    ∀ i, 0 <= i < sz →
      ring b' sz (p + i) =
        if decide (i0 <= i < i0 + n) then src !!! Z.to_nat (soff + (i - i0))
        else ring b sz (p + i).
Proof using Hk Hsz.
  intros Hb Hi0 Hn Hin Hs Hsrc Hrun doff Hd0 Hd1. pose proof size_pos.
  pose proof (Z.mod_pos_bound (p + i0) sz ltac:(lia)).
  assert (0 <= doff ∧ doff + n <= sz) as [? ?].
  { destruct (decide (n = 0)); [pose proof (Hd0 ltac:(lia)); lia|].
    rewrite Hd1 by lia. lia. }
  destruct (memcpy_spec b doff src soff n) as (b' & Hm & Hl & Hlk); try lia.
  exists b'. split; [done|]. split; [done|]. intros i Hi. unfold ring.
  pose proof (Z.mod_pos_bound (p + i) sz ltac:(lia)).
  rewrite Hlk by lia. destruct (decide (n = 0)) as [->|Hn0].
  { by rewrite !decide_False by lia. }
  rewrite Hd1 in * by lia.
  assert (Hrot : ∀ d, 0 <= d < sz → i = i0 + d ∨ i = i0 + d - sz →
    (p + i) mod sz = if decide (d < sz - (p + i0) mod sz) then (p + i0) mod sz + d
                     else (p + i0) mod sz + d - sz).
  { intros d Hd He. rewrite <- ring_mod by lia. destruct He as [-> | ->]; [f_equal; lia|].
    rewrite <- (Z_mod_plus_full (p + (i0 + d - sz)) 1). f_equal. lia. }
  destruct (decide (i0 <= i)).
  - rewrite (Hrot (i - i0)) by lia. destruct (decide (i - i0 < sz - (p + i0) mod sz)).
    + destruct (decide (i < i0 + n)); [rewrite !decide_True by lia; f_equal; lia|].
      by rewrite !decide_False by lia.
    + by rewrite !decide_False by lia.
  - rewrite (Hrot (i - i0 + sz)) by lia.
    destruct (decide (i - i0 + sz < sz - (p + i0) mod sz)); by rewrite !decide_False by lia.
Qed.
End ring.

(** What each copy of [__kfifo_put] does to the ring. *)
Lemma put_copy1_spec f data len :
  wf f → 0 <= len <= size f → len <= Z.of_nat (length data) →
  ∃ b', put_copy1 f data len = Ok (set_buffer f b') ∧
    length b' = length (buffer f) ∧
    ∀ i, 0 <= i < size f →
      ring b' (size f) (in_ f + i) =
        if decide (i < put_l f len) then data !!! Z.to_nat i
        else ring (buffer f) (size f) (in_ f + i).
Proof.
  intros [(k & Hk & Hsz) Hl Hi Ho Hu] Hlen Hd.
  pose proof (size_pos k _ Hk Hsz). pose proof (Z.mod_pos_bound (in_ f) (size f) ltac:(lia)).
  assert (Hpl : put_l f len = Z.min len (size f - in_ f mod size f)).
  { unfold put_l. rewrite (ring_mask k) by done. rewrite wrap32_id by (unfold is_u32; lia). done. }
  destruct (ring_memcpy k (size f) Hk Hsz (buffer f) (in_ f) 0 data 0 (put_l f len))
    with (doff := in_ f mod size f) as (b' & Hm & Hbl & Hr); try lia.
  { rewrite Z.add_0_r. lia. }
  { intros _. by rewrite Z.add_0_r. }
  exists b'. unfold put_copy1. rewrite (ring_mask k), Hm by done. split; [done|]. split; [done|].
  intros i Hi'. rewrite Hr by done.
  destruct (decide (i < put_l f len)); [rewrite decide_True by lia; f_equal; lia|].
  by rewrite decide_False by lia.
Qed.

Lemma put_copy2_spec f data len :
  wf f → 0 <= len <= size f → len <= Z.of_nat (length data) →
  ∃ b', put_copy2 f data len = Ok (set_buffer f b') ∧
    length b' = length (buffer f) ∧
    ∀ i, 0 <= i < size f →
      ring b' (size f) (in_ f + i) =
        if decide (put_l f len <= i < len) then data !!! Z.to_nat i
        else ring (buffer f) (size f) (in_ f + i).
Proof.
  intros [(k & Hk & Hsz) Hl Hi Ho Hu] Hlen Hd.
  pose proof (size_pos k _ Hk Hsz). pose proof (Z.mod_pos_bound (in_ f) (size f) ltac:(lia)).
  assert (Hpl : put_l f len = Z.min len (size f - in_ f mod size f)).
  { unfold put_l. rewrite (ring_mask k) by done. rewrite wrap32_id by (unfold is_u32; lia). done. }
  set (l := put_l f len) in *.
  assert (Hm0 : 0 < len - l → (in_ f + l) mod size f = 0).
  { intros. rewrite (ring_mod k) by (done || lia). rewrite decide_False; lia. }
  destruct (ring_memcpy k (size f) Hk Hsz (buffer f) (in_ f) l data l (len - l))
    with (doff := 0) as (b' & Hm & Hbl & Hr); try lia.
  exists b'. unfold put_copy2. fold l. rewrite wrap32_id by (unfold is_u32; lia).
  rewrite Hm. split; [done|]. split; [done|].
  intros i Hi'. rewrite Hr by done.
  destruct (decide (l <= i < len)); [rewrite decide_True by lia; f_equal; lia|].
  by rewrite decide_False by lia.
Qed.

(** What the copies of [__kfifo_get] do to the destination. *)
Lemma get_copy1_spec f dst len :
  wf f → 0 <= len <= size f → len <= Z.of_nat (length dst) →
  ∃ d, get_copy1 f dst len = Ok d ∧ length d = length dst ∧
    ∀ j, 0 <= j → d !!! Z.to_nat j =
      if decide (j < get_l f len) then ring (buffer f) (size f) (out f + j)
      else dst !!! Z.to_nat j.
Proof.
  intros [(k & Hk & Hsz) Hl Hi Ho Hu] Hlen Hd.
  pose proof (size_pos k _ Hk Hsz). pose proof (Z.mod_pos_bound (out f) (size f) ltac:(lia)).
  assert (Hgl : get_l f len = Z.min len (size f - out f mod size f)).
  { unfold get_l. rewrite (ring_mask k) by done. rewrite wrap32_id by (unfold is_u32; lia). done. }
  unfold get_copy1. rewrite (ring_mask k) by done. set (l := get_l f len) in *.
  destruct (memcpy_spec dst 0 (buffer f) (out f mod size f) l) as (d & Hm & Hdl & Hlk); try lia.
  exists d. split; [done|]. split; [done|]. intros j Hj. rewrite Hlk by done.
  destruct (decide (j < l)); [rewrite decide_True by lia|by rewrite decide_False by lia].
  unfold ring. rewrite (ring_mod k) by (done || lia). rewrite decide_True by lia.
  f_equal. lia.
Qed.

Lemma get_copy2_spec f dst len :
  wf f → 0 <= len <= size f → len <= Z.of_nat (length dst) →
  ∃ d, get_copy2 f dst len = Ok d ∧ length d = length dst ∧
    ∀ j, 0 <= j → d !!! Z.to_nat j =
      if decide (get_l f len <= j < len) then ring (buffer f) (size f) (out f + j)
      else dst !!! Z.to_nat j.
Proof.
  intros [(k & Hk & Hsz) Hl Hi Ho Hu] Hlen Hd.
  pose proof (size_pos k _ Hk Hsz). pose proof (Z.mod_pos_bound (out f) (size f) ltac:(lia)).
  assert (Hgl : get_l f len = Z.min len (size f - out f mod size f)).
  { unfold get_l. rewrite (ring_mask k) by done. rewrite wrap32_id by (unfold is_u32; lia). done. }
  unfold get_copy2. set (l := get_l f len) in *. rewrite wrap32_id by (unfold is_u32; lia).
  destruct (memcpy_spec dst l (buffer f) 0 (len - l)) as (d & Hm & Hdl & Hlk); try lia.
  exists d. split; [done|]. split; [done|]. intros j Hj. rewrite Hlk by done.
  destruct (decide (l <= j < len)); [rewrite decide_True by lia|by rewrite decide_False by lia].
  unfold ring. rewrite (ring_mod k) by (done || lia). rewrite decide_False by lia.
  f_equal. lia.
Qed.

(** ** Index arithmetic *)

Lemma len_range f : 0 <= __kfifo_len f < 2 ^ 32.
Proof. apply wrap32_range. Qed.

Lemma length_contents f : Z.of_nat (length (contents f)) = __kfifo_len f.
Proof.
  unfold contents. rewrite length_fmap, length_seqZ. pose proof (len_range f). lia.
Qed.

Lemma free_space f :
  wf f → wrap32 (wrap32 (size f - in_ f) + out f) = size f - __kfifo_len f.
Proof.
  intros [(k & Hk & Hsz) Hl Hi Ho Hu]. pose proof (size_pos k _ Hk Hsz). pose proof (len_range f).
  autorewrite with kern. unfold __kfifo_len in *.
  replace (size f - in_ f + out f) with (size f - (in_ f - out f)) by lia.
  rewrite <- wrap32_sub_r. apply wrap32_id. unfold is_u32. lia.
Qed.

Lemma in_out_len f : wf f → in_ f = wrap32 (out f + __kfifo_len f).
Proof.
  intros [_ _ Hi _ _]. unfold __kfifo_len. rewrite wrap32_add_r.
  replace (out f + (in_ f - out f)) with (in_ f) by lia. by rewrite wrap32_id.
Qed.

(** Ring positions relative to [in] and to [out]. *)
Lemma ring_in_out f b j :
  wf f → ring b (size f) (in_ f + j) = ring b (size f) (out f + __kfifo_len f + j).
Proof.
  intros Hwf. rewrite (in_out_len f) by done. destruct Hwf as [(k & Hk & Hsz) _ _ _ _].
  rewrite <- (ring_wrap k) by done. by rewrite wrap32_add_l, (ring_wrap k).
Qed.

(** A write confined to [in .. in + n) with [n] free bytes leaves the queue alone. *)
Lemma ring_preserved f b' n :
  wf f → 0 <= n <= size f - __kfifo_len f →
  (∀ i, n <= i < size f → ring b' (size f) (in_ f + i) = ring (buffer f) (size f) (in_ f + i)) →
  ∀ i, 0 <= i < __kfifo_len f →
    ring b' (size f) (out f + i) = ring (buffer f) (size f) (out f + i).
Proof.
  intros Hwf Hn Hr i Hi. pose proof Hwf as [(k & Hk & Hsz) _ _ _ Hu].
  specialize (Hr (i - __kfifo_len f + size f) ltac:(lia)).
  rewrite !ring_in_out in Hr by done.
  replace (out f + __kfifo_len f + (i - __kfifo_len f + size f)) with (out f + i + size f)
    in Hr by lia.
  by rewrite !(ring_period k) in Hr by done.
Qed.

Lemma wf_set_buffer f b : wf f → length b = length (buffer f) → wf (set_buffer f b).
Proof. intros [? Hl ? ? ?] He. split; simpl; try done. rewrite He. done. Qed.

Lemma contents_set_buffer f b n :
  wf f → 0 <= n <= size f - __kfifo_len f →
  (∀ i, n <= i < size f → ring b (size f) (in_ f + i) = ring (buffer f) (size f) (in_ f + i)) →
  contents (set_buffer f b) = contents f.
Proof.
  intros Hwf Hn Hr. unfold contents. simpl.
  apply list_fmap_ext. intros j i Hi%lookup_seqZ.
  apply (ring_preserved f b n); [done|done|done|]. unfold __kfifo_len in *. simpl in *. lia.
Qed.

(** Publishing [n] written bytes appends them to the queue. *)
Lemma contents_publish f n data :
  wf f → 0 <= n <= size f - __kfifo_len f → n <= Z.of_nat (length data) →
  (∀ i, 0 <= i < n → ring (buffer f) (size f) (in_ f + i) = data !!! Z.to_nat i) →
  wf (put_publish f n) ∧ contents (put_publish f n) = contents f ++ take (Z.to_nat n) data.
Proof.
  intros Hwf Hn Hd Hr. pose proof Hwf as [(k & Hk & Hsz) Hl Hi Ho Hu].
  pose proof (size_pos k _ Hk Hsz). pose proof (len_range f).
  assert (Hlen : __kfifo_len (put_publish f n) = __kfifo_len f + n).
  { unfold __kfifo_len at 1. simpl. autorewrite with kern.
    replace (in_ f + n - out f) with ((in_ f - out f) + n) by lia.
    rewrite <- wrap32_add_l. apply wrap32_id. unfold is_u32, __kfifo_len in *. lia. }
  split.
  { split; simpl; try done; [by eexists|auto with kern|]. rewrite Hlen. lia. }
  unfold contents. rewrite Hlen, seqZ_app, fmap_app by lia. f_equal. simpl.
  apply list_eq_same_length with (n := Z.to_nat n).
  - by rewrite length_take; lia.
  - by rewrite length_fmap, length_seqZ.
  - intros i x y Hi' Hx Hy. rewrite list_lookup_fmap in Hx.
    rewrite lookup_seqZ_lt in Hx by lia. simpl in Hx. injection Hx as <-.
    rewrite lookup_take_lt in Hy by lia.
    specialize (Hr (Z.of_nat i) ltac:(lia)). rewrite Nat2Z.id in Hr.
    rewrite (list_lookup_total_correct _ _ _ Hy) in Hr. rewrite <- Hr, ring_in_out by done.
    f_equal. lia.
Qed.

(** ** Refinement to a bounded queue *)

Lemma put_len_min f len :
  wf f → put_len f len = Z.min len (size f - Z.of_nat (length (contents f))).
Proof. intros. unfold put_len. by rewrite free_space, length_contents. Qed.

Lemma get_len_min f len : get_len f len = Z.min len (Z.of_nat (length (contents f))).
Proof. unfold get_len. by rewrite length_contents. Qed.

(** [__kfifo_put] never faults, keeps the fifo well formed, and appends to
    the queue exactly the first [min(len, free space)] bytes of the data, also
    when the indices wrap around 2^32 or the copy wraps around the ring. *)
Theorem kfifo_put_refines f data len :
  wf f → is_u32 len → len <= Z.of_nat (length data) →
  let n := Z.min len (size f - Z.of_nat (length (contents f))) in
  ∃ f', __kfifo_put f data len = Ok (f', n) ∧ wf f' ∧ size f' = size f ∧
        contents f' = contents f ++ take (Z.to_nat n) data.
Proof.
  intros Hwf [Hlen0 _] Hd n. pose proof (len_range f). pose proof Hwf as [_ Hl _ _ Hu].
  unfold __kfifo_put. rewrite put_len_min by done. fold n.
  assert (Hn : n = Z.min len (size f - __kfifo_len f)) by (subst n; by rewrite length_contents).
  clearbody n. destruct (put_copy1_spec f data n) as (b1 & -> & Hb1 & Hr1); [done|lia|lia|].
  cbn [mbind outcome_bind].
  pose proof (wf_set_buffer f b1 Hwf Hb1) as Hwf1. set (f1 := set_buffer f b1) in *.
  destruct (put_copy2_spec f1 data n) as (b2 & -> & Hb2 & Hr2); [done|simpl; lia|lia|].
  cbn [mbind outcome_bind]. change (put_l f1 n) with (put_l f n) in Hr2. simpl in Hb2, Hr2.
  set (f2 := set_buffer f1 b2).
  assert (Hwf2 : wf f2) by (by apply wf_set_buffer).
  assert (Hc : contents f2 = contents f).
  { change f2 with (set_buffer f b2). apply (contents_set_buffer f b2 n); [done|lia|].
    intros i Hi. rewrite Hr2, Hr1 by lia. unfold put_l. by rewrite !decide_False by lia. }
  destruct (contents_publish f2 n data) as [Hwf3 Hc3]; [done| |lia| |].
  { change (size f2) with (size f). change (__kfifo_len f2) with (__kfifo_len f). lia. }
  { intros i Hi. simpl. rewrite Hr2, Hr1 by lia.
    destruct (decide (i < put_l f n)); [by rewrite decide_False by lia|].
    by rewrite decide_True by lia. }
  exists (put_publish f2 n). rewrite Hc3, Hc. done.
Qed.

(** Releasing [n] bytes drops them from the front of the queue. *)
Lemma contents_release f n :
  wf f → 0 <= n <= __kfifo_len f →
  wf (get_publish f n) ∧ contents (get_publish f n) = drop (Z.to_nat n) (contents f).
Proof.
  intros Hwf Hn. pose proof Hwf as [(k & Hk & Hsz) Hl Hi Ho Hu].
  pose proof (size_pos k _ Hk Hsz). pose proof (len_range f).
  assert (Hlen : __kfifo_len (get_publish f n) = __kfifo_len f - n).
  { unfold __kfifo_len at 1. simpl. autorewrite with kern.
    replace (in_ f - (out f + n)) with ((in_ f - out f) - n) by lia.
    rewrite <- wrap32_sub_l. apply wrap32_id. unfold is_u32, __kfifo_len in *. lia. }
  split.
  { split; simpl; try done; [by eexists|auto with kern|]. rewrite Hlen. lia. }
  unfold contents. rewrite Hlen.
  replace (__kfifo_len f) with (n + (__kfifo_len f - n)) at 2 by lia.
  rewrite (seqZ_app 0 n), fmap_app by lia.
  rewrite drop_app_length' by (rewrite length_fmap, length_seqZ; lia).
  rewrite (Z.add_comm 0 n), <- fmap_add_seqZ, <- list_fmap_compose.
  apply list_fmap_ext. intros j i Hi'. simpl.
  rewrite <- (ring_wrap k) by done. rewrite wrap32_add_l, (ring_wrap k) by done. f_equal. lia.
Qed.

(** [__kfifo_get] never faults, keeps the fifo well formed, and moves
    exactly the first [min(len, used)] bytes of the queue into the destination,
    leaving the rest of the destination and of the queue as they were. *)
Theorem kfifo_get_refines f dst len :
  wf f → is_u32 len → len <= Z.of_nat (length dst) →
  let n := Z.min len (Z.of_nat (length (contents f))) in
  ∃ f', __kfifo_get f dst len
        = Ok (f', take (Z.to_nat n) (contents f) ++ drop (Z.to_nat n) dst, n) ∧
        wf f' ∧ contents f' = drop (Z.to_nat n) (contents f).
Proof.
  intros Hwf [Hlen0 _] Hd n. pose proof (len_range f). pose proof Hwf as [_ Hl _ _ Hu].
  unfold __kfifo_get. rewrite get_len_min. fold n.
  assert (Hn : n = Z.min len (__kfifo_len f)) by (subst n; by rewrite length_contents).
  clearbody n.
  destruct (get_copy1_spec f dst n) as (d1 & -> & Hd1 & Hr1); [done|lia|lia|].
  cbn [mbind outcome_bind].
  destruct (get_copy2_spec f d1 n) as (d2 & -> & Hd2 & Hr2); [done|lia|lia|].
  cbn [mbind outcome_bind].
  destruct (contents_release f n) as [Hwf' Hc']; [done|lia|].
  exists (get_publish f n). split; [|done].
  assert (d2 = take (Z.to_nat n) (contents f) ++ drop (Z.to_nat n) dst) as ->; [|done].
  pose proof (length_contents f).
  apply list_eq_same_length with (n := length dst);
    [rewrite length_app, length_take, length_drop; lia|lia|].
  intros i x y Hi Hx Hy. apply list_lookup_total_correct in Hx, Hy. subst x y.
  specialize (Hr2 (Z.of_nat i) ltac:(lia)). specialize (Hr1 (Z.of_nat i) ltac:(lia)).
  rewrite Nat2Z.id in Hr1, Hr2. rewrite Hr2, Hr1. rewrite !list_lookup_total_alt.
  assert (get_l f n <= n) by (unfold get_l; lia).
  destruct (decide (Z.of_nat i < n)).
  - rewrite lookup_app_l by (rewrite length_take; lia). rewrite lookup_take_lt by lia.
    unfold contents. rewrite list_lookup_fmap, lookup_seqZ_lt by lia. simpl.
    destruct (decide (Z.of_nat i < get_l f n)); [by rewrite decide_False by lia|].
    by rewrite decide_True by lia.
  - rewrite lookup_app_r by (rewrite length_take; lia).
    rewrite !decide_False by lia. rewrite lookup_drop, length_take. do 2 f_equal. lia.
Qed.


End Kfifo.

Module Spsc.
Import Kfifo.

(** ** One writer and one reader without a lock

    Between two shared accesses of one thread the other may run.  The writer
    is inside [__kfifo_put], the reader inside [__kfifo_get]; each constructor
    says which of the four accesses have been done. *)
Inductive writer_pc :=
| WIdle
| WSized (data : list Z) (len : Z)
| WCopied1 (data : list Z) (len : Z)
| WCopied2 (data : list Z) (len : Z).

Inductive reader_pc :=
| RIdle
| RSized (dst : list Z) (len : Z)
| RCopied1 (dst : list Z) (len : Z)
| RCopied2 (dst : list Z) (len : Z).

(** [sent] and [received] record the bytes published by finished puts and
    delivered by finished gets. *)
Record state := mk_state {
  fifo : kfifo;
  writer : writer_pc;
  reader : reader_pc;
  sent : list Z;
  received : list Z;
}.

Definition writer_next (s : state) : outcome state :=
  let '(mk_state f w r sn rc) := s in
  match w with
  | WIdle => Ok s
  | WSized data len =>
    f ← put_copy1 f data len; Ok (mk_state f (WCopied1 data len) r sn rc)
  | WCopied1 data len =>
    f ← put_copy2 f data len; Ok (mk_state f (WCopied2 data len) r sn rc)
  | WCopied2 data len =>
    Ok (mk_state (put_publish f len) WIdle r (sn ++ take (Z.to_nat len) data) rc)
  end.

Definition reader_next (s : state) : outcome state :=
  let '(mk_state f w r sn rc) := s in
  match r with
  | RIdle => Ok s
  | RSized dst len =>
    dst ← get_copy1 f dst len; Ok (mk_state f w (RCopied1 dst len) sn rc)
  | RCopied1 dst len =>
    dst ← get_copy2 f dst len; Ok (mk_state f w (RCopied2 dst len) sn rc)
  | RCopied2 dst len =>
    Ok (mk_state (get_publish f len) w RIdle sn (rc ++ take (Z.to_nat len) dst))
  end.

Inductive step : state → state → Prop :=
| step_put f r sn rc data len :
    is_u32 len → len <= Z.of_nat (length data) →
    step (mk_state f WIdle r sn rc) (mk_state f (WSized data (put_len f len)) r sn rc)
| step_get f w sn rc dst len :
    is_u32 len → len <= Z.of_nat (length dst) →
    step (mk_state f w RIdle sn rc) (mk_state f w (RSized dst (get_len f len)) sn rc)
| step_writer s s' : writer_next s = Ok s' → step s s'
| step_reader s s' : reader_next s = Ok s' → step s s'.

Definition start (f : kfifo) : state := mk_state f WIdle RIdle [] [].

Definition reachable (f : kfifo) (s : state) : Prop := rtc step (start f) s.

(** ** Invariant *)

Definition writer_ok (f : kfifo) (w : writer_pc) : Prop :=
  let fits data len :=
    0 <= len <= size f - __kfifo_len f ∧ len <= Z.of_nat (length data) in
  let written data n :=
    ∀ i, 0 <= i < n → ring (buffer f) (size f) (in_ f + i) = data !!! Z.to_nat i in
  match w with
  | WIdle => True
  | WSized data len => fits data len
  | WCopied1 data len => fits data len ∧ written data (put_l f len)
  | WCopied2 data len => fits data len ∧ written data len
  end.

Definition reader_ok (f : kfifo) (r : reader_pc) : Prop :=
  let fits dst len := 0 <= len <= __kfifo_len f ∧ len <= Z.of_nat (length dst) in
  let got dst n := ∀ j, 0 <= j < n → dst !!! Z.to_nat j = contents f !!! Z.to_nat j in
  match r with
  | RIdle => True
  | RSized dst len => fits dst len
  | RCopied1 dst len => fits dst len ∧ got dst (get_l f len)
  | RCopied2 dst len => fits dst len ∧ got dst len
  end.

Record inv (s : state) : Prop := {
  inv_wf : wf (fifo s);
  inv_history : sent s = received s ++ contents (fifo s);
  inv_writer : writer_ok (fifo s) (writer s);
  inv_reader : reader_ok (fifo s) (reader s);
}.

(** ** Each step preserves the invariant *)

Lemma contents_lookup f j :
  0 <= j < __kfifo_len f →
  contents f !!! Z.to_nat j = ring (buffer f) (size f) (out f + j).
Proof.
  intros Hj. unfold contents. rewrite list_lookup_total_alt, list_lookup_fmap.
  rewrite lookup_seqZ_lt by lia. simpl. by rewrite Z2Nat.id by lia.
Qed.

(** The reader's view survives when the queue only grows at its tail. *)
Lemma reader_ok_extend f f' r x :
  reader_ok f r → contents f' = contents f ++ x →
  size f' = size f → out f' = out f → reader_ok f' r.
Proof.
  intros Hr Hc Hs Ho.
  assert (Hlen : __kfifo_len f <= __kfifo_len f').
  { rewrite <- !length_contents, Hc, length_app. lia. }
  assert (Hgl : ∀ n, get_l f' n = get_l f n) by (intros; unfold get_l; by rewrite Hs, Ho).
  assert (Hgot : ∀ (dst : list Z) n, n <= __kfifo_len f →
    (∀ j, 0 <= j < n → dst !!! Z.to_nat j = contents f !!! Z.to_nat j) →
    (∀ j, 0 <= j < n → dst !!! Z.to_nat j = contents f' !!! Z.to_nat j)).
  { intros dst n Hn H j Hj. rewrite H by lia. rewrite Hc, !list_lookup_total_alt.
    rewrite lookup_app_l; [done|]. pose proof (length_contents f). lia. }
  destruct r as [|dst len|dst len|dst len]; simpl in *; try done; try lia.
  - destruct Hr as [? Hg]. split; [lia|]. rewrite Hgl. apply Hgot; [|done].
    unfold get_l. lia.
  - destruct Hr as [? Hg]. split; [lia|]. apply Hgot; [lia|done].
Qed.

(** The writer's private bytes survive when only [out] advances. *)
Lemma writer_ok_release f n w :
  wf f → 0 <= n <= __kfifo_len f → writer_ok f w → writer_ok (get_publish f n) w.
Proof.
  intros Hwf Hn Hw. destruct (contents_release f n Hwf Hn) as [Hwf' Hc].
  assert (__kfifo_len (get_publish f n) <= __kfifo_len f).
  { rewrite <- !length_contents, Hc, length_drop. lia. }
  destruct w; simpl in *; try done; try lia; destruct Hw as [? Hg]; (split; [lia|done]).
Qed.

Lemma writer_next_inv s : inv s → ∃ s', writer_next s = Ok s' ∧ inv s'.
Proof.
  destruct s as [f w r sn rc]. intros [Hwf Hh Hw Hr]; simpl in *.
  pose proof (len_range f). pose proof (wf_used f Hwf).
  destruct w as [|data len|data len|data len]; simpl in Hw.
  - by eexists.
  - destruct Hw as [? ?].
    destruct (put_copy1_spec f data len) as (b & -> & Hb & Hrg); [done|lia|lia|].
    assert (put_l f len <= len) by (unfold put_l; lia).
    assert (Hc : contents (set_buffer f b) = contents f).
    { apply (contents_set_buffer f b len); [done|lia|]. intros i Hi.
      rewrite Hrg by lia. by rewrite decide_False by lia. }
    eexists. split; [done|]. split; simpl.
    + by apply wf_set_buffer.
    + by rewrite Hc.
    + split; [done|]. change (put_l (set_buffer f b) len) with (put_l f len).
      intros i Hi. rewrite Hrg by lia. by rewrite decide_True by lia.
    + apply (reader_ok_extend f _ r []); [done|by rewrite app_nil_r|done|done].
  - destruct Hw as [[? ?] Hwr].
    destruct (put_copy2_spec f data len) as (b & -> & Hb & Hrg); [done|lia|lia|].
    assert (put_l f len <= len) by (unfold put_l; lia).
    assert (Hc : contents (set_buffer f b) = contents f).
    { apply (contents_set_buffer f b len); [done|lia|]. intros i Hi.
      rewrite Hrg by lia. by rewrite decide_False by lia. }
    eexists. split; [done|]. split; simpl.
    + by apply wf_set_buffer.
    + by rewrite Hc.
    + split; [done|]. intros i Hi. rewrite Hrg by lia. case_decide; [done|].
      apply Hwr. lia.
    + apply (reader_ok_extend f _ r []); [done|by rewrite app_nil_r|done|done].
  - destruct Hw as [[? ?] Hwr].
    destruct (contents_publish f len data) as [Hwf' Hc]; [done|lia|lia|done|].
    eexists. split; [done|]. split; simpl; [done| |done|].
    + by rewrite Hc, Hh, app_assoc.
    + by apply (reader_ok_extend f _ r _ Hr Hc).
Qed.

Lemma reader_next_inv s : inv s → ∃ s', reader_next s = Ok s' ∧ inv s'.
Proof.
  destruct s as [f w r sn rc]. intros [Hwf Hh Hw Hr]; simpl in *.
  pose proof (len_range f). pose proof (wf_used f Hwf).
  destruct r as [|dst len|dst len|dst len]; simpl in Hr.
  - by eexists.
  - destruct Hr as [? ?].
    destruct (get_copy1_spec f dst len) as (d & -> & Hd & Hrg); [done|lia|lia|].
    assert (get_l f len <= len) by (unfold get_l; lia).
    eexists. split; [done|]. split; simpl; [done|done|done|]. split; [lia|].
    intros j Hj. rewrite Hrg, contents_lookup by lia. by rewrite decide_True by lia.
  - destruct Hr as [[? ?] Hg].
    destruct (get_copy2_spec f dst len) as (d & -> & Hd & Hrg); [done|lia|lia|].
    eexists. split; [done|]. split; simpl; [done|done|done|]. split; [lia|].
    intros j Hj. rewrite Hrg by lia. case_decide; [by rewrite contents_lookup by lia|].
    apply Hg. lia.
  - destruct Hr as [[? ?] Hg].
    destruct (contents_release f len) as [Hwf' Hc]; [done|lia|].
    eexists. split; [done|]. split; simpl; [done| |by apply writer_ok_release|done].
    rewrite Hc, Hh, <- app_assoc. f_equal.
    rewrite <- (take_drop (Z.to_nat len) (contents f)) at 1. f_equal.
    pose proof (length_contents f).
    apply list_eq_same_length with (n := Z.to_nat len); [rewrite length_take; lia..|].
    intros i x y Hi Hx Hy. rewrite lookup_take_lt in Hx, Hy by lia.
    specialize (Hg (Z.of_nat i) ltac:(lia)). rewrite Nat2Z.id in Hg.
    apply list_lookup_total_correct in Hx, Hy. congruence.
Qed.

Lemma step_inv s s' : step s s' → inv s → inv s'.
Proof.
  destruct 1 as [f r sn rc data len [? ?] ?|f w sn rc dst len [? ?] ?|s s' Hn|s s' Hn]; intros Hi.
  - destruct Hi as [Hwf Hh Hw Hr]; split; simpl in *; try done.
    unfold put_len. rewrite free_space by done. pose proof (wf_used f Hwf). lia.
  - destruct Hi as [Hwf Hh Hw Hr]; split; simpl in *; try done.
    unfold get_len. fold (__kfifo_len f). pose proof (len_range f). lia.
  - destruct (writer_next_inv s Hi) as (s1 & E & ?). congruence.
  - destruct (reader_next_inv s Hi) as (s1 & E & ?). congruence.
Qed.

Lemma reachable_inv f s : wf f → contents f = [] → reachable f s → inv s.
Proof.
  intros Hwf Hc Hr. apply (rtc_ind_r inv (start f)) with (3 := Hr).
  - split; simpl; [done|by rewrite Hc|done|done].
  - intros. by eapply step_inv.
Qed.

(** C27: with one concurrent reader and one concurrent writer no lock is needed:
    in every interleaving of the shared accesses of [__kfifo_put] and
    [__kfifo_get], no access leaves its object, and the bytes delivered to the
    reader followed by the bytes still queued are exactly the bytes the writer
    has published, in order. *)
Theorem spsc_lock_free f s :
  wf f → contents f = [] → reachable f s →
  sent s = received s ++ contents (fifo s) ∧
  writer_next s ≠ Bug ∧ reader_next s ≠ Bug.
Proof.
  intros Hwf Hc Hr. pose proof (reachable_inv f s Hwf Hc Hr) as Hi.
  destruct (writer_next_inv s Hi) as (? & -> & _).
  destruct (reader_next_inv s Hi) as (? & -> & _).
  split; [apply Hi|done].
Qed.

End Spsc.

(** ** Concrete instances *)
Module KfifoWitness.
Import Kfifo Spsc.

(** A ring of four bytes whose indices are about to wrap around 2^32. *)
Definition f0 : kfifo := mk_kfifo [10; 11; 12; 13] 4 (2 ^ 32 - 2) (2 ^ 32 - 3).

Lemma f0_wf : wf f0.
Proof. split; [by exists 2|done|done|done|done]. Qed.

Lemma kfifo_put_refines_witness :
  ∃ f', __kfifo_put f0 [7; 8; 9] 3 = Ok (f', 3) ∧ wf f' ∧ size f' = 4 ∧
        contents f' = [11; 7; 8; 9].
Proof. apply (kfifo_put_refines f0 [7; 8; 9] 3 f0_wf); done. Defined.

Lemma kfifo_get_refines_witness :
  ∃ f', __kfifo_get f0 [0; 0] 2 = Ok (f', [11; 0], 1) ∧ wf f' ∧ contents f' = [].
Proof. apply (kfifo_get_refines f0 [0; 0] 2 f0_wf); done. Defined.


Definition f1 : kfifo := mk_kfifo [0; 0] 2 0 0.

(** A run in which the reader starts between the writer's copy and its
    publication, and again after it. *)
Lemma spsc_lock_free_witness :
  ∃ s, reachable f1 s ∧ received s = [5] ∧ sent s = received s ++ contents (fifo s) ∧
       writer_next s ≠ Bug ∧ reader_next s ≠ Bug.
Proof.
  assert (H : ∃ s, reachable f1 s ∧ received s = [5]).
  { eexists. split.
    - eapply rtc_l; [apply (step_put f1 RIdle [] [] [5; 6] 2); done|].
      eapply rtc_l; [apply step_writer; reflexivity|].
      eapply rtc_l; [apply step_writer; reflexivity|].
      eapply rtc_l; [apply (step_get _ _ [] [] [0] 1); done|].
      eapply rtc_l; [apply step_reader; reflexivity|].
      eapply rtc_l; [apply step_writer; reflexivity|].
      eapply rtc_l; [apply step_reader; reflexivity|].
      eapply rtc_l; [apply step_reader; reflexivity|].
      eapply rtc_l; [apply (step_get _ _ _ _ [0] 1); done|].
      eapply rtc_l; [apply step_reader; reflexivity|].
      eapply rtc_l; [apply step_reader; reflexivity|].
      eapply rtc_l; [apply step_reader; reflexivity|].
      apply rtc_refl.
    - reflexivity. }
  destruct H as (s & Hs & Hrc). exists s. split; [done|]. split; [done|].
  apply (spsc_lock_free f1 s); [|reflexivity|done].
  split; [by exists 1|done|done|done|done].
Defined.
End KfifoWitness.
