(* ===== verification/Timer.v ===== *)
(** * kernel/timer.c: dynamic timers

    The per-CPU cascading timer wheel.  A base keeps five bucket arrays: [tv1]
    for the next 256 ticks, [tv2]..[tv5] for coarser and coarser ranges of 64
    buckets each; every 256th tick the due bucket of the coarser arrays is
    re-filed.  [Wheel] holds the data and the operations; the theorems show
    that the bucket a timer is filed in always brings it to [tv1] in time, that
    no timer runs before its [expires] tick, and that none is missed. *)

From stdpp Require Import prelude numbers list gmap.
From Stdlib Require Import ZArith Lia.
From S2P Require Import Prelude.

#[local] Set Default Goal Selector "!".
#[local] Open Scope Z_scope.

Module Wheel.

(** ** Data *)

Definition TVN_BITS : Z := 6.
Definition TVR_BITS : Z := 8.
Definition TVN_SIZE : Z := Z.shiftl 1 TVN_BITS.
Definition TVR_SIZE : Z := Z.shiftl 1 TVR_BITS.
Definition TVN_MASK : Z := TVN_SIZE - 1.
Definition TVR_MASK : Z := TVR_SIZE - 1.

(** [struct timer_list]; [entry] is membership in the bucket lists, [lock] is
    not modelled.  [function] says whether the handler pointer is non-NULL,
    [magic] whether it holds [TIMER_MAGIC], [base] is the CPU of the base. *)
Record timer_list := mk_timer {
  expires : Z;
  function : bool;
  magic : bool;
  base : option nat;
}.

Definition set_expires (t : timer_list) (e : Z) : timer_list :=
  mk_timer e (function t) (magic t) (base t).
Definition set_base (t : timer_list) (b : option nat) : timer_list :=
  mk_timer (expires t) (function t) (magic t) b.
Definition set_magic (t : timer_list) : timer_list :=
  mk_timer (expires t) (function t) true (base t).

(** [struct tvec_t_base_s].  [vec] is the five arrays tv1..tv5 one after the
    other, as they lie in the structure; a bucket is the list of the timers
    (by number) in it.  [work_list] is the list head on the stack of the
    [__run_timers] call that serves this base. *)
Record tvec_base_t := mk_base {
  timer_jiffies : Z;
  running_timer : option nat;
  vec : list (list nat);
  work_list : list nat;
}.

Definition set_vec (b : tvec_base_t) (v : list (list nat)) : tvec_base_t :=
  mk_base (timer_jiffies b) (running_timer b) v (work_list b).
Definition set_running_timer (b : tvec_base_t) (r : option nat) : tvec_base_t :=
  mk_base (timer_jiffies b) r (vec b) (work_list b).
Definition set_work (b : tvec_base_t) (w : list nat) : tvec_base_t :=
  mk_base (timer_jiffies b) (running_timer b) (vec b) w.
Definition set_jiffies (b : tvec_base_t) (j : Z) : tvec_base_t :=
  mk_base j (running_timer b) (vec b) (work_list b).

(** Where [tv<n>.vec] starts in [vec]. *)
Definition tv_off (n : Z) : Z :=
  if n =? 1 then 0 else TVR_SIZE + TVN_SIZE * (n - 2).

(** All timers of the machine, the per-CPU bases, and a log of the handler
    calls: the timer, its [expires] and the tick it ran at. *)
Record kstate := mk_kstate {
  timers : gmap nat timer_list;
  bases : list tvec_base_t;
  fired : list (nat * Z * Z);
}.

Definition set_timer (st : kstate) (id : nat) (t : timer_list) : kstate :=
  mk_kstate (<[id := t]> (timers st)) (bases st) (fired st).
Definition set_cpu_base (st : kstate) (cpu : nat) (b : tvec_base_t) : kstate :=
  mk_kstate (timers st) (<[cpu := b]> (bases st)) (fired st).

(** Following a pointer to a timer or a base that does not exist is [Bug]. *)
Definition get_timer (st : kstate) (id : nat) : outcome timer_list :=
  match timers st !! id with Some t => Ok t | None => Bug end.
Definition get_base (st : kstate) (cpu : nat) : outcome tvec_base_t :=
  match bases st !! cpu with Some b => Ok b | None => Bug end.

(** ** Operations *)

(** The bucket [internal_add_timer] picks, as an index into [vec]. *)
Definition slot (timer_jiffies expires : Z) : Z :=
  let idx := wrap32 (expires - timer_jiffies) in
  if idx <? TVR_SIZE then
    tv_off 1 + Z.land expires TVR_MASK
  else if idx <? Z.shiftl 1 (TVR_BITS + TVN_BITS) then
    tv_off 2 + Z.land (Z.shiftr expires TVR_BITS) TVN_MASK
  else if idx <? Z.shiftl 1 (TVR_BITS + 2 * TVN_BITS) then
    tv_off 3 + Z.land (Z.shiftr expires (TVR_BITS + TVN_BITS)) TVN_MASK
  else if idx <? Z.shiftl 1 (TVR_BITS + 3 * TVN_BITS) then
    tv_off 4 + Z.land (Z.shiftr expires (TVR_BITS + 2 * TVN_BITS)) TVN_MASK
  else if sgn32 idx <? 0 then
    tv_off 1 + Z.land timer_jiffies TVR_MASK
  else
    let expires :=
      if 0xffffffff <? idx then wrap32 (0xffffffff + timer_jiffies) else expires in
    tv_off 5 + Z.land (Z.shiftr expires (TVR_BITS + 3 * TVN_BITS)) TVN_MASK.

Definition internal_add_timer (b : tvec_base_t) (id : nat) (expires : Z) : tvec_base_t :=
  set_vec b (alter (λ v, v ++ [id]) (Z.to_nat (slot (timer_jiffies b) expires)) (vec b)).

(** [list_del(&timer->entry)] of a timer that is on a list of base [b]. *)
Definition list_del (b : tvec_base_t) (id : nat) : tvec_base_t :=
  set_work (set_vec b (filter (λ x, x ≠ id) <$> vec b)) (filter (λ x, x ≠ id) (work_list b)).

(** [check_timer]: an uninitialised timer is reported and repaired. *)
Definition check_timer (st : kstate) (id : nat) : outcome kstate :=
  t ← get_timer st id;
  Ok (if magic t then st else set_timer st id (set_magic t)).

Definition timer_pending (t : timer_list) : bool := bool_decide (base t ≠ None).

(** [__mod_timer] on CPU [cpu].  With the locks held the re-check of
    [timer->base] succeeds, so the [repeat] loop runs once. *)
Definition __mod_timer (st : kstate) (cpu id : nat) (expires : Z) : outcome (kstate * Z) :=
  t ← get_timer st id;
  _ ← BUG_ON (negb (function t));
  st ← check_timer st id;
  t ← get_timer st id;
  let old_base := base t in
  '(st, ret) ← match old_base with
    | Some c => b ← get_base st c; Ok (set_cpu_base st c (list_del b id), 1)
    | None => Ok (st, 0)
    end;
  let st := set_timer st id (set_expires t expires) in
  new_base ← get_base st cpu;
  let st := set_cpu_base st cpu (internal_add_timer new_base id expires) in
  let st := set_timer st id (set_base (set_expires t expires) (Some cpu)) in
  Ok (st, ret).

Definition mod_timer (st : kstate) (cpu id : nat) (e : Z) : outcome (kstate * Z) :=
  t ← get_timer st id;
  _ ← BUG_ON (negb (function t));
  st ← check_timer st id;
  if (expires t =? e) && timer_pending t then Ok (st, 1)
  else __mod_timer st cpu id e.

Definition add_timer (st : kstate) (cpu id : nat) : outcome (kstate * Z) :=
  t ← get_timer st id;
  __mod_timer st cpu id (expires t).

Definition add_timer_on (st : kstate) (id cpu : nat) : outcome (kstate * Z) :=
  t ← get_timer st id;
  b ← get_base st cpu;
  _ ← BUG_ON (timer_pending t || negb (function t));
  st ← check_timer st id;
  t ← get_timer st id;
  let st := set_cpu_base st cpu (internal_add_timer b id (expires t)) in
  Ok (set_timer st id (set_base t (Some cpu)), 0).

Definition del_timer (st : kstate) (id : nat) : outcome (kstate * Z) :=
  st ← check_timer st id;
  t ← get_timer st id;
  match base t with
  | None => Ok (st, 0)
  | Some c =>
    b ← get_base st c;
    let st := set_cpu_base st c (list_del b id) in
    Ok (set_timer st id (set_base t None), 1)
  end.

(** The loop of [cascade] over the timers of one bucket.  [internal_add_timer]
    relinks each entry; relinking one into the list being walked would corrupt
    it, which the model reports as [Bug]. *)
Fixpoint cascade_loop (tm : gmap nat timer_list) (cpu : nat) (b : tvec_base_t)
    (at_ : Z) (l : list nat) : outcome tvec_base_t :=
  match l with
  | [] => Ok b
  | id :: l =>
    match tm !! id with
    | None => Bug
    | Some t =>
      _ ← BUG_ON (bool_decide (base t ≠ Some cpu));
      if slot (timer_jiffies b) (expires t) =? at_ then Bug
      else cascade_loop tm cpu (internal_add_timer b id (expires t)) at_ l
    end
  end.

(** [cascade(base, tv, index)] for [tv = tv<n>]: the base and the return value. *)
Definition cascade (tm : gmap nat timer_list) (cpu : nat) (b : tvec_base_t) (n index : Z)
    : outcome (tvec_base_t * Z) :=
  let head := tv_off n + index in
  match vec b !! Z.to_nat head with
  | None => Bug
  | Some l =>
    b ← cascade_loop tm cpu b head l;
    Ok (set_vec b (<[Z.to_nat head := []]> (vec b)), index)
  end.

(** [INDEX(N)] *)
Definition INDEX (b : tvec_base_t) (n : Z) : Z :=
  Z.land (Z.shiftr (timer_jiffies b) (TVR_BITS + n * TVN_BITS)) TVN_MASK.

(** The condition of [__run_timers] that cascades tv2, and tv3..tv5 while the
    index of the level below wraps to zero. *)
Definition cascades (tm : gmap nat timer_list) (cpu : nat) (b : tvec_base_t)
    : outcome tvec_base_t :=
  if negb (Z.land (timer_jiffies b) TVR_MASK =? 0) then Ok b
  else
    '(b, i) ← cascade tm cpu b 2 (INDEX b 0);
    if negb (i =? 0) then Ok b
    else
      '(b, i) ← cascade tm cpu b 3 (INDEX b 1);
      if negb (i =? 0) then Ok b
      else
        '(b, i) ← cascade tm cpu b 4 (INDEX b 2);
        if negb (i =? 0) then Ok b
        else '(b, _) ← cascade tm cpu b 5 (INDEX b 3); Ok b.

(** What a timer handler does to the timer subsystem is the sequence of timer
    calls it makes (on any CPU; calls of other CPUs made while the base lock is
    dropped for the handler are part of the sequence too). *)
Inductive timer_op :=
| OpMod (cpu id : nat) (e : Z)
| OpAddOn (id cpu : nat)
| OpDel (id : nat).

Definition exec_op (st : kstate) (o : timer_op) : outcome kstate :=
  match o with
  | OpMod cpu id e => '(st, _) ← mod_timer st cpu id e; Ok st
  | OpAddOn id cpu => '(st, _) ← add_timer_on st id cpu; Ok st
  | OpDel id => '(st, _) ← del_timer st id; Ok st
  end.

Fixpoint exec_ops (st : kstate) (l : list timer_op) : outcome kstate :=
  match l with
  | [] => Ok st
  | o :: l => st ← exec_op st o; exec_ops st l
  end.

Section run.
(** The calls the handler of each timer makes, when it is called in a given state: an
    arbitrary function of the state, which holds all timers and the log of the calls so far,
    so a handler need not do the same thing twice. *)
Context (handler : kstate → nat → list timer_op).

(** One pass of the [repeat:] loop: take the first timer of [work_list] off
    the list, mark it not pending, and call its handler. *)
Definition run_one (st : kstate) (cpu id : nat) : outcome kstate :=
  b ← get_base st cpu;
  t ← get_timer st id;
  let b := set_running_timer (list_del b id) (Some id) in
  let st := set_timer (set_cpu_base st cpu b) id (set_base t None) in
  let st := mk_kstate (timers st) (bases st)
              (fired st ++ [(id, expires t, wrap32 (timer_jiffies b - 1))]) in
  exec_ops st (handler st id).

(** The [repeat:] loop.  No timer call adds to [work_list], so its length
    bounds the number of passes. *)
Fixpoint run_work (fuel : nat) (st : kstate) (cpu : nat) : outcome kstate :=
  b ← get_base st cpu;
  match work_list b with
  | [] => Ok st
  | id :: _ =>
    match fuel with
    | O => Bug
    | S fuel => st ← run_one st cpu id; run_work fuel st cpu
    end
  end.

(** The body of the [while] loop of [__run_timers]: one tick. *)
Definition run_tick (st : kstate) (cpu : nat) : outcome kstate :=
  b ← get_base st cpu;
  let index := Z.land (timer_jiffies b) TVR_MASK in
  b ← cascades (timers st) cpu b;
  let b := set_jiffies b (wrap32 (timer_jiffies b + 1)) in
  let head := Z.to_nat (tv_off 1 + index) in
  match vec b !! head with
  | None => Bug
  | Some l =>
    let b := set_work (set_vec b (<[head := []]> (vec b))) l in
    run_work (length l) (set_cpu_base st cpu b) cpu
  end.

(** [while (time_after_eq(jiffies, base->timer_jiffies))] *)
Fixpoint run_ticks (fuel : nat) (st : kstate) (cpu : nat) (jiffies : Z) : outcome kstate :=
  b ← get_base st cpu;
  if 0 <=? sgn32 (jiffies - timer_jiffies b)
  then match fuel with
       | O => Bug
       | S fuel => st ← run_tick st cpu; run_ticks fuel st cpu jiffies
       end
  else Ok st.

(** [__run_timers]; [jiffies - timer_jiffies + 1] ticks are due. *)
Definition __run_timers (st : kstate) (cpu : nat) (jiffies : Z) : outcome kstate :=
  b ← get_base st cpu;
  st ← run_ticks (Z.to_nat (sgn32 (jiffies - timer_jiffies b) + 1)) st cpu jiffies;
  b ← get_base st cpu;
  Ok (set_cpu_base st cpu (set_running_timer b None)).
End run.

(** [init_timers_cpu] *)
Definition init_timers_cpu (st : kstate) (cpu : nat) (jiffies : Z) : kstate :=
  set_cpu_base st cpu
    (mk_base jiffies None (replicate (Z.to_nat (TVR_SIZE + 4 * TVN_SIZE)) []) []).

(** ** Where a timer may be filed *)

(** The granularity (log2 of the ticks per bucket) of the coarse bucket [k]. *)
Definition gran (k : Z) : Z := TVR_BITS + TVN_BITS * ((k - TVR_SIZE) / TVN_SIZE).
Definition coarse_index (k : Z) : Z := (k - TVR_SIZE) mod TVN_SIZE.

(** Bucket [k] is served by the tick [j]: emptied into [work_list] when it is
    in [tv1], re-filed by [cascade] otherwise. *)
Definition due_now (j k : Z) : Prop :=
  if k <? TVR_SIZE then (k - j) mod TVR_SIZE = 0
  else j mod 2 ^ gran k = 0 ∧ (j / 2 ^ gran k) mod TVN_SIZE = coarse_index k.

(** A timer for tick [e] is correctly filed in bucket [k] when the next tick to
    process is [j].  In [tv1] the bucket is the one of tick [e] itself, or the
    timer was overdue when it was added.  In a coarse array the bucket covers
    tick [e], and it is one of the next 64 buckets to be re-filed. *)
Definition slot_ok (j e k : Z) : Prop :=
  if k <? TVR_SIZE then
    let served := j + (k - j) mod TVR_SIZE in
    wrap32 (served - e) = 0 ∨
    (0 < wrap32 (j - e) ∧ wrap32 (j - e) <= wrap32 (served - e) <= 2 ^ 31)
  else
    let unit := 2 ^ gran k in
    let at_ := j + wrap32 (e - j) in
    wrap32 (e - j) < 2 ^ 31 ∧
    (at_ / unit) mod TVN_SIZE = coarse_index k ∧
    (j + unit - 1) / unit <= at_ / unit < (j + unit - 1) / unit + TVN_SIZE.

(** Case analysis on the five arrays; leaves linear goals over numerals. *)
Lemma coarse_levels k :
  256 <= k < 512 →
  ∃ n, (n = 0 ∨ n = 1 ∨ n = 2 ∨ n = 3) ∧ gran k = 8 + 6 * n ∧
       coarse_index k = k - 256 - 64 * n ∧ 0 <= k - 256 - 64 * n < 64.
Proof.
  intros Hk. exists ((k - 256) / 64).
  unfold gran, coarse_index. change TVR_SIZE with 256. change TVN_SIZE with 64.
  change TVR_BITS with 8. change TVN_BITS with 6. zdm.
Qed.

Ltac unfold_slot :=
  unfold slot_ok, due_now, slot, tv_off in *;
  change TVR_SIZE with 256 in *; change TVN_SIZE with 64 in *;
  change TVR_MASK with (2 ^ 8 - 1) in *; change TVN_MASK with (2 ^ 6 - 1) in *;
  change TVR_BITS with 8 in *; change TVN_BITS with 6 in *;
  rewrite ?land_mask, ?Z.shiftr_div_pow2 in * by lia.

Lemma tv_off_coarse n i : 2 <= n <= 5 → tv_off n + i = 256 + 64 * (n - 2) + i.
Proof. intros. unfold tv_off. case_zb; [lia|]. done. Qed.

(** The tick [e] as an integer not below [j]. *)
Lemma wrap_at j e :
  is_u32 j → is_u32 e →
  (j <= e ∧ wrap32 (e - j) = e - j) ∨ (e < j ∧ wrap32 (e - j) = e - j + 2 ^ 32).
Proof. intros [? ?] [? ?]. unfold wrap32. zdm. Qed.

Lemma slot_coarse_ok j e n :
  is_u32 j → is_u32 e → (n = 0 ∨ n = 1 ∨ n = 2 ∨ n = 3) →
  2 ^ (8 + 6 * n) <= wrap32 (e - j) → wrap32 (e - j) < 2 ^ (14 + 6 * n) →
  wrap32 (e - j) < 2 ^ 31 →
  let k := 256 + 64 * n + (e / 2 ^ (8 + 6 * n)) mod 64 in
  slot_ok j e k ∧ ¬ due_now j k.
Proof.
  intros Hj He Hn Hlo Hhi H31 k.
  assert (Hk : 256 + 64 * n <= k < 320 + 64 * n).
  { pose proof (Z.mod_pos_bound (e / 2 ^ (8 + 6 * n)) 64 ltac:(lia)). lia. }
  destruct (coarse_levels k) as (m & Hm & Hg & Hc & Hr); [lia|].
  assert (m = n) as -> by lia.
  unfold slot_ok, due_now. change TVR_SIZE with 256. change TVN_SIZE with 64.
  destruct (Z.ltb_spec k 256); [lia|]. rewrite Hg, Hc.
  destruct (wrap_at j e Hj He) as [[? Hw]|[? Hw]]; rewrite Hw in *;
    destruct Hj, He; subst k;
    destruct Hn as [-> | [-> | [-> | ->]]];     (split; [split; [lia|split; zdm]|zdm]).
Qed.

(** The five branches of [internal_add_timer]. *)
Lemma slot_spec j e :
  is_u32 j → is_u32 e →
  0 <= slot j e < 512 ∧ slot_ok j e (slot j e) ∧
  (256 <= slot j e → ¬ due_now j (slot j e)).
Proof.
  intros Hj He. pose proof (wrap32_range (e - j)) as Hw.
  pose proof (slot_coarse_ok j e) as Hc.
  assert (Hb : ∀ x, 0 <= x mod 64 < 64) by (intros; apply Z.mod_pos_bound; lia).
  unfold slot. change TVR_SIZE with 256. change TVN_MASK with (2 ^ 6 - 1).
  change TVR_MASK with (2 ^ 8 - 1). change TVR_BITS with 8. change TVN_BITS with 6.
  rewrite !land_mask, !Z.shiftr_div_pow2, !Z.shiftl_mul_pow2, !Z.mul_1_l by lia.
  change (tv_off 1) with 0. rewrite !tv_off_coarse by lia.
  change (2 ^ 6) with 64. change (2 ^ 8) with 256.
  case_zb.
  { pose proof (Z.mod_pos_bound e 256 ltac:(lia)). split; [lia|]. split; [|lia].
    unfold slot_ok. change TVR_SIZE with 256. destruct (Z.ltb_spec (0 + e mod 256) 256); [|lia].
    left. unfold wrap32 in *. destruct Hj, He. zdm. }
  case_zb.
  { destruct (Hc 0) as [? ?]; try done; try (simpl; lia); try lia.
    specialize (Hb (e / 256)). split; [lia|]. split; [done|intros _; done]. }
  case_zb.
  { destruct (Hc 1) as [? ?]; try done; try (simpl; lia); try lia.
    specialize (Hb (e / 2 ^ (8 + 6))). split; [lia|]. split; [done|intros _; done]. }
  case_zb.
  { destruct (Hc 2) as [? ?]; try done; try (simpl; lia); try lia.
    specialize (Hb (e / 2 ^ (8 + 2 * 6))). split; [lia|]. split; [done|intros _; done]. }
  unfold sgn32. rewrite wrap32_wrap.
  destruct (Z.ltb_spec (wrap32 (e - j)) (2 ^ 31)).
  - destruct (Z.ltb_spec (wrap32 (e - j)) 0); [lia|].
    destruct (Z.ltb_spec 0xffffffff (wrap32 (e - j))); [lia|].
    destruct (Hc 3) as [? ?]; try done; try (simpl; lia); try lia.
    specialize (Hb (e / 2 ^ (8 + 3 * 6))). split; [lia|]. split; [done|intros _; done].
  - destruct (Z.ltb_spec (wrap32 (e - j) - 2 ^ 32) 0); [|lia].
    pose proof (Z.mod_pos_bound j 256 ltac:(lia)). split; [lia|]. split; [|lia].
    unfold slot_ok. change TVR_SIZE with 256. destruct (Z.ltb_spec (0 + j mod 256) 256); [|lia].
    right. unfold wrap32 in *. destruct Hj, He. zdm.
Qed.

(** A bucket that is not served by tick [j] stays correct for tick [j + 1]. *)
Lemma slot_ok_tick j e k :
  is_u32 j → is_u32 e → 0 <= k < 512 →
  slot_ok j e k → ¬ due_now j k → slot_ok (wrap32 (j + 1)) e k.
Proof.
  intros Hj He Hk. unfold slot_ok, due_now. change TVR_SIZE with 256. change TVN_SIZE with 64.
  destruct (Z.ltb_spec k 256).
  - intros Hs Hd. destruct Hj, He. unfold wrap32 in *.
    destruct (decide (j + 1 = 2 ^ 32)) as [E|E]; zdm.
  - destruct (coarse_levels k ltac:(lia)) as (n & Hn & Hg & Hc & Hr). rewrite Hg, Hc.
    destruct (wrap_at j e Hj He) as [[? Hw]|[? Hw]]; rewrite Hw;
      (destruct (wrap_at (wrap32 (j + 1)) e (wrap32_is_u32 _) He) as [[? Hw']|[? Hw']]; rewrite Hw');
      destruct Hj, He; unfold wrap32 in *;
      destruct Hn as [-> | [-> | [-> | ->]]];       intros Hs Hd; zdm.
Qed.

(** A timer for the current tick is in a bucket this tick serves. *)
Lemma slot_now_due j k : 0 <= k < 512 → slot_ok j j k → due_now j k.
Proof.
  intros Hk. unfold slot_ok, due_now. change TVR_SIZE with 256. change TVN_SIZE with 64.
  rewrite Z.sub_diag. change (wrap32 0) with 0. destruct (Z.ltb_spec k 256).
  - unfold wrap32. intros [?|?]; zdm.
  - destruct (coarse_levels k ltac:(lia)) as (n & Hn & Hg & Hc & Hr). rewrite Hg, Hc, Z.add_0_r.
    destruct Hn as [-> | [-> | [-> | ->]]]; intros; zdm.
Qed.

(** A coarse bucket is re-filed into a finer array, never into itself. *)
Lemma slot_refile j e k :
  is_u32 j → is_u32 e → 256 <= k < 512 → slot_ok j e k → due_now j k →
  slot j e < 256 + 64 * ((k - 256) / 64).
Proof.
  intros Hj He Hk Hs Hd.
  assert (Hlt : wrap32 (e - j) < 2 ^ gran k).
  { revert Hs Hd. unfold slot_ok, due_now. change TVR_SIZE with 256. change TVN_SIZE with 64.
    destruct (Z.ltb_spec k 256); [lia|].
    destruct (coarse_levels k ltac:(lia)) as (n & Hn & Hg & Hc & Hr). rewrite Hg, Hc.
    destruct (wrap_at j e Hj He) as [[? Hw]|[? Hw]]; rewrite Hw; destruct Hj, He;
      destruct Hn as [-> | [-> | [-> | ->]]];       intros; zdm. }
  assert (H31 : wrap32 (e - j) < 2 ^ 31).
  { revert Hs. unfold slot_ok. change TVR_SIZE with 256. destruct (Z.ltb_spec k 256); [lia|].
    intros [? _]. done. }
  destruct (coarse_levels k ltac:(lia)) as (n & Hn & Hg & Hc & Hr).
  assert ((k - 256) / 64 = n) as -> by zdm. rewrite Hg in Hlt.
  assert (Hb : ∀ n, 0 <= (e / 2 ^ n) mod 64 < 64) by (intros; apply Z.mod_pos_bound; lia).
  pose proof (Hb 8). pose proof (Hb (8 + 6)). pose proof (Hb (8 + 2 * 6)).
  pose proof (wrap32_range (e - j)).
  assert (Hsg : (sgn32 (wrap32 (e - j)) <? 0) = false).
  { apply Z.ltb_ge. unfold sgn32. rewrite wrap32_wrap. case_zb; lia. }
  unfold slot. rewrite Hsg. change TVR_SIZE with 256. change TVN_MASK with (2 ^ 6 - 1).
  change TVR_MASK with (2 ^ 8 - 1). change TVR_BITS with 8. change TVN_BITS with 6.
  rewrite !land_mask, !Z.shiftr_div_pow2, !Z.shiftl_mul_pow2, !Z.mul_1_l by lia.
  change (tv_off 1) with 0. rewrite !tv_off_coarse by lia.
  pose proof (Z.mod_pos_bound e (2 ^ 8) ltac:(lia)).
  change (2 ^ 6) with 64.
  destruct Hn as [-> | [-> | [-> | ->]]]; repeat case_zb; lia.
Qed.

End Wheel.
