(* ===== verification/TimerFacts.v ===== *)
(** * Timer wheel: invariants and theorems

    The invariant of a base and of the whole timer state (Timer.v), its
    preservation by every timer call, by [cascade] and by [__run_timers], and
    the properties of timer expiry that follow. *)

From stdpp Require Import prelude numbers list gmap.
From Stdlib Require Import ZArith Lia.
From S2P Require Import Prelude Timer.

#[local] Set Default Goal Selector "!".
#[local] Open Scope Z_scope.

Module WheelFacts.
Import Wheel.

(** ** The timers of a base *)

Definition ids (b : tvec_base_t) : list nat := concat (vec b) ++ work_list b.

Lemma concat_alter_snoc (v : list (list nat)) k id :
  (k < length v)%nat → concat (alter (λ l, l ++ [id]) k v) ≡ₚ id :: concat v.
Proof.
  revert k. induction v as [|l v IH]; intros [|k] Hk; cbn [length] in Hk; try lia.
  - change ((l ++ [id]) ++ concat v ≡ₚ id :: l ++ concat v).
    rewrite <- app_assoc. simpl. by rewrite <- Permutation_middle.
  - change (l ++ concat (alter (λ l, l ++ [id]) k v) ≡ₚ id :: l ++ concat v).
    rewrite IH by lia. by rewrite <- Permutation_middle.
Qed.

Lemma concat_insert_nil (v : list (list nat)) k l :
  v !! k = Some l → concat v ≡ₚ l ++ concat (<[k := []]> v).
Proof.
  revert k. induction v as [|l' v IH]; intros [|k] Hk; try done.
  - by injection Hk as ->.
  - change (l' ++ concat v ≡ₚ l ++ l' ++ concat (<[k := []]> v)).
    rewrite (IH k) by done. by rewrite !app_assoc, (Permutation_app_comm l' l).
Qed.

Lemma elem_of_concat_lookup (v : list (list nat)) id :
  id ∈ concat v ↔ ∃ k l, v !! k = Some l ∧ id ∈ l.
Proof.
  rewrite list_elem_of_In, in_concat. split.
  - intros (l & Hl & Hid). apply list_elem_of_In, list_elem_of_lookup in Hl as [k Hk].
    exists k, l. by rewrite list_elem_of_In.
  - intros (k & l & Hk & Hid). exists l. rewrite <- !list_elem_of_In.
    split; [by eapply list_elem_of_lookup_2|done].
Qed.

Lemma concat_filter (v : list (list nat)) id :
  concat (filter (λ x, x ≠ id) <$> v) = filter (λ x, x ≠ id) (concat v).
Proof.
  induction v as [|l v IH]; [done|].
  rewrite fmap_cons. cbn [concat]. by rewrite filter_app, IH.
Qed.

Lemma ids_list_del b id : ids (list_del b id) = filter (λ x, x ≠ id) (ids b).
Proof. unfold ids. simpl. by rewrite concat_filter, filter_app. Qed.

Lemma elem_of_ids_del b id x : x ∈ ids (list_del b id) ↔ x ≠ id ∧ x ∈ ids b.
Proof. by rewrite ids_list_del, list_elem_of_filter. Qed.

(** ** Invariant of one base *)

Record base_ok (tm : gmap nat timer_list) (cpu : nat) (b : tvec_base_t) : Prop := {
  bo_length : length (vec b) = 512%nat;
  bo_jiffies : is_u32 (timer_jiffies b);
  bo_nodup : NoDup (ids b);
  bo_pending : ∀ id, id ∈ ids b → ∃ t, tm !! id = Some t ∧ base t = Some cpu;
  bo_slot : ∀ k v id t, vec b !! k = Some v → id ∈ v → tm !! id = Some t →
            slot_ok (timer_jiffies b) (expires t) (Z.of_nat k);
  bo_work : ∀ id t, id ∈ work_list b → tm !! id = Some t →
            wrap32 (timer_jiffies b - 1 - expires t) <= 2 ^ 31;
}.

Lemma bo_in_vec b k (v : list nat) id : vec b !! k = Some v → id ∈ v → id ∈ ids b.
Proof.
  intros Hk Hid. unfold ids. rewrite elem_of_app. left.
  apply elem_of_concat_lookup. by exists k, v.
Qed.

Lemma base_ok_frame tm cpu b id t :
  base_ok tm cpu b → id ∉ ids b → base_ok (<[id := t]> tm) cpu b.
Proof.
  intros [Hl Hj Hn Hp Hs Hw] Hid. split; try done.
  - intros x Hx. rewrite lookup_insert_ne by congruence. by apply Hp.
  - intros k v x u Hk Hx. rewrite lookup_insert_ne; [by eapply Hs|].
    intros ->. by apply Hid, (bo_in_vec b k v).
  - intros x u Hx. rewrite lookup_insert_ne; [by eapply Hw|].
    intros ->. apply Hid. unfold ids. rewrite elem_of_app. by right.
Qed.

(** Changing a timer without touching [expires] and [base] is invisible. *)
Lemma base_ok_ext tm cpu b id t t' :
  base_ok tm cpu b → tm !! id = Some t → expires t' = expires t → base t' = base t →
  base_ok (<[id := t']> tm) cpu b.
Proof.
  intros [Hl Hj Hn Hp Hs Hw] Ht He Hb. split; try done.
  - intros x Hx. destruct (Hp x Hx) as (u & Hu & ?).
    destruct (decide (x = id)) as [->|]; [|rewrite lookup_insert_ne by done; eauto].
    exists t'. rewrite lookup_insert_eq. split; [done|]. congruence.
  - intros k v x u Hk Hx. destruct (decide (x = id)) as [->|].
    + rewrite lookup_insert_eq. intros [= <-]. rewrite He. by eapply Hs.
    + rewrite lookup_insert_ne by done. by eapply Hs.
  - intros x u Hx. destruct (decide (x = id)) as [->|].
    + rewrite lookup_insert_eq. intros [= <-]. rewrite He. by eapply Hw.
    + rewrite lookup_insert_ne by done. by eapply Hw.
Qed.

Lemma base_ok_del tm cpu b id : base_ok tm cpu b → base_ok tm cpu (list_del b id).
Proof.
  intros [Hl Hj Hn Hp Hs Hw]. split; simpl; try done.
  - by rewrite length_fmap.
  - rewrite ids_list_del. by apply NoDup_filter.
  - intros x [_ Hx]%elem_of_ids_del. by apply Hp.
  - intros k v x t Hk Hx. rewrite list_lookup_fmap in Hk.
    destruct (vec b !! k) as [v'|] eqn:E; [|done]. injection Hk as <-.
    apply list_elem_of_filter in Hx as [_ Hx]. by eapply Hs.
  - intros x t [_ Hx]%list_elem_of_filter. by apply Hw.
Qed.

Lemma vec_add_lookup b id e k :
  vec (internal_add_timer b id e) !! k =
    if decide (k = Z.to_nat (slot (timer_jiffies b) e))
    then (λ v, v ++ [id]) <$> vec b !! k else vec b !! k.
Proof.
  simpl. case_decide as H; [subst k; by rewrite list_lookup_alter_eq|].
  by rewrite list_lookup_alter_ne.
Qed.

Lemma ids_add b id e :
  length (vec b) = 512%nat → is_u32 (timer_jiffies b) → is_u32 e →
  ids (internal_add_timer b id e) ≡ₚ id :: ids b.
Proof.
  intros Hl Hj He. destruct (slot_spec _ _ Hj He) as [Hr _].
  unfold ids. simpl. rewrite concat_alter_snoc by lia. done.
Qed.

Lemma base_ok_add tm cpu b id t :
  base_ok tm cpu b → id ∉ ids b → tm !! id = Some t → base t = Some cpu →
  is_u32 (expires t) → base_ok tm cpu (internal_add_timer b id (expires t)).
Proof.
  intros [Hl Hj Hn Hp Hs Hw] Hid Ht Hb He.
  pose proof (ids_add b id (expires t) Hl Hj He) as Hids.
  destruct (slot_spec _ _ Hj He) as (Hr & Hok & _). split; try done.
  - simpl. by rewrite length_alter.
  - rewrite Hids. by constructor.
  - intros x Hx. rewrite Hids in Hx. apply elem_of_cons in Hx as [->|Hx]; [eauto|by apply Hp].
  - intros k v x u Hk Hx Hu. rewrite vec_add_lookup in Hk. simpl timer_jiffies.
    destruct (decide (k = _)) as [->|]; [|by eapply Hs].
    destruct (vec b !! _) as [v'|] eqn:E; [|done]. injection Hk as <-.
    apply elem_of_app in Hx as [Hx|Hx]; [by eapply Hs|].
    apply list_elem_of_singleton in Hx as ->. rewrite Z2Nat.id by lia. by simplify_eq.
Qed.

(** ** Invariant of the timer state *)

(** A handler call is never early: its tick is at or after [expires], in the
    wrap-around order of [time_after_eq].  A distance of exactly 2^31 counts as late, as it
    does for [internal_add_timer], which files such a timer to run at once. *)
Definition not_early (x : nat * Z * Z) : Prop :=
  let '(_, e, tick) := x in wrap32 (tick - e) <= 2 ^ 31.

Record inv (st : kstate) : Prop := {
  inv_base : ∀ c b, bases st !! c = Some b → base_ok (timers st) c b;
  inv_queued : ∀ id t c, timers st !! id = Some t → base t = Some c →
               ∃ b, bases st !! c = Some b ∧ id ∈ ids b;
  inv_expires : ∀ id t, timers st !! id = Some t → is_u32 (expires t);
  inv_fired : Forall not_early (fired st);
}.

(** The handlers, the population of timers and the number of CPUs are fixed. *)
Definition same_shape (st st' : kstate) : Prop :=
  length (bases st') = length (bases st) ∧
  (∀ id, function <$> timers st' !! id = function <$> timers st !! id).

Lemma same_shape_refl st : same_shape st st.
Proof. done. Qed.

Lemma same_shape_trans st1 st2 st3 :
  same_shape st1 st2 → same_shape st2 st3 → same_shape st1 st3.
Proof. intros [H1 H2] [H3 H4]. split; [congruence|]. intros id. by rewrite H4, H2. Qed.
#[local] Hint Resolve same_shape_refl same_shape_trans : kern.

Lemma not_in_other_base st id t c b :
  inv st → timers st !! id = Some t → base t ≠ Some c → bases st !! c = Some b → id ∉ ids b.
Proof.
  intros Hi Ht Hb Hc Hid. destruct (bo_pending _ _ _ (inv_base _ Hi c b Hc) id Hid) as (u & Hu & ?).
  congruence.
Qed.

(** Taking a pending timer off its list, and recording any new [timer_list]
    that is not pending. *)
Lemma inv_unlink st id t c b t' :
  inv st → timers st !! id = Some t → base t = Some c → bases st !! c = Some b →
  base t' = None → is_u32 (expires t') →
  inv (set_timer (set_cpu_base st c (list_del b id)) id t').
Proof.
  intros Hi Ht Hbt Hc Hb' He'. destruct st as [tm bs fd]; simpl in *.
  pose proof (lookup_lt_Some _ _ _ Hc) as Hlt. split; simpl.
  - intros c2 b2 Hc2. apply base_ok_frame.
    + destruct (decide (c = c2)) as [<-|].
      * rewrite list_lookup_insert_eq in Hc2 by done. injection Hc2 as <-.
        apply base_ok_del. by apply (inv_base _ Hi c b).
      * rewrite list_lookup_insert_ne in Hc2 by done. by apply (inv_base _ Hi).
    + destruct (decide (c = c2)) as [<-|].
      * rewrite list_lookup_insert_eq in Hc2 by done. injection Hc2 as <-.
        intros [? _]%elem_of_ids_del. done.
      * rewrite list_lookup_insert_ne in Hc2 by done.
        apply (not_in_other_base (mk_kstate tm bs fd) id t c2 b2 Hi Ht); [|done].
        simpl. intros ?. congruence.
  - intros x u c2 Hx Hbu. destruct (decide (id = x)) as [<-|].
    { rewrite lookup_insert_eq in Hx. congruence. }
    rewrite lookup_insert_ne in Hx by done.
    destruct (inv_queued _ Hi x u c2 Hx Hbu) as (b2 & Hb2 & Hin).
    destruct (decide (c = c2)) as [<-|]; [|exists b2; by rewrite list_lookup_insert_ne].
    exists (list_del b id). rewrite list_lookup_insert_eq by done. split; [done|].
    rewrite elem_of_ids_del. split; [done|]. simpl in Hb2. congruence.
  - intros x u. destruct (decide (id = x)) as [<-|]; [rewrite lookup_insert_eq; by intros [= <-]|].
    rewrite lookup_insert_ne by done. apply (inv_expires _ Hi).
  - apply (inv_fired _ Hi).
Qed.

(** Changing a timer that is not pending into another that is not. *)
Lemma inv_set_idle st id t t' :
  inv st → timers st !! id = Some t → base t = None → base t' = None →
  is_u32 (expires t') → inv (set_timer st id t').
Proof.
  intros Hi Ht Hb Hb' He'. destruct st as [tm bs fd]; simpl in *. split; simpl.
  - intros c b Hc. apply base_ok_frame; [by apply (inv_base _ Hi)|].
    apply (not_in_other_base (mk_kstate tm bs fd) id t c b Hi Ht); [congruence|done].
  - intros x u c Hx Hbu. destruct (decide (id = x)) as [<-|].
    { rewrite lookup_insert_eq in Hx. congruence. }
    rewrite lookup_insert_ne in Hx by done. by apply (inv_queued _ Hi x u c).
  - intros x u. destruct (decide (id = x)) as [<-|]; [rewrite lookup_insert_eq; by intros [= <-]|].
    rewrite lookup_insert_ne by done. apply (inv_expires _ Hi).
  - apply (inv_fired _ Hi).
Qed.

(** Queueing a timer that is not pending. *)
Lemma inv_enqueue st id t c b t' :
  inv st → timers st !! id = Some t → base t = None → bases st !! c = Some b →
  base t' = Some c → is_u32 (expires t') →
  inv (set_timer (set_cpu_base st c (internal_add_timer b id (expires t'))) id t').
Proof.
  intros Hi Ht Hb Hc Hb' He'. destruct st as [tm bs fd]; simpl in *.
  pose proof (lookup_lt_Some _ _ _ Hc) as Hlt.
  assert (Hfr : ∀ c2 b2, bs !! c2 = Some b2 → (id ∉ ids b2) ∧ base_ok (<[id := t']> tm) c2 b2).
  { intros c2 b2 Hc2.
    assert (id ∉ ids b2)
      by (apply (not_in_other_base (mk_kstate tm bs fd) id t c2 b2 Hi Ht); [congruence|done]).
    split; [done|]. apply base_ok_frame; [by apply (inv_base _ Hi)|done]. }
  destruct (Hfr c b Hc) as [Hnin Hok]. pose proof Hok as [Hl Hj _ _ _ _].
  split; simpl.
  - intros c2 b2 Hc2. destruct (decide (c = c2)) as [<-|].
    + rewrite list_lookup_insert_eq in Hc2 by done. injection Hc2 as <-.
      apply (base_ok_add _ _ b id t'); try done. by rewrite lookup_insert_eq.
    + rewrite list_lookup_insert_ne in Hc2 by done. by apply Hfr.
  - pose proof (ids_add b id (expires t') Hl Hj He') as Hids.
    intros x u c2 Hx Hbu. destruct (decide (id = x)) as [<-|].
    + rewrite lookup_insert_eq in Hx. simplify_eq. eexists.
      rewrite list_lookup_insert_eq by done. split; [done|]. rewrite Hids. by left.
    + rewrite lookup_insert_ne in Hx by done.
      destruct (inv_queued _ Hi x u c2 Hx Hbu) as (b2 & Hb2 & Hin). simpl in Hb2.
      destruct (decide (c = c2)) as [<-|]; [|exists b2; by rewrite list_lookup_insert_ne].
      eexists. rewrite list_lookup_insert_eq by done. split; [done|].
      rewrite Hids. simplify_eq. by right.
  - intros x u. destruct (decide (id = x)) as [<-|]; [rewrite lookup_insert_eq; by intros [= <-]|].
    rewrite lookup_insert_ne by done. apply (inv_expires _ Hi).
  - apply (inv_fired _ Hi).
Qed.

(** ** Timer calls *)

(** A work list from which only [id] may be missing. *)
Definition fewer (id : nat) (w w' : list nat) : Prop :=
  sublist w' w ∧ ∀ x, x ≠ id → x ∈ w → x ∈ w'.

Lemma fewer_refl id w : fewer id w w.
Proof. done. Qed.
Lemma fewer_trans id w1 w2 w3 : fewer id w1 w2 → fewer id w2 w3 → fewer id w1 w3.
Proof. intros [A1 B1] [A2 B2]. split; [by etrans|auto]. Qed.
Lemma fewer_filter id w : fewer id w (filter (λ x, x ≠ id) w).
Proof. split; [apply sublist_filter|]. intros x Hx Hw. by apply list_elem_of_filter. Qed.
#[local] Hint Resolve fewer_refl fewer_trans fewer_filter : kern.

(** What a timer call may change: nothing but timer [id] and the wheel. *)
Definition only_timer (id : nat) (st st' : kstate) : Prop :=
  same_shape st st' ∧ fired st' = fired st ∧
  (∀ x, x ≠ id → timers st' !! x = timers st !! x) ∧
  (∀ c, timer_jiffies <$> bases st' !! c = timer_jiffies <$> bases st !! c) ∧
  (∀ c, is_Some (work_list <$> bases st !! c) →
        ∃ w w', work_list <$> bases st !! c = Some w ∧
                work_list <$> bases st' !! c = Some w' ∧ fewer id w w').

Lemma only_timer_refl id st : only_timer id st st.
Proof. repeat split; try done. intros c [w Hw]. exists w, w. auto with kern. Qed.

Lemma only_timer_trans id st1 st2 st3 :
  only_timer id st1 st2 → only_timer id st2 st3 → only_timer id st1 st3.
Proof.
  intros (A1 & B1 & C1 & D1 & E1) (A2 & B2 & C2 & D2 & E2).
  split; [eauto with kern|]. split; [congruence|]. split; [|split].
  - intros x Hx. by rewrite C2, C1.
  - intros c. by rewrite D2, D1.
  - intros c Hc. destruct (E1 c Hc) as (w & w' & Hw & Hw' & ?).
    destruct (E2 c) as (w1 & w2 & Hw1 & Hw2 & ?); [rewrite Hw'; by eexists|].
    exists w, w2. rewrite Hw' in Hw1. simplify_eq. split; [done|]. split; [done|eauto with kern].
Qed.

Lemma only_timer_set st id t t' :
  timers st !! id = Some t → function t' = function t →
  only_timer id st (set_timer st id t').
Proof.
  intros Ht Hf. split; [split; [done|]|split; [done|split; [|split; [done|]]]].
  - intros x. simpl. destruct (decide (id = x)) as [<-|]; [|by rewrite lookup_insert_ne].
    rewrite lookup_insert_eq, Ht. simpl. by rewrite Hf.
  - intros x Hx. simpl. by rewrite lookup_insert_ne.
  - intros c [w Hw]. exists w, w. auto with kern.
Qed.

Lemma only_timer_base st id c b b' :
  bases st !! c = Some b → timer_jiffies b' = timer_jiffies b →
  fewer id (work_list b) (work_list b') →
  only_timer id st (set_cpu_base st c b').
Proof.
  intros Hc Hj Hs. pose proof (lookup_lt_Some _ _ _ Hc).
  split; [split; [simpl; by rewrite length_insert|done]|].
  split; [done|split; [done|split]].
  - intros x. simpl. destruct (decide (c = x)) as [<-|]; [|by rewrite list_lookup_insert_ne].
    rewrite list_lookup_insert_eq, Hc by done. simpl. by rewrite Hj.
  - intros x [w Hw]. simpl. destruct (decide (c = x)) as [<-|].
    + rewrite list_lookup_insert_eq, Hc by done. simpl. by eexists _, _.
    + rewrite list_lookup_insert_ne by done. exists w, w. auto with kern.
Qed.

Lemma get_timer_Some st id t : timers st !! id = Some t → get_timer st id = Ok t.
Proof. unfold get_timer. by intros ->. Qed.

Lemma get_base_Some st c b : bases st !! c = Some b → get_base st c = Ok b.
Proof. unfold get_base. by intros ->. Qed.

Lemma check_timer_ok st id t :
  inv st → timers st !! id = Some t →
  check_timer st id = Ok (set_timer st id (set_magic t)) ∧ inv (set_timer st id (set_magic t)).
Proof.
  intros Hi Ht. destruct st as [tm bs fd]; simpl in *. split.
  - unfold check_timer. rewrite (get_timer_Some _ id t) by done. cbn [mbind outcome_bind].
    destruct (magic t) eqn:Hm; [|done]. unfold set_timer. simpl.
    rewrite insert_id; [done|]. rewrite Ht. f_equal.
    destruct t; simpl in *. unfold set_magic. simpl. by rewrite Hm.
  - split; simpl.
    + intros c b Hc. apply (base_ok_ext _ _ _ _ t); try done. by apply (inv_base _ Hi).
    + intros x u c Hx Hb. destruct (decide (id = x)) as [<-|].
      * rewrite lookup_insert_eq in Hx. injection Hx as <-. by apply (inv_queued _ Hi id t c).
      * rewrite lookup_insert_ne in Hx by done. by apply (inv_queued _ Hi x u c).
    + intros x u Hx. destruct (decide (id = x)) as [<-|].
      * rewrite lookup_insert_eq in Hx. injection Hx as <-. by apply (inv_expires _ Hi id t).
      * rewrite lookup_insert_ne in Hx by done. by apply (inv_expires _ Hi x u).
    + apply (inv_fired _ Hi).
Qed.

Lemma set_timer_twice st id t t' : set_timer (set_timer st id t) id t' = set_timer st id t'.
Proof. unfold set_timer. simpl. by rewrite insert_insert_eq. Qed.

Lemma set_timer_base_comm st id t c b :
  set_timer (set_cpu_base st c b) id t = set_cpu_base (set_timer st id t) c b.
Proof. done. Qed.

Lemma internal_mod_timer_ok st cpu id t e :
  inv st → timers st !! id = Some t → function t = true →
  (cpu < length (bases st))%nat → is_u32 e →
  ∃ st', __mod_timer st cpu id e = Ok (st', if timer_pending t then 1 else 0) ∧
    inv st' ∧ only_timer id st st' ∧
    timers st' !! id = Some (mk_timer e true true (Some cpu)).
Proof.
  intros Hi Ht Hf Hcpu He. unfold __mod_timer. rewrite (get_timer_Some st id t Ht).
  cbn [mbind outcome_bind]. rewrite Hf. cbn [negb BUG_ON mbind outcome_bind].
  destruct (check_timer_ok st id t Hi Ht) as [-> Hi1].
  pose proof (only_timer_set st id t (set_magic t) Ht eq_refl) as Hot1.
  set (t1 := set_magic t) in *. set (st1 := set_timer st id t1) in *.
  assert (Ht1 : timers st1 !! id = Some t1) by apply lookup_insert_eq.
  cbn [mbind outcome_bind]. rewrite (get_timer_Some st1 id t1 Ht1). cbn [mbind outcome_bind].
  assert (Hp : timer_pending t = bool_decide (base t1 ≠ None)) by done. rewrite Hp.
  set (t0 := set_base (set_expires t1 e) None).
  set (t' := mk_timer e true true (Some cpu)).
  assert (Htt : set_base (set_expires t1 e) (Some cpu) = t')
    by (unfold t', t1; destruct t; simpl in *; by subst).
  assert (Hmain : ∀ st2 t2, inv st2 → timers st2 !! id = Some t2 → base t2 = None →
    function t2 = true → only_timer id st st2 →
    ∃ b2, bases st2 !! cpu = Some b2 ∧
      let st3 := set_timer (set_cpu_base st2 cpu (internal_add_timer b2 id e)) id t' in
      inv st3 ∧ only_timer id st st3 ∧ timers st3 !! id = Some t').
  { intros st2 t2 Hi2 Ht2 Hb2 Hf2 Hot2.
    destruct (lookup_lt_is_Some_2 (bases st2) cpu) as [b2 Hb2'].
    { destruct Hot2 as [[-> _] _]. done. }
    exists b2. split; [done|]. intros st3. split; [|split].
    - apply (inv_enqueue st2 id t2 cpu b2 t'); done.
    - eapply only_timer_trans; [done|].
      eapply only_timer_trans; [apply (only_timer_base st2 id cpu b2 (internal_add_timer b2 id e) Hb2'); done|].
      by apply (only_timer_set _ id t2 t').
    - apply lookup_insert_eq. }
  destruct (base t1) as [c|] eqn:Hbt.
  - destruct (inv_queued _ Hi1 id t1 c Ht1 Hbt) as (b & Hc & Hin).
    rewrite (get_base_Some st1 c b Hc). cbn [mbind outcome_bind].
    pose proof (inv_unlink st1 id t1 c b t0 Hi1 Ht1 Hbt Hc eq_refl He) as Hi2.
    destruct (Hmain _ t0 Hi2) as (b2 & Hb2 & Hst3);
      [apply lookup_insert_eq|done|done| |].
    { eapply only_timer_trans; [exact Hot1|].
      eapply only_timer_trans; [apply (only_timer_base st1 id c b (list_del b id) Hc); [done|]|].
      - simpl. apply fewer_filter.
      - by apply (only_timer_set _ id t1 t0). }
    rewrite (get_base_Some _ cpu b2) by exact Hb2. cbn [mbind outcome_bind].
    eexists. split; [done|]. rewrite Htt.
    set (st3 := set_timer (set_cpu_base (set_timer (set_cpu_base st1 c (list_del b id)) id
      (set_expires t1 e)) cpu (internal_add_timer b2 id e)) id t') in *.
    assert (st3 = set_timer (set_cpu_base (set_timer (set_cpu_base st1 c (list_del b id)) id t0)
      cpu (internal_add_timer b2 id e)) id t') as ->
      by (unfold st3; rewrite <- !set_timer_base_comm; by rewrite !set_timer_twice).
    exact Hst3.
  - cbn [mbind outcome_bind].
    destruct (Hmain st1 t1 Hi1 Ht1 Hbt Hf Hot1) as (b2 & Hb2 & Hst3).
    rewrite (get_base_Some _ cpu b2) by exact Hb2. cbn [mbind outcome_bind].
    eexists. split; [done|]. rewrite Htt.
    rewrite <- set_timer_base_comm, set_timer_twice. exact Hst3.
Qed.

Lemma mod_timer_ok st cpu id t e :
  inv st → timers st !! id = Some t → function t = true →
  (cpu < length (bases st))%nat → is_u32 e →
  ∃ st', mod_timer st cpu id e = Ok (st', if timer_pending t then 1 else 0) ∧
    inv st' ∧ only_timer id st st' ∧
    ∃ c, timers st' !! id = Some (mk_timer e true true (Some c)).
Proof.
  intros Hi Ht Hf Hcpu He. unfold mod_timer. rewrite (get_timer_Some st id t Ht).
  cbn [mbind outcome_bind]. rewrite Hf. cbn [negb BUG_ON mbind outcome_bind].
  destruct (check_timer_ok st id t Hi Ht) as [-> Hi1]. cbn [mbind outcome_bind].
  pose proof (only_timer_set st id t (set_magic t) Ht eq_refl) as Hot1.
  destruct ((expires t =? e) && timer_pending t) eqn:Hc.
  - apply andb_true_iff in Hc as [Hexp Hp]. rewrite Hp. zb_hyps. eexists. split; [done|].
    split; [done|]. split; [done|]. unfold timer_pending in Hp. apply bool_decide_eq_true in Hp.
    destruct (base t) as [c|] eqn:Hb; [|done]. exists c. simpl. rewrite lookup_insert_eq.
    unfold set_magic. by rewrite Hexp, Hf, Hb.
  - destruct (internal_mod_timer_ok (set_timer st id (set_magic t)) cpu id (set_magic t) e)
      as (st' & -> & Hi' & Hot & Hl); try done; [apply lookup_insert_eq|].
    eexists. split; [done|]. split; [done|]. split; [by eapply only_timer_trans|eauto].
Qed.

Lemma del_timer_ok st id t :
  inv st → timers st !! id = Some t →
  ∃ st', del_timer st id = Ok (st', if timer_pending t then 1 else 0) ∧
    inv st' ∧ only_timer id st st' ∧
    timers st' !! id = Some (mk_timer (expires t) (function t) true None).
Proof.
  intros Hi Ht. unfold del_timer.
  destruct (check_timer_ok st id t Hi Ht) as [-> Hi1]. cbn [mbind outcome_bind].
  pose proof (only_timer_set st id t (set_magic t) Ht eq_refl) as Hot1.
  set (t1 := set_magic t) in *. set (st1 := set_timer st id t1) in *.
  assert (Ht1 : timers st1 !! id = Some t1) by apply lookup_insert_eq.
  rewrite (get_timer_Some st1 id t1 Ht1). cbn [mbind outcome_bind].
  assert (Hp : timer_pending t = bool_decide (base t1 ≠ None)) by done. rewrite Hp.
  destruct (base t1) as [c|] eqn:Hb.
  - destruct (inv_queued _ Hi1 id t1 c Ht1 Hb) as (b & Hc & Hin).
    rewrite (get_base_Some st1 c b Hc). cbn [mbind outcome_bind].
    eexists. split; [done|]. split.
    + apply (inv_unlink st1 id t1 c b); try done. by apply (inv_expires _ Hi1 id t1).
    + split; [|apply lookup_insert_eq]. eapply only_timer_trans; [done|].
      eapply only_timer_trans; [apply (only_timer_base st1 id c b (list_del b id) Hc); [done|]|].
      * apply fewer_filter.
      * by apply (only_timer_set _ id t1).
  - eexists. split; [done|]. split; [done|]. split; [done|]. rewrite Ht1.
    unfold t1, set_magic in *. simpl in *. by rewrite Hb.
Qed.

Lemma add_timer_on_ok st id cpu t :
  inv st → timers st !! id = Some t → function t = true → base t = None →
  (cpu < length (bases st))%nat →
  ∃ st', add_timer_on st id cpu = Ok (st', 0) ∧ inv st' ∧ only_timer id st st' ∧
    timers st' !! id = Some (mk_timer (expires t) true true (Some cpu)).
Proof.
  intros Hi Ht Hf Hb Hcpu. unfold add_timer_on. rewrite (get_timer_Some st id t Ht).
  destruct (lookup_lt_is_Some_2 _ _ Hcpu) as [b Hc].
  cbn [mbind outcome_bind]. rewrite (get_base_Some st cpu b Hc). cbn [mbind outcome_bind].
  unfold timer_pending. rewrite Hb, Hf, bool_decide_eq_false_2 by (intros []; done).
  cbn [negb orb BUG_ON mbind outcome_bind].
  destruct (check_timer_ok st id t Hi Ht) as [-> Hi1]. cbn [mbind outcome_bind].
  pose proof (only_timer_set st id t (set_magic t) Ht eq_refl) as Hot1.
  set (t1 := set_magic t) in *. set (st1 := set_timer st id t1) in *.
  assert (Ht1 : timers st1 !! id = Some t1) by apply lookup_insert_eq.
  rewrite (get_timer_Some st1 id t1 Ht1). cbn [mbind outcome_bind].
  eexists. split; [done|]. split; [|split].
  - apply (inv_enqueue st1 id t1 cpu b (set_base t1 (Some cpu))); try done.
    by apply (inv_expires _ Hi id t).
  - eapply only_timer_trans; [done|].
    eapply only_timer_trans;
      [by apply (only_timer_base st1 id cpu b (internal_add_timer b id (expires t1)) Hc)|].
    by apply (only_timer_set _ id t1).
  - unfold set_timer. simpl. rewrite lookup_insert_eq. unfold set_base, t1. simpl. by rewrite Hf.
Qed.

(** Every timer call keeps the wheel consistent, touches only its own
    timer, and returns 1 exactly when the timer was pending; [mod_timer] leaves
    it pending for the new [expires], [del_timer] leaves it off every list. *)
Theorem timer_calls_correct st cpu id t e :
  inv st → timers st !! id = Some t → function t = true →
  (cpu < length (bases st))%nat → is_u32 e →
  (∃ st', mod_timer st cpu id e = Ok (st', if timer_pending t then 1 else 0) ∧
     inv st' ∧ only_timer id st st' ∧
     ∃ c b, timers st' !! id = Some (mk_timer e true true (Some c)) ∧
            bases st' !! c = Some b ∧ id ∈ ids b) ∧
  (∃ st', del_timer st id = Ok (st', if timer_pending t then 1 else 0) ∧
     inv st' ∧ only_timer id st st' ∧
     ∀ c b, bases st' !! c = Some b → id ∉ ids b).
Proof.
  intros Hi Ht Hf Hcpu He. split.
  - destruct (mod_timer_ok st cpu id t e) as (st' & ? & Hi' & ? & c & Hl); try done.
    exists st'. split; [done|]. split; [done|]. split; [done|].
    destruct (inv_queued _ Hi' id _ c Hl eq_refl) as (b & ? & ?). by exists c, b.
  - destruct (del_timer_ok st id t) as (st' & ? & Hi' & ? & Hl); try done.
    exists st'. split; [done|]. split; [done|]. split; [done|].
    intros c b Hc. by eapply (not_in_other_base st').
Qed.

(** ** Cascading *)

Lemma cascade_loop_spec tm cpu at_ l : ∀ b,
  length (vec b) = 512%nat → is_u32 (timer_jiffies b) →
  (∀ id, id ∈ l → ∃ t, tm !! id = Some t ∧ base t = Some cpu ∧ is_u32 (expires t) ∧
                       slot (timer_jiffies b) (expires t) ≠ at_) →
  ∃ b', cascade_loop tm cpu b at_ l = Ok b' ∧
    timer_jiffies b' = timer_jiffies b ∧ work_list b' = work_list b ∧
    length (vec b') = 512%nat ∧ ids b' ≡ₚ l ++ ids b ∧
    (∀ k, (∀ id t, id ∈ l → tm !! id = Some t →
             Z.to_nat (slot (timer_jiffies b) (expires t)) ≠ k) →
          vec b' !! k = vec b !! k) ∧
    (∀ k v' id, vec b' !! k = Some v' → id ∈ v' →
       (∃ v, vec b !! k = Some v ∧ id ∈ v) ∨
       (∃ t, id ∈ l ∧ tm !! id = Some t ∧
             k = Z.to_nat (slot (timer_jiffies b) (expires t)))).
Proof.
  induction l as [|x l IH]; intros b Hl Hj Hin; simpl.
  { exists b. repeat split; try done. intros k v id ??. left. by exists v. }
  destruct (Hin x) as (t & Ht & Hb & He & Hne); [by left|]. rewrite Ht.
  rewrite bool_decide_eq_false_2 by (intros []; done). cbn [BUG_ON mbind outcome_bind].
  destruct (Z.eqb_spec (slot (timer_jiffies b) (expires t)) at_) as [|_]; [done|].
  pose proof (ids_add b x (expires t) Hl Hj He) as Hids.
  destruct (IH (internal_add_timer b x (expires t))) as (b' & -> & Hj' & Hw & Hl' & Hp & Hu & Hm).
  - simpl. by rewrite length_alter.
  - done.
  - intros id Hid. apply Hin. by right.
  - exists b'. split; [done|]. split; [done|]. split; [done|]. split; [done|]. split; [|split].
    + rewrite Hp, Hids. by rewrite Permutation_middle.
    + intros k Hk. rewrite Hu.
      * rewrite vec_add_lookup, decide_False; [done|]. intros ->.
        apply (Hk x t); [by left|done|done].
      * intros id u Hid. apply Hk. by right.
    + intros k v' id Hk Hid. destruct (Hm k v' id Hk Hid) as [(v & Hv & Hidv)|(u & ? & ? & ?)].
      * rewrite vec_add_lookup in Hv. destruct (decide (k = _)) as [->|]; [|left; eauto].
        destruct (vec b !! _) as [w|] eqn:E; [|done]. injection Hv as <-.
        apply elem_of_app in Hidv as [?|Hidv]; [left; eauto|].
        apply list_elem_of_singleton in Hidv as ->. right. exists t. split; [by left|done].
      * right. exists u. split; [by right|done].
Qed.

(** One [cascade] of the bucket served now: the timers move to finer buckets,
    nothing is lost, and the coarse buckets that are served now keep their
    contents except the emptied one. *)
Lemma cascade_spec tm cpu b n index :
  base_ok tm cpu b → (∀ id t, tm !! id = Some t → is_u32 (expires t)) →
  2 <= n <= 5 → 0 <= index < 64 →
  due_now (timer_jiffies b) (tv_off n + index) →
  ∃ b', cascade tm cpu b n index = Ok (b', index) ∧ base_ok tm cpu b' ∧
    timer_jiffies b' = timer_jiffies b ∧ work_list b' = work_list b ∧ ids b' ≡ₚ ids b ∧
    (∀ k, 256 <= k < 512 → due_now (timer_jiffies b) k →
       vec b' !! Z.to_nat k =
         if decide (k = tv_off n + index) then Some [] else vec b !! Z.to_nat k).
Proof.
  intros Hok Hexp Hn Hi Hdue. pose proof Hok as [Hl Hj Hnd Hp Hs Hw]. unfold cascade.
  rewrite tv_off_coarse in * by lia. set (head := 256 + 64 * (n - 2) + index) in *.
  assert (Hhead : 256 <= head < 512) by lia.
  assert (Hrange : (Z.to_nat head < length (vec b))%nat) by lia.
  destruct (lookup_lt_is_Some_2 _ _ Hrange) as [l Hhl]. rewrite Hhl.
  assert (Hle : ∀ id t, id ∈ l → tm !! id = Some t → slot (timer_jiffies b) (expires t) < head).
  { intros id t Hid Ht. pose proof (Hs _ _ _ _ Hhl Hid Ht) as Hsl. rewrite Z2Nat.id in Hsl by lia.
    pose proof (slot_refile _ _ _ Hj (Hexp _ _ Ht) Hhead Hsl Hdue). zdm. }
  destruct (cascade_loop_spec tm cpu head l b) as (b1 & -> & Hj1 & Hw1 & Hl1 & Hp1 & Hu1 & Hm1);
    [done|done| |].
  { intros id Hid. destruct (Hp id) as (t & Ht & Hb); [by eapply bo_in_vec|].
    exists t. repeat split; try done; try (by apply (Hexp id)). pose proof (Hle id t Hid Ht). lia. }
  cbn [mbind outcome_bind].
  assert (Hv1 : vec b1 !! Z.to_nat head = Some l).
  { rewrite Hu1; [done|]. intros id t Hid Ht. pose proof (Hle id t Hid Ht).
    destruct (slot_spec _ _ Hj (Hexp _ _ Ht)) as [? _]. lia. }
  eexists. split; [done|].
  assert (Hids : ids (set_vec b1 (<[Z.to_nat head := []]> (vec b1))) ≡ₚ ids b).
  { apply (Permutation_app_inv_l l). unfold ids at 1. simpl. rewrite app_assoc.
    rewrite <- (concat_insert_nil (vec b1) (Z.to_nat head) l Hv1). exact Hp1. }
  assert (Hout : ∀ k v id, <[Z.to_nat head := []]> (vec b1) !! k = Some v → id ∈ v →
    k ≠ Z.to_nat head ∧ vec b1 !! k = Some v).
  { intros k v id Hk Hid. destruct (decide (Z.to_nat head = k)) as [<-|].
    - rewrite list_lookup_insert_eq in Hk by lia. injection Hk as <-. by apply not_elem_of_nil in Hid.
    - rewrite list_lookup_insert_ne in Hk by done. done. }
  split; [|split; [done|split; [done|split; [done|]]]].
  - split; simpl.
    + by rewrite length_insert.
    + by rewrite Hj1.
    + by rewrite Hids.
    + intros id Hid. rewrite Hids in Hid. by apply Hp.
    + intros k v id t Hk Hid Ht. destruct (Hout k v id Hk Hid) as [_ Hk1]. rewrite Hj1.
      destruct (Hm1 k v id Hk1 Hid) as [(v0 & Hv0 & Hid0)|(u & _ & Hu & ->)]; [by eapply Hs|].
      simplify_eq. destruct (slot_spec _ _ Hj (Hexp _ _ Ht)) as (? & ? & _).
      by rewrite Z2Nat.id by lia.
    + intros id t Hid. rewrite Hw1 in Hid. rewrite Hj1. by apply Hw.
  - intros k Hk Hdk. simpl. case_decide as Hkh.
    + subst k. by rewrite list_lookup_insert_eq by lia.
    + rewrite list_lookup_insert_ne by lia. apply Hu1. intros id t Hid Ht.
      destruct (slot_spec _ _ Hj (Hexp _ _ Ht)) as (? & _ & Hnd'). intros Heq.
      assert (slot (timer_jiffies b) (expires t) = k) by lia. subst k. by apply Hnd'; [lia|].
Qed.

(** The coarse buckets served by tick [j]: level [n] if [j] is a multiple of its
    granularity. *)
Lemma due_coarse j k :
  256 <= k < 512 →
  due_now j k ↔ ∃ n, (n = 0 ∨ n = 1 ∨ n = 2 ∨ n = 3) ∧
    k = 256 + 64 * n + (j / 2 ^ (8 + 6 * n)) mod 64 ∧ j mod 2 ^ (8 + 6 * n) = 0.
Proof.
  intros Hk. destruct (coarse_levels k Hk) as (n & Hn & Hg & Hc & Hr).
  unfold due_now. change TVR_SIZE with 256. change TVN_SIZE with 64.
  destruct (Z.ltb_spec k 256); [lia|]. rewrite Hg, Hc. split.
  - intros [? ?]. exists n. lia.
  - intros (m & Hm & He & Hz).
    pose proof (Z.mod_pos_bound (j / 2 ^ (8 + 6 * m)) 64 ltac:(lia)).
    assert (m = n) as -> by lia. lia.
Qed.

Lemma INDEX_eq b n :
  0 <= n → INDEX b n = (timer_jiffies b / 2 ^ (8 + 6 * n)) mod 64.
Proof.
  intros. unfold INDEX. change TVN_MASK with (2 ^ 6 - 1).
  change TVR_BITS with 8. change TVN_BITS with 6.
  rewrite land_mask, Z.shiftr_div_pow2 by lia. do 3 f_equal. lia.
Qed.

(** [cascade] of level [n] when tick [j] serves it. *)
Lemma cascade_level tm cpu b n :
  base_ok tm cpu b → (∀ id t, tm !! id = Some t → is_u32 (expires t)) →
  (n = 0 ∨ n = 1 ∨ n = 2 ∨ n = 3) → timer_jiffies b mod 2 ^ (8 + 6 * n) = 0 →
  ∃ b', cascade tm cpu b (n + 2) (INDEX b n) = Ok (b', INDEX b n) ∧ base_ok tm cpu b' ∧
    timer_jiffies b' = timer_jiffies b ∧ work_list b' = work_list b ∧ ids b' ≡ₚ ids b ∧
    (∀ k, 256 <= k < 512 → due_now (timer_jiffies b) k →
       k < 320 + 64 * n → (k < 256 + 64 * n → vec b !! Z.to_nat k = Some []) →
       vec b' !! Z.to_nat k = Some []).
Proof.
  intros Hok Hexp Hn Hz.
  pose proof (Z.mod_pos_bound (timer_jiffies b / 2 ^ (8 + 6 * n)) 64 ltac:(lia)).
  rewrite INDEX_eq by lia. set (i := (timer_jiffies b / 2 ^ (8 + 6 * n)) mod 64) in *.
  destruct (cascade_spec tm cpu b (n + 2) i) as (b' & Hc & Hok' & Hj & Hw & Hids & Hv);
    [done|done|lia|lia| |].
  { rewrite tv_off_coarse by lia. apply due_coarse; [lia|]. exists n. subst i. lia. }
  exists b'. repeat (split; [done|]). intros k Hk Hd Hlt Hprev.
  rewrite Hv by done. case_decide as Hkh; [done|]. apply Hprev.
  rewrite tv_off_coarse in Hkh by lia.
  apply (due_coarse _ k Hk) in Hd as (m & Hm & He & _).
  pose proof (Z.mod_pos_bound (timer_jiffies b / 2 ^ (8 + 6 * m)) 64 ltac:(lia)).
  destruct (decide (m = n)) as [->|]; [subst i; lia|]. lia.
Qed.

(** A level is served only if the index of every finer level is zero. *)
Lemma finer_index_zero j n m :
  0 <= n < m → m <= 3 → j mod 2 ^ (8 + 6 * m) = 0 →
  (j / 2 ^ (8 + 6 * n)) mod 64 = 0 ∧ j mod 2 ^ (8 + 6 * (n + 1)) = 0.
Proof.
  intros Hn Hm Hz.
  assert (n = 0 ∨ n = 1 ∨ n = 2) as [-> | [-> | ->]] by lia;
    assert (m = 1 ∨ m = 2 ∨ m = 3) as [-> | [-> | ->]] by lia; try lia; zdm.
Qed.

Lemma index_zero_next j n :
  0 <= n <= 2 → j mod 2 ^ (8 + 6 * n) = 0 → (j / 2 ^ (8 + 6 * n)) mod 64 = 0 →
  j mod 2 ^ (8 + 6 * (n + 1)) = 0.
Proof. intros Hn. assert (n = 0 ∨ n = 1 ∨ n = 2) as [-> | [-> | ->]] by lia; zdm. Qed.

(** What [cascades] leaves behind: everything is still queued and well filed,
    and no coarse bucket is left to be served at this tick. *)
Definition cascaded (tm : gmap nat timer_list) (cpu : nat) (b b' : tvec_base_t) : Prop :=
  base_ok tm cpu b' ∧ timer_jiffies b' = timer_jiffies b ∧
  work_list b' = work_list b ∧ ids b' ≡ₚ ids b ∧
  ∀ k, 256 <= k < 512 → due_now (timer_jiffies b) k → vec b' !! Z.to_nat k = Some [].

Lemma cascades_spec tm cpu b :
  base_ok tm cpu b → (∀ id t, tm !! id = Some t → is_u32 (expires t)) →
  ∃ b', cascades tm cpu b = Ok b' ∧ cascaded tm cpu b b'.
Proof.
  intros Hok Hexp. unfold cascades. change TVR_MASK with (2 ^ 8 - 1). rewrite land_mask by lia.
  set (j := timer_jiffies b).
  (* a level that is served although the previous index is non-zero *)
  assert (Hstop : ∀ n m k, 0 <= n → (m = 0 ∨ m = 1 ∨ m = 2 ∨ m = 3) →
    k = 256 + 64 * m + (j / 2 ^ (8 + 6 * m)) mod 64 → j mod 2 ^ (8 + 6 * m) = 0 →
    (j / 2 ^ (8 + 6 * n)) mod 64 ≠ 0 → k < 320 + 64 * n).
  { intros n m k Hn Hm -> Hz Hne.
    pose proof (Z.mod_pos_bound (j / 2 ^ (8 + 6 * m)) 64 ltac:(lia)).
    destruct (decide (m <= n)); [lia|].
    destruct (finer_index_zero j n m) as [? _]; [lia|lia|done|lia]. }
  destruct (Z.eqb_spec (j mod 2 ^ 8) 0) as [Hz0|Hz0]; cbn [negb].
  2: { exists b. repeat (split; [done|]). intros k Hk Hd. exfalso.
       apply (due_coarse _ k Hk) in Hd as (m & Hm & _ & Hz). fold j in Hz.
       apply Hz0. destruct Hm as [-> | [-> | [-> | ->]]]; zdm. }
  destruct (cascade_level tm cpu b 0) as (b1 & Hc1 & Hok1 & Hj1 & Hw1 & Hi1 & Hv1);
    [done|done|lia|done|]. change (0 + 2) with 2 in Hc1. rewrite Hc1. cbn [mbind outcome_bind]. rewrite INDEX_eq by lia. fold j.
  destruct (Z.eqb_spec ((j / 2 ^ (8 + 6 * 0)) mod 64) 0) as [Hx0|Hx0]; cbn [negb].
  2: { exists b1. repeat (split; [done|]). intros k Hk Hd.
       pose proof Hd as (m & Hm & He & Hz)%due_coarse; [|done].
       apply Hv1; [done|done| |lia]. by apply (Hstop 0 m k). }
  assert (Hz1 : j mod 2 ^ (8 + 6 * 1) = 0) by (by apply (index_zero_next j 0)).
  destruct (cascade_level tm cpu b1 1) as (b2 & Hc2 & Hok2 & Hj2 & Hw2 & Hi2 & Hv2);
    [done|done|lia|by rewrite Hj1|]. rewrite Hj1 in Hv2. fold j in Hv2.
  change (1 + 2) with 3 in Hc2. rewrite Hc2.
  cbn [mbind outcome_bind]. rewrite INDEX_eq, Hj1 by lia. fold j.
  destruct (Z.eqb_spec ((j / 2 ^ (8 + 6 * 1)) mod 64) 0) as [Hx1|Hx1]; cbn [negb].
  2: { exists b2. split; [done|]. split; [done|]. split; [congruence|]. split; [congruence|].
       split; [by rewrite Hi2, Hi1|]. intros k Hk Hd.
       pose proof Hd as (m & Hm & He & Hz)%due_coarse; [|done].
       apply Hv2; [done|done|by apply (Hstop 1 m k); [lia|..]|].
       intros ?. apply Hv1; [done|done|lia|lia]. }
  assert (Hz2 : j mod 2 ^ (8 + 6 * 2) = 0) by (by apply (index_zero_next j 1)).
  destruct (cascade_level tm cpu b2 2) as (b3 & Hc3 & Hok3 & Hj3 & Hw3 & Hi3 & Hv3);
    [done|done|lia|by rewrite Hj2, Hj1|]. rewrite Hj2, Hj1 in Hv3. fold j in Hv3.
  change (2 + 2) with 4 in Hc3. rewrite Hc3.
  cbn [mbind outcome_bind]. rewrite INDEX_eq, Hj2, Hj1 by lia. fold j.
  destruct (Z.eqb_spec ((j / 2 ^ (8 + 6 * 2)) mod 64) 0) as [Hx2|Hx2]; cbn [negb].
  2: { exists b3. split; [done|]. split; [done|]. split; [congruence|]. split; [congruence|].
       split; [by rewrite Hi3, Hi2, Hi1|]. intros k Hk Hd.
       pose proof Hd as (m & Hm & He & Hz)%due_coarse; [|done].
       apply Hv3; [done|done|by apply (Hstop 2 m k); [lia|..]|].
       intros ?. apply Hv2; [done|done|lia|]. intros ?. apply Hv1; [done|done|lia|lia]. }
  assert (Hz3 : j mod 2 ^ (8 + 6 * 3) = 0) by (by apply (index_zero_next j 2)).
  destruct (cascade_level tm cpu b3 3) as (b4 & Hc4 & Hok4 & Hj4 & Hw4 & Hi4 & Hv4);
    [done|done|lia|by rewrite Hj3, Hj2, Hj1|]. rewrite Hj3, Hj2, Hj1 in Hv4. fold j in Hv4.
  change (3 + 2) with 5 in Hc4. rewrite Hc4. cbn [mbind outcome_bind].
  exists b4. split; [done|]. split; [done|]. split; [congruence|]. split; [congruence|].
  split; [by rewrite Hi4, Hi3, Hi2, Hi1|]. intros k Hk Hd.
  apply Hv4; [done|done|lia|]. intros ?. apply Hv3; [done|done|lia|].
  intros ?. apply Hv2; [done|done|lia|]. intros ?. apply Hv1; [done|done|lia|lia].
Qed.

(** ** Running timers *)

(** The calls a handler may make: [mod_timer] and [del_timer] on timers that
    exist, have a handler, and name an existing CPU. *)
Definition op_ok (st : kstate) (o : timer_op) : Prop :=
  match o with
  | OpMod cpu id e =>
    (cpu < length (bases st))%nat ∧ (function <$> timers st !! id) = Some true ∧ is_u32 e
  | OpDel id => is_Some (function <$> timers st !! id)
  | OpAddOn _ _ => False
  end.

Lemma op_ok_shape st st' o : same_shape st st' → op_ok st o → op_ok st' o.
Proof. intros [Hl Hf]. destruct o; simpl; [|done|]; by rewrite ?Hl, Hf. Qed.

(** What running handlers may change. *)
Definition evolves (st st' : kstate) : Prop :=
  same_shape st st' ∧
  (∀ c, timer_jiffies <$> bases st' !! c = timer_jiffies <$> bases st !! c) ∧
  (∀ c b, bases st !! c = Some b →
     ∃ b', bases st' !! c = Some b' ∧ sublist (work_list b') (work_list b)).

Lemma evolves_refl st : evolves st st.
Proof. repeat split; try done. intros c b Hb. by exists b. Qed.

Lemma evolves_trans st1 st2 st3 : evolves st1 st2 → evolves st2 st3 → evolves st1 st3.
Proof.
  intros (A1 & B1 & C1) (A2 & B2 & C2). split; [eauto with kern|]. split.
  - intros c. by rewrite B2, B1.
  - intros c b Hb. destruct (C1 c b Hb) as (b2 & Hb2 & ?).
    destruct (C2 c b2 Hb2) as (b3 & Hb3 & ?). exists b3. split; [done|by etrans].
Qed.

Lemma only_timer_evolves id st st' : only_timer id st st' → evolves st st' ∧ fired st' = fired st.
Proof.
  intros (A & B & _ & D & E). split; [|done]. split; [done|]. split; [done|].
  intros c b Hb. destruct (E c) as (w & w' & Hw & Hw' & [? _]); [by rewrite Hb|].
  rewrite Hb in Hw. destruct (bases st' !! c) as [b'|]; [|done].
  exists b'. simpl in *. simplify_eq. done.
Qed.

(** The timer a call is about. *)
Definition op_timer (o : timer_op) : nat :=
  match o with OpMod _ id _ | OpAddOn id _ | OpDel id => id end.

(** Timer [x] is as it was, and still due if it was. *)
Definition left_alone (x : nat) (st st' : kstate) : Prop :=
  timers st' !! x = timers st !! x ∧
  ∀ c b b', bases st !! c = Some b → bases st' !! c = Some b' → x ∈ work_list b → x ∈ work_list b'.

Lemma only_timer_alone id x st st' : only_timer id st st' → x ≠ id → left_alone x st st'.
Proof.
  intros (_ & _ & C & _ & E) Hx. split; [by apply C|]. intros c b b' Hb Hb' Hw.
  destruct (E c) as (w & w' & Ew & Ew' & _ & Hf); [by rewrite Hb|]. rewrite Hb in Ew. rewrite Hb' in Ew'.
  simpl in *. simplify_eq. auto.
Qed.

Lemma left_alone_trans x st1 st2 st3 : evolves st1 st2 → left_alone x st1 st2 → left_alone x st2 st3 → left_alone x st1 st3.
Proof.
  intros (_ & _ & Hev) [A1 B1] [A2 B2]. split; [congruence|]. intros c b b' Hb Hb' Hw.
  destruct (Hev c b Hb) as (b2 & Hb2 & _). eauto.
Qed.

Lemma exec_ops_ok l : ∀ st,
  inv st → Forall (op_ok st) l →
  ∃ st', exec_ops st l = Ok st' ∧ inv st' ∧ evolves st st' ∧ fired st' = fired st ∧
    ∀ x, Forall (λ o, op_timer o ≠ x) l → left_alone x st st'.
Proof.
  induction l as [|o l IH]; intros st Hi Hl; simpl.
  { exists st. pose proof (evolves_refl st). do 4 (split; [done|]). intros x _. split; [done|congruence]. }
  apply Forall_cons in Hl as [Ho Hl].
  assert (∃ st1, exec_op st o = Ok st1 ∧ inv st1 ∧ only_timer (op_timer o) st st1)
    as (st1 & -> & Hi1 & Hot).
  { destruct o as [cpu id e|id cpu|id]; simpl in *.
    - destruct Ho as (Hcpu & Hf & He).
      destruct (timers st !! id) as [t|] eqn:Ht; [|done]. injection Hf as Hf.
      destruct (mod_timer_ok st cpu id t e) as (st1 & -> & ? & ? & _); try done. by exists st1.
    - done.
    - destruct Ho as [f Hf]. destruct (timers st !! id) as [t|] eqn:Ht; [|done].
      destruct (del_timer_ok st id t) as (st1 & -> & ? & ? & _); try done. by exists st1. }
  pose proof (only_timer_alone (op_timer o)) as Hal. specialize (λ x, Hal x st st1 Hot).
  apply only_timer_evolves in Hot as [Hev Hfd]. cbn [mbind outcome_bind].
  destruct (IH st1 Hi1) as (st' & -> & ? & ? & ? & Hx').
  { eapply Forall_impl; [exact Hl|]. intros. eapply op_ok_shape; [apply Hev|done]. }
  exists st'. split; [done|]. split; [done|]. split; [by eapply evolves_trans|]. split; [congruence|].
  intros x [Hx Hxl]%Forall_cons. eapply left_alone_trans; [exact Hev|by apply Hal|by apply Hx'].
Qed.

Section run_facts.
Context (handler : kstate → nat → list timer_op).

(** In whatever state a handler is called, it keeps to the rules. *)
Definition handlers_ok (st : kstate) : Prop :=
  ∀ st' id, same_shape st st' → Forall (op_ok st') (handler st' id).

Lemma handlers_ok_shape st st' : same_shape st st' → handlers_ok st → handlers_ok st'.
Proof.
  intros Hs Hh st2 id Hs2. apply Hh. eauto with kern.
Qed.

(** The state in which the handler of timer [id] is called. *)
Definition dispatch (st : kstate) (cpu id : nat) (b : tvec_base_t) (t : timer_list) : kstate :=
  mk_kstate (<[id := set_base t None]> (timers st))
    (<[cpu := set_running_timer (list_del b id) (Some id)]> (bases st))
    (fired st ++ [(id, expires t, wrap32 (timer_jiffies b - 1))]).

Lemma dispatch_inv st cpu id b t :
  inv st → bases st !! cpu = Some b → id ∈ work_list b → timers st !! id = Some t →
  inv (dispatch st cpu id b t) ∧ evolves st (dispatch st cpu id b t).
Proof.
  intros Hi Hb Hid Ht. pose proof (inv_base _ Hi cpu b Hb) as Hok.
  assert (base t = Some cpu) as Hbt.
  { destruct (bo_pending _ _ _ Hok id) as (u & Hu & ?); [|congruence].
    unfold ids. rewrite elem_of_app. by right. }
  pose proof (inv_unlink st id t cpu b (set_base t None) Hi Ht Hbt Hb eq_refl
    (inv_expires _ Hi id t Ht)) as [Hb1 Hq1 He1 Hf1]. simpl in *.
  pose proof (lookup_lt_Some _ _ _ Hb) as Hlt. split.
  - split; simpl.
    + intros c b' Hc. destruct (decide (cpu = c)) as [<-|].
      * rewrite list_lookup_insert_eq in Hc by done. injection Hc as <-.
        destruct (Hb1 cpu (list_del b id)) as [? ? ? ? ? ?]; [by rewrite list_lookup_insert_eq|].
        by split.
      * apply Hb1. by rewrite list_lookup_insert_ne in * by done.
    + intros x u c Hx Hbu. destruct (Hq1 x u c Hx Hbu) as (b' & Hc & Hin).
      destruct (decide (cpu = c)) as [<-|].
      * rewrite list_lookup_insert_eq in Hc by done. injection Hc as <-.
        eexists. by rewrite list_lookup_insert_eq.
      * exists b'. by rewrite list_lookup_insert_ne in * by done.
    + done.
    + apply Forall_app. split; [apply (inv_fired _ Hi)|]. apply Forall_singleton. simpl.
      rewrite wrap32_sub_l. by apply (bo_work _ _ _ Hok id t).
  - split; [split|split]; simpl.
    + by rewrite length_insert.
    + intros x. destruct (decide (id = x)) as [<-|]; [|by rewrite lookup_insert_ne].
      by rewrite lookup_insert_eq, Ht.
    + intros c. destruct (decide (cpu = c)) as [<-|]; [|by rewrite list_lookup_insert_ne].
      by rewrite list_lookup_insert_eq, Hb.
    + intros c b' Hc. destruct (decide (cpu = c)) as [<-|].
      * rewrite list_lookup_insert_eq by done. eexists. split; [done|]. simplify_eq.
        apply sublist_filter.
      * rewrite list_lookup_insert_ne by done. eauto.
Qed.

Lemma run_one_dispatch st cpu id b t :
  bases st !! cpu = Some b → timers st !! id = Some t →
  run_one handler st cpu id = exec_ops (dispatch st cpu id b t) (handler (dispatch st cpu id b t) id).
Proof.
  intros Hb Ht. unfold run_one. rewrite (get_base_Some st cpu b Hb). cbn [mbind outcome_bind].
  by rewrite (get_timer_Some st id t Ht).
Qed.

(** One pass of the [repeat:] loop. *)
Lemma run_one_ok st cpu b y w :
  inv st → handlers_ok st → bases st !! cpu = Some b → work_list b = y :: w →
  ∃ ty st2 b2, timers st !! y = Some ty ∧ run_one handler st cpu y = Ok st2 ∧
    inv st2 ∧ handlers_ok st2 ∧ evolves st st2 ∧ bases st2 !! cpu = Some b2 ∧
    sublist (work_list b2) (filter (λ z, z ≠ y) w) ∧ timer_jiffies b2 = timer_jiffies b ∧
    fired st2 = fired st ++ [(y, expires ty, wrap32 (timer_jiffies b - 1))] ∧
    let st1 := dispatch st cpu y b ty in
    evolves st st1 ∧ ∀ x, Forall (λ o, op_timer o ≠ x) (handler st1 y) → left_alone x st1 st2.
Proof.
  intros Hi Hh Hb Hw. assert (Hy : y ∈ work_list b) by (rewrite Hw; by left).
  destruct (bo_pending _ _ _ (inv_base _ Hi cpu b Hb) y) as (ty & Hty & _).
  { unfold ids. rewrite elem_of_app. by right. }
  rewrite (run_one_dispatch st cpu y b ty Hb Hty).
  destruct (dispatch_inv st cpu y b ty Hi Hb Hy Hty) as [Hi1 Hev1]. set (st1 := dispatch st cpu y b ty) in *.
  destruct (exec_ops_ok (handler st1 y) st1 Hi1 (Hh _ y (proj1 Hev1))) as (st2 & He & Hi2 & Hev2 & Hf2 & Hal).
  set (b1 := set_running_timer (list_del b y) (Some y)).
  assert (bases st1 !! cpu = Some b1) as Hb1.
  { simpl. rewrite list_lookup_insert_eq; [done|]. by eapply lookup_lt_Some. }
  destruct (proj2 (proj2 Hev2) cpu b1 Hb1) as (b2 & Hb2 & Hsub).
  pose proof (evolves_trans _ _ _ Hev1 Hev2) as Hev.
  exists ty, st2, b2. split; [done|]. split; [done|]. split; [done|].
  split; [eapply handlers_ok_shape; [apply Hev|exact Hh]|]. split; [done|]. split; [done|]. split.
  { simpl in Hsub. rewrite Hw in Hsub. by rewrite filter_cons_False in Hsub by naive_solver. }
  split; [|by rewrite Hf2].
  destruct Hev2 as (_ & Hj & _). specialize (Hj cpu). rewrite Hb1, Hb2 in Hj. by injection Hj.
Qed.

Lemma pass_shorter y (w w' : list nat) fuel : sublist w' (filter (λ z, z ≠ y) w) → (length (y :: w) <= S fuel)%nat →
  (length w' <= fuel)%nat.
Proof.
  intros Hsub Hlen. apply sublist_length in Hsub. pose proof (length_filter (λ z, z ≠ y) w). simpl in Hlen. lia.
Qed.

Lemma run_work_ok cpu fuel : ∀ st b,
  inv st → handlers_ok st → bases st !! cpu = Some b → (length (work_list b) <= fuel)%nat →
  ∃ st' b', run_work handler fuel st cpu = Ok st' ∧ inv st' ∧ evolves st st' ∧
    bases st' !! cpu = Some b' ∧ work_list b' = [] ∧ timer_jiffies b' = timer_jiffies b.
Proof.
  induction fuel as [|fuel IH]; intros st b Hi Hh Hb Hlen; simpl;
    rewrite (get_base_Some st cpu b Hb); cbn [mbind outcome_bind];
    destruct (work_list b) as [|id w] eqn:Hw.
  1, 3: exists st, b; pose proof (evolves_refl st); done.
  { simpl in Hlen. lia. }
  destruct (run_one_ok st cpu b id w Hi Hh Hb Hw) as (t & st2 & b2 & _ & -> & Hi2 & Hh2 & Hev & Hb2 & Hsub & Hj2 & _).
  cbn [mbind outcome_bind].
  destruct (IH st2 b2) as (st' & b' & -> & Hi' & Hev' & Hb' & Hw' & Hj'); [done..|by eapply pass_shorter|].
  exists st', b'. split; [done|]. split; [done|]. split; [by eapply evolves_trans|]. split; [done|]. split; [done|congruence].
Qed.

(** The base at the start of the [repeat:] loop of a tick: cascaded, its
    clock advanced, the bucket [l] of the tick moved to [work_list]. *)
Definition collected (b1 : tvec_base_t) (l : list nat) : tvec_base_t :=
  let j := timer_jiffies b1 in
  mk_base (wrap32 (j + 1)) (running_timer b1)
    (<[Z.to_nat (tv_off 1 + Z.land j TVR_MASK) := []]> (vec b1)) l.

Lemma tv1_head j : tv_off 1 + Z.land j TVR_MASK = j mod 256.
Proof.
  change (tv_off 1) with 0. change TVR_MASK with (2 ^ 8 - 1). by rewrite land_mask by lia.
Qed.

Lemma tv1_due j k : 0 <= k < 256 → due_now j k ↔ k = j mod 256.
Proof.
  intros Hk. unfold due_now. change TVR_SIZE with 256. destruct (Z.ltb_spec k 256); [|lia].
  split; intros; zdm.
Qed.

Lemma collected_ok tm cpu b :
  base_ok tm cpu b → (∀ id t, tm !! id = Some t → is_u32 (expires t)) → work_list b = [] →
  ∃ b1 l, cascades tm cpu b = Ok b1 ∧ timer_jiffies b1 = timer_jiffies b ∧
    vec b1 !! Z.to_nat (tv_off 1 + Z.land (timer_jiffies b) TVR_MASK) = Some l ∧
    base_ok tm cpu (collected b1 l) ∧ ids (collected b1 l) ≡ₚ ids b ∧
    (∀ id t, id ∈ ids b → tm !! id = Some t → expires t = timer_jiffies b → id ∈ l).
Proof.
  intros Hok Hexp Hw0. destruct (cascades_spec tm cpu b Hok Hexp) as (b1 & Hc & Hcd).
  destruct Hcd as ([Hl Hj Hnd Hp Hs _] & Hj1 & Hw1 & Hi1 & Hempty).
  rewrite Hj1 in Hj, Hs. set (j := timer_jiffies b) in *.
  rewrite tv1_head. pose proof (Z.mod_pos_bound j 256 ltac:(lia)).
  destruct (lookup_lt_is_Some_2 (vec b1) (Z.to_nat (j mod 256))) as [l Hv]; [lia|].
  exists b1, l. split; [done|]. split; [done|]. split; [done|].
  unfold collected. rewrite Hj1, tv1_head.
  assert (Hids1 : concat (vec b1) ≡ₚ ids b).
  { rewrite <- Hi1. unfold ids. by rewrite Hw1, Hw0, app_nil_r. }
  assert (Hids : ids (mk_base (wrap32 (j + 1)) (running_timer b1)
    (<[Z.to_nat (j mod 256) := []]> (vec b1)) l) ≡ₚ ids b).
  { rewrite <- Hids1, (concat_insert_nil _ _ _ Hv). unfold ids. simpl. apply Permutation_app_comm. }
  assert (Hbucket : ∀ k v id, <[Z.to_nat (j mod 256) := []]> (vec b1) !! k = Some v → id ∈ v →
    vec b1 !! k = Some v ∧ Z.of_nat k < 512 ∧ ¬ due_now j (Z.of_nat k)).
  { intros k v id Hk Hid. destruct (decide (Z.to_nat (j mod 256) = k)) as [<-|Hne].
    { rewrite list_lookup_insert_eq in Hk by lia. injection Hk as <-. by apply not_elem_of_nil in Hid. }
    rewrite list_lookup_insert_ne in Hk by done. pose proof (lookup_lt_Some _ _ _ Hk).
    split; [done|]. split; [lia|]. intros Hd.
    destruct (decide (Z.of_nat k < 256)); [apply tv1_due in Hd; lia|].
    specialize (Hempty (Z.of_nat k) ltac:(lia) Hd). rewrite Nat2Z.id in Hempty.
    rewrite Hk in Hempty. injection Hempty as ->. by apply not_elem_of_nil in Hid. }
  split; [|split; [done|]].
  - split; simpl.
    + by rewrite length_insert.
    + apply wrap32_is_u32.
    + rewrite Hids, <- Hi1. done.
    + intros id Hid. rewrite Hids, <- Hi1 in Hid. by apply Hp.
    + intros k v id t Hk Hid Ht. destruct (Hbucket k v id Hk Hid) as (Hk1 & ? & Hd).
      apply slot_ok_tick; [done|by apply (Hexp id)|lia|by eapply Hs|done].
    + intros id t Hid Ht. pose proof (Hs _ _ _ _ Hv Hid Ht) as Hsl.
      rewrite Z2Nat.id in Hsl by lia. revert Hsl. unfold slot_ok. change TVR_SIZE with 256.
      destruct (Z.ltb_spec (j mod 256) 256); [|lia].
      replace (j + (j mod 256 - j) mod 256) with j by zdm.
      autorewrite with kern. replace (wrap32 (j + 1) - 1 - expires t)
        with (wrap32 (j + 1) - (1 + expires t)) by lia. rewrite wrap32_sub_l.
      replace (j + 1 - (1 + expires t)) with (j - expires t) by lia. lia.
  - intros id t Hid Ht He. rewrite <- Hids1 in Hid.
    apply elem_of_concat_lookup in Hid as (k & v & Hk & Hid).
    assert (Hd : due_now j (Z.of_nat k)).
    { pose proof (Hs _ _ _ _ Hk Hid Ht) as Hsl. rewrite He in Hsl.
      pose proof (lookup_lt_Some _ _ _ Hk). apply slot_now_due; [lia|done]. }
    destruct (decide (Z.to_nat (j mod 256) = k)) as [<-|Hne]; [congruence|].
    destruct (Hbucket k v id) as (_ & _ & Hn); [by rewrite list_lookup_insert_ne|done|done].
Qed.

(** Replacing a base by one with the same timers. *)
Lemma inv_install st cpu b b' :
  inv st → bases st !! cpu = Some b → base_ok (timers st) cpu b' → ids b' ≡ₚ ids b →
  inv (set_cpu_base st cpu b').
Proof.
  intros [Hb Hq He Hf] Hc Hok Hids. pose proof (lookup_lt_Some _ _ _ Hc) as Hlt.
  split; simpl; [|  |done|done].
  - intros c b2 Hc2. destruct (decide (cpu = c)) as [<-|].
    + rewrite list_lookup_insert_eq in Hc2 by done. by injection Hc2 as <-.
    + rewrite list_lookup_insert_ne in Hc2 by done. by apply Hb.
  - intros id t c Ht Hbt. destruct (Hq id t c Ht Hbt) as (b2 & Hc2 & Hin).
    destruct (decide (cpu = c)) as [<-|].
    + exists b'. rewrite list_lookup_insert_eq by done. split; [done|].
      rewrite Hids. congruence.
    + exists b2. by rewrite list_lookup_insert_ne.
Qed.

(** The state [run_work] starts from in a tick. *)
Lemma run_tick_start st cpu b :
  inv st → bases st !! cpu = Some b → work_list b = [] →
  ∃ b1 l, let st1 := set_cpu_base st cpu (collected b1 l) in
    run_tick handler st cpu = run_work handler (length l) st1 cpu ∧
    timer_jiffies b1 = timer_jiffies b ∧ inv st1 ∧
    bases st1 !! cpu = Some (collected b1 l) ∧ same_shape st st1 ∧
    (∀ id t, timers st !! id = Some t → base t = Some cpu →
             expires t = timer_jiffies b → id ∈ l).
Proof.
  intros Hi Hb Hw. pose proof (inv_base _ Hi cpu b Hb) as Hok.
  destruct (collected_ok (timers st) cpu b Hok (inv_expires _ Hi) Hw)
    as (b1 & l & Hc & Hj & Hv & Hok1 & Hids & Hdue).
  pose proof (lookup_lt_Some _ _ _ Hb) as Hlt.
  exists b1, l. split; [|split; [done|split; [|split; [|split]]]].
  - unfold run_tick. rewrite (get_base_Some st cpu b Hb). cbn [mbind outcome_bind].
    rewrite Hc. cbn [mbind outcome_bind]. simpl vec. rewrite Hv.
    unfold collected. rewrite Hj. done.
  - by eapply inv_install.
  - simpl. by rewrite list_lookup_insert_eq.
  - split; [simpl; by rewrite length_insert|done].
  - intros id t Ht Hbt He. apply (Hdue id t); [|done|done].
    destruct (inv_queued _ Hi id t cpu Ht Hbt) as (b2 & Hb2 & ?). congruence.
Qed.

(** One tick runs to completion and keeps the invariant. *)
Lemma run_tick_ok st cpu b :
  inv st → handlers_ok st → bases st !! cpu = Some b → work_list b = [] →
  ∃ st' b', run_tick handler st cpu = Ok st' ∧ inv st' ∧ handlers_ok st' ∧
    bases st' !! cpu = Some b' ∧ work_list b' = [] ∧
    timer_jiffies b' = wrap32 (timer_jiffies b + 1).
Proof.
  intros Hi Hh Hb Hw.
  destruct (run_tick_start st cpu b Hi Hb Hw) as (b1 & l & -> & Hj & Hi1 & Hb1 & Hsh & _).
  destruct (run_work_ok cpu (length l) _ (collected b1 l) Hi1)
    as (st' & b' & -> & Hi' & Hev & Hb' & Hw' & Hj'); [by eapply handlers_ok_shape|done|done|].
  exists st', b'. split; [done|]. split; [done|]. split.
  { eapply handlers_ok_shape; [|exact Hh]. eapply same_shape_trans; [done|]. apply Hev. }
  split; [done|]. split; [done|]. rewrite Hj'. simpl. by rewrite Hj.
Qed.

Lemma sgn32_step j tj :
  0 <= sgn32 (j - tj) → sgn32 (j - wrap32 (tj + 1)) = sgn32 (j - tj) - 1.
Proof. unfold sgn32, wrap32. intros H. repeat case_zb; repeat case_zb_in H; zdm. Qed.

Lemma run_ticks_ok cpu jiffies fuel : ∀ st b,
  inv st → handlers_ok st → bases st !! cpu = Some b → work_list b = [] →
  sgn32 (jiffies - timer_jiffies b) + 1 <= Z.of_nat fuel →
  ∃ st' b', run_ticks handler fuel st cpu jiffies = Ok st' ∧ inv st' ∧
    bases st' !! cpu = Some b' ∧ work_list b' = [] ∧
    sgn32 (jiffies - timer_jiffies b') < 0.
Proof.
  induction fuel as [|fuel IH]; intros st b Hi Hh Hb Hw Hf; cbn [run_ticks];
    rewrite (get_base_Some st cpu b Hb); cbn [mbind outcome_bind];
    destruct (Z.leb_spec 0 (sgn32 (jiffies - timer_jiffies b))) as [Hd|Hd].
  - lia.
  - by exists st, b.
  - destruct (run_tick_ok st cpu b Hi Hh Hb Hw) as (st1 & b1 & -> & Hi1 & Hh1 & Hb1 & Hw1 & Hj1).
    cbn [mbind outcome_bind]. apply (IH st1 b1); try done.
    rewrite Hj1, sgn32_step by done. lia.
  - by exists st, b.
Qed.

(** C2: [__run_timers] terminates without hitting any [BUG_ON] whatever
    [mod_timer] and [del_timer] calls the handlers make, keeps the wheel
    consistent, runs no handler before its [expires] tick ([inv] includes
    [not_early] for the whole log), and catches up with [jiffies]. *)
Theorem run_timers_safe st cpu jiffies b :
  inv st → handlers_ok st → bases st !! cpu = Some b → work_list b = [] →
  ∃ st' b', __run_timers handler st cpu jiffies = Ok st' ∧ inv st' ∧
    Forall not_early (fired st') ∧ bases st' !! cpu = Some b' ∧
    sgn32 (jiffies - timer_jiffies b') < 0.
Proof.
  intros Hi Hh Hb Hw. unfold __run_timers.
  rewrite (get_base_Some st cpu b Hb). cbn [mbind outcome_bind].
  destruct (run_ticks_ok cpu jiffies (Z.to_nat (sgn32 (jiffies - timer_jiffies b) + 1)) st b)
    as (st1 & b1 & -> & Hi1 & Hb1 & Hw1 & Hd1); [done|done|done|done|lia|].
  cbn [mbind outcome_bind]. rewrite (get_base_Some st1 cpu b1 Hb1). cbn [mbind outcome_bind].
  assert (Hi2 : inv (set_cpu_base st1 cpu (set_running_timer b1 None))).
  { apply (inv_install st1 cpu b1); try done.
    destruct (inv_base _ Hi1 cpu b1 Hb1) as [? ? ? ? ? ?]. by split. }
  eexists _, _. split; [done|]. split; [done|]. split; [apply (inv_fired _ Hi2)|].
  simpl. rewrite list_lookup_insert_eq by (by eapply lookup_lt_Some). done.
Qed.
End run_facts.

(** ** Timers fire on time *)

(** The handler calls of timer [x] in a log. *)
Definition calls_of (x : nat) (log : list (nat * Z * Z)) : list (nat * Z * Z) :=
  filter (λ c, c.1.1 = x) log.

Lemma calls_app x l l' : calls_of x (l ++ l') = calls_of x l ++ calls_of x l'.
Proof. apply filter_app. Qed.
Lemma calls_self x e tick : calls_of x [(x, e, tick)] = [(x, e, tick)].
Proof. unfold calls_of. by rewrite filter_cons_True. Qed.
Lemma calls_other x y e tick : y ≠ x → calls_of x [(y, e, tick)] = [].
Proof. intros H. unfold calls_of. by rewrite filter_cons_False. Qed.

Section spared.
Context (handler : kstate → nat → list timer_op) (x : nat).

(** No handler but that of [x] itself makes a call about [x]. *)
Definition spared : Prop := ∀ st y, y ≠ x → Forall (λ o, op_timer o ≠ x) (handler st y).
(** Nor does that one: [x] is not re-armed. *)
Definition one_shot : Prop := ∀ st, Forall (λ o, op_timer o ≠ x) (handler st x).

Hypothesis Hsp : spared.

Lemma dispatch_alone st cpu id b t : bases st !! cpu = Some b → x ≠ id →
  left_alone x st (dispatch st cpu id b t).
Proof.
  intros Hb Hx. split; [simpl; by rewrite lookup_insert_ne|]. intros c b1 b2 H1 H2 Hw. simpl in H2.
  destruct (decide (cpu = c)) as [<-|].
  - rewrite list_lookup_insert_eq in H2 by (by eapply lookup_lt_Some). injection H2 as <-.
    assert (b1 = b) as -> by congruence. by apply list_elem_of_filter.
  - rewrite list_lookup_insert_ne in H2 by done. congruence.
Qed.

(** One pass over the timers of a tick: [x] runs once if it is among them, else not. *)
Lemma run_work_spared cpu fuel : ∀ st b t,
  inv st → handlers_ok handler st → bases st !! cpu = Some b → (length (work_list b) <= fuel)%nat →
  timers st !! x = Some t →
  ∃ st' new, run_work handler fuel st cpu = Ok st' ∧ fired st' = fired st ++ new ∧ is_Some (timers st' !! x) ∧
    if decide (x ∈ work_list b)
    then calls_of x new = [(x, expires t, wrap32 (timer_jiffies b - 1))] ∧
         (one_shot → timers st' !! x = Some (set_base t None))
    else calls_of x new = [] ∧ timers st' !! x = Some t.
Proof.
  induction fuel as [|fuel IH]; intros st b t Hi Hh Hb Hlen Ht; simpl;
    rewrite (get_base_Some st cpu b Hb); cbn [mbind outcome_bind];
    destruct (work_list b) as [|y w] eqn:Hw.
  1, 3: exists st, []; split; [done|]; split; [by rewrite app_nil_r|]; split; [by eexists|];
    by rewrite decide_False by apply not_elem_of_nil.
  { simpl in Hlen. lia. }
  destruct (run_one_ok handler st cpu b y w Hi Hh Hb Hw)
    as (ty & st2 & b2 & Hty & -> & Hi2 & Hh2 & Hev & Hb2 & Hsub & Hj2 & Hf2 & Hev1 & Hal).
  cbn [mbind outcome_bind]. set (st1 := dispatch st cpu y b ty) in *.
  assert (∃ t2, timers st2 !! x = Some t2) as [t2 Ht2].
  { destruct Hev as ((_ & Hf) & _). specialize (Hf x). rewrite Ht in Hf.
    destruct (timers st2 !! x) as [t2|]; [by exists t2|done]. }
  destruct (IH st2 b2 t2) as (st' & new & -> & Hnew & Hsome & Hx); [done..|by eapply pass_shorter|done|].
  exists st', ([(y, expires ty, wrap32 (timer_jiffies b - 1))] ++ new). split; [done|].
  split; [rewrite Hnew, Hf2; by rewrite <- app_assoc|]. split; [done|]. rewrite calls_app.
  assert (∀ z, z ∈ work_list b2 → z ≠ y ∧ z ∈ w) as Hin.
  { intros z Hz. eapply elem_of_sublist in Hz; [|exact Hsub]. by apply list_elem_of_filter in Hz. }
  destruct (decide (y = x)) as [->|Hne].
  - assert (ty = t) as -> by congruence. rewrite calls_self. rewrite decide_True by (by left).
    rewrite decide_False in Hx by (intros [? _]%Hin; done).
    destruct Hx as [-> Hx]. split; [done|]. intros Hos. destruct (Hal x (Hos st1)) as [E _].
    rewrite Hx, <- Ht2, E. simpl. by rewrite lookup_insert_eq.
  - rewrite calls_other by done.
    assert (left_alone x st st2) as [E Hkeep].
    { eapply left_alone_trans; [exact Hev1|by apply dispatch_alone|]. by apply Hal, Hsp. }
    assert (t2 = t) as -> by congruence. rewrite Hj2 in Hx.
    assert (x ∈ work_list b2 ↔ x ∈ y :: w) as Hiff.
    { split; [intros [_ ?]%Hin; by right|]. intros H2. apply (Hkeep cpu b b2 Hb Hb2). by rewrite Hw. }
    destruct (decide (x ∈ y :: w)) as [H2|H2]; [rewrite decide_True in Hx by (by apply Hiff)|
      rewrite decide_False in Hx by (by rewrite Hiff)]; exact Hx.
Qed.

(** One tick: [x] runs in it exactly if it is pending here for this tick. *)
Lemma run_tick_spared st cpu b t :
  inv st → handlers_ok handler st → bases st !! cpu = Some b → work_list b = [] →
  timers st !! x = Some t →
  ∃ st' b' new, run_tick handler st cpu = Ok st' ∧ inv st' ∧ handlers_ok handler st' ∧
    bases st' !! cpu = Some b' ∧ work_list b' = [] ∧ timer_jiffies b' = wrap32 (timer_jiffies b + 1) ∧
    fired st' = fired st ++ new ∧ is_Some (timers st' !! x) ∧
    (base t = None → calls_of x new = [] ∧ timers st' !! x = Some t) ∧
    (base t = Some cpu → wrap32 (expires t - timer_jiffies b) < 2 ^ 31 →
     if decide (expires t = timer_jiffies b)
     then calls_of x new = [(x, expires t, expires t)] ∧ (one_shot → timers st' !! x = Some (set_base t None))
     else calls_of x new = [] ∧ timers st' !! x = Some t).
Proof.
  intros Hi Hh Hb Hw Ht. destruct (run_tick_ok handler st cpu b Hi Hh Hb Hw)
    as (st' & b' & Hr & Hi' & Hh' & Hb' & Hw' & Hj').
  destruct (run_tick_start handler st cpu b Hi Hb Hw) as (b1 & l & He & Hj & Hi1 & Hb1 & Hsh & Hdue).
  destruct (run_work_spared cpu (length l) _ (collected b1 l) t Hi1 (handlers_ok_shape _ _ _ Hsh Hh) Hb1 (le_n _) Ht)
    as (st2 & new & He2 & Hnew & Hsome & Hx).
  assert (st2 = st') as -> by congruence. exists st', b', new. do 8 (split; [done|]). simpl in Hx.
  assert (x ∈ l → base t = Some cpu) as Hpend.
  { intros Hin. destruct (bo_pending _ _ _ (inv_base _ Hi1 cpu _ Hb1) x) as (u & Hu & ?); [|simpl in Hu; congruence].
    unfold ids. rewrite elem_of_app. by right. }
  split.
  { intros Hbt. rewrite decide_False in Hx; [done|]. intros Hin%Hpend. congruence. }
  intros Hbt Hd. pose proof (inv_expires _ Hi x t Ht) as Hu.
  pose proof (bo_jiffies _ _ _ (inv_base _ Hi cpu b Hb)) as Huj.
  destruct (decide (expires t = timer_jiffies b)) as [Heq|Hne].
  - rewrite decide_True in Hx by (by apply (Hdue x t)). rewrite Hj, wrap32_sub_l in Hx. rewrite Heq in *.
    replace (timer_jiffies b + 1 - 1) with (timer_jiffies b) in Hx by lia.
    by rewrite (wrap32_id (timer_jiffies b)) in Hx by done.
  - destruct (decide (x ∈ l)) as [Hin|]; [|done]. exfalso.
    pose proof (bo_work _ _ _ (inv_base _ Hi1 cpu _ Hb1) x t Hin Ht) as Hbw. simpl in Hbw.
    rewrite Hj in Hbw. destruct Hu, Huj. unfold wrap32 in *. zdm.
Qed.

(** A timer that runs in the ticks up to [jiffies], or does not. *)
Definition on_time (t : timer_list) (due : bool) (st' : kstate) (new : list (nat * Z * Z)) : Prop :=
  if due
  then ∃ rest, calls_of x new = (x, expires t, expires t) :: rest ∧
         (one_shot → rest = [] ∧ timers st' !! x = Some (set_base t None))
  else calls_of x new = [] ∧ timers st' !! x = Some t.

Lemma run_ticks_spared cpu jiffies fuel : ∀ st b t,
  inv st → handlers_ok handler st → bases st !! cpu = Some b → work_list b = [] →
  sgn32 (jiffies - timer_jiffies b) + 1 <= Z.of_nat fuel → timers st !! x = Some t →
  ∃ st' new, run_ticks handler fuel st cpu jiffies = Ok st' ∧ is_Some (bases st' !! cpu) ∧
    fired st' = fired st ++ new ∧
    (base t = None → on_time t false st' new) ∧
    (base t = Some cpu → wrap32 (expires t - timer_jiffies b) < 2 ^ 31 →
     on_time t (bool_decide (wrap32 (expires t - timer_jiffies b) <= sgn32 (jiffies - timer_jiffies b))) st' new).
Proof.
  induction fuel as [|fuel IH]; intros st b t Hi Hh Hb Hw Hf Ht; cbn [run_ticks];
    rewrite (get_base_Some st cpu b Hb); cbn [mbind outcome_bind];
    destruct (Z.leb_spec 0 (sgn32 (jiffies - timer_jiffies b))) as [Hd|Hd]; try lia.
  1, 3: exists st, []; split; [done|]; split; [by eexists|]; split; [by rewrite app_nil_r|]; split; [done|];
    intros ??; pose proof (wrap32_range (expires t - timer_jiffies b)); by rewrite bool_decide_eq_false_2 by lia.
  destruct (run_tick_spared st cpu b t Hi Hh Hb Hw Ht)
    as (st1 & b1 & new1 & -> & Hi1 & Hh1 & Hb1 & Hw1 & Hj1 & Hn1 & [t1 Ht1] & Hidle & Hpend).
  cbn [mbind outcome_bind].
  destruct (IH st1 b1 t1 Hi1 Hh1 Hb1 Hw1) as (st' & new & -> & Hsome & Hn & Hidle' & Hpend').
  { rewrite Hj1, sgn32_step by done. lia. }
  { done. }
  exists st', (new1 ++ new). split; [done|]. split; [done|]. split; [rewrite Hn, Hn1; by rewrite app_assoc|].
  unfold on_time in *. rewrite calls_app. split.
  { intros Hbt. destruct (Hidle Hbt) as [-> E]. assert (t1 = t) as -> by congruence. by apply Hidle'. }
  intros Hbt Hlt. specialize (Hpend Hbt Hlt).
  pose proof (inv_expires _ Hi x t Ht) as [? ?].
  pose proof (bo_jiffies _ _ _ (inv_base _ Hi cpu b Hb)) as [? ?].
  destruct (decide (expires t = timer_jiffies b)) as [Heq|Hne].
  - destruct Hpend as [-> Hos]. replace (wrap32 (expires t - timer_jiffies b)) with 0 by (rewrite Heq, Z.sub_diag; done).
    rewrite bool_decide_eq_true_2 by done. exists (calls_of x new). split; [done|].
    intros Hone. specialize (Hos Hone). assert (t1 = set_base t None) as -> by congruence. by apply Hidle'.
  - destruct Hpend as [-> E]. assert (t1 = t) as -> by congruence.
    assert (Hw' : wrap32 (expires t - timer_jiffies b1) = wrap32 (expires t - timer_jiffies b) - 1).
    { rewrite Hj1. unfold wrap32 in *. zdm. }
    specialize (Hpend' Hbt). rewrite Hw', Hj1, sgn32_step in Hpend' by done. specialize (Hpend' ltac:(lia)).
    replace (bool_decide (wrap32 (expires t - timer_jiffies b) <= sgn32 (jiffies - timer_jiffies b)))
      with (bool_decide (wrap32 (expires t - timer_jiffies b) - 1 <= sgn32 (jiffies - timer_jiffies b) - 1)); [done|].
    apply bool_decide_ext. lia.
Qed.
End spared.

(** C1: Timers are never lost and never late, whatever the handlers do.  Let a timer of a CPU be
    pending and not overdue, and let the handlers of other timers make no call about it (they
    may add, change and delete all others, differently each time).  When [__run_timers] has
    caught up with [jiffies] and the [expires] tick of the timer has come, then its handler
    has been called at exactly that tick, for the first time in this run; if it does not re-arm the
    timer, once only, and the timer is no longer pending.  If the tick has not come, the handler
    has not been called and the timer is still pending, unchanged. *)
Theorem run_timers_on_time handler st cpu jiffies b x t :
  inv st → handlers_ok handler st → bases st !! cpu = Some b → work_list b = [] →
  spared handler x → timers st !! x = Some t → base t = Some cpu →
  wrap32 (expires t - timer_jiffies b) < 2 ^ 31 →
  ∃ st' new, __run_timers handler st cpu jiffies = Ok st' ∧ fired st' = fired st ++ new ∧
    if decide (wrap32 (expires t - timer_jiffies b) <= sgn32 (jiffies - timer_jiffies b))
    then ∃ rest, calls_of x new = (x, expires t, expires t) :: rest ∧
           (one_shot handler x → rest = [] ∧ timers st' !! x = Some (set_base t None))
    else calls_of x new = [] ∧ timers st' !! x = Some t.
Proof.
  intros Hi Hh Hb Hw Hsp Ht Hbt Hlt. unfold __run_timers.
  rewrite (get_base_Some st cpu b Hb). cbn [mbind outcome_bind].
  destruct (run_ticks_spared handler x Hsp cpu jiffies (Z.to_nat (sgn32 (jiffies - timer_jiffies b) + 1)) st b t)
    as (st1 & new & -> & [b1 Hb1] & Hn & _ & Hx); [done..|lia|done|].
  cbn [mbind outcome_bind]. rewrite (get_base_Some st1 cpu b1 Hb1). cbn [mbind outcome_bind].
  eexists _, new. split; [done|]. split; [done|]. specialize (Hx Hbt Hlt). unfold on_time in Hx.
  by case_decide; [rewrite bool_decide_eq_true_2 in Hx|rewrite bool_decide_eq_false_2 in Hx].
Qed.

(** ** The boot state *)

Definition blank_base : tvec_base_t := mk_base 0 None [] [].

Lemma concat_replicate_nil n : concat (replicate n ([] : list nat)) = [].
Proof. induction n; simpl; auto. Qed.
#[local] Arguments replicate : simpl never.

(** [init_timers_cpu] on one CPU, with no timer pending anywhere. *)
Lemma inv_init tm jiffies :
  is_u32 jiffies →
  (∀ id t, tm !! id = Some t → base t = None ∧ is_u32 (expires t)) →
  inv (init_timers_cpu (mk_kstate tm [blank_base] []) 0 jiffies).
Proof.
  intros Hj Htm. split; simpl; [| | |done].
  - intros [|c] b Hc; [|done]. injection Hc as <-. split; simpl; try done.
    + unfold ids. cbn [vec work_list]. rewrite concat_replicate_nil. constructor.
    + unfold ids. cbn [vec work_list]. rewrite concat_replicate_nil. intros id Hid.
      by apply not_elem_of_nil in Hid.
    + intros k v id t Hk Hid. apply lookup_replicate in Hk as [-> _].
      by apply not_elem_of_nil in Hid.
    + intros id t Hid. by apply not_elem_of_nil in Hid.
  - intros id t c Ht Hb. destruct (Htm id t Ht). congruence.
  - intros id t Ht. apply (Htm id t Ht).
Qed.

(** ** Concrete instances *)

(** One CPU about to process tick 2^32 - 10; timer 1 is set 300 ticks ahead, so
    it is filed in [tv2], across the wrap-around of [jiffies]. *)
Definition boot : kstate :=
  init_timers_cpu (mk_kstate {[1%nat := mk_timer 290 true true None]} [blank_base] []) 0 (2 ^ 32 - 10).

Lemma boot_inv : inv boot.
Proof.
  apply inv_init; [done|]. intros id t. rewrite lookup_singleton. case_decide; [|done].
  by intros [= <-].
Qed.

Definition b0 : tvec_base_t :=
  mk_base (2 ^ 32 - 10) None (replicate (Z.to_nat (TVR_SIZE + 4 * TVN_SIZE)) []) [].

Definition armed : kstate :=
  set_timer (set_cpu_base boot 0 (internal_add_timer b0 1 290)) 1 (mk_timer 290 true true (Some 0%nat)).

Lemma armed_inv : inv armed.
Proof.
  apply (inv_enqueue boot 1 (mk_timer 290 true true None) 0 b0
    (mk_timer 290 true true (Some 0%nat)) boot_inv); done.
Qed.

Lemma timer_calls_correct_witness :
  ∃ st', mod_timer armed 0 1 7 = Ok (st', 1) ∧ inv st'.
Proof.
  destruct (timer_calls_correct armed 0 1 (mk_timer 290 true true (Some 0%nat)) 7 armed_inv)
    as [(st' & H & Hi & _) _]; [done|done|simpl; lia|done|].
  exists st'. exact (conj H Hi).
Defined.

(** The handler of timer 1 re-arms it the first time it runs. *)
Definition periodic (st : kstate) (id : nat) : list timer_op :=
  if decide (id = 1%nat ∧ (length (fired st) <= 1)%nat) then [OpMod 0 1 1000] else [].

Lemma periodic_ok : handlers_ok periodic armed.
Proof.
  intros st' id [Hl Hf]. unfold periodic. case_decide; [|constructor]. apply Forall_singleton.
  split; [rewrite Hl; simpl; lia|]. split; [|done]. by rewrite Hf.
Qed.

Lemma run_timers_safe_witness :
  ∃ st', __run_timers periodic armed 0 400 = Ok st' ∧ inv st' ∧ Forall not_early (fired st').
Proof.
  destruct (run_timers_safe periodic armed 0 400 (internal_add_timer b0 1 290) armed_inv)
    as (st' & b' & H1 & H2 & H3 & _).
  - exact periodic_ok.
  - reflexivity.
  - reflexivity.
  - exists st'. exact (conj H1 (conj H2 H3)).
Defined.

Lemma run_timers_on_time_witness :
  ∃ st' rest, __run_timers periodic armed 0 400 = Ok st' ∧ calls_of 1 (fired st') = (1%nat, 290, 290) :: rest.
Proof.
  destruct (run_timers_on_time periodic armed 0 400 (internal_add_timer b0 1 290) 1
    (mk_timer 290 true true (Some 0%nat)) armed_inv periodic_ok)
    as (st' & new & H1 & H2 & rest & H3 & _); [reflexivity|reflexivity| |reflexivity|reflexivity|reflexivity|].
  - intros st y Hy. unfold periodic. rewrite decide_False by tauto. constructor.
  - exists st', rest. split; [exact H1|]. rewrite H2. exact H3.
Defined.
End WheelFacts.
