(* ===== verification/Users.v ===== *)
(** * The user cache (kernel/user.c)

    A [user_struct] exists once per user id that owns a task; it is found
    through the hash table [uidhash_table], is reference counted, and is freed
    by the last [free_uid].  Addresses are [Z]; the objects the slab cache has
    handed out are the domain of [heap]; a dereference outside it is [Bug].
    The keyring calls are empty without CONFIG_KEYS.  [kmem_cache_alloc] is an
    argument: the address it returns, or [None].

    The reference and process counts are 32-bit [atomic_t] in the code and plain
    numbers here.  The invariant below makes them the numbers of references and of
    processes, which stay far below 2^31 with at most 2^22 processes; that they do is
    not part of the invariant.  [alloc_uid] is one step: the second look at the
    table after the allocation, which the code makes in case another task has added the
    same user meanwhile, is in the model but never finds one. *)

From stdpp Require Import prelude numbers list gmap.
From Stdlib Require Import ZArith Lia.
From S2P Require Import Prelude.

#[local] Set Default Goal Selector "!".
#[local] Open Scope Z_scope.

Module Users.

Definition UIDHASH_BITS : Z := 8.
Definition UIDHASH_SZ : Z := 2 ^ UIDHASH_BITS.
Definition UIDHASH_MASK : Z := UIDHASH_SZ - 1.
Definition __uidhashfn (uid : Z) : Z :=
  Z.land (wrap32 (Z.shiftr uid UIDHASH_BITS + uid)) UIDHASH_MASK.

Record user_struct := mk_user {
  u_uid : Z;
  u_count : Z;
  u_processes : Z;
  u_files : Z;
  u_sigpending : Z;
  u_mq_bytes : Z;
  u_locked_shm : Z
}.

Definition set_count (c : Z) (u : user_struct) : user_struct :=
  mk_user (u_uid u) c (u_processes u) (u_files u) (u_sigpending u)
    (u_mq_bytes u) (u_locked_shm u).
Definition set_processes (c : Z) (u : user_struct) : user_struct :=
  mk_user (u_uid u) (u_count u) c (u_files u) (u_sigpending u)
    (u_mq_bytes u) (u_locked_shm u).

Record cache := mk_cache {
  heap : gmap Z user_struct;
  uidhash_table : list (list Z)
}.

(** The address of the static [root_user]. *)
Definition root_user : Z := 0.

Definition deref (p : Z) : SM cache user_struct := λ s,
  match heap s !! p with Some u => (Ok u, s) | None => (Bug, s) end.

Definition update (p : Z) (f : user_struct → user_struct) : SM cache unit := λ s,
  match heap s !! p with
  | Some u => (Ok tt, mk_cache (<[p := f u]> (heap s)) (uidhash_table s))
  | None => (Bug, s)
  end.

Definition atomic_inc_count (p : Z) : SM cache unit :=
  update p (λ u, set_count (u_count u + 1) u).

(** [list_add(&up->uidhash_list, hashent)] *)
Definition uid_hash_insert (up : Z) (b : Z) : SM cache unit :=
  modify (λ s, mk_cache (heap s)
    (alter (cons up) (Z.to_nat b) (uidhash_table s))).

(** [list_del(&up->uidhash_list)] *)
Definition uid_hash_remove (up : Z) : SM cache unit :=
  modify (λ s, mk_cache (heap s)
    (filter (λ q, q ≠ up) <$> uidhash_table s)).

Fixpoint hash_walk (uid : Z) (chain : list Z) : SM cache (option Z) :=
  match chain with
  | [] => mret None
  | up :: rest =>
      user ← deref up;
      if u_uid user =? uid
      then _ ← atomic_inc_count up; mret (Some up)
      else hash_walk uid rest
  end.

Definition uid_hash_find (uid b : Z) : SM cache (option Z) := λ s,
  match uidhash_table s !! Z.to_nat b with
  | Some chain => hash_walk uid chain s
  | None => (Bug, s)
  end.

Definition find_user (uid : Z) : SM cache (option Z) :=
  uid_hash_find uid (__uidhashfn uid).

Definition kmem_cache_free (p : Z) : SM cache unit :=
  modify (λ s, mk_cache (delete p (heap s)) (uidhash_table s)).

Definition free_uid (up : Z) : SM cache unit :=
  _ ← update up (λ u, set_count (u_count u - 1) u);
  u ← deref up;
  when (u_count u =? 0)
    (_ ← uid_hash_remove up; kmem_cache_free up).

Definition alloc_uid (kmem : option Z) (uid : Z) : SM cache (option Z) :=
  up ← uid_hash_find uid (__uidhashfn uid);
  match up with
  | Some p => mret (Some p)
  | None =>
      match kmem with
      | None => mret None
      | Some new =>
          _ ← modify (λ s, mk_cache
                (<[new := mk_user uid 1 0 0 0 0 0]> (heap s)) (uidhash_table s));
          (* check whether we raced on adding the same user already *)
          up' ← uid_hash_find uid (__uidhashfn uid);
          match up' with
          | Some q => _ ← kmem_cache_free new; mret (Some q)
          | None =>
              _ ← uid_hash_insert new (__uidhashfn uid);
              mret (Some new)
          end
      end
  end.

(** [switch_uid] on the task's [user] pointer; returns the new pointer. *)
Definition switch_uid (old_user new_user : Z) : SM cache Z :=
  _ ← update new_user (λ u, set_processes (u_processes u + 1) u);
  _ ← update old_user (λ u, set_processes (u_processes u - 1) u);
  _ ← free_uid old_user;
  mret new_user.

(** The static initialisation and [uid_cache_init]. *)
Definition uid_cache_init : cache :=
  mk_cache {[ root_user := mk_user 0 1 1 0 0 0 0 ]}
    (alter (cons root_user) (Z.to_nat (__uidhashfn 0))
      (replicate (Z.to_nat UIDHASH_SZ) [])).

(** ** The reference-count discipline

    [tasks p] is the number of tasks whose [user] pointer is [p], [other p] the
    number of further references to it (queued signals, a lookup in
    progress). *)

Definition bump (f : Z → Z) (p d : Z) : Z → Z :=
  λ q, if decide (q = p) then f q + d else f q.

Record cache_inv (tasks other : Z → Z) (s : cache) : Prop := {
  ci_len : length (uidhash_table s) = 256%nat;
  ci_chain b chain p : uidhash_table s !! b = Some chain → p ∈ chain →
    ∃ u, heap s !! p = Some u ∧ Z.to_nat (__uidhashfn (u_uid u)) = b;
  ci_in p u : heap s !! p = Some u →
    ∃ chain, uidhash_table s !! Z.to_nat (__uidhashfn (u_uid u)) = Some chain ∧
      p ∈ chain;
  ci_inj p q u v : heap s !! p = Some u → heap s !! q = Some v →
    u_uid u = u_uid v → p = q;
  ci_refs p u : heap s !! p = Some u →
    u_count u = tasks p + other p ∧ u_processes u = tasks p ∧
    0 < tasks p + other p;
  ci_dom p : heap s !! p = None → tasks p = 0 ∧ other p = 0;
  ci_pos p : 0 <= tasks p ∧ 0 <= other p
}.

Lemma bump_eq f p d : bump f p d p = f p + d.
Proof. unfold bump. by rewrite decide_True. Qed.
Lemma bump_ne f p q d : q ≠ p → bump f p d q = f q.
Proof. intros. unfold bump. by rewrite decide_False. Qed.
#[local] Hint Rewrite bump_eq : kern.
#[local] Hint Rewrite bump_ne using done : kern.

Lemma cache_inv_ext t o t' o' s :
  (∀ p, t p = t' p) → (∀ p, o p = o' p) → cache_inv t o s → cache_inv t' o' s.
Proof.
  intros Ht Ho [? ? ? ? H5 H6 H7]. split; try done; intros p; rewrite <- Ht, <- Ho.
  - apply H5.
  - apply H6.
  - apply H7.
Qed.

Lemma uidhash_bound uid : 0 <= __uidhashfn uid < 256.
Proof. unfold __uidhashfn, UIDHASH_MASK, UIDHASH_SZ, UIDHASH_BITS.
  apply (land_bound _ _ 8); lia. Qed.

Lemma update_ok p f s u : heap s !! p = Some u →
  update p f s = (Ok tt, mk_cache (<[p := f u]> (heap s)) (uidhash_table s)).
Proof. intros H. unfold update. by rewrite H. Qed.

Lemma deref_ok p s u : heap s !! p = Some u → deref p s = (Ok u, s).
Proof. intros H. unfold deref. by rewrite H. Qed.

(** Changing the counters of one live user. *)
Lemma cache_inv_update t o t' o' s p u f :
  cache_inv t o s → heap s !! p = Some u →
  u_uid (f u) = u_uid u → u_count (f u) = t' p + o' p →
  u_processes (f u) = t' p → 0 < t' p + o' p →
  0 <= t' p → 0 <= o' p → (∀ q, q ≠ p → t' q = t q ∧ o' q = o q) →
  cache_inv t' o' (mk_cache (<[p := f u]> (heap s)) (uidhash_table s)).
Proof.
  intros [L C I J R D P] Hp Hu Hc Hpr Hpos Ht Ho Hq.
  assert (L' : ∀ q v, <[p := f u]> (heap s) !! q = Some v →
    ∃ v', heap s !! q = Some v' ∧ u_uid v = u_uid v').
  { intros q v. destruct (decide (q = p)) as [->|].
    - rewrite lookup_insert_eq. intros [= <-]. eauto.
    - rewrite lookup_insert_ne by done. eauto. }
  split; cbn [heap uidhash_table].
  - done.
  - intros b ch q Hb Hi. destruct (C _ _ _ Hb Hi) as (v & Hv & E).
    destruct (decide (q = p)) as [->|].
    + exists (f u). rewrite lookup_insert_eq. split; [done|]. rewrite Hu. by simplify_eq.
    + exists v. by rewrite lookup_insert_ne.
  - intros q v Hv. destruct (L' _ _ Hv) as (v' & Hv' & ->). by apply I.
  - intros a b ua ub Ha Hb E. destruct (L' _ _ Ha) as (? & ? & Ea).
    destruct (L' _ _ Hb) as (? & ? & Eb). eapply J; eauto. congruence.
  - intros q v. destruct (decide (q = p)) as [->|].
    + rewrite lookup_insert_eq. intros [= <-]. lia.
    + rewrite lookup_insert_ne by done. intros Hv. destruct (Hq q) as [-> ->]; [done|]. by apply R.
  - intros q. destruct (decide (q = p)) as [->|].
    + by rewrite lookup_insert_eq.
    + rewrite lookup_insert_ne by done. intros Hv. destruct (Hq q) as [-> ->]; [done|]. by apply D.
  - intros q. destruct (decide (q = p)) as [->|]; [done|].
    destruct (Hq q) as [-> ->]; [done|]. apply P.
Qed.

(** *** Lookup *)

Lemma hash_walk_spec uid chain s :
  (∀ p, p ∈ chain → is_Some (heap s !! p)) →
  (∃ p u, p ∈ chain ∧ heap s !! p = Some u ∧ u_uid u = uid ∧
     hash_walk uid chain s =
       (Ok (Some p), mk_cache (<[p := set_count (u_count u + 1) u]> (heap s))
                       (uidhash_table s))) ∨
  ((∀ p u, p ∈ chain → heap s !! p = Some u → u_uid u ≠ uid) ∧
   hash_walk uid chain s = (Ok None, s)).
Proof.
  induction chain as [|up rest IH]; intros Hl.
  - right. split; [|done]. intros p u Hp. by apply elem_of_nil in Hp.
  - destruct (Hl up) as [u Hu]; [left|].
    cbn [hash_walk]. sm_unfold. rewrite (deref_ok _ _ _ Hu).
    destruct (Z.eqb_spec (u_uid u) uid) as [E|E].
    + left. exists up, u. split_and!; [left|done..|].
      unfold atomic_inc_count. sm_unfold. by rewrite (update_ok _ _ _ _ Hu).
    + destruct IH as [(p & v & ? & ? & ? & ?)|[Hn ?]].
      { intros p Hp. apply Hl. by right. }
      * left. exists p, v. split_and!; try done. by right.
      * right. split; [|done]. intros p v Hp Hv.
        apply elem_of_cons in Hp as [->|Hp]; [congruence|eauto].
Qed.

(** [uid_hash_find] returns the one user with that id and takes a reference,
    or reports that there is none. *)
Lemma find_user_spec t o uid s : cache_inv t o s →
  (∃ p u, heap s !! p = Some u ∧ u_uid u = uid ∧
     find_user uid s =
       (Ok (Some p), mk_cache (<[p := set_count (u_count u + 1) u]> (heap s))
                       (uidhash_table s))) ∨
  ((∀ p u, heap s !! p = Some u → u_uid u ≠ uid) ∧
   find_user uid s = (Ok None, s)).
Proof.
  intros [L C I J R D P].
  pose proof (uidhash_bound uid).
  destruct (lookup_lt_is_Some_2 (uidhash_table s) (Z.to_nat (__uidhashfn uid)))
    as [chain Hch]; [lia|].
  unfold find_user, uid_hash_find. rewrite Hch.
  destruct (hash_walk_spec uid chain s) as [(p & u & ? & ? & ? & ?)|[Hn ?]].
  - intros p Hp. destruct (C _ _ _ Hch Hp) as (u & Hu & _). eauto.
  - left. eauto 10.
  - right. split; [|done]. intros p u Hu E.
    destruct (I _ _ Hu) as (ch & Hc & Hi). rewrite E, Hch in Hc. simplify_eq.
    by apply (Hn p u).
Qed.

Lemma cache_inv_get t o s p u :
  cache_inv t o s → heap s !! p = Some u →
  cache_inv t (bump o p 1) (mk_cache (<[p := set_count (u_count u + 1) u]> (heap s))
                              (uidhash_table s)).
Proof.
  intros Hs Hp. pose proof (ci_refs _ _ _ Hs _ _ Hp). pose proof (ci_pos _ _ _ Hs p).
  eapply (cache_inv_update _ _ _ _ s p u (λ u, set_count (u_count u + 1) u)); eauto;
    cbn; autorewrite with kern; try lia.
  intros q Hq. by autorewrite with kern.
Qed.

(** *** Release *)

Lemma cache_inv_remove t o s p u :
  cache_inv t o s → heap s !! p = Some u → t p + o p = 1 →
  cache_inv (bump t p (- t p)) (bump o p (- o p))
    (mk_cache (delete p (heap s)) (filter (λ q, q ≠ p) <$> uidhash_table s)).
Proof.
  intros [L C I J R D P] Hp Hone.
  assert (Hd : ∀ q v, delete p (heap s) !! q = Some v → q ≠ p ∧ heap s !! q = Some v)
    by (intros q v [??]%lookup_delete_Some; by split).
  split; cbn [heap uidhash_table].
  - by rewrite length_fmap.
  - intros b ch q Hb Hi. apply list_lookup_fmap_Some in Hb as (ch0 & -> & Hb).
    apply list_elem_of_filter in Hi as [Hne Hi].
    destruct (C _ _ _ Hb Hi) as (v & Hv & E). exists v.
    by rewrite lookup_delete_ne by done.
  - intros q v Hv. destruct (Hd _ _ Hv) as [Hne Hv'].
    destruct (I _ _ Hv') as (ch & Hc & Hi).
    exists (filter (λ q, q ≠ p) ch). rewrite list_lookup_fmap, Hc. split; [done|].
    by apply list_elem_of_filter.
  - intros a b ua ub [? Ha]%Hd [? Hb]%Hd. by apply J.
  - intros q v Hv. destruct (Hd _ _ Hv) as [Hne Hv']. rewrite !bump_ne by done. by apply R.
  - intros q. destruct (decide (q = p)) as [->|].
    + rewrite !bump_eq. lia.
    + rewrite lookup_delete_ne, !bump_ne by done. apply D.
  - intros q. destruct (decide (q = p)) as [->|].
    + rewrite !bump_eq. lia.
    + rewrite !bump_ne by done. apply P.
Qed.

(** [free_uid] of a held reference never faults; it gives the reference back,
    and frees the object exactly when it was the last one. *)
Lemma free_uid_spec t o p s : cache_inv t o s → 0 < o p →
  ∃ s', free_uid p s = (Ok tt, s') ∧ cache_inv t (bump o p (-1)) s' ∧
    (heap s' !! p = None ↔ t p + o p = 1) ∧
    (heap s' !! p = None ∨ u_uid <$> heap s' !! p = u_uid <$> heap s !! p) ∧
    (∀ q, q ≠ p → heap s' !! q = heap s !! q).
Proof.
  intros Hs Ho.
  destruct (heap s !! p) as [u|] eqn:Hp; [|apply (ci_dom _ _ _ Hs) in Hp; lia].
  pose proof (ci_refs _ _ _ Hs _ _ Hp) as (Hc & Hpr & _).
  pose proof (ci_pos _ _ _ Hs p).
  unfold free_uid. sm_unfold. rewrite (update_ok _ _ _ _ Hp). cbn [u_count set_count].
  erewrite deref_ok by apply lookup_insert_eq.
  cbn [u_count set_count].
  destruct (Z.eqb_spec (u_count u - 1) 0) as [E|E].
  - unfold uid_hash_remove, kmem_cache_free. sm_unfold. cbn [heap uidhash_table].
    eexists. split; [reflexivity|]. cbn [heap].
    rewrite delete_insert_eq, lookup_delete_eq. split_and!.
    + eapply cache_inv_ext; [| |eapply (cache_inv_remove _ _ _ _ _ Hs Hp); lia];
        intros q; destruct (decide (q = p)) as [->|]; autorewrite with kern; lia.
    + split; [lia|done].
    + by left.
    + intros q Hq. by rewrite lookup_delete_ne.
  - eexists. split; [reflexivity|]. cbn [heap]. rewrite lookup_insert_eq. split_and!.
    + eapply (cache_inv_update _ _ _ _ s p u (λ u, set_count (u_count u - 1) u)); eauto;
        cbn; autorewrite with kern; try lia.
      intros q Hq. by autorewrite with kern.
    + split; [done|lia].
    + by right.
    + intros q Hq. by rewrite lookup_insert_ne.
Qed.

(** *** Allocation *)

Lemma cache_inv_add t o s new uid chain :
  cache_inv t o s → heap s !! new = None →
  (∀ p u, heap s !! p = Some u → u_uid u ≠ uid) →
  uidhash_table s !! Z.to_nat (__uidhashfn uid) = Some chain →
  cache_inv t (bump o new 1)
    (mk_cache (<[new := mk_user uid 1 0 0 0 0 0]> (heap s))
       (alter (cons new) (Z.to_nat (__uidhashfn uid)) (uidhash_table s))).
Proof.
  intros [L C I J R D P] Hnew Huid Hch. pose proof (D _ Hnew).
  assert (Hl : ∀ q v, <[new := mk_user uid 1 0 0 0 0 0]> (heap s) !! q = Some v →
    (q = new ∧ v = mk_user uid 1 0 0 0 0 0) ∨ (q ≠ new ∧ heap s !! q = Some v))
    by (intros q v [[-> <-]|[??]]%lookup_insert_Some; auto).
  split; cbn [heap uidhash_table].
  - by rewrite length_alter.
  - intros b ch q Hb Hi. destruct (decide (b = Z.to_nat (__uidhashfn uid))) as [->|Hne].
    + rewrite list_lookup_alter_eq, Hch in Hb. simplify_eq/=.
      apply elem_of_cons in Hi as [->|Hi]; [rewrite lookup_insert_eq; eauto|].
      destruct (C _ _ _ Hch Hi) as (v & Hv & E). exists v.
      rewrite lookup_insert_ne by congruence. done.
    + rewrite list_lookup_alter_ne in Hb by done.
      destruct (C _ _ _ Hb Hi) as (v & Hv & E). exists v.
      rewrite lookup_insert_ne by congruence. done.
  - intros q v Hv. destruct (Hl _ _ Hv) as [[-> ->]|[Hq Hv']]; cbn [u_uid].
    + exists (new :: chain). rewrite list_lookup_alter_eq, Hch. split; [done|left].
    + destruct (I _ _ Hv') as (ch & Hc & Hi).
      destruct (decide (__uidhashfn (u_uid v) = __uidhashfn uid)) as [E|E].
      * exists (new :: ch). rewrite E in *. rewrite list_lookup_alter_eq, Hc.
        split; [done|by right].
      * exists ch. pose proof (uidhash_bound uid). pose proof (uidhash_bound (u_uid v)).
        rewrite list_lookup_alter_ne by lia. done.
  - intros a b ua ub Ha Hb. destruct (Hl _ _ Ha) as [[-> ->]|[? Ha']],
      (Hl _ _ Hb) as [[-> ->]|[? Hb']]; cbn [u_uid]; eauto.
    + intros E. by destruct (Huid _ _ Hb').
    + intros E. by destruct (Huid _ _ Ha').
  - intros q v Hv. destruct (Hl _ _ Hv) as [[-> ->]|[? Ha']]; cbn; autorewrite with kern;
      [lia|by apply R].
  - intros q. rewrite lookup_insert_None. intros [??]. autorewrite with kern. by apply D.
  - intros q. destruct (decide (q = new)) as [->|]; autorewrite with kern; [lia|apply P].
Qed.

(** [alloc_uid] returns a reference to the user with the given id, creating it
    when there is none; without memory it changes nothing. *)
Lemma alloc_uid_spec t o kmem uid s :
  cache_inv t o s → (∀ new, kmem = Some new → heap s !! new = None) →
  ∃ r s', alloc_uid kmem uid s = (Ok r, s') ∧
    match r with
    | Some p => cache_inv t (bump o p 1) s' ∧
        (∃ u, heap s' !! p = Some u ∧ u_uid u = uid) ∧
        (∀ q, q ≠ p → heap s' !! q = heap s !! q)
    | None => s' = s ∧ kmem = None ∧
        ∀ p u, heap s !! p = Some u → u_uid u ≠ uid
    end.
Proof.
  intros Hs Hk. pose proof (find_user_spec _ _ uid _ Hs) as Hf. unfold find_user in Hf.
  unfold alloc_uid. sm_unfold.
  destruct Hf as [(p & u & Hp & Hu & ->)|[Hn ->]].
  { eexists (Some p), _. split; [reflexivity|]. split_and!.
    - by apply cache_inv_get.
    - exists (set_count (u_count u + 1) u). cbn. by rewrite lookup_insert_eq.
    - intros q Hq. cbn. by rewrite lookup_insert_ne. }
  destruct kmem as [new|]; [|by eexists None, s].
  pose proof (uidhash_bound uid). pose proof (ci_len _ _ _ Hs).
  destruct (lookup_lt_is_Some_2 (uidhash_table s) (Z.to_nat (__uidhashfn uid)))
    as [chain Hch]; [lia|].
  pose proof (Hk _ eq_refl) as Hnew.
  unfold uid_hash_find. cbn [uidhash_table]. rewrite Hch.
  set (s1 := mk_cache _ _).
  assert (Hw : hash_walk uid chain s1 = (Ok None, s1)).
  { destruct (hash_walk_spec uid chain s1) as [(p & u & Hi & Hp & Hu & _)|[_ ?]]; [| |done].
    - intros p Hp. destruct (ci_chain _ _ _ Hs _ _ _ Hch Hp) as (u & Hu & _).
      unfold s1. cbn. rewrite lookup_insert_ne by congruence. eauto.
    - destruct (ci_chain _ _ _ Hs _ _ _ Hch Hi) as (v & Hv & _).
      unfold s1 in Hp. cbn in Hp. rewrite lookup_insert_ne in Hp by congruence.
      by destruct (Hn _ _ Hp). }
  rewrite Hw. unfold uid_hash_insert. sm_unfold.
  eexists (Some new), _. split; [reflexivity|]. cbn [heap uidhash_table s1]. split_and!.
  - by eapply cache_inv_add.
  - eexists. by rewrite lookup_insert_eq.
  - intros q Hq. by rewrite lookup_insert_ne.
Qed.

(** Giving back at once what [alloc_uid] returned restores the cache. *)
Lemma alloc_free_id t o kmem uid s p s' :
  cache_inv t o s → (∀ new, kmem = Some new → heap s !! new = None) →
  alloc_uid kmem uid s = (Ok (Some p), s') → free_uid p s' = (Ok tt, s).
Proof.
  intros Hs Hk. pose proof (find_user_spec _ _ uid _ Hs) as Hf. unfold find_user in Hf.
  unfold alloc_uid. sm_unfold.
  destruct Hf as [(q & u & Hq & Hu & ->)|[Hn ->]].
  { intros [= <- <-]. unfold free_uid. sm_unfold.
    erewrite update_ok by apply lookup_insert_eq. cbn [heap].
    erewrite deref_ok by apply lookup_insert_eq. cbn [u_count set_count].
    pose proof (ci_refs _ _ _ Hs _ _ Hq) as (Hc & _ & ?).
    replace (u_count u + 1 - 1) with (u_count u) by lia.
    rewrite (proj2 (Z.eqb_neq _ _)) by lia. do 2 f_equal. destruct s as [h tb]. cbn in *.
    f_equal. rewrite insert_insert_eq. apply insert_id. rewrite Hq. by destruct u. }
  destruct kmem as [new|]; [|done].
  pose proof (Hk _ eq_refl) as Hnew.
  unfold uid_hash_find. cbn [uidhash_table].
  destruct (uidhash_table s !! Z.to_nat (__uidhashfn uid)) as [chain|] eqn:Hch; [|done].
  set (s1 := mk_cache _ _).
  destruct (hash_walk_spec uid chain s1) as [(q & u & Hi & Hq & Hu & _)|[_ ->]].
  { intros q Hq. destruct (ci_chain _ _ _ Hs _ _ _ Hch Hq) as (u & Hu & _).
    unfold s1. cbn. rewrite lookup_insert_ne by congruence. eauto. }
  { destruct (ci_chain _ _ _ Hs _ _ _ Hch Hi) as (v & Hv & _).
    unfold s1 in Hq. cbn in Hq. rewrite lookup_insert_ne in Hq by congruence.
    by destruct (Hn _ _ Hq). }
  unfold uid_hash_insert. sm_unfold. intros [= <- <-].
  unfold free_uid. sm_unfold. cbn [heap uidhash_table s1].
  erewrite update_ok by apply lookup_insert_eq. cbn [heap].
  erewrite deref_ok by apply lookup_insert_eq.
  change (u_count _ =? 0) with true. unfold uid_hash_remove, kmem_cache_free. sm_unfold.
  cbn [heap uidhash_table]. do 2 f_equal. destruct s as [h tb]. cbn in *. f_equal.
  - rewrite insert_insert_eq. by apply delete_insert_id.
  - apply list_eq. intros b. rewrite list_lookup_fmap.
    assert (Hnot : ∀ b' ch, tb !! b' = Some ch → Forall (λ q, q ≠ new) ch).
    { intros b' ch Hb. apply Forall_forall. intros q Hq ->.
      destruct (ci_chain _ _ _ Hs _ _ _ Hb Hq) as (v & Hv & _). cbn in Hv. congruence. }
    destruct (decide (b = Z.to_nat (__uidhashfn uid))) as [->|].
    + rewrite list_lookup_alter_eq, Hch.
      change (Some (filter (λ q, q ≠ new) (new :: chain)) = Some chain).
      rewrite filter_cons_False by auto.
      by rewrite list_filter_all by eauto.
    + rewrite list_lookup_alter_ne by done. destruct (tb !! b) eqn:E; [|done].
      cbn. by rewrite list_filter_all by eauto.
Qed.

(** [switch_uid] moves the task from its old user to the new one and consumes
    the reference to the new one. *)
Lemma switch_uid_spec t o old new s :
  cache_inv t o s → 0 < t old → 0 < o new →
  ∃ s', switch_uid old new s = (Ok new, s') ∧
    cache_inv (bump (bump t new 1) old (-1)) (bump o new (-1)) s' ∧
    (u_uid <$> heap s' !! new = u_uid <$> heap s !! new).
Proof.
  intros Hs Ht Ho.
  assert (Hlive : ∀ p, 0 < t p + o p → ∃ u, heap s !! p = Some u).
  { intros p Hp. destruct (heap s !! p) as [u|] eqn:E; [eauto|].
    apply (ci_dom _ _ _ Hs) in E. lia. }
  pose proof (ci_pos _ _ _ Hs) as Hpos.
  destruct (Hlive new) as [u Hu]; [specialize (Hpos new); lia|].
  pose proof (ci_refs _ _ _ Hs _ _ Hu) as (Hc & Hpr & _).
  unfold switch_uid. sm_unfold. rewrite (update_ok _ _ _ _ Hu).
  set (s1 := mk_cache _ _).
  assert (H1 : cache_inv (bump t new 1) (bump o new (-1)) s1).
  { pose proof (Hpos new).
    eapply (cache_inv_update _ _ _ _ s new u (λ u, set_processes (u_processes u + 1) u));
      eauto; cbn; autorewrite with kern; try lia.
    intros q Hq. by autorewrite with kern. }
  destruct (heap s1 !! old) as [v|] eqn:Hv.
  2:{ apply (ci_dom _ _ _ H1) in Hv. destruct (decide (old = new)) as [->|];
      autorewrite with kern in Hv; lia. }
  pose proof (ci_refs _ _ _ H1 _ _ Hv) as (Hc' & Hpr' & ?).
  pose proof (ci_pos _ _ _ H1 old).
  rewrite (update_ok _ _ _ _ Hv). set (s2 := mk_cache _ _).
  set (t2 := bump (bump t new 1) old (-1)). set (o2 := bump (bump o new (-1)) old 1).
  assert (Htold : 0 <= bump t new 1 old - 1).
  { destruct (decide (old = new)) as [->|]; autorewrite with kern; lia. }
  assert (H2 : cache_inv t2 o2 s2).
  { eapply (cache_inv_update _ _ _ _ s1 old v (λ u, set_processes (u_processes u - 1) u));
      eauto; cbn; unfold t2, o2; rewrite ?bump_eq; try lia.
    intros q Hq. by rewrite !(bump_ne _ old). }
  destruct (free_uid_spec t2 o2 old s2 H2) as (s' & -> & H3 & Hnone & Hkeep & Hother).
  { unfold o2. rewrite bump_eq. lia. }
  exists s'. split_and!; [done| |].
  2:{ assert (E2 : u_uid <$> heap s2 !! new = u_uid <$> heap s !! new).
      { destruct (decide (old = new)) as [<-|Hne]; cbn.
        - rewrite lookup_insert_eq, Hu. cbn. unfold s1 in Hv. cbn in Hv.
          rewrite lookup_insert_eq in Hv. by simplify_eq.
        - by rewrite lookup_insert_ne, lookup_insert_eq, Hu by done. }
      rewrite <- E2. destruct (decide (old = new)) as [<-|Hne].
      - destruct Hkeep as [Hd|]; [|done]. apply Hnone in Hd. unfold t2, o2 in Hd.
        rewrite !bump_eq in Hd. specialize (Hpos old). lia.
      - by rewrite Hother. }
  eapply cache_inv_ext; [| |exact H3]; [done|].
  intros q. unfold o2. destruct (decide (q = old)) as [->|];
    rewrite ?bump_eq, ?(bump_ne _ old) by done; [lia|done].
Qed.

(** At boot the cache holds [root_user], referenced by the initial task. *)
Lemma uid_cache_init_inv :
  cache_inv (λ p, if decide (p = root_user) then 1 else 0) (λ _, 0) uid_cache_init.
Proof.
  set (init := replicate (Z.to_nat UIDHASH_SZ) ([] : list Z)).
  assert (Hi : ∀ b ch, init !! b = Some ch → ch = [])
    by (intros b ch H; by apply lookup_replicate in H as [? _]).
  assert (Hh : ∀ p u, heap uid_cache_init !! p = Some u →
     p = root_user ∧ u = mk_user 0 1 1 0 0 0 0)
    by (intros p u; cbn; intros [<- <-]%lookup_singleton_Some; done).
  split.
  - done.
  - intros b ch p. cbn [uidhash_table uid_cache_init]. fold init. destruct b as [|b].
    + intros [= <-] ->%list_elem_of_singleton. by exists (mk_user 0 1 1 0 0 0 0).
    + change (alter _ _ _ !! S b) with (init !! S b). intros ->%Hi H. by apply elem_of_nil in H.
  - intros p u [-> ->]%Hh. exists [root_user]. split; [done|]. by left.
  - intros p q u v [-> ->]%Hh [-> ->]%Hh. done.
  - intros p u [-> ->]%Hh. by cbn.
  - intros p. change (heap uid_cache_init) with ({[ root_user := mk_user 0 1 1 0 0 0 0 ]} : gmap Z user_struct).
    intros H. apply lookup_singleton_None in H. by rewrite decide_False.
  - intros p. by destruct (decide (p = root_user)).
Qed.

End Users.
