(* ===== verification/Creds.v ===== *)
(** * Process credentials (kernel/sys.c, security/commoncap.c,
    kernel/capability.c)

    The set*id system calls, the capability rules that follow them, the
    capability system calls, and the credential part of execve.  The
    configuration is the default one: the security hooks are the ones of
    commoncap.c (without CONFIG_SECURITY the [task_setuid] and [task_setgid]
    hooks return 0), keyrings are off, [securebits] is its default.

    The ids of a task come in fours (real, effective, saved, file system), and
    the three capability sets are 32-bit masks; the model groups the fields of
    [struct task_struct] that way.  Ids are [uid_t], unsigned 32-bit; the code
    keeps some in [int] variables but compares them for equality only. *)

From stdpp Require Import prelude numbers list gmap.
From Stdlib Require Import ZArith Lia.
From S2P Require Import Prelude Users.

#[local] Set Default Goal Selector "!".
#[local] Open Scope Z_scope.

Module Creds.

(** ** Capability sets (include/linux/capability.h) *)

Definition CAP_SETGID : Z := 6.
Definition CAP_SETUID : Z := 7.
Definition CAP_SETPCAP : Z := 8.
Definition CAP_SYS_PTRACE : Z := 19.
Definition CAP_SYS_ADMIN : Z := 21.
Definition CAP_SYS_NICE : Z := 23.
Definition CAP_FS_MASK : Z := 0x1f.

Definition CAP_TO_MASK (x : Z) : Z := Z.shiftl 1 (Z.land x 31).
Definition cap_raised (c flag : Z) : bool := negb (Z.land c (CAP_TO_MASK flag) =? 0).
Definition cap_combine (a b : Z) : Z := Z.lor a b.
Definition cap_intersect (a b : Z) : Z := Z.land a b.
Definition cap_issubset (a set : Z) : bool := Z.land a (Z.lnot set) =? 0.
Definition CAP_EMPTY_SET : Z := 0.
Definition CAP_FULL_SET : Z := Z.ones 32.
Definition CAP_INIT_EFF_SET : Z := Z.ldiff (Z.ones 32) (CAP_TO_MASK CAP_SETPCAP).
Definition CAP_INIT_INH_SET : Z := 0.

Definition SECUREBITS_DEFAULT : Z := 0.
Definition SECURE_NOROOT : Z := 0.
Definition SECURE_NO_SETUID_FIXUP : Z := 2.
Definition issecure (x : Z) : bool :=
  negb (Z.land (Z.shiftl 1 x) SECUREBITS_DEFAULT =? 0).

(** ** State *)

Record ids := mk_ids { rid : Z; eid : Z; sid : Z; fsid : Z }.
Definition set_rid v i := mk_ids v (eid i) (sid i) (fsid i).
Definition set_eid v i := mk_ids (rid i) v (sid i) (fsid i).
Definition set_sid v i := mk_ids (rid i) (eid i) v (fsid i).
Definition set_fsid v i := mk_ids (rid i) (eid i) (sid i) v.

Record kcaps := mk_caps { effective : Z; inheritable : Z; permitted : Z }.

Record task_struct := mk_task {
  pid : Z;
  uids : ids;
  gids : ids;
  caps : kcaps;
  keep_capabilities : Z;
  superpriv : bool;          (* PF_SUPERPRIV in flags *)
  user : Z                   (* address of the user_struct *)
}.

Definition on_uids f t := mk_task (pid t) (f (uids t)) (gids t) (caps t)
  (keep_capabilities t) (superpriv t) (user t).
Definition on_gids f t := mk_task (pid t) (uids t) (f (gids t)) (caps t)
  (keep_capabilities t) (superpriv t) (user t).
Definition set_caps c t := mk_task (pid t) (uids t) (gids t) c
  (keep_capabilities t) (superpriv t) (user t).
Definition set_keep k t := mk_task (pid t) (uids t) (gids t) (caps t)
  k (superpriv t) (user t).
Definition set_superpriv t := mk_task (pid t) (uids t) (gids t) (caps t)
  (keep_capabilities t) true (user t).
Definition set_user_ptr u t := mk_task (pid t) (uids t) (gids t) (caps t)
  (keep_capabilities t) (superpriv t) u.

(** What a set*id call sees: [current], [current->mm->dumpable],
    [current->signal->rlim[RLIMIT_NPROC].rlim_cur] and the user cache. *)
Record proc := mk_proc {
  current : task_struct;
  dumpable : Z;
  rlim_nproc : Z;
  users : Users.cache
}.

Definition on_current f s := mk_proc (f (current s)) (dumpable s) (rlim_nproc s) (users s).
Definition set_dumpable d s := mk_proc (current s) d (rlim_nproc s) (users s).
Definition set_users u s := mk_proc (current s) (dumpable s) (rlim_nproc s) u.

Definition uid_ (s : proc) := rid (uids (current s)).
Definition euid_ (s : proc) := eid (uids (current s)).
Definition suid_ (s : proc) := sid (uids (current s)).
Definition fsuid_ (s : proc) := fsid (uids (current s)).
Definition gid_ (s : proc) := rid (gids (current s)).
Definition egid_ (s : proc) := eid (gids (current s)).
Definition sgid_ (s : proc) := sid (gids (current s)).
Definition fsgid_ (s : proc) := fsid (gids (current s)).

Definition upd_current f : SM proc unit := modify (on_current f).
Definition upd_uids f : SM proc unit := upd_current (on_uids f).
Definition upd_gids f : SM proc unit := upd_current (on_gids f).
Definition clear_dumpable : SM proc unit := modify (set_dumpable 0).

(** A user cache operation, inside a task's call. *)
Definition lift_users {A} (m : SM Users.cache A) : SM proc A := λ s,
  let '(r, u) := m (users s) in (r, set_users u s).

(** [(uid_t) -1] *)
Definition NOID : Z := 2 ^ 32 - 1.

Definition capable (cap : Z) : SM proc bool :=
  s ← gets id;
  if cap_raised (effective (caps (current s))) cap
  then _ ← upd_current set_superpriv; mret true
  else mret false.

(** ** security/commoncap.c: the rules after a uid change *)

Inductive setid_flag := LSM_SETID_ID | LSM_SETID_RE | LSM_SETID_RES | LSM_SETID_FS.

Definition cap_emulate_setxuid (old_ruid old_euid old_suid : Z) (t : task_struct)
  : task_struct :=
  let i := uids t in
  let t1 :=
    if ((old_ruid =? 0) || (old_euid =? 0) || (old_suid =? 0)) &&
       (negb (rid i =? 0) && negb (eid i =? 0) && negb (sid i =? 0)) &&
       (keep_capabilities t =? 0)
    then set_caps (mk_caps 0 (inheritable (caps t)) 0) t else t in
  let t2 :=
    if (old_euid =? 0) && negb (eid i =? 0)
    then set_caps (mk_caps 0 (inheritable (caps t1)) (permitted (caps t1))) t1 else t1 in
  if negb (old_euid =? 0) && (eid i =? 0)
  then set_caps (mk_caps (permitted (caps t2)) (inheritable (caps t2))
                   (permitted (caps t2))) t2
  else t2.

Definition cap_setfsuid_fixup (old_fsuid : Z) (t : task_struct) : task_struct :=
  let c := caps t in
  let t1 :=
    if (old_fsuid =? 0) && negb (fsid (uids t) =? 0)
    then set_caps (mk_caps (Z.ldiff (effective c) CAP_FS_MASK)
                     (inheritable c) (permitted c)) t
    else t in
  if negb (old_fsuid =? 0) && (fsid (uids t) =? 0)
  then let c := caps t1 in
       set_caps (mk_caps (Z.lor (effective c) (Z.land (permitted c) CAP_FS_MASK))
                   (inheritable c) (permitted c)) t1
  else t1.

Definition cap_task_post_setuid (old_ruid old_euid old_suid : Z) (flags : setid_flag)
  : SM proc Z :=
  match flags with
  | LSM_SETID_RE | LSM_SETID_ID | LSM_SETID_RES =>
      _ ← when (negb (issecure SECURE_NO_SETUID_FIXUP))
            (upd_current (cap_emulate_setxuid old_ruid old_euid old_suid));
      mret 0
  | LSM_SETID_FS =>
      _ ← when (negb (issecure SECURE_NO_SETUID_FIXUP))
            (upd_current (cap_setfsuid_fixup old_ruid));
      mret 0
  end.

(** ** kernel/sys.c: user ids *)

Definition set_user (kmem : option Z) (new_ruid : Z) (dumpclear : bool) : SM proc Z :=
  r ← lift_users (Users.alloc_uid kmem new_ruid);
  match r with
  | None => fail EAGAIN
  | Some new_user =>
      u ← lift_users (Users.deref new_user);
      s ← gets id;
      if (rlim_nproc s <=? wrap32 (Users.u_processes u)) &&
         negb (new_user =? Users.root_user)
      then _ ← lift_users (Users.free_uid new_user); fail EAGAIN
      else
        p ← lift_users (Users.switch_uid (user (current s)) new_user);
        _ ← upd_current (set_user_ptr p);
        _ ← when dumpclear clear_dumpable;
        _ ← upd_uids (set_rid new_ruid);
        mret 0
  end.

Definition sys_setreuid (kmem : option Z) (ruid euid : Z) : SM proc Z :=
  s0 ← gets id;
  let old_ruid := uid_ s0 in
  let old_euid := euid_ s0 in
  let old_suid := suid_ s0 in
  let new_ruid := if negb (ruid =? NOID) then ruid else old_ruid in
  let new_euid := if negb (euid =? NOID) then euid else old_euid in
  ok1 ← orM ((ruid =? NOID) || (old_ruid =? ruid) || (euid_ s0 =? ruid))
          (capable CAP_SETUID);
  if negb ok1 then fail EPERM else
  ok2 ← orM ((euid =? NOID) || (old_ruid =? euid) || (euid_ s0 =? euid) ||
             (suid_ s0 =? euid)) (capable CAP_SETUID);
  if negb ok2 then fail EPERM else
  _ ← (if negb (new_ruid =? old_ruid)
       then set_user kmem new_ruid (negb (new_euid =? old_euid)) else mret 0);
  _ ← when (negb (new_euid =? old_euid)) clear_dumpable;
  _ ← upd_uids (λ i, set_fsid new_euid (set_eid new_euid i));
  _ ← when (negb (ruid =? NOID) || (negb (euid =? NOID) && negb (euid =? old_ruid)))
        (upd_uids (λ i, set_sid (eid i) i));
  _ ← upd_uids (λ i, set_fsid (eid i) i);
  cap_task_post_setuid old_ruid old_euid old_suid LSM_SETID_RE.

Definition sys_setuid (kmem : option Z) (uid : Z) : SM proc Z :=
  s0 ← gets id;
  let old_euid := euid_ s0 in
  let old_ruid := uid_ s0 in
  let old_suid := suid_ s0 in
  c ← capable CAP_SETUID;
  new_suid ←
    (if c : bool then
       _ ← (if negb (uid =? old_ruid)
            then set_user kmem uid (negb (old_euid =? uid)) else mret 0);
       mret uid
     else if negb (uid =? uid_ s0) && negb (uid =? old_suid)
     then fail EPERM
     else mret old_suid);
  _ ← when (negb (old_euid =? uid)) clear_dumpable;
  _ ← upd_uids (λ i, set_fsid uid (set_eid uid i));
  _ ← upd_uids (set_sid new_suid);
  cap_task_post_setuid old_ruid old_euid old_suid LSM_SETID_ID.

(** [x != -1 && x != id && x != eid && x != sid] *)
Definition bad_res_id (x : Z) (i : ids) : bool :=
  negb (x =? NOID) && negb (x =? rid i) && negb (x =? eid i) && negb (x =? sid i).

Definition sys_setresuid (kmem : option Z) (ruid euid suid : Z) : SM proc Z :=
  s0 ← gets id;
  let old_ruid := uid_ s0 in
  let old_euid := euid_ s0 in
  let old_suid := suid_ s0 in
  c ← capable CAP_SETUID;
  if negb c && (bad_res_id ruid (uids (current s0)) ||
                bad_res_id euid (uids (current s0)) ||
                bad_res_id suid (uids (current s0)))
  then fail EPERM else
  _ ← (if negb (ruid =? NOID) && negb (ruid =? uid_ s0)
       then set_user kmem ruid (negb (euid =? euid_ s0)) else mret 0);
  _ ← when (negb (euid =? NOID))
        (_ ← when (negb (euid =? euid_ s0)) clear_dumpable;
         upd_uids (set_eid euid));
  _ ← upd_uids (λ i, set_fsid (eid i) i);
  _ ← when (negb (suid =? NOID)) (upd_uids (set_sid suid));
  cap_task_post_setuid old_ruid old_euid old_suid LSM_SETID_RES.

Definition sys_setfsuid (uid : Z) : SM proc Z :=
  s0 ← gets id;
  let old_fsuid := fsuid_ s0 in
  ok ← orM ((uid =? uid_ s0) || (uid =? euid_ s0) || (uid =? suid_ s0) ||
            (uid =? fsuid_ s0)) (capable CAP_SETUID);
  _ ← when ok
        (_ ← when (negb (uid =? old_fsuid)) clear_dumpable;
         upd_uids (set_fsid uid));
  _ ← cap_task_post_setuid old_fsuid NOID NOID LSM_SETID_FS;
  mret old_fsuid.

(** ** kernel/sys.c: group ids *)

Definition sys_setregid (rgid egid : Z) : SM proc Z :=
  s0 ← gets id;
  let old_rgid := gid_ s0 in
  let old_egid := egid_ s0 in
  ok1 ← orM ((rgid =? NOID) || (old_rgid =? rgid) || (egid_ s0 =? rgid))
          (capable CAP_SETGID);
  if negb ok1 then fail EPERM else
  let new_rgid := if negb (rgid =? NOID) then rgid else old_rgid in
  ok2 ← orM ((egid =? NOID) || (old_rgid =? egid) || (egid_ s0 =? egid) ||
             (sgid_ s0 =? egid)) (capable CAP_SETGID);
  if negb ok2 then fail EPERM else
  let new_egid := if negb (egid =? NOID) then egid else old_egid in
  _ ← when (negb (new_egid =? old_egid)) clear_dumpable;
  _ ← when (negb (rgid =? NOID) || (negb (egid =? NOID) && negb (egid =? old_rgid)))
        (upd_gids (set_sid new_egid));
  _ ← upd_gids (set_fsid new_egid);
  _ ← upd_gids (set_eid new_egid);
  _ ← upd_gids (set_rid new_rgid);
  mret 0.

Definition sys_setgid (gid : Z) : SM proc Z :=
  s0 ← gets id;
  let old_egid := egid_ s0 in
  c ← capable CAP_SETGID;
  if c : bool then
    _ ← when (negb (old_egid =? gid)) clear_dumpable;
    _ ← upd_gids (λ _, mk_ids gid gid gid gid);
    mret 0
  else if (gid =? gid_ s0) || (gid =? sgid_ s0) then
    _ ← when (negb (old_egid =? gid)) clear_dumpable;
    _ ← upd_gids (λ i, set_eid gid (set_fsid gid i));
    mret 0
  else fail EPERM.

Definition sys_setresgid (rgid egid sgid : Z) : SM proc Z :=
  s0 ← gets id;
  c ← capable CAP_SETGID;
  if negb c && (bad_res_id rgid (gids (current s0)) ||
                bad_res_id egid (gids (current s0)) ||
                bad_res_id sgid (gids (current s0)))
  then fail EPERM else
  _ ← when (negb (egid =? NOID))
        (_ ← when (negb (egid =? egid_ s0)) clear_dumpable;
         upd_gids (set_eid egid));
  _ ← upd_gids (λ i, set_fsid (eid i) i);
  _ ← when (negb (rgid =? NOID)) (upd_gids (set_rid rgid));
  _ ← when (negb (sgid =? NOID)) (upd_gids (set_sid sgid));
  mret 0.

Definition sys_setfsgid (gid : Z) : SM proc Z :=
  s0 ← gets id;
  let old_fsgid := fsgid_ s0 in
  ok ← orM ((gid =? gid_ s0) || (gid =? egid_ s0) || (gid =? sgid_ s0) ||
            (gid =? fsgid_ s0)) (capable CAP_SETGID);
  _ ← when ok
        (_ ← when (negb (gid =? old_fsgid)) clear_dumpable;
         upd_gids (set_fsid gid));
  mret old_fsgid.

(** ** security/commoncap.c: execve *)

Definition LSM_UNSAFE_PTRACE_CAP : Z := 4.

Record linux_binprm := mk_bprm {
  e_uid : Z;
  e_gid : Z;
  bprm_caps : kcaps
}.

Definition cap_bprm_set_security (b : linux_binprm) : SM proc linux_binprm :=
  s ← gets id;
  let c0 := mk_caps 0 0 0 in
  if issecure SECURE_NOROOT then mret (mk_bprm (e_uid b) (e_gid b) c0) else
  let c1 :=
    if (e_uid b =? 0) || (uid_ s =? 0)
    then mk_caps (effective c0) CAP_FULL_SET CAP_FULL_SET else c0 in
  let c2 :=
    if e_uid b =? 0 then mk_caps CAP_FULL_SET (inheritable c1) (permitted c1) else c1 in
  mret (mk_bprm (e_uid b) (e_gid b) c2).

Definition cap_bprm_apply_creds (cap_bset unsafe : Z) (b : linux_binprm) : SM proc unit :=
  s0 ← gets id;
  let t0 := current s0 in
  let new_permitted := cap_intersect (permitted (bprm_caps b)) cap_bset in
  let working := cap_intersect (inheritable (bprm_caps b)) (inheritable (caps t0)) in
  let new_permitted := cap_combine new_permitted working in
  '(eu, eg, np) ←
    (if negb (e_uid b =? uid_ s0) || negb (e_gid b =? gid_ s0) ||
        negb (cap_issubset new_permitted (permitted (caps t0)))
     then
       _ ← clear_dumpable;
       if negb (Z.land unsafe (Z.lnot LSM_UNSAFE_PTRACE_CAP) =? 0) then
         c1 ← capable CAP_SETUID;
         c2 ← capable CAP_SETPCAP;
         mret (if c1 : bool then e_uid b else uid_ s0,
               if c1 : bool then e_gid b else gid_ s0,
               if c2 : bool then new_permitted
               else cap_intersect new_permitted (permitted (caps t0)))
       else mret (e_uid b, e_gid b, new_permitted)
     else mret (e_uid b, e_gid b, new_permitted));
  _ ← upd_uids (λ i, mk_ids (rid i) eu eu eu);
  _ ← upd_gids (λ i, mk_ids (rid i) eg eg eg);
  _ ← when (negb (pid t0 =? 1))
        (upd_current (λ t, set_caps (mk_caps (cap_intersect np (effective (bprm_caps b)))
                                       (inheritable (caps t)) np) t));
  upd_current (set_keep 0).

Definition cap_bprm_secureexec (s : proc) : bool :=
  negb (euid_ s =? uid_ s) || negb (egid_ s =? gid_ s).

Definition cap_task_reparent_to_init (t : task_struct) : task_struct :=
  set_keep 0 (set_caps (mk_caps CAP_INIT_EFF_SET CAP_INIT_INH_SET CAP_FULL_SET) t).

Definition cap_ptrace (child : task_struct) : SM proc Z :=
  s ← gets id;
  ok ← orM (cap_issubset (permitted (caps child)) (permitted (caps (current s))))
         (capable CAP_SYS_PTRACE);
  if negb ok then fail EPERM else mret 0.

Definition cap_syslog (type : Z) : SM proc Z :=
  ok ← orM (negb (negb (type =? 3) && negb (type =? 10))) (capable CAP_SYS_ADMIN);
  if negb ok then fail EPERM else mret 0.

(** ** kernel/sys.c: the part of prctl that changes credentials *)

Definition PR_SET_DUMPABLE : Z := 4.
Definition PR_GET_DUMPABLE : Z := 3.
Definition PR_GET_KEEPCAPS : Z := 7.
Definition PR_SET_KEEPCAPS : Z := 8.

Definition prctl_dumpable (option arg2 : Z) : SM proc Z :=
  s ← gets id;
  if option =? PR_GET_DUMPABLE then
    mret (if negb (dumpable s =? 0) then 1 else 0)
  else
    if negb (arg2 =? 0) && negb (arg2 =? 1) then fail EINVAL
    else _ ← modify (set_dumpable arg2); mret 0.

Definition prctl_keepcaps (option arg2 : Z) : SM proc Z :=
  s ← gets id;
  if option =? PR_GET_KEEPCAPS then
    mret (if negb (keep_capabilities (current s) =? 0) then 1 else 0)
  else
    if negb (arg2 =? 0) && negb (arg2 =? 1) then fail EINVAL
    else _ ← upd_current (set_keep arg2); mret 0.

Definition prctl_creds (option arg2 : Z) : SM proc Z :=
  if (option =? PR_GET_DUMPABLE) || (option =? PR_SET_DUMPABLE)
  then prctl_dumpable option arg2
  else if (option =? PR_GET_KEEPCAPS) || (option =? PR_SET_KEEPCAPS)
  then prctl_keepcaps option arg2
  else fail EINVAL.

End Creds.

(** ** kernel/capability.c: the capability system calls

    The state is the task table: every task by pid, the thread groups in
    task-list order (each the [next_thread] ring, the group leader first,
    [init_task] not included), and for every process group the leaders
    attached to it, in [pid_list] order.  The argument structs are given by
    value, [None] for a faulting user pointer. *)

Module Capset.
Import Creds.

Record table := mk_table {
  tasks : gmap Z task_struct;
  thread_groups : list (list Z);
  pgrp_leaders : gmap Z (list Z);
  current_pid : Z
}.

Definition _LINUX_CAPABILITY_VERSION : Z := 0x19980330.

Record cap_user_header := mk_header { version : Z; hdr_pid : Z }.

Definition set_tasks m s := mk_table m (thread_groups s) (pgrp_leaders s) (current_pid s).

Definition get_task (p : Z) : SM table task_struct := λ s,
  match tasks s !! p with Some t => (Ok t, s) | None => (Bug, s) end.
Definition put_task (p : Z) (t : task_struct) : SM table unit :=
  modify (λ s, set_tasks (<[p := t]> (tasks s)) s).

Definition capable (cap : Z) : SM table bool :=
  s ← gets id;
  t ← get_task (current_pid s);
  if cap_raised (effective (caps t)) cap
  then _ ← put_task (current_pid s) (set_superpriv t); mret true
  else mret false.

(** [cap_capset_check]: 0 or -EPERM, as a [bool] (true is 0). *)
Definition cap_capset_check (cur target : task_struct) (new : kcaps) : bool :=
  cap_issubset (inheritable new)
    (cap_combine (inheritable (caps target)) (permitted (caps cur))) &&
  cap_issubset (permitted new)
    (cap_combine (permitted (caps target)) (permitted (caps cur))) &&
  cap_issubset (effective new) (permitted new).

Definition cap_capset_set (target : task_struct) (new : kcaps) : task_struct :=
  set_caps new target.

(** [if (!check(target)) { set(target); ... }]: whether the set was done. *)
Definition check_and_set (p : Z) (new : kcaps) : SM table bool :=
  s ← gets id;
  cur ← get_task (current_pid s);
  target ← get_task p;
  if cap_capset_check cur target new
  then _ ← put_task p (cap_capset_set target new); mret true
  else mret false.

(** [while ((target = next_thread(target)) != g)]: [rest] are the threads of
    the ring after [g]. *)
Fixpoint pg_threads (rest : list Z) (new : kcaps) (ret : Z) (found : bool)
  : SM table (Z * bool) :=
  match rest with
  | [] => mret (ret, found)
  | target :: rest' =>
      ok ← check_and_set target new;
      pg_threads rest' new (if ok : bool then 0 else ret) true
  end.

(** The threads of [g]'s group other than [g], in ring order from [g]. *)
Fixpoint ring_after (g : Z) (groups : list (list Z)) : list Z :=
  match groups with
  | [] => []
  | ring :: rest =>
      match ring with
      | leader :: others => if leader =? g then others else ring_after g rest
      | [] => ring_after g rest
      end
  end.

Fixpoint pg_leaders (leaders : list Z) (new : kcaps) (ret : Z) (found : bool)
  : SM table (Z * bool) :=
  match leaders with
  | [] => mret (ret, found)
  | g :: rest =>
      s ← gets id;
      '(ret', found') ← pg_threads (ring_after g (thread_groups s)) new ret found;
      pg_leaders rest new ret' found'
  end.

Definition cap_set_pg (pgrp : Z) (new : kcaps) : SM table Z :=
  s ← gets id;
  '(ret, found) ← pg_leaders (default [] (pgrp_leaders s !! pgrp)) new (- EPERM) false;
  if negb found || (ret =? 0) then mret 0 else fail (- ret).

Fixpoint all_threads (l : list Z) (new : kcaps) (ret : Z) (found : bool)
  : SM table (Z * bool) :=
  match l with
  | [] => mret (ret, found)
  | target :: rest =>
      s ← gets id;
      if (target =? current_pid s) || (target =? 1)
      then all_threads rest new ret found
      else
        ok ← check_and_set target new;
        all_threads rest new (if ok : bool then 0 else ret) true
  end.

Definition cap_set_all (new : kcaps) : SM table Z :=
  s ← gets id;
  '(ret, found) ← all_threads (concat (thread_groups s)) new (- EPERM) false;
  if negb found || (ret =? 0) then mret 0 else fail (- ret).

(** A version mismatch also writes the kernel's version back to the header;
    [hdr_writable] is whether that user access succeeds. *)
Definition sys_capset (header : option cap_user_header) (hdr_writable : bool)
  (data : option kcaps) : SM table Z :=
  match header with
  | None => fail EFAULT
  | Some h =>
      if negb (version h =? _LINUX_CAPABILITY_VERSION)
      then fail (if hdr_writable then EINVAL else EFAULT) else
      s ← gets id;
      let pid := hdr_pid h in
      ok ← orM ((pid =? 0) || (pid =? current_pid s)) (capable CAP_SETPCAP);
      if negb ok then fail EPERM else
      match data with
      | None => fail EFAULT
      | Some new =>
          if pid <? 0 then
            if pid =? -1 then cap_set_all new else cap_set_pg (- pid) new
          else if (0 <? pid) && negb (pid =? current_pid s) then
            match tasks s !! pid with
            | None => fail ESRCH
            | Some _ =>
                ok ← check_and_set pid new;
                if ok : bool then mret 0 else fail EPERM
            end
          else
            ok ← check_and_set (current_pid s) new;
            if ok : bool then mret 0 else fail EPERM
      end
  end.

Definition cap_capget (target : task_struct) : kcaps := caps target.

Definition sys_capget (header : option cap_user_header)
  (hdr_writable dataptr_ok : bool) : SM table kcaps :=
  match header with
  | None => fail EFAULT
  | Some h =>
      if negb (version h =? _LINUX_CAPABILITY_VERSION)
      then fail (if hdr_writable then EINVAL else EFAULT) else
      if hdr_pid h <? 0 then fail EINVAL else
      s ← gets id;
      if negb (hdr_pid h =? 0) && negb (hdr_pid h =? current_pid s) then
        match tasks s !! hdr_pid h with
        | None => fail ESRCH
        | Some target => if dataptr_ok then mret (cap_capget target) else fail EFAULT
        end
      else
        target ← get_task (current_pid s);
        if dataptr_ok then mret (cap_capget target) else fail EFAULT
  end.

End Capset.
