(* ===== verification/CredFacts.v ===== *)
(** * Theorems on process credentials

    Confinement of unprivileged tasks under any sequence of set*id calls,
    permanence of a dropped root identity, atomicity of failing calls, user
    accounting, and the capability calls. *)

From stdpp Require Import prelude numbers list gmap.
From Stdlib Require Import ZArith Lia.
From S2P Require Import Prelude Users Creds.

#[local] Set Default Goal Selector "!".
#[local] Open Scope Z_scope.

Module CredFacts.
Import Creds.

(** Runs the straight-line part of a call. *)
Ltac cr_unfold :=
  unfold upd_uids, upd_gids, upd_current, clear_dumpable, id; sm_unfold.

(** ** Capability sets as sets of bits *)

Definition cap_sub (a b : Z) : Prop := ∀ i, 0 <= i → Z.testbit a i = true → Z.testbit b i = true.

Lemma cap_issubset_spec a b : cap_issubset a b = true ↔ cap_sub a b.
Proof.
  unfold cap_issubset, cap_sub. rewrite Z.eqb_eq. split.
  - intros H i Hi Ha. apply (f_equal (λ x, Z.testbit x i)) in H.
    rewrite Z.land_spec, Z.lnot_spec, Z.bits_0, Ha in H by done. cbn in H.
    by apply negb_false_iff in H.
  - intros H. apply Z.bits_inj'. intros i Hi.
    rewrite Z.land_spec, Z.lnot_spec, Z.bits_0 by done.
    specialize (H i Hi). destruct (Z.testbit a i); [by rewrite H|done].
Qed.

#[export] Instance cap_sub_preorder : PreOrder cap_sub.
Proof. split; [by intros a i|]. intros a b c H1 H2 i Hi Ha. eauto. Qed.

Lemma cap_sub_0 a : cap_sub 0 a.
Proof. intros i _ H. by rewrite Z.bits_0 in H. Qed.

Lemma cap_raised_spec c k : 0 <= k < 32 → cap_raised c k = Z.testbit c k.
Proof.
  intros Hk. unfold cap_raised, CAP_TO_MASK.
  change 31 with (2 ^ 5 - 1). rewrite land_mask, Z.mod_small by lia.
  rewrite Z.shiftl_1_l. destruct (Z.testbit c k) eqn:E.
  - apply negb_true_iff, Z.eqb_neq. intros H. apply (f_equal (λ x, Z.testbit x k)) in H.
    rewrite Z.land_spec, E, Z.pow2_bits_true, Z.bits_0 in H by lia. done.
  - apply negb_false_iff, Z.eqb_eq, Z.bits_inj'. intros i Hi.
    rewrite Z.land_spec, Z.bits_0. destruct (decide (i = k)) as [->|].
    + by rewrite E.
    + rewrite Z.pow2_bits_false by lia. by rewrite andb_false_r.
Qed.

(** ** Confinement *)

(** A task with neither CAP_SETUID nor CAP_SETGID in reach. *)
Definition unprivileged (t : task_struct) : Prop :=
  cap_sub (effective (caps t)) (permitted (caps t)) ∧
  Z.testbit (permitted (caps t)) CAP_SETUID = false ∧
  Z.testbit (permitted (caps t)) CAP_SETGID = false.

(** [j] takes its ids from [i]; only the file system id may keep a fourth value. *)
Definition ids_within (i j : ids) : Prop :=
  (∀ x, x ∈ [rid j; eid j; sid j] → x ∈ [rid i; eid i; sid i]) ∧
  fsid j ∈ [rid i; eid i; sid i; fsid i].

Record confined (t t' : task_struct) : Prop := {
  cf_uids : ids_within (uids t) (uids t');
  cf_gids : ids_within (gids t) (gids t');
  cf_perm : cap_sub (permitted (caps t')) (permitted (caps t));
  cf_eff : cap_sub (effective (caps t')) (permitted (caps t'))
}.

Lemma ids_within_refl i : ids_within i i.
Proof. split; [done|]. set_solver. Qed.

Lemma ids_within_trans i j k : ids_within i j → ids_within j k → ids_within i k.
Proof.
  intros [Hi Fi] [Hj Fj]. split; [by auto|].
  change (fsid k ∈ [rid j; eid j; sid j] ++ [fsid j]) in Fj.
  change (fsid k ∈ [rid i; eid i; sid i] ++ [fsid i]).
  apply elem_of_app in Fj as [?%Hi | ->%list_elem_of_singleton]; [|done].
  apply elem_of_app. by left.
Qed.

(** How the calls build the new ids. *)
Lemma ids_within_intro i a b c d :
  a ∈ [rid i; eid i; sid i] → b ∈ [rid i; eid i; sid i] → c ∈ [rid i; eid i; sid i] →
  d ∈ [rid i; eid i; sid i; fsid i] → ids_within i (mk_ids a b c d).
Proof.
  intros Ha Hb Hc Hd. split; [|done]. intros x. cbn.
  intros [-> | [-> | [-> | []%elem_of_nil]%elem_of_cons]%elem_of_cons]%elem_of_cons; done.
Qed.

Lemma confined_unprivileged t t' : unprivileged t → confined t t' → unprivileged t'.
Proof.
  intros (He & Hu & Hg) [_ _ Hp Hpe]. split_and!; [done| |].
  - destruct (Z.testbit (permitted (caps t')) CAP_SETUID) eqn:E; [|done].
    apply Hp in E; [congruence|done].
  - destruct (Z.testbit (permitted (caps t')) CAP_SETGID) eqn:E; [|done].
    apply Hp in E; [congruence|done].
Qed.

Lemma confined_trans t1 t2 t3 : confined t1 t2 → confined t2 t3 → confined t1 t3.
Proof.
  intros [] []. split; [by eapply ids_within_trans..| |done]. by etrans.
Qed.

Lemma capable_no cap s : 0 <= cap < 32 →
  cap_sub (effective (caps (current s))) (permitted (caps (current s))) →
  Z.testbit (permitted (caps (current s))) cap = false →
  capable cap s = (Ok false, s).
Proof.
  intros Hc He Hp. unfold capable. sm_unfold. rewrite cap_raised_spec by done.
  destruct (Z.testbit (effective _) cap) eqn:E; [|done].
  apply He in E; [|lia]. unfold id in E. congruence.
Qed.

(** [set_user] changes nothing of the task but its real uid and user. *)
Lemma set_user_frame kmem r d s res s' : set_user kmem r d s = (res, s') →
  ∃ u rr, current s' = set_user_ptr u (on_uids (set_rid rr) (current s)) ∧
    (rr = r ∨ rr = uid_ s) ∧ (∀ v, res = Ok v → rr = r).
Proof.
  unfold set_user, lift_users. cr_unfold.
  assert (E0 : current s = set_user_ptr (user (current s))
                 (on_uids (set_rid (uid_ s)) (current s))) by (by destruct s as [[? [] [] [] ? ? ?] ? ?]).
  repeat case_match; intros [= <- <-]; simplify_eq/=;
    try (eexists _, _; split; [exact E0|]; split; [by right|intros v Hv; by simplify_eq]);
    (eexists _, r; split; [reflexivity|]; by auto).
Qed.

#[local] Arguments cap_task_post_setuid : simpl never.
#[local] Arguments capable : simpl never.

Lemma post_setuid_eq a b c f s : f ≠ LSM_SETID_FS →
  cap_task_post_setuid a b c f s = (Ok 0, on_current (cap_emulate_setxuid a b c) s).
Proof. by destruct f. Qed.

Lemma post_setfsuid_eq a b c s :
  cap_task_post_setuid a b c LSM_SETID_FS s = (Ok 0, on_current (cap_setfsuid_fixup a) s).
Proof. done. Qed.

Lemma emulate_setxuid_frame a b c t :
  let t' := cap_emulate_setxuid a b c t in
  uids t' = uids t ∧ gids t' = gids t ∧ user t' = user t ∧
  (permitted (caps t') = permitted (caps t) ∨ permitted (caps t') = 0) ∧
  (effective (caps t') = effective (caps t) ∧ permitted (caps t') = permitted (caps t) ∨
   effective (caps t') = 0 ∨ effective (caps t') = permitted (caps t')).
Proof. unfold cap_emulate_setxuid. repeat case_match; cbn; split_and!; auto. Qed.

Lemma setfsuid_fixup_frame a t :
  let t' := cap_setfsuid_fixup a t in
  uids t' = uids t ∧ gids t' = gids t ∧ user t' = user t ∧
  permitted (caps t') = permitted (caps t) ∧
  (cap_sub (effective (caps t)) (permitted (caps t)) →
   cap_sub (effective (caps t')) (permitted (caps t'))).
Proof.
  unfold cap_setfsuid_fixup. repeat case_match; cbn; split_and!; auto; intros Hsub i Hi.
  all: rewrite ?Z.lor_spec, ?Z.ldiff_spec, ?Z.land_spec, ?orb_true_iff, ?andb_true_iff;
    intuition eauto.
Qed.

Lemma emulate_uids a b c t : uids (cap_emulate_setxuid a b c t) = uids t.
Proof. apply emulate_setxuid_frame. Qed.
Lemma emulate_user a b c t : user (cap_emulate_setxuid a b c t) = user t.
Proof. apply emulate_setxuid_frame. Qed.
Lemma fixup_uids a t : uids (cap_setfsuid_fixup a t) = uids t.
Proof. apply setfsuid_fixup_frame. Qed.
Lemma fixup_user a t : user (cap_setfsuid_fixup a t) = user t.
Proof. apply setfsuid_fixup_frame. Qed.
#[local] Hint Rewrite emulate_uids emulate_user fixup_uids fixup_user : kern.

Lemma confined_post (f : task_struct → task_struct) t t' :
  cap_sub (effective (caps t)) (permitted (caps t)) →
  ids_within (uids t) (uids t') → ids_within (gids t) (gids t') → caps t' = caps t →
  (∃ a b c, f = cap_emulate_setxuid a b c) ∨ (∃ a, f = cap_setfsuid_fixup a) ∨ f = id →
  confined t (f t').
Proof.
  intros He Hu Hg Hc [(a & b & c & ->)|[(a & ->)| ->]].
  - destruct (emulate_setxuid_frame a b c t') as (E1 & E2 & _ & P & E).
    split; rewrite ?E1, ?E2; try done; rewrite Hc in *.
    + destruct P as [-> | ->]; [done|apply cap_sub_0].
    + destruct E as [[-> ->] | [-> | ->]]; [done|apply cap_sub_0|done].
  - destruct (setfsuid_fixup_frame a t') as (E1 & E2 & _ & P & E).
    split; rewrite ?E1, ?E2; try done; [by rewrite P, Hc|]. apply E. by rewrite Hc.
  - split; unfold id; try done; by rewrite Hc.
Qed.

(** ** Sequences of calls *)

Inductive call :=
| Setreuid (kmem : option Z) (ruid euid : Z)
| Setuid (kmem : option Z) (uid : Z)
| Setresuid (kmem : option Z) (ruid euid suid : Z)
| Setfsuid (uid : Z)
| Setregid (rgid egid : Z)
| Setgid (gid : Z)
| Setresgid (rgid egid sgid : Z)
| Setfsgid (gid : Z)
| Prctl (option arg2 : Z).

Definition do_call (c : call) : SM proc Z :=
  match c with
  | Setreuid k r e => sys_setreuid k r e
  | Setuid k u => sys_setuid k u
  | Setresuid k r e u => sys_setresuid k r e u
  | Setfsuid u => sys_setfsuid u
  | Setregid r e => sys_setregid r e
  | Setgid g => sys_setgid g
  | Setresgid r e g => sys_setresgid r e g
  | Setfsgid g => sys_setfsgid g
  | Prctl o a => prctl_creds o a
  end.

(** The program makes its calls one after the other and may ignore errors. *)
Definition run_calls (cs : list call) (s : proc) : proc :=
  foldl (λ s c, (do_call c s).2) s cs.

Lemma in_four (a b c d x : Z) : x ∈ [a; b; c] → x ∈ [a; b; c; d].
Proof. rewrite !elem_of_cons. tauto. Qed.

(** The optional [set_user] step of the set*uid calls. *)
Lemma opt_set_user_frame s (c : bool) kmem r d res s1 :
  (if c then set_user kmem r d else mret 0) s = (res, s1) →
  ∃ u rr, current s1 = set_user_ptr u (on_uids (set_rid rr) (current s)) ∧
    (rr = r ∧ c = true ∨ rr = uid_ s) ∧ (∀ v, res = Ok v → c = true → rr = r).
Proof.
  destruct c; intros H.
  - apply set_user_frame in H as (u & rr & ? & H0 & H1). exists u, rr.
    split_and!; [done|tauto|]. intros v Hv _. by apply (H1 v).
  - injection H as <- <-. exists (user (current s)), (uid_ s). split_and!; [|by auto|done].
    by destruct s as [[? [] ? ? ? ? ?] ? ? ?].
Qed.

Lemma good_res_id x i : bad_res_id x i = false → x ≠ NOID → x ∈ [rid i; eid i; sid i].
Proof.
  unfold bad_res_id. rewrite !andb_false_iff, !negb_false_iff, !Z.eqb_eq.
  rewrite !elem_of_cons. tauto.
Qed.

Section one_call.
Context (s : proc) (Hpriv : unprivileged (current s)).

#[local] Lemma no_setuid : ∀ s', caps (current s') = caps (current s) →
  capable CAP_SETUID s' = (Ok false, s').
Proof. intros s' E. destruct Hpriv as (?&?&?). apply capable_no; rewrite ?E; done. Qed.
#[local] Lemma no_setgid : ∀ s', caps (current s') = caps (current s) →
  capable CAP_SETGID s' = (Ok false, s').
Proof. intros s' E. destruct Hpriv as (?&?&?). apply capable_no; rewrite ?E; done. Qed.

Lemma confined_refl : confined (current s) (current s).
Proof. destruct Hpriv as (? & _). split; try done; apply ids_within_refl. Qed.

#[local] Ltac mem :=
  unfold uid_, euid_, suid_, fsuid_, gid_, egid_, sgid_, fsgid_ in *;
  rewrite ?orb_true_iff, ?orb_false_iff, ?andb_true_iff, ?negb_true_iff, ?negb_false_iff,
    ?Z.eqb_eq, ?Z.eqb_neq in *;
  rewrite ?elem_of_cons in *; intuition congruence.

(** Membership in the starting ids by inspection of the list. *)
#[local] Ltac pick :=
  cbn; unfold uid_, euid_, suid_, fsuid_, gid_, egid_, sgid_, fsgid_ in *; subst;
  first [ done | assumption | by left | by right; left | by right; right; left
        | by right; right; right; left
        | by auto | by apply in_four; auto | exfalso; congruence ].

#[local] Ltac opt_set_user_step :=
  lazymatch goal with
  | |- context [(if ?c then set_user ?k ?r ?d else ?x) s] =>
      let E := fresh in
      destruct ((if c then set_user k r d else x) s) as [res s1] eqn:E;
      change x with (mret (M := SM proc) 0) in E;
      apply opt_set_user_frame in E as (up & rr & Hc & Hrr & Hok)
  end.

#[local] Ltac post :=
  lazymatch goal with
  | |- confined _ (cap_emulate_setxuid ?a ?b ?c ?t) =>
      apply (confined_post (cap_emulate_setxuid a b c))
  | |- confined _ (cap_setfsuid_fixup ?a ?t) => apply (confined_post (cap_setfsuid_fixup a))
  | |- confined _ _ => apply (confined_post id)
  end; cbn; [done| |try apply ids_within_refl|done|by eauto].

Lemma confined_setresuid k r e u :
  confined (current s) (current (sys_setresuid k r e u s).2).
Proof.
  destruct Hpriv as (He & _). unfold sys_setresuid. cr_unfold. rewrite no_setuid by done.
  cbn [negb andb].
  destruct (bad_res_id r _ || bad_res_id e _ || bad_res_id u _) eqn:Hbad;
    [by apply confined_refl|].
  apply orb_false_iff in Hbad as [[Hr He']%orb_false_iff Hu].
  pose proof (good_res_id _ _ Hr) as Gr. pose proof (good_res_id _ _ He') as Ge.
  pose proof (good_res_id _ _ Hu) as Gu. clear Hr He' Hu.
  opt_set_user_step.
  assert (rr ∈ [uid_ s; euid_ s; suid_ s]).
  { destruct Hrr as [[-> [Hn _]%andb_true_iff]| ->]; [|left].
    by apply Gr, Z.eqb_neq, negb_true_iff. }
  destruct res; cbn [snd].
  - destruct (Z.eqb_spec e NOID), (Z.eqb_spec e (euid_ s)), (Z.eqb_spec u NOID);
      cbn; rewrite post_setuid_eq by done; cbn; rewrite Hc; post; cbn; apply ids_within_intro; pick.
  - rewrite Hc. post. apply ids_within_intro; pick.
  - rewrite Hc. post. apply ids_within_intro; pick.
Qed.

Lemma confined_setuid k u : confined (current s) (current (sys_setuid k u s).2).
Proof.
  destruct Hpriv as (He & _). unfold sys_setuid. cr_unfold. rewrite no_setuid by done.
  destruct (negb (u =? uid_ s) && negb (u =? suid_ s)) eqn:Hu;
    [by apply confined_refl|].
  rewrite andb_false_iff, !negb_false_iff, !Z.eqb_eq in Hu.
  destruct Hu as [Hu|Hu], (Z.eqb_spec (euid_ s) u); cbn; rewrite post_setuid_eq by done; cbn; post; cbn; apply ids_within_intro; pick.
Qed.

Lemma confined_setreuid k r e : confined (current s) (current (sys_setreuid k r e s).2).
Proof.
  destruct Hpriv as (He & _). unfold sys_setreuid. cr_unfold.
  set (cr := (r =? NOID) || _ || _). set (ce := (e =? NOID) || _ || _ || _).
  set (nr := if negb (r =? NOID) then r else uid_ s).
  set (ne := if negb (e =? NOID) then e else euid_ s).
  destruct cr eqn:Hr; [|by cbv beta iota; cbn [negb]; rewrite no_setuid; [apply confined_refl|]].
  destruct ce eqn:He'; [|by cbv beta iota; cbn [negb]; rewrite no_setuid; [apply confined_refl|]].
  assert (Hnr : nr ∈ [uid_ s; euid_ s; suid_ s]).
  { unfold nr, cr in *. destruct (Z.eqb_spec r NOID); cbn in *; mem. }
  assert (Hne : ne ∈ [uid_ s; euid_ s; suid_ s]).
  { unfold ne, ce in *. destruct (Z.eqb_spec e NOID); cbn in *; mem. }
  clearbody nr ne cr ce. cbn [negb]. opt_set_user_step.
  assert (rr ∈ [uid_ s; euid_ s; suid_ s]) by (destruct Hrr as [[-> _]| ->]; mem).
  destruct res; cbn [snd].
  - destruct (ne =? euid_ s), (negb (r =? NOID) || _);
      cbn; rewrite post_setuid_eq by done; cbn; rewrite Hc; post; cbn; apply ids_within_intro; pick.
  - rewrite Hc. post. apply ids_within_intro; pick.
  - rewrite Hc. post. apply ids_within_intro; pick.
Qed.

Lemma confined_setfsuid u : confined (current s) (current (sys_setfsuid u s).2).
Proof.
  destruct Hpriv as (He & _). unfold sys_setfsuid. cr_unfold.
  destruct ((u =? uid_ s) || (u =? euid_ s) || (u =? suid_ s) || (u =? fsuid_ s)) eqn:Hu;
    [rewrite !orb_true_iff, !Z.eqb_eq in Hu;
     destruct (u =? fsuid_ s), Hu as [[[Hu|Hu]|Hu]|Hu]|]; cbn; rewrite ?no_setuid by done; rewrite ?post_setfsuid_eq; cbn; post; cbn;
    try apply ids_within_refl; apply ids_within_intro; pick.
Qed.

Lemma confined_setregid r e : confined (current s) (current (sys_setregid r e s).2).
Proof.
  destruct Hpriv as (He & _). unfold sys_setregid. cr_unfold.
  set (cr := (r =? NOID) || _ || _). set (ce := (e =? NOID) || _ || _ || _).
  set (nr := if negb (r =? NOID) then r else gid_ s).
  set (ne := if negb (e =? NOID) then e else egid_ s).
  destruct cr eqn:Hr; [|by cbv beta iota; cbn [negb]; rewrite no_setgid; [apply confined_refl|]].
  destruct ce eqn:He'; [|by cbv beta iota; cbn [negb]; rewrite no_setgid; [apply confined_refl|]].
  assert (Hnr : nr ∈ [gid_ s; egid_ s; sgid_ s]).
  { unfold nr, cr in *. destruct (Z.eqb_spec r NOID); cbn in *; mem. }
  assert (Hne : ne ∈ [gid_ s; egid_ s; sgid_ s]).
  { unfold ne, ce in *. destruct (Z.eqb_spec e NOID); cbn in *; mem. }
  clearbody nr ne cr ce. cbn [negb].
  destruct (ne =? egid_ s), (negb (r =? NOID) || _); cbn; post; cbn;
    try apply ids_within_refl; apply ids_within_intro; pick.
Qed.

Lemma confined_setgid g : confined (current s) (current (sys_setgid g s).2).
Proof.
  destruct Hpriv as (He & _). unfold sys_setgid. cr_unfold. rewrite no_setgid by done.
  destruct ((g =? gid_ s) || (g =? sgid_ s)) eqn:Hg; [|by apply confined_refl].
  rewrite orb_true_iff, !Z.eqb_eq in Hg.
  destruct Hg as [Hg|Hg], (egid_ s =? g); cbn; post; cbn; try apply ids_within_refl;
    apply ids_within_intro; pick.
Qed.

Lemma confined_setresgid r e u :
  confined (current s) (current (sys_setresgid r e u s).2).
Proof.
  destruct Hpriv as (He & _). unfold sys_setresgid. cr_unfold. rewrite no_setgid by done.
  cbn [negb andb].
  destruct (bad_res_id r _ || bad_res_id e _ || bad_res_id u _) eqn:Hbad;
    [by apply confined_refl|].
  apply orb_false_iff in Hbad as [[Hr He']%orb_false_iff Hu].
  pose proof (good_res_id _ _ Hr) as Gr. pose proof (good_res_id _ _ He') as Ge.
  pose proof (good_res_id _ _ Hu) as Gu. clear Hr He' Hu.
  destruct (Z.eqb_spec e NOID), (Z.eqb_spec e (egid_ s)), (Z.eqb_spec u NOID),
    (Z.eqb_spec r NOID); cbn; post; cbn; try apply ids_within_refl;
    apply ids_within_intro; pick.
Qed.

Lemma confined_setfsgid g : confined (current s) (current (sys_setfsgid g s).2).
Proof.
  destruct Hpriv as (He & _). unfold sys_setfsgid. cr_unfold.
  destruct ((g =? gid_ s) || (g =? egid_ s) || (g =? sgid_ s) || (g =? fsgid_ s)) eqn:Hu;
    [rewrite !orb_true_iff, !Z.eqb_eq in Hu;
     destruct (g =? fsgid_ s), Hu as [[[Hu|Hu]|Hu]|Hu]|]; cbn; rewrite ?no_setgid by done; cbn; post; cbn;
    try apply ids_within_refl; apply ids_within_intro; pick.
Qed.

Lemma confined_prctl o a : confined (current s) (current (prctl_creds o a s).2).
Proof.
  unfold prctl_creds, prctl_dumpable, prctl_keepcaps. cr_unfold. destruct Hpriv as (? & _).
  repeat case_match; simplify_eq/=; apply confined_refl || post; apply ids_within_refl.
Qed.

Lemma confined_call c : confined (current s) (current (do_call c s).2).
Proof.
  destruct c; cbn [do_call]; auto using confined_setreuid, confined_setuid,
    confined_setresuid, confined_setfsuid, confined_setregid, confined_setgid,
    confined_setresgid, confined_setfsgid, confined_prctl.
Qed.
End one_call.

Lemma run_calls_confined s cs :
  unprivileged (current s) → confined (current s) (current (run_calls cs s)).
Proof.
  revert s. induction cs as [|c cs IH]; intros s Hs.
  - by apply confined_refl.
  - cbn. pose proof (confined_call s Hs c) as Hc.
    eapply confined_trans; [exact Hc|]. apply IH. by eapply confined_unprivileged.
Qed.

(** C15: An unprivileged task (its effective set inside its permitted set, with
    neither CAP_SETUID nor CAP_SETGID permitted) cannot acquire an identity: after
    any sequence of setuid, setreuid, setresuid, setfsuid, setgid, setregid,
    setresgid, setfsgid and prctl calls, with whatever arguments and whatever
    their results, each of its real, effective and saved ids is one of the three
    it started with, its file system ids are one of the four, its permitted set
    has not grown and its effective set is still within it. *)
Theorem setid_calls_confined s cs :
  unprivileged (current s) → confined (current s) (current (run_calls cs s)).
Proof. apply run_calls_confined. Qed.

(** ** Dropping root for good *)

Lemma ids_within_const u j : ids_within (mk_ids u u u u) j → j = mk_ids u u u u.
Proof.
  intros [H Hf]. destruct j as [a b c d]. cbn in *.
  assert (∀ x, x ∈ [a; b; c] → x = u) as H'.
  { intros x Hx%H. rewrite !elem_of_cons, elem_of_nil in Hx. tauto. }
  rewrite !elem_of_cons, elem_of_nil in Hf.
  f_equal; [apply H'; left|apply H'; right; left|apply H'; right; right; left|tauto].
Qed.

Lemma cap_sub_empty a : cap_sub a 0 → a = 0.
Proof.
  intros H. apply Z.bits_inj'. intros i Hi. rewrite Z.bits_0.
  destruct (Z.testbit a i) eqn:E; [|done]. apply H in E; [|done]. by rewrite Z.bits_0 in E.
Qed.

Lemma emulate_drop a b c t :
  a = 0 ∨ b = 0 ∨ c = 0 → rid (uids t) ≠ 0 → eid (uids t) ≠ 0 → sid (uids t) ≠ 0 →
  keep_capabilities t = 0 →
  effective (caps (cap_emulate_setxuid a b c t)) = 0 ∧
  permitted (caps (cap_emulate_setxuid a b c t)) = 0.
Proof.
  intros Hz Hr He Hs Hk. unfold cap_emulate_setxuid.
  assert ((a =? 0) || (b =? 0) || (c =? 0) = true) as -> by
    (rewrite !orb_true_iff, !Z.eqb_eq; tauto).
  rewrite !(proj2 (Z.eqb_neq _ _) Hr), !(proj2 (Z.eqb_neq _ _) He),
    !(proj2 (Z.eqb_neq _ _) Hs), Hk. cbn. rewrite andb_false_r, andb_true_r.
  by destruct (b =? 0).
Qed.

Lemma capable_yes cap s : cap_raised (effective (caps (current s))) cap = true →
  capable cap s = (Ok true, on_current set_superpriv s).
Proof. intros H. unfold capable. cr_unfold. by rewrite H. Qed.

Lemma setuid_root_drop s k u r s' :
  cap_raised (effective (caps (current s))) CAP_SETUID = true →
  uid_ s = 0 ∨ euid_ s = 0 ∨ suid_ s = 0 → keep_capabilities (current s) = 0 → u ≠ 0 →
  sys_setuid k u s = (Ok r, s') →
  uids (current s') = mk_ids u u u u ∧
  effective (caps (current s')) = 0 ∧ permitted (caps (current s')) = 0.
Proof.
  intros Hcap Hz Hk Hu. unfold sys_setuid. cr_unfold. rewrite capable_yes by done.
  set (s0 := on_current set_superpriv s).
  destruct ((if negb (u =? uid_ s) then set_user k u (negb (euid_ s =? u))
             else λ s1, (Ok 0, s1)) s0) as [res s1] eqn:E.
  change (λ s1 : proc, (Ok 0, s1)) with (mret (M := SM proc) 0) in E.
  apply opt_set_user_frame in E as (up & rr & Hc & Hrr & Hok).
  destruct res as [v| |]; [|done..].
  assert (rr = u) as ->.
  { destruct (Z.eqb_spec u (uid_ s)) as [Ee|]; [|by eapply Hok].
    destruct Hrr as [[_ ?]| ->]; [done|]. by rewrite Ee. }
  cbv beta iota. destruct (negb (euid_ s =? u)); rewrite post_setuid_eq by done;
    intros [= <- <-]; cbn; rewrite Hc;
    (split; [by rewrite (proj1 (emulate_setxuid_frame _ _ _ _))|]);
    by apply emulate_drop.
Qed.

(** Root gives up its identity for good with [setuid]: when a task with
    CAP_SETUID effective, some id 0 and keep_capabilities off calls setuid(u) with
    u <> 0 and the call succeeds, then all four user ids are u and the permitted and
    effective sets are empty, and they stay so after any further sequence of set*id
    and prctl calls. *)
Theorem setuid_drop_permanent s k u r s' cs :
  cap_raised (effective (caps (current s))) CAP_SETUID = true →
  uid_ s = 0 ∨ euid_ s = 0 ∨ suid_ s = 0 → keep_capabilities (current s) = 0 → u ≠ 0 →
  sys_setuid k u s = (Ok r, s') →
  let t := current (run_calls cs s') in
  uids t = mk_ids u u u u ∧ effective (caps t) = 0 ∧ permitted (caps t) = 0.
Proof.
  intros Hcap Hz Hk Hu Hs t.
  destruct (setuid_root_drop _ _ _ _ _ Hcap Hz Hk Hu Hs) as (Hi & He & Hp).
  assert (Hun : unprivileged (current s')) by (split_and!; rewrite ?He, ?Hp; done).
  pose proof (run_calls_confined s' cs Hun) as Hc. fold t in Hc.
  destruct Hc as [Hcu _ Hcp Hce]. rewrite Hi in Hcu. rewrite Hp in Hcp.
  apply ids_within_const in Hcu. apply cap_sub_empty in Hcp. rewrite Hcp in Hce.
  apply cap_sub_empty in Hce. done.
Qed.

(** ** User accounting and error atomicity *)

(** The task is counted at the [user_struct] of its real uid. *)
Definition user_ok (t o : Z → Z) (s : proc) : Prop :=
  Users.cache_inv t o (users s) ∧ 0 < t (user (current s)) ∧
  ∃ u, Users.heap (users s) !! user (current s) = Some u ∧ Users.u_uid u = uid_ s.

(** [t] with the running task moved from its user in [s] to its user in [s']. *)
Definition moved (t : Z → Z) (s s' : proc) : Z → Z :=
  Users.bump (Users.bump t (user (current s')) 1) (user (current s)) (-1).

(** Equal but for the PF_SUPERPRIV flag. *)
Definition same_creds (s s' : proc) : Prop :=
  (current s' = current s ∨ current s' = set_superpriv (current s)) ∧
  dumpable s' = dumpable s ∧ rlim_nproc s' = rlim_nproc s ∧ users s' = users s.

Definition kmem_of (c : call) : option Z :=
  match c with
  | Setreuid k _ _ | Setuid k _ | Setresuid k _ _ _ => k
  | _ => None
  end.

Record call_ok (t o : Z → Z) (s : proc) (out : outcome Z * proc) : Prop := {
  co_nobug : out.1 ≠ Bug;
  co_user : user_ok (moved t s out.2) o out.2;
  co_err e : out.1 = Err e → same_creds s out.2
}.

Lemma moved_same t s s' : user (current s') = user (current s) → ∀ p, t p = moved t s s' p.
Proof.
  intros E p. unfold moved, Users.bump. rewrite E. case_decide; lia.
Qed.

Lemma user_ok_frame t o s s' : users s' = users s →
  user (current s') = user (current s) → uid_ s' = uid_ s →
  user_ok t o s → user_ok t o s'.
Proof. intros Eu Ep Ei H. unfold user_ok. rewrite Eu, Ep, Ei. exact H. Qed.

Lemma user_ok_ext t t' o s : (∀ p, t p = t' p) → user_ok t o s → user_ok t' o s.
Proof.
  intros E (H & Ht & Hu). split_and!; [|by rewrite <- E|done].
  by eapply Users.cache_inv_ext.
Qed.

Lemma set_user_spec t o kmem r d s :
  user_ok t o s → (∀ new, kmem = Some new → Users.heap (users s) !! new = None) →
  (∃ s1, set_user kmem r d s = (Ok 0, s1) ∧ user_ok (moved t s s1) o s1) ∨
  set_user kmem r d s = (Err EAGAIN, s).
Proof.
  intros (Hi & Ht & u & Hu & Huid) Hk. unfold set_user, lift_users. cr_unfold.
  destruct (Users.alloc_uid_spec t o kmem r _ Hi Hk) as (res & c1 & Ea & Hres).
  rewrite Ea. destruct res as [p|].
  2:{ right. destruct Hres as (-> & _). by destruct s. }
  destruct Hres as (H1 & (v & Hv & Hvr) & Hq). cbn.
  rewrite (Users.deref_ok _ _ _ Hv). cbn.
  destruct ((rlim_nproc s <=? wrap32 (Users.u_processes v)) && negb (p =? Users.root_user)).
  { right. cbn. rewrite (Users.alloc_free_id _ _ _ _ _ _ _ Hi Hk Ea). by destruct s. }
  left. cbn.
  destruct (Users.switch_uid_spec t (Users.bump o p 1) (user (current s)) p c1 H1 Ht)
    as (c2 & -> & H2 & Huid2).
  { rewrite Users.bump_eq. pose proof (Users.ci_pos _ _ _ Hi p). lia. }
  destruct d; (eexists; split; [reflexivity|]); unfold user_ok, moved, uid_; cbn;
    (split_and!;
     [ eapply Users.cache_inv_ext; [done| |exact H2]; intros q; unfold Users.bump;
       repeat case_decide; lia
     | pose proof (Users.ci_pos _ _ _ Hi p); unfold Users.bump;
       repeat case_decide; subst; done || lia
     | rewrite Hv in Huid2; destruct (Users.heap c2 !! p) as [w|]; [|done];
       cbn in Huid2; exists w; split; [done|]; congruence ]).
Qed.

(** Ways a call can end, from the state reached so far. *)
Lemma call_ok_intro t o s r s' :
  r ≠ Bug → users s' = users s → user (current s') = user (current s) →
  uid_ s' = uid_ s → user_ok t o s → (∀ e, r = Err e → same_creds s s') →
  call_ok t o s (r, s').
Proof.
  intros Hr Eu Ep Ei H He. split; [done| |done]. cbn.
  eapply user_ok_ext; [by apply moved_same|]. by apply (user_ok_frame _ _ s).
Qed.

(** After a successful [set_user], later updates keep the real uid and user. *)
Lemma call_ok_after t o s s1 v s' :
  user_ok (moved t s s1) o s1 → users s' = users s1 →
  user (current s') = user (current s1) → uid_ s' = uid_ s1 → call_ok t o s (Ok v, s').
Proof.
  intros H Eu Ep Ei. split; [done| |done]. cbn.
  eapply user_ok_ext; [|by apply (user_ok_frame _ _ s1)].
  intros p. unfold moved. by rewrite Ep.
Qed.

Lemma capable_cases cap s : ∃ b s1, capable cap s = (Ok b, s1) ∧
  (s1 = s ∨ s1 = on_current set_superpriv s).
Proof.
  unfold capable. cr_unfold. destruct (cap_raised _ _); eauto 10.
Qed.

Lemma same_creds_refl s : same_creds s s.
Proof. unfold same_creds. auto. Qed.

(** The state in which [set_user] is called: [s], or [s] with the flag set. *)
Definition flagged (s s1 : proc) : Prop := s1 = s ∨ s1 = on_current set_superpriv s.

Lemma flagged_same s s1 : flagged s s1 → same_creds s s1.
Proof. intros [-> | ->]; unfold same_creds; auto. Qed.

Lemma orM_capable (c : bool) cap s : ∃ b s1,
  (if c then mret true else capable cap) s = (Ok b, s1) ∧ flagged s s1.
Proof.
  destruct c; [by exists true, s; split; [|left]|]. apply capable_cases.
Qed.

Lemma flagged_trans s1 s2 s3 : flagged s1 s2 → flagged s2 s3 → flagged s1 s3.
Proof.
  intros [-> | ->] [-> | ->]; unfold flagged; auto.
Qed.

Lemma opt_set_user_spec (c : bool) t o kmem r d s s0 :
  user_ok t o s → flagged s s0 →
  (∀ new, kmem = Some new → Users.heap (users s) !! new = None) →
  (∃ s1, (if c then set_user kmem r d else mret 0) s0 = (Ok 0, s1) ∧
         user_ok (moved t s s1) o s1) ∨
  (if c then set_user kmem r d else mret 0) s0 = (Err EAGAIN, s0).
Proof.
  intros Hu Hf Hk.
  assert (Hu0 : user_ok t o s0) by (destruct Hf as [-> | ->]; done).
  assert (Hk0 : ∀ new, kmem = Some new → Users.heap (users s0) !! new = None)
    by (destruct Hf as [-> | ->]; done).
  assert (Hm : ∀ s1, moved t s s1 = moved t s0 s1) by (destruct Hf as [-> | ->]; done).
  destruct c.
  - destruct (set_user_spec t o kmem r d s0 Hu0 Hk0) as [(s1 & ? & ?)|?]; [left|by right].
    exists s1. by rewrite Hm.
  - left. exists s0. split; [done|]. eapply user_ok_ext; [|exact Hu0].
    rewrite Hm. by apply moved_same.
Qed.

Section accounting.
Context (t o : Z → Z) (s : proc) (Hs : user_ok t o s).

#[local] Ltac kmem_step H :=
  lazymatch goal with
  | |- context [(if ?c then set_user ?k ?r ?d else ?x) ?s0] =>
      destruct (opt_set_user_spec c t o k r d s s0 Hs H) as [(s1 & E1 & Hu1)|E1]; [done| |];
      change (mret (M := SM proc) 0) with x in E1; rewrite E1; clear E1
  end.

#[local] Ltac fin :=
  first [ eapply call_ok_after; [eassumption|..]; unfold uid_; cbn;
            autorewrite with kern; done
        | apply call_ok_intro; unfold uid_; cbn; autorewrite with kern; try done;
          intros ? [=]; by apply flagged_same
        | match goal with H : flagged s _ |- _ =>
            destruct H as [-> | ->]; apply call_ok_intro; unfold uid_; cbn;
            autorewrite with kern; try done;
            intros ? [=]; apply flagged_same; unfold flagged; auto end ].

Lemma call_ok_setuid k u : (∀ new, k = Some new → Users.heap (users s) !! new = None) →
  call_ok t o s (sys_setuid k u s).
Proof.
  intros Hk. unfold sys_setuid. cr_unfold.
  destruct (capable_cases CAP_SETUID s) as (b & s0 & -> & Hf).
  change (flagged s s0) in Hf.
  destruct b.
  - kmem_step Hf.
    + destruct (negb (euid_ s =? u)); cbn; rewrite post_setuid_eq by done; fin.
    + cbn. fin.
  - destruct (negb (u =? uid_ s) && negb (u =? suid_ s)); [cbn; fin|].
    destruct (negb (euid_ s =? u)); cbn; rewrite post_setuid_eq by done; fin.
Qed.

Lemma call_ok_setresuid k r e u :
  (∀ new, k = Some new → Users.heap (users s) !! new = None) →
  call_ok t o s (sys_setresuid k r e u s).
Proof.
  intros Hk. unfold sys_setresuid. cr_unfold.
  destruct (capable_cases CAP_SETUID s) as (b & s0 & -> & Hf).
  change (flagged s s0) in Hf.
  destruct (negb b && _); [fin|].
  kmem_step Hf; [|fin].
  destruct (negb (e =? NOID)), (negb (e =? euid_ s)), (negb (u =? NOID)); cbn;
    rewrite post_setuid_eq by done; fin.
Qed.

#[local] Ltac orM_step s0 Hf :=
  lazymatch goal with
  | |- context [(if ?c then ?x else capable ?cap) ?s1] =>
      let E := fresh in let b := fresh "b" in
      destruct (orM_capable c cap s1) as (b & s0 & E & Hf);
      change (mret (M := SM proc) true) with x in E; rewrite E; clear E;
      destruct b; cbn [negb]; cbv beta iota
  end.

Lemma call_ok_setreuid k r e :
  (∀ new, k = Some new → Users.heap (users s) !! new = None) →
  call_ok t o s (sys_setreuid k r e s).
Proof.
  intros Hk. unfold sys_setreuid. cr_unfold.
  orM_step s0 Hf0; [|fin].
  orM_step s1 Hf1; pose proof (flagged_trans _ _ _ Hf0 Hf1) as Hf; clear Hf0 Hf1; [|fin].
  set (nr := if negb (r =? NOID) then r else uid_ s).
  set (ne := if negb (e =? NOID) then e else euid_ s).
  lazymatch goal with
  | |- context [(if ?c then set_user ?k ?r ?d else ?x) ?s0] =>
      destruct (opt_set_user_spec c t o k r d s s0 Hs Hf) as [(s2 & E1 & Hu1)|E1]; [done| |];
      change (mret (M := SM proc) 0) with x in E1; rewrite E1; clear E1
  end; [|fin].
  destruct (negb (ne =? euid_ s)), (negb (r =? NOID) || _); cbn;
    rewrite post_setuid_eq by done; fin.
Qed.

Lemma call_ok_setfsuid u : call_ok t o s (sys_setfsuid u s).
Proof.
  unfold sys_setfsuid. cr_unfold. orM_step s0 Hf; cbn.
  - destruct (negb (u =? fsuid_ s)); cbn; rewrite post_setfsuid_eq; cbn; fin.
  - rewrite post_setfsuid_eq. cbn. fin.
Qed.

Lemma call_ok_gid c : kmem_of c = None →
  match c with
  | Setregid _ _ | Setgid _ | Setresgid _ _ _ | Setfsgid _ | Prctl _ _ => True
  | _ => False
  end → call_ok t o s (do_call c s).
Proof.
  intros _ Hc. destruct c as [| | | |r e|g|r e u|g|op a]; try done; cbn [do_call].
  - unfold sys_setregid. cr_unfold. orM_step s0 Hf0; [|fin].
    orM_step s1 Hf1; pose proof (flagged_trans _ _ _ Hf0 Hf1) as Hf; clear Hf0 Hf1; [|fin].
    destruct (negb (_ =? egid_ s)), (negb (r =? NOID) || _); cbn; fin.
  - unfold sys_setgid. cr_unfold.
    destruct (capable_cases CAP_SETGID s) as (b & s0 & -> & Hf). change (flagged s s0) in Hf.
    destruct b; [|destruct ((g =? gid_ s) || _); [|fin]]; destruct (negb (egid_ s =? g)); cbn; fin.
  - unfold sys_setresgid. cr_unfold.
    destruct (capable_cases CAP_SETGID s) as (b & s0 & -> & Hf). change (flagged s s0) in Hf.
    destruct (negb b && _); [fin|].
    destruct (negb (e =? NOID)), (negb (e =? egid_ s)), (negb (u =? NOID)), (negb (r =? NOID));
      cbn; fin.
  - unfold sys_setfsgid. cr_unfold. orM_step s0 Hf; cbn; [destruct (negb (g =? fsgid_ s))|];
      cbn; fin.
  - unfold prctl_creds, prctl_dumpable, prctl_keepcaps. cr_unfold. assert (Hf : flagged s s) by (by left).
    repeat case_match; fin.
Qed.
End accounting.

(** C16: User accounting.  If the running task is counted at the user structure of
    its real uid, then every set*id or prctl call (with whatever result of the slab
    allocator) runs without touching freed memory and leaves the task counted at the
    structure of its new real uid: every structure still exists exactly as long as
    it is referenced, the process count of the old user has gone down and that of
    the new user up, and nobody else's count has changed.  A call that returns an
    error leaves ids, capabilities, dumpable flag and user cache as they were. *)
Theorem setid_accounting t o s c :
  user_ok t o s →
  (∀ new, kmem_of c = Some new → Users.heap (users s) !! new = None) →
  call_ok t o s (do_call c s).
Proof.
  intros Hs Hk. destruct c; try by apply (call_ok_gid t o s Hs).
  all: cbn [do_call kmem_of] in *;
    auto using call_ok_setreuid, call_ok_setuid, call_ok_setresuid, call_ok_setfsuid.
Qed.

(** ** execve *)

Definition exec_creds (cap_bset unsafe : Z) (b : linux_binprm) : SM proc unit :=
  b' ← cap_bprm_set_security b; cap_bprm_apply_creds cap_bset unsafe b'.

Lemma land_cap_sub_l a b : cap_sub (cap_intersect a b) a.
Proof. intros i _. unfold cap_intersect. rewrite Z.land_spec. by intros []%andb_true_iff. Qed.
Lemma land_cap_sub_r a b : cap_sub (cap_intersect a b) b.
Proof. intros i _. unfold cap_intersect. rewrite Z.land_spec. by intros []%andb_true_iff. Qed.

(** Capabilities and ids after [cap_bprm_apply_creds], on every path. *)
Lemma apply_creds_spec cap_bset unsafe b s : pid (current s) ≠ 1 →
  ∃ s' eu eg np, cap_bprm_apply_creds cap_bset unsafe b s = (Ok tt, s') ∧
    uids (current s') = mk_ids (uid_ s) eu eu eu ∧
    gids (current s') = mk_ids (gid_ s) eg eg eg ∧
    permitted (caps (current s')) = np ∧
    effective (caps (current s')) = cap_intersect np (effective (bprm_caps b)) ∧
    keep_capabilities (current s') = 0 ∧
    let full := cap_combine (cap_intersect (permitted (bprm_caps b)) cap_bset)
      (cap_intersect (inheritable (bprm_caps b)) (inheritable (caps (current s)))) in
    cap_sub np full ∧
    (Z.land unsafe (Z.lnot LSM_UNSAFE_PTRACE_CAP) ≠ 0 →
     (cap_raised (effective (caps (current s))) CAP_SETUID = false →
      eu = uid_ s ∧ eg = gid_ s) ∧
     (cap_raised (effective (caps (current s))) CAP_SETPCAP = false →
      cap_sub np (permitted (caps (current s))))).
Proof.
  intros Hpid. unfold cap_bprm_apply_creds. cr_unfold.
  set (full := cap_combine _ _).
  rewrite (proj2 (Z.eqb_neq _ _) Hpid). cbn [negb].
  destruct (negb (e_uid b =? uid_ s) || negb (e_gid b =? gid_ s) ||
            negb (cap_issubset full (permitted (caps (current s))))) eqn:Hc; cbv beta iota.
  2:{ eexists _, _, _, _. split; [reflexivity|]. cbn. split_and!; try done.
      rewrite !orb_false_iff, !negb_false_iff, !Z.eqb_eq, cap_issubset_spec in Hc.
      destruct Hc as [[-> ->] Hsub]. done. }
  destruct (Z.eqb_spec (Z.land unsafe (Z.lnot LSM_UNSAFE_PTRACE_CAP)) 0) as [Hun|Hun];
    cbn [negb]; cbv beta iota.
  { eexists _, _, _, _. split; [reflexivity|]. cbn. split_and!; done. }
  unfold capable. cr_unfold. cbn.
  destruct (cap_raised (effective (caps (current s))) CAP_SETUID) eqn:E1,
    (cap_raised (effective (caps (current s))) CAP_SETPCAP) eqn:E2; cbn; rewrite ?E1, ?E2; cbn;
    (eexists _, _, _, _; split; [reflexivity|]); cbn; split_and!; try done;
    try apply land_cap_sub_l; intros _; split; intros ?; done || apply land_cap_sub_r.
Qed.

(** Credentials after execve, for any task but init.  The saved and file system
    ids follow the effective ones, keep_capabilities is off and the effective set is
    within the permitted set.  A program that is not set-uid root, run by a task whose
    real uid is not 0, runs without capabilities.  When the task is traced or shares
    its state with another one (an unsafe exec), a task without CAP_SETUID keeps its
    real ids as effective ids whatever the file's mode bits say, and one without
    CAP_SETPCAP gains no permitted capability. *)
Theorem exec_creds_safe cap_bset unsafe b s :
  pid (current s) ≠ 1 →
  ∃ s', exec_creds cap_bset unsafe b s = (Ok tt, s') ∧
    let t := current s' in
    euid_ s' = suid_ s' ∧ euid_ s' = fsuid_ s' ∧ egid_ s' = sgid_ s' ∧
    egid_ s' = fsgid_ s' ∧ uid_ s' = uid_ s ∧ gid_ s' = gid_ s ∧
    keep_capabilities t = 0 ∧ cap_sub (effective (caps t)) (permitted (caps t)) ∧
    (e_uid b ≠ 0 → uid_ s ≠ 0 → permitted (caps t) = 0 ∧ effective (caps t) = 0) ∧
    (Z.land unsafe (Z.lnot LSM_UNSAFE_PTRACE_CAP) ≠ 0 →
     (cap_raised (effective (caps (current s))) CAP_SETUID = false →
      euid_ s' = uid_ s ∧ egid_ s' = gid_ s) ∧
     (cap_raised (effective (caps (current s))) CAP_SETPCAP = false →
      cap_sub (permitted (caps t)) (permitted (caps (current s))))).
Proof.
  intros Hpid. unfold exec_creds, cap_bprm_set_security. cr_unfold.
  change (issecure SECURE_NOROOT) with false. cbv beta iota.
  set (b' := mk_bprm _ _ _).
  destruct (apply_creds_spec cap_bset unsafe b' s Hpid)
    as (s' & eu & eg & np & -> & Hu & Hg & Hp & He & Hk & Hfull & Hunsafe).
  exists s'. split; [done|]. unfold euid_, suid_, fsuid_, egid_, sgid_, fsgid_, uid_, gid_.
  rewrite Hu, Hg, Hp, He, Hk. cbn. split_and!; try done.
  - apply land_cap_sub_l.
  - intros H1 H2. assert (Hb : bprm_caps b' = mk_caps 0 0 0).
    { unfold b', uid_ in *. cbn. rewrite (proj2 (Z.eqb_neq _ _) H1), (proj2 (Z.eqb_neq _ _) H2).
      done. }
    rewrite Hb in Hfull. cbn in Hfull. apply cap_sub_empty in Hfull. by rewrite Hfull.
Qed.

(** ** The capability system calls *)

(** What a capset by a task with permitted set [P] may do to a task. *)
Record granted (P : Z) (t t' : task_struct) : Prop := {
  gr_ids : uids t' = uids t ∧ gids t' = gids t ∧ user t' = user t ∧ pid t' = pid t;
  gr_perm : cap_sub (permitted (caps t')) (cap_combine (permitted (caps t)) P);
  gr_inh : cap_sub (inheritable (caps t')) (cap_combine (inheritable (caps t)) P);
  gr_eff : caps t' = caps t ∨ cap_sub (effective (caps t')) (permitted (caps t'))
}.

Lemma combine_l a b : cap_sub a (cap_combine a b).
Proof. intros i _ H. unfold cap_combine. by rewrite Z.lor_spec, H. Qed.

Lemma combine_mono a a' b b' : cap_sub a (cap_combine a' b) → cap_sub b' b →
  cap_sub (cap_combine a b') (cap_combine a' b).
Proof.
  intros Ha Hb i Hi. unfold cap_combine in *. rewrite Z.lor_spec.
  intros [?%Ha|?%Hb]%orb_true_iff; [done|done| |done].
  rewrite Z.lor_spec. by apply orb_true_iff; right.
Qed.

Lemma granted_refl P t : granted P t t.
Proof. split; auto using combine_l. Qed.

Lemma granted_set P P' t t' new cur :
  granted P t t' → permitted (caps cur) = P' → cap_sub P' P →
  Capset.cap_capset_check cur t' new = true →
  granted P t (Capset.cap_capset_set t' new).
Proof.
  intros [Hi Hp Hn _] <- HP Hc. unfold Capset.cap_capset_check in Hc.
  rewrite !andb_true_iff, !cap_issubset_spec in Hc. destruct Hc as [[H1 H2] H3].
  split; cbn; [done| | |by right]; etrans; eauto; by apply combine_mono.
Qed.

(** Every task of the table is within what the caller may grant. *)
Definition table_granted (P : Z) (s s' : Capset.table) : Prop :=
  Capset.thread_groups s' = Capset.thread_groups s ∧
  Capset.current_pid s' = Capset.current_pid s ∧
  ∀ p, match Capset.tasks s !! p, Capset.tasks s' !! p with
       | Some t, Some t' => granted P t t'
       | None, None => True
       | _, _ => False
       end.

Lemma table_granted_refl P s : table_granted P s s.
Proof. split_and!; [done..|]. intros p. destruct (Capset.tasks s !! p); [|done]. apply granted_refl. Qed.

Section capset.
Context (s0 : Capset.table) (cur0 : task_struct).
Context (Hcur0 : Capset.tasks s0 !! Capset.current_pid s0 = Some cur0).
#[local] Abbreviation P := (permitted (caps cur0)).
#[local] Abbreviation within := (table_granted P s0).

(** The caller's own permitted set can only shrink on the way. *)
Lemma within_current s : within s →
  ∃ cur, Capset.tasks s !! Capset.current_pid s = Some cur ∧
    cap_sub (permitted (caps cur)) P.
Proof.
  intros (_ & E & H). specialize (H (Capset.current_pid s0)). rewrite Hcur0 in H. rewrite E.
  destruct (Capset.tasks s !! Capset.current_pid s0) as [cur|]; [|done].
  exists cur. split; [done|]. etrans; [apply H|].
  unfold cap_combine. by rewrite Z.lor_diag.
Qed.

Lemma within_put s p t t' : within s → Capset.tasks s0 !! p = Some t → granted P t t' →
  within (Capset.set_tasks (<[p := t']> (Capset.tasks s)) s).
Proof.
  intros (Eg & Ec & H) Hp Hg. split_and!; [done..|]. intros q. specialize (H q). cbn.
  destruct (decide (q = p)) as [->|]; [by rewrite Hp, lookup_insert_eq|].
  by rewrite lookup_insert_ne by done.
Qed.

Lemma within_task s p t' : within s → Capset.tasks s !! p = Some t' →
  ∃ t, Capset.tasks s0 !! p = Some t ∧ granted P t t'.
Proof.
  intros (_ & _ & H) Hp. specialize (H p). rewrite Hp in H.
  destruct (Capset.tasks s0 !! p) as [t|]; [eauto|done].
Qed.

Lemma capable_within cap s : within s →
  ∃ b s', Capset.capable cap s = (Ok b, s') ∧ within s' ∧
    (b = false → s' = s).
Proof.
  intros H. destruct (within_current _ H) as (cur & Hc & _).
  unfold Capset.capable, Capset.get_task. cr_unfold. rewrite Hc.
  destruct (cap_raised _ _); [|by eauto].
  eexists true, _. split; [reflexivity|]. split; [|done].
  destruct (within_task _ _ _ H Hc) as (t & Ht & [? ? ? ?]).
  by eapply within_put.
Qed.

Lemma check_and_set_within p new s : within s → is_Some (Capset.tasks s0 !! p) →
  ∃ b s', Capset.check_and_set p new s = (Ok b, s') ∧ within s'.
Proof.
  intros H [t Ht]. destruct (within_current _ H) as (cur & Hc & HP).
  unfold Capset.check_and_set, Capset.get_task. cr_unfold. rewrite Hc.
  pose proof (proj2 (proj2 H) p) as Hp. rewrite Ht in Hp.
  destruct (Capset.tasks s !! p) as [t'|] eqn:Ht'; [|done].
  destruct (Capset.cap_capset_check cur t' new) eqn:Hchk; [|by eauto].
  eexists true, _. split; [reflexivity|]. eapply within_put; [done..|].
  by eapply granted_set.
Qed.

Lemma pg_threads_within new rest : ∀ ret found s, within s →
  Forall (λ p, is_Some (Capset.tasks s0 !! p)) rest → ret = 0 ∨ ret = - EPERM →
  ∃ ret' f s', Capset.pg_threads rest new ret found s = (Ok (ret', f), s') ∧ within s' ∧
    (ret' = 0 ∨ ret' = - EPERM).
Proof.
  induction rest as [|p rest IH]; intros ret found s H Hr Hret; [by eauto 10|].
  apply Forall_cons in Hr as [Hp Hr]. cbn [Capset.pg_threads]. cr_unfold.
  destruct (check_and_set_within p new s H Hp) as (b & s' & -> & H').
  apply IH; [done..|]. destruct b; auto.
Qed.

Lemma all_threads_within new rest : ∀ ret found s, within s →
  Forall (λ p, is_Some (Capset.tasks s0 !! p)) rest → ret = 0 ∨ ret = - EPERM →
  ∃ ret' f s', Capset.all_threads rest new ret found s = (Ok (ret', f), s') ∧ within s' ∧
    (ret' = 0 ∨ ret' = - EPERM).
Proof.
  induction rest as [|p rest IH]; intros ret found s H Hr Hret; [by eauto 10|].
  apply Forall_cons in Hr as [Hp Hr]. cbn [Capset.all_threads]. cr_unfold.
  destruct (_ || _); [by apply IH|].
  destruct (check_and_set_within p new s H Hp) as (b & s' & -> & H').
  apply IH; [done..|]. destruct b; auto.
Qed.

(** Every listed thread is a task of the table. *)
Context (Hgroups : Forall (Forall (λ p, is_Some (Capset.tasks s0 !! p)))
                     (Capset.thread_groups s0)).

Lemma ring_after_tasks g :
  Forall (λ p, is_Some (Capset.tasks s0 !! p))
    (Capset.ring_after g (Capset.thread_groups s0)).
Proof.
  revert Hgroups. generalize (Capset.thread_groups s0). clear.
  induction 1 as [|ring rest Hr _ IH]; [done|]. cbn.
  destruct ring as [|l others]; [done|]. destruct (l =? g); [|done].
  by apply Forall_cons in Hr as [_ ?].
Qed.

Lemma pg_leaders_within new leaders : ∀ ret found s, within s →
  ret = 0 ∨ ret = - EPERM →
  ∃ ret' f s', Capset.pg_leaders leaders new ret found s = (Ok (ret', f), s') ∧ within s' ∧
    (ret' = 0 ∨ ret' = - EPERM).
Proof.
  induction leaders as [|g rest IH]; intros ret found s H Hret; [by eauto 10|].
  cbn [Capset.pg_leaders]. cr_unfold. rewrite (proj1 H).
  destruct (pg_threads_within new _ ret found s H (ring_after_tasks g) Hret)
    as (ret' & f & s' & -> & H' & Hret'). by apply IH.
Qed.

#[local] Ltac finr := eexists _, _; split_and!; [reflexivity|done|done].

Lemma sys_capset_within header w data : ∃ r s',
  Capset.sys_capset header w data s0 = (r, s') ∧ r ≠ Bug ∧ within s'.
Proof.
  pose proof (table_granted_refl P s0) as H0.
  unfold Capset.sys_capset, Capset.cap_set_all, Capset.cap_set_pg. cr_unfold.
  destruct header as [h|]; [|by finr]. destruct (negb (_ =? _)); [by finr|].
  set (c := (Capset.hdr_pid h =? 0) || _). cbv beta.
  assert (∃ b s1, (if c return SM Capset.table bool then λ s, (Ok true, s)
                   else Capset.capable CAP_SETPCAP) s0 = (Ok b, s1) ∧ within s1)
    as (b & s1 & -> & H1).
  { destruct c; [by eauto|].
    destruct (capable_within CAP_SETPCAP s0 H0) as (b & s1 & ? & ? & _).
    eauto. }
  destruct b; [|by finr]. cbn [negb]. destruct data as [new|]; [|by finr].
  assert (Hone : ∀ p, is_Some (Capset.tasks s0 !! p) → ∃ r s',
    (let (o, s') := Capset.check_and_set p new s1 in
     match o with
     | Ok a => (if a then λ s : Capset.table, (Ok 0, s) else λ s, (Err EPERM, s)) s'
     | Err e => (Err e, s') | Bug => (Bug, s')
     end) = (r, s') ∧ r ≠ Bug ∧ within s').
  { intros p Hp. destruct (check_and_set_within p new s1 H1 Hp) as (b & s' & -> & H').
    destruct b; finr. }
  destruct (Capset.hdr_pid h <? 0).
  - destruct (Capset.hdr_pid h =? -1).
    + rewrite (proj1 H1).
      destruct (all_threads_within new (concat (Capset.thread_groups s0)) (- EPERM) false s1 H1)
        as (ret' & f & s' & -> & H' & _); [by apply Forall_concat|by right|].
      cbv beta iota. destruct (negb f || _); finr.
    + match goal with |- context [Capset.pg_leaders ?l new _ _ _] =>
        destruct (pg_leaders_within new l (- EPERM) false s1 H1)
          as (ret' & f & s' & -> & H' & _) end; [by right|].
      cbv beta iota. destruct (negb f || _); finr.
  - destruct ((0 <? Capset.hdr_pid h) && _).
    + destruct (Capset.tasks s0 !! Capset.hdr_pid h) eqn:Et; [|by finr]. apply Hone. by eauto.
    + apply Hone. by eauto.
Qed.
End capset.

(** C17: The capset system call, for every header, data and task table (one task, a
    process group or all processes; any result).  It never faults, changes nothing
    of a task but its capability sets (and the caller's PF_SUPERPRIV flag), gives a
    task no permitted or inheritable capability that neither the task nor the caller
    had, and where it changed a task's sets the effective set is within the
    permitted set. *)
Theorem sys_capset_confined s header w data cur :
  Capset.tasks s !! Capset.current_pid s = Some cur →
  Forall (Forall (λ p, is_Some (Capset.tasks s !! p))) (Capset.thread_groups s) →
  ∃ r s', Capset.sys_capset header w data s = (r, s') ∧ r ≠ Bug ∧
    table_granted (permitted (caps cur)) s s'.
Proof. intros Hc Hg. by apply sys_capset_within. Qed.

(** ** capset on a process group *)

(** The capability sets of task [q] and the thread groups stay as they are. *)
Definition caps_kept (q : Z) (s s' : Capset.table) : Prop :=
  caps <$> Capset.tasks s' !! q = caps <$> Capset.tasks s !! q ∧ Capset.thread_groups s' = Capset.thread_groups s.

#[local] Instance caps_kept_refl q : Reflexive (caps_kept q).
Proof. done. Qed.
#[local] Instance caps_kept_trans q : Transitive (caps_kept q).
Proof. intros a b c [] []. split; congruence. Qed.

Lemma check_and_set_kept q p new s : q ≠ p → caps_kept q s (Capset.check_and_set p new s).2.
Proof.
  intros Hne. unfold Capset.check_and_set, Capset.get_task. cr_unfold.
  destruct (Capset.tasks s !! Capset.current_pid s) as [cur|]; [|done].
  destruct (Capset.tasks s !! p) as [t|]; [|done]. destruct (Capset.cap_capset_check cur t new); [|done].
  split; [|done]. cbn. by rewrite lookup_insert_ne.
Qed.

Lemma capable_kept q cap s : caps_kept q s (Capset.capable cap s).2.
Proof.
  unfold Capset.capable, Capset.get_task. cr_unfold.
  destruct (Capset.tasks s !! Capset.current_pid s) as [cur|] eqn:Hc; [|done].
  destruct (cap_raised _ _); [|done]. split; [|done]. cbn.
  destruct (decide (q = Capset.current_pid s)) as [->|]; [by rewrite lookup_insert_eq, Hc|by rewrite lookup_insert_ne].
Qed.

Lemma pg_threads_kept q new rest : ∀ ret found s, q ∉ rest → caps_kept q s (Capset.pg_threads rest new ret found s).2.
Proof.
  induction rest as [|p rest IH]; intros ret found s Hq; [done|]. apply not_elem_of_cons in Hq as [Hp Hq].
  cbn [Capset.pg_threads]. cr_unfold. pose proof (check_and_set_kept q p new s Hp) as H1.
  destruct (Capset.check_and_set p new s) as [[b|e|] s1]; [|done|done]. etrans; [exact H1|]. by apply IH.
Qed.

Lemma pg_leaders_kept q new leaders : ∀ ret found s,
  (∀ g, q ∉ Capset.ring_after g (Capset.thread_groups s)) → caps_kept q s (Capset.pg_leaders leaders new ret found s).2.
Proof.
  induction leaders as [|g rest IH]; intros ret found s Hq; [done|]. cbn [Capset.pg_leaders]. cr_unfold.
  pose proof (pg_threads_kept q new (Capset.ring_after g (Capset.thread_groups s)) ret found s (Hq g)) as H1.
  destruct (Capset.pg_threads _ new ret found s) as [[[r f]|e|] s1]; [|done|done]. etrans; [exact H1|].
  apply IH. cbn in H1. by rewrite (proj2 H1).
Qed.

(** A leader is in no ring as one of the threads after a leader. *)
Lemma leader_not_after g others groups g' : NoDup (concat groups) → (g :: others) ∈ groups →
  g ∉ Capset.ring_after g' groups.
Proof.
  induction groups as [|ring rest IH]; intros Hnd Hin; [by apply elem_of_nil in Hin|].
  cbn in Hnd |- *. apply NoDup_app in Hnd as (Hr & Hdis & Hrest).
  assert ((g :: others) ∈ rest → g ∉ ring) as Hno.
  { intros Hg Hgr. apply (Hdis g Hgr), list_elem_of_In, in_concat. exists (g :: others).
    split; apply list_elem_of_In; [done|by left]. }
  assert (∀ l, ring = g :: l → g ∉ Capset.ring_after g' rest) as Hafter.
  { intros l -> Ha. apply (Hdis g ltac:(by left)). clear -Ha. induction rest as [|x rest IH]; [done|]. cbn in Ha |- *.
    apply elem_of_app. destruct x as [|a x]; [right; by apply IH|]. destruct (a =? g'); [left; by right|right; by apply IH]. }
  destruct ring as [|a ring]; [apply elem_of_cons in Hin as [?|Hin]; [done|by apply IH]|].
  apply elem_of_cons in Hin as [[= <- <-]|Hin].
  - destruct (g =? g'); [|by eapply Hafter]. by apply NoDup_cons in Hr as [? _].
  - destruct (a =? g'); [|by apply IH]. intros Hr'. apply (Hno Hin). by right.
Qed.

Lemma pg_leaders_empty new leaders : ∀ ret s,
  Forall (λ g, Capset.ring_after g (Capset.thread_groups s) = []) leaders →
  Capset.pg_leaders leaders new ret false s = (Ok (ret, false), s).
Proof.
  induction leaders as [|g rest IH]; intros ret s Hr; [done|]. apply Forall_cons in Hr as [Hg Hr].
  cbn [Capset.pg_leaders]. cr_unfold. rewrite Hg. cbn. by apply IH.
Qed.

Lemma capset_pg_eq pid w data s : 0 <= Capset.current_pid s → pid < -1 →
  Capset.sys_capset (Some (Capset.mk_header Capset._LINUX_CAPABILITY_VERSION pid)) w data s =
  (ok ← Capset.capable CAP_SETPCAP;
   if negb ok then fail EPERM else
   match data with None => fail EFAULT | Some new => Capset.cap_set_pg (- pid) new end) s.
Proof.
  intros H0 Hp. unfold Capset.sys_capset. cbn [Capset.version Capset.hdr_pid].
  rewrite Z.eqb_refl. cbn [negb]. unfold mbind at 1, SM_bind at 1, gets at 1. cbn [id].
  by rewrite (proj2 (Z.eqb_neq pid 0)), (proj2 (Z.eqb_neq pid (Capset.current_pid s))),
    (proj2 (Z.ltb_lt pid 0)), (proj2 (Z.eqb_neq pid (-1))) by lia.
Qed.

(** C40: capset on a process group leaves every process leader out.  The comments promise that a negative
    pid sets the capabilities of all processes in the group; but the loop over the threads of a leader
    tests [next_thread] before the body runs.  For a pid below -1, whatever the data and
    the result, no thread group leader of the system has other capability sets after the call.  If
    the processes of the group are single-threaded, a caller with CAP_SETPCAP gets success,
    and nothing has changed but its flag PF_SUPERPRIV. *)
Theorem capset_pg_skips_leaders s pid w data cur :
  Capset.tasks s !! Capset.current_pid s = Some cur → 0 <= Capset.current_pid s → pid < -1 →
  NoDup (concat (Capset.thread_groups s)) →
  let call := Capset.sys_capset (Some (Capset.mk_header Capset._LINUX_CAPABILITY_VERSION pid)) w data s in
  (∀ g others, (g :: others) ∈ Capset.thread_groups s →
     caps <$> Capset.tasks call.2 !! g = caps <$> Capset.tasks s !! g) ∧
  (Forall (λ g, Capset.ring_after g (Capset.thread_groups s) = []) (default [] (Capset.pgrp_leaders s !! (- pid))) →
   cap_raised (effective (caps cur)) CAP_SETPCAP = true → is_Some data →
   call = (Ok 0, Capset.set_tasks (<[Capset.current_pid s := set_superpriv cur]> (Capset.tasks s)) s)).
Proof.
  intros Hc H0 Hp Hnd call. subst call. rewrite capset_pg_eq by done. split.
  - intros g others Hg. cr_unfold. pose proof (capable_kept g CAP_SETPCAP s) as H1.
    destruct (Capset.capable CAP_SETPCAP s) as [[[|]|e|] s1]; cbn [negb]; [|apply H1..].
    destruct data as [new|]; [|apply H1]. unfold Capset.cap_set_pg. cr_unfold. cbn [snd] in H1.
    match goal with |- context [Capset.pg_leaders ?l new ?r false s1] =>
      pose proof (pg_leaders_kept g new l r false s1) as H2; destruct (Capset.pg_leaders l new r false s1) as [[[r' f]|e|] s2] end.
    all: rewrite <- (proj1 H1); destruct H2 as [H2 _]; [intros g'; rewrite (proj2 H1); by eapply leader_not_after|].
    all: cbn in H2 |- *; try case_match; exact H2.
  - intros Hr Hcap [new ->]. unfold Capset.capable, Capset.get_task, Capset.put_task. cr_unfold. rewrite Hc, Hcap. cbn [negb].
    unfold Capset.cap_set_pg. cr_unfold. cbv beta. cbn [negb]. by rewrite pg_leaders_empty.
Qed.

(** ** Witnesses *)

(** An ordinary task that runs a set-uid program of user 500, and root. *)
Definition ex_task : task_struct :=
  mk_task 100 (mk_ids 1000 500 500 500) (mk_ids 1000 1000 1000 1000)
    (mk_caps 0 0 0) 0 false 4096.
Definition ex_users : Users.cache :=
  Users.mk_cache {[ 4096 := Users.mk_user 1000 1 1 0 0 0 0 ]}
    (alter (cons 4096) (Z.to_nat (Users.__uidhashfn 1000)) (replicate 256 [])).
Definition ex_proc : proc := mk_proc ex_task 1 1024 ex_users.
Definition ex_root : proc :=
  mk_proc (mk_task 100 (mk_ids 0 0 0 0) (mk_ids 0 0 0 0)
             (mk_caps CAP_INIT_EFF_SET 0 CAP_FULL_SET) 0 false Users.root_user)
    1 1024 Users.uid_cache_init.

Lemma setid_calls_confined_witness :
  confined ex_task (current (run_calls [Setreuid (Some 8192) 500 1000; Setuid None 0] ex_proc)).
Proof.
  apply (setid_calls_confined ex_proc [Setreuid (Some 8192) 500 1000; Setuid None 0]).
  split_and!; [|done|done]. intros i _ H. by rewrite Z.bits_0 in H.
Defined.

Lemma setuid_drop_permanent_witness :
  let s' := (sys_setuid (Some 8192) 1000 ex_root).2 in
  let t := current (run_calls [Setuid None 0; Setreuid None 0 0] s') in
  uids t = mk_ids 1000 1000 1000 1000 ∧ effective (caps t) = 0 ∧ permitted (caps t) = 0.
Proof.
  apply (setuid_drop_permanent ex_root (Some 8192) 1000 0 _ _);
    [reflexivity|left; reflexivity|reflexivity|done|vm_compute; reflexivity].
Defined.

Lemma setid_accounting_witness :
  call_ok (λ p, if decide (p = Users.root_user) then 1 else 0) (λ _, 0) ex_root
    (do_call (Setuid (Some 8192) 1000) ex_root).
Proof.
  apply setid_accounting; [|by intros new [= <-]].
  split_and!; [exact Users.uid_cache_init_inv|done|].
  by exists (Users.mk_user 0 1 1 0 0 0 0).
Defined.

Lemma exec_creds_safe_witness :
  pid (current ex_proc) ≠ 1 ∧
  ∃ s', exec_creds CAP_INIT_EFF_SET 2 (mk_bprm 0 0 (mk_caps 0 0 0)) ex_proc = (Ok tt, s').
Proof.
  split; [done|].
  destruct (exec_creds_safe CAP_INIT_EFF_SET 2 (mk_bprm 0 0 (mk_caps 0 0 0)) ex_proc)
    as (s' & E & _); [done|]. by exists s'.
Defined.

Definition ex_table : Capset.table :=
  Capset.mk_table {[ 100 := set_caps (mk_caps CAP_FULL_SET 0 CAP_FULL_SET) ex_task;
                     200 := ex_task; 201 := ex_task ]}
    [[100]; [200; 201]] {[ 100 := [100]; 200 := [200] ]} 100.

Lemma sys_capset_confined_witness :
  ∃ r s', Capset.sys_capset
      (Some (Capset.mk_header Capset._LINUX_CAPABILITY_VERSION (-200))) true
      (Some (mk_caps 1 0 3)) ex_table = (r, s') ∧ r ≠ Bug ∧
    table_granted CAP_FULL_SET ex_table s'.
Proof.
  apply (sys_capset_confined ex_table _ true _ (set_caps (mk_caps CAP_FULL_SET 0 CAP_FULL_SET) ex_task));
    [reflexivity|]. by repeat constructor; eexists; vm_compute.
Defined.

(** A caller with every capability and a group of one single-threaded process. *)
Definition ex_caller : task_struct := set_caps (mk_caps CAP_FULL_SET 0 CAP_FULL_SET) ex_task.

Lemma capset_pg_skips_leaders_witness :
  Capset.sys_capset (Some (Capset.mk_header Capset._LINUX_CAPABILITY_VERSION (-100))) true (Some (mk_caps 0 0 0)) ex_table
  = (Ok 0, Capset.set_tasks (<[100 := set_superpriv ex_caller]> (Capset.tasks ex_table)) ex_table).
Proof.
  apply (capset_pg_skips_leaders ex_table (-100) true (Some (mk_caps 0 0 0)) ex_caller);
    [by vm_compute|done|done|apply (bool_decide_eq_true _); by vm_compute|by repeat constructor|by vm_compute|done].
Defined.

End CredFacts.
