(* ===== verification/Buddy.v ===== *)
(** * The page allocator of one zone (mm/page_alloc.c): definitions

    The buddy system [__free_pages_bulk] / [__rmqueue] with [expand], the per-CPU
    page lists in front of it ([free_hot_cold_page], [buffered_rmqueue]), and
    the watermark test.  Pages are named by their index from the zone's
    [zone_mem_map]; all pages of the index range belong to the zone.
    CONFIG_HUGETLB_PAGE is off, so there are no compound pages; there is one CPU,
    with its hot and its cold list; the statistics counters, the kernel mapping
    and the page contents are not represented.  The counters [free_pages] and
    [nr_free] are kept in [Z]: the invariant bounds them by the zone's size.

    The list head [lru] of a page links it into at most one list.  A deletion
    from a list the page is not on would corrupt another list, and is [Bug]. *)

From stdpp Require Import prelude numbers list gmap.
From Stdlib Require Import ZArith Lia.
From S2P Require Import Prelude.

#[local] Set Default Goal Selector "!".
#[local] Open Scope Z_scope.

Module Buddy.

Definition MAX_ORDER : nat := 11.

(** include/linux/page-flags.h *)
Definition PG_locked : Z := 0.
Definition PG_error : Z := 1.
Definition PG_referenced : Z := 2.
Definition PG_uptodate : Z := 3.
Definition PG_dirty : Z := 4.
Definition PG_lru : Z := 5.
Definition PG_active : Z := 6.
Definition PG_slab : Z := 7.
Definition PG_checked : Z := 9.
Definition PG_arch_1 : Z := 10.
Definition PG_reserved : Z := 11.
Definition PG_private : Z := 12.
Definition PG_writeback : Z := 13.
Definition PG_swapcache : Z := 16.
Definition PG_mappedtodisk : Z := 17.
Definition PG_reclaim : Z := 18.

Record page := mk_page {
  flags : Z;
  pcount : Z;           (* page_count(), that is _count + 1 *)
  mapcount : Z;         (* page_mapcount(), that is _mapcount + 1 *)
  mapping : Z;          (* 0 is NULL *)
  private_ : Z
}.

Definition set_flags f p := mk_page f (pcount p) (mapcount p) (mapping p) (private_ p).
Definition set_count c p := mk_page (flags p) c (mapcount p) (mapping p) (private_ p).
Definition set_mapping m p := mk_page (flags p) (pcount p) (mapcount p) m (private_ p).
Definition set_private v p := mk_page (flags p) (pcount p) (mapcount p) (mapping p) v.

Record free_area := mk_area { free_list : list Z; nr_free : Z }.

Record per_cpu_pages := mk_pcp {
  count : Z; low : Z; high : Z; batch : Z; plist : list Z
}.

Record zone := mk_zone {
  mem_map : gmap Z page;
  spanned_pages : Z;
  areas : list free_area;
  free_pages : Z;
  pcps : list per_cpu_pages;
  all_unreclaimable : Z;
  pages_scanned : Z;
  tainted : bool
}.

Definition set_mem_map m z := mk_zone m (spanned_pages z) (areas z) (free_pages z)
  (pcps z) (all_unreclaimable z) (pages_scanned z) (tainted z).
Definition set_areas a z := mk_zone (mem_map z) (spanned_pages z) a (free_pages z)
  (pcps z) (all_unreclaimable z) (pages_scanned z) (tainted z).
Definition set_free_pages n z := mk_zone (mem_map z) (spanned_pages z) (areas z) n
  (pcps z) (all_unreclaimable z) (pages_scanned z) (tainted z).
Definition set_pcps l z := mk_zone (mem_map z) (spanned_pages z) (areas z)
  (free_pages z) l (all_unreclaimable z) (pages_scanned z) (tainted z).
Definition reset_scan z := mk_zone (mem_map z) (spanned_pages z) (areas z)
  (free_pages z) (pcps z) 0 0 (tainted z).
Definition set_tainted z := mk_zone (mem_map z) (spanned_pages z) (areas z)
  (free_pages z) (pcps z) (all_unreclaimable z) (pages_scanned z) true.

(** ** Access to the page array and the free areas *)

Definition getp (i : Z) : SM zone page := λ z,
  match mem_map z !! i with Some p => (Ok p, z) | None => (Bug, z) end.

Definition updp (i : Z) (f : page → page) : SM zone unit := λ z,
  match mem_map z !! i with
  | Some p => (Ok tt, set_mem_map (<[i := f p]> (mem_map z)) z)
  | None => (Bug, z)
  end.

Definition get_area (o : nat) : SM zone free_area := λ z,
  match areas z !! o with Some a => (Ok a, z) | None => (Bug, z) end.

Definition put_area (o : nat) (a : free_area) : SM zone unit :=
  modify (λ z, set_areas (<[o := a]> (areas z)) z).

(** [list_add(&page->lru, &area->free_list); area->nr_free++] *)
Definition area_add (o : nat) (i : Z) : SM zone unit :=
  a ← get_area o; put_area o (mk_area (i :: free_list a) (nr_free a + 1)).

(** [list_del(&page->lru); area->nr_free--] *)
Definition area_del (o : nat) (i : Z) : SM zone unit :=
  a ← get_area o;
  if decide (i ∈ free_list a)
  then put_area o (mk_area (filter (λ j, j ≠ i) (free_list a)) (nr_free a - 1))
  else bug.

Definition size (o : nat) : Z := 2 ^ Z.of_nat o.

Definition bad_range (z : zone) (i : Z) : bool := (spanned_pages z <=? i) || (i <? 0).

(** ** Page state *)

Definition PageReserved (p : page) : bool := Z.testbit (flags p) PG_reserved.
Definition PagePrivate (p : page) : bool := Z.testbit (flags p) PG_private.

Definition set_page_order (i : Z) (o : nat) : SM zone unit :=
  updp i (λ p, set_flags (Z.setbit (flags p) PG_private) (set_private (Z.of_nat o) p)).

Definition rmv_page_order (i : Z) : SM zone unit :=
  updp i (λ p, set_private 0 (set_flags (Z.clearbit (flags p) PG_private) p)).

Definition page_is_buddy (p : page) (o : nat) : bool :=
  PagePrivate p && (private_ p =? Z.of_nat o) && negb (PageReserved p) && (pcount p =? 0).

Definition mask (l : list Z) : Z := foldr (λ b m, Z.lor (Z.shiftl 1 b) m) 0 l.

Definition bad_page (i : Z) : SM zone unit :=
  _ ← updp i (λ p,
        mk_page (Z.ldiff (flags p) (mask [PG_private; PG_locked; PG_lru; PG_active;
                                          PG_dirty; PG_swapcache; PG_writeback]))
          0 0 0 (private_ p));
  modify set_tainted.

Definition free_pages_check (i : Z) : SM zone unit :=
  p ← getp i;
  _ ← when ((0 <? mapcount p) || negb (mapping p =? 0) || negb (pcount p =? 0) ||
            negb (Z.land (flags p) (mask [PG_lru; PG_private; PG_locked; PG_active;
                    PG_reclaim; PG_slab; PG_swapcache; PG_writeback]) =? 0))
        (bad_page i);
  updp i (λ p, if Z.testbit (flags p) PG_dirty
               then set_flags (Z.clearbit (flags p) PG_dirty) p else p).

(** ** Freeing a block *)

(** The [while (order < MAX_ORDER-1)] loop: merges the block with its buddy as
    long as the buddy is free.  It runs at most [MAX_ORDER - 1 - order] times. *)
Fixpoint merge (fuel : nat) (page_idx : Z) (order : nat) : SM zone (Z * nat) :=
  match fuel with
  | O => mret (page_idx, order)
  | S fuel' =>
      let buddy_idx := Z.lxor page_idx (Z.shiftl 1 (Z.of_nat order)) in
      z ← gets id;
      if bad_range z buddy_idx then mret (page_idx, order) else
      buddy ← getp buddy_idx;
      if negb (page_is_buddy buddy order) then mret (page_idx, order) else
      _ ← area_del order buddy_idx;
      _ ← rmv_page_order buddy_idx;
      merge fuel' (Z.land page_idx buddy_idx) (S order)
  end.

Definition __free_pages_bulk (page_idx : Z) (order : nat) : SM zone unit :=
  let order_size := Z.shiftl 1 (Z.of_nat order) in
  z ← gets id;
  if negb (Z.land page_idx (order_size - 1) =? 0) then bug else
  if bad_range z page_idx then bug else
  _ ← modify (λ z, set_free_pages (free_pages z + order_size) z);
  '(idx, o) ← merge (MAX_ORDER - 1 - order) page_idx order;
  _ ← set_page_order idx o;
  area_add o idx.

(** [free_pages_bulk]: frees from the tail of [list] while it has pages and
    [count--] was not 0; returns the number freed and the pages left. *)
Fixpoint free_bulk_loop (fuel : nat) (count : Z) (l : list Z) (order : nat) (ret : Z)
  : SM zone (Z * list Z) :=
  match fuel with
  | O => mret (ret, l)
  | S fuel' =>
      match last l with
      | None => mret (ret, l)
      | Some page =>
          if count =? 0 then mret (ret, l) else
          _ ← __free_pages_bulk page order;
          free_bulk_loop fuel' (count - 1) (removelast l) order (ret + 1)
      end
  end.

Definition free_pages_bulk (count : Z) (l : list Z) (order : nat) : SM zone (Z * list Z) :=
  _ ← modify reset_scan;
  free_bulk_loop (length l) count l order 0.

Fixpoint check_pages (n : nat) (i : Z) : SM zone unit :=
  match n with
  | O => mret tt
  | S n' => _ ← free_pages_check i; check_pages n' (i + 1)
  end.

Definition __free_pages_ok (i : Z) (order : nat) : SM zone unit :=
  _ ← check_pages (Z.to_nat (size order)) i;
  _ ← free_pages_bulk 1 [i] order;
  mret tt.

(** ** Taking a block *)

Fixpoint expand (fuel : nat) (i : Z) (lo hi : nat) : SM zone Z :=
  match fuel with
  | O => mret i
  | S fuel' =>
      if decide (lo < hi)%nat then
        let hi' := pred hi in
        z ← gets id;
        if bad_range z (i + size hi') then bug else
        _ ← area_add hi' (i + size hi');
        _ ← set_page_order (i + size hi') hi';
        expand fuel' i lo hi'
      else mret i
  end.

Fixpoint rmqueue_from (fuel : nat) (order current_order : nat) : SM zone (option Z) :=
  match fuel with
  | O => mret None
  | S fuel' =>
      area ← get_area current_order;
      match free_list area with
      | [] => rmqueue_from fuel' order (S current_order)
      | page :: _ =>
          _ ← area_del current_order page;
          _ ← rmv_page_order page;
          _ ← modify (λ z, set_free_pages (free_pages z - Z.shiftl 1 (Z.of_nat order)) z);
          r ← expand (current_order - order) page order current_order;
          mret (Some r)
      end
  end.

Definition __rmqueue (order : nat) : SM zone (option Z) :=
  rmqueue_from (MAX_ORDER - order) order order.

Fixpoint rmqueue_bulk (order : nat) (count : nat) (l : list Z) : SM zone (list Z) :=
  match count with
  | O => mret l
  | S c =>
      page ← __rmqueue order;
      match page with
      | None => mret l
      | Some i => rmqueue_bulk order c (l ++ [i])
      end
  end.

(** ** The per-CPU lists *)

Definition get_pcp (c : nat) : SM zone per_cpu_pages := λ z,
  match pcps z !! c with Some p => (Ok p, z) | None => (Bug, z) end.
Definition put_pcp (c : nat) (p : per_cpu_pages) : SM zone unit :=
  modify (λ z, set_pcps (<[c := p]> (pcps z)) z).

Definition PageAnon (p : page) : bool := Z.testbit (mapping p) 0.

Definition free_hot_cold_page (i : Z) (cold : nat) : SM zone unit :=
  _ ← updp i (λ p, if PageAnon p then set_mapping 0 p else p);
  _ ← free_pages_check i;
  pcp ← get_pcp cold;
  pcp' ← (if high pcp <=? count pcp
          then '(n, rest) ← free_pages_bulk (batch pcp) (plist pcp) 0;
               mret (mk_pcp (count pcp - n) (low pcp) (high pcp) (batch pcp) rest)
          else mret pcp);
  put_pcp cold (mk_pcp (count pcp' + 1) (low pcp') (high pcp') (batch pcp')
                  (i :: plist pcp')).

Definition __GFP_HIGHMEM : Z := 0x02.
Definition __GFP_WAIT : Z := 0x10.
Definition __GFP_COLD : Z := 0x100.
Definition __GFP_ZERO : Z := 0x8000.

Definition prep_new_page (i : Z) : SM zone unit :=
  p ← getp i;
  _ ← when (negb (mapping p =? 0) || (0 <? mapcount p) ||
            negb (Z.land (flags p) (mask [PG_private; PG_locked; PG_lru; PG_active; PG_dirty;
                    PG_reclaim; PG_swapcache; PG_writeback]) =? 0))
        (bad_page i);
  updp i (λ p, set_count 1 (set_private 0
    (set_flags (Z.ldiff (flags p) (mask [PG_uptodate; PG_error; PG_referenced; PG_arch_1;
                                          PG_checked; PG_mappedtodisk])) p))).

Definition buffered_rmqueue (order : nat) (gfp_flags : Z) : SM zone (option Z) :=
  let cold := if negb (Z.land gfp_flags __GFP_COLD =? 0) then 1%nat else 0%nat in
  page ←
    (if decide (order = 0)%nat then
       pcp ← get_pcp cold;
       pcp' ← (if count pcp <=? low pcp
               then l ← rmqueue_bulk 0 (Z.to_nat (batch pcp)) (plist pcp);
                    mret (mk_pcp (count pcp + (Z.of_nat (length l) - Z.of_nat (length (plist pcp))))
                            (low pcp) (high pcp) (batch pcp) l)
               else mret pcp);
       if negb (count pcp' =? 0) then
         match plist pcp' with
         | [] => bug
         | i :: rest =>
             _ ← put_pcp cold (mk_pcp (count pcp' - 1) (low pcp') (high pcp') (batch pcp') rest);
             mret (Some i)
         end
       else _ ← put_pcp cold pcp'; mret None
     else mret None);
  page' ← (match page with
           | Some i => mret (Some i)
           | None => __rmqueue order
           end);
  match page' with
  | None => mret None
  | Some i =>
      z ← gets id;
      if bad_range z i then bug else
      _ ← prep_new_page i;
      _ ← when (negb (Z.land gfp_flags __GFP_ZERO =? 0) &&
                (Z.land gfp_flags (Z.lor __GFP_WAIT __GFP_HIGHMEM) =? __GFP_HIGHMEM)) bug;
      mret (Some i)
  end.

(** [put_page_testzero] *)
Definition put_page_testzero (i : Z) : SM zone bool :=
  p ← getp i;
  if pcount p =? 0 then bug else
  _ ← updp i (λ p, set_count (pcount p - 1) p);
  mret (pcount p - 1 <=? 0).

Definition __free_pages (i : Z) (order : nat) : SM zone unit :=
  p ← getp i;
  if PageReserved p then mret tt else
  last ← put_page_testzero i;
  if negb last then mret tt else
  if decide (order = 0)%nat then free_hot_cold_page i 0 else __free_pages_ok i order.

(** ** Watermarks *)

Fixpoint watermark_loop (n : nat) (o : nat) (l : list free_area) (free min : Z) : bool :=
  match n with
  | O => true
  | S n' =>
      match l with
      | [] => false
      | a :: l' =>
          let free' := free - Z.shiftl (nr_free a) (Z.of_nat o) in
          let min' := Z.shiftr min 1 in
          if free' <=? min' then false else watermark_loop n' (S o) l' free' min'
      end
  end.

Definition zone_watermark_ok (z : zone) (order : nat) (mark lowmem_reserve : Z)
  (can_try_harder gfp_high : bool) : bool :=
  let free := free_pages z - size order + 1 in
  let min := if gfp_high then mark - mark ÷ 2 else mark in
  let min := if can_try_harder then min - min ÷ 4 else min in
  if free <=? min + lowmem_reserve then false
  else watermark_loop order 0 (areas z) free min.

End Buddy.
