(* ===== verification/BuddyFacts.v ===== *)
(** * Theorems on the buddy system of a zone

    Buddy arithmetic, the invariant of the free lists, and the refinement of
    [__free_pages_bulk], [__rmqueue] and the watermark test to operations on the
    set of free pages. *)

From stdpp Require Import prelude numbers list gmap.
From Stdlib Require Import ZArith Lia.
From S2P Require Import Prelude Buddy.

#[local] Set Default Goal Selector "!".
#[local] Open Scope Z_scope.

Module BuddyFacts.
Import Buddy.

(** ** Index arithmetic of buddies *)

Lemma blk_size_pos o : 0 < size o.
Proof. apply pow2_pos. lia. Qed.
#[export] Hint Resolve blk_size_pos : kern.

Lemma size_S o : size (S o) = 2 * size o.
Proof. unfold size. rewrite Nat2Z.inj_succ, Z.pow_succ_r by lia. lia. Qed.

Lemma shiftl_size o : Z.shiftl 1 (Z.of_nat o) = size o.
Proof. unfold size. rewrite Z.shiftl_1_l. done. Qed.

Lemma size_le o o' : (o <= o')%nat → size o <= size o'.
Proof. intros. unfold size. apply Z.pow_le_mono_r; lia. Qed.

Lemma size_divide o o' : (o <= o')%nat → (size o | size o').
Proof.
  intros. exists (2 ^ (Z.of_nat o' - Z.of_nat o)). unfold size.
  rewrite <- Z.pow_add_r by lia. f_equal. lia.
Qed.

(** A block and its buddy are the two halves of an aligned block twice the
    size, and [&] of the two indices is that block's index. *)
Lemma buddy_halves o i : (size o | i) →
  let b := Z.lxor i (size o) in
  let base := Z.land i b in
  (size (S o) | base) ∧
  ((i = base ∧ b = base + size o) ∨ (i = base + size o ∧ b = base)).
Proof.
  intros [j ->]. rewrite size_S. cbn zeta. unfold size. set (n := Z.of_nat o).
  assert (Hn : 0 <= n) by lia.
  assert (Ex : Z.lxor (j * 2 ^ n) (2 ^ n) = Z.lxor j 1 * 2 ^ n).
  { transitivity (Z.lxor (Z.shiftl j n) (Z.shiftl 1 n)).
    - by rewrite Z.shiftl_mul_pow2, Z.shiftl_1_l by done.
    - by rewrite <- Z.shiftl_lxor, Z.shiftl_mul_pow2 by done. }
  rewrite Ex. rewrite <- !Z.shiftl_mul_pow2, <- Z.shiftl_land, !Z.shiftl_mul_pow2 by done.
  assert (Hj : ∃ k, (j = 2 * k ∧ Z.lxor j 1 = 2 * k + 1 ∧ Z.land j (Z.lxor j 1) = 2 * k) ∨
                    (j = 2 * k + 1 ∧ Z.lxor j 1 = 2 * k ∧ Z.land j (Z.lxor j 1) = 2 * k)).
  { exists (j / 2). pose proof (Z.div_mod j 2 ltac:(lia)) as Hdm.
    pose proof (Z.mod_pos_bound j 2 ltac:(lia)). set (k := j / 2) in *. clearbody k.
    assert (E1 : Z.lxor (2 * k) 1 = 2 * k + 1).
    { apply Z.bits_inj'. intros m Hm. rewrite Z.lxor_spec.
      destruct (Z.eq_dec m 0) as [->|].
      - by rewrite Z.testbit_even_0, Z.testbit_odd_0.
      - replace m with (Z.succ (Z.pred m)) by lia.
        rewrite Z.testbit_even_succ, Z.testbit_odd_succ by lia.
        change 1 with (2 * 0 + 1). rewrite Z.testbit_odd_succ, Z.bits_0 by lia.
        apply xorb_false_r. }
    assert (E2 : Z.land (2 * k) (2 * k + 1) = 2 * k).
    { apply Z.bits_inj'. intros m Hm. rewrite Z.land_spec.
      destruct (Z.eq_dec m 0) as [->|].
      - by rewrite Z.testbit_even_0.
      - replace m with (Z.succ (Z.pred m)) by lia.
        rewrite Z.testbit_even_succ, Z.testbit_odd_succ by lia. apply andb_diag. }
    assert (j mod 2 = 0 ∨ j mod 2 = 1) as [E|E] by lia; rewrite E in Hdm.
    - left. rewrite Z.add_0_r in Hdm. rewrite Hdm, E1, E2. done.
    - right. rewrite Hdm, <- E1, Z.lxor_assoc, Z.lxor_nilpotent, Z.lxor_0_r, E1.
      rewrite Z.land_comm, E2. done. }
  destruct Hj as [k [(E1 & E2 & E3)|(E1 & E2 & E3)]]; rewrite E2 in *; rewrite E3, E1;
    (split; [exists k; lia|lia]).
Qed.

(** ** The free blocks *)

Definition inb (o : nat) (i x : Z) : Prop := i <= x < i + size o.

Definition blk (z : zone) (o : nat) (i : Z) : Prop :=
  ∃ a, areas z !! o = Some a ∧ i ∈ free_list a.

Definition free (z : zone) (x : Z) : Prop := ∃ o i, blk z o i ∧ inb o i x.

Fixpoint total (o : nat) (l : list free_area) : Z :=
  match l with
  | [] => 0
  | a :: l' => size o * Z.of_nat (length (free_list a)) + total (S o) l'
  end.

Definition clean (p : page) : Prop := pcount p = 0 ∧ PageReserved p = false.

(** The invariant of the buddy system, all but the page counter. *)
Record core (z : zone) : Prop := {
  c_len : length (areas z) = MAX_ORDER;
  c_dom i : is_Some (mem_map z !! i) ↔ 0 <= i < spanned_pages z;
  c_blk o i : blk z o i → (size o | i) ∧ 0 <= i ∧ i + size o <= spanned_pages z;
  c_disj o i o' i' x : blk z o i → blk z o' i' → inb o i x → inb o' i' x → o = o' ∧ i = i';
  c_list o a : areas z !! o = Some a →
    NoDup (free_list a) ∧ nr_free a = Z.of_nat (length (free_list a));
  c_head o i p : mem_map z !! i = Some p → page_is_buddy p o = true ↔ blk z o i;
  c_page x p : free z x → mem_map z !! x = Some p →
    clean p ∧ (PagePrivate p = true → ∃ o, blk z o x);
  c_max o i : (S o < MAX_ORDER)%nat → blk z o i → ¬ blk z o (Z.lxor i (size o))
}.

Definition buddy_inv (z : zone) : Prop := core z ∧ free_pages z = total 0 (areas z).

(** A block that belongs to no list: being freed, or just taken. *)
Record hand (z : zone) (o : nat) (i : Z) : Prop := {
  h_order : (o < MAX_ORDER)%nat;
  h_align : (size o | i);
  h_range : 0 <= i ∧ i + size o <= spanned_pages z;
  h_disj x : inb o i x → ¬ free z x;
  h_page x p : inb o i x → mem_map z !! x = Some p → clean p ∧ PagePrivate p = false
}.

(** What a buddy operation leaves alone. *)
Record same_rest (z z' : zone) : Prop := {
  sr_span : spanned_pages z' = spanned_pages z;
  sr_pcps : pcps z' = pcps z;
  sr_taint : tainted z' = tainted z
}.

#[export] Instance same_rest_preorder : PreOrder same_rest.
Proof. split; [done|]. intros ? ? ? [] []. split; congruence. Qed.

#[export] Instance inb_dec o i x : Decision (inb o i x).
Proof. unfold inb. apply _. Defined.

Lemma inb_head o i : inb o i i.
Proof. unfold inb. pose proof (blk_size_pos o). lia. Qed.
#[export] Hint Resolve inb_head : kern.

Lemma total_insert l o o0 a b : l !! o = Some a →
  total o0 (<[o := b]> l) = total o0 l +
    size (o0 + o) * (Z.of_nat (length (free_list b)) - Z.of_nat (length (free_list a))).
Proof.
  revert o o0. induction l as [|c l IH]; intros o o0 H; [done|].
  destruct o as [|o]; cbn in *.
  - injection H as ->. rewrite Nat.add_0_r. lia.
  - rewrite (IH _ _ H). replace (S o0 + o)%nat with (o0 + S o)%nat by lia. lia.
Qed.

Lemma private_setbit p o : PagePrivate
  (set_flags (Z.setbit (flags p) PG_private) (set_private (Z.of_nat o) p)) = true.
Proof. unfold PagePrivate. cbn [flags set_flags set_private]. apply Z.setbit_eq. done. Qed.

Lemma private_clearbit p : PagePrivate
  (set_private 0 (set_flags (Z.clearbit (flags p) PG_private) p)) = false.
Proof. unfold PagePrivate. cbn [flags set_flags set_private]. apply Z.clearbit_eq. Qed.

Lemma reserved_setbit p o : PageReserved
  (set_flags (Z.setbit (flags p) PG_private) (set_private (Z.of_nat o) p)) = PageReserved p.
Proof. unfold PageReserved. cbn [flags set_flags set_private]. by rewrite Z.setbit_neq. Qed.

Lemma reserved_clearbit p : PageReserved
  (set_private 0 (set_flags (Z.clearbit (flags p) PG_private) p)) = PageReserved p.
Proof. unfold PageReserved. cbn [flags set_flags set_private]. by rewrite Z.clearbit_neq. Qed.

(** ** Taking a block off its list *)

Lemma blk_insert z o a b m o' i : areas z !! o = Some a →
  blk (set_mem_map m (set_areas (<[o := b]> (areas z)) z)) o' i ↔
  (o' = o ∧ i ∈ free_list b) ∨ (o' ≠ o ∧ blk z o' i).
Proof.
  intros Ha. unfold blk. cbn. split.
  - intros (c & Hc & Hi). destruct (decide (o' = o)) as [->|Hne].
    + left. rewrite list_lookup_insert_eq in Hc by (by eapply lookup_lt_Some).
      by simplify_eq.
    + right. rewrite list_lookup_insert_ne in Hc by done. eauto.
  - intros [[-> Hi]|[Hne (c & Hc & Hi)]].
    + exists b. by rewrite list_lookup_insert_eq by (by eapply lookup_lt_Some).
    + exists c. by rewrite list_lookup_insert_ne.
Qed.

Definition take_blk (z : zone) (o : nat) (a : free_area) (i : Z) (p : page) : zone :=
  set_mem_map (<[i := set_private 0 (set_flags (Z.clearbit (flags p) PG_private) p)]>
                 (mem_map z))
    (set_areas (<[o := mk_area (filter (λ j, j ≠ i) (free_list a)) (nr_free a - 1)]>
                  (areas z)) z).

Lemma take_blk_blk z o a i p o' i' : areas z !! o = Some a →
  blk (take_blk z o a i p) o' i' ↔ blk z o' i' ∧ (o', i') ≠ (o, i).
Proof.
  intros Ha. unfold take_blk. rewrite blk_insert by done. cbn [free_list].
  rewrite list_elem_of_filter. split.
  - intros [(-> & Hne & Hi)|[Hne Hb]]; (split; [|congruence]); [|done].
    by exists a.
  - intros [Hb Hne]. destruct (decide (o' = o)) as [->|]; [left|by right].
    destruct Hb as (c & Hc & Hi). simplify_eq. split_and!; [done| |done].
    intros ->. done.
Qed.

Lemma take_blk_free z o a i p x : core z → areas z !! o = Some a → i ∈ free_list a →
  free (take_blk z o a i p) x ↔ free z x ∧ ¬ inb o i x.
Proof.
  intros Hz Ha Hi. assert (Hb : blk z o i) by (by exists a).
  unfold free. setoid_rewrite take_blk_blk; [|done]. split.
  - intros (o' & i' & [Hb' Hne] & Hx). split; [eauto|]. intros Hx'.
    destruct (c_disj _ Hz _ _ _ _ _ Hb Hb' Hx' Hx) as [-> ->]. done.
  - intros [(o' & i' & Hb' & Hx) Hn]. exists o', i'. split_and!; [done| |done].
    intros [= -> ->]. done.
Qed.

Lemma buddy_private p o : page_is_buddy p o = true → PagePrivate p = true.
Proof. unfold page_is_buddy. intros H. zb_hyps. done. Qed.

Lemma page_is_buddy_spec p o : page_is_buddy p o = true ↔
  PagePrivate p = true ∧ private_ p = Z.of_nat o ∧ clean p.
Proof.
  unfold page_is_buddy, clean. rewrite !andb_true_iff, !Z.eqb_eq, negb_true_iff. tauto.
Qed.

(** A page of a free block that is not its first page has PG_private clear. *)
Lemma tail_not_private z o i x p : core z → blk z o i → inb o i x → x ≠ i →
  mem_map z !! x = Some p → PagePrivate p = false.
Proof.
  intros Hz Hb Hx Hne Hp. destruct (PagePrivate p) eqn:E; [|done].
  destruct (c_page _ Hz x p) as [_ (o' & Hb')]; [by exists o, i|done|done|].
  destruct (c_disj _ Hz _ _ _ _ x Hb Hb') as [-> ->]; auto with kern. done.
Qed.

Lemma take_blk_core z o a i p : core z → areas z !! o = Some a → i ∈ free_list a →
  mem_map z !! i = Some p → core (take_blk z o a i p).
Proof.
  intros Hz Ha Hi Hp. assert (Hb : blk z o i) by (by exists a).
  assert (Hblk : ∀ o' i', blk (take_blk z o a i p) o' i' → blk z o' i')
    by (intros o' i' H; by apply take_blk_blk in H as []).
  split.
  - cbn. rewrite length_insert. apply Hz.
  - intros x. cbn. rewrite <- (c_dom _ Hz). destruct (decide (x = i)) as [->|].
    + rewrite lookup_insert_eq, Hp. split; eauto.
    + by rewrite lookup_insert_ne.
  - intros o' i' H%Hblk. by apply (c_blk _ Hz).
  - intros o1 i1 o2 i2 x H1%Hblk H2%Hblk. by apply (c_disj _ Hz).
  - intros o' b. cbn. destruct (decide (o' = o)) as [->|].
    + rewrite list_lookup_insert_eq by (by eapply lookup_lt_Some). intros [= <-].
      destruct (c_list _ Hz _ _ Ha) as [Hnd Hn]. cbn. split; [by apply NoDup_filter|].
      rewrite Hn. apply list_elem_of_lookup in Hi as [k Hk].
      rewrite <- (take_drop_middle _ _ _ Hk) in Hnd |- *.
      apply NoDup_app in Hnd as (_ & Hd & Hnd). apply NoDup_cons in Hnd as [Hni _].
      rewrite filter_app, filter_cons_False by auto.
      rewrite !list_filter_all.
      * rewrite !length_app. cbn. lia.
      * apply Forall_forall. intros j Hj ->. done.
      * apply Forall_forall. intros j Hj ->. apply (Hd i Hj). by left.
    + rewrite list_lookup_insert_ne by done. apply (c_list _ Hz).
  - intros o' i' q. rewrite take_blk_blk by done. cbn.
    destruct (decide (i' = i)) as [->|Hne].
    + rewrite lookup_insert_eq. intros [= <-]. rewrite page_is_buddy_spec, private_clearbit.
      split; [by intros []|]. intros [Hb' Hn].
      destruct (c_disj _ Hz _ _ _ _ i Hb' Hb) as [-> _]; auto with kern. done.
    + rewrite lookup_insert_ne by done. intros Hq. rewrite (c_head _ Hz _ _ _ Hq).
      split; [|by intros []]. intros. split; [done|congruence].
  - intros x q. rewrite take_blk_free by done. cbn. intros [Hx Hn].
    rewrite lookup_insert_ne by (intros <-; apply Hn; auto with kern).
    intros Hq. destruct (c_page _ Hz _ _ Hx Hq) as [? Hpr]. split; [done|].
    intros (o' & Hb')%Hpr. exists o'. apply take_blk_blk; [done|]. split; [done|].
    intros [= -> ->]. apply Hn. auto with kern.
  - intros o' i' Ho H%Hblk H'%Hblk. by apply (c_max _ Hz o' i').
Qed.

Lemma blk_order z o i : core z → blk z o i → (o < MAX_ORDER)%nat.
Proof. intros Hz (a & Ha & _). rewrite <- (c_len _ Hz). by eapply lookup_lt_Some. Qed.

Lemma take_blk_hand z o a i p : core z → areas z !! o = Some a → i ∈ free_list a →
  mem_map z !! i = Some p → hand (take_blk z o a i p) o i.
Proof.
  intros Hz Ha Hi Hp. assert (Hb : blk z o i) by (by exists a).
  destruct (c_blk _ Hz _ _ Hb) as (Hal & Hr).
  split; [by eapply blk_order|done|done| |].
  - intros x Hx. rewrite take_blk_free by done. tauto.
  - intros x q Hx. cbn. destruct (decide (x = i)) as [->|Hne].
    + rewrite lookup_insert_eq. intros [= <-]. split; [|apply private_clearbit].
      destruct (c_page _ Hz i p) as [[Hc Hres] _]; [by exists o, i; auto with kern|done|].
      split; [done|]. by rewrite reserved_clearbit.
    + rewrite lookup_insert_ne by done. intros Hq. split.
      * apply (c_page _ Hz x q); [by exists o, i|done].
      * by eapply tail_not_private.
Qed.

(** The three statements that take a block off its list. *)
Lemma take_blk_run z o a i p : areas z !! o = Some a → i ∈ free_list a →
  mem_map z !! i = Some p →
  (_ ← area_del o i; rmv_page_order i) z = (Ok tt, take_blk z o a i p).
Proof.
  intros Ha Hi Hp. unfold area_del, get_area, rmv_page_order, put_area, updp. sm_unfold.
  rewrite Ha. rewrite decide_True by done. cbn. by rewrite Hp.
Qed.

Lemma take_blk_total z o a i p : core z → areas z !! o = Some a → i ∈ free_list a →
  mem_map z !! i = Some p →
  total 0 (areas (take_blk z o a i p)) + size o = total 0 (areas z).
Proof.
  intros Hz Ha Hi Hp. cbn [areas take_blk set_mem_map set_areas].
  rewrite (total_insert _ _ _ _ _ Ha). cbn [free_list].
  pose proof (take_blk_core _ _ _ _ _ Hz Ha Hi Hp) as Hz'.
  destruct (c_list _ Hz' o (mk_area (filter (λ j, j ≠ i) (free_list a)) (nr_free a - 1)))
    as [_ Hl].
  { cbn. by rewrite list_lookup_insert_eq by (by eapply lookup_lt_Some). }
  destruct (c_list _ Hz _ _ Ha) as [_ Hl']. cbn in Hl.
  replace (Z.of_nat (length (filter _ _))) with (Z.of_nat (length (free_list a)) - 1) by lia.
  rewrite Nat.add_0_l. lia.
Qed.

(** ** Putting a block on a list *)

Definition put_blk (z : zone) (o : nat) (a : free_area) (i : Z) (p : page) : zone :=
  set_mem_map (<[i := set_flags (Z.setbit (flags p) PG_private) (set_private (Z.of_nat o) p)]>
                 (mem_map z))
    (set_areas (<[o := mk_area (i :: free_list a) (nr_free a + 1)]> (areas z)) z).

Lemma put_blk_blk z o a i p o' i' : areas z !! o = Some a →
  blk (put_blk z o a i p) o' i' ↔ blk z o' i' ∨ (o' = o ∧ i' = i).
Proof.
  intros Ha. unfold put_blk. rewrite blk_insert by done. cbn [free_list].
  rewrite elem_of_cons. split.
  - intros [(-> & [->|Hi])|[Hne Hb]]; [by right| |by left]. left. by exists a.
  - intros [Hb|[-> ->]]; [|by left; auto].
    destruct (decide (o' = o)) as [->|]; [left|by right].
    destruct Hb as (c & Hc & Hi). simplify_eq. auto.
Qed.

Lemma put_blk_free z o a i p x : areas z !! o = Some a →
  free (put_blk z o a i p) x ↔ free z x ∨ inb o i x.
Proof.
  intros Ha. unfold free. setoid_rewrite put_blk_blk; [|done]. split.
  - intros (o' & i' & [Hb|[-> ->]] & Hx); [left; eauto|by right].
  - intros [(o' & i' & Hb & Hx)|Hx]; eauto 10.
Qed.

Lemma put_blk_core z o a i p : core z → hand z o i →
  ((S o < MAX_ORDER)%nat → ¬ blk z o (Z.lxor i (size o))) →
  areas z !! o = Some a → mem_map z !! i = Some p → core (put_blk z o a i p).
Proof.
  intros Hz Hh Hbud Ha Hp.
  assert (Hi : i ∉ free_list a).
  { intros Hi. apply (h_disj _ _ _ Hh i); [auto with kern|]. exists o, i.
    split; [by exists a|auto with kern]. }
  destruct (h_page _ _ _ Hh i p) as [Hclean Hpriv]; [auto with kern|done|].
  split.
  - cbn. rewrite length_insert. apply Hz.
  - intros x. cbn. rewrite <- (c_dom _ Hz). destruct (decide (x = i)) as [->|].
    + rewrite lookup_insert_eq, Hp. split; eauto.
    + by rewrite lookup_insert_ne.
  - intros o' i'. rewrite put_blk_blk by done. intros [Hb|[-> ->]]; [by apply (c_blk _ Hz)|].
    split; [apply Hh|apply Hh].
  - intros o1 i1 o2 i2 x. rewrite !put_blk_blk by done.
    intros [H1|[-> ->]] [H2|[-> ->]] Hx1 Hx2.
    + by eapply (c_disj _ Hz).
    + by destruct (h_disj _ _ _ Hh x Hx2); exists o1, i1.
    + by destruct (h_disj _ _ _ Hh x Hx1); exists o2, i2.
    + done.
  - intros o' b. cbn. destruct (decide (o' = o)) as [->|].
    + rewrite list_lookup_insert_eq by (by eapply lookup_lt_Some). intros [= <-].
      destruct (c_list _ Hz _ _ Ha) as [Hnd Hn]. cbn. split; [by constructor|]. lia.
    + rewrite list_lookup_insert_ne by done. apply (c_list _ Hz).
  - intros o' i' q. rewrite put_blk_blk by done. cbn. destruct (decide (i' = i)) as [->|Hne].
    + rewrite lookup_insert_eq. intros [= <-].
      rewrite page_is_buddy_spec, private_setbit. unfold clean. rewrite reserved_setbit. cbn.
      split; [|intros [Hb|[-> _]]; [|by destruct Hclean]].
      * intros (_ & E & _). right. split; [lia|done].
      * destruct (h_disj _ _ _ Hh i); [auto with kern|]. exists o', i. auto with kern.
    + rewrite lookup_insert_ne by done. intros Hq. rewrite (c_head _ Hz _ _ _ Hq). tauto.
  - intros x q. rewrite put_blk_free by done. cbn. intros Hx.
    destruct (decide (x = i)) as [->|Hne].
    + rewrite lookup_insert_eq. intros [= <-]. unfold clean. rewrite reserved_setbit. cbn.
      split; [done|]. intros _. exists o. apply put_blk_blk; auto.
    + rewrite lookup_insert_ne by done. intros Hq. destruct Hx as [Hx|Hx].
      * destruct (c_page _ Hz _ _ Hx Hq) as [? Hpr]. split; [done|].
        intros (o' & ?)%Hpr. exists o'. apply put_blk_blk; auto.
      * destruct (h_page _ _ _ Hh _ _ Hx Hq) as [? Hpr]. split; [done|].
        intros Ht. change (PagePrivate q = true) in Ht. congruence.
  - intros o' i' Ho. rewrite !put_blk_blk by done. intros [H1|[-> ->]] [H2|[E1 E2]].
    + by apply (c_max _ Hz o' i').
    + subst o'. apply (Hbud Ho). by rewrite <- E2, Z.lxor_assoc, Z.lxor_nilpotent, Z.lxor_0_r.
    + by apply Hbud.
    + apply (f_equal (λ y, Z.lxor y i)) in E2.
      rewrite Z.lxor_comm, <- Z.lxor_assoc, Z.lxor_nilpotent, Z.lxor_0_l in E2.
      pose proof (blk_size_pos o). lia.
Qed.

Lemma put_blk_total z o a i p : areas z !! o = Some a →
  total 0 (areas (put_blk z o a i p)) = total 0 (areas z) + size o.
Proof.
  intros Ha. cbn [areas put_blk set_mem_map set_areas].
  rewrite (total_insert _ _ _ _ _ Ha). cbn [free_list length]. rewrite Nat.add_0_l. lia.
Qed.

Lemma put_blk_run z o a i p : areas z !! o = Some a → mem_map z !! i = Some p →
  (_ ← set_page_order i o; area_add o i) z = (Ok tt, put_blk z o a i p).
Proof.
  intros Ha Hp. unfold area_add, get_area, set_page_order, put_area, updp. sm_unfold.
  rewrite Hp. cbn. by rewrite Ha.
Qed.

Lemma put_blk_run' z o a i p : areas z !! o = Some a → mem_map z !! i = Some p →
  (_ ← area_add o i; set_page_order i o) z = (Ok tt, put_blk z o a i p).
Proof.
  intros Ha Hp. unfold area_add, get_area, set_page_order, put_area, updp. sm_unfold.
  rewrite Ha. cbn. by rewrite Hp.
Qed.

(** ** Joining and splitting blocks in hand *)

Lemma inb_S o base x : inb (S o) base x ↔ inb o base x ∨ inb o (base + size o) x.
Proof. unfold inb. rewrite size_S. lia. Qed.

Lemma hand_join z o i : (S o < MAX_ORDER)%nat →
  hand z o i → hand z o (Z.lxor i (size o)) →
  hand z (S o) (Z.land i (Z.lxor i (size o))) ∧
  ∀ x, inb (S o) (Z.land i (Z.lxor i (size o))) x ↔ inb o i x ∨ inb o (Z.lxor i (size o)) x.
Proof.
  intros Ho [_ Hal Hr Hd Hp] [_ _ Hr' Hd' Hp'].
  pose proof (buddy_halves o i Hal) as (Hb & Hor). cbn zeta in Hb, Hor.
  set (b := Z.lxor i (size o)) in *. set (base := Z.land i b) in *. clearbody base b.
  assert (Hin : ∀ x, inb (S o) base x ↔ inb o i x ∨ inb o b x).
  { intros x. rewrite inb_S. destruct Hor as [[-> ->]|[-> ->]]; tauto. }
  split; [|done]. pose proof (size_S o).
  split; [done|done|destruct Hor as [[? ?]|[? ?]]; lia| |].
  - intros x [Hx|Hx]%Hin; auto.
  - intros x p [Hx|Hx]%Hin Hq; eauto.
Qed.

Lemma hand_split z o i : hand z (S o) i → hand z o i ∧ hand z o (i + size o) ∧
  Z.lxor (i + size o) (size o) = i.
Proof.
  intros [Ho Hal Hr Hd Hp]. pose proof (size_S o). pose proof (blk_size_pos o).
  assert (Hal' : (size o | i)) by (etrans; [apply (size_divide o (S o)); lia|done]).
  assert (E : Z.lxor i (size o) = i + size o).
  { pose proof (buddy_halves o i Hal') as ((k & Hk) & Hor). cbn zeta in Hk, Hor.
    destruct Hor as [[? ?]|[E1 ?]]; [lia|]. exfalso. destruct Hal as [j Hj].
    assert (E2 : size o * (2 * (j - k)) = size o * 1) by lia.
    apply Z.mul_cancel_l in E2; lia. }
  assert (Hin : ∀ x, inb o i x ∨ inb o (i + size o) x → inb (S o) i x)
    by (intros x; by rewrite inb_S).
  split_and!.
  - split; [lia|done|lia|auto|eauto].
  - split; [lia| |lia|auto|eauto]. apply Z.divide_add_r; [done|]. reflexivity.
  - by rewrite <- E, Z.lxor_assoc, Z.lxor_nilpotent, Z.lxor_0_r.
Qed.

(** Blocks in hand survive operations on other blocks. *)
Lemma hand_frame z z' o i : spanned_pages z' = spanned_pages z →
  (∀ x, inb o i x → ¬ free z' x) →
  (∀ x, inb o i x → mem_map z' !! x = mem_map z !! x) → hand z o i → hand z' o i.
Proof.
  intros Es Hf Hm [Ho Hal Hr Hd Hp]. split; [done|done|by rewrite Es|done|].
  intros x p Hx. rewrite Hm by done. by apply Hp.
Qed.

Lemma core_page z i : core z → 0 <= i < spanned_pages z → ∃ p, mem_map z !! i = Some p.
Proof. intros Hz Hi. by apply (c_dom _ Hz) in Hi as [p ?]; eauto. Qed.

Lemma core_area z o : core z → (o < MAX_ORDER)%nat → ∃ a, areas z !! o = Some a.
Proof. intros Hz Ho. apply lookup_lt_is_Some_2. by rewrite (c_len _ Hz). Qed.

(** ** [__free_pages_bulk] *)

(** The loop ends with a larger block in hand whose buddy is not free. *)
Lemma merge_spec fuel : ∀ z i o, core z → hand z o i → (o + fuel = MAX_ORDER - 1)%nat →
  ∃ z' i' o', merge fuel i o z = (Ok (i', o'), z') ∧ core z' ∧ hand z' o' i' ∧
    same_rest z z' ∧
    ((S o' < MAX_ORDER)%nat → ¬ blk z' o' (Z.lxor i' (size o'))) ∧
    (∀ x, free z' x ∨ inb o' i' x ↔ free z x ∨ inb o i x) ∧
    (∀ x, ¬ free z x → mem_map z' !! x = mem_map z !! x) ∧
    total 0 (areas z') + size o' = total 0 (areas z) + size o ∧
    free_pages z' = free_pages z.
Proof.
  induction fuel as [|fuel IH]; intros z i o Hz Hh Hf.
  { exists z, i, o. split_and!; try done. unfold MAX_ORDER in *. lia. }
  cbn [merge]. sm_unfold. rewrite shiftl_size. unfold id.
  set (b := Z.lxor i (size o)).
  assert (Hstop : ¬ blk z o b → ∃ z' i' o', (Ok (i, o), z) = (Ok (i', o'), z') ∧ core z' ∧
    hand z' o' i' ∧ same_rest z z' ∧
    ((S o' < MAX_ORDER)%nat → ¬ blk z' o' (Z.lxor i' (size o'))) ∧
    (∀ x, free z' x ∨ inb o' i' x ↔ free z x ∨ inb o i x) ∧
    (∀ x, ¬ free z x → mem_map z' !! x = mem_map z !! x) ∧
    total 0 (areas z') + size o' = total 0 (areas z) + size o ∧
    free_pages z' = free_pages z).
  { intros Hb. exists z, i, o. split_and!; done. }
  destruct (bad_range z b) eqn:Hbad.
  { apply Hstop. intros Hb. apply (c_blk _ Hz) in Hb as (_ & ? & ?).
    pose proof (blk_size_pos o). unfold bad_range in Hbad. apply orb_true_iff in Hbad as [?|?];
    zb_hyps; lia. }
  unfold bad_range in Hbad. zb_hyps.
  destruct (core_page z b Hz) as [p Hp]; [lia|]. unfold getp. rewrite Hp.
  destruct (page_is_buddy p o) eqn:Hbud; cbn [negb].
  2:{ apply Hstop. intros Hb. apply (c_head _ Hz _ _ _ Hp) in Hb. congruence. }
  apply (c_head _ Hz _ _ _ Hp) in Hbud as (a & Ha & Hi).
  pose proof (take_blk_run z o a b p Ha Hi Hp) as Hrun. revert Hrun. sm_unfold.
  destruct (area_del o b z) as [[[]| |] z1] eqn:E1; intros Hrun; try done. rewrite Hrun.
  pose proof (take_blk_core _ _ _ _ _ Hz Ha Hi Hp) as Hz1.
  pose proof (take_blk_hand _ _ _ _ _ Hz Ha Hi Hp) as Hh1.
  pose proof (take_blk_total _ _ _ _ _ Hz Ha Hi Hp) as Ht1.
  assert (Hfree : ∀ x, free (take_blk z o a b p) x ↔ free z x ∧ ¬ inb o b x)
    by (intros x; by apply take_blk_free).
  assert (Hbf : ∀ x, inb o b x → free z x) by (intros x Hx; exists o, b; split; [by exists a|done]).
  assert (Hmm : ∀ x, x ≠ b → mem_map (take_blk z o a b p) !! x = mem_map z !! x)
    by (intros x Hx; cbn; by rewrite lookup_insert_ne).
  clear Hrun E1 z1. set (z1 := take_blk z o a b p) in *.
  assert (Hsr : same_rest z z1) by (by split). assert (Efp : free_pages z1 = free_pages z) by done.
  clearbody z1.
  assert (Hh0 : hand z1 o i).
  { eapply hand_frame; [..|exact Hh]; [apply Hsr|intros x Hx|intros x Hx].
    - rewrite Hfree. pose proof (h_disj _ _ _ Hh x Hx). tauto.
    - apply Hmm. intros ->. apply (h_disj _ _ _ Hh b Hx), Hbf. auto with kern. }
  destruct (hand_join z1 o i) as [Hj Hin]; [unfold MAX_ORDER in *; lia|done|done|]. fold b in Hj, Hin.
  destruct (IH z1 _ (S o) Hz1 Hj) as (z' & i' & o' & -> & ? & ? & Hsr' & ? & Hx' & Hm' & ? & ?);
    [lia|].
  exists z', i', o'. split_and!; try done.
  - by etrans.
  - intros x. rewrite Hx', Hin, Hfree. pose proof (Hbf x).
    destruct (decide (inb o b x)); tauto.
  - intros x Hx. rewrite Hm'; [|rewrite Hfree; tauto]. apply Hmm. intros ->. apply Hx, Hbf.
    auto with kern.
  - rewrite size_S in *. lia.
  - lia.
Qed.

Lemma land_aligned i o : (size o | i) → Z.land i (size o - 1) = 0.
Proof.
  intros [j ->]. unfold size. rewrite land_mask by lia. apply Z_mod_mult.
Qed.

Lemma free_block_spec z i o : buddy_inv z → hand z o i →
  ∃ z', __free_pages_bulk i o z = (Ok tt, z') ∧ buddy_inv z' ∧ same_rest z z' ∧
    (∀ x, free z' x ↔ free z x ∨ inb o i x) ∧
    (∀ x, ¬ free z x → ¬ inb o i x → mem_map z' !! x = mem_map z !! x) ∧
    free_pages z' = free_pages z + size o.
Proof.
  intros [Hz Hsum] Hh. unfold __free_pages_bulk. rewrite shiftl_size.
  destruct (h_range _ _ _ Hh). pose proof (blk_size_pos o).
  sm_unfold. unfold id. rewrite land_aligned by apply Hh. cbn [negb Z.eqb].
  assert (Hbad : bad_range z i = false).
  { unfold bad_range. apply orb_false_iff. rewrite Z.leb_gt, Z.ltb_ge. lia. }
  rewrite Hbad. set (z0 := set_free_pages _ z).
  assert (Hz0 : core z0) by (destruct Hz; by split). assert (Hh0 : hand z0 o i) by (destruct Hh; by split).
  pose proof (h_order _ _ _ Hh).
  destruct (merge_spec (MAX_ORDER - 1 - o) z0 i o Hz0 Hh0)
    as (z1 & i1 & o1 & -> & Hz1 & Hh1 & Hsr & Hbud & Hx & Hm & Ht & Efp);
    [unfold MAX_ORDER in *; lia|].
  destruct (core_area z1 o1 Hz1 (h_order _ _ _ Hh1)) as [a Ha].
  pose proof (blk_size_pos o1). pose proof (h_range _ _ _ Hh1).
  destruct (core_page z1 i1 Hz1) as [p Hp]; [lia|].
  pose proof (put_blk_run z1 o1 a i1 p Ha Hp) as Hrun. revert Hrun. sm_unfold. intros ->.
  exists (put_blk z1 o1 a i1 p). split; [done|]. split_and!.
  - split; [by apply put_blk_core|]. rewrite put_blk_total by done.
    change (free_pages z1 = total 0 (areas z1) + size o1). rewrite Efp.
    change (areas z0) with (areas z) in Ht. change (free_pages z0) with (free_pages z + size o).
    lia.
  - destruct Hsr. by split.
  - intros x. rewrite put_blk_free by done. rewrite Hx. done.
  - intros x Hnf Hni. cbn. rewrite lookup_insert_ne; [by apply Hm|].
    intros <-. destruct (proj1 (Hx i1)) as [?|?]; [right; auto with kern|done|done].
  - exact Efp.
Qed.

(** ** [__rmqueue] *)

Lemma expand_spec n : ∀ z i lo hi, core z → hand z hi i → hi = (lo + n)%nat →
  ∃ z', expand n i lo hi z = (Ok i, z') ∧ core z' ∧ hand z' lo i ∧ same_rest z z' ∧
    (∀ x, free z' x ∨ inb lo i x ↔ free z x ∨ inb hi i x) ∧
    (∀ x, ¬ inb hi i x → mem_map z' !! x = mem_map z !! x) ∧
    total 0 (areas z') + size lo = total 0 (areas z) + size hi ∧
    free_pages z' = free_pages z.
Proof.
  induction n as [|n IH]; intros z i lo hi Hz Hh ->.
  { rewrite Nat.add_0_r in *. exists z. split_and!; done. }
  cbn [expand]. rewrite decide_True by lia. replace (lo + S n)%nat with (S (lo + n)) in * by lia.
  cbn [pred]. set (h := (lo + n)%nat) in *. destruct (hand_split _ _ _ Hh) as (Hlo & Hhi & Exor).
  sm_unfold. unfold id. pose proof (blk_size_pos h).
  destruct (h_range _ _ _ Hhi).
  assert (bad_range z (i + size h) = false) as ->.
  { unfold bad_range. apply orb_false_iff. rewrite Z.leb_gt, Z.ltb_ge. lia. }
  destruct (core_area z h Hz (h_order _ _ _ Hhi)) as [a Ha].
  destruct (core_page z (i + size h) Hz) as [p Hp]; [lia|].
  pose proof (put_blk_run' z h a (i + size h) p Ha Hp) as Hrun. revert Hrun. sm_unfold.
  destruct (area_add h (i + size h) z) as [[[]| |] z1] eqn:E1; intros Hrun; try done.
  rewrite Hrun. clear Hrun E1 z1.
  assert (Hdis : ∀ x, inb h i x → ¬ inb h (i + size h) x) by (unfold inb; lia).
  assert (Hz1 : core (put_blk z h a (i + size h) p)).
  { apply put_blk_core; try done. intros _ Hb. rewrite Exor in Hb.
    apply (h_disj _ _ _ Hlo i); [auto with kern|]. exists h, i. auto with kern. }
  assert (Hf1 : ∀ x, free (put_blk z h a (i + size h) p) x ↔ free z x ∨ inb h (i + size h) x)
    by (intros x; by apply put_blk_free).
  pose proof (put_blk_total z h a (i + size h) p Ha) as Ht1.
  assert (Hm1 : ∀ x, x ≠ i + size h →
    mem_map (put_blk z h a (i + size h) p) !! x = mem_map z !! x)
    by (intros x Hx; cbn; by rewrite lookup_insert_ne).
  set (z1 := put_blk z h a (i + size h) p) in *.
  assert (Hsr : same_rest z z1) by (by split). assert (Efp : free_pages z1 = free_pages z) by done.
  clearbody z1.
  assert (Hh1 : hand z1 h i).
  { eapply hand_frame; [..|exact Hlo]; [apply Hsr|intros x Hx|intros x Hx].
    - rewrite Hf1. pose proof (h_disj _ _ _ Hlo x Hx). pose proof (Hdis x Hx). tauto.
    - apply Hm1. intros ->. apply (Hdis _ Hx). auto with kern. }
  destruct (IH z1 i lo h Hz1 Hh1 eq_refl) as (z' & -> & ? & ? & Hsr' & Hx & Hm & Ht & ?).
  exists z'. split_and!; try done.
  - by etrans.
  - intros x. rewrite Hx, Hf1, inb_S. tauto.
  - intros x Hn. rewrite inb_S in Hn. rewrite Hm by tauto. apply Hm1. intros ->.
    apply Hn. right. auto with kern.
  - rewrite size_S in *. lia.
  - lia.
Qed.

(** The loop over the orders from [cur] up. *)
Lemma rmqueue_from_spec fuel : ∀ z order cur, buddy_inv z →
  (order <= cur)%nat → (cur + fuel = MAX_ORDER)%nat →
  (∃ z' i, rmqueue_from fuel order cur z = (Ok (Some i), z') ∧ buddy_inv z' ∧
     hand z' order i ∧ same_rest z z' ∧
     (∀ x, inb order i x → free z x) ∧
     (∀ x, free z' x ↔ free z x ∧ ¬ inb order i x) ∧
     (∀ x, ¬ free z x → mem_map z' !! x = mem_map z !! x) ∧
     free_pages z' = free_pages z - size order) ∨
  (rmqueue_from fuel order cur z = (Ok None, z) ∧
   ∀ o i, (cur <= o)%nat → ¬ blk z o i).
Proof.
  induction fuel as [|fuel IH]; intros z order cur Hinv Hle Hf.
  { right. split; [done|]. intros o i Ho Hb. apply blk_order in Hb; [|apply Hinv]. lia. }
  destruct Hinv as [Hz Hsum].
  destruct (core_area z cur Hz) as [a Ha]; [lia|].
  cbn [rmqueue_from]. unfold get_area. sm_unfold. rewrite Ha.
  destruct (free_list a) as [|i rest] eqn:Efl.
  { destruct (IH z order (S cur)) as [?|[-> Hn]]; [by split|lia|lia|by left|].
    right. split; [done|]. intros o i Ho. destruct (decide (o = cur)) as [->|]; [|apply Hn; lia].
    intros (a' & Ha' & Hi). simplify_eq. rewrite Efl in Hi. by apply elem_of_nil in Hi. }
  left. assert (Hi : i ∈ free_list a) by (rewrite Efl; left).
  assert (Hb : blk z cur i) by (by exists a).
  destruct (c_blk _ Hz _ _ Hb) as (_ & ? & ?). pose proof (blk_size_pos cur).
  destruct (core_page z i Hz) as [p Hp]; [lia|].
  pose proof (take_blk_run z cur a i p Ha Hi Hp) as Hrun. revert Hrun. sm_unfold.
  destruct (area_del cur i z) as [[[]| |] z1] eqn:E1; intros Hrun; try done. rewrite Hrun.
  clear Hrun E1 z1. rewrite shiftl_size.
  set (z1 := set_free_pages _ _).
  assert (Hz1 : core z1) by (destruct (take_blk_core z cur a i p Hz Ha Hi Hp); by split).
  assert (Hh1 : hand z1 cur i) by (destruct (take_blk_hand z cur a i p Hz Ha Hi Hp); by split).
  assert (Hf1 : ∀ x, free z1 x ↔ free z x ∧ ¬ inb cur i x)
    by (intros x; by apply (take_blk_free z cur a i p x)).
  destruct (expand_spec (cur - order) z1 i order cur Hz1 Hh1)
    as (z' & -> & Hz' & Hh' & Hsr & Hx & Hm & Ht & Efp); [lia|].
  assert (Hsub : ∀ x, inb order i x → inb cur i x).
  { unfold inb. pose proof (size_le order cur Hle). lia. }
  exists z', i. split_and!; try done.
  - split; [done|]. rewrite Efp. pose proof (take_blk_total z cur a i p Hz Ha Hi Hp).
    change (areas z1) with (areas (take_blk z cur a i p)) in Ht.
    change (free_pages z1) with (free_pages z - size order). lia.
  - etrans; [|exact Hsr]. by split.
  - intros x Hxo. exists cur, i. auto.
  - intros x. pose proof (Hx x) as Hx1. rewrite Hf1 in Hx1. pose proof (h_disj _ _ _ Hh' x).
    pose proof (Hsub x). assert (inb cur i x → free z x) by (intros; exists cur, i; auto).
    destruct (decide (inb order i x)), (decide (inb cur i x)); tauto.
  - intros x Hn. rewrite Hm.
    + unfold z1, take_blk. cbn. rewrite lookup_insert_ne; [done|]. intros <-. apply Hn.
      exists cur, i. auto with kern.
    + intros Hxc. apply Hn. exists cur, i. auto.
Qed.

(** C5: [__rmqueue] refines "take a block of 2^order pages out of the free set".  In
    a consistent zone it either returns an aligned block inside the zone all of
    whose pages were free; then exactly these pages are not free any more,
    free_pages has gone down by their number, they are unreferenced and unmarked,
    no page outside the free set was touched, and the zone is consistent again (in
    particular fully coalesced).  Or it returns NULL and changes nothing, and then
    no free block of the requested order or a larger one exists. *)
Theorem rmqueue_correct z order : buddy_inv z → (order < MAX_ORDER)%nat →
  (∃ z' i, __rmqueue order z = (Ok (Some i), z') ∧ buddy_inv z' ∧
     hand z' order i ∧ same_rest z z' ∧
     (∀ x, inb order i x → free z x) ∧
     (∀ x, free z' x ↔ free z x ∧ ¬ inb order i x) ∧
     (∀ x, ¬ free z x → mem_map z' !! x = mem_map z !! x) ∧
     free_pages z' = free_pages z - size order) ∨
  (__rmqueue order z = (Ok None, z) ∧ ∀ o i, (order <= o)%nat → ¬ blk z o i).
Proof. intros Hz Ho. apply rmqueue_from_spec; [done|lia|lia]. Qed.

(** C4: [__free_pages_bulk] refines "add 2^order pages to the free set".  Freeing an
    aligned block inside the zone whose pages are not free, not reserved,
    unreferenced and not marked PG_private never hits a BUG; afterwards exactly the
    block's pages have become free, free_pages has gone up by their number, nothing
    outside the block and the free set was touched, and the zone is consistent: no
    two free buddies of the same order below the largest remain uncoalesced. *)
Theorem free_pages_bulk_correct z i order : buddy_inv z → hand z order i →
  ∃ z', __free_pages_bulk i order z = (Ok tt, z') ∧ buddy_inv z' ∧ same_rest z z' ∧
    (∀ x, free z' x ↔ free z x ∨ inb order i x) ∧
    (∀ x, ¬ free z x → ¬ inb order i x → mem_map z' !! x = mem_map z !! x) ∧
    free_pages z' = free_pages z + size order.
Proof. apply free_block_spec. Qed.

(** ** Watermarks *)

Lemma total_take_drop n : ∀ o l, total o l = total o (take n l) + total (o + n) (drop n l).
Proof.
  induction n as [|n IH]; intros o l.
  - rewrite take_0, drop_0, Nat.add_0_r. done.
  - destruct l as [|a l]; [done|]. cbn. rewrite (IH (S o) l).
    replace (S o + n)%nat with (o + S n)%nat by lia. lia.
Qed.

Lemma total_pos_blk o l : 0 < total o l → ∃ k a i, l !! k = Some a ∧ i ∈ free_list a.
Proof.
  revert o. induction l as [|a l IH]; intros o H; cbn in H; [lia|].
  destruct (free_list a) as [|i r] eqn:E.
  - destruct (IH (S o)) as (k & b & i & ? & ?); [cbn in H; lia|]. by exists (S k), b, i.
  - exists 0%nat, a, i. split; [done|]. rewrite E. by left.
Qed.

Lemma watermark_loop_spec n : ∀ o l free min, (n <= length l)%nat → 0 <= min → 0 < free →
  Forall (λ a, nr_free a = Z.of_nat (length (free_list a))) l →
  watermark_loop n o l free min = true → 0 < free - total o (take n l).
Proof.
  induction n as [|n IH]; intros o l free min Hn Hm Hf Hl H.
  - rewrite take_0. cbn. lia.
  - destruct l as [|a l]; [cbn in Hn; lia|]. apply Forall_cons in Hl as [Ha Hl].
    cbn [watermark_loop] in H. rewrite Ha in H.
    replace (Z.shiftl (Z.of_nat (length (free_list a))) (Z.of_nat o))
      with (size o * Z.of_nat (length (free_list a))) in H
      by (rewrite Z.shiftl_mul_pow2 by lia; unfold size; lia).
    destruct (Z.leb_spec (free - size o * Z.of_nat (length (free_list a))) (Z.shiftr min 1))
      as [|Hgt]; [done|].
    assert (0 <= Z.shiftr min 1) by (by apply Z.shiftr_nonneg).
    apply IH in H; [|cbn in Hn; lia|done|lia|done]. cbn [take total]. lia.
Qed.

(** The watermark test is sound: when [zone_watermark_ok] accepts a request (for any
    non-negative mark and low-memory reserve, with or without the emergency
    reductions), the buddy system of the zone can satisfy it, so [__rmqueue] of that
    order does not return NULL. *)
Theorem watermark_ok_sound z order mark reserve harder gfp_high :
  buddy_inv z → (order < MAX_ORDER)%nat → 0 <= mark → 0 <= reserve →
  zone_watermark_ok z order mark reserve harder gfp_high = true →
  ∃ z' i, __rmqueue order z = (Ok (Some i), z').
Proof.
  intros [Hz Hsum] Ho Hm Hr. unfold zone_watermark_ok.
  set (min := if harder then _ else _).
  assert (Hmin : 0 <= min).
  { unfold min. destruct harder, gfp_high; Z.div_mod_to_equations; Z.quot_rem_to_equations; lia. }
  destruct (Z.leb_spec (free_pages z - size order + 1) (min + reserve)) as [|Hlt]; [done|].
  intros Hw. apply watermark_loop_spec in Hw; [|rewrite (c_len _ Hz); lia|done|lia|].
  2:{ apply Forall_lookup_2. intros o a Ha. by apply (c_list _ Hz) in Ha as []. }
  pose proof (total_take_drop order 0 (areas z)) as Ht. rewrite Nat.add_0_l in Ht.
  pose proof (blk_size_pos order).
  destruct (total_pos_blk order (drop order (areas z))) as (k & a & i & Hk & Hi); [lia|].
  rewrite lookup_drop in Hk. unfold __rmqueue.
  destruct (rmqueue_from_spec (MAX_ORDER - order) z order order) as [(z' & j & -> & _)|[_ Hn]];
    [by split|lia|lia|eauto|].
  destruct (Hn (order + k)%nat i); [lia|]. by exists a.
Qed.

(** ** A small zone *)

(** Two pages, both with the boot loader: nothing is free yet. *)
Definition ex_zone (head_count : Z) : zone :=
  mk_zone {[ 0 := mk_page 0 head_count 0 0 0; 1 := mk_page 0 0 0 0 0 ]} 2
    (replicate MAX_ORDER (mk_area [] 0)) 0
    [mk_pcp 0 0 2 1 []; mk_pcp 0 0 2 1 []] 0 0 false.

Lemma ex_zone_page c i p : mem_map (ex_zone c) !! i = Some p →
  (i = 0 ∧ p = mk_page 0 c 0 0 0) ∨ (i = 1 ∧ p = mk_page 0 0 0 0 0).
Proof.
  cbn. intros [[<- <-]|[? [<- <-]%lookup_singleton_Some]]%lookup_insert_Some; auto.
Qed.

Lemma ex_zone_blk c o i : ¬ blk (ex_zone c) o i.
Proof.
  intros (a & Ha & Hi). cbn [areas ex_zone] in Ha. apply lookup_replicate in Ha as [-> _].
  by apply elem_of_nil in Hi.
Qed.

Lemma ex_zone_inv c : buddy_inv (ex_zone c).
Proof.
  pose proof (ex_zone_blk c) as Hb.
  assert (Hf : ∀ x, ¬ free (ex_zone c) x) by (intros x (o & i & H & _); by apply (Hb o i)).
  split; [split|done]; try (intros; exfalso; by eapply Hb); try (intros; exfalso; by eapply Hf).
  - done.
  - intros i. split.
    + intros [p [[-> _]|[-> _]]%ex_zone_page]; cbn; lia.
    + intros Hi. cbn in Hi. assert (i = 0 ∨ i = 1) as [-> | ->] by lia; by eexists.
  - intros o a Ha. cbn [areas ex_zone] in Ha. apply lookup_replicate in Ha as [-> _].
    split; [constructor|done].
  - intros o i p [[-> ->]|[-> ->]]%ex_zone_page; (split; [done|intros; exfalso; by eapply Hb]).
Qed.

Lemma ex_zone_hand : hand (ex_zone 0) 1 0.
Proof.
  split.
  - unfold MAX_ORDER. lia.
  - by exists 0.
  - cbn. unfold size. cbn. lia.
  - intros x _ (o & i & H & _). by apply (ex_zone_blk 0 o i).
  - intros x p _ [[-> ->]|[-> ->]]%ex_zone_page; done.
Qed.

(** The zone after its two pages have been freed. *)
Definition ex_zone_free : zone := (__free_pages_bulk 0 1 (ex_zone 0)).2.

Lemma ex_zone_free_inv : buddy_inv ex_zone_free.
Proof.
  destruct (free_block_spec (ex_zone 0) 0 1 (ex_zone_inv 0) ex_zone_hand) as (z' & E & H & _).
  unfold ex_zone_free. by rewrite E.
Qed.

Lemma free_pages_bulk_correct_witness :
  ∃ z', __free_pages_bulk 0 1 (ex_zone 0) = (Ok tt, z') ∧ free_pages z' = 2.
Proof.
  destruct (free_pages_bulk_correct (ex_zone 0) 0 1 (ex_zone_inv 0) ex_zone_hand)
    as (z' & E & _ & _ & _ & _ & H).
  exists z'. split; [exact E|exact H].
Defined.

Lemma rmqueue_correct_witness :
  ∃ z' i, __rmqueue 0 ex_zone_free = (Ok (Some i), z') ∧ free_pages z' = 1.
Proof.
  destruct (rmqueue_correct ex_zone_free 0 ex_zone_free_inv) as [H|[H _]].
  - unfold MAX_ORDER. lia.
  - destruct H as (z' & i & E & _ & _ & _ & _ & _ & _ & Hf). exists z', i. split; [exact E|].
    rewrite Hf. vm_compute. reflexivity.
  - exfalso. vm_compute in H. discriminate H.
Defined.

Lemma watermark_ok_sound_witness :
  ∃ z' i, __rmqueue 0 ex_zone_free = (Ok (Some i), z').
Proof.
  apply (watermark_ok_sound ex_zone_free 0 1 0 true false ex_zone_free_inv);
    [unfold MAX_ORDER; lia|lia|lia|vm_compute; reflexivity].
Defined.

End BuddyFacts.
