(* ===== verification/PcpFacts.v ===== *)
(** * The zone allocator as a whole: per-CPU lists, allocation and release

    A state machine of a zone and its users: allocations through
    [buffered_rmqueue], releases through [__free_pages], and owners changing the
    descriptors of the pages they own.  The theorems show that no page is ever
    handed out twice, that no call hits a BUG, and that no page gets lost. *)

From stdpp Require Import prelude numbers list gmap relations.
From Stdlib Require Import ZArith Lia.
From S2P Require Import Prelude Buddy BuddyFacts.

#[local] Set Default Goal Selector "!".
#[local] Open Scope Z_scope.

Module PcpFacts.
Import Buddy BuddyFacts.

(** ** Pages held outside the buddy system *)

(** [l]: single pages in a list, clean, each once. *)
Definition held (z : zone) (l : list Z) : Prop := NoDup l ∧ ∀ x, x ∈ l → hand z 0 x.

Lemma inb0 i x : inb 0 i x ↔ x = i.
Proof. unfold inb, size. cbn. lia. Qed.

(** Pages outside the free set of [z] that an operation did not touch. *)
Record kept (P : Z → Prop) (z z' : zone) : Prop := {
  k_rest : spanned_pages z' = spanned_pages z;
  k_free x : P x → free z' x → free z x;
  k_page x : P x → ¬ free z x → mem_map z' !! x = mem_map z !! x
}.

Lemma kept_trans P z1 z2 z3 : kept P z1 z2 → kept P z2 z3 → kept P z1 z3.
Proof.
  intros [R1 F1 M1] [R2 F2 M2]. split; [congruence|auto|].
  intros x Hx Hn. rewrite M2; [by auto|done|]. intros Hf. by apply Hn, F1.
Qed.

Lemma kept_weaken (P Q : Z → Prop) z z' : (∀ x, Q x → P x) → kept P z z' → kept Q z z'.
Proof. intros H [R F M]. split; auto. Qed.

Lemma hand_kept P z z' o i : kept P z z' → (∀ x, inb o i x → P x) → hand z o i → hand z' o i.
Proof.
  intros [R F M] HP H. eapply hand_frame; [done|..|exact H]; intros x Hx.
  - intros Hf. apply (h_disj _ _ _ H x Hx), F; [auto|done].
  - apply M; [auto|]. by apply (h_disj _ _ _ H).
Qed.

Lemma held_kept P z z' l : kept P z z' → (∀ x, x ∈ l → P x) → held z l → held z' l.
Proof.
  intros Hk HP [Hn Hh]. split; [done|]. intros x Hx. eapply hand_kept; [done| |by apply Hh].
  intros y ->%inb0. auto.
Qed.

(** ** Refilling and draining the lists *)

Lemma rmqueue_kept z order : buddy_inv z → (order < MAX_ORDER)%nat →
  (∃ z' i, __rmqueue order z = (Ok (Some i), z') ∧ buddy_inv z' ∧ same_rest z z' ∧
     hand z' order i ∧ (∀ x, inb order i x → free z x) ∧ kept (λ _, True) z z' ∧
     free_pages z' = free_pages z - size order) ∨
  __rmqueue order z = (Ok None, z).
Proof.
  intros Hz Ho. unfold __rmqueue.
  destruct (rmqueue_from_spec (MAX_ORDER - order) z order order Hz)
    as [(z' & i & -> & ? & ? & Hsr & Hx & Hf & Hm & ?)|[-> _]]; [lia|lia| |by right].
  left. exists z', i. split_and!; try done. split; [apply Hsr| |].
  - intros x _. rewrite Hf. tauto.
  - intros x _ Hn. by apply Hm.
Qed.

Lemma rmqueue_bulk_spec n : ∀ z l, buddy_inv z → held z l →
  ∃ z' l', rmqueue_bulk 0 n l z = (Ok (l ++ l'), z') ∧ buddy_inv z' ∧ same_rest z z' ∧
    held z' (l ++ l') ∧ (∀ x, x ∈ l' → free z x) ∧ kept (λ _, True) z z' ∧
    free_pages z' + Z.of_nat (length l') = free_pages z.
Proof.
  induction n as [|n IH]; intros z l Hz Hl.
  { exists z, []. rewrite app_nil_r. split_and!; try done.
    - intros x Hx. by apply elem_of_nil in Hx.
    - cbn. lia. }
  cbn [rmqueue_bulk]. sm_unfold.
  destruct (rmqueue_kept z 0 Hz) as [(z1 & i & -> & Hz1 & Hsr & Hi & Hfi & Hk & Efp)| ->].
  { unfold MAX_ORDER. lia. }
  2:{ exists z, []. rewrite app_nil_r. split_and!; try done.
    - intros x Hx. by apply elem_of_nil in Hx.
    - cbn. lia. }
  assert (Hil : i ∉ l).
  { intros Hil. apply (h_disj _ _ _ (proj2 Hl i Hil) i); [by apply inb0|]. apply Hfi. by apply inb0. }
  destruct (IH z1 (l ++ [i]) Hz1) as (z' & l' & -> & ? & Hsr' & Hh & Hf' & Hk' & Efp').
  { split.
    - apply NoDup_app. split_and!; [apply Hl| |by apply NoDup_singleton].
      intros x Hx ->%list_elem_of_singleton. done.
    - intros x [Hx| ->%list_elem_of_singleton]%elem_of_app; [|done].
      eapply (hand_kept (λ _, True)); [done|done|]. by apply Hl. }
  exists z', (i :: l'). rewrite <- !app_assoc in *. cbn [app] in *. split_and!; try done.
  - by etrans.
  - intros x [->|Hx]%elem_of_cons; [apply Hfi; by apply inb0|].
    apply (k_free _ _ _ Hk); [done|]. by apply Hf'.
  - by eapply kept_trans.
  - cbn [length]. unfold size in Efp. cbn in Efp. lia.
Qed.

Lemma free_block_kept z i o : buddy_inv z → hand z o i →
  ∃ z', __free_pages_bulk i o z = (Ok tt, z') ∧ buddy_inv z' ∧ same_rest z z' ∧
    kept (λ x, ¬ inb o i x) z z' ∧ (∀ x, free z' x ↔ free z x ∨ inb o i x) ∧
    free_pages z' = free_pages z + size o.
Proof.
  intros Hz Hh. destruct (free_block_spec z i o Hz Hh) as (z' & -> & ? & Hsr & Hf & Hm & ?).
  exists z'. split_and!; try done. split; [apply Hsr| |].
  - intros x Hn. rewrite Hf. tauto.
  - intros x Hn Hnf. by apply Hm.
Qed.

Lemma last_removelast {A} (l : list A) x : last l = Some x → l = removelast l ++ [x].
Proof.
  intros H. apply last_Some in H as [l' ->]. by rewrite removelast_last.
Qed.

(** [free_pages_bulk] frees a suffix of the list and returns its length. *)
Lemma free_bulk_loop_spec n : ∀ z c l ret, buddy_inv z → held z l → n = length l →
  ∃ z' l1 l2, free_bulk_loop n c l 0 ret z = (Ok (ret + Z.of_nat (length l2), l1), z') ∧
    l = l1 ++ l2 ∧ buddy_inv z' ∧ same_rest z z' ∧ held z' l1 ∧
    kept (λ x, x ∉ l2) z z' ∧
    free_pages z' = free_pages z + Z.of_nat (length l2).
Proof.
  induction n as [|n IH]; intros z c l ret Hz Hl Hn.
  { exists z, l, []. cbn. rewrite app_nil_r, !Z.add_0_r. split_and!; try done. }
  cbn [free_bulk_loop].
  destruct (last l) as [x|] eqn:Elast.
  2:{ apply last_None in Elast. by subst l. }
  destruct (c =? 0).
  { exists z, l, []. cbn. rewrite app_nil_r, !Z.add_0_r. split_and!; try done. }
  apply last_removelast in Elast. set (l0 := removelast l) in *. clearbody l0. subst l.
  destruct Hl as [Hnd Hh]. apply NoDup_app in Hnd as (Hnd & Hd & _).
  assert (Hx : x ∉ l0) by (intros Hx; apply (Hd x Hx); by left).
  sm_unfold.
  destruct (free_block_kept z x 0 Hz) as (z1 & -> & Hz1 & Hsr & Hk & _ & Efp).
  { apply Hh. apply elem_of_app. right. by left. }
  destruct (IH z1 (c - 1) l0 (ret + 1) Hz1) as (z' & l1 & l2 & -> & -> & ? & Hsr' & ? & Hk' & ?).
  { eapply (held_kept (λ y, ¬ inb 0 x y)); [done| |].
    - intros y Hy ->%inb0. done.
    - split; [done|]. intros y Hy. apply Hh. apply elem_of_app. by left. }
  { rewrite length_app in Hn. cbn in Hn. lia. }
  exists z', l1, (l2 ++ [x]). rewrite app_assoc. split_and!; try done.
  - f_equal. f_equal. f_equal. rewrite length_app. cbn. lia.
  - by etrans.
  - eapply kept_trans; (eapply kept_weaken; [|eassumption]); intros y; cbn;
      rewrite not_elem_of_app, not_elem_of_cons; [rewrite inb0|]; tauto.
  - rewrite length_app. unfold size in Efp. cbn in *. lia.
Qed.

(** ** Changes to page descriptors *)

(** Only descriptors of pages in [S] (and the taint flag) differ. *)
Record touched (S : Z → Prop) (z z' : zone) : Prop := {
  t_areas : areas z' = areas z;
  t_span : spanned_pages z' = spanned_pages z;
  t_free : free_pages z' = free_pages z;
  t_pcps : pcps z' = pcps z;
  t_page x : ¬ S x → mem_map z' !! x = mem_map z !! x;
  t_dom x : is_Some (mem_map z' !! x) ↔ is_Some (mem_map z !! x)
}.

Lemma touched_refl S z : touched S z z.
Proof. by split. Qed.

Lemma touched_trans S z1 z2 z3 : touched S z1 z2 → touched S z2 z3 → touched S z1 z3.
Proof.
  intros [? ? ? ? P1 D1] [? ? ? ? P2 D2]. split; try congruence.
  - intros x Hx. by rewrite P2, P1.
  - intros x. by rewrite D2, D1.
Qed.

Lemma touched_weaken (S S' : Z → Prop) z z' : (∀ x, S x → S' x) → touched S z z' → touched S' z z'.
Proof. intros H [? ? ? ? Hp ?]. split; try done. intros x Hx. apply Hp. auto. Qed.

Lemma touched_blk S z z' o i : touched S z z' → blk z' o i ↔ blk z o i.
Proof. intros H. unfold blk. by rewrite (t_areas _ _ _ H). Qed.

Lemma touched_free S z z' x : touched S z z' → free z' x ↔ free z x.
Proof. intros H. unfold free. by setoid_rewrite (touched_blk _ _ _ _ _ H). Qed.

Lemma touched_inv S z z' : buddy_inv z → touched S z z' → (∀ x, S x → ¬ free z x) →
  (∀ x p o, S x → mem_map z' !! x = Some p → page_is_buddy p o = false) →
  (∀ x, S x ∨ ¬ S x) → buddy_inv z'.
Proof.
  intros [[L D B J N H P M] Hsum] Ht Hnf Hnb Hdec.
  assert (Hb : ∀ o i, blk z' o i ↔ blk z o i) by (intros; by eapply touched_blk).
  assert (Hf : ∀ x, free z' x ↔ free z x) by (intros; by eapply touched_free).
  split; [split|].
  - by rewrite (t_areas _ _ _ Ht).
  - intros x. by rewrite (t_dom _ _ _ Ht), (t_span _ _ _ Ht).
  - intros o i. rewrite Hb, (t_span _ _ _ Ht). apply B.
  - intros o i o' i' x. rewrite !Hb. apply J.
  - intros o a. rewrite (t_areas _ _ _ Ht). apply N.
  - intros o x p. rewrite Hb. destruct (Hdec x) as [Hx|Hx]; intros Hp.
    + rewrite (Hnb _ _ o Hx Hp). split; [done|]. intros Hbx. destruct (Hnf x Hx). exists o, x.
      auto with kern.
    + rewrite (t_page _ _ _ Ht) in Hp by done. by apply H.
  - intros x p Hx%Hf. rewrite (t_page _ _ _ Ht) by (intros HS; by apply (Hnf x HS)).
    intros Hp. destruct (P _ _ Hx Hp) as [? Hq]. split; [done|]. intros (o & ?)%Hq.
    exists o. by apply Hb.
  - intros o i Ho. rewrite !Hb. by apply M.
  - by rewrite (t_free _ _ _ Ht), (t_areas _ _ _ Ht).
Qed.

Lemma updp_touched i f z p : mem_map z !! i = Some p →
  ∃ z', updp i f z = (Ok tt, z') ∧ touched (λ x, x = i) z z' ∧ mem_map z' !! i = Some (f p).
Proof.
  intros Hp. unfold updp. rewrite Hp. eexists. split; [reflexivity|]. cbn.
  split; [|by rewrite lookup_insert_eq]. split; try done.
  - intros x Hx. cbn. by rewrite lookup_insert_ne.
  - intros x. cbn. destruct (decide (x = i)) as [->|].
    + rewrite lookup_insert_eq, Hp. split; eauto.
    + by rewrite lookup_insert_ne.
Qed.

Lemma bad_page_touched i z p : mem_map z !! i = Some p →
  ∃ z' q, bad_page i z = (Ok tt, z') ∧ touched (λ x, x = i) z z' ∧
    mem_map z' !! i = Some q ∧ pcount q = 0 ∧ PagePrivate q = false ∧
    PageReserved q = PageReserved p.
Proof.
  intros Hp. unfold bad_page. sm_unfold.
  match goal with |- context [updp i ?f z] =>
    destruct (updp_touched i f z p Hp) as (z1 & -> & Ht & Hq) end.
  eexists (set_tainted z1), _. split_and!; [done| |exact Hq|done| |].
  - destruct Ht. by split.
  - unfold PagePrivate. cbn [flags]. by rewrite Z.ldiff_spec, andb_false_r.
  - unfold PageReserved. cbn [flags]. by rewrite Z.ldiff_spec, andb_true_r.
Qed.

Lemma land_mask_bit f l b : Z.land f (mask l) = 0 → b ∈ l → 0 <= b → Z.testbit f b = false.
Proof.
  intros H Hb Hpos. apply (f_equal (λ x, Z.testbit x b)) in H.
  rewrite Z.land_spec, Z.bits_0 in H.
  assert (Z.testbit (mask l) b = true) as E.
  { clear H. induction l as [|c l IH]; [by apply elem_of_nil in Hb|]. unfold mask. cbn [foldr].
    rewrite Z.lor_spec. apply elem_of_cons in Hb as [<-|Hb].
    - rewrite Z.shiftl_1_l, Z.pow2_bits_true by done. done.
    - apply orb_true_iff. right. by apply IH. }
  by rewrite E, andb_true_r in H.
Qed.

(** After the check a page is unreferenced and unmarked, whatever it was before. *)
Lemma free_pages_check_spec i z p : mem_map z !! i = Some p →
  ∃ z' q, free_pages_check i z = (Ok tt, z') ∧ touched (λ x, x = i) z z' ∧
    mem_map z' !! i = Some q ∧ pcount q = 0 ∧ PagePrivate q = false ∧
    PageReserved q = PageReserved p.
Proof.
  intros Hp. unfold free_pages_check, getp. sm_unfold. rewrite Hp.
  set (c := _ || negb (Z.land _ _ =? 0)).
  assert (∃ z1 q, (if c then bad_page i else mret tt) z = (Ok tt, z1) ∧
    touched (λ x, x = i) z z1 ∧ mem_map z1 !! i = Some q ∧ pcount q = 0 ∧
    PagePrivate q = false ∧ PageReserved q = PageReserved p)
    as (z1 & q & E & Ht & Hq & Hc & Hpr & Hre).
  { destruct c eqn:Ec; [by apply bad_page_touched|].
    exists z, p. unfold c in Ec. rewrite !orb_false_iff, !negb_false_iff, !Z.eqb_eq in Ec.
    destruct Ec as [[_ E1] E2]. split_and!; try done.
    eapply land_mask_bit; [exact E2| |done]. right. by left. }
  change (mret (M := SM zone) tt) with (λ s : zone, (Ok tt, s)) in E. rewrite E.
  match goal with |- context [updp i ?f z1] =>
    destruct (updp_touched i f z1 q Hq) as (z2 & -> & Ht2 & Hq2) end.
  eexists z2, _. split_and!; [done|by eapply touched_trans|exact Hq2|..];
    destruct (Z.testbit (flags q) PG_dirty); try done.
  - unfold PagePrivate in *. cbn [flags set_flags]. by rewrite Z.clearbit_neq.
  - unfold PageReserved in *. cbn [flags set_flags]. by rewrite Z.clearbit_neq.
Qed.

Lemma check_pages_spec n : ∀ i z, (∀ x, i <= x < i + Z.of_nat n → is_Some (mem_map z !! x)) →
  ∃ z', check_pages n i z = (Ok tt, z') ∧ touched (λ x, i <= x < i + Z.of_nat n) z z' ∧
    ∀ x p, i <= x < i + Z.of_nat n → mem_map z !! x = Some p →
      ∃ q, mem_map z' !! x = Some q ∧ pcount q = 0 ∧ PagePrivate q = false ∧
        PageReserved q = PageReserved p.
Proof.
  induction n as [|n IH]; intros i z Hd.
  { exists z. split_and!; [done|apply touched_refl|]. lia. }
  destruct (Hd i) as [p Hp]; [lia|]. cbn [check_pages]. sm_unfold.
  destruct (free_pages_check_spec i z p Hp) as (z1 & q & -> & Ht & Hq & Hc & Hpr & Hre).
  destruct (IH (i + 1) z1) as (z2 & -> & Ht2 & Hp2).
  { intros x Hx. rewrite (t_page _ _ _ Ht) by lia. apply Hd. lia. }
  exists z2. split_and!; [done| |].
  - eapply touched_trans; (eapply touched_weaken; [|eassumption]); cbn; lia.
  - intros x px Hx Hpx. destruct (decide (x = i)) as [->|].
    + simplify_eq. exists q. rewrite (t_page _ _ _ Ht2) by lia. done.
    + apply Hp2; [lia|]. by rewrite (t_page _ _ _ Ht).
Qed.

(** ** The pages outside the buddy system *)

Definition in_blocks (A : list (Z * nat)) (x : Z) : Prop :=
  ∃ i o, (i, o) ∈ A ∧ inb o i x.

(** A block owned by a user of the allocator: its first page is referenced. *)
Record alloc_ok (z : zone) (i : Z) (o : nat) : Prop := {
  a_order : (o < MAX_ORDER)%nat;
  a_align : (size o | i);
  a_range : 0 <= i ∧ i + size o <= spanned_pages z;
  a_free x : inb o i x → ¬ free z x;
  a_page x p : inb o i x → mem_map z !! x = Some p → PageReserved p = false;
  a_head p : mem_map z !! i = Some p → 0 < pcount p
}.

(** [C]: single free pages in the per-CPU lists; [A]: blocks handed out. *)
Record out (z : zone) (C : list Z) (A : list (Z * nat)) : Prop := {
  o_held : held z C;
  o_alloc i o : (i, o) ∈ A → alloc_ok z i o;
  o_sep x : in_blocks A x → x ∉ C;
  o_disj j k i o i' o' x : A !! j = Some (i, o) → A !! k = Some (i', o') →
    inb o i x → inb o' i' x → j = k
}.

Definition cached (z : zone) : list Z := concat (plist <$> pcps z).

Definition pcp_ok (p : per_cpu_pages) : Prop := count p = Z.of_nat (length (plist p)).

Record zone_inv (A : list (Z * nat)) (z : zone) : Prop := {
  zi_buddy : buddy_inv z;
  zi_pcps : ∃ h c, pcps z = [h; c] ∧ pcp_ok h ∧ pcp_ok c;
  zi_out : out z (cached z) A
}.

Definition pages_of (A : list (Z * nat)) : Z := foldr (λ b n, size b.2 + n) 0 A.

(** Free in the buddy system, cached, or handed out. *)
Definition population (A : list (Z * nat)) (z : zone) : Z :=
  free_pages z + Z.of_nat (length (cached z)) + pages_of A.

Lemma in_blocks_elem A i o x : (i, o) ∈ A → inb o i x → in_blocks A x.
Proof. by exists i, o. Qed.

Lemma alloc_kept P z z' i o : kept P z z' → (∀ x, inb o i x → P x) →
  alloc_ok z i o → alloc_ok z' i o.
Proof.
  intros [R F M] HP [Ho Hal Hr Hf Hp Hh].
  assert (Hm : ∀ x, inb o i x → mem_map z' !! x = mem_map z !! x) by (intros; apply M; auto).
  split; [done|done|by rewrite R| | |].
  - intros x Hx Hfx. apply (Hf x Hx), F; auto.
  - intros x p Hx. rewrite Hm by done. by apply Hp.
  - intros p. rewrite Hm by (auto with kern). apply Hh.
Qed.

Lemma out_kept P z z' C A : kept P z z' → (∀ x, x ∈ C ∨ in_blocks A x → P x) →
  out z C A → out z' C A.
Proof.
  intros Hk HP [Hh Ha Hs Hd]. split; [|intros i o Hin|done|done].
  - eapply held_kept; [done| |done]. auto.
  - eapply alloc_kept; [done| |by apply Ha]. intros x Hx. apply HP. right.
    by eapply in_blocks_elem.
Qed.

Lemma out_perm z C C' A : C ≡ₚ C' → out z C A → out z C' A.
Proof.
  intros E [[Hn Hh] Ha Hs Hd].
  split; [split|done| |done].
  - by rewrite <- E.
  - intros x. rewrite <- E. apply Hh.
  - intros x. rewrite <- E. apply Hs.
Qed.

Lemma out_not_free z C A x : out z C A → x ∈ C ∨ in_blocks A x → ¬ free z x.
Proof.
  intros [[_ Hh] Ha _ _] [Hx|(i & o & Hin & Hx)].
  - apply (h_disj _ _ _ (Hh x Hx)). by apply inb0.
  - by apply (a_free _ _ _ (Ha _ _ Hin)).
Qed.

(** New free pages in the cache. *)
Lemma out_add z z' C l A : out z C A → kept (λ _, True) z z' → held z' l →
  (∀ x, x ∈ l → free z x) → out z' (C ++ l) A.
Proof.
  intros Ho Hk Hl Hf. destruct (out_kept _ _ _ _ _ Hk ltac:(done) Ho) as [Hh' Ha' Hs' Hd'].
  assert (Hnew : ∀ x, x ∈ l → (x ∉ C) ∧ ¬ in_blocks A x).
  { intros x Hx. split; intros Hn; apply (out_not_free z C A x); auto. }
  split; [|done| |done].
  - split.
    + apply NoDup_app. split_and!; [apply Hh'| |apply Hl].
      intros x Hx Hxl. by destruct (Hnew x Hxl).
    + intros x [Hx|Hx]%elem_of_app; [by apply Hh'|by apply Hl].
  - intros x Hx [Hc|Hc]%elem_of_app; [by apply (Hs' x)|by destruct (Hnew x Hc)].
Qed.

Lemma out_drop z C l A : out z (C ++ l) A → out z C A.
Proof.
  intros [[Hn Hh] Ha Hs Hd]. apply NoDup_app in Hn as (Hn & _ & _).
  split; [split|done| |done]; [done| |].
  - intros x Hx. apply Hh, elem_of_app. by left.
  - intros x Hx Hc. apply (Hs x Hx), elem_of_app. by left.
Qed.

(** A block in hand is handed out: only its first descriptor changes. *)
Lemma out_hand_out z z' C A i o q : buddy_inv z → out z C A → hand z o i →
  (∀ x, inb o i x → (x ∉ C) ∧ ¬ in_blocks A x) →
  touched (λ x, x = i) z z' → mem_map z' !! i = Some q → 0 < pcount q →
  PageReserved q = false → buddy_inv z' ∧ out z' C ((i, o) :: A).
Proof.
  intros Hz Ho Hh Hsep Ht Hq Hc Hr.
  assert (Hi : inb o i i) by auto with kern.
  assert (Hk : kept (λ x, x ≠ i) z z').
  { split; [apply Ht| |intros; by apply (t_page _ _ _ Ht)].
    intros x _. by rewrite (touched_free _ _ _ _ Ht). }
  destruct (Hsep i Hi) as [HiC HiA].
  destruct (out_kept (λ x, x ≠ i) z z' C A Hk) as [Hh' Ha' Hs' Hd']; [|done|].
  { intros x Hx ->. by destruct Hx. }
  split.
  { eapply touched_inv; [exact Hz|exact Ht| | |].
    - intros x ->. by apply (h_disj _ _ _ Hh).
    - intros x p k -> Hp. assert (p = q) as -> by congruence. unfold page_is_buddy.
      rewrite (proj2 (Z.eqb_neq (pcount q) 0)) by lia. by rewrite andb_false_r.
    - intros x. destruct (decide (x = i)); auto. }
  split; [done| | |].
  - intros i' o' [[= -> ->]|Hin]%elem_of_cons; [|by apply Ha'].
    split; [apply Hh|apply Hh|rewrite (t_span _ _ _ Ht); apply Hh| | |].
    + intros x Hx. rewrite (touched_free _ _ _ _ Ht). by apply (h_disj _ _ _ Hh).
    + intros x p Hx Hp. destruct (decide (x = i)) as [->|]; [by simplify_eq|].
      rewrite (t_page _ _ _ Ht) in Hp by done. by apply (h_page _ _ _ Hh x p).
    + intros p Hp. by simplify_eq.
  - intros x (i' & o' & [[= -> ->]|Hin]%elem_of_cons & Hx); [by apply Hsep|].
    apply Hs'. by exists i', o'.
  - assert (Hone : ∀ i' o' x, (i', o') ∈ A → inb o i x → inb o' i' x → False).
    { intros i' o' x Hin Hx Hx'. apply (Hsep x Hx). by exists i', o'. }
    intros [|j] [|k] i1 o1 i2 o2 x; cbn.
    + done.
    + intros [= -> ->] Hk2 Hx1 Hx2. destruct (Hone i2 o2 x); [|done..].
      by eapply list_elem_of_lookup_2.
    + intros Hj [= -> ->] Hx1 Hx2. destruct (Hone i1 o1 x); [|done..].
      by eapply list_elem_of_lookup_2.
    + intros Hj Hk2 Hx1 Hx2. f_equal. by eapply Hd'.
Qed.

(** A block comes back: its descriptors have been cleaned. *)
Lemma out_give_back z z' C A1 A2 i o : buddy_inv z → out z C (A1 ++ (i, o) :: A2) →
  touched (inb o i) z z' →
  (∀ x p, inb o i x → mem_map z' !! x = Some p → clean p ∧ PagePrivate p = false) →
  buddy_inv z' ∧ hand z' o i ∧ out z' C (A1 ++ A2) ∧
  (∀ x, inb o i x → (x ∉ C) ∧ ¬ in_blocks (A1 ++ A2) x).
Proof.
  intros Hz Ho Ht Hp.
  assert (Hin : (i, o) ∈ A1 ++ (i, o) :: A2) by (apply elem_of_app; right; left).
  pose proof (o_alloc _ _ _ Ho _ _ Hin) as Ha.
  assert (Hsep : ∀ x, inb o i x → (x ∉ C) ∧ ¬ in_blocks (A1 ++ A2) x).
  { intros x Hx. split.
    - apply (o_sep _ _ _ Ho). by exists i, o.
    - intros (i' & o' & Hin' & Hx').
      apply elem_of_app in Hin' as [[j Hj]%list_elem_of_lookup|[j Hj]%list_elem_of_lookup].
      + assert (j = length A1); [|apply lookup_lt_Some in Hj; lia].
        eapply (o_disj _ _ _ Ho j (length A1)); [| |exact Hx'|exact Hx].
        * rewrite lookup_app_l by (by eapply lookup_lt_Some). done.
        * by rewrite lookup_app_r, Nat.sub_diag by lia.
      + assert ((length A1 + S j)%nat = length A1); [|lia].
        eapply (o_disj _ _ _ Ho _ (length A1)); [| |exact Hx'|exact Hx].
        * rewrite lookup_app_r by lia. by replace (length A1 + S j - length A1)%nat with (S j) by lia.
        * by rewrite lookup_app_r, Nat.sub_diag by lia. }
  assert (Hk : kept (λ x, ¬ inb o i x) z z').
  { split; [apply Ht| |intros; by apply (t_page _ _ _ Ht)].
    intros x _. by rewrite (touched_free _ _ _ _ Ht). }
  assert (Hsub : ∀ b, b ∈ A1 ++ A2 → b ∈ A1 ++ (i, o) :: A2)
    by (intros b; rewrite !elem_of_app, elem_of_cons; tauto).
  split_and!; [| | |done].
  - eapply touched_inv; [exact Hz|exact Ht|apply Ha| |].
    + intros x p k Hx Hq. destruct (Hp x p Hx Hq) as [_ E]. unfold page_is_buddy. by rewrite E.
    + intros x. destruct (decide (inb o i x)); auto.
  - split; [apply Ha|apply Ha|rewrite (t_span _ _ _ Ht); apply Ha| |done].
    intros x Hx. rewrite (touched_free _ _ _ _ Ht). by apply (a_free _ _ _ Ha).
  - destruct Ho as [Hh Hal Hs Hd]. split.
    + eapply held_kept; [exact Hk| |done]. intros x Hx Hxb. by destruct (Hsep x Hxb).
    + intros i' o' Hin'. eapply alloc_kept; [exact Hk| |by apply Hal, Hsub].
      intros x Hx Hxb. destruct (Hsep x Hxb) as [_ Hn]. apply Hn. by exists i', o'.
    + intros x (i' & o' & Hin' & Hx). apply Hs. exists i', o'. auto.
    + set (up := λ j, if decide (j < length A1)%nat then j else S j).
      assert (Hup : ∀ j b, (A1 ++ A2) !! j = Some b → (A1 ++ (i, o) :: A2) !! up j = Some b).
      { intros j b. unfold up. case_decide.
        - by rewrite !lookup_app_l by lia.
        - rewrite !lookup_app_r by lia.
          by replace (S j - length A1)%nat with (S (j - length A1)) by lia. }
      intros j k i1 o1 i2 o2 x Hj%Hup Hk2%Hup Hx1 Hx2.
      pose proof (Hd _ _ _ _ _ _ x Hj Hk2 Hx1 Hx2) as E. unfold up in E.
      repeat case_decide; lia.
Qed.

Lemma prep_new_page_spec i z p : mem_map z !! i = Some p → PageReserved p = false →
  ∃ z' q, prep_new_page i z = (Ok tt, z') ∧ touched (λ x, x = i) z z' ∧
    mem_map z' !! i = Some q ∧ pcount q = 1 ∧ PageReserved q = false.
Proof.
  intros Hp Hr. unfold prep_new_page, getp. sm_unfold. rewrite Hp.
  set (c := _ || negb (Z.land _ _ =? 0)).
  assert (∃ z1 q, (if c then bad_page i else mret tt) z = (Ok tt, z1) ∧
    touched (λ x, x = i) z z1 ∧ mem_map z1 !! i = Some q ∧ PageReserved q = false)
    as (z1 & q & E & Ht & Hq & Hre).
  { destruct c.
    - destruct (bad_page_touched i z p Hp) as (z1 & q & ? & ? & ? & _ & _ & E).
      exists z1, q. split_and!; try done. congruence.
    - exists z, p. split_and!; try done. }
  change (mret (M := SM zone) tt) with (λ s : zone, (Ok tt, s)) in E. rewrite E.
  match goal with |- context [updp i ?f z1] =>
    destruct (updp_touched i f z1 q Hq) as (z2 & -> & Ht2 & Hq2) end.
  eexists z2, _. split_and!; [done|by eapply touched_trans|exact Hq2|done|].
  unfold PageReserved in *. cbn [flags set_count set_private set_flags].
  by rewrite Z.ldiff_spec, Hre.
Qed.

(** The buddy system does not depend on the per-CPU lists. *)
Lemma set_pcps_inv l z : buddy_inv z → buddy_inv (set_pcps l z).
Proof. intros [[] ?]. split; [by split|done]. Qed.

Lemma set_pcps_out l z C A : out z C A → out (set_pcps l z) C A.
Proof.
  intros Ho. apply (out_kept (λ _, True) z); [|done|done]. by split.
Qed.

Lemma set_pcps_hand l z o i : hand z o i → hand (set_pcps l z) o i.
Proof. intros []. by split. Qed.

(** ** Allocation *)

(** From a block in hand to a block handed out. *)
Lemma alloc_finish z C A i o gfp : buddy_inv z → out z C A → hand z o i →
  (∀ x, inb o i x → (x ∉ C) ∧ ¬ in_blocks A x) →
  (Z.land gfp __GFP_ZERO = 0 ∨
   Z.land gfp (Z.lor __GFP_WAIT __GFP_HIGHMEM) ≠ __GFP_HIGHMEM) →
  ∃ z', (z0 ← gets id;
         if bad_range z0 i then bug else
         _ ← prep_new_page i;
         _ ← when (negb (Z.land gfp __GFP_ZERO =? 0) &&
                   (Z.land gfp (Z.lor __GFP_WAIT __GFP_HIGHMEM) =? __GFP_HIGHMEM)) bug;
         mret (Some i)) z = (Ok (Some i), z') ∧
    buddy_inv z' ∧ out z' C ((i, o) :: A) ∧ pcps z' = pcps z ∧ free_pages z' = free_pages z.
Proof.
  intros Hz Ho Hh Hsep Hgfp. sm_unfold. unfold id.
  pose proof (h_range _ _ _ Hh). pose proof (blk_size_pos o).
  assert (bad_range z i = false) as ->.
  { unfold bad_range. apply orb_false_iff. rewrite Z.leb_gt, Z.ltb_ge. lia. }
  destruct (core_page z i (proj1 Hz)) as [p Hp]; [lia|].
  destruct (h_page _ _ _ Hh i p) as [[_ Hr] _]; [auto with kern|done|].
  destruct (prep_new_page_spec i z p Hp Hr) as (z' & q & -> & Ht & Hq & Hc & Hr').
  assert (negb (Z.land gfp __GFP_ZERO =? 0) &&
          (Z.land gfp (Z.lor __GFP_WAIT __GFP_HIGHMEM) =? __GFP_HIGHMEM) = false) as ->.
  { apply andb_false_iff. rewrite negb_false_iff, Z.eqb_eq, Z.eqb_neq. done. }
  exists z'. split; [done|].
  destruct (out_hand_out z z' C A i o q) as [? ?]; try done; [lia|].
  split_and!; try done; apply Ht.
Qed.

Definition shape (l : list per_cpu_pages) : Prop := ∃ h c, l = [h; c] ∧ pcp_ok h ∧ pcp_ok c.

(** One of the two lists, and the pages of the other. *)
Lemma pcp_split z cold : shape (pcps z) → (cold < 2)%nat →
  ∃ p rest, pcps z !! cold = Some p ∧ pcp_ok p ∧ cached z ≡ₚ plist p ++ rest ∧
    ∀ p', concat (plist <$> <[cold := p']> (pcps z)) ≡ₚ plist p' ++ rest ∧
      (pcp_ok p' → shape (<[cold := p']> (pcps z))).
Proof.
  intros (h & c & E & Hh & Hc) Hcold. unfold cached. rewrite E.
  destruct cold as [|[|]]; [| |lia].
  - exists h, (plist c). cbn. rewrite app_nil_r. split_and!; try done.
    intros p'. rewrite ?app_nil_r. split; [done|]. by exists p', c.
  - exists c, (plist h). cbn. rewrite app_nil_r. split_and!; try done; [apply Permutation_app_comm|].
    intros p'. rewrite ?app_nil_r. split; [apply Permutation_app_comm|]. by exists h, p'.
Qed.

Definition gfp_ok (gfp : Z) : Prop :=
  Z.land gfp __GFP_ZERO = 0 ∨ Z.land gfp (Z.lor __GFP_WAIT __GFP_HIGHMEM) ≠ __GFP_HIGHMEM.

Definition alloc_post (A : list (Z * nat)) (z : zone) (order : nat)
  (out : outcome (option Z) * zone) : Prop :=
  ∃ r z', out = (Ok r, z') ∧
    let A' := match r with Some i => (i, order) :: A | None => A end in
    zone_inv A' z' ∧ population A' z' = population A z.

(** The last part of [buffered_rmqueue], from a page taken off a list. *)
Lemma alloc_cached A z C rest i gfp p' cold :
  buddy_inv z → out z C A → C ≡ₚ i :: rest → gfp_ok gfp →
  concat (plist <$> <[cold := p']> (pcps z)) ≡ₚ rest → shape (<[cold := p']> (pcps z)) →
  ∃ z', (z0 ← gets id;
         if bad_range z0 i then bug else
         _ ← prep_new_page i;
         _ ← when (negb (Z.land gfp __GFP_ZERO =? 0) &&
                   (Z.land gfp (Z.lor __GFP_WAIT __GFP_HIGHMEM) =? __GFP_HIGHMEM)) bug;
         mret (Some i)) (set_pcps (<[cold := p']> (pcps z)) z) = (Ok (Some i), z') ∧
    zone_inv ((i, 0%nat) :: A) z' ∧
    population ((i, 0%nat) :: A) z' = free_pages z + Z.of_nat (length C) + pages_of A.
Proof.
  intros Hz Ho HC Hg Hcat Hsh.
  pose proof (out_perm _ _ _ _ HC Ho) as Ho'.
  assert (Hnd : i ∉ rest) by (by destruct (o_held _ _ _ Ho') as [[]%NoDup_cons _]).
  destruct (alloc_finish (set_pcps (<[cold := p']> (pcps z)) z) rest A i 0 gfp)
    as (z' & -> & Hz' & Hout & Ep & Ef); [by apply set_pcps_inv| | | |done|].
  - apply set_pcps_out. apply (out_drop z rest [i] A). eapply out_perm; [|exact Ho'].
    apply Permutation_cons_append.
  - apply set_pcps_hand. apply (o_held _ _ _ Ho'). by left.
  - intros x ->%inb0. split; [done|]. intros Hb. apply (o_sep _ _ _ Ho' i Hb). by left.
  - exists z'. split; [done|]. cbn in Ep.
    assert (Hc : cached z' ≡ₚ rest) by (unfold cached; by rewrite Ep).
    split; [split; [done|by rewrite Ep|]|].
    + eapply out_perm; [|exact Hout]. done.
    + unfold population. rewrite Hc, HC, Ef.
      change (pages_of ((i, 0%nat) :: A)) with (1 + pages_of A). cbn [length free_pages set_pcps].
      lia.
Qed.

(** From a zone whose lists are unchanged, [__rmqueue] and the last part. *)
Lemma alloc_buddy A z order gfp : zone_inv A z → (order < MAX_ORDER)%nat → gfp_ok gfp →
  alloc_post A z order
    ((page' ← __rmqueue order;
      match page' with
      | None => mret None
      | Some i =>
          z ← gets id;
          if bad_range z i then bug else
          _ ← prep_new_page i;
          _ ← when (negb (Z.land gfp __GFP_ZERO =? 0) &&
                (Z.land gfp (Z.lor __GFP_WAIT __GFP_HIGHMEM) =? __GFP_HIGHMEM)) bug;
          mret (Some i)
      end) z).
Proof.
  intros [Hz Hsh Ho] Hord Hg. unfold alloc_post, mbind at 1, SM_bind at 1.
  destruct (rmqueue_kept z order Hz Hord)
    as [(z1 & i & -> & Hz1 & Hsr & Hh & Hf & Hk & Efp)| ->].
  2:{ exists None, z. split; [done|]. by split. }
  destruct (alloc_finish z1 (cached z) A i order gfp)
    as (z' & -> & Hz' & Hout & Ep & Ef); [done| |done| |done|].
  - eapply out_kept; [exact Hk| |exact Ho]. done.
  - intros x Hx. split; intros Hn; apply (out_not_free z (cached z) A x Ho); auto.
  - exists (Some i), z'. split; [done|]. rewrite (sr_pcps _ _ Hsr) in Ep.
    assert (Ec : cached z' = cached z) by (unfold cached; by rewrite Ep).
    split; [split; [done|by rewrite Ep|by rewrite Ec]|].
    unfold population. rewrite Ec.
    change (pages_of ((i, order) :: A)) with (size order + pages_of A). lia.
Qed.

Lemma buffered_rmqueue_spec A z order gfp :
  zone_inv A z → (order < MAX_ORDER)%nat → gfp_ok gfp →
  alloc_post A z order (buffered_rmqueue order gfp z).
Proof.
  intros Hinv Hord Hg. unfold buffered_rmqueue.
  set (cold := if negb _ then 1%nat else 0%nat).
  assert (Hcold : (cold < 2)%nat) by (unfold cold; destruct (negb _); lia). clearbody cold.
  destruct (decide (order = 0)%nat) as [->|Hne].
  2:{ by apply alloc_buddy. }
  destruct Hinv as [Hz Hsh Ho].
  destruct (pcp_split z cold Hsh Hcold) as (p & rest & Hp & Hok & Hperm & Hupd).
  assert (Hrefill : ∃ z1 p1, (if count p <=? low p
      then l ← rmqueue_bulk 0 (Z.to_nat (batch p)) (plist p);
           mret (mk_pcp (count p + (Z.of_nat (length l) - Z.of_nat (length (plist p))))
                   (low p) (high p) (batch p) l)
      else mret p) z = (Ok p1, z1) ∧ buddy_inv z1 ∧ pcps z1 = pcps z ∧ pcp_ok p1 ∧
      out z1 (plist p1 ++ rest) A ∧
      free_pages z1 + Z.of_nat (length (plist p1)) = free_pages z + Z.of_nat (length (plist p))).
  { pose proof (out_perm _ _ _ _ Hperm Ho) as Ho'. destruct (count p <=? low p).
    2:{ exists z, p. split_and!; done. }
    destruct (rmqueue_bulk_spec (Z.to_nat (batch p)) z (plist p) Hz)
      as (z1 & l' & E & Hz1 & Hsr & Hheld & Hf & Hk & Efp).
    { destruct Ho' as [[Hnd Hh] _ _ _]. apply NoDup_app in Hnd as (? & _).
      split; [done|]. intros x Hx. apply Hh, elem_of_app. by left. }
    sm_unfold. rewrite E. eexists z1, _. split; [done|]. cbn. split_and!; try done.
    - apply Hsr.
    - unfold pcp_ok in *. cbn. rewrite length_app. lia.
    - eapply out_perm; [|eapply (out_add z z1 _ l'); [exact Ho'|exact Hk| |exact Hf]].
      + rewrite <- !app_assoc. apply Permutation_app_head, Permutation_app_comm.
      + destruct Hheld as [Hnd Hh]. apply NoDup_app in Hnd as (_ & _ & Hnd).
        split; [done|]. intros x Hx. apply Hh, elem_of_app. by right.
    - rewrite length_app. lia. }
  destruct Hrefill as (z1 & p1 & E1 & Hz1 & Ep1 & Hok1 & Ho1 & Efp1).
  assert (Epop : population A z = free_pages z1 + Z.of_nat (length (plist p1 ++ rest)) + pages_of A).
  { unfold population. rewrite Hperm, !length_app. lia. }
  unfold mbind at 1, SM_bind at 1. unfold mbind at 1, SM_bind at 1. unfold get_pcp.
  rewrite Hp. unfold mbind at 1, SM_bind at 1. rewrite E1.
  unfold pcp_ok in Hok1.
  destruct (Z.eqb_spec (count p1) 0) as [Hz0|Hn0]; cbn [negb].
  - assert (plist p1 = []) as Hnil by (destruct (plist p1); [done|cbn in *; lia]).
    unfold mbind at 1, SM_bind at 1. unfold put_pcp, modify. rewrite Ep1.
    set (z2 := set_pcps _ z1).
    assert (Hinv2 : zone_inv A z2).
    { split; [by apply set_pcps_inv|by apply Hupd|].
      eapply out_perm; [|by apply set_pcps_out]. unfold cached. cbn. by rewrite (proj1 (Hupd p1)). }
    assert (Epop2 : population A z2 = population A z).
    { rewrite Epop. unfold population, cached. cbn. by rewrite (proj1 (Hupd p1)). }
    destruct (alloc_buddy A z2 0 gfp Hinv2 Hord Hg) as (r & z' & E & Hzi & Epop').
    exists r, z'. split; [exact E|]. split; [done|]. by rewrite Epop'.
  - destruct (plist p1) as [|i l] eqn:El; [cbn in *; lia|].
    unfold mbind at 1, SM_bind at 1. unfold put_pcp, modify. rewrite Ep1, <- Ep1.
    destruct (Hupd (mk_pcp (count p1 - 1) (low p1) (high p1) (batch p1) l)) as [Hcat Hshape].
    rewrite <- Ep1 in Hcat, Hshape.
    destruct (alloc_cached A z1 ((i :: l) ++ rest) (l ++ rest) i gfp
      (mk_pcp (count p1 - 1) (low p1) (high p1) (batch p1) l) cold Hz1 Ho1)
      as (z' & E & Hzi & Epop'); try done.
    { apply Hshape. unfold pcp_ok. cbn in *. lia. }
    exists (Some i), z'. split; [exact E|]. split; [done|]. by rewrite Epop', Epop.
Qed.

(** ** Release *)

Lemma in_blocks_dec A x : in_blocks A x ∨ ¬ in_blocks A x.
Proof.
  induction A as [|[i o] A [IH|IH]].
  - right. intros (i & o & Hin & _). by apply elem_of_nil in Hin.
  - left. destruct IH as (i' & o' & ? & ?). exists i', o'. split; [by right|done].
  - destruct (decide (inb o i x)) as [Hx|Hx].
    + left. exists i, o. split; [left|done].
    + right. intros (i' & o' & [[= -> ->]|Hin]%elem_of_cons & Hx'); [done|].
      apply IH. by exists i', o'.
Qed.

(** Owners change descriptors of their pages, keeping the first page referenced,
    no page reserved, and no page looking like a free block. *)
Definition owner_write (A : list (Z * nat)) (z z' : zone) : Prop :=
  touched (in_blocks A) z z' ∧
  (∀ x p, in_blocks A x → mem_map z' !! x = Some p →
     PageReserved p = false ∧ ∀ o, page_is_buddy p o = false) ∧
  (∀ i o p, (i, o) ∈ A → mem_map z' !! i = Some p → 0 < pcount p).

Lemma owner_write_spec A z z' : zone_inv A z → owner_write A z z' →
  zone_inv A z' ∧ population A z' = population A z.
Proof.
  intros [Hz Hsh Ho] (Ht & Hp & Hh).
  assert (Ec : cached z' = cached z) by (unfold cached; by rewrite (t_pcps _ _ _ Ht)).
  split; [|unfold population; by rewrite Ec, (t_free _ _ _ Ht)].
  assert (Hk : kept (λ x, ¬ in_blocks A x) z z').
  { split; [apply Ht| |intros; by apply (t_page _ _ _ Ht)].
    intros x _. by rewrite (touched_free _ _ _ _ Ht). }
  split; [|by rewrite (t_pcps _ _ _ Ht)|rewrite Ec; destruct Ho as [Hhe Ha Hs Hd]; split; [| |done|done]].
  - eapply touched_inv; [done|exact Ht| | |apply in_blocks_dec].
    + intros x Hx. apply (out_not_free _ _ _ _ Ho). by right.
    + intros x p o Hx Hq. by apply (Hp x p Hx Hq).
  - eapply held_kept; [exact Hk| |done]. intros x Hx Hb. by apply (Hs x Hb).
  - intros i o Hin. destruct (Ha i o Hin). split; try done.
    + by rewrite (t_span _ _ _ Ht).
    + intros x Hx. rewrite (touched_free _ _ _ _ Ht). auto.
    + intros x p Hx Hq. apply (Hp x p); [|done]. by exists i, o.
    + intros p. by apply (Hh i o).
Qed.

Definition free_post (A : list (Z * nat)) (z : zone) (A' : list (Z * nat))
  (out : outcome unit * zone) : Prop :=
  ∃ z', out = (Ok tt, z') ∧ zone_inv A' z' ∧ population A' z' = population A z.

Lemma reset_scan_inv z : buddy_inv z → buddy_inv (reset_scan z).
Proof. intros [[] ?]. split; [by split|done]. Qed.
Lemma reset_scan_hand z o i : hand z o i → hand (reset_scan z) o i.
Proof. intros []. by split. Qed.
Lemma reset_scan_out z C A : out z C A → out (reset_scan z) C A.
Proof. intros Ho. apply (out_kept (λ _, True) z); [by split|done|done]. Qed.

Lemma pages_of_middle A1 A2 i o :
  pages_of (A1 ++ (i, o) :: A2) = pages_of (A1 ++ A2) + size o.
Proof. induction A1 as [|[j k] A1 IH]; cbn in *; [lia|]. unfold pages_of in IH. cbn in IH. lia. Qed.

(** A cleaned block of any order goes back to the buddy system. *)
Lemma free_to_buddy A1 A2 z z1 i o : zone_inv (A1 ++ (i, o) :: A2) z →
  touched (inb o i) z z1 →
  (∀ x p, inb o i x → mem_map z1 !! x = Some p → clean p ∧ PagePrivate p = false) →
  free_post (A1 ++ (i, o) :: A2) z (A1 ++ A2)
    ((_ ← free_pages_bulk 1 [i] o; mret tt) z1).
Proof.
  intros [Hz Hsh Ho] Ht Hp.
  destruct (out_give_back _ _ _ _ _ _ _ Hz Ho Ht Hp) as (Hz1 & Hh1 & Ho1 & Hsep).
  unfold free_pages_bulk. cbn [length free_bulk_loop last]. change (1 =? 0) with false. sm_unfold.
  destruct (free_block_kept (reset_scan z1) i o) as (z2 & -> & Hz2 & Hsr & Hk & _ & Efp).
  { by apply reset_scan_inv. }
  { by apply reset_scan_hand. }
  cbn. exists z2. split; [done|].
  assert (Ep : pcps z2 = pcps z) by (rewrite (sr_pcps _ _ Hsr); apply Ht).
  assert (Ec : cached z2 = cached z) by (unfold cached; by rewrite Ep).
  split; [split; [done|by rewrite Ep|]|].
  - rewrite Ec. eapply out_kept; [exact Hk| |by apply reset_scan_out].
    intros x Hx Hb. destruct (Hsep x Hb). by destruct Hx.
  - unfold population. rewrite Ec, Efp. cbn. rewrite (t_free _ _ _ Ht), pages_of_middle. lia.
Qed.

Lemma free_pages_ok_spec A1 A2 z z0 i o : zone_inv (A1 ++ (i, o) :: A2) z →
  touched (λ x, x = i) z z0 →
  (∀ p, mem_map z0 !! i = Some p → PageReserved p = false) →
  free_post (A1 ++ (i, o) :: A2) z (A1 ++ A2) (__free_pages_ok i o z0).
Proof.
  intros Hinv Ht Hr. unfold __free_pages_ok.
  assert (Hin : (i, o) ∈ A1 ++ (i, o) :: A2) by (apply elem_of_app; right; left).
  pose proof (o_alloc _ _ _ (zi_out _ _ Hinv) _ _ Hin) as Ha. pose proof (blk_size_pos o).
  assert (Hrange : ∀ x, i <= x < i + Z.of_nat (Z.to_nat (size o)) ↔ inb o i x)
    by (intros x; unfold inb; rewrite Z2Nat.id by lia; done).
  pose proof (a_range _ _ _ Ha).
  assert (Hex : ∀ x, inb o i x → is_Some (mem_map z !! x)).
  { intros x Hx. apply (c_dom z (proj1 (zi_buddy _ _ Hinv))). unfold inb in Hx. lia. }
  destruct (check_pages_spec (Z.to_nat (size o)) i z0) as (z1 & E & Ht1 & Hq).
  { intros x Hx%Hrange. apply (t_dom _ _ _ Ht). auto. }
  unfold mbind at 1, SM_bind at 1. rewrite E. apply (free_to_buddy A1 A2 z z1); [done| |].
  - eapply touched_trans; (eapply touched_weaken; [|eassumption]); cbn.
    + intros x ->. auto with kern.
    + intros x Hx. by apply Hrange.
  - intros x p Hx Hp1. assert (is_Some (mem_map z0 !! x)) as [q Hq0].
    { apply (t_dom _ _ _ Ht). auto. }
    destruct (Hq x q) as (q' & Hq' & Hc & Hpr & Hre); [by apply Hrange|done|].
    simplify_eq. split; [split; [done|]|done]. rewrite Hre.
    destruct (decide (x = i)) as [->|]; [by apply Hr|].
    rewrite (t_page _ _ _ Ht) in Hq0 by done. by apply (a_page _ _ _ Ha x).
Qed.

(** Draining a list that is full. *)
Lemma drain_spec A z pc rest i : buddy_inv z → out z (plist pc ++ rest) A → hand z 0 i →
  i ∉ plist pc ++ rest → pcp_ok pc →
  ∃ z' pc', (if high pc <=? count pc
             then '(n, rest) ← free_pages_bulk (batch pc) (plist pc) 0;
                  mret (mk_pcp (count pc - n) (low pc) (high pc) (batch pc) rest)
             else mret pc) z = (Ok pc', z') ∧
    buddy_inv z' ∧ pcps z' = pcps z ∧ pcp_ok pc' ∧ out z' (plist pc' ++ rest) A ∧
    hand z' 0 i ∧ (i ∉ plist pc' ++ rest) ∧
    free_pages z' + Z.of_nat (length (plist pc')) =
      free_pages z + Z.of_nat (length (plist pc)).
Proof.
  intros Hz Ho Hh Hi Hok. destruct (high pc <=? count pc).
  2:{ exists z, pc. split_and!; done. }
  unfold free_pages_bulk. sm_unfold.
  destruct (free_bulk_loop_spec (length (plist pc)) (reset_scan z) (batch pc) (plist pc) 0)
    as (z3 & l1 & l2 & -> & El & Hz3 & Hsr & Hheld & Hk & Efp);
    [by apply reset_scan_inv| |done|].
  { destruct (reset_scan_out _ _ _ Ho) as [[Hnd Hhd] _ _ _]. apply NoDup_app in Hnd as (? & _).
    split; [done|]. intros x Hx. apply Hhd, elem_of_app. by left. }
  eexists z3, _. split; [done|]. cbn. rewrite El in *. rewrite length_app in *.
  assert (Hdisj : ∀ x, x ∈ l2 → (x ∉ l1 ++ rest) ∧ ¬ in_blocks A x ∧ x ≠ i).
  { intros x Hx. destruct Ho as [[Hnd _] _ Hs _]. rewrite <- app_assoc in Hnd.
    apply NoDup_app in Hnd as (_ & H12 & Hnd). apply NoDup_app in Hnd as (_ & H23 & _).
    split_and!.
    - intros [Hx1|Hx1]%elem_of_app; [apply (H12 x Hx1), elem_of_app; by left|by apply (H23 x)].
    - intros Hb. apply (Hs x Hb). rewrite !elem_of_app. auto.
    - intros ->. apply Hi. rewrite !elem_of_app. auto. }
  split_and!; try done.
  - by rewrite (sr_pcps _ _ Hsr).
  - unfold pcp_ok in *. cbn. rewrite Hok, El, length_app. lia.
  - eapply (out_kept _ (reset_scan z)); [exact Hk| |].
    + intros x Hx Hx2. destruct (Hdisj x Hx2) as (? & ? & _). by destruct Hx.
    + apply reset_scan_out, (out_drop _ _ l2). eapply out_perm; [|exact Ho].
      rewrite <- !app_assoc. apply Permutation_app_head, Permutation_app_comm.
  - eapply hand_kept; [exact Hk| |by apply reset_scan_hand]. intros x ->%inb0 Hx.
    by destruct (Hdisj i Hx) as (_ & _ & ?).
  - intros [Hx|Hx]%elem_of_app; apply Hi; rewrite !elem_of_app; auto.
  - rewrite Efp. cbn. lia.
Qed.

Lemma free_hot_cold_page_spec A1 A2 z z0 i cold : zone_inv (A1 ++ (i, 0%nat) :: A2) z →
  (cold < 2)%nat → touched (λ x, x = i) z z0 →
  (∀ p, mem_map z0 !! i = Some p → PageReserved p = false) →
  free_post (A1 ++ (i, 0%nat) :: A2) z (A1 ++ A2) (free_hot_cold_page i cold z0).
Proof.
  intros [Hz Hsh Ho] Hcold Ht Hr. unfold free_hot_cold_page.
  assert (Hin : (i, 0%nat) ∈ A1 ++ (i, 0%nat) :: A2) by (apply elem_of_app; right; left).
  pose proof (o_alloc _ _ _ Ho _ _ Hin) as Ha.
  assert (is_Some (mem_map z0 !! i)) as [p Hp].
  { apply (t_dom _ _ _ Ht), (c_dom z (proj1 Hz)). pose proof (a_range _ _ _ Ha).
    pose proof (blk_size_pos 0). lia. }
  unfold mbind at 1, SM_bind at 1.
  match goal with |- context [updp i ?f z0] =>
    destruct (updp_touched i f z0 p Hp) as (z1 & -> & Ht1 & Hp1) end.
  destruct (free_pages_check_spec i z1 _ Hp1) as (z2 & q & E2 & Ht2 & Hq & Hc & Hpr & Hre).
  unfold mbind at 1, SM_bind at 1. rewrite E2.
  assert (Ht3 : touched (inb 0 i) z z2).
  { do 2 (eapply touched_trans; [|eapply touched_weaken; [|eassumption]; intros x ->; auto with kern]).
    eapply touched_weaken; [|exact Ht]. intros x ->. auto with kern. }
  destruct (out_give_back _ _ _ _ _ _ _ Hz Ho Ht3) as (Hz2 & Hh2 & Ho2 & Hsep).
  { intros x r ->%inb0 Hx. simplify_eq. split; [split; [done|]|done]. rewrite Hre.
    transitivity (PageReserved p); [by destruct (PageAnon p)|by apply Hr]. }
  destruct (Hsep i) as [HiC HiA]; [auto with kern|].
  destruct (pcp_split z cold Hsh Hcold) as (pc & rest & Hpc & Hok & Hperm & Hupd).
  pose proof (t_pcps _ _ _ Ht3) as Ep2.
  unfold mbind at 1, SM_bind at 1. unfold get_pcp. rewrite Ep2, Hpc.
  pose proof (out_perm _ _ _ _ Hperm Ho2) as Ho2'. rewrite Hperm in HiC.
  destruct (drain_spec (A1 ++ A2) z2 pc rest i Hz2 Ho2' Hh2 HiC Hok)
    as (z3 & pc3 & E3 & Hz3 & Ep3 & Hok3 & Ho3 & Hh3 & Hi3 & Efp3).
  unfold mbind at 1, SM_bind at 1. rewrite E3. rewrite Ep2 in Ep3.
  unfold put_pcp, modify. rewrite Ep3.
  destruct (Hupd (mk_pcp (count pc3 + 1) (low pc3) (high pc3) (batch pc3) (i :: plist pc3)))
    as [Hcat Hshape].
  eexists. split; [reflexivity|]. split; [split|].
  - by apply set_pcps_inv.
  - apply Hshape. unfold pcp_ok in *. cbn [count plist length]. lia.
  - apply set_pcps_out.
    eapply out_perm; [unfold cached; cbn [pcps set_pcps]; symmetry; exact Hcat|].
    cbn. destruct Ho3 as [[Hnd Hh] Hal Hs Hd]. split; [split|done| |done].
    + by apply NoDup_cons.
    + intros x [->|Hx]%elem_of_cons; [done|by apply Hh].
    + intros x Hb [->|Hx]%elem_of_cons; [done|by apply (Hs x)].
  - unfold population, cached. cbn [pcps set_pcps free_pages]. rewrite Hcat.
    fold (cached z). rewrite Hperm, pages_of_middle. cbn [plist].
    change (size 0) with 1. cbn [app length]. rewrite !length_app.
    rewrite (t_free _ _ _ Ht3) in Efp3. lia.
Qed.

(** [__free_pages] drops one reference; with the last one the block is free. *)
Lemma free_pages_spec A1 A2 z i o p : zone_inv (A1 ++ (i, o) :: A2) z →
  mem_map z !! i = Some p →
  free_post (A1 ++ (i, o) :: A2) z
    (if decide (pcount p = 1) then A1 ++ A2 else A1 ++ (i, o) :: A2) (__free_pages i o z).
Proof.
  intros Hinv Hp. set (A := A1 ++ (i, o) :: A2).
  assert (Hin : (i, o) ∈ A) by (apply elem_of_app; right; left).
  pose proof (o_alloc _ _ _ (zi_out _ _ Hinv) _ _ Hin) as Ha.
  assert (Hr : PageReserved p = false) by (apply (a_page _ _ _ Ha i); auto with kern).
  pose proof (a_head _ _ _ Ha p Hp) as Hc.
  unfold __free_pages, put_page_testzero, getp. sm_unfold. rewrite Hp, Hr, Hp.
  rewrite (proj2 (Z.eqb_neq _ _)) by lia.
  destruct (updp_touched i (λ p, set_count (pcount p - 1) p) z p Hp) as (z0 & -> & Ht & Hp0).
  cbn [negb]. assert (Hr0 : ∀ q, mem_map z0 !! i = Some q → PageReserved q = false)
    by (intros q Hq; by simplify_eq).
  destruct (Z.leb_spec (pcount p - 1) 0).
  - rewrite decide_True by lia. cbn [negb]. destruct (decide (o = 0%nat)) as [->|].
    + apply free_hot_cold_page_spec; try done. lia.
    + by apply free_pages_ok_spec.
  - rewrite decide_False by lia. cbn [negb]. exists z0. split; [done|].
    apply owner_write_spec; [done|]. split_and!.
    + eapply touched_weaken; [|exact Ht]. intros x ->. exists i, o. auto with kern.
    + intros x q (i' & o' & Hin' & Hx) Hq. destruct (decide (x = i)) as [->|].
      * simplify_eq. split; [done|]. intros k. unfold page_is_buddy. cbn [pcount set_count].
        rewrite (proj2 (Z.eqb_neq (pcount p - 1) 0)) by lia. by rewrite andb_false_r.
      * rewrite (t_page _ _ _ Ht) in Hq by done.
        pose proof (o_alloc _ _ _ (zi_out _ _ Hinv) _ _ Hin') as Ha'.
        split; [by apply (a_page _ _ _ Ha' x)|]. intros k.
        destruct (page_is_buddy q k) eqn:E; [|done].
        apply (c_head z (proj1 (zi_buddy _ _ Hinv)) k x q Hq) in E.
        destruct (a_free _ _ _ Ha' x Hx). exists k, x. auto with kern.
    + intros i' o' q Hin' Hq. destruct (decide (i' = i)) as [->|].
      * simplify_eq. cbn. lia.
      * rewrite (t_page _ _ _ Ht) in Hq by done.
        by apply (a_head _ _ _ (o_alloc _ _ _ (zi_out _ _ Hinv) _ _ Hin') q).
Qed.

(** ** The zone and its users *)

Inductive step : list (Z * nat) * zone → list (Z * nat) * zone → Prop :=
| step_alloc A z order gfp i z' :
    (order < MAX_ORDER)%nat → gfp_ok gfp →
    buffered_rmqueue order gfp z = (Ok (Some i), z') → step (A, z) ((i, order) :: A, z')
| step_alloc_fail A z order gfp z' :
    (order < MAX_ORDER)%nat → gfp_ok gfp →
    buffered_rmqueue order gfp z = (Ok None, z') → step (A, z) (A, z')
| step_free A1 A2 z i o p z' :
    mem_map z !! i = Some p → pcount p = 1 →
    __free_pages i o z = (Ok tt, z') → step (A1 ++ (i, o) :: A2, z) (A1 ++ A2, z')
| step_put A z i o p z' :
    (i, o) ∈ A → mem_map z !! i = Some p → pcount p ≠ 1 →
    __free_pages i o z = (Ok tt, z') → step (A, z) (A, z')
| step_write A z z' : owner_write A z z' → step (A, z) (A, z').

Lemma alloc_step_inv A z A' z' : zone_inv A z → step (A, z) (A', z') →
  zone_inv A' z' ∧ population A' z' = population A z.
Proof.
  intros Hinv Hs. inversion Hs; subst.
  - destruct (buffered_rmqueue_spec A z order gfp Hinv) as (r & z1 & E & ? & ?); [done..|].
    match goal with H : buffered_rmqueue _ _ _ = (_, z') |- _ => rewrite E in H end. by simplify_eq.
  - destruct (buffered_rmqueue_spec A' z order gfp Hinv) as (r & z1 & E & ? & ?); [done..|].
    match goal with H : buffered_rmqueue _ _ _ = (_, z') |- _ => rewrite E in H end. by simplify_eq.
  - destruct (free_pages_spec _ _ _ _ _ p Hinv) as (z1 & E & H); [done|].
    rewrite decide_True in H by done.
    match goal with H : __free_pages _ _ _ = (_, z') |- _ => rewrite E in H end. by simplify_eq.
  - match goal with H : (_, _) ∈ _ |- _ => apply list_elem_of_split in H as (A1 & A2 & ->) end.
    destruct (free_pages_spec _ _ _ _ _ p Hinv) as (z1 & E & Hz); [done|].
    rewrite decide_False in Hz by done.
    match goal with H : __free_pages _ _ _ = (_, z') |- _ => rewrite E in H end. by simplify_eq.
  - by apply owner_write_spec.
Qed.

Lemma alloc_steps_inv s s' : rtc step s s' → zone_inv s.1 s.2 →
  zone_inv s'.1 s'.2 ∧ population s'.1 s'.2 = population s.1 s.2.
Proof.
  induction 1 as [[A z]|[A z] [A1 z1] [A2 z2] Hs _ IH]; cbn in *; [done|].
  intros Hinv. destruct (alloc_step_inv _ _ _ _ Hinv Hs) as [H1 E1].
  destruct (IH H1) as [? E2]. split; [done|]. by rewrite E2.
Qed.

(** C3: The zone allocator is safe in every history.  Start from a consistent zone and
    let its users allocate blocks of any order (hot or cold, from the per-CPU lists or
    the buddy system), drop references, free, and write to the descriptors of the
    pages they own (keeping them referenced and not posing as free blocks), in any
    order.  Then at any time: the blocks handed out are pairwise disjoint, and none of
    their pages is in the buddy system or on a per-CPU list, so no page is ever given
    out twice; no page is lost (free, cached and handed-out pages add up to the same
    number); and the next allocation or release does not hit a BUG. *)
Theorem page_allocator_safe A z A' z' :
  zone_inv A z → rtc step (A, z) (A', z') →
  (∀ j k i o i' o' x, A' !! j = Some (i, o) → A' !! k = Some (i', o') →
     inb o i x → inb o' i' x → j = k) ∧
  (∀ x, in_blocks A' x → ¬ free z' x ∧ x ∉ cached z') ∧
  population A' z' = population A z ∧
  (∀ order gfp, (order < MAX_ORDER)%nat → gfp_ok gfp →
     (buffered_rmqueue order gfp z').1 ≠ Bug) ∧
  (∀ i o, (i, o) ∈ A' → (__free_pages i o z').1 ≠ Bug).
Proof.
  intros Hinv Hs. destruct (alloc_steps_inv _ _ Hs Hinv) as [Hinv' Hpop]. cbn in Hinv', Hpop.
  pose proof (zi_out _ _ Hinv') as Ho. split_and!.
  - apply Ho.
  - intros x Hx. split; [|by apply (o_sep _ _ _ Ho)]. apply (out_not_free _ _ _ _ Ho). by right.
  - done.
  - intros order gfp Hord Hg.
    by destruct (buffered_rmqueue_spec A' z' order gfp Hinv' Hord Hg) as (r & z1 & -> & _).
  - intros i o Hin. pose proof (o_alloc _ _ _ Ho _ _ Hin) as Ha.
    apply list_elem_of_split in Hin as (A1 & A2 & ->).
    destruct (core_page z' i (proj1 (zi_buddy _ _ Hinv'))) as [p Hp].
    { pose proof (a_range _ _ _ Ha). pose proof (blk_size_pos o). lia. }
    by destruct (free_pages_spec _ _ _ _ _ p Hinv' Hp) as (z1 & -> & _).
Qed.

(** A zone of two pages whose owner frees them; then one page is allocated. *)
Lemma ex_zone_inv' : zone_inv [(0, 1%nat)] (ex_zone 1).
Proof.
  assert (Hf : ∀ x, ¬ free (ex_zone 1) x).
  { intros x (o & i & H & _). by apply (ex_zone_blk 1 o i). }
  split; [apply ex_zone_inv|by eexists _, _|]. split.
  - split; [constructor|]. intros x Hx. by apply elem_of_nil in Hx.
  - intros i o [= -> ->]%list_elem_of_singleton. split; [| | |done| |].
    + unfold MAX_ORDER. lia.
    + by exists 0.
    + cbn. unfold size. cbn. lia.
    + intros x p _ [[-> ->]|[-> ->]]%ex_zone_page; done.
    + intros p [[_ ->]|[? _]]%ex_zone_page; [cbn; lia|done].
  - intros x _ Hx. by apply elem_of_nil in Hx.
  - intros [|j] [|k] i o i' o' x; cbn; done.
Qed.

Lemma page_allocator_safe_witness :
  let z1 := (__free_pages 0 1 (ex_zone 1)).2 in
  let z2 := (buffered_rmqueue 0 0 z1).2 in
  population [(0, 0%nat)] z2 = 2.
Proof.
  intros z1 z2.
  destruct (page_allocator_safe [(0, 1%nat)] (ex_zone 1) [(0, 0%nat)] z2 ex_zone_inv')
    as (_ & _ & Hpop & _).
  - eapply rtc_l; [|apply rtc_once].
    + apply (step_free [] [] (ex_zone 1) 0 1 (mk_page 0 1 0 0 0) z1); vm_compute; reflexivity.
    + apply (step_alloc [] z1 0 0 0 z2); [unfold MAX_ORDER; lia|left; reflexivity|].
      vm_compute. reflexivity.
  - rewrite Hpop. vm_compute. reflexivity.
Defined.

End PcpFacts.
