(* ===== verification/Sched.v ===== *)
(** * The O(1) scheduler of one CPU (kernel/sched.c): definitions

    Priority arrays with their bitmaps, the run queue with its active and expired
    array, dynamic priorities and time slices, wake-up, fork and exit, the timer
    tick, [schedule], and the calls that change priorities and policies.

    The configuration is uniprocessor, without kernel preemption and scheduler
    statistics; HZ is 1000.  Tasks are named by numbers; [tasks] is the set of
    task descriptors; the two priority arrays are numbered 0 and 1, and a task's
    [array] field is [None] for NULL.  A context switch is the update of
    [curr].  [sched_clock()] and [jiffies] are arguments.  As a list node is on
    one list at a time, removing a task from a queue it is not on is [Bug], and
    so is a priority outside the array. *)

From stdpp Require Import prelude numbers list gmap.
From Stdlib Require Import ZArith Lia.
From S2P Require Import Prelude Bitops.

#[local] Set Default Goal Selector "!".
#[local] Open Scope Z_scope.

Module Sched.

(** ** Constants *)

Definition HZ : Z := 1000.
Definition MAX_USER_RT_PRIO : Z := 100.
Definition MAX_RT_PRIO : Z := MAX_USER_RT_PRIO.
Definition MAX_PRIO : Z := MAX_RT_PRIO + 40.
Definition NICE_TO_PRIO (nice : Z) : Z := MAX_RT_PRIO + nice + 20.
Definition PRIO_TO_NICE (prio : Z) : Z := prio - MAX_RT_PRIO - 20.
Definition USER_PRIO (p : Z) : Z := p - MAX_RT_PRIO.
Definition MAX_USER_PRIO : Z := USER_PRIO MAX_PRIO.
Definition NS_TO_JIFFIES (t : Z) : Z := t / (1000000000 / HZ).
Definition JIFFIES_TO_NS (t : Z) : Z := t * (1000000000 / HZ).
Definition MIN_TIMESLICE : Z := Z.max (5 * HZ / 1000) 1.
Definition DEF_TIMESLICE : Z := 100 * HZ / 1000.
Definition ON_RUNQUEUE_WEIGHT : Z := 30.
Definition CHILD_PENALTY : Z := 95.
Definition PARENT_PENALTY : Z := 100.
Definition EXIT_WEIGHT : Z := 3.
Definition PRIO_BONUS_RATIO : Z := 25.
Definition MAX_BONUS : Z := MAX_USER_PRIO * PRIO_BONUS_RATIO / 100.
Definition INTERACTIVE_DELTA : Z := 2.
Definition MAX_SLEEP_AVG : Z := DEF_TIMESLICE * MAX_BONUS.
Definition STARVATION_LIMIT : Z := MAX_SLEEP_AVG.
Definition NS_MAX_SLEEP_AVG : Z := JIFFIES_TO_NS MAX_SLEEP_AVG.
Definition GRANULARITY : Z := let g := 10 * HZ / 1000 in if g =? 0 then 1 else g.

Definition SCHED_NORMAL : Z := 0.
Definition SCHED_FIFO : Z := 1.
Definition SCHED_RR : Z := 2.

Definition TASK_RUNNING : Z := 0.
Definition TASK_INTERRUPTIBLE : Z := 1.
Definition TASK_UNINTERRUPTIBLE : Z := 2.
Definition TASK_STOPPED : Z := 4.
Definition TASK_TRACED : Z := 8.
Definition EXIT_DEAD : Z := 32.

(** Conversion to [unsigned long long]. *)
Definition wrap64 (x : Z) : Z := x mod 2 ^ 64.

(** ** Data *)

Record task_struct := mk_task {
  prio : Z;
  static_prio : Z;
  sleep_avg : Z;             (* unsigned long, nanoseconds *)
  time_slice : Z;            (* unsigned int, ticks *)
  first_time_slice : Z;
  timestamp : Z;             (* unsigned long long *)
  last_ran : Z;
  activated : Z;
  policy : Z;
  rt_priority : Z;
  state : Z;
  array : option nat;
  has_mm : bool;             (* mm is not NULL *)
  need_resched : bool;       (* TIF_NEED_RESCHED *)
  pf_dead : bool;
  sigpending : bool;         (* signal_pending() *)
  uid : Z;
  euid : Z;
  parent : Z
}.

Record prio_array := mk_array {
  nr_active : Z;
  bitmap : list Z;           (* BITMAP_SIZE words of 32 bits *)
  queue : list (list Z)      (* MAX_PRIO queues *)
}.

Record runqueue := mk_rq {
  nr_running : Z;
  nr_switches : Z;
  nr_uninterruptible : Z;
  expired_timestamp : Z;
  timestamp_last_tick : Z;
  curr : Z;
  idle : Z;
  active : nat;
  expired : nat;
  arrays : list prio_array;
  best_expired_prio : Z;
  tasks : gmap Z task_struct
}.

Definition set_prio v (t : task_struct) : task_struct :=
  mk_task v (static_prio t) (sleep_avg t) (time_slice t) (first_time_slice t)
    (timestamp t) (last_ran t) (activated t) (policy t) (rt_priority t) (state t)
    (array t) (has_mm t) (need_resched t) (pf_dead t) (sigpending t) (uid t) (euid
    t) (parent t).
Definition set_static_prio v (t : task_struct) : task_struct :=
  mk_task (prio t) v (sleep_avg t) (time_slice t) (first_time_slice t) (timestamp t)
    (last_ran t) (activated t) (policy t) (rt_priority t) (state t) (array t)
    (has_mm t) (need_resched t) (pf_dead t) (sigpending t) (uid t) (euid t) (parent
    t).
Definition set_sleep_avg v (t : task_struct) : task_struct :=
  mk_task (prio t) (static_prio t) v (time_slice t) (first_time_slice t) (timestamp
    t) (last_ran t) (activated t) (policy t) (rt_priority t) (state t) (array t)
    (has_mm t) (need_resched t) (pf_dead t) (sigpending t) (uid t) (euid t) (parent
    t).
Definition set_time_slice v (t : task_struct) : task_struct :=
  mk_task (prio t) (static_prio t) (sleep_avg t) v (first_time_slice t) (timestamp
    t) (last_ran t) (activated t) (policy t) (rt_priority t) (state t) (array t)
    (has_mm t) (need_resched t) (pf_dead t) (sigpending t) (uid t) (euid t) (parent
    t).
Definition set_first_time_slice v (t : task_struct) : task_struct :=
  mk_task (prio t) (static_prio t) (sleep_avg t) (time_slice t) v (timestamp t)
    (last_ran t) (activated t) (policy t) (rt_priority t) (state t) (array t)
    (has_mm t) (need_resched t) (pf_dead t) (sigpending t) (uid t) (euid t) (parent
    t).
Definition set_timestamp v (t : task_struct) : task_struct :=
  mk_task (prio t) (static_prio t) (sleep_avg t) (time_slice t) (first_time_slice t)
    v (last_ran t) (activated t) (policy t) (rt_priority t) (state t) (array t)
    (has_mm t) (need_resched t) (pf_dead t) (sigpending t) (uid t) (euid t) (parent
    t).
Definition set_last_ran v (t : task_struct) : task_struct :=
  mk_task (prio t) (static_prio t) (sleep_avg t) (time_slice t) (first_time_slice t)
    (timestamp t) v (activated t) (policy t) (rt_priority t) (state t) (array t)
    (has_mm t) (need_resched t) (pf_dead t) (sigpending t) (uid t) (euid t) (parent
    t).
Definition set_activated v (t : task_struct) : task_struct :=
  mk_task (prio t) (static_prio t) (sleep_avg t) (time_slice t) (first_time_slice t)
    (timestamp t) (last_ran t) v (policy t) (rt_priority t) (state t) (array t)
    (has_mm t) (need_resched t) (pf_dead t) (sigpending t) (uid t) (euid t) (parent
    t).
Definition set_policy v (t : task_struct) : task_struct :=
  mk_task (prio t) (static_prio t) (sleep_avg t) (time_slice t) (first_time_slice t)
    (timestamp t) (last_ran t) (activated t) v (rt_priority t) (state t) (array t)
    (has_mm t) (need_resched t) (pf_dead t) (sigpending t) (uid t) (euid t) (parent
    t).
Definition set_rt_priority v (t : task_struct) : task_struct :=
  mk_task (prio t) (static_prio t) (sleep_avg t) (time_slice t) (first_time_slice t)
    (timestamp t) (last_ran t) (activated t) (policy t) v (state t) (array t)
    (has_mm t) (need_resched t) (pf_dead t) (sigpending t) (uid t) (euid t) (parent
    t).
Definition set_state v (t : task_struct) : task_struct :=
  mk_task (prio t) (static_prio t) (sleep_avg t) (time_slice t) (first_time_slice t)
    (timestamp t) (last_ran t) (activated t) (policy t) (rt_priority t) v (array t)
    (has_mm t) (need_resched t) (pf_dead t) (sigpending t) (uid t) (euid t) (parent
    t).
Definition set_array v (t : task_struct) : task_struct :=
  mk_task (prio t) (static_prio t) (sleep_avg t) (time_slice t) (first_time_slice t)
    (timestamp t) (last_ran t) (activated t) (policy t) (rt_priority t) (state t) v
    (has_mm t) (need_resched t) (pf_dead t) (sigpending t) (uid t) (euid t) (parent
    t).
Definition set_need_resched v (t : task_struct) : task_struct :=
  mk_task (prio t) (static_prio t) (sleep_avg t) (time_slice t) (first_time_slice t)
    (timestamp t) (last_ran t) (activated t) (policy t) (rt_priority t) (state t)
    (array t) (has_mm t) v (pf_dead t) (sigpending t) (uid t) (euid t) (parent t).
Definition rq_set_nr_running v (r : runqueue) : runqueue :=
  mk_rq v (nr_switches r) (nr_uninterruptible r) (expired_timestamp r)
    (timestamp_last_tick r) (curr r) (idle r) (active r) (expired r) (arrays r)
    (best_expired_prio r) (tasks r).
Definition rq_set_nr_switches v (r : runqueue) : runqueue :=
  mk_rq (nr_running r) v (nr_uninterruptible r) (expired_timestamp r)
    (timestamp_last_tick r) (curr r) (idle r) (active r) (expired r) (arrays r)
    (best_expired_prio r) (tasks r).
Definition rq_set_nr_uninterruptible v (r : runqueue) : runqueue :=
  mk_rq (nr_running r) (nr_switches r) v (expired_timestamp r) (timestamp_last_tick
    r) (curr r) (idle r) (active r) (expired r) (arrays r) (best_expired_prio r)
    (tasks r).
Definition rq_set_expired_timestamp v (r : runqueue) : runqueue :=
  mk_rq (nr_running r) (nr_switches r) (nr_uninterruptible r) v (timestamp_last_tick
    r) (curr r) (idle r) (active r) (expired r) (arrays r) (best_expired_prio r)
    (tasks r).
Definition rq_set_timestamp_last_tick v (r : runqueue) : runqueue :=
  mk_rq (nr_running r) (nr_switches r) (nr_uninterruptible r) (expired_timestamp r)
    v (curr r) (idle r) (active r) (expired r) (arrays r) (best_expired_prio r)
    (tasks r).
Definition rq_set_curr v (r : runqueue) : runqueue :=
  mk_rq (nr_running r) (nr_switches r) (nr_uninterruptible r) (expired_timestamp r)
    (timestamp_last_tick r) v (idle r) (active r) (expired r) (arrays r)
    (best_expired_prio r) (tasks r).
Definition rq_set_active v (r : runqueue) : runqueue :=
  mk_rq (nr_running r) (nr_switches r) (nr_uninterruptible r) (expired_timestamp r)
    (timestamp_last_tick r) (curr r) (idle r) v (expired r) (arrays r)
    (best_expired_prio r) (tasks r).
Definition rq_set_expired v (r : runqueue) : runqueue :=
  mk_rq (nr_running r) (nr_switches r) (nr_uninterruptible r) (expired_timestamp r)
    (timestamp_last_tick r) (curr r) (idle r) (active r) v (arrays r)
    (best_expired_prio r) (tasks r).
Definition rq_set_arrays v (r : runqueue) : runqueue :=
  mk_rq (nr_running r) (nr_switches r) (nr_uninterruptible r) (expired_timestamp r)
    (timestamp_last_tick r) (curr r) (idle r) (active r) (expired r) v
    (best_expired_prio r) (tasks r).
Definition rq_set_best_expired_prio v (r : runqueue) : runqueue :=
  mk_rq (nr_running r) (nr_switches r) (nr_uninterruptible r) (expired_timestamp r)
    (timestamp_last_tick r) (curr r) (idle r) (active r) (expired r) (arrays r) v
    (tasks r).
Definition rq_set_tasks v (r : runqueue) : runqueue :=
  mk_rq (nr_running r) (nr_switches r) (nr_uninterruptible r) (expired_timestamp r)
    (timestamp_last_tick r) (curr r) (idle r) (active r) (expired r) (arrays r)
    (best_expired_prio r) v.


(** ** Priorities and time slices *)

Definition TASK_NICE (p : task_struct) : Z := PRIO_TO_NICE (static_prio p).
Definition rt_task (p : task_struct) : bool := prio p <? MAX_RT_PRIO.

Definition CURRENT_BONUS (p : task_struct) : Z :=
  NS_TO_JIFFIES (sleep_avg p) * MAX_BONUS / MAX_SLEEP_AVG.

(** [(MAX_BONUS - CURRENT_BONUS(p)) ? : 1] *)
Definition bonus_gap (p : task_struct) : Z :=
  let d := MAX_BONUS - CURRENT_BONUS p in if d =? 0 then 1 else d.

Definition TIMESLICE_GRANULARITY (p : task_struct) : Z :=
  GRANULARITY * Z.shiftl 1 (bonus_gap p - 1).

(** Signed division truncates. *)
Definition DELTA (p : task_struct) : Z := (TASK_NICE p * MAX_BONUS) ÷ 40 + INTERACTIVE_DELTA.

Definition TASK_INTERACTIVE (p : task_struct) : bool := prio p <=? static_prio p - DELTA p.

Definition INTERACTIVE_SLEEP (p : task_struct) : Z :=
  JIFFIES_TO_NS ((MAX_SLEEP_AVG * (MAX_BONUS ÷ 2 + DELTA p + 1)) ÷ MAX_BONUS - 1).

Definition SCALE_PRIO (x prio : Z) : Z :=
  Z.max ((x * (MAX_PRIO - prio)) ÷ (MAX_USER_PRIO ÷ 2)) MIN_TIMESLICE.

Definition task_timeslice (p : task_struct) : Z :=
  if static_prio p <? NICE_TO_PRIO 0
  then SCALE_PRIO (DEF_TIMESLICE * 4) (static_prio p)
  else SCALE_PRIO DEF_TIMESLICE (static_prio p).

Definition effective_prio (p : task_struct) : Z :=
  if rt_task p then prio p else
  let bonus := CURRENT_BONUS p - MAX_BONUS ÷ 2 in
  let pr := static_prio p - bonus in
  let pr := if pr <? MAX_RT_PRIO then MAX_RT_PRIO else pr in
  if MAX_PRIO - 1 <? pr then MAX_PRIO - 1 else pr.

Definition recalc_task_prio (p : task_struct) (now : Z) : task_struct :=
  let __sleep_time := wrap64 (now - timestamp p) in
  let sleep_time := if NS_MAX_SLEEP_AVG <? __sleep_time then NS_MAX_SLEEP_AVG
                    else wrap32 __sleep_time in
  let p1 :=
    if 0 <? sleep_time then
      if has_mm p && negb (activated p =? -1) && (INTERACTIVE_SLEEP p <? sleep_time) then
        set_sleep_avg (JIFFIES_TO_NS (MAX_SLEEP_AVG - DEF_TIMESLICE)) p
      else
        let sleep_time := wrap32 (sleep_time * bonus_gap p) in
        let '(p', sleep_time) :=
          if (activated p =? -1) && has_mm p then
            if INTERACTIVE_SLEEP p <=? sleep_avg p then (p, 0)
            else if INTERACTIVE_SLEEP p <=? wrap32 (sleep_avg p + sleep_time)
            then (set_sleep_avg (INTERACTIVE_SLEEP p) p, 0)
            else (p, sleep_time)
          else (p, sleep_time) in
        let avg := wrap32 (sleep_avg p' + sleep_time) in
        set_sleep_avg (if NS_MAX_SLEEP_AVG <? avg then NS_MAX_SLEEP_AVG else avg) p'
    else p in
  set_prio (effective_prio p1) p1.

(** ** Priority arrays *)

(** [__set_bit], [__clear_bit] and [sched_find_first_bit] (include/asm-i386/bitops.h);
    [__ffs] is the index of the lowest set bit. *)
Definition __set_bit (nr : Z) (b : list Z) : list Z :=
  alter (λ w, Z.setbit w (nr mod 32)) (Z.to_nat (nr / 32)) b.
Definition __clear_bit (nr : Z) (b : list Z) : list Z :=
  alter (λ w, Z.clearbit w (nr mod 32)) (Z.to_nat (nr / 32)) b.

Definition __ffs (w : Z) : Z := generic_ffs (sgn32 w) - 1.

Definition sched_find_first_bit (b : list Z) : Z :=
  let w k := default 0 (b !! k) in
  if negb (w 0%nat =? 0) then __ffs (w 0%nat)
  else if negb (w 1%nat =? 0) then __ffs (w 1%nat) + 32
  else if negb (w 2%nat =? 0) then __ffs (w 2%nat) + 64
  else if negb (w 3%nat =? 0) then __ffs (w 3%nat) + 96
  else __ffs (w 4%nat) + 128.

Definition get_task (p : Z) : SM runqueue task_struct := λ r,
  match tasks r !! p with Some t => (Ok t, r) | None => (Bug, r) end.
Definition upd_task (p : Z) (f : task_struct → task_struct) : SM runqueue unit := λ r,
  match tasks r !! p with
  | Some t => (Ok tt, rq_set_tasks (<[p := f t]> (tasks r)) r)
  | None => (Bug, r)
  end.
Definition get_array (a : nat) : SM runqueue prio_array := λ r,
  match arrays r !! a with Some x => (Ok x, r) | None => (Bug, r) end.
Definition put_array (a : nat) (x : prio_array) : SM runqueue unit :=
  modify (λ r, rq_set_arrays (<[a := x]> (arrays r)) r).

(** The queue of a priority; an index outside the array is a fault. *)
Definition get_queue (x : prio_array) (pr : Z) : SM runqueue (list Z) := λ r,
  if pr <? 0 then (Bug, r) else
  match queue x !! Z.to_nat pr with Some q => (Ok q, r) | None => (Bug, r) end.

Definition dequeue_task (p : Z) (a : nat) : SM runqueue unit :=
  t ← get_task p;
  x ← get_array a;
  q ← get_queue x (prio t);
  if decide (p ∈ q) then
    let q' := filter (λ j, j ≠ p) q in
    put_array a (mk_array (nr_active x - 1)
      (if decide (q' = []) then __clear_bit (prio t) (bitmap x) else bitmap x)
      (<[Z.to_nat (prio t) := q']> (queue x)))
  else bug.

Definition enqueue_task (p : Z) (a : nat) : SM runqueue unit :=
  t ← get_task p;
  x ← get_array a;
  q ← get_queue x (prio t);
  _ ← put_array a (mk_array (nr_active x + 1) (__set_bit (prio t) (bitmap x))
        (<[Z.to_nat (prio t) := q ++ [p]]> (queue x)));
  upd_task p (set_array (Some a)).

Definition requeue_task (p : Z) (a : nat) : SM runqueue unit :=
  t ← get_task p;
  x ← get_array a;
  q ← get_queue x (prio t);
  if decide (p ∈ q) then
    put_array a (mk_array (nr_active x) (bitmap x)
      (<[Z.to_nat (prio t) := filter (λ j, j ≠ p) q ++ [p]]> (queue x)))
  else bug.

Definition __activate_task (p : Z) : SM runqueue unit :=
  r ← gets id;
  _ ← enqueue_task p (active r);
  modify (λ r, rq_set_nr_running (nr_running r + 1) r).

Definition activate_task (p : Z) (clock : Z) (in_interrupt : bool) : SM runqueue unit :=
  _ ← upd_task p (λ t, recalc_task_prio t clock);
  _ ← upd_task p (λ t, if activated t =? 0
        then set_activated (if in_interrupt then 2 else 1) t else t);
  _ ← upd_task p (set_timestamp clock);
  __activate_task p.

Definition deactivate_task (p : Z) : SM runqueue unit :=
  _ ← modify (λ r, rq_set_nr_running (nr_running r - 1) r);
  t ← get_task p;
  match array t with
  | None => bug
  | Some a =>
      _ ← dequeue_task p a;
      upd_task p (set_array None)
  end.

Definition resched_task (p : Z) : SM runqueue unit := upd_task p (set_need_resched true).

(** [TASK_PREEMPTS_CURR(p, rq)] *)
Definition preempts_curr (p : Z) : SM runqueue bool :=
  r ← gets id;
  t ← get_task p;
  c ← get_task (curr r);
  mret (prio t <? prio c).

(** ** Wake-up *)

Definition try_to_wake_up (p : Z) (wake_state : Z) (sync : bool) (clock : Z) (in_interrupt : bool)
  : SM runqueue Z :=
  t ← get_task p;
  let old_state := state t in
  if Z.land old_state wake_state =? 0 then mret 0 else
  match array t with
  | Some _ => _ ← upd_task p (set_state TASK_RUNNING); mret 0
  | None =>
      _ ← when (old_state =? TASK_UNINTERRUPTIBLE)
            (_ ← modify (λ r, rq_set_nr_uninterruptible (nr_uninterruptible r - 1) r);
             upd_task p (set_activated (-1)));
      _ ← activate_task p clock in_interrupt;
      _ ← when (negb sync)
            (b ← preempts_curr p;
             when b (r ← gets id; resched_task (curr r)));
      _ ← upd_task p (set_state TASK_RUNNING);
      mret 1
  end.

Definition wake_up_process (p clock : Z) (in_interrupt : bool) : SM runqueue Z :=
  try_to_wake_up p (Z.lor (Z.lor TASK_STOPPED TASK_TRACED)
                      (Z.lor TASK_INTERRUPTIBLE TASK_UNINTERRUPTIBLE)) false clock in_interrupt.

(** ** The timer tick *)

Definition EXPIRED_STARVING (r : runqueue) (c : task_struct) (jiffies : Z) : bool :=
  (negb (expired_timestamp r =? 0) &&
   (wrap32 (STARVATION_LIMIT * nr_running r + 1) <=? wrap32 (jiffies - expired_timestamp r))) ||
  (best_expired_prio r <? static_prio c).

(** A task that has used up its time slice. *)
Definition tick_expire (p : Z) (jiffies : Z) : SM runqueue unit :=
  r0 ← gets id;
  _ ← dequeue_task p (active r0);
  _ ← upd_task p (set_need_resched true);
  _ ← upd_task p (λ t, set_prio (effective_prio t) t);
  _ ← upd_task p (λ t, set_time_slice (task_timeslice t) t);
  _ ← upd_task p (set_first_time_slice 0);
  _ ← modify (λ r, if expired_timestamp r =? 0 then rq_set_expired_timestamp jiffies r else r);
  r ← gets id;
  t ← get_task p;
  c ← get_task (curr r);
  if negb (TASK_INTERACTIVE t) || EXPIRED_STARVING r c jiffies then
    _ ← enqueue_task p (expired r);
    modify (λ r, if static_prio t <? best_expired_prio r
                 then rq_set_best_expired_prio (static_prio t) r else r)
  else enqueue_task p (active r).

Definition scheduler_tick (clock jiffies : Z) : SM runqueue unit :=
  _ ← modify (rq_set_timestamp_last_tick clock);
  r ← gets id;
  let p := curr r in
  if p =? idle r then mret tt else
  t ← get_task p;
  if decide (array t ≠ Some (active r)) then upd_task p (set_need_resched true) else
  if rt_task t then
    if policy t =? SCHED_RR then
      _ ← upd_task p (λ t, set_time_slice (wrap32 (time_slice t - 1)) t);
      t' ← get_task p;
      if time_slice t' =? 0 then
        _ ← upd_task p (λ t, set_time_slice (task_timeslice t) t);
        _ ← upd_task p (set_first_time_slice 0);
        _ ← upd_task p (set_need_resched true);
        requeue_task p (active r)
      else mret tt
    else mret tt
  else
    _ ← upd_task p (λ t, set_time_slice (wrap32 (time_slice t - 1)) t);
    t' ← get_task p;
    if time_slice t' =? 0 then tick_expire p jiffies else
    if TASK_INTERACTIVE t' &&
       (wrap32 (task_timeslice t' - time_slice t') mod TIMESLICE_GRANULARITY t' =? 0) &&
       (TIMESLICE_GRANULARITY t' <=? time_slice t') &&
       bool_decide (array t' = Some (active r)) then
      _ ← requeue_task p (active r);
      upd_task p (set_need_resched true)
    else mret tt.

(** ** schedule() *)

(** [run_time]: what the outgoing task is charged. *)
Definition charged_time (prev : task_struct) (now : Z) : Z :=
  let d := wrap64 (now - timestamp prev) in
  let run_time := if d <? NS_MAX_SLEEP_AVG then d else NS_MAX_SLEEP_AVG in
  run_time / (if CURRENT_BONUS prev =? 0 then 1 else CURRENT_BONUS prev).

(** Takes a task that goes to sleep off the run queue. *)
Definition schedule_out (prev : Z) (preempt_active : bool) : SM runqueue unit :=
  _ ← upd_task prev (λ t, if pf_dead t then set_state EXIT_DEAD t else t);
  t ← get_task prev;
  when (negb (state t =? 0) && negb preempt_active)
    (if negb (Z.land (state t) TASK_INTERRUPTIBLE =? 0) && sigpending t
     then upd_task prev (set_state TASK_RUNNING)
     else
       _ ← when (state t =? TASK_UNINTERRUPTIBLE)
             (modify (λ r, rq_set_nr_uninterruptible (nr_uninterruptible r + 1) r));
       deactivate_task prev).

(** Switches the arrays when the active one is empty. *)
Definition switch_arrays : SM runqueue unit :=
  r ← gets id;
  x ← get_array (active r);
  when (nr_active x =? 0)
    (modify (λ r, rq_set_best_expired_prio MAX_PRIO (rq_set_expired_timestamp 0
       (rq_set_expired (active r) (rq_set_active (expired r) r))))).

(** The first task of the first non-empty queue of the active array. *)
Definition first_task : SM runqueue Z :=
  r ← gets id;
  x ← get_array (active r);
  let idx := sched_find_first_bit (bitmap x) in
  q ← get_queue x idx;
  match q with [] => bug | p :: _ => mret p end.

Definition pick_next (now : Z) : SM runqueue Z :=
  _ ← switch_arrays;
  next ← first_task;
  t ← get_task next;
  _ ← when (negb (rt_task t) && (0 <? activated t))
        (let delta := wrap64 (now - timestamp t) in
         let delta := if activated t =? 1
                      then wrap64 (delta * (ON_RUNQUEUE_WEIGHT * 128 / 100)) / 128 else delta in
         match array t with
         | None => bug
         | Some a =>
             _ ← dequeue_task next a;
             _ ← upd_task next (λ t, recalc_task_prio t (wrap64 (timestamp t + delta)));
             enqueue_task next a
         end);
  _ ← upd_task next (set_activated 0);
  mret next.

(** [switch_tasks:] to the switch itself. *)
Definition switch_tasks (prev next run_time now : Z) : SM runqueue unit :=
  _ ← upd_task prev (set_need_resched false);
  _ ← upd_task prev (λ t,
        let avg := wrap32 (sleep_avg t - run_time) in
        set_last_ran now (set_timestamp now
          (set_sleep_avg (if sgn32 avg <=? 0 then 0 else avg) t)));
  when (negb (prev =? next))
    (_ ← upd_task next (set_timestamp now);
     modify (λ r, rq_set_curr next (rq_set_nr_switches (nr_switches r + 1) r))).

Definition schedule (clock : Z) (preempt_active : bool) : SM runqueue Z :=
  r0 ← gets id;
  let prev := curr r0 in
  t ← get_task prev;
  let run_time := charged_time t clock in
  _ ← schedule_out prev preempt_active;
  r ← gets id;
  next ← (if nr_running r =? 0
          then _ ← modify (rq_set_expired_timestamp 0); mret (idle r)
          else pick_next clock);
  _ ← switch_tasks prev next run_time clock;
  mret next.

(** ** Fork and exit *)

(** [p] is the child, a copy of current; the caller runs the tick when told. *)
Definition sched_fork (p clock jiffies : Z) : SM runqueue unit :=
  r ← gets id;
  c ← get_task (curr r);
  _ ← upd_task p (λ t, set_timestamp clock (set_first_time_slice 1
        (set_time_slice (Z.shiftr (wrap32 (time_slice c + 1)) 1)
        (set_array None (set_state TASK_RUNNING t)))));
  _ ← upd_task (curr r) (set_time_slice (Z.shiftr (time_slice c) 1));
  if Z.shiftr (time_slice c) 1 =? 0 then
    _ ← upd_task (curr r) (set_time_slice 1);
    scheduler_tick clock jiffies
  else mret tt.

(** [JIFFIES_TO_NS(CURRENT_BONUS(p) * penalty / 100 * MAX_SLEEP_AVG / MAX_BONUS)] *)
Definition forked_sleep_avg (p : task_struct) (penalty : Z) : Z :=
  wrap32 (JIFFIES_TO_NS (CURRENT_BONUS p * penalty / 100 * MAX_SLEEP_AVG / MAX_BONUS)).

(** Inserts [p] before [c] in its queue: [list_add_tail(&p->run_list, &c->run_list)]. *)
Fixpoint insert_before (p c : Z) (q : list Z) : list Z :=
  match q with
  | [] => []
  | x :: q' => if x =? c then p :: x :: q' else x :: insert_before p c q'
  end.

Definition wake_up_new_task (p : Z) (clone_vm : bool) : SM runqueue unit :=
  r ← gets id;
  t ← get_task p;
  if negb (state t =? TASK_RUNNING) then bug else
  _ ← upd_task p (λ t, set_sleep_avg (forked_sleep_avg t CHILD_PENALTY) t);
  _ ← upd_task p (λ t, set_prio (effective_prio t) t);
  c ← get_task (curr r);
  _ ← (if negb clone_vm then
         _ ← match array c with
             | None => __activate_task p
             | Some a =>
                 _ ← upd_task p (set_prio (prio c));
                 x ← get_array a;
                 q ← get_queue x (prio c);
                 if decide (curr r ∈ q) then
                   _ ← put_array a (mk_array (nr_active x + 1) (bitmap x)
                         (<[Z.to_nat (prio c) := insert_before p (curr r) q]> (queue x)));
                   _ ← upd_task p (set_array (Some a));
                   modify (λ r, rq_set_nr_running (nr_running r + 1) r)
                 else bug
             end;
         upd_task (curr r) (set_need_resched true)
       else __activate_task p);
  upd_task (curr r) (λ t, set_sleep_avg (forked_sleep_avg t PARENT_PENALTY) t).

Definition sched_exit (p : Z) : SM runqueue unit :=
  t ← get_task p;
  _ ← when (negb (first_time_slice t =? 0))
        (upd_task (parent t) (λ q,
           let s := wrap32 (time_slice q + time_slice t) in
           set_time_slice (if task_timeslice t <? s then task_timeslice t else s) q));
  upd_task (parent t) (λ q,
    if sleep_avg t <? sleep_avg q
    then set_sleep_avg (wrap32 (sleep_avg q / (EXIT_WEIGHT + 1) * EXIT_WEIGHT +
                                sleep_avg t / (EXIT_WEIGHT + 1))) q
    else q).

(** ** Changing priorities *)

Definition set_user_nice (p nice : Z) : SM runqueue unit :=
  t ← get_task p;
  if (TASK_NICE t =? nice) || (nice <? -20) || (19 <? nice) then mret tt else
  if rt_task t then upd_task p (set_static_prio (NICE_TO_PRIO nice)) else
  _ ← match array t with Some a => dequeue_task p a | None => mret tt end;
  let delta := NICE_TO_PRIO nice - prio t in
  _ ← upd_task p (set_static_prio (NICE_TO_PRIO nice));
  _ ← upd_task p (λ t, set_prio (prio t + delta) t);
  match array t with
  | None => mret tt
  | Some a =>
      _ ← enqueue_task p a;
      r ← gets id;
      when ((delta <? 0) || ((0 <? delta) && (curr r =? p))) (resched_task (curr r))
  end.

(** [cap_sys_nice]: the result of [capable(CAP_SYS_NICE)]. *)
Definition sys_nice (cap_sys_nice : bool) (increment : Z) : SM runqueue Z :=
  if (increment <? 0) && negb cap_sys_nice then fail EPERM else
  let increment := if increment <? -40 then -40 else increment in
  let increment := if 40 <? increment then 40 else increment in
  r ← gets id;
  c ← get_task (curr r);
  let nice := PRIO_TO_NICE (static_prio c) + increment in
  let nice := if nice <? -20 then -20 else nice in
  let nice := if 19 <? nice then 19 else nice in
  _ ← set_user_nice (curr r) nice;
  mret 0.

Definition __setscheduler (p pol pr : Z) : SM runqueue unit :=
  t ← get_task p;
  match array t with
  | Some _ => bug
  | None =>
      upd_task p (λ t,
        let t1 := set_rt_priority pr (set_policy pol t) in
        set_prio (if negb (pol =? SCHED_NORMAL) then MAX_USER_RT_PRIO - 1 - pr
                  else static_prio t1) t1)
  end.

Definition sched_setscheduler (cap_sys_nice : bool) (p pol sched_priority : Z) : SM runqueue Z :=
  r ← gets id;
  t ← get_task p;
  c ← get_task (curr r);
  if (0 <=? pol) && negb (pol =? SCHED_FIFO) && negb (pol =? SCHED_RR) && negb (pol =? SCHED_NORMAL)
  then fail EINVAL else
  let pol := if pol <? 0 then policy t else pol in
  if (sched_priority <? 0) || (MAX_USER_RT_PRIO - 1 <? sched_priority) then fail EINVAL else
  if negb (Bool.eqb (pol =? SCHED_NORMAL) (sched_priority =? 0)) then fail EINVAL else
  if ((pol =? SCHED_FIFO) || (pol =? SCHED_RR)) && negb cap_sys_nice then fail EPERM else
  if negb (euid c =? euid t) && negb (euid c =? uid t) && negb cap_sys_nice then fail EPERM else
  _ ← match array t with Some _ => deactivate_task p | None => mret tt end;
  let oldprio := prio t in
  _ ← __setscheduler p pol sched_priority;
  _ ← match array t with
      | None => mret tt
      | Some _ =>
          _ ← __activate_task p;
          t' ← get_task p;
          if curr r =? p
          then when (oldprio <? prio t') (resched_task (curr r))
          else b ← preempts_curr p; when b (resched_task (curr r))
      end;
  mret 0.

(** [sys_sched_yield] up to its call of [schedule]. *)
Definition sched_yield : SM runqueue unit :=
  r ← gets id;
  c ← get_task (curr r);
  let target := if rt_task c then active r else expired r in
  match array c with
  | None => bug
  | Some a =>
      if decide (a ≠ target) then
        _ ← dequeue_task (curr r) a;
        enqueue_task (curr r) target
      else requeue_task (curr r) a
  end.

(** One array, and the run queue of an idle CPU (sched_init). *)
Definition empty_array : prio_array :=
  mk_array 0 (__set_bit MAX_PRIO (replicate 5 0)) (replicate (Z.to_nat MAX_PRIO) []).

End Sched.
