(* ===== verification/SchedFacts.v ===== *)
(** * Theorems on the scheduler: priorities, time slices, sleep averages

    Ranges of the dynamic priority and the time slice, the two guarantees the
    comment of [effective_prio] gives, the interactivity table, and what the
    32-bit arithmetic of the sleep average does. *)

From stdpp Require Import prelude numbers list gmap.
From Stdlib Require Import ZArith Lia.
From S2P Require Import Prelude Sched.

#[local] Set Default Goal Selector "!".
#[local] Open Scope Z_scope.

Module SchedPrio.
Import Sched.

(** Values the fields of a task other than idle range over. *)
Record task_ok (t : task_struct) : Prop := {
  tk_prio : 0 <= prio t < MAX_PRIO;
  tk_static : MAX_RT_PRIO <= static_prio t < MAX_PRIO;
  tk_avg : 0 <= sleep_avg t <= NS_MAX_SLEEP_AVG;
  tk_slice : 0 <= time_slice t <= 800;
  tk_rt : rt_task t = true ↔ policy t ≠ SCHED_NORMAL;
  tk_policy : policy t = SCHED_NORMAL ∨ policy t = SCHED_FIFO ∨ policy t = SCHED_RR
}.

Lemma bonus_range t : 0 <= sleep_avg t <= NS_MAX_SLEEP_AVG → 0 <= CURRENT_BONUS t <= MAX_BONUS.
Proof.
  unfold CURRENT_BONUS, NS_TO_JIFFIES. change (1000000000 / HZ) with 1000000.
  change MAX_BONUS with 10. change MAX_SLEEP_AVG with 1000.
  change NS_MAX_SLEEP_AVG with 1000000000. intros. zdm.
Qed.

Lemma bonus_gap_range t : 0 <= sleep_avg t <= NS_MAX_SLEEP_AVG → 1 <= bonus_gap t <= MAX_BONUS.
Proof.
  intros H. pose proof (bonus_range t H). unfold bonus_gap.
  change MAX_BONUS with 10 in *. case_zb; lia.
Qed.

Lemma effective_prio_clamp t : rt_task t = false →
  effective_prio t = Z.min 139 (Z.max 100 (static_prio t - (CURRENT_BONUS t - 5))).
Proof.
  unfold effective_prio. intros ->. change MAX_RT_PRIO with 100. change (MAX_PRIO - 1) with 139.
  change (MAX_BONUS ÷ 2) with 5. cbv zeta.
  destruct (Z.ltb_spec (static_prio t - (CURRENT_BONUS t - 5)) 100); case_zb; lia.
Qed.

(** The dynamic priority.  For a task of normal policy with a sleep average in
    range, [effective_prio] lies in the normal range 100..139 and within 5 of the
    static priority; a real-time task keeps its priority. *)
Theorem effective_prio_bounds t :
  MAX_RT_PRIO <= static_prio t < MAX_PRIO → 0 <= sleep_avg t <= NS_MAX_SLEEP_AVG →
  (rt_task t = true → effective_prio t = prio t) ∧
  (rt_task t = false →
     MAX_RT_PRIO <= effective_prio t < MAX_PRIO ∧
     static_prio t - 5 <= effective_prio t <= static_prio t + 5).
Proof.
  intros Hs Ha. pose proof (bonus_range t Ha) as Hb. change MAX_BONUS with 10 in Hb.
  split; intros Hr; [unfold effective_prio; by rewrite Hr|].
  rewrite effective_prio_clamp by done.
  change MAX_RT_PRIO with 100 in *. change MAX_PRIO with 140 in *. lia.
Qed.

(** The two promises of the comment above [effective_prio]: whatever their sleep
    averages, a nice +19 task never has a better dynamic priority than a nice 0 task
    (so it does not preempt a nice 0 CPU hog), and a nice 0 task never a better one
    than a nice -20 task. *)
Theorem nice_levels_separated a b :
  rt_task a = false → rt_task b = false →
  0 <= sleep_avg a <= NS_MAX_SLEEP_AVG → 0 <= sleep_avg b <= NS_MAX_SLEEP_AVG →
  (TASK_NICE a = 19 ∧ TASK_NICE b = 0) ∨ (TASK_NICE a = 0 ∧ TASK_NICE b = -20) →
  effective_prio b < effective_prio a.
Proof.
  intros Ra Rb Ha Hb Hn. pose proof (bonus_range a Ha). pose proof (bonus_range b Hb).
  rewrite !effective_prio_clamp by done. unfold TASK_NICE, PRIO_TO_NICE in *.
  change MAX_BONUS with 10 in *. change MAX_RT_PRIO with 100 in *. lia.
Qed.

Lemma timeslice_values t : MAX_RT_PRIO <= static_prio t < MAX_PRIO →
  task_timeslice t = if static_prio t <? 120 then 20 * (140 - static_prio t)
                     else 5 * (140 - static_prio t).
Proof.
  intros H. unfold task_timeslice, SCALE_PRIO.
  change (NICE_TO_PRIO 0) with 120. change (DEF_TIMESLICE * 4) with 400.
  change DEF_TIMESLICE with 100. change MAX_PRIO with 140 in *. change (MAX_USER_PRIO ÷ 2) with 20.
  change MIN_TIMESLICE with 5. change MAX_RT_PRIO with 100 in *.
  case_zb; Z.quot_rem_to_equations; lia.
Qed.

(** Time slices: from 800 ms at nice -20 over 100 ms at nice 0 to 5 ms at nice 19
    (HZ is 1000), strictly decreasing in the nice value, never below the minimum. *)
Theorem task_timeslice_spec t t' :
  MAX_RT_PRIO <= static_prio t < MAX_PRIO → MAX_RT_PRIO <= static_prio t' < MAX_PRIO →
  MIN_TIMESLICE <= task_timeslice t <= 800 ∧
  (TASK_NICE t = -20 → task_timeslice t = 800) ∧
  (TASK_NICE t = 0 → task_timeslice t = 100) ∧
  (TASK_NICE t = 19 → task_timeslice t = 5) ∧
  (TASK_NICE t < TASK_NICE t' → task_timeslice t' < task_timeslice t).
Proof.
  intros H H'. rewrite !timeslice_values by done. unfold TASK_NICE, PRIO_TO_NICE.
  change MAX_RT_PRIO with 100 in *. change MAX_PRIO with 140 in *. change MIN_TIMESLICE with 5.
  split_and!; intros; repeat case_zb; lia.
Qed.

Lemma recalc_avg_range t now : 0 <= sleep_avg t <= NS_MAX_SLEEP_AVG →
  MAX_RT_PRIO <= static_prio t < MAX_PRIO →
  0 <= sleep_avg (recalc_task_prio t now) <= NS_MAX_SLEEP_AVG.
Proof.
  intros H _. unfold recalc_task_prio. cbn zeta.
  set (st := if NS_MAX_SLEEP_AVG <? _ then _ else _).
  destruct (0 <? st); [|done].
  destruct (has_mm t && _ && _).
  { cbn [sleep_avg set_prio set_sleep_avg]. vm_compute. split; discriminate. }
  destruct (if (activated t =? -1) && has_mm t then _ else _) as [p' s].
  cbn [sleep_avg set_prio set_sleep_avg]. pose proof (wrap32_range (sleep_avg p' + s)).
  assert (0 < NS_MAX_SLEEP_AVG) by (vm_compute; reflexivity). case_zb; lia.
Qed.

Lemma effective_prio_normal t : rt_task t = false → MAX_RT_PRIO <= effective_prio t < MAX_PRIO.
Proof.
  intros Hr. rewrite effective_prio_clamp by done.
  change MAX_RT_PRIO with 100. change MAX_PRIO with 140. lia.
Qed.

(** Everything but the sleep average and the priority stays. *)
Lemma recalc_frame t now : let t' := recalc_task_prio t now in
  static_prio t' = static_prio t ∧ time_slice t' = time_slice t ∧ policy t' = policy t ∧
  array t' = array t ∧ state t' = state t ∧
  (rt_task t = true → prio t' = prio t) ∧
  (rt_task t = false → MAX_RT_PRIO <= prio t' < MAX_PRIO).
Proof.
  unfold recalc_task_prio. cbn zeta.
  set (st := if NS_MAX_SLEEP_AVG <? _ then _ else _).
  assert (Heff : ∀ q, prio q = prio t → let t' := set_prio (effective_prio q) q in
    (rt_task t = true → prio t' = prio t) ∧ (rt_task t = false → MAX_RT_PRIO <= prio t' < MAX_PRIO)).
  { intros q Hq. cbn. assert (rt_task q = rt_task t) as E by (unfold rt_task; by rewrite Hq).
    split; intros Hr; [unfold effective_prio; by rewrite E, Hr|].
    apply effective_prio_normal. congruence. }
  destruct (0 <? st); [|cbn; split_and!; try done; by apply Heff].
  destruct (has_mm t && _ && _); [cbn; split_and!; try done; by apply (Heff (set_sleep_avg _ t))|].
  destruct ((activated t =? -1) && has_mm t);
    [|cbn; split_and!; try done; by apply (Heff (set_sleep_avg _ t))].
  destruct (INTERACTIVE_SLEEP t <=? sleep_avg t);
    [cbn; split_and!; try done; by apply (Heff (set_sleep_avg _ t))|].
  destruct (INTERACTIVE_SLEEP t <=? _);
    cbn; split_and!; try done; by apply (Heff (set_sleep_avg _ _)).
Qed.

Lemma task_ok_recalc t now : task_ok t → task_ok (recalc_task_prio t now).
Proof.
  intros [Hp Hs Ha Hl Hr Hpol]. pose proof (recalc_avg_range t now Ha Hs) as Ha'.
  destruct (recalc_frame t now) as (Es & El & Ep & _ & _ & Hrt & Hnrt).
  assert (Hprio : 0 <= prio (recalc_task_prio t now) < MAX_PRIO ∧
    rt_task (recalc_task_prio t now) = rt_task t).
  { unfold rt_task at 1. destruct (rt_task t) eqn:E.
    - rewrite Hrt by done. split; [done|exact E].
    - specialize (Hnrt eq_refl). change MAX_RT_PRIO with 100 in *. split; [lia|].
      apply Z.ltb_ge. lia. }
  destruct Hprio as [Hp' Hr']. split; [done|by rewrite Es|done|by rewrite El| |by rewrite Ep].
  rewrite Hr', Ep. done.
Qed.

(** ** The interactivity table *)

Definition with_nice_prio (nice x : Z) : task_struct :=
  mk_task (NICE_TO_PRIO nice + x) (NICE_TO_PRIO nice) 0 100 0 0 0 0 SCHED_NORMAL 0 0 None
    true false false false 0 0 0.

(** The dynamic priority offsets -5 .. 5 rated interactive at a nice value. *)
Definition interactive_row (nice : Z) : list bool :=
  (λ x, TASK_INTERACTIVE (with_nice_prio nice x)) <$> seqZ (-5) 11.

(** The interactivity table in the comment above [TASK_INTERACTIVE] against the
    macro: the rows for nice -20, 0, 10 and 19 are as the comment says, but at nice
    -10 only the six offsets -5..0 are interactive where the comment shows seven,
    since C's division rounds (-10 * 10) / 40 to -2. *)
Theorem task_interactive_table :
  interactive_row (-20) = replicate 9 true ++ replicate 2 false ∧
  interactive_row (-10) = replicate 6 true ++ replicate 5 false ∧
  interactive_row 0 = replicate 4 true ++ replicate 7 false ∧
  interactive_row 10 = replicate 2 true ++ replicate 9 false ∧
  interactive_row 19 = replicate 11 false.
Proof. vm_compute. done. Qed.

(** ** Witnesses of the ranges *)

Lemma effective_prio_bounds_witness :
  (rt_task (with_nice_prio 5 0) = true →
     effective_prio (with_nice_prio 5 0) = prio (with_nice_prio 5 0)) ∧
  (rt_task (with_nice_prio 5 0) = false →
     MAX_RT_PRIO <= effective_prio (with_nice_prio 5 0) < MAX_PRIO ∧
     static_prio (with_nice_prio 5 0) - 5 <= effective_prio (with_nice_prio 5 0)
       <= static_prio (with_nice_prio 5 0) + 5).
Proof. apply (effective_prio_bounds (with_nice_prio 5 0)); vm_compute; split; congruence. Defined.

Lemma nice_levels_separated_witness :
  effective_prio (with_nice_prio 0 3) < effective_prio (with_nice_prio 19 (-5)).
Proof.
  apply (nice_levels_separated (with_nice_prio 19 (-5)) (with_nice_prio 0 3));
    [reflexivity|reflexivity| | |left; split; reflexivity]; vm_compute; split; congruence.
Defined.

Lemma task_timeslice_spec_witness :
  MIN_TIMESLICE <= task_timeslice (with_nice_prio 0 0) <= 800 ∧
  (TASK_NICE (with_nice_prio 0 0) = -20 → task_timeslice (with_nice_prio 0 0) = 800) ∧
  (TASK_NICE (with_nice_prio 0 0) = 0 → task_timeslice (with_nice_prio 0 0) = 100) ∧
  (TASK_NICE (with_nice_prio 0 0) = 19 → task_timeslice (with_nice_prio 0 0) = 5) ∧
  (TASK_NICE (with_nice_prio 0 0) < TASK_NICE (with_nice_prio 7 0) →
     task_timeslice (with_nice_prio 7 0) < task_timeslice (with_nice_prio 0 0)).
Proof.
  apply (task_timeslice_spec (with_nice_prio 0 0) (with_nice_prio 7 0)); vm_compute; split; congruence.
Defined.

(** ** Overflow of the sleep time *)

Definition sleeper (avg activated : Z) (mm : bool) : task_struct :=
  mk_task 125 120 avg 100 0 0 0 activated SCHED_NORMAL 0 0 None mm false false false 0 0 0.

(** On a 32-bit machine the scaled sleep time of [recalc_task_prio] overflows
    [unsigned long]: a nice 0 task with an empty sleep average that sleeps 400 ms is
    credited with the full second (and the best dynamic priority), but one that
    sleeps 430 ms with only about 5 ms (and the worst one), although the comment says
    that a low average rises the more rapidly with sleep time. *)
Theorem recalc_sleep_overflow :
  let short := recalc_task_prio (sleeper 0 0 true) 400000000 in
  let long := recalc_task_prio (sleeper 0 0 true) 430000000 in
  sleep_avg short = NS_MAX_SLEEP_AVG ∧ prio short = 115 ∧
  sleep_avg long = 5032704 ∧ prio long = 125.
Proof. vm_compute. done. Qed.

End SchedPrio.
