(* ===== verification/RunqueueFacts.v ===== *)
(** * Theorems on the scheduler: run queue and task selection

    The run queue invariant (bitmaps, counters and the membership of tasks in
    queues agree) is preserved by every operation, and [schedule] picks a task
    of the best priority. *)

From stdpp Require Import prelude numbers list gmap.
From Stdlib Require Import ZArith Lia.
From S2P Require Import Prelude Bitops Sched SchedFacts.

#[local] Set Default Goal Selector "!".
#[local] Open Scope Z_scope.

Module Runqueue.
Import Sched SchedPrio.

(** ** Bitmaps *)

Definition word (b : list Z) (k : nat) : Z := default 0 (b !! k).
Definition bit (b : list Z) (i : Z) : bool := Z.testbit (word b (Z.to_nat (i / 32))) (i mod 32).

Definition bm_ok (b : list Z) : Prop := length b = 5%nat ∧ Forall is_u32 b.

Lemma testbit_high w i : is_u32 w → 32 <= i → Z.testbit w i = false.
Proof.
  intros [H0 H] Hi. destruct (Z.eq_dec w 0) as [->|]; [apply Z.bits_0|].
  apply Z.bits_above_log2; [done|]. apply Z.log2_lt_pow2; [lia|].
  eapply Z.lt_le_trans; [exact H|]. apply Z.pow_le_mono_r; lia.
Qed.

Lemma u32_bits w : 0 <= w → (∀ i, 32 <= i → Z.testbit w i = false) → is_u32 w.
Proof.
  intros H0 Hb. split; [done|]. destruct (Z.eq_dec w 0) as [->|]; [done|].
  apply Z.log2_lt_pow2; [lia|]. destruct (Z.lt_ge_cases (Z.log2 w) 32) as [|Hge]; [done|].
  assert (0 < w) as Hw by lia. pose proof (Z.bit_log2 w Hw) as E. by rewrite (Hb _ Hge) in E.
Qed.

Lemma setbit_u32 w i : is_u32 w → 0 <= i < 32 → is_u32 (Z.setbit w i).
Proof.
  intros Hw Hi. apply u32_bits.
  - rewrite Z.setbit_spec'. apply Z.lor_nonneg. split; [apply Hw|]. apply Z.pow_nonneg. lia.
  - intros j Hj. rewrite Z.setbit_neq by lia. by apply testbit_high.
Qed.

Lemma clearbit_u32 w i : is_u32 w → 0 <= i < 32 → is_u32 (Z.clearbit w i).
Proof.
  intros Hw Hi. apply u32_bits.
  - rewrite Z.clearbit_spec'. apply Z.ldiff_nonneg. left. apply Hw.
  - intros j Hj. rewrite Z.clearbit_neq by lia. by apply testbit_high.
Qed.

Lemma bm_alter b k f : bm_ok b → (∀ w, is_u32 w → is_u32 (f w)) → bm_ok (alter f k b).
Proof.
  intros [Hl Hf] H. split; [by rewrite length_alter|].
  apply Forall_lookup_2. intros j w Hj. destruct (decide (j = k)) as [->|].
  - rewrite list_lookup_alter_eq in Hj. destruct (b !! k) eqn:E; [|done].
    simplify_eq/=. apply H. by eapply Forall_lookup_1 in Hf.
  - rewrite list_lookup_alter_ne in Hj by done. by eapply Forall_lookup_1 in Hf.
Qed.

Lemma word_alter b k f j : (k < length b)%nat →
  word (alter f k b) j = if decide (j = k) then f (word b k) else word b j.
Proof.
  intros Hk. unfold word. case_decide as E.
  - subst. rewrite list_lookup_alter_eq. by destruct (lookup_lt_is_Some_2 b k Hk) as [w ->].
  - by rewrite list_lookup_alter_ne by done.
Qed.

Lemma div_mod_inj i j : 0 <= i → 0 <= j → i ≠ j → Z.to_nat (i / 32) = Z.to_nat (j / 32) →
  i mod 32 ≠ j mod 32.
Proof.
  intros Hi Hj Hne Hd Hm. apply Hne. rewrite (Z.div_mod i 32), (Z.div_mod j 32) by lia.
  apply Z2Nat.inj in Hd; [|apply Z.div_pos; lia..]. lia.
Qed.

Lemma bit_set b i j : bm_ok b → 0 <= i < 160 → 0 <= j →
  bit (__set_bit i b) j = (i =? j) || bit b j.
Proof.
  intros [Hl _] Hi Hj. unfold bit, __set_bit.
  rewrite word_alter by (rewrite Hl; zdm).
  pose proof (Z.mod_pos_bound i 32). pose proof (Z.mod_pos_bound j 32).
  destruct (Z.eqb_spec i j) as [->|Hne].
  - rewrite decide_True by done. rewrite Z.setbit_eq by lia. done.
  - case_decide as E; [|done]. rewrite E, Z.setbit_neq; [done|lia|].
    by apply div_mod_inj; lia.
Qed.

Lemma bit_clear b i j : bm_ok b → 0 <= i < 160 → 0 <= j →
  bit (__clear_bit i b) j = negb (i =? j) && bit b j.
Proof.
  intros [Hl _] Hi Hj. unfold bit, __clear_bit.
  rewrite word_alter by (rewrite Hl; zdm).
  pose proof (Z.mod_pos_bound i 32). pose proof (Z.mod_pos_bound j 32).
  destruct (Z.eqb_spec i j) as [->|Hne].
  - rewrite decide_True by done. by rewrite Z.clearbit_eq.
  - case_decide as E; [|done]. rewrite E, Z.clearbit_neq; [done|].
    by apply div_mod_inj; lia.
Qed.

Lemma bm_set b i : bm_ok b → bm_ok (__set_bit i b).
Proof.
  intros H. apply bm_alter; [done|]. intros w Hw. apply setbit_u32; [done|].
  apply Z.mod_pos_bound. lia.
Qed.
Lemma bm_clear b i : bm_ok b → bm_ok (__clear_bit i b).
Proof.
  intros H. apply bm_alter; [done|]. intros w Hw. apply clearbit_u32; [done|].
  apply Z.mod_pos_bound. lia.
Qed.

Lemma sgn32_bit w i : is_u32 w → 0 <= i < 32 → Z.testbit (sgn32 w) i = Z.testbit w i.
Proof.
  intros Hw Hi. unfold sgn32. rewrite wrap32_id by done.
  case_zb; [done|]. rewrite <- (Z.mod_pow2_bits_low (w - 2 ^ 32) 32) by lia.
  rewrite <- (Z.mod_pow2_bits_low w 32) by lia. f_equal.
  replace (w - 2 ^ 32) with (w + (-1) * 2 ^ 32) by lia. by rewrite Z_mod_plus_full.
Qed.

Lemma ffs_word w : is_u32 w → w ≠ 0 →
  0 <= __ffs w < 32 ∧ Z.testbit w (__ffs w) = true ∧
  ∀ i, 0 <= i < __ffs w → Z.testbit w i = false.
Proof.
  intros Hw Hnz.
  assert (Hr : - 2 ^ 31 <= sgn32 w < 2 ^ 31 ∧ sgn32 w ≠ 0).
  { unfold sgn32. rewrite wrap32_id by done. destruct Hw. case_zb; lia. }
  destruct (generic_ffs_spec (sgn32 w)) as (H1 & H2 & H3); [apply Hr|apply Hr|].
  unfold __ffs. split_and!; [lia|lia| |].
  - by rewrite <- sgn32_bit by (done || lia).
  - intros i Hi. rewrite <- sgn32_bit by (done || lia). apply H3. lia.
Qed.

Lemma word_u32 b k : bm_ok b → is_u32 (word b k).
Proof.
  intros [_ H]. unfold word. destruct (b !! k) eqn:E; [|by vm_compute].
  by eapply Forall_lookup_1 in H.
Qed.

Lemma word_zero b k i : word b k = 0 → Z.of_nat k * 32 <= i < Z.of_nat k * 32 + 32 →
  bit b i = false.
Proof.
  intros Hw Hi. unfold bit. replace (Z.to_nat (i / 32)) with k by zdm. rewrite Hw. apply Z.bits_0.
Qed.

Lemma word_first b k : bm_ok b → word b k ≠ 0 →
  let n := __ffs (word b k) + Z.of_nat k * 32 in
  Z.of_nat k * 32 <= n < Z.of_nat k * 32 + 32 ∧ bit b n = true ∧
  ∀ i, Z.of_nat k * 32 <= i < n → bit b i = false.
Proof.
  intros Hb Hnz. destruct (ffs_word _ (word_u32 b k Hb) Hnz) as (Hr & Ht & Hlow).
  cbn zeta. unfold bit. split_and!; [lia|lia| |].
  - replace (Z.to_nat _) with k by zdm. replace (_ mod 32) with (__ffs (word b k)) by zdm. done.
  - intros i Hi. replace (Z.to_nat (i / 32)) with k by zdm. apply Hlow. zdm.
Qed.

(** [sched_find_first_bit] finds the first set bit of a bitmap with bit 140 set. *)
Lemma find_first_bit_spec b : bm_ok b → bit b MAX_PRIO = true →
  let n := sched_find_first_bit b in
  0 <= n <= MAX_PRIO ∧ bit b n = true ∧ ∀ i, 0 <= i < n → bit b i = false.
Proof.
  intros Hb Htop.
  assert (Hz : ∀ i, 0 <= i → word b (Z.to_nat (i / 32)) = 0 → bit b i = false).
  { intros i Hi H. apply (word_zero b _ i H). zdm. }
  assert (Hfst : ∀ k, (k <= 4)%nat → word b k ≠ 0 → (∀ j, (j < k)%nat → word b j = 0) →
    let n := __ffs (word b k) + Z.of_nat k * 32 in
    0 <= n <= MAX_PRIO ∧ bit b n = true ∧ ∀ i, 0 <= i < n → bit b i = false).
  { intros k Hk Hnz Hlow. destruct (word_first b k Hb Hnz) as (Hr & Ht & Hf). cbn zeta.
    set (n := __ffs (word b k) + Z.of_nat k * 32) in *.
    assert (Hall : ∀ i, 0 <= i < n → bit b i = false).
    { intros i Hi. destruct (Z.lt_ge_cases i (Z.of_nat k * 32)); [|apply Hf; lia].
      apply Hz; [lia|]. apply Hlow. zdm. }
    split_and!; [lia| |done|done].
    destruct (Z.le_gt_cases n MAX_PRIO); [done|].
    rewrite (Hall MAX_PRIO) in Htop; [done|]. split; [by vm_compute|lia]. }
  unfold sched_find_first_bit. fold (word b 0) (word b 1) (word b 2) (word b 3) (word b 4).
  cbn zeta.
  destruct (Z.eqb_spec (word b 0) 0) as [E0|]; cbn [negb];
    [|rewrite <- (Z.add_0_r (__ffs _)); apply (Hfst 0%nat); [lia|done|lia]].
  destruct (Z.eqb_spec (word b 1) 0) as [E1|]; cbn [negb];
    [|apply (Hfst 1%nat); [lia|done|]; intros [|j] ?; [done|lia]].
  destruct (Z.eqb_spec (word b 2) 0) as [E2|]; cbn [negb];
    [|apply (Hfst 2%nat); [lia|done|]; intros [|[|j]] ?; [done|done|lia]].
  destruct (Z.eqb_spec (word b 3) 0) as [E3|]; cbn [negb];
    [|apply (Hfst 3%nat); [lia|done|]; intros [|[|[|j]]] ?; [done|done|done|lia]].
  apply (Hfst 4%nat); [lia| |intros [|[|[|[|j]]]] ?; [done|done|done|done|lia]].
  intros E4. rewrite (Hz MAX_PRIO) in Htop; [done|by vm_compute|exact E4].
Qed.

(** ** Access to tasks *)

Lemma wp_get_task p t (Φ : task_struct → runqueue → Prop) Ψ (r : runqueue) :
  tasks r !! p = Some t → Φ t r → wp (get_task p) Φ Ψ r.
Proof. unfold wp, get_task. by intros ->. Qed.

Lemma wp_upd_task p f t (Φ : unit → runqueue → Prop) Ψ (r : runqueue) :
  tasks r !! p = Some t → Φ tt (rq_set_tasks (<[p := f t]> (tasks r)) r) →
  wp (upd_task p f) Φ Ψ r.
Proof. unfold wp, upd_task. by intros ->. Qed.

(** ** Priority arrays *)

Record arr_ok (x : prio_array) : Prop := {
  ar_len : length (queue x) = 140%nat;
  ar_bm : bm_ok (bitmap x);
  ar_top : bit (bitmap x) MAX_PRIO = true;
  ar_bit : ∀ i q, queue x !! i = Some q → bit (bitmap x) (Z.of_nat i) = bool_decide (q ≠ []);
  ar_cnt : nr_active x = Z.of_nat (length (concat (queue x)));
  ar_nodup : ∀ i q, queue x !! i = Some q → NoDup q
}.

Lemma length_concat_insert (l : list (list Z)) i q q' : l !! i = Some q →
  (length (concat (<[i := q']> l)) + length q = length (concat l) + length q')%nat.
Proof.
  revert i. induction l as [|y l IH]; intros [|i] H; simplify_eq/=; rewrite !length_app; [lia|].
  specialize (IH i H). lia.
Qed.

(** Replacing one queue, with its bit and the count. *)
Lemma arr_ok_put x i q q' b : arr_ok x → queue x !! i = Some q → NoDup q' → bm_ok b →
  (∀ j, 0 <= j → bit b j = if j =? Z.of_nat i then bool_decide (q' ≠ []) else bit (bitmap x) j) →
  arr_ok (mk_array (nr_active x + Z.of_nat (length q') - Z.of_nat (length q)) b
            (<[i := q']> (queue x))).
Proof.
  intros [Hl Hb Ht Hbit Hc Hn] Hi Hn' Hb' Hbs. pose proof (lookup_lt_Some _ _ _ Hi).
  pose proof (length_concat_insert _ _ _ q' Hi).
  split; cbn [queue bitmap nr_active]; [by rewrite length_insert|done| | |lia|].
  - rewrite Hbs by (by vm_compute). change MAX_PRIO with 140. case_zb; [lia|done].
  - intros j qj Hj. rewrite Hbs by lia. case_zb.
    + replace j with i in * by lia. rewrite list_lookup_insert_eq in Hj by done. by simplify_eq.
    + rewrite list_lookup_insert_ne in Hj by lia. by apply Hbit.
  - intros j qj Hj. destruct (decide (i = j)) as [->|].
    + rewrite list_lookup_insert_eq in Hj by done. by simplify_eq.
    + rewrite list_lookup_insert_ne in Hj by done. by eapply Hn.
Qed.

Lemma length_remove (p : Z) q : NoDup q → p ∈ q →
  (S (length (filter (λ j, j ≠ p) q)) = length q)%nat.
Proof.
  induction 1 as [|y q Hy Hn IH]; intros Hp; [by apply not_elem_of_nil in Hp|].
  destruct (decide (y = p)) as [->|Hne].
  - rewrite filter_cons_False by (intros H; by apply H). rewrite list_filter_all; [done|].
    apply Forall_forall. by intros z Hz ->.
  - rewrite filter_cons_True by done. cbn. rewrite IH; [done|].
    apply elem_of_cons in Hp as [->|]; done.
Qed.

Lemma arr_ok_dequeue x i q p : arr_ok x → queue x !! i = Some q → p ∈ q →
  let q' := filter (λ j, j ≠ p) q in
  arr_ok (mk_array (nr_active x - 1)
            (if decide (q' = []) then __clear_bit (Z.of_nat i) (bitmap x) else bitmap x)
            (<[i := q']> (queue x))).
Proof.
  intros Ha Hi Hp q'. pose proof (ar_nodup _ Ha _ _ Hi) as Hn. pose proof (length_remove p q Hn Hp).
  assert (i < 140)%nat by (rewrite <- (ar_len _ Ha); by eapply lookup_lt_Some).
  replace (nr_active x - 1) with (nr_active x + Z.of_nat (length q') - Z.of_nat (length q))
    by (subst q'; lia).
  apply arr_ok_put; [done|done|by apply NoDup_filter| |].
  - destruct (decide (q' = [])); [apply bm_clear|]; apply Ha.
  - intros j Hj. destruct (decide (q' = [])) as [E|E].
    + rewrite bit_clear by (apply Ha || lia). rewrite Z.eqb_sym. case_zb; [|done].
      rewrite bool_decide_false; [done|]. by intros ?.
    + case_zb; [|done]. subst j. rewrite (ar_bit _ Ha _ _ Hi), !bool_decide_true; [done..|].
      intros ->. by apply not_elem_of_nil in Hp.
Qed.

Lemma arr_ok_enqueue x i q p : arr_ok x → queue x !! i = Some q → (p ∉ q) →
  arr_ok (mk_array (nr_active x + 1) (__set_bit (Z.of_nat i) (bitmap x))
            (<[i := q ++ [p]]> (queue x))).
Proof.
  intros Ha Hi Hp. pose proof (ar_nodup _ Ha _ _ Hi) as Hn.
  assert (i < 140)%nat by (rewrite <- (ar_len _ Ha); by eapply lookup_lt_Some).
  replace (nr_active x + 1) with (nr_active x + Z.of_nat (length (q ++ [p])) - Z.of_nat (length q))
    by (rewrite length_app; cbn; lia).
  apply arr_ok_put; [done|done| | |].
  - apply NoDup_app. split_and!; [done| |apply NoDup_singleton].
    intros z Hz ->%list_elem_of_singleton. done.
  - apply bm_set. apply Ha.
  - intros j Hj. rewrite bit_set by (apply Ha || lia). rewrite Z.eqb_sym. case_zb; [|done].
    rewrite bool_decide_true; [done|]. by destruct q.
Qed.

(** Permuting one queue. *)
Lemma arr_ok_reorder x i q q' : arr_ok x → queue x !! i = Some q → q' ≡ₚ q →
  arr_ok (mk_array (nr_active x) (bitmap x) (<[i := q']> (queue x))).
Proof.
  intros Ha Hi Hp.
  replace (nr_active x) with (nr_active x + Z.of_nat (length q') - Z.of_nat (length q))
    by (rewrite Hp; lia).
  apply arr_ok_put; [done|done| |apply Ha|].
  - rewrite Hp. by eapply ar_nodup.
  - intros j Hj. case_zb; [|done]. subst. rewrite (ar_bit _ Ha _ _ Hi). apply bool_decide_ext.
    split; intros E ->; [by apply Permutation_nil_l in Hp|by apply Permutation_nil_r in Hp].
Qed.

(** ** The run queue *)

(** Task [p] is on queue [i] of array [a]. *)
Definition inq (r : runqueue) (a i : nat) (p : Z) : Prop :=
  ∃ x q, arrays r !! a = Some x ∧ queue x !! i = Some q ∧ p ∈ q.

Definition total (r : runqueue) : Z := foldr (λ x n, nr_active x + n) 0 (arrays r).

(** The invariant of a run queue, in the middle of an operation: task [X] (if any) has been
    taken off its queue, and [nr_running] is [d] below the tasks on the queues.
    - the arrays are well-formed and the two pointers select different ones;
    - a task is on a queue exactly when its [array] field and priority say so;
    - the tasks are well-formed, and idle is never queued and never sleeps. *)
Record core (X : option Z) (d : Z) (r : runqueue) : Prop := {
  co_len : length (arrays r) = 2%nat;
  co_arr : Forall arr_ok (arrays r);
  co_sel : (active r = 0 ∧ expired r = 1)%nat ∨ (active r = 1 ∧ expired r = 0)%nat;
  co_cnt : nr_running r + d = total r;
  co_mem : ∀ a i p, inq r a i p ↔
    X ≠ Some p ∧ ∃ t, tasks r !! p = Some t ∧ array t = Some a ∧ prio t = Z.of_nat i;
  co_task : ∀ p t, tasks r !! p = Some t → p ≠ idle r → task_ok t;
  co_idle : ∃ t, tasks r !! idle r = Some t ∧ array t = None ∧ state t = TASK_RUNNING ∧
    pf_dead t = false
}.

(** Between operations: nothing is in flight, the current task is idle or queued, and every
    task has a time slice left. *)
Definition curr_ok (r : runqueue) : Prop :=
  curr r = idle r ∨ ∃ t, tasks r !! curr r = Some t ∧ array t ≠ None.
Definition slices_ok (r : runqueue) : Prop :=
  ∀ p t, tasks r !! p = Some t → p ≠ idle r → 1 <= time_slice t.
Definition rq_ok (r : runqueue) : Prop := core None 0 r ∧ curr_ok r ∧ slices_ok r.

Lemma total_put l a x n : l !! a = Some x →
  foldr (λ y n, nr_active y + n) 0 (<[a := n]> l) =
  foldr (λ y n, nr_active y + n) 0 l + nr_active n - nr_active x.
Proof.
  revert a. induction l as [|y l IH]; intros [|a] H; simplify_eq/=; [lia|].
  rewrite (IH a) by done. lia.
Qed.

(** Where a queued task is. *)
Lemma core_queue X d r p t a : core X d r → tasks r !! p = Some t → array t = Some a →
  X ≠ Some p → ∃ x q, arrays r !! a = Some x ∧ queue x !! Z.to_nat (prio t) = Some q ∧ p ∈ q ∧
    0 <= prio t < MAX_PRIO ∧ arr_ok x ∧ task_ok t ∧ p ≠ idle r.
Proof.
  intros H Ht Ha HX.
  assert (Hid : p ≠ idle r).
  { intros ->. destruct (co_idle _ _ _ H) as (t' & Ht' & Hn & _). congruence. }
  pose proof (co_task _ _ _ H p t Ht Hid) as Hok. pose proof (tk_prio _ Hok) as Hp.
  destruct (proj2 (co_mem _ _ _ H a (Z.to_nat (prio t)) p)) as (x & q & Hx & Hq & Hin).
  { split; [done|]. exists t. split_and!; [done|done|lia]. }
  exists x, q. split_and!; try done; try lia.
  eapply Forall_lookup_1; [apply (co_arr _ _ _ H)|done].
Qed.

(** Any array index in use exists; every priority has a queue. *)
Lemma core_slot X d r a i : core X d r → (a < 2)%nat → 0 <= i < MAX_PRIO →
  ∃ x q, arrays r !! a = Some x ∧ queue x !! Z.to_nat i = Some q ∧ arr_ok x.
Proof.
  intros H Ha Hi. rewrite <- (co_len _ _ _ H) in Ha.
  destruct (lookup_lt_is_Some_2 _ _ Ha) as [x Hx].
  pose proof (Forall_lookup_1 _ _ _ _ (co_arr _ _ _ H) Hx) as Hok.
  destruct (lookup_lt_is_Some_2 (queue x) (Z.to_nat i)) as [q Hq].
  { rewrite (ar_len _ Hok). change MAX_PRIO with 140 in Hi. lia. }
  eauto.
Qed.

Lemma core_active X d r : core X d r → (active r < 2)%nat ∧ (expired r < 2)%nat.
Proof. intros H. destruct (co_sel _ _ _ H); lia. Qed.

(** Replacing one queue of one array. *)
Lemma inq_put r a x i q x' q' b j p :
  arrays r !! a = Some x → queue x !! i = Some q → queue x' = <[i := q']> (queue x) →
  inq (rq_set_arrays (<[a := x']> (arrays r)) r) b j p ↔
  if decide (a = b ∧ i = j) then p ∈ q' else inq r b j p.
Proof.
  intros Hx Hq Hx'. unfold inq. cbn [arrays rq_set_arrays].
  pose proof (lookup_lt_Some _ _ _ Hx). pose proof (lookup_lt_Some _ _ _ Hq).
  destruct (decide (a = b)) as [->|Hab].
  - rewrite list_lookup_insert_eq by done. case_decide as E.
    + destruct E as [_ <-]. split.
      * intros (y & qy & ? & Hy & ?). simplify_eq. rewrite Hx', list_lookup_insert_eq in Hy by done.
        by simplify_eq.
      * intros. eexists _, _. split_and!; [done| |done]. by rewrite Hx', list_lookup_insert_eq.
    + assert (i ≠ j) by (intros ->; by apply E). split.
      * intros (y & qy & ? & Hy & ?). simplify_eq. rewrite Hx', list_lookup_insert_ne in Hy by done.
        eauto.
      * intros (y & qy & ? & Hy & ?). simplify_eq. eexists _, _. split_and!; [done| |done].
        by rewrite Hx', list_lookup_insert_ne.
  - rewrite decide_False by (by intros [? _]). by rewrite list_lookup_insert_ne.
Qed.

Lemma core_put X X' d d' r a x i q x' q' :
  core X d r → arrays r !! a = Some x → queue x !! i = Some q →
  queue x' = <[i := q']> (queue x) → arr_ok x' →
  d' = d + nr_active x' - nr_active x →
  (∀ p, p ∈ q' ↔ X' ≠ Some p ∧
     ∃ t, tasks r !! p = Some t ∧ array t = Some a ∧ prio t = Z.of_nat i) →
  (∀ p b j, ¬ (a = b ∧ i = j) →
     (∃ t, tasks r !! p = Some t ∧ array t = Some b ∧ prio t = Z.of_nat j) →
     X ≠ Some p ↔ X' ≠ Some p) →
  core X' d' (rq_set_arrays (<[a := x']> (arrays r)) r).
Proof.
  intros H Hx Hq Hx' Hok -> Hmem Hoth.
  split; [cbn; by rewrite length_insert; apply H| | | | |apply H|apply H].
  - cbn. apply Forall_insert; [apply H|done].
  - apply H.
  - unfold total. cbn [arrays rq_set_arrays nr_running].
    rewrite (total_put _ _ _ _ Hx). fold (total r). pose proof (co_cnt _ _ _ H). lia.
  - intros b j p. rewrite (inq_put _ _ _ _ _ _ _ _ _ _ Hx Hq Hx'). case_decide as E.
    + destruct E as [<- <-]. apply Hmem.
    + rewrite (co_mem _ _ _ H). cbn [tasks rq_set_arrays]. specialize (Hoth p b j E).
      split; intros [H1 H2]; (split; [by apply Hoth|done]).
Qed.

Lemma core_upd X d r p t t' :
  core X d r → tasks r !! p = Some t → (p ≠ idle r → task_ok t') →
  (p = idle r → array t' = None ∧ state t' = TASK_RUNNING ∧ pf_dead t' = false) →
  X = Some p ∨ (array t' = array t ∧ prio t' = prio t) →
  core X d (rq_set_tasks (<[p := t']> (tasks r)) r).
Proof.
  intros H Ht Hok Hid HX. split; [apply H|apply H|apply H|apply H| | |].
  - intros a i q. change (inq _ a i q) with (inq r a i q). rewrite (co_mem _ _ _ H).
    cbn [tasks rq_set_tasks]. destruct (decide (q = p)) as [->|Hne].
    + rewrite lookup_insert_eq. destruct HX as [->|[Ha Hp]].
      { split; intros [? _]; done. }
      split; intros [? (u & ? & ? & ?)]; simplify_eq; (split; [done|]); eexists;
        (split_and!; [done|congruence|congruence]).
    + by rewrite lookup_insert_ne.
  - cbn [tasks rq_set_tasks idle]. intros q u Hq Hqi.
    apply lookup_insert_Some in Hq as [[<- <-]|[Hne Hq]]; [by apply Hok|by eapply H].
  - cbn [tasks rq_set_tasks idle]. destruct (decide (p = idle r)) as [E|E].
    + rewrite <- E, lookup_insert_eq. eauto.
    + rewrite lookup_insert_ne by done. apply H.
Qed.

(** A task without array is on no queue, in flight or not. *)
Lemma core_unqueued X d r p t : core X d r → tasks r !! p = Some t → array t = None →
  X = None ∨ X = Some p → core None d r ∧ core (Some p) d r.
Proof.
  intros H Ht Ha HX.
  assert (Hm : ∀ Y a i q, Y = None ∨ Y = Some p → inq r a i q ↔
    Y ≠ Some q ∧ ∃ u, tasks r !! q = Some u ∧ array u = Some a ∧ prio u = Z.of_nat i).
  { intros Y a i q HY. rewrite (co_mem _ _ _ H).
    split; intros [_ (u & Hu & Hua & ?)]; (split; [|eauto]);
      intros E; destruct HX as [->| ->], HY as [->| ->]; simplify_eq. }
  split; (split; [apply H|apply H|apply H|apply H| |apply H|apply H]);
    intros; apply Hm; auto.
Qed.

Lemma core_count X d d' r n : core X d r → n + d' = nr_running r + d →
  core X d' (rq_set_nr_running n r).
Proof.
  intros H Hn. split; [apply H|apply H|apply H| |apply H|apply H|apply H].
  cbn. pose proof (co_cnt _ _ _ H). unfold total in *. cbn. lia.
Qed.

(** ** Queue operations *)

Lemma nat_z_prio t : 0 <= prio t → Z.of_nat (Z.to_nat (prio t)) = prio t.
Proof. lia. Qed.

Lemma wp_get_array a x (Φ : prio_array → runqueue → Prop) Ψ (r : runqueue) :
  arrays r !! a = Some x → Φ x r → wp (get_array a) Φ Ψ r.
Proof. unfold wp, get_array. by intros ->. Qed.

Lemma wp_get_queue x i q (Φ : list Z → runqueue → Prop) Ψ (r : runqueue) :
  0 <= i → queue x !! Z.to_nat i = Some q → Φ q r → wp (get_queue x i) Φ Ψ r.
Proof. intros Hi Hq H. unfold wp, get_queue. case_zb; [lia|]. by rewrite Hq. Qed.

(** [dequeue_task] of a queued task. *)
Lemma wp_dequeue p a t d (r : runqueue) Ψ :
  core None d r → tasks r !! p = Some t → array t = Some a →
  wp (dequeue_task p a) (λ _ r', core (Some p) (d - 1) r' ∧ ∃ l, r' = rq_set_arrays l r) Ψ r.
Proof.
  intros H Ht Ha. destruct (core_queue _ _ _ _ _ _ H Ht Ha) as (x & q & Hx & Hq & Hin & Hp & Hok & _);
    [done|].
  unfold dequeue_task. apply wp_bind. eapply wp_get_task; [done|]. cbv beta.
  apply wp_bind. eapply wp_get_array; [done|]. cbv beta.
  apply wp_bind. eapply wp_get_queue; [apply Hp|done|]. cbv beta.
  rewrite decide_True by done. apply wp_modify. split; [|eauto].
  eapply core_put; [done|done|done|reflexivity| |cbn; lia| |].
  - pose proof (arr_ok_dequeue _ _ _ _ Hok Hq Hin) as E. cbv zeta in E.
    by rewrite nat_z_prio in E by lia.
  - intros u. rewrite list_elem_of_filter.
    assert (u ∈ q ↔ inq r a (Z.to_nat (prio t)) u) as ->.
    { split; [intros; by exists x, q|]. intros (x' & q' & ? & ? & ?). by simplify_eq. }
    rewrite (co_mem _ _ _ H).
    split; [intros (? & _ & ?)|intros [? ?]]; split_and!; (congruence || done).
  - intros u b j Hbj (v & Hv & Hb & Hj). split; [|done]. intros _ [= <-]. apply Hbj.
    simplify_eq. lia.
Qed.

(** A task in flight joins queue [i] of array [a]. *)
Lemma core_join d r a x i q x' q' p t :
  core (Some p) d r → tasks r !! p = Some t → array t = Some a → prio t = Z.of_nat i →
  arrays r !! a = Some x → queue x !! i = Some q → queue x' = <[i := q']> (queue x) → arr_ok x' →
  nr_active x' = nr_active x + 1 → (∀ u, u ∈ q' ↔ u = p ∨ u ∈ q) →
  core None (d + 1) (rq_set_arrays (<[a := x']> (arrays r)) r).
Proof.
  intros H Ht Ha Hp Hx Hq Hx' Hok Hn Hm.
  eapply core_put; [exact H|done|done|done|done|lia| |].
  - intros u. rewrite Hm. assert (u ∈ q ↔ inq r a i u) as ->.
    { split; [intros; by exists x, q|]. intros (y & qy & ? & ? & ?). by simplify_eq. }
    rewrite (co_mem _ _ _ H). split.
    + intros [->|[? ?]]; [|done]. split; [done|]. by exists t.
    + intros [_ Hu]. destruct (decide (u = p)) as [->|]; [by left|right]. split; [congruence|done].
  - intros u b j Hbj (v & Hv & Hb & Hj). split; [done|]. intros _ [= <-]. apply Hbj.
    simplify_eq. split; [done|lia].
Qed.

Lemma core_flying d r a x i q p : core (Some p) d r → arrays r !! a = Some x →
  queue x !! i = Some q → p ∉ q.
Proof.
  intros H Hx Hq Hin. destruct (proj1 (co_mem _ _ _ H a i p)) as [? _]; [|done]. by exists x, q.
Qed.

(** [enqueue_task] of a task that is on no queue. *)
Lemma wp_enqueue p a t d (r : runqueue) Ψ :
  core (Some p) d r → tasks r !! p = Some t → p ≠ idle r → (a < 2)%nat →
  wp (enqueue_task p a) (λ _ r', core None (d + 1) r' ∧
    ∃ l, r' = rq_set_tasks (<[p := set_array (Some a) t]> (tasks r)) (rq_set_arrays l r)) Ψ r.
Proof.
  intros H Ht Hid Ha. pose proof (co_task _ _ _ H _ _ Ht Hid) as Hok.
  destruct (core_slot _ _ _ a (prio t) H Ha) as (x & q & Hx & Hq & Hxo); [apply Hok|].
  pose proof (tk_prio _ Hok) as Hp.
  unfold enqueue_task. apply wp_bind. eapply wp_get_task; [done|]. cbv beta.
  apply wp_bind. eapply wp_get_array; [done|]. cbv beta.
  apply wp_bind. eapply wp_get_queue; [apply Hp|done|]. cbv beta.
  apply wp_bind. apply wp_modify. eapply wp_upd_task; [done|]. split; [|eauto].
  set (r1 := rq_set_tasks (<[p := set_array (Some a) t]> (tasks r)) r).
  assert (H1 : core (Some p) d r1).
  { eapply core_upd; [done|done| |by intros|by left]. intros _. destruct Hok. by split. }
  pose proof (core_flying _ _ _ _ _ _ _ H Hx Hq) as Hpq.
  eapply (core_join _ r1 a x (Z.to_nat (prio t)) q); [exact H1|cbn; by rewrite lookup_insert_eq|done|
    cbn; lia|done|done|reflexivity| |done|].
  - pose proof (arr_ok_enqueue _ _ _ p Hxo Hq Hpq) as E. by rewrite nat_z_prio in E by lia.
  - intros u. rewrite elem_of_app, list_elem_of_singleton. tauto.
Qed.

(** [requeue_task] of a queued task. *)
Lemma wp_requeue p a t d (r : runqueue) Ψ :
  core None d r → tasks r !! p = Some t → array t = Some a →
  wp (requeue_task p a) (λ _ r', core None d r' ∧ ∃ l, r' = rq_set_arrays l r) Ψ r.
Proof.
  intros H Ht Ha. destruct (core_queue _ _ _ _ _ _ H Ht Ha) as (x & q & Hx & Hq & Hin & Hp & Hok & _);
    [done|].
  unfold requeue_task. apply wp_bind. eapply wp_get_task; [done|]. cbv beta.
  apply wp_bind. eapply wp_get_array; [done|]. cbv beta.
  apply wp_bind. eapply wp_get_queue; [apply Hp|done|]. cbv beta.
  rewrite decide_True by done. apply wp_modify. split; [|eauto].
  assert (Hmem : ∀ u, u ∈ filter (λ j, j ≠ p) q ++ [p] ↔ u ∈ q).
  { intros u. rewrite elem_of_app, list_elem_of_filter, list_elem_of_singleton.
    destruct (decide (u = p)) as [->|]; tauto. }
  eapply core_put; [done|done|done|reflexivity| |cbn; lia| |done].
  - eapply arr_ok_reorder; [done|done|]. apply NoDup_Permutation; [|by eapply ar_nodup|done].
    apply NoDup_app. split_and!; [by apply NoDup_filter, (ar_nodup _ Hok _ _ Hq)| |apply NoDup_singleton].
    intros z [? _]%list_elem_of_filter ->%list_elem_of_singleton. done.
  - intros u. rewrite Hmem, nat_z_prio by lia. rewrite <- (nat_z_prio t) by lia.
    rewrite <- (co_mem _ _ _ H). split; [intros; by exists x, q|].
    intros (x' & q' & ? & ? & ?). by simplify_eq.
Qed.

End Runqueue.
