(* ===== verification/SchedSafety.v ===== *)
(** * Theorems on the scheduler: every operation keeps the run queue consistent

    Specifications of the operations of kernel/sched.c over the run queue
    invariant of RunqueueFacts, their composition over any sequence of
    operations, and the choice [schedule] makes.  Module [SchedTick]: what the timer tick
    does to the order of the queues. *)

From stdpp Require Import prelude numbers list gmap.
From Stdlib Require Import ZArith Lia.
From S2P Require Import Prelude Bitops Sched SchedFacts RunqueueFacts.

#[local] Set Default Goal Selector "!".
#[local] Open Scope Z_scope.

Module SchedSafety.
Import Sched SchedPrio Runqueue.

(** What an operation on one task leaves alone. *)
Definition same_sel (r r' : runqueue) : Prop :=
  idle r' = idle r ∧ curr r' = curr r ∧ active r' = active r ∧ expired r' = expired r.

#[export] Instance same_sel_refl : Reflexive same_sel.
Proof. by intros r. Qed.
#[export] Instance same_sel_trans : Transitive same_sel.
Proof. intros a b c (?&?&?&?) (?&?&?&?). unfold same_sel. split_and!; congruence. Qed.

(** Fields the invariant does not mention may change. *)
Ltac core_frame H := destruct H; split; assumption.

(** Steps over the structure of the code. *)
Ltac wp_step :=
  match goal with
  | |- wp (mbind _ _) _ _ _ => apply wp_bind
  | |- wp (gets _) _ _ _ => apply wp_gets
  | |- wp (modify _) _ _ _ => apply wp_modify
  | |- wp (mret _) _ _ _ => apply wp_ret
  | |- wp (get_task _) _ _ _ => eapply wp_get_task; [first [eassumption|by (cbn [tasks rq_set_tasks rq_set_arrays]; rewrite lookup_insert_eq)]|]
  | |- wp (upd_task _ _) _ _ _ => eapply wp_upd_task; [first [eassumption|by (cbn [tasks rq_set_tasks rq_set_arrays]; rewrite lookup_insert_eq)]|]
  end; cbv beta.

(** Two updates of the same task are one. *)
Lemma wp_upd_fuse {A} p f g (k : SM runqueue A) Φ Ψ (r : runqueue) :
  wp (_ ← upd_task p (λ t, g (f t)); k) Φ Ψ r →
  wp (_ ← upd_task p f; _ ← upd_task p g; k) Φ Ψ r.
Proof.
  unfold wp, mbind, SM_bind, upd_task. destruct (tasks r !! p) as [t|]; [|done].
  cbn [tasks rq_set_tasks]. rewrite lookup_insert_eq. unfold rq_set_tasks. cbn.
  by rewrite insert_insert_eq.
Qed.

Lemma wp_upd_fuse2 p f g Φ Ψ (r : runqueue) :
  wp (upd_task p (λ t, g (f t))) Φ Ψ r →
  wp (_ ← upd_task p f; upd_task p g) Φ Ψ r.
Proof.
  unfold wp, mbind, SM_bind, upd_task. destruct (tasks r !! p) as [t|]; [|done].
  cbn [tasks rq_set_tasks]. rewrite lookup_insert_eq. unfold rq_set_tasks. cbn.
  by rewrite insert_insert_eq.
Qed.

(** ** Activation *)

Lemma wp_activate_raw p t (r : runqueue) Ψ :
  core None 0 r → tasks r !! p = Some t → array t = None → p ≠ idle r →
  wp (__activate_task p) (λ _ r', core None 0 r' ∧ same_sel r r' ∧
    tasks r' = <[p := set_array (Some (active r)) t]> (tasks r) ∧
    nr_running r' = nr_running r + 1) Ψ r.
Proof.
  intros H Ht Ha Hid. destruct (core_unqueued _ _ _ _ _ H Ht Ha) as [_ H1]; [by left|].
  unfold __activate_task. wp_step. wp_step. wp_step.
  eapply wp_mono; [by eapply wp_enqueue; [done|done|done|apply (core_active _ _ _ H)]|].
  cbv beta. intros _ r' [Hc [l ->]]. wp_step. split_and!; [|done..].
  eapply core_count; [exact Hc|]. cbn. lia.
Qed.

Definition recharged_task (clock : Z) (irq : bool) (t : task_struct) : task_struct :=
  let t1 := recalc_task_prio t clock in
  let t2 := if activated t1 =? 0 then set_activated (if irq then 2 else 1) t1 else t1 in
  set_timestamp clock t2.
Definition activated_task (clock : Z) (irq : bool) (a : nat) (t : task_struct) : task_struct :=
  set_array (Some a) (recharged_task clock irq t).

Lemma recharged_task_ok clock irq t : task_ok t → task_ok (recharged_task clock irq t).
Proof.
  intros H. pose proof (task_ok_recalc _ clock H) as [????]. unfold recharged_task. cbv zeta.
  case_zb; by split.
Qed.

Lemma recharged_frame clock irq t :
  array (recharged_task clock irq t) = array t ∧ state (recharged_task clock irq t) = state t ∧
  time_slice (recharged_task clock irq t) = time_slice t.
Proof.
  destruct (recalc_frame t clock) as (_ & El & _ & Ea & Es & _). unfold recharged_task. cbv zeta.
  case_zb; cbn [array state time_slice set_timestamp set_activated]; split_and!; congruence.
Qed.

Lemma wp_activate p t clock irq (r : runqueue) Ψ :
  core None 0 r → tasks r !! p = Some t → array t = None → p ≠ idle r →
  wp (activate_task p clock irq) (λ _ r', core None 0 r' ∧ same_sel r r' ∧
    tasks r' = <[p := activated_task clock irq (active r) t]> (tasks r) ∧
    nr_running r' = nr_running r + 1) Ψ r.
Proof.
  intros H Ht Ha Hid. unfold activate_task. apply wp_upd_fuse, wp_upd_fuse. wp_step. wp_step.
  set (t' := set_timestamp _ _). change t' with (recharged_task clock irq t). clear t'.
  pose proof (recharged_task_ok clock irq t (co_task _ _ _ H _ _ Ht Hid)) as Hok.
  destruct (recharged_frame clock irq t) as (Ha' & _). rewrite Ha in Ha'.
  set (t' := recharged_task clock irq t) in *.
  destruct (core_unqueued _ _ _ _ _ H Ht Ha) as [_ H1]; [by left|].
  assert (H2 : core None 0 (rq_set_tasks (<[p := t']> (tasks r)) r)).
  { eapply core_unqueued; [eapply core_upd; [exact H1|done|done|done|by left]| |exact Ha'|by right].
    cbn. by rewrite lookup_insert_eq. }
  eapply wp_mono; [eapply wp_activate_raw; [exact H2|cbn; by rewrite lookup_insert_eq|done|done]|].
  cbv beta. intros _ r' (Hc & Hs & E & En). split_and!; [done|done| |done]. rewrite E. cbn.
  by rewrite insert_insert_eq.
Qed.

Lemma wp_deactivate p t a (r : runqueue) Ψ :
  core None 0 r → tasks r !! p = Some t → array t = Some a →
  wp (deactivate_task p) (λ _ r', core None 0 r' ∧ same_sel r r' ∧
    tasks r' = <[p := set_array None t]> (tasks r) ∧ nr_running r' = nr_running r - 1) Ψ r.
Proof.
  intros H Ht Ha. destruct (core_queue _ _ _ _ _ _ H Ht Ha) as (_ & _ & _ & _ & _ & _ & _ & Hok & Hid);
    [done|].
  unfold deactivate_task. wp_step. wp_step. wp_step. wp_step. rewrite Ha. wp_step.
  eapply wp_mono; [eapply wp_dequeue; [eapply (core_count _ _ 1); [exact H|lia]|done|done]|].
  cbv beta. intros _ r' [Hc [l ->]]. wp_step. split_and!; try done.
  eapply core_unqueued; [eapply core_upd; [exact Hc|done| |done|by left]| | |by right].
  - intros _. destruct Hok; by split.
  - cbn. by rewrite lookup_insert_eq.
  - done.
Qed.

(** Changing fields the queues do not depend on. *)
Lemma core_field d r p t t' : core None d r → tasks r !! p = Some t →
  array t' = array t → prio t' = prio t →
  (p ≠ idle r → task_ok t → task_ok t') →
  (state t' = state t ∧ pf_dead t' = pf_dead t ∨ p ≠ idle r) →
  core None d (rq_set_tasks (<[p := t']> (tasks r)) r).
Proof.
  intros H Ht Ha Hp Hok Hs. eapply core_upd; [done|done| | |by right].
  - intros Hid. apply Hok; [done|]. by eapply H.
  - intros ->. destruct (co_idle _ _ _ H) as (u & Hu & ? & ? & ?). simplify_eq.
    destruct Hs as [[? ?]|]; [|done]. split_and!; congruence.
Qed.

Lemma slices_upd (r r' : runqueue) p t : slices_ok r → (p ≠ idle r → 1 <= time_slice t) →
  tasks r' = <[p := t]> (tasks r) → idle r' = idle r → slices_ok r'.
Proof.
  intros H Ht E Ei q u. rewrite E, Ei. intros [[<- <-]|[_ ?]]%lookup_insert_Some ?; [auto|].
  by eapply H.
Qed.

Lemma rq_ok_field r p t t' : rq_ok r → tasks r !! p = Some t →
  array t' = array t → prio t' = prio t →
  (p ≠ idle r → task_ok t → task_ok t') →
  (state t' = state t ∧ pf_dead t' = pf_dead t ∨ p ≠ idle r) →
  (p ≠ idle r → 1 <= time_slice t → 1 <= time_slice t') →
  rq_ok (rq_set_tasks (<[p := t']> (tasks r)) r).
Proof.
  intros (H & Hc & Hsl) Ht Ha Hp Hok Hs Hts. split_and!; [by eapply core_field| |].
  2: { eapply (slices_upd r); [done| |done|done]. intros Hid. apply Hts; [done|]. by eapply Hsl. }
  destruct Hc as [?|(u & Hu & Hua)]; [by left|right]. cbn.
  destruct (decide (p = curr r)) as [->|Hne].
  - rewrite lookup_insert_eq. eexists; split; [done|]. congruence.
  - rewrite lookup_insert_ne by done. eauto.
Qed.

(** ** Wake-up *)

Lemma curr_task r : rq_ok r → ∃ c, tasks r !! curr r = Some c.
Proof.
  intros (H & [->|(c & ? & _)] & _); [|eauto]. destruct (co_idle _ _ _ H) as (c & ? & _). eauto.
Qed.

(** Requesting a reschedule of the current task if [p] has a better priority. *)
Definition preempt_check (p : Z) : SM runqueue unit :=
  b ← preempts_curr p; when b (r ← gets id; resched_task (curr r)).

Lemma task_ok_resched b t : task_ok t → task_ok (set_need_resched b t).
Proof. intros []. by split. Qed.

Lemma wp_resched p t (r : runqueue) Ψ : rq_ok r → tasks r !! p = Some t →
  wp (resched_task p) (λ _ r', rq_ok r' ∧ r' = rq_set_tasks (<[p := set_need_resched true t]> (tasks r)) r)
    Ψ r.
Proof.
  intros H Ht. unfold resched_task. wp_step. split; [|done].
  eapply rq_ok_field; [done|done|done|done|intros _; apply task_ok_resched|by left|done].
Qed.

Lemma wp_preempt_check p t c (r : runqueue) Ψ : rq_ok r → tasks r !! p = Some t →
  tasks r !! curr r = Some c →
  wp (preempt_check p) (λ _ r', rq_ok r' ∧ same_sel r r' ∧ nr_running r' = nr_running r ∧
    tasks r' = if prio t <? prio c then <[curr r := set_need_resched true c]> (tasks r)
               else tasks r) Ψ r.
Proof.
  intros H Ht Hc. unfold preempt_check, preempts_curr. do 8 wp_step.
  apply wp_when; intros E; rewrite E; [|done]. do 2 wp_step. cbn [id].
  eapply wp_mono; [by eapply wp_resched|]. cbv beta. by intros _ r' [? ->].
Qed.

Lemma rq_ok_set_state r p t s : rq_ok r → tasks r !! p = Some t → p ≠ idle r →
  rq_ok (rq_set_tasks (<[p := set_state s t]> (tasks r)) r).
Proof.
  intros H Ht Hp. eapply rq_ok_field; [done|done|done|done| |by right|done].
  intros _ []. by split.
Qed.

(** What a wake-up of [t] does to the descriptor before it is queued. *)
Definition woken (t : task_struct) : task_struct :=
  if state t =? TASK_UNINTERRUPTIBLE then set_activated (-1) t else t.

Lemma wp_wake_sleeper p t sync clock irq (r : runqueue) Ψ :
  rq_ok r → tasks r !! p = Some t → array t = None → p ≠ idle r →
  wp (_ ← when (state t =? TASK_UNINTERRUPTIBLE)
            (_ ← modify (λ r, rq_set_nr_uninterruptible (nr_uninterruptible r - 1) r);
             upd_task p (set_activated (-1)));
      _ ← activate_task p clock irq;
      _ ← when (negb sync) (preempt_check p);
      _ ← upd_task p (set_state TASK_RUNNING);
      mret 1)
    (λ res r', rq_ok r' ∧ res = 1 ∧ nr_running r' = nr_running r + 1 ∧
       let t' := set_state TASK_RUNNING (activated_task clock irq (active r) (woken t)) in
       tasks r' !! p = Some t' ∧ (∀ u, u ≠ p → u ≠ curr r → tasks r' !! u = tasks r !! u) ∧
       ∃ c, tasks r !! curr r = Some c ∧
         tasks r' !! curr r = Some (if negb sync && (prio t' <? prio c)
                                    then set_need_resched true c else c)) Ψ r.
Proof.
  intros Hr Ht Ha Hid.
  assert (Hpc : p ≠ curr r).
  { intros ->. destruct Hr as (_ & [?|(u & ? & ?)] & _); [done|congruence]. }
  wp_step. apply (wp_mono _ _ (λ _ r1, rq_ok r1 ∧ same_sel r r1 ∧ nr_running r1 = nr_running r ∧
    tasks r1 = <[p := woken t]> (tasks r))).
  { unfold woken. apply wp_when; intros E; rewrite E; [|by rewrite insert_id].
    do 3 wp_step. split_and!; [|done..].
    eapply (rq_ok_field (rq_set_nr_uninterruptible _ r)); [|done|done|done| |by left|done].
    - destruct Hr as (Hc & Hcu & Hsl). split_and!; [core_frame Hc|done|done].
    - intros _ []. by split. }
  intros _ r1 ((Hc1 & Hcu1 & Hsl1) & (Ei & Ec & Eact & _) & En & E1).
  assert (Ht1 : tasks r1 !! p = Some (woken t)) by (by rewrite E1, lookup_insert_eq).
  wp_step. eapply wp_mono.
  { eapply wp_activate; [exact Hc1|exact Ht1| |congruence]. unfold woken. by case_zb. }
  cbv beta. intros _ r2 (Hc2 & (Ei2 & Ec2 & Ea2 & _) & E2 & En2).
  destruct (curr_task _ Hr) as [c Hc]. rewrite E1, insert_insert_eq, Eact in E2.
  set (ta := activated_task _ _ _ _) in *.
  assert (Hr2 : rq_ok r2).
  { split_and!; [done| |].
    2: { eapply (slices_upd r1); [done| |by rewrite E1, insert_insert_eq|done]. intros.
         destruct (recharged_frame clock irq (woken t)) as (_ & _ & El).
         cbn [ta activated_task set_array time_slice]. rewrite El. eapply Hsl1; done. }
    destruct Hcu1 as [?|(u & Hu & ?)]; [left; congruence|right].
    exists u. split; [|done]. rewrite Ec2, E2, Ec. rewrite E1, Ec in Hu.
    rewrite lookup_insert_ne in Hu |- *; done. }
  assert (Ht2 : tasks r2 !! p = Some ta) by (by rewrite E2, lookup_insert_eq).
  assert (Hcc : tasks r2 !! curr r2 = Some c) by (rewrite Ec2, Ec, E2, lookup_insert_ne; done).
  wp_step. apply (wp_mono _ _ (λ _ r3, rq_ok r3 ∧ same_sel r2 r3 ∧ nr_running r3 = nr_running r2 ∧
    tasks r3 = if negb sync && (prio ta <? prio c)
               then <[curr r2 := set_need_resched true c]> (tasks r2) else tasks r2)).
  { destruct sync; [done|]. by eapply wp_preempt_check. }
  intros _ r3 (Hr3 & (Ei3 & Ec3 & _) & En3 & E3).
  assert (Ht3 : tasks r3 !! p = Some ta).
  { rewrite E3. destruct (negb sync && _); [|done]. rewrite lookup_insert_ne; [done|congruence]. }
  do 3 wp_step. split_and!; [eapply rq_ok_set_state; [done|done|congruence]|done|cbn; congruence|].
  cbv zeta. split_and!.
  - cbn. by rewrite lookup_insert_eq.
  - intros u Hup Huc. cbn. rewrite lookup_insert_ne by done. rewrite E3, E2.
    destruct (negb sync && _); rewrite ?Ec2, ?Ec, !lookup_insert_ne; done.
  - exists c. split; [done|]. cbn. rewrite lookup_insert_ne by done. rewrite E3.
    destruct (negb sync && _); [|congruence]. by rewrite Ec2, Ec, lookup_insert_eq.
Qed.

Lemma wp_try_to_wake_up p t ws sync clock irq (r : runqueue) Ψ :
  rq_ok r → tasks r !! p = Some t →
  wp (try_to_wake_up p ws sync clock irq)
    (λ res r', rq_ok r' ∧
       if Z.land (state t) ws =? 0 then res = 0 ∧ r' = r else
       match array t with
       | Some a => res = 0 ∧ r' = rq_set_tasks (<[p := set_state TASK_RUNNING t]> (tasks r)) r
       | None => res = 1 ∧ nr_running r' = nr_running r + 1 ∧
           let t' := set_state TASK_RUNNING (activated_task clock irq (active r) (woken t)) in
           tasks r' !! p = Some t' ∧ (∀ u, u ≠ p → u ≠ curr r → tasks r' !! u = tasks r !! u) ∧
           ∃ c, tasks r !! curr r = Some c ∧
             tasks r' !! curr r = Some (if negb sync && (prio t' <? prio c)
                                        then set_need_resched true c else c)
       end) Ψ r.
Proof.
  intros Hr Ht. unfold try_to_wake_up. do 2 wp_step. cbv zeta.
  destruct (Z.eqb_spec (Z.land (state t) ws) 0) as [E|E]; [wp_step; done|].
  assert (p ≠ idle r).
  { intros ->. destruct Hr as (H & _). destruct (co_idle _ _ _ H) as (u & Hu & _ & Hs & _).
    simplify_eq. rewrite Hs in E. done. }
  destruct (array t) as [a|] eqn:Ea; [|by apply wp_wake_sleeper].
  do 3 wp_step. split; [|done]. by eapply rq_ok_set_state.
Qed.

(** ** The timer tick *)

Lemma timeslice_range t : task_ok t → 5 <= task_timeslice t <= 800.
Proof.
  intros H. pose proof (tk_static _ H). rewrite timeslice_values by done.
  change MAX_RT_PRIO with 100 in *. change MAX_PRIO with 140 in *. case_zb; lia.
Qed.

Lemma task_ok_effective t : task_ok t → task_ok (set_prio (effective_prio t) t).
Proof.
  intros H. destruct (rt_task t) eqn:E.
  - unfold effective_prio. rewrite E. destruct H; by split.
  - pose proof (effective_prio_normal t E) as Hn. pose proof (tk_rt _ H) as Hr. destruct H.
    split; [cbn; change MAX_RT_PRIO with 100 in *; lia|done|done|done| |done].
    cbn [policy set_prio]. rewrite <- Hr, E. split; [|done].
    unfold rt_task. cbn [prio set_prio]. intros ?%Z.ltb_lt. lia.
Qed.

(** A task whose time slice is used up: the descriptor [tick_expire] queues again. *)
Definition refilled (t : task_struct) : task_struct :=
  let t1 := set_prio (effective_prio t) (set_need_resched true t) in
  set_first_time_slice 0 (set_time_slice (task_timeslice t1) t1).

Lemma refilled_ok t : task_ok t → task_ok (refilled t) ∧ 1 <= time_slice (refilled t).
Proof.
  intros H. pose proof (task_ok_effective _ (task_ok_resched true _ H)) as H1.
  unfold refilled. set (t1 := set_prio _ _) in *. pose proof (timeslice_range _ H1).
  cbv zeta. split; [|cbn; lia]. destruct H1. split; try done. cbn. lia.
Qed.

(** Whether it goes to the expired array. *)
Definition expires (r : runqueue) (t : task_struct) (jiffies : Z) : bool :=
  let r' := if expired_timestamp r =? 0 then rq_set_expired_timestamp jiffies r else r in
  negb (TASK_INTERACTIVE (refilled t)) || EXPIRED_STARVING r' (refilled t) jiffies.

Lemma wp_tick_expire jiffies t (r : runqueue) Ψ :
  core None 0 r → tasks r !! curr r = Some t → array t = Some (active r) →
  wp (tick_expire (curr r) jiffies) (λ _ r', core None 0 r' ∧ same_sel r r' ∧
    tasks r' = <[curr r := set_array (Some (if expires r t jiffies then expired r else active r))
                             (refilled t)]> (tasks r)) Ψ r.
Proof.
  intros H Ht Ha.
  destruct (core_queue _ _ _ _ _ _ H Ht Ha) as (_ & _ & _ & _ & _ & _ & _ & Hok & Hid); [done|].
  unfold tick_expire. do 3 wp_step. eapply wp_mono; [by eapply wp_dequeue|]. cbv beta.
  intros _ r1 [Hc1 [l ->]]. do 3 apply wp_upd_fuse. do 2 wp_step.
  change (set_first_time_slice 0 _) with (refilled t).
  assert (H2 : core (Some (curr r)) (0 - 1) (rq_set_tasks (<[curr r := refilled t]> (tasks r))
    (rq_set_arrays l r))).
  { eapply (core_upd _ _ (rq_set_arrays l r)); [done|done| |done|by left].
    intros _. by apply refilled_ok. }
  do 2 wp_step. set (r3 := if expired_timestamp _ =? 0 then _ else _).
  assert (core (Some (curr r)) (0 - 1) r3 ∧ same_sel r r3 ∧
    tasks r3 = <[curr r := refilled t]> (tasks r) ∧
    negb (TASK_INTERACTIVE (refilled t)) || EXPIRED_STARVING r3 (refilled t) jiffies =
    expires r t jiffies) as (Hc3 & (Ei & Ec & Eac & Eex) & E3 & Ex).
  { subst r3. unfold expires. cbn [expired_timestamp rq_set_tasks rq_set_arrays].
    case_zb; [|done]. split_and!; [core_frame H2|done|done|done]. }
  clearbody r3. assert (Ht3 : tasks r3 !! curr r = Some (refilled t))
    by (by rewrite E3, lookup_insert_eq).
  assert (Hcc : tasks r3 !! curr r3 = Some (refilled t)) by (by rewrite Ec).
  do 6 wp_step. cbn [id].
  assert (Hq : ∀ a, (a < 2)%nat → wp (enqueue_task (curr r) a) (λ _ r', core None 0 r' ∧
    same_sel r r' ∧ tasks r' = <[curr r := set_array (Some a) (refilled t)]> (tasks r)) Ψ r3).
  { intros a Hlt. eapply wp_mono; [eapply wp_enqueue; [exact Hc3|done|congruence|done]|].
    cbv beta. intros _ r' [Hc [l' ->]]. split_and!; [done|done|]. cbn. by rewrite E3, insert_insert_eq. }
  destruct (core_active _ _ _ Hc3). rewrite Ex. destruct (expires r t jiffies).
  - wp_step. eapply wp_mono; [by apply Hq|]. cbv beta. intros _ r' (Hc & Hs & E). wp_step.
    match goal with |- core _ _ ?x ∧ _ => set (r4 := x) end.
    assert (core None 0 r4 ∧ same_sel r' r4 ∧ tasks r4 = tasks r') as (? & ? & Et).
    { subst r4. case_zb; [|done]. split_and!; [core_frame Hc|done|done]. }
    split_and!; [done|by etrans|]. by rewrite Et, E, Eex.
  - eapply wp_mono; [by apply Hq|]. cbv beta. intros _ r' (Hc & Hs & E).
    split_and!; [done|done|]. by rewrite E, Eac.
Qed.

(** The new descriptor of the current task in closed form; what it amounts to field by field
    is [task_ticked] of Module [SchedTick] below. *)
Definition ticked (r : runqueue) (jiffies : Z) (t : task_struct) : task_struct :=
  let less := set_time_slice (time_slice t - 1) t in
  if decide (array t ≠ Some (active r)) then set_need_resched true t
  else if rt_task t then
    if negb (policy t =? SCHED_RR) then t
    else if time_slice t =? 1
    then set_need_resched true (set_first_time_slice 0 (set_time_slice (task_timeslice t) t))
    else less
  else if time_slice t =? 1
  then set_array (Some (if expires r less jiffies then expired r else active r)) (refilled less)
  else if TASK_INTERACTIVE t &&
          (wrap32 (task_timeslice t - (time_slice t - 1)) mod TIMESLICE_GRANULARITY t =? 0) &&
          (TIMESLICE_GRANULARITY t <=? time_slice t - 1)
  then set_need_resched true less
  else less.

Lemma task_ok_slice s t : 0 <= s <= 800 → task_ok t → task_ok (set_time_slice s t).
Proof. intros ? []. by split. Qed.

Lemma slice_dec t : task_ok t → 1 <= time_slice t → wrap32 (time_slice t - 1) = time_slice t - 1.
Proof. intros H ?. pose proof (tk_slice _ H). apply wrap32_id. unfold is_u32. lia. Qed.

(** From the parts to [rq_ok] for an update of the current task that stays queued. *)
Lemma rq_ok_curr (r r' : runqueue) t : rq_ok r → core None 0 r' → same_sel r r' →
  tasks r' = <[curr r := t]> (tasks r) → array t ≠ None → 1 <= time_slice t → rq_ok r'.
Proof.
  intros (_ & _ & Hs) Hc (Ei & Ec & _) Et Ha Hts. split_and!; [done| |].
  - right. exists t. by rewrite Ec, Et, lookup_insert_eq.
  - by eapply (slices_upd r).
Qed.

Lemma upd_upd p (a b : task_struct) m (r : runqueue) :
  rq_set_tasks (<[p := b]> (tasks (rq_set_tasks (<[p := a]> m) r))) (rq_set_tasks (<[p := a]> m) r) =
  rq_set_tasks (<[p := b]> m) r.
Proof. unfold rq_set_tasks. cbn. by rewrite insert_insert_eq. Qed.

(** The current task moves to the end of its queue after an update of other fields. *)
Lemma wp_requeue_curr t t' (r : runqueue) Ψ :
  rq_ok r → tasks r !! curr r = Some t → curr r ≠ idle r → array t = Some (active r) →
  array t' = array t → prio t' = prio t → task_ok t' → 1 <= time_slice t' →
  wp (requeue_task (curr r) (active r)) (λ _ r', rq_ok r' ∧ same_sel r r' ∧
    tasks r' = <[curr r := t']> (tasks r)) Ψ (rq_set_tasks (<[curr r := t']> (tasks r)) r).
Proof.
  intros Hr Ht Hid Ha Ea Ep Ho Hs. eapply wp_mono.
  - eapply wp_requeue; [|cbn; by rewrite lookup_insert_eq|congruence].
    eapply core_field; [apply Hr|done|done|done|done|by right].
  - cbv beta. intros _ r' [Hc [l ->]]. split_and!; [|done|done].
    eapply (rq_ok_curr r); [done|done|done|done|congruence|done].
Qed.

Lemma rq_ok_set_slice r p t s : rq_ok r → tasks r !! p = Some t → 1 <= s <= 800 →
  rq_ok (rq_set_tasks (<[p := set_time_slice s t]> (tasks r)) r).
Proof.
  intros Hr Ht Hs. eapply rq_ok_field; [done|done|done|done| |by left|cbn; lia].
  intros _. apply task_ok_slice. lia.
Qed.

Lemma expires_set_tasks m r t jiffies : expires (rq_set_tasks m r) t jiffies = expires r t jiffies.
Proof. unfold expires. cbn. by destruct (expired_timestamp r =? 0). Qed.

Lemma wp_tick_expired jiffies t (r : runqueue) Ψ :
  let less := set_time_slice (time_slice t - 1) t in
  rq_ok r → tasks r !! curr r = Some t → curr r ≠ idle r → array t = Some (active r) →
  time_slice t = 1 →
  wp (tick_expire (curr r) jiffies) (λ _ r', rq_ok r' ∧ same_sel r r' ∧
    tasks r' = <[curr r := set_array (Some (if expires r less jiffies then expired r else active r))
                             (refilled less)]> (tasks r))
    Ψ (rq_set_tasks (<[curr r := less]> (tasks r)) r).
Proof.
  intros less Hr Ht Hid Ha E. pose proof (co_task _ _ _ (proj1 Hr) _ _ Ht Hid) as Hok.
  assert (task_ok less) as Hl by (apply task_ok_slice; [lia|done]). eapply wp_mono.
  - eapply (wp_tick_expire jiffies less (rq_set_tasks (<[curr r := less]> (tasks r)) r)).
    + eapply core_field; [apply Hr|done|done|done|done|by left].
    + cbn. by rewrite lookup_insert_eq.
    + done.
  - cbv beta. intros _ r' (Hc & Hs & Et). rewrite expires_set_tasks in Et.
    cbn [tasks rq_set_tasks] in Et. rewrite insert_insert_eq in Et.
    split_and!; [|done|exact Et]. eapply (rq_ok_curr r); [done|done|done|exact Et|done|].
    by apply (refilled_ok less).
Qed.

Lemma ticked_last_tick r clock jiffies t :
  ticked (rq_set_timestamp_last_tick clock r) jiffies t = ticked r jiffies t.
Proof. unfold ticked, expires. cbn. by destruct (expired_timestamp r =? 0). Qed.

Lemma wp_tick clock jiffies t (r : runqueue) Ψ :
  rq_ok r → tasks r !! curr r = Some t →
  wp (scheduler_tick clock jiffies) (λ _ r', rq_ok r' ∧ same_sel r r' ∧
    tasks r' = if curr r =? idle r then tasks r
               else <[curr r := ticked r jiffies t]> (tasks r)) Ψ r.
Proof.
  intros Hr' Ht. unfold scheduler_tick. do 4 wp_step. cbn [id curr rq_set_timestamp_last_tick idle].
  set (r1 := rq_set_timestamp_last_tick clock r).
  assert (Hr : rq_ok r1).
  { destruct Hr' as (Hc & ? & ?). split_and!; [core_frame Hc|done|done]. }
  change (tasks r) with (tasks r1) in *. change (curr r) with (curr r1) in *.
  change (idle r) with (idle r1). rewrite <- (ticked_last_tick r clock). fold r1.
  change (same_sel r) with (same_sel r1). clearbody r1. clear Hr' r.
  destruct (Z.eqb_spec (curr r1) (idle r1)) as [|Hid]; [by wp_step|].
  do 2 wp_step. unfold ticked. pose proof (co_task _ _ _ (proj1 Hr) _ _ Ht Hid) as Hok.
  pose proof (proj2 (proj2 Hr) _ _ Ht Hid) as Hts. pose proof (tk_slice _ Hok) as Htl.
  pose proof (timeslice_range _ Hok).
  destruct (decide (array t ≠ Some (active r1))) as [Ha|Ha].
  { wp_step. split_and!; [|done|done].
    eapply rq_ok_field; [done|done|done|done|intros _; apply task_ok_resched|by left|done]. }
  apply dec_stable in Ha. destruct (rt_task t) eqn:Ert.
  - destruct (Z.eqb_spec (policy t) SCHED_RR); cbn [negb]; [|wp_step; by rewrite insert_id].
    do 2 wp_step. rewrite slice_dec by done. do 2 wp_step. cbn [time_slice set_time_slice].
    destruct (Z.eqb_spec (time_slice t - 1) 0) as [E|E], (Z.eqb_spec (time_slice t) 1); try lia.
    + do 2 apply wp_upd_fuse. do 2 wp_step. rewrite upd_upd.
      eapply wp_requeue_curr; try done; [|cbn; change (1 <= task_timeslice t); lia].
      assert (task_ok (set_time_slice (task_timeslice t) t)) as [] by (apply task_ok_slice; [lia|done]).
      by split.
    + wp_step. split_and!; [|done|done]. apply rq_ok_set_slice; [done|done|lia].
  - do 2 wp_step. rewrite slice_dec by done. do 2 wp_step. cbn [time_slice set_time_slice array].
    destruct (Z.eqb_spec (time_slice t - 1) 0) as [E|E], (Z.eqb_spec (time_slice t) 1); try lia.
    + by apply wp_tick_expired.
    + rewrite bool_decide_true, andb_true_r by done.
      change (task_timeslice (set_time_slice _ t)) with (task_timeslice t).
      change (TASK_INTERACTIVE (set_time_slice _ t)) with (TASK_INTERACTIVE t).
      change (TIMESLICE_GRANULARITY (set_time_slice _ t)) with (TIMESLICE_GRANULARITY t).
      destruct (TASK_INTERACTIVE t && _ && _).
      * wp_step. eapply wp_mono; [eapply wp_requeue_curr; try done; [by apply task_ok_slice; [lia|]|cbn; lia]|].
        cbv beta. intros _ r' (Hr2 & (Ei & Ec & ? & ?) & E2).
        eapply wp_upd_task; [by rewrite E2, lookup_insert_eq|]. cbn [tasks rq_set_tasks].
        rewrite E2, insert_insert_eq. split_and!; [|done|done].
        rewrite <- (insert_insert_eq (tasks r1) _ _ (set_time_slice (time_slice t - 1) t)), <- E2.
        eapply rq_ok_field; [done|by rewrite E2, lookup_insert_eq|done|done| |by left|done].
        intros _. apply task_ok_resched.
      * wp_step. split_and!; [|done|done]. apply rq_ok_set_slice; [done|done|lia].
Qed.

(** ** schedule() *)

(** The outgoing task after [schedule_out]: off the queues unless it stays runnable. *)
Definition outgoing (preempt : bool) (t : task_struct) : task_struct :=
  let t1 := if pf_dead t then set_state EXIT_DEAD t else t in
  if negb (state t1 =? 0) && negb preempt then
    if negb (Z.land (state t1) TASK_INTERRUPTIBLE =? 0) && sigpending t1
    then set_state TASK_RUNNING t1
    else set_array None t1
  else t1.

Lemma wp_schedule_out preempt t (r : runqueue) Ψ : rq_ok r → tasks r !! curr r = Some t →
  wp (schedule_out (curr r) preempt) (λ _ r', core None 0 r' ∧ slices_ok r' ∧ same_sel r r' ∧
    tasks r' = <[curr r := outgoing preempt t]> (tasks r) ∧
    (curr r = idle r → tasks r' = tasks r)) Ψ r.
Proof.
  intros Hr Ht. unfold schedule_out, outgoing. do 2 wp_step.
  set (t1 := if pf_dead t then _ else _).
  assert (rq_ok (rq_set_tasks (<[curr r := t1]> (tasks r)) r) ∧
    (curr r = idle r → t1 = t ∧ state t = 0)) as [Hr1 Hi].
  { split; [|intros E; destruct (co_idle _ _ _ (proj1 Hr)) as (u & Hu & _ & Hs & Hd);
             rewrite <- E in Hu; simplify_eq; subst t1; by rewrite Hd].
    subst t1. destruct (pf_dead t) eqn:Hd; [|by rewrite insert_id; destruct r].
    apply rq_ok_set_state; [done|done|]. intros E.
    destruct (co_idle _ _ _ (proj1 Hr)) as (u & Hu & _ & _ & Hd'). congruence. }
  set (r1 := rq_set_tasks (<[curr r := t1]> (tasks r)) r) in *.
  assert (Ht1 : tasks r1 !! curr r1 = Some t1) by (cbn; by rewrite lookup_insert_eq).
  do 2 wp_step. apply wp_when; intros E.
  2: { rewrite E. split_and!; try done; [apply Hr1|apply Hr1|].
       intros [-> _]%Hi. cbn. by rewrite insert_id. }
  rewrite E. apply andb_true_iff in E as [E _].
  assert (Hid : curr r ≠ idle r).
  { intros [Et Es]%Hi. rewrite Et, Es in E. done. }
  destruct (negb (Z.land _ _ =? 0) && sigpending t1).
  - wp_step. subst r1. rewrite upd_upd. split_and!; try done.
    + rewrite <- (upd_upd _ t1). by eapply rq_ok_set_state.
    + rewrite <- (upd_upd _ t1). by eapply rq_ok_set_state.
  - wp_step. apply (wp_mono _ _ (λ _ r2, rq_ok r2 ∧ same_sel r1 r2 ∧ tasks r2 = tasks r1)).
    { apply wp_when; [|done]. intros _. wp_step. split_and!; [|done|done].
      destruct Hr1 as (Hc & ? & ?). split_and!; [core_frame Hc|done|done]. }
    intros _ r2 ((Hc2 & Hcu2 & Hsl2) & Hs2 & E2).
    assert (∃ a, array t1 = Some a) as [a Ha].
    { destruct Hr1 as (_ & [?|(u & Hu & Hn)] & _); [done|]. destruct (array t1) eqn:Ea; [eauto|].
      by simplify_eq. }
    eapply wp_mono; [eapply wp_deactivate; [exact Hc2|rewrite E2; exact Ht1|exact Ha]|].
    cbv beta. intros _ r3 (Hc3 & Hs3 & E3 & _).
    assert (tasks r3 = <[curr r := set_array None t1]> (tasks r)) as E4.
    { rewrite E3, E2. cbn. by rewrite insert_insert_eq. }
    split_and!; try done; [|by etrans; [|done]].
    eapply (slices_upd r2); [done| |exact E3|apply Hs3].
    intros _. cbn. apply (Hsl2 (curr r)); [by rewrite E2|]. destruct Hs2 as (-> & _). done.
Qed.

Lemma concat_empty (l : list (list Z)) : concat l = [] ↔ ∀ i q, l !! i = Some q → q = [].
Proof.
  split.
  - intros H i q Hi. apply list_elem_of_lookup_2, list_elem_of_In in Hi.
    destruct q as [|z q]; [done|]. exfalso.
    assert (In z (concat l)) as Hz by (apply in_concat; eexists; split; [done|by left]).
    by rewrite H in Hz.
  - intros H. destruct (concat l) as [|z k] eqn:E; [done|]. exfalso.
    assert (In z (concat l)) as Hz by (rewrite E; by left).
    apply in_concat in Hz as (q & Hq & Hz). apply list_elem_of_In, list_elem_of_lookup in Hq as [i Hi].
    by rewrite (H _ _ Hi) in Hz.
Qed.

Lemma arr_empty x : arr_ok x → nr_active x = 0 ↔ ∀ i q, queue x !! i = Some q → q = [].
Proof.
  intros H. rewrite (ar_cnt _ H), <- concat_empty. split; [|by intros ->].
  intros ?. apply nil_length_inv. lia.
Qed.

(** [p] is the first task of the best non-empty priority of array [x]. *)
Definition is_first (x : prio_array) (p : Z) : Prop :=
  ∃ i q, queue x !! i = Some (p :: q) ∧ ∀ j q', (j < i)%nat → queue x !! j = Some q' → q' = [].

Lemma wp_first_task X d (r : runqueue) x Ψ : core X d r → arrays r !! active r = Some x →
  nr_active x ≠ 0 → wp first_task (λ p r', r' = r ∧ is_first x p) Ψ r.
Proof.
  intros H Hx Hn. pose proof (Forall_lookup_1 _ _ _ _ (co_arr _ _ _ H) Hx) as Ha.
  unfold first_task. do 3 wp_step. eapply wp_get_array; [done|]. cbv beta.
  destruct (find_first_bit_spec (bitmap x)) as (Hr & Hb & Hlow); [apply Ha|apply Ha|].
  set (n := sched_find_first_bit (bitmap x)) in *.
  assert (Hbit : ∀ i q, queue x !! i = Some q → q ≠ [] → n <= Z.of_nat i).
  { intros i q Hi Hq. destruct (Z.le_gt_cases n (Z.of_nat i)); [done|].
    pose proof (ar_bit _ Ha _ _ Hi) as E. rewrite bool_decide_true in E by done.
    rewrite Hlow in E by lia. done. }
  assert (Hlt : n < MAX_PRIO).
  { destruct (Z.lt_ge_cases n MAX_PRIO); [done|]. exfalso. apply Hn, arr_empty; [done|].
    intros i q Hi. destruct (decide (q = [])) as [|Hq]; [done|].
    pose proof (Hbit _ _ Hi Hq). apply lookup_lt_Some in Hi. rewrite (ar_len _ Ha) in Hi.
    change MAX_PRIO with 140 in *. lia. }
  destruct (core_slot _ _ _ (active r) n H) as (x' & q & Hx' & Hq & _);
    [apply (core_active _ _ _ H)|lia|]. simplify_eq.
  wp_step. eapply wp_get_queue; [lia|done|]. cbv beta.
  pose proof (ar_bit _ Ha _ _ Hq) as E. rewrite Z2Nat.id, Hb in E by lia.
  destruct q as [|p q]; [by rewrite bool_decide_false in E by auto|]. wp_step.
  split; [done|]. exists (Z.to_nat n), q. split; [done|].
  intros j q' Hj Hq'. destruct (decide (q' = [])) as [|Hne]; [done|].
  pose proof (Hbit _ _ Hq' Hne). lia.
Qed.

(** In terms of tasks: nothing in the array is better, and equals come later. *)
Lemma first_best d r a x p : core None d r → arrays r !! a = Some x → is_first x p →
  ∃ t, tasks r !! p = Some t ∧ array t = Some a ∧
    ∀ q u, tasks r !! q = Some u → array u = Some a → prio t <= prio u.
Proof.
  intros H Hx (i & q & Hi & Hlow).
  destruct (proj1 (co_mem _ _ _ H a i p)) as (_ & t & Ht & Ha & Hp).
  { exists x, (p :: q). split_and!; [done|done|by left]. }
  exists t. split_and!; [done|done|]. intros q' u Hu Hua.
  destruct (core_queue _ _ _ _ _ _ H Hu Hua) as (x' & qu & Hx' & Hqu & Hin & Hr & _); [done|].
  simplify_eq. destruct (Z.le_gt_cases (prio t) (prio u)); [done|].
  rewrite (Hlow (Z.to_nat (prio u)) qu) in Hin; [by apply not_elem_of_nil in Hin|lia|done].
Qed.

(** The array [schedule] takes the next task from. *)
Definition busy_array (r : runqueue) : nat :=
  match arrays r !! active r with
  | Some x => if nr_active x =? 0 then expired r else active r
  | None => active r
  end.

Lemma wp_switch_arrays d (r : runqueue) Ψ : core None d r → total r ≠ 0 →
  wp switch_arrays (λ _ r', core None d r' ∧ tasks r' = tasks r ∧ arrays r' = arrays r ∧
    idle r' = idle r ∧ curr r' = curr r ∧ active r' = busy_array r ∧
    ∃ x, arrays r !! busy_array r = Some x ∧ nr_active x ≠ 0) Ψ r.
Proof.
  intros H Htot. unfold switch_arrays. do 3 wp_step. unfold busy_array.
  pose proof (co_len _ _ _ H) as Hl. destruct (arrays r) as [|x0 [|x1 [|]]] eqn:Ear; try done.
  assert (total r = nr_active x0 + nr_active x1) as Et by (unfold total; rewrite Ear; cbn; lia).
  assert (∃ x y, [x0; x1] !! active r = Some x ∧ [x0; x1] !! expired r = Some y ∧
    nr_active x + nr_active y ≠ 0) as (x & y & Hx & Hy & Hxy).
  { destruct (co_sel _ _ _ H) as [[-> ->]|[-> ->]]; eexists _, _; (split_and!; [done|done|lia]). }
  eapply wp_get_array; [rewrite Ear; exact Hx|]. cbv beta. rewrite Hx.
  apply wp_when; intros E; rewrite E.
  - wp_step. split_and!; try done; [|exists y; split; [done|lia]].
    pose proof (co_sel _ _ _ H). destruct H. split; try done. cbn. tauto.
  - apply Z.eqb_neq in E. split_and!; try done. eauto.
Qed.

(** Recomputing the priority of a queued task, which moves it to another queue of its array. *)
Lemma wp_reprioritise p a t now (r : runqueue) Ψ :
  core None 0 r → tasks r !! p = Some t → array t = Some a →
  wp (_ ← dequeue_task p a; _ ← upd_task p (λ t, recalc_task_prio t (now t)); enqueue_task p a)
    (λ _ r', core None 0 r' ∧ same_sel r r' ∧
       tasks r' = <[p := recalc_task_prio t (now t)]> (tasks r)) Ψ r.
Proof.
  intros H Ht Ha.
  destruct (core_queue _ _ _ _ _ _ H Ht Ha) as (x & _ & Hx & _ & _ & _ & _ & Hok & Hid); [done|].
  pose proof (lookup_lt_Some _ _ _ Hx) as Hlt. rewrite (co_len _ _ _ H) in Hlt.
  destruct (recalc_frame t (now t)) as (_ & _ & _ & Ea & _).
  wp_step. eapply wp_mono; [by eapply wp_dequeue|]. cbv beta. intros _ r1 [Hc1 [l ->]].
  do 2 wp_step. eapply wp_mono.
  - eapply (wp_enqueue _ _ (recalc_task_prio t (now t))); [|cbn; by rewrite lookup_insert_eq|done|done].
    eapply (core_upd _ _ (rq_set_arrays l r)); [exact Hc1|done| |done|by left].
    intros _. by apply task_ok_recalc.
  - cbv beta. intros _ r' [Hc [l' ->]]. split_and!; [done|done|]. cbn [tasks rq_set_tasks rq_set_arrays].
    rewrite insert_insert_eq. f_equal. rewrite Ha in Ea.
    destruct (recalc_task_prio t (now t)). cbn in *. by subst.
Qed.

Lemma task_ok_activated v t : task_ok t → task_ok (set_activated v t).
Proof. intros []. by split. Qed.

(** The choice of the next task. *)
Lemma wp_pick_next now (r : runqueue) Ψ : core None 0 r → slices_ok r → nr_running r ≠ 0 →
  wp (pick_next now) (λ p r', core None 0 r' ∧ slices_ok r' ∧ idle r' = idle r ∧ curr r' = curr r ∧
    p ≠ idle r ∧
    (∃ t', array t' ≠ None ∧ tasks r' = <[p := t']> (tasks r)) ∧
    ∃ x, arrays r !! busy_array r = Some x ∧ is_first x p) Ψ r.
Proof.
  intros H Hsl Hn. assert (total r ≠ 0) as Ht0 by (rewrite <- (co_cnt _ _ _ H); lia).
  unfold pick_next. wp_step. eapply wp_mono; [by apply wp_switch_arrays|]. cbv beta.
  intros _ r1 (H1 & Et1 & Ear1 & Ei1 & Ec1 & Eac1 & x & Hx & Hxn).
  wp_step. eapply wp_mono; [eapply wp_first_task; [exact H1|by rewrite Ear1, Eac1|done]|].
  cbv beta. intros p r' [-> Hf].
  destruct (first_best _ _ (busy_array r) x p H1) as (t & Ht & Ha & _); [by rewrite Ear1|done|].
  destruct (core_queue _ _ _ _ _ _ H1 Ht Ha) as (_ & _ & _ & _ & _ & _ & _ & Hok & Hid); [done|].
  do 2 wp_step. wp_step.
  apply (wp_mono _ _ (λ _ r2, core None 0 r2 ∧ same_sel r1 r2 ∧ ∃ t2, task_ok t2 ∧
    array t2 = array t ∧ time_slice t2 = time_slice t ∧ tasks r2 = <[p := t2]> (tasks r1))).
  { apply wp_when; intros _; [|split_and!; try done; exists t; by rewrite insert_id].
    cbv zeta. rewrite Ha. eapply wp_mono; [by eapply wp_reprioritise|]. cbv beta.
    intros _ r2 (H2 & Hs2 & E2). split_and!; [done|done|]. eexists. split_and!; [..|exact E2].
    - by apply task_ok_recalc.
    - rewrite <- Ha. apply recalc_frame.
    - apply recalc_frame. }
  intros _ r2 (H2 & (Ei2 & Ec2 & _) & t2 & Hok2 & Ha2 & Es2 & E2).
  assert (Ht2 : tasks r2 !! p = Some t2) by (by rewrite E2, lookup_insert_eq).
  do 3 wp_step. split_and!; [| |cbn; congruence|cbn; congruence|congruence| |eauto].
  - eapply core_field; [done|done|done|done| |by left]. intros _. apply task_ok_activated.
  - apply (slices_upd r _ p (set_activated 0 t2)); [done| | |cbn; congruence].
    + intros _. cbn. rewrite Es2. apply (Hsl p); [by rewrite <- Et1|congruence].
    + cbn. by rewrite E2, insert_insert_eq, Et1.
  - exists (set_activated 0 t2). split; [cbn; congruence|]. cbn. by rewrite E2, insert_insert_eq, Et1.
Qed.

(** The outgoing task is charged the time it ran. *)
Definition charged (run_time now : Z) (t : task_struct) : task_struct :=
  let avg := wrap32 (sleep_avg t - run_time) in
  set_last_ran now (set_timestamp now
    (set_sleep_avg (if sgn32 avg <=? 0 then 0 else avg) (set_need_resched false t))).

Lemma charged_ok run_time now t : 0 <= run_time <= NS_MAX_SLEEP_AVG → task_ok t →
  task_ok (charged run_time now t).
Proof.
  intros Hrt H. pose proof (tk_avg _ H) as Ha. destruct H. split; try done.
  cbn [charged sleep_avg set_last_ran set_timestamp set_sleep_avg set_need_resched].
  change NS_MAX_SLEEP_AVG with 1000000000 in *. unfold sgn32. rewrite wrap32_wrap.
  assert (wrap32 (sleep_avg t - run_time) =
    if sleep_avg t <? run_time then sleep_avg t - run_time + 2 ^ 32 else sleep_avg t - run_time) as ->.
  { unfold wrap32. case_zb; [|apply Z.mod_small; lia].
    rewrite <- (Z_mod_plus_full _ 1). apply Z.mod_small. lia. }
  repeat case_zb; lia.
Qed.

Lemma charged_time_range t now : task_ok t → 0 <= charged_time t now <= NS_MAX_SLEEP_AVG.
Proof.
  intros H. pose proof (bonus_range t (tk_avg _ H)) as Hb. unfold charged_time. cbv zeta.
  pose proof (Z.mod_pos_bound (now - timestamp t) (2 ^ 64)) as Hd. fold (wrap64 (now - timestamp t)) in Hd.
  set (rt := if _ <? NS_MAX_SLEEP_AVG then _ else _).
  assert (0 <= rt <= NS_MAX_SLEEP_AVG).
  { subst rt. change NS_MAX_SLEEP_AVG with 1000000000 in *. case_zb; lia. }
  set (b := if CURRENT_BONUS t =? 0 then 1 else CURRENT_BONUS t).
  assert (1 <= b) by (subst b; case_zb; lia).
  split; [apply Z.div_pos; lia|]. etrans; [apply Z.div_le_upper_bound with (q := rt)|]; [lia|nia|lia].
Qed.

Lemma wp_switch_tasks next run_time now tp tn (r : runqueue) Ψ :
  core None 0 r → slices_ok r → tasks r !! curr r = Some tp → tasks r !! next = Some tn →
  (next = idle r ∨ array tn ≠ None) →
  (curr r ≠ idle r → 0 <= run_time <= NS_MAX_SLEEP_AVG) →
  wp (switch_tasks (curr r) next run_time now)
    (λ _ r', rq_ok r' ∧ idle r' = idle r ∧ curr r' = next ∧ active r' = active r ∧
       expired r' = expired r) Ψ r.
Proof.
  intros H Hsl Htp Htn Hn Hrt. unfold switch_tasks. apply wp_upd_fuse. do 2 wp_step.
  change (set_last_ran now _) with (charged run_time now tp).
  set (r1 := rq_set_tasks (<[curr r := charged run_time now tp]> (tasks r)) r).
  assert (H1 : core None 0 r1).
  { eapply core_field; [done|done|done|done| |by left]. intros Hid Hok. apply charged_ok; [exact (Hrt Hid)|exact Hok]. }
  assert (Hs1 : slices_ok r1).
  { eapply (slices_upd r _ (curr r)); [done| |done|done]. intros Hid.
    change (1 <= time_slice tp). by eapply Hsl. }
  apply wp_when; intros E; [apply negb_true_iff, Z.eqb_neq in E|apply negb_false_iff, Z.eqb_eq in E].
  - wp_step.
    eapply wp_upd_task; [cbn; by rewrite lookup_insert_ne|]. wp_step. split_and!; try done.
    assert (H2 : core None 0 (rq_set_tasks (<[next := set_timestamp now tn]> (tasks r1)) r1)).
    { eapply core_field; [done|cbn; by rewrite lookup_insert_ne|done|done| |by left].
      intros _ []. by split. }
    split_and!; [core_frame H2| |].
    + destruct Hn as [->|Hn]; [by left|right]. exists (set_timestamp now tn). split; [|done].
      cbn. by rewrite lookup_insert_eq.
    + eapply (slices_upd r1 _ next); [done| |done|done]. intros Hid. cbn. by eapply Hsl.
  - split_and!; try done. split_and!; [done| |done].
    rewrite <- E in *. simplify_eq. destruct Hn as [?|?]; [by left|right].
    exists (charged run_time now tp). split; [|done]. cbn. by rewrite lookup_insert_eq.
Qed.

Lemma no_running r q u a : core None 0 r → nr_running r = 0 → tasks r !! q = Some u →
  array u = Some a → False.
Proof.
  intros H Hn Hu Ha. pose proof (co_cnt _ _ _ H) as Hc. rewrite Hn in Hc.
  destruct (core_queue _ _ _ _ _ _ H Hu Ha) as (x & qq & Hx & Hq & Hin & _ & Hok & _); [done|].
  assert (nr_active x ≠ 0) as Hnz.
  { intros E. rewrite (proj1 (arr_empty _ Hok) E _ _ Hq) in Hin. by apply not_elem_of_nil in Hin. }
  assert (Hpos : ∀ l, Forall arr_ok l → 0 <= foldr (λ x n, nr_active x + n) 0 l).
  { induction 1 as [|y l Hy _ IH]; cbn; [lia|]. rewrite (ar_cnt _ Hy). lia. }
  pose proof (total_put (arrays r) a x (mk_array 0 [] []) Hx) as Ht.
  pose proof (co_len _ _ _ H) as Hl. pose proof (co_arr _ _ _ H) as Hall. unfold total in Hc.
  destruct (arrays r) as [|x0 [|x1 [|]]] eqn:E; try done. cbn in Hc.
  apply Forall_cons in Hall as [H0 Hall]. apply Forall_cons in Hall as [H1 _].
  rewrite (ar_cnt _ H0), (ar_cnt _ H1) in Hc.
  destruct a as [|[|a]]; simplify_eq/=; rewrite (ar_cnt _ Hok) in Hnz; lia.
Qed.

Lemma schedule_spec clock preempt t r : rq_ok r → tasks r !! curr r = Some t →
  ∃ r1 next r',
    schedule_out (curr r) preempt r = (Ok tt, r1) ∧
    tasks r1 = <[curr r := outgoing preempt t]> (tasks r) ∧
    schedule clock preempt r = (Ok next, r') ∧
    rq_ok r' ∧ curr r' = next ∧ idle r' = idle r ∧
    (nr_running r1 = 0 → next = idle r ∧ ∀ q u, tasks r1 !! q = Some u → array u = None) ∧
    (nr_running r1 ≠ 0 → next ≠ idle r ∧
       (∃ x, arrays r1 !! busy_array r1 = Some x ∧ is_first x next) ∧
       ∃ u, tasks r1 !! next = Some u ∧ array u = Some (busy_array r1) ∧
         ∀ q v, tasks r1 !! q = Some v → array v = Some (busy_array r1) → prio u <= prio v).
Proof.
  intros Hr Ht. pose proof (wp_schedule_out preempt t r (λ _ _, False) Hr Ht) as Ho.
  apply wp_ok in Ho as ([] & r1 & Eo & H1 & Hs1 & (Ei & Ec & _) & E1 & Hidle).
  assert (Hp1 : tasks r1 !! curr r1 = Some (outgoing preempt t))
    by (by rewrite E1, Ec, lookup_insert_eq).
  assert (Hrt : curr r1 ≠ idle r1 → 0 <= charged_time t clock <= NS_MAX_SLEEP_AVG).
  { intros Hid. apply charged_time_range. eapply (proj1 Hr); [done|congruence]. }
  assert (Hw : wp (next ← (if nr_running r1 =? 0
          then _ ← modify (rq_set_expired_timestamp 0); mret (idle r1) else pick_next clock);
      _ ← switch_tasks (curr r) next (charged_time t clock) clock; mret next)
      (λ p r', rq_ok r' ∧ curr r' = p ∧ idle r' = idle r ∧
         (nr_running r1 = 0 → p = idle r) ∧
         (nr_running r1 ≠ 0 → p ≠ idle r ∧ ∃ x, arrays r1 !! busy_array r1 = Some x ∧ is_first x p))
      (λ _ _, False) r1).
  { wp_step. destruct (Z.eqb_spec (nr_running r1) 0) as [E|E].
    - do 3 wp_step. set (r2 := rq_set_expired_timestamp 0 r1).
      destruct (co_idle _ _ _ H1) as (ti & Hti & _). wp_step. rewrite <- Ec.
      eapply wp_mono; [eapply (wp_switch_tasks _ _ _ _ ti r2); try done; [core_frame H1|by left]|].
      cbv beta. intros _ r' (Hr' & Hi' & Hc' & _). wp_step. split_and!; try done. cbn in *. congruence.
    - eapply wp_mono; [by apply wp_pick_next|]. cbv beta.
      intros p r2 (H2 & Hs2 & Ei2 & Ec2 & Hpi & (t' & Ha' & E2) & Hx). wp_step.
      assert (∃ tp, tasks r2 !! curr r2 = Some tp) as [tp Htp].
      { rewrite E2, Ec2. destruct (decide (p = curr r1)) as [->|];
          [rewrite lookup_insert_eq|rewrite lookup_insert_ne by done]; eauto. }
      replace (curr r) with (curr r2) by congruence.
      eapply wp_mono; [eapply (wp_switch_tasks _ _ _ _ t' r2); try done|].
      + by rewrite E2, lookup_insert_eq.
      + by right.
      + rewrite Ec2, Ei2. done.
      + cbv beta. intros _ r' (Hr' & Hi' & Hc' & _). wp_step.
        split_and!; try done; [congruence|]. intros _. split; [congruence|done]. }
  apply wp_ok in Hw as (next & r' & Es & Hr' & Hc' & Hi' & H0 & Hnz).
  exists r1, next, r'. split_and!; try done.
  - unfold schedule. unfold mbind at 1, SM_bind at 1, gets at 1. cbn [id].
    unfold mbind at 1, SM_bind at 1, get_task at 1. rewrite Ht.
    unfold mbind at 1, SM_bind at 1. rewrite Eo. exact Es.
  - intros E. split; [by apply H0|]. intros q u Hu. destruct (array u) eqn:Ea; [|done].
    exfalso. by eapply no_running.
  - intros E. destruct (Hnz E) as [Hne (x & Hx & Hf)]. split_and!; [done|eauto|].
    by eapply first_best.
Qed.

End SchedSafety.

(** * The timer tick and the run queues

    What [scheduler_tick] does to the queues of the two arrays, seen as lists of tasks in
    the order in which [schedule] takes them. *)

Module SchedTick.
Import Sched SchedPrio Runqueue SchedSafety.

(** The tasks of priority [pr] in array [a]. *)
Definition line (r : runqueue) (a : nat) (pr : Z) : list Z :=
  default [] (x ← arrays r !! a; queue x !! Z.to_nat pr).

Definition same_lines (r r' : runqueue) : Prop := ∀ a pr, 0 <= pr → line r' a pr = line r a pr.

(** Task [p] goes from its place in one line to the end of one; all others keep theirs. *)
Definition moved (p : Z) (from to : nat * Z) (r r' : runqueue) : Prop := ∀ a pr, 0 <= pr →
  line r' a pr = (if decide ((a, pr) = from) then filter (λ j, j ≠ p) (line r a pr) else line r a pr) ++
                 (if decide ((a, pr) = to) then [p] else []).

(** ** The steps of a successful run *)

Lemma post_get p t (Φ : task_struct → runqueue → Prop) r : tasks r !! p = Some t → Φ t r → post (get_task p) Φ r.
Proof. unfold post, get_task. by intros ->. Qed.
Lemma post_upd p f t (Φ : unit → runqueue → Prop) r : tasks r !! p = Some t →
  Φ tt (rq_set_tasks (<[p := f t]> (tasks r)) r) → post (upd_task p f) Φ r.
Proof. unfold post, upd_task. by intros ->. Qed.

Lemma line_put r a x x' i q' a' pr : arrays r !! a = Some x → is_Some (queue x !! i) → queue x' = <[i := q']> (queue x) →
  line (rq_set_arrays (<[a := x']> (arrays r)) r) a' pr =
  if decide (a' = a ∧ Z.to_nat pr = i) then q' else line r a' pr.
Proof.
  intros Hx [q Hq] Hx'. unfold line. cbn [arrays rq_set_arrays].
  destruct (decide (a' = a)) as [->|Ha].
  - rewrite list_lookup_insert_eq by (by eapply lookup_lt_Some). cbn. rewrite Hx', Hx. cbn.
    destruct (decide (Z.to_nat pr = i)) as [->|Hi].
    + rewrite list_lookup_insert_eq by (by eapply lookup_lt_Some). by rewrite decide_True.
    + rewrite list_lookup_insert_ne by done. rewrite decide_False; [done|]. by intros [_ ?].
  - rewrite list_lookup_insert_ne by done. rewrite decide_False; [done|]. by intros [? _].
Qed.

(** Replacing the line of a task by [f] of it. *)
Definition relined (f : list Z → list Z) (a : nat) (pr : Z) (r r' : runqueue) : Prop :=
  (∃ l, r' = rq_set_arrays l r) ∧
  ∀ b i, 0 <= i → line r' b i = if decide ((b, i) = (a, pr)) then f (line r b i) else line r b i.

Lemma relined_put r a x x' pr q f : arrays r !! a = Some x → queue x !! Z.to_nat pr = Some q → 0 <= pr →
  queue x' = <[Z.to_nat pr := f q]> (queue x) → relined f a pr r (rq_set_arrays (<[a := x']> (arrays r)) r).
Proof.
  intros Hx Hq Hp Hx'. split; [eauto|]. intros b i Hi. rewrite (line_put r a x x' _ (f q)) by eauto.
  destruct (decide ((b, i) = (a, pr))) as [[= -> ->]|Hne].
  - rewrite decide_True by done. unfold line. rewrite Hx. cbn. by rewrite Hq.
  - rewrite decide_False; [done|]. intros [-> E]. apply Hne. f_equal. lia.
Qed.

(** The code that changes a line, up to the new array. *)
Lemma post_queue {A} p a t (k : task_struct → prio_array → list Z → SM runqueue A) (Φ : A → runqueue → Prop) r :
  tasks r !! p = Some t →
  (∀ x q, arrays r !! a = Some x → queue x !! Z.to_nat (prio t) = Some q → 0 <= prio t → post (k t x q) Φ r) →
  post (t ← get_task p; x ← get_array a; q ← get_queue x (prio t); k t x q) Φ r.
Proof.
  intros Ht Hk. apply post_bind. eapply post_get; [exact Ht|]. cbv beta. apply post_bind. unfold post at 1, get_array.
  destruct (arrays r !! a) as [x|] eqn:Hx; [|done]. apply post_bind. unfold post at 1, get_queue.
  destruct (Z.ltb_spec (prio t) 0); [done|]. destruct (queue x !! Z.to_nat (prio t)) as [q|] eqn:Hq; [|done].
  by apply Hk.
Qed.

Lemma post_dequeue p a t r : tasks r !! p = Some t →
  post (dequeue_task p a) (λ _ r', relined (filter (λ j, j ≠ p)) a (prio t) r r') r.
Proof.
  intros Ht. eapply post_queue; [exact Ht|]. intros x q Hx Hq Hp. destruct (decide (p ∈ q)); [|done].
  unfold post, put_array, modify. by eapply relined_put.
Qed.
Lemma post_requeue p a t r : tasks r !! p = Some t →
  post (requeue_task p a) (λ _ r', relined (λ q, filter (λ j, j ≠ p) q ++ [p]) a (prio t) r r') r.
Proof.
  intros Ht. eapply post_queue; [exact Ht|]. intros x q Hx Hq Hp. destruct (decide (p ∈ q)); [|done].
  unfold post, put_array, modify. eapply (relined_put _ _ _ _ _ _ (λ q, filter (λ j, j ≠ p) q ++ [p])); done.
Qed.
Lemma post_enqueue p a t r : tasks r !! p = Some t →
  post (enqueue_task p a) (λ _ r', ∃ r1, relined (λ q, q ++ [p]) a (prio t) r r1 ∧
    r' = rq_set_tasks (<[p := set_array (Some a) t]> (tasks r)) r1) r.
Proof.
  intros Ht. eapply post_queue; [exact Ht|]. intros x q Hx Hq Hp. apply post_bind.
  unfold post at 1, put_array, modify. eapply post_upd; [exact Ht|]. eexists. split; [|done].
  by eapply (relined_put _ _ _ _ _ _ (λ q, q ++ [p])).
Qed.

(** ** The end of a time slice *)

Lemma moved_lines p from a pr r r1 r2 r3 :
  relined (filter (λ j, j ≠ p)) from.1 from.2 r r1 → arrays r2 = arrays r1 → relined (λ q, q ++ [p]) a pr r2 r3 →
  moved p from (a, pr) r r3.
Proof.
  intros [_ H1] E [_ H3] b i Hi. rewrite H3 by done. assert (line r2 b i = line r1 b i) as -> by (unfold line; by rewrite E).
  rewrite H1 by done. rewrite <- surjective_pairing. destruct (decide ((b, i) = (a, pr))); [done|]. by rewrite app_nil_r.
Qed.

Lemma moved_requeue p a pr r r' : relined (λ q, filter (λ j, j ≠ p) q ++ [p]) a pr r r' → moved p (a, pr) (a, pr) r r'.
Proof. intros [_ H] b i Hi. rewrite H by done. destruct (decide _); [done|]. by rewrite app_nil_r. Qed.

(** The bookkeeping of the expired array. *)
Definition since (r : runqueue) (jiffies : Z) : Z := if expired_timestamp r =? 0 then jiffies else expired_timestamp r.

Definition counters (r : runqueue) := (nr_running r, nr_switches r, nr_uninterruptible r, timestamp_last_tick r).

Lemma post_tick_expire jiffies t r : tasks r !! curr r = Some t →
  let dest := if expires r t jiffies then expired r else active r in
  post (tick_expire (curr r) jiffies) (λ _ r',
    moved (curr r) (active r, prio t) (dest, effective_prio t) r r' ∧ expired_timestamp r' = since r jiffies ∧
    best_expired_prio r' = (if expires r t jiffies then Z.min (static_prio t) (best_expired_prio r) else best_expired_prio r) ∧
    counters r' = counters r) r.
Proof.
  intros Ht dest. subst dest. unfold tick_expire. apply post_bind. unfold post at 1, gets. cbn [id].
  apply post_bind. eapply post_mono; [by apply post_dequeue|]. cbv beta. intros _ r1 H1. pose proof H1 as [[l ->] _].
  do 4 (apply post_bind; eapply post_upd; [cbn; first [exact Ht|apply lookup_insert_eq]|cbn [tasks rq_set_tasks]; rewrite ?insert_insert_eq]).
  change (set_first_time_slice 0 _) with (refilled t). apply post_bind. unfold post at 1, modify.
  apply post_bind. unfold post at 1, gets. cbn [id].
  set (r2 := if expired_timestamp _ =? 0 then _ else _).
  assert (tasks r2 = <[curr r := refilled t]> (tasks r) ∧ arrays r2 = l ∧ curr r2 = curr r ∧ expired r2 = expired r ∧
    active r2 = active r ∧ expired_timestamp r2 = since r jiffies ∧ best_expired_prio r2 = best_expired_prio r ∧
    counters r2 = counters r ∧ negb (TASK_INTERACTIVE (refilled t)) || EXPIRED_STARVING r2 (refilled t) jiffies = expires r t jiffies)
    as (E2 & A2 & C2 & X2 & V2 & T2 & B2 & N2 & S2).
  { subst r2. unfold since, expires. cbn [expired_timestamp rq_set_tasks rq_set_arrays].
    by destruct (expired_timestamp r =? 0). }
  clearbody r2. assert (tasks r2 !! curr r = Some (refilled t)) as Ht2 by (by rewrite E2, lookup_insert_eq).
  apply post_bind. eapply post_get; [exact Ht2|]. cbv beta. apply post_bind.
  eapply post_get; [by rewrite C2|]. cbv beta. rewrite S2.
  assert (∀ r3 r4 a, relined (λ q, q ++ [curr r]) a (prio (refilled t)) r2 r3 →
    r4 = rq_set_tasks (<[curr r := set_array (Some a) (refilled t)]> (tasks r2)) r3 →
    moved (curr r) (active r, prio t) (a, effective_prio t) r r4 ∧ expired_timestamp r4 = since r jiffies ∧
    best_expired_prio r4 = best_expired_prio r ∧ counters r4 = counters r) as Hmv.
  { intros r3 r4 a H3 ->. pose proof H3 as [[l3 ->] _]. split; [|done].
    exact (moved_lines (curr r) (active r, prio t) a (effective_prio t) r (rq_set_arrays l r) r2 (rq_set_arrays l3 r2) H1 A2 H3). }
  destruct (expires r t jiffies).
  - apply post_bind. eapply post_mono; [by apply post_enqueue|]. cbv beta. intros _ r4 (r3 & H3 & E4). rewrite X2 in H3, E4.
    destruct (Hmv _ _ _ H3 E4) as (Hm & Hts & Hb & Hn). unfold post, modify. rewrite Hb.
    change (static_prio (refilled t)) with (static_prio t).
    destruct (Z.ltb_spec (static_prio t) (best_expired_prio r)); (split_and!; [exact Hm|exact Hts|cbn; lia|exact Hn]).
  - eapply post_mono; [by apply post_enqueue|]. cbv beta. intros _ r4 (r3 & H3 & E4). rewrite V2 in H3, E4. eauto.
Qed.

(** ** The whole tick *)

(** Whether the tick is charged to the current task: it is in the active array, and not under
    the first-in first-out policy. *)
Definition charged (r : runqueue) (t : task_struct) : bool :=
  negb (curr r =? idle r) && bool_decide (array t = Some (active r)) && (negb (rt_task t) || (policy t =? SCHED_RR)).
(** Whether its time slice ends, and whether with it its stay in the active array. *)
Definition over (r : runqueue) (t : task_struct) : bool := charged r t && (time_slice t =? 1).
Definition expiring (r : runqueue) (t : task_struct) : bool := over r t && negb (rt_task t).
(** Whether an interactive task has come to the end of a piece of its slice. *)
Definition cut (r : runqueue) (t : task_struct) : bool :=
  charged r t && negb (rt_task t) && negb (time_slice t =? 1) && TASK_INTERACTIVE t &&
  (wrap32 (task_timeslice t - (time_slice t - 1)) mod TIMESLICE_GRANULARITY t =? 0) &&
  (TIMESLICE_GRANULARITY t <=? time_slice t - 1).
Definition rotates (r : runqueue) (t : task_struct) : bool := over r t && rt_task t || cut r t.

(** Where a task goes whose slice ends. *)
Definition destination (r : runqueue) (jiffies : Z) (t : task_struct) : nat :=
  if expires r t jiffies then expired r else active r.

(** What the tick does to the lines and to the bookkeeping of the run queue. *)
Record queues_ticked (clock jiffies : Z) (t : task_struct) (r r' : runqueue) : Prop := {
  qt_lines : if expiring r t then moved (curr r) (active r, prio t) (destination r jiffies t, effective_prio t) r r'
             else if rotates r t then moved (curr r) (active r, prio t) (active r, prio t) r r'
             else same_lines r r';
  qt_since : expired_timestamp r' = if expiring r t then since r jiffies else expired_timestamp r;
  qt_best : best_expired_prio r' = if expiring r t && expires r t jiffies
              then Z.min (static_prio t) (best_expired_prio r) else best_expired_prio r;
  qt_counters : counters r' = (nr_running r, nr_switches r, nr_uninterruptible r, clock)
}.

(** What the tick does to the descriptor of the current task. *)
Record task_ticked (jiffies : Z) (r : runqueue) (t t' : task_struct) : Prop := {
  tt_slice : time_slice t' = if charged r t then if over r t then task_timeslice t else time_slice t - 1 else time_slice t;
  tt_first : first_time_slice t' = if over r t then 0 else first_time_slice t;
  tt_prio : prio t' = if expiring r t then effective_prio t else prio t;
  tt_array : array t' = if expiring r t then Some (destination r jiffies t) else array t;
  tt_resched : need_resched t' = need_resched t || over r t || cut r t ||
                 negb (curr r =? idle r) && bool_decide (array t ≠ Some (active r));
  tt_rest : t' = set_time_slice (time_slice t') (set_first_time_slice (first_time_slice t')
                   (set_prio (prio t') (set_array (array t') (set_need_resched (need_resched t') t))))
}.

Lemma same_lines_arrays r r' : arrays r' = arrays r → same_lines r r'.
Proof. intros E a pr _. unfold line. by rewrite E. Qed.

Lemma moved_from p from to r r1 r' : arrays r1 = arrays r → moved p from to r1 r' → moved p from to r r'.
Proof.
  intros E H a pr Hp. rewrite (H a pr Hp). assert (line r1 a pr = line r a pr) as -> by (unfold line; by rewrite E). done.
Qed.

(** A tick that moves the current task to the end of its own line, or leaves it there. *)
Lemma queues_rotated clock jiffies t r r' : expiring r t = false → rotates r t = true →
  moved (curr r) (active r, prio t) (active r, prio t) r r' → expired_timestamp r' = expired_timestamp r →
  best_expired_prio r' = best_expired_prio r → counters r' = counters (rq_set_timestamp_last_tick clock r) →
  queues_ticked clock jiffies t r r'.
Proof. intros E1 E2 ????. by split; rewrite ?E1, ?E2. Qed.
Lemma queues_kept clock jiffies t r r' : expiring r t = false → rotates r t = false →
  arrays r' = arrays r → expired_timestamp r' = expired_timestamp r →
  best_expired_prio r' = best_expired_prio r → counters r' = counters (rq_set_timestamp_last_tick clock r) →
  queues_ticked clock jiffies t r r'.
Proof. intros E1 E2 ????. split; rewrite ?E1, ?E2; try done. by apply same_lines_arrays. Qed.

(** Code that goes on after a requeueing with an update of the task's other fields. *)
Lemma post_requeue_curr {A} clock t t' r (k : unit → SM runqueue A) (Φ : A → runqueue → Prop) :
  let r1 := rq_set_tasks (<[curr r := t']> (tasks r)) (rq_set_timestamp_last_tick clock r) in
  prio t' = prio t →
  (∀ r', tasks r' !! curr r = Some t' → moved (curr r) (active r, prio t) (active r, prio t) r r' →
    expired_timestamp r' = expired_timestamp r → best_expired_prio r' = best_expired_prio r →
    counters r' = counters r1 → post (k tt) Φ r') →
  post (_ ← requeue_task (curr r) (active r); k tt) Φ r1.
Proof.
  intros r1 Hp Hk. apply post_bind. eapply post_mono.
  - apply (post_requeue _ _ t'). apply lookup_insert_eq.
  - cbv beta. intros _ r' H. pose proof H as [[l ->] _]. rewrite Hp in H. apply Hk; try done.
    + apply lookup_insert_eq.
    + eapply (moved_from _ _ _ _ r1); [done|]. by apply moved_requeue.
Qed.

Lemma post_round_robin clock jiffies t r : task_ok t → 1 <= time_slice t → tasks r !! curr r = Some t →
  charged r t = true → rt_task t = true →
  post (_ ← upd_task (curr r) (λ t, set_time_slice (wrap32 (time_slice t - 1)) t);
        t' ← get_task (curr r);
        if time_slice t' =? 0 then
          _ ← upd_task (curr r) (λ t, set_time_slice (task_timeslice t) t);
          _ ← upd_task (curr r) (set_first_time_slice 0);
          _ ← upd_task (curr r) (set_need_resched true);
          requeue_task (curr r) (active r)
        else mret tt) (λ _ r', queues_ticked clock jiffies t r r') (rq_set_timestamp_last_tick clock r).
Proof.
  intros Hok Hts Ht Hch Ert. assert (expiring r t = false) as He by (unfold expiring; by rewrite Ert, andb_false_r).
  assert (rotates r t = (time_slice t =? 1)) as Hro.
  { unfold rotates, over, cut. rewrite Hch, Ert. cbn. by rewrite andb_true_r, orb_false_r. }
  apply post_bind. eapply post_upd; [exact Ht|]. rewrite slice_dec by done. apply post_bind.
  eapply post_get; [apply lookup_insert_eq|]. cbv beta. cbn [time_slice set_time_slice].
  destruct (Z.eqb_spec (time_slice t - 1) 0) as [E|E], (Z.eqb_spec (time_slice t) 1); try lia.
  - do 3 (apply post_bind; eapply post_upd; [apply lookup_insert_eq|rewrite upd_upd]).
    eapply post_mono; [apply (post_requeue _ _ _ _ (lookup_insert_eq _ _ _))|]. cbv beta. intros _ r' H.
    pose proof H as [[l ->] _]. apply queues_rotated; try done.
    eapply moved_from; [|apply moved_requeue, H]. done.
  - by apply queues_kept.
Qed.

Lemma post_normal clock jiffies t r : task_ok t → 1 <= time_slice t → tasks r !! curr r = Some t →
  array t = Some (active r) → charged r t = true → rt_task t = false →
  post (_ ← upd_task (curr r) (λ t, set_time_slice (wrap32 (time_slice t - 1)) t);
        t' ← get_task (curr r);
        if time_slice t' =? 0 then tick_expire (curr r) jiffies else
        if TASK_INTERACTIVE t' &&
           (wrap32 (task_timeslice t' - time_slice t') mod TIMESLICE_GRANULARITY t' =? 0) &&
           (TIMESLICE_GRANULARITY t' <=? time_slice t') && bool_decide (array t' = Some (active r)) then
          _ ← requeue_task (curr r) (active r);
          upd_task (curr r) (set_need_resched true)
        else mret tt) (λ _ r', queues_ticked clock jiffies t r r') (rq_set_timestamp_last_tick clock r).
Proof.
  intros Hok Hts Ht Ha Hch Ert. set (less := set_time_slice (time_slice t - 1) t).
  apply post_bind. eapply post_upd; [exact Ht|]. rewrite slice_dec by done. fold less. apply post_bind.
  eapply post_get; [apply lookup_insert_eq|]. cbv beta.
  assert (expiring r t = (time_slice t =? 1)) as He.
  { unfold expiring, over. by rewrite Hch, Ert, andb_true_r. }
  set (r1 := rq_set_tasks _ _).
  destruct (Z.eqb_spec (time_slice less) 0) as [E|E]; cbn in E.
  - assert ((time_slice t =? 1) = true) as E1 by (apply Z.eqb_eq; lia). rewrite E1 in He.
    eapply post_mono; [apply (post_tick_expire jiffies less r1), lookup_insert_eq|].
    assert (expires r1 less jiffies = expires r t jiffies) as -> .
    { unfold r1. rewrite expires_set_tasks. unfold expires. cbn. by destruct (expired_timestamp r =? 0). }
    cbv beta. intros _ r' (Hm & Hs & Hb & Hn). by split; rewrite ?He.
  - assert ((time_slice t =? 1) = false) as E1 by (apply Z.eqb_neq; lia). rewrite E1 in He.
    rewrite (bool_decide_eq_true_2 (array less = _)), andb_true_r by done.
    match goal with |- post (if ?b then _ else _) _ _ => assert (rotates r t = b) as Hro end.
    { unfold rotates, over, cut. rewrite Hch, Ert, E1. cbn. done. }
    rewrite <- Hro. destruct (rotates r t) eqn:Er.
    + apply (post_requeue_curr clock t less r (λ _, upd_task (curr r) (set_need_resched true))); [done|].
      intros r' Ht' Hm ???. eapply post_upd; [exact Ht'|]. by apply queues_rotated.
    + by apply queues_kept.
Qed.

Lemma post_tick clock jiffies t r : rq_ok r → tasks r !! curr r = Some t →
  post (scheduler_tick clock jiffies) (λ _ r', queues_ticked clock jiffies t r r') r.
Proof.
  intros Hr Ht. unfold scheduler_tick. apply post_bind. unfold post at 1, modify. apply post_bind. unfold post at 1, gets.
  cbn [id curr idle active rq_set_timestamp_last_tick]. set (r1 := rq_set_timestamp_last_tick clock r).
  destruct (Z.eqb_spec (curr r) (idle r)) as [Hi|Hi].
  { apply queues_kept; try done; unfold rotates, expiring, over, cut, charged; rewrite Hi, Z.eqb_refl; done. }
  assert (task_ok t) as Hok by (eapply (co_task _ _ _ (proj1 Hr)); done).
  pose proof (proj2 (proj2 Hr) _ _ Ht Hi) as Hts.
  apply post_bind. eapply post_get; [exact Ht|]. cbv beta.
  destruct (decide _) as [Ha|Ha%dec_stable].
  { eapply post_upd; [exact Ht|]. apply queues_kept; try done;
      unfold rotates, expiring, over, cut, charged; by rewrite (bool_decide_eq_false_2 _ Ha), andb_false_r. }
  assert (charged r t = negb (rt_task t) || (policy t =? SCHED_RR)) as Hch.
  { unfold charged. rewrite (bool_decide_eq_true_2 _ Ha). apply Z.eqb_neq in Hi. by rewrite Hi. }
  destruct (rt_task t) eqn:Ert; cbn [negb orb] in Hch.
  - destruct (policy t =? SCHED_RR).
    + by apply post_round_robin.
    + apply queues_kept; try done; unfold rotates, expiring, over, cut; by rewrite Hch.
  - by apply post_normal.
Qed.

(** Each field by the cases of the tick. *)
Ltac tick_cases r t :=
  unfold ticked, destination, expiring, cut, over, charged;
  destruct (curr r =? idle r); cbn [negb andb];
  [|destruct (decide (array t ≠ Some (active r))) as [Ha|Ha];
    [rewrite ?(bool_decide_eq_false_2 (array t = Some (active r))), ?(bool_decide_eq_true_2 (array t ≠ Some (active r))) by done; cbn [andb]
    |apply dec_stable in Ha; rewrite ?(bool_decide_eq_true_2 _ Ha), ?(bool_decide_eq_false_2 (array t ≠ Some (active r))) by (intros H; by apply H);
     cbn [andb]; destruct (rt_task t), (policy t =? SCHED_RR), (time_slice t =? 1); cbn [negb andb orb];
     try destruct (TASK_INTERACTIVE t && _ && _)]].

Lemma ticked_spec jiffies r t :
  task_ticked jiffies r t (if curr r =? idle r then t else ticked r jiffies t).
Proof.
  split; tick_cases r t; clear; destruct t as [?????????????[]]; reflexivity.
Qed.

End SchedTick.
