(* ===== verification/SchedOps.v ===== *)
(** * Theorems on the scheduler: fork, exit, priority and policy changes, and traces

    The remaining operations of kernel/sched.c over the run queue invariant, and
    the safety of every sequence of operations. *)

From stdpp Require Import prelude numbers list gmap.
From Stdlib Require Import ZArith Lia.
From S2P Require Import Prelude Bitops Sched SchedFacts RunqueueFacts SchedSafety.

#[local] Set Default Goal Selector "!".
#[local] Open Scope Z_scope.

Module SchedOps.
Import Sched SchedPrio Runqueue SchedSafety.

(** Updating one task that keeps being queued or not. *)
Lemma rq_ok_upd (r r' : runqueue) p t t' : rq_ok r → core None 0 r' → same_sel r r' →
  tasks r !! p = Some t → tasks r' = <[p := t']> (tasks r) →
  (array t ≠ None → array t' ≠ None) → (p ≠ idle r → 1 <= time_slice t') → rq_ok r'.
Proof.
  intros (_ & Hc & Hs) H (Ei & Ec & _) Ht Et Ha Hts. split_and!; [done| |].
  - destruct Hc as [?|(u & Hu & Hn)]; [left; congruence|right]. rewrite Ec, Et.
    destruct (decide (p = curr r)) as [->|].
    + rewrite lookup_insert_eq. eexists. split; [done|]. apply Ha. congruence.
    + rewrite lookup_insert_ne by done. eauto.
  - by eapply (slices_upd r).
Qed.

Lemma core_array_lt d r p t a : core None d r → tasks r !! p = Some t → array t = Some a →
  (a < 2)%nat ∧ p ≠ idle r.
Proof.
  intros H Ht Ha.
  destruct (core_queue _ _ _ _ _ _ H Ht Ha) as (x & _ & Hx & _ & _ & _ & _ & _ & Hid); [done|].
  split; [|done]. rewrite <- (co_len _ _ _ H). by eapply lookup_lt_Some.
Qed.

(** ** Nice values *)

Definition reniced (nice : Z) (t : task_struct) : task_struct :=
  if rt_task t then set_static_prio (NICE_TO_PRIO nice) t
  else set_prio (NICE_TO_PRIO nice) (set_static_prio (NICE_TO_PRIO nice) t).

Lemma reniced_ok nice t : -20 <= nice <= 19 → task_ok t → task_ok (reniced nice t).
Proof.
  intros Hn H. pose proof (tk_rt _ H) as Hr. unfold reniced, NICE_TO_PRIO in *.
  change MAX_RT_PRIO with 100. destruct (rt_task t) eqn:E.
  - destruct H. split; try done. cbn. change MAX_RT_PRIO with 100. change MAX_PRIO with 140. lia.
  - destruct H. split; try done; cbn; change MAX_RT_PRIO with 100; change MAX_PRIO with 140;
      [lia|lia|]. rewrite <- Hr. unfold rt_task. cbn. rewrite Z.ltb_lt.
    change MAX_RT_PRIO with 100. split; [lia|done].
Qed.

(** Whether [set_user_nice] changes anything. *)
Definition nice_changes (t : task_struct) (nice : Z) : bool :=
  negb ((TASK_NICE t =? nice) || (nice <? -20) || (19 <? nice)).

Lemma wp_resched_if b (r : runqueue) Ψ : rq_ok r →
  wp (when b (resched_task (curr r))) (λ _ r', rq_ok r' ∧ same_sel r r' ∧ ∃ c,
    tasks r !! curr r = Some c ∧
    tasks r' = if b then <[curr r := set_need_resched true c]> (tasks r) else tasks r) Ψ r.
Proof.
  intros H. destruct (curr_task _ H) as [c Hc]. destruct b; cbn; [|split_and!; [done|done|by exists c]].
  eapply wp_mono; [by eapply wp_resched|]. cbv beta. intros _ r' [? ->].
  split_and!; [done|done|by exists c].
Qed.

(** [p] has its new nice value; of the other tasks only the reschedule flag may be set. *)
Definition reniced_state (r : runqueue) (p : Z) (t : task_struct) (nice : Z) (r' : runqueue) : Prop :=
  rq_ok r' ∧ same_sel r r' ∧
  (∃ b, tasks r' !! p = Some (set_need_resched b (reniced nice t)) ∧
        (need_resched t = true → b = true)) ∧
  ∀ q u, q ≠ p → tasks r !! q = Some u → ∃ b, tasks r' !! q = Some (set_need_resched b u).

Lemma wp_reniced_resched p nice t b (r r2 : runqueue) Ψ :
  rq_ok r2 → same_sel r r2 → tasks r2 = <[p := reniced nice t]> (tasks r) →
  wp (when b (resched_task (curr r2))) (λ _ r', reniced_state r p t nice r') Ψ r2.
Proof.
  assert (Hrefl : ∀ u, set_need_resched (need_resched u) u = u) by (by intros []).
  intros Hr2 Hs2 E2. eapply wp_mono; [by apply wp_resched_if|]. cbv beta.
  intros _ r' (Hr' & Hs' & c & Hc & E'). split_and!; [done|by etrans| |].
  all: assert (Hl : ∀ q u, tasks r2 !! q = Some u →
    ∃ b', tasks r' !! q = Some (set_need_resched b' u) ∧ (need_resched u = true → b' = true)).
  1, 3: intros q u Hu; rewrite E'; destruct b; [|exists (need_resched u); by rewrite Hrefl];
    destruct (decide (q = curr r2)) as [->|];
    [simplify_eq; exists true; by rewrite lookup_insert_eq
    |exists (need_resched u); by rewrite lookup_insert_ne, Hrefl].
  - assert (need_resched (reniced nice t) = need_resched t) as Er
      by (unfold reniced; by destruct (rt_task t)).
    destruct (Hl p (reniced nice t)) as (b' & Hb & Hb'); [by rewrite E2, lookup_insert_eq|].
    exists b'. by rewrite <- Er.
  - intros q u Hq Hu. destruct (Hl q u) as (b2 & ? & _); [by rewrite E2, lookup_insert_ne|eauto].
Qed.

Lemma wp_set_user_nice p nice t (r : runqueue) Ψ : rq_ok r → tasks r !! p = Some t → p ≠ idle r →
  wp (set_user_nice p nice)
    (λ _ r', if nice_changes t nice then reniced_state r p t nice r' else r' = r) Ψ r.
Proof.
  intros Hr Ht Hid. unfold set_user_nice. do 2 wp_step. unfold nice_changes.
  destruct (_ || (19 <? nice)) eqn:Eg; cbn [negb]; [by wp_step|]. zb_hyps.
  pose proof (co_task _ _ _ (proj1 Hr) _ _ Ht Hid) as Hok.
  assert (Hok' : task_ok (reniced nice t)) by (apply reniced_ok; [lia|done]).
  destruct (rt_task t) eqn:Ert.
  { wp_step. assert (set_static_prio (NICE_TO_PRIO nice) t = reniced nice t) as E
      by (unfold reniced; by rewrite Ert).
    rewrite E. apply (wp_reniced_resched p nice t false r (rq_set_tasks _ r) Ψ); [|done|done].
    eapply rq_ok_field; [done|done|by rewrite <- E|by rewrite <- E|done|rewrite <- E; by left|].
    by rewrite <- E. }
  set (delta := NICE_TO_PRIO nice - prio t).
  assert (set_prio (prio t + delta) (set_static_prio (NICE_TO_PRIO nice) t) = reniced nice t) as E.
  { unfold reniced. rewrite Ert. unfold delta. f_equal. lia. }
  assert (array (reniced nice t) = array t ∧ time_slice (reniced nice t) = time_slice t) as [Ea El]
    by (by rewrite <- E).
  pose proof (proj2 (proj2 Hr) _ _ Ht Hid) as Hts. destruct (array t) as [a|] eqn:Ha.
  - destruct (core_array_lt _ _ _ _ _ (proj1 Hr) Ht Ha) as [Hlt _].
    wp_step. eapply wp_mono; [eapply wp_dequeue; [apply Hr|done|done]|]. cbv beta.
    intros _ r1 [Hc1 [l ->]]. apply wp_upd_fuse. do 2 wp_step. cbn [prio set_static_prio]. rewrite E.
    wp_step. eapply wp_mono.
    { eapply (wp_enqueue _ _ (reniced nice t)); [|cbn; by rewrite lookup_insert_eq|done|done].
      eapply (core_upd _ _ (rq_set_arrays l r)); [exact Hc1|done|done|done|by left]. }
    cbv beta. intros _ r2 [H2 [l2 E2]].
    assert (tasks r2 = <[p := reniced nice t]> (tasks r)) as Et.
    { rewrite E2. cbn. rewrite insert_insert_eq. f_equal. destruct (reniced nice t). cbn in *. by subst. }
    assert (same_sel r r2) as Hs2 by (by rewrite E2).
    do 2 wp_step. apply wp_reniced_resched; [|done|done].
    eapply (rq_ok_upd r r2); [done|done|done|done|exact Et|congruence|lia].
  - do 2 wp_step. apply wp_upd_fuse. do 2 wp_step. cbn [prio set_static_prio]. rewrite E.
    destruct (core_unqueued _ _ _ _ _ (proj1 Hr) Ht Ha) as [_ Hc1]; [by left|].
    set (r2 := rq_set_tasks _ r). assert (core None 0 r2) as H2.
    { eapply core_unqueued; [eapply core_upd; [exact Hc1|done|done|done|by left]| |exact Ea|by right].
      cbn. by rewrite lookup_insert_eq. }
    apply (wp_reniced_resched p nice t false r r2 Ψ); [|done|done].
    eapply (rq_ok_upd r r2); [done|done|done|done|done|congruence|lia].
Qed.

Lemma wp_sys_nice cap inc c (r : runqueue) : rq_ok r → tasks r !! curr r = Some c → curr r ≠ idle r →
  let nice := Z.min 19 (Z.max (-20) (TASK_NICE c + Z.min 40 (Z.max (-40) inc))) in
  wp (sys_nice cap inc)
    (λ res r', res = 0 ∧ (inc < 0 → cap = true) ∧
       if nice_changes c nice then reniced_state r (curr r) c nice r' else r' = r)
    (λ e r', e = EPERM ∧ r' = r ∧ inc < 0 ∧ cap = false) r.
Proof.
  intros Hr Hc Hid nice. unfold sys_nice.
  destruct ((inc <? 0) && negb cap) eqn:E; [zb_hyps; done|].
  set (inc1 := if inc <? -40 then -40 else inc).
  set (inc2 := if 40 <? inc1 then 40 else inc1). do 4 wp_step. cbn [id].
  set (n1 := if _ <? -20 then -20 else _). set (n2 := if 19 <? n1 then 19 else n1).
  assert (n2 = nice) as ->.
  { subst nice n2 n1 inc2 inc1. unfold TASK_NICE. set (k := PRIO_TO_NICE (static_prio c)).
    destruct (Z.ltb_spec inc (-40)).
    - destruct (Z.ltb_spec 40 (-40)); [lia|]. destruct (Z.ltb_spec (k + -40) (-20)); case_zb; lia.
    - destruct (Z.ltb_spec 40 inc).
      + destruct (Z.ltb_spec (k + 40) (-20)); case_zb; lia.
      + destruct (Z.ltb_spec (k + inc) (-20)); case_zb; lia. }
  wp_step. eapply wp_mono; [by apply wp_set_user_nice|]. cbv beta. intros _ r' H. wp_step.
  split_and!; [done| |done]. intros Hi. apply andb_false_iff in E as [E|E]; zb_hyps; [lia|done].
Qed.

(** ** Scheduling policies *)

Definition policed (pol pr : Z) (t : task_struct) : task_struct :=
  let t1 := set_rt_priority pr (set_policy pol t) in
  set_prio (if negb (pol =? SCHED_NORMAL) then MAX_USER_RT_PRIO - 1 - pr else static_prio t1) t1.

Lemma policed_ok pol pr t : task_ok t → 0 <= pr <= MAX_USER_RT_PRIO - 1 →
  pol = SCHED_NORMAL ∨ pol = SCHED_FIFO ∨ pol = SCHED_RR →
  (pol = SCHED_NORMAL ↔ pr = 0) → task_ok (policed pol pr t).
Proof.
  intros H Hpr Hpol Hz. pose proof (tk_static _ H) as Hs. destruct H.
  change MAX_RT_PRIO with 100 in *. change MAX_PRIO with 140 in *. change MAX_USER_RT_PRIO with 100 in *.
  unfold policed. split; try done; change MAX_PRIO with 140; change MAX_USER_RT_PRIO with 100;
    cbn [prio set_prio policy].
  - case_zb; cbn [negb static_prio set_rt_priority set_policy]; lia.
  - unfold rt_task. cbn [prio set_prio set_policy policy set_rt_priority]. rewrite Z.ltb_lt.
    change MAX_RT_PRIO with 100. change MAX_USER_RT_PRIO with 100.
    case_zb; cbn [negb static_prio set_rt_priority set_policy]; [|lia].
    split; [lia|done].
Qed.

Lemma wp_setscheduler_raw p pol pr t (r : runqueue) Ψ : tasks r !! p = Some t → array t = None →
  wp (__setscheduler p pol pr)
    (λ _ r', r' = rq_set_tasks (<[p := policed pol pr t]> (tasks r)) r) Ψ r.
Proof. intros Ht Ha. unfold __setscheduler. do 2 wp_step. rewrite Ha. by wp_step. Qed.

(** What a successful [sched_setscheduler] leaves. *)
Definition policed_state (r : runqueue) (p pol pr : Z) (t : task_struct) (r' : runqueue) : Prop :=
  rq_ok r' ∧ same_sel r r' ∧
  ∃ t', tasks r' !! p = Some t' ∧ policy t' = pol ∧ rt_priority t' = pr ∧
    prio t' = prio (policed pol pr t) ∧ static_prio t' = static_prio t ∧
    (array t' = None ↔ array t = None).

Lemma policed_resched (r r2 r' : runqueue) p pol pr t t2 c b :
  rq_ok r' → same_sel r r2 → same_sel r2 r' →
  tasks r2 !! p = Some t2 → policy t2 = pol → rt_priority t2 = pr →
  prio t2 = prio (policed pol pr t) → static_prio t2 = static_prio t →
  (array t2 = None ↔ array t = None) → tasks r2 !! curr r2 = Some c →
  tasks r' = (if b : bool then <[curr r2 := set_need_resched true c]> (tasks r2) else tasks r2) →
  policed_state r p pol pr t r'.
Proof.
  intros Hr' Hs Hs' Ht2 H1 H2 H3 H4 H5 Hc E. split_and!; [done|by etrans|].
  rewrite E. destruct b; [|by exists t2]. destruct (decide (p = curr r2)) as [->|].
  - simplify_eq. exists (set_need_resched true t2). by rewrite lookup_insert_eq.
  - exists t2. by rewrite lookup_insert_ne.
Qed.

Lemma policed_fields pol pr t : array (policed pol pr t) = array t ∧
  time_slice (policed pol pr t) = time_slice t.
Proof. done. Qed.

(** A queued task leaves its queue, changes policy and joins the active array. *)
Lemma wp_requeue_policed p pol pr t a (r : runqueue) Ψ :
  rq_ok r → tasks r !! p = Some t → array t = Some a → task_ok (policed pol pr t) →
  wp (_ ← deactivate_task p; _ ← __setscheduler p pol pr; __activate_task p)
    (λ _ r', rq_ok r' ∧ same_sel r r' ∧
       tasks r' = <[p := set_array (Some (active r)) (policed pol pr t)]> (tasks r)) Ψ r.
Proof.
  intros Hr Ht Ha Hok. destruct (core_array_lt _ _ _ _ _ (proj1 Hr) Ht Ha) as [_ Hid].
  wp_step. eapply wp_mono; [eapply wp_deactivate; [apply Hr|done|done]|]. cbv beta.
  intros _ r1 (H1 & Hs1 & E1 & _). pose proof Hs1 as (Ei1 & _ & Ea1 & _).
  assert (Ht1 : tasks r1 !! p = Some (set_array None t)) by (by rewrite E1, lookup_insert_eq).
  wp_step. eapply wp_mono; [by eapply wp_setscheduler_raw|]. cbv beta. intros _ r2 ->.
  set (t2 := policed pol pr (set_array None t)).
  assert (Hok2 : task_ok t2) by (destruct Hok; by split).
  assert (H2 : core None 0 (rq_set_tasks (<[p := t2]> (tasks r1)) r1)).
  { destruct (core_unqueued _ _ _ _ _ H1 Ht1) as [_ H1']; [done|by left|].
    eapply core_unqueued; [eapply core_upd; [exact H1'|exact Ht1|done| |by left]| | |by right].
    - intros E. congruence.
    - cbn. by rewrite lookup_insert_eq.
    - done. }
  eapply wp_mono.
  { eapply wp_activate_raw; [exact H2|cbn; by rewrite lookup_insert_eq|done|cbn; congruence]. }
  cbv beta. intros _ r' (H' & Hs' & E' & _).
  assert (tasks r' = <[p := set_array (Some (active r)) (policed pol pr t)]> (tasks r)) as Et.
  { rewrite E'. cbn. by rewrite insert_insert_eq, E1, insert_insert_eq, Ea1. }
  assert (same_sel r r') as Hs by (etrans; [exact Hs1|exact Hs']).
  split_and!; [|done|done]. eapply (rq_ok_upd r r'); [done|done|done|done|exact Et|done|].
  intros _. change (1 <= time_slice t). by eapply (proj2 (proj2 Hr)).
Qed.

(** After an activation, the current task is rescheduled if need be. *)
Lemma wp_policed_resched p pol pr t oldprio (r r2 : runqueue) Ψ :
  rq_ok r2 → same_sel r r2 → array t ≠ None →
  tasks r2 = <[p := set_array (Some (active r)) (policed pol pr t)]> (tasks r) →
  wp (t' ← get_task p;
      if curr r =? p then when (oldprio <? prio t') (resched_task (curr r))
      else b ← preempts_curr p; when b (resched_task (curr r)))
    (λ _ r', policed_state r p pol pr t r') Ψ r2.
Proof.
  intros Hr2 Hs2 Ha E2. set (t2 := set_array _ _) in E2.
  assert (Ht2 : tasks r2 !! p = Some t2) by (by rewrite E2, lookup_insert_eq).
  destruct (curr_task _ Hr2) as [c Hc]. pose proof Hs2 as (_ & Ec & _). do 2 wp_step.
  rewrite <- Ec. assert (Hfin : ∀ b, wp (when b (resched_task (curr r2)))
    (λ _ r', policed_state r p pol pr t r') Ψ r2).
  { intros b. eapply wp_mono; [by apply wp_resched_if|]. cbv beta.
    intros _ r' (Hr' & Hs' & c' & Hc' & E'). by eapply policed_resched. }
  destruct (curr r2 =? p); [apply Hfin|]. unfold preempts_curr. do 8 wp_step. apply Hfin.
Qed.

Lemma wp_policy_change p pol pr t (r : runqueue) Ψ :
  rq_ok r → tasks r !! p = Some t → p ≠ idle r → task_ok (policed pol pr t) →
  wp (_ ← match array t with Some _ => deactivate_task p | None => mret tt end;
      _ ← __setscheduler p pol pr;
      match array t with
      | None => mret tt
      | Some _ =>
          _ ← __activate_task p;
          t' ← get_task p;
          if curr r =? p then when (prio t <? prio t') (resched_task (curr r))
          else b ← preempts_curr p; when b (resched_task (curr r))
      end) (λ _ r', policed_state r p pol pr t r') Ψ r.
Proof.
  intros Hr Ht Hid Hok. destruct (array t) as [a|] eqn:Ha.
  - pose proof (wp_requeue_policed p pol pr t a r Ψ Hr Ht Ha Hok) as Hq.
    apply wp_bind_inv in Hq. wp_step. eapply wp_mono; [exact Hq|]. clear Hq. intros [] r1 Hq.
    apply wp_bind_inv in Hq. wp_step. eapply wp_mono; [exact Hq|]. clear Hq. intros [] r2 Hq.
    wp_step. eapply wp_mono; [exact Hq|]. cbv beta. intros _ r3 (Hr3 & Hs3 & E3).
    apply wp_policed_resched; [done|done|congruence|done].
  - do 2 wp_step. wp_step. eapply wp_mono; [by eapply wp_setscheduler_raw|]. cbv beta.
    intros _ r1 ->. wp_step. destruct (core_unqueued _ _ _ _ _ (proj1 Hr) Ht Ha) as [_ H1]; [by left|].
    set (r2 := rq_set_tasks _ r).
    assert (Ht2 : tasks r2 !! p = Some (policed pol pr t)) by (cbn; by rewrite lookup_insert_eq).
    assert (H2 : core None 0 r2).
    { eapply core_unqueued; [eapply core_upd; [exact H1|done|done|done|by left]|exact Ht2|done|by right]. }
    split_and!; [|done|by exists (policed pol pr t)].
    eapply (rq_ok_upd r r2); [done|done|done|done|done|congruence|].
    intros _. change (1 <= time_slice t). by eapply (proj2 (proj2 Hr)).
Qed.

Lemma wp_sched_setscheduler cap p pol0 pr t c (r : runqueue) :
  rq_ok r → tasks r !! p = Some t → p ≠ idle r → tasks r !! curr r = Some c →
  let pol := if pol0 <? 0 then policy t else pol0 in
  wp (sched_setscheduler cap p pol0 pr)
    (λ res r', res = 0 ∧ policed_state r p pol pr t r' ∧
       (cap = false → pol = SCHED_NORMAL ∧ (euid c = euid t ∨ euid c = uid t)))
    (λ e r', r' = r ∧ (e = EINVAL ∨ e = EPERM)) r.
Proof.
  intros Hr Ht Hid Hc pol. unfold sched_setscheduler. do 6 wp_step. cbn [id]. fold pol.
  destruct (_ && negb (pol0 =? SCHED_NORMAL)) eqn:G1; [by cbn; auto|].
  destruct (_ || (MAX_USER_RT_PRIO - 1 <? pr)) eqn:G2; [by cbn; auto|]. zb_hyps.
  destruct (negb (Bool.eqb _ _)) eqn:G3; [by cbn; auto|].
  destruct (_ && negb cap) eqn:G4; [by cbn; auto|].
  destruct (_ && negb cap) eqn:G5 in |- *; [by cbn; auto|].
  assert (Hz : pol = SCHED_NORMAL ↔ pr = 0).
  { apply negb_false_iff, eqb_prop in G3. rewrite <- !Z.eqb_eq, G3. done. }
  pose proof (co_task _ _ _ (proj1 Hr) _ _ Ht Hid) as Hok.
  assert (Hpol : pol = SCHED_NORMAL ∨ pol = SCHED_FIFO ∨ pol = SCHED_RR).
  { subst pol. destruct (Z.ltb_spec pol0 0); [apply Hok|]. destruct (Z.leb_spec 0 pol0); [|lia].
    destruct (Z.eqb_spec pol0 SCHED_FIFO); [auto|]. destruct (Z.eqb_spec pol0 SCHED_RR); [auto|].
    destruct (Z.eqb_spec pol0 SCHED_NORMAL); [auto|done]. }
  assert (Hcap : cap = false → pol = SCHED_NORMAL ∧ (euid c = euid t ∨ euid c = uid t)).
  { intros ->. rewrite andb_true_r in G4, G5. zb_hyps. split.
    - destruct Hpol as [?|[?|?]]; done.
    - apply andb_false_iff in G5 as [E|E]; zb_hyps; auto. }
  assert (Hok' : task_ok (policed pol pr t)) by (apply policed_ok; [done|lia|done|done]).
  assert (Hfin : wp (_ ← match array t with Some _ => deactivate_task p | None => mret tt end;
    _ ← __setscheduler p pol pr;
    match array t with
    | None => mret tt
    | Some _ =>
        _ ← __activate_task p;
        t' ← get_task p;
        if curr r =? p then when (prio t <? prio t') (resched_task (curr r))
        else b ← preempts_curr p; when b (resched_task (curr r))
    end) (λ _ r', policed_state r p pol pr t r') (λ _ _, False) r) by (by apply wp_policy_change).
  apply wp_bind_inv in Hfin. wp_step. eapply wp_mono; [by apply wp_noerr, Hfin|]. clear Hfin.
  intros [] r1 Hfin. cbv beta in Hfin. apply wp_bind_inv in Hfin. wp_step.
  eapply wp_mono; [by apply wp_noerr, Hfin|]. clear Hfin. intros [] r2 Hfin. cbv beta in Hfin.
  wp_step. eapply wp_mono; [by apply wp_noerr, Hfin|]. cbv beta. intros _ r' H'. by wp_step.
Qed.

(** ** Yield *)

Lemma wp_sched_yield c (r : runqueue) Ψ : rq_ok r → tasks r !! curr r = Some c → curr r ≠ idle r →
  wp sched_yield (λ _ r', rq_ok r' ∧ same_sel r r' ∧
    tasks r' = <[curr r := set_array (Some (if rt_task c then active r else expired r)) c]> (tasks r))
    Ψ r.
Proof.
  intros Hr Hc Hid. unfold sched_yield. do 4 wp_step. cbn [id].
  set (tgt := if rt_task c then active r else expired r).
  assert (∃ a, array c = Some a) as [a Ha].
  { destruct Hr as (_ & [?|(u & Hu & Hn)] & _); [done|].
    assert (u = c) as -> by congruence. destruct (array c); [eauto|done]. }
  rewrite Ha. pose proof (core_active _ _ _ (proj1 Hr)) as Hact.
  assert (tgt < 2)%nat as Hlt by (subst tgt; destruct (rt_task c); lia).
  assert (Hts : 1 <= time_slice c) by (by eapply (proj2 (proj2 Hr))).
  destruct (decide (a ≠ tgt)) as [Hne|Heq].
  - wp_step. eapply wp_mono; [eapply wp_dequeue; [apply Hr|done|done]|]. cbv beta.
    intros _ r1 [H1 [l ->]]. eapply wp_mono; [eapply wp_enqueue; [exact H1|done|done|done]|].
    cbv beta. intros _ r2 [H2 [l2 ->]]. split_and!; [|done|done].
    by eapply (rq_ok_curr r).
  - apply dec_stable in Heq as ->.
    assert (set_array (Some tgt) c = c) as E by (rewrite <- Ha; by destruct c).
    eapply wp_mono; [eapply wp_requeue; [apply Hr|done|done]|].
    cbv beta. intros _ r2 [H2 [l2 ->]]. rewrite E, insert_id by done. split_and!; [|done|done].
    eapply (rq_ok_curr r _ c); [done|done|done|cbn; by rewrite insert_id|congruence|done].
Qed.

(** ** Fork and exit *)

(** The descriptor [copy_process] makes: a copy of the current task. *)
Definition dup_task (p : Z) : SM runqueue unit :=
  r ← gets id; c ← get_task (curr r); modify (λ r, rq_set_tasks (<[p := c]> (tasks r)) r).

Definition forked_child (clock : Z) (c : task_struct) : task_struct :=
  set_timestamp clock (set_first_time_slice 1
    (set_time_slice (Z.shiftr (wrap32 (time_slice c + 1)) 1)
      (set_array None (set_state TASK_RUNNING c)))).

Lemma forked_child_ok clock c : task_ok c → 1 <= time_slice c →
  task_ok (forked_child clock c) ∧ time_slice (forked_child clock c) = (time_slice c + 1) / 2.
Proof.
  intros H Hs. pose proof (tk_slice _ H).
  assert (Z.shiftr (wrap32 (time_slice c + 1)) 1 = (time_slice c + 1) / 2) as E.
  { rewrite wrap32_id by (unfold is_u32; lia). by rewrite Z.shiftr_div_pow2. }
  split; [|cbn [forked_child time_slice set_timestamp set_first_time_slice set_time_slice]; done].
  destruct H. split; try done.
  cbn [forked_child time_slice set_timestamp set_first_time_slice set_time_slice]. rewrite E. zdm.
Qed.

(** A new task, not queued, joins the task table. *)
Lemma rq_ok_add (r : runqueue) p t : rq_ok r → tasks r !! p = None → task_ok t → array t = None →
  1 <= time_slice t → rq_ok (rq_set_tasks (<[p := t]> (tasks r)) r).
Proof.
  intros (H & Hc & Hs) Hp Hok Ha Hts.
  assert (p ≠ idle r) as Hid.
  { intros ->. destruct (co_idle _ _ _ H) as (u & Hu & _). congruence. }
  assert (p ≠ curr r) as Hcur.
  { intros ->. destruct (curr_task r) as [u Hu]; [done|congruence]. }
  split_and!.
  - split; [apply H|apply H|apply H|apply H| | |]; cbn [tasks rq_set_tasks idle].
    + intros a i q. change (inq _ a i q) with (inq r a i q). rewrite (co_mem _ _ _ H).
      destruct (decide (q = p)) as [->|]; [|by rewrite lookup_insert_ne].
      rewrite lookup_insert_eq. split; intros [_ (u & Hu & ? & ?)]; simplify_eq.
    + intros q u [[<- <-]|[_ Hq]]%lookup_insert_Some ?; [done|by eapply H].
    + rewrite lookup_insert_ne by done. apply H.
  - destruct Hc as [?|Hc]; [by left|right]. cbn. by rewrite lookup_insert_ne.
  - intros q u. cbn. intros [[<- <-]|[_ Hq]]%lookup_insert_Some ?; [done|by eapply Hs].
Qed.

Lemma wp_sched_fork p clock jiffies c (r : runqueue) Ψ :
  rq_ok r → tasks r !! p = None → tasks r !! curr r = Some c → curr r ≠ idle r →
  wp (_ ← dup_task p; sched_fork p clock jiffies) (λ _ r', rq_ok r' ∧ same_sel r r' ∧
    tasks r' !! p = Some (forked_child clock c) ∧
    ∃ c', tasks r' !! curr r = Some c' ∧
      (2 <= time_slice c → time_slice c' + time_slice (forked_child clock c) = time_slice c) ∧
      1 <= time_slice c') Ψ r.
Proof.
  intros Hr Hp Hc Hid. pose proof (co_task _ _ _ (proj1 Hr) _ _ Hc Hid) as Hok.
  pose proof (proj2 (proj2 Hr) _ _ Hc Hid) as Hts. pose proof (tk_slice _ Hok) as Htl.
  destruct (forked_child_ok clock c Hok Hts) as [Hfo Hfs].
  assert (Hpc : p ≠ curr r) by congruence.
  wp_step. unfold dup_task. do 5 wp_step. unfold sched_fork. cbn [id]. do 2 wp_step. cbn [id].
  wp_step. eapply (wp_get_task _ c); [cbn; by rewrite lookup_insert_ne|]. cbv beta. do 2 wp_step.
  rewrite upd_upd. change (set_timestamp clock _) with (forked_child clock c).
  set (r1 := rq_set_tasks (<[p := forked_child clock c]> (tasks r)) r).
  assert (Hr1 : rq_ok r1).
  { apply rq_ok_add; [done|done|done|done|rewrite Hfs; zdm]. }
  change (curr (rq_set_tasks _ r)) with (curr r1).
  assert (Hc1 : tasks r1 !! curr r1 = Some c) by (cbn; by rewrite lookup_insert_ne).
  wp_step. eapply wp_upd_task; [exact Hc1|]. rewrite Z.shiftr_div_pow2 by lia. change (2 ^ 1) with 2.
  assert (Hlook : ∀ c', tasks (rq_set_tasks (<[curr r1 := c']> (tasks r1)) r1) !! p =
    Some (forked_child clock c)) by (intros; cbn; by rewrite lookup_insert_ne, lookup_insert_eq).
  destruct (Z.eqb_spec (time_slice c / 2) 0) as [E|E].
  - do 2 wp_step. rewrite upd_upd. cbn [set_time_slice].
    set (c2 := set_time_slice 1 _). set (r2 := rq_set_tasks (<[curr r1 := c2]> (tasks r1)) r1).
    assert (Hr2 : rq_ok r2).
    { apply (rq_ok_set_slice r1 (curr r1) c 1); [done|done|lia]. }
    assert (Hc2 : tasks r2 !! curr r2 = Some c2) by (cbn; by rewrite lookup_insert_eq).
    eapply wp_mono; [by eapply wp_tick|]. cbv beta. intros _ r' (Hr' & Hs' & E').
    change (curr r2) with (curr r) in E'. change (idle r2) with (idle r) in E'.
    destruct (Z.eqb_spec (curr r) (idle r)); [done|].
    split_and!; [done|done| |].
    + rewrite E', lookup_insert_ne by done. apply Hlook.
    + eexists. rewrite E', lookup_insert_eq. split_and!; [done|intros; zdm|].
      apply (proj2 (proj2 Hr') (curr r)); [by rewrite E', lookup_insert_eq|].
      destruct Hs' as (-> & _). done.
  - wp_step. split_and!; [|done|apply Hlook|].
    + apply rq_ok_set_slice; [done|done|zdm].
    + exists (set_time_slice (time_slice c / 2) c). rewrite Hfs. cbn. rewrite lookup_insert_eq.
      split_and!; [done|intros _; zdm|zdm].
Qed.

Lemma insert_before_perm p c q : c ∈ q → insert_before p c q ≡ₚ p :: q.
Proof.
  induction q as [|x q IH]; intros Hc; [by apply not_elem_of_nil in Hc|]. cbn.
  destruct (Z.eqb_spec x c); [done|]. rewrite IH; [apply Permutation_swap|].
  apply elem_of_cons in Hc as [?|?]; [congruence|done].
Qed.

Lemma arr_ok_insert x i q q' p : arr_ok x → queue x !! i = Some q → q' ≡ₚ p :: q → (p ∉ q) → q ≠ [] →
  arr_ok (mk_array (nr_active x + 1) (bitmap x) (<[i := q']> (queue x))).
Proof.
  intros Ha Hi Hq Hp Hne.
  replace (nr_active x + 1) with (nr_active x + Z.of_nat (length q') - Z.of_nat (length q))
    by (rewrite Hq; cbn; lia).
  apply arr_ok_put; [done|done| |apply Ha|].
  - rewrite Hq. apply NoDup_cons. split; [done|]. by eapply ar_nodup.
  - intros j Hj. case_zb; [|done]. subst. rewrite (ar_bit _ Ha _ _ Hi), !bool_decide_true; [done| |done].
    intros ->. by apply Permutation_nil_l in Hq.
Qed.

(** The child takes the place before its parent. *)
Lemma wp_queue_child p a c t (r : runqueue) Ψ :
  rq_ok r → tasks r !! curr r = Some c → array c = Some a →
  tasks r !! p = Some t → array t = None → p ≠ idle r → task_ok (set_prio (prio c) t) →
  wp (_ ← upd_task p (set_prio (prio c));
      x ← get_array a;
      q ← get_queue x (prio c);
      if decide (curr r ∈ q) then
        _ ← put_array a (mk_array (nr_active x + 1) (bitmap x)
              (<[Z.to_nat (prio c) := insert_before p (curr r) q]> (queue x)));
        _ ← upd_task p (set_array (Some a));
        modify (λ r, rq_set_nr_running (nr_running r + 1) r)
      else bug)
    (λ _ r', rq_ok r' ∧ same_sel r r' ∧
       tasks r' = <[p := set_array (Some a) (set_prio (prio c) t)]> (tasks r)) Ψ r.
Proof.
  intros Hr Hc Hac Ht Ha Hid Hok.
  destruct (core_queue _ _ _ _ _ _ (proj1 Hr) Hc Hac) as (x & q & Hx & Hq & Hin & Hpr & Hxo & _); [done|].
  set (t' := set_array (Some a) (set_prio (prio c) t)).
  destruct (core_unqueued _ _ _ _ _ (proj1 Hr) Ht Ha) as [_ H1]; [by left|].
  set (r1 := rq_set_tasks (<[p := t']> (tasks r)) r).
  assert (H1' : core (Some p) 0 r1).
  { eapply core_upd; [exact H1|done| |done|by left]. intros _. destruct Hok. by split. }
  pose proof (core_flying _ _ _ _ _ _ _ H1 Hx Hq) as Hpq.
  do 3 wp_step. eapply wp_get_array; [exact Hx|]. cbv beta. wp_step.
  eapply wp_get_queue; [lia|done|]. cbv beta. rewrite decide_True by done.
  wp_step. apply wp_modify. cbv beta. wp_step.
  eapply wp_upd_task; [cbn; by rewrite lookup_insert_eq|]. wp_step.
  pose proof (insert_before_perm p _ _ Hin) as Hperm.
  match goal with |- rq_ok ?y ∧ _ => set (r' := y) end.
  assert (Et : tasks r' = <[p := t']> (tasks r)) by (cbn; by rewrite insert_insert_eq).
  set (r2 := rq_set_arrays (<[a := mk_array (nr_active x + 1) (bitmap x)
    (<[Z.to_nat (prio c) := insert_before p (curr r) q]> (queue x))]> (arrays r1)) r1).
  assert (r' = rq_set_nr_running (nr_running r2 + 1) r2) as Er'.
  { subst r' r2 r1. unfold rq_set_nr_running, rq_set_tasks, rq_set_arrays. cbn.
    by rewrite insert_insert_eq. }
  assert (H2 : core None 1 r2).
  { eapply (core_join 0 r1 a x (Z.to_nat (prio c)) q); [exact H1'|cbn; by rewrite lookup_insert_eq|
      done|cbn; lia|done|done|reflexivity| |done|].
    - eapply arr_ok_insert; [done|done|done|done|]. intros ->. by apply not_elem_of_nil in Hin.
    - intros u. by rewrite Hperm, elem_of_cons. }
  assert (core None 0 r') as H3 by (rewrite Er'; eapply core_count; [exact H2|lia]).
  split_and!; [|done|done]. eapply (rq_ok_upd r r'); [done|done|done|done|exact Et|done|].
  intros _. change (1 <= time_slice t). by eapply (proj2 (proj2 Hr)).
Qed.

Lemma forked_avg_range t pen : 0 <= sleep_avg t <= NS_MAX_SLEEP_AVG → 0 <= pen <= 100 →
  0 <= forked_sleep_avg t pen <= NS_MAX_SLEEP_AVG.
Proof.
  intros H Hp. pose proof (bonus_range t H) as Hb. unfold forked_sleep_avg, JIFFIES_TO_NS.
  change NS_MAX_SLEEP_AVG with 1000000000 in *. change MAX_BONUS with 10 in *.
  change MAX_SLEEP_AVG with 1000. change (1000000000 / HZ) with 1000000.
  set (b := CURRENT_BONUS t * pen / 100).
  assert (0 <= b <= 10) by (subst b; split; [apply Z.div_pos; nia|apply Z.div_le_upper_bound; nia]).
  assert (0 <= b * 1000 / 10 <= 1000) by zdm.
  rewrite wrap32_id by (unfold is_u32; lia). lia.
Qed.

Lemma task_ok_avg v t : 0 <= v <= NS_MAX_SLEEP_AVG → task_ok t → task_ok (set_sleep_avg v t).
Proof. intros ? []. by split. Qed.

(** The parent pays its penalty. *)
Lemma wp_parent_penalty c (r : runqueue) Ψ : rq_ok r → tasks r !! curr r = Some c →
  wp (upd_task (curr r) (λ t, set_sleep_avg (forked_sleep_avg t PARENT_PENALTY) t))
    (λ _ r', rq_ok r' ∧ same_sel r r' ∧
       tasks r' = <[curr r := set_sleep_avg (forked_sleep_avg c PARENT_PENALTY) c]> (tasks r)) Ψ r.
Proof.
  intros Hr Hc. wp_step. split_and!; [|done|done].
  eapply rq_ok_field; [done|done|done|done| |by left|done].
  intros _ Hok. apply task_ok_avg; [|done]. apply forked_avg_range; [apply Hok|by vm_compute].
Qed.

(** The child as [wake_up_new_task] queues it. *)
Definition new_child (t : task_struct) : task_struct :=
  let t1 := set_sleep_avg (forked_sleep_avg t CHILD_PENALTY) t in set_prio (effective_prio t1) t1.

Lemma new_child_ok t : task_ok t → task_ok (new_child t).
Proof.
  intros H. apply task_ok_effective, task_ok_avg; [|done].
  apply forked_avg_range; [apply H|by vm_compute].
Qed.

Lemma wp_enqueue_child p clone_vm t c (r : runqueue) Ψ :
  rq_ok r → tasks r !! p = Some t → array t = None → p ≠ idle r → tasks r !! curr r = Some c →
  (clone_vm = false → array c ≠ None → policy t = policy c) →
  wp (if negb clone_vm then
        _ ← match array c with
            | None => __activate_task p
            | Some a =>
                _ ← upd_task p (set_prio (prio c));
                x ← get_array a;
                q ← get_queue x (prio c);
                if decide (curr r ∈ q) then
                  _ ← put_array a (mk_array (nr_active x + 1) (bitmap x)
                        (<[Z.to_nat (prio c) := insert_before p (curr r) q]> (queue x)));
                  _ ← upd_task p (set_array (Some a));
                  modify (λ r, rq_set_nr_running (nr_running r + 1) r)
                else bug
            end;
        upd_task (curr r) (set_need_resched true)
      else __activate_task p)
    (λ _ r', rq_ok r' ∧ same_sel r r' ∧
       (∃ t', tasks r' !! p = Some t' ∧ array t' ≠ None ∧
          (clone_vm = false → array c ≠ None → prio t' = prio c ∧ array t' = array c)) ∧
       ∃ c', tasks r' !! curr r = Some c') Ψ r.
Proof.
  intros Hr Ht Ha Hid Hc Hpol.
  assert (Hpc : p ≠ curr r).
  { intros E. rewrite E in *. destruct Hr as (_ & [?|(u & ? & ?)] & _); [done|congruence]. }
  pose proof (co_task _ _ _ (proj1 Hr) _ _ Ht Hid) as Hok.
  assert (Hact : wp (__activate_task p) (λ _ r', rq_ok r' ∧ same_sel r r' ∧
    tasks r' = <[p := set_array (Some (active r)) t]> (tasks r)) Ψ r).
  { eapply wp_mono; [eapply wp_activate_raw; [apply Hr|done|done|done]|]. cbv beta.
    intros _ r' (H' & Hs' & E' & _). split_and!; [|done|done].
    eapply (rq_ok_upd r r' p t); [done|done|done|done|exact E'|done|].
    intros _. change (1 <= time_slice t). by eapply (proj2 (proj2 Hr)). }
  destruct clone_vm; cbn [negb].
  { eapply wp_mono; [exact Hact|]. cbv beta. intros _ r' (Hr' & Hs' & E').
    split_and!; [done|done| |]; rewrite E'.
    - eexists. rewrite lookup_insert_eq. by split_and!.
    - rewrite lookup_insert_ne by done. eauto. }
  assert (Hset : ∀ r1 t', rq_ok r1 → same_sel r r1 → tasks r1 = <[p := t']> (tasks r) →
    array t' ≠ None → (array c ≠ None → prio t' = prio c ∧ array t' = array c) →
    wp (upd_task (curr r) (set_need_resched true)) (λ _ r', rq_ok r' ∧ same_sel r r' ∧
       (∃ t', tasks r' !! p = Some t' ∧ array t' ≠ None ∧
          (false = false → array c ≠ None → prio t' = prio c ∧ array t' = array c)) ∧
       ∃ c', tasks r' !! curr r = Some c') Ψ r1).
  { intros r1 t' Hr1 Hs1 E1 Ha' Hp'. pose proof Hs1 as (_ & Ec1 & _).
    assert (Hc1 : tasks r1 !! curr r = Some c) by (by rewrite E1, lookup_insert_ne).
    rewrite <- Ec1 in *. eapply wp_mono; [by eapply wp_resched|]. cbv beta. intros _ r' [Hr' ->].
    split_and!; [done|done| |].
    - exists t'. cbn. rewrite lookup_insert_ne, E1, lookup_insert_eq by done. by split_and!.
    - eexists. cbn. by rewrite lookup_insert_eq. }
  wp_step. destruct (array c) as [a|] eqn:Hac.
  - eapply wp_mono; [eapply (wp_queue_child p a c t); try done|].
    + destruct (core_array_lt _ _ _ _ _ (proj1 Hr) Hc Hac) as [_ Hci].
      pose proof (co_task _ _ _ (proj1 Hr) _ _ Hc Hci) as Hokc.
      pose proof (tk_prio _ Hokc). pose proof (tk_rt _ Hokc) as Hrt. destruct Hok. split; try done.
      cbn [policy set_prio]. rewrite Hpol by done. exact Hrt.
    + cbv beta. intros _ r1 (Hr1 & Hs1 & E1). by eapply Hset.
  - eapply wp_mono; [exact Hact|]. cbv beta. intros _ r1 (Hr1 & Hs1 & E1). by eapply Hset.
Qed.

Lemma wp_wake_up_new_task p clone_vm t c (r : runqueue) Ψ :
  rq_ok r → tasks r !! p = Some t → array t = None → state t = TASK_RUNNING → p ≠ idle r →
  tasks r !! curr r = Some c → (clone_vm = false → array c ≠ None → policy t = policy c) →
  wp (wake_up_new_task p clone_vm) (λ _ r', rq_ok r' ∧ same_sel r r' ∧
    ∃ t', tasks r' !! p = Some t' ∧ array t' ≠ None ∧
      (clone_vm = false → array c ≠ None → prio t' = prio c ∧ array t' = array c)) Ψ r.
Proof.
  intros Hr Ht Ha Hst Hid Hc Hpol.
  assert (Hpc : p ≠ curr r).
  { intros E. rewrite E in *. destruct Hr as (_ & [?|(u & ? & ?)] & _); [done|congruence]. }
  pose proof (co_task _ _ _ (proj1 Hr) _ _ Ht Hid) as Hok.
  unfold wake_up_new_task. do 4 wp_step. rewrite Hst. cbn [Z.eqb TASK_RUNNING negb id].
  apply wp_upd_fuse. do 2 wp_step. change (set_prio _ _) with (new_child t).
  set (r1 := rq_set_tasks (<[p := new_child t]> (tasks r)) r).
  assert (Ht1 : tasks r1 !! p = Some (new_child t)) by (cbn; by rewrite lookup_insert_eq).
  assert (Hc1 : tasks r1 !! curr r1 = Some c) by (cbn; by rewrite lookup_insert_ne).
  assert (Hr1 : rq_ok r1).
  { destruct (core_unqueued _ _ _ _ _ (proj1 Hr) Ht Ha) as [_ H1]; [by left|].
    assert (core None 0 r1).
    { eapply core_unqueued; [eapply core_upd; [exact H1|done| |done|by left]|exact Ht1|done|by right].
      intros _. by apply new_child_ok. }
    eapply (rq_ok_upd r r1 p t); [done|done|done|done|done|done|].
    intros _. change (1 <= time_slice t). by eapply (proj2 (proj2 Hr)). }
  wp_step. eapply wp_get_task; [exact Hc1|]. cbv beta. change (curr r) with (curr r1).
  wp_step. eapply wp_mono; [by eapply (wp_enqueue_child p clone_vm (new_child t) c r1)|]. cbv beta.
  intros _ r2 (Hr2 & Hs2 & (t2 & Ht2 & Ha2 & Hp2) & c2 & Hc2). pose proof Hs2 as (Ei2 & Ec2 & _).
  rewrite <- Ec2 in *. eapply wp_mono; [by eapply wp_parent_penalty|]. cbv beta.
  intros _ r' (Hr' & Hs' & E'). split_and!; [done|by etrans|]. exists t2. rewrite E'.
  rewrite lookup_insert_ne; [done|]. rewrite Ec2. cbn. congruence.
Qed.

(** [release_task]: the descriptor of a task that is on no queue goes away. *)
Lemma rq_ok_delete (r : runqueue) p t : rq_ok r → tasks r !! p = Some t → array t = None →
  p ≠ curr r → p ≠ idle r → rq_ok (rq_set_tasks (delete p (tasks r)) r).
Proof.
  intros (H & Hc & Hs) Ht Ha Hpc Hid. split_and!.
  - split; [apply H|apply H|apply H|apply H| | |]; cbn [tasks rq_set_tasks idle].
    + intros a i q. change (inq _ a i q) with (inq r a i q). rewrite (co_mem _ _ _ H).
      destruct (decide (q = p)) as [->|]; [|by rewrite lookup_delete_ne].
      rewrite lookup_delete_eq. split; intros [_ (u & Hu & ? & ?)]; simplify_eq.
    + intros q u [_ Hq]%lookup_delete_Some ?. by eapply H.
    + rewrite lookup_delete_ne by done. apply H.
  - destruct Hc as [?|Hc]; [by left|right]. cbn. by rewrite lookup_delete_ne.
  - intros q u. cbn. intros [_ Hq]%lookup_delete_Some ?. by eapply Hs.
Qed.

(** What the parent of an exiting child gets. *)
Definition inherited (t q : task_struct) : task_struct :=
  let q1 := if negb (first_time_slice t =? 0) then
              let s := wrap32 (time_slice q + time_slice t) in
              set_time_slice (if task_timeslice t <? s then task_timeslice t else s) q
            else q in
  if sleep_avg t <? sleep_avg q1
  then set_sleep_avg (wrap32 (sleep_avg q1 / (EXIT_WEIGHT + 1) * EXIT_WEIGHT +
                              sleep_avg t / (EXIT_WEIGHT + 1))) q1
  else q1.

Lemma inherited_ok t q : task_ok t → task_ok q → 1 <= time_slice q →
  task_ok (inherited t q) ∧ 1 <= time_slice (inherited t q).
Proof.
  intros Ht Hq Hs. pose proof (tk_slice _ Ht). pose proof (tk_slice _ Hq).
  pose proof (timeslice_range _ Ht). pose proof (tk_avg _ Ht). unfold inherited. cbv zeta.
  set (q1 := if negb _ then _ else _).
  assert (task_ok q1 ∧ 1 <= time_slice q1) as [Hq1 Hs1].
  { subst q1. destruct (negb _); [|done]. rewrite wrap32_id by (unfold is_u32; lia).
    split; [apply task_ok_slice; [|done]|cbn]; case_zb; lia. }
  pose proof (tk_avg _ Hq1). change NS_MAX_SLEEP_AVG with 1000000000 in *. case_zb; [|done].
  split; [apply task_ok_avg; [|done]|done]. change (EXIT_WEIGHT + 1) with 4. change EXIT_WEIGHT with 3.
  change NS_MAX_SLEEP_AVG with 1000000000.
  assert (0 <= sleep_avg q1 / 4 * 3 + sleep_avg t / 4 <= 1000000000) by zdm.
  rewrite wrap32_id; [done|]. unfold is_u32. lia.
Qed.

Lemma inherited_frame t q : array (inherited t q) = array q ∧ prio (inherited t q) = prio q ∧
  state (inherited t q) = state q ∧ pf_dead (inherited t q) = pf_dead q.
Proof. unfold inherited. destruct (negb _); cbv zeta; by case_zb. Qed.

Lemma wp_sched_exit p t q (r : runqueue) Ψ :
  rq_ok r → tasks r !! p = Some t → p ≠ idle r → tasks r !! parent t = Some q →
  wp (sched_exit p) (λ _ r', rq_ok r' ∧
    r' = rq_set_tasks (<[parent t := inherited t q]> (tasks r)) r) Ψ r.
Proof.
  intros Hr Ht Hid Hq. unfold sched_exit. do 2 wp_step.
  destruct (inherited_frame t q) as (Ea & Ep & Est & Ed).
  pose proof (co_task _ _ _ (proj1 Hr) _ _ Ht Hid) as Hok.
  assert (Hfin : rq_ok (rq_set_tasks (<[parent t := inherited t q]> (tasks r)) r)).
  { eapply rq_ok_field; [done|done|done|done| |by left|].
    - intros Hpi Hqo. apply inherited_ok; [done|done|]. by eapply (proj2 (proj2 Hr)).
    - intros Hpi Hs. apply inherited_ok; [done| |done]. by eapply (proj1 Hr). }
  wp_step. apply wp_when; intros E; unfold inherited in *; rewrite E in *.
  - wp_step. eapply wp_upd_task; [cbn; by rewrite lookup_insert_eq|]. cbv zeta in *. rewrite upd_upd. done.
  - wp_step. done.
Qed.

(** ** Sequences of operations *)

(** What the rest of the kernel calls. *)
Inductive sched_op :=
| Tick (clock jiffies : Z)                              (* timer interrupt *)
| Wake (p wake_state : Z) (sync : bool) (clock : Z) (irq : bool)
| Schedule (clock : Z) (preempt : bool)
| Fork (p clock jiffies : Z)                            (* copy_process *)
| StartChild (p : Z) (clone_vm : bool)                  (* end of do_fork *)
| Reap (p : Z)                                          (* release_task *)
| SetNice (p nice : Z)
| SysNice (cap : bool) (increment : Z)
| SetScheduler (cap : bool) (p pol pr : Z)
| Yield
| SetState (s : Z)                                      (* set_current_state *)
| Signal (p : Z) (pending : bool).

Definition set_sigpending (b : bool) (t : task_struct) : task_struct :=
  mk_task (prio t) (static_prio t) (sleep_avg t) (time_slice t) (first_time_slice t)
    (timestamp t) (last_ran t) (activated t) (policy t) (rt_priority t) (state t)
    (array t) (has_mm t) (need_resched t) (pf_dead t) b (uid t) (euid t) (parent t).

Definition exec (o : sched_op) : SM runqueue Z :=
  match o with
  | Tick clock jiffies => _ ← scheduler_tick clock jiffies; mret 0
  | Wake p ws sync clock irq => try_to_wake_up p ws sync clock irq
  | Schedule clock preempt => schedule clock preempt
  | Fork p clock jiffies => _ ← dup_task p; _ ← sched_fork p clock jiffies; mret 0
  | StartChild p clone_vm => _ ← wake_up_new_task p clone_vm; mret 0
  | Reap p => _ ← sched_exit p; _ ← modify (λ r, rq_set_tasks (delete p (tasks r)) r); mret 0
  | SetNice p nice => _ ← set_user_nice p nice; mret 0
  | SysNice cap inc => sys_nice cap inc
  | SetScheduler cap p pol pr => sched_setscheduler cap p pol pr
  | Yield => _ ← sched_yield; mret 0
  | SetState s => r ← gets id; _ ← upd_task (curr r) (set_state s); mret 0
  | Signal p b => _ ← upd_task p (set_sigpending b); mret 0
  end.

(** What the callers owe: the tasks named exist, a new child is started once and with its
    parent's policy, only dead tasks are reaped, and idle makes no system call. *)
Definition op_pre (o : sched_op) (r : runqueue) : Prop :=
  match o with
  | Tick _ _ | Schedule _ _ => True
  | Wake p _ _ _ _ | Signal p _ => is_Some (tasks r !! p)
  | Fork p _ _ => tasks r !! p = None ∧ curr r ≠ idle r
  | StartChild p clone_vm => p ≠ idle r ∧ ∃ t c, tasks r !! p = Some t ∧ array t = None ∧
      state t = TASK_RUNNING ∧ tasks r !! curr r = Some c ∧ policy t = policy c
  | Reap p => p ≠ idle r ∧ p ≠ curr r ∧ ∃ t, tasks r !! p = Some t ∧ array t = None ∧
      parent t ≠ p ∧ is_Some (tasks r !! parent t)
  | SetNice p _ | SetScheduler _ p _ _ => p ≠ idle r ∧ is_Some (tasks r !! p)
  | SysNice _ _ | Yield | SetState _ => curr r ≠ idle r
  end.

Lemma wp_then_0 (m : SM runqueue unit) (Φ : runqueue → Prop) Ψ r :
  wp m (λ _ r', Φ r') Ψ r → wp (_ ← m; mret 0) (λ _ r', Φ r') Ψ r.
Proof. intros H. wp_step. eapply wp_mono; [exact H|]. done. Qed.

Lemma reniced_rq_ok r p t nice r' : rq_ok r →
  (if nice_changes t nice then reniced_state r p t nice r' else r' = r) → rq_ok r'.
Proof. intros H. destruct (nice_changes t nice); [by intros (? & _)|by intros ->]. Qed.

(** Every operation keeps the invariant, also when it returns an error, and none stops
    in [Bug]. *)
Lemma exec_ok o r : rq_ok r → op_pre o r → wp (exec o) (λ _ r', rq_ok r') (λ _ r', rq_ok r') r.
Proof.
  intros Hr Hpre. destruct (curr_task _ Hr) as [c Hc]. destruct o; cbn [exec op_pre] in *.
  - apply wp_then_0. eapply wp_post; [by eapply wp_tick|]. by intros _ r' (? & _).
  - destruct Hpre as [t Ht]. eapply wp_post; [by eapply wp_try_to_wake_up|]. by intros _ r' (? & _).
  - destruct (schedule_spec clock preempt c r Hr Hc) as (r1 & next & r' & _ & _ & E & Hr' & _).
    unfold wp. by rewrite E.
  - destruct Hpre as [Hp Hid]. pose proof (wp_sched_fork p clock jiffies c r (λ _ _, False) Hr Hp Hc Hid) as H.
    apply wp_bind_inv in H. wp_step. eapply wp_mono; [apply wp_noerr; exact H|]. intros [] r1 H1.
    apply wp_then_0. eapply wp_post; [exact H1|]. by intros _ r' (? & _).
  - destruct Hpre as (Hid & t & c' & Ht & Ha & Hs & Hc' & Hpol). simplify_eq.
    apply wp_then_0. eapply wp_post; [by eapply wp_wake_up_new_task|]. by intros _ r' (? & _).
  - destruct Hpre as (Hid & Hpc & t & Ht & Ha & Hpar & [q Hq]).
    wp_step. eapply wp_mono; [apply wp_noerr; by eapply wp_sched_exit|]. cbv beta. intros _ r1 [Hr1 ->].
    do 3 wp_step. eapply rq_ok_delete; [done|cbn; by rewrite lookup_insert_ne|done|done|done].
  - destruct Hpre as (Hid & t & Ht). apply wp_then_0. eapply wp_post; [by eapply wp_set_user_nice|].
    intros [] r' H. by eapply reniced_rq_ok.
  - pose proof (wp_sys_nice cap increment c r Hr Hc Hpre) as H. unfold wp in *.
    destruct (sys_nice cap increment r) as [[a|e|] r']; [|by destruct H as (_ & -> & _)|done].
    destruct H as (_ & _ & H). by eapply reniced_rq_ok.
  - destruct Hpre as (Hid & t & Ht). pose proof (wp_sched_setscheduler cap p pol pr t c r Hr Ht Hid Hc) as H.
    unfold wp in *. destruct (sched_setscheduler cap p pol pr r) as [[a|e|] r']; [|by destruct H as [-> _]|done].
    by destruct H as (_ & [? _] & _).
  - apply wp_then_0. eapply wp_post; [by eapply wp_sched_yield|]. by intros _ r' (? & _).
  - do 5 wp_step. by apply rq_ok_set_state.
  - destruct Hpre as [t Ht]. do 3 wp_step. eapply rq_ok_field; [done|done|done|done| |by left|done].
    intros _ []. by split.
Qed.

Definition sched_step (r r' : runqueue) : Prop := ∃ o, op_pre o r ∧ (exec o r).2 = r'.

(** The run queue [sched_init] sets up: empty arrays, and only the idle task. *)
Definition boot_idle : task_struct :=
  mk_task MAX_PRIO (MAX_PRIO - 20) 0 100 0 0 0 0 SCHED_NORMAL 0 TASK_RUNNING None
    false true false false 0 0 0.
Definition boot_rq : runqueue :=
  mk_rq 0 0 0 0 0 0 0 0 1 [empty_array; empty_array] MAX_PRIO {[0 := boot_idle]}.

Lemma empty_array_ok : arr_ok empty_array.
Proof.
  assert (Hz : bm_ok (replicate 5 0)) by (split; [done|by repeat constructor]).
  split; [done|by apply bm_set|done| |by vm_compute|].
  - intros i q Hi. apply lookup_replicate in Hi as [-> Hi]. rewrite bool_decide_false by auto.
    cbn [empty_array bitmap]. rewrite bit_set by (done || lia). change MAX_PRIO with 140 in *.
    destruct (Z.eqb_spec 140 (Z.of_nat i)); [lia|]. unfold bit, word. cbn [orb].
    destruct (replicate 5 0 !! _) eqn:E; [|apply Z.bits_0].
    apply lookup_replicate in E as [-> _]. apply Z.bits_0.
  - intros i q Hi. apply lookup_replicate in Hi as [-> _]. constructor.
Qed.

Lemma boot_task p t : tasks boot_rq !! p = Some t → p = 0 ∧ t = boot_idle.
Proof. unfold boot_rq. cbn [tasks]. intros [<- <-]%lookup_singleton_Some. done. Qed.

Lemma boot_ok : rq_ok boot_rq.
Proof.
  split_and!; [|by left|].
  - pose proof empty_array_ok.
    split; [done|by apply Forall_cons; rewrite Forall_singleton|by left|done| | |].
    + intros a i p. split.
      * intros (x & q & Hx & Hq & Hin). exfalso.
        assert (x = empty_array) as -> by (destruct a as [|[|]]; by simplify_eq/=).
        apply lookup_replicate in Hq as [-> _]. by apply not_elem_of_nil in Hin.
      * intros [_ (t & Ht & Ha & _)]. by apply boot_task in Ht as [_ ->].
    + intros p t Ht Hp. by apply boot_task in Ht as [-> _].
    + by exists boot_idle.
  - intros p t Ht Hp. by apply boot_task in Ht as [-> _].
Qed.

End SchedOps.
