(* ===== verification/SchedTheorems.v ===== *)
(** * Theorems on the scheduler: the properties of kernel/sched.c

    What the lemmas of SchedFacts, RunqueueFacts, SchedSafety and SchedOps add up
    to, with runs of a small system on which the hypotheses hold. *)

From stdpp Require Import prelude numbers list gmap relations.
From Stdlib Require Import ZArith Lia.
From S2P Require Import Prelude Bitops Sched SchedFacts RunqueueFacts SchedSafety SchedOps.

#[local] Set Default Goal Selector "!".
#[local] Open Scope Z_scope.

Module SchedTheorems.
Import Sched SchedPrio Runqueue SchedSafety SchedTick SchedOps.

(** ** A small system: idle, a running task 1, a sleeping task 2, a new task 3 *)

Definition demo_task (nice st : Z) : task_struct :=
  mk_task (NICE_TO_PRIO nice) (NICE_TO_PRIO nice) 500000000 100 0 0 0 0 SCHED_NORMAL 0 st None
    true false false false 7 7 1.

Lemma demo_task_ok nice st : -20 <= nice <= 19 → task_ok (demo_task nice st).
Proof.
  intros H. unfold NICE_TO_PRIO in *. split; cbn; unfold NICE_TO_PRIO; rewrite ?Z.ltb_lt;
    change MAX_PRIO with 140; change MAX_RT_PRIO with 100; change NS_MAX_SLEEP_AVG with 1000000000;
    try lia. unfold rt_task. cbn. unfold NICE_TO_PRIO. change MAX_RT_PRIO with 100.
  rewrite Z.ltb_lt. split; [lia|done].
Qed.

Definition demo0 : runqueue :=
  let add p t (r : runqueue) := rq_set_tasks (<[p := t]> (tasks r)) r in
  add 3 (demo_task 0 TASK_RUNNING) (add 2 (demo_task (-5) TASK_INTERRUPTIBLE)
    (add 1 (demo_task 0 TASK_RUNNING) boot_rq)).

Lemma demo0_ok : rq_ok demo0.
Proof.
  unfold demo0. repeat apply rq_ok_add; try done; try (by apply demo_task_ok); apply boot_ok.
Qed.

(** Task 1 is started and chosen by [schedule]. *)
Definition demo : runqueue := (exec (Schedule 2000 false) (exec (StartChild 1 true) demo0).2).2.

Lemma exec_state_ok o r : rq_ok r → op_pre o r → rq_ok (exec o r).2.
Proof.
  intros H Hp. pose proof (exec_ok o r H Hp) as Hw. unfold wp in Hw.
  by destruct (exec o r) as [[?|?|] r'].
Qed.

Lemma demo_ok : rq_ok demo.
Proof.
  apply exec_state_ok; [|done]. apply exec_state_ok; [apply demo0_ok|].
  split; [done|]. exists (demo_task 0 TASK_RUNNING), boot_idle. by vm_compute.
Qed.

Definition demo_curr : task_struct :=
  Eval vm_compute in default boot_idle (tasks demo !! 1).
Lemma demo_curr_eq : tasks demo !! curr demo = Some demo_curr ∧ curr demo = 1 ∧ idle demo = 0.
Proof. by vm_compute. Qed.

(** ** Safety *)

(** C6: Consistency of the scheduler.  From any consistent run queue, whatever sequence of
    ticks, wake-ups, context switches, forks, exits, nice and policy changes, yields and
    signals follows, the run queue stays consistent: each priority array's bitmap and
    counter agree with its queues, a task is on exactly the queue its descriptor names and
    on no other, [nr_running] counts the queued tasks, the current task is idle or queued,
    priorities, sleep averages and time slices stay in range; and no further operation
    hits a [BUG()] or an access outside an array. *)
Theorem sched_trace_safe r0 r :
  rq_ok r0 → rtc sched_step r0 r →
  rq_ok r ∧ ∀ o, op_pre o r → (exec o r).1 ≠ Bug ∧ rq_ok (exec o r).2.
Proof.
  intros H0 Hr. assert (rq_ok r) as H.
  { induction Hr as [|a b c (o & Hp & <-) _ IH]; [done|]. by apply IH, exec_state_ok. }
  split; [done|]. intros o Hp. split; [|by apply exec_state_ok].
  pose proof (exec_ok o r H Hp) as Hw. unfold wp in Hw. by destruct (exec o r) as [[?|?|] r'].
Qed.

Lemma sched_trace_safe_witness :
  rq_ok (exec (Tick 3000 5) demo).2 ∧ ∀ o, op_pre o (exec (Tick 3000 5) demo).2 →
    (exec o (exec (Tick 3000 5) demo).2).1 ≠ Bug ∧ rq_ok (exec o (exec (Tick 3000 5) demo).2).2.
Proof.
  apply (sched_trace_safe demo); [apply demo_ok|]. apply rtc_once. by exists (Tick 3000 5).
Defined.

(** C7: [schedule] picks the right task.  It takes the outgoing task off its queue exactly
    when that task goes to sleep ([outgoing]); it switches to idle exactly when no task is
    runnable; otherwise to the first task of the best non-empty priority of the active
    array, or of the expired array when the active one is empty: no task in that array has
    a better priority.  The run queue is consistent afterwards. *)
Theorem schedule_picks_best clock preempt t r :
  rq_ok r → tasks r !! curr r = Some t →
  ∃ r1 next r',
    schedule_out (curr r) preempt r = (Ok tt, r1) ∧
    tasks r1 = <[curr r := outgoing preempt t]> (tasks r) ∧
    schedule clock preempt r = (Ok next, r') ∧
    rq_ok r' ∧ curr r' = next ∧
    (nr_running r1 = 0 → next = idle r ∧ ∀ q u, tasks r1 !! q = Some u → array u = None) ∧
    (nr_running r1 ≠ 0 → next ≠ idle r ∧
       (∃ x, arrays r1 !! busy_array r1 = Some x ∧ is_first x next) ∧
       ∃ u, tasks r1 !! next = Some u ∧ array u = Some (busy_array r1) ∧
         ∀ q v, tasks r1 !! q = Some v → array v = Some (busy_array r1) → prio u <= prio v).
Proof.
  intros Hr Ht. destruct (schedule_spec clock preempt t r Hr Ht)
    as (r1 & next & r' & ? & ? & ? & ? & ? & _ & ? & ?).
  by exists r1, next, r'.
Qed.

Lemma schedule_picks_best_witness : ∃ r1 next r',
  schedule_out (curr demo) false demo = (Ok tt, r1) ∧ schedule 5000 false demo = (Ok next, r') ∧
  rq_ok r' ∧ curr r' = next.
Proof.
  destruct (schedule_picks_best 5000 false demo_curr demo demo_ok (proj1 demo_curr_eq))
    as (r1 & next & r' & H1 & _ & H2 & H3 & H4 & _).
  exact (ex_intro _ r1 (ex_intro _ next (ex_intro _ r' (conj H1 (conj H2 (conj H3 H4)))))).
Defined.

(** Task 1 at the last tick of its slice, task 3 waiting. *)
Definition demo_last : runqueue :=
  let r := (exec (StartChild 3 true) demo).2 in
  rq_set_tasks (<[1 := set_time_slice 1 demo_curr]> (tasks r)) r.

Lemma demo_last_ok : rq_ok demo_last.
Proof.
  apply (rq_ok_set_slice (exec (StartChild 3 true) demo).2 1 demo_curr 1); [|vm_compute; reflexivity|lia].
  apply exec_state_ok; [apply demo_ok|]. split; [by vm_compute|]. exists (demo_task 0 TASK_RUNNING), demo_curr. by vm_compute.
Qed.

Lemma demo_last_curr : tasks demo_last !! curr demo_last = Some (set_time_slice 1 demo_curr).
Proof. by vm_compute. Qed.
Lemma demo_last_lines : (expiring demo_last (set_time_slice 1 demo_curr), line demo_last 0 (prio demo_curr), line demo_last 1 (prio demo_curr)) = (true, [1; 3], []).
Proof. by vm_compute. Qed.

(** C36: The timer tick never fails, keeps the run queue sound and changes nothing of the other
    tasks.  The task in charge loses a tick of its slice, or gets a fresh slice and is marked
    for rescheduling when the slice is used up ([task_ticked]); idle, a task that is no
    longer in the active array and a FIFO task are not charged.  The queues ([queues_ticked])
    change in just two ways: a round-robin task whose slice ends, or an interactive one at
    the end of a piece of its slice, goes from its place to the end of its own queue, all
    others keeping their order; a normal task whose slice ends goes to the end of the queue
    of its new priority, in the expired array, or in the active one if it is interactive and
    nobody starves in the expired array.  The time since the first expiry and the best
    priority among the expired tasks are kept up at these moments, and at no others. *)
Theorem scheduler_tick_correct clock jiffies t r :
  rq_ok r → tasks r !! curr r = Some t →
  ∃ r' t', scheduler_tick clock jiffies r = (Ok tt, r') ∧ rq_ok r' ∧
    (idle r', curr r', active r', expired r') = (idle r, curr r, active r, expired r) ∧
    tasks r' = <[curr r := t']> (tasks r) ∧ task_ticked jiffies r t t' ∧ queues_ticked clock jiffies t r r'.
Proof.
  intros Hr Ht. pose proof (wp_tick clock jiffies t r (λ _ _, False) Hr Ht) as H.
  apply wp_ok in H as ([] & r' & E & Hr' & (Hi & Hc & Ha & He) & Et).
  pose proof (post_tick clock jiffies t r Hr Ht) as Hq. unfold post in Hq. rewrite E in Hq.
  eexists r', _. split_and!; [done|done|congruence| |apply ticked_spec|done].
  destruct (curr r =? idle r); [by rewrite insert_id|done].
Qed.

Lemma scheduler_tick_correct_witness : ∃ r' t',
  scheduler_tick 3000 5 demo_last = (Ok tt, r') ∧ rq_ok r' ∧ queues_ticked 3000 5 (set_time_slice 1 demo_curr) demo_last r' ∧
  task_ticked 5 demo_last (set_time_slice 1 demo_curr) t' ∧
  (expiring demo_last (set_time_slice 1 demo_curr), line demo_last 0 (prio demo_curr), line demo_last 1 (prio demo_curr)) = (true, [1; 3], []).
Proof.
  destruct (scheduler_tick_correct 3000 5 (set_time_slice 1 demo_curr) demo_last demo_last_ok
    demo_last_curr) as (r' & t' & H1 & H2 & _ & _ & H3 & H4).
  exact (ex_intro _ r' (ex_intro _ t' (conj H1 (conj H2 (conj H4 (conj H3 demo_last_lines)))))).
Defined.

(** ** Wake-up *)

(** A wake-up.  A task whose state does not match is left alone; a task that is still
    queued is only made runnable; a sleeping task is put on the active array with its
    priority recomputed from its sleep, [nr_running] grows by one, and the current task
    is marked for rescheduling when the wake-up is not synchronous and the woken task has
    the better priority. *)
Theorem try_to_wake_up_correct p t ws sync clock irq r :
  rq_ok r → tasks r !! p = Some t →
  ∃ res r', try_to_wake_up p ws sync clock irq r = (Ok res, r') ∧ rq_ok r' ∧
    if Z.land (state t) ws =? 0 then res = 0 ∧ r' = r else
    match array t with
    | Some a => res = 0 ∧ r' = rq_set_tasks (<[p := set_state TASK_RUNNING t]> (tasks r)) r
    | None => res = 1 ∧ nr_running r' = nr_running r + 1 ∧
        let t' := set_state TASK_RUNNING (activated_task clock irq (active r) (woken t)) in
        tasks r' !! p = Some t' ∧ (∀ u, u ≠ p → u ≠ curr r → tasks r' !! u = tasks r !! u) ∧
        ∃ c, tasks r !! curr r = Some c ∧
          tasks r' !! curr r = Some (if negb sync && (prio t' <? prio c)
                                     then set_need_resched true c else c)
    end.
Proof.
  intros Hr Ht. pose proof (wp_try_to_wake_up p t ws sync clock irq r (λ _ _, False) Hr Ht) as H.
  apply wp_ok in H as (res & r' & E & Hr' & Hp). exists res, r'. by split_and!.
Qed.

Lemma try_to_wake_up_correct_witness : ∃ res r',
  try_to_wake_up 2 TASK_INTERRUPTIBLE false 9000 true demo = (Ok res, r') ∧ res = 1 ∧ rq_ok r'.
Proof.
  destruct (try_to_wake_up_correct 2 (demo_task (-5) TASK_INTERRUPTIBLE) TASK_INTERRUPTIBLE false
    9000 true demo demo_ok) as (res & r' & E & Hr & Hres & _); [by vm_compute|].
  exact (ex_intro _ res (ex_intro _ r' (conj E (conj Hres Hr)))).
Defined.

(** ** Nice values and policies *)

(** The nice system call.  Raising one's priority without CAP_SYS_NICE fails with EPERM and
    changes nothing; otherwise the current task's nice value becomes the sum, clamped to
    -20 .. 19, its priority follows unless it is a real-time task, and other tasks keep
    everything but possibly the reschedule flag. *)
Theorem sys_nice_correct cap inc c r :
  rq_ok r → tasks r !! curr r = Some c → curr r ≠ idle r →
  let nice := Z.min 19 (Z.max (-20) (TASK_NICE c + Z.min 40 (Z.max (-40) inc))) in
  (inc < 0 ∧ cap = false ∧ sys_nice cap inc r = (Err EPERM, r)) ∨
  ((inc < 0 → cap = true) ∧ ∃ r', sys_nice cap inc r = (Ok 0, r') ∧
     if nice_changes c nice then reniced_state r (curr r) c nice r' else r' = r).
Proof.
  intros Hr Hc Hid nice. pose proof (wp_sys_nice cap inc c r Hr Hc Hid) as H. cbv zeta in H.
  fold nice in H. unfold wp in H. destruct (sys_nice cap inc r) as [[res|e|] r'] eqn:E; [| |done].
  - right. destruct H as (-> & ? & ?). split; [done|]. by exists r'.
  - left. destruct H as (-> & -> & ? & ?). done.
Qed.

Lemma sys_nice_correct_witness :
  (5 < 0 ∧ false = false ∧ sys_nice false 5 demo = (Err EPERM, demo)) ∨
  ((5 < 0 → false = true) ∧ ∃ r', sys_nice false 5 demo = (Ok 0, r') ∧
     if nice_changes demo_curr 5 then reniced_state demo (curr demo) demo_curr 5 r' else r' = demo).
Proof.
  apply (sys_nice_correct false 5 demo_curr demo demo_ok (proj1 demo_curr_eq)).
  destruct demo_curr_eq as (_ & -> & ->). done.
Defined.

(** sched_setscheduler.  On an error (EINVAL or EPERM) nothing changes.  On success the
    task has the policy and the priority asked for (99 - priority for real-time policies,
    the static priority for the normal one) and is queued exactly if it was; and without
    CAP_SYS_NICE this only happens for the normal policy and a task of the caller's user. *)
Theorem sched_setscheduler_correct cap p pol0 pr t c r :
  rq_ok r → tasks r !! p = Some t → p ≠ idle r → tasks r !! curr r = Some c →
  let pol := if pol0 <? 0 then policy t else pol0 in
  (∃ e, (e = EINVAL ∨ e = EPERM) ∧ sched_setscheduler cap p pol0 pr r = (Err e, r)) ∨
  (∃ r', sched_setscheduler cap p pol0 pr r = (Ok 0, r') ∧ policed_state r p pol pr t r' ∧
     (cap = false → pol = SCHED_NORMAL ∧ (euid c = euid t ∨ euid c = uid t))).
Proof.
  intros Hr Ht Hid Hc pol. pose proof (wp_sched_setscheduler cap p pol0 pr t c r Hr Ht Hid Hc) as H.
  cbv zeta in H. fold pol in H. unfold wp in H.
  destruct (sched_setscheduler cap p pol0 pr r) as [[res|e|] r'] eqn:E; [| |done].
  - right. destruct H as (-> & ? & ?). by exists r'.
  - left. destruct H as (-> & ?). by exists e.
Qed.

Lemma sched_setscheduler_correct_witness :
  (∃ e, (e = EINVAL ∨ e = EPERM) ∧ sched_setscheduler true 1 SCHED_FIFO 50 demo = (Err e, demo)) ∨
  (∃ r', sched_setscheduler true 1 SCHED_FIFO 50 demo = (Ok 0, r') ∧
     policed_state demo 1 SCHED_FIFO 50 demo_curr r' ∧
     (true = false → SCHED_FIFO = SCHED_NORMAL ∧
        (euid demo_curr = euid demo_curr ∨ euid demo_curr = uid demo_curr))).
Proof.
  apply (sched_setscheduler_correct true 1 SCHED_FIFO 50 demo_curr demo_curr demo demo_ok);
    destruct demo_curr_eq as (E & E1 & E0); rewrite ?E1, ?E0 in *; done.
Defined.

(** ** Fork *)

(** A fork shares the parent's time slice: the child gets half of it, rounded up, the
    parent keeps the rest, so that a slice of two ticks or more is neither lost nor
    multiplied; a parent left without ticks goes through the tick at once and has a fresh
    slice or at least one tick.  The child is not queued yet. *)
Theorem fork_shares_slice p clock jiffies c r :
  rq_ok r → tasks r !! p = None → tasks r !! curr r = Some c → curr r ≠ idle r →
  ∃ r', (_ ← dup_task p; sched_fork p clock jiffies) r = (Ok tt, r') ∧ rq_ok r' ∧
    tasks r' !! p = Some (forked_child clock c) ∧
    ∃ c', tasks r' !! curr r = Some c' ∧
      (2 <= time_slice c → time_slice c' + time_slice (forked_child clock c) = time_slice c) ∧
      1 <= time_slice c'.
Proof.
  intros Hr Hp Hc Hid. pose proof (wp_sched_fork p clock jiffies c r (λ _ _, False) Hr Hp Hc Hid) as H.
  apply wp_ok in H as ([] & r' & E & Hr' & _ & Hch & Hpar). by exists r'.
Qed.

Lemma fork_shares_slice_witness :
  ∃ r', (_ ← dup_task 9; sched_fork 9 4000 5) demo = (Ok tt, r') ∧ rq_ok r' ∧
    tasks r' !! 9 = Some (forked_child 4000 demo_curr) ∧
    ∃ c', tasks r' !! curr demo = Some c' ∧
      (2 <= time_slice demo_curr →
         time_slice c' + time_slice (forked_child 4000 demo_curr) = time_slice demo_curr) ∧
      1 <= time_slice c'.
Proof.
  apply (fork_shares_slice 9 4000 5 demo_curr demo demo_ok); [by vm_compute|apply demo_curr_eq|].
  destruct demo_curr_eq as (_ & -> & ->). done.
Defined.

End SchedTheorems.
