(* ===== verification/Ipc.v ===== *)
(** * System V IPC identifiers (ipc/util.c)

    The identifier arrays that semaphores, message queues and shared memory share:
    a growing array of objects, a sequence counter that makes identifiers of
    different objects in the same slot differ, and the permission check.  The
    objects are abstract: a client gives its type with an instance of
    [IpcObject], the embedded [kern_ipc_perm] (the C code's first member).

    [ids->sem] and the object's lock are held by the callers, so each function is
    one step.  Allocations succeed or fail by argument.  Identifiers are not
    negative: the system calls check that. *)

From stdpp Require Import prelude numbers list gmap.
From Stdlib Require Import ZArith Lia.
From S2P Require Import Prelude.

#[local] Set Default Goal Selector "!".
#[local] Open Scope Z_scope.

Module Ipc.

Definition IPCMNI : Z := 32768.
Definition SEQ_MULTIPLIER : Z := IPCMNI.
Definition USHRT_MAX : Z := 0xffff.
Definition INT_MAX : Z := 2 ^ 31 - 1.
(** 0444, 0222 and 0777. *)
Definition S_IRUGO : Z := 0x124.
Definition S_IWUGO : Z := 0x92.
Definition S_IRWXUGO : Z := 0x1ff.

Record kern_ipc_perm := mk_perm {
  deleted : bool;
  key : Z;
  uid : Z;
  gid : Z;
  cuid : Z;
  cgid : Z;
  mode : Z;
  seq : Z
}.

(** What an object stored in an identifier array provides. *)
Class IpcObject (A : Type) := {
  perm : A → kern_ipc_perm;
  with_perm : kern_ipc_perm → A → A;
  perm_with : ∀ p x, perm (with_perm p x) = p
}.

(** The caller's credentials, as far as IPC asks for them. *)
Record cred := mk_cred {
  euid : Z;
  egid : Z;
  in_group_p : Z → bool;
  cap_ipc_owner : bool;          (* capable(CAP_IPC_OWNER) *)
  cap_sys_admin : bool           (* capable(CAP_SYS_ADMIN) *)
}.

Record ipc_ids (A : Type) := mk_ids {
  in_use : Z;
  max_id : Z;
  ids_seq : Z;
  seq_max : Z;
  entries : list (option A)      (* entries->p, of length entries->size *)
}.
Arguments mk_ids {A} _ _ _ _ _.
Arguments in_use {A} _.
Arguments max_id {A} _.
Arguments ids_seq {A} _.
Arguments seq_max {A} _.
Arguments entries {A} _.

Section ids.
Context {A : Type} `{!IpcObject A}.
Implicit Types (ids : ipc_ids A) (x : A).

Definition ipc_init_ids (size : Z) (alloc : bool) : ipc_ids A :=
  let size := if IPCMNI <? size then IPCMNI else size in
  let seq_limit := INT_MAX / SEQ_MULTIPLIER in
  let seq_max := if USHRT_MAX <? seq_limit then USHRT_MAX else seq_limit in
  mk_ids 0 (-1) 0 seq_max (replicate (if alloc then Z.to_nat size else 0) None).

(** The loop from [id] over the next [n] entries. *)
Fixpoint findkey_from (l : list (option A)) (k : Z) (n id : nat) : outcome Z :=
  match n with
  | O => Ok (-1)
  | S n =>
      match l !! id with
      | None => Bug
      | Some None => findkey_from l k n (S id)
      | Some (Some p) => if k =? key (perm p) then Ok (Z.of_nat id) else findkey_from l k n (S id)
      end
  end.
Definition ipc_findkey ids (k : Z) : outcome Z :=
  findkey_from (entries ids) k (Z.to_nat (max_id ids + 1)) 0.

(** The new array and the size [ipc_addid] may use. *)
Definition grow_ary ids (newsize : Z) (alloc : bool) : ipc_ids A * Z :=
  let size := Z.of_nat (length (entries ids)) in
  let newsize := if IPCMNI <? newsize then IPCMNI else newsize in
  if newsize <=? size then (ids, newsize)
  else if negb alloc then (ids, size)
  else (mk_ids (in_use ids) (max_id ids) (ids_seq ids) (seq_max ids)
          (entries ids ++ replicate (Z.to_nat (newsize - size)) None), newsize).

(** The first free slot among the next [n] from [id]. *)
Fixpoint free_slot (l : list (option A)) (n id : nat) : outcome (option nat) :=
  match n with
  | O => Ok None
  | S n =>
      match l !! id with
      | None => Bug
      | Some None => Ok (Some id)
      | Some (Some _) => free_slot l n (S id)
      end
  end.

(** [None] stands for -1. *)
Definition ipc_addid ids (new : A) (size : Z) (alloc : bool) (c : cred)
    : outcome (option (Z * A) * ipc_ids A) :=
  let '(ids, size) := grow_ary ids size alloc in
  slot ← free_slot (entries ids) (Z.to_nat size) 0;
  match slot with
  | None => Ok (None, ids)
  | Some id =>
      let p := perm new in
      let new := with_perm (mk_perm false (key p) (euid c) (egid c) (euid c) (egid c) (mode p)
                              (ids_seq ids)) new in
      let next := wrap16 (ids_seq ids + 1) in
      Ok (Some (Z.of_nat id, new),
          mk_ids (in_use ids + 1) (if max_id ids <? Z.of_nat id then Z.of_nat id else max_id ids)
            (if seq_max ids <? next then 0 else next) (seq_max ids)
            (<[id := Some new]> (entries ids)))
  end.

(** The largest used index below [n], or -1. *)
Fixpoint last_used (l : list (option A)) (n : nat) : outcome Z :=
  match n with
  | O => Ok (-1)
  | S n =>
      match l !! n with
      | None => Bug
      | Some None => last_used l n
      | Some (Some _) => Ok (Z.of_nat n)
      end
  end.

Definition lid (id : Z) : Z := Z.rem id SEQ_MULTIPLIER.

Definition ipc_rmid ids (id : Z) : outcome (A * ipc_ids A) :=
  let l := lid id in
  if (l <? 0) || (Z.of_nat (length (entries ids)) <=? l) then Bug else
  match entries ids !! Z.to_nat l with
  | None | Some None => Bug
  | Some (Some p) =>
      let ents := <[Z.to_nat l := None]> (entries ids) in
      m ← (if l =? max_id ids then last_used ents (Z.to_nat l) else Ok (max_id ids));
      let q := perm p in
      Ok (with_perm (mk_perm true (key q) (uid q) (gid q) (cuid q) (cgid q) (mode q) (seq q)) p,
          mk_ids (in_use ids - 1) m (ids_seq ids) (seq_max ids) ents)
  end.

Definition ipc_get ids (id : Z) : option A :=
  let l := lid id in
  if (l <? 0) || (Z.of_nat (length (entries ids)) <=? l) then None
  else match entries ids !! Z.to_nat l with Some (Some p) => Some p | _ => None end.

Definition ipc_lock ids (id : Z) : option A :=
  let l := lid id in
  if (l <? 0) || (Z.of_nat (length (entries ids)) <=? l) then None
  else match entries ids !! Z.to_nat l with
       | Some (Some out) => if deleted (perm out) then None else Some out
       | _ => None
       end.

(** Stores back an object changed in place. *)
Definition put_obj ids (id : Z) (x : A) : ipc_ids A :=
  mk_ids (in_use ids) (max_id ids) (ids_seq ids) (seq_max ids)
    (<[Z.to_nat (lid id) := Some x]> (entries ids)).

Definition ipc_buildid (id seq : Z) : Z := SEQ_MULTIPLIER * seq + id.

Definition ipc_checkid (p : kern_ipc_perm) (uid : Z) : bool :=
  negb (Z.quot uid SEQ_MULTIPLIER =? seq p).

End ids.

(** The permission check; [true] when access is refused. *)
Definition ipcperms (c : cred) (p : kern_ipc_perm) (flag : Z) : bool :=
  let requested_mode := Z.lor (Z.lor (Z.shiftr flag 6) (Z.shiftr flag 3)) flag in
  let granted_mode :=
    if (euid c =? cuid p) || (euid c =? uid p) then Z.shiftr (mode p) 6
    else if in_group_p c (cgid p) || in_group_p c (gid p) then Z.shiftr (mode p) 3
    else mode p in
  negb (Z.land (Z.land requested_mode (Z.lnot granted_mode)) 7 =? 0) &&
  negb (cap_ipc_owner c).

End Ipc.
