(* ===== verification/IpcFacts.v ===== *)
(** * Theorems on System V IPC identifiers

    The invariant of an identifier array and the specification of each operation
    in terms of a partial map from slots to objects; identifiers name the object
    they were made for. *)

From stdpp Require Import prelude numbers list gmap.
From Stdlib Require Import ZArith Lia.
From S2P Require Import Prelude Ipc.

#[local] Set Default Goal Selector "!".
#[local] Open Scope Z_scope.

Module IpcFacts.
Import Ipc.

Section facts.
Context {A : Type} `{!IpcObject A}.
Implicit Types (ids : ipc_ids A) (x : A).

(** The object in a slot. *)
Definition obj ids (i : nat) : option A := entries ids !! i ≫= id.

Lemma obj_Some ids i x : obj ids i = Some x ↔ entries ids !! i = Some (Some x).
Proof.
  unfold obj. destruct (entries ids !! i) as [[y|]|]; cbn; split; congruence.
Qed.

Record ids_ok ids : Prop := {
  io_len : Z.of_nat (length (entries ids)) <= 32768;
  io_seq : 0 <= ids_seq ids <= USHRT_MAX;
  io_seqmax : seq_max ids = USHRT_MAX;
  io_use : in_use ids = Z.of_nat (length (omap id (entries ids)));
  io_max : ∀ i x, obj ids i = Some x → Z.of_nat i <= max_id ids;
  io_max_used : max_id ids = -1 ∨ ∃ i x, max_id ids = Z.of_nat i ∧ obj ids i = Some x;
  io_obj : ∀ i x, obj ids i = Some x → deleted (perm x) = false ∧ 0 <= seq (perm x) <= USHRT_MAX
}.

Lemma obj_lt ids i x : obj ids i = Some x → (i < length (entries ids))%nat.
Proof. rewrite obj_Some. apply lookup_lt_Some. Qed.

(** ** Identifiers *)

Lemma lid_range ident : 0 <= ident → 0 <= lid ident < 32768.
Proof. intros H. unfold lid. change SEQ_MULTIPLIER with 32768. apply Z.rem_bound_pos; lia. Qed.

Lemma build_split (i q : Z) : 0 <= i < 32768 → 0 <= q →
  lid (ipc_buildid i q) = i ∧ Z.quot (ipc_buildid i q) SEQ_MULTIPLIER = q.
Proof.
  intros Hi Hq. unfold lid, ipc_buildid. change SEQ_MULTIPLIER with 32768.
  rewrite Z.rem_mod_nonneg, Z.quot_div_nonneg by lia. split; zdm.
Qed.

(** A live identifier is the one built from its slot and its sequence number. *)
Lemma build_checked (p : kern_ipc_perm) ident : 0 <= ident → ipc_checkid p ident = false →
  ident = ipc_buildid (lid ident) (seq p).
Proof.
  unfold ipc_checkid, ipc_buildid, lid. intros H E. zb_hyps. rewrite <- E.
  change SEQ_MULTIPLIER with 32768 in *. pose proof (Z.quot_rem' ident 32768). lia.
Qed.

Lemma checkid_build (p : kern_ipc_perm) i : 0 <= i < 32768 → 0 <= seq p →
  ipc_checkid p (ipc_buildid i (seq p)) = false.
Proof.
  intros Hi Hq. unfold ipc_checkid. destruct (build_split i (seq p)) as [_ ->]; [done|done|].
  by rewrite Z.eqb_refl.
Qed.

Lemma lock_spec ids ident x : ids_ok ids → 0 <= ident →
  ipc_lock ids ident = Some x ↔ obj ids (Z.to_nat (lid ident)) = Some x.
Proof.
  intros H Hi. pose proof (lid_range _ Hi). rewrite obj_Some. unfold ipc_lock. cbv zeta.
  destruct (Z.ltb_spec (lid ident) 0); [lia|]. cbn [orb].
  destruct (Z.leb_spec (Z.of_nat (length (entries ids))) (lid ident)).
  { rewrite lookup_ge_None_2 by lia. done. }
  destruct (entries ids !! Z.to_nat (lid ident)) as [[y|]|] eqn:E; [|done..].
  destruct (io_obj _ H (Z.to_nat (lid ident)) y) as [-> _]; [by apply obj_Some|].
  split; congruence.
Qed.

(** ** Adding *)

Lemma free_slot_spec (l : list (option A)) n i : (i + n <= length l)%nat →
  ∃ r, free_slot l n i = Ok r ∧
    match r with
    | Some j => (i <= j < i + n)%nat ∧ l !! j = Some None
    | None => ∀ j, (i <= j < i + n)%nat → ∃ x, l !! j = Some (Some x)
    end.
Proof.
  revert i. induction n as [|n IH]; intros i Hl; cbn.
  { exists None. split; [done|]. intros; lia. }
  destruct (lookup_lt_is_Some_2 l i) as [[x|] E]; [lia| |]; rewrite E.
  - destruct (IH (S i)) as (r & Er & Hr); [lia|]. exists r. split; [done|]. destruct r as [j|].
    + split; [lia|apply Hr].
    + intros j Hj. destruct (decide (j = i)) as [->|]; [eauto|]. apply Hr. lia.
  - exists (Some i). split; [done|]. split; [lia|done].
Qed.

Lemma omap_None_replicate n : omap (M := list) id (replicate n (@None A)) = [].
Proof. by induction n. Qed.

Lemma count_insert (l : list (option A)) i x : l !! i = Some None →
  length (omap id (<[i := Some x]> l)) = S (length (omap id l)).
Proof.
  revert i. induction l as [|[y|] l IH]; intros [|i] H; simplify_eq/=; [|done|].
  - by rewrite (IH i).
  - by apply IH.
Qed.

Lemma count_delete (l : list (option A)) i x : l !! i = Some (Some x) →
  S (length (omap id (<[i := None]> l))) = length (omap id l).
Proof.
  revert i. induction l as [|[y|] l IH]; intros [|i] H; simplify_eq/=; [done| |].
  - by rewrite (IH i).
  - by apply IH.
Qed.

Lemma count_replace (l : list (option A)) i x y : l !! i = Some (Some x) →
  length (omap id (<[i := Some y]> l)) = length (omap id l).
Proof.
  revert i. induction l as [|[z|] l IH]; intros [|i] H; simplify_eq/=; [done| |].
  - by rewrite (IH i).
  - by apply IH.
Qed.

Lemma grow_spec ids size alloc : ids_ok ids → 0 <= size →
  let '(ids', n) := grow_ary ids size alloc in
  ids_ok ids' ∧ (∀ i, obj ids' i = obj ids i) ∧ 0 <= n <= Z.of_nat (length (entries ids')) ∧
  ids_seq ids' = ids_seq ids.
Proof.
  intros H Hs. unfold grow_ary. cbv zeta. change IPCMNI with 32768.
  set (ns := if 32768 <? size then 32768 else size).
  assert (0 <= ns <= 32768) by (subst ns; case_zb; lia).
  destruct (Z.leb_spec ns (Z.of_nat (length (entries ids)))); [split_and!; [done|done|lia|lia|done]|].
  destruct alloc; cbn [negb]; [|split_and!; [done|done|lia|lia|done]].
  assert (Hobj : ∀ i, obj (mk_ids (in_use ids) (max_id ids) (ids_seq ids) (seq_max ids)
    (entries ids ++ replicate (Z.to_nat (ns - Z.of_nat (length (entries ids)))) None)) i = obj ids i).
  { intros i. unfold obj. cbn [entries]. destruct (decide (i < length (entries ids))%nat).
    - by rewrite lookup_app_l.
    - rewrite lookup_app_r, (lookup_ge_None_2 (entries ids)) by lia.
      destruct (replicate _ None !! _) eqn:E; [|done]. by apply lookup_replicate in E as [-> _]. }
  split_and!; [|exact Hobj|lia|cbn [entries]; rewrite length_app, length_replicate; lia|done].
  split; cbn [ids_seq seq_max in_use max_id].
  - cbn [entries]. rewrite length_app, length_replicate. lia.
  - apply H.
  - apply H.
  - cbn [entries]. rewrite omap_app, omap_None_replicate, app_nil_r. apply H.
  - intros i x. rewrite Hobj. apply H.
  - destruct (io_max_used _ H) as [?|(i & x & ? & ?)]; [by left|right]. exists i, x. by rewrite Hobj.
  - intros i x. rewrite Hobj. apply H.
Qed.

Lemma wrap16_range v : 0 <= wrap16 v <= USHRT_MAX.
Proof. unfold wrap16, USHRT_MAX. pose proof (Z.mod_pos_bound v (2 ^ 16)). lia. Qed.

(** What [ipc_addid] makes of a new object. *)
Definition added (c : cred) (q : Z) (new : A) : A :=
  let p := perm new in
  with_perm (mk_perm false (key p) (euid c) (egid c) (euid c) (egid c) (mode p) q) new.

Lemma addid_spec ids new size alloc c : ids_ok ids → 0 <= size →
  ∃ r ids', ipc_addid ids new size alloc c = Ok (r, ids') ∧ ids_ok ids' ∧
    match r with
    | None => ids_seq ids' = ids_seq ids ∧ ∀ i, obj ids' i = obj ids i
    | Some (i, new') => ∃ n, i = Z.of_nat n ∧ Z.of_nat n < 32768 ∧ obj ids n = None ∧
        new' = added c (ids_seq ids) new ∧
        ids_seq ids' = wrap16 (ids_seq ids + 1) ∧
        ∀ j, obj ids' j = if decide (j = n) then Some new' else obj ids j
    end.
Proof.
  intros H Hs. unfold ipc_addid. pose proof (grow_spec ids size alloc H Hs) as G.
  destruct (grow_ary ids size alloc) as [ids1 n1]. destruct G as (H1 & Ho & Hn & Hq).
  destruct (free_slot_spec (entries ids1) (Z.to_nat n1) 0) as (r & -> & Hr); [lia|].
  cbn [mbind outcome_bind]. destruct r as [n|]; [|by exists None, ids1].
  destruct Hr as [Hlt Hfree]. pose proof (io_len _ H1) as Hlen.
  pose proof (lookup_lt_Some _ _ _ Hfree) as Hnl.
  assert (Hnone : obj ids1 n = None) by (unfold obj; by rewrite Hfree).
  eexists (Some (Z.of_nat n, added c (ids_seq ids1) new)), _. split; [reflexivity|].
  set (ids2 := mk_ids _ _ _ _ _).
  assert (Hobj : ∀ j, obj ids2 j = if decide (j = n) then Some (added c (ids_seq ids1) new) else obj ids1 j).
  { intros j. unfold obj. cbn [ids2 entries]. case_decide as E.
    - subst. by rewrite list_lookup_insert_eq.
    - by rewrite list_lookup_insert_ne. }
  assert (Hnext : (if seq_max ids1 <? wrap16 (ids_seq ids1 + 1) then 0 else wrap16 (ids_seq ids1 + 1))
                  = wrap16 (ids_seq ids1 + 1)).
  { rewrite (io_seqmax _ H1). pose proof (wrap16_range (ids_seq ids1 + 1)). case_zb; [lia|done]. }
  split.
  - split; cbn [ids2 ids_seq seq_max in_use max_id].
    + cbn [ids2 entries]. by rewrite length_insert.
    + rewrite Hnext. apply wrap16_range.
    + apply H1.
    + cbn [ids2 entries]. rewrite (count_insert _ _ _ Hfree), (io_use _ H1). lia.
    + intros j x. rewrite Hobj. case_decide as E; [intros _; subst|intros Hj%(io_max _ H1)]; case_zb; lia.
    + right. destruct (Z.ltb_spec (max_id ids1) (Z.of_nat n)) as [E|E].
      * exists n. rewrite Hobj, decide_True by done. eauto.
      * destruct (io_max_used _ H1) as [?|(i & x & Hm & Hi)]; [lia|]. exists i.
        destruct (decide (i = n)) as [->|]; [congruence|]. exists x.
        rewrite Hobj, decide_False by done. done.
    + intros j x. rewrite Hobj. case_decide; [intros [= <-]|apply H1].
      unfold added. rewrite perm_with. split; [done|apply H1].
  - exists n. split_and!; [done|lia|by rewrite <- Ho|by rewrite Hq|cbn; by rewrite Hnext, Hq|].
    intros j. rewrite Hobj, Ho. done.
Qed.

(** ** Removing and changing *)

Lemma last_used_spec (l : list (option A)) n : (n <= length l)%nat →
  ∃ m, last_used l n = Ok m ∧
    ((m = -1 ∧ ∀ j x, (j < n)%nat → l !! j ≠ Some (Some x)) ∨
     (∃ i x, m = Z.of_nat i ∧ (i < n)%nat ∧ l !! i = Some (Some x) ∧
        ∀ j y, (j < n)%nat → l !! j = Some (Some y) → (j <= i)%nat)).
Proof.
  induction n as [|n IH]; intros Hl; cbn.
  { exists (-1). split; [done|]. left. split; [done|]. intros; lia. }
  destruct (lookup_lt_is_Some_2 l n) as [[x|] E]; [lia| |]; rewrite E.
  - exists (Z.of_nat n). split; [done|]. right. exists n, x. split_and!; [done|lia|done|]. intros; lia.
  - destruct IH as (m & -> & Hm); [lia|]. exists m. split; [done|].
    destruct Hm as [[-> Hn]|(i & x & -> & Hi & Hx & Hle)]; [left|right].
    + split; [done|]. intros j y Hj Hy. destruct (decide (j = n)) as [->|]; [congruence|].
      by apply (Hn j y); [lia|].
    + exists i, x. split_and!; [done|lia|done|]. intros j y Hj Hy.
      destruct (decide (j = n)) as [->|]; [congruence|]. apply (Hle j y); [lia|done].
Qed.

Definition removed x : A :=
  let q := perm x in
  with_perm (mk_perm true (key q) (uid q) (gid q) (cuid q) (cgid q) (mode q) (seq q)) x.

Lemma rmid_spec ids ident x : ids_ok ids → 0 <= ident → obj ids (Z.to_nat (lid ident)) = Some x →
  ∃ ids', ipc_rmid ids ident = Ok (removed x, ids') ∧ ids_ok ids' ∧ ids_seq ids' = ids_seq ids ∧
    ∀ j, obj ids' j = if decide (j = Z.to_nat (lid ident)) then None else obj ids j.
Proof.
  intros H Hi Hx. pose proof (lid_range _ Hi) as Hl. pose proof (obj_lt _ _ _ Hx) as Hlt.
  set (n := Z.to_nat (lid ident)) in *. pose proof (proj1 (obj_Some _ _ _) Hx) as He.
  unfold ipc_rmid. cbv zeta. fold n. destruct (Z.ltb_spec (lid ident) 0); [lia|]. cbn [orb].
  destruct (Z.leb_spec (Z.of_nat (length (entries ids))) (lid ident)); [lia|]. rewrite He.
  set (ents := <[n := None]> (entries ids)).
  assert (Hobj : ∀ a b c d j, obj (mk_ids a b c d ents) j = if decide (j = n) then None else obj ids j).
  { intros a b c d j. unfold obj, ents. cbn [entries]. case_decide as E.
    - subst. by rewrite list_lookup_insert_eq.
    - by rewrite list_lookup_insert_ne. }
  assert (∃ m, (if lid ident =? max_id ids then last_used ents n else Ok (max_id ids)) = Ok m ∧
    (∀ i y, i ≠ n → obj ids i = Some y → Z.of_nat i <= m) ∧
    (m = -1 ∨ ∃ i y, i ≠ n ∧ m = Z.of_nat i ∧ obj ids i = Some y)) as (m & -> & Hm1 & Hm2).
  { destruct (Z.eqb_spec (lid ident) (max_id ids)) as [E|E].
    - destruct (last_used_spec ents n) as (m & -> & Hm); [unfold ents; rewrite length_insert; lia|].
      exists m. split; [done|].
      assert (Hent : ∀ i y, i ≠ n → obj ids i = Some y → (i < n)%nat ∧ ents !! i = Some (Some y)).
      { intros i y Hne Hy. pose proof (io_max _ H _ _ Hy). split; [lia|].
        unfold ents. rewrite list_lookup_insert_ne by done. by apply obj_Some. }
      destruct Hm as [[-> Hn]|(i & y & -> & Hlt' & Hy & Hle)].
      + split; [|by left]. intros j z Hj Hz. destruct (Hent j z Hj Hz) as [Hjn Hje].
        by destruct (Hn j z Hjn).
      + assert (i ≠ n) by lia. split.
        * intros j z Hj Hz. destruct (Hent j z Hj Hz) as [Hjn Hje]. pose proof (Hle j z Hjn Hje). lia.
        * right. exists i, y. split_and!; [done|done|]. apply obj_Some.
          unfold ents in Hy. by rewrite list_lookup_insert_ne in Hy by done.
    - exists (max_id ids). split; [done|]. split; [intros; by eapply (io_max _ H)|].
      destruct (io_max_used _ H) as [?|(i & y & ? & ?)]; [by left|right]. exists i, y.
      split_and!; [|done|done]. intros ->. lia. }
  cbn [mbind outcome_bind]. eexists. split; [reflexivity|]. split; [|split; [done|apply Hobj]].
  split; cbn [ids_seq seq_max in_use max_id]; try apply H.
  - cbn [entries]. unfold ents. rewrite length_insert. apply H.
  - cbn [entries]. rewrite (io_use _ H). pose proof (count_delete _ _ _ He). unfold ents. lia.
  - intros j y. rewrite Hobj. case_decide; [done|]. intros Hy. by eapply Hm1.
  - destruct Hm2 as [?|(i & y & ? & ? & ?)]; [by left|right]. exists i, y.
    rewrite Hobj, decide_False by done. done.
  - intros j y. rewrite Hobj. case_decide; [done|]. apply H.
Qed.

Lemma put_spec ids ident x y : ids_ok ids → 0 <= ident → obj ids (Z.to_nat (lid ident)) = Some x →
  deleted (perm y) = false → seq (perm y) = seq (perm x) →
  ids_ok (put_obj ids ident y) ∧
  ∀ j, obj (put_obj ids ident y) j = if decide (j = Z.to_nat (lid ident)) then Some y else obj ids j.
Proof.
  intros H Hi Hx Hd Hs. pose proof (obj_lt _ _ _ Hx) as Hlt.
  set (n := Z.to_nat (lid ident)) in *. pose proof (proj1 (obj_Some _ _ _) Hx) as He.
  assert (Hobj : ∀ j, obj (put_obj ids ident y) j = if decide (j = n) then Some y else obj ids j).
  { intros j. unfold obj, put_obj. cbn [entries]. fold n. case_decide as E.
    - subst. by rewrite list_lookup_insert_eq.
    - by rewrite list_lookup_insert_ne. }
  split; [|exact Hobj]. split; try apply H.
  - cbn [put_obj entries]. rewrite length_insert. apply H.
  - cbn [put_obj entries in_use]. fold n. rewrite (count_replace _ _ x) by done. apply H.
  - intros j z. rewrite Hobj. case_decide; [|apply H]. subst. intros _. by eapply (io_max _ H).
  - destruct (io_max_used _ H) as [?|(i & z & ? & ?)]; [by left|right]. exists i.
    rewrite Hobj. case_decide; eauto.
  - intros j z. rewrite Hobj. case_decide; [|apply H]. intros [= <-].
    split; [done|]. rewrite Hs. by eapply (io_obj _ H).
Qed.

(** ** Keys *)

Lemma findkey_from_spec (l : list (option A)) k n i : (i + n <= length l)%nat →
  ∃ r, findkey_from l k n i = Ok r ∧
    ((r = -1 ∧ ∀ j x, (i <= j < i + n)%nat → l !! j = Some (Some x) → key (perm x) ≠ k) ∨
     (∃ j x, r = Z.of_nat j ∧ (i <= j < i + n)%nat ∧ l !! j = Some (Some x) ∧ key (perm x) = k)).
Proof.
  revert i. induction n as [|n IH]; intros i Hl; cbn.
  { exists (-1). split; [done|]. left. split; [done|]. intros; lia. }
  assert (Hstep : ∀ v, l !! i = Some v → (∀ x, v = Some x → key (perm x) ≠ k) →
    ∃ r, findkey_from l k n (S i) = Ok r ∧
    ((r = -1 ∧ ∀ j x, (i <= j < i + S n)%nat → l !! j = Some (Some x) → key (perm x) ≠ k) ∨
     (∃ j x, r = Z.of_nat j ∧ (i <= j < i + S n)%nat ∧ l !! j = Some (Some x) ∧ key (perm x) = k))).
  { intros v Hv Hne. destruct (IH (S i)) as (r & -> & Hr); [lia|]. exists r. split; [done|].
    destruct Hr as [[-> Hn]|(j & x & -> & Hj & Hx & Hk)]; [left|right].
    - split; [done|]. intros j x Hj Hx. destruct (decide (j = i)) as [->|];
        [apply Hne; congruence|apply (Hn j x); [lia|done]].
    - exists j, x. split_and!; [done|lia|lia|done|done]. }
  destruct (lookup_lt_is_Some_2 l i) as [[x|] E]; [lia| |]; rewrite E.
  - destruct (Z.eqb_spec k (key (perm x))) as [Hk|Hk].
    + exists (Z.of_nat i). split; [done|]. right. exists i, x. split_and!; [done|lia|lia|done|done].
    + apply (Hstep (Some x)); [done|]. intros y [= <-]. congruence.
  - by apply (Hstep None).
Qed.

Lemma findkey_spec ids k : ids_ok ids →
  ∃ r, ipc_findkey ids k = Ok r ∧
    ((r = -1 ∧ ∀ j x, obj ids j = Some x → key (perm x) ≠ k) ∨
     (∃ j x, r = Z.of_nat j ∧ Z.of_nat j < 32768 ∧ obj ids j = Some x ∧ key (perm x) = k)).
Proof.
  intros H. unfold ipc_findkey.
  assert (Hm : max_id ids + 1 <= Z.of_nat (length (entries ids)) ∧ -1 <= max_id ids).
  { destruct (io_max_used _ H) as [->|(i & x & -> & Hx%obj_lt)]; lia. }
  pose proof (io_len _ H).
  destruct (findkey_from_spec (entries ids) k (Z.to_nat (max_id ids + 1)) 0) as (r & -> & Hr); [lia|].
  exists r. split; [done|]. destruct Hr as [[-> Hn]|(j & x & -> & Hj & Hx & Hk)]; [left|right].
  - split; [done|]. intros j x Hx. pose proof (io_max _ H _ _ Hx).
    apply (Hn j x); [lia|]. by apply obj_Some.
  - exists j, x. split_and!; [done|lia|by apply obj_Some|done].
Qed.

Lemma init_ok size alloc : 0 <= size → ids_ok (ipc_init_ids size alloc).
Proof.
  intros Hs. unfold ipc_init_ids. cbv zeta. change IPCMNI with 32768.
  set (n := if alloc then _ else _).
  assert (Z.of_nat n <= 32768) by (subst n; destruct alloc; [case_zb; lia|lia]).
  assert (Hno : ∀ i, obj (mk_ids 0 (-1) 0 (if USHRT_MAX <? INT_MAX / SEQ_MULTIPLIER then USHRT_MAX
    else INT_MAX / SEQ_MULTIPLIER) (replicate n None)) i = None).
  { intros i. unfold obj. cbn [entries]. destruct (replicate n None !! i) eqn:E; [|done].
    by apply lookup_replicate in E as [-> _]. }
  split; cbn [entries ids_seq seq_max in_use max_id].
  - by rewrite length_replicate.
  - by vm_compute.
  - done.
  - by rewrite omap_None_replicate.
  - intros i x. by rewrite Hno.
  - by left.
  - intros i x. by rewrite Hno.
Qed.

(** ** Reuse of identifiers *)

(** Any use of an identifier array, with [k] additions. *)
Inductive history : ipc_ids A → Z → ipc_ids A → Prop :=
| h_refl ids : history ids 0 ids
| h_add ids k ids1 new size alloc c r ids2 : history ids k ids1 → 0 <= size →
    ipc_addid ids1 new size alloc c = Ok (r, ids2) → history ids (k + if r is Some _ then 1 else 0) ids2
| h_rm ids k ids1 ident x ids2 : history ids k ids1 → 0 <= ident →
    ipc_rmid ids1 ident = Ok (x, ids2) → history ids k ids2
| h_put ids k ids1 ident x y : history ids k ids1 → 0 <= ident → ipc_lock ids1 ident = Some x →
    deleted (perm y) = false → seq (perm y) = seq (perm x) → history ids k (put_obj ids1 ident y).

Lemma rmid_obj ids ident x ids' : ids_ok ids → 0 <= ident → ipc_rmid ids ident = Ok (x, ids') →
  ∃ y, obj ids (Z.to_nat (lid ident)) = Some y.
Proof.
  intros H Hi. unfold ipc_rmid. cbv zeta. destruct (_ || _); [done|]. unfold obj.
  destruct (entries ids !! Z.to_nat (lid ident)) as [[y|]|]; [|done..]. eauto.
Qed.

Lemma wrap16_add_l (a b : Z) : wrap16 (wrap16 a + b) = wrap16 (a + b).
Proof. apply Zplus_mod_idemp_l. Qed.

(** All of a slot's objects were there before or got one of the [k] sequence numbers since. *)
Lemma history_inv ids k ids' : history ids k ids' → ids_ok ids →
  ids_ok ids' ∧ 0 <= k ∧ ids_seq ids' = wrap16 (ids_seq ids + k) ∧
  ∀ j x, obj ids' j = Some x →
    (∃ y, obj ids j = Some y ∧ seq (perm y) = seq (perm x)) ∨
    ∃ m, 0 <= m < k ∧ seq (perm x) = wrap16 (ids_seq ids + m).
Proof.
  induction 1 as [ids|ids k ids1 new size alloc c r ids2 _ IH Hs E|ids k ids1 ident x ids2 _ IH Hi E
                 |ids k ids1 ident x y _ IH Hi E Hd Hq]; intros H0.
  - split_and!; [done|lia| |eauto]. rewrite Z.add_0_r. pose proof (io_seq _ H0) as Hr.
    unfold wrap16. rewrite Z.mod_small; [done|]. unfold USHRT_MAX in Hr. lia.
  - destruct (IH H0) as (H1 & Hk & Hq & Hx). destruct (addid_spec ids1 new size alloc c H1 Hs)
      as (r' & ids2' & E' & H2 & Hr). rewrite E in E'. injection E' as <- <-. split; [done|]. destruct r as [[i new']|].
    + destruct Hr as (n & -> & _ & _ & -> & Hq2 & Hobj). split_and!; [lia| |].
      { rewrite Hq2, Hq, wrap16_add_l. f_equal. lia. }
      intros j x. rewrite Hobj. case_decide.
      * intros [= <-]. right. exists k. split; [lia|]. unfold added. by rewrite perm_with.
      * intros [?|(m & ? & ?)]%Hx; [by left|right]. exists m. split; [lia|done].
    + rewrite Z.add_0_r. split_and!; [lia| |].
      * by rewrite (proj1 Hr).
      * intros j x. rewrite (proj2 Hr). apply Hx.
  - destruct (IH H0) as (H1 & Hk & Hq & Hx). destruct (rmid_obj _ _ _ _ H1 Hi E) as [y Hy].
    destruct (rmid_spec ids1 ident y H1 Hi Hy) as (ids2' & E' & H2 & Hq2 & Hobj). rewrite E in E'. injection E' as -> <-.
    split_and!; [done|done|congruence|]. intros j z. rewrite Hobj. case_decide; [done|]. apply Hx.
  - destruct (IH H0) as (H1 & Hk & Hq1 & Hx). apply lock_spec in E; [|done|done].
    destruct (put_spec ids1 ident x y H1 Hi E Hd Hq) as [H2 Hobj].
    split_and!; [done|done|done|]. intros j z. rewrite Hobj. case_decide; [|apply Hx].
    intros [= <-]. subst. rewrite Hq. by apply Hx.
Qed.

(** C35: An identifier names the object it was made for: right after [ipc_addid], locking by the
    identifier built from slot and sequence number finds the object and passes the check.
    Once the object has been removed, the identifier names nothing, whatever objects are
    added, changed or removed since, even in the same slot, as long as fewer than 65536
    objects have been added after this one. *)
Theorem ipc_identifiers_sound ids new size alloc c i new' ids1 k ids2 x ids3 k' ids4 :
  ids_ok ids → 0 <= size → ipc_addid ids new size alloc c = Ok (Some (i, new'), ids1) →
  let ident := ipc_buildid i (seq (perm new')) in
  (ipc_lock ids1 ident = Some new' ∧ ipc_checkid (perm new') ident = false) ∧
  (history ids1 k ids2 → ipc_rmid ids2 ident = Ok (x, ids3) → history ids3 k' ids4 →
   k + k' < 65536 →
   ∀ y, ipc_lock ids4 ident = Some y → ipc_checkid (perm y) ident = true).
Proof.
  intros H Hs E ident. destruct (addid_spec ids new size alloc c H Hs) as (r & ids' & E' & H1 & Hr).
  rewrite E in E'. injection E' as <- <-. destruct Hr as (n & -> & Hn & _ & -> & Hq1 & Hobj).
  set (new' := added c (ids_seq ids) new) in *. set (q := seq (perm new')) in *.
  assert (Hq : q = ids_seq ids) by (subst q new'; unfold added; by rewrite perm_with).
  pose proof (io_seq _ H) as Hqr. unfold USHRT_MAX in Hqr.
  destruct (build_split (Z.of_nat n) q) as [Hlid Hquo]; [lia|lia|].
  assert (Hi : 0 <= ident) by (subst ident; unfold ipc_buildid; change SEQ_MULTIPLIER with 32768; lia).
  fold ident in Hlid, Hquo. split.
  - split; [|apply checkid_build; [lia|lia]]. apply lock_spec; [done|done|].
    rewrite Hlid, Nat2Z.id, Hobj, decide_True by done. done.
  - intros Hh1 Erm Hh2 Hk y Hy.
    destruct (history_inv _ _ _ Hh1 H1) as (H2 & Hk0 & Hseq2 & _).
    destruct (rmid_obj _ _ _ _ H2 Hi Erm) as [z Hz].
    destruct (rmid_spec ids2 ident z H2 Hi Hz) as (ids3' & E3 & H3 & Hseq3 & Hobj3). rewrite Erm in E3. injection E3 as -> <-.
    destruct (history_inv _ _ _ Hh2 H3) as (H4 & Hk1 & _ & Hobj4).
    apply lock_spec in Hy; [|done|done]. apply Hobj4 in Hy as [(w & Hw & _)|(m & Hm & Hsy)].
    { rewrite Hobj3, decide_True in Hw by done. done. }
    unfold ipc_checkid. rewrite Hquo, Hsy, Hseq3, Hseq2, Hq1, Hq.
    rewrite wrap16_add_l, <- Z.add_assoc, wrap16_add_l. apply negb_true_iff, Z.eqb_neq. unfold wrap16. intros Heq.
    pose proof (Z.mod_small (ids_seq ids) (2 ^ 16)). zdm.
Qed.

End facts.

(** ** A concrete identifier array *)

#[program] Instance perm_object : IpcObject kern_ipc_perm := {
  perm p := p;
  with_perm p _ := p
}.
Next Obligation. done. Qed.

Definition demo_cred : cred := mk_cred 0 0 (λ _, false) true true.
Definition demo_perm : kern_ipc_perm := mk_perm false 42 0 0 0 0 384 0.
Definition demo_ids : ipc_ids kern_ipc_perm := ipc_init_ids 4 true.

Lemma ipc_identifiers_sound_witness :
  ∃ new' ids1, ipc_addid demo_ids demo_perm 4 true demo_cred = Ok (Some (0, new'), ids1) ∧
    ipc_lock ids1 (ipc_buildid 0 (seq (perm new'))) = Some new' ∧
    ∀ x ids3, ipc_rmid ids1 (ipc_buildid 0 (seq (perm new'))) = Ok (x, ids3) →
      ∀ y, ipc_lock ids3 (ipc_buildid 0 (seq (perm new'))) = Some y →
        ipc_checkid (perm y) (ipc_buildid 0 (seq (perm new'))) = true.
Proof.
  destruct (ipc_addid demo_ids demo_perm 4 true demo_cred) as [[[[i n]|] ids1]|e|] eqn:E;
    [|by vm_compute in E..].
  assert (i = 0) as -> by (vm_compute in E; congruence).
  exists n, ids1. split; [reflexivity|].
  pose proof (λ k ids2 x ids3 k' ids4, ipc_identifiers_sound demo_ids demo_perm 4 true demo_cred 0 n ids1
    k ids2 x ids3 k' ids4 (init_ok 4 true ltac:(lia)) ltac:(lia) E) as H. cbv zeta in H.
  split; [apply (H 0 ids1 n ids1 0 ids1)|]. intros x ids3 E3 y Hy.
  apply (proj2 (H 0 ids1 x ids3 0 ids3)); [constructor|done|constructor|lia|done].
Defined.

End IpcFacts.
