(* ===== verification/Sem.v ===== *)
(** * System V semaphores (ipc/sem.c): definitions

    Semaphore sets, the atomic operation [try_atomic_semop], the queue of sleeping
    operations and [update_queue], undo structures and their lists, and the system
    calls semget, semctl, semop/semtimedop together with fork and exit.

    Objects are named by numbers: undo structures, undo lists and tasks; the
    [sem_queue] on the stack of a sleeping task has the task's name.  A set is
    locked while a function works on it, so it is passed by value and stored back
    at the end.  A system call is one step up to the point where it sleeps
    ([sys_semtimedop]) and one step after that ([semtimedop_wake]): calls do not
    interleave where one drops a lock to allocate or to copy, the checks after taking
    it again are there but find nothing, and the transient status IN_WAKEUP is never
    seen.  [wake_up_process] is recorded in
    [woken].  Dereferencing an object that does not exist is [Bug]. *)

From stdpp Require Import prelude numbers list gmap.
From Stdlib Require Import ZArith Lia.
From S2P Require Import Prelude Ipc.

#[local] Set Default Goal Selector "!".
#[local] Open Scope Z_scope.

Module Sem.
Import Ipc.

Definition SEMVMX : Z := 32767.
Definition SEMAEM : Z := SEMVMX.
Definition IPC_NOWAIT : Z := 0x800.
Definition IPC_CREAT : Z := 0x200.
Definition IPC_EXCL : Z := 0x400.
Definition SEM_UNDO : Z := 0x1000.
Definition IPC_PRIVATE : Z := 0.
Definition SEMMNI : Z := 128.
Definition SEMMSL : Z := 250.
Definition SEMMNS : Z := SEMMNI * SEMMSL.
Definition SEMOPM : Z := 32.
Definition SEMUSZ : Z := 20.

(** ** Data *)

Record sem := mk_sem { semval : Z; sempid : Z }.

Record sembuf := mk_sembuf { sem_num : Z; sem_op : Z; sem_flg : Z }.

Record sem_queue := mk_queue {
  q_undo : option Z;
  q_pid : Z;
  q_status : Z;
  q_id : Z;
  q_sops : list sembuf;
  q_alter : bool;
  q_linked : bool          (* prev is not NULL *)
}.

Record sem_undo := mk_undo { u_semid : Z; semadj : list Z }.

Record sem_array := mk_sma {
  sem_perm : kern_ipc_perm;
  sem_otime : Z;
  sem_ctime : Z;
  sem_base : list sem;     (* sem_nsems of them *)
  sem_pending : list Z;
  undo : list Z            (* linked by id_next *)
}.

#[export, program] Instance sem_object : IpcObject sem_array := {
  perm := sem_perm;
  with_perm p x := mk_sma p (sem_otime x) (sem_ctime x) (sem_base x) (sem_pending x) (undo x)
}.
Next Obligation. done. Qed.

Record sem_undo_list := mk_ulist { refcnt : Z; proc_list : list Z }.

Record sysv := mk_sysv {
  sem_ids : ipc_ids sem_array;
  queues : gmap Z sem_queue;
  undos : gmap Z sem_undo;
  ulists : gmap Z sem_undo_list;
  task_ulist : gmap Z Z;   (* current->sysvsem.undo_list *)
  used_sems : Z;
  woken : list Z           (* wake_up_process calls *)
}.

Definition sem_nsems (sma : sem_array) : Z := Z.of_nat (length (sem_base sma)).
Definition set_base b (s : sem_array) : sem_array :=
  mk_sma (sem_perm s) (sem_otime s) (sem_ctime s) b (sem_pending s) (undo s).
Definition set_otime t (s : sem_array) : sem_array :=
  mk_sma (sem_perm s) t (sem_ctime s) (sem_base s) (sem_pending s) (undo s).
Definition set_ctime t (s : sem_array) : sem_array :=
  mk_sma (sem_perm s) (sem_otime s) t (sem_base s) (sem_pending s) (undo s).
Definition set_pending l (s : sem_array) : sem_array :=
  mk_sma (sem_perm s) (sem_otime s) (sem_ctime s) (sem_base s) l (undo s).
Definition set_undo l (s : sem_array) : sem_array :=
  mk_sma (sem_perm s) (sem_otime s) (sem_ctime s) (sem_base s) (sem_pending s) l.

Definition on_ids f (s : sysv) : sysv :=
  mk_sysv (f (sem_ids s)) (queues s) (undos s) (ulists s) (task_ulist s) (used_sems s) (woken s).
Definition on_queues f (s : sysv) : sysv :=
  mk_sysv (sem_ids s) (f (queues s)) (undos s) (ulists s) (task_ulist s) (used_sems s) (woken s).
Definition on_undos f (s : sysv) : sysv :=
  mk_sysv (sem_ids s) (queues s) (f (undos s)) (ulists s) (task_ulist s) (used_sems s) (woken s).
Definition on_ulists f (s : sysv) : sysv :=
  mk_sysv (sem_ids s) (queues s) (undos s) (f (ulists s)) (task_ulist s) (used_sems s) (woken s).
Definition on_task_ulist f (s : sysv) : sysv :=
  mk_sysv (sem_ids s) (queues s) (undos s) (ulists s) (f (task_ulist s)) (used_sems s) (woken s).
Definition on_used f (s : sysv) : sysv :=
  mk_sysv (sem_ids s) (queues s) (undos s) (ulists s) (task_ulist s) (f (used_sems s)) (woken s).
Definition wake (t : Z) (s : sysv) : sysv :=
  mk_sysv (sem_ids s) (queues s) (undos s) (ulists s) (task_ulist s) (used_sems s) (woken s ++ [t]).

Definition get_queue (q : Z) : SM sysv sem_queue := λ s,
  match queues s !! q with Some x => (Ok x, s) | None => (Bug, s) end.
Definition put_queue (q : Z) (x : sem_queue) : SM sysv unit := modify (on_queues (insert q x)).
Definition get_undo (u : Z) : SM sysv sem_undo := λ s,
  match undos s !! u with Some x => (Ok x, s) | None => (Bug, s) end.
Definition put_undo (u : Z) (x : sem_undo) : SM sysv unit := modify (on_undos (insert u x)).
Definition get_ulist (l : Z) : SM sysv sem_undo_list := λ s,
  match ulists s !! l with Some x => (Ok x, s) | None => (Bug, s) end.
Definition put_ulist (l : Z) (x : sem_undo_list) : SM sysv unit := modify (on_ulists (insert l x)).

(** ** The queue of sleeping operations *)

Definition link (b : bool) (st : Z) (x : sem_queue) : sem_queue :=
  mk_queue (q_undo x) (q_pid x) st (q_id x) (q_sops x) (q_alter x) b.

Definition append_to_queue (sma : sem_array) (q : Z) : sem_array :=
  set_pending (sem_pending sma ++ [q]) sma.
Definition prepend_to_queue (sma : sem_array) (q : Z) : sem_array :=
  set_pending (q :: sem_pending sma) sma.
Definition remove_from_queue (sma : sem_array) (q : Z) : SM sysv sem_array :=
  x ← get_queue q;
  if decide (q ∈ sem_pending sma) then
    _ ← put_queue q (link false (q_status x) x);
    mret (set_pending (filter (λ j, j ≠ q) (sem_pending sma)) sma)
  else bug.

(** ** Atomic operations *)

Definition flag (f : Z) (s : sembuf) : bool := negb (Z.land (sem_flg s) f =? 0).

Inductive verdict := Success | WouldBlock (s : sembuf) | OutOfRange.

(** The first loop: applies the operations to the values until one does not go through.
    [done] holds the operations applied, the latest first. *)
Fixpoint semop_apply (base : list sem) (adj : option (list Z)) (sops done : list sembuf)
    : outcome (verdict * list sem * list sembuf) :=
  match sops with
  | [] => Ok (Success, base, done)
  | sop :: rest =>
      match base !! Z.to_nat (sem_num sop) with
      | None => Bug
      | Some curr =>
          let op := sem_op sop in
          if (op =? 0) && negb (semval curr =? 0) then Ok (WouldBlock sop, base, done) else
          let result := semval curr + op in
          if result <? 0 then Ok (WouldBlock sop, base, done) else
          if SEMVMX <? result then Ok (OutOfRange, base, done) else
          fits ← (if flag SEM_UNDO sop then
                    match adj with
                    | None => Bug
                    | Some adj =>
                        match adj !! Z.to_nat (sem_num sop) with
                        | None => Bug
                        | Some a => let undo := a - op in
                            Ok (negb ((undo <? - SEMAEM - 1) || (SEMAEM <? undo)))
                        end
                    end
                  else Ok true);
          if negb fits then Ok (OutOfRange, base, done) else
          semop_apply (<[Z.to_nat (sem_num sop) := mk_sem result (sempid curr)]> base) adj rest
            (sop :: done)
      end
  end.

(** [while (sop >= sops)] after success. *)
Fixpoint semop_commit (pid : Z) (done : list sembuf) (base : list sem) (adj : option (list Z))
    : list sem * option (list Z) :=
  match done with
  | [] => (base, adj)
  | sop :: rest =>
      let n := Z.to_nat (sem_num sop) in
      semop_commit pid rest (alter (λ c, mk_sem (semval c) pid) n base)
        (if flag SEM_UNDO sop then alter (λ a, sgn16 (a - sem_op sop)) n <$> adj else adj)
  end.

(** [while (sop >= sops)] at label undo. *)
Fixpoint semop_rollback (done : list sembuf) (base : list sem) : list sem :=
  match done with
  | [] => base
  | sop :: rest =>
      semop_rollback rest
        (alter (λ c, mk_sem (semval c - sem_op sop) (sempid c)) (Z.to_nat (sem_num sop)) base)
  end.

(** 0: done; 1: has to sleep; otherwise a negative error.  [un] is the undo structure. *)
Definition try_atomic_semop (sma : sem_array) (sops : list sembuf) (un : option Z) (pid now : Z)
    : SM sysv (Z * sem_array) :=
  adj ← match un with
        | None => mret None
        | Some u => x ← get_undo u; mret (Some (semadj x))
        end;
  match semop_apply (sem_base sma) adj sops [] with
  | Ok (v, base, done) =>
      match v with
      | Success =>
          let '(base', adj') := semop_commit pid done base adj in
          _ ← match un, adj' with
              | Some u, Some a => x ← get_undo u; put_undo u (mk_undo (u_semid x) a)
              | _, _ => mret tt
              end;
          mret (0, set_otime now (set_base base' sma))
      | OutOfRange => mret (- ERANGE, set_base (semop_rollback done base) sma)
      | WouldBlock sop =>
          mret (if flag IPC_NOWAIT sop then - EAGAIN else 1,
                set_base (semop_rollback done base) sma)
      end
  | _ => bug
  end.

(** [rest] is the part of the queue from [q] on. *)
Fixpoint update_loop (fuel : nat) (sma : sem_array) (rest : list Z) (now : Z) : SM sysv sem_array :=
  match rest, fuel with
  | [], _ => mret sma
  | _, O => bug
  | q :: next, S fuel =>
      x ← get_queue q;
      '(error, sma) ← try_atomic_semop sma (q_sops x) (q_undo x) (q_pid x) now;
      if error <=? 0 then
        sma ← remove_from_queue sma q;
        _ ← modify (wake q);
        _ ← put_queue q (link false error x);
        update_loop fuel sma (if q_alter x then sem_pending sma else next) now
      else update_loop fuel sma next now
  end.

Definition update_queue (sma : sem_array) (now : Z) : SM sysv sem_array :=
  let n := length (sem_pending sma) in
  update_loop (n * n + n) sma (sem_pending sma) now.

(** [count_semncnt] and [count_semzcnt]: matching operations of all queue entries. *)
Definition count_ops (match_op : Z → bool) (qs : gmap Z sem_queue) (sma : sem_array) (semnum : Z) : Z :=
  foldr (λ q n, match qs !! q with
                | Some x => Z.of_nat (length (filter (λ s, (sem_num s =? semnum) && match_op (sem_op s) &&
                                                          negb (flag IPC_NOWAIT s) = true) (q_sops x))) + n
                | None => n
                end) 0 (sem_pending sma).
Definition count_semncnt := count_ops (λ op, op <? 0).
Definition count_semzcnt := count_ops (λ op, op =? 0).

(** ** Creating and removing sets *)

Section calls.
(** The limits of /proc/sys/kernel/sem. *)
Context (sc_semmsl sc_semmns sc_semopm sc_semmni : Z).

Definition sem_init (alloc : bool) : sysv :=
  mk_sysv (ipc_init_ids sc_semmni alloc) ∅ ∅ ∅ ∅ 0 [].

Definition newary (c : cred) (k nsems semflg : Z) (alloc grow : bool) (now : Z) : SM sysv Z :=
  s ← gets id;
  if nsems =? 0 then fail EINVAL else
  if sc_semmns <? used_sems s + nsems then fail ENOSPC else
  if negb alloc then fail ENOMEM else
  let sma := mk_sma (mk_perm false k 0 0 0 0 (Z.land semflg S_IRWXUGO) 0) 0 0
               (replicate (Z.to_nat nsems) (mk_sem 0 0)) [] [] in
  match ipc_addid (sem_ids s) sma sc_semmni grow c with
  | Ok (None, ids) => _ ← modify (on_ids (λ _, ids)); fail ENOSPC
  | Ok (Some (id, sma), ids) =>
      _ ← modify (on_ids (λ _, put_obj ids id (set_ctime now sma)));
      _ ← modify (on_used (λ u, u + nsems));
      mret (ipc_buildid id (seq (sem_perm sma)))
  | _ => bug
  end.

Definition sys_semget (c : cred) (k nsems semflg : Z) (alloc grow : bool) (now : Z) : SM sysv Z :=
  if (nsems <? 0) || (sc_semmsl <? nsems) then fail EINVAL else
  s ← gets id;
  if k =? IPC_PRIVATE then newary c k nsems semflg alloc grow now else
  match ipc_findkey (sem_ids s) k with
  | Ok id =>
      if id =? -1 then
        if Z.land semflg IPC_CREAT =? 0 then fail ENOENT
        else newary c k nsems semflg alloc grow now
      else if negb (Z.land semflg IPC_CREAT =? 0) && negb (Z.land semflg IPC_EXCL =? 0)
      then fail EEXIST
      else match ipc_lock (sem_ids s) id with
           | None => bug
           | Some sma =>
               if sem_nsems sma <? nsems then fail EINVAL
               else if ipcperms c (sem_perm sma) semflg then fail EACCES
               else mret (ipc_buildid id (seq (sem_perm sma)))
           end
  | _ => bug
  end.

(** [for (un = sma->undo; un; un = un->id_next)] with a field update. *)
Fixpoint each_undo (f : sem_undo → sem_undo) (l : list Z) : SM sysv unit :=
  match l with
  | [] => mret tt
  | u :: l => x ← get_undo u; _ ← put_undo u (f x); each_undo f l
  end.

(** Every sleeping operation fails with EIDRM. *)
Fixpoint wake_all (l : list Z) : SM sysv unit :=
  match l with
  | [] => mret tt
  | q :: l =>
      x ← get_queue q;
      _ ← modify (wake q);
      _ ← put_queue q (link false (- EIDRM) x);
      wake_all l
  end.

Definition freeary (sma : sem_array) (semid : Z) : SM sysv unit :=
  _ ← each_undo (λ u, mk_undo (-1) (semadj u)) (undo sma);
  _ ← wake_all (sem_pending sma);
  s ← gets id;
  match ipc_rmid (sem_ids s) semid with
  | Ok (_, ids) =>
      _ ← modify (on_ids (λ _, ids));
      modify (on_used (λ u, u - sem_nsems sma))
  | _ => bug
  end.

(** [sem_lock] and [sem_checkid]. *)
Definition lock_check (semid : Z) : SM sysv sem_array :=
  s ← gets id;
  match ipc_lock (sem_ids s) semid with
  | None => fail EINVAL
  | Some sma => if ipc_checkid (sem_perm sma) semid then fail EIDRM else mret sma
  end.

(** [sem_unlock]: the set with its changes. *)
Definition unlock_put (semid : Z) (sma : sem_array) : SM sysv unit :=
  modify (on_ids (λ ids, put_obj ids semid sma)).

(** ** semctl *)

Inductive semctl_cmd :=
| GETALL | SETALL (vals : list Z) | IPC_STAT | GETVAL | GETPID | GETNCNT | GETZCNT
| SETVAL (val : Z).

(** SEMMSL_FAST: values copied without an allocation. *)
Definition SEMMSL_FAST : Z := 256.

Definition semctl_writes (cmd : semctl_cmd) : bool :=
  match cmd with SETALL _ | SETVAL _ => true | _ => false end.

(** What IPC_STAT and SEM_STAT copy out: the [ipc64_perm], the times and the size. *)
Definition sem_stat (sma : sem_array) : list Z :=
  let p := sem_perm sma in
  [key p; uid p; gid p; cuid p; cgid p; mode p; seq p; sem_otime sma; sem_ctime sma; sem_nsems sma].

(** The value returned and the values copied to user memory.  [alloc]: [ipc_alloc] succeeds;
    [copy]: the copy from or to user memory succeeds.  For SETALL [vals] are the [nsems] values
    of type [ushort] in user memory; another number of them stands for a failing copy. *)
Definition semctl_main (c : cred) (semid semnum : Z) (cmd : semctl_cmd) (tgid now : Z)
    (alloc copy : bool) : SM sysv (Z * list Z) :=
  sma ← lock_check semid;
  let nsems := sem_nsems sma in
  if ipcperms c (sem_perm sma) (if semctl_writes cmd then S_IWUGO else S_IRUGO) then fail EACCES else
  match cmd with
  | GETALL =>
      if (SEMMSL_FAST <? nsems) && negb alloc then fail ENOMEM else
      if deleted (sem_perm sma) then fail EIDRM else
      if negb copy then fail EFAULT else
      mret (0, semval <$> sem_base sma)
  | IPC_STAT => if negb copy then fail EFAULT else mret (0, sem_stat sma)
  | SETALL vals =>
      if (SEMMSL_FAST <? nsems) && negb alloc then fail ENOMEM else
      if negb (copy && Nat.eqb (length vals) (length (sem_base sma))) then fail EFAULT else
      let vals := wrap16 <$> vals in
      if existsb (λ v, SEMVMX <? v) vals then fail ERANGE else
      if deleted (sem_perm sma) then fail EIDRM else
      let sma := set_base (zip_with (λ v x, mk_sem v (sempid x)) vals (sem_base sma)) sma in
      _ ← each_undo (λ u, mk_undo (u_semid u) (replicate (length (semadj u)) 0)) (undo sma);
      sma ← update_queue (set_ctime now sma) now;
      _ ← unlock_put semid sma;
      mret (0, [])
  | _ =>
      if (semnum <? 0) || (nsems <=? semnum) then fail EINVAL else
      match sem_base sma !! Z.to_nat semnum with
      | None => bug
      | Some curr =>
          s ← gets id;
          match cmd with
          | GETVAL => mret (semval curr, [])
          | GETPID => mret (sempid curr, [])
          | GETNCNT => mret (count_semncnt (queues s) sma semnum, [])
          | GETZCNT => mret (count_semzcnt (queues s) sma semnum, [])
          | SETVAL val =>
              if (SEMVMX <? val) || (val <? 0) then fail ERANGE else
              _ ← each_undo (λ u, mk_undo (u_semid u) (<[Z.to_nat semnum := 0]> (semadj u))) (undo sma);
              let sma := set_base (<[Z.to_nat semnum := mk_sem val tgid]> (sem_base sma)) sma in
              sma ← update_queue (set_ctime now sma) now;
              _ ← unlock_put semid sma;
              mret (0, [])
          | _ => fail EACCES
          end
      end
  end.

(** IPC_INFO, SEM_INFO and SEM_STAT. *)
Inductive semctl_info := IPC_INFO | SEM_INFO | SEM_STAT.

(** The first ten fields of [seminfo]: semmap, semmni, semmns, semmnu, semmsl, semopm, semume,
    semusz, semvmx, semaem. *)
Definition seminfo (cmd : semctl_info) (s : sysv) : list Z :=
  let all := match cmd with SEM_INFO => true | _ => false end in
  [SEMMNS; sc_semmni; sc_semmns; SEMMNS; sc_semmsl; sc_semopm; SEMOPM;
   if all then in_use (sem_ids s) else SEMUSZ; SEMVMX;
   if all then used_sems s else SEMAEM].

Definition semctl_nolock (c : cred) (semid : Z) (cmd : semctl_info) (copy : bool)
    : SM sysv (Z * list Z) :=
  s ← gets id;
  match cmd with
  | IPC_INFO | SEM_INFO =>
      if negb copy then fail EFAULT else
      let max_id := max_id (sem_ids s) in
      mret (if max_id <? 0 then 0 else max_id, seminfo cmd s)
  | SEM_STAT =>
      if Z.of_nat (length (entries (sem_ids s))) <=? semid then fail EINVAL else
      match ipc_lock (sem_ids s) semid with
      | None => fail EINVAL
      | Some sma =>
          if ipcperms c (sem_perm sma) S_IRUGO then fail EACCES else
          let id := ipc_buildid semid (seq (sem_perm sma)) in
          if negb copy then fail EFAULT else mret (id, sem_stat sma)
      end
  end.

Definition may_change (c : cred) (p : kern_ipc_perm) : bool :=
  (euid c =? cuid p) || (euid c =? uid p) || cap_sys_admin c.

Definition semctl_rmid (c : cred) (semid : Z) : SM sysv Z :=
  sma ← lock_check semid;
  if negb (may_change c (sem_perm sma)) then fail EPERM else
  _ ← freeary sma semid;
  mret 0.

Definition semctl_set (c : cred) (semid nuid ngid nmode now : Z) : SM sysv Z :=
  sma ← lock_check semid;
  let p := sem_perm sma in
  if negb (may_change c p) then fail EPERM else
  let p' := mk_perm (deleted p) (key p) nuid ngid (cuid p) (cgid p)
              (Z.lor (Z.land (mode p) (Z.lnot S_IRWXUGO)) (Z.land nmode S_IRWXUGO)) (seq p) in
  _ ← unlock_put semid (set_ctime now (with_perm p' sma));
  mret 0.

(** ** Undo structures *)

(** [kmem]: the address of the new list, or [None]. *)
Definition get_undo_list (task : Z) (kmem : option Z) : SM sysv Z :=
  s ← gets id;
  match task_ulist s !! task with
  | Some l => mret l
  | None =>
      match kmem with
      | None => fail ENOMEM
      | Some l =>
          _ ← put_ulist l (mk_ulist 1 []);
          _ ← modify (on_task_ulist (insert task l));
          mret l
      end
  end.

(** Walks the list, freeing invalidated structures on the way; the new list. *)
Fixpoint lookup_loop (semid : Z) (l : list Z) : SM sysv (option Z * list Z) :=
  match l with
  | [] => mret (None, [])
  | u :: l =>
      x ← get_undo u;
      if u_semid x =? semid then mret (Some u, u :: l) else
      if u_semid x =? -1 then
        _ ← modify (on_undos (delete u));
        lookup_loop semid l
      else
        '(r, l') ← lookup_loop semid l;
        mret (r, u :: l')
  end.

Definition lookup_undo (ul semid : Z) : SM sysv (option Z) :=
  x ← get_ulist ul;
  '(r, l) ← lookup_loop semid (proc_list x);
  _ ← put_ulist ul (mk_ulist (refcnt x) l);
  mret r.

Definition find_undo (task semid : Z) (kmem_list kmem : option Z) : SM sysv Z :=
  ul ← get_undo_list task kmem_list;
  r ← lookup_undo ul semid;
  match r with
  | Some un => mret un
  | None =>
      sma ← lock_check semid;
      match kmem with
      | None => fail ENOMEM
      | Some u =>
          (* the second look after the allocation *)
          r ← lookup_undo ul semid;
          match r with
          | Some un => mret un
          | None =>
              if deleted (sem_perm sma) then fail EIDRM else
              _ ← put_undo u (mk_undo semid (replicate (length (sem_base sma)) 0));
              x ← get_ulist ul;
              _ ← put_ulist ul (mk_ulist (refcnt x) (u :: proc_list x));
              _ ← unlock_put semid (set_undo (u :: undo sma) sma);
              mret u
          end
      end
  end.

(** ** semctl: the system call *)

Inductive semctl_arg :=
| CtlMain (cmd : semctl_cmd)
| CtlRmid
| CtlSet (setbuf : option (Z * Z * Z))     (* uid, gid, mode; [None]: the copy fails *)
| CtlInfo (cmd : semctl_info).

Definition sys_semctl (c : cred) (semid semnum : Z) (arg : semctl_arg) (tgid now : Z)
    (alloc copy : bool) : SM sysv (Z * list Z) :=
  if semid <? 0 then fail EINVAL else
  match arg with
  | CtlMain cmd => semctl_main c semid semnum cmd tgid now alloc copy
  | CtlRmid => r ← semctl_rmid c semid; mret (r, [])
  | CtlSet None => fail EFAULT
  | CtlSet (Some (nuid, ngid, nmode)) => r ← semctl_set c semid nuid ngid nmode now; mret (r, [])
  | CtlInfo cmd => semctl_nolock c semid cmd copy
  end.

(** ** semop and semtimedop *)

Definition sops_max (sops : list sembuf) : Z :=
  foldl (λ m s, if m <=? sem_num s then sem_num s else m) 0 sops.
Definition sops_undos (sops : list sembuf) : bool := existsb (flag SEM_UNDO) sops.
Definition sops_alter (sops : list sembuf) : bool :=
  existsb (λ s, 0 <? sem_op s) sops || existsb (λ s, sem_op s <? 0) sops.

(** Operations copied without an allocation. *)
Definition SEMOPM_FAST : Z := 64.

(** A timeout is a [timespec] (seconds, nanoseconds). *)
Definition bad_timeout (t : option (Z * Z)) : bool :=
  match t with
  | None => false
  | Some (sec, nsec) => (sec <? 0) || (nsec <? 0) || (1000000000 <=? nsec)
  end.

Inductive semop_result := Finished (error : Z) | Sleeping.

Record semop_args := mk_semop {
  a_task : Z;                (* current *)
  a_tgid : Z;
  a_cred : cred;
  a_semid : Z;
  a_sops : list sembuf;
  a_timeout : option (Z * Z);
  a_alloc : bool;            (* kmalloc of more than SEMOPM_FAST operations succeeds *)
  a_copy : bool;             (* copy_from_user succeeds: of the operations, of the timeout *)
  a_copy_timeout : bool;
  a_kmem_list : option Z;    (* kmalloc of an undo list, of an undo structure *)
  a_kmem : option Z
}.

(** From [retry_undos:] on; [fuel] bounds the retries. *)
Fixpoint semop_locked (fuel : nat) (a : semop_args) (now : Z) : SM sysv semop_result :=
  let sops := a_sops a in
  let semid := a_semid a in
  let change := sops_alter sops in
  un ← (if sops_undos sops
        then u ← find_undo (a_task a) semid (a_kmem_list a) (a_kmem a); mret (Some u)
        else mret None);
  sma ← lock_check semid;
  stale ← match un with
          | None => mret false
          | Some u => x ← get_undo u; mret (u_semid x =? -1)
          end;
  if stale : bool then match fuel with O => bug | S fuel => semop_locked fuel a now end else
  if sem_nsems sma <=? sops_max sops then fail EFBIG else
  if ipcperms (a_cred a) (sem_perm sma) (if change then S_IWUGO else S_IRUGO) then fail EACCES else
  '(error, sma) ← try_atomic_semop sma sops un (a_tgid a) now;
  if error <=? 0 then
    sma ← (if change && (error =? 0) then update_queue sma now else mret sma);
    _ ← unlock_put semid sma;
    mret (Finished error)
  else
    _ ← put_queue (a_task a) (mk_queue un (a_tgid a) (- EINTR) semid sops change true);
    _ ← unlock_put semid (if change then append_to_queue sma (a_task a)
                          else prepend_to_queue sma (a_task a));
    mret Sleeping.

Definition sys_semtimedop (a : semop_args) (now : Z) : SM sysv semop_result :=
  let nsops := Z.of_nat (length (a_sops a)) in
  if (nsops <? 1) || (a_semid a <? 0) then fail EINVAL else
  if sc_semopm <? nsops then fail E2BIG else
  if (SEMOPM_FAST <? nsops) && negb (a_alloc a) then fail ENOMEM else
  if negb (a_copy a) then fail EFAULT else
  if bool_decide (is_Some (a_timeout a)) && negb (a_copy_timeout a) then fail EFAULT else
  if bad_timeout (a_timeout a) then fail EINVAL else
  semop_locked 1 a now.

(** The rest of [sys_semtimedop] when the sleeping task runs again; [timed_out] when it has a
    timeout and no time is left. *)
Definition semtimedop_wake (task : Z) (timed_out : bool) : SM sysv Z :=
  x ← get_queue task;
  let gone := modify (on_queues (delete task)) in
  if negb (q_status x =? - EINTR) then _ ← gone; mret (q_status x) else
  s ← gets id;
  match ipc_lock (sem_ids s) (q_id x) with
  | None => if q_linked x then bug else _ ← gone; mret (- EIDRM)
  | Some sma =>
      sma ← remove_from_queue sma task;
      _ ← unlock_put (q_id x) sma;
      _ ← gone;
      mret (if timed_out then - EAGAIN else - EINTR)
  end.

(** ** Fork and exit *)

Definition copy_semundo (task child : Z) (clone_sysvsem : bool) (kmem_list : option Z) : SM sysv Z :=
  if clone_sysvsem then
    l ← get_undo_list task kmem_list;
    x ← get_ulist l;
    _ ← put_ulist l (mk_ulist (refcnt x + 1) (proc_list x));
    _ ← modify (on_task_ulist (insert child l));
    mret 0
  else
    _ ← modify (on_task_ulist (delete child));
    mret 0.

(** The adjustment of one value on exit. *)
Definition adjust (pid adj : Z) (c : sem) : sem :=
  if adj =? 0 then c else
  let v := semval c + adj in
  let v := if v <? 0 then 0 else v in
  mk_sem (if SEMVMX <? v then SEMVMX else v) pid.

(** One undo structure of the exiting task. *)
Definition exit_undo (u tgid now : Z) : SM sysv unit :=
  x ← get_undo u;
  let semid := u_semid x in
  if semid =? -1 then mret tt else
  s ← gets id;
  match ipc_lock (sem_ids s) semid with
  | None => mret tt
  | Some sma =>
      if ipc_checkid (sem_perm sma) semid then bug else
      if decide (u ∈ undo sma) then
        let sma := set_undo (filter (λ j, j ≠ u) (undo sma)) sma in
        if negb (Nat.eqb (length (semadj x)) (length (sem_base sma))) then bug else
        let sma := set_base (zip_with (adjust tgid) (semadj x) (sem_base sma)) sma in
        sma ← update_queue (set_otime now sma) now;
        unlock_put semid sma
      else mret tt
  end.

Fixpoint exit_loop (l : list Z) (tgid now : Z) : SM sysv unit :=
  match l with
  | [] => mret tt
  | u :: l =>
      _ ← exit_undo u tgid now;
      _ ← modify (on_undos (delete u));
      exit_loop l tgid now
  end.

Definition exit_sem (task tgid now : Z) : SM sysv unit :=
  s ← gets id;
  match task_ulist s !! task with
  | None => mret tt
  | Some l =>
      x ← get_ulist l;
      _ ← modify (on_task_ulist (delete task));
      if negb (refcnt x - 1 =? 0)
      then put_ulist l (mk_ulist (refcnt x - 1) (proc_list x))
      else
        _ ← exit_loop (proc_list x) tgid now;
        modify (on_ulists (delete l))
  end.

End calls.
End Sem.
