(* ===== verification/SemFacts.v ===== *)
(** * Theorems on System V semaphores: operations on one set

    [try_atomic_semop] is all-or-nothing and decides as the reference [judge]
    does; [update_queue] terminates, completes every operation that has become
    possible, and leaves only operations that have to wait. *)

From stdpp Require Import prelude numbers list gmap.
From Stdlib Require Import ZArith Lia.
From S2P Require Import Prelude Ipc Sem.

#[local] Set Default Goal Selector "!".
#[local] Open Scope Z_scope.

Module SemFacts.
Import Ipc Sem.

(** Steps over the structure of the code. *)
Ltac sem_step :=
  match goal with
  | |- wp (mbind _ _) _ _ _ => apply wp_bind
  | |- wp (gets _) _ _ _ => apply wp_gets
  | |- wp (modify _) _ _ _ => apply wp_modify
  | |- wp (mret _) _ _ _ => apply wp_ret
  | |- wp (fail _) _ _ _ => apply wp_fail
  end; cbv beta delta [id].

Lemma wp_get_sleeper q x (Φ : sem_queue → sysv → Prop) Ψ s :
  queues s !! q = Some x → Φ x s → wp (get_queue q) Φ Ψ s.
Proof. unfold wp, get_queue. by intros ->. Qed.
Lemma wp_get_undo u x (Φ : sem_undo → sysv → Prop) Ψ s :
  undos s !! u = Some x → Φ x s → wp (get_undo u) Φ Ψ s.
Proof. unfold wp, get_undo. by intros ->. Qed.

(** ** The reference for a sequence of operations *)

Definition adj_fits (adj : option (list Z)) (s : sembuf) : bool :=
  if flag SEM_UNDO s then
    match adj ≫= (.!! Z.to_nat (sem_num s)) with
    | Some a => negb ((a - sem_op s <? - SEMAEM - 1) || (SEMAEM <? a - sem_op s))
    | None => false
    end
  else true.

(** Whether a sequence goes through on the values [vals], and what stops it. *)
Fixpoint judge (vals : list Z) (adj : option (list Z)) (sops : list sembuf) : verdict :=
  match sops with
  | [] => Success
  | s :: rest =>
      let v := default 0 (vals !! Z.to_nat (sem_num s)) in
      if (sem_op s =? 0) && negb (v =? 0) then WouldBlock s
      else if v + sem_op s <? 0 then WouldBlock s
      else if SEMVMX <? v + sem_op s then OutOfRange
      else if negb (adj_fits adj s) then OutOfRange
      else judge (<[Z.to_nat (sem_num s) := v + sem_op s]> vals) adj rest
  end.

(** The values afterwards. *)
Definition apply_ops (vals : list Z) (sops : list sembuf) : list Z :=
  foldl (λ vals s, alter (λ v, v + sem_op s) (Z.to_nat (sem_num s)) vals) vals sops.

(** Operations as the system call has them: existing semaphores, 16-bit amounts, and an undo
    structure of the right size if one is needed. *)
Definition op_wf (n : nat) (s : sembuf) : Prop :=
  0 <= sem_num s < Z.of_nat n ∧ -32768 <= sem_op s <= 32767.
Definition sops_wf (n : nat) (adj : option (list Z)) (sops : list sembuf) : Prop :=
  Forall (op_wf n) sops ∧
  (sops_undos sops = true → ∃ a, adj = Some a ∧ length a = n).

Definition val_ok (c : sem) : Prop := 0 <= semval c <= SEMVMX.

Lemma sops_wf_cons n adj s rest : sops_wf n adj (s :: rest) →
  op_wf n s ∧ sops_wf n adj rest ∧ (flag SEM_UNDO s = true → ∃ a, adj = Some a ∧ length a = n).
Proof.
  intros [Hf Hu]. apply Forall_cons in Hf as [Hs Hr]. unfold sops_undos in *. cbn in Hu.
  split_and!; [done|split; [done|]|]; intros H; apply Hu, orb_true_iff; auto.
Qed.

Lemma fmap_insert_val (base : list sem) (i : nat) c v : base !! i = Some c →
  semval <$> (<[i := mk_sem v (sempid c)]> base) = <[i := v]> (semval <$> base).
Proof. intros. by rewrite list_fmap_insert. Qed.

Lemma apply_spec adj sops : ∀ base ops, sops_wf (length base) adj sops → Forall val_ok base →
  ∃ base' ops', semop_apply base adj sops ops = Ok (judge (semval <$> base) adj sops, base', ops') ∧
    length base' = length base ∧ Forall val_ok base' ∧ (sempid <$> base') = (sempid <$> base) ∧
    semop_rollback ops' base' = semop_rollback ops base ∧
    (judge (semval <$> base) adj sops = Success →
       ops' = rev sops ++ ops ∧ semval <$> base' = apply_ops (semval <$> base) sops).
Proof.
  induction sops as [|s rest IH]; intros base ops Hwf Hv; cbn [semop_apply judge].
  { exists base, ops. split_and!; try done. }
  apply sops_wf_cons in Hwf as ([Hn Hop] & Hrest & Hadj).
  destruct (lookup_lt_is_Some_2 base (Z.to_nat (sem_num s))) as [c Hc]; [lia|].
  rewrite Hc, list_lookup_fmap, Hc. cbn [fmap option_fmap option_map default from_option id].
  assert (Hstop : ∀ v, v ≠ Success → ∃ base' ops', Ok (v, base, ops) = Ok (v, base', ops') ∧
    length base' = length base ∧ Forall val_ok base' ∧ (sempid <$> base') = (sempid <$> base) ∧
    semop_rollback ops' base' = semop_rollback ops base ∧
    (v = Success → ops' = rev (s :: rest) ++ ops ∧ semval <$> base' = apply_ops (semval <$> base) (s :: rest))).
  { intros v Hne. exists base, ops. by split_and!. }
  destruct ((sem_op s =? 0) && negb (semval c =? 0)); [by apply Hstop|].
  destruct (Z.ltb_spec (semval c + sem_op s) 0); [by apply Hstop|].
  destruct (Z.ltb_spec SEMVMX (semval c + sem_op s)); [by apply Hstop|].
  assert (Hfit : (if flag SEM_UNDO s then
     match adj with
     | None => Bug
     | Some adj => match adj !! Z.to_nat (sem_num s) with
                   | None => Bug
                   | Some a => Ok (negb ((a - sem_op s <? - SEMAEM - 1) || (SEMAEM <? a - sem_op s)))
                   end
     end else Ok true) = Ok (adj_fits adj s)).
  { unfold adj_fits. destruct (flag SEM_UNDO s) eqn:Ef; [|done].
    destruct (Hadj eq_refl) as (a & -> & Hl). cbn.
    destruct (lookup_lt_is_Some_2 a (Z.to_nat (sem_num s))) as [w ->]; [lia|done]. }
  cbv zeta. rewrite Hfit. cbn [mbind outcome_bind].
  destruct (adj_fits adj s); cbn [negb]; [|by apply Hstop].
  set (base1 := <[Z.to_nat (sem_num s) := mk_sem (semval c + sem_op s) (sempid c)]> base).
  pose proof (lookup_lt_Some _ _ _ Hc) as Hlt.
  destruct (IH base1 (s :: ops)) as (base' & ops' & E & Hl & Hv' & Hp & Hr & Hs).
  { unfold base1. by rewrite length_insert. }
  { apply Forall_insert; [done|]. unfold val_ok. cbn. lia. }
  rewrite <- (fmap_insert_val _ _ _ _ Hc). fold base1. exists base', ops'.
  split_and!; [done|by rewrite Hl; unfold base1; rewrite length_insert|done| | |].
  - rewrite Hp. unfold base1. rewrite list_fmap_insert. cbn. apply list_insert_id.
    by rewrite list_lookup_fmap, Hc.
  - rewrite Hr. cbn [semop_rollback]. f_equal. unfold base1.
    apply list_eq. intros j. destruct (decide (j = Z.to_nat (sem_num s))) as [->|].
    + rewrite list_lookup_alter_eq, list_lookup_insert_eq, Hc by done. cbn. destruct c. cbn.
      do 2 f_equal. lia.
    + by rewrite list_lookup_alter_ne, list_lookup_insert_ne.
  - intros Hj. destruct (Hs Hj) as [-> Hvals]. split; [cbn; by rewrite <- app_assoc|].
    rewrite Hvals. cbn [apply_ops foldl]. f_equal. unfold base1. rewrite fmap_insert_val by done.
    apply list_eq. intros j. destruct (decide (j = Z.to_nat (sem_num s))) as [->|].
    + rewrite list_lookup_alter_eq, list_lookup_insert_eq, list_lookup_fmap, Hc by (by rewrite length_fmap).
      done.
    + by rewrite list_lookup_alter_ne, list_lookup_insert_ne.
Qed.

(** ** Committing *)

Definition is_short (a : Z) : Prop := -32768 <= a <= 32767.

Lemma sgn16_range a : is_short (sgn16 a).
Proof.
  unfold sgn16, is_short, wrap16. pose proof (Z.mod_pos_bound a (2 ^ 16)). case_zb; lia.
Qed.

Lemma sgn16_id a : is_short a → sgn16 a = a.
Proof.
  unfold is_short. intros H. unfold sgn16, wrap16. destruct (Z.lt_ge_cases a 0).
  - replace (a mod 2 ^ 16) with (a + 2 ^ 16); [case_zb; lia|].
    rewrite <- (Z_mod_plus_full _ 1). symmetry. apply Z.mod_small. lia.
  - rewrite Z.mod_small by lia. case_zb; lia.
Qed.

Lemma sgn16_sub a b : sgn16 (sgn16 a - b) = sgn16 (a - b).
Proof.
  unfold sgn16 at 1 3. cbv zeta. assert (wrap16 (sgn16 a - b) = wrap16 (a - b)) as ->; [|done].
  unfold sgn16, wrap16. cbv zeta. case_zb; [by rewrite Zminus_mod_idemp_l|].
  replace (a mod 2 ^ 16 - 2 ^ 16 - b) with (a mod 2 ^ 16 - b + (-1) * 2 ^ 16) by lia.
  by rewrite Z_mod_plus_full, Zminus_mod_idemp_l.
Qed.

(** The adjustment a sequence registers for one semaphore. *)
Definition undo_sum (i : nat) (sops : list sembuf) : Z :=
  foldr (λ s n, (if flag SEM_UNDO s && Nat.eqb (Z.to_nat (sem_num s)) i then sem_op s else 0) + n)
    0 sops.
Definition touched (i : nat) (sops : list sembuf) : bool :=
  existsb (λ s, Nat.eqb (Z.to_nat (sem_num s)) i) sops.

Lemma commit_spec pid ops : ∀ base adj, let r := semop_commit pid ops base adj in
  length r.1 = length base ∧ (semval <$> r.1) = (semval <$> base) ∧
  (∀ i c, base !! i = Some c →
     r.1 !! i = Some (mk_sem (semval c) (if touched i ops then pid else sempid c))) ∧
  match adj with
  | None => r.2 = None
  | Some a => ∃ a', r.2 = Some a' ∧ length a' = length a ∧
      (Forall is_short a → Forall is_short a' ∧
         ∀ i v, a !! i = Some v → a' !! i = Some (sgn16 (v - undo_sum i ops)))
  end.
Proof.
  induction ops as [|s rest IH]; intros base adj; cbn [semop_commit touched undo_sum existsb foldr].
  { split_and!; try done; [by intros i [v p] H|]. destruct adj as [a|]; [|done]. exists a.
    split_and!; [done|done|]. intros Ha. split; [done|]. intros i v Hi.
    rewrite Z.sub_0_r, sgn16_id; [done|]. by eapply Forall_lookup_1 in Ha. }
  set (n := Z.to_nat (sem_num s)). set (base1 := alter _ n base).
  set (adj1 := if flag SEM_UNDO s then _ else adj).
  destruct (IH base1 adj1) as (Hl & Hv & Hp & Ha). split_and!.
  - rewrite Hl. apply length_alter.
  - rewrite Hv. apply list_eq. intros j. rewrite !list_lookup_fmap. unfold base1.
    destruct (decide (j = n)) as [->|]; [rewrite list_lookup_alter_eq|by rewrite list_lookup_alter_ne].
    by destruct (base !! n).
  - intros i c Hi. destruct (Nat.eqb_spec n i) as [->|Hne]; cbn [orb].
    + rewrite (Hp i (mk_sem (semval c) pid)); [cbn; by destruct (touched i rest)|].
      unfold base1. by rewrite list_lookup_alter_eq, Hi.
    + apply Hp. unfold base1. by rewrite list_lookup_alter_ne.
  - destruct adj as [a|]; [|subst adj1; by destruct (flag SEM_UNDO s)].
    assert (∃ a1, adj1 = Some a1 ∧ length a1 = length a ∧ (Forall is_short a → Forall is_short a1) ∧
      ∀ i v, a !! i = Some v →
        a1 !! i = Some (if flag SEM_UNDO s && Nat.eqb n i then sgn16 (v - sem_op s) else v))
      as (a1 & -> & Hl1 & Hs1 & Hv1).
    { subst adj1. destruct (flag SEM_UNDO s); cbn [andb fmap option_fmap option_map]; [|eauto 10].
      eexists. split_and!; [done|apply length_alter| |].
      - intros H. apply Forall_alter; [done|]. intros v _ _. apply sgn16_range.
      - intros i v Hi. destruct (Nat.eqb_spec n i) as [->|];
          [by rewrite list_lookup_alter_eq, Hi|by rewrite list_lookup_alter_ne]. }
    destruct Ha as (a' & -> & Hl' & Ha'). exists a'. split_and!; [done|congruence|]. intros Hsh.
    destruct (Ha' (Hs1 Hsh)) as [Hsh' Hval]. split; [done|]. intros i v Hi.
    rewrite (Hval _ _ (Hv1 _ _ Hi)). fold n. destruct (flag SEM_UNDO s && Nat.eqb n i).
    + rewrite sgn16_sub. do 2 f_equal. unfold undo_sum. lia.
    + done.
Qed.

(** ** One atomic operation *)

Definition adj_of (us : gmap Z sem_undo) (un : option Z) : option (list Z) :=
  un ≫= λ u, semadj <$> us !! u.

Lemma set_base_id sma : set_base (sem_base sma) sma = sma.
Proof. by destruct sma. Qed.

(** The undo structure after a success. *)
Definition undo_after (sops : list sembuf) (us us' : gmap Z sem_undo) (un : option Z) : Prop :=
  (∀ u, un ≠ Some u → us' !! u = us !! u) ∧
  ∀ u x, un = Some u → us !! u = Some x → Forall is_short (semadj x) →
    ∃ x', us' !! u = Some x' ∧ u_semid x' = u_semid x ∧ length (semadj x') = length (semadj x) ∧
      Forall is_short (semadj x') ∧
      ∀ i v, semadj x !! i = Some v → semadj x' !! i = Some (sgn16 (v - undo_sum i sops)).

Lemma undo_sum_app i l k : undo_sum i (l ++ k) = undo_sum i l + undo_sum i k.
Proof. unfold undo_sum. induction l as [|s l IH]; cbn; lia. Qed.

Lemma undo_sum_rev i sops : undo_sum i (rev sops) = undo_sum i sops.
Proof.
  induction sops as [|s l IH]; cbn [rev]; [done|]. rewrite undo_sum_app, IH. unfold undo_sum. cbn. lia.
Qed.

Lemma touched_rev i sops : touched i (rev sops) = touched i sops.
Proof.
  unfold touched. induction sops as [|s l IH]; cbn; [done|]. rewrite existsb_app, IH. cbn.
  rewrite orb_false_r. apply orb_comm.
Qed.

(** The state apart from the undo structures. *)
Definition same_but_undos (s s' : sysv) : Prop :=
  sem_ids s' = sem_ids s ∧ queues s' = queues s ∧ ulists s' = ulists s ∧
  task_ulist s' = task_ulist s ∧ used_sems s' = used_sems s ∧ woken s' = woken s.

Definition error_of (v : verdict) : Z :=
  match v with
  | Success => 0
  | OutOfRange => - ERANGE
  | WouldBlock sop => if flag IPC_NOWAIT sop then - EAGAIN else 1
  end.

Lemma error_of_success v : error_of v = 0 ↔ v = Success.
Proof. destruct v as [|sop|]; cbn; [done| |done]. by destruct (flag IPC_NOWAIT sop). Qed.

Lemma wp_try sma sops un pid now s Ψ :
  sops_wf (length (sem_base sma)) (adj_of (undos s) un) sops → Forall val_ok (sem_base sma) →
  (∀ u, un = Some u → is_Some (undos s !! u)) →
  let v := judge (semval <$> sem_base sma) (adj_of (undos s) un) sops in
  wp (try_atomic_semop sma sops un pid now)
    (λ r s', r.1 = error_of v ∧ same_but_undos s s' ∧
       (v ≠ Success → r.2 = sma ∧ s' = s) ∧
       (v = Success → ∃ base, r.2 = set_otime now (set_base base sma) ∧
          length base = length (sem_base sma) ∧ Forall val_ok base ∧
          (semval <$> base) = apply_ops (semval <$> sem_base sma) sops ∧
          (∀ i c, sem_base sma !! i = Some c → ∃ c', base !! i = Some c' ∧
             sempid c' = if touched i sops then pid else sempid c) ∧
          undo_after sops (undos s) (undos s') un)) Ψ s.
Proof.
  intros Hwf Hv Hun v. unfold try_atomic_semop.
  assert (Hadj : wp (match un with None => mret None | Some u => x ← get_undo u; mret (Some (semadj x)) end)
    (λ a s', a = adj_of (undos s) un ∧ s' = s) Ψ s).
  { destruct un as [u|]; [|done]. destruct (Hun u eq_refl) as [x Hx]. sem_step.
    eapply wp_get_undo; [done|]. sem_step. cbn. by rewrite Hx. }
  sem_step. eapply wp_mono; [exact Hadj|]. cbv beta. intros adj s' [-> ->].
  destruct (apply_spec _ sops (sem_base sma) [] Hwf Hv) as (base & ops & -> & Hl & Hvb & Hpb & Hrb & Hs).
  fold v in Hs |- *. cbn [semop_rollback] in Hrb.
  destruct v as [|sop|] eqn:Ev.
  2, 3: sem_step; cbn [fst snd]; rewrite Hrb, set_base_id; by split_and!.
  destruct (Hs eq_refl) as [-> Hvals]. rewrite app_nil_r.
  pose proof (commit_spec pid (rev sops) base (adj_of (undos s) un)) as Hc. cbv zeta in Hc.
  destruct (semop_commit pid (rev sops) base (adj_of (undos s) un)) as [base' adj'].
  cbn [fst snd] in Hc. destruct Hc as (Hl' & Hv' & Hp' & Ha').
  assert (Hfin : ∀ s', same_but_undos s s' → undo_after sops (undos s) (undos s') un →
    (λ r s', r.1 = error_of Success ∧ same_but_undos s s' ∧ (Success ≠ Success → r.2 = sma ∧ s' = s) ∧
       (Success = Success → ∃ base, r.2 = set_otime now (set_base base sma) ∧
          length base = length (sem_base sma) ∧ Forall val_ok base ∧
          (semval <$> base) = apply_ops (semval <$> sem_base sma) sops ∧
          (∀ i c, sem_base sma !! i = Some c → ∃ c', base !! i = Some c' ∧
             sempid c' = if touched i sops then pid else sempid c) ∧
          undo_after sops (undos s) (undos s') un)) (0, set_otime now (set_base base' sma)) s').
  { intros s' Hsame Hua. split_and!; [done|done|done|]. intros _. exists base'.
    split_and!; [done|congruence| |by rewrite Hv'| |done].
    - apply Forall_lookup_2. intros i c Hi.
      assert (∃ c0, base !! i = Some c0) as [c0 Hc0].
      { apply lookup_lt_is_Some_2. rewrite <- Hl'. by eapply lookup_lt_Some. }
      rewrite (Hp' _ _ Hc0) in Hi. simplify_eq. exact (Forall_lookup_1 _ _ _ _ Hvb Hc0).
    - intros i c Hi.
      assert (∃ c0, base !! i = Some c0 ∧ sempid c0 = sempid c) as (c0 & Hc0 & Hp0).
      { pose proof (f_equal (.!! i) Hpb) as E. cbn in E. rewrite !list_lookup_fmap, Hi in E.
        destruct (base !! i); simplify_eq/=. eauto. }
      rewrite (Hp' _ _ Hc0). eexists. split; [done|]. cbn. by rewrite touched_rev, Hp0. }
  sem_step. destruct un as [u|]; [|cbn in Ha'; subst adj'; sem_step; sem_step; by apply Hfin].
  destruct (Hun u eq_refl) as [x Hx]. cbn in Ha'. rewrite Hx in Ha'. cbn in Ha'.
  destruct Ha' as (a' & -> & Hla & Hsh). sem_step. eapply wp_get_undo; [done|]. cbv beta.
  apply wp_modify. sem_step. apply Hfin; [done|]. split.
  - intros w Hw. cbn. rewrite lookup_insert_ne; [done|]. congruence.
  - intros w y [= <-] Hy Hshort. simplify_eq. destruct (Hsh Hshort) as [Hsh' Hval].
    eexists. cbn. rewrite lookup_insert_eq. split_and!; [done|done|done|done|].
    intros i w Hi. rewrite <- undo_sum_rev. by apply Hval.
Qed.

(** ** The queue of sleeping operations *)

(** A queue entry of a set with [n] semaphores. *)
Record entry_ok (n : nat) (us : gmap Z sem_undo) (x : sem_queue) : Prop := {
  eo_ops : Forall (op_wf n) (q_sops x);
  eo_undo : sops_undos (q_sops x) = true → is_Some (q_undo x);
  eo_adj : ∀ u, q_undo x = Some u → ∃ y, us !! u = Some y ∧ length (semadj y) = n;
  eo_alter : q_alter x = sops_alter (q_sops x);
  eo_linked : q_linked x = true;
  eo_status : q_status x = - EINTR
}.

Record set_ok (s : sysv) (sma : sem_array) : Prop := {
  so_vals : Forall val_ok (sem_base sma);
  so_nodup : NoDup (sem_pending sma);
  so_queued : ∀ q, q ∈ sem_pending sma →
    ∃ x, queues s !! q = Some x ∧ entry_ok (length (sem_base sma)) (undos s) x;
  so_short : ∀ u y, undos s !! u = Some y → Forall is_short (semadj y)
}.

Lemma entry_wf n us x : entry_ok n us x → sops_wf n (adj_of us (q_undo x)) (q_sops x).
Proof.
  intros H. split; [by apply H|]. intros Hu. destruct (eo_undo _ _ _ H Hu) as [u Eu].
  destruct (eo_adj _ _ _ H u Eu) as (y & Hy & Hl). rewrite Eu. cbn. rewrite Hy. by exists (semadj y).
Qed.

(** What completing a sequence does to the values and to the undo structures. *)
Definition vals_after (v : verdict) (sops : list sembuf) (vals : list Z) : list Z :=
  match v with Success => apply_ops vals sops | _ => vals end.
Definition register (sops : list sembuf) (y : sem_undo) : sem_undo :=
  mk_undo (u_semid y) (imap (λ i a, sgn16 (a - undo_sum i sops)) (semadj y)).
Definition undos_after (v : verdict) (un : option Z) (sops : list sembuf) (us : gmap Z sem_undo)
    : gmap Z sem_undo :=
  match v, un with Success, Some u => alter (register sops) u us | _, _ => us end.

(** The contract of [update_queue]: the sleeping operations complete one after the other, each
    at a moment where it does not have to wait, in any order. *)
Record aset := mk_aset {
  av : list Z;                 (* the values *)
  au : gmap Z sem_undo;
  ap : list Z;                 (* still asleep *)
  ad : list (Z * Z)            (* completed, with their results *)
}.

Inductive completes (qs : gmap Z sem_queue) : aset → aset → Prop :=
| completes_one q x vals us pend fin :
    let v := judge vals (adj_of us (q_undo x)) (q_sops x) in
    q ∈ pend → qs !! q = Some x → error_of v <= 0 →
    completes qs (mk_aset vals us pend fin)
      (mk_aset (vals_after v (q_sops x) vals) (undos_after v (q_undo x) (q_sops x) us)
         (filter (λ j, j ≠ q) pend) (fin ++ [(q, error_of v)])).

Definition abs (sma : sem_array) (s : sysv) (fin : list (Z * Z)) : aset :=
  mk_aset (semval <$> sem_base sma) (undos s) (sem_pending sma) fin.

(** The queue entries of the completed operations. *)
Definition finish (fin : list (Z * Z)) (qs : gmap Z sem_queue) : gmap Z sem_queue :=
  foldl (λ m p, alter (link false p.2) p.1 m) qs fin.

Lemma undo_after_register sops us us' u :
  undo_after sops us us' (Some u) → (∀ w y, us !! w = Some y → Forall is_short (semadj y)) →
  us' = alter (register sops) u us ∨ us !! u = None.
Proof.
  intros [Hne Hu] Hs. destruct (us !! u) as [y|] eqn:Ey; [left|by right].
  apply map_eq. intros w. destruct (decide (w = u)) as [->|].
  2: { rewrite lookup_alter_ne by done. apply Hne. congruence. }
  destruct (Hu u y eq_refl Ey (Hs _ _ Ey)) as (y' & -> & Hid & Hl & _ & Hv).
  rewrite lookup_alter_eq, Ey. cbn. f_equal. unfold register. rewrite <- Hid. destruct y' as [i a].
  cbn in *. f_equal. apply list_eq. intros j. rewrite list_lookup_imap.
  destruct (semadj y !! j) as [z|] eqn:Ez; cbn; [by apply Hv|].
  apply lookup_ge_None. rewrite Hl. by apply lookup_ge_None.
Qed.

(** [try_atomic_semop] in these terms. *)
Lemma wp_try_abs sma x now s Ψ : set_ok s sma → entry_ok (length (sem_base sma)) (undos s) x →
  let v := judge (semval <$> sem_base sma) (adj_of (undos s) (q_undo x)) (q_sops x) in
  wp (try_atomic_semop sma (q_sops x) (q_undo x) (q_pid x) now)
    (λ r s', r.1 = error_of v ∧ same_but_undos s s' ∧
       undos s' = undos_after v (q_undo x) (q_sops x) (undos s) ∧
       sem_perm r.2 = sem_perm sma ∧ sem_pending r.2 = sem_pending sma ∧ undo r.2 = undo sma ∧
       length (sem_base r.2) = length (sem_base sma) ∧ Forall val_ok (sem_base r.2) ∧
       (semval <$> sem_base r.2) = vals_after v (q_sops x) (semval <$> sem_base sma) ∧
       (v ≠ Success → r.2 = sma ∧ s' = s)) Ψ s.
Proof.
  intros Hs Hx v. eapply wp_mono; [apply wp_try|]; [by apply entry_wf|by apply Hs| |].
  { intros u Hu. destruct (eo_adj _ _ _ Hx u Hu) as (y & -> & _). done. }
  fold v. clearbody v. cbv beta. intros [e sma'] s' (He & Hsame & Hno & Hyes). cbn [fst snd] in *.
  assert (v = Success ∨ v ≠ Success) as [Ev|Ev] by (destruct v; [by left|by right..]).
  2: { destruct (Hno Ev) as [-> ->]. destruct v; [done|..]; split_and!; try done; by apply Hs. }
  destruct (Hyes Ev) as (base & -> & Hl & Hv & Hvals & _ & Hua). rewrite Ev. cbn [vals_after undos_after].
  split_and!; [by rewrite He, Ev|done| |done..].
  destruct (q_undo x) as [u|] eqn:Eu.
  - destruct (undo_after_register _ _ _ _ Hua) as [H|H]; [by apply Hs|done|].
    destruct (eo_adj _ _ _ Hx u Eu) as (y & Hy & _). congruence.
  - destruct Hua as [Hua _]. apply map_eq. intros w. by apply Hua.
Qed.

(** An operation that only waits for zero changes nothing. *)
Lemma alter_false sops : sops_alter sops = false → Forall (λ s, sem_op s = 0) sops.
Proof.
  unfold sops_alter. intros [H1 H2]%orb_false_iff. rewrite <- not_true_iff_false, existsb_exists in H1, H2.
  apply Forall_forall. intros b Hb%list_elem_of_In. destruct (Z.lt_total 0 (sem_op b)) as [|[|]]; [|done|].
  - destruct H1. exists b. split; [done|]. by apply Z.ltb_lt.
  - destruct H2. exists b. split; [done|]. by apply Z.ltb_lt.
Qed.

Lemma apply_ops_zero sops : Forall (λ s, sem_op s = 0) sops → ∀ vals, apply_ops vals sops = vals.
Proof.
  induction 1 as [|b l Hb _ IH]; intros vals; [done|]. cbn. rewrite Hb. etrans; [apply IH|].
  apply list_eq. intros i. destruct (decide (i = Z.to_nat (sem_num b))) as [->|].
  - rewrite list_lookup_alter_eq. destruct (vals !! _); cbn; [|done]. f_equal. lia.
  - by rewrite list_lookup_alter_ne.
Qed.

Lemma undo_sum_zero sops i : Forall (λ s, sem_op s = 0) sops → undo_sum i sops = 0.
Proof. unfold undo_sum. induction 1 as [|b l Hb _ IH]; cbn; [done|]. rewrite Hb. destruct (_ && _); lia. Qed.

Lemma register_zero sops y : Forall (λ s, sem_op s = 0) sops → Forall is_short (semadj y) →
  register sops y = y.
Proof.
  intros Hz Hs. unfold register. destruct y as [i a]. cbn in *. f_equal. apply list_eq. intros j.
  rewrite list_lookup_imap. destruct (a !! j) as [z|] eqn:Ez; cbn; [|done].
  rewrite undo_sum_zero, Z.sub_0_r, sgn16_id; [done| |done]. by apply (Forall_lookup_1 _ _ _ _ Hs Ez).
Qed.

Lemma after_zero v un sops vals us : sops_alter sops = false →
  (∀ u y, us !! u = Some y → Forall is_short (semadj y)) →
  vals_after v sops vals = vals ∧ undos_after v un sops us = us.
Proof.
  intros Hz%alter_false Hs. destruct v; [|done..]. cbn. rewrite apply_ops_zero by done. split; [done|].
  destruct un as [u|]; [|done]. apply alter_id. intros y Hy. apply register_zero; [done|]. by eapply Hs.
Qed.

Lemma register_length sops y : length (semadj (register sops y)) = length (semadj y).
Proof. unfold register. cbn. apply length_imap. Qed.

Lemma undos_after_lookup v un sops us u : ∃ f, undos_after v un sops us !! u = f <$> us !! u ∧
  ∀ y, u_semid (f y) = u_semid y ∧ length (semadj (f y)) = length (semadj y) ∧
       (Forall is_short (semadj y) → Forall is_short (semadj (f y))).
Proof.
  assert (H : ∃ f, us !! u = f <$> us !! u ∧ ∀ y : sem_undo, u_semid (f y) = u_semid y ∧
    length (semadj (f y)) = length (semadj y) ∧ (Forall is_short (semadj y) → Forall is_short (semadj (f y)))).
  { exists id. split; [by rewrite option_fmap_id|done]. }
  destruct v; [|done..]. cbn. destruct un as [w|]; [|done]. destruct (decide (u = w)) as [->|].
  2: by rewrite lookup_alter_ne by done.
  exists (register sops). rewrite lookup_alter_eq. split; [done|]. intros y.
  split_and!; [done|apply register_length|]. intros _. apply Forall_lookup_2. intros j z. cbn.
  rewrite list_lookup_imap. intros (z' & _ & ->)%fmap_Some. apply sgn16_range.
Qed.

Lemma entry_ok_after n us x v un sops : entry_ok n us x → entry_ok n (undos_after v un sops us) x.
Proof.
  intros [Ho Hu Ha Hl Hk Hs]. constructor; [done|done| |done..]. intros u Eu.
  destruct (Ha u Eu) as (y & Hy & Hn). destruct (undos_after_lookup v un sops us u) as (f & -> & Hf).
  rewrite Hy. exists (f y). split; [done|]. by rewrite (proj1 (proj2 (Hf y))).
Qed.

Lemma short_after v un sops us : (∀ u y, us !! u = Some y → Forall is_short (semadj y)) →
  ∀ u y, undos_after v un sops us !! u = Some y → Forall is_short (semadj y).
Proof.
  intros H u y. destruct (undos_after_lookup v un sops us u) as (f & -> & Hf).
  intros (z & Hz & ->)%fmap_Some. by apply Hf, (H u).
Qed.

(** An operation that has to wait. *)
Definition waits (qs : gmap Z sem_queue) (vals : list Z) (us : gmap Z sem_undo) (q : Z) : Prop :=
  ∀ x, qs !! q = Some x → 0 < error_of (judge vals (adj_of us (q_undo x)) (q_sops x)).

(** What is outside the operations on the set. *)
Record untouched (s s' : sysv) (fin : list (Z * Z)) : Prop := {
  un_ids : sem_ids s' = sem_ids s;
  un_queues : queues s' = finish fin (queues s);
  un_ulists : ulists s' = ulists s;
  un_task : task_ulist s' = task_ulist s;
  un_used : used_sems s' = used_sems s;
  un_woken : woken s' = woken s ++ fin.*1
}.

Lemma untouched_trans s s1 s2 f g : untouched s s1 f → untouched s1 s2 g → untouched s s2 (f ++ g).
Proof.
  intros [] []. constructor; [congruence| |congruence..|].
  - unfold finish in *. rewrite foldl_app. congruence.
  - rewrite fmap_app, app_assoc. congruence.
Qed.

Record same_set (sma sma' : sem_array) : Prop := {
  ss_perm : sem_perm sma' = sem_perm sma;
  ss_undo : undo sma' = undo sma;
  ss_len : length (sem_base sma') = length (sem_base sma)
}.

Lemma same_set_trans a b c : same_set a b → same_set b c → same_set a c.
Proof. intros [] []. constructor; congruence. Qed.

Lemma wp_remove sma q x (Φ : sem_array → sysv → Prop) Ψ s :
  queues s !! q = Some x → q ∈ sem_pending sma →
  Φ (set_pending (filter (λ j, j ≠ q) (sem_pending sma)) sma)
    (on_queues (insert q (link false (q_status x) x)) s) →
  wp (remove_from_queue sma q) Φ Ψ s.
Proof.
  intros Hx Hq H. unfold remove_from_queue. sem_step. eapply wp_get_sleeper; [done|]. cbv beta.
  rewrite decide_True by done. sem_step. apply wp_modify. by sem_step.
Qed.

(** The part of the loop after an operation went through or failed. *)
Lemma wp_complete sma q x error s fin s0 sma0 (Φ : sem_array → sysv → Prop) Ψ
    (k : sem_array → SM sysv sem_array) :
  set_ok s0 sma0 → q ∈ sem_pending sma0 → queues s0 !! q = Some x →
  let v := judge (semval <$> sem_base sma0) (adj_of (undos s0) (q_undo x)) (q_sops x) in
  error = error_of v → error <= 0 → same_but_undos s0 s →
  undos s = undos_after v (q_undo x) (q_sops x) (undos s0) →
  same_set sma0 sma → sem_pending sma = sem_pending sma0 → Forall val_ok (sem_base sma) →
  (semval <$> sem_base sma) = vals_after v (q_sops x) (semval <$> sem_base sma0) →
  (∀ sma' s', set_ok s' sma' → untouched s0 s' [(q, error)] → same_set sma0 sma' →
     sem_pending sma' = filter (λ j, j ≠ q) (sem_pending sma0) →
     (∀ qs, qs !! q = Some x → completes qs (abs sma0 s0 fin) (abs sma' s' (fin ++ [(q, error)]))) →
     (semval <$> sem_base sma') = vals_after v (q_sops x) (semval <$> sem_base sma0) →
     undos s' = undos_after v (q_undo x) (q_sops x) (undos s0) →
     wp (k sma') Φ Ψ s') →
  wp (sma' ← remove_from_queue sma q; _ ← modify (wake q); _ ← put_queue q (link false error x); k sma')
    Φ Ψ s.
Proof.
  intros Hok Hq Hx v He Hle (Hi & Hqs & Hul & Ht & Hus & Hw) Hund Hss Hp Hv Hvals HΦ.
  sem_step. eapply (wp_remove _ _ x); [congruence|congruence|]. do 3 sem_step. unfold put_queue. sem_step.
  assert (HQ : ∀ m : gmap Z sem_queue, m = queues s0 →
    <[q := link false error x]> (<[q := link false (q_status x) x]> m) = alter (link false error) q (queues s0)).
  { intros m ->. rewrite insert_insert_eq. symmetry. by apply alter_alt_Some. }
  apply HΦ; cbn; [constructor|constructor| | | | |].
  - done.
  - cbn. rewrite Hp. apply NoDup_filter, Hok.
  - cbn. rewrite Hp, (HQ _ Hqs). intros j [Hne Hj]%list_elem_of_filter.
    destruct (so_queued _ _ Hok j Hj) as (y & Hy & Hey). exists y. rewrite lookup_alter_ne by done.
    split; [done|]. rewrite Hund, (ss_len _ _ Hss). by apply entry_ok_after.
  - cbn. rewrite Hund. apply short_after, Hok.
  - done.
  - cbn. by rewrite (HQ _ Hqs).
  - done.
  - done.
  - done.
  - cbn. by rewrite Hw.
  - destruct Hss. by constructor.
  - by rewrite Hp.
  - intros qs Hxq. unfold abs. cbn. rewrite Hvals, Hund, Hp, He. apply completes_one; [done|done|]. fold v. lia.
  - done.
  - done.
Qed.

Lemma filter_mid (pre next : list Z) q : NoDup (pre ++ q :: next) →
  filter (λ j, j ≠ q) (pre ++ q :: next) = pre ++ next.
Proof.
  intros (H1 & H2 & H3)%NoDup_app. apply NoDup_cons in H3 as [H3 _].
  rewrite filter_app, filter_cons_False by auto. f_equal; apply list_filter_all, Forall_forall.
  - intros j Hj ->. destruct (H2 q Hj). by left.
  - by intros j Hj ->.
Qed.

(** The outcome of the loop: a run of the contract that ends where every operation left has to
    wait. *)
Definition drained (qs : gmap Z sem_queue) (sma0 : sem_array) (s0 : sysv) (fin : list (Z * Z))
    (sma : sem_array) (s : sysv) : Prop :=
  ∃ l, rtc (completes qs) (abs sma0 s0 fin) (abs sma s (fin ++ l)) ∧
    (∀ q, q ∈ sem_pending sma → waits qs (semval <$> sem_base sma) (undos s) q) ∧
    set_ok s sma ∧ untouched s0 s l ∧ same_set sma0 sma.

Lemma drained_step qs a b c f e s t u : completes qs (abs a s f) (abs b t (f ++ [e])) →
  untouched s t [e] → same_set a b → drained qs b t (f ++ [e]) c u → drained qs a s f c u.
Proof.
  intros H1 H2 H3 (l & H4 & H5 & H6 & H7 & H8). exists (e :: l). rewrite <- app_assoc in H4.
  split_and!; [by eapply rtc_l|done|done|by apply (untouched_trans _ _ _ _ _ H2 H7)|by eapply same_set_trans].
Qed.

Lemma wp_update_loop qs now fuel : ∀ sma pre rest s fin Ψ,
  set_ok s sma → (∀ q, q ∈ sem_pending sma → queues s !! q = qs !! q) →
  sem_pending sma = pre ++ rest →
  (∀ q, q ∈ pre → waits qs (semval <$> sem_base sma) (undos s) q) →
  (length (sem_pending sma) * length (sem_pending sma) + length rest <= fuel)%nat →
  wp (update_loop fuel sma rest now) (drained qs sma s fin) Ψ s.
Proof.
  induction fuel as [|fuel IH]; intros sma pre rest s fin Ψ Hok Hqs Hp Hw Hf;
    (destruct rest as [|q next]; [|cbn [length] in Hf; try lia]).
  1, 2: cbn [update_loop]; sem_step; exists []; rewrite !app_nil_r in *; rewrite Hp; split_and!;
    [done|done|done| |done]; constructor; cbn; rewrite ?app_nil_r; done.
  cbn [update_loop]. assert (Hq : q ∈ sem_pending sma) by (rewrite Hp; set_solver).
  destruct (so_queued _ _ Hok q Hq) as (x & Hx & Hex). pose proof (Hqs q Hq) as Hxq. rewrite Hx in Hxq.
  sem_step. eapply wp_get_sleeper; [done|]. sem_step.
  eapply wp_mono; [by apply wp_try_abs|]. cbv beta.
  intros [error sma1] s1 (He & Hsame & Hund & Hperm & Hpend & Hundo & Hlen & Hv & Hvals & Hno). cbn [fst snd] in *.
  assert (Hn1 : length (sem_pending sma) = (length pre + S (length next))%nat)
    by (by rewrite Hp, length_app).
  destruct (Z.leb_spec error 0) as [Hle|Hgt].
  - eapply (wp_complete sma1 q x error s1 fin s sma); [done..| |done|done|done|]; [by constructor|].
    intros sma2 s2 Hok2 Hun Hss Hpend2 Hstep Hvals2 Hund2.
    rewrite Hp, filter_mid in Hpend2 by (rewrite <- Hp; apply Hok).
    assert (Hqs2 : ∀ j, j ∈ sem_pending sma2 → queues s2 !! j = qs !! j).
    { intros j Hj. rewrite (un_queues _ _ _ Hun). cbn. rewrite lookup_alter_ne.
      - apply Hqs. rewrite Hp, elem_of_app, elem_of_cons. rewrite Hpend2, elem_of_app in Hj. tauto.
      - intros <-. pose proof (so_nodup _ _ Hok) as Hnd. rewrite Hp in Hnd.
        rewrite <- (filter_mid _ _ _ Hnd) in Hpend2. rewrite Hpend2 in Hj.
        by apply list_elem_of_filter in Hj as [? _]. }
    assert (Hn2 : length (sem_pending sma2) = (length pre + length next)%nat)
      by (by rewrite Hpend2, length_app).
    eapply wp_mono; [|intros; eapply drained_step; [by apply Hstep|done|done|done]].
    destruct (q_alter x) eqn:Ea.
    + apply (IH sma2 []); [done|done|done|set_solver|]. rewrite Hn2, Hn1 in *. nia.
    + apply (IH sma2 pre); [done|done|done| |rewrite Hn2, Hn1 in *; nia].
      rewrite Hvals2, Hund2.
      destruct (after_zero (judge (semval <$> sem_base sma) (adj_of (undos s) (q_undo x)) (q_sops x))
        (q_undo x) (q_sops x) (semval <$> sem_base sma) (undos s)) as [-> ->];
        [by rewrite <- (eo_alter _ _ _ Hex)|by apply Hok|done].
  - destruct Hno as [-> ->]; [rewrite <- error_of_success; lia|].
    apply (IH sma (pre ++ [q])); [done|done|by rewrite <- app_assoc| |nia].
    intros j [Hj| ->%list_elem_of_singleton]%elem_of_app; [by apply Hw|]. intros y Hy.
    rewrite <- Hxq in Hy. simplify_eq. lia.
Qed.

Lemma wp_update_queue now sma s Ψ : set_ok s sma →
  wp (update_queue sma now) (drained (queues s) sma s []) Ψ s.
Proof. intros Hok. unfold update_queue. by apply (wp_update_loop _ _ _ _ [] (sem_pending sma)); [..|set_solver|lia]. Qed.

(** ** The properties *)

(** C10: [try_atomic_semop] is all or nothing.  It decides as the sequential reference
    [judge] does, returning 0, 1 (sleep), -EAGAIN or -ERANGE; unless it returns 0 it leaves the
    set and the system exactly as they were, although it works in place and rolls back; and when
    it returns 0, all operations have been applied in order, every value stays within
    0..SEMVMX, the semaphores touched carry the caller's pid, and the caller's undo structure has
    the inverse of its SEM_UNDO operations added in 16 bits; nothing else changes. *)
Theorem semop_atomic sma sops un pid now s :
  sops_wf (length (sem_base sma)) (adj_of (undos s) un) sops → Forall val_ok (sem_base sma) →
  (∀ u, un = Some u → is_Some (undos s !! u)) →
  let v := judge (semval <$> sem_base sma) (adj_of (undos s) un) sops in
  ∃ sma' s', try_atomic_semop sma sops un pid now s = (Ok (error_of v, sma'), s') ∧
    same_but_undos s s' ∧ (v ≠ Success → sma' = sma ∧ s' = s) ∧
    (v = Success → ∃ base, sma' = set_otime now (set_base base sma) ∧
       length base = length (sem_base sma) ∧ Forall val_ok base ∧
       (semval <$> base) = apply_ops (semval <$> sem_base sma) sops ∧
       (∀ i c, sem_base sma !! i = Some c → ∃ c', base !! i = Some c' ∧
          sempid c' = if touched i sops then pid else sempid c) ∧
       undo_after sops (undos s) (undos s') un).
Proof.
  intros Hwf Hv Hun v. destruct (wp_ok _ _ _ (wp_try sma sops un pid now s _ Hwf Hv Hun))
    as ([e sma'] & s' & E & He & H). cbn [fst snd] in *. exists sma', s'. by rewrite E, He.
Qed.

Definition demo_perm : kern_ipc_perm := mk_perm false 42 0 0 0 0 384 0.
Definition demo_set (vals pending : list Z) : sem_array :=
  mk_sma demo_perm 0 0 ((λ v, mk_sem v 0) <$> vals) pending [].
Definition demo_sys (qs : gmap Z sem_queue) (us : gmap Z sem_undo) : sysv :=
  mk_sysv (ipc_init_ids 4 true) qs us ∅ ∅ 0 [].

Lemma semop_atomic_witness : ∃ sma' s',
  try_atomic_semop (demo_set [3; 0] []) [mk_sembuf 0 (-2) 0; mk_sembuf 1 1 0] None 7 5 (demo_sys ∅ ∅)
    = (Ok (0, sma'), s') ∧ semval <$> sem_base sma' = [1; 1].
Proof.
  destruct (semop_atomic (demo_set [3; 0] []) [mk_sembuf 0 (-2) 0; mk_sembuf 1 1 0] None 7 5
    (demo_sys ∅ ∅)) as (sma' & s' & E & _ & _ & H).
  - split; [repeat constructor; vm_compute; congruence|done].
  - repeat constructor; vm_compute; congruence.
  - done.
  - exists sma', s'. split; [exact E|]. destruct (H eq_refl) as (b & -> & _ & _ & Hb & _). exact Hb.
Defined.

(** C9: [update_queue] refines its contract and terminates.  Whatever operations sleep on the
    set, the scan returns within n*n + n attempts (it starts over after each completed operation
    that may have changed the values); its effect is a sequence of completions, each one at a
    moment where the operation does not have to wait and with the effect and the result the
    reference gives it; when it ends no operation left in the queue could complete.  Each
    completed operation has been unlinked, has its result stored and its task woken up once, in
    that order; other queue entries, the permissions and the undo list are as before. *)
Theorem update_queue_drains sma s now : set_ok s sma →
  ∃ sma' s' fin, update_queue sma now s = (Ok sma', s') ∧
    rtc (completes (queues s)) (abs sma s []) (abs sma' s' fin) ∧
    (∀ st, ¬ completes (queues s) (abs sma' s' fin) st) ∧
    set_ok s' sma' ∧ untouched s s' fin ∧ same_set sma sma'.
Proof.
  intros Hok. destruct (wp_ok _ _ _ (wp_update_queue now _ _ _ Hok)) as (sma' & s' & E & l & Hr & Hw & H).
  exists sma', s', l. split_and!; try apply H; [done|done|]. intros st Hst. unfold abs in Hst.
  inversion Hst; subst. specialize (Hw q ltac:(done) x ltac:(done)). by apply Z.lt_nge in Hw.
Qed.

Definition demo_queue (pid : Z) (sops : list sembuf) : sem_queue :=
  mk_queue None pid (- EINTR) 0 sops (sops_alter sops) true.
(** Task 1 waits for zero, task 2 takes two, task 3 gives three. *)
Definition demo_queues : gmap Z sem_queue :=
  {[ 1 := demo_queue 1 [mk_sembuf 0 0 0]; 2 := demo_queue 2 [mk_sembuf 0 (-2) 0];
     3 := demo_queue 3 [mk_sembuf 0 3 0] ]}.

Lemma update_queue_drains_witness :
  ∃ sma' s' (fin : list (Z * Z)), update_queue (demo_set [1] [1; 2; 3]) 9 (demo_sys demo_queues ∅) = (Ok sma', s') ∧
    woken s' = fin.*1 ∧ fin.*1 = [3; 2] ∧ (semval <$> sem_base sma') = [2].
Proof.
  destruct (update_queue_drains (demo_set [1] [1; 2; 3]) (demo_sys demo_queues ∅) 9)
    as (sma' & s' & fin & E & _ & _ & _ & Hun & _).
  - constructor.
    + repeat constructor; vm_compute; congruence.
    + apply (bool_decide_unpack _). by vm_compute.
    + cbn [demo_set sem_pending]. intros q Hq. repeat (apply elem_of_cons in Hq as [->|Hq]); [..|by apply elem_of_nil in Hq].
      all: eexists; split; [reflexivity|]; constructor; try done; repeat constructor; vm_compute; congruence.
    + cbn. intros u y Hy. by rewrite lookup_empty in Hy.
  - exists sma', s', fin. pose proof (un_woken _ _ _ Hun) as Hw. cbn in Hw.
    vm_compute in E. injection E as <- <-. cbn in Hw. split_and!; [reflexivity|exact Hw|by rewrite <- Hw|reflexivity].
Defined.

(** The range check of SEM_UNDO operations does not add up the operations of one call:
    each is compared with the recorded adjustment alone.  Taking 20000 with SEM_UNDO, giving
    20000 without, and taking 20000 with SEM_UNDO again is accepted, and the adjustment of 40000
    is stored in a [short] as -25536, so that exit does not give the 40000 back. *)
Theorem semadj_wraps pid now :
  ∃ sma' s', try_atomic_semop (demo_set [20000] [])
      [mk_sembuf 0 (-20000) SEM_UNDO; mk_sembuf 0 20000 0; mk_sembuf 0 (-20000) SEM_UNDO]
      (Some 1) pid now (demo_sys ∅ {[ 1 := mk_undo 0 [0] ]}) = (Ok (0, sma'), s') ∧
    (semval <$> sem_base sma') = [0] ∧
    undos s' = {[ 1 := mk_undo 0 [-25536] ]} ∧
    (semval <$> zip_with (adjust pid) [-25536] (sem_base sma')) = [0].
Proof. eexists _, _. split_and!; reflexivity. Qed.

End SemFacts.
