(* ===== verification/SemSystem.v ===== *)
(** * The semaphore system: its invariant

    [core_ok]: identifiers, sets, queue entries and undo structures fit together.
    It takes the ownership of undo structures by undo lists as an argument, since
    the lists themselves are behind while a list is being walked.  A set whose
    lock is held is a value; [held] is the invariant with that value stored. *)

From stdpp Require Import prelude numbers list gmap.
From Stdlib Require Import ZArith Lia.
From S2P Require Import Prelude Ipc IpcFacts Sem SemFacts.

#[local] Set Default Goal Selector "!".
#[local] Open Scope Z_scope.

Module SemSystem.
Import Ipc IpcFacts Sem SemFacts.

(** ** The invariant *)

Definition ident (i : nat) (sma : sem_array) : Z := ipc_buildid (Z.of_nat i) (seq (sem_perm sma)).

(** [u] belongs to the undo list [l]. *)
Definition owned (own : gmap Z (list Z)) (l u : Z) : Prop := ∃ us, own !! l = Some us ∧ u ∈ us.

Record pending_ok (own : gmap Z (list Z)) (s : sysv) (i : nat) (sma : sem_array) (q : Z) (x : sem_queue)
    : Prop := {
  po_id : q_id x = ident i sma;
  po_entry : entry_ok (length (sem_base sma)) (undos s) x;
  po_undo : ∀ u, q_undo x = Some u →
    u ∈ undo sma ∧ ∃ l, task_ulist s !! q = Some l ∧ owned own l u
}.

Record set_inv (own : gmap Z (list Z)) (s : sysv) (i : nat) (sma : sem_array) : Prop := {
  si_vals : Forall val_ok (sem_base sma);
  si_pending : NoDup (sem_pending sma);
  si_undo : NoDup (undo sma);
  si_queue : ∀ q, q ∈ sem_pending sma → ∃ x, queues s !! q = Some x ∧ pending_ok own s i sma q x;
  si_adj : ∀ u, u ∈ undo sma → ∃ y, undos s !! u = Some y ∧ u_semid y = ident i sma ∧
    length (semadj y) = length (sem_base sma)
}.

(** A queue entry is in the queue of a set, or has got its result. *)
Definition queue_inv (s : sysv) (q : Z) (x : sem_queue) : Prop :=
  if q_linked x then ∃ i sma, obj (sem_ids s) i = Some sma ∧ q ∈ sem_pending sma
  else q_status x ≠ - EINTR.

(** An undo structure is invalidated or in the list of a set. *)
Definition attached (s : sysv) (u : Z) (y : sem_undo) : Prop :=
  u_semid y = -1 ∨ ∃ i sma, obj (sem_ids s) i = Some sma ∧ u ∈ undo sma.

Definition nsems_at (s : sysv) (i : Z) : Z :=
  match obj (sem_ids s) (Z.to_nat i) with Some sma => sem_nsems sma | None => 0 end.

Record core_ok (own : gmap Z (list Z)) (s : sysv) : Prop := {
  co_ids : ids_ok (sem_ids s);
  co_set : ∀ i sma, obj (sem_ids s) i = Some sma → set_inv own s i sma;
  co_queue : ∀ q x, queues s !! q = Some x → queue_inv s q x;
  co_short : ∀ u y, undos s !! u = Some y → Forall is_short (semadj y);
  co_own : ∀ l u, owned own l u → ∃ y, undos s !! u = Some y ∧ attached s u y;
  co_own_nodup : ∀ l us, own !! l = Some us → NoDup us;
  co_own_disj : ∀ l l' u, owned own l u → owned own l' u → l = l';
  co_own_uniq : ∀ l u u' y y', owned own l u → owned own l u' → undos s !! u = Some y →
    undos s !! u' = Some y' → u_semid y = u_semid y' → u_semid y ≠ -1 → u = u';
  co_used : used_sems s = foldr (λ i n, nsems_at s i + n) 0 (seqZ 0 32768)
}.

(** ** Identifiers and slots *)

Lemma obj_small s i (sma : sem_array) : ids_ok (sem_ids s) → obj (sem_ids s) i = Some sma →
  Z.of_nat i < 32768 ∧ 0 <= seq (sem_perm sma).
Proof.
  intros H Hi. pose proof (obj_lt _ _ _ Hi). pose proof (io_len _ H).
  destruct (io_obj _ H _ _ Hi) as [_ Hq]. cbn in Hq. lia.
Qed.

Lemma ident_split s i sma : ids_ok (sem_ids s) → obj (sem_ids s) i = Some sma →
  0 <= ident i sma ∧ Z.to_nat (lid (ident i sma)) = i ∧ ipc_checkid (sem_perm sma) (ident i sma) = false.
Proof.
  intros H Hi. destruct (obj_small _ _ _ H Hi) as [Hlt Hq]. unfold ident. split_and!.
  - unfold ipc_buildid. change SEQ_MULTIPLIER with 32768. lia.
  - rewrite (proj1 (build_split (Z.of_nat i) _ ltac:(lia) Hq)). lia.
  - apply checkid_build; lia.
Qed.

Lemma ident_inj s i j a b : ids_ok (sem_ids s) → obj (sem_ids s) i = Some a →
  obj (sem_ids s) j = Some b → ident i a = ident j b → i = j.
Proof.
  intros H Hi Hj E. destruct (ident_split _ _ _ H Hi) as (_ & <- & _).
  destruct (ident_split _ _ _ H Hj) as (_ & <- & _). by rewrite E.
Qed.

Lemma ident_checked i semid (sma : sem_array) : 0 <= semid → ipc_checkid (sem_perm sma) semid = false →
  Z.to_nat (lid semid) = i → semid = ident i sma.
Proof.
  intros H0 Hc <-. rewrite (build_checked _ _ H0 Hc) at 1. unfold ident. f_equal.
  pose proof (lid_range _ H0). lia.
Qed.

(** A task sleeps on one set only; an undo structure is in the list of one set only. *)
Lemma pending_disj own s i j a b q : core_ok own s → obj (sem_ids s) i = Some a →
  obj (sem_ids s) j = Some b → q ∈ sem_pending a → q ∈ sem_pending b → i = j.
Proof.
  intros H Hi Hj Ha Hb. destruct (si_queue _ _ _ _ (co_set _ _ H _ _ Hi) q Ha) as (x & Hx & Px).
  destruct (si_queue _ _ _ _ (co_set _ _ H _ _ Hj) q Hb) as (x' & Hx' & Px'). simplify_eq.
  eapply ident_inj; [apply H|done|done|]. by rewrite <- (po_id _ _ _ _ _ _ Px), <- (po_id _ _ _ _ _ _ Px').
Qed.

Lemma undo_disj own s i j a b u : core_ok own s → obj (sem_ids s) i = Some a →
  obj (sem_ids s) j = Some b → u ∈ undo a → u ∈ undo b → i = j.
Proof.
  intros H Hi Hj Ha Hb. destruct (si_adj _ _ _ _ (co_set _ _ H _ _ Hi) u Ha) as (y & Hy & Ey & _).
  destruct (si_adj _ _ _ _ (co_set _ _ H _ _ Hj) u Hb) as (y' & Hy' & Ey' & _). simplify_eq.
  eapply ident_inj; [apply H|done|done|]. congruence.
Qed.

Lemma ident_not_dead own s i sma : core_ok own s → obj (sem_ids s) i = Some sma → ident i sma ≠ -1.
Proof. intros H Hi. pose proof (ident_split _ _ _ (co_ids _ _ H) Hi). lia. Qed.

(** What the set-level lemmas need. *)
Lemma core_set_ok own s i sma : core_ok own s → obj (sem_ids s) i = Some sma → set_ok s sma.
Proof.
  intros H Hi. destruct (co_set _ _ H _ _ Hi) as [Hv Hp Hu Hq Ha].
  constructor; [done|done| |by eapply co_short]. intros q Hqp.
  destruct (Hq q Hqp) as (x & Hx & Px). exists x. split; [done|]. apply Px.
Qed.

Lemma sum_nsems_ext s s' l : (∀ i, nsems_at s' i = nsems_at s i) →
  foldr (λ i n, nsems_at s' i + n) 0 l = foldr (λ i n, nsems_at s i + n) 0 l.
Proof. intros H. induction l as [|i l IH]; cbn; [done|]. by rewrite H, IH. Qed.

Lemma sum_nsems_change s s' l i d : NoDup l → i ∈ l → (∀ j, j ∈ l → j ≠ i → nsems_at s' j = nsems_at s j) →
  nsems_at s' i = nsems_at s i + d →
  foldr (λ i n, nsems_at s' i + n) 0 l = foldr (λ i n, nsems_at s i + n) 0 l + d.
Proof.
  intros Hnd Hi Hne Hd. induction Hnd as [|j l Hj Hnd IH]; [by apply elem_of_nil in Hi|]. cbn.
  destruct (decide (j = i)) as [->|Hji].
  - rewrite Hd. enough (foldr (λ i n, nsems_at s' i + n) 0 l = foldr (λ i n, nsems_at s i + n) 0 l) by lia.
    clear -Hj Hne. induction l as [|k l IH]; cbn; [done|]. apply not_elem_of_cons in Hj as [? Hj].
    rewrite (Hne k), IH; [done|done| |set_solver|congruence]. intros m [->|Hm]%elem_of_cons; apply Hne; set_solver.
  - rewrite (Hne j) by (done || by left). apply elem_of_cons in Hi as [->|Hi]; [done|].
    rewrite IH; [lia|done|]. intros m Hm. apply Hne. by right.
Qed.

(** ** Changing one set *)

(** The same undo structures with other adjustments. *)
Record undos_like (us us' : gmap Z sem_undo) : Prop := {
  ul_fwd : ∀ u y, us !! u = Some y → ∃ y', us' !! u = Some y' ∧ u_semid y' = u_semid y ∧
    length (semadj y') = length (semadj y);
  ul_bwd : ∀ u y', us' !! u = Some y' → Forall is_short (semadj y') ∧
    ∃ y, us !! u = Some y ∧ u_semid y' = u_semid y
}.

(** Queue entries after some operations of a set have ended: those not in [pend] or still in
    [pend'] are as they were, the others have their result. *)
Record queues_like (pend pend' : list Z) (qs qs' : gmap Z sem_queue) : Prop := {
  ql_fwd : ∀ q x, qs !! q = Some x → q ∉ pend ∨ q ∈ pend' → qs' !! q = Some x;
  ql_bwd : ∀ q x', qs' !! q = Some x' →
    (qs !! q = Some x' ∧ (q ∉ pend ∨ q ∈ pend')) ∨ (q_linked x' = false ∧ q_status x' ≠ - EINTR)
}.

Lemma entry_ok_like n us us' x : undos_like us us' → entry_ok n us x → entry_ok n us' x.
Proof.
  intros Hl [Ho Hu Ha Hal Hk Hs]. constructor; [done|done| |done..]. intros u Eu.
  destruct (Ha u Eu) as (y & Hy & Hn). destruct (ul_fwd _ _ Hl _ _ Hy) as (y' & ? & _ & ?).
  exists y'. split; [done|congruence].
Qed.

Lemma pending_ok_like own s s' i sma sma' q x : undos_like (undos s) (undos s') →
  task_ulist s' = task_ulist s → ident i sma' = ident i sma →
  length (sem_base sma') = length (sem_base sma) → (∀ u, q_undo x = Some u → u ∈ undo sma → u ∈ undo sma') →
  pending_ok own s i sma q x → pending_ok own s' i sma' q x.
Proof.
  intros Hu Ht Hid Hlen Hun [Pi Pe Pu]. constructor; [congruence| |].
  - rewrite Hlen. by eapply entry_ok_like.
  - intros u Eu. destruct (Pu u Eu) as [? ?]. rewrite Ht. eauto.
Qed.

(** The set in slot [i] changes from [sma] to [sma']: some operations end, some undo structures
    that no list owns leave it. *)
Lemma core_change own s s' i sma sma' :
  core_ok own s → obj (sem_ids s) i = Some sma → ids_ok (sem_ids s') →
  (∀ j, obj (sem_ids s') j = if decide (j = i) then Some sma' else obj (sem_ids s) j) →
  seq (sem_perm sma') = seq (sem_perm sma) → length (sem_base sma') = length (sem_base sma) →
  Forall val_ok (sem_base sma') → NoDup (undo sma') →
  (∀ u, u ∈ undo sma' → u ∈ undo sma) →
  (∀ u, u ∈ undo sma → u ∈ undo sma' ∨ ∀ l, ¬ owned own l u) →
  NoDup (sem_pending sma') → (∀ q, q ∈ sem_pending sma' → q ∈ sem_pending sma) →
  queues_like (sem_pending sma) (sem_pending sma') (queues s) (queues s') →
  undos_like (undos s) (undos s') → task_ulist s' = task_ulist s → used_sems s' = used_sems s →
  core_ok own s'.
Proof.
  intros H Hi Hids Hobj Hseq Hlen Hv Hndu Hun Hun' Hndp Hp Hqs Hus Ht Hused.
  assert (Hident : ident i sma' = ident i sma) by (unfold ident; congruence).
  assert (Hset : ∀ u, u ∈ undo sma' → ∃ y, undos s' !! u = Some y ∧ u_semid y = ident i sma' ∧
    length (semadj y) = length (sem_base sma')).
  { intros u Hu. destruct (si_adj _ _ _ _ (co_set _ _ H _ _ Hi) u (Hun u Hu)) as (y & Hy & E & El).
    destruct (ul_fwd _ _ Hus _ _ Hy) as (y' & ? & ? & ?). exists y'. split_and!; congruence. }
  constructor.
  - done.
  - intros j b. rewrite Hobj. case_decide as Ej; [subst j|]; intros Hb; simplify_eq.
    + constructor; [done|done|done| |done]. intros q Hq.
      destruct (si_queue _ _ _ _ (co_set _ _ H _ _ Hi) q (Hp q Hq)) as (x & Hx & Px). exists x.
      split; [apply (ql_fwd _ _ _ _ Hqs _ _ Hx); auto|]. eapply pending_ok_like; [done|done|done|done| |done].
      intros u Eu Hu. destruct (Hun' u Hu) as [?|Hno]; [done|].
      destruct (po_undo _ _ _ _ _ _ Px u Eu) as (_ & l & _ & Ho). by destruct (Hno l).
    + destruct (co_set _ _ H _ _ Hb) as [Bv Bp Bu Bq Ba]. constructor; [done|done|done| |].
      * intros q Hq. destruct (Bq q Hq) as (x & Hx & Px). exists x. split.
        -- apply (ql_fwd _ _ _ _ Hqs _ _ Hx). left. intros Hq'. apply Ej. by eapply pending_disj.
        -- by eapply pending_ok_like.
      * intros u Hu. destruct (Ba u Hu) as (y & Hy & ? & ?).
        destruct (ul_fwd _ _ Hus _ _ Hy) as (y' & ? & ? & ?). exists y'. split_and!; congruence.
  - intros q x Hx. unfold queue_inv. destruct (ql_bwd _ _ _ _ Hqs _ _ Hx) as [[Hx0 Hor]|[-> Hst]]; [|done].
    pose proof (co_queue _ _ H _ _ Hx0) as Hq. unfold queue_inv in Hq. destruct (q_linked x); [|done].
    destruct Hq as (j & b & Hb & Hqb). exists j. rewrite Hobj. case_decide; [subst|by eauto].
    exists sma'. split; [done|]. simplify_eq. by destruct Hor.
  - intros u y Hy. by destruct (ul_bwd _ _ Hus _ _ Hy).
  - intros l u Ho. destruct (co_own _ _ H _ _ Ho) as (y & Hy & Hat).
    destruct (ul_fwd _ _ Hus _ _ Hy) as (y' & Hy' & Es & _). exists y'. split; [done|].
    destruct Hat as [?|(j & b & Hb & Hub)]; [left; congruence|right]. exists j. rewrite Hobj.
    case_decide; [subst|by eauto]. simplify_eq. exists sma'. split; [done|].
    destruct (Hun' u Hub) as [?|Hno]; [done|]. by destruct (Hno l).
  - apply H.
  - apply H.
  - intros l u u' y y' Ho Ho' Hy Hy' E En.
    destruct (ul_bwd _ _ Hus _ _ Hy) as (_ & z & Hz & Ez). destruct (ul_bwd _ _ Hus _ _ Hy') as (_ & z' & Hz' & Ez').
    apply (co_own_uniq _ _ H l u u' z z'); congruence.
  - rewrite Hused, (co_used _ _ H). symmetry. apply sum_nsems_ext. intros j. unfold nsems_at. rewrite Hobj.
    case_decide as Ej; [|done]. rewrite Ej, Hi. unfold sem_nsems. by rewrite Hlen.
Qed.

Lemma undos_like_refl (s : sysv) own : core_ok own s → undos_like (undos s) (undos s).
Proof. intros H. constructor; [eauto|]. intros u y Hy. split; [by eapply co_short|eauto]. Qed.

Lemma queues_like_refl pend qs : queues_like pend pend qs qs.
Proof.
  constructor; [done|]. intros q x Hx. left. split; [done|]. destruct (decide (q ∈ pend)); auto.
Qed.

(** ** Holding the lock of a set *)

Definition store (semid : Z) (sma : sem_array) (s : sysv) : sysv := on_ids (λ ids, put_obj ids semid sma) s.

Record held (own : gmap Z (list Z)) (semid : Z) (sma : sem_array) (s : sysv) : Prop := {
  he_core : core_ok own (store semid sma s);
  he_pos : 0 <= semid;
  he_id : semid = ident (Z.to_nat (lid semid)) sma;
  he_obj : obj (sem_ids (store semid sma s)) (Z.to_nat (lid semid)) = Some sma
}.

Lemma put_put (ids : ipc_ids sem_array) semid a b : put_obj (put_obj ids semid a) semid b = put_obj ids semid b.
Proof. unfold put_obj. cbn. by rewrite list_insert_insert_eq. Qed.

Lemma put_same (ids : ipc_ids sem_array) semid a : obj ids (Z.to_nat (lid semid)) = Some a →
  put_obj ids semid a = ids.
Proof. rewrite obj_Some. intros H. unfold put_obj. rewrite list_insert_id by done. by destruct ids. Qed.

Lemma held_of own semid sma s : core_ok own s → 0 <= semid → ipc_lock (sem_ids s) semid = Some sma →
  ipc_checkid (sem_perm sma) semid = false → held own semid sma s ∧ store semid sma s = s.
Proof.
  intros H H0 Hl Hc. apply (lock_spec _ _ _ (co_ids _ _ H) H0) in Hl.
  assert (E : store semid sma s = s) by (unfold store, on_ids; rewrite put_same by done; by destruct s).
  split; [|done]. constructor; [by rewrite E|done|by apply ident_checked|by rewrite E].
Qed.

(** Changes of a held set. *)
Lemma held_change own semid sma sma' s s' : held own semid sma s → sem_ids s' = sem_ids s →
  seq (sem_perm sma') = seq (sem_perm sma) → deleted (sem_perm sma') = deleted (sem_perm sma) →
  length (sem_base sma') = length (sem_base sma) →
  Forall val_ok (sem_base sma') → NoDup (undo sma') → (∀ u, u ∈ undo sma' → u ∈ undo sma) →
  (∀ u, u ∈ undo sma → u ∈ undo sma' ∨ ∀ l, ¬ owned own l u) →
  NoDup (sem_pending sma') → (∀ q, q ∈ sem_pending sma' → q ∈ sem_pending sma) →
  queues_like (sem_pending sma) (sem_pending sma') (queues s) (queues s') →
  undos_like (undos s) (undos s') → task_ulist s' = task_ulist s → used_sems s' = used_sems s →
  held own semid sma' s'.
Proof.
  intros [Hc H0 Hid Ho] Hids Hseq Hdel Hlen Hv Hndu Hun Hun' Hndp Hp Hqs Hus Ht Hused.
  destruct (put_spec (sem_ids (store semid sma s)) semid sma sma') as [Hok Hobj];
    [apply Hc|done|done|cbn; rewrite Hdel; by apply (io_obj _ (co_ids _ _ Hc) _ _ Ho)|done|].
  cbn in Hok, Hobj. rewrite put_put in Hok, Hobj.
  constructor; [|done|unfold ident in *; by rewrite Hseq|].
  - eapply (core_change _ (store semid sma s) _ (Z.to_nat (lid semid)) sma sma'); try done; cbn; by rewrite ?Hids.
  - cbn. rewrite Hids, Hobj. by rewrite decide_True.
Qed.

Lemma held_set_ok own semid sma s : held own semid sma s → set_ok s sma.
Proof. intros [Hc _ _ Ho]. destruct (core_set_ok _ _ _ _ Hc Ho). by constructor. Qed.

(** [update_queue] on a held set. *)
Lemma error_not_intr v : error_of v ≠ - EINTR.
Proof. destruct v as [|b|]; cbn; [done| |done]. by destruct (flag IPC_NOWAIT b). Qed.

Lemma completes_inv qs a b : rtc (completes qs) a b →
  (∀ q, q ∈ ap b → q ∈ ap a) ∧
  (∀ p, p ∈ ad a → p ∈ ad b) ∧
  (∀ q, q ∈ ap a → q ∈ ap b ∨ ∃ e, (q, e) ∈ ad b) ∧
  (∀ q e, (q, e) ∈ ad b → (q, e) ∈ ad a ∨ (q ∈ ap a ∧ (q ∉ ap b) ∧ e ≠ - EINTR)) ∧
  ((∀ u y, au a !! u = Some y → Forall is_short (semadj y)) → undos_like (au a) (au b)).
Proof.
  induction 1 as [a|a b c Hab _ (I1 & I0 & I2 & I3 & I4)].
  { split_and!; auto. intros H. constructor; [eauto|]. intros u y Hy. split; eauto. }
  destruct Hab as [q x vals us pend fin v Hq Hx He]. cbn [ap ad au] in *. split_and!.
  - intros j Hj. by apply I1, list_elem_of_filter in Hj as [_ ?].
  - intros p Hp. apply I0, elem_of_app. by left.
  - intros j Hj. destruct (decide (j = q)) as [->|]; [right|by apply I2, list_elem_of_filter].
    exists (error_of v). apply I0, elem_of_app. right. by apply list_elem_of_singleton.
  - intros j e Hje. destruct (I3 _ _ Hje) as [[?|[= -> ->]%list_elem_of_singleton]%elem_of_app|(Hj & Hn & He')];
      [by left|right|right].
    + split_and!; [done| |apply error_not_intr]. by intros [? _]%I1%list_elem_of_filter.
    + apply list_elem_of_filter in Hj as [_ ?]. done.
  - intros Hs. pose proof (short_after v (q_undo x) (q_sops x) us Hs) as Hs'.
    destruct (I4 Hs') as [F B]. constructor.
    + intros u y Hy. destruct (undos_after_lookup v (q_undo x) (q_sops x) us u) as (f & Ef & Hf).
      rewrite Hy in Ef. destruct (F _ _ Ef) as (y' & ? & ? & ?). exists y'. destruct (Hf y) as (? & ? & _).
      split_and!; congruence.
    + intros u y' Hy'. destruct (B _ _ Hy') as (Hsh & y & Hy & E). split; [done|].
      destruct (undos_after_lookup v (q_undo x) (q_sops x) us u) as (f & Ef & Hf). rewrite Ef in Hy.
      apply fmap_Some in Hy as (z & Hz & ->). exists z. split; [done|]. rewrite E. apply Hf.
Qed.

Lemma finish_other fin qs q : (∀ e, (q, e) ∉ fin) → finish fin qs !! q = qs !! q.
Proof.
  revert qs. induction fin as [|[p e] fin IH]; intros qs H; [done|]. unfold finish in *. cbn.
  rewrite IH; [|intros e' He'; apply (H e'); by right].
  apply lookup_alter_ne. intros ->. destruct (H e). by left.
Qed.

Lemma finish_done fin qs q e : (q, e) ∈ fin → ∀ x', finish fin qs !! q = Some x' →
  q_linked x' = false ∧ (q, q_status x') ∈ fin.
Proof.
  assert (H : ∀ fin qs x', finish fin qs !! q = Some x' →
    (qs !! q = Some x' ∧ ∀ e, (q, e) ∉ fin) ∨ (q_linked x' = false ∧ (q, q_status x') ∈ fin)).
  { clear. induction fin as [|[p d] fin IH]; intros qs x' Hx.
    { left. split; [done|]. intros e He. by apply elem_of_nil in He. }
    unfold finish in *. cbn in Hx. destruct (IH _ _ Hx) as [[Hq Hno]|[? ?]]; [|right; split; [done|by right]].
    destruct (decide (p = q)) as [->|Hne].
    - rewrite lookup_alter_eq in Hq. apply fmap_Some in Hq as (z & _ & ->). right. split; [done|]. by left.
    - rewrite lookup_alter_ne in Hq by done. left. split; [done|]. intros e.
      rewrite elem_of_cons. intros [[= ? ?]|?]; [congruence|by eapply Hno]. }
  intros He x' Hx. destruct (H _ _ _ Hx) as [[_ Hno]|?]; [by destruct (Hno e)|done].
Qed.

Lemma finish_None fin : ∀ qs q, qs !! q = None → finish fin qs !! q = None.
Proof.
  unfold finish. induction fin as [|p fin IH]; intros qs q H; [done|]. cbn. apply IH.
  destruct (decide (p.1 = q)) as [<-|]; [by rewrite lookup_alter_eq, H|by rewrite lookup_alter_ne].
Qed.

Lemma drained_queues qs sma s sma' s' fin :
  rtc (completes qs) (abs sma s []) (abs sma' s' fin) →
  queues_like (sem_pending sma) (sem_pending sma') (queues s) (finish fin (queues s)).
Proof.
  intros (I1 & _ & I2 & I3 & _)%completes_inv. cbn [abs ap ad] in *.
  assert (I3' : ∀ q e, (q, e) ∈ fin → q ∈ sem_pending sma ∧ (q ∉ sem_pending sma') ∧ e ≠ - EINTR).
  { intros q e H. destruct (I3 _ _ H) as [H0|?]; [by apply elem_of_nil in H0|done]. }
  assert (Hcase : ∀ q, (∃ e, (q, e) ∈ fin) ∨ ((∀ e, (q, e) ∉ fin) ∧ (q ∉ sem_pending sma ∨ q ∈ sem_pending sma'))).
  { intros q. destruct (decide (q ∈ sem_pending sma)) as [Hq|Hq].
    - destruct (I2 _ Hq) as [H|H]; [right|by left]. split; [|by right]. by intros e (_ & ? & _)%I3'.
    - right. split; [|by left]. by intros e (? & _ & _)%I3'. }
  constructor.
  - intros q x Hx Hor. rewrite finish_other; [done|]. intros e (? & ? & _)%I3'. by destruct Hor.
  - intros q x' Hx'. destruct (Hcase q) as [[e He]|[Hno Hor]].
    + right. destruct (finish_done _ _ _ _ He _ Hx') as [? Hst]. split; [done|]. by apply I3' in Hst as (_ & _ & ?).
    + left. by rewrite finish_other in Hx'.
Qed.

Lemma held_undo own semid sma s : held own semid sma s → NoDup (undo sma).
Proof. intros [Hc _ _ Ho]. apply (co_set _ _ Hc _ _ Ho). Qed.

(** The parts of the system that operations on a set leave alone. *)
Record elsewhere (s s' : sysv) : Prop := {
  el_ids : sem_ids s' = sem_ids s;
  el_ulists : ulists s' = ulists s;
  el_task : task_ulist s' = task_ulist s;
  el_used : used_sems s' = used_sems s;
  el_undos : undos_like (undos s) (undos s');
  el_queues : ∀ q, queues s !! q = None → queues s' !! q = None
}.

Lemma held_update_queue own semid sma s now Ψ : held own semid sma s →
  wp (update_queue sma now) (λ sma' s', held own semid sma' s' ∧ elsewhere s s' ∧ undo sma' = undo sma) Ψ s.
Proof.
  intros Hh. pose proof (held_set_ok _ _ _ _ Hh) as Hok. eapply wp_mono; [by apply wp_update_queue|].
  intros sma' s' (fin & Hr & _ & Hok' & [Hi Hq Hul Ht Hu _] & [Hp Hun Hl]). cbn [app] in Hr.
  pose proof (drained_queues _ _ _ _ _ _ Hr) as Hql. rewrite <- Hq in Hql.
  pose proof (completes_inv _ _ _ Hr) as (I1 & _ & _ & _ & I4).
  pose proof (I4 (so_short _ _ Hok)) as Hus. cbn [abs au] in Hus. split_and!; [|constructor; try done|done].
  - eapply held_change; try done; [congruence|congruence|apply Hok'|rewrite Hun; by eapply held_undo|
      by rewrite Hun|rewrite Hun; auto|apply Hok'].
  - intros q Hq0. destruct (queues s' !! q) as [x'|] eqn:E; [|done].
    rewrite Hq in E. by rewrite finish_None in E.
Qed.

(** ** The whole system *)

Definition own_of (s : sysv) : gmap Z (list Z) := proc_list <$> ulists s.

(** Reference counts of undo lists, and no undo structure is lost. *)
Record refs_ok (s : sysv) : Prop := {
  ro_task : ∀ t l, task_ulist s !! t = Some l → is_Some (ulists s !! l);
  ro_count : ∀ l x, ulists s !! l = Some x →
    0 < refcnt x ∧ refcnt x = Z.of_nat (size (filter (λ p, p.2 = l) (task_ulist s)))
}.

Definition all_owned (own : gmap Z (list Z)) (us : gmap Z sem_undo) : Prop :=
  ∀ u, is_Some (us !! u) → ∃ l, owned own l u.

Record sys_ok (s : sysv) : Prop := {
  sy_core : core_ok (own_of s) s;
  sy_refs : refs_ok s;
  sy_owned : all_owned (own_of s) (undos s)
}.

Lemma undos_like_dom us us' u : undos_like us us' → is_Some (us' !! u) → is_Some (us !! u).
Proof. intros H [y Hy]. destruct (ul_bwd _ _ H _ _ Hy) as (_ & z & -> & _). done. Qed.

Lemma undos_like_trans a b c : undos_like a b → undos_like b c → undos_like a c.
Proof.
  intros [F1 B1] [F2 B2]. constructor.
  - intros u y Hy. destruct (F1 _ _ Hy) as (y1 & Hy1 & ? & ?). destruct (F2 _ _ Hy1) as (y2 & ? & ? & ?).
    exists y2. split_and!; congruence.
  - intros u y Hy. destruct (B2 _ _ Hy) as (? & y1 & Hy1 & ?). split; [done|].
    destruct (B1 _ _ Hy1) as (_ & y0 & ? & ?). exists y0. split; congruence.
Qed.

Lemma elsewhere_trans a b c : elsewhere a b → elsewhere b c → elsewhere a c.
Proof.
  intros [? ? ? ? U1 Q1] [? ? ? ? U2 Q2]. constructor; [congruence..|by eapply undos_like_trans|auto].
Qed.

Lemma elsewhere_refl own semid sma s : held own semid sma s → elsewhere s s.
Proof. intros [Hc _ _ _]. constructor; [done..| |done]. by apply (undos_like_refl (store semid sma s) own). Qed.

Lemma sys_elsewhere s s' : refs_ok s → all_owned (own_of s) (undos s) → ulists s' = ulists s →
  task_ulist s' = task_ulist s → undos_like (undos s) (undos s') →
  refs_ok s' ∧ all_owned (own_of s') (undos s').
Proof.
  intros [R1 R2] Ho Hul Ht Hu. split; [by constructor; rewrite ?Hul, ?Ht|].
  intros u Hs. unfold own_of. rewrite Hul. apply Ho. by eapply undos_like_dom.
Qed.

(** Storing a set back ends the critical section. *)
Lemma sys_unlock s s' semid sma : sys_ok s → held (own_of s) semid sma s' → elsewhere s s' →
  sys_ok (store semid sma s').
Proof.
  intros [_ Hr Ho] [Hc _ _ _] [Hi Hul Ht Hu Hun _].
  destruct (sys_elsewhere s (store semid sma s') Hr Ho) as [? ?]; [done..|].
  constructor; [|done|done]. unfold own_of in *. cbn. by rewrite Hul.
Qed.

Lemma wp_lock_check own s semid : core_ok own s → 0 <= semid →
  wp (lock_check semid) (λ sma s', s' = s ∧ held own semid sma s ∧ store semid sma s = s) (λ _ s', s' = s) s.
Proof.
  intros Hc H0. unfold lock_check. do 2 sem_step.
  destruct (ipc_lock (sem_ids s) semid) as [sma|] eqn:El; [|done].
  destruct (ipc_checkid (sem_perm sma) semid) eqn:Ec; [done|]. sem_step. split; [done|]. by apply held_of.
Qed.

Lemma wp_each_undo f l s Ψ : NoDup l → (∀ u, u ∈ l → is_Some (undos s !! u)) →
  wp (each_undo f l) (λ _ s', ∃ us', s' = on_undos (λ _, us') s ∧
    ∀ u, us' !! u = if decide (u ∈ l) then f <$> undos s !! u else undos s !! u) Ψ s.
Proof.
  intros Hnd. revert s. induction Hnd as [|u l Hu Hnd IH]; intros s Hl; cbn [each_undo].
  { sem_step. exists (undos s). split; [by destruct s|]. intros u. by rewrite decide_False by (apply not_elem_of_nil). }
  destruct (Hl u) as [y Hy]; [by left|]. sem_step. eapply wp_get_undo; [done|]. sem_step. apply wp_modify.
  eapply wp_mono; [apply IH|].
  { intros w Hw. cbn. rewrite lookup_insert_is_Some'. right. apply Hl. by right. }
  intros _ s' (us' & -> & H). exists us'. split; [done|]. intros w. rewrite H. cbn.
  destruct (decide (w = u)) as [->|Hne].
  - destruct (decide (u ∈ l)); [done|]. rewrite decide_True by (by left). by rewrite lookup_insert_eq, Hy.
  - rewrite lookup_insert_ne by done. destruct (decide (w ∈ l)) as [?|Hn].
    + rewrite decide_True by (by right). done.
    + rewrite decide_False; [done|]. by intros [?|?]%elem_of_cons.
Qed.

(** New adjustments of the undo structures of a set. *)
Lemma each_undo_like own semid sma s us' f : held own semid sma s →
  (∀ y, u_semid (f y) = u_semid y ∧ length (semadj (f y)) = length (semadj y) ∧
        (Forall is_short (semadj y) → Forall is_short (semadj (f y)))) →
  (∀ u, us' !! u = if decide (u ∈ undo sma) then f <$> undos s !! u else undos s !! u) →
  undos_like (undos s) us'.
Proof.
  intros [Hc _ _ _] Hf Hus. pose proof (co_short _ _ Hc) as Hsh. cbn in Hsh. constructor.
  - intros u y Hy. rewrite Hus, Hy. case_decide; cbn; [|eauto]. exists (f y). destruct (Hf y) as (? & ? & _). done.
  - intros u y'. rewrite Hus. case_decide; [|eauto]. intros (y & Hy & ->)%fmap_Some.
    destruct (Hf y) as (? & _ & Hfs). split; [by apply Hfs, (Hsh u)|eauto].
Qed.

(** Setting values, as SETALL and SETVAL do: the adjustments of the set are cleared where
    they apply, and the sleeping operations get their chance. *)
Lemma wp_set_values s semid sma sma1 f now : sys_ok s → held (own_of s) semid sma s →
  sem_perm sma1 = sem_perm sma → length (sem_base sma1) = length (sem_base sma) →
  Forall val_ok (sem_base sma1) → sem_pending sma1 = sem_pending sma → undo sma1 = undo sma →
  (∀ y, u_semid (f y) = u_semid y ∧ length (semadj (f y)) = length (semadj y) ∧
        (Forall is_short (semadj y) → Forall is_short (semadj (f y)))) →
  wp (_ ← each_undo f (undo sma);
      sma ← update_queue sma1 now; _ ← unlock_put semid sma; mret (0, @nil Z))
    (λ _ s', sys_ok s') (λ _ s', sys_ok s') s.
Proof.
  intros Hs Hh Hp Hl Hv Hpe Hun Hf. destruct (co_set _ _ (he_core _ _ _ _ Hh) _ _ (he_obj _ _ _ _ Hh)) as [_ Hnp Hnu _ Ha].
  sem_step. eapply wp_mono; [apply wp_each_undo; [done|]|].
  { intros u Hu. destruct (Ha u Hu) as (y & Hy & _). by exists y. }
  intros _ s1 (us' & -> & Hus). pose proof (each_undo_like _ _ _ _ _ _ Hh Hf Hus) as Hlike.
  assert (Hh1 : held (own_of s) semid sma1 (on_undos (λ _, us') s)).
  { eapply held_change; try done; rewrite ?Hp, ?Hun, ?Hpe; auto using queues_like_refl. }
  sem_step. eapply wp_mono; [by apply held_update_queue|]. intros sma2 s2 (Hh2 & He & _).
  sem_step. apply wp_modify. sem_step. eapply sys_unlock; [done|done|].
  eapply elsewhere_trans; [|done]. by constructor.
Qed.

End SemSystem.
