(* ===== verification/SemCalls.v ===== *)
(** * The semaphore system calls keep the invariant

    Each call of ipc/sem.c, from a consistent system, does not stop in a [Bug] and
    leaves a consistent system, whether it succeeds or fails. *)

From stdpp Require Import prelude numbers list gmap.
From Stdlib Require Import ZArith Lia.
From S2P Require Import Prelude Ipc IpcFacts Sem SemFacts SemSystem.

#[local] Set Default Goal Selector "!".
#[local] Open Scope Z_scope.

Module SemCalls.
Import Ipc IpcFacts Sem SemFacts SemSystem.

(** From a consistent state the code reaches a consistent one. *)
Definition keeps {A} (m : SM sysv A) (s : sysv) : Prop :=
  wp m (λ _ s', sys_ok s') (λ _ s', sys_ok s') s.

Lemma keeps_lock {A} semid (k : sem_array → SM sysv A) s : sys_ok s → 0 <= semid →
  (∀ sma, held (own_of s) semid sma s → store semid sma s = s → keeps (k sma) s) → keeps (lock_check semid ≫= k) s.
Proof.
  intros Hs H0 Hk. apply wp_bind. eapply wp_impl; [apply (wp_lock_check (own_of s)); [apply Hs|done]| |].
  - intros sma s' (-> & Hh & E). by apply Hk.
  - by intros e s' ->.
Qed.

Lemma keeps_ret {A} (a : A) s : sys_ok s → keeps (mret a) s.
Proof. done. Qed.
Lemma keeps_fail {A} e s : sys_ok s → keeps (A := A) (fail e) s.
Proof. done. Qed.
#[local] Hint Resolve keeps_ret keeps_fail : core.

(** Branches that only look. *)
Ltac looks := repeat first [done | apply keeps_ret | apply keeps_fail | case_match].

Section calls.
Context (sc_semmsl sc_semmns sc_semopm sc_semmni : Z).

(** ** semctl *)

Lemma wrap16_val v : wrap16 v <= SEMVMX → 0 <= wrap16 v <= SEMVMX.
Proof. pose proof (wrap16_range v). lia. Qed.

Lemma setall_vals vals (base : list sem) : length vals = length base →
  existsb (λ v, SEMVMX <? v) (wrap16 <$> vals) = false →
  Forall val_ok (zip_with (λ v x, mk_sem v (sempid x)) (wrap16 <$> vals) base).
Proof.
  intros Hl He. apply Forall_lookup_2. intros i c. rewrite lookup_zip_with. intros (v & Hv & Hi)%bind_Some.
  apply bind_Some in Hi as (x & _ & [= <-]). apply list_lookup_fmap_Some in Hv as (w & -> & Hw).
  apply wrap16_val. rewrite <- not_true_iff_false, existsb_exists in He.
  destruct (Z.le_gt_cases (wrap16 w) SEMVMX); [done|]. destruct He. exists (wrap16 w).
  split; [|by apply Z.ltb_lt]. apply in_map, list_elem_of_In. by eapply list_elem_of_lookup_2.
Qed.

Lemma clear_all_ok (y : sem_undo) :
  let y' := mk_undo (u_semid y) (replicate (length (semadj y)) 0) in
  u_semid y' = u_semid y ∧ length (semadj y') = length (semadj y) ∧
  (Forall is_short (semadj y) → Forall is_short (semadj y')).
Proof. cbn. split_and!; [done|apply length_replicate|]. intros _. by apply Forall_replicate. Qed.

Lemma clear_one_ok n (y : sem_undo) :
  let y' := mk_undo (u_semid y) (<[n := 0]> (semadj y)) in
  u_semid y' = u_semid y ∧ length (semadj y') = length (semadj y) ∧
  (Forall is_short (semadj y) → Forall is_short (semadj y')).
Proof. cbn. split_and!; [done|apply length_insert|]. intros H. by apply Forall_insert. Qed.

(** The commands on one semaphore of the set. *)
Lemma keeps_at semnum sma (k : sem → SM sysv (Z * list Z)) s : sys_ok s →
  (∀ curr, (Z.to_nat semnum < length (sem_base sma))%nat → keeps (k curr) s) →
  keeps (if (semnum <? 0) || (sem_nsems sma <=? semnum) then fail EINVAL else
         match sem_base sma !! Z.to_nat semnum with None => bug | Some curr => k curr end) s.
Proof.
  intros Hs Hk. destruct ((semnum <? 0) || (sem_nsems sma <=? semnum)) eqn:E; [by apply keeps_fail|].
  zb_hyps. unfold sem_nsems in *. destruct (lookup_lt_is_Some_2 (sem_base sma) (Z.to_nat semnum)) as [curr ->]; [lia|].
  apply Hk. lia.
Qed.

Lemma semctl_main_ok c semid semnum cmd tgid now alloc copy s : sys_ok s → 0 <= semid →
  keeps (semctl_main c semid semnum cmd tgid now alloc copy) s.
Proof.
  intros Hs H0. unfold semctl_main. apply keeps_lock; [done|done|]. intros sma Hh Est. cbv zeta.
  destruct (ipcperms _ _ _); [by apply keeps_fail|].
  pose proof (so_vals _ _ (held_set_ok _ _ _ _ Hh)) as Hv.
  destruct cmd as [|vals| | | | | |val].
  1, 3: by looks.
  2-5: apply keeps_at; [done|]; intros; by apply wp_bind, wp_gets, wp_ret.
  - destruct (_ && negb alloc); [by apply keeps_fail|].
    destruct (negb (copy && _)) eqn:El; [by apply keeps_fail|].
    destruct (existsb _ _) eqn:Ee; [by apply keeps_fail|]. destruct (deleted _); [by apply keeps_fail|].
    zb_hyps. match goal with H : Nat.eqb _ _ = true |- _ => apply Nat.eqb_eq in H end.
    apply (wp_set_values _ _ sma); [done|done|done| |by apply setall_vals|done|done|apply clear_all_ok].
    cbn. rewrite length_zip_with, length_fmap. lia.
  - apply keeps_at; [done|]. intros curr Hlt. apply wp_bind, wp_gets.
    destruct ((SEMVMX <? val) || (val <? 0)) eqn:Er; [by apply keeps_fail|]. zb_hyps.
    apply (wp_set_values _ _ sma); [done|done|done|apply length_insert| |done|done|apply clear_one_ok].
    apply Forall_insert; [done|]. unfold val_ok. cbn. lia.
Qed.

Lemma held_sys s semid sma sma' : sys_ok s → held (own_of s) semid sma s → sem_base sma' = sem_base sma →
  sem_pending sma' = sem_pending sma → undo sma' = undo sma →
  seq (sem_perm sma') = seq (sem_perm sma) → deleted (sem_perm sma') = deleted (sem_perm sma) →
  sys_ok (store semid sma' s).
Proof.
  intros Hs Hh Hb Hp Hu Hq Hd. pose proof (held_set_ok _ _ _ _ Hh) as [Hv Hnd _ _].
  eapply (sys_unlock s); [done| |by eapply elsewhere_refl]. eapply held_change; try done;
    rewrite ?Hb, ?Hp, ?Hu; auto using queues_like_refl; [by eapply held_undo|].
  by eapply el_undos, elsewhere_refl.
Qed.

Lemma semctl_set_ok c semid nuid ngid nmode now s : sys_ok s → 0 <= semid →
  keeps (semctl_set c semid nuid ngid nmode now) s.
Proof.
  intros Hs H0. unfold semctl_set. apply keeps_lock; [done|done|]. intros sma Hh Est. cbv zeta.
  destruct (negb _); [by apply keeps_fail|]. unfold keeps. sem_step. apply wp_modify. sem_step.
  by eapply held_sys.
Qed.

Lemma semctl_nolock_ok c semid cmd copy s : sys_ok s →
  keeps (semctl_nolock sc_semmsl sc_semmns sc_semopm sc_semmni c semid cmd copy) s.
Proof. intros Hs. unfold keeps, semctl_nolock. do 2 sem_step. destruct cmd; looks. Qed.

(** Removing a set: its undo structures are invalidated, its sleepers get EIDRM. *)
Lemma wp_wake_all l s Ψ : NoDup l → (∀ q, q ∈ l → is_Some (queues s !! q)) →
  wp (wake_all l) (λ _ s', ∃ qs' w, s' = mk_sysv (sem_ids s) qs' (undos s) (ulists s) (task_ulist s) (used_sems s) w ∧
    ∀ q, qs' !! q = if decide (q ∈ l) then link false (- EIDRM) <$> queues s !! q else queues s !! q) Ψ s.
Proof.
  intros Hnd. revert s. induction Hnd as [|u l Hu Hnd IH]; intros s Hl; cbn [wake_all].
  { sem_step. exists (queues s), (woken s). split; [by destruct s|]. intros u.
    by rewrite decide_False by (apply not_elem_of_nil). }
  destruct (Hl u) as [y Hy]; [by left|]. sem_step. eapply wp_get_sleeper; [done|]. do 3 sem_step. apply wp_modify.
  eapply wp_mono; [apply IH|].
  { intros w Hw. cbn. rewrite lookup_insert_is_Some'. right. apply Hl. by right. }
  intros _ s' (qs' & wk & -> & H). exists qs', wk. split; [done|]. intros w. rewrite H. cbn.
  destruct (decide (w = u)) as [->|Hne].
  - destruct (decide (u ∈ l)); [done|]. rewrite decide_True by (by left). by rewrite lookup_insert_eq, Hy.
  - rewrite lookup_insert_ne by done. destruct (decide (w ∈ l)) as [?|Hn].
    + rewrite decide_True by (by right). done.
    + rewrite decide_False; [done|]. by intros [?|?]%elem_of_cons.
Qed.

Definition dead_undo (y : sem_undo) : sem_undo := mk_undo (-1) (semadj y).

Lemma core_remove own s s' i sma : core_ok own s → obj (sem_ids s) i = Some sma → ids_ok (sem_ids s') →
  (∀ j, obj (sem_ids s') j = if decide (j = i) then None else obj (sem_ids s) j) →
  (∀ q, queues s' !! q = if decide (q ∈ sem_pending sma) then link false (- EIDRM) <$> queues s !! q
                         else queues s !! q) →
  (∀ u, undos s' !! u = if decide (u ∈ undo sma) then dead_undo <$> undos s !! u else undos s !! u) →
  task_ulist s' = task_ulist s → used_sems s' = used_sems s - sem_nsems sma → core_ok own s'.
Proof.
  intros H Hi Hids Hobj Hq Hu Ht Hused. pose proof (co_set _ _ H _ _ Hi) as Hset.
  assert (Hback : ∀ u y, undos s' !! u = Some y → ∃ y0, undos s !! u = Some y0 ∧ semadj y = semadj y0 ∧
    (u_semid y = -1 ∨ u_semid y = u_semid y0)).
  { intros u y. rewrite Hu. case_decide; [|eauto 10]. intros (y0 & Hy0 & ->)%fmap_Some. cbn. eauto 10. }
  constructor.
  - done.
  - intros j b. rewrite Hobj. case_decide as Ej; [done|]. intros Hb.
    destruct (co_set _ _ H _ _ Hb) as [Bv Bp Bu Bq Ba].
    assert (Hnu : ∀ u, u ∈ undo b → undos s' !! u = undos s !! u).
    { intros u Hub. rewrite Hu, decide_False; [done|]. intros Hua. apply Ej. by eapply undo_disj. }
    constructor; [done|done|done| |].
    + intros q Hqb. destruct (Bq q Hqb) as (x & Hx & [Pi [Eo Eu Ea El Ek Es] Pu]). exists x. split.
      { rewrite Hq, decide_False; [done|]. intros Hqa. apply Ej. by eapply pending_disj. }
      constructor; [done| |by rewrite Ht]. constructor; [done|done| |done..]. intros u Eq.
      rewrite Hnu; [by apply Ea|]. by apply Pu.
    + intros u Hub. rewrite Hnu by done. by apply Ba.
  - intros q x. rewrite Hq. case_decide as Eq; [by intros (x0 & _ & ->)%fmap_Some|]. intros Hx.
    pose proof (co_queue _ _ H _ _ Hx) as Hqi. unfold queue_inv in *. destruct (q_linked x); [|done].
    destruct Hqi as (j & b & Hb & Hqb). exists j, b. rewrite Hobj. case_decide; [congruence|done].
  - intros u y Hy. destruct (Hback _ _ Hy) as (y0 & Hy0 & -> & _). by eapply co_short.
  - intros l u Ho. destruct (co_own _ _ H _ _ Ho) as (y & Hy & Hat). rewrite Hu, Hy. case_decide as Eu.
    { exists (dead_undo y). split; [done|]. by left. }
    exists y. split; [done|]. destruct Hat as [?|(j & b & Hb & Hub)]; [by left|right].
    exists j, b. rewrite Hobj. case_decide; [congruence|done].
  - apply H.
  - apply H.
  - intros l u u' y y' Ho Ho' Hy Hy' E En. destruct (Hback _ _ Hy) as (z & Hz & _ & [?|Ez]); [done|].
    destruct (Hback _ _ Hy') as (z' & Hz' & _ & [?|Ez']); [congruence|].
    apply (co_own_uniq _ _ H l u u' z z'); congruence.
  - rewrite Hused, (co_used _ _ H). pose proof (obj_small _ _ _ (co_ids _ _ H) Hi) as [Hlt _].
    rewrite (sum_nsems_change s s' _ (Z.of_nat i) (- sem_nsems sma)); [lia|apply NoDup_seqZ|apply elem_of_seqZ; lia| |].
    + intros j Hj%elem_of_seqZ Hne. unfold nsems_at. rewrite Hobj. case_decide; [lia|done].
    + unfold nsems_at. rewrite Hobj, Nat2Z.id, decide_True, Hi by done. lia.
Qed.

Lemma semctl_rmid_ok c semid s : sys_ok s → 0 <= semid → keeps (semctl_rmid c semid) s.
Proof.
  intros Hs H0. unfold semctl_rmid. apply keeps_lock; [done|done|]. intros sma Hh Est.
  destruct (negb _); [by apply keeps_fail|]. unfold keeps, freeary. do 2 sem_step.
  destruct Hh as [Hc _ Hid Ho]. assert (E : obj (sem_ids s) (Z.to_nat (lid semid)) = Some sma). { by rewrite Est in Ho. }
  destruct (co_set _ _ (sy_core _ Hs) _ _ E) as [_ Hnp Hnu Hq Ha].
  eapply wp_mono; [apply wp_each_undo; [done|]|].
  { intros u Hu. destruct (Ha u Hu) as (y & Hy & _). by exists y. }
  intros _ s1 (us' & -> & Hus). sem_step. eapply wp_mono; [apply wp_wake_all; [done|]|].
  { intros q Hqp. destruct (Hq q Hqp) as (x & Hx & _). by exists x. }
  intros _ s2 (qs' & w & -> & Hqs). do 2 sem_step. cbn [sem_ids on_undos].
  destruct (rmid_spec (sem_ids s) semid sma) as (ids' & -> & Hok & _ & Hobj); [apply Hs|done|done|].
  do 2 sem_step. apply wp_modify. sem_step. cbn.
  set (s' := on_used _ _). constructor.
  - eapply (core_remove _ s s' _ sma); [apply Hs|done|done|done|done|done|done|done].
  - destruct (sy_refs _ Hs) as [R1 R2]. by constructor.
  - intros u Hu. apply (sy_owned _ Hs). cbn in Hu. rewrite Hus in Hu. case_decide; [|done].
    by rewrite fmap_is_Some in Hu.
Qed.

(** ** semget *)

Lemma core_add own s s' n new : core_ok own s → obj (sem_ids s) n = None → Z.of_nat n < 32768 →
  ids_ok (sem_ids s') →
  (∀ j, obj (sem_ids s') j = if decide (j = n) then Some new else obj (sem_ids s) j) →
  Forall val_ok (sem_base new) → sem_pending new = [] → undo new = [] →
  queues s' = queues s → undos s' = undos s → task_ulist s' = task_ulist s →
  used_sems s' = used_sems s + sem_nsems new → core_ok own s'.
Proof.
  intros H Hn Hlt Hids Hobj Hv Hp Hu Eq Eu Et Hused.
  assert (Hold : ∀ j b, obj (sem_ids s) j = Some b → obj (sem_ids s') j = Some b).
  { intros j b Hb. rewrite Hobj. case_decide; [congruence|done]. }
  constructor.
  - done.
  - intros j b. rewrite Hobj. case_decide as Ej.
    + intros [= <-]. constructor; rewrite ?Hp, ?Hu; [done|constructor|constructor| |]; intros ? []%elem_of_nil.
    + intros Hb. destruct (co_set _ _ H _ _ Hb) as [Bv Bp Bu Bq Ba].
      constructor; [done|done|done| |by rewrite Eu]. rewrite Eq. intros q Hq. destruct (Bq q Hq) as (x & Hx & [? ? ?]).
      exists x. split; [done|]. constructor; [done|by rewrite Eu|by rewrite Et].
  - rewrite Eq. intros q x Hx. pose proof (co_queue _ _ H _ _ Hx) as Hq. unfold queue_inv in *.
    destruct (q_linked x); [|done]. destruct Hq as (j & b & ? & ?). eauto.
  - rewrite Eu. apply H.
  - rewrite Eu. intros l u Ho. destruct (co_own _ _ H _ _ Ho) as (y & Hy & Hat). exists y. split; [done|].
    destruct Hat as [?|(j & b & ? & ?)]; [by left|right]. eauto.
  - apply H.
  - apply H.
  - rewrite Eu. apply H.
  - rewrite Hused, (co_used _ _ H).
    rewrite (sum_nsems_change s s' _ (Z.of_nat n) (sem_nsems new)); [lia|apply NoDup_seqZ|apply elem_of_seqZ; lia| |].
    + intros j Hj%elem_of_seqZ Hne. unfold nsems_at. rewrite Hobj. case_decide; [lia|done].
    + unfold nsems_at. rewrite Hobj, Nat2Z.id, decide_True, Hn by done. lia.
Qed.

Lemma lid_small i : 0 <= i < 32768 → lid i = i.
Proof. intros. unfold lid. change SEQ_MULTIPLIER with 32768. by apply Z.rem_small. Qed.

Lemma newary_ok c k nsems flg alloc grow now s : 0 <= sc_semmni → sys_ok s → 0 <= nsems →
  keeps (newary sc_semmns sc_semmni c k nsems flg alloc grow now) s.
Proof.
  intros Hmni Hs Hn. unfold keeps, newary. do 2 sem_step.
  destruct (nsems =? 0); [by apply wp_fail|]. destruct (_ <? _); [by apply wp_fail|].
  destruct (negb alloc); [by apply wp_fail|].
  set (new := mk_sma _ _ _ _ _ _).
  destruct (addid_spec (sem_ids s) new sc_semmni grow c) as (r & ids' & -> & Hok & Hr); [apply Hs|done|].
  assert (Hsys : ∀ s', core_ok (own_of s) s' → ulists s' = ulists s → task_ulist s' = task_ulist s →
    undos s' = undos s → sys_ok s').
  { intros s' Hc Eul Et Eun. pose proof (undos_like_refl _ _ (sy_core _ Hs)) as Hlk.
    destruct (sys_elsewhere s s' (sy_refs _ Hs) (sy_owned _ Hs) Eul Et) as [? ?]; [by rewrite Eun|].
    constructor; [|done|done]. unfold own_of in *. by rewrite Eul. }
  destruct r as [[i new']|].
  2: { do 2 sem_step. sem_step. apply Hsys; [|done..]. destruct Hr as [_ Hobj].
    destruct (sy_core _ Hs) as [? Hset Hq ? Hown ? ? ? Hus]. constructor; try done.
    - intros j b. cbn. rewrite Hobj. intros Hb. destruct (Hset _ _ Hb) as [? ? ? Bq ?]. constructor; try done.
      intros q Hqp. destruct (Bq q Hqp) as (x & ? & [? ? ?]). exists x. by split.
    - intros q x Hx. specialize (Hq q x Hx). unfold queue_inv in *. destruct (q_linked x); [|done].
      destruct Hq as (j & b & ? & ?). exists j, b. cbn. by rewrite Hobj.
    - intros l u Ho. destruct (Hown l u Ho) as (y & Hy & Hat). exists y. split; [done|].
      destruct Hat as [?|(j & b & ? & ?)]; [by left|right]. exists j, b. cbn. by rewrite Hobj.
    - cbn. rewrite Hus. symmetry. apply sum_nsems_ext. intros j. unfold nsems_at. cbn. by rewrite Hobj. }
  destruct Hr as (n & -> & Hlt & Hnone & Enew & _ & Hobj). do 2 sem_step. sem_step. sem_step. sem_step.
  assert (El : Z.to_nat (lid (Z.of_nat n)) = n) by (rewrite lid_small; lia).
  destruct (put_spec ids' (Z.of_nat n) new' (set_ctime now new')) as [Hok' Hobj'];
    [done|lia|rewrite El, Hobj; by rewrite decide_True|..].
  { destruct (io_obj _ Hok n new') as [? _]; [by rewrite Hobj, decide_True|done]. }
  { done. }
  rewrite El in Hobj'. cbn.
  apply Hsys; [|done..]. apply (core_add _ s _ n (set_ctime now new')); [apply Hs|done|done|done| | |..]; cbn.
  all: try done; try (by rewrite Enew).
  - intros j. rewrite Hobj'. case_decide; [done|]. rewrite Hobj. by rewrite decide_False.
  - rewrite Enew. cbn. by apply Forall_replicate.
  - unfold sem_nsems. cbn. rewrite Enew. cbn. rewrite length_replicate. lia.
Qed.

Lemma sys_semget_ok c k nsems flg alloc grow now s : 0 <= sc_semmni → sys_ok s →
  keeps (sys_semget sc_semmsl sc_semmns sc_semmni c k nsems flg alloc grow now) s.
Proof.
  intros Hmni Hs. unfold sys_semget. destruct ((nsems <? 0) || _) eqn:E; [by apply keeps_fail|]. zb_hyps.
  unfold keeps. do 2 sem_step. destruct (k =? IPC_PRIVATE); [by apply newary_ok|].
  destruct (findkey_spec (sem_ids s) k) as (r & -> & Hr); [apply Hs|].
  destruct (Z.eqb_spec r (-1)); [destruct (_ =? 0); [by apply wp_fail|by apply newary_ok]|].
  destruct (_ && _); [by apply wp_fail|]. destruct Hr as [[? _]|(j & x & -> & Hj & Hx & _)]; [done|].
  assert (ipc_lock (sem_ids s) (Z.of_nat j) = Some x) as ->.
  { apply lock_spec; [apply Hs|lia|]. rewrite lid_small by lia. by rewrite Nat2Z.id. }
  by looks.
Qed.

End calls.
End SemCalls.
