(* ===== verification/SemUndo.v ===== *)
(** * Undo structures and undo lists

    Finding, creating and freeing the undo structures of a task keeps the system
    consistent; so do fork and exit, which share and drop undo lists. *)

From stdpp Require Import prelude numbers list gmap.
From Stdlib Require Import ZArith Lia.
From S2P Require Import Prelude Ipc IpcFacts Sem SemFacts SemSystem SemCalls.

#[local] Set Default Goal Selector "!".
#[local] Open Scope Z_scope.

Module SemUndo.
Import Ipc IpcFacts Sem SemFacts SemSystem SemCalls.

(** ** Ownership *)

Lemma owned_insert own l us l' u :
  owned (<[l := us]> own) l' u ↔ (l' = l ∧ u ∈ us) ∨ (l' ≠ l ∧ owned own l' u).
Proof.
  unfold owned. destruct (decide (l' = l)) as [->|Hne].
  - rewrite lookup_insert_eq. split; [intros (? & [= <-] & ?); by left|]. intros [[_ ?]|[? _]]; [eauto|done].
  - rewrite lookup_insert_ne by done. split; [intros; by right|]. intros [[? _]|[_ ?]]; done.
Qed.

Lemma owned_cons own l us u : own !! l = Some us →
  ∀ l' w, owned (<[l := u :: us]> own) l' w ↔ owned own l' w ∨ (l' = l ∧ w = u).
Proof.
  intros Hl l' w. rewrite owned_insert, elem_of_cons. split.
  - intros [[-> [->|Hw]]|[_ ?]]; [by right|left; by exists us|by left].
  - intros [Ho|[-> ->]]; [|left; by auto]. destruct (decide (l' = l)) as [->|]; [left|by right].
    destruct Ho as (us' & E & ?). rewrite Hl in E. simplify_eq. auto.
Qed.

(** A list gives up the structure [u] that no sleeping operation uses. *)
Lemma core_disown own l us us' u s : core_ok (<[l := us]> own) s → NoDup us' →
  (∀ w, w ∈ us' → w ∈ us) → (∀ w, w ∈ us → w ∈ us' ∨ w = u) →
  (∀ i sma q x, obj (sem_ids s) i = Some sma → q ∈ sem_pending sma → queues s !! q = Some x →
     q_undo x ≠ Some u) →
  core_ok (<[l := us']> own) s.
Proof.
  intros H Hnd Hsub Hsup Hno.
  assert (Hback : ∀ l' w, owned (<[l := us']> own) l' w → owned (<[l := us]> own) l' w).
  { intros l' w. rewrite !owned_insert. intros [[? ?]|?]; auto. }
  constructor; try apply H.
  - intros i sma Hi. destruct (co_set _ _ H _ _ Hi) as [Bv Bp Bu Bq Ba]. constructor; [done..| |done].
    intros q Hq. destruct (Bq q Hq) as (x & Hx & [Pi Pe Pu]). exists x. split; [done|].
    constructor; [done|done|]. intros w Ew. destruct (Pu w Ew) as (? & l' & ? & Ho). split; [done|].
    exists l'. split; [done|]. rewrite owned_insert in *. destruct Ho as [[-> Hw]|?]; [left|by right].
    split; [done|]. destruct (Hsup w Hw) as [?| ->]; [done|]. by destruct (Hno i sma q x Hi Hq Hx).
  - intros l' w Ho. by apply (co_own _ _ H l'), Hback.
  - intros l' us0. destruct (decide (l' = l)) as [->|Hne].
    + rewrite lookup_insert_eq. by intros [= <-].
    + rewrite lookup_insert_ne by done. intros E. apply (co_own_nodup _ _ H l'). by rewrite lookup_insert_ne.
  - intros l1 l2 w H1 H2. by apply (co_own_disj _ _ H l1 l2 w); apply Hback.
  - intros l' w w' y y' H1 H2. by apply (co_own_uniq _ _ H l' w w'); apply Hback.
Qed.

(** A structure that nothing refers to is freed. *)
Lemma core_free own s u : core_ok own s → (∀ l, ¬ owned own l u) →
  (∀ i sma, obj (sem_ids s) i = Some sma → u ∉ undo sma) → core_ok own (on_undos (delete u) s).
Proof.
  intros H Hno Hna.
  assert (Hlk : ∀ w, w ≠ u → undos (on_undos (delete u) s) !! w = undos s !! w).
  { intros w Hw. cbn. by rewrite lookup_delete_ne. }
  assert (Hbk : ∀ w y, undos (on_undos (delete u) s) !! w = Some y → undos s !! w = Some y).
  { intros w y. cbn. by intros [_ ?]%lookup_delete_Some. }
  constructor; try apply H.
  - intros i sma Hi. cbn in Hi. destruct (co_set _ _ H _ _ Hi) as [Bv Bp Bu Bq Ba].
    constructor; [done..| |].
    + intros q Hq. destruct (Bq q Hq) as (x & Hx & [Pi [Eo Eu Ea El Ek Es] Pu]). exists x. split; [done|].
      constructor; [done| |done]. constructor; [done|done| |done..]. intros w Ew. rewrite Hlk; [by apply Ea|].
      intros ->. destruct (Pu _ Ew) as [Hu _]. by apply (Hna i sma).
    + intros w Hw. rewrite Hlk; [by apply Ba|]. intros ->. by apply (Hna i sma).
  - intros w y Hy%Hbk. by eapply co_short.
  - intros l w Ho. rewrite Hlk; [by apply (co_own _ _ H l)|]. intros ->. by apply (Hno l).
  - intros l w w' y y' H1 H2 Hy%Hbk Hy'%Hbk. by apply (co_own_uniq _ _ H l w w').
Qed.

(** Only the undo structures differ, and there are no new ones. *)
Definition pruned (s s' : sysv) : Prop :=
  ∃ us, s' = on_undos (λ _, us) s ∧ ∀ u y, us !! u = Some y → undos s !! u = Some y.

Lemma pruned_trans a b c : pruned a b → pruned b c → pruned a c.
Proof. intros (us & -> & H1) (us' & -> & H2). exists us'. split; [done|]. intros u y Hy. by apply H1, H2. Qed.

Lemma core_prune own l pre u us s y : core_ok (<[l := pre ++ u :: us]> own) s →
  undos s !! u = Some y → u_semid y = -1 →
  core_ok (<[l := pre ++ us]> own) (on_undos (delete u) s).
Proof.
  intros H Hy Ey.
  assert (Hna : ∀ i sma, obj (sem_ids s) i = Some sma → u ∉ undo sma).
  { intros i sma Hi Hu. destruct (si_adj _ _ _ _ (co_set _ _ H _ _ Hi) u Hu) as (y' & Hy' & E & _).
    simplify_eq. apply (ident_not_dead _ _ _ _ H Hi). congruence. }
  pose proof (co_own_nodup _ _ H l (pre ++ u :: us)) as Hnd. rewrite lookup_insert_eq in Hnd.
  specialize (Hnd eq_refl). rewrite <- Permutation_middle in Hnd. apply NoDup_cons in Hnd as [Hnu Hnd].
  assert (Hd : core_ok (<[l := pre ++ us]> own) s).
  { eapply (core_disown _ _ _ _ u); [done|done| | |].
    - intros w. rewrite !elem_of_app, elem_of_cons. tauto.
    - intros w. rewrite !elem_of_app, elem_of_cons. tauto.
    - intros i sma q x Hi Hq Hx Eu. destruct (si_queue _ _ _ _ (co_set _ _ H _ _ Hi) q Hq) as (x' & Hx' & Px).
      simplify_eq. by apply (Hna i sma Hi), (po_undo _ _ _ _ _ _ Px). }
  apply core_free; [done| |done]. intros l' [[-> ?]|[Hne Ho]]%owned_insert; [done|].
  apply Hne. apply (co_own_disj _ _ H l' l u); rewrite owned_insert; [by right|left].
  split; [done|]. apply elem_of_app. right. by left.
Qed.

(** ** lookup_undo *)

Lemma wp_lookup_loop own l semid us Ψ : ∀ pre s, core_ok (<[l := pre ++ us]> own) s →
  wp (lookup_loop semid us) (λ r s', core_ok (<[l := pre ++ r.2]> own) s' ∧ pruned s s' ∧
    (all_owned (<[l := pre ++ us]> own) (undos s) → all_owned (<[l := pre ++ r.2]> own) (undos s')) ∧
    match r.1 with
    | Some u => u ∈ r.2 ∧ ∃ y, undos s' !! u = Some y ∧ u_semid y = semid
    | None => ∀ u y, u ∈ r.2 → undos s' !! u = Some y → u_semid y ≠ semid
    end) Ψ s.
Proof.
  induction us as [|u us IH]; intros pre s H; cbn [lookup_loop].
  { sem_step. split_and!; [done|by exists (undos s); split; [destruct s|]|done|].
    cbn. intros u y []%elem_of_nil. }
  destruct (co_own _ _ H l u) as (y & Hy & Hat).
  { rewrite owned_insert. left. split; [done|]. apply elem_of_app. right. by left. }
  sem_step. eapply wp_get_undo; [done|]. cbv beta. destruct (Z.eqb_spec (u_semid y) semid) as [E|E].
  { sem_step. cbn. split_and!; [done|by exists (undos s); split; [destruct s|]|done|by left|eauto]. }
  destruct (Z.eqb_spec (u_semid y) (-1)) as [Ed|Ed].
  - do 2 sem_step. eapply wp_mono; [apply (IH pre); by eapply core_prune|].
    intros r s' (Hc & Hp & Ha & Hr). split_and!; [done| | |done].
    + eapply pruned_trans; [|done]. exists (delete u (undos s)). split; [done|]. by intros w z [_ ?]%lookup_delete_Some.
    + intros Hao. apply Ha. intros w [z Hz]. cbn in Hz. apply lookup_delete_Some in Hz as [Hne Hz].
      destruct (Hao w) as [l' Ho]; [by exists z|]. exists l'. rewrite owned_insert in *.
      rewrite elem_of_app, elem_of_cons in Ho. rewrite elem_of_app. intuition congruence.
  - sem_step. eapply wp_mono; [apply (IH (pre ++ [u])); by rewrite <- app_assoc|].
    intros [r us'] s' (Hc & Hp & Ha & Hr). cbn [fst snd] in *. sem_step. cbn [fst snd].
    rewrite <- !app_assoc in *. split_and!; [done|done|done|].
    destruct r as [w|]; [destruct Hr; split; [by right|done]|].
    intros w z [->|Hw]%elem_of_cons Hz; [|by eapply Hr]. destruct Hp as (usm & -> & Hp).
    apply Hp in Hz. congruence.
Qed.

(** The state apart from undo structures and lists. *)
Record same_sets (s s' : sysv) : Prop := {
  sa_ids : sem_ids s' = sem_ids s;
  sa_queues : queues s' = queues s;
  sa_used : used_sems s' = used_sems s;
  sa_dom : ∀ l, is_Some (ulists s' !! l) ↔ is_Some (ulists s !! l)
}.

Lemma insert_own_of s l x : ulists s !! l = Some x → <[l := proc_list x]> (own_of s) = own_of s.
Proof. intros H. unfold own_of. rewrite <- fmap_insert, insert_id by done. done. Qed.

Lemma owned_in s l u : owned (own_of s) l u ↔ ∃ x, ulists s !! l = Some x ∧ u ∈ proc_list x.
Proof.
  unfold owned, own_of. rewrite lookup_fmap. split.
  - intros (us & (x & Hx & ->)%fmap_Some & ?). eauto.
  - intros (x & -> & ?). cbn. eauto.
Qed.

(** What a look into a list tells. *)
Definition looked (s : sysv) (ul semid : Z) (r : option Z) : Prop :=
  match r with
  | Some u => owned (own_of s) ul u ∧ ∃ y, undos s !! u = Some y ∧ u_semid y = semid
  | None => ∀ u y, owned (own_of s) ul u → undos s !! u = Some y → u_semid y ≠ semid
  end.

Lemma refs_put s s' l x us : refs_ok s → ulists s !! l = Some x →
  ulists s' = <[l := mk_ulist (refcnt x) us]> (ulists s) → task_ulist s' = task_ulist s → refs_ok s'.
Proof.
  intros [R1 R2] Hx E Et. constructor; rewrite E, Et.
  - intros t l' Hl. rewrite lookup_insert_is_Some'. right. by eapply R1.
  - intros l' x'. destruct (decide (l' = l)) as [->|Hne].
    + rewrite lookup_insert_eq. intros [= <-]. cbn. by apply R2.
    + rewrite lookup_insert_ne by done. apply R2.
Qed.

(** A change of undo lists and structures only. *)
Lemma core_ulists own s f : core_ok own s → core_ok own (on_ulists f s).
Proof.
  intros [? Hset ? ? ? ? ? ? ?]. constructor; try done. intros i sma Hi.
  destruct (Hset i sma Hi) as [? ? ? Hq ?]. constructor; try done.
  intros q Hqp. destruct (Hq q Hqp) as (x & ? & [? ? ?]). exists x. by split.
Qed.

Lemma wp_lookup_undo s ul semid Ψ : sys_ok s → is_Some (ulists s !! ul) →
  wp (lookup_undo ul semid) (λ r s', sys_ok s' ∧ same_sets s s' ∧ task_ulist s' = task_ulist s ∧
    (∀ u y, undos s' !! u = Some y → undos s !! u = Some y) ∧ looked s' ul semid r) Ψ s.
Proof.
  intros Hs [x Hx]. unfold lookup_undo. sem_step. unfold wp at 1, get_ulist. rewrite Hx.
  sem_step. eapply wp_mono.
  { apply (wp_lookup_loop (own_of s) ul semid (proc_list x) _ []). cbn [app].
    rewrite insert_own_of by done. apply Hs. }
  intros [r us] s1 (Hc & (usm & -> & Hp) & Ha & Hr). cbn [fst snd app] in *. sem_step. apply wp_modify. sem_step.
  set (s' := on_ulists _ _).
  assert (Eown : own_of s' = <[ul := us]> (own_of s)) by (unfold own_of; cbn; by rewrite fmap_insert).
  split_and!; [constructor|constructor|..].
  - rewrite Eown. by apply core_ulists.
  - by apply (refs_put s s' ul x us); [apply Hs|..].
  - rewrite Eown. apply Ha. rewrite insert_own_of by done. apply Hs.
  - done.
  - done.
  - done.
  - intros l. cbn. rewrite lookup_insert_is_Some'. split; [intros [<-|?]; eauto|auto].
  - done.
  - done.
  - unfold looked. destruct r as [u|]; rewrite Eown.
    + destruct Hr as [Hin Hr]. rewrite owned_insert. split; [left; by split|done].
    + intros u y Ho. apply Hr. apply owned_insert in Ho as [[_ ?]|[? _]]; done.
Qed.

(** Counting the tasks that share a list. *)
Definition sharers (l : Z) (m : gmap Z Z) : Z := Z.of_nat (size (filter (λ p, p.2 = l) m)).

Lemma sharers_insert l t l' m : m !! t = None →
  sharers l (<[t := l']> m) = sharers l m + (if decide (l' = l) then 1 else 0).
Proof.
  intros Hm. unfold sharers. case_decide as E.
  - rewrite map_filter_insert_True by done. rewrite map_size_insert_None; [lia|].
    apply map_lookup_filter_None. by left.
  - rewrite map_filter_insert_False by done. rewrite delete_id by done. lia.
Qed.

Lemma sharers_delete l t l' m : m !! t = Some l' →
  sharers l (delete t m) = sharers l m - (if decide (l' = l) then 1 else 0).
Proof.
  intros Hm. rewrite <- (insert_delete_id m t l') at 2 by done.
  rewrite sharers_insert by apply lookup_delete_eq. lia.
Qed.

Lemma sharers_pos l t m : m !! t = Some l → 0 < sharers l m.
Proof.
  intros Hm. pose proof (sharers_delete l t l m Hm) as H. rewrite decide_True in H by done.
  assert (0 <= sharers l (delete t m)) by (unfold sharers; lia). lia.
Qed.

Lemma sharers_none l m : (∀ t, m !! t ≠ Some l) → sharers l m = 0.
Proof.
  intros H. unfold sharers. assert (filter (λ p : Z * Z, p.2 = l) m = ∅) as ->; [|by rewrite map_size_empty].
  apply map_empty_filter_2. intros t l' Hl. cbn. intros ->. by apply (H t).
Qed.

(** ** get_undo_list *)

Lemma wp_get_undo_list s task kmem : sys_ok s → (∀ l, kmem = Some l → ulists s !! l = None) →
  wp (get_undo_list task kmem)
    (λ l s', sys_ok s' ∧ sem_ids s' = sem_ids s ∧ queues s' = queues s ∧ undos s' = undos s ∧
       task_ulist s' !! task = Some l ∧ is_Some (ulists s' !! l) ∧
       (∀ t, t ≠ task → task_ulist s' !! t = task_ulist s !! t))
    (λ _ s', s' = s) s.
Proof.
  intros Hs Hf. unfold get_undo_list. do 2 sem_step. destruct (task_ulist s !! task) as [l|] eqn:Et.
  { sem_step. split_and!; try done. by eapply (ro_task _ (sy_refs _ Hs)). }
  destruct kmem as [l|]; [|done]. specialize (Hf l eq_refl). sem_step. apply wp_modify.
  do 2 sem_step. sem_step. set (s' := on_task_ulist _ _).
  destruct Hs as [Hc [R1 R2] Ho].
  assert (Eown : own_of s' = <[l := []]> (own_of s)) by (unfold own_of; cbn; by rewrite fmap_insert).
  assert (Hnl : ∀ u, ¬ owned (own_of s) l u) by (intros u; rewrite owned_in, Hf; by intros (? & ? & _)).
  assert (How : ∀ l' u, owned (own_of s') l' u ↔ owned (own_of s) l' u).
  { intros l' u. rewrite Eown, owned_insert. split; [|intros H; right; split; [intros ->; by eapply Hnl|done]].
    intros [[_ []%elem_of_nil]|[_ ?]]; done. }
  split_and!; [constructor|done|done|done|..].
  - destruct Hc as [? Hset ? ? Hown Hnd Hdj Hun ?]. constructor; try done.
    + intros i sma Hi. destruct (Hset i sma Hi) as [? ? ? Hq ?]. constructor; try done. intros q Hqp.
      destruct (Hq q Hqp) as (x & ? & [? ? Pu]). exists x. split; [done|]. constructor; [done|done|].
      intros u Eu. destruct (Pu u Eu) as (? & l' & Hl' & ?). split; [done|]. exists l'.
      split; [|by apply How]. cbn. rewrite lookup_insert_ne; [done|]. intros ->. congruence.
    + intros l' u. rewrite How. apply Hown.
    + rewrite Eown. intros l' us. destruct (decide (l' = l)) as [->|]; [rewrite lookup_insert_eq; intros [= <-]; constructor|].
      rewrite lookup_insert_ne by done. apply Hnd.
    + intros l1 l2 u. rewrite !How. apply Hdj.
    + intros l' u u' y y'. rewrite !How. apply Hun.
  - constructor; cbn.
    + intros t l' Hl'. rewrite lookup_insert_is_Some'. destruct (decide (t = task)) as [->|].
      * rewrite lookup_insert_eq in Hl'. simplify_eq. by left.
      * rewrite lookup_insert_ne in Hl' by done. right. by eapply R1.
    + intros l' x. fold (sharers l' (<[task := l]> (task_ulist s))). rewrite sharers_insert by done.
      destruct (decide (l' = l)) as [->|Hne].
      * rewrite lookup_insert_eq, decide_True by done. intros [= <-]. cbn.
        rewrite sharers_none; [lia|]. intros t Ht. destruct (R1 _ _ Ht). congruence.
      * rewrite lookup_insert_ne, decide_False by congruence. intros Hx. destruct (R2 _ _ Hx) as [? E].
        unfold sharers. split; [done|lia].
  - intros u Hu. destruct (Ho u Hu) as [l' ?]. exists l'. by apply How.
  - cbn. by rewrite lookup_insert_eq.
  - cbn. rewrite lookup_insert_eq. done.
  - intros t Ht. cbn. by rewrite lookup_insert_ne.
Qed.

(** ** find_undo *)

(** A sleeping operation does not mind more undo structures. *)
Lemma pending_more own own' s s' i sma sma' q x : pending_ok own s i sma q x →
  (∀ w z, undos s !! w = Some z → undos s' !! w = Some z) → (∀ l w, owned own l w → owned own' l w) →
  task_ulist s' = task_ulist s → ident i sma' = ident i sma → sem_base sma' = sem_base sma →
  (∀ w, w ∈ undo sma → w ∈ undo sma') → pending_ok own' s' i sma' q x.
Proof.
  intros [Pi [Eo Eun Ea El Ek Es] Pu] Hlk How Et Hid Hb Hub. constructor; [congruence| |].
  - constructor; [by rewrite Hb|done| |done..]. intros w Ew. destruct (Ea w Ew) as (z & Hz & ?).
    exists z. rewrite Hb. auto.
  - intros w Ew. destruct (Pu w Ew) as (? & l' & ? & ?). split; [auto|]. exists l'. rewrite Et. auto.
Qed.

Lemma core_attach own s s' l us u i sma sma' y : core_ok own s → obj (sem_ids s) i = Some sma →
  own !! l = Some us → undos s !! u = None → u_semid y = ident i sma →
  length (semadj y) = length (sem_base sma) → Forall is_short (semadj y) →
  (∀ w z, owned own l w → undos s !! w = Some z → u_semid z ≠ ident i sma) →
  ids_ok (sem_ids s') →
  (∀ j, obj (sem_ids s') j = if decide (j = i) then Some sma' else obj (sem_ids s) j) →
  sma' = set_undo (u :: undo sma) sma →
  undos s' = <[u := y]> (undos s) → queues s' = queues s → task_ulist s' = task_ulist s →
  used_sems s' = used_sems s → core_ok (<[l := u :: us]> own) s'.
Proof.
  intros H Hi Hl Hu Ey Ly Sy Hno Hids Hobj -> Eu Eq Et Eus.
  assert (Hlk : ∀ w z, undos s !! w = Some z → undos s' !! w = Some z).
  { intros w z Hz. rewrite Eu, lookup_insert_ne; [done|]. congruence. }
  pose proof (owned_cons own l us u Hl) as How.
  assert (Hfresh : ∀ l', ¬ owned own l' u).
  { intros l' Ho. destruct (co_own _ _ H _ _ Ho) as (z & Hz & _). congruence. }
  assert (Hpend : ∀ j b q x, pending_ok own s j b q x → ∀ b', ident j b' = ident j b → sem_base b' = sem_base b →
    (∀ w, w ∈ undo b → w ∈ undo b') → pending_ok (<[l := u :: us]> own) s' j b' q x).
  { intros j b q x Px b' Hid Hb Hub. eapply pending_more; try done. intros l' w ?. apply How. auto. }
  constructor.
  - done.
  - intros j b. rewrite Hobj. case_decide as Ej.
    + intros [= <-]. subst j. destruct (co_set _ _ H _ _ Hi) as [Bv Bp Bu Bq Ba]. constructor; cbn; [done|done| | |].
      * constructor; [|done]. intros Hin. destruct (Ba u Hin) as (z & Hz & _). congruence.
      * intros q Hq. destruct (Bq q Hq) as (x & Hx & Px). exists x. rewrite Eq. split; [done|].
        eapply Hpend; [done|done|done|]. intros w Hw. by right.
      * intros w [->|Hw]%elem_of_cons; [exists y; by rewrite Eu, lookup_insert_eq|].
        destruct (Ba w Hw) as (z & Hz & ? & ?). exists z. auto.
    + intros Hb. destruct (co_set _ _ H _ _ Hb) as [Bv Bp Bu Bq Ba]. constructor; [done|done|done| |].
      * intros q Hq. destruct (Bq q Hq) as (x & Hx & Px). exists x. rewrite Eq. split; [done|]. by eapply Hpend.
      * intros w Hw. destruct (Ba w Hw) as (z & Hz & ? & ?). exists z. auto.
  - rewrite Eq. intros q x Hx. pose proof (co_queue _ _ H _ _ Hx) as Hq. unfold queue_inv in *.
    destruct (q_linked x); [|done]. destruct Hq as (j & b & Hb & Hqb). exists j. rewrite Hobj.
    case_decide; [subst; simplify_eq; by eexists|by eauto].
  - intros w z. rewrite Eu. destruct (decide (w = u)) as [->|]; [rewrite lookup_insert_eq; by intros [= <-]|].
    rewrite lookup_insert_ne by done. apply H.
  - intros l' w [Ho|[-> ->]]%How.
    + destruct (co_own _ _ H _ _ Ho) as (z & Hz & Hat). exists z. split; [auto|].
      destruct Hat as [?|(j & b & Hb & Hwb)]; [by left|right]. exists j. rewrite Hobj.
      case_decide; [subst; simplify_eq; eexists; split; [done|by right]|by eauto].
    + exists y. rewrite Eu, lookup_insert_eq. split; [done|]. right. exists i. rewrite Hobj, decide_True by done.
      eexists. split; [done|]. by left.
  - intros l' us'. destruct (decide (l' = l)) as [->|Hne].
    + rewrite lookup_insert_eq. intros [= <-]. constructor; [|by eapply co_own_nodup]. intros Hin.
      apply (Hfresh l). by exists us.
    + rewrite lookup_insert_ne by done. apply H.
  - intros l1 l2 w H1%How H2%How. destruct H1 as [H1|[-> ->]], H2 as [H2|[-> Hw]]; [by eapply co_own_disj| | |done].
    + subst w. by destruct (Hfresh l1).
    + by destruct (Hfresh l2).
  - intros l' w w' z z' H1%How H2%How Hz Hz' E En. rewrite Eu in Hz, Hz'.
    destruct H1 as [H1|[-> ->]], H2 as [H2|[El Ew]]; subst.
    + rewrite lookup_insert_ne in Hz by (intros ->; by eapply Hfresh).
      rewrite lookup_insert_ne in Hz' by (intros ->; by eapply Hfresh). by eapply (co_own_uniq _ _ H).
    + rewrite lookup_insert_eq in Hz'. simplify_eq. rewrite lookup_insert_ne in Hz by (intros ->; by eapply Hfresh).
      destruct (Hno w z H1 Hz). congruence.
    + rewrite lookup_insert_eq in Hz. simplify_eq. rewrite lookup_insert_ne in Hz' by (intros ->; by eapply Hfresh).
      destruct (Hno w' z' H2 Hz'). congruence.
    + done.
  - rewrite Eus, (co_used _ _ H). symmetry. apply sum_nsems_ext. intros j. unfold nsems_at. rewrite Hobj.
    case_decide as Ej; [|done]. by rewrite Ej, Hi.
Qed.

(** The undo structure of the task for the set. *)
Lemma wp_find_undo s task semid kmem_list kmem : sys_ok s → 0 <= semid →
  (∀ l, kmem_list = Some l → ulists s !! l = None) → (∀ u, kmem = Some u → undos s !! u = None) →
  wp (find_undo task semid kmem_list kmem)
    (λ u s', sys_ok s' ∧ queues s' = queues s ∧ (∃ l, task_ulist s' !! task = Some l ∧ owned (own_of s') l u) ∧
       ∃ y, undos s' !! u = Some y ∧ u_semid y = semid)
    (λ _ s', sys_ok s' ∧ queues s' = queues s) s.
Proof.
  intros Hs H0 Hfl Hfu. unfold find_undo. sem_step. eapply wp_impl; [by apply wp_get_undo_list| |by intros e s' ->].
  cbv beta. intros ul s1 (Hs1 & Ei1 & Eq1 & Eu1 & Et1 & Hl1 & _). sem_step.
  eapply wp_mono; [by apply wp_lookup_undo|]. cbv beta. intros r s2 (Hs2 & Hsame2 & Et2 & Hback2 & Hr).
  destruct r as [u|].
  { sem_step. destruct Hr as [Ho Hy]. split_and!; [done| |eexists; split; [|done]|done].
    - rewrite (sa_queues _ _ Hsame2). congruence.
    - congruence. }
  sem_step. eapply wp_impl; [apply wp_lock_check; [apply Hs2|done]| |].
  2: { cbv beta. intros e s' ->. split; [done|]. rewrite (sa_queues _ _ Hsame2). congruence. }
  cbv beta. intros sma s3 (-> & Hh & Est).
  destruct kmem as [u|]; [|sem_step; split; [done|rewrite (sa_queues _ _ Hsame2); congruence]].
  sem_step. eapply wp_mono; [apply wp_lookup_undo; [done|by apply (sa_dom _ _ Hsame2)]|]. cbv beta.
  intros r s3 (Hs3 & Hsame3 & Et3 & Hback3 & Hr3).
  assert (Eq3 : queues s3 = queues s) by (rewrite (sa_queues _ _ Hsame3), (sa_queues _ _ Hsame2); congruence).
  destruct r as [u'|].
  { sem_step. destruct Hr3 as [Ho Hy]. split_and!; [done|done|eexists; split; [|done]|done]. congruence. }
  case_match; [by sem_step|]. unfold put_undo. do 3 sem_step.
  assert (is_Some (ulists s3 !! ul)) as [x Hx] by (by apply (sa_dom _ _ Hsame3), (sa_dom _ _ Hsame2)).
  unfold wp at 1, get_ulist. cbn [ulists on_undos]. rewrite Hx. unfold put_ulist, unlock_put.
  do 4 sem_step. sem_step. cbn [refcnt proc_list].
  assert (Hobj : obj (sem_ids s3) (Z.to_nat (lid semid)) = Some sma).
  { rewrite (sa_ids _ _ Hsame3). rewrite <- Est. apply Hh. }
  assert (Hu3 : undos s3 !! u = None).
  { destruct (undos s3 !! u) eqn:E; [|done]. apply Hback3, Hback2 in E. rewrite Eu1, (Hfu u) in E; done. }
  destruct (put_spec (sem_ids s3) semid sma (set_undo (u :: undo sma) sma)) as [Hok Hobj']; [apply Hs3|done|done|..].
  { by apply (io_obj _ (co_ids _ _ (sy_core _ Hs3)) _ _ Hobj). }
  { done. }
  set (s' := on_ids _ _).
  assert (Eown : own_of s' = <[ul := u :: proc_list x]> (own_of s3)) by (unfold own_of; cbn; by rewrite fmap_insert).
  assert (Hou : own_of s3 !! ul = Some (proc_list x)) by (unfold own_of; by rewrite lookup_fmap, Hx).
  split_and!; [constructor|done| |].
  - rewrite Eown. eapply (core_attach _ s3 s' ul _ u (Z.to_nat (lid semid)) sma (set_undo (u :: undo sma) sma)
        (mk_undo semid (replicate (length (sem_base sma)) 0)));
      [apply Hs3|done|done|done|apply Hh|apply length_replicate|by apply Forall_replicate| |exact Hok|exact Hobj'|done..].
    rewrite <- (he_id _ _ _ _ Hh). apply Hr3.
  - by apply (refs_put s3 s' ul x (u :: proc_list x)); [apply Hs3|..].
  - intros w [z Hz]. cbn in Hz. rewrite Eown. destruct (decide (w = u)) as [->|].
    { exists ul. apply owned_cons; auto. }
    rewrite lookup_insert_ne in Hz by done. destruct (sy_owned _ Hs3 w) as [l Ho]; [by exists z|].
    exists l. apply owned_cons; auto.
  - exists ul. split; [cbn; congruence|]. rewrite Eown. apply owned_cons; auto.
  - exists (mk_undo semid (replicate (length (sem_base sma)) 0)). cbn. by rewrite lookup_insert_eq.
Qed.

End SemUndo.
