(* ===== verification/SemTrace.v ===== *)
(** * semop, sleeping and waking, fork and exit; histories of the semaphore system

    Module [SemTrace]: these operations keep the invariant.  Module [SemExit]: the values of a
    set after the exit of a task with adjustments for it. *)

From stdpp Require Import prelude numbers list gmap.
From Stdlib Require Import ZArith Lia.
From S2P Require Import Prelude Ipc IpcFacts Sem SemFacts SemSystem SemCalls SemUndo.

#[local] Set Default Goal Selector "!".
#[local] Open Scope Z_scope.

Module SemTrace.
Import Ipc IpcFacts Sem SemFacts SemSystem SemCalls SemUndo.

(** ** An operation on a held set *)

Lemma held_try own semid sma s x now Ψ : held own semid sma s → entry_ok (length (sem_base sma)) (undos s) x →
  wp (try_atomic_semop sma (q_sops x) (q_undo x) (q_pid x) now)
    (λ r s', held own semid r.2 s' ∧ elsewhere s s' ∧ (0 < r.1 → r.2 = sma ∧ s' = s)) Ψ s.
Proof.
  intros Hh Hx. pose proof (held_set_ok _ _ _ _ Hh) as Hok. eapply wp_mono; [by apply wp_try_abs|]. cbv beta.
  intros [e sma'] s' (He & (Hi & Hq & Hul & Ht & Hus & _) & Hun & Hp & Hpe & Hu & Hl & Hv & _ & Hno). cbn [fst snd] in *.
  assert (Hlike : undos_like (undos s) (undos s')).
  { rewrite Hun. constructor.
    - intros u y Hy. destruct (undos_after_lookup (judge (semval <$> sem_base sma) (adj_of (undos s) (q_undo x))
        (q_sops x)) (q_undo x) (q_sops x) (undos s) u) as (f & -> & Hf). rewrite Hy. exists (f y).
      destruct (Hf y) as (? & ? & _). done.
    - intros u y' Hy'. split; [by eapply (short_after _ _ _ _ (so_short _ _ Hok))|].
      destruct (undos_after_lookup (judge (semval <$> sem_base sma) (adj_of (undos s) (q_undo x))
        (q_sops x)) (q_undo x) (q_sops x) (undos s) u) as (f & Ef & Hf). rewrite Ef in Hy'.
      apply fmap_Some in Hy' as (y & Hy & ->). exists y. split; [done|]. apply Hf. }
  split_and!.
  - eapply held_change; try done; rewrite ?Hp, ?Hpe, ?Hu, ?Hq; auto using queues_like_refl; [by eapply held_undo|apply Hok].
  - constructor; try done. by rewrite Hq.
  - intros Hpos. apply Hno. rewrite <- error_of_success. lia.
Qed.

(** ** Going to sleep *)

Lemma core_sleep own s s' i sma sma' q x : core_ok own s → obj (sem_ids s) i = Some sma →
  queues s !! q = None → pending_ok own s i sma q x → ids_ok (sem_ids s') →
  (∀ j, obj (sem_ids s') j = if decide (j = i) then Some sma' else obj (sem_ids s) j) →
  sem_perm sma' = sem_perm sma → sem_base sma' = sem_base sma → undo sma' = undo sma →
  sem_pending sma' ≡ₚ q :: sem_pending sma →
  queues s' = <[q := x]> (queues s) → undos s' = undos s → task_ulist s' = task_ulist s →
  used_sems s' = used_sems s → core_ok own s'.
Proof.
  intros H Hi Hq Px Hids Hobj Hp Hb Hu Hpe Eq Eu Et Eus.
  assert (Hlk : ∀ j z, queues s !! j = Some z → queues s' !! j = Some z).
  { intros j z Hz. rewrite Eq, lookup_insert_ne; [done|]. congruence. }
  assert (Hmem : ∀ j, j ∈ sem_pending sma' ↔ j = q ∨ j ∈ sem_pending sma).
  { intros j. rewrite (elem_of_Permutation_proper _ _ _ Hpe). apply elem_of_cons. }
  assert (Hpend : ∀ j b z b' y, pending_ok own s j b z y → ident j b' = ident j b → sem_base b' = sem_base b →
    undo b' = undo b → pending_ok own s' j b' z y).
  { intros j b z b' y Py Hid Hb' Hu'. eapply pending_more; try done; [by rewrite Eu|by rewrite Hu']. }
  constructor.
  - done.
  - intros j b. rewrite Hobj. case_decide as Ej.
    + intros [= <-]. subst j. destruct (co_set _ _ H _ _ Hi) as [Bv Bp Bu Bq Ba]. constructor.
      * by rewrite Hb.
      * rewrite Hpe. constructor; [|done]. intros Hin. destruct (Bq q Hin) as (z & Hz & _). congruence.
      * by rewrite Hu.
      * intros j [->|Hj]%Hmem.
        -- exists x. rewrite Eq, lookup_insert_eq. split; [done|]. eapply Hpend; try done. unfold ident. by rewrite Hp.
        -- destruct (Bq j Hj) as (z & Hz & Pz). exists z. split; [auto|]. eapply Hpend; try done. unfold ident. by rewrite Hp.
      * rewrite Hu, Eu, Hb. unfold ident. rewrite Hp. exact Ba.
    + intros Hbj. destruct (co_set _ _ H _ _ Hbj) as [Bv Bp Bu Bq Ba]. constructor; [done|done|done| |by rewrite Eu].
      intros j' Hj'. destruct (Bq j' Hj') as (z & Hz & Pz). exists z. split; [auto|]. by eapply Hpend.
  - intros j z. rewrite Eq. destruct (decide (j = q)) as [->|Hne].
    + rewrite lookup_insert_eq. intros [= <-]. unfold queue_inv. rewrite (eo_linked _ _ _ (po_entry _ _ _ _ _ _ Px)).
      exists i, sma'. rewrite Hobj, decide_True by done. split; [done|]. apply Hmem. by left.
    + rewrite lookup_insert_ne by done. intros Hz. pose proof (co_queue _ _ H _ _ Hz) as Hqi. unfold queue_inv in *.
      destruct (q_linked z); [|done]. destruct Hqi as (k & b & Hk & Hkb). exists k. rewrite Hobj.
      case_decide; [|by eauto]. subst. simplify_eq. exists sma'. split; [done|]. apply Hmem. by right.
  - rewrite Eu. apply H.
  - rewrite Eu. intros l u Ho. destruct (co_own _ _ H _ _ Ho) as (y & Hy & Hat). exists y. split; [done|].
    destruct Hat as [?|(j & b & Hj & Hjb)]; [by left|right]. exists j. rewrite Hobj.
    case_decide; [|by eauto]. subst. simplify_eq. exists sma'. by rewrite Hu.
  - apply H.
  - apply H.
  - rewrite Eu. apply H.
  - rewrite Eus, (co_used _ _ H). symmetry. apply sum_nsems_ext. intros j. unfold nsems_at. rewrite Hobj.
    case_decide as Ej; [|done]. rewrite Ej, Hi. unfold sem_nsems. by rewrite Hb.
Qed.

Lemma held_sleep own semid sma sma' s q x : held own semid sma s → queues s !! q = None →
  pending_ok own s (Z.to_nat (lid semid)) sma q x → sem_perm sma' = sem_perm sma →
  sem_base sma' = sem_base sma → undo sma' = undo sma → sem_pending sma' ≡ₚ q :: sem_pending sma →
  core_ok own (store semid sma' (on_queues (insert q x) s)).
Proof.
  intros [Hc H0 Hid Ho] Hq Px Hp Hb Hu Hpe.
  destruct (put_spec (sem_ids (store semid sma s)) semid sma sma') as [Hok Hobj];
    [apply Hc|done|done|cbn; rewrite Hp; by apply (io_obj _ (co_ids _ _ Hc) _ _ Ho)|cbn; by rewrite Hp|].
  cbn in Hok, Hobj. rewrite put_put in Hok, Hobj.
  eapply (core_sleep _ (store semid sma s) _ (Z.to_nat (lid semid)) sma sma' q x); try done.
  destruct Px as [? ? ?]. by constructor.
Qed.

(** ** semop *)

Lemma sops_max_ge sops : ∀ b, b ∈ sops → sem_num b <= sops_max sops.
Proof.
  unfold sops_max. assert (H : ∀ m, m <= foldl (λ m s, if m <=? sem_num s then sem_num s else m) m sops ∧
    ∀ b, b ∈ sops → sem_num b <= foldl (λ m s, if m <=? sem_num s then sem_num s else m) m sops).
  { induction sops as [|b l IH]; intros m; cbn.
    - split; [lia|]. by intros b []%elem_of_nil.
    - destruct (IH (if m <=? sem_num b then sem_num b else m)) as [H1 H2].
      case_zb; (split; [lia|]); intros c [->|Hc]%elem_of_cons; auto; lia. }
  apply H.
Qed.

(** Arguments as user space can pass them ([sem_num] is unsigned, [sem_op] a short), by a task
    that is not asleep in another call; allocators return memory not in use. *)
Record semop_pre (a : semop_args) (s : sysv) : Prop := {
  sp_ops : Forall (λ b, 0 <= sem_num b ∧ is_short (sem_op b)) (a_sops a);
  sp_awake : queues s !! a_task a = None;
  sp_list : ∀ l, a_kmem_list a = Some l → ulists s !! l = None;
  sp_kmem : ∀ u, a_kmem a = Some u → undos s !! u = None
}.

(** The undo structure found for a set is in the list of that set. *)
Lemma found_undo s semid sma u l y : sys_ok s → held (own_of s) semid sma s → store semid sma s = s →
  owned (own_of s) l u → undos s !! u = Some y → u_semid y = semid →
  u ∈ undo sma ∧ length (semadj y) = length (sem_base sma).
Proof.
  intros Hs Hh Est Ho Hy Ey. pose proof (he_obj _ _ _ _ Hh) as Hobj. rewrite Est in Hobj.
  destruct (co_own _ _ (sy_core _ Hs) _ _ Ho) as (y' & Hy' & Hat).
  rewrite Hy in Hy'. injection Hy' as <-. destruct Hat as [Hd|(i & b & Hi & Hub)]; [pose proof (he_pos _ _ _ _ Hh); lia|].
  destruct (si_adj _ _ _ _ (co_set _ _ (sy_core _ Hs) _ _ Hi) u Hub) as (z & Hz & Ez & El).
  rewrite Hy in Hz. injection Hz as <-. assert (i = Z.to_nat (lid semid)) as ->.
  { eapply ident_inj; [apply (sy_core _ Hs)|done|done|]. rewrite <- (he_id _ _ _ _ Hh). congruence. }
  rewrite Hobj in Hi. by injection Hi as <-.
Qed.

Definition undo_fits (s : sysv) (task semid : Z) (un : option Z) : Prop :=
  ∀ u, un = Some u → (∃ l, task_ulist s !! task = Some l ∧ owned (own_of s) l u) ∧
    ∃ y, undos s !! u = Some y ∧ u_semid y = semid.

Lemma entry_new s semid sma un a : sys_ok s → held (own_of s) semid sma s → store semid sma s = s →
  undo_fits s (a_task a) semid un → (sops_undos (a_sops a) = true → is_Some un) →
  Forall (λ b, 0 <= sem_num b ∧ is_short (sem_op b)) (a_sops a) → sops_max (a_sops a) < sem_nsems sma →
  pending_ok (own_of s) s (Z.to_nat (lid semid)) sma (a_task a)
    (mk_queue un (a_tgid a) (- EINTR) semid (a_sops a) (sops_alter (a_sops a)) true).
Proof.
  intros Hs Hh Est Hun Hu Hops Hmax. constructor; cbn; [apply Hh| |].
  - constructor; cbn; try done.
    + apply Forall_forall. intros b Hb. rewrite Forall_forall in Hops. destruct (Hops b Hb) as [? ?].
      pose proof (sops_max_ge _ _ Hb). unfold sem_nsems in *. split; [lia|done].
    + intros u Eu. destruct (Hun u Eu) as [(l & _ & Ho) (y & Hy & Ey)]. exists y. split; [done|].
      by destruct (found_undo _ _ _ _ _ _ Hs Hh Est Ho Hy Ey).
  - intros u Eu. destruct (Hun u Eu) as [(l & Hl & Ho) (y & Hy & Ey)].
    destruct (found_undo _ _ _ _ _ _ Hs Hh Est Ho Hy Ey). eauto.
Qed.

(** After the undo structure has been found. *)
Lemma semop_body_ok a un sma now s : sys_ok s → held (own_of s) (a_semid a) sma s →
  store (a_semid a) sma s = s → queues s !! a_task a = None →
  undo_fits s (a_task a) (a_semid a) un → (sops_undos (a_sops a) = true → is_Some un) →
  Forall (λ b, 0 <= sem_num b ∧ is_short (sem_op b)) (a_sops a) → sops_max (a_sops a) < sem_nsems sma →
  keeps ('(error, sma) ← try_atomic_semop sma (a_sops a) un (a_tgid a) now;
    if error <=? 0 then
      sma ← (if sops_alter (a_sops a) && (error =? 0) then update_queue sma now else mret sma);
      _ ← unlock_put (a_semid a) sma;
      mret (Finished error)
    else
      _ ← put_queue (a_task a) (mk_queue un (a_tgid a) (- EINTR) (a_semid a) (a_sops a) (sops_alter (a_sops a)) true);
      _ ← unlock_put (a_semid a) (if sops_alter (a_sops a) then append_to_queue sma (a_task a)
                            else prepend_to_queue sma (a_task a));
      mret Sleeping) s.
Proof.
  intros Hs Hh Est Hq Hun Hu Hops Hmax. pose proof (entry_new _ _ _ _ _ Hs Hh Est Hun Hu Hops Hmax) as Px.
  unfold keeps. sem_step. eapply wp_mono.
  { apply (held_try (own_of s) (a_semid a) sma s
      (mk_queue un (a_tgid a) (- EINTR) (a_semid a) (a_sops a) (sops_alter (a_sops a)) true) now); [done|apply Px]. }
  cbv beta. intros [error sma1] s1 (Hh1 & He1 & Hno). cbn [fst snd] in *.
  destruct (Z.leb_spec error 0) as [Hle|Hgt].
  - sem_step. assert (Hup : wp (if sops_alter (a_sops a) && (error =? 0) then update_queue sma1 now else mret sma1)
      (λ sma2 s2, held (own_of s) (a_semid a) sma2 s2 ∧ elsewhere s s2) (λ _ s', sys_ok s') s1).
    { destruct (_ && _); [|by sem_step]. eapply wp_mono; [by apply held_update_queue|]. cbv beta.
      intros sma2 s2 (? & ? & _). split; [done|]. by eapply elsewhere_trans. }
    eapply wp_mono; [exact Hup|]. cbv beta. intros sma2 s2 [Hh2 He2]. unfold unlock_put. do 2 sem_step. sem_step.
    by eapply sys_unlock.
  - destruct (Hno Hgt) as [-> ->]. unfold put_queue, unlock_put. do 4 sem_step. sem_step.
    set (x := mk_queue _ _ _ _ _ _ _) in *.
    destruct (sys_elsewhere s s (sy_refs _ Hs) (sy_owned _ Hs)) as [Hr Ho]; [done|done|by eapply el_undos, elsewhere_refl|].
    constructor; [|by destruct Hr|done].
    apply (held_sleep _ (a_semid a) sma _ s (a_task a) x); try done; destruct (sops_alter (a_sops a)); try done.
    cbn. symmetry. apply Permutation_cons_append.
Qed.

Lemma sys_semtimedop_ok sc_semopm a now s : sys_ok s → semop_pre a s → keeps (sys_semtimedop sc_semopm a now) s.
Proof.
  intros Hs [Hops Hq Hl Hk]. unfold sys_semtimedop. cbv zeta.
  destruct ((_ <? 1) || (a_semid a <? 0)) eqn:E; [by apply keeps_fail|]. zb_hyps.
  do 5 (case_match; [by apply keeps_fail|]). unfold keeps. cbn [semop_locked]. sem_step.
  assert (Hf : wp (if sops_undos (a_sops a)
      then u ← find_undo (a_task a) (a_semid a) (a_kmem_list a) (a_kmem a); mret (Some u) else mret None)
    (λ un s', sys_ok s' ∧ queues s' = queues s ∧ undo_fits s' (a_task a) (a_semid a) un ∧
       (sops_undos (a_sops a) = true → is_Some un)) (λ _ s', sys_ok s') s).
  { destruct (sops_undos (a_sops a)); [|by sem_step]. sem_step. eapply wp_impl; [by apply wp_find_undo| |by intros e s' [? _]].
    cbv beta. intros u s' (? & ? & ? & ?). sem_step. split_and!; try done. by intros w [= <-]. }
  eapply wp_mono; [exact Hf|]. cbv beta. intros un s1 (Hs1 & Eq1 & Hun & Hu).
  apply (keeps_lock (a_semid a)); [done|lia|]. intros sma Hh Est. unfold keeps. sem_step.
  assert (Hst : wp (match un with None => mret false | Some u => x ← get_undo u; mret (u_semid x =? -1) end)
    (λ b s', b = false ∧ s' = s1) (λ _ s', sys_ok s') s1).
  { destruct un as [u|]; [|done]. destruct (Hun u eq_refl) as [_ (y & Hy & Ey)]. sem_step.
    eapply wp_get_undo; [done|]. sem_step. split; [|done]. apply Z.eqb_neq. lia. }
  eapply wp_mono; [exact Hst|]. cbv beta. intros b s2 [-> ->].
  destruct (Z.leb_spec (sem_nsems sma) (sops_max (a_sops a))); [by sem_step|].
  destruct (ipcperms _ _ _); [by sem_step|]. apply semop_body_ok; try done. by rewrite Eq1.
Qed.

(** ** The end of a sleep *)

Lemma core_forget own s q : core_ok own s → (∀ i sma, obj (sem_ids s) i = Some sma → q ∉ sem_pending sma) →
  core_ok own (on_queues (delete q) s).
Proof.
  intros [? Hset Hq ? ? ? ? ? ?] Hno. constructor; try done.
  - intros i sma Hi. cbn in Hi. destruct (Hset i sma Hi) as [? ? ? Bq ?]. constructor; try done. intros j Hj.
    destruct (Bq j Hj) as (x & Hx & [? ? ?]). exists x. split; [|by constructor]. cbn.
    rewrite lookup_delete_ne; [done|]. intros <-. by apply (Hno i sma).
  - intros j x. cbn. intros [_ Hx]%lookup_delete_Some. by apply Hq.
Qed.

Lemma forget_like (pend : list Z) qs q : q ∈ pend →
  queues_like pend (filter (λ j, j ≠ q) pend) qs (delete q qs).
Proof.
  intros Hq. constructor.
  - intros j x Hx Hor. rewrite lookup_delete_ne; [done|]. intros <-.
    destruct Hor as [?|[? _]%list_elem_of_filter]; done.
  - intros j x [Hne Hx]%lookup_delete_Some. left. split; [done|]. destruct (decide (j ∈ pend)); [right|by left].
    by apply list_elem_of_filter.
Qed.

Lemma semtimedop_wake_ok task timed_out s : sys_ok s → is_Some (queues s !! task) →
  keeps (semtimedop_wake task timed_out) s.
Proof.
  intros Hs [x Hx]. pose proof (co_queue _ _ (sy_core _ Hs) _ _ Hx) as Hqi. unfold queue_inv in Hqi.
  unfold keeps, semtimedop_wake. sem_step. eapply wp_get_sleeper; [done|]. cbv beta zeta.
  destruct (Z.eqb_spec (q_status x) (- EINTR)) as [Est|Est]; cbn [negb].
  - destruct (q_linked x) eqn:El; [|done]. destruct Hqi as (i & sma & Hi & Hp). do 2 sem_step.
    pose proof (co_set _ _ (sy_core _ Hs) _ _ Hi) as Hset.
    destruct (si_queue _ _ _ _ Hset _ Hp) as (x' & Hx' & Px). rewrite Hx in Hx'. injection Hx' as <-.
    rewrite (po_id _ _ _ _ _ _ Px). destruct (ident_split _ _ _ (co_ids _ _ (sy_core _ Hs)) Hi) as (H0 & Hl & Hc).
    assert (E : ipc_lock (sem_ids s) (ident i sma) = Some sma) by (apply lock_spec; [apply Hs|done|by rewrite Hl]).
    rewrite E. destruct (held_of _ _ _ _ (sy_core _ Hs) H0 E Hc) as [Hh _].
    sem_step. eapply wp_remove; [done|done|]. unfold unlock_put. do 4 sem_step. sem_step.
    set (sma' := set_pending _ sma).
    assert (Efin : ∀ v, on_queues (delete task) (on_ids (λ ids, put_obj ids (ident i sma) sma')
      (on_queues <[task := v]> s)) = store (ident i sma) sma' (on_queues (delete task) s)).
    { intros v. unfold store, on_queues, on_ids. cbn. by rewrite delete_insert_eq. }
    rewrite Efin. eapply (sys_unlock s (on_queues (delete task) s)); [done| |].
    + eapply held_change; [done|done..|apply Hset|apply Hset|done|by auto|apply NoDup_filter, Hset| | | |done|done].
      * by intros q [_ ?]%list_elem_of_filter.
      * by apply forget_like.
      * exact (undos_like_refl _ _ (sy_core _ Hs)).
    + constructor; [done..|exact (undos_like_refl _ _ (sy_core _ Hs))|]. intros q Hq. cbn. by apply lookup_delete_None; right.
  - do 2 sem_step. sem_step. destruct Hs as [Hc Hr Ho]. constructor; [|by destruct Hr|done].
    apply core_forget; [done|]. intros i sma Hi Hp.
    destruct (si_queue _ _ _ _ (co_set _ _ Hc _ _ Hi) _ Hp) as (x' & Hx' & Px). rewrite Hx in Hx'. injection Hx' as <-.
    apply Est, Px.
Qed.

(** ** fork *)

(** Tasks that do not sleep may change their lists. *)
Lemma core_tasks own s f : core_ok own s → (∀ q, is_Some (queues s !! q) → f (task_ulist s) !! q = task_ulist s !! q) →
  core_ok own (on_task_ulist f s).
Proof.
  intros [? Hset ? ? ? ? ? ? ?] Hf. constructor; try done. intros i sma Hi.
  destruct (Hset i sma Hi) as [? ? ? Bq ?]. constructor; try done. intros q Hqp.
  destruct (Bq q Hqp) as (x & Hx & [? ? Pu]). exists x. split; [done|]. constructor; [done|done|].
  intros u Eu. destruct (Pu u Eu) as (? & l & ? & ?). split; [done|]. exists l. cbn. rewrite Hf; [done|]. by exists x.
Qed.

Lemma own_put s l x n : ulists s !! l = Some x →
  own_of (on_ulists (insert l (mk_ulist n (proc_list x))) s) = own_of s.
Proof. intros H. unfold own_of at 1. cbn. rewrite fmap_insert. exact (insert_own_of s l x H). Qed.

(** A list gets another reference count together with the tasks that use it. *)
Lemma refs_change s s' l x n : refs_ok s → ulists s !! l = Some x → 0 < n →
  ulists s' = <[l := mk_ulist n (proc_list x)]> (ulists s) →
  (∀ t l', task_ulist s' !! t = Some l' → l' = l ∨ task_ulist s !! t = Some l') →
  (∀ l', sharers l' (task_ulist s') = sharers l' (task_ulist s) + if decide (l' = l) then n - refcnt x else 0) →
  refs_ok s'.
Proof.
  intros [R1 R2] Hx Hn Eu Ht Hc. constructor; rewrite Eu.
  - intros t l' Hl'. rewrite lookup_insert_is_Some'. destruct (Ht _ _ Hl') as [->|Hl]; [by left|right].
    by eapply R1.
  - intros l' x' Hx'. fold (sharers l' (task_ulist s')). rewrite Hc. destruct (decide (l' = l)) as [->|Hne].
    + rewrite lookup_insert_eq in Hx'. injection Hx' as <-. cbn. destruct (R2 _ _ Hx) as [_ E]. unfold sharers. lia.
    + rewrite lookup_insert_ne in Hx' by done. destruct (R2 _ _ Hx') as [? E]. unfold sharers. lia.
Qed.

Lemma copy_semundo_ok task child clone kmem_list s : sys_ok s → task ≠ child →
  task_ulist s !! child = None → queues s !! child = None →
  (∀ l, kmem_list = Some l → ulists s !! l = None) → keeps (copy_semundo task child clone kmem_list) s.
Proof.
  intros Hs Hne Hc Hq Hf. unfold keeps, copy_semundo. destruct clone.
  - sem_step. eapply wp_impl; [by apply wp_get_undo_list| |by intros e s' ->]. cbv beta.
    intros l s1 (Hs1 & _ & Eq1 & _ & _ & [x Hx] & Ht1). sem_step. unfold wp at 1, get_ulist. rewrite Hx.
    unfold put_ulist. do 4 sem_step. sem_step. destruct Hs1 as [Hc1 Hr1 Ho1].
    assert (Hc' : task_ulist s1 !! child = None) by (rewrite Ht1; done).
    destruct (ro_count _ Hr1 _ _ Hx) as [Hpos _]. set (s' := on_task_ulist _ _).
    assert (Eown : own_of s' = own_of s1) by (by apply (own_put s1 l x)).
    constructor; [|apply (refs_change s1 s' l x (refcnt x + 1)); try done|by rewrite Eown]; [|lia|..].
    + rewrite Eown. apply core_tasks; [by apply core_ulists|]. cbn. rewrite Eq1. intros q [z Hz].
      rewrite lookup_insert_ne; [done|]. congruence.
    + intros t l'. cbn. destruct (decide (t = child)) as [->|]; [rewrite lookup_insert_eq; intros [= <-]; by left|].
      rewrite lookup_insert_ne by done. by right.
    + intros l'. cbn. rewrite sharers_insert by done. repeat case_decide; subst; try done; lia.
  - do 2 sem_step. sem_step. enough (on_task_ulist (delete child) s = s) as -> by done.
    unfold on_task_ulist. rewrite delete_id by done. by destruct s.
Qed.

(** ** exit *)

Lemma adjust_ok pid a c : val_ok c → val_ok (adjust pid a c).
Proof.
  intros H. unfold adjust. destruct (a =? 0); [done|]. unfold val_ok in *. cbv zeta. cbn [semval].
  change SEMVMX with 32767 in *. repeat case_zb; lia.
Qed.

Lemma obj_put_ne (ids : ipc_ids sem_array) semid x j : j ≠ Z.to_nat (lid semid) →
  obj (put_obj ids semid x) j = obj ids j.
Proof. intros Hne. unfold obj, put_obj. cbn. by rewrite list_lookup_insert_ne. Qed.

Lemma wp_exit_undo own s u y tgid now Ψ : core_ok own s → (∀ l, ¬ owned own l u) →
  undos s !! u = Some y → attached s u y →
  wp (exit_undo u tgid now) (λ _ s', core_ok own s' ∧ undos_like (undos s) (undos s') ∧
    ulists s' = ulists s ∧ task_ulist s' = task_ulist s ∧
    ∀ i sma, obj (sem_ids s') i = Some sma → u ∉ undo sma) Ψ s.
Proof.
  intros H Hno Hy Hat. pose proof (undos_like_refl _ _ H) as Hrefl.
  unfold exit_undo. sem_step. eapply wp_get_undo; [done|]. cbv beta zeta.
  destruct (Z.eqb_spec (u_semid y) (-1)) as [Ed|Ed].
  { sem_step. split_and!; try done. intros i sma Hi Hu.
    destruct (si_adj _ _ _ _ (co_set _ _ H _ _ Hi) u Hu) as (z & Hz & Ez & _). rewrite Hy in Hz. injection Hz as <-.
    apply (ident_not_dead _ _ _ _ H Hi). congruence. }
  destruct Hat as [?|(i & sma & Hi & Hu)]; [done|]. pose proof (co_set _ _ H _ _ Hi) as Hset.
  destruct (si_adj _ _ _ _ Hset u Hu) as (z & Hz & Ez & El). rewrite Hy in Hz. injection Hz as <-. rewrite Ez.
  destruct (ident_split _ _ _ (co_ids _ _ H) Hi) as (H0 & Hl & Hc).
  assert (E : ipc_lock (sem_ids s) (ident i sma) = Some sma) by (apply lock_spec; [apply H|done|by rewrite Hl]).
  destruct (held_of _ _ _ _ H H0 E Hc) as [Hh _]. do 2 sem_step. rewrite E, Hc, decide_True by done. cbn [sem_base set_undo].
  rewrite El, Nat.eqb_refl. cbn [negb]. sem_step. set (sma1 := set_otime _ _).
  assert (Hh1 : held own (ident i sma) sma1 s).
  { eapply held_change; [exact Hh|done|done|done| | | | | | | |apply queues_like_refl|done|done|done]; cbn.
    - rewrite length_zip_with. lia.
    - apply Forall_lookup_2. intros n c. rewrite lookup_zip_with. intros (a & _ & (b & Hb & [= <-])%bind_Some)%bind_Some.
      apply adjust_ok. exact (Forall_lookup_1 _ _ _ _ (si_vals _ _ _ _ Hset) Hb).
    - apply NoDup_filter, Hset.
    - by intros w [_ ?]%list_elem_of_filter.
    - intros w Hw. destruct (decide (w = u)) as [->|]; [by right|left]. by apply list_elem_of_filter.
    - apply Hset.
    - done. }
  eapply wp_mono; [by apply held_update_queue|]. cbv beta. intros sma2 s2 (Hh2 & [Ei Eul Et _ Hlk _] & Eun).
  apply wp_modify. split_and!; [apply Hh2|done|done|done|]. intros j b Hj.
  destruct (decide (j = i)) as [->|Hne].
  - pose proof (he_obj _ _ _ _ Hh2) as Ho2. rewrite Hl in Ho2. unfold store in Ho2. rewrite Ho2 in Hj. injection Hj as <-.
    rewrite Eun. cbn. by intros [? _]%list_elem_of_filter.
  - cbn in Hj. rewrite obj_put_ne, Ei in Hj by (by rewrite Hl). intros Hub. apply Hne. by eapply undo_disj.
Qed.

(** A list that no task holds gives up its first structure. *)
Lemma disown_first own l u us s : core_ok (<[l := u :: us]> own) s → (∀ t, task_ulist s !! t ≠ Some l) →
  core_ok (<[l := us]> own) s ∧ (∀ l', ¬ owned (<[l := us]> own) l' u) ∧ ∃ y, undos s !! u = Some y ∧ attached s u y.
Proof.
  intros H Ht.
  assert (Ho : owned (<[l := u :: us]> own) l u) by (rewrite owned_insert; left; split; [done|by left]).
  pose proof (co_own_nodup _ _ H l (u :: us)) as Hnd. rewrite lookup_insert_eq in Hnd.
  specialize (Hnd eq_refl). apply NoDup_cons in Hnd as [Hnu Hnd]. split_and!.
  - eapply (core_disown _ _ _ _ u); [done|done|by right|by intros w [->|?]%elem_of_cons; auto|].
    intros i sma q x Hi Hq Hx Eu. destruct (si_queue _ _ _ _ (co_set _ _ H _ _ Hi) q Hq) as (x' & Hx' & Px).
    rewrite Hx in Hx'. injection Hx' as <-. destruct (po_undo _ _ _ _ _ _ Px u Eu) as (_ & l' & Hl' & Ho').
    apply (Ht q). rewrite Hl'. f_equal. by apply (co_own_disj _ _ H l' l u).
  - intros l' [[-> ?]|[Hne Ho']]%owned_insert; [done|]. apply Hne.
    apply (co_own_disj _ _ H l' l u); [|done]. apply owned_insert. by right.
  - exact (co_own _ _ H l u Ho).
Qed.

Lemma wp_exit_loop own l tgid now us Ψ : ∀ s, core_ok (<[l := us]> own) s →
  (∀ t, task_ulist s !! t ≠ Some l) → all_owned (<[l := us]> own) (undos s) →
  wp (exit_loop us tgid now) (λ _ s', core_ok (<[l := []]> own) s' ∧ all_owned (<[l := []]> own) (undos s') ∧
    ulists s' = ulists s ∧ task_ulist s' = task_ulist s) Ψ s.
Proof.
  induction us as [|u us IH]; intros s H Ht Ha; cbn [exit_loop]; [by sem_step|].
  destruct (disown_first _ _ _ _ _ H Ht) as (Hd & Hun & y & Hy & Hat).
  sem_step. eapply wp_mono; [by apply (wp_exit_undo _ _ _ _ _ _ _ Hd Hun Hy)|]. cbv beta.
  intros _ s1 (Hc1 & Hlk & Eul & Et & Hna). do 2 sem_step. eapply wp_mono; [apply IH|].
  - by apply core_free.
  - cbn. by rewrite Et.
  - intros w [z Hz]. cbn in Hz. apply lookup_delete_Some in Hz as [Hne Hz].
    destruct (Ha w) as [l' Ho']; [eapply undos_like_dom; [done|by exists z]|]. exists l'.
    rewrite owned_insert in *. rewrite elem_of_cons in Ho'. destruct Ho' as [[-> [->|?]]|?]; [done|by left|by right].
  - cbv beta. intros _ s2 (? & ? & E1 & E2). cbn in E1, E2. split_and!; congruence || done.
Qed.

(** Only which structure belongs to which list matters. *)
Lemma core_own_ext own own' s : core_ok own s → (∀ l u, owned own l u ↔ owned own' l u) →
  (∀ l us, own' !! l = Some us → NoDup us) → core_ok own' s.
Proof.
  intros H He Hnd. constructor; try apply H.
  - intros i sma Hi. destruct (co_set _ _ H _ _ Hi) as [? ? ? Bq ?]. constructor; try done. intros q Hq.
    destruct (Bq q Hq) as (x & Hx & [? ? Pu]). exists x. split; [done|]. constructor; [done|done|].
    intros u Eu. destruct (Pu u Eu) as (? & l & ? & ?). split; [done|]. exists l. by rewrite <- He.
  - intros l u. rewrite <- He. apply H.
  - done.
  - intros l l' u. rewrite <- !He. apply H.
  - intros l u u' y y'. rewrite <- !He. apply H.
Qed.

Lemma wp_exit_sem task tgid now s Ψ : sys_ok s → queues s !! task = None →
  wp (exit_sem task tgid now) (λ _ s', sys_ok s') Ψ s.
Proof.
  intros Hs Hq. unfold exit_sem. do 2 sem_step.
  destruct (task_ulist s !! task) as [l|] eqn:Et; [|by sem_step].
  destruct Hs as [Hc Hr Ho]. destruct (ro_task _ Hr _ _ Et) as [x Hx]. destruct (ro_count _ Hr _ _ Hx) as [Hpos Hcnt].
  fold (sharers l (task_ulist s)) in Hcnt. sem_step. unfold wp at 1, get_ulist. rewrite Hx. do 2 sem_step.
  assert (Hc1 : core_ok (own_of s) (on_task_ulist (delete task) s)).
  { apply core_tasks; [done|]. intros q [z Hz]. rewrite lookup_delete_ne; [done|]. congruence. }
  pose proof (sharers_delete) as Hsd. destruct (Z.eqb_spec (refcnt x - 1) 0) as [E|E]; cbn [negb].
  - assert (Hnone : ∀ t, delete task (task_ulist s) !! t ≠ Some l).
    { intros t Hl%sharers_pos. rewrite (Hsd _ _ _ _ Et), decide_True in Hl by done. lia. }
    sem_step. eapply wp_mono; [apply (wp_exit_loop (own_of s) l)|].
    + by rewrite insert_own_of.
    + done.
    + by rewrite insert_own_of.
    + cbv beta. intros _ s2 (Hc2 & Ho2 & Eul & Et2). cbn in Eul, Et2. sem_step. set (s' := on_ulists _ _).
      assert (Eown : own_of s' = delete l (own_of s)) by (unfold own_of; cbn; by rewrite fmap_delete, Eul).
      assert (How : ∀ l' u, owned (<[l := []]> (own_of s)) l' u ↔ owned (own_of s') l' u).
      { intros l' u. rewrite Eown, owned_insert. unfold owned. destruct (decide (l' = l)) as [->|Hne].
        - rewrite lookup_delete_eq. split; [intros [[_ []%elem_of_nil]|[? _]]; done|by intros (? & ? & _)].
        - rewrite lookup_delete_ne by done. split; [intros [[? _]|[_ ?]]; done|by right]. }
      constructor.
      * eapply core_own_ext; [by apply core_ulists|exact How|]. rewrite Eown.
        intros l' us [_ E']%lookup_delete_Some. by eapply (co_own_nodup _ _ Hc).
      * constructor; cbn; rewrite Eul, Et2.
        -- intros t l' Hl'. rewrite lookup_delete_is_Some. split; [intros <-; by eapply Hnone|].
           apply lookup_delete_Some in Hl' as [_ Hl']. by eapply (ro_task _ Hr).
        -- intros l' x' [Hne Hx']%lookup_delete_Some. destruct (ro_count _ Hr _ _ Hx') as [? E'].
           fold (sharers l' (task_ulist s)) in E'. fold (sharers l' (delete task (task_ulist s))).
           rewrite (Hsd _ _ _ _ Et), decide_False by done. split; [done|lia].
      * intros u Hu. destruct (Ho2 u Hu) as [l' ?]. exists l'. by apply How.
  - unfold put_ulist. sem_step. set (s' := on_ulists _ _). assert (Eown : own_of s' = own_of s) by (by apply (own_put s l x)).
    constructor; [|apply (refs_change s s' l x (refcnt x - 1)); try done|by rewrite Eown]; [|lia|..].
    + rewrite Eown. by apply core_ulists.
    + intros t l'. cbn. intros [_ ?]%lookup_delete_Some. by right.
    + intros l'. cbn. rewrite (Hsd _ _ _ _ Et). repeat case_decide; subst; try done; lia.
Qed.

Lemma exit_sem_ok task tgid now s : sys_ok s → queues s !! task = None → keeps (exit_sem task tgid now) s.
Proof. apply wp_exit_sem. Qed.

(** ** Histories *)

Section history.
Context (sc_semmsl sc_semmns sc_semopm sc_semmni : Z).

Inductive sem_call :=
| CSemget (c : cred) (k nsems semflg : Z) (alloc grow : bool) (now : Z)
| CSemctl (c : cred) (semid semnum : Z) (arg : semctl_arg) (tgid now : Z) (alloc copy : bool)
| CSemop (a : semop_args) (now : Z)
| CWake (task : Z) (timed_out : bool)
| CFork (task child : Z) (clone_sysvsem : bool) (kmem_list : option Z)
| CExit (task tgid now : Z).

Definition run_call (c : sem_call) : SM sysv unit :=
  match c with
  | CSemget c k nsems flg alloc grow now =>
      _ ← sys_semget sc_semmsl sc_semmns sc_semmni c k nsems flg alloc grow now; mret tt
  | CSemctl c semid semnum arg tgid now alloc copy =>
      _ ← sys_semctl sc_semmsl sc_semmns sc_semopm sc_semmni c semid semnum arg tgid now alloc copy; mret tt
  | CSemop a now => _ ← sys_semtimedop sc_semopm a now; mret tt
  | CWake task timed_out => _ ← semtimedop_wake task timed_out; mret tt
  | CFork task child clone kmem_list => _ ← copy_semundo task child clone kmem_list; mret tt
  | CExit task tgid now => exit_sem task tgid now
  end.

(** When a call can happen: a task is in one call at a time, a new task is new, and the
    allocators return memory that is not in use. *)
Definition call_pre (c : sem_call) (s : sysv) : Prop :=
  match c with
  | CSemget _ _ _ _ _ _ _ | CSemctl _ _ _ _ _ _ _ _ => True
  | CSemop a _ => semop_pre a s
  | CWake task _ => is_Some (queues s !! task)
  | CFork task child _ kmem_list =>
      task ≠ child ∧ task_ulist s !! child = None ∧ queues s !! child = None ∧
      ∀ l, kmem_list = Some l → ulists s !! l = None
  | CExit task _ _ => queues s !! task = None
  end.

(** States reached from boot; an error return is an outcome like any other. *)
Inductive reach : sysv → Prop :=
| reach_init alloc : reach (sem_init sc_semmni alloc)
| reach_call c s : reach s → call_pre c s → reach (run_call c s).2.

Lemma keeps_tt {A} (m : SM sysv A) s : keeps m s → keeps (_ ← m; mret tt) s.
Proof. intros H. by apply wp_bind. Qed.

Lemma sys_semctl_ok c semid semnum arg tgid now alloc copy s : sys_ok s →
  keeps (sys_semctl sc_semmsl sc_semmns sc_semopm sc_semmni c semid semnum arg tgid now alloc copy) s.
Proof.
  intros Hs. unfold sys_semctl. destruct (Z.ltb_spec semid 0); [by apply keeps_fail|].
  destruct arg as [cmd| |[[[nuid ngid] nmode]|]|cmd].
  - by apply semctl_main_ok.
  - unfold keeps. sem_step. eapply wp_mono; [by apply semctl_rmid_ok|done].
  - unfold keeps. sem_step. eapply wp_mono; [by apply semctl_set_ok|done].
  - by apply keeps_fail.
  - by apply semctl_nolock_ok.
Qed.

Lemma run_call_ok c s : 0 <= sc_semmni → sys_ok s → call_pre c s → keeps (run_call c) s.
Proof.
  intros Hm Hs Hp. destruct c; cbn [run_call call_pre] in *; [apply keeps_tt..|].
  - by apply sys_semget_ok.
  - by apply sys_semctl_ok.
  - by apply sys_semtimedop_ok.
  - by apply semtimedop_wake_ok.
  - destruct Hp as (? & ? & ? & ?). by apply copy_semundo_ok.
  - by apply exit_sem_ok.
Qed.

Lemma keeps_state {A} (m : SM sysv A) s : keeps m s → sys_ok (m s).2 ∧ (m s).1 ≠ Bug.
Proof. unfold keeps, wp. by destruct (m s) as [[a|e|] s']. Qed.

Lemma sem_init_ok alloc : 0 <= sc_semmni → sys_ok (sem_init sc_semmni alloc).
Proof.
  intros Hm. assert (Hids : ids_ok (sem_ids (sem_init sc_semmni alloc))) by (by apply init_ok).
  assert (Hno : ∀ i, obj (sem_ids (sem_init sc_semmni alloc)) i = None).
  { intros i. unfold obj, sem_init, ipc_init_ids. cbn [sem_ids entries].
    destruct (replicate _ None !! i) eqn:E; [|done]. by apply lookup_replicate in E as [-> _]. }
  constructor.
  - constructor; [done|intros i sma; by rewrite Hno|..]; cbn; unfold own_of; cbn.
    + intros q x. by rewrite lookup_empty.
    + intros u y. by rewrite lookup_empty.
    + intros l u (us & Hu & _). by rewrite fmap_empty, lookup_empty in Hu.
    + intros l us. by rewrite fmap_empty, lookup_empty.
    + intros l l' u (us & Hu & _). by rewrite fmap_empty, lookup_empty in Hu.
    + intros l u u' y y' (us & Hu & _). by rewrite fmap_empty, lookup_empty in Hu.
    + assert (H : ∀ l, foldr (λ i n, nsems_at (sem_init sc_semmni alloc) i + n) 0 l = 0); [|by rewrite H].
      induction l as [|i l IH]; [done|]. cbn [foldr]. rewrite IH. unfold nsems_at. by rewrite Hno.
  - constructor; cbn; [intros t l|intros l x]; by rewrite lookup_empty.
  - intros u. cbn. rewrite lookup_empty. by intros [? ?].
Qed.

Lemma reach_ok s : 0 <= sc_semmni → reach s → sys_ok s.
Proof.
  intros Hm. induction 1 as [alloc|c s _ IH Hp]; [by apply sem_init_ok|].
  by apply (keeps_state (run_call c) s), run_call_ok.
Qed.
End history.

End SemTrace.

(** * Exit: what a task's undo structures do to the values

    The adjustment of the sets by [exit_sem], seen from one of them. *)

Module SemExit.
Import Ipc IpcFacts Sem SemFacts SemSystem SemCalls SemUndo SemTrace.

(** ** What operations of others leave alone *)

(** The sets and, if there is to be one, an undo structure. *)
Definition apart (o : option Z) (s s' : sysv) : Prop :=
  sem_ids s' = sem_ids s ∧ ∀ w, o = Some w → undos s' !! w = undos s !! w.

Lemma apart_trans o a b c : apart o a b → apart o b c → apart o a c.
Proof. intros [? Ha] [? Hb]. split; [congruence|]. intros w E. by rewrite Hb, Ha. Qed.

Lemma try_apart o sma sops un pid now s : (o = None ∨ un ≠ o) →
  post (try_atomic_semop sma sops un pid now) (λ r s', apart o s s' ∧ queues s' = queues s ∧ sem_pending r.2 = sem_pending sma) s.
Proof.
  intros Hn. unfold try_atomic_semop. apply post_bind. destruct un as [u|].
  - apply post_bind. unfold post at 1, get_undo. destruct (undos s !! u) as [x|] eqn:Hx; [|done].
    unfold post at 1. cbn. destruct (semop_apply _ _ _ _) as [[[v base] ops]|e|]; [|done|done].
    destruct v; [|done|done]. destruct (semop_commit _ _ _ _) as [base' [a|]]; apply post_bind; [|done].
    apply post_bind. unfold post at 1, get_undo. rewrite Hx. unfold post, put_undo, modify. cbn. split_and!; [|done|done].
    split; [done|]. intros w ->. cbn. rewrite lookup_insert_ne; [done|]. destruct Hn as [|Hn]; congruence.
  - unfold post at 1. cbn. destruct (semop_apply _ _ _ _) as [[[v base] ops]|e|]; [|done|done].
    destruct v; [|done|done]. by destruct (semop_commit _ _ _ _) as [base' [a|]].
Qed.

(** No operation in a list of sleepers has that undo structure. *)
Definition strangers (o : option Z) (s : sysv) (l : list Z) : Prop :=
  ∀ q x, q ∈ l → queues s !! q = Some x → o = None ∨ q_undo x ≠ o.

Lemma strangers_link w s q x b st l : queues s !! q = Some x → strangers w s l →
  strangers w (on_queues (insert q (link b st x)) s) l.
Proof.
  intros Hx Hs q' x' Hq'. cbn. destruct (decide (q' = q)) as [->|Hne].
  - rewrite lookup_insert_eq. intros [= <-]. by apply (Hs q x).
  - rewrite lookup_insert_ne by done. by apply Hs.
Qed.

Lemma update_loop_apart w now fuel : ∀ sma rest s, strangers w s rest → strangers w s (sem_pending sma) →
  post (update_loop fuel sma rest now) (λ _ s', apart w s s') s.
Proof.
  induction fuel as [|fuel IH]; intros sma [|q next] s Hr Hp; cbn [update_loop]; [done|done|done|].
  apply post_bind. unfold post at 1, get_queue. destruct (queues s !! q) as [x|] eqn:Hx; [|done].
  apply post_bind. eapply post_mono; [apply (try_apart w); apply (Hr q x); [by left|done]|]. cbv beta.
  intros [error sma1] s1 (Ha & Eq & Ep). cbn [fst snd] in Ep.
  assert (∀ l, strangers w s l → strangers w s1 l) as Hk by (intros l H q' x' Hq' Hx'; rewrite Eq in Hx'; by apply (H q')).
  destruct (error <=? 0).
  - apply post_bind. unfold remove_from_queue. apply post_bind. unfold post at 1, get_queue. rewrite Eq, Hx.
    rewrite Ep. destruct (decide (q ∈ sem_pending sma)); [|done]. apply post_bind. unfold post at 1, put_queue, modify.
    unfold post at 1. cbn [mret SM_ret]. apply post_bind. unfold post at 1, modify. apply post_bind. unfold post at 1, modify.
    set (s2 := on_queues _ (wake q _)). assert (apart w s s2) as Ha2 by (eapply apart_trans; [exact Ha|done]).
    assert (∀ l, strangers w s l → strangers w s2 l) as Hk2.
    { intros l H%Hk q' x'. unfold s2. cbn. rewrite insert_insert_eq. rewrite <- Eq in Hx. by apply (strangers_link w s1 q x false error l). }
    eapply post_mono; [apply IH|cbv beta; intros _ s3 H3; by eapply apart_trans].
    + apply Hk2. destruct (q_alter x); [|intros q' x' Hq'; apply Hr; by right].
      cbn. intros q' x' [_ Hq']%list_elem_of_filter. by apply Hp.
    + apply Hk2. cbn. intros q' x' [_ Hq']%list_elem_of_filter. by apply Hp.
  - eapply post_mono; [apply IH|cbv beta; intros _ s3 H3; by eapply apart_trans].
    + apply Hk. intros q' x' Hq'. apply Hr. by right.
    + rewrite Ep. by apply Hk.
Qed.

(** ** One undo structure *)

Lemma lock_obj (ids : ipc_ids sem_array) semid sma : ipc_lock ids semid = Some sma → obj ids (Z.to_nat (lid semid)) = Some sma.
Proof. unfold ipc_lock, obj. cbv zeta. destruct (_ || _); [done|]. destruct (entries ids !! _) as [[x|]|]; [|done|done]. cbn. by destruct (deleted _). Qed.

(** An undo structure of another set, or of none. *)
Lemma exit_undo_apart w u tgid now s i sma : obj (sem_ids s) i = Some sma → (u ∉ undo sma) →
  (∀ j b, obj (sem_ids s) j = Some b → u ∈ undo b → strangers w s (sem_pending b)) →
  post (exit_undo u tgid now) (λ _ s', (∀ z, w = Some z → undos s' !! z = undos s !! z) ∧ obj (sem_ids s') i = Some sma) s.
Proof.
  intros Hi Hu Hw. unfold exit_undo. apply post_bind. unfold post at 1, get_undo.
  destruct (undos s !! u) as [x|]; [|done]. destruct (u_semid x =? -1); [done|]. apply post_bind. unfold post at 1, gets.
  cbn [id]. destruct (ipc_lock (sem_ids s) (u_semid x)) as [b|] eqn:Hl; [|done]. apply lock_obj in Hl.
  destruct (ipc_checkid _ _); [done|]. destruct (decide (u ∈ undo b)) as [Hub|]; [|done].
  assert (i ≠ Z.to_nat (lid (u_semid x))) as Hne by (intros ->; congruence).
  cbv zeta. destruct (negb _); [done|]. apply post_bind. unfold update_queue.
  eapply post_mono; [apply (update_loop_apart w); exact (Hw _ _ Hl Hub)|]. cbv beta. intros b' s1 [Eid Ha].
  unfold post, unlock_put, modify. cbn. split; [done|]. rewrite obj_put_ne by done. by rewrite Eid.
Qed.

(** The undo structure of the set itself, when nobody sleeps on it. *)
Lemma exit_undo_here u y tgid now s sma : let i := Z.to_nat (lid (u_semid y)) in
  undos s !! u = Some y → u_semid y ≠ -1 → ipc_lock (sem_ids s) (u_semid y) = Some sma → u ∈ undo sma → sem_pending sma = [] →
  post (exit_undo u tgid now) (λ _ s', ∃ sma', obj (sem_ids s') i = Some sma' ∧
    sem_base sma' = zip_with (adjust tgid) (semadj y) (sem_base sma) ∧
    undo sma' = filter (λ j, j ≠ u) (undo sma) ∧ sem_perm sma' = sem_perm sma) s.
Proof.
  intros i Hy Hd Hl Hu Hp. pose proof (lock_obj _ _ _ Hl) as Hi. unfold exit_undo. apply post_bind.
  unfold post at 1, get_undo. rewrite Hy. apply Z.eqb_neq in Hd. rewrite Hd.
  apply post_bind. unfold post at 1, gets. cbn [id]. rewrite Hl.
  destruct (ipc_checkid _ _); [done|]. rewrite decide_True by done. cbv zeta. destruct (negb _); [done|].
  unfold update_queue. cbn [sem_pending set_otime set_base set_undo]. rewrite Hp. cbn [length Nat.mul Nat.add update_loop].
  eexists. split; [unfold obj, put_obj; cbn; fold i in Hi |- *; rewrite list_lookup_insert_eq; [done|]|done].
  unfold obj in Hi. destruct (entries (sem_ids s) !! i) eqn:E; [|done]. by eapply lookup_lt_Some.
Qed.

(** ** The loop over the structures of a list *)

Lemma exit_loop_apart us tgid now : ∀ s i sma, obj (sem_ids s) i = Some sma → (∀ u, u ∈ us → u ∉ undo sma) →
  post (exit_loop us tgid now) (λ _ s', obj (sem_ids s') i = Some sma) s.
Proof.
  induction us as [|u us IH]; intros s i sma Hi Hu; cbn [exit_loop]; [done|]. apply post_bind.
  eapply post_mono.
  - apply (exit_undo_apart None u tgid now s i sma Hi); [apply Hu; by left|]. intros ??????? ; by left.
  - cbv beta. intros _ s1 [_ H1]. apply post_bind. unfold post at 1, modify. apply IH; [done|]. intros w Hw. apply Hu. by right.
Qed.

Lemma exit_loop_here own l tgid now w y us : ∀ s sma, core_ok (<[l := us]> own) s → (∀ t, task_ulist s !! t ≠ Some l) →
  w ∈ us → undos s !! w = Some y → 0 <= u_semid y → ipc_lock (sem_ids s) (u_semid y) = Some sma → w ∈ undo sma →
  sem_pending sma = [] →
  post (exit_loop us tgid now) (λ _ s', ∃ sma', obj (sem_ids s') (Z.to_nat (lid (u_semid y))) = Some sma' ∧
    sem_base sma' = zip_with (adjust tgid) (semadj y) (sem_base sma) ∧ sem_perm sma' = sem_perm sma) s.
Proof.
  induction us as [|u us IH]; intros s sma H Ht Hw Hy H0 Hl Hu Hp; [by apply elem_of_nil in Hw|]. cbn [exit_loop].
  destruct (disown_first _ _ _ _ _ H Ht) as (Hd & Hun & y' & Hy' & Hat).
  pose proof (lock_obj _ _ _ Hl) as Hi. set (i := Z.to_nat _) in *.
  assert (Hother : ∀ u', u' ∈ u :: us → u' ∈ undo sma → u' = w).
  { intros u' Hu' Hin. destruct (si_adj _ _ _ _ (co_set _ _ H _ _ Hi) u' Hin) as (z' & Hz' & Ez' & _).
    destruct (si_adj _ _ _ _ (co_set _ _ H _ _ Hi) w Hu) as (z & Hz & Ez & _). rewrite Hy in Hz. injection Hz as <-.
    apply (co_own_uniq _ _ H l u' w z' y); try done; [..|congruence|lia]; rewrite owned_insert; by left. }
  apply post_bind. destruct (decide (u = w)) as [->|Hne].
  - eapply post_mono; [apply (exit_undo_here w y tgid now s sma); try done; lia|]. cbv beta.
    intros _ s1 (sma1 & Hi1 & Eb & Eu & Ep). apply post_bind. unfold post at 1, modify.
    eapply post_mono; [apply (exit_loop_apart us tgid now (on_undos (delete w) s1) i sma1 Hi1)|cbv beta; eauto].
    intros u' Hu'. rewrite Eu. intros [Hn Hin]%list_elem_of_filter. apply Hn, Hother; [by right|done].
  - apply elem_of_cons in Hw as [->|Hw]; [done|].
    assert (u ∉ undo sma) as Hnu by (intros Hin; apply Hne, Hother; [by left|done]).
    eapply post_mono; [apply post_and;
      [apply (post_wp _ _ (λ _ _, False)), (wp_exit_undo _ s u y' tgid now _ Hd Hun Hy' Hat)
      |apply (exit_undo_apart (Some w) u tgid now s i sma Hi Hnu)]|].
    + intros j b Hj Hub q x Hq Hx. right. intros Ew.
      destruct (si_queue _ _ _ _ (co_set _ _ H _ _ Hj) q Hq) as (x' & Hx' & Px). rewrite Hx in Hx'. injection Hx' as <-.
      destruct (po_undo _ _ _ _ _ _ Px w Ew) as [Hwb _]. assert (i = j) as -> by (by eapply (undo_disj _ s i j sma b w)).
      rewrite Hi in Hj. injection Hj as ->. done.
    + cbv beta. intros _ s1 ((Hc1 & Hlk & Eul & Et & Hna) & Hund & Hi1). apply post_bind. unfold post at 1, modify.
      apply IH; try done.
      * by apply core_free.
      * cbn. by rewrite Et.
      * cbn. rewrite lookup_delete_ne by done. rewrite (Hund w eq_refl). done.
      * apply lock_spec; [apply Hc1|done|done].
Qed.

(** ** The whole exit *)

(** The structure of a list for a live set is in the set's list. *)
Lemma owned_undo s l x w y sma : sys_ok s → ulists s !! l = Some x → w ∈ proc_list x → undos s !! w = Some y →
  u_semid y ≠ -1 → ipc_lock (sem_ids s) (u_semid y) = Some sma →
  0 <= u_semid y ∧ ipc_checkid (sem_perm sma) (u_semid y) = false ∧ w ∈ undo sma ∧ length (semadj y) = length (sem_base sma).
Proof.
  intros [Hc _ _] Hx Hw Hy Hd Hl. destruct (co_own _ _ Hc l w) as (y' & Hy' & Hat).
  { exists (proc_list x). split; [|done]. unfold own_of. by rewrite lookup_fmap, Hx. }
  rewrite Hy in Hy'. injection Hy' as <-. destruct Hat as [?|(i & b & Hi & Hu)]; [done|].
  destruct (si_adj _ _ _ _ (co_set _ _ Hc _ _ Hi) w Hu) as (z & Hz & Ez & El). rewrite Hy in Hz. injection Hz as <-.
  destruct (ident_split _ _ _ (co_ids _ _ Hc) Hi) as (H0 & Hlid & Hck). rewrite <- Ez in *.
  apply lock_obj in Hl. rewrite Hlid, Hi in Hl. injection Hl as <-. done.
Qed.

Lemma exit_sem_here task l x w y tgid now s sma : sys_ok s → queues s !! task = None → task_ulist s !! task = Some l →
  ulists s !! l = Some x → refcnt x = 1 → w ∈ proc_list x → undos s !! w = Some y → u_semid y ≠ -1 →
  ipc_lock (sem_ids s) (u_semid y) = Some sma → sem_pending sma = [] →
  ∃ s' sma', exit_sem task tgid now s = (Ok tt, s') ∧ sys_ok s' ∧ ipc_lock (sem_ids s') (u_semid y) = Some sma' ∧
    sem_base sma' = zip_with (adjust tgid) (semadj y) (sem_base sma).
Proof.
  intros Hs Hq Ht Hx Hr Hw Hy Hd Hl Hp. destruct (owned_undo _ _ _ _ _ _ Hs Hx Hw Hy Hd Hl) as (H0 & _ & Hu & _).
  pose proof (wp_exit_sem task tgid now s (λ _ _, False) Hs Hq) as He.
  apply wp_ok in He as ([] & s' & E & Hs'). exists s'.
  assert (post (exit_sem task tgid now) (λ _ s', ∃ sma', obj (sem_ids s') (Z.to_nat (lid (u_semid y))) = Some sma' ∧
    sem_base sma' = zip_with (adjust tgid) (semadj y) (sem_base sma) ∧ sem_perm sma' = sem_perm sma) s) as Hpost.
  { unfold exit_sem. apply post_bind. unfold post at 1, gets. cbn [id]. rewrite Ht. apply post_bind.
    unfold post at 1, get_ulist. rewrite Hx. apply post_bind. unfold post at 1, modify. rewrite Hr. cbn [Z.sub Z.eqb negb].
    change (1 - 1 =? 0) with true. cbn [negb]. apply post_bind.
    eapply post_mono; [apply (exit_loop_here (own_of s) l tgid now w y (proc_list x) (on_task_ulist (delete task) s) sma); try done|].
    - rewrite insert_own_of by done. apply core_tasks; [apply Hs|]. intros q [z Hz]. rewrite lookup_delete_ne; [done|]. congruence.
    - intros t Hl'%sharers_pos. rewrite (sharers_delete _ _ _ _ Ht), decide_True in Hl' by done.
      destruct (ro_count _ (sy_refs _ Hs) _ _ Hx) as [_ Hcnt]. fold (sharers l (task_ulist s)) in Hcnt. lia.
    - cbv beta. intros _ s1 (sma' & ? & ? & ?). exists sma'. done. }
  unfold post in Hpost. rewrite E in Hpost. destruct Hpost as (sma' & Ho & Eb & _). exists sma'. split_and!; try done.
  apply lock_spec; [apply Hs'|done|done].
Qed.

(** ** Operations that are undone *)

(** The net effect on semaphore [i] of the operations without SEM_UNDO. *)
Definition plain_sum (i : nat) (sops : list sembuf) : Z :=
  foldr (λ b n, (if negb (flag SEM_UNDO b) && Nat.eqb (Z.to_nat (sem_num b)) i then sem_op b else 0) + n) 0 sops.

Lemma apply_ops_sums sops : ∀ vals i,
  apply_ops vals sops !! i = (λ v, v + undo_sum i sops + plain_sum i sops) <$> vals !! i.
Proof.
  unfold apply_ops, undo_sum, plain_sum. induction sops as [|b l IH]; intros vals i; cbn [foldl foldr].
  - destruct (vals !! i); cbn; [|done]. f_equal. lia.
  - rewrite IH. destruct (Nat.eqb_spec (Z.to_nat (sem_num b)) i) as [->|Hne].
    + rewrite list_lookup_alter_eq. destruct (vals !! i); cbn [fmap option_fmap option_map]; [|done]. f_equal.
      destruct (flag SEM_UNDO b); cbn [negb andb]; lia.
    + rewrite list_lookup_alter_ne by done. by rewrite !andb_false_r.
Qed.

Definition clamp (v : Z) : Z := Z.max 0 (Z.min SEMVMX v).

Lemma adjust_clamp pid a c : val_ok c → semval (adjust pid a c) = clamp (semval c + a).
Proof.
  unfold val_ok, adjust, clamp. change SEMVMX with 32767. intros H. destruct (Z.eqb_spec a 0); [lia|]. cbv zeta. cbn [semval].
  destruct (Z.ltb_spec (semval c + a) 0); case_zb; lia.
Qed.

(** The adjustments that a sequence registers fit in 16 bits: they do if there were none before and the
    other operations leave the value alone. *)
Definition fits (sops : list sembuf) (adj : list Z) : Prop :=
  ∀ i a, adj !! i = Some a → is_short (a - undo_sum i sops) ∨ (a = 0 ∧ plain_sum i sops = 0).

(** A task that alone has its undo list is not asleep, and its structure [w] for the set [sma], on
    which nobody sleeps, is [y]. *)
Record ready_to_exit (s : sysv) (task semid w : Z) (y : sem_undo) (sma : sem_array) : Prop := {
  re_awake : queues s !! task = None;
  re_list : ∃ l x, task_ulist s !! task = Some l ∧ ulists s !! l = Some x ∧ refcnt x = 1 ∧ w ∈ proc_list x;
  re_undo : undos s !! w = Some y ∧ u_semid y = semid ∧ semid ≠ -1;
  re_set : ipc_lock (sem_ids s) semid = Some sma;
  re_alone : sem_pending sma = []
}.

(** A successful operation keeps this up. *)
Lemma semop_then_ready s task semid w y sma sops pid now sma1 s1 : sys_ok s → ready_to_exit s task semid w y sma →
  Forall (op_wf (length (sem_base sma))) sops → try_atomic_semop sma sops (Some w) pid now s = (Ok (0, sma1), s1) →
  sys_ok (store semid sma1 s1) ∧ length (semadj y) = length (sem_base sma) ∧ Forall val_ok (sem_base sma1) ∧
  (semval <$> sem_base sma1) = apply_ops (semval <$> sem_base sma) sops ∧
  ∃ y1, ready_to_exit (store semid sma1 s1) task semid w y1 sma1 ∧
    ∀ i a, semadj y !! i = Some a → semadj y1 !! i = Some (sgn16 (a - undo_sum i sops)).
Proof.
  intros Hs [Haw (l & x & Ht & Hx & Hr & Hw) (Hy & <- & Hd) Hl Hp] Hwf Etry.
  destruct (owned_undo _ _ _ _ _ _ Hs Hx Hw Hy Hd Hl) as (H0 & Hck & Hu & Hlen).
  destruct (held_of _ _ _ _ (sy_core _ Hs) H0 Hl Hck) as [Hh Est].
  pose proof (held_set_ok _ _ _ _ Hh) as Hok.
  assert (entry_ok (length (sem_base sma)) (undos s)
    (mk_queue (Some w) pid (- EINTR) (u_semid y) sops (sops_alter sops) true)) as Hx0.
  { constructor; cbn; try done. intros u [= <-]. eauto. }
  pose proof (held_try _ _ _ _ _ now (λ _ _, False) Hh Hx0) as Hw1. cbn [q_sops q_undo q_pid] in Hw1.
  pose proof (wp_try sma sops (Some w) pid now s (λ _ _, False)) as Hw2. cbv zeta in Hw2.
  unfold wp in Hw1, Hw2. rewrite Etry in Hw1, Hw2. cbn [fst snd] in *. destruct Hw1 as (Hh1 & Hel & _).
  destruct Hw2 as (He & (Ei & Eq & Eul & Et & _) & _ & Hyes).
  { split; [done|]. intros _. cbn. rewrite Hy. cbn. eauto. }
  { apply Hok. }
  { intros u [= <-]. eauto. }
  symmetry in He. apply error_of_success in He. destruct (Hyes He) as (base & -> & Hlb & Hvb & Hvals & _ & _ & Hua).
  destruct (Hua w y eq_refl Hy) as (y1 & Hy1 & Eid & Hl1 & _ & Hadj).
  { exact (co_short _ _ (sy_core _ Hs) _ _ Hy). }
  split_and!; [by eapply sys_unlock|done|done|done|]. exists y1. split; [|done]. constructor.
  - cbn. by rewrite Eq.
  - exists l, x. cbn. by rewrite Et, Eul.
  - done.
  - apply lock_spec; [apply (he_core _ _ _ _ Hh1)|done|]. exact (he_obj _ _ _ _ Hh1).
  - done.
Qed.

Lemma length_apply_ops sops : ∀ vals, length (apply_ops vals sops) = length vals.
Proof. unfold apply_ops. induction sops as [|b l IH]; intros vals; cbn [foldl]; [done|]. by rewrite IH, length_alter. Qed.

(** The exit of such a task. *)
Lemma exit_after tgid now s task semid w y sma : sys_ok s → ready_to_exit s task semid w y sma →
  ∃ s' sma', exit_sem task tgid now s = (Ok tt, s') ∧ sys_ok s' ∧ ipc_lock (sem_ids s') semid = Some sma' ∧
    sem_base sma' = zip_with (adjust tgid) (semadj y) (sem_base sma) ∧ length (semadj y) = length (sem_base sma).
Proof.
  intros Hs [Haw (l & x & Ht & Hx & Hr & Hw) (Hy & <- & Hd) Hl Hp].
  destruct (owned_undo _ _ _ _ _ _ Hs Hx Hw Hy Hd Hl) as (_ & _ & _ & Hlen).
  destruct (exit_sem_here task l x w y tgid now s sma) as (s' & sma' & ? & ? & ? & ?); try done. by exists s', sma'.
Qed.

End SemExit.
