(* ===== verification/SemTheorems.v ===== *)
(** * Properties of the semaphore system *)

From stdpp Require Import prelude numbers list gmap.
From Stdlib Require Import ZArith Lia.
From S2P Require Import Prelude Ipc IpcFacts Sem SemFacts SemSystem SemCalls SemUndo SemTrace.

#[local] Set Default Goal Selector "!".
#[local] Open Scope Z_scope.

Module SemTheorems.
Import Ipc IpcFacts Sem SemFacts SemSystem SemCalls SemUndo SemTrace SemExit.

(** ** Histories *)

(** C8: The semaphore system is safe in every history.  From boot, after any sequence of
    semget, semctl, semop and semtimedop calls, wake-ups, forks and exits, with any outcome of
    the allocations and of the permission checks, the next call does not dereference freed
    memory and does not hit a BUG, and the system is consistent again: every sleeping operation
    is in the queue of exactly one live set and has its undo structure there, every woken one has
    its result, every undo structure belongs to one list and to its set or is invalidated, the
    lists' reference counts equal the number of tasks sharing them, values are within
    0..SEMVMX, and [used_sems] is the number of semaphores of the live sets. *)
Theorem sem_system_safe sc_semmsl sc_semmns sc_semopm sc_semmni s c :
  0 <= sc_semmni → reach sc_semmsl sc_semmns sc_semopm sc_semmni s → call_pre c s →
  (run_call sc_semmsl sc_semmns sc_semopm sc_semmni c s).1 ≠ Bug ∧
  sys_ok (run_call sc_semmsl sc_semmns sc_semopm sc_semmni c s).2.
Proof.
  intros Hm Hr Hp. pose proof (reach_ok _ _ _ _ _ Hm Hr) as Hs.
  destruct (keeps_state _ _ (run_call_ok sc_semmsl sc_semmns sc_semopm sc_semmni c s Hm Hs Hp)). done.
Qed.

(** Task 1 creates a set of two semaphores and sleeps on the first one with SEM_UNDO; then the
    set is removed. *)
Definition demo_root : cred := mk_cred 0 0 (λ _, false) true true.
Definition demo_get : sem_call := CSemget demo_root 0 2 0x180 true true 5.
Definition demo_wait : sem_call :=
  CSemop (mk_semop 1 1 demo_root 0 [mk_sembuf 0 (-1) SEM_UNDO] None true true true (Some 100) (Some 200)) 6.
Definition demo_rmid : sem_call := CSemctl demo_root 0 0 CtlRmid 2 7 true true.
Definition demo_run := run_call SEMMSL SEMMNS SEMOPM SEMMNI.
Definition demo_asleep : sysv := (demo_run demo_wait (demo_run demo_get (sem_init SEMMNI true)).2).2.

Lemma demo_wait_pre : call_pre demo_wait (demo_run demo_get (sem_init SEMMNI true)).2.
Proof.
  constructor; [|by vm_compute|by intros l [= <-]|by intros u [= <-]].
  repeat constructor; vm_compute; congruence.
Qed.

Lemma sem_system_safe_witness :
  (∃ x, queues demo_asleep !! 1 = Some x ∧ q_linked x = true) ∧
  (demo_run demo_rmid demo_asleep).1 ≠ Bug ∧ sys_ok (demo_run demo_rmid demo_asleep).2.
Proof.
  split; [eexists; split; [by vm_compute|done]|].
  apply (sem_system_safe SEMMSL SEMMNS SEMOPM SEMMNI demo_asleep demo_rmid); [by vm_compute| |done].
  unfold demo_asleep. apply reach_call; [|exact demo_wait_pre]. apply reach_call; [|done].
  apply reach_init.
Defined.

(** ** SEM_UNDO *)

(** What exit makes of the value of one semaphore. *)
Lemma undone_value tgid sops a a' c c1 i : val_ok c → val_ok c1 → semval c1 = semval c + undo_sum i sops + plain_sum i sops →
  a' = sgn16 (a - undo_sum i sops) → is_short (a - undo_sum i sops) ∨ (a = 0 ∧ plain_sum i sops = 0) →
  semval (adjust tgid a' c1) = clamp (semval c + a + plain_sum i sops).
Proof.
  intros Vc V1 E -> Hf. rewrite adjust_clamp, E by done. rewrite sgn16_id; [f_equal; lia|].
  destruct Hf as [?|[-> E0]]; [done|]. unfold val_ok, is_short in *. change SEMVMX with 32767 in *. lia.
Qed.

Lemma plain_none i sops : Forall (λ b, flag SEM_UNDO b = true) sops → plain_sum i sops = 0.
Proof. induction 1 as [|b l Hb _ IH]; [done|]. unfold plain_sum in *. cbn [foldr]. rewrite IH, Hb. done. Qed.

(** C34: Exit takes back what SEM_UNDO operations did.  In a consistent system, let a task that is awake
    and shares its undo list with no other have a structure for a set on which nobody sleeps, with any
    adjustments in it, and let [try_atomic_semop] carry out a sequence of operations on the set
    for it, with and without SEM_UNDO, whose adjustments do not leave the 16 bits they are kept in.
    If the task exits next, [exit_sem] succeeds and leaves a consistent system, in which every
    semaphore of the set has the value that the adjustments recorded before and the operations
    without SEM_UNDO alone give, kept within 0..SEMVMX; if there were neither, its old value. *)
Theorem semop_undo_restores s task semid w y sma sops pid now sma1 s1 tgid now' :
  sys_ok s → ready_to_exit s task semid w y sma → Forall (op_wf (length (sem_base sma))) sops →
  fits sops (semadj y) → try_atomic_semop sma sops (Some w) pid now s = (Ok (0, sma1), s1) →
  ∃ s2 sma2, exit_sem task tgid now' (store semid sma1 s1) = (Ok tt, s2) ∧ sys_ok s2 ∧
    ipc_lock (sem_ids s2) semid = Some sma2 ∧ length (sem_base sma2) = length (sem_base sma) ∧
    (∀ i c a, sem_base sma !! i = Some c → semadj y !! i = Some a →
       semval <$> sem_base sma2 !! i = Some (clamp (semval c + a + plain_sum i sops))) ∧
    (Forall (λ b, flag SEM_UNDO b = true) sops → Forall (λ a, a = 0) (semadj y) →
       (semval <$> sem_base sma2) = (semval <$> sem_base sma)).
Proof.
  intros Hs Hrd Hwf Hfit Etry.
  assert (Forall val_ok (sem_base sma)) as Hv.
  { eapply (si_vals _ _ _ _ (co_set _ _ (sy_core _ Hs) _ _ (lock_obj _ _ _ (re_set _ _ _ _ _ _ Hrd)))). }
  destruct (semop_then_ready _ _ _ _ _ _ _ _ _ _ _ Hs Hrd Hwf Etry) as (Hs1 & Hly & Hv1 & Evals & y1 & Hr1 & Hadj).
  destruct (exit_after tgid now' _ _ _ _ _ _ Hs1 Hr1) as (s2 & sma2 & E & Hs2 & Hl2 & Eb & Hl1). exists s2, sma2.
  assert (length (sem_base sma1) = length (sem_base sma)) as Hlen.
  { rewrite <- (length_fmap semval (sem_base sma1)), Evals, length_apply_ops. apply length_fmap. }
  assert (∀ i c a, sem_base sma !! i = Some c → semadj y !! i = Some a →
    semval <$> sem_base sma2 !! i = Some (clamp (semval c + a + plain_sum i sops))) as Hval.
  { intros i c a Hc Ha. rewrite Eb, lookup_zip_with, (Hadj _ _ Ha). cbn.
    destruct (lookup_lt_is_Some_2 (sem_base sma1) i) as [c1 Hc1]; [rewrite Hlen; by eapply lookup_lt_Some|].
    rewrite Hc1. cbn. f_equal. apply (undone_value tgid sops a _ c c1 i); [..|done|by apply Hfit].
    - exact (Forall_lookup_1 _ _ _ _ Hv Hc).
    - exact (Forall_lookup_1 _ _ _ _ Hv1 Hc1).
    - pose proof (f_equal (.!! i) Evals) as Ev. cbn in Ev. rewrite apply_ops_sums, !list_lookup_fmap, Hc, Hc1 in Ev.
      by injection Ev. }
  split_and!; [done|done|done| |done|].
  - rewrite Eb, length_zip_with. lia.
  - intros Hu H0. apply list_eq. intros i. rewrite !list_lookup_fmap. destruct (sem_base sma !! i) as [c|] eqn:Hc.
    + destruct (lookup_lt_is_Some_2 (semadj y) i) as [a Ha]; [rewrite Hly; by eapply lookup_lt_Some|].
      rewrite (Hval _ _ _ Hc Ha), (plain_none i sops Hu), (Forall_lookup_1 _ _ _ _ H0 Ha). cbn. f_equal.
      pose proof (Forall_lookup_1 _ _ _ _ Hv Hc) as Vc. unfold val_ok, clamp in *. lia.
    + apply lookup_ge_None in Hc. rewrite Eb, lookup_zip_with, (lookup_ge_None_2 (sem_base sma1)) by lia. by destruct (semadj y1 !! i).
Qed.

(** A task gets an undo structure by an operation that may not sleep. *)
Definition demo_probe : sem_call :=
  CSemop (mk_semop 1 1 demo_root 0 [mk_sembuf 0 (-1) (Z.lor SEM_UNDO IPC_NOWAIT)] None true true true
            (Some 100) (Some 200)) 6.
Definition demo_probed : sysv := (demo_run demo_probe (demo_run demo_get (sem_init SEMMNI true)).2).2.

Lemma demo_probed_ok : sys_ok demo_probed.
Proof.
  apply (reach_ok SEMMSL SEMMNS SEMOPM SEMMNI); [done|]. apply reach_call.
  - apply reach_call; [apply reach_init|done].
  - constructor; [|by vm_compute|by intros l [= <-]|by intros u [= <-]]. repeat constructor; vm_compute; congruence.
Qed.

(** Task 1 has an undo structure with no adjustments in [demo_probed]. *)
Lemma demo_probed_ready : ∃ sma, ready_to_exit demo_probed 1 0 200 (mk_undo 0 [0; 0]) sma ∧ length (sem_base sma) = 2%nat ∧
  ∃ sma1 s1, try_atomic_semop sma [mk_sembuf 0 3 SEM_UNDO; mk_sembuf 1 2 0] (Some 200) 1 8 demo_probed
    = (Ok (0, sma1), s1) ∧ (semval <$> sem_base sma1) = [3; 2].
Proof.
  eexists. split; [|split].
  - constructor; [by vm_compute| |by vm_compute|by vm_compute|done]. exists 100. eexists. split_and!; [by vm_compute|by vm_compute|done|].
    apply list_elem_of_here.
  - done.
  - eexists _, _. split; [by vm_compute|done].
Qed.

Lemma semop_undo_restores_witness : ∃ s1 s2 sma2,
  exit_sem 1 1 9 s1 = (Ok tt, s2) ∧ sys_ok s2 ∧ ipc_lock (sem_ids s2) 0 = Some sma2.
Proof.
  destruct demo_probed_ready as (sma & Hr & Hlen & sma1 & s1 & Et & _).
  destruct (semop_undo_restores demo_probed 1 0 200 (mk_undo 0 [0; 0]) sma [mk_sembuf 0 3 SEM_UNDO; mk_sembuf 1 2 0]
    1 8 sma1 s1 1 9 demo_probed_ok Hr) as (s2 & sma2 & He & Hs2 & Hl2 & _).
  - rewrite Hlen. repeat constructor; vm_compute; congruence.
  - intros [|[|i]] a Ha; vm_compute in Ha; try discriminate Ha; injection Ha as <-; left; split; vm_compute; congruence.
  - exact Et.
  - exact (ex_intro _ _ (ex_intro _ s2 (ex_intro _ sma2 (conj He (conj Hs2 Hl2))))).
Defined.

End SemTheorems.
