(* ===== verification/Resource.v ===== *)
(** * The resource tree (kernel/resource.c): definitions

    I/O port and memory regions form a tree in which every node's range lies in its
    parent's and siblings are ordered and disjoint.  Resources are named by numbers;
    the chain [child], [sibling] is the list [child] of names.  All functions run
    under [resource_lock] and are one step.  Addresses are 32-bit words.
    Dereferencing a resource that does not exist is [Bug]. *)

From stdpp Require Import prelude numbers list gmap.
From Stdlib Require Import ZArith Lia.
From S2P Require Import Prelude.

#[local] Set Default Goal Selector "!".
#[local] Open Scope Z_scope.

Module Resource.

Definition IORESOURCE_BUSY : Z := 0x80000000.

Record resource := mk_resource {
  start : Z;
  end_ : Z;
  flags : Z;
  parent : option Z;
  child : list Z           (* in the order of the sibling pointers *)
}.

Abbreviation heap := (gmap Z resource).

Definition set_range s e (x : resource) : resource := mk_resource s e (flags x) (parent x) (child x).
Definition set_parent p (x : resource) : resource := mk_resource (start x) (end_ x) (flags x) p (child x).
Definition set_child l (x : resource) : resource := mk_resource (start x) (end_ x) (flags x) (parent x) l.

Definition get (r : Z) : SM heap resource := λ h,
  match h !! r with Some x => (Ok x, h) | None => (Bug, h) end.
Definition upd (r : Z) (f : resource → resource) : SM heap unit := modify (alter f r).
Definition deref (h : heap) (r : Z) : outcome resource :=
  match h !! r with Some x => Ok x | None => Bug end.

(** ** Requesting and releasing *)

(** The loop of [__request_resource]: the sibling list with [new] in its place, or the
    resource in the way. *)
Fixpoint place (h : heap) (new s e : Z) (l : list Z) : outcome (Z + list Z) :=
  match l with
  | [] => Ok (inr [new])
  | tmp :: rest =>
      x ← deref h tmp;
      if e <? start x then Ok (inr (new :: tmp :: rest)) else
      if end_ x <? s then
        r ← place h new s e rest;
        Ok (match r with inl c => inl c | inr l => inr (tmp :: l) end)
      else Ok (inl tmp)
  end.

(** The conflict, or [None]. *)
Definition __request_resource (root new : Z) : SM heap (option Z) :=
  n ← get new;
  r ← get root;
  if end_ n <? start n then mret (Some root) else
  if start n <? start r then mret (Some root) else
  if end_ r <? end_ n then mret (Some root) else
  h ← gets id;
  match place h new (start n) (end_ n) (child r) with
  | Ok (inl tmp) => mret (Some tmp)
  | Ok (inr l) =>
      _ ← upd root (set_child l);
      _ ← upd new (set_parent (Some root));
      mret None
  | _ => bug
  end.

Definition __release_resource (old : Z) : SM heap unit :=
  o ← get old;
  match parent o with
  | None => bug
  | Some p =>
      x ← get p;
      if decide (old ∈ child x) then
        _ ← upd p (set_child (filter (λ c, c ≠ old) (child x)));
        upd old (set_parent None)
      else fail EINVAL
  end.

Definition request_resource (root new : Z) : SM heap unit :=
  conflict ← __request_resource root new;
  match conflict with Some _ => fail EBUSY | None => mret tt end.

Definition release_resource := __release_resource.

(** ** Allocating *)

(** [alignf] moves the range of the new resource: range, size, alignment. *)
Definition align_fn : Type := Z * Z → Z → Z → Z * Z.

(** [(x + align - 1) & ~(align - 1)] on words. *)
Definition align_up (x align : Z) : Z :=
  Z.land (wrap32 (x + align - 1)) (wrap32 (Z.lnot (align - 1))).

(** One hole: clipped, aligned, and the range taken if it is large enough. *)
Definition try_hole (size min max align : Z) (alignf : option align_fn) (s e : Z) : Z * Z * bool :=
  let s := if s <? min then min else s in
  let e := if max <? e then max else e in
  let s := align_up s align in
  let '(s, e) := match alignf with Some f => f (s, e) size align | None => (s, e) end in
  if (s <? e) && (size <=? wrap32 (e - s + 1)) then (s, wrap32 (s + size - 1), true)
  else (s, e, false).

(** The loop over the holes; [s] is [new->start].  The range of [new] and whether it was found. *)
Fixpoint find_loop (h : heap) (rend size min max align : Z) (alignf : option align_fn) (s : Z)
    (this : list Z) : outcome (Z * Z * bool) :=
  match this with
  | [] => Ok (try_hole size min max align alignf s rend)
  | t :: rest =>
      x ← deref h t;
      let '(s, e, found) := try_hole size min max align alignf s (wrap32 (start x - 1)) in
      if found : bool then Ok (s, e, true)
      else find_loop h rend size min max align alignf (wrap32 (end_ x + 1)) rest
  end.

Definition find_range (h : heap) (root : resource) (size min max align : Z) (alignf : option align_fn)
    : outcome (Z * Z * bool) :=
  match child root with
  | [] => find_loop h (end_ root) size min max align alignf (start root) []
  | t :: rest =>
      x ← deref h t;
      if start x =? 0
      then find_loop h (end_ root) size min max align alignf (wrap32 (end_ x + 1)) rest
      else find_loop h (end_ root) size min max align alignf (start root) (t :: rest)
  end.

Definition find_resource (root new size min max align : Z) (alignf : option align_fn) : SM heap unit :=
  r ← get root;
  _ ← get new;
  h ← gets id;
  match find_range h r size min max align alignf with
  | Ok (s, e, found) =>
      _ ← upd new (set_range s e);
      if found : bool then mret tt else fail EBUSY
  | _ => bug
  end.

Definition allocate_resource (root new size min max align : Z) (alignf : option align_fn) : SM heap unit :=
  _ ← find_resource root new size min max align alignf;
  conflict ← __request_resource root new;
  match conflict with Some _ => fail EBUSY | None => mret tt end.

(** ** Inserting and adjusting *)

(** The siblings from the first conflict on that the range [s..e] covers, and the rest;
    [None] when one of them sticks out. *)
Fixpoint covered (h : heap) (s e : Z) (l : list Z) : outcome (option (list Z * list Z)) :=
  match l with
  | [] => Bug
  | next :: rest =>
      x ← deref h next;
      if (start x <? s) || (e <? end_ x) then Ok None else
      match rest with
      | [] => Ok (Some ([next], []))
      | sib :: _ =>
          y ← deref h sib;
          if e <? start y then Ok (Some ([next], rest)) else
          r ← covered h s e rest;
          Ok (match r with Some (a, b) => Some (next :: a, b) | None => None end)
      end
  end.

(** The list up to [c], and from [c] on. *)
Fixpoint split_before (c : Z) (l : list Z) : list Z * list Z :=
  match l with
  | [] => ([], [])
  | x :: l => if decide (x = c) then ([], x :: l)
              else let '(a, b) := split_before c l in (x :: a, b)
  end.

Fixpoint reparent (new : Z) (l : list Z) : SM heap unit :=
  match l with
  | [] => mret tt
  | c :: l => _ ← upd c (set_parent (Some new)); reparent new l
  end.

(** From [begin:] on; [fuel] bounds the descent. *)
Fixpoint insert_from (fuel : nat) (parent new : Z) : SM heap unit :=
  conflict ← __request_resource parent new;
  match conflict with
  | None => mret tt
  | Some first =>
      if decide (first = parent) then fail EBUSY else
      f ← get first;
      n ← get new;
      if (start f <=? start n) && (end_ n <=? end_ f) then
        match fuel with O => bug | S fuel => insert_from fuel first new end
      else
        p ← get parent;
        h ← gets id;
        let '(before, from) := split_before first (child p) in
        match covered h (start n) (end_ n) from with
        | Ok None => fail EBUSY
        | Ok (Some (inside, after)) =>
            _ ← upd new (set_parent (Some parent));
            _ ← upd new (set_child inside);
            _ ← reparent new inside;
            upd parent (set_child (before ++ new :: after))
        | _ => bug
        end
  end.

Definition insert_resource (parent new : Z) : SM heap unit :=
  h ← gets id;
  insert_from (size h) parent new.

(** The sibling in front of [res] and the one after it. *)
Fixpoint neighbours (prev : option Z) (res : Z) (l : list Z) : option (option Z * option Z) :=
  match l with
  | [] => None
  | c :: l => if decide (c = res) then Some (prev, head l) else neighbours (Some c) res l
  end.

Definition adjust_resource (res s size : Z) : SM heap unit :=
  r ← get res;
  match parent r with
  | None => bug
  | Some p =>
      x ← get p;
      let e := wrap32 (s + size - 1) in
      if (s <? start x) || (end_ x <? e) then fail EBUSY else
      kids ← (λ h, (mapM (deref h) (child r), h));
      if existsb (λ y, (start y <? s) || (e <? end_ y)) kids then fail EBUSY else
      match neighbours None res (child x) with
      | None => bug
      | Some (prev, next) =>
          nx ← (λ h, (match next with Some c => y ← deref h c; Ok (start y <=? e) | None => Ok false end, h));
          if nx : bool then fail EBUSY else
          pv ← (λ h, (match prev with Some c => y ← deref h c; Ok (s <=? end_ y) | None => Ok false end, h));
          if pv : bool then fail EBUSY else
          upd res (set_range s e)
      end
  end.

(** ** Regions *)

Definition busy (x : resource) : bool := negb (Z.land (flags x) IORESOURCE_BUSY =? 0).

(** The loop of [__request_region]: whether the region was placed. *)
Fixpoint region_from (fuel : nat) (parent res : Z) : SM heap bool :=
  conflict ← __request_resource parent res;
  match conflict with
  | None => mret true
  | Some c =>
      if decide (c = parent) then mret false else
      x ← get c;
      if busy x then mret false else
      match fuel with O => bug | S fuel => region_from fuel c res end
  end.

(** [kmem]: the memory [kmalloc] returns. *)
Definition __request_region (parent s n : Z) (kmem : option Z) : SM heap (option Z) :=
  match kmem with
  | None => mret None
  | Some res =>
      _ ← modify (insert res (mk_resource s (wrap32 (s + n - 1)) IORESOURCE_BUSY None []));
      h ← gets id;
      ok ← region_from (size h) parent res;
      if ok : bool then mret (Some res)
      else _ ← modify (delete res); mret None
  end.

Definition __check_region (parent s n : Z) (kmem : option Z) : SM heap unit :=
  r ← __request_region parent s n kmem;
  match r with
  | None => fail EBUSY
  | Some res => _ ← release_resource res; modify (delete res)
  end.

(** The first sibling that covers the range. *)
Fixpoint covering (h : heap) (s e : Z) (l : list Z) : outcome (option Z) :=
  match l with
  | [] => Ok None
  | res :: rest =>
      x ← deref h res;
      if (start x <=? s) && (e <=? end_ x) then Ok (Some res) else covering h s e rest
  end.

(** Whether a region was released; the code complains otherwise. *)
Fixpoint release_from (fuel : nat) (par s e : Z) : SM heap bool :=
  p ← get par;
  c ← (λ h, (covering h s e (child p), h));
  match c with
  | None => mret false
  | Some res =>
      x ← get res;
      if negb (busy x) then match fuel with O => bug | S fuel => release_from fuel res s e end
      else if negb (start x =? s) || negb (end_ x =? e) then mret false
      else
        _ ← upd par (set_child (filter (λ c, c ≠ res) (child p)));
        _ ← modify (delete res);
        mret true
  end.

Definition __release_region (parent s n : Z) : SM heap bool :=
  h ← gets id;
  release_from (size h) parent s (wrap32 (s + n - 1)).

End Resource.
