(* ===== verification/ResourceFacts.v ===== *)
(** * The resource tree: its invariant

    In a well-formed tree every resource lies within its parent, siblings are in
    ascending order and disjoint, and parent and child pointers agree.  Every
    operation keeps the tree well formed. *)

From stdpp Require Import prelude numbers list gmap sorting.
From Stdlib Require Import ZArith Lia.
From S2P Require Import Prelude Resource.

#[local] Set Default Goal Selector "!".
#[local] Open Scope Z_scope.

Module ResourceFacts.
Import Resource.

(** ** Well-formed trees *)

Definition before (h : heap) (a b : Z) : Prop :=
  ∀ x y, h !! a = Some x → h !! b = Some y → end_ x < start y.

Record kid_ok (h : heap) (p : Z) (x : resource) (c : Z) (y : resource) : Prop := {
  ki_parent : parent y = Some p;
  ki_lo : start x <= start y;
  ki_range : start y <= end_ y;
  ki_hi : end_ y <= end_ x
}.

Record tree_ok (h : heap) : Prop := {
  to_kids : ∀ p x c, h !! p = Some x → c ∈ child x → ∃ y, h !! c = Some y ∧ kid_ok h p x c y;
  to_sorted : ∀ p x, h !! p = Some x → StronglySorted (before h) (child x);
  to_parent : ∀ c y p, h !! c = Some y → parent y = Some p → ∃ x, h !! p = Some x ∧ c ∈ child x;
  to_word : ∀ p x, h !! p = Some x → is_u32 (start x) ∧ is_u32 (end_ x);
  to_rank : ∃ rank : Z → nat, ∀ p x c, h !! p = Some x → c ∈ child x → (rank c < rank p)%nat
}.

(** A resource that is not in the tree and has no children. *)
Definition loose (x : resource) : Prop := parent x = None ∧ child x = [].

Lemma sorted_ext h h' l : (∀ c x', c ∈ l → h' !! c = Some x' → ∃ x, h !! c = Some x ∧ start x' = start x ∧ end_ x' = end_ x) →
  StronglySorted (before h) l → StronglySorted (before h') l.
Proof.
  intros He Hs. induction Hs as [|c l Hs IH Hc]; [constructor|]. constructor.
  - apply IH. intros d x' Hd. apply He. by right.
  - apply Forall_forall. intros d Hd x' y' Hx' Hy'. rewrite Forall_forall in Hc.
    destruct (He c x') as (x & Hx & _ & ->); [by left|done|].
    destruct (He d y') as (y & Hy & -> & _); [by right|done|]. by apply (Hc d Hd).
Qed.

Lemma sorted_nodup h p x : tree_ok h → h !! p = Some x → NoDup (child x).
Proof.
  intros H Hx. pose proof (to_sorted _ H _ _ Hx) as Hs.
  assert (Hk : ∀ c, c ∈ child x → ∃ y, h !! c = Some y ∧ start y <= end_ y).
  { intros c Hc. destruct (to_kids _ H _ _ _ Hx Hc) as (y & Hy & []). eauto. }
  induction Hs as [|c l Hs IH Hc]; [constructor|]. constructor.
  - intros Hin. rewrite Forall_forall in Hc. destruct (Hk c) as (y & Hy & Hle); [by left|].
    pose proof (Hc c Hin y y Hy Hy). lia.
  - apply IH. intros d Hd. apply Hk. by right.
Qed.

(** ** Placing a range among siblings *)

Definition overlaps (x : resource) (s e : Z) : Prop := start x <= e ∧ s <= end_ x.

(** Everything in [l] ends before [s], or begins after [e]. *)
Definition all_below (h : heap) (l : list Z) (s : Z) : Prop :=
  ∀ c, c ∈ l → ∃ x, h !! c = Some x ∧ end_ x < s.
Definition all_above (h : heap) (l : list Z) (e : Z) : Prop :=
  ∀ c, c ∈ l → ∃ x, h !! c = Some x ∧ e < start x.

Lemma place_spec h new s e l : s <= e → StronglySorted (before h) l →
  (∀ c, c ∈ l → ∃ x, h !! c = Some x ∧ start x <= end_ x) →
  ∃ r, place h new s e l = Ok r ∧
    match r with
    | inl c => ∃ pre post x, l = pre ++ c :: post ∧ h !! c = Some x ∧ overlaps x s e ∧ all_below h pre s
    | inr l' => ∃ pre post, l = pre ++ post ∧ l' = pre ++ new :: post ∧ all_below h pre s ∧ all_above h post e
    end.
Proof.
  intros Hse Hs. induction Hs as [|c l Hs IH Hc]; intros Hk; cbn.
  { exists (inr [new]). split; [done|]. exists [], []. split_and!; [done|done|..]; by intros c []%elem_of_nil. }
  destruct (Hk c) as (x & Hx & Hle); [by left|]. unfold deref at 1. rewrite Hx. cbn.
  destruct (Z.ltb_spec e (start x)).
  { eexists. split; [done|]. exists [], (c :: l). split_and!; [done|done|by intros d []%elem_of_nil|].
    intros d [->|Hd]%elem_of_cons; [eauto|]. destruct (Hk d) as (y & Hy & _); [by right|]. exists y. split; [done|].
    rewrite Forall_forall in Hc. pose proof (Hc d Hd x y Hx Hy). lia. }
  destruct (Z.ltb_spec (end_ x) s).
  2: { eexists. split; [done|]. exists [], l, x. split_and!; try done. by intros d []%elem_of_nil. }
  destruct IH as (r & -> & Hr); [intros d Hd; apply Hk; by right|]. cbn. eexists. split; [done|].
  assert (Hb : ∀ pre, all_below h pre s → all_below h (c :: pre) s).
  { intros pre Hp d [->|Hd]%elem_of_cons; eauto. }
  destruct r as [d|l'].
  - destruct Hr as (pre & post & y & -> & ? & ? & ?). exists (c :: pre), post, y. split_and!; auto.
  - destruct Hr as (pre & post & -> & -> & ? & ?). exists (c :: pre), post. split_and!; auto.
Qed.

Lemma kids_range h p x : tree_ok h → h !! p = Some x →
  ∀ c, c ∈ child x → ∃ y, h !! c = Some y ∧ start y <= end_ y.
Proof. intros H Hx c Hc. destruct (to_kids _ H _ _ _ Hx Hc) as (y & Hy & []). eauto. Qed.

(** ** Linking a new resource *)

Definition link (root new : Z) (l : list Z) (h : heap) : heap :=
  alter (set_parent (Some root)) new (alter (set_child l) root h).

Definition fits (r n : resource) : Prop := start n <= end_ n ∧ start r <= start n ∧ end_ n <= end_ r.

Lemma link_lookup root new l h r n c : root ≠ new → h !! root = Some r → h !! new = Some n →
  link root new l h !! c =
    if decide (c = new) then Some (set_parent (Some root) n)
    else if decide (c = root) then Some (set_child l r) else h !! c.
Proof.
  intros Hne Hr Hn. unfold link. destruct (decide (c = new)) as [->|].
  - by rewrite lookup_alter_eq, lookup_alter_ne, Hn.
  - rewrite lookup_alter_ne by done. destruct (decide (c = root)) as [->|]; [by rewrite lookup_alter_eq, Hr|].
    by rewrite lookup_alter_ne.
Qed.

(** Nobody points to a loose resource. *)
Lemma loose_not_child h new n p x : tree_ok h → h !! new = Some n → parent n = None →
  h !! p = Some x → new ∉ child x.
Proof.
  intros H Hn Hp Hx Hin. destruct (to_kids _ H _ _ _ Hx Hin) as (y & Hy & []). congruence.
Qed.

Lemma sorted_insert h new n pre post : h !! new = Some n → StronglySorted (before h) (pre ++ post) →
  all_below h pre (start n) → all_above h post (end_ n) → StronglySorted (before h) (pre ++ new :: post).
Proof.
  intros Hn Hs Hb Ha. induction pre as [|c pre IH]; cbn in *.
  - constructor; [done|]. apply Forall_forall. intros d Hd x y Hx Hy. destruct (Ha d Hd) as (z & Hz & ?).
    simplify_eq. done.
  - inversion Hs as [|? ? Hs' Hc]; subst. constructor; [apply IH; [done|]; intros d Hd; apply Hb; by right|].
    rewrite Forall_app in *. destruct Hc as [Hc1 Hc2]. split; [done|]. constructor; [|done].
    intros x y Hx Hy. destruct (Hb c) as (z & Hz & ?); [by left|]. simplify_eq. done.
Qed.

Lemma tree_link h root new r n pre post : tree_ok h → root ≠ new → h !! root = Some r → h !! new = Some n →
  loose n → fits r n → child r = pre ++ post → all_below h pre (start n) → all_above h post (end_ n) →
  tree_ok (link root new (pre ++ new :: post) h).
Proof.
  intros H Hne Hr Hn [Hpn Hcn] (Hf1 & Hf2 & Hf3) Ec Hb Ha.
  pose proof (λ c, link_lookup root new (pre ++ new :: post) h r n c Hne Hr Hn) as Hl.
  set (h' := link root new (pre ++ new :: post) h) in *.
  assert (Hrng : ∀ c x', h' !! c = Some x' → ∃ x, h !! c = Some x ∧ start x' = start x ∧ end_ x' = end_ x).
  { intros c x'. rewrite Hl. repeat case_decide; subst; intros; simplify_eq; eauto. }
  assert (Hkid : ∀ p x c y, c ≠ new → h !! c = Some y → kid_ok h p x c y → ∃ y', h' !! c = Some y' ∧
    kid_ok h' p x c y').
  { intros p x c y Hcn' Hy [? ? ? ?]. rewrite Hl, decide_False by done. case_decide; [subst|by eauto using kid_ok].
    rewrite Hr in Hy. injection Hy as <-. eexists. split; [done|]. by split. }
  constructor.
  - intros p x c. rewrite Hl. case_decide as E1; [subst p; intros [= <-]; cbn; rewrite Hcn; by intros []%elem_of_nil|].
    case_decide as E2.
    + subst p. intros [= <-]. cbn. intros Hc.
      destruct (decide (c = new)) as [->|Hcn'].
      { exists (set_parent (Some root) n). rewrite Hl, decide_True by done. split; [done|]. by split. }
      assert (Hc0 : c ∈ child r). { rewrite Ec. rewrite elem_of_app, elem_of_cons in Hc. rewrite elem_of_app. tauto. }
      destruct (to_kids _ H _ _ _ Hr Hc0) as (y & Hy & Hk). destruct (Hkid root r c y Hcn' Hy Hk) as (y' & ? & [? ? ? ?]).
      exists y'. split; [done|]. by split.
    + intros Hx Hc. destruct (to_kids _ H _ _ _ Hx Hc) as (y & Hy & Hk). apply (Hkid p x c y); [|done|done].
      intros ->. exact (loose_not_child _ _ _ _ _ H Hn Hpn Hx Hc).
  - intros p x Hx. eapply sorted_ext; [intros c x' _; apply Hrng|]. rewrite Hl in Hx.
    case_decide; [simplify_eq; cbn; rewrite Hcn; constructor|]. case_decide; [|by apply (to_sorted _ H p)].
    simplify_eq. cbn. eapply sorted_insert; [done| |done|done]. rewrite <- Ec. by apply (to_sorted _ H root).
  - intros c y p. rewrite Hl. case_decide as E1.
    + subst c. intros [= <-]. cbn. intros [= <-]. rewrite Hl, decide_False, decide_True by congruence.
      eexists. split; [done|]. cbn. apply elem_of_app. right. by left.
    + intros Hy Hp. assert (Hp0 : ∃ x, h !! p = Some x ∧ c ∈ child x).
      { case_decide; [subst; simplify_eq; by apply (to_parent _ H root r)|by apply (to_parent _ H c y)]. }
      destruct Hp0 as (x & Hx & Hin). clear Hy Hp. rewrite Hl. destruct (decide (p = new)) as [E3|E3].
      { subst p. simplify_eq. rewrite Hcn in Hin. by apply elem_of_nil in Hin. }
      case_decide; [|by eauto]. subst p. simplify_eq. eexists. split; [done|]. cbn. rewrite Ec in Hin.
      rewrite elem_of_app in *. rewrite elem_of_cons. tauto.
  - intros p x Hx. destruct (Hrng _ _ Hx) as (x0 & Hx0 & -> & ->). by apply (to_word _ H p).
  - destruct (to_rank _ H) as [rank Hrank]. exists (λ c, if decide (c = new) then O else S (rank c)).
    intros p x c. rewrite Hl. destruct (decide (p = new)) as [E1|E1];
      [intros [= <-]; cbn; rewrite Hcn; by intros []%elem_of_nil|].
    intros Hx Hc. destruct (decide (c = new)) as [E3|E3]; [lia|]. enough (rank c < rank p)%nat by lia.
    destruct (decide (p = root)); [|by eapply Hrank]. subst. simplify_eq. cbn in Hc. apply (Hrank root r); [done|].
    rewrite Ec, elem_of_app. rewrite elem_of_app, elem_of_cons in Hc. tauto.
Qed.

(** ** Requests *)

Lemma wp_get r x (Φ : resource → heap → Prop) Ψ h : h !! r = Some x → Φ x h → wp (get r) Φ Ψ h.
Proof. unfold wp, get. by intros ->. Qed.

Ltac res_step :=
  match goal with
  | |- wp (mbind _ _) _ _ _ => apply wp_bind
  | |- wp (gets _) _ _ _ => apply wp_gets
  | |- wp (modify _) _ _ _ => apply wp_modify
  | |- wp (upd _ _) _ _ _ => apply wp_modify
  | |- wp (mret _) _ _ _ => apply wp_ret
  | |- wp (fail _) _ _ _ => apply wp_fail
  | |- wp (get _) _ _ _ => eapply wp_get; [eassumption|]
  end; cbv beta delta [id].

(** The outcome of a request: linked in its place, or what is in the way. *)
Definition requested (h : heap) (root new : Z) (r n : resource) (c : option Z) (h' : heap) : Prop :=
  match c with
  | None => fits r n ∧ ∃ pre post, child r = pre ++ post ∧ all_below h pre (start n) ∧
      all_above h post (end_ n) ∧ h' = link root new (pre ++ new :: post) h
  | Some c => h' = h ∧ ((c = root ∧ ¬ fits r n) ∨
      (fits r n ∧ ∃ pre post x, child r = pre ++ c :: post ∧ h !! c = Some x ∧
         overlaps x (start n) (end_ n) ∧ all_below h pre (start n)))
  end.

Lemma wp_request h root new r n Ψ : tree_ok h → h !! root = Some r → h !! new = Some n →
  wp (__request_resource root new) (requested h root new r n) Ψ h.
Proof.
  intros H Hr Hn. unfold __request_resource. do 4 res_step. unfold requested, fits.
  destruct (Z.ltb_spec (end_ n) (start n)); [res_step; split; [done|left; split; [done|lia]]|].
  destruct (Z.ltb_spec (start n) (start r)); [res_step; split; [done|left; split; [done|lia]]|].
  destruct (Z.ltb_spec (end_ r) (end_ n)); [res_step; split; [done|left; split; [done|lia]]|].
  do 2 res_step.
  destruct (place_spec h new (start n) (end_ n) (child r)) as (p & -> & Hp);
    [done|by eapply to_sorted|by eapply kids_range|].
  destruct p as [c|l].
  - res_step. split; [done|]. right. split; [lia|done].
  - do 4 res_step. res_step. split; [lia|]. destruct Hp as (pre & post & ? & -> & ? & ?). eauto 10.
Qed.

Lemma requested_ok h root new r n c h' : tree_ok h → root ≠ new → h !! root = Some r → h !! new = Some n →
  loose n → requested h root new r n c h' → tree_ok h'.
Proof.
  intros H Hne Hr Hn Hl. destruct c as [c|]; [by intros [-> _]|].
  intros (Hf & pre & post & Ec & Hb & Ha & ->). by eapply tree_link.
Qed.

(** ** Changes of loose resources *)

Lemma tree_loose h new n x : tree_ok h → h !! new = Some n → loose n → loose x →
  is_u32 (start x) → is_u32 (end_ x) → tree_ok (<[new := x]> h).
Proof.
  intros H Hn [Hpn Hcn] [Hpx Hcx] Hs He.
  assert (Hlk : ∀ c y, c ≠ new → (<[new := x]> h) !! c = Some y ↔ h !! c = Some y)
    by (intros c y Hne; by rewrite lookup_insert_ne).
  assert (Hkid : ∀ p y c, h !! p = Some y → c ∈ child y → c ≠ new).
  { intros p y c Hy Hc ->. exact (loose_not_child _ _ _ _ _ H Hn Hpn Hy Hc). }
  assert (Hcase : ∀ p y, (<[new := x]> h) !! p = Some y → (p = new ∧ y = x) ∨ (p ≠ new ∧ h !! p = Some y)).
  { intros p y. destruct (decide (p = new)) as [->|]; [rewrite lookup_insert_eq; intros [= <-]; by left|].
    rewrite Hlk by done. by right. }
  constructor.
  - intros p y c [[-> ->]|[Hne Hy]]%Hcase Hc; [rewrite Hcx in Hc; by apply elem_of_nil in Hc|].
    destruct (to_kids _ H _ _ _ Hy Hc) as (z & Hz & [? ? ? ?]). exists z. split; [apply Hlk; [exact (Hkid _ _ _ Hy Hc)|done]|by split].
  - intros p y [[-> ->]|[Hne Hy]]%Hcase; [rewrite Hcx; constructor|]. eapply sorted_ext; [|by eapply to_sorted].
    intros c z Hc Hz. apply Hlk in Hz; [eauto|exact (Hkid _ _ _ Hy Hc)].
  - intros c y p [[-> ->]|[Hne Hy]]%Hcase Hp; [congruence|]. destruct (to_parent _ H _ _ _ Hy Hp) as (z & Hz & Hin).
    exists z. split; [|done]. apply Hlk; [|done]. intros ->. simplify_eq. rewrite Hcn in Hin. by apply elem_of_nil in Hin.
  - intros p y [[-> ->]|[Hne Hy]]%Hcase; [done|]. by eapply to_word.
  - destruct (to_rank _ H) as [rank Hrank]. exists rank. intros p y c [[-> ->]|[Hne Hy]]%Hcase Hc; [|by eapply Hrank].
    rewrite Hcx in Hc. by apply elem_of_nil in Hc.
Qed.

(** A resource enters the model, or leaves it. *)
Lemma tree_fresh h new x : tree_ok h → h !! new = None → loose x → is_u32 (start x) → is_u32 (end_ x) →
  tree_ok (<[new := x]> h).
Proof.
  intros H Hn [Hpx Hcx] Hs He.
  assert (Hlk : ∀ c y, h !! c = Some y → (<[new := x]> h) !! c = Some y)
    by (intros c y Hy; rewrite lookup_insert_ne; congruence).
  assert (Hcase : ∀ p y, (<[new := x]> h) !! p = Some y → (p = new ∧ y = x) ∨ h !! p = Some y).
  { intros p y. destruct (decide (p = new)) as [->|]; [rewrite lookup_insert_eq; intros [= <-]; by left|].
    rewrite lookup_insert_ne by done. by right. }
  constructor.
  - intros p y c [[-> ->]|Hy]%Hcase Hc; [rewrite Hcx in Hc; by apply elem_of_nil in Hc|].
    destruct (to_kids _ H _ _ _ Hy Hc) as (z & Hz & [? ? ? ?]). exists z. split; [by apply Hlk|by split].
  - intros p y [[-> ->]|Hy]%Hcase; [rewrite Hcx; constructor|]. eapply sorted_ext; [|by eapply to_sorted].
    intros c z Hc [[-> ->]|Hz]%Hcase; [|eauto]. destruct (to_kids _ H _ _ _ Hy Hc) as (z & Hz & _). congruence.
  - intros c y p [[-> ->]|Hy]%Hcase Hp; [congruence|]. destruct (to_parent _ H _ _ _ Hy Hp) as (z & Hz & Hin). eauto.
  - intros p y [[-> ->]|Hy]%Hcase; [done|]. by eapply to_word.
  - destruct (to_rank _ H) as [rank Hrank]. exists rank. intros p y c [[-> ->]|Hy]%Hcase Hc; [|by eapply Hrank].
    rewrite Hcx in Hc. by apply elem_of_nil in Hc.
Qed.

Lemma tree_free h old o : tree_ok h → h !! old = Some o → loose o → tree_ok (delete old h).
Proof.
  intros H Ho [Hpo Hco].
  assert (Hkid : ∀ p y c, h !! p = Some y → c ∈ child y → old ≠ c).
  { intros p y c Hy Hc <-. exact (loose_not_child _ _ _ _ _ H Ho Hpo Hy Hc). }
  constructor.
  - intros p y c [Hne Hy]%lookup_delete_Some Hc. destruct (to_kids _ H _ _ _ Hy Hc) as (z & Hz & [? ? ? ?]).
    exists z. rewrite lookup_delete_ne by (exact (Hkid _ _ _ Hy Hc)). split; [done|by split].
  - intros p y [Hne Hy]%lookup_delete_Some. eapply sorted_ext; [|by eapply to_sorted].
    intros c z Hc [_ Hz]%lookup_delete_Some. eauto.
  - intros c y p [Hne Hy]%lookup_delete_Some Hp. destruct (to_parent _ H _ _ _ Hy Hp) as (z & Hz & Hin).
    exists z. split; [|done]. rewrite lookup_delete_ne; [done|]. intros <-. simplify_eq. rewrite Hco in Hin.
    by apply elem_of_nil in Hin.
  - intros p y [Hne Hy]%lookup_delete_Some. by eapply to_word.
  - destruct (to_rank _ H) as [rank Hrank]. exists rank. intros p y c [Hne Hy]%lookup_delete_Some. by apply Hrank.
Qed.

(** ** Releasing *)

Lemma child_not_self h p x c : tree_ok h → h !! p = Some x → c ∈ child x → p ≠ c.
Proof. intros H Hx Hc ->. destruct (to_rank _ H) as [rank Hr]. pose proof (Hr _ _ _ Hx Hc). lia. Qed.

Lemma sorted_filter (R : Z → Z → Prop) (P : Z → Prop) `{!∀ c, Decision (P c)} l :
  StronglySorted R l → StronglySorted R (filter P l).
Proof.
  induction 1 as [|c l Hs IH Hc]; [constructor|]. destruct (decide (P c)).
  - rewrite filter_cons_True by done. constructor; [done|]. apply Forall_forall. rewrite Forall_forall in Hc.
    intros d [_ Hd]%list_elem_of_filter. by apply Hc.
  - by rewrite filter_cons_False.
Qed.

Definition unlink (p old : Z) (x : resource) (h : heap) : heap :=
  alter (set_parent None) old (alter (set_child (filter (λ c, c ≠ old) (child x))) p h).

Lemma tree_unlink h p old x o : tree_ok h → h !! p = Some x → old ∈ child x → h !! old = Some o →
  tree_ok (unlink p old x h).
Proof.
  intros H Hx Hin Ho. pose proof (child_not_self _ _ _ _ H Hx Hin) as Hne.
  assert (Hl : ∀ c, unlink p old x h !! c = if decide (c = old) then Some (set_parent None o)
    else if decide (c = p) then Some (set_child (filter (λ c, c ≠ old) (child x)) x) else h !! c).
  { intros c. unfold unlink. destruct (decide (c = old)) as [->|]; [by rewrite lookup_alter_eq, lookup_alter_ne, Ho|].
    rewrite lookup_alter_ne by done. destruct (decide (c = p)) as [->|]; [by rewrite lookup_alter_eq, Hx|].
    by rewrite lookup_alter_ne. }
  set (h' := unlink p old x h) in *.
  (* the old version of a resource *)
  assert (Hold : ∀ c y', h' !! c = Some y' → ∃ y, h !! c = Some y ∧ start y' = start y ∧ end_ y' = end_ y ∧
    (∀ d, d ∈ child y' → d ∈ child y ∧ d ≠ old) ∧ (StronglySorted (before h) (child y) → StronglySorted (before h) (child y')) ∧
    (c ≠ old → parent y' = parent y)).
  { intros c y'. rewrite Hl. destruct (decide (c = old)) as [->|Hco].
    - intros [= <-]. exists o. split_and!; try done. intros d Hd. split; [done|]. cbn in Hd.
      intros ->. by apply (child_not_self _ _ _ _ H Ho Hd).
    - destruct (decide (c = p)) as [->|Hcp].
      + intros [= <-]. exists x. split_and!; try done; [|apply sorted_filter]. cbn. by intros d [? ?]%list_elem_of_filter.
      + intros Hy. exists y'. split_and!; try done. intros d Hd. split; [done|]. intros ->. apply Hcp.
        destruct (to_kids _ H _ _ _ Hx Hin) as (z & Hz & [? ? ? ?]). destruct (to_kids _ H _ _ _ Hy Hd) as (z' & Hz' & [? ? ? ?]).
        congruence. }
  assert (Hnew : ∀ c y, c ≠ old → h !! c = Some y → ∃ y', h' !! c = Some y' ∧ start y' = start y ∧ end_ y' = end_ y ∧
    parent y' = parent y ∧ ∀ d, d ≠ old → d ∈ child y → d ∈ child y').
  { intros c y Hc Hy. rewrite Hl, decide_False by done. destruct (decide (c = p)) as [->|]; [|eauto 10].
    simplify_eq. eexists. split_and!; try done. intros d Hd Hdx. cbn. by apply list_elem_of_filter. }
  constructor.
  - intros q y' c Hy' Hc. destruct (Hold _ _ Hy') as (y & Hy & Es & Ee & Hch & _).
    destruct (Hch c Hc) as [Hcy Hco]. destruct (to_kids _ H _ _ _ Hy Hcy) as (z & Hz & [Kp K1 K2 K3]).
    destruct (Hnew _ _ Hco Hz) as (z' & Hz' & E1 & E2 & E3 & _). exists z'. split; [done|].
    split; [congruence|lia|lia|lia].
  - intros q y' Hy'. destruct (Hold _ _ Hy') as (y & Hy & _ & _ & _ & Hs & _).
    eapply sorted_ext; [|by eapply Hs, to_sorted]. intros c z' _ Hz'. destruct (Hold _ _ Hz') as (z & ? & ? & ? & _). eauto.
  - intros c y' q Hy' Hq. destruct (decide (c = old)) as [->|Hco].
    { rewrite Hl, decide_True in Hy' by done. by simplify_eq. }
    destruct (Hold _ _ Hy') as (y & Hy & _ & _ & _ & _ & Ep). rewrite (Ep Hco) in Hq.
    destruct (to_parent _ H _ _ _ Hy Hq) as (z & Hz & Hcz). destruct (decide (q = old)) as [->|Hqo].
    + simplify_eq. exists (set_parent None o). rewrite Hl, decide_True by done. done.
    + destruct (Hnew _ _ Hqo Hz) as (z' & Hz' & _ & _ & _ & Hch). eauto.
  - intros q y' Hy'. destruct (Hold _ _ Hy') as (y & Hy & -> & -> & _). by eapply to_word.
  - destruct (to_rank _ H) as [rank Hrank]. exists rank. intros q y' c Hy' Hc.
    destruct (Hold _ _ Hy') as (y & Hy & _ & _ & Hch & _). eapply Hrank; [done|]. by apply Hch.
Qed.

Lemma wp_release h old o p Ψ : tree_ok h → h !! old = Some o → parent o = Some p →
  wp (__release_resource old) (λ _ h', ∃ x, h !! p = Some x ∧ old ∈ child x ∧ h' = unlink p old x h ∧ tree_ok h') Ψ h.
Proof.
  intros H Ho Hp. destruct (to_parent _ H _ _ _ Ho Hp) as (x & Hx & Hin). unfold __release_resource.
  do 2 res_step. rewrite Hp. do 2 res_step. rewrite decide_True by done. do 2 res_step. res_step.
  exists x. split_and!; try done. by eapply tree_unlink.
Qed.

End ResourceFacts.
