(* ===== verification/ResourceOps.v ===== *)
(** * The resource tree: inserting, adjusting, regions *)

From stdpp Require Import prelude numbers list gmap sorting.
From Stdlib Require Import ZArith Lia.
From S2P Require Import Prelude Resource ResourceFacts.

#[local] Set Default Goal Selector "!".
#[local] Open Scope Z_scope.

Module ResourceOps.
Import Resource ResourceFacts.

(** ** Adjusting *)

Lemma neighbours_spec res l : res ∈ l → ∀ prev, ∃ pre post, l = pre ++ res :: post ∧
  neighbours prev res l = Some (match last pre with Some c => Some c | None => prev end, head post).
Proof.
  induction l as [|c l IH]; intros Hin prev; [by apply elem_of_nil in Hin|]. cbn.
  destruct (decide (c = res)) as [->|Hne]; [by exists [], l|].
  apply elem_of_cons in Hin as [->|Hin]; [done|]. destruct (IH Hin (Some c)) as (pre & post & -> & ->).
  exists (c :: pre), post. split; [done|]. do 2 f_equal. destruct pre as [|d pre]; [done|].
  rewrite last_cons_cons. destruct (last (d :: pre)) eqn:E; [done|]. by apply last_None in E.
Qed.

Lemma below_last h pre rest s c x : StronglySorted (before h) (pre ++ rest) → last pre = Some c →
  (∀ d, d ∈ pre → ∃ y, h !! d = Some y ∧ start y <= end_ y) → h !! c = Some x → end_ x < s → all_below h pre s.
Proof.
  intros Hs [pre' ->]%last_Some Hk Hx He. rewrite <- app_assoc in Hs.
  intros d [Hd| ->%list_elem_of_singleton]%elem_of_app; [|eauto].
  destruct (Hk d) as (y & Hy & Hle); [apply elem_of_app; by left|]. exists y. split; [done|].
  destruct (Hk c) as (x' & Hx' & Hlx); [apply elem_of_app; right; by left|]. simplify_eq.
  pose proof (StronglySorted_app_1_elem_of _ _ _ d c Hs Hd ltac:(by left) y x Hy Hx). lia.
Qed.

Lemma above_head h post e c x : StronglySorted (before h) post → head post = Some c →
  (∀ d, d ∈ post → ∃ y, h !! d = Some y ∧ start y <= end_ y) → h !! c = Some x → e < start x → all_above h post e.
Proof.
  intros Hs Hh Hk Hx He. destruct post as [|c' post]; [done|]. injection Hh as ->.
  apply StronglySorted_cons in Hs as [Hc _].
  intros d [->|Hd]%elem_of_cons; [eauto|]. destruct (Hk d) as (y & Hy & Hle); [by right|]. exists y. split; [done|].
  destruct (Hk c) as (x' & Hx' & Hlx); [by left|]. simplify_eq. rewrite Forall_forall in Hc.
  pose proof (Hc d Hd x y Hx Hy). lia.
Qed.

(** A linked resource gets another range between its neighbours and around its children. *)
Lemma tree_range h res r p x pre post s e : tree_ok h → h !! res = Some r → h !! p = Some x →
  child x = pre ++ res :: post → s <= e → is_u32 s → is_u32 e → start x <= s → e <= end_ x →
  all_below h pre s → all_above h post e →
  (∀ c y, c ∈ child r → h !! c = Some y → s <= start y ∧ end_ y <= e) →
  tree_ok (alter (set_range s e) res h).
Proof.
  intros H Hr Hx Ec Hse Hus Hue Hlo Hhi Hb Ha Hch.
  assert (Hin : res ∈ child x) by (rewrite Ec; apply elem_of_app; right; by left).
  pose proof (child_not_self _ _ _ _ H Hx Hin) as Hpne.
  assert (Hl : ∀ c, alter (set_range s e) res h !! c = if decide (c = res) then Some (set_range s e r) else h !! c).
  { intros c. case_decide; [subst; by rewrite lookup_alter_eq, Hr|by rewrite lookup_alter_ne]. }
  set (h' := alter (set_range s e) res h) in *.
  assert (Hcase : ∀ c y', h' !! c = Some y' → (c = res ∧ y' = set_range s e r) ∨ (c ≠ res ∧ h !! c = Some y')).
  { intros c y'. rewrite Hl. case_decide; [left; split; congruence|by right]. }
  assert (Hpar : ∀ q y, h !! q = Some y → res ∈ child y → q = p).
  { intros q y Hy Hiny. destruct (to_kids _ H _ _ _ Hx Hin) as (z & Hz & [Kp _ _ _]).
    destruct (to_kids _ H _ _ _ Hy Hiny) as (z' & Hz' & [Kp' _ _ _]). congruence. }
  assert (Hsame : ∀ l, res ∉ l → StronglySorted (before h) l → StronglySorted (before h') l).
  { intros l Hnl. apply sorted_ext. intros c y' Hc [[-> _]|[_ ?]]%Hcase; [done|eauto]. }
  assert (Hself : h' !! res = Some (set_range s e r)) by (by rewrite Hl, decide_True).
  constructor.
  - intros q y' c Hy' Hc.
    assert (∃ y, h !! q = Some y ∧ c ∈ child y ∧ (q = res ∨ y' = y)) as (y & Hy & Hcy & Hor).
    { apply Hcase in Hy' as [[-> ->]|[_ ?]]; eauto 10. }
    destruct (to_kids _ H _ _ _ Hy Hcy) as (z & Hz & [Kp K1 K2 K3]).
    destruct (decide (c = res)) as [->|Hcr].
    + exists (set_range s e r). split; [done|]. assert (q = p) as -> by exact (Hpar _ _ Hy Hcy).
      rewrite Hx in Hy. injection Hy as <-. rewrite Hr in Hz. injection Hz as <-.
      destruct Hor as [?| ->]; [done|]. by split.
    + exists z. split; [by rewrite Hl, decide_False|]. apply Hcase in Hy' as [[-> ->]|[_ ?]]; [|simplify_eq; by split].
      simplify_eq. destruct (Hch c z Hcy Hz). by split.
  - intros q y' Hy'. destruct (decide (q = p)) as [->|Hqp].
    + rewrite Hl, decide_False in Hy' by done. simplify_eq. pose proof (to_sorted _ H _ _ Hx) as Hs.
      pose proof (sorted_nodup _ _ _ H Hx) as Hnd. rewrite Ec in *. apply NoDup_app in Hnd as (_ & Hnd & Hnd').
      apply NoDup_cons in Hnd' as [Hnr _].
      assert (Hpre : res ∉ pre) by (intros Hp; apply (Hnd res Hp); by left).
      eapply sorted_insert; [done| | |].
      * apply Hsame; [by intros [?|?]%elem_of_app|]. apply StronglySorted_app in Hs as (H1 & H2 & H3).
        apply StronglySorted_cons in H3 as [_ H3]. apply StronglySorted_app; split_and!; [|done..].
        intros a b Ha' Hb'. apply H1; [done|by right].
      * intros d Hd. destruct (Hb d Hd) as (y & Hy & ?). exists y. split; [|done]. rewrite Hl, decide_False; [done|]. by intros ->.
      * intros d Hd. destruct (Ha d Hd) as (y & Hy & ?). exists y. split; [|done]. rewrite Hl, decide_False; [done|]. by intros ->.
    + assert (∃ y, h !! q = Some y ∧ child y' = child y) as (y & Hy & ->).
      { apply Hcase in Hy' as [[-> ->]|[_ ?]]; eauto. }
      apply Hsame; [|by eapply to_sorted]. intros Hiny. apply Hqp. by eapply Hpar.
  - intros c y' q Hy' Hq.
    assert (∃ y, h !! c = Some y ∧ parent y = Some q) as (y & Hy & Hyq).
    { apply Hcase in Hy' as [[-> ->]|[_ ?]]; eauto. }
    destruct (to_parent _ H _ _ _ Hy Hyq) as (z & Hz & Hcz). rewrite Hl. case_decide; [subst; simplify_eq|]; eauto.
  - intros q y' [[-> ->]|[_ ?]]%Hcase; [done|by eapply to_word].
  - destruct (to_rank _ H) as [rank Hrank]. exists rank. intros q y' c [[-> ->]|[_ ?]]%Hcase; [|by eapply Hrank].
    exact (Hrank res r c Hr).
Qed.

Lemma mapM_deref h l : (∀ c, c ∈ l → is_Some (h !! c)) →
  ∃ ys, mapM (deref h) l = Ok ys ∧ Forall2 (λ c y, h !! c = Some y) l ys.
Proof.
  induction l as [|c l IH]; intros Hk; [by exists []|]. destruct (Hk c) as [y Hy]; [by left|].
  destruct IH as (ys & E & Hf); [intros d Hd; apply Hk; by right|]. exists (y :: ys). split; [|by constructor].
  change (mapM (deref h) (c :: l)) with (y ← deref h c; k ← mapM (deref h) l; mret (y :: k)).
  assert (deref h c = Ok y) as -> by (unfold deref; by rewrite Hy). by rewrite E.
Qed.

Lemma wp_adjust h res r p s size : tree_ok h → h !! res = Some r → parent r = Some p →
  is_u32 s → 1 <= size → s + size <= 2 ^ 32 →
  wp (adjust_resource res s size)
    (λ _ h', h' = alter (set_range s (s + size - 1)) res h ∧ tree_ok h') (λ e h', e = EBUSY ∧ h' = h) h.
Proof.
  intros H Hr Hp Hs H1 Hsz. unfold adjust_resource. do 2 res_step. rewrite Hp.
  destruct (to_parent _ H _ _ _ Hr Hp) as (x & Hx & Hin). do 2 res_step.
  assert (He : is_u32 (s + size - 1)) by (unfold is_u32 in *; lia). cbv zeta. rewrite (wrap32_id _ He).
  set (e := s + size - 1) in *. destruct ((s <? start x) || (end_ x <? e)) eqn:E; [by res_step|]. zb_hyps.
  destruct (mapM_deref h (child r)) as (ys & Em & Hf).
  { intros c Hc. destruct (to_kids _ H _ _ _ Hr Hc) as (y & -> & _). done. }
  res_step. unfold wp at 1. rewrite Em. destruct (existsb _ ys) eqn:Ee; [by res_step|].
  destruct (neighbours_spec res (child x) Hin None) as (pre & post & Ec & ->).
  assert (Hk : ∀ c, c ∈ child x → ∃ y, h !! c = Some y ∧ start y <= end_ y) by (by eapply kids_range).
  pose proof (to_sorted _ H _ _ Hx) as Hso. rewrite Ec in Hso, Hk.
  assert (Hk1 : ∀ c, c ∈ pre → ∃ y, h !! c = Some y ∧ start y <= end_ y) by (intros; apply Hk, elem_of_app; by left).
  assert (Hk2 : ∀ c, c ∈ post → ∃ y, h !! c = Some y ∧ start y <= end_ y)
    by (intros; apply Hk, elem_of_app; right; by right).
  assert (Hnx : wp (λ h, (match head post with Some c => y ← deref h c; Ok (start y <=? e) | None => Ok false end, h))
    (λ b h', h' = h ∧ (b = false → all_above h post e)) (λ e h', e = EBUSY ∧ h' = h) h).
  { destruct post as [|c post]; cbn; [split; [done|]; intros _ d []%elem_of_nil|].
    destruct (Hk2 c) as (y & Hy & _); [by left|]. unfold wp, deref. rewrite Hy. cbn. split; [done|]. intros Hb. zb_hyps.
    eapply above_head; [|done|done|done|done]. apply StronglySorted_app_1_r in Hso.
    by apply StronglySorted_cons in Hso as [_ Hso]. }
  res_step. eapply wp_mono; [exact Hnx|]. cbv beta. intros b1 h1 [-> Ha]. destruct b1; [by res_step|].
  specialize (Ha eq_refl).
  assert (Hpv : wp (λ h, (match (match last pre with Some c => Some c | None => None end) with
      Some c => y ← deref h c; Ok (s <=? end_ y) | None => Ok false end, h))
    (λ b h', h' = h ∧ (b = false → all_below h pre s)) (λ e h', e = EBUSY ∧ h' = h) h).
  { destruct (last pre) as [c|] eqn:El.
    - assert (Hc : c ∈ pre) by (apply last_Some in El as [? ->]; apply elem_of_app; right; by left).
      destruct (Hk1 c Hc) as (y & Hy & _). unfold wp, deref. rewrite Hy. cbn. split; [done|]. intros Hb. zb_hyps.
      by eapply below_last.
    - apply last_None in El as ->. cbn. split; [done|]. intros _ d []%elem_of_nil. }
  res_step. eapply wp_mono; [exact Hpv|]. cbv beta. intros b2 h2 [-> Hb]. destruct b2; [by res_step|].
  res_step. split; [done|]. eapply (tree_range h res r p x pre post); try done; [lia|by apply Hb|].
  intros c y Hc Hy. rewrite <- not_true_iff_false, existsb_exists in Ee.
  destruct (Z.lt_ge_cases (start y) s); [|destruct (Z.lt_ge_cases e (end_ y)); [|lia]]; destruct Ee; exists y.
  all: apply list_elem_of_lookup in Hc as [i Hi];
    destruct (Forall2_lookup_l _ _ _ _ _ Hf Hi) as (y' & Hi' & Hy'); simplify_eq;
    (split; [apply list_elem_of_In; by eapply list_elem_of_lookup_2|apply orb_true_iff; rewrite !Z.ltb_lt; lia]).
Qed.

End ResourceOps.
