(* ===== verification/ResourceInsert.v ===== *)
(** * The resource tree: inserting over existing resources, and regions *)

From stdpp Require Import prelude numbers list gmap sorting.
From Stdlib Require Import ZArith Lia.
From S2P Require Import Prelude Resource ResourceFacts.

#[local] Set Default Goal Selector "!".
#[local] Open Scope Z_scope.

Module ResourceInsert.
Import Resource ResourceFacts.

(** ** Taking over a run of siblings *)

Lemma wp_reparent new l h Ψ : NoDup l → (∀ c, c ∈ l → is_Some (h !! c)) →
  wp (reparent new l) (λ _ h', ∀ c, h' !! c = if decide (c ∈ l) then set_parent (Some new) <$> h !! c else h !! c) Ψ h.
Proof.
  intros Hnd. revert h. induction Hnd as [|u l Hu Hnd IH]; intros h Hl; cbn [reparent].
  { res_step. intros c. by rewrite decide_False by (apply not_elem_of_nil). }
  do 2 res_step. eapply wp_mono; [apply IH|].
  { intros c Hc. destruct (decide (c = u)) as [->|]; [done|]. rewrite lookup_alter_ne by done. apply Hl. by right. }
  cbv beta. intros _ h' H c. rewrite H. destruct (decide (c = u)) as [->|Hne].
  - rewrite (decide_False (P := u ∈ l)) by done. rewrite decide_True by (by left). by rewrite lookup_alter_eq.
  - rewrite lookup_alter_ne by done. destruct (decide (c ∈ l)).
    + by rewrite decide_True by (by right).
    + rewrite decide_False; [done|]. by intros [?|?]%elem_of_cons.
Qed.

(** The tree after [new] has taken [inside] from the children of [p]. *)
Record adopted (p new : Z) (x n : resource) (pre inside after : list Z) (h h' : heap) : Prop := {
  ad_p : h' !! p = Some (set_child (pre ++ new :: after) x);
  ad_new : h' !! new = Some (set_child inside (set_parent (Some p) n));
  ad_inside : ∀ c y, c ∈ inside → h !! c = Some y → h' !! c = Some (set_parent (Some new) y);
  ad_other : ∀ c, c ≠ p → c ≠ new → c ∉ inside → h' !! c = h !! c
}.

Lemma adopted_old h h' p new x n pre inside after : tree_ok h → p ≠ new → h !! p = Some x → h !! new = Some n →
  child x = pre ++ inside ++ after → adopted p new x n pre inside after h h' →
  ∀ c y', h' !! c = Some y' → ∃ y, h !! c = Some y ∧ start y' = start y ∧ end_ y' = end_ y.
Proof.
  intros H Hne Hx Hn Ec [Ap An Ai Ao] c y' Hy'.
  destruct (decide (c = p)) as [->|Hcp]; [rewrite Ap in Hy'; injection Hy' as <-; by exists x|].
  destruct (decide (c = new)) as [->|Hcn]; [rewrite An in Hy'; injection Hy' as <-; by exists n|].
  destruct (decide (c ∈ inside)) as [Hc|Hc]; [|rewrite Ao in Hy' by done; eauto].
  destruct (to_kids _ H p x c Hx) as (y & Hy & _); [rewrite Ec, !elem_of_app; auto|].
  rewrite (Ai _ _ Hc Hy) in Hy'. injection Hy' as <-. by exists y.
Qed.

Lemma tree_adopt h h' p new x n pre inside after : tree_ok h → p ≠ new → h !! p = Some x → h !! new = Some n →
  loose n → fits x n → child x = pre ++ inside ++ after →
  all_below h pre (start n) → all_above h after (end_ n) →
  (∀ c, c ∈ inside → ∃ y, h !! c = Some y ∧ start n <= start y ∧ end_ y <= end_ n) →
  adopted p new x n pre inside after h h' → tree_ok h'.
Proof.
  intros H Hne Hx Hn [Hpn Hcn] (Hf1 & Hf2 & Hf3) Ec Hb Ha Hi HA.
  pose proof (adopted_old _ _ _ _ _ _ _ _ _ H Hne Hx Hn Ec HA) as Hold. destruct HA as [Ap An Ai Ao].
  assert (Hpk : ∀ c, c ∈ child x ↔ c ∈ pre ∨ c ∈ inside ∨ c ∈ after) by (intros c; rewrite Ec, !elem_of_app; tauto).
  pose proof (sorted_nodup _ _ _ H Hx) as Hnd. rewrite Ec in Hnd. apply NoDup_app in Hnd as (_ & Hd1 & Hnd).
  apply NoDup_app in Hnd as (_ & Hd2 & _).
  assert (Hkx : ∀ c, c ∈ child x → ∃ y, h !! c = Some y ∧ kid_ok h p x c y) by (intros c; by apply (to_kids _ H)).
  assert (Hpp : ∀ c, c ∈ child x → c ≠ p) by (intros c Hc ->; by apply (child_not_self _ _ _ _ H Hx Hc)).
  assert (Hin : ∀ q y c, h !! q = Some y → c ∈ child y → c ≠ new).
  { intros q y c Hy Hc ->. exact (loose_not_child _ _ _ _ _ H Hn Hpn Hy Hc). }
  assert (Hup : ∀ q y c, q ≠ p → h !! q = Some y → c ∈ child y → c ∉ inside).
  { intros q y c Hq Hy Hc Hci. destruct (Hkx c) as (z & Hz & [Kp _ _ _]); [apply Hpk; auto|].
    destruct (to_kids _ H _ _ _ Hy Hc) as (z' & Hz' & [Kp' _ _ _]). congruence. }
  (* children outside [inside] keep their place *)
  assert (Hkeep : ∀ c y, h !! c = Some y → c ≠ new → c ∉ inside → ∃ y', h' !! c = Some y' ∧ parent y' = parent y ∧
    start y' = start y ∧ end_ y' = end_ y).
  { intros c y Hy Hc1 Hc2. destruct (decide (c = p)) as [->|]; [|rewrite Ao by done; eauto].
    rewrite Ap. simplify_eq. eauto. }
  constructor.
  - intros q y' c Hy' Hc. destruct (decide (q = new)) as [->|Hqn].
    { rewrite An in Hy'. injection Hy' as <-. cbn in Hc. destruct (Hi c Hc) as (y & Hy & ? & ?).
      destruct (Hkx c) as (z & Hz & [_ _ ? _]); [apply Hpk; auto|]. rewrite Hy in Hz. injection Hz as <-.
      exists (set_parent (Some new) y). split; [by apply Ai|]. by split. }
    destruct (decide (q = p)) as [->|Hqp].
    { rewrite Ap in Hy'. injection Hy' as <-. cbn in Hc. apply elem_of_app in Hc as [Hc|[->|Hc]%elem_of_cons].
      2: { eexists. split; [exact An|]. by split. }
      all: destruct (Hkx c) as (z & Hz & [K1 K2 K3 K4]); [apply Hpk; auto|].
      all: destruct (Hkeep c z Hz) as (z' & Hz' & E1 & E2 & E3); [eapply Hin; [exact Hx|apply Hpk; auto]|..].
      1: intros Hci; apply (Hd1 c Hc), elem_of_app; by left.
      2: intros Hci; by apply (Hd2 c Hci).
      all: exists z'; split; [done|]; split; cbn; [congruence|lia..]. }
    assert (Hqo : ∃ y, h !! q = Some y ∧ child y' = child y ∧ start y' = start y ∧ end_ y' = end_ y).
    { destruct (decide (q ∈ inside)) as [Hq|Hq]; [|rewrite Ao in Hy' by done; eauto].
      destruct (Hi q Hq) as (y & Hy & _). rewrite (Ai _ _ Hq Hy) in Hy'. injection Hy' as <-. by exists y. }
    destruct Hqo as (y & Hy & E0 & E1 & E2). rewrite E0 in Hc.
    destruct (to_kids _ H _ _ _ Hy Hc) as (z & Hz & [K1 K2 K3 K4]).
    destruct (Hkeep c z Hz) as (z' & Hz' & F1 & F2 & F3); [exact (Hin _ _ _ Hy Hc)|exact (Hup _ _ _ Hqp Hy Hc)|].
    exists z'. split; [done|]. split; [congruence|lia..].
  - intros q y' Hy'. eapply sorted_ext; [intros c z' _; apply Hold|].
    pose proof (to_sorted _ H _ _ Hx) as Hs. rewrite Ec in Hs.
    destruct (decide (q = new)) as [->|Hqn].
    { rewrite An in Hy'. injection Hy' as <-. cbn. apply StronglySorted_app_1_r in Hs. by apply StronglySorted_app_1_l in Hs. }
    destruct (decide (q = p)) as [->|Hqp].
    { rewrite Ap in Hy'. injection Hy' as <-. cbn. apply (sorted_insert h new n); [done| |done|done].
      apply StronglySorted_app in Hs as (S1 & S2 & S3). apply StronglySorted_app. split_and!; [|done|by apply StronglySorted_app_1_r in S3].
      intros a b Ha' Hb'. apply S1; [done|]. apply elem_of_app. by right. }
    destruct (decide (q ∈ inside)) as [Hq|Hq]; [|rewrite Ao in Hy' by done; by eapply to_sorted].
    destruct (Hi q Hq) as (y & Hy & _). rewrite (Ai _ _ Hq Hy) in Hy'. injection Hy' as <-. cbn. by eapply to_sorted.
  - intros c y' q Hy' Hq. destruct (decide (c = new)) as [->|Hcn'].
    { rewrite An in Hy'. injection Hy' as <-. cbn in Hq. injection Hq as <-. eexists. split; [exact Ap|].
      cbn. apply elem_of_app. right. by left. }
    destruct (decide (c ∈ inside)) as [Hci|Hci].
    { destruct (Hi c Hci) as (y & Hy & _). rewrite (Ai _ _ Hci Hy) in Hy'. injection Hy' as <-. cbn in Hq. injection Hq as <-.
      eexists. split; [exact An|done]. }
    assert (∃ y, h !! c = Some y ∧ parent y = Some q) as (y & Hy & Hyq).
    { destruct (decide (c = p)) as [->|]; [rewrite Ap in Hy'; injection Hy' as <-; eauto|rewrite Ao in Hy' by done; eauto]. }
    destruct (to_parent _ H _ _ _ Hy Hyq) as (z & Hz & Hcz).
    destruct (decide (q = p)) as [->|Hqp].
    { eexists. split; [exact Ap|]. simplify_eq. cbn. rewrite elem_of_app, elem_of_cons. apply Hpk in Hcz. tauto. }
    assert (q ≠ new) by (intros ->; simplify_eq; rewrite Hcn in Hcz; by apply elem_of_nil in Hcz).
    destruct (decide (q ∈ inside)) as [Hqi|Hqi]; [|rewrite Ao by done; eauto].
    eexists. split; [by apply Ai|done].
  - intros q y' Hy'. destruct (Hold _ _ Hy') as (y & Hy & -> & ->). by eapply to_word.
  - destruct (to_rank _ H) as [rank Hrank].
    exists (λ c, if decide (c = new) then (2 * rank p)%nat else S (2 * rank c)).
    intros q y' c Hy' Hc. destruct (decide (q = new)) as [->|Hqn].
    { rewrite An in Hy'. injection Hy' as <-. cbn in Hc. pose proof (Hrank p x c Hx ltac:(apply Hpk; auto)).
      rewrite decide_False; [lia|]. eapply (Hin p); [exact Hx|apply Hpk; auto]. }
    destruct (decide (q = p)) as [->|Hqp].
    { rewrite Ap in Hy'. injection Hy' as <-. cbn in Hc. apply elem_of_app in Hc as [Hc|[->|Hc]%elem_of_cons].
      2: { rewrite decide_True by done. lia. }
      all: pose proof (Hrank p x c Hx ltac:(apply Hpk; auto));
        rewrite decide_False; [lia|eapply (Hin p); [exact Hx|apply Hpk; auto]]. }
    assert (Hqo : ∃ y, h !! q = Some y ∧ child y' = child y).
    { destruct (decide (q ∈ inside)) as [Hq|Hq]; [|rewrite Ao in Hy' by done; eauto].
      destruct (Hi q Hq) as (y & Hy & _). rewrite (Ai _ _ Hq Hy) in Hy'. injection Hy' as <-. by exists y. }
    destruct Hqo as (y & Hy & E0). rewrite E0 in Hc. pose proof (Hrank _ _ _ Hy Hc).
    rewrite decide_False; [lia|]. exact (Hin _ _ _ Hy Hc).
Qed.

(** ** Fuel: descending the tree *)

Definition below (rank : Z → nat) (h : heap) (r : Z) : nat :=
  size (filter (λ c, (rank c < rank r)%nat) (dom h)).

Lemma below_child rank h p c : is_Some (h !! c) → (rank c < rank p)%nat → (below rank h c < below rank h p)%nat.
Proof.
  intros Hc Hlt. apply subset_size. split.
  - intros d. rewrite !elem_of_filter. intros [? ?]. split; [lia|done].
  - intros Hsub. assert (c ∈ filter (λ d, (rank d < rank p)%nat) (dom h)) as Hin
      by (apply elem_of_filter; split; [done|by apply elem_of_dom]).
    apply Hsub, elem_of_filter in Hin as [? _]. lia.
Qed.

Lemma below_size rank h r : (below rank h r <= size h)%nat.
Proof.
  unfold below. rewrite <- (size_dom (D := gset Z) h). apply subseteq_size.
  intros d. rewrite elem_of_filter. by intros [_ ?].
Qed.

(** ** insert_resource *)

Lemma split_before_spec c pre post : c ∉ pre → split_before c (pre ++ c :: post) = (pre, c :: post).
Proof.
  induction pre as [|d pre IH]; intros Hc; cbn; [by rewrite decide_True|].
  apply not_elem_of_cons in Hc as [Hd Hc]. rewrite decide_False by done. by rewrite IH.
Qed.

Lemma deref_some h c x : h !! c = Some x → deref h c = Ok x.
Proof. unfold deref. by intros ->. Qed.

Lemma covered_spec h s e l : l ≠ [] → StronglySorted (before h) l →
  (∀ c, c ∈ l → ∃ x, h !! c = Some x ∧ start x <= end_ x) →
  ∃ r, covered h s e l = Ok r ∧
    match r with
    | None => ∃ c x, c ∈ l ∧ h !! c = Some x ∧ (start x < s ∨ e < end_ x)
    | Some (a, b) => l = a ++ b ∧ (∀ c, c ∈ a → ∃ x, h !! c = Some x ∧ s <= start x ∧ end_ x <= e) ∧
        all_above h b e
    end.
Proof.
  induction l as [|c l IH]; intros Hne Hs Hk; [done|]. destruct (Hk c) as (x & Hx & Hle); [by left|].
  cbn [covered]. rewrite (deref_some _ _ _ Hx). cbn [mbind outcome_bind].
  destruct ((start x <? s) || (e <? end_ x)) eqn:E.
  { exists None. split; [done|]. exists c, x. split_and!; [by left|done|].
    apply orb_true_iff in E. rewrite !Z.ltb_lt in E. done. }
  zb_hyps. apply StronglySorted_cons in Hs as [Hc Hs]. destruct l as [|d l].
  { eexists. split; [done|]. split_and!; [done| |by intros d []%elem_of_nil].
    intros d ->%list_elem_of_singleton. eauto. }
  destruct (Hk d) as (y & Hy & Hley); [right; by left|]. rewrite (deref_some _ _ _ Hy). cbn [mbind outcome_bind].
  destruct (Z.ltb_spec e (start y)).
  { eexists. split; [done|]. split_and!; [done|intros f ->%list_elem_of_singleton; eauto|].
    apply StronglySorted_cons in Hs as [Hd _]. intros f [->|Hf]%elem_of_cons; [eauto|].
    destruct (Hk f) as (z & Hz & _); [right; by right|]. exists z. split; [done|].
    rewrite Forall_forall in Hd. pose proof (Hd f Hf y z Hy Hz). lia. }
  destruct IH as (r & -> & Hr); [done|done|intros f Hf; apply Hk; by right|]. cbn. eexists. split; [done|].
  destruct r as [[a b]|].
  - destruct Hr as (-> & Hi & Ha). split_and!; [done| |done]. intros f [->|Hf]%elem_of_cons; eauto.
  - destruct Hr as (f & z & Hf & ? & ?). exists f, z. split; [by right|done].
Qed.

(** [new] is in the tree with its range. *)
Definition placed (h : heap) (new : Z) (n : resource) : Prop :=
  ∃ y p, h !! new = Some y ∧ parent y = Some p ∧ start y = start n ∧ end_ y = end_ n.

Lemma requested_placed h root new r n h' : root ≠ new → h !! root = Some r → h !! new = Some n →
  requested h root new r n None h' → placed h' new n.
Proof.
  intros Hne Hr Hn (_ & pre & post & _ & _ & _ & ->). exists (set_parent (Some root) n), root.
  by rewrite (link_lookup _ _ _ _ r n), decide_True.
Qed.

(** The part after the descent. *)
Lemma wp_take_over h par new p n first f pre post : tree_ok h → par ≠ new → h !! par = Some p →
  h !! new = Some n → loose n → fits p n → child p = pre ++ first :: post → h !! first = Some f →
  all_below h pre (start n) →
  wp (p ← get par;
      h ← gets id;
      let '(before, from) := split_before first (child p) in
      match covered h (start n) (end_ n) from with
      | Ok None => fail EBUSY
      | Ok (Some (inside, after)) =>
          _ ← upd new (set_parent (Some par));
          _ ← upd new (set_child inside);
          _ ← reparent new inside;
          upd par (set_child (before ++ new :: after))
      | _ => bug
      end) (λ _ h', tree_ok h' ∧ placed h' new n) (λ e h', e = EBUSY ∧ h' = h) h.
Proof.
  intros H Hne Hp Hn Hl Hfit Ec Hf Hb. do 4 res_step.
  pose proof (sorted_nodup _ _ _ H Hp) as Hnd. pose proof (to_sorted _ H _ _ Hp) as Hs.
  pose proof (kids_range _ _ _ H Hp) as Hk. rewrite Ec in Hnd, Hs, Hk.
  assert (Hnp : first ∉ pre) by (apply NoDup_app in Hnd as (_ & Hd & _); intros Hin; apply (Hd _ Hin); by left).
  rewrite Ec, split_before_spec by done.
  destruct (covered_spec h (start n) (end_ n) (first :: post)) as (r & -> & Hr);
    [done|by apply StronglySorted_app_1_r in Hs|intros c Hc; apply Hk, elem_of_app; by right|].
  destruct r as [[inside after]|]; [|by res_step]. destruct Hr as (Ei & Hi & Ha).
  do 4 res_step. rewrite Ei in Hnd, Ec. apply NoDup_app in Hnd as (_ & _ & Hnd). apply NoDup_app in Hnd as (Hndi & _ & _).
  assert (Hni : new ∉ inside).
  { intros Hin. apply (loose_not_child _ _ _ _ _ H Hn (proj1 Hl) Hp). rewrite Ec, !elem_of_app. auto. }
  assert (Hpi : par ∉ inside).
  { intros Hin. apply (child_not_self _ _ _ par H Hp); [|done]. rewrite Ec, !elem_of_app. auto. }
  res_step. eapply wp_mono; [apply wp_reparent; [done|]|].
  { intros c Hc. destruct (Hi c Hc) as (y & Hy & _). rewrite !lookup_alter_ne by (by intros <-). by exists y. }
  cbv beta. intros _ h1 Hh1. res_step.
  assert (HA : adopted par new p n pre inside after h (alter (set_child (pre ++ new :: after)) par h1)).
  { constructor.
    - rewrite lookup_alter_eq, Hh1, decide_False by done. by rewrite !lookup_alter_ne, Hp.
    - rewrite lookup_alter_ne, Hh1, decide_False by done. by rewrite !lookup_alter_eq, Hn.
    - intros c y Hc Hy. rewrite lookup_alter_ne, Hh1, decide_True by (done || by intros <-).
      by rewrite !lookup_alter_ne, Hy by (by intros <-).
    - intros c Hc1 Hc2 Hc3. rewrite lookup_alter_ne, Hh1, decide_False by done. by rewrite !lookup_alter_ne. }
  split; [by eapply tree_adopt|]. eexists _, par. split; [apply HA|done].
Qed.

Lemma wp_insert_from rank h new n : tree_ok h → h !! new = Some n → loose n →
  (∀ p x c, h !! p = Some x → c ∈ child x → (rank c < rank p)%nat) →
  ∀ fuel par p, par ≠ new → h !! par = Some p → (below rank h par <= fuel)%nat →
  wp (insert_from fuel par new) (λ _ h', tree_ok h' ∧ placed h' new n) (λ e h', e = EBUSY ∧ h' = h) h.
Proof.
  intros H Hn Hl Hrank. induction fuel as [|fuel IH]; intros par p Hne Hp Hfuel; cbn [insert_from].
  all: res_step; eapply wp_mono; [by apply wp_request|]; cbv beta; intros conflict h1 Hreq;
    (destruct conflict as [first|];
      [|res_step; split; [by eapply requested_ok|by eapply requested_placed]]);
    destruct Hreq as [-> [[-> _]|(Hfit & pre & post & f & Ec & Hf & [Ho1 Ho2] & Hb)]];
      [rewrite decide_True by done; by res_step|].
  all: assert (Hin : first ∈ child p) by (rewrite Ec; apply elem_of_app; right; by left);
    rewrite decide_False by (intros ->; by apply (child_not_self _ _ _ _ H Hp Hin)).
  all: assert (Hlt : (below rank h first < below rank h par)%nat)
    by (apply below_child; [done|exact (Hrank _ _ _ Hp Hin)]).
  all: do 4 res_step; destruct ((start f <=? start n) && (end_ n <=? end_ f)).
  1: exfalso; lia.
  2: { apply (IH first f); [|done|lia]. intros ->. exact (loose_not_child _ _ _ _ _ H Hn (proj1 Hl) Hp Hin). }
  all: by eapply wp_take_over.
Qed.

End ResourceInsert.
