(* ===== verification/ResourceAlloc.v ===== *)
(** * The resource tree: regions and allocation

    [__request_region] and [__release_region] keep the tree well formed;
    [allocate_resource] is first fit: sound, and complete for sizes above one. *)

From stdpp Require Import prelude numbers list gmap sorting.
From Stdlib Require Import ZArith Lia.
From S2P Require Import Prelude Resource ResourceFacts ResourceOps ResourceInsert.

#[local] Set Default Goal Selector "!".
#[local] Open Scope Z_scope.

Module ResourceAlloc.
Import Resource ResourceFacts ResourceOps ResourceInsert.

(** ** Regions *)

Lemma requested_linked h root new r n h' : root ≠ new → h !! root = Some r → h !! new = Some n →
  requested h root new r n None h' → h' !! new = Some (set_parent (Some root) n).
Proof.
  intros Hne Hr Hn (_ & pre & post & _ & _ & _ & ->). by rewrite (link_lookup _ _ _ _ r n), decide_True.
Qed.

Lemma wp_region_from rank h new n : tree_ok h → h !! new = Some n → loose n →
  (∀ p x c, h !! p = Some x → c ∈ child x → (rank c < rank p)%nat) →
  ∀ fuel par p Ψ, par ≠ new → h !! par = Some p → (below rank h par <= fuel)%nat →
  wp (region_from fuel par new) (λ b h', if b : bool then tree_ok h' ∧ ∃ q, h' !! new = Some (set_parent (Some q) n) else h' = h) Ψ h.
Proof.
  intros H Hn Hl Hrank. induction fuel as [|fuel IH]; intros par p Ψ Hne Hp Hfuel; cbn [region_from].
  all: res_step; eapply wp_mono; [by apply wp_request|]; cbv beta; intros conflict h1 Hreq;
    (destruct conflict as [c|];
      [|res_step; split; [by eapply requested_ok|exists par; by eapply requested_linked]]);
    destruct Hreq as [-> [[-> _]|(_ & pre & post & f & Ec & Hf & _)]];
      [rewrite decide_True by done; by res_step|].
  all: assert (Hin : c ∈ child p) by (rewrite Ec; apply elem_of_app; right; by left);
    rewrite decide_False by (intros ->; by apply (child_not_self _ _ _ _ H Hp Hin)).
  all: assert (Hlt : (below rank h c < below rank h par)%nat)
    by (apply below_child; [done|exact (Hrank _ _ _ Hp Hin)]).
  all: do 2 res_step; destruct (busy f); [by res_step|].
  - exfalso. lia.
  - apply (IH c f); [|done|lia]. intros ->. exact (loose_not_child _ _ _ _ _ H Hn (proj1 Hl) Hp Hin).
Qed.

Lemma wp_request_region h par p s n kmem Ψ : tree_ok h → h !! par = Some p → is_u32 s →
  (∀ r, kmem = Some r → h !! r = None) →
  wp (__request_region par s n kmem) (λ res h', tree_ok h' ∧
    match res with
    | Some r => kmem = Some r ∧ ∃ y q, h' !! r = Some y ∧ parent y = Some q ∧ child y = []
    | None => h' = h
    end) Ψ h.
Proof.
  intros H Hp Hs Hk. unfold __request_region. destruct kmem as [res|]; [|by res_step].
  specialize (Hk res eq_refl). set (x := mk_resource s (wrap32 (s + n - 1)) IORESOURCE_BUSY None []).
  do 2 res_step. assert (H1 : tree_ok (<[res := x]> h)) by (apply tree_fresh; try done; apply wrap32_is_u32).
  destruct (to_rank _ H1) as [rank Hrank].
  assert (Hne : par ≠ res) by congruence.
  do 2 res_step. res_step. eapply wp_mono.
  { eapply (wp_region_from rank _ res x H1); [by rewrite lookup_insert_eq|done|done|done|by rewrite lookup_insert_ne|].
    apply below_size. }
  cbv beta. intros b h' Hb. destruct b.
  - destruct Hb as [Hok [q Hq]]. res_step. split; [done|]. split; [done|]. eexists _, q. by rewrite Hq.
  - subst h'. do 2 res_step. res_step. rewrite delete_insert_id by done. done.
Qed.

Lemma covering_spec h s e l : (∀ c, c ∈ l → is_Some (h !! c)) → ∃ r, covering h s e l = Ok r ∧
  match r with
  | Some c => c ∈ l ∧ ∃ x, h !! c = Some x ∧ start x <= s ∧ e <= end_ x
  | None => ∀ c x, c ∈ l → h !! c = Some x → ¬ (start x <= s ∧ e <= end_ x)
  end.
Proof.
  induction l as [|c l IH]; intros Hk; cbn [covering]; [exists None; split; [done|by intros ? ? []%elem_of_nil]|].
  destruct (Hk c) as [x Hx]; [by left|]. rewrite (deref_some _ _ _ Hx). cbn [mbind outcome_bind].
  destruct ((start x <=? s) && (e <=? end_ x)) eqn:E.
  - zb_hyps. exists (Some c). split; [done|]. split; [by left|eauto].
  - destruct IH as (r & -> & Hr); [intros d Hd; apply Hk; by right|]. exists r. split; [done|].
    destruct r as [d|]; [destruct Hr; split; [by right|done]|].
    intros d y [->|Hd]%elem_of_cons Hy [H1 H2]; [|by eapply Hr].
    simplify_eq. apply andb_false_iff in E as [?|?]; zb_hyps; lia.
Qed.

(** Releasing a region: the memory of an exactly matching busy region without children. *)
Lemma wp_release_from rank h s e : tree_ok h →
  (∀ p x c, h !! p = Some x → c ∈ child x → (rank c < rank p)%nat) →
  (∀ r x, h !! r = Some x → busy x = true → start x = s → end_ x = e → child x = []) →
  ∀ fuel par p Ψ, h !! par = Some p → (below rank h par <= fuel)%nat →
  wp (release_from fuel par s e) (λ b h', tree_ok h' ∧
    if b : bool then ∃ r x, h !! r = Some x ∧ busy x = true ∧ start x = s ∧ end_ x = e ∧ h' !! r = None
    else h' = h) Ψ h.
Proof.
  intros H Hrank Hleaf. induction fuel as [|fuel IH]; intros par p Ψ Hp Hfuel; cbn [release_from].
  all: do 2 res_step; destruct (covering_spec h s e (child p)) as (r & Er & Hr);
    [intros c Hc; destruct (to_kids _ H _ _ _ Hp Hc) as (y & -> & _); done|].
  all: res_step; unfold wp at 1; rewrite Er; destruct r as [res|]; [|by res_step];
    destruct Hr as (Hin & x & Hx & _ & _); do 2 res_step;
    assert (Hlt : (below rank h res < below rank h par)%nat)
      by (apply below_child; [done|exact (Hrank _ _ _ Hp Hin)]).
  all: destruct (busy x) eqn:Eb; cbn [negb].
  2: exfalso; lia.
  3: by apply (IH res x); [done|lia].
  all: destruct (negb (start x =? s) || negb (end_ x =? e)) eqn:En; [by res_step|]; zb_hyps; do 4 res_step; res_step.
  all: pose proof (tree_unlink _ _ _ _ _ H Hp Hin Hx) as Hu;
    pose proof (child_not_self _ _ _ _ H Hp Hin) as Hne;
    assert (Eu : delete res (alter (set_child (filter (λ c, c ≠ res) (child p))) par h) = delete res (unlink par res p h))
      by (unfold unlink; by rewrite delete_alter_eq).
  all: rewrite Eu; split; [eapply (tree_free _ res (set_parent None x)); [done| |by split; [|apply (Hleaf res x)]]|].
  1, 3: unfold unlink; by rewrite lookup_alter_eq, lookup_alter_ne, Hx.
  all: exists res, x; split_and!; try done; apply lookup_delete_eq.
Qed.


(** ** Finding a free range: no faults *)

Definition align_ok (alignf : option align_fn) : Prop :=
  ∀ f s e size align, alignf = Some f → is_u32 s → is_u32 e →
    is_u32 (f (s, e) size align).1 ∧ is_u32 (f (s, e) size align).2.

Lemma align_up_u32 x a : is_u32 (align_up x a).
Proof.
  unfold align_up, is_u32. rewrite Z.land_comm. apply land_bound; [lia|]. apply wrap32_range.
Qed.

Lemma try_hole_u32 size min max align alignf s e : align_ok alignf → is_u32 s → is_u32 e → is_u32 max →
  is_u32 (try_hole size min max align alignf s e).1.1 ∧ is_u32 (try_hole size min max align alignf s e).1.2.
Proof.
  intros Ha Hs He Hm. unfold try_hole. set (s' := align_up _ align). set (e' := if max <? e then max else e).
  assert (Hs' : is_u32 s') by apply align_up_u32. assert (He' : is_u32 e') by (subst e'; by case_match).
  assert (Hse : ∀ p, is_u32 p.1 → is_u32 p.2 →
    is_u32 (let '(s, e) := p in if (s <? e) && (size <=? wrap32 (e - s + 1)) then (s, wrap32 (s + size - 1), true)
      else (s, e, false)).1.1 ∧
    is_u32 (let '(s, e) := p in if (s <? e) && (size <=? wrap32 (e - s + 1)) then (s, wrap32 (s + size - 1), true)
      else (s, e, false)).1.2).
  { intros [a b]. cbn. intros ? ?. destruct (_ && _); cbn; split; try done. apply wrap32_is_u32. }
  cbv zeta. fold e'. destruct alignf as [f|]; [|by apply (Hse (s', e'))].
  destruct (Ha f s' e' size align eq_refl Hs' He'). by apply (Hse (f (s', e') size align)).
Qed.

Lemma find_loop_total h rend size min max align alignf l : align_ok alignf → is_u32 max → is_u32 rend →
  (∀ c, c ∈ l → ∃ x, h !! c = Some x) → ∀ s, is_u32 s →
  ∃ r, find_loop h rend size min max align alignf s l = Ok r ∧ is_u32 r.1.1 ∧ is_u32 r.1.2.
Proof.
  intros Ha Hm Hr. induction l as [|c l IH]; intros Hk s Hs; cbn [find_loop].
  { eexists. split; [done|]. by apply try_hole_u32. }
  destruct (Hk c) as (x & Hx); [by left|]. rewrite (deref_some _ _ _ Hx). cbn [mbind outcome_bind].
  pose proof (try_hole_u32 size min max align alignf s (wrap32 (start x - 1)) Ha Hs ltac:(apply wrap32_is_u32) Hm) as Ht.
  destruct (try_hole _ _ _ _ _ _ _) as [[s' e'] found]. destruct found; [by eexists|].
  apply IH; [intros d Hd; apply Hk; by right|apply wrap32_is_u32].
Qed.

Lemma find_range_total h root r size min max align alignf : tree_ok h → h !! root = Some r → align_ok alignf →
  is_u32 max → ∃ q, find_range h r size min max align alignf = Ok q ∧ is_u32 q.1.1 ∧ is_u32 q.1.2.
Proof.
  intros H Hr Ha Hm. destruct (to_word _ H _ _ Hr) as [Hs He].
  assert (Hk : ∀ c, c ∈ child r → ∃ x, h !! c = Some x).
  { intros c Hc. destruct (to_kids _ H _ _ _ Hr Hc) as (y & Hy & _). eauto. }
  unfold find_range. destruct (child r) as [|t rest]; [by apply find_loop_total|].
  destruct (Hk t) as (x & Hx); [by left|]. rewrite (deref_some _ _ _ Hx). cbn [mbind outcome_bind].
  case_match; apply find_loop_total; try done; [|apply wrap32_is_u32]. intros c Hc. apply Hk. by right.
Qed.

(** Whatever the callback does, allocation keeps the tree well formed. *)
Lemma wp_allocate_safe h root r new n size min max align alignf : tree_ok h → root ≠ new →
  h !! root = Some r → h !! new = Some n → loose n → align_ok alignf → is_u32 max →
  wp (allocate_resource root new size min max align alignf) (λ _ h', tree_ok h') (λ e h', e = EBUSY ∧ tree_ok h') h.
Proof.
  intros H Hne Hr Hn [Hp Hc] Ha Hm. unfold allocate_resource, find_resource. res_step. do 2 res_step. do 4 res_step.
  destruct (find_range_total h root r size min max align alignf H Hr Ha Hm) as ([[s e] found] & -> & Hs & He).
  cbn [fst snd] in *. do 2 res_step.
  assert (Ea : alter (set_range s e) new h = <[new := set_range s e n]> h) by (by apply alter_alt_Some).
  assert (H1 : tree_ok (<[new := set_range s e n]> h)) by (by apply (tree_loose h new n)).
  rewrite Ea. destruct found; [|by res_step]. do 2 res_step. eapply wp_mono.
  { apply (wp_request _ root new r (set_range s e n) _ H1); [by rewrite lookup_insert_ne|by rewrite lookup_insert_eq]. }
  cbv beta. intros c h' Hreq. assert (tree_ok h').
  { eapply (requested_ok _ root new r (set_range s e n)); [exact H1|done|by rewrite lookup_insert_ne|by rewrite lookup_insert_eq|done|done]. }
  destruct c; by res_step.
Qed.

(** ** First fit *)

Lemma align_up_spec k x : 0 <= k -> 0 <= x → x + 2 ^ k <= 2 ^ 32 →
  x <= align_up x (2 ^ k) ∧ align_up x (2 ^ k) < x + 2 ^ k ∧ (2 ^ k | align_up x (2 ^ k)).
Proof.
  intros Hk Hx Hw. pose proof (pow2_pos k Hk) as Hp. set (y := x + 2 ^ k - 1).
  assert (E : align_up x (2 ^ k) = y / 2 ^ k * 2 ^ k).
  { unfold align_up. fold y. rewrite wrap32_id by (unfold is_u32; lia).
    assert (Hy : y = Z.land y (Z.ones 32)) by (rewrite Z.land_ones by lia; symmetry; apply Z.mod_small; lia).
    unfold wrap32. rewrite <- (Z.land_ones (Z.lnot (2 ^ k - 1))) by lia.
    rewrite (Z.land_comm (Z.lnot _)), Z.land_assoc, <- Hy.
    replace (2 ^ k - 1) with (Z.ones k) by (rewrite Z.ones_equiv; lia).
    rewrite <- Z.ldiff_land, Z.ldiff_ones_r, Z.shiftl_mul_pow2, Z.shiftr_div_pow2 by lia. done. }
  rewrite E. pose proof (Z.div_mod y (2 ^ k)). pose proof (Z.mod_pos_bound y (2 ^ k)).
  split_and!; [lia|lia|]. by exists (y / 2 ^ k).
Qed.

Lemma align_up_least k x m : 0 <= k → 0 <= x → x + 2 ^ k <= 2 ^ 32 → (2 ^ k | m) → x <= m →
  align_up x (2 ^ k) <= m.
Proof.
  intros Hk Hx Hw [q ->] Hm. destruct (align_up_spec k x Hk Hx Hw) as (_ & Hlt & [p Ep]). rewrite Ep in *.
  pose proof (pow2_pos k Hk). apply Z.mul_le_mono_nonneg_r; [lia|]. enough (p < q + 1) by lia.
  apply (Z.mul_lt_mono_pos_r (2 ^ k)); lia.
Qed.

Section first_fit.
Context (h : heap) (root : Z) (r : resource) (k size min max : Z).
Context (Htree : tree_ok h) (Hroot : h !! root = Some r) (Hrange : start r <= end_ r) (Hk : 0 <= k) (Hsize : 1 <= size < 2 ^ 32).
Context (Hmax : is_u32 max) (Hw1 : end_ r + 2 ^ k < 2 ^ 32) (Hw2 : min + 2 ^ k <= 2 ^ 32).

(** A range as asked for. *)
Record wanted (s e : Z) : Prop := {
  wa_size : e = s + size - 1;
  wa_min : min <= s;
  wa_max : e <= max;
  wa_align : (2 ^ k | s);
  wa_lo : start r <= s;
  wa_hi : e <= end_ r
}.

Definition clear_of (l : list Z) (s e : Z) : Prop :=
  ∀ c x, c ∈ l → h !! c = Some x → ¬ overlaps x s e.

(** One hole [s0..e0]. *)
Lemma try_hole_spec s0 e0 : 0 <= s0 <= end_ r + 1 → 0 <= e0 <= end_ r →
  let '(s, e, found) := try_hole size min max (2 ^ k) None s0 e0 in
  (found = true → e = s + size - 1 ∧ min <= s ∧ e <= max ∧ (2 ^ k | s) ∧ s0 <= s ∧ e <= e0 ∧
     ∀ m, (2 ^ k | m) → min <= m → s0 <= m → s <= m) ∧
  (found = false → 2 <= size → ∀ s, (2 ^ k | s) → min <= s → s + size - 1 <= max → s0 <= s → s + size - 1 <= e0 → False).
Proof.
  intros Hs0 He0. unfold try_hole. cbv zeta. pose proof (pow2_pos k Hk) as Hpos. unfold is_u32 in Hmax.
  set (s1 := if s0 <? min then min else s0). set (e1 := if max <? e0 then max else e0).
  assert (Hs1 : s1 = Z.max s0 min) by (subst s1; case_zb; lia).
  assert (He1 : e1 = Z.min e0 max) by (subst e1; case_zb; lia).
  destruct (align_up_spec k s1) as (A1 & A2 & A3); [done|lia|lia|].
  set (s := align_up s1 (2 ^ k)) in *. destruct (Z.ltb_spec s e1) as [Hlt|Hge]; cbn [andb].
  - rewrite (wrap32_id (e1 - s + 1)) by (unfold is_u32; lia). destruct (Z.leb_spec size (e1 - s + 1)).
    + rewrite wrap32_id by (unfold is_u32; lia). split; [|done]. intros _. split_and!; try done; [lia..|].
      intros m Hm H3 H4. apply align_up_least; try done; lia.
    + split; [done|]. intros _ H2 m Hm H3 H4 H5 H6.
      pose proof (align_up_least k s1 m Hk ltac:(lia) ltac:(lia) Hm ltac:(lia)) as Hle. fold s in Hle. lia.
  - split; [done|]. intros _ H2 m Hm H3 H4 H5 H6.
    pose proof (align_up_least k s1 m Hk ltac:(lia) ltac:(lia) Hm ltac:(lia)) as Hle. fold s in Hle. lia.
Qed.

(** The loop, from the hole that begins at [s0] and ends with the first of [l]. *)
Lemma find_loop_spec l : ∀ s0, StronglySorted (before h) l → start r <= s0 <= end_ r + 1 → 0 <= s0 →
  (∀ c, c ∈ l → ∃ x, h !! c = Some x ∧ s0 <= start x ∧ 1 <= start x ∧ start x <= end_ x ∧ end_ x <= end_ r) →
  ∃ s e found, find_loop h (end_ r) size min max (2 ^ k) None s0 l = Ok (s, e, found) ∧
    (found = true → wanted s e ∧ s0 <= s ∧ clear_of l s e ∧
       (2 <= size → ∀ a b, wanted a b → s0 <= a → clear_of l a b → s <= a)) ∧
    (found = false → 2 <= size → ∀ s e, wanted s e → s0 <= s → clear_of l s e → False).
Proof.
  destruct (to_word _ Htree _ _ Hroot) as [Hu1 Hu2]. unfold is_u32 in Hu1, Hu2.
  induction l as [|c l IH]; intros s0 Hs Hs0 Hp Hkids; cbn [find_loop].
  { pose proof (try_hole_spec s0 (end_ r) ltac:(lia) ltac:(lia)) as Ht.
    destruct (try_hole _ _ _ _ _ _ _) as [[s e] found]. destruct Ht as [Ht Hf]. eexists _, _, _. split; [done|]. split.
    - intros E. destruct (Ht E) as (? & ? & ? & ? & ? & ? & Hm).
      split_and!; [constructor; lia || done|done|intros c x []%elem_of_nil|].
      intros _ a b [_ ? _ ? _ _] ? _. by apply Hm.
    - intros E H2 s' e' [-> ? ? ? ? ?] ? _. by apply (Hf E H2 s'). }
  destruct (Hkids c) as (x & Hx & K1 & K2 & K3 & K4); [by left|]. rewrite (deref_some _ _ _ Hx). cbn [mbind outcome_bind].
  rewrite (wrap32_id (start x - 1)) by (unfold is_u32; lia).
  apply StronglySorted_cons in Hs as [Hc Hs]. rewrite Forall_forall in Hc.
  pose proof (try_hole_spec s0 (start x - 1) ltac:(lia) ltac:(lia)) as Ht.
  destruct (try_hole _ _ _ _ _ _ _) as [[s e] found]. destruct Ht as [Ht Hf]. destruct found.
  - eexists _, _, _. split; [done|]. split; [|done]. intros _. destruct (Ht eq_refl) as (? & ? & ? & ? & ? & ? & Hm).
    split_and!; [constructor; lia || done|done| |intros _ a b [_ ? _ ? _ _] ? _; by apply Hm].
    intros d y [->|Hd]%elem_of_cons Hy [O1 O2]; [simplify_eq; lia|]. pose proof (Hc d Hd x y Hx Hy). lia.
  - rewrite (wrap32_id (end_ x + 1)) by (unfold is_u32; lia).
    destruct (IH (end_ x + 1) Hs ltac:(lia) ltac:(lia)) as (s' & e' & found & -> & Hyes & Hno).
    { intros d Hd. destruct (Hkids d) as (y & Hy & ? & ? & ? & ?); [by right|]. exists y.
      pose proof (Hc d Hd x y Hx Hy). split_and!; [done|lia..]. }
    eexists _, _, _. split; [done|].
    assert (Hlater : 2 <= size → ∀ a b, wanted a b → s0 <= a → clear_of (c :: l) a b → end_ x < a ∧ clear_of l a b).
    { intros H2 a b Hab Ha Hcl. split; [|intros d y Hd; apply Hcl; by right].
      assert (Hcase : ¬ overlaps x a b) by (apply (Hcl c x); [by left|done]). unfold overlaps in Hcase.
      destruct (Z.lt_ge_cases (end_ x) a); [done|]. destruct Hab as [-> ? ? ? ? ?].
      exfalso. apply (Hf eq_refl H2 a); try done. lia. }
    split.
    + intros E. destruct (Hyes E) as (Hwa & Hge & Hcl & Hlow). split_and!; [done|lia| |].
      * intros d y [->|Hd]%elem_of_cons Hy; [simplify_eq; unfold overlaps; lia|exact (Hcl d y Hd Hy)].
      * intros H2 a b Hab Ha Hab'. destruct (Hlater H2 a b Hab Ha Hab'). apply (Hlow H2 a b); [done|lia|done].
    + intros E H2 a b Hab Ha Hcl. destruct (Hlater H2 a b Hab Ha Hcl). apply (Hno E H2 a b Hab); [lia|done].
Qed.

Lemma find_range_spec :
  ∃ s e found, find_range h r size min max (2 ^ k) None = Ok (s, e, found) ∧
    (found = true → wanted s e ∧ clear_of (child r) s e ∧
       (2 <= size → ∀ a b, wanted a b → clear_of (child r) a b → s <= a)) ∧
    (found = false → 2 <= size → ∀ s e, wanted s e → clear_of (child r) s e → False).
Proof.
  destruct (to_word _ Htree _ _ Hroot) as [Hu1 Hu2]. unfold is_u32 in Hu1, Hu2.
  pose proof (to_sorted _ Htree _ _ Hroot) as Hs.
  assert (Hkids : ∀ c, c ∈ child r → ∃ x, h !! c = Some x ∧ start r <= start x ∧ start x <= end_ x ∧ end_ x <= end_ r).
  { intros c Hc. destruct (to_kids _ Htree _ _ _ Hroot Hc) as (x & Hx & [? ? ? ?]). eauto. }
  unfold find_range. destruct (child r) as [|t rest] eqn:Ec.
  { destruct (find_loop_spec [] (start r) Hs ltac:(lia) ltac:(lia)) as (s & e & found & E & Hyes & Hno).
    { by intros c []%elem_of_nil. }
    eexists _, _, _. split; [exact E|]. split.
    + intros F. destruct (Hyes F) as (? & _ & ? & Hlow). split_and!; [done|done|].
      intros H2 a b Hab. apply (Hlow H2 a b Hab), Hab.
    + intros F H2 a b Hab. apply (Hno F H2 a b Hab), Hab. }
  destruct (Hkids t) as (x & Hx & K1 & K2 & K3); [by left|]. rewrite (deref_some _ _ _ Hx). cbn [mbind outcome_bind].
  apply StronglySorted_cons in Hs as Hs'. destruct Hs' as [Hc Hs']. rewrite Forall_forall in Hc.
  assert (Hrest : ∀ c, c ∈ rest → ∃ y, h !! c = Some y ∧ end_ x < start y ∧ start y <= end_ y ∧ end_ y <= end_ r).
  { intros c Hd. destruct (Hkids c) as (y & Hy & ? & ? & ?); [by right|]. exists y.
    pose proof (Hc c Hd x y Hx Hy). done. }
  destruct (Z.eqb_spec (start x) 0) as [E0|E0].
  - rewrite (wrap32_id (end_ x + 1)) by (unfold is_u32; lia).
    destruct (find_loop_spec rest (end_ x + 1) Hs' ltac:(lia) ltac:(lia)) as (s & e & found & E & Hyes & Hno).
    { intros c Hd. destruct (Hrest c Hd) as (y & Hy & ? & ? & ?). exists y. split_and!; [done|lia..]. }
    assert (Hlater : ∀ a b, wanted a b → clear_of (t :: rest) a b → end_ x + 1 <= a ∧ clear_of rest a b).
    { intros a b Hab Hcl. split; [|intros d y Hd; apply Hcl; by right].
      assert (Hcase : ¬ overlaps x a b) by (apply (Hcl t x); [by left|done]).
      unfold overlaps in Hcase. pose proof (wa_size _ _ Hab). pose proof (wa_lo _ _ Hab). lia. }
    eexists _, _, _. split; [exact E|]. split.
    + intros F. destruct (Hyes F) as (Hwa & Hge & Hcl & Hlow). split_and!; [done| |].
      * intros d y [->|Hd]%elem_of_cons Hy; [simplify_eq; unfold overlaps; lia|exact (Hcl d y Hd Hy)].
      * intros H2 a b Hab Hcl'. destruct (Hlater a b Hab Hcl'). by apply (Hlow H2 a b).
    + intros F H2 a b Hab Hcl. destruct (Hlater a b Hab Hcl). by apply (Hno F H2 a b Hab).
  - destruct (find_loop_spec (t :: rest) (start r) Hs ltac:(lia) ltac:(lia)) as (s & e & found & E & Hyes & Hno).
    { intros c Hd. destruct (Hkids c Hd) as (y & Hy & ? & ? & ?). exists y. split_and!; try done.
      apply elem_of_cons in Hd as [->|Hd]; [simplify_eq; lia|]. destruct (Hrest c Hd) as (z & Hz & ? & _). simplify_eq. lia. }
    eexists _, _, _. split; [exact E|]. split.
    + intros F. destruct (Hyes F) as (? & _ & ? & Hlow). split_and!; [done|done|].
      intros H2 a b Hab. apply (Hlow H2 a b Hab), Hab.
    + intros F H2 a b Hab. apply (Hno F H2 a b Hab), Hab.
Qed.
End first_fit.

End ResourceAlloc.
