(* ===== verification/ResourceTheorems.v ===== *)
(** * Properties of the resource tree *)

From stdpp Require Import prelude numbers list gmap sorting.
From Stdlib Require Import ZArith Lia.
From S2P Require Import Prelude Resource ResourceFacts ResourceOps ResourceInsert ResourceAlloc.

#[local] Set Default Goal Selector "!".
#[local] Open Scope Z_scope.

Module ResourceTheorems.
Import Resource ResourceFacts ResourceOps ResourceInsert ResourceAlloc.

(** ** Histories *)

Inductive res_op :=
| RNew (new s e fl : Z)                 (* a driver sets up a resource *)
| RDrop (old : Z)                       (* its memory goes away *)
| RRequest (root new : Z)
| RRelease (old : Z)
| RAllocate (root new size min max align : Z) (alignf : option align_fn)
| RInsert (parent new : Z)
| RAdjust (res s size : Z)
| RRegion (parent s n : Z) (kmem : option Z)
| RCheck (parent s n : Z) (kmem : option Z)
| RReleaseRegion (parent s n : Z).

Definition run_op (o : res_op) : SM heap unit :=
  match o with
  | RNew new s e fl => modify (insert new (mk_resource s e fl None []))
  | RDrop old => modify (delete old)
  | RRequest root new => request_resource root new
  | RRelease old => release_resource old
  | RAllocate root new size min max align alignf => allocate_resource root new size min max align alignf
  | RInsert parent new => insert_resource parent new
  | RAdjust res s size => adjust_resource res s size
  | RRegion parent s n kmem => _ ← __request_region parent s n kmem; mret tt
  | RCheck parent s n kmem => __check_region parent s n kmem
  | RReleaseRegion parent s n => _ ← __release_region parent s n; mret tt
  end.

Definition is_loose (h : heap) (c : Z) : Prop := ∃ x, h !! c = Some x ∧ loose x.

(** What callers owe: resources they link are theirs and not linked yet, resources they release
    or adjust are linked, new memory is not in use, new ranges are not empty, and a region that is
    released as a whole has no children. *)
Definition op_pre (o : res_op) (h : heap) : Prop :=
  match o with
  | RNew new s e _ => (h !! new = None ∨ is_loose h new) ∧ is_u32 s ∧ is_u32 e
  | RDrop old => is_loose h old
  | RRequest root new | RInsert root new => root ≠ new ∧ is_Some (h !! root) ∧ is_loose h new
  | RRelease old => ∃ x, h !! old = Some x ∧ is_Some (parent x)
  | RAllocate root new _ _ max _ alignf =>
      root ≠ new ∧ is_Some (h !! root) ∧ is_loose h new ∧ is_u32 max ∧ align_ok alignf
  | RAdjust res s size => (∃ x, h !! res = Some x ∧ is_Some (parent x)) ∧
      is_u32 s ∧ 1 <= size ∧ s + size <= 2 ^ 32
  | RRegion par s _ kmem | RCheck par s _ kmem => is_Some (h !! par) ∧ is_u32 s ∧ ∀ r, kmem = Some r → h !! r = None
  | RReleaseRegion par s n => is_Some (h !! par) ∧
      ∀ r x, h !! r = Some x → busy x = true → start x = s → end_ x = wrap32 (s + n - 1) → child x = []
  end.

(** The code ends in a well-formed tree, whatever it returns. *)
Definition stays {A} (m : SM heap A) (h : heap) : Prop :=
  wp m (λ _ h', tree_ok h') (λ _ h', tree_ok h') h.

Lemma request_stays h root new : tree_ok h → root ≠ new → is_Some (h !! root) → is_loose h new →
  stays (request_resource root new) h.
Proof.
  intros H Hne [r Hr] (n & Hn & Hl). unfold stays, request_resource. res_step.
  eapply wp_mono; [by apply wp_request|]. cbv beta. intros c h' Hq.
  assert (tree_ok h') by (by eapply requested_ok). destruct c; by res_step.
Qed.

Lemma region_stays h par s n kmem : tree_ok h → is_Some (h !! par) → is_u32 s →
  (∀ r, kmem = Some r → h !! r = None) → stays (__check_region par s n kmem) h.
Proof.
  intros H [p Hp] Hs Hk. unfold stays, __check_region. res_step.
  eapply wp_mono; [by eapply wp_request_region|]. cbv beta. intros res h1 [H1 Hr].
  destruct res as [res|]; [|by res_step]. destruct Hr as (_ & y & q & Hy & Hq & Hc).
  res_step. eapply wp_mono; [by eapply wp_release|]. cbv beta. intros _ h2 (x & Hx & Hin & -> & H2). res_step.
  eapply (tree_free _ res (set_parent None y)); [done| |done].
  pose proof (child_not_self _ _ _ _ H1 Hx Hin). unfold unlink. by rewrite lookup_alter_eq, lookup_alter_ne, Hy.
Qed.

Lemma run_op_ok o h : tree_ok h → op_pre o h → stays (run_op o) h.
Proof.
  intros H Hp. destruct o; cbn [run_op op_pre] in *.
  - destruct Hp as ([Hf|(x & Hx & Hl)] & Hs & He); unfold stays; res_step; [by apply tree_fresh|].
    by apply (tree_loose h new x).
  - destruct Hp as (x & Hx & Hl). unfold stays. res_step. by eapply tree_free.
  - destruct Hp as (? & ? & ?). by apply request_stays.
  - destruct Hp as (x & Hx & [p Hpx]). unfold stays. eapply wp_mono; [by eapply wp_release|].
    cbv beta. by intros _ h' (? & _ & _ & _ & ?).
  - destruct Hp as (Hne & [r Hr] & (n & Hn & Hl) & Hm & Ha). unfold stays.
    eapply wp_impl; [by eapply wp_allocate_safe|done|]. cbv beta. by intros e h' [_ ?].
  - destruct Hp as (Hne & [p Hpp] & (n & Hn & Hl)). unfold stays, insert_resource. do 2 res_step.
    destruct (to_rank _ H) as [rank Hrank].
    eapply wp_impl; [eapply (wp_insert_from rank); [done..|apply below_size]| |]; cbv beta;
      [by intros _ h' [? _]|by intros e h' [_ ->]].
  - destruct Hp as ((x & Hx & [p Hpx]) & ? & ? & ?). unfold stays.
    eapply wp_impl; [by eapply wp_adjust| |]; cbv beta; [by intros _ h' [_ ?]|by intros e h' [_ ->]].
  - destruct Hp as ([p Hpp] & ? & ?). unfold stays. res_step. eapply wp_mono; [by eapply wp_request_region|].
    cbv beta. intros res h' [? _]. by res_step.
  - destruct Hp as (? & ? & ?). by apply region_stays.
  - destruct Hp as ([p Hpp] & Hleaf). unfold stays, __release_region. do 3 res_step.
    destruct (to_rank _ H) as [rank Hrank].
    eapply wp_mono; [eapply (wp_release_from rank); [done..|apply below_size]|]. cbv beta. intros b h' [? _]. by res_step.
Qed.

(** ioport_resource and iomem_resource. *)
Definition boot_heap : heap :=
  {[ 0 := mk_resource 0 0xffff 0x100 None []; 1 := mk_resource 0 0xffffffff 0x200 None [] ]}.

Inductive reach : heap → Prop :=
| reach_boot : reach boot_heap
| reach_op o h : reach h → op_pre o h → reach (run_op o h).2.

Lemma boot_tree_ok : tree_ok boot_heap.
Proof.
  assert (Hb : ∀ p x, boot_heap !! p = Some x → loose x ∧ is_u32 (start x) ∧ is_u32 (end_ x)).
  { intros p x. unfold boot_heap. intros [[<- <-]|[_ [<- <-]%lookup_singleton_Some]]%lookup_insert_Some.
    - split_and!; done.
    - split_and!; done. }
  constructor.
  - intros p x c Hx Hc. destruct (Hb _ _ Hx) as [[_ E] _]. rewrite E in Hc. by apply elem_of_nil in Hc.
  - intros p x Hx. destruct (Hb _ _ Hx) as [[_ ->] _]. constructor.
  - intros c y p Hy Hp. destruct (Hb _ _ Hy) as [[E _] _]. congruence.
  - intros p x Hx. by apply (Hb p).
  - exists (λ _, O). intros p x c Hx Hc. destruct (Hb _ _ Hx) as [[_ E] _]. rewrite E in Hc. by apply elem_of_nil in Hc.
Qed.

Lemma stays_state {A} (m : SM heap A) h : stays m h → tree_ok (m h).2 ∧ (m h).1 ≠ Bug.
Proof. unfold stays, wp. by destruct (m h) as [[a|e|] h']. Qed.

Lemma reach_tree h : reach h → tree_ok h.
Proof. induction 1 as [|o h _ IH Hp]; [apply boot_tree_ok|]. by apply (stays_state (run_op o) h), run_op_ok. Qed.

(** C18: The resource tree is well formed in every history.  Starting from the two empty roots,
    after any sequence of requests, releases, allocations with any alignment callback,
    insertions, adjustments and region calls that respects the callers' obligations, the next
    call terminates without following a dangling pointer, and whether it succeeds or returns
    -EBUSY every resource again lies within its parent, siblings are in order and disjoint,
    parent and child pointers agree and the tree has no cycle. *)
Theorem resource_tree_safe h o : reach h → op_pre o h →
  (run_op o h).1 ≠ Bug ∧ tree_ok (run_op o h).2.
Proof.
  intros Hr Hp. destruct (stays_state _ _ (run_op_ok o h (reach_tree h Hr) Hp)). done.
Qed.

(** Two windows, then a bridge over both of them. *)
Definition demo_heap : heap :=
  (run_op (RNew 12 0x1000 0x5fff 0) (run_op (RRequest 1 11) (run_op (RNew 11 0x4000 0x4fff 0)
     (run_op (RRequest 1 10) (run_op (RNew 10 0x2000 0x2fff 0) boot_heap).2).2).2).2).2.

Lemma resource_tree_safe_witness :
  (run_op (RInsert 1 12) demo_heap).1 ≠ Bug ∧ tree_ok (run_op (RInsert 1 12) demo_heap).2 ∧
  (child <$> (run_op (RInsert 1 12) demo_heap).2 !! 12) = Some [10; 11].
Proof.
  assert (Hp : ∀ new s e, is_u32 s → is_u32 e → ∀ h, reach h → h !! new = None → reach (run_op (RNew new s e 0) h).2).
  { intros new s e Hs He h Hh Hn. apply reach_op; [done|]. by split_and!; [left|..]. }
  assert (Hq : ∀ new h, reach h → 1 ≠ new → is_Some (h !! 1) → is_loose h new → reach (run_op (RRequest 1 new) h).2).
  { intros new h Hh ? ? ?. by apply reach_op. }
  assert (reach demo_heap).
  { unfold demo_heap. apply Hp; [done|done| |by vm_compute].
    apply Hq; [|done|by eexists|by eexists; split; [by vm_compute|done]].
    apply Hp; [done|done| |by vm_compute].
    apply Hq; [|done|by eexists|by eexists; split; [by vm_compute|done]].
    apply Hp; [done|done|constructor|by vm_compute]. }
  destruct (resource_tree_safe demo_heap (RInsert 1 12)) as [? ?]; [done| |].
  - split_and!; [done|by eexists|]. eexists. split; [by vm_compute|done].
  - split_and!; [done|done|]. by vm_compute.
Defined.

(** ** Requesting *)

Definition free_in (h : heap) (r n : resource) : Prop :=
  fits r n ∧ ∀ c x, c ∈ child r → h !! c = Some x → ¬ overlaps x (start n) (end_ n).

(** [request_resource] succeeds exactly when the range is not empty, lies within the root and
    overlaps none of the root's children.  It then links the resource between the children below
    and above it and touches nothing else; otherwise it returns -EBUSY and changes nothing. *)
Theorem request_resource_correct h root new r n :
  tree_ok h → root ≠ new → h !! root = Some r → h !! new = Some n → loose n →
  (free_in h r n → ∃ pre post, child r = pre ++ post ∧
     all_below h pre (start n) ∧ all_above h post (end_ n) ∧
     request_resource root new h = (Ok tt, link root new (pre ++ new :: post) h) ∧
     tree_ok (link root new (pre ++ new :: post) h)) ∧
  (¬ free_in h r n → request_resource root new h = (Err EBUSY, h)).
Proof.
  intros H Hne Hr Hn Hl. destruct (wp_ok _ _ _ (wp_request h root new r n _ H Hr Hn)) as (c & h' & E & Hq).
  assert (Hcall : request_resource root new h = match c with Some _ => (Err EBUSY, h') | None => (Ok tt, h') end).
  { unfold request_resource. sm_unfold. rewrite E. by destruct c. }
  pose proof (requested_ok _ _ _ _ _ _ _ H Hne Hr Hn Hl Hq) as Hok. rewrite Hcall. destruct c as [c|].
  - destruct Hq as [-> Hq]. split; [|done]. intros [Hf Hfree]. exfalso.
    destruct Hq as [[_ Hnf]|(_ & pre & post & x & Ec & Hx & Ho & _)]; [done|].
    apply (Hfree c x); [|done|done]. rewrite Ec. apply elem_of_app. right. by left.
  - destruct Hq as (Hf & pre & post & Ec & Hb & Ha & ->). split; [intros _; eauto 10|]. intros Hno. exfalso. apply Hno.
    split; [done|]. intros d y Hd Hy [O1 O2]. rewrite Ec in Hd. apply elem_of_app in Hd as [Hd|Hd].
    + destruct (Hb d Hd) as (z & Hz & ?). simplify_eq. lia.
    + destruct (Ha d Hd) as (z & Hz & ?). simplify_eq. lia.
Qed.

Definition demo_new : heap := (run_op (RNew 10 0x12000 0x12fff 0) boot_heap).2.

Lemma demo_new_ok : tree_ok demo_new.
Proof. apply (stays_state (run_op (RNew 10 0x12000 0x12fff 0))), run_op_ok; [apply boot_tree_ok|]. by split_and!; [left|..]. Qed.

Lemma request_resource_correct_witness :
  ∃ h', request_resource 1 10 demo_new = (Ok tt, h') ∧ tree_ok h' ∧
    request_resource 0 10 demo_new = (Err EBUSY, demo_new).
Proof.
  set (r1 := mk_resource 0 0xffffffff 0x200 None []). set (r0 := mk_resource 0 0xffff 0x100 None []).
  set (n := mk_resource 0x12000 0x12fff 0 None []).
  destruct (request_resource_correct demo_new 1 10 r1 n) as [Hyes _]; [exact demo_new_ok|done|done|done|done|].
  destruct Hyes as (pre & post & _ & _ & _ & E & Hok).
  { split; [unfold fits; cbn; lia|]. cbn. by intros c x []%elem_of_nil. }
  eexists. split_and!; [exact E|exact Hok|].
  destruct (request_resource_correct demo_new 0 10 r0 n) as [_ Hno]; [exact demo_new_ok|done|done|done|done|].
  apply Hno. intros [[_ [_ Hf]] _]. cbn in Hf. lia.
Defined.

(** ** Allocating *)

(** [allocate_resource] is first fit.  Without an alignment callback, for a power-of-two
    alignment that does not carry the root's end or [min] past 2^32, it returns 0 only after
    linking the resource at an aligned range of the requested size within [min..max] and the root
    that overlaps no other child; for sizes above one that range is the lowest there is, and
    -EBUSY means that there is none.  Apart from the new resource a failing call changes nothing. *)
Theorem allocate_resource_first_fit h root new r n k size min max :
  tree_ok h → root ≠ new → h !! root = Some r → h !! new = Some n → loose n →
  start r <= end_ r → 0 <= k → 1 <= size < 2 ^ 32 → is_u32 max →
  end_ r + 2 ^ k < 2 ^ 32 → min + 2 ^ k <= 2 ^ 32 →
  let free s e := wanted r k size min max s e ∧ clear_of h (child r) s e in
  let '(res, h') := allocate_resource root new size min max (2 ^ k) None h in
  tree_ok h' ∧
  match res with
  | Ok _ => ∃ y, h' !! new = Some y ∧ parent y = Some root ∧ free (start y) (end_ y) ∧
      (2 <= size → ∀ s e, free s e → start y <= s)
  | Err e => e = EBUSY ∧ (∀ c, c ≠ new → h' !! c = h !! c) ∧ (2 <= size → ∀ s e, ¬ free s e)
  | Bug => False
  end.
Proof.
  intros H Hne Hr Hn [Hp Hc] Hrange Hk Hs Hmax Hw1 Hw2 free.
  destruct (find_range_spec h root r k size min max H Hr Hrange Hk Hs Hmax Hw1 Hw2)
    as (s & e & found & E & Hyes & Hno).
  assert (Hword : is_u32 s ∧ is_u32 e).
  { destruct (find_range_total h root r size min max (2 ^ k) None H Hr) as (q & Eq & Hq); [done|done|].
    rewrite E in Eq. by injection Eq as <-. }
  assert (Ea : alter (set_range s e) new h = <[new := set_range s e n]> h) by (by apply alter_alt_Some).
  assert (H1 : tree_ok (<[new := set_range s e n]> h)).
  { apply (tree_loose h new n); [done|done|by split|by split|apply Hword|apply Hword]. }
  assert (Hr1 : (<[new := set_range s e n]> h) !! root = Some r) by (by rewrite lookup_insert_ne).
  assert (Hn1 : (<[new := set_range s e n]> h) !! new = Some (set_range s e n)) by (by rewrite lookup_insert_eq).
  assert (Ef : find_resource root new size min max (2 ^ k) None h =
    (if found then Ok tt else Err EBUSY, <[new := set_range s e n]> h)).
  { unfold find_resource, get, upd. sm_unfold. rewrite Hr, Hn. unfold id. rewrite E. sm_unfold. rewrite Ea. by destruct found. }
  unfold allocate_resource. sm_unfold. rewrite Ef. destruct found.
  - destruct (Hyes eq_refl) as (Hwa & Hcl & Hlow).
    destruct (wp_ok _ _ _ (wp_request _ root new r _ _ H1 Hr1 Hn1)) as (c & h' & -> & Hq).
    destruct c as [c|].
    + exfalso. destruct Hq as [_ [[_ Hnf]|(_ & pre & post & x & Ec & Hx & Ho & _)]].
      * apply Hnf. unfold fits. cbn. destruct Hwa. lia.
      * assert (Hin : c ∈ child r) by (rewrite Ec; apply elem_of_app; right; by left).
        apply (Hcl c x Hin); [|done]. rewrite lookup_insert_ne in Hx; [done|].
        intros <-. exact (loose_not_child _ _ _ _ _ H Hn Hp Hr Hin).
    + split; [by eapply (requested_ok _ root new r)|]. eexists.
      split; [by eapply (requested_linked _ root new r)|]. split_and!; [done|done|]. intros H2 a b [? ?]. by eapply Hlow.
  - split; [done|]. split_and!; [done|intros c Hcn; by rewrite lookup_insert_ne|].
    intros H2 a b [? ?]. by eapply (Hno eq_refl H2 a b).
Qed.

(** The first 256 ports are taken. *)
Definition demo_ports : heap :=
  (run_op (RNew 11 0 0 0) (run_op (RRequest 0 10) (run_op (RNew 10 0 0xff 0) boot_heap).2).2).2.

Lemma demo_ports_ok : tree_ok demo_ports.
Proof.
  unfold demo_ports. apply (stays_state (run_op (RNew 11 0 0 0))), run_op_ok; [|by split_and!; [left|..]].
  apply (stays_state (run_op (RRequest 0 10))), run_op_ok.
  - apply (stays_state (run_op (RNew 10 0 0xff 0))), run_op_ok; [apply boot_tree_ok|by split_and!; [left|..]].
  - split_and!; [done|by eexists|]. eexists. by split; [by vm_compute|].
Qed.

Lemma allocate_resource_first_fit_witness :
  ∃ h' y, allocate_resource 0 11 0x20 0 0xffff (2 ^ 5) None demo_ports = (Ok tt, h') ∧
    h' !! 11 = Some y ∧ start y = 0x100 ∧ end_ y = 0x11f ∧ tree_ok h'.
Proof.
  pose proof (allocate_resource_first_fit demo_ports 0 11 (mk_resource 0 0xffff 0x100 None [10])
    (mk_resource 0 0 0 None []) 5 0x20 0 0xffff demo_ports_ok) as H. cbv zeta in H.
  destruct (allocate_resource 0 11 0x20 0 0xffff (2 ^ 5) None demo_ports) as [res h'] eqn:E.
  destruct H as [Hok _]; [done|by vm_compute|by vm_compute|done|by vm_compute|done|by vm_compute|by vm_compute|
    by vm_compute|by vm_compute|].
  vm_compute in E. injection E as <- <-. eexists _, _. split_and!; [reflexivity|by vm_compute|done|done|exact Hok].
Defined.

(** Where [find_resource] goes wrong.  Rounding up may wrap around 2^32: above a child that
    ends at 0xfffffff0 an alignment of 256 gives address 0, so that a caller that asked for
    addresses from 0x2000 on gets [0..15].  And the comparison [new->start < new->end] makes a
    hole of exactly one unit look empty: a request for one unit fails with -EBUSY although
    [request_resource] of that unit succeeds. *)
Theorem find_resource_gaps :
  (let h := {[ 1 := mk_resource 0 0xffffffff 0 None [2]; 2 := mk_resource 0x1000 0xfffffff0 0 (Some 1) [];
               3 := mk_resource 0 0 0 None [] ]} in
   let '(res, h') := allocate_resource 1 3 0x10 0x2000 0xfffffffe 0x100 None h in
   res = Ok tt ∧ (λ y, (start y, end_ y)) <$> h' !! 3 = Some (0, 15)) ∧
  (let h := {[ 1 := mk_resource 0 3 0 None [2; 4]; 2 := mk_resource 0 1 0 (Some 1) [];
               4 := mk_resource 3 3 0 (Some 1) []; 3 := mk_resource 2 2 0 None [] ]} in
   (allocate_resource 1 3 1 0 3 1 None h).1 = Err EBUSY ∧ (request_resource 1 3 h).1 = Ok tt).
Proof. split; [by vm_compute|]. by split; vm_compute. Qed.

End ResourceTheorems.
