(* ===== verification/Rwsem.v ===== *)
(** * lib/rwsem-spinlock.c: read-write semaphores

    One semaphore used by any number of tasks.  The semaphore itself is only
    touched under [wait_lock]; what other tasks can see while the lock is held is
    the [task] field of a waiter (tested without the lock by the waiter's loop) and
    the state of a task.  So a critical section is cut at exactly those accesses:
    the program counter [pc] of a task says between which two of them it is, and
    [exec] runs the code up to the next one.  Tasks interleave freely at these
    points.

    A waiter structure lives on the stack of the sleeping task: it is named by that
    task and disappears when the task returns from its call.  A [task_struct]
    disappears when its usage count reaches zero.  Touching either after that is
    [Bug]. *)

From stdpp Require Import prelude numbers list gmap.
From Stdlib Require Import ZArith Lia.
From S2P Require Import Prelude.

#[local] Set Default Goal Selector "!".
#[local] Open Scope Z_scope.

Module Rwsem.

Definition RWSEM_WAITING_FOR_READ : Z := 1.
Definition RWSEM_WAITING_FOR_WRITE : Z := 2.

(** Task states of include/linux/sched.h. *)
Definition TASK_RUNNING : Z := 0.
Definition TASK_INTERRUPTIBLE : Z := 1.
Definition TASK_UNINTERRUPTIBLE : Z := 2.
Definition TASK_STOPPED : Z := 4.
Definition TASK_TRACED : Z := 8.

(** [struct rwsem_waiter]; [task = None] is the NULL pointer that tells the
    waiter it has been granted the semaphore. *)
Record rwsem_waiter := mk_waiter {
  task : option nat;
  flags : Z;
}.

(** [struct rw_semaphore]; [activity] is an [__s32], [wait_lock] records the holder of
    the spinlock, [wait_list] the waiters in list order. *)
Record rw_semaphore := mk_rwsem {
  activity : Z;
  wait_lock : option nat;
  wait_list : list nat;
}.

(** What the semaphore code uses of a [task_struct]. *)
Record task_struct := mk_task {
  state : Z;
  usage : Z;
}.

(** The two ways to hold the semaphore. *)
Inductive mode := Read | Write.
#[export] Instance mode_eq_dec : EqDecision mode.
Proof. solve_decision. Defined.

Definition mode_flag (m : mode) : Z :=
  match m with
  | Read => RWSEM_WAITING_FOR_READ
  | Write => RWSEM_WAITING_FOR_WRITE
  end.

(** What a waker does after one waiter: leave, or go on with the loop of
    [__rwsem_do_wake], which keeps [woken] and [next] in local variables
    ([next = None]: the list head itself). *)
Inductive wake_kont :=
| Last
| Loop (woken : Z) (next : option nat).

Inductive pc :=
| Run                                               (* outside the semaphore code *)
| WaitTest (m : mode)                               (* if (!waiter.task) break; *)
| WaitSched (m : mode)                              (* schedule(); *)
| WaitSet (m : mode)                                (* set_task_state(tsk, ...); *)
| WaitDone (m : mode)                               (* tsk->state = TASK_RUNNING; *)
| WakeNull (k : wake_kont) (waiter tsk : nat)       (* waiter->task = NULL; *)
| WakeUp (k : wake_kont) (tsk : nat)                (* wake_up_process(tsk); *)
| WakePut (k : wake_kont) (tsk : nat).              (* put_task_struct(tsk); ... *)

(** A task using the semaphore: where it is and what it holds.  [held] changes when
    a call returns to its caller. *)
Record thread := mk_thread {
  at_pc : pc;
  held : option mode;
}.

Record sys := mk_sys {
  sem : rw_semaphore;
  waiters : gmap nat rwsem_waiter;
  tasks : gmap nat task_struct;
  threads : gmap nat thread;
}.

Definition set_activity (a : Z) (s : sys) : sys :=
  mk_sys (mk_rwsem a (wait_lock (sem s)) (wait_list (sem s)))
         (waiters s) (tasks s) (threads s).
Definition set_wait_lock (o : option nat) (s : sys) : sys :=
  mk_sys (mk_rwsem (activity (sem s)) o (wait_list (sem s)))
         (waiters s) (tasks s) (threads s).
Definition set_wait_list (l : list nat) (s : sys) : sys :=
  mk_sys (mk_rwsem (activity (sem s)) (wait_lock (sem s)) l)
         (waiters s) (tasks s) (threads s).
Definition set_waiters (w : gmap nat rwsem_waiter) (s : sys) : sys :=
  mk_sys (sem s) w (tasks s) (threads s).
Definition set_tasks (ts : gmap nat task_struct) (s : sys) : sys :=
  mk_sys (sem s) (waiters s) ts (threads s).
Definition set_threads (th : gmap nat thread) (s : sys) : sys :=
  mk_sys (sem s) (waiters s) (tasks s) th.

(** ** Accesses *)

Definition get_waiter (w : nat) : SM sys rwsem_waiter := λ s,
  match waiters s !! w with
  | Some x => (Ok x, s)
  | None => (Bug, s)
  end.

Definition get_task (t : nat) : SM sys task_struct := λ s,
  match tasks s !! t with
  | Some x => (Ok x, s)
  | None => (Bug, s)
  end.

(** [set_task_state(tsk, st)] *)
Definition set_task_state (t : nat) (st : Z) : SM sys unit :=
  p ← get_task t;
  modify (λ s, set_tasks (<[t := mk_task st (usage p)]> (tasks s)) s).

Definition get_task_struct (t : nat) : SM sys unit :=
  p ← get_task t;
  modify (λ s, set_tasks (<[t := mk_task (state p) (usage p + 1)]> (tasks s)) s).

(** [put_task_struct]: the structure is freed with its last reference. *)
Definition put_task_struct (t : nat) : SM sys unit :=
  p ← get_task t;
  if usage p =? 1 then modify (λ s, set_tasks (delete t (tasks s)) s)
  else modify (λ s, set_tasks (<[t := mk_task (state p) (usage p - 1)]> (tasks s)) s).

(** [wake_up_process]: the effect of [try_to_wake_up] on the task's state. *)
Definition wake_up_process (t : nat) : SM sys unit :=
  p ← get_task t;
  if Z.land (state p)
       (Z.lor TASK_STOPPED (Z.lor TASK_TRACED
          (Z.lor TASK_INTERRUPTIBLE TASK_UNINTERRUPTIBLE))) =? 0
  then mret tt
  else set_task_state t TASK_RUNNING.

(** [spin_lock(&sem->wait_lock)] once the lock is free; taking a lock that is
    held on the same path never returns. *)
Definition spin_lock (t : nat) : SM sys unit := λ s,
  match wait_lock (sem s) with
  | None => (Ok tt, set_wait_lock (Some t) s)
  | Some _ => (Bug, s)
  end.
Definition spin_unlock : SM sys unit := modify (set_wait_lock None).

Definition set_pc (t : nat) (c : pc) (h : option mode) : SM sys unit :=
  modify (λ s, set_threads (<[t := mk_thread c h]> (threads s)) s).

(** [list_del(&waiter->list)] *)
Definition list_del (w : nat) : SM sys unit :=
  l ← gets (λ s, wait_list (sem s));
  if decide (w ∈ l)
  then modify (set_wait_list (filter (λ x, x ≠ w) l))
  else bug.

(** The element after [w] in the list. *)
Fixpoint list_next (w : nat) (l : list nat) : option nat :=
  match l with
  | [] => None
  | x :: l' => if decide (x = w) then head l' else list_next w l'
  end.

Definition list_empty (l : list nat) : bool :=
  match l with [] => true | _ :: _ => false end.

(** [list_entry(p, struct rwsem_waiter, list)] on a link that must be a waiter:
    reading through the list head itself is [Bug]. *)
Definition list_entry (p : option nat) : SM sys nat :=
  match p with
  | Some w => mret w
  | None => bug
  end.

Definition init_rwsem : rw_semaphore := mk_rwsem 0 None [].

(** ** Waking *)

(** [list_del(&waiter->list); tsk = waiter->task; mb();], up to the store that
    the waiter can see. *)
Definition take_waiter (t : nat) (h : option mode) (k : wake_kont) (w : nat) : SM sys unit :=
  list_del w;;
  wt ← get_waiter w;
  match task wt with
  | Some tsk => set_pc t (WakeNull k w tsk) h
  | None => bug
  end.

(** The end of an up call: release the spinlock and return. *)
Definition up_out (t : nat) (h : option mode) : SM sys unit :=
  spin_unlock;; set_pc t Run h.

(** The test of the loop that grants read locks, with its exit. *)
Definition wake_readers (t : nat) (h : option mode) (w : nat) (woken : Z) : SM sys unit :=
  wt ← get_waiter w;
  if negb (Z.land (flags wt) RWSEM_WAITING_FOR_READ =? 0) then
    l ← gets (λ s, wait_list (sem s));
    take_waiter t h (Loop woken (list_next w l)) w
  else
    modify (λ s, set_activity (sgn32 (activity (sem s) + woken)) s);;
    up_out t h.

Definition __rwsem_do_wake (t : nat) (h : option mode) (wakewrite : bool) : SM sys unit :=
  l ← gets (λ s, wait_list (sem s));
  w ← list_entry (head l);
  wt ← get_waiter w;
  let is_writer := negb (Z.land (flags wt) RWSEM_WAITING_FOR_WRITE =? 0) in
  if negb wakewrite then
    if is_writer then up_out t h else wake_readers t h w 0
  else if is_writer then
    modify (set_activity (-1));;
    take_waiter t h Last w
  else wake_readers t h w 0.

Definition __rwsem_wake_one_writer (t : nat) (h : option mode) : SM sys unit :=
  modify (set_activity (-1));;
  l ← gets (λ s, wait_list (sem s));
  w ← list_entry (head l);
  take_waiter t h Last w.

(** ** Taking the semaphore *)

(** The slow path of both down functions: queue a waiter, then wait. *)
Definition down_wait (t : nat) (m : mode) : SM sys unit :=
  set_task_state t TASK_UNINTERRUPTIBLE;;
  modify (λ s, set_waiters (<[t := mk_waiter (Some t) (mode_flag m)]> (waiters s)) s);;
  get_task_struct t;;
  modify (λ s, set_wait_list (wait_list (sem s) ++ [t]) s);;
  spin_unlock;;
  set_pc t (WaitTest m) None.

Definition __down_read (t : nat) : SM sys unit :=
  spin_lock t;;
  a ← gets (λ s, activity (sem s));
  l ← gets (λ s, wait_list (sem s));
  if (0 <=? a) && list_empty l then
    modify (set_activity (sgn32 (a + 1)));;
    spin_unlock;;
    set_pc t Run (Some Read)
  else down_wait t Read.

(** The trylock functions return 1 when the lock is taken, 0 on contention. *)
Definition __down_read_trylock (t : nat) : SM sys Z :=
  spin_lock t;;
  a ← gets (λ s, activity (sem s));
  l ← gets (λ s, wait_list (sem s));
  ret ← (if (0 <=? a) && list_empty l
         then modify (set_activity (sgn32 (a + 1)));; mret 1 else mret 0);
  spin_unlock;;
  mret ret.

Definition __down_write (t : nat) : SM sys unit :=
  spin_lock t;;
  a ← gets (λ s, activity (sem s));
  l ← gets (λ s, wait_list (sem s));
  if (a =? 0) && list_empty l then
    modify (set_activity (-1));;
    spin_unlock;;
    set_pc t Run (Some Write)
  else down_wait t Write.

Definition __down_write_trylock (t : nat) : SM sys Z :=
  spin_lock t;;
  a ← gets (λ s, activity (sem s));
  l ← gets (λ s, wait_list (sem s));
  ret ← (if (a =? 0) && list_empty l
         then modify (set_activity (-1));; mret 1 else mret 0);
  spin_unlock;;
  mret ret.

(** The caller of a trylock function holds the semaphore when it returns 1. *)
Definition try_result (t : nat) (m : mode) (ret : Z) : SM sys unit :=
  set_pc t Run (if ret =? 1 then Some m else None).

(** ** Releasing it *)

Definition __up_read (t : nat) : SM sys unit :=
  spin_lock t;;
  modify (λ s, set_activity (sgn32 (activity (sem s) - 1)) s);;
  a ← gets (λ s, activity (sem s));
  l ← gets (λ s, wait_list (sem s));
  if (a =? 0) && negb (list_empty l)
  then __rwsem_wake_one_writer t None
  else up_out t None.

Definition __up_write (t : nat) : SM sys unit :=
  spin_lock t;;
  modify (set_activity 0);;
  l ← gets (λ s, wait_list (sem s));
  if negb (list_empty l) then __rwsem_do_wake t None true else up_out t None.

Definition __downgrade_write (t : nat) : SM sys unit :=
  spin_lock t;;
  modify (set_activity 1);;
  l ← gets (λ s, wait_list (sem s));
  if negb (list_empty l)
  then __rwsem_do_wake t (Some Read) false else up_out t (Some Read).

(** ** The next piece of a call in progress *)

(** After [put_task_struct]: [goto out], or the rest of the loop body. *)
Definition wake_next (t : nat) (h : option mode) (k : wake_kont) : SM sys unit :=
  match k with
  | Last => up_out t h
  | Loop woken next =>
    let woken := sgn32 (woken + 1) in
    l ← gets (λ s, wait_list (sem s));
    if list_empty l then
      modify (λ s, set_activity (sgn32 (activity (sem s) + woken)) s);;
      up_out t h
    else
      w ← list_entry next;
      wake_readers t h w woken
  end.

Definition continue (t : nat) (c : pc) (h : option mode) : SM sys unit :=
  match c with
  | Run => mret tt
  | WaitTest m =>
    wt ← get_waiter t;
    match task wt with
    | None => set_pc t (WaitDone m) h
    | Some _ => set_pc t (WaitSched m) h
    end
  | WaitSched m => set_pc t (WaitSet m) h
  | WaitSet m => set_task_state t TASK_UNINTERRUPTIBLE;; set_pc t (WaitTest m) h
  | WaitDone m =>
    set_task_state t TASK_RUNNING;;
    modify (λ s, set_waiters (delete t (waiters s)) s);;
    set_pc t Run (Some m)
  | WakeNull k w tsk =>
    wt ← get_waiter w;
    modify (λ s, set_waiters (<[w := mk_waiter None (flags wt)]> (waiters s)) s);;
    set_pc t (WakeUp k tsk) h
  | WakeUp k tsk => wake_up_process tsk;; set_pc t (WakePut k tsk) h
  | WakePut k tsk => put_task_struct tsk;; wake_next t h k
  end.

(** ** Interleaving *)

Inductive call :=
| DownRead | DownReadTrylock | DownWrite | DownWriteTrylock
| UpRead | UpWrite | DowngradeWrite.

(** [Call]: a task enters a function; [Next]: a task inside one goes on;
    [Wakeup]: somebody else wakes a task; [Fork] and [Exit]: tasks come and go. *)
Inductive label :=
| Call (t : nat) (c : call)
| Next (t : nat)
| Wakeup (t : nat)
| Fork (t : nat)
| Exit (t : nat).

(** What a task must hold to make a call. *)
Definition call_needs (c : call) : option mode :=
  match c with
  | DownRead | DownReadTrylock | DownWrite | DownWriteTrylock => None
  | UpRead => Some Read
  | UpWrite | DowngradeWrite => Some Write
  end.

Definition do_call (t : nat) (c : call) : SM sys unit :=
  match c with
  | DownRead => __down_read t
  | DownReadTrylock => __down_read_trylock t ≫= try_result t Read
  | DownWrite => __down_write t
  | DownWriteTrylock => __down_write_trylock t ≫= try_result t Write
  | UpRead => __up_read t
  | UpWrite => __up_write t
  | DowngradeWrite => __downgrade_write t
  end.

(** The number of tasks is limited by the process identifiers (PID_MAX_LIMIT of
    include/linux/threads.h). *)
Definition PID_MAX_LIMIT : Z := 4 * 1024 * 1024.

(** A task blocks while the spinlock is taken, and in [schedule()] while its state
    is not [TASK_RUNNING]. *)
Definition enabled (l : label) (s : sys) : bool :=
  match l with
  | Call t c =>
    match threads s !! t with
    | Some (mk_thread Run h) =>
      bool_decide (h = call_needs c) && bool_decide (wait_lock (sem s) = None)
    | _ => false
    end
  | Next t =>
    match threads s !! t with
    | Some (mk_thread Run _) | None => false
    | Some (mk_thread (WaitSched _) _) =>
      match tasks s !! t with
      | Some p => state p =? TASK_RUNNING
      | None => true
      end
    | Some _ => true
    end
  | Wakeup t => bool_decide (is_Some (threads s !! t))
  | Fork t =>
    bool_decide (tasks s !! t = None) && (Z.of_nat (size (threads s)) <? PID_MAX_LIMIT)
  | Exit t =>
    match threads s !! t with
    | Some (mk_thread Run None) => true
    | _ => false
    end
  end.

Definition exec (l : label) : SM sys unit :=
  match l with
  | Call t c => do_call t c
  | Next t =>
    th ← gets (λ s, threads s !! t);
    match th with
    | Some (mk_thread c h) => continue t c h
    | None => bug
    end
  | Wakeup t => wake_up_process t
  | Fork t =>
    modify (λ s, set_tasks (<[t := mk_task TASK_RUNNING 1]> (tasks s)) s);;
    set_pc t Run None
  | Exit t =>
    modify (λ s, set_threads (delete t (threads s)) s);;
    put_task_struct t
  end.

Definition boot : sys := mk_sys init_rwsem ∅ ∅ ∅.

Inductive step : sys → sys → Prop :=
| step_exec l s s' : enabled l s = true → exec l s = (Ok tt, s') → step s s'.

(** A run of a list of labels, for concrete executions. *)
Fixpoint run (ls : list label) (s : sys) : outcome sys :=
  match ls with
  | [] => Ok s
  | l :: ls' =>
    if enabled l s then
      match exec l s with
      | (Ok _, s') => run ls' s'
      | _ => Bug
      end
    else Err EAGAIN
  end.

(** ** The specification: a fair read-write lock

    A queue of requests in order of arrival and the owners.  A request is granted
    when all earlier ones are and it is compatible with the owners. *)
Record rwlock := mk_rwlock {
  queue : list (nat * mode);
  owners : gmap nat mode;
}.

Definition compatible (m : mode) (o : gmap nat mode) : Prop :=
  match m with
  | Read => map_Forall (λ _ m', m' = Read) o
  | Write => o = ∅
  end.

(** What can happen to it.  Each step has one of these labels; which label a step
    carries says who asks, gets or gives back. *)
Inductive event :=
| Request (t : nat) (m : mode)
| Grant (t : nat) (m : mode)
| Release (t : nat)
| Downgrade (t : nat).

Inductive spec_step : event → rwlock → rwlock → Prop :=
| spec_request t m q o :
    o !! t = None → t ∉ q.*1 →
    spec_step (Request t m) (mk_rwlock q o) (mk_rwlock (q ++ [(t, m)]) o)
| spec_grant t m q o :
    o !! t = None → compatible m o →
    spec_step (Grant t m) (mk_rwlock ((t, m) :: q) o) (mk_rwlock q (<[t := m]> o))
| spec_release t q o :
    is_Some (o !! t) →
    spec_step (Release t) (mk_rwlock q o) (mk_rwlock q (delete t o))
| spec_downgrade t q o :
    o !! t = Some Write →
    spec_step (Downgrade t) (mk_rwlock q o) (mk_rwlock q (<[t := Read]> o)).

Fixpoint spec_run (es : list event) (r r' : rwlock) : Prop :=
  match es with
  | [] => r = r'
  | e :: es' => ∃ r1, spec_step e r r1 ∧ spec_run es' r1 r'
  end.

(** The requests and the grants of a history, in order. *)
Definition requests : list event → list (nat * mode) :=
  omap (λ e, match e with Request t m => Some (t, m) | _ => None end).
Definition grants : list event → list (nat * mode) :=
  omap (λ e, match e with Grant t m => Some (t, m) | _ => None end).

Definition is_grant (e : event) : Prop :=
  match e with Grant _ _ => True | _ => False end.

(** What a call asks of the lock. *)
Definition call_event (t : nat) (c : call) : event :=
  match c with
  | DownRead | DownReadTrylock => Request t Read
  | DownWrite | DownWriteTrylock => Request t Write
  | UpRead | UpWrite => Release t
  | DowngradeWrite => Downgrade t
  end.
Definition try_mode (c : call) : option mode :=
  match c with
  | DownReadTrylock => Some Read
  | DownWriteTrylock => Some Write
  | _ => None
  end.

(** The lock is free for mode [m] and nobody waits. *)
Definition free_for (m : mode) (r : rwlock) : Prop :=
  queue r = [] ∧ compatible m (owners r).

(** The events that a step of the code may stand for in a state of the lock.  A call
    is its own request, release or downgrade; after it, and in the steps of a call in
    progress, only grants can follow.  A trylock call gets the lock at once if it is
    free, and leaves no request otherwise. *)
Definition explains (r : rwlock) (l : label) (es : list event) : Prop :=
  match l with
  | Call t c =>
    match try_mode c with
    | Some m => (free_for m r ∧ es = [Request t m; Grant t m]) ∨ (¬ free_for m r ∧ es = [])
    | None => ∃ g, es = call_event t c :: g ∧ Forall is_grant g
    end
  | Next _ => Forall is_grant es
  | Wakeup _ | Fork _ | Exit _ => es = []
  end.

(** A history of the lock, cut into the pieces that the steps of the code stand for. *)
Fixpoint history (h : list (label * list event)) (r r' : rwlock) : Prop :=
  match h with
  | [] => r = r'
  | (l, es) :: h' => explains r l es ∧ ∃ r1, spec_run es r r1 ∧ history h' r1 r'
  end.

(** What a task waits for. *)
Definition wait_mode (c : pc) : option mode :=
  match c with
  | WaitTest m | WaitSched m | WaitSet m | WaitDone m => Some m
  | Run | WakeNull _ _ _ | WakeUp _ _ | WakePut _ _ => None
  end.

(** The specification state of a system: a waiter taken off the list owns the
    semaphore, whether it has noticed or not. *)
Definition owns (l : list nat) (t : nat) (th : thread) : option mode :=
  match wait_mode (at_pc th) with
  | Some m => if decide (t ∈ l) then None else Some m
  | None => held th
  end.

Definition request (ths : gmap nat thread) (t : nat) : nat * mode :=
  (t, default Read (ths !! t ≫= λ th, wait_mode (at_pc th))).

Definition abs (s : sys) : rwlock :=
  mk_rwlock (request (threads s) <$> wait_list (sem s))
            (map_imap (owns (wait_list (sem s))) (threads s)).

End Rwsem.
