(* ===== verification/RwsemFacts.v ===== *)
(** * Read-write semaphores: the invariant of a system of tasks

    [inv] describes every state that tasks using one semaphore can reach.  It has a
    part about each task alone ([view_ok]: program counter, waiter structure,
    reference count and pending wake-up fit together) and a part about the
    semaphore ([act_ok]: [activity] counts the owners, and nobody waits who could
    be granted).  [exec_good]: every enabled step keeps it, does not stop in [Bug],
    and is a sequence of steps of the specification. *)

From stdpp Require Import prelude numbers list gmap relations.
From Stdlib Require Import ZArith Lia.
From S2P Require Import Prelude Rwsem.

#[local] Set Default Goal Selector "!".
#[local] Open Scope Z_scope.

Module RwsemFacts.
Import Rwsem.

(** ** One task *)

Definition is_wake (c : pc) : bool :=
  match c with
  | WakeNull _ _ _ | WakeUp _ _ | WakePut _ _ => true
  | _ => false
  end.

(** The program counter of the holder of the spinlock; [Run] when it is free. *)
Definition waker (lk : option nat) (T : gmap nat thread) : pc :=
  match lk ≫= (T !!.) with
  | Some th => at_pc th
  | None => Run
  end.

(** What the waker still has to do for a task. *)
Inductive pending := PNone | PNull | PUp | PPut.

Definition pend (c : pc) (u : nat) : pending :=
  match c with
  | WakeNull _ _ x => if decide (x = u) then PNull else PNone
  | WakeUp _ x => if decide (x = u) then PUp else PNone
  | WakePut _ x => if decide (x = u) then PPut else PNone
  | _ => PNone
  end.

Definition b2z (b : bool) : Z := if b then 1 else 0.

(** References to a task: its own, its queued waiter's, the waker's. *)
Definition refs (th : option thread) (q : bool) (p : pending) : Z :=
  b2z (bool_decide (is_Some th)) + b2z q
  + match p with PNone => 0 | _ => 1 end.

Definition task_field (u : nat) (q : bool) (p : pending) : option nat :=
  match q, p with
  | true, _ | _, PNull => Some u
  | _, _ => None
  end.

Definition waiting_ok (u : nat) (c : pc) (m : mode) (h : option mode)
    (wt : option rwsem_waiter) (st : Z) (q : bool) (p : pending) : Prop :=
  h = None ∧ wt = Some (mk_waiter (task_field u q p) (mode_flag m)) ∧
  (q = true → p = PNone) ∧
  match c with
  | WaitDone _ => task_field u q p = None
  | WaitSched _ => task_field u q p = None → p = PUp ∨ st = TASK_RUNNING
  | _ => True
  end.

Definition quiet_ok (wt : option rwsem_waiter) (q : bool) (p : pending) : Prop :=
  wt = None ∧ q = false ∧ p ≠ PNull.

Definition view_ok (u : nat) (th : option thread) (wt : option rwsem_waiter)
    (tk : option task_struct) (q : bool) (p : pending) : Prop :=
  ∃ st, (st = TASK_RUNNING ∨ st = TASK_UNINTERRUPTIBLE) ∧
    tk = (if refs th q p =? 0 then None else Some (mk_task st (refs th q p))) ∧
    match th with
    | None => quiet_ok wt q p
    | Some (mk_thread c h) =>
      match wait_mode c with
      | Some m => waiting_ok u c m h wt st q p
      | None => quiet_ok wt q p
      end
    end.

Definition views_ok (s : sys) : Prop := ∀ u,
  view_ok u (threads s !! u) (waiters s !! u) (tasks s !! u)
    (bool_decide (u ∈ wait_list (sem s)))
    (pend (waker (wait_lock (sem s)) (threads s)) u).

(** ** The semaphore *)

(** Exactly the tasks inside the waking code hold the spinlock. *)
Definition lock_ok (lk : option nat) (T : gmap nat thread) : Prop :=
  (∀ t th, T !! t = Some th → is_wake (at_pc th) = true → lk = Some t) ∧
  (∀ t, lk = Some t → is_wake (waker lk T) = true).

(** [activity] counts readers, or is -1 for one writer. *)
Definition counts (a : Z) (o : gmap nat mode) : Prop :=
  (a = -1 ∧ ∃ t, o = {[t := Write]}) ∨
  (a = Z.of_nat (size o) ∧ map_Forall (λ _ m, m = Read) o).

(** No request could be granted. *)
Definition blocked (r : rwlock) : Prop :=
  ∀ t m q, queue r = (t, m) :: q → ¬ compatible m (owners r).

(** Inside the loop that grants read locks [woken] is still to be added. *)
Definition loop_ok (c : pc) (a : Z) (l : list nat) (r : rwlock) : Prop :=
  match c with
  | WakeNull (Loop n nx) _ _ | WakeUp (Loop n nx) _ | WakePut (Loop n nx) _ =>
    nx = head l ∧ (a + n + 1 = Z.of_nat (size (owners r)) ∧ 0 <= a ∧ 0 <= n) ∧
    map_Forall (λ _ m, m = Read) (owners r) ∧ owners r ≠ ∅
  | _ => counts a (owners r) ∧ blocked r
  end.

Definition null_ok (c : pc) : Prop :=
  match c with
  | WakeNull _ w x => w = x
  | _ => True
  end.

Definition sem_ok (s : sys) : Prop :=
  let c := waker (wait_lock (sem s)) (threads s) in
  lock_ok (wait_lock (sem s)) (threads s) ∧ NoDup (wait_list (sem s)) ∧
  null_ok c ∧ loop_ok c (activity (sem s)) (wait_list (sem s)) (abs s).

(** Few enough tasks for [activity] to count them. *)
Definition few (T : gmap nat thread) : Prop := Z.of_nat (size T) <= PID_MAX_LIMIT.

Definition inv (s : sys) : Prop := views_ok s ∧ sem_ok s ∧ few (threads s).

(** What a step from [s] establishes: the invariant, and that it stands for events of
    the specification as described by [P]. *)
Definition does (P : list event → Prop) (s s' : sys) : Prop :=
  inv s' ∧ ∃ es, P es ∧ spec_run es (abs s) (abs s').

(** Only grants. *)
Definition only_grants (r r' : rwlock) : Prop := ∃ es, Forall is_grant es ∧ spec_run es r r'.
Definition good (s s' : sys) : Prop := inv s' ∧ only_grants (abs s) (abs s').

(** Nothing that the specification sees. *)
Definition quiet (s s' : sys) : Prop := inv s' ∧ abs s' = abs s.

Lemma only_grants_refl r : only_grants r r.
Proof. by exists []. Qed.
Lemma only_grants_once t m r r' : spec_step (Grant t m) r r' → only_grants r r'.
Proof. intros H. exists [Grant t m]. split; [by repeat constructor|]. by exists r'. Qed.
Lemma quiet_good s s' : quiet s s' → good s s'.
Proof. intros [H E]. split; [done|]. rewrite E. apply only_grants_refl. Qed.

Lemma spec_run_app es es' r r1 r' : spec_run es r r1 → spec_run es' r1 r' → spec_run (es ++ es') r r'.
Proof.
  revert r. induction es as [|e es IH]; intros r; cbn; [by intros ->|].
  intros (r2 & Hs & Hr) Hr'. exists r2. split; [done|]. by apply IH.
Qed.

(** The lock serves requests in the order in which they come. *)
Lemma spec_run_order es r r' : spec_run es r r' →
  queue r ++ requests es = grants es ++ queue r'.
Proof.
  revert r. induction es as [|e es IH]; intros r; cbn; [intros ->; apply app_nil_r|].
  intros (r1 & Hs & Hr). specialize (IH _ Hr). destruct Hs; cbn in *; try done.
  - rewrite <- IH, <- app_assoc. done.
  - by rewrite <- IH.
Qed.

Lemma history_order h r r' : history h r r' →
  queue r ++ requests (concat h.*2) = grants (concat h.*2) ++ queue r'.
Proof.
  intros H. apply spec_run_order. revert r H. induction h as [|[l es] h IH]; intros r; [done|].
  intros (_ & r1 & Hs & Hh). cbn [fmap list_fmap concat]. eapply spec_run_app; [exact Hs|by apply IH].
Qed.

Lemma few_same T t th th' : T !! t = Some th → few T → few (<[t := th']> T).
Proof. intros Ht. unfold few. by rewrite map_size_insert_Some by (by eexists). Qed.

Lemma sgn32_small z : -1 <= z <= PID_MAX_LIMIT → sgn32 z = z.
Proof. change PID_MAX_LIMIT with 4194304. intros. unfold sgn32, wrap32. case_zb; zdm. Qed.

(** ** The specification state of a changed system *)

Definition qof (T : gmap nat thread) (l : list nat) : list (nat * mode) := request T <$> l.
Definition oof (T : gmap nat thread) (l : list nat) : gmap nat mode := map_imap (owns l) T.

Lemma qof_insert_same T l t th :
  (t ∈ l → (T !! t ≫= λ th, wait_mode (at_pc th)) = wait_mode (at_pc th)) →
  qof (<[t := th]> T) l = qof T l.
Proof.
  intros H. apply list_fmap_ext. intros i u Hu. unfold request. f_equal.
  apply list_elem_of_lookup_2 in Hu.
  destruct (decide (u = t)) as [->|].
  - rewrite lookup_insert_eq. cbn. by rewrite H.
  - by rewrite lookup_insert_ne.
Qed.

Lemma qof_delete T l t : t ∉ l → qof (delete t T) l = qof T l.
Proof.
  intros H. apply list_fmap_ext. intros i u Hu. unfold request. f_equal.
  apply list_elem_of_lookup_2 in Hu. rewrite lookup_delete_ne by congruence. done.
Qed.

Lemma qof_fst T l : (qof T l).*1 = l.
Proof. unfold qof, request. rewrite <- list_fmap_compose. cbn. apply list_fmap_id. Qed.

Lemma oof_lookup T l t : oof T l !! t = T !! t ≫= owns l t.
Proof. apply map_lookup_imap. Qed.

Lemma oof_insert_same T l t th th' :
  T !! t = Some th → owns l t th' = owns l t th → oof (<[t := th']> T) l = oof T l.
Proof.
  intros Ht Ho. apply map_eq. intros u. rewrite !oof_lookup.
  destruct (decide (u = t)) as [->|].
  - by rewrite lookup_insert_eq, Ht.
  - by rewrite lookup_insert_ne.
Qed.

Lemma oof_insert T l t th :
  oof (<[t := th]> T) l = match owns l t th with
                          | Some m => <[t := m]> (oof T l)
                          | None => delete t (oof T l)
                          end.
Proof. unfold oof. rewrite map_imap_insert. by destruct (owns l t th). Qed.

(** A waiter taken off the list becomes an owner. *)
Lemma oof_take T l w th m :
  T !! w = Some th → wait_mode (at_pc th) = Some m → w ∉ l →
  oof T l = <[w := m]> (oof T (w :: l)).
Proof.
  intros Hw Hm Hl. apply map_eq. intros u. destruct (decide (u = w)) as [->|].
  - rewrite lookup_insert_eq, oof_lookup, Hw. cbn. unfold owns. rewrite Hm.
    by rewrite decide_False.
  - rewrite lookup_insert_ne, !oof_lookup by done.
    destruct (T !! u) as [th'|]; [|done]. cbn. unfold owns.
    destruct (wait_mode (at_pc th')); [|done].
    destruct (decide (u ∈ l)), (decide (u ∈ w :: l)) as [Hin|Hin]; try done.
    + exfalso. apply Hin. by right.
    + apply elem_of_cons in Hin as [|]; done.
Qed.

(** A task that queues itself owns nothing. *)
Lemma oof_queue T l t m :
  oof T l !! t = None →
  oof (<[t := mk_thread (WaitTest m) None]> T) (l ++ [t]) = oof T l.
Proof.
  intros Ht. apply map_eq. intros u. destruct (decide (u = t)) as [->|].
  - rewrite Ht, oof_lookup, lookup_insert_eq. cbn. unfold owns. cbn.
    rewrite decide_True; [done|]. apply elem_of_app. right. by apply list_elem_of_singleton.
  - rewrite !oof_lookup, lookup_insert_ne by done.
    destruct (T !! u) as [th'|]; [|done]. cbn. unfold owns.
    destruct (wait_mode (at_pc th')); [|done].
    destruct (decide (u ∈ l)) as [H1|H1], (decide (u ∈ l ++ [t])) as [H2|H2]; try done.
    + exfalso. apply H2. apply elem_of_app. by left.
    + apply elem_of_app in H2 as [|H2]; [done|]. by apply list_elem_of_singleton in H2.
Qed.

Lemma qof_queue T l t m :
  t ∉ l →
  qof (<[t := mk_thread (WaitTest m) None]> T) (l ++ [t]) = qof T l ++ [(t, m)].
Proof.
  intros Ht. unfold qof. rewrite fmap_app. f_equal.
  - by apply qof_insert_same.
  - cbn. unfold request. by rewrite lookup_insert_eq.
Qed.

(** ** Owners and [activity] *)

Lemma counts_writer t : counts (-1) {[t := Write]}.
Proof. left. eauto. Qed.

Lemma blocked_writer q t : blocked (mk_rwlock q {[t := Write]}).
Proof.
  intros u m q' _ Hc. destruct m; cbn in Hc.
  - specialize (Hc t Write (lookup_singleton_eq _ _)). done.
  - by apply map_non_empty_singleton in Hc.
Qed.

Lemma counts_nonneg a o : counts a o → 0 <= a → a = Z.of_nat (size o) ∧ compatible Read o.
Proof. intros [[-> _]|H] Ha; [lia|done]. Qed.

Lemma counts_zero o : counts 0 o → o = ∅.
Proof.
  intros [[? _]|[H _]]; [done|]. apply map_size_empty_inv. lia.
Qed.

Lemma counts_release_reader a o t :
  counts a o → o !! t = Some Read → counts (a - 1) (delete t o).
Proof.
  intros [[-> [u ->]]|[-> Hr]] Ht.
  - apply lookup_singleton_Some in Ht as [_ ?]. done.
  - right. split.
    + rewrite map_size_delete_Some by eauto.
      assert (size o ≠ 0%nat); [|lia].
      intros H0. apply map_size_empty_inv in H0 as ->. done.
    + by apply map_Forall_delete.
Qed.

Lemma counts_is_writer a o t : counts a o → o !! t = Some Write → o = {[t := Write]}.
Proof.
  intros [[-> [u ->]]|[-> Hr]] Ht.
  - apply lookup_singleton_Some in Ht as [-> _]. done.
  - by specialize (Hr _ _ Ht).
Qed.

(** ** Steps of a task that waits *)

Lemma waker_ne lk T t th th' :
  lock_ok lk T → T !! t = Some th → is_wake (at_pc th) = false →
  waker lk (<[t := th']> T) = waker lk T.
Proof.
  intros [_ H2] Ht Hc. destruct lk as [o|]; [|done].
  unfold waker. cbn. destruct (decide (o = t)) as [->|].
  - specialize (H2 t eq_refl). unfold waker in H2. cbn in H2.
    rewrite Ht in H2. congruence.
  - by rewrite lookup_insert_ne.
Qed.

Lemma lock_ok_ne lk T t th th' :
  lock_ok lk T → T !! t = Some th → is_wake (at_pc th) = false →
  is_wake (at_pc th') = false → lock_ok lk (<[t := th']> T).
Proof.
  intros Hl Ht Hc Hc'. pose proof (waker_ne _ _ _ _ th' Hl Ht Hc) as Hw.
  destruct Hl as [H1 H2]. split.
  - intros u thu Hu Hk. destruct (decide (u = t)) as [->|].
    + rewrite lookup_insert_eq in Hu. injection Hu as <-. congruence.
    + rewrite lookup_insert_ne in Hu by done. eauto.
  - intros u Hu. rewrite Hw. eauto.
Qed.

(** A task outside the waking code changes its program counter, its own waiter and
    its own task structure. *)
Lemma other_step a lk l W K T t th c' h' W' K' :
  inv (mk_sys (mk_rwsem a lk l) W K T) →
  T !! t = Some th → is_wake (at_pc th) = false → is_wake c' = false →
  owns l t (mk_thread c' h') = owns l t th →
  (t ∈ l → wait_mode c' = wait_mode (at_pc th)) →
  (∀ u, u ≠ t → W' !! u = W !! u ∧ K' !! u = K !! u) →
  view_ok t (Some (mk_thread c' h')) (W' !! t) (K' !! t) (bool_decide (t ∈ l))
    (pend (waker lk T) t) →
  good (mk_sys (mk_rwsem a lk l) W K T)
       (mk_sys (mk_rwsem a lk l) W' K' (<[t := mk_thread c' h']> T)).
Proof.
  intros [Hv [(Hl & Hnd & Hn & Ha) Hfew]] Ht Hc Hc' Ho Hm Hf Hvt. cbn in *.
  pose proof (waker_ne _ _ _ _ (mk_thread c' h') Hl Ht Hc) as Hw.
  assert (abs (mk_sys (mk_rwsem a lk l) W' K' (<[t := mk_thread c' h']> T))
          = abs (mk_sys (mk_rwsem a lk l) W K T)) as Habs.
  { unfold abs. cbn. f_equal.
    - apply qof_insert_same. intros Hin. rewrite Ht. cbn. symmetry. by apply Hm.
    - by eapply oof_insert_same. }
  apply quiet_good. split; [|exact Habs]. split; [|split; [split; [|split; [done|]]|]].
  - intros u. cbn. rewrite Hw. destruct (decide (u = t)) as [->|Hu].
    + by rewrite lookup_insert_eq.
    + rewrite lookup_insert_ne by done. destruct (Hf u Hu) as [-> ->]. apply Hv.
  - cbn. by eapply lock_ok_ne.
  - cbn. rewrite Hw, Habs. done.
  - cbn. by eapply few_same.
Qed.

(** ** Steps of the waker inside one iteration *)

Definition kont (c : pc) : option wake_kont :=
  match c with
  | WakeNull k _ _ | WakeUp k _ | WakePut k _ => Some k
  | _ => None
  end.

Lemma loop_ok_kont c c' a l r : kont c = kont c' → loop_ok c a l r → loop_ok c' a l r.
Proof. destruct c, c'; cbn; intros [=]; subst; done. Qed.

Lemma waker_step a t l W K T c c' h W' K' x :
  inv (mk_sys (mk_rwsem a (Some t) l) W K T) →
  T !! t = Some (mk_thread c h) → is_Some (kont c) → kont c' = kont c → null_ok c' →
  (∀ u, u ≠ x → W' !! u = W !! u ∧ K' !! u = K !! u ∧ pend c' u = pend c u) →
  (view_ok x (T !! x) (W !! x) (K !! x) (bool_decide (x ∈ l)) (pend c x) →
   (x = t → view_ok x (Some (mk_thread c' h)) (W' !! x) (K' !! x)
              (bool_decide (x ∈ l)) (pend c' x)) ∧
   (x ≠ t → view_ok x (T !! x) (W' !! x) (K' !! x) (bool_decide (x ∈ l)) (pend c' x))) →
  good (mk_sys (mk_rwsem a (Some t) l) W K T)
       (mk_sys (mk_rwsem a (Some t) l) W' K' (<[t := mk_thread c' h]> T)).
Proof.
  intros [Hv [(Hl & Hnd & Hn & Ha) Hfew]] Ht Hk Hk' Hn' Hf Hx. unfold views_ok in Hv. cbn in *.
  assert (wait_mode c = None ∧ wait_mode c' = None) as [Hm Hm'].
  { destruct Hk as [k Hk]. rewrite Hk in Hk'. by destruct c, c'. }
  assert (waker (Some t) T = c) as Hw by (unfold waker; cbn; by rewrite Ht).
  assert (waker (Some t) (<[t := mk_thread c' h]> T) = c') as Hw'.
  { unfold waker. cbn. by rewrite lookup_insert_eq. }
  rewrite Hw in *.
  assert (t ∉ l) as Htl.
  { destruct (Hv t) as (st & _ & _ & H). rewrite Ht, Hm in H.
    destruct H as (_ & H & _). by apply bool_decide_eq_false in H. }
  assert (abs (mk_sys (mk_rwsem a (Some t) l) W' K' (<[t := mk_thread c' h]> T))
          = abs (mk_sys (mk_rwsem a (Some t) l) W K T)) as Habs.
  { unfold abs. cbn. f_equal.
    - by apply qof_insert_same.
    - eapply oof_insert_same; [done|]. unfold owns. cbn. by rewrite Hm, Hm'. }
  apply quiet_good. split; [|exact Habs]. split; [|split; [split; [|split; [done|]]|]].
  - intros u. cbn. rewrite Hw'. destruct (Hx (Hv x)) as [Hx1 Hx2].
    destruct (decide (u = t)) as [->|Hut].
    + rewrite lookup_insert_eq. destruct (decide (t = x)) as [->|Htx]; [by apply Hx1|].
      destruct (Hf t Htx) as (-> & -> & ->). specialize (Hv t). rewrite Ht in Hv.
      unfold view_ok in *. rewrite Hm' . rewrite Hm in Hv. exact Hv.
    + rewrite lookup_insert_ne by done. destruct (decide (u = x)) as [->|Hux].
      * by apply Hx2.
      * destruct (Hf u Hux) as (-> & -> & ->). apply Hv.
  - cbn. split.
    + intros u thu Hu Hku. destruct (decide (u = t)) as [->|]; [done|].
      rewrite lookup_insert_ne in Hu by done. by eapply Hl.
    + intros _ _. rewrite Hw'. destruct Hk as [k Hk]. rewrite Hk in Hk'. by destruct c'.
  - cbn. rewrite Hw', Habs. split; [done|]. by eapply loop_ok_kont.
  - cbn. by eapply few_same.
Qed.

(** ** States without a pending wake-up

    [core]: the invariant less what it says of [activity], for a system in which no
    task is inside the waking code. *)
Definition core (l : list nat) (W : gmap nat rwsem_waiter) (K : gmap nat task_struct)
    (T : gmap nat thread) : Prop :=
  (∀ u, view_ok u (T !! u) (W !! u) (K !! u) (bool_decide (u ∈ l)) PNone) ∧
  (∀ u th, T !! u = Some th → is_wake (at_pc th) = false) ∧ NoDup l ∧ few T.

Definition aof (T : gmap nat thread) (l : list nat) : rwlock := mk_rwlock (qof T l) (oof T l).

Lemma inv_free a l W K T :
  inv (mk_sys (mk_rwsem a None l) W K T) ↔
  core l W K T ∧ counts a (oof T l) ∧ blocked (aof T l).
Proof.
  unfold inv, core, views_ok, sem_ok, lock_ok. cbn. split.
  - intros (Hv & ((Hl & _) & Hnd & _ & Hc & Hb) & Hfew). split_and!; try done.
    intros u th Hu. destruct (is_wake (at_pc th)) eqn:E; [|done]. by specialize (Hl _ _ Hu E).
  - intros ((Hv & Hl & Hnd & Hfew) & Hc & Hb). split_and!; try done.
    intros u th Hu E. specialize (Hl _ _ Hu). congruence.
Qed.

Lemma oof_size T l : (size (oof T l) <= size T)%nat.
Proof.
  rewrite <- !size_dom. apply subseteq_size. intros t [m Ht]%elem_of_dom. rewrite oof_lookup in Ht.
  destruct (T !! t) eqn:E; [|done]. by apply elem_of_dom_2 in E.
Qed.

Lemma core_small l W K T : core l W K T → Z.of_nat (size (oof T l)) <= PID_MAX_LIMIT.
Proof. intros (_ & _ & _ & Hf). pose proof (oof_size T l). unfold few in Hf. lia. Qed.

Lemma core_quiet l W K T t c h :
  core l W K T → T !! t = Some (mk_thread c h) → wait_mode c = None → t ∉ l.
Proof.
  intros (Hv & _) Ht Hc. destruct (Hv t) as (st & _ & _ & H). rewrite Ht, Hc in H.
  destruct H as (_ & H & _). by apply bool_decide_eq_false in H.
Qed.

Lemma core_set l W K T t h h' :
  core l W K T → T !! t = Some (mk_thread Run h) → core l W K (<[t := mk_thread Run h']> T).
Proof.
  intros (Hv & Hl & Hnd & Hfew) Ht. split_and!; [| |done|by eapply few_same].
  - intros u. destruct (decide (u = t)) as [->|].
    + rewrite lookup_insert_eq. specialize (Hv t). rewrite Ht in Hv. exact Hv.
    + rewrite lookup_insert_ne by done. apply Hv.
  - intros u th Hu. destruct (decide (u = t)) as [->|].
    + rewrite lookup_insert_eq in Hu. by injection Hu as <-.
    + rewrite lookup_insert_ne in Hu by done. eauto.
Qed.

Lemma core_head w l W K T :
  core (w :: l) W K T →
  ∃ c m, T !! w = Some (mk_thread c None) ∧ wait_mode c = Some m ∧
    W !! w = Some (mk_waiter (Some w) (mode_flag m)) ∧ w ∉ l.
Proof.
  intros (Hv & _ & Hnd & _). apply NoDup_cons in Hnd as [Hw _].
  destruct (Hv w) as (st & _ & _ & H).
  rewrite bool_decide_eq_true_2 in H by (by left).
  destruct (T !! w) as [[c h]|]; [|by destruct H as (_ & H & _)].
  destruct (wait_mode c) as [m|] eqn:Hm; [|by destruct H as (_ & H & _)].
  destruct H as (-> & -> & _). eauto 10.
Qed.

(** The waker takes the head of the list. *)
Lemma take_good a k w l W K T t h c m :
  core (w :: l) W K T → T !! t = Some (mk_thread Run h) →
  T !! w = Some (mk_thread c None) → wait_mode c = Some m →
  compatible m (oof T (w :: l)) →
  loop_ok (WakeNull k w w) a l (mk_rwlock (qof T l) (<[w := m]> (oof T (w :: l)))) →
  let s' := mk_sys (mk_rwsem a (Some t) l) W K
              (<[t := mk_thread (WakeNull k w w) h]> T) in
  inv s' ∧ only_grants (aof T (w :: l)) (abs s').
Proof.
  intros Hcore Ht Hw Hm Hcomp Hloop s'.
  pose proof (core_quiet _ _ _ _ _ _ _ Hcore Ht eq_refl) as Htl.
  apply not_elem_of_cons in Htl as [Htw Htl].
  destruct Hcore as (Hv & Hl & Hnd & Hfew). apply NoDup_cons in Hnd as [Hwl Hnd].
  assert (waker (Some t) (threads s') = WakeNull k w w) as Hwk.
  { unfold waker. cbn. by rewrite lookup_insert_eq. }
  assert (abs s' = mk_rwlock (qof T l) (<[w := m]> (oof T (w :: l)))) as Habs.
  { unfold abs, s'. cbn. f_equal.
    - by apply qof_insert_same.
    - transitivity (oof T l); [|by eapply oof_take].
      eapply oof_insert_same; [exact Ht|]. done. }
  split.
  - split; [|split; [split; [|split; [done|]]|]]; cbn -[abs].
    + intros u. cbn. unfold s' in Hwk. cbn in Hwk. rewrite Hwk. cbn.
      specialize (Hv u). destruct (decide (u = t)) as [->|Hut].
      * rewrite lookup_insert_eq, decide_False by done. rewrite Ht in Hv.
        rewrite bool_decide_eq_false_2 in Hv by (by apply not_elem_of_cons).
        by rewrite bool_decide_eq_false_2 by done.
      * rewrite lookup_insert_ne by done. destruct (decide (w = u)) as [<-|Hwu].
        -- rewrite bool_decide_eq_true_2 in Hv by (by left).
           rewrite bool_decide_eq_false_2 by done. rewrite Hw in *.
           destruct Hv as (st & Hst & Hk & H). exists st.
           split; [done|]. split; [done|]. rewrite Hm in *.
           destruct H as (_ & HW & _ & Hc). unfold waiting_ok. cbn in *.
           split_and!; try done. by destruct c.
        -- replace (bool_decide (u ∈ l)) with (bool_decide (u ∈ w :: l)); [done|].
           apply bool_decide_ext. rewrite elem_of_cons. by split; [intros [->|]|right].
    + split.
      * intros u th Hu Hk. destruct (decide (u = t)) as [->|]; [done|].
        rewrite lookup_insert_ne in Hu by done. specialize (Hl _ _ Hu). congruence.
      * intros _ _. unfold s' in Hwk. cbn in Hwk. by rewrite Hwk.
    + unfold s' in Hwk. cbn in Hwk. rewrite Hwk, Habs. done.
    + by eapply few_same.
  - rewrite Habs. eapply only_grants_once. unfold aof, qof. cbn.
    replace (request T w) with (w, m) by (unfold request; rewrite Hw; cbn; by rewrite Hm).
    apply spec_grant; [|done]. rewrite oof_lookup, Hw. cbn. unfold owns. cbn. rewrite Hm.
    rewrite decide_True; [done|]. by left.
Qed.

End RwsemFacts.
