(* ===== verification/RwsemSteps.v ===== *)
(** * Read-write semaphores: every step is safe

    Symbolic execution of the code of Rwsem.v against the invariant of
    RwsemFacts.v, one lemma per function, ending in [exec_good]. *)

From stdpp Require Import prelude numbers list gmap relations.
From Stdlib Require Import ZArith Lia.
From S2P Require Import Prelude Rwsem RwsemFacts.

#[local] Set Default Goal Selector "!".
#[local] Open Scope Z_scope.

Module RwsemSteps.
Import Rwsem RwsemFacts.

Definition none_err : Z → sys → Prop := λ _ _, False.

Lemma wp_get_waiter w x (Φ : rwsem_waiter → sys → Prop) Ψ s :
  waiters s !! w = Some x → Φ x s → wp (get_waiter w) Φ Ψ s.
Proof. intros H. unfold wp, get_waiter. by rewrite H. Qed.

Lemma wp_rw_get_task t x (Φ : task_struct → sys → Prop) Ψ s :
  tasks s !! t = Some x → Φ x s → wp (get_task t) Φ Ψ s.
Proof. intros H. unfold wp, get_task. by rewrite H. Qed.

Lemma wp_spin_lock t (Φ : unit → sys → Prop) Ψ s :
  wait_lock (sem s) = None → Φ tt (set_wait_lock (Some t) s) → wp (spin_lock t) Φ Ψ s.
Proof. intros H. unfold wp, spin_lock. by rewrite H. Qed.

(** ** Waking *)

Lemma filter_head (w : nat) (l : list nat) : w ∉ l → filter (λ x, x ≠ w) (w :: l) = l.
Proof.
  intros H. rewrite filter_cons_False by (intros ?; done).
  apply list_filter_all. apply Forall_forall. intros x Hx ->. done.
Qed.

Lemma wp_take_waiter t h k w f a l W K T (Φ : unit → sys → Prop) :
  w ∉ l → W !! w = Some (mk_waiter (Some w) f) →
  Φ tt (mk_sys (mk_rwsem a (Some t) l) W K (<[t := mk_thread (WakeNull k w w) h]> T)) →
  wp (take_waiter t h k w) Φ none_err (mk_sys (mk_rwsem a (Some t) (w :: l)) W K T).
Proof.
  intros Hw HW HΦ. unfold take_waiter, list_del. apply wp_bind, wp_bind, wp_gets.
  cbn [sem wait_list]. rewrite decide_True by (by left). rewrite filter_head by done.
  apply wp_modify. eapply wp_bind, wp_get_waiter; [exact HW|]. exact HΦ.
Qed.

(** The loop that grants read locks, entered with the list not empty: [T0] is the
    table of tasks with the waker still somewhere in the code. *)
Lemma wake_readers_good t h woken a w l W K T0 :
  let T := <[t := mk_thread Run h]> T0 in
  core (w :: l) W K T →
  a + woken = Z.of_nat (size (oof T (w :: l))) ∧ 0 <= a ∧ 0 <= woken →
  compatible Read (oof T (w :: l)) →
  (oof T (w :: l) = ∅ → request T w = (w, Read)) →
  wp (wake_readers t h w woken)
    (λ _ s', inv s' ∧ only_grants (aof T (w :: l)) (abs s')) none_err
    (mk_sys (mk_rwsem a (Some t) (w :: l)) W K T0).
Proof.
  intros T Hcore (Ha & Ha0 & Hw0) Hr He. pose proof (core_small _ _ _ _ Hcore) as Hsmall.
  destruct (core_head _ _ _ _ _ Hcore) as (c & m & Hw & Hm & HW & Hwl).
  assert (T !! t = Some (mk_thread Run h)) as Ht by (unfold T; apply lookup_insert_eq).
  assert (oof T (w :: l) !! w = None) as Hno.
  { rewrite oof_lookup, Hw. cbn. unfold owns. cbn. rewrite Hm.
    rewrite decide_True; [done|]. by left. }
  unfold wake_readers. eapply wp_bind, wp_get_waiter; [exact HW|]. cbn [flags].
  destruct m; cbn.
  - apply wp_bind, wp_gets. cbn. rewrite decide_True by done.
    eapply wp_take_waiter; [done..|]. unfold T in *. clear T.
    rewrite <- (insert_insert_eq T0 t _ (mk_thread Run h)).
    eapply take_good; [done..|]. cbn.
    split_and!; [done| |done|done| |apply insert_non_empty].
    + rewrite map_size_insert_None, Nat2Z.inj_succ by done. rewrite <- Ha. lia.
    + by apply map_Forall_insert.
  - apply wp_bind, wp_modify. unfold up_out. apply wp_bind, wp_modify, wp_modify. cbn -[abs].
    unfold set_wait_lock, set_activity, set_threads. cbn -[abs].
    rewrite sgn32_small by (fold T in Hsmall; lia).
    change (abs _) with (aof T (w :: l)). split; [|apply only_grants_refl].
    apply inv_free. split; [done|]. split; [right; by split|].
    intros u m' q Hq Hc. cbn in Hq. fold T in Hq. unfold request in Hq at 1. rewrite Hw in Hq. cbn in Hq.
    rewrite Hm in Hq. injection Hq as <- <- <-. cbn in Hc.
    specialize (He Hc). unfold request in He. rewrite Hw in He. cbn in He.
    rewrite Hm in He. done.
Qed.

(** Granting the semaphore to the writer at the head. *)
Lemma wake_writer_good t h w l W K T0 :
  let T := <[t := mk_thread Run h]> T0 in
  core (w :: l) W K T → oof T (w :: l) = ∅ → request T w = (w, Write) →
  wp (take_waiter t h Last w)
    (λ _ s', inv s' ∧ only_grants (aof T (w :: l)) (abs s')) none_err
    (mk_sys (mk_rwsem (-1) (Some t) (w :: l)) W K T0).
Proof.
  intros T Hcore He Hq.
  destruct (core_head _ _ _ _ _ Hcore) as (c & m & Hw & Hm & HW & Hwl).
  assert (m = Write) as ->.
  { unfold request in Hq. rewrite Hw in Hq. cbn in Hq. rewrite Hm in Hq. by injection Hq. }
  eapply wp_take_waiter; [done..|]. unfold T in *. clear T.
  rewrite <- (insert_insert_eq T0 t _ (mk_thread Run h)).
  eapply take_good; [done|apply lookup_insert_eq|done..|]. cbn. rewrite He.
  split; [apply counts_writer|]. apply blocked_writer.
Qed.

(** What [__rwsem_do_wake] does with the head of the list: with no owner left it
    grants it, with readers only if it is a reader. *)
Lemma do_wake_good t h (wakewrite : bool) a w l W K T0 :
  let T := <[t := mk_thread Run h]> T0 in
  core (w :: l) W K T →
  (if wakewrite then a = 0 ∧ oof T (w :: l) = ∅
   else a = Z.of_nat (size (oof T (w :: l))) ∧ 0 < a ∧ compatible Read (oof T (w :: l))) →
  wp (__rwsem_do_wake t h wakewrite)
    (λ _ s', inv s' ∧ only_grants (aof T (w :: l)) (abs s')) none_err
    (mk_sys (mk_rwsem a (Some t) (w :: l)) W K T0).
Proof.
  intros T Hcore Ha.
  destruct (core_head _ _ _ _ _ Hcore) as (c & m & Hw & Hm & HW & Hwl).
  assert (request T w = (w, m)) as Hq by (unfold request; rewrite Hw; cbn; by rewrite Hm).
  unfold __rwsem_do_wake. apply wp_bind, wp_gets. cbn [sem wait_list head].
  apply wp_bind, wp_ret. eapply wp_bind, wp_get_waiter; [exact HW|].
  cbn [flags]. destruct wakewrite, m; cbn -[abs].
  - destruct Ha as [-> He]. apply wake_readers_good; [done|..|done].
    + fold T. rewrite He. by rewrite map_size_empty.
    + fold T. rewrite He. apply map_Forall_empty.
  - destruct Ha as [-> He]. apply wp_bind, wp_modify. by apply wake_writer_good.
  - destruct Ha as (Ha & _ & Hr). apply wake_readers_good; [done|fold T; split_and!; lia|done|].
    intros _. exact Hq.
  - destruct Ha as (Ha & Hpos & Hr). unfold up_out.
    apply wp_bind, wp_modify, wp_modify. unfold set_wait_lock, set_threads. cbn -[abs].
    change (abs _) with (aof T (w :: l)). split; [|apply only_grants_refl].
    apply inv_free. split; [done|]. split; [by right|].
    intros u m' q Hq' Hc. cbn in Hq'. fold T in Hq'. rewrite Hq in Hq'.
    injection Hq' as <- <- <-. cbn in Hc. fold T in Hc. rewrite Hc in Ha. subst a. by cbn in Hpos.
Qed.

(** The end of an up call that wakes nobody. *)
Lemma up_out_good t h a lk l W K T0 :
  let T := <[t := mk_thread Run h]> T0 in
  core l W K T → counts a (oof T l) → blocked (aof T l) →
  wp (up_out t h) (λ _ s', inv s' ∧ only_grants (aof T l) (abs s')) none_err
    (mk_sys (mk_rwsem a lk l) W K T0).
Proof.
  intros T Hcore Hc Hb. unfold up_out. apply wp_bind, wp_modify, wp_modify.
  unfold set_wait_lock, set_threads. cbn -[abs]. split; [|apply only_grants_refl].
  by apply inv_free.
Qed.

(** After [wake_up_process] the waker gives its reference back. *)
Lemma core_give_back a t l W K T k x h :
  inv (mk_sys (mk_rwsem a (Some t) l) W K T) →
  T !! t = Some (mk_thread (WakePut k x) h) →
  ∃ p, K !! x = Some p ∧
    core l W (if usage p =? 1 then delete x K
              else <[x := mk_task (state p) (usage p - 1)]> K)
         (<[t := mk_thread Run h]> T).
Proof.
  intros [Hv [(Hl & Hnd & _) Hfew]] Ht. unfold views_ok in Hv. cbn in *.
  assert (waker (Some t) T = WakePut k x) as Hw by (unfold waker; cbn; by rewrite Ht).
  rewrite Hw in Hv. cbn in Hv.
  assert (∀ u, view_ok u (<[t := mk_thread Run h]> T !! u) (W !! u) (K !! u)
                 (bool_decide (u ∈ l)) (if decide (x = u) then PPut else PNone)) as Hv'.
  { intros u. destruct (decide (u = t)) as [->|].
    - rewrite lookup_insert_eq. specialize (Hv t). rewrite Ht in Hv. exact Hv.
    - rewrite lookup_insert_ne by done. apply Hv. }
  destruct (Hv' x) as (st & Hst & HK & Hx). rewrite decide_True in HK, Hx by done.
  set (T1 := <[t := mk_thread Run h]> T) in *.
  set (q := bool_decide (x ∈ l)) in *.
  assert (refs (T1 !! x) q PPut = refs (T1 !! x) q PNone + 1) as Hr by (unfold refs; lia).
  assert (0 <= refs (T1 !! x) q PNone) as Hr0.
  { unfold refs, b2z. destruct q; case_bool_decide; lia. }
  rewrite Hr in HK. destruct (Z.eqb_spec (refs (T1 !! x) q PNone + 1) 0); [lia|].
  eexists. split; [exact HK|]. cbn [usage state]. split; [|split; [|split; [done|by eapply few_same]]].
  - intros u. destruct (decide (u = x)) as [->|Hux].
    + exists st. split; [done|]. split.
      * fold q. destruct (Z.eqb_spec (refs (T1 !! x) q PNone + 1) 1),
          (Z.eqb_spec (refs (T1 !! x) q PNone) 0); try lia.
        -- by rewrite lookup_delete_eq.
        -- rewrite lookup_insert_eq. do 2 f_equal. lia.
      * fold q. destruct (T1 !! x) as [[c h']|]; [destruct (wait_mode c)|].
        -- destruct Hx as (-> & -> & Hq & Hc). destruct q; [by specialize (Hq eq_refl)|].
           split_and!; try done. destruct c; try done. intros _. right.
           by destruct (Hc eq_refl).
        -- unfold quiet_ok in *. by destruct Hx as (-> & -> & _).
        -- unfold quiet_ok in *. by destruct Hx as (-> & -> & _).
    + specialize (Hv' u). rewrite decide_False in Hv' by done.
      destruct (_ =? 1); [rewrite lookup_delete_ne by done|rewrite lookup_insert_ne by done];
        exact Hv'.
  - intros u th Hu. destruct (is_wake (at_pc th)) eqn:E; [|done]. unfold T1 in Hu.
    destruct (decide (u = t)) as [->|].
    + rewrite lookup_insert_eq in Hu. injection Hu as <-. done.
    + rewrite lookup_insert_ne in Hu by done. destruct Hl as [Hl _].
      specialize (Hl _ _ Hu E). congruence.
Qed.

Lemma wp_put_task_struct x p (Φ : unit → sys → Prop) s :
  tasks s !! x = Some p →
  Φ tt (set_tasks (if usage p =? 1 then delete x (tasks s)
                   else <[x := mk_task (state p) (usage p - 1)]> (tasks s)) s) →
  wp (put_task_struct x) Φ none_err s.
Proof.
  intros Hp HΦ. unfold put_task_struct. eapply wp_bind, wp_rw_get_task; [exact Hp|].
  destruct (usage p =? 1); by apply wp_modify.
Qed.

(** The waker's last step for one waiter. *)
Lemma wake_put_good t k x h a l W K T :
  inv (mk_sys (mk_rwsem a (Some t) l) W K T) →
  T !! t = Some (mk_thread (WakePut k x) h) →
  wp (continue t (WakePut k x) h) (λ _, good (mk_sys (mk_rwsem a (Some t) l) W K T))
    none_err (mk_sys (mk_rwsem a (Some t) l) W K T).
Proof.
  intros Hinv Ht. destruct (core_give_back _ _ _ _ _ _ _ _ _ Hinv Ht) as (p & HK & Hcore).
  destruct Hinv as [_ [(_ & _ & _ & Hloop) _]]. cbn in Hloop.
  assert (waker (Some t) T = WakePut k x) as Hw by (unfold waker; cbn; by rewrite Ht).
  rewrite Hw in Hloop. cbn [continue]. eapply wp_bind, wp_put_task_struct; [exact HK|].
  cbn [tasks]. unfold set_tasks. cbn [sem waiters threads].
  set (K' := if usage p =? 1 then _ else _) in *. clearbody K'. clear HK Hw.
  assert (t ∉ l) as Htl.
  { eapply core_quiet; [exact Hcore|apply lookup_insert_eq|done]. }
  assert (aof (<[t := mk_thread Run h]> T) l = abs (mk_sys (mk_rwsem a (Some t) l) W K T))
    as Habs.
  { unfold aof, abs. cbn. f_equal; [by apply qof_insert_same|]. by eapply oof_insert_same. }
  unfold good. rewrite <- Habs. rewrite <- Habs in Hloop. clear Habs.
  destruct k as [|n nx]; cbn [wake_next].
  - destruct Hloop as [Hc Hb]. by apply up_out_good.
  - destruct Hloop as (-> & (Ha & Ha0 & Hn0) & Hr & Hne). cbn [aof owners] in Ha, Hr, Hne.
    pose proof (core_small _ _ _ _ Hcore) as Hsmall. rewrite !sgn32_small by lia.
    apply wp_bind, wp_gets. cbn [sem wait_list].
    destruct l as [|w l']; cbn [list_empty head list_entry].
    + apply wp_bind, wp_modify. apply up_out_good; [done| |done].
      right. split; [|done]. cbn. rewrite sgn32_small; lia.
    + apply wp_bind, wp_ret. apply wake_readers_good; [done|split_and!; lia|done|done].
Qed.

Lemma decide_ne_pend (x u : nat) (p q : pending) :
  u ≠ x → (if decide (x = u) then p else PNone) = (if decide (x = u) then q else PNone).
Proof. intros H. by rewrite !decide_False. Qed.

(** [waiter->task = NULL] *)
Lemma wake_null_good t k w x h a l W K T :
  inv (mk_sys (mk_rwsem a (Some t) l) W K T) →
  T !! t = Some (mk_thread (WakeNull k w x) h) →
  wp (continue t (WakeNull k w x) h) (λ _, good (mk_sys (mk_rwsem a (Some t) l) W K T))
    none_err (mk_sys (mk_rwsem a (Some t) l) W K T).
Proof.
  intros Hinv Ht. pose proof Hinv as [Hv [(_ & _ & Hn & _) _]]. cbn in Hn.
  assert (waker (Some t) T = WakeNull k w x) as Hw by (unfold waker; cbn; by rewrite Ht).
  rewrite Hw in Hn. cbn in Hn. subst w.
  specialize (Hv x). cbn in Hv. rewrite Hw in Hv. cbn in Hv. rewrite decide_True in Hv by done.
  destruct Hv as (st & Hst & HK & Hx).
  destruct (T !! x) as [[c hx]|] eqn:HT; [|by destruct Hx as (_ & _ & [])].
  destruct (wait_mode c) as [m|] eqn:Hm; [|by destruct Hx as (_ & _ & [])].
  destruct Hx as (-> & HW & Hq & Hc).
  destruct (bool_decide (x ∈ l)) eqn:Hql; [by specialize (Hq eq_refl)|].
  cbn [continue]. eapply wp_bind, wp_get_waiter; [exact HW|].
  apply wp_bind, wp_modify, wp_modify. unfold set_threads, set_waiters. cbn -[good].
  eapply waker_step; [exact Hinv|exact Ht|by eexists|done|done| |].
  - intros u Hu. rewrite lookup_insert_ne by done. split_and!; [done|done|].
    by apply decide_ne_pend.
  - intros _. split; [intros ->; rewrite Ht in HT; by injection HT as ? ?; subst c|]. intros Hxt.
    rewrite lookup_insert_eq, HT, Hql. cbn. rewrite decide_True by done.
    exists st. split_and!; [done|done|]. rewrite Hm. split_and!; try done.
    destruct c; try done. intros _. by left.
Qed.

Lemma wp_wake_up_process x st n (Φ : unit → sys → Prop) s :
  tasks s !! x = Some (mk_task st n) → st = TASK_RUNNING ∨ st = TASK_UNINTERRUPTIBLE →
  Φ tt (set_tasks (<[x := mk_task TASK_RUNNING n]> (tasks s)) s) →
  wp (wake_up_process x) Φ none_err s.
Proof.
  intros Hp Hst HΦ. unfold wake_up_process, set_task_state.
  eapply wp_bind, wp_rw_get_task; [exact Hp|]. cbn [state].
  destruct Hst as [-> | ->].
  - cbn. apply wp_ret. rewrite insert_id in HΦ by done. by destruct s.
  - cbn. eapply wp_bind, wp_rw_get_task; [exact Hp|]. by apply wp_modify.
Qed.

(** Setting the state of a task that is not about to sleep, or to running. *)
Lemma view_running u th wt K q p :
  view_ok u th wt K q p → p ≠ PNone ∨ is_Some th →
  ∃ st n, K = Some (mk_task st n) ∧ (st = TASK_RUNNING ∨ st = TASK_UNINTERRUPTIBLE) ∧
    view_ok u th wt (Some (mk_task TASK_RUNNING n)) q p.
Proof.
  intros (st & Hst & HK & H) Hp.
  assert ((refs th q p =? 0) = false) as Hr.
  { apply Z.eqb_neq. unfold refs, b2z. destruct Hp as [Hp|[y ->]].
    - destruct p; [done|..]; destruct q, (bool_decide _); lia.
    - rewrite bool_decide_eq_true_2 by eauto. destruct q, p; lia. }
  rewrite Hr in HK. exists st, (refs th q p). split; [done|]. split; [done|].
  exists TASK_RUNNING. rewrite Hr. split; [by left|]. split; [done|].
  destruct th as [[c h]|]; [|done]. destruct (wait_mode c); [|done].
  destruct H as (? & ? & ? & Hc). split_and!; try done. destruct c; try done. by right.
Qed.

(** [wake_up_process(tsk)] *)
Lemma wake_up_good t k x h a l W K T :
  inv (mk_sys (mk_rwsem a (Some t) l) W K T) →
  T !! t = Some (mk_thread (WakeUp k x) h) →
  wp (continue t (WakeUp k x) h) (λ _, good (mk_sys (mk_rwsem a (Some t) l) W K T))
    none_err (mk_sys (mk_rwsem a (Some t) l) W K T).
Proof.
  intros Hinv Ht. pose proof Hinv as [Hv _].
  assert (waker (Some t) T = WakeUp k x) as Hw by (unfold waker; cbn; by rewrite Ht).
  specialize (Hv x). cbn in Hv. rewrite Hw in Hv. cbn in Hv. rewrite decide_True in Hv by done.
  destruct (view_running _ _ _ _ _ _ Hv) as (st & n & HK & Hst & Hv'); [by left|].
  cbn [continue]. eapply wp_bind, wp_wake_up_process; [exact HK|done|].
  apply wp_modify. unfold set_threads, set_tasks. cbn -[good].
  assert (∀ th wt q, view_ok x th wt (Some (mk_task TASK_RUNNING n)) q PUp →
            view_ok x th wt (Some (mk_task TASK_RUNNING n)) q PPut) as Hmono.
  { intros th wt q (st' & Hst' & HK' & H). exists st'. split_and!; try done.
    destruct th as [[c h']|]; [destruct (wait_mode c)|]; unfold quiet_ok in *;
      [|by destruct H as (-> & -> & _)..].
    destruct H as (-> & -> & Hq & Hc). destruct q; [by specialize (Hq eq_refl)|].
    split_and!; try done. destruct c; try done. intros _. right.
    destruct (_ =? 0); [done|]. by injection HK' as <- _. }
  eapply waker_step; [exact Hinv|exact Ht|by eexists|done|done| |].
  - intros u Hu. rewrite lookup_insert_ne by done. split_and!; [done|done|].
    by apply decide_ne_pend.
  - intros _. cbn. rewrite decide_True, lookup_insert_eq by done. apply Hmono in Hv'.
    split; [intros ->; rewrite Ht in Hv'|intros _]; exact Hv'.
Qed.

(** ** The waiting loop *)

Lemma wait_good t c m h a lk l W K T :
  inv (mk_sys (mk_rwsem a lk l) W K T) →
  T !! t = Some (mk_thread c h) → wait_mode c = Some m →
  enabled (Next t) (mk_sys (mk_rwsem a lk l) W K T) = true →
  wp (continue t c h) (λ _, good (mk_sys (mk_rwsem a lk l) W K T))
    none_err (mk_sys (mk_rwsem a lk l) W K T).
Proof.
  intros Hinv Ht Hm Hen. pose proof Hinv as [Hv _]. specialize (Hv t). cbn in Hv.
  rewrite Ht in Hv. cbn in Hen. rewrite Ht in Hen.
  set (p := pend (waker lk T) t) in Hv. set (q := bool_decide (t ∈ l)) in Hv.
  destruct (view_running _ _ _ _ _ _ Hv) as (st & n & HK & Hst & _); [by right; eexists|].
  assert (Some (mk_task st n) = (if refs (Some (mk_thread c h)) q p =? 0 then None
            else Some (mk_task st (refs (Some (mk_thread c h)) q p)))) as HKr.
  { destruct Hv as (st' & _ & HK' & _). rewrite HK in HK'. destruct (_ =? 0); [done|].
    by injection HK' as <- <-. }
  destruct Hv as (st' & Hst' & HK' & Hv). rewrite Hm in Hv.
  assert (st' = st) as ->.
  { rewrite HK in HK'. destruct (_ =? 0); [done|]. by injection HK'. }
  destruct Hv as (-> & HW & Hq & Hc).
  assert (owns l t (mk_thread c None) = if decide (t ∈ l) then None else Some m) as Ho.
  { unfold owns. cbn. by rewrite Hm. }
  destruct c as [|m'|m'|m'|m'| | |]; try done; cbn in Hm; injection Hm as ->; cbn [continue].
  - eapply wp_bind, wp_get_waiter; [exact HW|]. cbn [task].
    assert (∀ c', c' = WaitDone m ∧ task_field t q p = None ∨
                  c' = WaitSched m ∧ task_field t q p ≠ None →
      wp (set_pc t c' None) (λ _, good (mk_sys (mk_rwsem a lk l) W K T)) none_err
        (mk_sys (mk_rwsem a lk l) W K T)) as Hgo.
    { intros c' Hc'. apply wp_modify. unfold set_threads. cbn -[good].
      eapply other_step; [done..| | | | |].
      - by destruct Hc' as [[-> _]|[-> _]].
      - by destruct Hc' as [[-> _]|[-> _]].
      - by destruct Hc' as [[-> _]|[-> _]].
      - done.
      - fold p q. exists st. split; [done|]. split; [exact HK'|].
        destruct Hc' as [[-> Hn]|[-> Hn]]; split_and!; done. }
    destruct (task_field t q p); apply Hgo; [by right|by left].
  - apply wp_modify. eapply other_step; try done. fold p q.
    exists st. split; [done|]. split; [exact HK'|]. done.
  - unfold set_task_state. eapply wp_bind, wp_bind, wp_rw_get_task; [exact HK|].
    apply wp_modify, wp_modify. unfold set_threads, set_tasks. cbn -[good].
    eapply other_step; [done..| |].
    + intros u Hu. by rewrite lookup_insert_ne.
    + fold p q. rewrite lookup_insert_eq. exists TASK_UNINTERRUPTIBLE. split; [by right|].
      split; [|done]. destruct (_ =? 0) eqn:E; [|by injection HKr as ->].
      rewrite HK in HK'. done.
  - unfold set_task_state. eapply wp_bind, wp_bind, wp_rw_get_task; [exact HK|].
    apply wp_modify, wp_bind, wp_modify, wp_modify.
    unfold set_threads, set_tasks, set_waiters. cbn -[good].
    assert (q = false ∧ p ≠ PNull) as [Hq0 Hp].
    { unfold task_field in Hc. by destruct q, p. }
    eapply other_step; [done..| | | |].
    + rewrite Ho. unfold q in Hq0. apply bool_decide_eq_false in Hq0. by rewrite decide_False.
    + unfold q in Hq0. by apply bool_decide_eq_false in Hq0.
    + intros u Hu. by rewrite lookup_insert_ne, lookup_delete_ne.
    + fold p q. rewrite lookup_insert_eq, lookup_delete_eq.
      exists TASK_RUNNING. split; [by left|]. split; [|done].
      destruct (_ =? 0) eqn:E; [|by injection HKr as ->]. rewrite HK in HK'. done.
Qed.

End RwsemSteps.
