(* ===== verification/RwsemTheorems.v ===== *)
(** * Read-write semaphores: calls, histories, and the resulting properties

    [exec_good] covers every step of every task.  The theorems about histories
    follow: the code implements the fair lock of the specification, readers and
    writers exclude each other, and no wake-up is lost. *)

From stdpp Require Import prelude numbers list gmap relations.
From Stdlib Require Import ZArith Lia.
From S2P Require Import Prelude Rwsem RwsemFacts RwsemSteps.

#[local] Set Default Goal Selector "!".
#[local] Open Scope Z_scope.

Module RwsemTheorems.
Import Rwsem RwsemFacts RwsemSteps.

Lemma list_empty_nil (l : list nat) : list_empty l = true ↔ l = [].
Proof. by destruct l. Qed.

Lemma oof_set T l t h h' :
  T !! t = Some (mk_thread Run h) →
  oof (<[t := mk_thread Run h']> T) l
  = match h' with Some m => <[t := m]> (oof T l) | None => delete t (oof T l) end.
Proof. intros _. rewrite oof_insert. by destruct h'. Qed.

Lemma qof_set W K T l t h h' :
  core l W K T → T !! t = Some (mk_thread Run h) →
  qof (<[t := mk_thread Run h']> T) l = qof T l.
Proof.
  intros Hc Ht. apply qof_insert_same. intros Hin.
  by destruct (core_quiet _ _ _ _ _ _ _ Hc Ht eq_refl).
Qed.

Lemma oof_held T l t h : T !! t = Some (mk_thread Run h) → oof T l !! t = h.
Proof. intros Ht. by rewrite oof_lookup, Ht. Qed.

(** ** Down *)

(** A call, and what it asks for first. *)
Definition first (e : event) (es : list event) : Prop := ∃ g, es = e :: g ∧ Forall is_grant g.
Definition called (t : nat) (c : call) (s : sys) : sys → Prop := does (explains (abs s) (Call t c)) s.

Lemma called_first t c s s' : try_mode c = None → does (first (call_event t c)) s s' → called t c s s'.
Proof. intros Hc [Hi (es & He & Hs)]. split; [done|]. exists es. unfold explains. by rewrite Hc. Qed.

Lemma wp_called t c (m : SM sys unit) s s0 : try_mode c = None →
  wp m (λ _, does (first (call_event t c)) s) none_err s0 → wp m (λ _, called t c s) none_err s0.
Proof. intros Hc Hm. eapply wp_mono; [exact Hm|]. intros x s' Hx. by apply called_first. Qed.

(** Request and grant in one. *)
Definition at_once (t : nat) (m : mode) (es : list event) : Prop := es = [Request t m; Grant t m].

Lemma at_once_first t m s s' : does (at_once t m) s s' → does (first (Request t m)) s s'.
Proof.
  intros [Hi (es & E & Hs)]. unfold at_once in E. subst es. split; [done|]. eexists. split; [|exact Hs]. exists [Grant t m].
  split; [done|]. by repeat constructor.
Qed.

(** The semaphore is free enough and nobody waits. *)
Lemma down_fast_good t m a a' W K T :
  inv (mk_sys (mk_rwsem a None []) W K T) → T !! t = Some (mk_thread Run None) →
  compatible m (oof T []) → (counts a (oof T []) → counts a' (<[t := m]> (oof T []))) →
  does (at_once t m) (mk_sys (mk_rwsem a None []) W K T)
       (mk_sys (mk_rwsem a' None []) W K (<[t := mk_thread Run (Some m)]> T)).
Proof.
  intros (Hcore & Hc & Hb)%inv_free Ht Hm Hc'. split.
  - apply inv_free. split; [by eapply core_set|]. split; [|done].
    rewrite (oof_set _ _ _ None) by done. by apply Hc'.
  - exists [Request t m; Grant t m]. split; [done|].
    change (spec_run [Request t m; Grant t m] (aof T []) (aof (<[t := mk_thread Run (Some m)]> T) [])).
    unfold aof. rewrite (oof_set _ _ _ None) by done.
    pose proof (oof_held _ [] _ _ Ht) as Hno.
    eexists. split; [apply (spec_request t m []); [done|by apply not_elem_of_nil]|].
    eexists. split; [by apply (spec_grant t m [])|done].
Qed.

Lemma down_wait_good t m a l W K T :
  inv (mk_sys (mk_rwsem a None l) W K T) → T !! t = Some (mk_thread Run None) →
  (l = [] → ¬ compatible m (oof T l)) →
  wp (down_wait t m) (λ _, does (first (Request t m)) (mk_sys (mk_rwsem a None l) W K T)) none_err
    (mk_sys (mk_rwsem a (Some t) l) W K T).
Proof.
  intros (Hcore & Hc & Hb)%inv_free Ht Hm.
  pose proof (core_quiet _ _ _ _ _ _ _ Hcore Ht eq_refl) as Htl.
  pose proof (oof_held _ l _ _ Ht) as Hno.
  destruct Hcore as (Hv & Hl & Hnd & Hfew).
  pose proof (Hv t) as (st & Hst & HK & Hq). rewrite Ht, bool_decide_eq_false_2 in HK by done.
  unfold refs in HK. cbn in HK.
  unfold down_wait, set_task_state, get_task_struct, spin_unlock, set_pc.
  eapply wp_bind, wp_bind, wp_rw_get_task; [exact HK|]. apply wp_modify, wp_bind, wp_modify.
  eapply wp_bind, wp_bind, wp_rw_get_task; [cbn; apply lookup_insert_eq|].
  apply wp_modify, wp_bind, wp_modify, wp_bind, wp_modify, wp_modify.
  unfold set_threads, set_tasks, set_waiters, set_wait_list, set_wait_lock. cbn -[does abs].
  rewrite insert_insert_eq. split.
  - apply inv_free. split; [split_and!|split].
    + intros u. destruct (decide (u = t)) as [->|Hu].
      * rewrite !lookup_insert_eq, bool_decide_eq_true_2
          by (apply elem_of_app; right; by apply list_elem_of_singleton).
        exists TASK_UNINTERRUPTIBLE. split; [by right|]. done.
      * rewrite !lookup_insert_ne by done.
        replace (bool_decide (u ∈ l ++ [t])) with (bool_decide (u ∈ l)); [apply Hv|].
        apply bool_decide_ext. rewrite elem_of_app, list_elem_of_singleton.
        by split; [left|intros [|]].
    + intros u th Hu. destruct (decide (u = t)) as [->|].
      * rewrite lookup_insert_eq in Hu. by injection Hu as <-.
      * rewrite lookup_insert_ne in Hu by done. eauto.
    + apply NoDup_app. split_and!; [done| |apply NoDup_singleton].
      intros x Hx ->%list_elem_of_singleton. done.
    + by eapply few_same.
    + by rewrite oof_queue.
    + unfold aof. rewrite oof_queue, qof_queue by done. intros u m' q Heq. cbn in *.
      destruct l as [|w l']; cbn in Heq.
      * injection Heq as <- <- <-. by apply Hm.
      * injection Heq as <- <- _. by eapply Hb.
  - exists [Request t m]. split; [by exists []|].
    change (spec_run [Request t m] (aof T l) (aof (<[t := mk_thread (WaitTest m) None]> T) (l ++ [t]))).
    unfold aof. rewrite oof_queue, qof_queue by done. eexists. split; [|done].
    apply spec_request; [done|]. by rewrite qof_fst.
Qed.

Lemma free_compat m a l W K T :
  inv (mk_sys (mk_rwsem a None l) W K T) →
  match m with Read => 0 <=? a | Write => a =? 0 end = true ↔ compatible m (oof T l).
Proof.
  intros (_ & Hc & _)%inv_free. destruct m; rewrite ?Z.leb_le, ?Z.eqb_eq; split.
  - intros Ha. by eapply counts_nonneg.
  - intros Hr. destruct Hc as [[-> [u Hu]]|[-> _]]; [|lia].
    cbn in Hr. rewrite Hu in Hr. by specialize (Hr u Write (lookup_singleton_eq _ _)).
  - intros ->. by apply counts_zero.
  - cbn. intros He. rewrite He in Hc. destruct Hc as [[_ [u Hu]]|[-> _]]; [|done].
    symmetry in Hu. by apply map_non_empty_singleton in Hu.
Qed.

Lemma fast_read t a o : o !! t = None → counts a o → compatible Read o →
  Z.of_nat (size (<[t := Read]> o)) <= PID_MAX_LIMIT → counts (sgn32 (a + 1)) (<[t := Read]> o).
Proof.
  intros Ht Hc Hr Hs. right. split; [|by apply map_Forall_insert]. revert Hs.
  rewrite map_size_insert_None by done. destruct Hc as [[_ [u ->]]|[-> _]].
  - by specialize (Hr u Write (lookup_singleton_eq _ _)).
  - intros. rewrite sgn32_small; lia.
Qed.

(** The fast path of the read functions. *)
Lemma fast_read_good t a W K T :
  inv (mk_sys (mk_rwsem a None []) W K T) → T !! t = Some (mk_thread Run None) →
  compatible Read (oof T []) →
  does (at_once t Read) (mk_sys (mk_rwsem a None []) W K T)
    (mk_sys (mk_rwsem (sgn32 (a + 1)) None []) W K (<[t := mk_thread Run (Some Read)]> T)).
Proof.
  intros Hinv Ht Hr. apply down_fast_good; [done..|]. intros Hc.
  pose proof (oof_held _ [] _ _ Ht) as Hno. apply fast_read; [done..|].
  apply inv_free in Hinv as (Hcore & _). pose proof (core_set _ _ _ _ _ _ (Some Read) Hcore Ht) as Hs.
  apply core_small in Hs. by rewrite (oof_set _ _ _ None) in Hs.
Qed.

Lemma down_read_good t a l W K T :
  inv (mk_sys (mk_rwsem a None l) W K T) → T !! t = Some (mk_thread Run None) →
  wp (__down_read t) (λ _, called t DownRead (mk_sys (mk_rwsem a None l) W K T)) none_err
    (mk_sys (mk_rwsem a None l) W K T).
Proof.
  intros Hinv Ht. pose proof (free_compat Read _ _ _ _ _ Hinv) as Hf. cbn in Hf.
  apply wp_called; [done|]. unfold __down_read. apply wp_bind, wp_spin_lock; [done|].
  apply wp_bind, wp_gets, wp_bind, wp_gets. cbn.
  destruct ((0 <=? a) && list_empty l) eqn:E.
  - apply andb_true_iff in E as [Ha ->%list_empty_nil]. apply Hf in Ha as Hr.
    apply wp_bind, wp_modify, wp_bind, wp_modify, wp_modify.
    unfold set_threads, set_activity, set_wait_lock. cbn -[does].
    by apply at_once_first, fast_read_good.
  - apply down_wait_good; [done..|]. intros -> Hr. apply Hf in Hr. by rewrite Hr in E.
Qed.

Lemma down_write_good t a l W K T :
  inv (mk_sys (mk_rwsem a None l) W K T) → T !! t = Some (mk_thread Run None) →
  wp (__down_write t) (λ _, called t DownWrite (mk_sys (mk_rwsem a None l) W K T)) none_err
    (mk_sys (mk_rwsem a None l) W K T).
Proof.
  intros Hinv Ht. pose proof (free_compat Write _ _ _ _ _ Hinv) as Hf. cbn in Hf.
  apply wp_called; [done|]. unfold __down_write. apply wp_bind, wp_spin_lock; [done|].
  apply wp_bind, wp_gets, wp_bind, wp_gets. cbn.
  destruct ((a =? 0) && list_empty l) eqn:E.
  - apply andb_true_iff in E as [Ha ->%list_empty_nil]. apply Hf in Ha as Hr.
    apply wp_bind, wp_modify, wp_bind, wp_modify, wp_modify.
    unfold set_threads, set_activity, set_wait_lock. cbn -[does].
    apply at_once_first, down_fast_good; [done..|]. intros _. rewrite Hr. apply counts_writer.
  - apply down_wait_good; [done..|]. intros -> Hr. apply Hf in Hr. by rewrite Hr in E.
Qed.

(** The trylock functions take the fast path or do nothing. *)
Lemma try_done_good t c m s s' : try_mode c = Some m → free_for m (abs s) →
  does (at_once t m) s s' → called t c s s'.
Proof.
  intros Hc Hf [Hi (es & E & Hs)]. unfold at_once in E. subst es. split; [done|]. eexists. split; [|exact Hs]. unfold explains.
  rewrite Hc. by left.
Qed.

Lemma try_fail_good t c m a l W K T :
  inv (mk_sys (mk_rwsem a None l) W K T) → T !! t = Some (mk_thread Run None) →
  try_mode c = Some m → ¬ free_for m (aof T l) →
  wp (try_result t m 0) (λ _, called t c (mk_sys (mk_rwsem a None l) W K T)) none_err
    (mk_sys (mk_rwsem a None l) W K T).
Proof.
  intros Hinv Ht Hc Hf. apply wp_modify. unfold set_threads. cbn -[called].
  rewrite insert_id by done. split; [done|]. exists []. split; [|done].
  unfold explains. rewrite Hc. by right.
Qed.

Lemma not_free_for m T l (b : bool) : (b = true ↔ compatible m (oof T l)) → b && list_empty l = false →
  ¬ free_for m (aof T l).
Proof. intros Hb E [Hq Hm]. apply Hb in Hm as ->. destruct l; [done|]. by cbn in Hq. Qed.

Lemma down_read_trylock_good t a l W K T :
  inv (mk_sys (mk_rwsem a None l) W K T) → T !! t = Some (mk_thread Run None) →
  wp (__down_read_trylock t ≫= try_result t Read)
    (λ _, called t DownReadTrylock (mk_sys (mk_rwsem a None l) W K T)) none_err
    (mk_sys (mk_rwsem a None l) W K T).
Proof.
  intros Hinv Ht. pose proof (free_compat Read _ _ _ _ _ Hinv) as Hf. cbn in Hf.
  apply wp_bind. unfold __down_read_trylock. apply wp_bind, wp_spin_lock; [done|].
  apply wp_bind, wp_gets, wp_bind, wp_gets. cbn -[try_result].
  destruct ((0 <=? a) && list_empty l) eqn:E.
  - apply andb_true_iff in E as [Ha ->%list_empty_nil]. apply Hf in Ha as Hr.
    apply wp_bind, wp_bind, wp_modify, wp_ret, wp_bind, wp_modify, wp_ret, wp_modify.
    unfold set_threads, set_activity, set_wait_lock. cbn -[called].
    apply (try_done_good _ _ Read); [done|done|]. by apply fast_read_good.
  - apply wp_bind, wp_ret, wp_bind, wp_modify, wp_ret. apply try_fail_good; [done..|].
    by eapply not_free_for.
Qed.

Lemma down_write_trylock_good t a l W K T :
  inv (mk_sys (mk_rwsem a None l) W K T) → T !! t = Some (mk_thread Run None) →
  wp (__down_write_trylock t ≫= try_result t Write)
    (λ _, called t DownWriteTrylock (mk_sys (mk_rwsem a None l) W K T)) none_err
    (mk_sys (mk_rwsem a None l) W K T).
Proof.
  intros Hinv Ht. pose proof (free_compat Write _ _ _ _ _ Hinv) as Hf. cbn in Hf.
  apply wp_bind. unfold __down_write_trylock. apply wp_bind, wp_spin_lock; [done|].
  apply wp_bind, wp_gets, wp_bind, wp_gets. cbn -[try_result].
  destruct ((a =? 0) && list_empty l) eqn:E.
  - apply andb_true_iff in E as [Ha ->%list_empty_nil]. apply Hf in Ha as Hr.
    apply wp_bind, wp_bind, wp_modify, wp_ret, wp_bind, wp_modify, wp_ret, wp_modify.
    unfold set_threads, set_activity, set_wait_lock. cbn -[called].
    apply (try_done_good _ _ Write); [done|done|].
    apply down_fast_good; [done..|]. intros _. rewrite Hr. apply counts_writer.
  - apply wp_bind, wp_ret, wp_bind, wp_modify, wp_ret. apply try_fail_good; [done..|].
    by eapply not_free_for.
Qed.

(** ** Up *)

Lemma up_called t c s (m : SM sys unit) r s0 :
  try_mode c = None → spec_step (call_event t c) (abs s) r →
  wp m (λ _ s', inv s' ∧ only_grants r (abs s')) none_err s0 →
  wp m (λ _, called t c s) none_err s0.
Proof.
  intros Hc Hr Hm. apply wp_called; [done|]. eapply wp_mono; [exact Hm|]. intros x s' [Hi (g & Hg & Hs)].
  split; [done|]. exists (call_event t c :: g). split; [by exists g|]. by exists r.
Qed.

(** Readers own the semaphore: the head of the queue is a writer. *)
Lemma head_writer W K T w l a :
  core (w :: l) W K T → counts a (oof T (w :: l)) → compatible Read (oof T (w :: l)) →
  blocked (aof T (w :: l)) → request T w = (w, Write).
Proof.
  intros Hcore Hc Hr Hb. destruct (core_head _ _ _ _ _ Hcore) as (c & m & Hw & Hm & _ & _).
  assert (request T w = (w, m)) as Hq by (unfold request; rewrite Hw; cbn; by rewrite Hm).
  rewrite Hq. destruct m; [|done]. exfalso. eapply (Hb w Read (qof T l)); [|done].
  cbn [aof queue qof]. rewrite <- Hq. done.
Qed.

Lemma request_set T t h h' w :
  T !! t = Some (mk_thread Run h) → request (<[t := mk_thread Run h']> T) w = request T w.
Proof.
  intros Ht. unfold request. f_equal. destruct (decide (w = t)) as [->|].
  - by rewrite lookup_insert_eq, Ht.
  - by rewrite lookup_insert_ne.
Qed.

Lemma up_read_good t a l W K T :
  inv (mk_sys (mk_rwsem a None l) W K T) → T !! t = Some (mk_thread Run (Some Read)) →
  wp (__up_read t) (λ _, called t UpRead (mk_sys (mk_rwsem a None l) W K T)) none_err
    (mk_sys (mk_rwsem a None l) W K T).
Proof.
  intros (Hcore & Hc & Hb)%inv_free Ht. pose proof (oof_held _ l _ _ Ht) as Ho.
  pose proof (core_set _ _ _ _ _ _ None Hcore Ht) as Hcore1.
  pose proof (counts_release_reader _ _ _ Hc Ho) as Hc1.
  pose proof (oof_set _ l _ _ None Ht) as Ho1. cbn in Ho1.
  set (T1 := <[t := mk_thread Run None]> T) in *.
  assert (compatible Read (oof T l)) as Hr.
  { destruct Hc as [[-> [u Hu]]|[_ Hr]]; [|done]. rewrite Hu in Ho.
    by apply lookup_singleton_Some in Ho as [_ ?]. }
  rewrite <- Ho1 in Hc1.
  apply (up_called _ _ _ _ (aof T1 l)); [done| |].
  { unfold aof. rewrite Ho1. unfold T1. erewrite qof_set by done.
    apply spec_release. eauto. }
  unfold __up_read. apply wp_bind, wp_spin_lock; [done|].
  apply wp_bind, wp_modify, wp_bind, wp_gets, wp_bind, wp_gets. cbn [sem wait_list activity].
  unfold set_activity, set_wait_lock. cbn [sem wait_list activity].
  assert (sgn32 (a - 1) = a - 1) as ->.
  { pose proof (core_small _ _ _ _ Hcore1) as Hsm. apply sgn32_small. destruct Hc1 as [[-> _]|[-> _]]; lia. }
  destruct ((a - 1 =? 0) && negb (list_empty l)) eqn:E.
  - apply andb_true_iff in E as [Ha%Z.eqb_eq Hl]. destruct l as [|w l]; [done|].
    unfold __rwsem_wake_one_writer. apply wp_bind, wp_modify, wp_bind, wp_gets.
    cbn [sem wait_list head set_activity list_entry]. apply wp_bind, wp_ret.
    apply wake_writer_good; [done| |].
    + rewrite Ha in Hc1. by apply counts_zero.
    + unfold T1. erewrite request_set by done. by eapply head_writer.
  - apply up_out_good; [done..|]. intros u m q Hq Hm.
    destruct l as [|w l]; [done|]. cbn [negb list_empty] in E.
    rewrite andb_true_r in E. apply Z.eqb_neq in E.
    assert (m = Write) as ->.
    { pose proof (head_writer _ _ _ _ _ _ Hcore Hc Hr Hb) as Hw.
      change (request T1 w :: qof T1 l = (u, m) :: q) in Hq. unfold T1 in Hq at 1.
      erewrite request_set, Hw in Hq by done. by injection Hq. }
    cbn in Hm. fold T1 in Hm. rewrite Hm in Hc1.
    destruct Hc1 as [[_ [v Hv]]|[Ha _]]; [|done].
    symmetry in Hv. by apply map_non_empty_singleton in Hv.
Qed.

Lemma up_write_good t a l W K T :
  inv (mk_sys (mk_rwsem a None l) W K T) → T !! t = Some (mk_thread Run (Some Write)) →
  wp (__up_write t) (λ _, called t UpWrite (mk_sys (mk_rwsem a None l) W K T)) none_err
    (mk_sys (mk_rwsem a None l) W K T).
Proof.
  intros (Hcore & Hc & Hb)%inv_free Ht. pose proof (oof_held _ l _ _ Ht) as Ho.
  pose proof (core_set _ _ _ _ _ _ None Hcore Ht) as Hcore1.
  pose proof (oof_set _ l _ _ None Ht) as Ho1. cbn in Ho1.
  rewrite (counts_is_writer _ _ _ Hc Ho), delete_singleton_eq in Ho1.
  set (T1 := <[t := mk_thread Run None]> T) in *.
  apply (up_called _ _ _ _ (aof T1 l)); [done| |].
  { unfold aof, T1. erewrite oof_set, qof_set by done.
    apply spec_release. eauto. }
  unfold __up_write. apply wp_bind, wp_spin_lock; [done|].
  apply wp_bind, wp_modify, wp_bind, wp_gets. cbn [sem wait_list set_activity set_wait_lock].
  unfold set_activity, set_wait_lock. cbn [sem wait_list activity].
  destruct l as [|w l]; cbn [negb list_empty].
  - apply up_out_good; [done| |done]. change (counts 0 (oof T1 [])). rewrite Ho1. by right.
  - by apply do_wake_good.
Qed.

Lemma downgrade_write_good t a l W K T :
  inv (mk_sys (mk_rwsem a None l) W K T) → T !! t = Some (mk_thread Run (Some Write)) →
  wp (__downgrade_write t) (λ _, called t DowngradeWrite (mk_sys (mk_rwsem a None l) W K T)) none_err
    (mk_sys (mk_rwsem a None l) W K T).
Proof.
  intros (Hcore & Hc & Hb)%inv_free Ht. pose proof (oof_held _ l _ _ Ht) as Ho.
  pose proof (core_set _ _ _ _ _ _ (Some Read) Hcore Ht) as Hcore1.
  pose proof (oof_set _ l _ _ (Some Read) Ht) as Ho1. cbn in Ho1.
  rewrite (counts_is_writer _ _ _ Hc Ho), insert_singleton_eq in Ho1.
  set (T1 := <[t := mk_thread Run (Some Read)]> T) in *.
  apply (up_called _ _ _ _ (aof T1 l)); [done| |].
  { unfold aof, T1. erewrite oof_set, qof_set by done.
    by apply spec_downgrade. }
  assert (size (oof T1 l) = 1%nat) as Hsz by (rewrite Ho1; apply map_size_singleton).
  assert (compatible Read (oof T1 l)) as Hr by (rewrite Ho1; by apply map_Forall_singleton).
  unfold __downgrade_write. apply wp_bind, wp_spin_lock; [done|].
  apply wp_bind, wp_modify, wp_bind, wp_gets. cbn [sem wait_list set_activity set_wait_lock].
  unfold set_activity, set_wait_lock. cbn [sem wait_list activity].
  destruct l as [|w l]; cbn [negb list_empty].
  - apply up_out_good; [done| |done]. change (counts 1 (oof T1 [])). right.
    split; [by rewrite Hsz|done].
  - apply do_wake_good; [done|].
    change (1 = Z.of_nat (size (oof T1 (w :: l))) ∧ 0 < 1
            ∧ compatible Read (oof T1 (w :: l))).
    by rewrite Hsz.
Qed.

(** ** Tasks come, go, and are woken by others *)

Lemma fork_good t a lk l W K T :
  inv (mk_sys (mk_rwsem a lk l) W K T) → K !! t = None → Z.of_nat (size T) < PID_MAX_LIMIT →
  quiet (mk_sys (mk_rwsem a lk l) W K T)
       (mk_sys (mk_rwsem a lk l) W (<[t := mk_task TASK_RUNNING 1]> K)
               (<[t := mk_thread Run None]> T)).
Proof.
  intros [Hv [(Hl & Hnd & Hn & Ha) Hfew]] Ht Hlt. unfold views_ok in Hv. cbn in *.
  assert (T !! t = None ∧ W !! t = None ∧ bool_decide (t ∈ l) = false ∧
          pend (waker lk T) t = PNone) as (HT & HW & Hq & Hp).
  { destruct (Hv t) as (st & _ & HK & H). rewrite Ht in HK.
    destruct (T !! t) as [th|], (bool_decide (t ∈ l)), (pend (waker lk T) t); try done.
    by destruct H. }
  assert (waker lk (<[t := mk_thread Run None]> T) = waker lk T) as Hw.
  { unfold waker. destruct lk as [o|]; [|done]. cbn. destruct (decide (o = t)) as [->|].
    - destruct Hl as [_ Hl]. specialize (Hl t eq_refl). unfold waker in Hl. cbn in Hl.
      by rewrite HT in Hl.
    - by rewrite lookup_insert_ne. }
  apply bool_decide_eq_false in Hq as Htl.
  set (s' := mk_sys _ _ _ (<[t := _]> T)).
  assert (abs s' = abs (mk_sys (mk_rwsem a lk l) W K T)) as Habs.
  { unfold abs, s'. cbn. f_equal; [by apply qof_insert_same|]. rewrite map_imap_insert. cbn.
    apply delete_id. rewrite map_lookup_imap, HT. done. }
  split; [|exact Habs]. split; [|split; [split; [|split; [done|]]|]]; cbn -[abs].
  - intros u. cbn. rewrite Hw. destruct (decide (u = t)) as [->|Hu].
    + rewrite !lookup_insert_eq, Hq, Hp. exists TASK_RUNNING. split; [by left|]. done.
    + rewrite !lookup_insert_ne by done. apply Hv.
  - split.
    + intros u th Hu E. destruct (decide (u = t)) as [->|].
      * rewrite lookup_insert_eq in Hu. by injection Hu as <-.
      * rewrite lookup_insert_ne in Hu by done. by eapply Hl.
    + intros o Ho. rewrite Hw. by eapply Hl.
  - by rewrite Hw, Habs.  - unfold few. rewrite map_size_insert_None by done. lia.
Qed.

Lemma exit_good t a lk l W K T :
  inv (mk_sys (mk_rwsem a lk l) W K T) → T !! t = Some (mk_thread Run None) →
  wp (exec (Exit t)) (λ _, quiet (mk_sys (mk_rwsem a lk l) W K T)) none_err
    (mk_sys (mk_rwsem a lk l) W K T).
Proof.
  intros [Hv [(Hl & Hnd & Hn & Ha) Hfew]] Ht. unfold views_ok in Hv. cbn in *.
  pose proof (Hv t) as (st & Hst & HK & H). rewrite Ht in HK, H. destruct H as (HW & Hq & Hp).
  apply bool_decide_eq_false in Hq as Htl.
  assert (waker lk (delete t T) = waker lk T) as Hw.
  { unfold waker. destruct lk as [o|]; [|done]. cbn. destruct (decide (o = t)) as [->|].
    - destruct Hl as [_ Hl]. specialize (Hl t eq_refl). unfold waker in Hl. cbn in Hl.
      by rewrite Ht in Hl.
    - by rewrite lookup_delete_ne. }
  rewrite Hq in HK. set (p := pend (waker lk T) t) in *.
  assert (refs (Some (mk_thread Run None)) false p = 1 + refs None false p) as Hr.
  { unfold refs. cbn. lia. }
  assert (0 <= refs None false p) as Hr0 by (unfold refs; cbn; destruct p; lia).
  rewrite Hr in HK. destruct (Z.eqb_spec (1 + refs None false p) 0); [lia|].
  apply wp_bind, wp_modify. eapply wp_put_task_struct; [exact HK|].
  unfold set_tasks, set_threads. cbn -[abs quiet Z.add]. cbn [state usage].
  set (s' := mk_sys _ _ _ (delete t T)).
  assert (abs s' = abs (mk_sys (mk_rwsem a lk l) W K T)) as Habs.
  { unfold abs, s'. cbn. f_equal; [by apply qof_delete|]. rewrite map_imap_delete.
    apply delete_id. rewrite map_lookup_imap, Ht. done. }
  split; [|exact Habs]. split; [|split; [split; [|split; [done|]]|]]; cbn -[abs].
  - intros u. cbn -[Z.add]. rewrite Hw. destruct (decide (u = t)) as [->|Hu].
    + rewrite lookup_delete_eq, Hq. fold p. exists st. split; [done|]. split; [|done].
      destruct (Z.eqb_spec (1 + refs None false p) 1), (Z.eqb_spec (refs None false p) 0);
        try lia.
      * by rewrite lookup_delete_eq.
      * rewrite lookup_insert_eq. do 2 f_equal. lia.
    + rewrite lookup_delete_ne by done.
      destruct (_ =? 1); [rewrite lookup_delete_ne by done|rewrite lookup_insert_ne by done];
        apply Hv.
  - split.
    + intros u th Hu E. apply lookup_delete_Some in Hu as [_ Hu]. by eapply Hl.
    + intros o Ho. rewrite Hw. by eapply Hl.
  - by rewrite Hw, Habs.  - unfold few in *. rewrite map_size_delete_Some by (by eexists). lia.
Qed.

Lemma wakeup_good t a lk l W K T :
  inv (mk_sys (mk_rwsem a lk l) W K T) → is_Some (T !! t) →
  wp (wake_up_process t) (λ _, quiet (mk_sys (mk_rwsem a lk l) W K T)) none_err
    (mk_sys (mk_rwsem a lk l) W K T).
Proof.
  intros [Hv Hs] Ht. pose proof (Hv t) as Hvt. cbn in Hvt.
  destruct (view_running _ _ _ _ _ _ Hvt) as (st & n & HK & Hst & Hv'); [by right|].
  eapply wp_wake_up_process; [exact HK|done|]. split; [|done]. split; [|exact Hs].
  intros u. cbn. destruct (decide (u = t)) as [->|].
  - rewrite lookup_insert_eq. exact Hv'.
  - rewrite lookup_insert_ne by done. apply Hv.
Qed.

(** ** Every step *)

Lemma inv_lock t c h a lk l W K T :
  inv (mk_sys (mk_rwsem a lk l) W K T) → T !! t = Some (mk_thread c h) →
  is_wake c = true → lk = Some t.
Proof. intros [_ (((Hl & _) & _) & _)] Ht Hc. exact (Hl _ _ Ht Hc). Qed.

Lemma continue_good t c h s :
  inv s → threads s !! t = Some (mk_thread c h) → enabled (Next t) s = true →
  wp (continue t c h) (λ _, good s) none_err s.
Proof.
  destruct s as [[a lk l] W K T]. intros Hinv Ht Hen. cbn [threads] in Ht.
  pose proof (inv_lock _ _ _ _ _ _ _ _ _ Hinv Ht) as Hlk.
  destruct c; try (by eapply wait_good).
  - cbn in Hen. by rewrite Ht in Hen.
  - rewrite Hlk in * by done. by apply wake_null_good.
  - rewrite Hlk in * by done. by apply wake_up_good.
  - rewrite Hlk in * by done. by apply wake_put_good.
Qed.

Lemma call_good t c s :
  inv s → threads s !! t = Some (mk_thread Run (call_needs c)) → wait_lock (sem s) = None →
  wp (do_call t c) (λ _, called t c s) none_err s.
Proof.
  destruct s as [[a lk l] W K T]. cbn [threads sem wait_lock]. intros Hinv Ht ->.
  destruct c; cbn [do_call call_needs] in *;
    auto using down_read_good, down_read_trylock_good, down_write_good,
      down_write_trylock_good, up_read_good, up_write_good, downgrade_write_good.
Qed.

Lemma wp_quiet l (m : SM sys unit) s : (∀ es, es = [] → explains (abs s) l es) →
  wp m (λ _, quiet s) none_err s → wp m (λ _, does (explains (abs s) l) s) none_err s.
Proof.
  intros Hl Hm. eapply wp_mono; [exact Hm|]. intros x s' [Hi Ha]. split; [done|]. exists [].
  split; [by apply Hl|]. symmetry. exact Ha.
Qed.

Lemma exec_good l s :
  inv s → enabled l s = true → wp (exec l) (λ _, does (explains (abs s) l) s) none_err s.
Proof.
  intros Hinv Hen. destruct l as [t c|t|t|t|t].
  - cbn in Hen. destruct (threads s !! t) as [[[] h]|] eqn:Ht; try done.
    apply andb_true_iff in Hen as [->%bool_decide_eq_true Hl%bool_decide_eq_true].
    by apply call_good.
  - cbn [exec]. apply wp_bind, wp_gets. destruct (threads s !! t) as [[c h]|] eqn:Ht.
    + by apply continue_good.
    + cbn in Hen. by rewrite Ht in Hen.
  - cbn in Hen. apply bool_decide_eq_true in Hen. destruct s as [[a lk l] W K T].
    apply wp_quiet; [done|]. by apply wakeup_good.
  - cbn in Hen. apply andb_true_iff in Hen as [Hen%bool_decide_eq_true Hlt%Z.ltb_lt].
    destruct s as [[a lk l] W K T]. apply wp_quiet; [done|].
    apply wp_bind, wp_modify, wp_modify. by apply fork_good.
  - cbn in Hen. destruct (threads s !! t) as [[[] [|]]|] eqn:Ht; try done.
    destruct s as [[a lk l] W K T]. apply wp_quiet; [done|]. by apply exit_good.
Qed.

(** ** Histories *)

Lemma rwsem_boot_inv : inv boot.
Proof.
  apply inv_free. split; [split_and!|split].
  - intros u. rewrite !lookup_empty, bool_decide_eq_false_2 by apply not_elem_of_nil.
    exists TASK_RUNNING. split; [by left|]. done.
  - intros u th. by rewrite lookup_empty.
  - apply NoDup_nil_2.
  - by vm_compute.
  - right. split; [done|]. unfold oof. rewrite map_imap_empty. apply map_Forall_empty.
  - done.
Qed.

Lemma abs_boot : abs boot = mk_rwlock [] ∅.
Proof. reflexivity. Qed.

Lemma rwsem_step_inv s s' : inv s → step s s' → inv s'.
Proof.
  intros Hinv Hst. inversion Hst as [l s0 s1 Hen Hex]; subst s0 s1. pose proof (exec_good _ _ Hinv Hen) as H.
  unfold wp in H. rewrite Hex in H. apply H.
Qed.

Lemma rwsem_reachable_inv s s' : rtc step s s' → inv s → inv s'.
Proof. induction 1 as [s|s s1 s' Hst _ IH]; intros Hinv; [done|]. eauto using rwsem_step_inv. Qed.

(** A history of the code is one of the lock. *)
Lemma run_explained ls s s' : run ls s = Ok s' → inv s →
  ∃ h, h.*1 = ls ∧ history h (abs s) (abs s') ∧ inv s'.
Proof.
  revert s. induction ls as [|l ls IH]; intros s; cbn; [intros [= ->] Hi; by exists []|].
  destruct (enabled l s) eqn:Hen; [|done]. intros Hr Hinv.
  destruct (wp_ok _ _ _ (exec_good _ _ Hinv Hen)) as ([] & s1 & He & Hi1 & es & Hex & Hs).
  rewrite He in Hr. destruct (IH s1 Hr Hi1) as (h & <- & Hs' & Hi').
  exists ((l, es) :: h). split; [done|]. split; [|done]. split; [exact Hex|]. by exists (abs s1).
Qed.

(** C22: The semaphore is a first-come first-served read-write lock.  Take any history [ls] of any
    number of tasks that call the functions of lib/rwsem-spinlock.c, sleep, are woken, come and
    go.  It stands for a history [h] of the lock in which a call is its own request, release or
    downgrade, a trylock call that fails is nothing, and all else is grants: of the first request
    in the queue, to a task compatible with the owners.  So the requests made are, in this order,
    the ones granted followed by the ones still queued.  Whenever the spinlock is free the first
    request in the queue is one that can not be granted yet.  Every further step succeeds (no
    freed waiter or task structure is touched, no list is left by its end, [activity] does not
    overflow) and again stands for events of the lock that its label explains. *)
Theorem rwsem_refines ls s :
  run ls boot = Ok s →
  (∃ h, h.*1 = ls ∧ history h (mk_rwlock [] ∅) (abs s) ∧
     requests (concat h.*2) = grants (concat h.*2) ++ queue (abs s)) ∧
  (wait_lock (sem s) = None → blocked (abs s)) ∧
  ∀ l, enabled l s = true →
    ∃ s' es, exec l s = (Ok tt, s') ∧ explains (abs s) l es ∧ spec_run es (abs s) (abs s').
Proof.
  intros Hr. destruct (run_explained _ _ _ Hr rwsem_boot_inv) as (h & Hls & Hs & Hinv). split_and!.
  - exists h. split_and!; [done..|]. exact (history_order _ _ _ Hs).
  - intros Hl. destruct s as [[a lk l] W K T]. cbn in Hl. subst lk. by apply inv_free in Hinv as (_ & _ & Hb).
  - intros l Hen. destruct (wp_ok _ _ _ (exec_good _ _ Hinv Hen)) as ([] & s' & He & _ & es & Hex & Hs').
    by exists s', es.
Qed.

Lemma owner_exclusive c a l r t1 t2 m :
  loop_ok c a l r → owners r !! t1 = Some Write → owners r !! t2 = Some m → t1 = t2.
Proof.
  intros Hl H1 H2.
  assert (¬ map_Forall (λ _ m, m = Read) (owners r)) as Hn.
  { intros Hr. by specialize (Hr _ _ H1). }
  assert (counts a (owners r) → t1 = t2) as Hc.
  { intros [[_ [u Hu]]|[_ Hr]]; [|done]. rewrite Hu in H1, H2.
    apply lookup_singleton_Some in H1 as [<- _]. by apply lookup_singleton_Some in H2 as [<- _]. }
  destruct c; cbn in Hl; try (by apply Hc, Hl);
    (destruct k; [by apply Hc, Hl|by destruct Hl as (_ & _ & Hr & _)]).
Qed.

Lemma held_owns s t c m :
  inv s → threads s !! t = Some (mk_thread c (Some m)) → owners (abs s) !! t = Some m.
Proof.
  intros [Hv _] Ht. unfold abs. cbn [owners]. rewrite map_lookup_imap, Ht. cbn. unfold owns.
  cbn. destruct (wait_mode c) eqn:Hm; [|done].
  destruct (Hv t) as (st & _ & _ & H). rewrite Ht, Hm in H. by destruct H.
Qed.

(** A task that holds the semaphore for writing is alone: no other task holds it in
    any mode.  When the spinlock is free, [activity] is as the comment in
    include/linux/rwsem-spinlock.h says: -1 for one writer, else the number of
    readers. *)
Theorem rwsem_exclusion s :
  rtc step boot s →
  (∀ t1 t2 c1 c2 m,
     threads s !! t1 = Some (mk_thread c1 (Some Write)) →
     threads s !! t2 = Some (mk_thread c2 (Some m)) → t1 = t2) ∧
  (wait_lock (sem s) = None →
     (activity (sem s) = -1 ∧ ∃ t, owners (abs s) = {[t := Write]}) ∨
     (activity (sem s) = Z.of_nat (size (owners (abs s))) ∧
      map_Forall (λ _ m, m = Read) (owners (abs s)))).
Proof.
  intros Hr. pose proof (rwsem_reachable_inv _ _ Hr rwsem_boot_inv) as Hinv. split.
  - intros t1 t2 c1 c2 m H1 H2. pose proof (held_owns _ _ _ _ Hinv H1) as O1.
    pose proof (held_owns _ _ _ _ Hinv H2) as O2. destruct Hinv as [_ [(_ & _ & _ & Hl) _]].
    by eapply owner_exclusive.
  - intros Hl. destruct s as [[a lk l] W K T]. cbn in Hl. subst lk.
    apply inv_free in Hinv as (_ & Hc & _). exact Hc.
Qed.

Lemma stuck_unlocked s :
  inv s → (∀ t, enabled (Next t) s = false) → wait_lock (sem s) = None.
Proof.
  intros [_ (((_ & Hl) & _) & _)] Hen. destruct (wait_lock (sem s)) as [o|] eqn:E; [|done].
  specialize (Hl o eq_refl). specialize (Hen o). cbn in Hen. unfold waker in Hl. cbn in Hl.
  destruct (threads s !! o) as [[[] h]|]; done.
Qed.

(** A task that can not go on is queued. *)
Lemma stuck_queued s t c m h :
  inv s → (∀ t, enabled (Next t) s = false) →
  threads s !! t = Some (mk_thread c h) → wait_mode c = Some m → t ∈ wait_list (sem s).
Proof.
  intros Hinv Hen Ht Hm. pose proof (stuck_unlocked _ Hinv Hen) as Hl.
  destruct Hinv as [Hv _]. pose proof (Hv t) as Hvt. rewrite Hl in Hvt.
  destruct Hvt as (st & _ & HK & H). rewrite Ht in HK, H. rewrite Hm in H.
  destruct H as (_ & _ & _ & Hc). specialize (Hen t). cbn in Hen. rewrite Ht in Hen.
  destruct c; try done. destruct (tasks s !! t) as [p|]; [|done].
  destruct (bool_decide_reflect (t ∈ wait_list (sem s))); [done|].
  destruct (Hc eq_refl) as [?| ->]; [done|].
  destruct (_ =? 0); [done|]. by injection HK as ->.
Qed.

(** C33: No wake-up is lost: when no task inside the semaphore code can go on, every
    waiting task is still queued, and some task holds the semaphore and is outside
    its code, free to release it. *)
Theorem rwsem_no_lost_wakeup s t c m h :
  rtc step boot s → (∀ u, enabled (Next u) s = false) →
  threads s !! t = Some (mk_thread c h) → wait_mode c = Some m →
  t ∈ wait_list (sem s) ∧
  ∃ u m', threads s !! u = Some (mk_thread Run (Some m')) ∧
    enabled (Call u (match m' with Read => UpRead | Write => UpWrite end)) s = true.
Proof.
  intros Hr Hen Ht Hm. pose proof (rwsem_reachable_inv _ _ Hr rwsem_boot_inv) as Hinv.
  pose proof (stuck_queued _ _ _ _ _ Hinv Hen Ht Hm) as Hin. split; [done|].
  pose proof (stuck_unlocked _ Hinv Hen) as Hl.
  assert (owners (abs s) ≠ ∅) as Hne.
  { destruct s as [[a lk l] W K T]. cbn [sem wait_lock wait_list] in *. subst lk.
    apply inv_free in Hinv as (_ & _ & Hb). destruct l as [|w l]; [by apply not_elem_of_nil in Hin|].
    intros He. eapply (Hb w); [done|]. cbn [owners aof]. cbn [owners abs] in He.
    unfold oof. cbn in He. rewrite He. destruct (default _ _); [apply map_Forall_empty|done]. }
  apply map_choose in Hne as (u & m' & Hu). cbn [owners abs] in Hu.
  rewrite map_lookup_imap in Hu. destruct (threads s !! u) as [[cu hu]|] eqn:Htu; [|done].
  cbn in Hu. unfold owns in Hu. cbn [at_pc held] in Hu.
  destruct (wait_mode cu) as [mu|] eqn:Hmu.
  - pose proof (stuck_queued _ _ _ _ _ Hinv Hen Htu Hmu) as Huq. by rewrite decide_True in Hu.
  - subst hu. specialize (Hen u). cbn in Hen. rewrite Htu in Hen. destruct cu; try done.
    exists u, m'. split; [done|]. cbn. rewrite Htu, Hl. by destruct m'.
Qed.

(** ** Concrete runs *)

Lemma rwsem_run_reachable ls s s' : run ls s = Ok s' → rtc step s s'.
Proof.
  revert s. induction ls as [|l ls IH]; intros s; cbn; [by intros [= ->]|].
  destruct (enabled l s) eqn:Hen; [|done].
  destruct (exec l s) as [[[]|e|] s1] eqn:He; try done.
  intros Hr. eapply rtc_l; [by econstructor|]. by apply IH.
Qed.

(** Task 1 writes; tasks 2 and 3 ask for reading and 4 for writing behind it.  In
    [asleep] all three sleep; in [granted] task 1 has released the semaphore, and
    the readers have it although only task 2 has noticed. *)
Definition asleep_trace : list label :=
  [Fork 1; Fork 2; Fork 3; Fork 4; Call 1 DownWrite; Call 2 DownRead; Call 3 DownRead;
   Call 4 DownWrite; Next 2; Next 3; Next 4]%nat.
Definition granted_trace : list label :=
  asleep_trace ++ [Call 1 UpWrite; Next 1; Next 1; Next 1; Next 1; Next 1; Next 1;
   Next 2; Next 2; Next 2; Next 2]%nat.

Definition final (o : outcome sys) : sys := match o with Ok s => s | _ => boot end.
Definition asleep : sys := final (run asleep_trace boot).
Definition granted : sys := final (run granted_trace boot).

Lemma asleep_reachable : rtc step boot asleep.
Proof. apply (rwsem_run_reachable asleep_trace). vm_compute. reflexivity. Qed.

Lemma asleep_stuck u : enabled (Next u) asleep = false.
Proof.
  assert (asleep = mk_sys (mk_rwsem (-1) None [2; 3; 4]%nat)
    {[2 := mk_waiter (Some 2) 1; 3 := mk_waiter (Some 3) 1; 4 := mk_waiter (Some 4) 2]}%nat
    {[1 := mk_task 0 1; 2 := mk_task 2 2; 3 := mk_task 2 2; 4 := mk_task 2 2]}%nat
    {[1 := mk_thread Run (Some Write); 2 := mk_thread (WaitSched Read) None;
      3 := mk_thread (WaitSched Read) None; 4 := mk_thread (WaitSched Write) None]}%nat)
    as -> by (vm_compute; reflexivity).
  cbn [enabled threads tasks].
  destruct (decide (u = 1%nat)) as [->|]; [done|].
  destruct (decide (u = 2%nat)) as [->|]; [done|].
  destruct (decide (u = 3%nat)) as [->|]; [done|].
  destruct (decide (u = 4%nat)) as [->|]; [done|].
  by rewrite !lookup_insert_ne, lookup_singleton_ne.
Qed.

Lemma rwsem_refines_witness :
  (∃ h, h.*1 = granted_trace ∧
     requests (concat h.*2) = grants (concat h.*2) ++ [(4%nat, Write)]) ∧
  enabled (Call 2 UpRead) granted = true ∧
  ∃ s' es, exec (Call 2 UpRead) granted = (Ok tt, s') ∧ explains (abs granted) (Call 2 UpRead) es ∧
    spec_run es (abs granted) (abs s').
Proof.
  assert (run granted_trace boot = Ok granted) as Hr by (vm_compute; reflexivity).
  destruct (rwsem_refines granted_trace granted Hr) as ((h & Hls & _ & Ho) & _ & Hn).
  split; [|split; [vm_compute; reflexivity|apply Hn; vm_compute; reflexivity]].
  exists h. split; [exact Hls|]. rewrite Ho. f_equal.
Defined.

Lemma rwsem_exclusion_witness :
  rtc step boot asleep ∧ wait_lock (sem asleep) = None ∧
  ((activity (sem asleep) = -1 ∧ ∃ t, owners (abs asleep) = {[t := Write]}) ∨
   (activity (sem asleep) = Z.of_nat (size (owners (abs asleep))) ∧
    map_Forall (λ _ m, m = Read) (owners (abs asleep)))).
Proof.
  split; [exact asleep_reachable|]. split; [vm_compute; reflexivity|].
  apply (proj2 (rwsem_exclusion asleep asleep_reachable)). vm_compute. reflexivity.
Defined.

Lemma rwsem_no_lost_wakeup_witness :
  rtc step boot asleep ∧ 2%nat ∈ wait_list (sem asleep) ∧
  ∃ u m', threads asleep !! u = Some (mk_thread Run (Some m')) ∧
    enabled (Call u (match m' with Read => UpRead | Write => UpWrite end)) asleep = true.
Proof.
  split; [exact asleep_reachable|].
  apply (rwsem_no_lost_wakeup asleep 2%nat (WaitSched Read) Read None
           asleep_reachable asleep_stuck); vm_compute; reflexivity.
Defined.

End RwsemTheorems.
