(* ===== verification/Pidmap.v ===== *)
(** * kernel/pid.c: the process identifier bitmap

    [alloc_pidmap] and [free_pidmap] run without a lock, so each is split into its
    accesses to shared memory: [alloc_step] and [free_step] do one access, and the
    local variables of a call in progress are in its program counter.
    [alloc_pidmap] is the same code run alone.  A bitmap page is the set of its
    one bits; [find_next_zero_bit] reads it in one step. *)

From stdpp Require Import prelude numbers list gmap.
From Stdlib Require Import ZArith Lia.
From S2P Require Import Prelude.

#[local] Set Default Goal Selector "!".
#[local] Open Scope Z_scope.

Module Pidmap.

Definition PAGE_SIZE : Z := 4096.
Definition BITS_PER_PAGE : Z := PAGE_SIZE * 8.
Definition BITS_PER_PAGE_MASK : Z := BITS_PER_PAGE - 1.
Definition RESERVED_PIDS : Z := 300.
Definition PID_MAX_DEFAULT : Z := 32768.

(** [pidmap_t] *)
Record pidmap := mk_pidmap {
  nr_free : Z;
  page : option (gset Z);
}.

(** The globals of kernel/pid.c.  [PIDMAP_ENTRIES] is the length of the array: 1
    with 32-bit longs, 128 with 64-bit ones. *)
Record pids := mk_pids {
  pidmap_array : list pidmap;
  last_pid : Z;
  pid_max : Z;
}.

Definition mk_pid (map off : Z) : Z := map * BITS_PER_PAGE + off.

Definition set_array (a : list pidmap) (s : pids) : pids := mk_pids a (last_pid s) (pid_max s).
Definition set_last_pid (p : Z) (s : pids) : pids := mk_pids (pidmap_array s) p (pid_max s).
Definition set_pid_max (p : Z) (s : pids) : pids := mk_pids (pidmap_array s) (last_pid s) p.

(** ** Shared accesses *)

(** Reading and writing the array; leaving it is [Bug]. *)
Definition get_map (map : Z) : SM pids pidmap := λ s,
  match (if 0 <=? map then pidmap_array s !! Z.to_nat map else None) with
  | Some m => (Ok m, s)
  | None => (Bug, s)
  end.
Definition put_map (map : Z) (m : pidmap) : SM pids unit :=
  modify (λ s, set_array (<[Z.to_nat map := m]> (pidmap_array s)) s).

(** The bitmap behind [map->page]; NULL is [Bug]. *)
Definition get_page (map : Z) : SM pids (gset Z) :=
  m ← get_map map;
  match page m with
  | Some p => mret p
  | None => bug
  end.

Definition in_page (offset : Z) : bool := (0 <=? offset) && (offset <? BITS_PER_PAGE).

(** [test_and_set_bit(offset, map->page)], the old bit. *)
Definition test_and_set_bit (offset map : Z) : SM pids bool :=
  m ← get_map map;
  p ← get_page map;
  if in_page offset then
    if decide (offset ∈ p) then mret true
    else put_map map (mk_pidmap (nr_free m) (Some ({[offset]} ∪ p)));; mret false
  else bug.

Definition clear_bit (offset map : Z) : SM pids unit :=
  m ← get_map map;
  p ← get_page map;
  if in_page offset
  then put_map map (mk_pidmap (nr_free m) (Some (p ∖ {[offset]})))
  else bug.

Definition add_nr_free (d map : Z) : SM pids unit :=
  m ← get_map map;
  put_map map (mk_pidmap (nr_free m + d) (page m)).
Definition atomic_inc : Z → SM pids unit := add_nr_free 1.
Definition atomic_dec : Z → SM pids unit := add_nr_free (-1).

(** [find_next_zero_bit(p, size, offset)] *)
Fixpoint next_zero (fuel : nat) (p : gset Z) (size off : Z) : Z :=
  match fuel with
  | O => size
  | S f => if size <=? off then size
           else if decide (off ∈ p) then next_zero f p size (off + 1) else off
  end.
Definition find_next_offset (map off : Z) : SM pids Z :=
  p ← get_page map;
  mret (next_zero (Z.to_nat (BITS_PER_PAGE - off)) p BITS_PER_PAGE off).

(** ** Freeing *)

Inductive free_pc :=
| FClear (pid : Z)      (* clear_bit(offset, map->page); *)
| FInc (pid : Z).       (* atomic_inc(&map->nr_free); *)

(** [None]: the call has returned. *)
Definition free_step (c : free_pc) : SM pids (option free_pc) :=
  match c with
  | FClear pid =>
    clear_bit (Z.land pid BITS_PER_PAGE_MASK) (pid / BITS_PER_PAGE);;
    mret (Some (FInc pid))
  | FInc pid => atomic_inc (pid / BITS_PER_PAGE);; mret None
  end.

Definition free_pidmap (pid : Z) : SM pids unit :=
  free_step (FClear pid);; free_step (FInc pid);; mret tt.

(** ** Allocating *)

(** The local variables of [alloc_pidmap]. *)
Record locals := mk_locals {
  li : Z;
  lmax_scan : Z;
  llast : Z;
  lmap : Z;
  loffset : Z;
  lpid : Z;
}.

Inductive alloc_pc :=
| AStart                (* last = last_pid; ... *)
| AMap (v : locals)     (* if (unlikely(!map->page)) ... *)
| AFree (v : locals)    (* if (likely(atomic_read(&map->nr_free))) *)
| ATest (v : locals)    (* if (!test_and_set_bit(offset, map->page)) *)
| AFind (v : locals)    (* offset = find_next_offset(map, offset); ... *)
| ANext (v : locals)    (* if (map < &pidmap_array[(pid_max-1)/BITS_PER_PAGE]) ... *)
| ADec (v : locals)     (* atomic_dec(&map->nr_free); *)
| ALast (v : locals)    (* last_pid = pid; *)
| ADone (ret : Z).      (* returned *)

(** The head of the [for] loop. *)
Definition for_test (v : locals) : alloc_pc :=
  if li v <=? lmax_scan v then AMap v else ADone (-1).

Definition alloc_start (s : pids) : alloc_pc :=
  let last := last_pid s in
  let pid := last + 1 in
  let pid := if pid_max s <=? pid then RESERVED_PIDS else pid in
  let offset := Z.land pid BITS_PER_PAGE_MASK in
  let max_scan := (pid_max s + BITS_PER_PAGE - 1) / BITS_PER_PAGE
                  - (if offset =? 0 then 1 else 0) in
  for_test (mk_locals 0 max_scan last (pid / BITS_PER_PAGE) offset pid).

(** Install a page if there is none; [got] is what [get_zeroed_page] returned. *)
Definition alloc_map (got : bool) (v : locals) : SM pids alloc_pc :=
  m ← get_map (lmap v);
  match page m with
  | Some _ => mret (AFree v)
  | None =>
    if got then put_map (lmap v) (mk_pidmap (nr_free m) (Some ∅));; mret (AFree v)
    else mret (ADone (-1))
  end.

(** The condition of the [do] loop, after [offset] and [pid] have been set. *)
Definition scan_on (pid_max : Z) (v : locals) : bool :=
  (loffset v <? BITS_PER_PAGE) && (lpid v <? pid_max)
  && (negb (li v =? lmax_scan v) || (lpid v <? llast v)
      || (Z.land (llast v + 1) BITS_PER_PAGE_MASK =? 0)).

Definition alloc_find (v : locals) : SM pids alloc_pc :=
  offset ← find_next_offset (lmap v) (loffset v);
  let v := mk_locals (li v) (lmax_scan v) (llast v) (lmap v) offset (mk_pid (lmap v) offset) in
  max ← gets pid_max;
  mret (if scan_on max v then ATest v else ANext v).

(** The next page, and [++i]. *)
Definition alloc_next (pid_max : Z) (v : locals) : alloc_pc :=
  if lmap v <? (pid_max - 1) / BITS_PER_PAGE then
    let map := lmap v + 1 in
    for_test (mk_locals (li v + 1) (lmax_scan v) (llast v) map 0 (mk_pid map 0))
  else
    let offset := RESERVED_PIDS in
    if llast v =? offset then ADone (-1)
    else for_test (mk_locals (li v + 1) (lmax_scan v) (llast v) 0 offset (mk_pid 0 offset)).

Definition alloc_step (got : bool) (c : alloc_pc) : SM pids alloc_pc :=
  match c with
  | AStart => gets alloc_start
  | AMap v => alloc_map got v
  | AFree v =>
    m ← get_map (lmap v);
    mret (if nr_free m =? 0 then ANext v else ATest v)
  | ATest v =>
    old ← test_and_set_bit (loffset v) (lmap v);
    mret (if old : bool then AFind v else ADec v)
  | AFind v => alloc_find v
  | ANext v => max ← gets pid_max; mret (alloc_next max v)
  | ADec v => atomic_dec (lmap v);; mret (ALast v)
  | ALast v => modify (set_last_pid (lpid v));; mret (ADone (lpid v))
  | ADone ret => mret (ADone ret)
  end.

(** The call run alone; [got i] is the outcome of the page allocation of round [i]. *)
Fixpoint alloc_run (fuel : nat) (got : Z → bool) (c : alloc_pc) : SM pids Z :=
  match c with
  | ADone ret => mret ret
  | _ =>
    match fuel with
    | O => bug
    | S f =>
      c' ← alloc_step (match c with AMap v => got (li v) | _ => true end) c;
      alloc_run f got c'
    end
  end.

(** Steps of one round of the [for] loop, and of the whole call. *)
Definition round_steps : Z := 2 * BITS_PER_PAGE + 4.
Definition alloc_fuel (s : pids) : nat :=
  Z.to_nat (((pid_max s + BITS_PER_PAGE - 1) / BITS_PER_PAGE + 1) * round_steps + 4).

Definition alloc_pidmap (got : Z → bool) : SM pids Z :=
  fuel ← gets alloc_fuel;
  alloc_run fuel got AStart.

(** ** Boot *)

(** The static initializer, with [n] entries. *)
Definition pidmap_static (n : nat) : pids :=
  mk_pids (replicate n (mk_pidmap BITS_PER_PAGE None)) 0 PID_MAX_DEFAULT.

(** [pidmap_init], the part that concerns the bitmap: pid 0 is taken. *)
Definition pidmap_init : SM pids unit :=
  m ← get_map 0;
  put_map 0 (mk_pidmap (nr_free m) (Some ∅));;
  _ ← test_and_set_bit 0 0;
  atomic_dec 0.

End Pidmap.
