(* ===== verification/PidmapFacts.v ===== *)
(** * The process identifier bitmap: allocation run alone

    [alloc_pidmap_spec]: alone, [alloc_pidmap] terminates and returns the first
    free identifier after [last_pid], wrapping around to [RESERVED_PIDS], marks
    exactly that one, and fails only when no page can be had or no identifier but
    [last_pid] itself is free. *)

From stdpp Require Import prelude numbers list gmap.
From Stdlib Require Import ZArith Lia.
From S2P Require Import Prelude Pidmap.

#[local] Set Default Goal Selector "!".
#[local] Open Scope Z_scope.

Module PidmapFacts.
Import Pidmap.

(** ** The bitmap *)

(** The bit of a process identifier. *)
Definition bit_of (a : list pidmap) (q : Z) : Prop :=
  0 <= q ∧
  match a !! Z.to_nat (q / BITS_PER_PAGE) with
  | Some m => match page m with Some p => q mod BITS_PER_PAGE ∈ p | None => False end
  | None => False
  end.

Definition used (s : pids) (q : Z) : Prop := bit_of (pidmap_array s) q.

Definition page_ok (p : gset Z) : Prop := ∀ x, x ∈ p → 0 <= x < BITS_PER_PAGE.

(** [nr_free] is off by [d] while a call is between its two updates. *)
Definition map_ok (d : Z) (m : pidmap) : Prop :=
  match page m with
  | None => nr_free m = BITS_PER_PAGE + d
  | Some p => page_ok p ∧ nr_free m = BITS_PER_PAGE - Z.of_nat (size p) + d
  end.

Definition entries (s : pids) : Z := Z.of_nat (length (pidmap_array s)).

Definition limits_ok (s : pids) : Prop :=
  RESERVED_PIDS < pid_max s <= entries s * BITS_PER_PAGE ∧
  0 <= last_pid s < entries s * BITS_PER_PAGE.

Definition wf (s : pids) : Prop := Forall (map_ok 0) (pidmap_array s) ∧ limits_ok s.

Lemma bpp : BITS_PER_PAGE = 32768. Proof. reflexivity. Qed.

Ltac bpp := rewrite ?bpp in *; unfold RESERVED_PIDS in *; try lia.

Lemma land_page x : Z.land x BITS_PER_PAGE_MASK = x mod BITS_PER_PAGE.
Proof. exact (land_mask x 15 ltac:(lia)). Qed.

Lemma mk_pid_div map off : 0 <= off < BITS_PER_PAGE → mk_pid map off / BITS_PER_PAGE = map.
Proof. intros. unfold mk_pid. bpp. zdm. Qed.

Lemma mk_pid_mod map off : 0 <= off < BITS_PER_PAGE → mk_pid map off mod BITS_PER_PAGE = off.
Proof. intros. unfold mk_pid. bpp. zdm. Qed.

Lemma mk_pid_split q : q = mk_pid (q / BITS_PER_PAGE) (q mod BITS_PER_PAGE).
Proof. unfold mk_pid. bpp. zdm. Qed.

(** The bits of one page. *)
Lemma bit_page a map m p off :
  0 <= map → a !! Z.to_nat map = Some m → page m = Some p → 0 <= off < BITS_PER_PAGE →
  bit_of a (mk_pid map off) ↔ off ∈ p.
Proof.
  intros Hm Ha Hp Ho. unfold bit_of. rewrite mk_pid_div, mk_pid_mod, Ha, Hp by done.
  split; [by intros [_ ?]|]. split; [|done]. unfold mk_pid. bpp.
Qed.

(** A page changes to another: only its own bits change. *)
Lemma bit_insert a map m m' q :
  0 <= map → a !! Z.to_nat map = Some m →
  (∀ off, 0 <= off < BITS_PER_PAGE → q = mk_pid map off →
     match page m' with Some p => off ∈ p | None => False end ↔
     match page m with Some p => off ∈ p | None => False end) →
  bit_of (<[Z.to_nat map := m']> a) q ↔ bit_of a q.
Proof.
  intros Hm Ha Hp. unfold bit_of.
  destruct (decide (0 <= q)) as [Hq|]; [|by split; intros [? _]].
  assert (0 <= q / BITS_PER_PAGE) by (apply Z.div_pos; bpp).
  destruct (decide (q / BITS_PER_PAGE = map)) as [He|Hne].
  - rewrite He, Ha, list_lookup_insert_eq by (by eapply lookup_lt_Some).
    rewrite (Hp (q mod BITS_PER_PAGE)); [done| |].
    + apply Z.mod_pos_bound. bpp.
    + rewrite <- He. apply mk_pid_split.
  - rewrite list_lookup_insert_ne by lia. done.
Qed.

Lemma next_zero_spec fuel p off r :
  r = next_zero fuel p BITS_PER_PAGE off → (Z.to_nat (BITS_PER_PAGE - off) <= fuel)%nat →
  0 <= off <= BITS_PER_PAGE →
  off <= r <= BITS_PER_PAGE ∧ (∀ x, off <= x < r → x ∈ p) ∧ (r < BITS_PER_PAGE → r ∉ p).
Proof.
  intros ->. revert off. induction fuel as [|f IH]; intros off Hf Ho; cbn [next_zero].
  - split; [lia|]. split; [intros; lia|lia].
  - case_zb; [split; [lia|]; split; [intros; lia|lia]|].
    destruct (decide (off ∈ p)) as [Hin|Hin]; [|split; [lia|]; split; [intros; lia|done]].
    destruct (IH (off + 1)) as (H1 & H2 & H3); [lia|lia|].
    split; [lia|]. split; [|done]. intros x Hx.
    destruct (decide (x = off)) as [->|]; [done|]. apply H2. lia.
Qed.

(** A page without a free bit is full. *)
Lemma full_page p x :
  page_ok p → BITS_PER_PAGE - Z.of_nat (size p) = 0 → 0 <= x < BITS_PER_PAGE → x ∈ p.
Proof.
  intros Hp Hs Hx. destruct (decide (x ∈ p)) as [|Hn]; [done|]. exfalso.
  assert (size ({[x]} ∪ p) <= size (list_to_set (seqZ 0 BITS_PER_PAGE) : gset Z))%nat as Hle.
  { apply subseteq_size. intros y Hy. apply elem_of_list_to_set, elem_of_seqZ.
    apply elem_of_union in Hy as [->%elem_of_singleton|Hy]; [lia|]. apply Hp in Hy. lia. }
  rewrite size_union, size_singleton in Hle by (intros y ->%elem_of_singleton; done).
  rewrite size_list_to_set, length_seqZ in Hle by apply NoDup_seqZ. lia.
Qed.

(** ** The scan

    The scan starts at [start], goes up to [pid_max], wraps around to
    [RESERVED_PIDS] and ends where it began.  [pm] and [last] are [pid_max] and
    [last_pid] at the beginning of the call, [U] the set of used identifiers. *)
Section bounds.
Context (pm last : Z).

Definition start : Z := if pm <=? last + 1 then RESERVED_PIDS else last + 1.
Definition pages : Z := (pm + BITS_PER_PAGE - 1) / BITS_PER_PAGE.
Definition scans : Z := pages - (if start mod BITS_PER_PAGE =? 0 then 1 else 0).

Hypothesis Hpm : RESERVED_PIDS < pm.
Hypothesis Hlast : 0 <= last.

Lemma start_range : 0 < start < pm ∧ 0 <= start / BITS_PER_PAGE < pages.
Proof. unfold start, pages. bpp. case_zb; split; try lia; zdm. Qed.

Lemma pages_range : (pages - 1) * BITS_PER_PAGE < pm <= pages * BITS_PER_PAGE.
Proof. unfold pages. bpp. zdm. Qed.

Lemma last_map : (pm - 1) / BITS_PER_PAGE = pages - 1.
Proof. unfold pages. bpp. zdm. Qed.

(** The first pass over the pages ends before the last round. *)
Lemma first_pass i : 0 <= i → start / BITS_PER_PAGE + i < pages → i <> scans.
Proof.
  intros Hi Hp ->. pose proof start_range as [Hs Hk]. unfold scans in *. revert Hp.
  case_zb; [|lia]. intros Hp. assert (start / BITS_PER_PAGE = 0) by lia. bpp. zdm.
Qed.

End bounds.

Section scan.
Context (pm last : Z) (U : Z → Prop).
#[local] Abbreviation start := (start pm last).
#[local] Abbreviation pages := (pages pm).
#[local] Abbreviation scans := (scans pm last).

Definition all_used (a b : Z) : Prop := ∀ q, a <= q < b → U q.

(** Everything the call would consider is in use. *)
Definition exhausted : Prop :=
  ∀ q, last < q < pm ∨ RESERVED_PIDS <= q < pm → q ≠ last → U q.

(** Identifiers considered before [r]. *)
Definition passed (r : Z) : Prop :=
  if start <=? r then all_used start r else all_used start pm ∧ all_used RESERVED_PIDS r.

(** The scan of page [map] in round [i] has come to [pid]. *)
Definition seen (i map pid : Z) : Prop :=
  (map = start / BITS_PER_PAGE + i ∧ map < pages ∧ start <= pid ∧ all_used start pid) ∨
  (map = start / BITS_PER_PAGE + i - pages ∧ RESERVED_PIDS <= pid ∧
   all_used start pm ∧ all_used RESERVED_PIDS pid).

(** The end of the scan of page [map] in round [i]. *)
Definition page_end (i map : Z) : Z :=
  let e := ((map + 1) * BITS_PER_PAGE) `min` pm in
  if (i =? scans) && negb ((last + 1) mod BITS_PER_PAGE =? 0) then e `min` last else e.

Definition in_scan (v : locals) : Prop :=
  llast v = last ∧ lmax_scan v = scans ∧ 0 <= li v <= scans ∧ 0 <= lmap v < pages ∧
  lpid v = mk_pid (lmap v) (loffset v).

Definition scanning (v : locals) : Prop :=
  in_scan v ∧ 0 <= loffset v < BITS_PER_PAGE ∧ lpid v < pm ∧ seen (li v) (lmap v) (lpid v).

(** Between two pages: what [seen] says holds up to the end of the page. *)
Definition page_done (v : locals) : Prop :=
  in_scan v ∧
  ((lmap v = start / BITS_PER_PAGE + li v ∧ all_used start (((lmap v + 1) * BITS_PER_PAGE) `min` pm)) ∨
   (lmap v = start / BITS_PER_PAGE + li v - pages ∧ all_used start pm ∧
    all_used RESERVED_PIDS (page_end (li v) (lmap v)))).

Hypothesis Hpm : RESERVED_PIDS < pm.
Hypothesis Hlast : 0 <= last.

Lemma all_used_mono a b a' b' : all_used a b → a <= a' → b' <= b → all_used a' b'.
Proof. intros H Ha Hb q Hq. apply H. lia. Qed.

Lemma seen_passed i map pid : 0 <= map → seen i map pid → pid < pm → passed pid.
Proof.
  intros Hm Hs Hp. unfold passed. destruct Hs as [(_ & _ & H1 & H2)|(_ & H1 & H2 & H3)].
  - by destruct (Z.leb_spec start pid); [|lia].
  - destruct (Z.leb_spec start pid); [|done]. by eapply all_used_mono; [exact H2|lia|lia].
Qed.

(** The last round leaves nothing. *)
Lemma last_round v : page_done v → li v = scans → exhausted.
Proof.
  intros [(Hl & Hmx & Hi & Hm & _) Hd] Hli.
  pose proof (start_range _ _ Hpm Hlast) as [Hs Hk]. pose proof (pages_range pm) as Hpg.
  unfold scans in Hli. unfold page_end, scans in Hd.
  assert (start = last + 1 ∧ last + 1 < pm ∨ start = RESERVED_PIDS ∧ pm <= last + 1) as Hst.
  { unfold start. case_zb; lia. }
  destruct Hd as [[Hmap _]|(Hmap & H1 & H2)].
  { by destruct (first_pass _ _ Hpm Hlast (li v)); [lia..|]. }
  intros q Hq Hne. destruct (decide (start <= q)) as [Hsq|Hsq]; [apply H1; lia|].
  apply H2. destruct Hst as [[Hst Hlt]|[Hst Hge]]; [|lia].
  split; [lia|]. revert Hli H2. rewrite <- Hst in *.
  destruct (Z.eqb_spec (start mod BITS_PER_PAGE) 0) as [Ha|Ha]; intros Hli _.
  - cbn. rewrite andb_false_r. bpp. zdm.
  - replace (li v =? pages - 0) with true by lia. cbn. bpp. zdm.
Qed.

(** From one page to the next, as the code chooses it. *)
Lemma next_page v :
  page_done v →
  match alloc_next pm v with
  | AMap v' => scanning v' ∧ li v' = li v + 1
  | ADone r => r = -1 ∧ exhausted
  | _ => False
  end.
Proof.
  intros Hd. pose proof (start_range _ _ Hpm Hlast) as [Hs Hk]. pose proof (pages_range pm) as Hpg.
  pose proof Hd as [(Hl & Hmx & Hi & Hm & _) Hcov]. unfold alloc_next, for_test.
  cbn [li lmax_scan]. rewrite last_map, Hmx, Hl.
  destruct (decide (li v = scans)) as [He|Hne].
  { pose proof (last_round _ Hd He) as Hx.
    destruct (Z.leb_spec (li v + 1) scans); [lia|]. repeat case_zb; done. }
  assert (page_end (li v) (lmap v) = ((lmap v + 1) * BITS_PER_PAGE) `min` pm) as Hpe.
  { unfold page_end. by replace (li v =? scans) with false by lia. }
  rewrite Hpe in Hcov. destruct (Z.leb_spec (li v + 1) scans); [|lia].
  destruct (Z.ltb_spec (lmap v) (pages - 1)).
  - split; [|done]. split; [split_and!; cbn; try lia; done|].
    cbn [loffset lpid li lmap]. unfold mk_pid.
    assert ((lmap v + 1) * BITS_PER_PAGE < pm) as Hlt by (bpp; lia).
    split; [bpp|]. split; [lia|].
    rewrite (Z.min_l ((lmap v + 1) * BITS_PER_PAGE) pm) in Hcov by lia.
    rewrite Z.add_0_r. destruct Hcov as [[Hc1 Hc2]|(Hc1 & Hc2 & Hc3)].
    + left. split_and!; [lia|lia| |done]. bpp. zdm.
    + right. split_and!; [lia| |done|done]. bpp.
  - assert (lmap v = pages - 1) as Hlm by lia.
    assert (all_used start pm) as Hall.
    { destruct Hcov as [[_ Hc]|(_ & Hc & _)]; [|done]. eapply all_used_mono; [exact Hc|lia|].
      rewrite Hlm. bpp. }
    destruct (Z.eqb_spec last RESERVED_PIDS) as [HR|HR].
    + split; [done|]. intros q Hq Hn. apply Hall. unfold start.
      destruct (Z.leb_spec pm (last + 1)); lia.
    + split; [|done]. split; [split_and!; cbn; try lia; done|].
      cbn [loffset lpid li lmap]. unfold mk_pid. split; [bpp|]. split; [lia|].
      destruct Hcov as [[Hc1 _]|(Hc1 & _ & Hc3)].
      * right. split_and!; [lia|lia|done|]. intros q Hq. lia.
      * exfalso. unfold scans in *. revert Hi Hne. case_zb; lia.
Qed.

End scan.

(** ** Accesses *)

Lemma wp_get_map map m (Φ : pidmap → pids → Prop) Ψ s :
  0 <= map → pidmap_array s !! Z.to_nat map = Some m → Φ m s → wp (get_map map) Φ Ψ s.
Proof.
  intros Hm Ha HΦ. unfold wp, get_map. destruct (Z.leb_spec 0 map); [|lia]. by rewrite Ha.
Qed.

Lemma wp_get_page map m p (Φ : gset Z → pids → Prop) Ψ s :
  0 <= map → pidmap_array s !! Z.to_nat map = Some m → page m = Some p → Φ p s →
  wp (get_page map) Φ Ψ s.
Proof.
  intros Hm Ha Hp HΦ. unfold get_page. eapply wp_bind, wp_get_map; [done..|].
  rewrite Hp. by apply wp_ret.
Qed.

Lemma wp_test_and_set map off m p (Φ : bool → pids → Prop) Ψ s :
  0 <= map → pidmap_array s !! Z.to_nat map = Some m → page m = Some p →
  0 <= off < BITS_PER_PAGE →
  (off ∈ p → Φ true s) →
  (off ∉ p → Φ false (set_array (<[Z.to_nat map :=
                 mk_pidmap (nr_free m) (Some ({[off]} ∪ p))]> (pidmap_array s)) s)) →
  wp (test_and_set_bit off map) Φ Ψ s.
Proof.
  intros Hm Ha Hp Ho H1 H2. unfold test_and_set_bit.
  eapply wp_bind, wp_get_map; [done..|]. eapply wp_bind, wp_get_page; [done..|].
  unfold in_page. replace ((0 <=? off) && (off <? BITS_PER_PAGE)) with true by lia.
  destruct (decide (off ∈ p)); [apply wp_ret; auto|].
  apply wp_bind, wp_modify, wp_ret. auto.
Qed.

Lemma map_ok_set d m p off :
  map_ok d m → page m = Some p → off ∉ p → 0 <= off < BITS_PER_PAGE →
  map_ok (d + 1) (mk_pidmap (nr_free m) (Some ({[off]} ∪ p))).
Proof.
  unfold map_ok. intros Hm Hp Hn Ho. rewrite Hp in Hm. destruct Hm as [Hpg Hf]. cbn.
  split.
  - intros x [->%elem_of_singleton|Hx]%elem_of_union; [done|]. by apply Hpg.
  - rewrite size_union, size_singleton by (intros y ->%elem_of_singleton; done). lia.
Qed.

Lemma page_bit_set a map m p off q :
  0 <= map → a !! Z.to_nat map = Some m → page m = Some p → 0 <= off < BITS_PER_PAGE →
  bit_of (<[Z.to_nat map := mk_pidmap (nr_free m) (Some ({[off]} ∪ p))]> a) q
  ↔ bit_of a q ∨ q = mk_pid map off.
Proof.
  intros Hm Ha Hp Ho. destruct (decide (q = mk_pid map off)) as [->|Hne].
  - split; [by right|]. intros _.
    eapply bit_page; [done|by apply list_lookup_insert_eq, (lookup_lt_Some _ _ _ Ha)|done|done|].
    apply elem_of_union. left. by apply elem_of_singleton.
  - rewrite bit_insert; [|done|exact Ha|].
    + split; [by left|]. by intros [|].
    + intros x Hx ->. cbn. rewrite Hp, elem_of_union, elem_of_singleton.
      split; [intros [->|]; done|by right].
Qed.

(** Changing the counter changes no bit. *)
Lemma bit_count a map m n q :
  0 <= map → a !! Z.to_nat map = Some m →
  bit_of (<[Z.to_nat map := mk_pidmap n (page m)]> a) q ↔ bit_of a q.
Proof. intros Hm Ha. by rewrite bit_insert. Qed.

(** Installing an empty page changes no bit. *)
Lemma bit_install a map m q :
  0 <= map → a !! Z.to_nat map = Some m → page m = None →
  bit_of (<[Z.to_nat map := mk_pidmap (nr_free m) (Some ∅)]> a) q ↔ bit_of a q.
Proof.
  intros Hm Ha Hp. rewrite bit_insert; [done|done|exact Ha|].
  intros off _ _. cbn. rewrite Hp. split; [by intros ?%elem_of_empty|done].
Qed.

Lemma map_ok_clear d m p off :
  map_ok d m → page m = Some p → off ∈ p →
  map_ok (d - 1) (mk_pidmap (nr_free m) (Some (p ∖ {[off]}))).
Proof.
  unfold map_ok. intros Hm Hp Hin. rewrite Hp in Hm. destruct Hm as [Hpg Hf]. cbn. split.
  - intros x [Hx _]%elem_of_difference. by apply Hpg.
  - rewrite size_difference by (intros x ->%elem_of_singleton; done). rewrite size_singleton.
    assert (size p ≠ 0%nat); [|lia]. intros H0%size_empty_inv. by apply (H0 off) in Hin.
Qed.

Lemma page_bit_clear a map m p off q :
  0 <= map → a !! Z.to_nat map = Some m → page m = Some p → 0 <= off < BITS_PER_PAGE →
  bit_of (<[Z.to_nat map := mk_pidmap (nr_free m) (Some (p ∖ {[off]}))]> a) q
  ↔ bit_of a q ∧ q ≠ mk_pid map off.
Proof.
  intros Hm Ha Hp Ho. destruct (decide (q = mk_pid map off)) as [->|Hne].
  - split; [|by intros [_ []]].
    rewrite bit_page; [|done|by apply list_lookup_insert_eq, (lookup_lt_Some _ _ _ Ha)|done|done].
    intros [_ Hx]%elem_of_difference. by destruct Hx; apply elem_of_singleton.
  - rewrite bit_insert; [by split; [|intros [? _]]|done|exact Ha|].
    intros x Hx ->. cbn. rewrite Hp, elem_of_difference, elem_of_singleton.
    split; [by intros [? _]|]. split; [done|]. by intros ->.
Qed.

(** The page of a used identifier. *)
Lemma used_page s q :
  used s q → ∃ m p, 0 <= q / BITS_PER_PAGE ∧
    pidmap_array s !! Z.to_nat (q / BITS_PER_PAGE) = Some m ∧ page m = Some p ∧
    q mod BITS_PER_PAGE ∈ p.
Proof.
  intros [Hq Hb]. destruct (pidmap_array s !! _) as [m|] eqn:Ha; [|done].
  destruct (page m) as [p|] eqn:Hp; [|done]. exists m, p. split_and!; try done.
  apply Z.div_pos; bpp.
Qed.

Lemma wp_clear_bit map off m p (Φ : unit → pids → Prop) Ψ s :
  0 <= map → pidmap_array s !! Z.to_nat map = Some m → page m = Some p →
  0 <= off < BITS_PER_PAGE →
  Φ tt (set_array (<[Z.to_nat map := mk_pidmap (nr_free m) (Some (p ∖ {[off]}))]>
                    (pidmap_array s)) s) →
  wp (clear_bit off map) Φ Ψ s.
Proof.
  intros Hm Ha Hp Ho H. unfold clear_bit. eapply wp_bind, wp_get_map; [done..|].
  eapply wp_bind, wp_get_page; [done..|]. unfold in_page.
  replace ((0 <=? off) && (off <? BITS_PER_PAGE)) with true by lia. by apply wp_modify.
Qed.

Lemma set_array_limits s map m : limits_ok s → limits_ok (set_array (<[map := m]> (pidmap_array s)) s).
Proof. unfold limits_ok, entries, set_array. cbn. by rewrite length_insert. Qed.

(** ** The call *)

Section call.
Context (pm last : Z) (U : Z → Prop) (got : Z → bool).
Hypothesis Hpm : RESERVED_PIDS < pm.
Hypothesis Hlast : 0 <= last.

(** The shared state while the call is scanning. *)
Definition call_ok (s : pids) : Prop :=
  wf s ∧ pid_max s = pm ∧ last_pid s = last ∧ ∀ q, used s q ↔ U q.

Definition has_page (s : pids) (v : locals) : Prop :=
  ∃ m p, pidmap_array s !! Z.to_nat (lmap v) = Some m ∧ page m = Some p.

Definition pc_ok (s : pids) (c : alloc_pc) : Prop :=
  match c with
  | AMap v => scanning pm last U v
  | AFree v | ATest v => scanning pm last U v ∧ has_page s v
  | AFind v => scanning pm last U v ∧ has_page s v ∧ U (lpid v)
  | ANext v => page_done pm last U v
  | _ => False
  end.

(** Steps left. *)
Definition steps_left (c : alloc_pc) : Z :=
  match c with
  | AMap v => (scans pm last - li v) * round_steps + 2 * BITS_PER_PAGE + 3
  | AFree v => (scans pm last - li v) * round_steps + 2 * BITS_PER_PAGE + 2
  | ATest v => (scans pm last - li v) * round_steps + 2 * (BITS_PER_PAGE - loffset v) + 1
  | AFind v => (scans pm last - li v) * round_steps + 2 * (BITS_PER_PAGE - loffset v)
  | ANext v => (scans pm last - li v) * round_steps
  | _ => 0
  end.

Definition alloc_post (r : Z) (s' : pids) : Prop :=
  wf s' ∧ pid_max s' = pm ∧
  ((r = -1 ∧ last_pid s' = last ∧ (∀ q, used s' q ↔ U q) ∧
    (exhausted pm last U ∨ ∃ i, got i = false)) ∨
   (0 < r < pm ∧ ¬ U r ∧ passed pm last U r ∧ last_pid s' = r ∧
    ∀ q, used s' q ↔ U q ∨ q = r)).

Lemma map_exists s v : call_ok s → in_scan pm last v → ∃ m, pidmap_array s !! Z.to_nat (lmap v) = Some m.
Proof.
  intros ((_ & Hl & _) & Hp & _) (_ & _ & _ & Hm & _). apply lookup_lt_is_Some_2.
  unfold entries in Hl. rewrite Hp in Hl.
  pose proof (pages_range pm). bpp.
Qed.

Lemma map_good s map m : call_ok s → pidmap_array s !! map = Some m → map_ok 0 m.
Proof. intros ((Hf & _) & _) Hm. by eapply Forall_lookup_1. Qed.

Lemma alloc_run_done f r : alloc_run f got (ADone r) = mret r.
Proof. by destruct f. Qed.

(** A successful [test_and_set_bit], with the two steps that follow it. *)
Lemma alloc_taken f v s m p :
  call_ok s → scanning pm last U v →
  pidmap_array s !! Z.to_nat (lmap v) = Some m → page m = Some p → loffset v ∉ p →
  wp (alloc_run (S (S f)) got (ADec v)) alloc_post (λ _ _, False)
    (set_array (<[Z.to_nat (lmap v) :=
                  mk_pidmap (nr_free m) (Some ({[loffset v]} ∪ p))]> (pidmap_array s)) s).
Proof.
  intros Hs [Hin (Ho & Hpid & Hseen)] Ha Hp Hn.
  pose proof Hin as (_ & _ & _ & Hm & Hpv). pose proof (map_good _ _ _ Hs Ha) as Hmok.
  destruct Hs as ((Hf & Hlim) & Hmax & Hl & HU).
  pose proof (lookup_lt_Some _ _ _ Ha) as Hlt.
  cbn [alloc_run]. apply wp_bind. cbn [alloc_step]. apply wp_bind.
  unfold atomic_dec, add_nr_free. eapply wp_bind, wp_get_map;
    [lia|cbn; by apply list_lookup_insert_eq|].
  apply wp_modify, wp_ret. cbn [alloc_run]. apply wp_bind. cbn [alloc_step].
  apply wp_bind, wp_modify, wp_ret. rewrite alloc_run_done. apply wp_ret. cbn.
  rewrite list_insert_insert_eq. unfold set_array, set_last_pid. cbn.
  set (m' := mk_pidmap (nr_free m + -1) (Some ({[loffset v]} ∪ p))).
  assert (map_ok 0 m') as Hm'.
  { pose proof (map_ok_set _ _ _ _ Hmok Hp Hn Ho) as Hx. unfold map_ok in *. cbn in *.
    split; [by apply Hx|]. destruct Hx as [_ Hx]. lia. }
  assert (∀ q, bit_of (<[Z.to_nat (lmap v) := m']> (pidmap_array s)) q ↔ U q ∨ q = lpid v) as Hbit.
  { intros q. rewrite Hpv, <- HU. unfold used. rewrite <- (page_bit_set _ _ _ _ _ _ (proj1 Hm) Ha Hp Ho).
    rewrite <- (list_insert_insert_eq (pidmap_array s) (Z.to_nat (lmap v)) m'
                  (mk_pidmap (nr_free m) (Some ({[loffset v]} ∪ p)))).
    apply (bit_count _ _ (mk_pidmap (nr_free m) (Some ({[loffset v]} ∪ p)))); [lia|].
    by apply list_lookup_insert_eq. }
  assert (0 < lpid v) as Hpos.
  { pose proof (start_range pm last Hpm Hlast) as [Hs _].
    destruct Hseen as [(_ & _ & H & _)|(_ & H & _)]; [lia|bpp]. }
  split; [split|split; [done|right; split_and!]]; cbn; try lia; try done.
  - by apply Forall_insert.
  - unfold limits_ok, entries in *. cbn. rewrite length_insert. lia.
  - rewrite <- HU, Hpv. unfold used.
    by rewrite (bit_page _ _ _ _ _ (proj1 Hm) Ha Hp Ho).
  - eapply seen_passed; [|exact Hseen|done]. lia.
Qed.

(** One step of a scan that goes on. *)
Definition advances (c : alloc_pc) (s : pids) (c' : alloc_pc) (s' : pids) : Prop :=
  (call_ok s' ∧ pc_ok s' c' ∧ steps_left c' < steps_left c) ∨
  (∃ r, c' = ADone r ∧ alloc_post r s').

Lemma not_found s : call_ok s → exhausted pm last U ∨ (∃ i, got i = false) → alloc_post (-1) s.
Proof. intros (Hw & Hm & Hl & HU) Hx. split; [done|]. split; [done|]. by left. Qed.

Lemma step_map v s :
  call_ok s → scanning pm last U v →
  wp (alloc_step (got (li v)) (AMap v)) (advances (AMap v) s) (λ _ _, False) s.
Proof.
  intros Hs Hv. destruct (map_exists _ _ Hs (proj1 Hv)) as [m Ha].
  pose proof Hv as [(_ & _ & _ & Hm & _) _]. cbn [alloc_step]. unfold alloc_map.
  eapply wp_bind, wp_get_map; [lia|exact Ha|]. destruct (page m) as [p|] eqn:Hp.
  - apply wp_ret. left. split; [done|]. split; [|cbn; lia]. split; [done|]. by exists m, p.
  - destruct (got (li v)) eqn:Hg.
    + apply wp_bind, wp_modify, wp_ret. left.
      destruct Hs as ((Hf & Hl) & Hmax & Hlst & HU). split; [split|split; [split|]]; [| | |eexists _, ∅; split|].
      * split; [|by apply set_array_limits]. apply Forall_insert; [done|].
        pose proof (Forall_lookup_1 _ _ _ _ Hf Ha) as Hmo. unfold map_ok in *. cbn.
        rewrite Hp in Hmo. split; [by intros x ?%elem_of_empty|]. rewrite size_empty. lia.
      * split_and!; [done|done|]. intros q. rewrite <- HU. apply bit_install; [lia|done..].
      * exact Hv.
      * cbn. apply list_lookup_insert_eq, (lookup_lt_Some _ _ _ Ha).
      * done.
      * cbn. lia.
    + apply wp_ret. right. eexists. split; [done|]. apply not_found; [done|]. right. eauto.
Qed.

Lemma step_free v s b :
  call_ok s → scanning pm last U v → has_page s v →
  wp (alloc_step b (AFree v)) (advances (AFree v) s) (λ _ _, False) s.
Proof.
  intros Hs Hv (m & p & Ha & Hp). pose proof Hv as [Hin (Ho & Hpid & Hseen)].
  pose proof Hin as (Hl & Hmx & Hi & Hm & Hpv). cbn [alloc_step].
  eapply wp_bind, wp_get_map; [lia|exact Ha|]. apply wp_ret. left.
  destruct (Z.eqb_spec (nr_free m) 0) as [Hz|Hz].
  - split; [done|]. split; [|unfold steps_left; bpp]. split; [done|].
    pose proof (map_good _ _ _ Hs Ha) as Hmo. unfold map_ok in Hmo. rewrite Hp in Hmo.
    assert (∀ q, mk_pid (lmap v) 0 <= q < mk_pid (lmap v + 1) 0 → U q) as Hfull.
    { intros q Hq. destruct Hs as (_ & _ & _ & HU). apply HU. unfold used.
      assert (q = mk_pid (lmap v) (q - mk_pid (lmap v) 0)) as -> by (unfold mk_pid; lia).
      unfold mk_pid in Hq. eapply bit_page; [lia|exact Ha|exact Hp| |].
      - unfold mk_pid. lia.
      - apply full_page; [by apply Hmo| |unfold mk_pid; lia]. destruct Hmo. lia. }
    unfold mk_pid in Hfull, Hpv. destruct Hseen as [(H1 & H2 & H3 & H4)|(H1 & H2 & H3 & H4)].
    + left. split; [done|]. intros q Hq. destruct (decide (q < lpid v)); [apply H4; lia|].
      apply Hfull. lia.
    + right. split_and!; [done|done|]. intros q Hq. unfold page_end in Hq.
      destruct (decide (q < lpid v)); [apply H4; lia|]. apply Hfull.
      destruct (_ && _); lia.
  - split; [done|]. split; [|unfold steps_left; lia]. split; [done|]. by exists m, p.
Qed.

Lemma step_find v s b :
  call_ok s → scanning pm last U v → has_page s v → U (lpid v) →
  wp (alloc_step b (AFind v)) (advances (AFind v) s) (λ _ _, False) s.
Proof.
  intros Hs Hv (m & p & Ha & Hp) HUp. pose proof Hv as [Hin (Ho & Hpid & Hseen)].
  pose proof Hin as (Hl & Hmx & Hi & Hm & Hpv).
  assert (∀ off, 0 <= off < BITS_PER_PAGE → U (mk_pid (lmap v) off) ↔ off ∈ p) as HUb.
  { intros off Hoff. destruct Hs as (_ & _ & _ & HU). rewrite <- HU.
    eapply bit_page; [lia|done..]. }
  cbn [alloc_step]. unfold alloc_find, find_next_offset.
  eapply wp_bind, wp_bind, wp_get_page; [lia|exact Ha|exact Hp|]. apply wp_ret.
  destruct (next_zero_spec _ p (loffset v) _ eq_refl (le_n _) ltac:(lia)) as (Hr1 & Hr2 & Hr3).
  set (r := next_zero _ _ _ _) in *. clearbody r.
  assert (loffset v < r) as Hlt.
  { destruct (decide (loffset v = r)) as [E|]; [|lia]. destruct Hr3; [lia|].
    apply HUb; [lia|]. by rewrite <- E, <- Hpv. }
  assert (all_used U (lpid v) (mk_pid (lmap v) r)) as Hgap.
  { intros q Hq. rewrite Hpv in Hq. unfold mk_pid in Hq.
    replace q with (mk_pid (lmap v) (q - lmap v * BITS_PER_PAGE)) by (unfold mk_pid; lia).
    apply HUb; [lia|]. apply Hr2. lia. }
  apply wp_bind, wp_gets, wp_ret. left. split; [done|].
  set (v' := mk_locals _ _ _ _ _ _).
  assert (pid_max s = pm) as -> by apply Hs.
  assert (in_scan pm last v') as Hin' by done.
  destruct (scan_on pm v') eqn:Hon.
  - unfold scan_on in Hon. cbn in Hon. apply andb_true_iff in Hon as [[H1 H2]%andb_true_iff _].
    zb_hyps. split; [|cbn; lia]. split; [|by exists m, p].
    split; [done|]. cbn. split; [lia|]. split; [done|].
    destruct Hseen as [(Hx1 & Hx2 & Hx3 & Hx4)|(Hx1 & Hx2 & Hx3 & Hx4)].
    + left. split_and!; try done; [unfold mk_pid in *; lia|].
      intros q Hq. destruct (decide (q < lpid v)); [apply Hx4|apply Hgap]; lia.
    + right. split_and!; try done; [unfold mk_pid in *; lia|].
      intros q Hq. destruct (decide (q < lpid v)); [apply Hx4|apply Hgap]; lia.
  - split; [|cbn; unfold round_steps; bpp]. split; [done|]. cbn [li lmap v'].
    assert (∀ q, lpid v <= q < page_end pm last (li v) (lmap v) → q < mk_pid (lmap v) r) as Hend.
    { intros q Hq. unfold page_end in Hq. rewrite <- land_page in Hq.
      unfold scan_on in Hon. cbn in Hon. rewrite Hmx, Hl in Hon. unfold mk_pid in *.
      apply andb_false_iff in Hon as [[H1|H1]%andb_false_iff|Hon].
      - apply Z.ltb_ge in H1. destruct (_ && _); lia.
      - apply Z.ltb_ge in H1. destruct (_ && _); lia.
      - destruct (li v =? scans pm last), (Z.land (last + 1) BITS_PER_PAGE_MASK =? 0);
          cbn [negb andb orb] in *; zb_hyps; try done; lia. }
    destruct Hseen as [(Hx1 & Hx2 & Hx3 & Hx4)|(Hx1 & Hx2 & Hx3 & Hx4)].
    + left. split; [done|]. pose proof (first_pass _ _ Hpm Hlast (li v)) as Hne.
      unfold page_end in Hend. replace (li v =? scans pm last) with false in Hend by lia.
      intros q Hq. destruct (decide (q < lpid v)); [by apply Hx4; lia|]. apply Hgap.
      split; [lia|]. apply Hend. cbn. lia.
    + right. split_and!; [done|done|]. intros q Hq.
      destruct (decide (q < lpid v)); [by apply Hx4; lia|]. apply Hgap.
      split; [lia|]. apply Hend. lia.
Qed.

Lemma step_next v s b :
  call_ok s → page_done pm last U v →
  wp (alloc_step b (ANext v)) (advances (ANext v) s) (λ _ _, False) s.
Proof.
  intros Hs Hv. cbn [alloc_step]. apply wp_bind, wp_gets, wp_ret.
  assert (pid_max s = pm) as -> by apply Hs.
  pose proof (next_page pm last U Hpm Hlast _ Hv) as Hn.
  destruct (alloc_next pm v); try done.
  - destruct Hn as [Hn Hi]. left. split; [done|]. split; [done|]. cbn. rewrite Hi.
    unfold round_steps. bpp.
  - destruct Hn as [-> Hx]. right. eexists. split; [done|]. apply not_found; [done|]. by left.
Qed.

Lemma steps_left_pos s c : pc_ok s c → 0 <= steps_left c.
Proof.
  destruct c; try done; cbn; unfold round_steps;
    [intros [(_ & _ & Hi & _) (Ho & _)]|intros [[(_ & _ & Hi & _) (Ho & _)] _]..|
     intros [(_ & _ & Hi & _) _]]; bpp.
Qed.

(** The test of a bit: taken, and the call is about to finish; or seen set. *)
Lemma alloc_run_spec fuel c s :
  call_ok s → pc_ok s c → steps_left c + 2 < Z.of_nat fuel →
  wp (alloc_run fuel got c) alloc_post (λ _ _, False) s.
Proof.
  revert c s. induction fuel as [|f IH]; intros c s Hs Hc Hf.
  { pose proof (steps_left_pos _ _ Hc). lia. }
  assert (∀ b, (∀ v, c = AMap v → b = got (li v)) →
     wp (alloc_step b c) (advances c s) (λ _ _, False) s →
     wp (alloc_step b c ≫= alloc_run f got) alloc_post (λ _ _, False) s) as Hgo.
  { intros b _ Hw. apply wp_bind. eapply wp_mono; [exact Hw|].
    intros c' s' [(Hs' & Hc' & Hlt)|(r & -> & Hr)].
    - apply IH; [done..|lia].
    - rewrite alloc_run_done. by apply wp_ret. }
  destruct c as [|v|v|v|v|v|v|v|r]; try done; cbn [alloc_run].
  - apply Hgo; [by intros ? [= ->]|]. by apply step_map.
  - destruct Hc. apply Hgo; [done|]. by apply step_free.
  - destruct Hc as [Hv (m & p & Ha & Hp)]. pose proof Hv as [(_ & _ & Hi & Hm & Hpv) (Ho & _)].
    cbn [alloc_step]. apply wp_bind, wp_bind. eapply wp_test_and_set; [lia|exact Ha|exact Hp|done|..].
    + intros Hin. apply wp_ret, IH; [done| |cbn in *; lia].
      split; [done|]. split; [by exists m, p|].
      destruct Hs as (_ & _ & _ & HU). apply HU. rewrite Hpv. eapply bit_page; [lia|done..].
    + intros Hn. apply wp_ret. cbn in Hf. unfold round_steps in Hf.
      destruct f as [|[|f]]; [bpp..|]. by apply alloc_taken.
  - destruct Hc as (Hv & Hpg & HU). apply Hgo; [done|]. by apply step_find.
  - apply Hgo; [done|]. by apply step_next.
Qed.

End call.

(** [alloc_pidmap] run alone. *)
Lemma alloc_pidmap_spec got s :
  wf s →
  wp (alloc_pidmap got) (alloc_post (pid_max s) (last_pid s) (used s) got) (λ _ _, False) s.
Proof.
  intros Hwf. pose proof Hwf as [_ [Hpm Hl]]. unfold alloc_pidmap. apply wp_bind, wp_gets.
  set (pm := pid_max s). set (last := last_pid s).
  pose proof (start_range pm last ltac:(subst pm; lia) ltac:(subst last; lia)) as [Hs Hk].
  pose proof (pages_range pm) as Hpg.
  assert (alloc_start s = AMap (mk_locals 0 (scans pm last) last
            (start pm last / BITS_PER_PAGE) (start pm last mod BITS_PER_PAGE) (start pm last))) as Hst.
  { unfold alloc_start. fold pm last. fold (start pm last). rewrite land_page.
    fold (pages pm). fold (scans pm last). unfold for_test. cbn [li lmax_scan].
    destruct (Z.leb_spec 0 (scans pm last)); [done|]. unfold scans in *. revert H. case_zb; lia. }
  assert (scanning pm last (used s) (mk_locals 0 (scans pm last) last
            (start pm last / BITS_PER_PAGE) (start pm last mod BITS_PER_PAGE) (start pm last)))
    as Hscan.
  { split; [|split; [|split; [cbn; lia|]]].
    - unfold in_scan. cbn. split_and!; try done; try lia; [|apply mk_pid_split].
      unfold scans. case_zb; lia.
    - cbn. apply Z.mod_pos_bound. bpp.
    - left. cbn. split_and!; [lia|lia|lia|]. intros q Hq. lia. }
  assert (scans pm last <= pages pm) as Hsc by (unfold scans; case_zb; lia).
  unfold alloc_fuel. fold pm. fold (pages pm).
  set (F := Z.to_nat _). assert (Z.of_nat F = (pages pm + 1) * round_steps + 4) as HF.
  { subst F. apply Z2Nat.id. unfold round_steps. bpp. }
  clearbody F. destruct F as [|F]; [unfold round_steps in HF; bpp|].
  cbn [alloc_run]. apply wp_bind. cbn [alloc_step]. apply wp_gets. rewrite Hst.
  apply alloc_run_spec; [subst pm; lia|subst last; lia|done|done|].
  cbn [steps_left li]. unfold round_steps in *. bpp.
Qed.



End PidmapFacts.
