(* ===== verification/PidmapConc.v ===== *)
(** * The process identifier bitmap: callers without a lock

    Any number of tasks run [alloc_pidmap] and [free_pidmap] at the same time, one
    shared access after the other in any order, while [pid_max] changes.  No access
    faults, no identifier is given to two tasks, and when no call is in progress
    the counters [nr_free] are exact. *)

From stdpp Require Import prelude numbers list gmap relations.
From Stdlib Require Import ZArith Lia.
From S2P Require Import Prelude Pidmap PidmapFacts.

#[local] Set Default Goal Selector "!".
#[local] Open Scope Z_scope.

Module PidmapConc.
Import Pidmap PidmapFacts.

(** ** Callers *)

Inductive activity :=
| Idle
| Allocating (c : alloc_pc)
| Freeing (c : free_pc).

(** [owned]: identifiers the task has got and not given back. *)
Record caller := mk_caller {
  doing : activity;
  owned : gset Z;
}.

Record system := mk_system {
  shared : pids;
  callers : list caller;
}.

Inductive event :=
| Alloc (t : nat)                  (* call alloc_pidmap *)
| Free (t : nat) (pid : Z)         (* call free_pidmap *)
| Go (t : nat) (got : bool)        (* one shared access *)
| SetMax (n : Z).                  (* write /proc/sys/kernel/pid_max *)

Definition enabled (e : event) (y : system) : bool :=
  match e with
  | Alloc t =>
    match callers y !! t with Some (mk_caller Idle _) => true | _ => false end
  | Free t pid =>
    match callers y !! t with
    | Some (mk_caller Idle o) => bool_decide (pid ∈ o)
    | _ => false
    end
  | Go t _ =>
    match callers y !! t with
    | Some (mk_caller Idle _) | None => false
    | Some _ => true
    end
  | SetMax n => (RESERVED_PIDS <? n) && (n <=? entries (shared y) * BITS_PER_PAGE)
  end.

(** A caller after one access. *)
Definition after_alloc (c : alloc_pc) (o : gset Z) : caller :=
  match c with
  | ADone r => mk_caller Idle (if 0 <=? r then {[r]} ∪ o else o)
  | _ => mk_caller (Allocating c) o
  end.

Definition caller_step (got : bool) (th : caller) : SM pids caller :=
  match doing th with
  | Idle => mret th
  | Allocating c => c' ← alloc_step got c; mret (after_alloc c' (owned th))
  | Freeing c =>
    c' ← free_step c;
    mret (match c' with
          | Some c' => mk_caller (Freeing c') (owned th)
          | None => mk_caller Idle (owned th)
          end)
  end.

Definition exec (e : event) (y : system) : outcome system :=
  match e with
  | Alloc t =>
    match callers y !! t with
    | Some th => Ok (mk_system (shared y) (<[t := mk_caller (Allocating AStart) (owned th)]> (callers y)))
    | None => Bug
    end
  | Free t pid =>
    match callers y !! t with
    | Some th => Ok (mk_system (shared y)
        (<[t := mk_caller (Freeing (FClear pid)) (owned th ∖ {[pid]})]> (callers y)))
    | None => Bug
    end
  | Go t got =>
    match callers y !! t with
    | Some th =>
      match caller_step got th (shared y) with
      | (Ok th', s') => Ok (mk_system s' (<[t := th']> (callers y)))
      | _ => Bug
      end
    | None => Bug
    end
  | SetMax n => Ok (mk_system (set_pid_max n (shared y)) (callers y))
  end.

Inductive step : system → system → Prop :=
| step_exec e y y' : enabled e y = true → exec e y = Ok y' → step y y'.

(** [n] pages, [k] further tasks; the first one is the swapper, which owns pid 0. *)
Definition boot (n k : nat) : system :=
  mk_system (snd (pidmap_init (pidmap_static n)))
            (mk_caller Idle {[0]} :: replicate k (mk_caller Idle ∅)).

(** ** The invariant *)

(** The identifiers whose bit a caller answers for. *)
Definition in_flight (a : activity) : gset Z :=
  match a with
  | Allocating (ADec v) | Allocating (ALast v) => {[lpid v]}
  | Freeing (FClear pid) => {[pid]}
  | _ => ∅
  end.

(** What a caller still has to add to [nr_free] of page [map]. *)
Definition debt (map : Z) (th : caller) : Z :=
  match doing th with
  | Allocating (ADec v) => if decide (lmap v = map) then 1 else 0
  | Freeing (FInc pid) => if decide (pid / BITS_PER_PAGE = map) then -1 else 0
  | _ => 0
  end.

Definition sum_debt (map : Z) (ths : list caller) : Z :=
  foldr (λ th a, debt map th + a) 0 ths.

Definition locals_ok (s : pids) (v : locals) : Prop :=
  0 <= lmap v < entries s ∧ lpid v = mk_pid (lmap v) (loffset v) ∧ 0 <= llast v.

Definition paged (s : pids) (map : Z) : Prop :=
  0 <= map ∧ ∃ m p, pidmap_array s !! Z.to_nat map = Some m ∧ page m = Some p.

Definition doing_ok (s : pids) (a : activity) : Prop :=
  match a with
  | Allocating (AMap v) => locals_ok s v ∧ 0 <= loffset v < BITS_PER_PAGE
  | Allocating (AFree v) | Allocating (ATest v) | Allocating (AFind v)
  | Allocating (ADec v) | Allocating (ALast v) =>
    locals_ok s v ∧ 0 <= loffset v < BITS_PER_PAGE ∧ paged s (lmap v)
  | Allocating (ANext v) => locals_ok s v
  | Freeing (FInc pid) => paged s (pid / BITS_PER_PAGE)
  | Allocating (ADone _) => False
  | _ => True
  end.

Definition disjoint_claims (ths : list caller) : Prop :=
  ∀ t1 t2 th1 th2 q, ths !! t1 = Some th1 → ths !! t2 = Some th2 →
    q ∈ owned th1 ∪ in_flight (doing th1) → q ∈ owned th2 ∪ in_flight (doing th2) → t1 = t2.

Definition inv (y : system) : Prop :=
  limits_ok (shared y) ∧
  (∀ map m, 0 <= map → pidmap_array (shared y) !! Z.to_nat map = Some m →
     map_ok (sum_debt map (callers y)) m) ∧
  (∀ q, used (shared y) q ↔
     ∃ t th, callers y !! t = Some th ∧ q ∈ owned th ∪ in_flight (doing th)) ∧
  disjoint_claims (callers y) ∧
  (∀ t th, callers y !! t = Some th →
     doing_ok (shared y) (doing th) ∧ owned th ## in_flight (doing th)).

(** ** One caller changes *)

Abbreviation claims th := (owned th ∪ in_flight (doing th)).

Lemma sum_debt_insert map ths t th th' :
  ths !! t = Some th →
  sum_debt map (<[t := th']> ths) = sum_debt map ths - debt map th + debt map th'.
Proof.
  unfold sum_debt. revert t.
  induction ths as [|x ths IH]; intros [|t] Ht; try done.
  - injection Ht as ->. cbn. lia.
  - change (<[S t := th']> (x :: ths)) with (x :: <[t := th']> ths). cbn [foldr].
    rewrite (IH _ Ht). lia.
Qed.

Lemma locals_ok_mono s s' v : entries s' = entries s → locals_ok s v → locals_ok s' v.
Proof. unfold locals_ok. by intros ->. Qed.

Lemma doing_ok_mono s s' a :
  entries s' = entries s → (∀ map, paged s map → paged s' map) →
  doing_ok s a → doing_ok s' a.
Proof.
  intros He Hp. destruct a as [|[]|[]]; cbn; try done; [..|by apply Hp];
    intros H; repeat match goal with H : _ ∧ _ |- _ => destruct H end; split_and?;
    eauto using locals_ok_mono.
Qed.

Lemma caller_update y t th th' s' :
  inv y → callers y !! t = Some th →
  limits_ok s' → entries s' = entries (shared y) →
  (∀ map, paged (shared y) map → paged s' map) →
  (∀ map m, 0 <= map → pidmap_array s' !! Z.to_nat map = Some m →
     map_ok (sum_debt map (callers y) - debt map th + debt map th') m) →
  (∀ q, used s' q ↔ used (shared y) q ∧ q ∉ claims th ∨ q ∈ claims th') →
  (∀ q, q ∈ claims th' → q ∉ claims th → ¬ used (shared y) q) →
  doing_ok s' (doing th') → owned th' ## in_flight (doing th') →
  inv (mk_system s' (<[t := th']> (callers y))).
Proof.
  intros (Hl & Hm & Hu & Hd & Hc) Ht Hl' He Hp Hm' Hu' Hnew Hok Hdis.
  pose proof (lookup_lt_Some _ _ _ Ht) as Hlt.
  split_and!; cbn [shared callers].
  - done.
  - intros map m Hmap Ha. rewrite (sum_debt_insert _ _ _ _ _ Ht). by apply Hm'.
  - intros q. rewrite Hu'. split.
    + intros [[(t' & th1 & Ht' & Hq)%Hu Hn]|Hq].
      * exists t', th1. rewrite list_lookup_insert_ne; [done|]. intros <-.
        rewrite Ht in Ht'. by injection Ht' as <-.
      * exists t, th'. by rewrite list_lookup_insert_eq.
    + intros (t' & th1 & Ht' & Hq). destruct (decide (t' = t)) as [->|Hne].
      * rewrite list_lookup_insert_eq in Ht' by done. injection Ht' as <-. by right.
      * rewrite list_lookup_insert_ne in Ht' by done. left. split; [apply Hu; eauto|].
        intros Hq'. by apply Hne, (Hd _ _ _ _ q Ht' Ht).
  - assert (∀ t2 th2 q, t ≠ t2 → callers y !! t2 = Some th2 → q ∈ claims th' → q ∈ claims th2 → False)
      as Hx.
    { intros t2 th2 q Hne H2 Hq1 Hq2. destruct (decide (q ∈ claims th)) as [Hin|Hin].
      - by apply Hne, (Hd _ _ _ _ q Ht H2).
      - apply (Hnew q Hq1 Hin), Hu. eauto. }
    intros t1 t2 th1 th2 q H1 H2 Hq1 Hq2.
    destruct (decide (t1 = t)) as [->|N1], (decide (t2 = t)) as [->|N2]; [done|..].
    + rewrite list_lookup_insert_eq in H1 by done. injection H1 as <-.
      rewrite list_lookup_insert_ne in H2 by done. exfalso. by apply (Hx t2 th2 q).
    + rewrite list_lookup_insert_eq in H2 by done. injection H2 as <-.
      rewrite list_lookup_insert_ne in H1 by done. exfalso. by apply (Hx t1 th1 q).
    + rewrite list_lookup_insert_ne in H1, H2 by done. by apply (Hd _ _ _ _ q H1 H2).
  - intros t' th1 Ht'. destruct (decide (t' = t)) as [->|Hne].
    + rewrite list_lookup_insert_eq in Ht' by done. by injection Ht' as <-.
    + rewrite list_lookup_insert_ne in Ht' by done. destruct (Hc _ _ Ht') as [H1 H2].
      split; [|done]. by eapply doing_ok_mono.
Qed.

(** The shared state stays as it is, and so do the caller's claims and debts. *)
Lemma caller_local y t th th' :
  inv y → callers y !! t = Some th →
  (∀ q, q ∈ claims th' ↔ q ∈ claims th) → (∀ map, debt map th' = debt map th) →
  doing_ok (shared y) (doing th') → owned th' ## in_flight (doing th') →
  inv (mk_system (shared y) (<[t := th']> (callers y))).
Proof.
  intros Hinv Ht Hcl Hdebt Hok Hdis. pose proof Hinv as (Hl & Hm & Hu & _ & _).
  eapply caller_update; [done..| | | |done|done].
  - intros map m Hmap Ha. rewrite Hdebt.
    replace (_ - _ + _) with (sum_debt map (callers y)) by lia. by apply Hm.
  - intros q. rewrite Hcl. split; [|intros [[? _]|Hq]; [done|apply Hu; eauto]].
    intros Hq. destruct (decide (q ∈ claims th)); [by right|by left].
  - intros q Hq Hn. by apply Hcl in Hq.
Qed.

(** One entry of the array changes with the caller. *)
Lemma caller_page y t th th' map m m' :
  inv y → callers y !! t = Some th →
  0 <= map → pidmap_array (shared y) !! Z.to_nat map = Some m →
  (is_Some (page m) → is_Some (page m')) →
  (∀ map', map' ≠ map → debt map' th' = debt map' th) →
  (map_ok (sum_debt map (callers y)) m →
   map_ok (sum_debt map (callers y) - debt map th + debt map th') m') →
  let s' := set_array (<[Z.to_nat map := m']> (pidmap_array (shared y))) (shared y) in
  (∀ q, used s' q ↔ used (shared y) q ∧ q ∉ claims th ∨ q ∈ claims th') →
  (∀ q, q ∈ claims th' → q ∉ claims th → ¬ used (shared y) q) →
  doing_ok s' (doing th') → owned th' ## in_flight (doing th') →
  inv (mk_system s' (<[t := th']> (callers y))).
Proof.
  intros Hinv Ht Hmap Ha Hpg Hdebt Hm' s' Hu Hnew Hok Hdis.
  pose proof Hinv as (Hl & Hm & _ & _ & _). pose proof (lookup_lt_Some _ _ _ Ha) as Hlt.
  eapply caller_update; [done..| | | | |done|done|done|done].
  - by apply set_array_limits.
  - unfold entries, s', set_array. cbn. by rewrite length_insert.
  - intros map' (H0 & m1 & p1 & H1 & H2). split; [done|].
    destruct (decide (map' = map)) as [->|Hne].
    + rewrite Ha in H1. injection H1 as <-. destruct Hpg as [p' Hp']; [by eexists|].
      exists m', p'. cbn. by rewrite list_lookup_insert_eq.
    + exists m1, p1. cbn. rewrite list_lookup_insert_ne by lia. done.
  - intros map' m1 H0 H1. cbn in H1. destruct (decide (map' = map)) as [->|Hne].
    + rewrite list_lookup_insert_eq in H1 by done. injection H1 as <-. apply Hm'.
      by apply Hm.
    + rewrite list_lookup_insert_ne in H1 by lia. rewrite Hdebt by done.
      replace (_ - _ + _) with (sum_debt map' (callers y)) by lia. by apply Hm.
Qed.

Lemma paged_insert s map m m' map' :
  0 <= map → pidmap_array s !! Z.to_nat map = Some m → is_Some (page m') →
  paged s map' ∨ map' = map →
  paged (set_array (<[Z.to_nat map := m']> (pidmap_array s)) s) map'.
Proof.
  intros Hmap Ha [p' Hp'] Hor. pose proof (lookup_lt_Some _ _ _ Ha) as Hlt.
  destruct (decide (map' = map)) as [->|Hne].
  - split; [done|]. exists m', p'. cbn. by rewrite list_lookup_insert_eq.
  - destruct Hor as [(H0 & m1 & p1 & H1 & H2)|]; [|done]. split; [done|]. exists m1, p1. cbn.
    rewrite list_lookup_insert_ne by lia. done.
Qed.

Lemma entry_exists s map : 0 <= map < entries s → ∃ m, pidmap_array s !! Z.to_nat map = Some m.
Proof. intros H. apply lookup_lt_is_Some_2. unfold entries in H. lia. Qed.

(** The first identifier to consider is within the array. *)
Lemma alloc_start_ok s : limits_ok s → doing_ok s (Allocating (alloc_start s)).
Proof.
  intros [Hpm Hl]. pose proof (start_range (pid_max s) (last_pid s)) as Hs.
  destruct Hs as [Hs Hk]; [lia..|]. pose proof (pages_range (pid_max s)) as Hpg.
  unfold alloc_start. fold (start (pid_max s) (last_pid s)). rewrite land_page.
  fold (pages (pid_max s)). fold (scans (pid_max s) (last_pid s)). unfold for_test. cbn [li lmax_scan].
  destruct (Z.leb_spec 0 (scans (pid_max s) (last_pid s))).
  - split; [|cbn; apply Z.mod_pos_bound; bpp]. unfold locals_ok. cbn.
    split_and!; [lia|bpp|apply mk_pid_split|lia].
  - unfold scans in *. exfalso. revert H. case_zb; lia.
Qed.

(** So is the next page, if there is one. *)
Lemma alloc_next_ok s v o :
  limits_ok s → locals_ok s v →
  doing_ok s (doing (after_alloc (alloc_next (pid_max s) v) o)) ∧
  claims (after_alloc (alloc_next (pid_max s) v) o) = o ∪ ∅ ∧
  (∀ map, debt map (after_alloc (alloc_next (pid_max s) v) o) = 0) ∧
  in_flight (doing (after_alloc (alloc_next (pid_max s) v) o)) = ∅.
Proof.
  intros [Hpm Hl] (Hm & Hp & Hla). pose proof (pages_range (pid_max s)) as Hpg.
  unfold alloc_next, for_test. rewrite last_map. cbn [li lmax_scan].
  assert (pages (pid_max s) <= entries s) as Hpe by bpp.
  destruct (Z.ltb_spec (lmap v) (pages (pid_max s) - 1)).
  - case_zb; cbn; [|done]. unfold locals_ok. cbn. split_and!; try done; bpp.
  - destruct (llast v =? RESERVED_PIDS); [done|]. case_zb; cbn; [|done]. unfold locals_ok. cbn.
    split_and!; try done; bpp.
Qed.

(** ** Steps *)

Definition step_ok (y : system) (t : nat) (th' : caller) (s' : pids) : Prop :=
  inv (mk_system s' (<[t := th']> (callers y))).

Abbreviation steps_to m y t := (wp m (step_ok y t) (λ _ _, False) (shared y)).

(** A step that only moves the program counter. *)
Lemma alloc_move_ok y t o c c' :
  inv y → callers y !! t = Some (mk_caller (Allocating c) o) →
  in_flight (Allocating c) = ∅ → (∀ map, debt map (mk_caller (Allocating c) o) = 0) →
  in_flight (Allocating c') = ∅ → (∀ map, debt map (mk_caller (Allocating c') o) = 0) →
  doing_ok (shared y) (Allocating c') →
  step_ok y t (mk_caller (Allocating c') o) (shared y).
Proof.
  intros Hinv Ht Hf Hd Hf' Hd' Hok. eapply caller_local; [done..| | | |]; cbn [owned doing].
  - by rewrite Hf, Hf'.
  - intros map. by rewrite Hd, Hd'.
  - done.
  - rewrite Hf'. apply disjoint_empty_r.
Qed.

Lemma go_map y t o v got :
  inv y → callers y !! t = Some (mk_caller (Allocating (AMap v)) o) →
  steps_to (caller_step got (mk_caller (Allocating (AMap v)) o)) y t.
Proof.
  intros Hinv Ht. pose proof Hinv as (Hl & Hm & Hu & _ & Hc).
  destruct (Hc _ _ Ht) as [[Hv Ho] _]. cbn in Hv. pose proof Hv as (Hmap & _).
  destruct (entry_exists _ _ Hmap) as [m Ha]. unfold caller_step. cbn [doing owned alloc_step].
  unfold alloc_map.
  eapply wp_bind, wp_bind, wp_get_map; [lia|exact Ha|]. destruct (page m) as [p|] eqn:Hp.
  - apply wp_ret, wp_ret. eapply alloc_move_ok; [done..|].
    split; [done|]. split; [done|]. split; [lia|]. by exists m, p.
  - destruct got; [|apply wp_ret, wp_ret; by eapply caller_local].
    apply wp_bind, wp_modify, wp_ret, wp_ret.
    eapply caller_page; [exact Hinv|exact Ht|lia|exact Ha|by eexists|done| |..]; cbn [owned doing in_flight after_alloc].
    + rewrite Z.sub_add. unfold map_ok. rewrite Hp. cbn. intros ->.
      split; [by intros x ?%elem_of_empty|]. rewrite size_empty. lia.
    + intros q. unfold used at 1. cbn. rewrite bit_install by (done || lia).
      fold (used (shared y) q). split.
      * intros Hq. destruct (decide (q ∈ o ∪ ∅)); [by right|by left].
      * intros [[? _]|Hq]; [done|]. apply Hu. by eexists _, _.
    + done.
    + cbn. split; [|split; [done|]].
      * eapply locals_ok_mono; [|exact Hv]. unfold entries. cbn. by rewrite length_insert.
      * apply paged_insert with m; [lia|done|by eexists|by right].
    + apply disjoint_empty_r.
Qed.

Lemma go_free y t o v got :
  inv y → callers y !! t = Some (mk_caller (Allocating (AFree v)) o) →
  steps_to (caller_step got (mk_caller (Allocating (AFree v)) o)) y t.
Proof.
  intros Hinv Ht. pose proof Hinv as (Hl & Hm & Hu & _ & Hc).
  destruct (Hc _ _ Ht) as [Hok _]. cbn in Hok. pose proof Hok as (Hv & Ho & H0 & m & p & Ha & Hp).
  unfold caller_step. cbn [doing owned alloc_step].
  eapply wp_bind, wp_bind, wp_get_map; [done|exact Ha|]. apply wp_ret, wp_ret.
  destruct (nr_free m =? 0); by eapply alloc_move_ok.
Qed.

Lemma go_find y t o v got :
  inv y → callers y !! t = Some (mk_caller (Allocating (AFind v)) o) →
  steps_to (caller_step got (mk_caller (Allocating (AFind v)) o)) y t.
Proof.
  intros Hinv Ht. pose proof Hinv as (Hl & Hm & Hu & _ & Hc).
  destruct (Hc _ _ Ht) as [Hok _]. cbn in Hok.
  pose proof Hok as ((Hmap & Hpv & Hla) & Ho & H0 & m & p & Ha & Hp).
  unfold caller_step. cbn [doing owned alloc_step]. unfold alloc_find, find_next_offset.
  eapply wp_bind, wp_bind, wp_bind, wp_get_page; [done|exact Ha|exact Hp|]. apply wp_ret.
  destruct (next_zero_spec _ p (loffset v) _ eq_refl (le_n _) ltac:(lia)) as (Hr1 & _).
  set (r := next_zero _ _ _ _) in *. clearbody r. apply wp_bind, wp_gets, wp_ret, wp_ret.
  set (v' := mk_locals _ _ _ _ _ _).
  assert (locals_ok (shared y) v') as Hv' by done.
  destruct (scan_on (pid_max (shared y)) v') eqn:Hon; eapply alloc_move_ok; try done.
  cbn. unfold scan_on in Hon. cbn in Hon. zb_hyps. split; [done|]. split; [lia|].
  split; [done|]. by exists m, p.
Qed.

Lemma go_next y t o v got :
  inv y → callers y !! t = Some (mk_caller (Allocating (ANext v)) o) →
  steps_to (caller_step got (mk_caller (Allocating (ANext v)) o)) y t.
Proof.
  intros Hinv Ht. pose proof Hinv as (Hl & _ & _ & _ & Hc).
  destruct (Hc _ _ Ht) as [Hok _]. cbn in Hok.
  unfold caller_step. cbn [doing owned alloc_step].
  apply wp_bind, wp_bind, wp_gets, wp_ret, wp_ret.
  destruct (alloc_next_ok _ _ o Hl Hok) as (H1 & H2 & H3 & H4).
  eapply caller_local; [done..| | |done|].
  - intros q. by rewrite H2.
  - intros map. by rewrite H3.
  - rewrite H4. apply disjoint_empty_r.
Qed.

Lemma go_test y t o v got :
  inv y → callers y !! t = Some (mk_caller (Allocating (ATest v)) o) →
  steps_to (caller_step got (mk_caller (Allocating (ATest v)) o)) y t.
Proof.
  intros Hinv Ht. pose proof Hinv as (Hl & Hm & Hu & _ & Hc).
  destruct (Hc _ _ Ht) as [Hok _]. cbn in Hok.
  pose proof Hok as (Hv & Ho & H0 & m & p & Ha & Hp). pose proof Hv as (Hmap & Hpv & _).
  assert (¬ loffset v ∈ p → ¬ used (shared y) (lpid v)) as Hfree.
  { intros Hn. rewrite Hpv. unfold used. by rewrite (bit_page _ _ _ _ _ H0 Ha Hp Ho). }
  unfold caller_step. cbn [doing owned alloc_step].
  apply wp_bind, wp_bind. eapply wp_test_and_set; [done|exact Ha|exact Hp|done|..].
  - intros _. apply wp_ret, wp_ret. by eapply alloc_move_ok.
  - intros Hn. apply wp_ret, wp_ret.
    eapply caller_page; [exact Hinv|exact Ht|done|exact Ha|by eexists|..]; cbn [owned doing in_flight after_alloc].
    + intros map' Hne. cbn. by rewrite decide_False.
    + cbn. rewrite decide_True by done. rewrite Z.sub_0_r. intros Hmo. by apply map_ok_set.
    + intros q. unfold used at 1. cbn. rewrite page_bit_set by done. rewrite <- Hpv.
      fold (used (shared y) q). rewrite !elem_of_union, elem_of_singleton. split.
      * intros [Hq| ->]; [|by right; right]. destruct (decide (q ∈ o)); [by right; left|].
        left. split; [done|]. by intros [|?%elem_of_empty].
      * intros [[? _]|[Hq| ->]]; [by left| |by right]. left. apply Hu. eexists _, _.
        split; [exact Ht|]. by apply elem_of_union_l.
    + intros q [Hq|Hq%elem_of_singleton]%elem_of_union Hnq.
      * exfalso. apply Hnq. by apply elem_of_union_l.
      * subst q. by apply Hfree.
    + cbn. split; [|split; [done|]].
      * eapply locals_ok_mono; [|exact Hv]. unfold entries. cbn. by rewrite length_insert.
      * apply paged_insert with m; [done|done|by eexists|by right].
    + apply disjoint_singleton_r. intros Hq. apply (Hfree Hn), Hu. eexists _, _.
      split; [exact Ht|]. by apply elem_of_union_l.
Qed.

Lemma go_dec y t o v got :
  inv y → callers y !! t = Some (mk_caller (Allocating (ADec v)) o) →
  steps_to (caller_step got (mk_caller (Allocating (ADec v)) o)) y t.
Proof.
  intros Hinv Ht. pose proof Hinv as (Hl & Hm & Hu & _ & Hc).
  destruct (Hc _ _ Ht) as [Hok Hdis]. cbn in Hok.
  pose proof Hok as (Hv & Ho & H0 & m & p & Ha & Hp). pose proof Hv as (Hmap & Hpv & _).
  unfold caller_step. cbn [doing owned alloc_step]. unfold atomic_dec, add_nr_free.
  eapply wp_bind, wp_bind, wp_bind, wp_get_map; [done|exact Ha|].
  apply wp_modify, wp_ret, wp_ret.
  eapply caller_page; [exact Hinv|exact Ht|done|exact Ha|done|..];
    cbn [owned doing in_flight after_alloc].
  - intros map' Hne. cbn. by rewrite decide_False.
  - cbn. rewrite decide_True by done. unfold map_ok. cbn. rewrite Hp. intros [? ?].
    split; [done|]. lia.
  - intros q. unfold used at 1. cbn. rewrite bit_count by done. fold (used (shared y) q). split.
    + intros Hq. destruct (decide (q ∈ o ∪ {[lpid v]})); [by right|by left].
    + intros [[? _]|Hq]; [done|]. apply Hu. by eexists _, _.
  - done.
  - cbn. split; [|split; [done|]].
    + eapply locals_ok_mono; [|exact Hv]. unfold entries. cbn. by rewrite length_insert.
    + apply paged_insert with m; [done|done|by eexists|by right].
  - done.
Qed.

Lemma go_last y t o v got :
  inv y → callers y !! t = Some (mk_caller (Allocating (ALast v)) o) →
  steps_to (caller_step got (mk_caller (Allocating (ALast v)) o)) y t.
Proof.
  intros Hinv Ht. pose proof Hinv as (Hl & Hm & Hu & _ & Hc).
  destruct (Hc _ _ Ht) as [Hok Hdis]. cbn in Hok.
  pose proof Hok as ((Hmap & Hpv & _) & Ho & _).
  assert (0 <= lpid v < entries (shared y) * BITS_PER_PAGE) as Hrange.
  { rewrite Hpv. unfold mk_pid. bpp. }
  unfold caller_step. cbn [doing owned alloc_step].
  apply wp_bind, wp_bind, wp_modify, wp_ret, wp_ret. cbn [after_alloc].
  destruct (Z.leb_spec 0 (lpid v)); [|lia].
  eapply caller_update; [exact Hinv|exact Ht|..]; cbn [owned doing in_flight].
  - destruct Hl. by split.
  - done.
  - done.
  - intros map m H1 H2. cbn. rewrite Z.sub_0_r, Z.add_0_r. by apply Hm.
  - intros q. change (used (set_last_pid (lpid v) (shared y)) q) with (used (shared y) q).
    rewrite union_empty_r_L, (union_comm_L {[lpid v]}). split.
    + intros Hq. destruct (decide (q ∈ o ∪ {[lpid v]})); [by right|by left].
    + intros [[? _]|Hq]; [done|]. apply Hu. by eexists _, _.
  - intros q Hq Hn. exfalso. apply Hn. by rewrite union_empty_r_L, (union_comm_L {[lpid v]}) in Hq.
  - done.
  - apply disjoint_empty_r.
Qed.

(** ** Freeing *)

Lemma go_clear y t o pid got :
  inv y → callers y !! t = Some (mk_caller (Freeing (FClear pid)) o) →
  steps_to (caller_step got (mk_caller (Freeing (FClear pid)) o)) y t.
Proof.
  intros Hinv Ht. pose proof Hinv as (Hl & Hm & Hu & _ & Hc).
  destruct (Hc _ _ Ht) as [_ Hdis]. cbn in Hdis. apply disjoint_singleton_r in Hdis.
  assert (used (shared y) pid) as Hused.
  { apply Hu. eexists _, _. split; [exact Ht|]. cbn. by apply elem_of_union_r, elem_of_singleton. }
  destruct (used_page _ _ Hused) as (m & p & H0 & Ha & Hp & Hin).
  assert (0 <= pid mod BITS_PER_PAGE < BITS_PER_PAGE) as Ho by (apply Z.mod_pos_bound; bpp).
  unfold caller_step. cbn [doing owned free_step]. rewrite land_page.
  apply wp_bind, wp_bind. eapply wp_clear_bit; [done|exact Ha|exact Hp|done|].
  apply wp_ret, wp_ret.
  eapply caller_page; [exact Hinv|exact Ht|done|exact Ha|by eexists|..]; cbn [owned doing in_flight].
  - intros map' Hne. cbn. by rewrite decide_False.
  - cbn. rewrite decide_True, Z.sub_0_r by done. intros Hmo. by apply map_ok_clear.
  - intros q. unfold used at 1. cbn. rewrite page_bit_clear, <- mk_pid_split by done.
    fold (used (shared y) q). rewrite !elem_of_union, elem_of_singleton. split.
    + intros [Hq Hne]. destruct (decide (q ∈ o)); [by right; left|]. left. split; [done|].
      by intros [|].
    + intros [[Hq Hn]|[Hq|Hq%elem_of_empty]]; [|split|done].
      * split; [done|]. intros ->. apply Hn. by right.
      * apply Hu. eexists _, _. split; [exact Ht|]. by apply elem_of_union_l.
      * by intros ->.
  - intros q [Hq|Hq%elem_of_empty]%elem_of_union Hn; [|done]. destruct Hn. by apply elem_of_union_l.
  - apply paged_insert with m; [done|done|by eexists|by right].
  - apply disjoint_empty_r.
Qed.

Lemma go_inc y t o pid got :
  inv y → callers y !! t = Some (mk_caller (Freeing (FInc pid)) o) →
  steps_to (caller_step got (mk_caller (Freeing (FInc pid)) o)) y t.
Proof.
  intros Hinv Ht. pose proof Hinv as (Hl & Hm & Hu & _ & Hc).
  destruct (Hc _ _ Ht) as [Hok Hdis]. cbn in Hok. destruct Hok as (H0 & m & p & Ha & Hp).
  unfold caller_step. cbn [doing owned free_step]. unfold atomic_inc, add_nr_free.
  eapply wp_bind, wp_bind, wp_bind, wp_get_map; [done|exact Ha|].
  apply wp_modify, wp_ret, wp_ret.
  eapply caller_page; [exact Hinv|exact Ht|done|exact Ha|done|..]; cbn [owned doing in_flight].
  - intros map' Hne. cbn. by rewrite decide_False.
  - cbn. rewrite decide_True by done. unfold map_ok. cbn. rewrite Hp. intros [? ?].
    split; [done|]. lia.
  - intros q. unfold used at 1. cbn. rewrite bit_count by done. fold (used (shared y) q). split.
    + intros Hq. destruct (decide (q ∈ o ∪ ∅)); [by right|by left].
    + intros [[? _]|Hq]; [done|]. apply Hu. by eexists _, _.
  - done.
  - done.
  - done.
Qed.

Lemma go_ok y t th got :
  inv y → callers y !! t = Some th → doing th ≠ Idle → steps_to (caller_step got th) y t.
Proof.
  intros Hinv Ht Hn. destruct th as [[|[]|[]] o]; cbn in Hn; try done.
  - unfold caller_step. cbn [doing owned alloc_step]. apply wp_bind, wp_gets, wp_ret.
    pose proof Hinv as (Hl & _). pose proof (alloc_start_ok _ Hl) as Hok.
    unfold alloc_start, for_test in *. cbn [li lmax_scan] in *.
    destruct (_ <=? _); [|done]. by eapply alloc_move_ok.
  - by apply go_map.
  - by apply go_free.
  - by apply go_test.
  - by apply go_find.
  - by apply go_next.
  - by apply go_dec.
  - by apply go_last.
  - pose proof Hinv as (_ & _ & _ & _ & Hc). by destruct (Hc _ _ Ht) as [[] _].
  - by apply go_clear.
  - by apply go_inc.
Qed.

Lemma exec_inv e y : inv y → enabled e y = true → ∃ y', exec e y = Ok y' ∧ inv y'.
Proof.
  intros Hinv Hen. destruct e as [t|t pid|t got|n]; cbn in *.
  - destruct (callers y !! t) as [[[] o]|] eqn:Ht; try done. eexists. split; [done|].
    by eapply caller_local.
  - destruct (callers y !! t) as [[[] o]|] eqn:Ht; try done. eexists. split; [done|].
    apply bool_decide_eq_true in Hen. pose proof Hinv as (_ & _ & _ & _ & Hc).
    eapply caller_local; [done..| |done|done|].
    + cbn. intros q. rewrite !elem_of_union, elem_of_difference, elem_of_singleton.
      split; [intros [[? _]| ->]; by left|]. intros [Hq|[]%elem_of_empty].
      destruct (decide (q = pid)); [by right|by left].
    + cbn. apply disjoint_singleton_r. intros [_ Hx]%elem_of_difference.
      by apply Hx, elem_of_singleton.
  - destruct (callers y !! t) as [th|] eqn:Ht; [|done].
    assert (doing th ≠ Idle) as Hn by (by destruct th as [[] ?]).
    destruct (wp_ok _ _ _ (go_ok _ _ _ got Hinv Ht Hn)) as (th' & s' & -> & H). eauto.
  - eexists. split; [done|]. destruct Hinv as ([_ Hl] & H). split; [|exact H].
    zb_hyps. split; [|done]. cbn. by split.
Qed.

Definition idle (y : system) : Prop := Forall (λ th, doing th = Idle) (callers y).

Lemma idle_no_debt map ths : Forall (λ th, doing th = Idle) ths → sum_debt map ths = 0.
Proof.
  unfold sum_debt. induction 1 as [|th l Hth _ IH]; [done|]. cbn [foldr]. rewrite IH.
  unfold debt. by rewrite Hth.
Qed.

Lemma pidmap_boot_inv n k : (0 < n)%nat → inv (boot n k).
Proof.
  intros Hn. destruct n as [|n]; [lia|].
  set (m0 := mk_pidmap (BITS_PER_PAGE - 1) (Some ({[0]} ∪ ∅))).
  assert (boot (S n) k = mk_system
    (mk_pids (m0 :: replicate n (mk_pidmap BITS_PER_PAGE None)) 0 PID_MAX_DEFAULT)
    (mk_caller Idle {[0]} :: replicate k (mk_caller Idle ∅))) as -> by reflexivity.
  assert (∀ map, sum_debt map (mk_caller Idle {[0]} :: replicate k (mk_caller Idle ∅)) = 0) as Hd.
  { intros map. apply idle_no_debt. constructor; [done|]. by apply Forall_replicate. }
  split_and!; cbn [shared callers].
  - unfold limits_ok, entries. cbn [pid_max last_pid pidmap_array length].
    rewrite length_replicate. unfold PID_MAX_DEFAULT. bpp.
  - intros map m Hmap. rewrite Hd. cbn [pidmap_array].
    destruct (Z.to_nat map) as [|i]; cbn.
    + intros [= <-]. unfold map_ok, m0. cbn. rewrite union_empty_r_L. split.
      * intros x ->%elem_of_singleton. bpp.
      * rewrite size_singleton. done.
    + intros [-> _]%lookup_replicate. done.
  - intros q. unfold used, bit_of. cbn [pidmap_array]. split.
    + intros [Hq Hb]. exists 0%nat. eexists. split; [done|]. cbn.
      apply elem_of_union_l, elem_of_singleton.
      destruct (Z.to_nat (q / BITS_PER_PAGE)) as [|i] eqn:E; cbn in Hb.
      * apply elem_of_union in Hb as [Hb%elem_of_singleton|Hb%elem_of_empty]; [|done].
        rewrite (mk_pid_split q), Hb. unfold mk_pid.
        assert (0 <= q / BITS_PER_PAGE) by (apply Z.div_pos; bpp).
        assert (q / BITS_PER_PAGE = 0) as -> by lia. done.
      * destruct (replicate n _ !! i) eqn:Hr; [|done].
        by apply lookup_replicate in Hr as [-> _].
    + intros ([|t] & th & Ht & Hq); cbn in Ht.
      * injection Ht as <-. cbn in Hq.
        apply elem_of_union in Hq as [->%elem_of_singleton|[]%elem_of_empty].
        split; [done|]. cbn. by apply elem_of_union_l, elem_of_singleton.
      * apply lookup_replicate in Ht as [-> _]. cbn in Hq.
        by apply elem_of_union in Hq as [[]%elem_of_empty|[]%elem_of_empty].
  - intros t1 t2 th1 th2 q H1 H2 Hq1 Hq2.
    destruct t1 as [|t1], t2 as [|t2]; [done|..]; cbn in H1, H2;
      try apply lookup_replicate in H1 as [-> _]; try apply lookup_replicate in H2 as [-> _];
      cbn in Hq1, Hq2; exfalso; first
        [apply elem_of_union in Hq1 as [[]%elem_of_empty|[]%elem_of_empty]
        |apply elem_of_union in Hq2 as [[]%elem_of_empty|[]%elem_of_empty]].
  - intros [|t] th Ht; cbn in Ht; [injection Ht as <-|apply lookup_replicate in Ht as [-> _]];
      (split; [done|apply disjoint_empty_r]).
Qed.

Lemma callers_reachable_inv y y' : rtc step y y' → inv y → inv y'.
Proof.
  induction 1 as [|y y1 y' Hs _ IH]; [done|]. intros Hinv. apply IH.
  inversion Hs as [e y2 y3 Hen Hex]; subst y2 y3.
  destruct (exec_inv _ _ Hinv Hen) as (y2 & Hy & H). rewrite Hy in Hex. by injection Hex as <-.
Qed.

(** C26: In every interleaving of [alloc_pidmap] and [free_pidmap] calls without a lock,
    with any number of pages and tasks and whatever [pid_max] is set to: every
    enabled access succeeds; an identifier a task has got is marked in the bitmap
    and belongs to no other task; and when no call is in progress the marked
    identifiers are exactly the owned ones and every [nr_free] is the number of
    zero bits of its page. *)
Theorem pidmap_lock_free n k y :
  (0 < n)%nat → rtc step (boot n k) y →
  (∀ e, enabled e y = true → ∃ y', exec e y = Ok y') ∧
  (∀ t th q, callers y !! t = Some th → q ∈ owned th →
     used (shared y) q ∧
     ∀ t' th', callers y !! t' = Some th' → q ∈ owned th' → t' = t) ∧
  (idle y →
     (∀ q, used (shared y) q ↔ ∃ t th, callers y !! t = Some th ∧ q ∈ owned th) ∧
     Forall (map_ok 0) (pidmap_array (shared y))).
Proof.
  intros Hn Hr. pose proof (callers_reachable_inv _ _ Hr (pidmap_boot_inv n k Hn)) as Hinv.
  pose proof Hinv as (_ & Hm & Hu & Hd & _). split; [|split].
  - intros e Hen. destruct (exec_inv _ _ Hinv Hen) as (y' & -> & _). eauto.
  - intros t th q Ht Hq. split.
    + apply Hu. eexists _, _. split; [exact Ht|]. by apply elem_of_union_l.
    + intros t' th' Ht' Hq'. eapply (Hd t' t _ _ q Ht' Ht); by apply elem_of_union_l.
  - intros Hi. split.
    + intros q. rewrite Hu. split.
      * intros (t & th & Ht & Hq). exists t, th. split; [done|].
        pose proof (Forall_lookup_1 _ _ _ _ Hi Ht) as Hth. cbn in Hth. rewrite Hth in Hq.
        by apply elem_of_union in Hq as [|[]%elem_of_empty].
      * intros (t & th & Ht & Hq). exists t, th. split; [done|]. by apply elem_of_union_l.
    + apply Forall_lookup. intros i m Ha. specialize (Hm (Z.of_nat i) m).
      rewrite Nat2Z.id, idle_no_debt in Hm by done. apply Hm; [lia|done].
Qed.

(** Two tasks race for the first identifier: both have read [last_pid], the second
    one is first to set the bit and the other moves on. *)
Fixpoint run (es : list event) (y : system) : option system :=
  match es with
  | [] => Some y
  | e :: es' =>
    if enabled e y then match exec e y with Ok y' => run es' y' | _ => None end else None
  end.

Lemma pidmap_run_reachable es y y' : run es y = Some y' → rtc step y y'.
Proof.
  revert y. induction es as [|e es IH]; intros y; cbn; [by intros [= ->]|].
  destruct (enabled e y) eqn:Hen; [|done]. destruct (exec e y) as [y1| |] eqn:Hex; try done.
  intros Hr. eapply rtc_l; [by econstructor|]. by apply IH.
Qed.

Definition race : list event :=
  [Alloc 1; Alloc 2; Go 1 true; Go 2 true; Go 1 true; Go 1 true; Go 2 true; Go 2 true;
   Go 2 true; Go 1 true; Go 1 true; Go 1 true; Go 2 true; Go 1 true; Go 2 true; Go 1 true]%nat.

Definition raced : system := default (boot 1 2) (run race (boot 1 2)).

Lemma pidmap_lock_free_witness :
  rtc step (boot 1 2) raced ∧ callers raced !! 1%nat = Some (mk_caller Idle {[2]}) ∧
  callers raced !! 2%nat = Some (mk_caller Idle {[1]}) ∧ used (shared raced) 2.
Proof.
  assert (rtc step (boot 1 2) raced) as Hr.
  { apply (pidmap_run_reachable race). vm_compute. reflexivity. }
  assert (callers raced !! 1%nat = Some (mk_caller Idle {[2]})) as H1 by (vm_compute; reflexivity).
  split; [exact Hr|]. split; [exact H1|]. split; [vm_compute; reflexivity|].
  apply (proj1 (proj2 (pidmap_lock_free 1 2 raced ltac:(lia) Hr)) 1%nat _ 2 H1).
  cbn [owned]. by apply elem_of_singleton.
Defined.

End PidmapConc.
