(* ===== verification/PidHash.v ===== *)
(** * kernel/pid.c: the pid hash tables

    For each of the four kinds of identifier a hash table holds one [struct pid] per
    number in use; the tasks that share a number are on a circular list with it.  A
    task's [struct pid] is named by the task.  A chain of the table is a list, front
    first; a circular list is written from its one hashed member: [rings] maps the
    hashed member to the others in list order.  All changes happen under
    [tasklist_lock] and are atomic here. *)

From stdpp Require Import prelude numbers list gmap.
From Stdlib Require Import ZArith Lia.
From S2P Require Import Prelude Bitops Pidmap.

#[local] Set Default Goal Selector "!".
#[local] Open Scope Z_scope.

Module PidHash.
Import Pidmap.

Inductive pid_type := PIDTYPE_PID | PIDTYPE_TGID | PIDTYPE_PGID | PIDTYPE_SID.
#[export] Instance pid_type_eq_dec : EqDecision pid_type.
Proof. solve_decision. Defined.

(** In the order in which [detach_pid] looks at them. *)
Definition pid_types : list pid_type :=
  [PIDTYPE_SID; PIDTYPE_PGID; PIDTYPE_TGID; PIDTYPE_PID].

(** [pid_hash[type]] with the [struct pid]s in it; [nrs] holds their [nr] fields. *)
Record pid_table := mk_table {
  chains : gmap Z (list nat);
  rings : gmap nat (list nat);
  nrs : gmap nat Z;
}.

(** What [switch_exec_pids] uses of a task; [pgrp] and [session] are in the
    [signal_struct] it shares with its thread group. *)
Record task := mk_task {
  t_pid : Z;
  t_tgid : Z;
  t_pgrp : Z;
  t_session : Z;
}.

Record pid_state := mk_state {
  bitmap : pids;
  tables : pid_type → pid_table;
  pidhash_shift : Z;
  tasks : gmap nat task;
}.

Definition set_bitmap (b : pids) (s : pid_state) : pid_state :=
  mk_state b (tables s) (pidhash_shift s) (tasks s).
Definition set_table (ty : pid_type) (t : pid_table) (s : pid_state) : pid_state :=
  mk_state (bitmap s) (λ ty', if decide (ty' = ty) then t else tables s ty')
           (pidhash_shift s) (tasks s).
Definition set_tasks (ts : gmap nat task) (s : pid_state) : pid_state :=
  mk_state (bitmap s) (tables s) (pidhash_shift s) ts.

(** Code that works on the bitmap. *)
Definition lift_bitmap {A} (m : SM pids A) : SM pid_state A := λ s,
  let '(r, b) := m (bitmap s) in (r, set_bitmap b s).

(** ** Hashing *)

Definition GOLDEN_RATIO_PRIME : Z := 2654404609.

Definition hash_long (val bits : Z) : Z :=
  Z.shiftr (wrap32 (val * GOLDEN_RATIO_PRIME)) (BITS_PER_LONG - bits).

Definition pid_hashfn (shift nr : Z) : Z := hash_long (wrap32 nr) shift.

Definition chain (tb : pid_table) (b : Z) : list nat := default [] (chains tb !! b).
Definition nr_of (tb : pid_table) (t : nat) : Z := default 0 (nrs tb !! t).

(** The walk along one chain. *)
Fixpoint find_chain (tb : pid_table) (nr : Z) (l : list nat) : option nat :=
  match l with
  | [] => None
  | p :: l' => if nr_of tb p =? nr then Some p else find_chain tb nr l'
  end.

Definition find_pid (shift : Z) (tb : pid_table) (nr : Z) : option nat :=
  find_chain tb nr (chain tb (pid_hashfn shift nr)).

(** [pid_task(&pid->pid_list, type)] is the task the [struct pid] belongs to. *)
Definition find_task_by_pid_type (shift : Z) (tb : pid_table) (nr : Z) : option nat :=
  find_pid shift tb nr.

(** ** Attaching *)

Definition hlist_add_head (p : nat) (b : Z) (tb : pid_table) : pid_table :=
  mk_table (<[b := p :: chain tb b]> (chains tb)) (rings tb) (nrs tb).

(** Members of the circular list of a hashed [struct pid]. *)
Definition members (e : nat * list nat) : list nat := e.1 :: e.2.

(** Is the task's [struct pid] on some list? *)
Definition linked (tb : pid_table) (t : nat) : bool :=
  existsb (λ e, bool_decide (t ∈ members e)) (map_to_list (rings tb)).

(** The body of [attach_pid] on one table. *)
Definition attach_table (shift : Z) (tb : pid_table) (t : nat) (nr : Z) : pid_table :=
  let tb :=
    match find_pid shift tb nr with
    | None =>
      let tb := hlist_add_head t (pid_hashfn shift nr) tb in
      mk_table (chains tb) (<[t := []]> (rings tb)) (nrs tb)
    | Some p =>
      mk_table (chains tb) (<[p := default [] (rings tb !! p) ++ [t]]> (rings tb)) (nrs tb)
    end in
  mk_table (chains tb) (rings tb) (<[t := nr]> (nrs tb)).

(** Attaching a [struct pid] that is already on a list destroys the lists: [Bug]. *)
Definition attach_pid (t : nat) (ty : pid_type) (nr : Z) : SM pid_state unit :=
  tb ← gets (λ s, tables s ty);
  shift ← gets pidhash_shift;
  if linked tb t then bug else modify (set_table ty (attach_table shift tb t nr)).

(** ** Detaching *)

(** [hlist_del]: out of whatever chain it is in. *)
Definition hlist_del (p : nat) (tb : pid_table) : pid_table :=
  mk_table (filter (λ x, x ≠ p) <$> chains tb) (rings tb) (nrs tb).

Definition drop_member (p : nat) (l : list nat) : list nat := filter (λ x, x ≠ p) l.

(** The body of [__detach_pid] on one table, with the number it returns. *)
Definition detach_table (shift : Z) (tb : pid_table) (t : nat) : pid_table * Z :=
  let '(tb, nr) :=
    match rings tb !! t with
    | Some followers =>            (* !hlist_unhashed(&pid->pid_chain) *)
      let tb := hlist_del t tb in
      match followers with
      | [] => (mk_table (chains tb) (delete t (rings tb)) (nrs tb), nr_of tb t)
      | next :: rest =>
        let tb := hlist_add_head next (pid_hashfn shift (nr_of tb next)) tb in
        (mk_table (chains tb) (<[next := rest]> (delete t (rings tb))) (nrs tb), 0)
      end
    | None => (mk_table (chains tb) (drop_member t <$> rings tb) (nrs tb), 0)
    end in
  (mk_table (chains tb) (rings tb) (<[t := 0]> (nrs tb)), nr).

(** Detaching a [struct pid] that is on no list follows poisoned pointers: [Bug]. *)
Definition __detach_pid (t : nat) (ty : pid_type) : SM pid_state Z :=
  tb ← gets (λ s, tables s ty);
  shift ← gets pidhash_shift;
  if negb (linked tb t) then bug else
  modify (set_table ty (detach_table shift tb t).1);;
  mret (detach_table shift tb t).2.

(** The loop over the other tables. *)
Definition in_other_table (s : pid_state) (ty : pid_type) (nr : Z) : bool :=
  existsb (λ ty', bool_decide (ty' ≠ ty)
                  && match find_pid (pidhash_shift s) (tables s ty') nr with
                     | Some _ => true | None => false end) pid_types.

Definition detach_pid (t : nat) (ty : pid_type) : SM pid_state unit :=
  nr ← __detach_pid t ty;
  if nr =? 0 then mret tt else
  other ← gets (λ s, in_other_table s ty nr);
  if other : bool then mret tt else lift_bitmap (free_pidmap nr).

(** ** Exec by a thread that is not the group leader *)

Definition get_task (t : nat) : SM pid_state task := λ s,
  match tasks s !! t with
  | Some p => (Ok p, s)
  | None => (Bug, s)
  end.

(** [list_add_tail(&thread->tasks, &init_task.tasks)] concerns the list of all
    processes only and is left out. *)
Definition switch_exec_pids (leader thread : nat) : SM pid_state unit :=
  __detach_pid leader PIDTYPE_PID;;
  __detach_pid leader PIDTYPE_TGID;;
  __detach_pid leader PIDTYPE_PGID;;
  __detach_pid leader PIDTYPE_SID;;
  __detach_pid thread PIDTYPE_PID;;
  __detach_pid thread PIDTYPE_TGID;;
  l ← get_task leader;
  th ← get_task thread;
  let l := mk_task (t_pid th) (t_pid th) (t_pgrp l) (t_session l) in
  let th := mk_task (t_tgid th) (t_tgid th) (t_pgrp th) (t_session th) in
  modify (λ s, set_tasks (<[thread := th]> (<[leader := l]> (tasks s))) s);;
  attach_pid thread PIDTYPE_PID (t_pid th);;
  attach_pid thread PIDTYPE_TGID (t_tgid th);;
  attach_pid thread PIDTYPE_PGID (t_pgrp th);;
  attach_pid thread PIDTYPE_SID (t_session th);;
  attach_pid leader PIDTYPE_PID (t_pid l);;
  attach_pid leader PIDTYPE_TGID (t_tgid l);;
  attach_pid leader PIDTYPE_PGID (t_pgrp l);;
  attach_pid leader PIDTYPE_SID (t_session l).

(** ** Boot *)

(** [pidhash_init]: the size of the tables from the memory in megabytes. *)
Definition pidhash_size_shift (megabytes : Z) : Z :=
  Z.min 12 (Z.max 4 (generic_fls (wrap32 (megabytes * 4)))).

Definition empty_table : pid_table := mk_table ∅ ∅ ∅.

Definition pidhash_init (megabytes : Z) (n : nat) : pid_state :=
  mk_state (pidmap_static n) (λ _, empty_table) (pidhash_size_shift megabytes) ∅.

(** [pidmap_init]: [current] is the swapper, task 0 with pid 0. *)
Definition pid_init : SM pid_state unit :=
  lift_bitmap pidmap_init;;
  attach_pid 0 PIDTYPE_PID 0;;
  attach_pid 0 PIDTYPE_TGID 0;;
  attach_pid 0 PIDTYPE_PGID 0;;
  attach_pid 0 PIDTYPE_SID 0.

End PidHash.
