(* ===== verification/PidHashFacts.v ===== *)
(** * The pid hash tables: one table

    [tb_ok] is the invariant of a table; [att] what it stands for, the relation
    between tasks and numbers.  Finding, attaching and detaching implement lookup,
    insertion and removal on that relation. *)

From stdpp Require Import prelude numbers list gmap.
From Stdlib Require Import ZArith Lia.
From S2P Require Import Prelude Pidmap PidHash.

#[local] Set Default Goal Selector "!".
#[local] Open Scope Z_scope.

Module PidHashFacts.
Import Pidmap PidHash.

Section table.
Context (shift : Z).
Implicit Types (tb : pid_table) (t l : nat) (fs : list nat) (nr : Z).

(** Task [t] is attached with number [nr]. *)
Definition att tb t nr : Prop :=
  (∃ l fs, rings tb !! l = Some fs ∧ t ∈ l :: fs) ∧ nr_of tb t = nr.

(** Members of a list share the number; lists are disjoint; no two lists have the
    same number; the chains hold exactly the hashed members, by their number. *)
Record tb_ok tb : Prop := {
  ok_ring : ∀ l fs, rings tb !! l = Some fs →
    NoDup (l :: fs) ∧ ∀ x, x ∈ fs → nr_of tb x = nr_of tb l;
  ok_disj : ∀ l fs l' fs' x, rings tb !! l = Some fs → rings tb !! l' = Some fs' →
    x ∈ l :: fs → x ∈ l' :: fs' → l = l';
  ok_nr : ∀ l l', is_Some (rings tb !! l) → is_Some (rings tb !! l') →
    nr_of tb l = nr_of tb l' → l = l';
  ok_chain : ∀ b l, l ∈ chain tb b ↔
    is_Some (rings tb !! l) ∧ b = pid_hashfn shift (nr_of tb l);
}.

Lemma linked_spec tb t : linked tb t = true ↔ ∃ l fs, rings tb !! l = Some fs ∧ t ∈ l :: fs.
Proof.
  unfold linked. rewrite existsb_exists. split.
  - intros ([l fs] & Hin & Hd). apply bool_decide_eq_true in Hd. exists l, fs. split; [|done].
    by apply elem_of_map_to_list, list_elem_of_In.
  - intros (l & fs & Hl & Ht). exists (l, fs). split; [|by apply bool_decide_eq_true].
    by apply list_elem_of_In, elem_of_map_to_list.
Qed.

Lemma linked_att tb t : linked tb t = true ↔ ∃ nr, att tb t nr.
Proof.
  rewrite linked_spec. split; [|by intros (nr & H & _)]. intros H. by eexists.
Qed.

(** The hashed member of a task's list has the task's number. *)
Lemma att_leader tb t nr :
  tb_ok tb → att tb t nr → ∃ l fs, rings tb !! l = Some fs ∧ t ∈ l :: fs ∧ nr_of tb l = nr.
Proof.
  intros Hok [(l & fs & Hl & Ht) Hn]. exists l, fs. split_and!; try done.
  apply elem_of_cons in Ht as [->|Ht]; [done|].
  rewrite <- Hn. symmetry. by eapply ok_ring.
Qed.

Lemma find_chain_spec tb nr ch :
  match find_chain tb nr ch with
  | Some p => p ∈ ch ∧ nr_of tb p = nr
  | None => ∀ p, p ∈ ch → nr_of tb p ≠ nr
  end.
Proof.
  induction ch as [|p ch IH]; cbn; [by intros ? ?%not_elem_of_nil|].
  case_zb; [split; [by left|done]|]. destruct (find_chain tb nr ch) as [q|].
  - destruct IH. split; [by right|done].
  - intros q [->|Hq]%elem_of_cons; [done|]. by apply IH.
Qed.

(** [find_pid] finds a hashed member with the number, exactly when a task has it. *)
Lemma find_pid_spec tb nr :
  tb_ok tb →
  match find_pid shift tb nr with
  | Some p => is_Some (rings tb !! p) ∧ nr_of tb p = nr ∧ att tb p nr
  | None => ∀ t, ¬ att tb t nr
  end.
Proof.
  intros Hok. unfold find_pid. pose proof (find_chain_spec tb nr (chain tb (pid_hashfn shift nr))) as H.
  destruct (find_chain _ _ _) as [p|].
  - destruct H as [Hin Hn]. apply (ok_chain _ Hok) in Hin as [[fs Hp] _].
    split; [by eexists|]. split; [done|]. split; [|done]. exists p, fs. split; [done|by left].
  - intros t Ht. destruct (att_leader _ _ _ Hok Ht) as (l & fs & Hl & _ & Hn).
    apply (H l); [|done]. apply (ok_chain _ Hok). rewrite Hn. split; [by eexists|done].
Qed.

Lemma find_pid_iff tb nr :
  tb_ok tb → is_Some (find_pid shift tb nr) ↔ ∃ t, att tb t nr.
Proof.
  intros Hok. pose proof (find_pid_spec tb nr Hok) as H. destruct (find_pid shift tb nr) as [p|].
  - split; [|by eexists]. intros _. exists p. by apply H.
  - split; [by intros []|]. by intros [t Ht%H].
Qed.

(** ** Attaching *)

Lemma nr_insert ch rs ns t nr x :
  nr_of (mk_table ch rs (<[t := nr]> ns)) x
  = if decide (x = t) then nr else nr_of (mk_table ch rs ns) x.
Proof.
  unfold nr_of. cbn. destruct (decide (x = t)) as [->|].
  - by rewrite lookup_insert_eq.
  - by rewrite lookup_insert_ne.
Qed.

Lemma chain_insert c b rs ns ch b' :
  chain (mk_table (<[b := c]> ch) rs ns) b' = if decide (b' = b) then c else chain (mk_table ch rs ns) b'.
Proof.
  unfold chain. cbn. destruct (decide (b' = b)) as [->|].
  - by rewrite lookup_insert_eq.
  - by rewrite lookup_insert_ne.
Qed.

Lemma unlinked_ring tb t l fs :
  linked tb t = false → rings tb !! l = Some fs → t ∉ l :: fs.
Proof.
  intros Hn Hl Hin. assert (linked tb t = true) as Ht; [|congruence].
  apply linked_spec. eauto.
Qed.

Lemma unlinked_not_leader tb t : linked tb t = false → rings tb !! t = None.
Proof.
  intros Hn. destruct (rings tb !! t) as [fs|] eqn:E; [|done].
  destruct (unlinked_ring _ _ _ _ Hn E). by left.
Qed.

(** A number that is not in use: a list of its own. *)
Lemma attach_new_ok tb t nr :
  tb_ok tb → linked tb t = false → find_pid shift tb nr = None →
  let tb' := attach_table shift tb t nr in
  tb_ok tb' ∧ ∀ t' nr', att tb' t' nr' ↔ att tb t' nr' ∨ t' = t ∧ nr' = nr.
Proof.
  intros Hok Hn Hf. pose proof (find_pid_spec tb nr Hok) as Hnone. rewrite Hf in Hnone.
  intros tb'.
  assert (tb' = mk_table (<[pid_hashfn shift nr := t :: chain tb (pid_hashfn shift nr)]> (chains tb))
                  (<[t := []]> (rings tb)) (<[t := nr]> (nrs tb))) as Htb.
  { unfold tb', attach_table. by rewrite Hf. }
  clearbody tb'.
  assert (∀ x, nr_of tb' x = if decide (x = t) then nr else nr_of tb x) as Hnr.
  { intros x. rewrite Htb. apply nr_insert. }
  assert (∀ l fs, rings tb' !! l = Some fs ↔ l = t ∧ fs = [] ∨ l ≠ t ∧ rings tb !! l = Some fs) as Hr.
  { intros l fs. rewrite Htb. cbn. destruct (decide (l = t)) as [->|].
    - rewrite lookup_insert_eq. split; [intros [= <-]; by left|].
      by intros [[_ ->]|[? _]].
    - rewrite lookup_insert_ne by done. split; [by right|]. by intros [[? _]|[_ ?]]. }
  assert (∀ l fs x, rings tb !! l = Some fs → x ∈ l :: fs → x ≠ t) as Hne.
  { intros l fs x Hl Hx ->. by destruct (unlinked_ring _ _ _ _ Hn Hl). }
  assert (∀ l fs, rings tb !! l = Some fs → nr_of tb l ≠ nr) as Hlnr.
  { intros l fs Hl He. apply (Hnone l). split; [|done]. exists l, fs. split; [done|by left]. }
  split; [split|].
  - intros l fs [[-> ->]|[Hlt Hl]]%Hr.
    + split; [apply NoDup_singleton|by intros ? ?%not_elem_of_nil].
    + destruct (ok_ring _ Hok _ _ Hl) as [H1 H2]. split; [done|]. intros x Hx.
      rewrite !Hnr, !decide_False; [by apply H2|done|]. eapply Hne; [exact Hl|by right].
  - intros l fs l' fs' x [[-> ->]|[Hlt Hl]]%Hr [[-> ->]|[Hlt' Hl']]%Hr Hx Hx'; [done|..].
    + apply list_elem_of_singleton in Hx as ->. by destruct (Hne _ _ _ Hl' Hx').
    + apply list_elem_of_singleton in Hx' as ->. by destruct (Hne _ _ _ Hl Hx).
    + by apply (ok_disj _ Hok _ _ _ _ x Hl Hl').
  - intros l l' [fs Hl] [fs' Hl']. apply Hr in Hl, Hl'. rewrite !Hnr.
    destruct Hl as [[-> ->]|[Hlt Hl]], Hl' as [[-> ->]|[Hlt' Hl']]; [done|..].
    + rewrite decide_True, decide_False by done. intros He. by destruct (Hlnr _ _ Hl').
    + rewrite decide_False, decide_True by done. intros He. by destruct (Hlnr _ _ Hl).
    + rewrite !decide_False by done. apply (ok_nr _ Hok); by eexists.
  - intros b l.
    assert (is_Some (rings tb' !! l) ∧ b = pid_hashfn shift (nr_of tb' l) ↔
            (l = t ∧ b = pid_hashfn shift nr) ∨ l ∈ chain tb b) as ->.
    { rewrite (ok_chain _ Hok), Hnr. split.
      - intros [[fs [[-> ->]|[Hlt Hl]]%Hr] Hb].
        + rewrite decide_True in Hb by done. by left.
        + rewrite decide_False in Hb by done. right. split; [by eexists|done].
      - intros [[-> ->]|[[fs Hl] ->]].
        + rewrite decide_True by done. split; [|done]. eexists. apply Hr. by left.
        + assert (l ≠ t) by (eapply Hne; [exact Hl|by left]). rewrite decide_False by done.
          split; [|done]. eexists. apply Hr. by right. }
    rewrite Htb, chain_insert. change (chain (mk_table (chains tb) _ _) b) with (chain tb b).
    destruct (decide (b = pid_hashfn shift nr)) as [->|Hb].
    + rewrite elem_of_cons. split; [intros [->|?]; [by left|by right]|].
      intros [[-> _]|?]; [by left|by right].
    + split; [by right|]. by intros [[_ ?]|?].
  - intros t' nr'. unfold att at 1. rewrite Hnr. split.
    + intros [(l & fs & [[-> ->]|[Hlt Hl]]%Hr & Hx) He].
      * apply list_elem_of_singleton in Hx as ->. rewrite decide_True in He by done. by right.
      * left. rewrite decide_False in He by (by eapply Hne). split; [|done]. eauto.
    + intros [[(l & fs & Hl & Hx) He]|[-> ->]].
      * assert (t' ≠ t) by (by eapply Hne). rewrite decide_False by done. split; [|done].
        exists l, fs. split; [|done]. apply Hr. right. split; [|done]. eapply Hne; [exact Hl|by left].
      * rewrite decide_True by done. split; [|done]. exists t, []. split; [|by left].
        apply Hr. by left.
Qed.

(** A number in use: the task joins its list. *)
Lemma attach_join_ok tb t nr p :
  tb_ok tb → linked tb t = false → find_pid shift tb nr = Some p →
  let tb' := attach_table shift tb t nr in
  tb_ok tb' ∧ ∀ t' nr', att tb' t' nr' ↔ att tb t' nr' ∨ t' = t ∧ nr' = nr.
Proof.
  intros Hok Hn Hf. pose proof (find_pid_spec tb nr Hok) as Hp. rewrite Hf in Hp.
  destruct Hp as ([fp Hfp] & Hpn & _). intros tb'.
  assert (tb' = mk_table (chains tb) (<[p := fp ++ [t]]> (rings tb)) (<[t := nr]> (nrs tb))) as Htb.
  { unfold tb', attach_table. rewrite Hf, Hfp. done. }
  clearbody tb'.
  assert (∀ x, nr_of tb' x = if decide (x = t) then nr else nr_of tb x) as Hnr.
  { intros x. rewrite Htb. apply nr_insert. }
  assert (∀ l fs x, rings tb !! l = Some fs → x ∈ l :: fs → x ≠ t) as Hne.
  { intros l fs x Hl Hx ->. by destruct (unlinked_ring _ _ _ _ Hn Hl). }
  assert (p ≠ t) as Hpt by (eapply Hne; [exact Hfp|by left]).
  assert (∀ l fs, rings tb' !! l = Some fs ↔
            l = p ∧ fs = fp ++ [t] ∨ l ≠ p ∧ rings tb !! l = Some fs) as Hr.
  { intros l fs. rewrite Htb. cbn. destruct (decide (l = p)) as [->|].
    - rewrite lookup_insert_eq. split; [intros [= <-]; by left|].
      by intros [[_ ->]|[? _]].
    - rewrite lookup_insert_ne by done. split; [by right|]. by intros [[? _]|[_ ?]]. }
  assert (∀ x, x ∈ p :: fp ++ [t] ↔ x ∈ p :: fp ∨ x = t) as Hx.
  { intros x. rewrite !elem_of_cons, elem_of_app, list_elem_of_singleton. tauto. }
  split; [split|].
  - intros l fs [[-> ->]|[Hlt Hl]]%Hr.
    + destruct (ok_ring _ Hok _ _ Hfp) as [H1 H2]. split.
      * change (p :: fp ++ [t]) with ((p :: fp) ++ [t]). apply NoDup_app.
        split_and!; [done| |apply NoDup_singleton]. intros x Hin ->%list_elem_of_singleton.
        by destruct (Hne _ _ _ Hfp Hin).
      * intros x [Hin| ->%list_elem_of_singleton]%elem_of_app; rewrite !Hnr.
        -- rewrite !decide_False; [by apply H2|done|]. eapply Hne; [exact Hfp|by right].
        -- by rewrite decide_True, decide_False.
    + destruct (ok_ring _ Hok _ _ Hl) as [H1 H2]. split; [done|]. intros x Hin.
      rewrite !Hnr, !decide_False; [by apply H2| |].
      * eapply Hne; [exact Hl|by left].
      * eapply Hne; [exact Hl|by right].
  - intros l fs l' fs' x [[-> ->]|[Hlt Hl]]%Hr [[-> ->]|[Hlt' Hl']]%Hr Hin Hin'; [done|..].
    + apply Hx in Hin as [Hin| ->]; [by apply (ok_disj _ Hok _ _ _ _ x Hfp Hl')|].
      by destruct (Hne _ _ _ Hl' Hin').
    + apply Hx in Hin' as [Hin'| ->]; [by apply (ok_disj _ Hok _ _ _ _ x Hl Hfp)|].
      by destruct (Hne _ _ _ Hl Hin).
    + by apply (ok_disj _ Hok _ _ _ _ x Hl Hl').
  - assert (∀ l, is_Some (rings tb' !! l) → is_Some (rings tb !! l) ∧ nr_of tb' l = nr_of tb l) as Hs.
    { intros l [fs [[-> ->]|[Hlt Hl]]%Hr]; rewrite Hnr.
      - rewrite decide_False by done. split; [by eexists|done].
      - rewrite decide_False by (eapply Hne; [exact Hl|by left]). split; [by eexists|done]. }
    intros l l' [H1 ->]%Hs [H2 ->]%Hs. by apply (ok_nr _ Hok).
  - intros b l. replace (chain tb' b) with (chain tb b) by (by rewrite Htb). rewrite (ok_chain _ Hok), Hnr. split.
    + intros [[fs Hl] ->]. rewrite decide_False by (eapply Hne; [exact Hl|by left]). split; [|done].
      destruct (decide (l = p)) as [->|]; eexists; apply Hr; [by left|by right].
    + intros [[fs [[-> ->]|[Hlt Hl]]%Hr] ->].
      * rewrite decide_False by done. split; [by eexists|done].
      * rewrite decide_False by (eapply Hne; [exact Hl|by left]). split; [by eexists|done].
  - intros t' nr'. unfold att at 1. rewrite Hnr. split.
    + intros [(l & fs & [[-> ->]|[Hlt Hl]]%Hr & Hin) He].
      * apply Hx in Hin as [Hin| ->]; [|rewrite decide_True in He by done; by right].
        left. rewrite decide_False in He by (by eapply Hne). split; [|done]. eauto.
      * left. rewrite decide_False in He by (by eapply Hne). split; [|done]. eauto.
    + intros [[(l & fs & Hl & Hin) He]|[-> ->]].
      * rewrite decide_False by (by eapply Hne). split; [|done].
        destruct (decide (l = p)) as [->|].
        -- rewrite Hfp in Hl. injection Hl as <-. exists p, (fp ++ [t]).
           split; [apply Hr; by left|]. apply Hx. by left.
        -- exists l, fs. split; [|done]. apply Hr. by right.
      * rewrite decide_True by done. split; [|done]. exists p, (fp ++ [t]).
        split; [apply Hr; by left|]. apply Hx. by right.
Qed.

Lemma attach_table_ok tb t nr :
  tb_ok tb → linked tb t = false →
  let tb' := attach_table shift tb t nr in
  tb_ok tb' ∧ ∀ t' nr', att tb' t' nr' ↔ att tb t' nr' ∨ t' = t ∧ nr' = nr.
Proof.
  intros Hok Hn. destruct (find_pid shift tb nr) as [p|] eqn:Hf.
  - by eapply attach_join_ok.
  - by apply attach_new_ok.
Qed.

(** ** Detaching *)

(** The lists of [tb'] are those of [tb] without [t]. *)
Record detached tb t tb' : Prop := {
  d_nr : ∀ x, nr_of tb' x = if decide (x = t) then 0 else nr_of tb x;
  d_from : ∀ l' fs', rings tb' !! l' = Some fs' →
    NoDup (l' :: fs') ∧
    ∃ l fs, rings tb !! l = Some fs ∧ ∀ x, x ∈ l' :: fs' ↔ x ∈ l :: fs ∧ x ≠ t;
  d_to : ∀ l fs x, rings tb !! l = Some fs → x ∈ l :: fs → x ≠ t →
    ∃ l' fs', rings tb' !! l' = Some fs' ∧ x ∈ l' :: fs';
  d_one : ∀ l1 l2 l fs, is_Some (rings tb' !! l1) → is_Some (rings tb' !! l2) →
    rings tb !! l = Some fs → l1 ∈ l :: fs → l2 ∈ l :: fs → l1 = l2;
  d_chain : ∀ b l, l ∈ chain tb' b ↔
    is_Some (rings tb' !! l) ∧ b = pid_hashfn shift (nr_of tb l);
}.

Lemma ring_nr tb l fs x y :
  tb_ok tb → rings tb !! l = Some fs → x ∈ l :: fs → y ∈ l :: fs → nr_of tb x = nr_of tb y.
Proof.
  intros Hok Hl Hx Hy. destruct (ok_ring _ Hok _ _ Hl) as [_ H].
  apply elem_of_cons in Hx as [->|Hx]; apply elem_of_cons in Hy as [->|Hy]; try done.
  - symmetry. by apply H.
  - by apply H.
  - rewrite (H x), (H y) by done. done.
Qed.

Lemma detached_ok tb t tb' :
  tb_ok tb → detached tb t tb' →
  tb_ok tb' ∧ ∀ t' nr', att tb' t' nr' ↔ att tb t' nr' ∧ t' ≠ t.
Proof.
  intros Hok [Hnr Hfrom Hto Hone Hch].
  assert (∀ l fs, rings tb' !! l = Some fs → nr_of tb' l = nr_of tb l ∧ l ≠ t) as Hlead.
  { intros l fs Hl. destruct (Hfrom _ _ Hl) as (_ & l0 & fs0 & _ & Hx).
    destruct (proj1 (Hx l)) as [_ Hne]; [by left|]. by rewrite Hnr, decide_False. }
  split; [split|].
  - intros l fs Hl. destruct (Hfrom _ _ Hl) as (Hnd & l0 & fs0 & Hl0 & Hx). split; [done|].
    intros x Hin. destruct (proj1 (Hx x)) as [H1 H2]; [by right|].
    destruct (proj1 (Hx l)) as [H3 H4]; [by left|].
    rewrite !Hnr, !decide_False by done. by eapply ring_nr.
  - intros l1 fs1 l2 fs2 x H1 H2 Hx1 Hx2.
    destruct (Hfrom _ _ H1) as (_ & l & fs & Hl & Hm1).
    destruct (Hfrom _ _ H2) as (_ & l' & fs' & Hl' & Hm2).
    apply Hm1 in Hx1 as [Hx1 _]. apply Hm2 in Hx2 as [Hx2 _].
    pose proof (ok_disj _ Hok _ _ _ _ x Hl Hl' Hx1 Hx2) as <-. rewrite Hl in Hl'. injection Hl' as <-.
    apply (Hone l1 l2 l fs); [by eexists|by eexists|done| |].
    + apply Hm1. by left.
    + apply Hm2. by left.
  - intros l1 l2 [fs1 H1] [fs2 H2] He.
    destruct (Hlead _ _ H1) as [E1 _], (Hlead _ _ H2) as [E2 _]. rewrite E1, E2 in He.
    destruct (Hfrom _ _ H1) as (_ & l & fs & Hl & Hm1).
    destruct (Hfrom _ _ H2) as (_ & l' & fs' & Hl' & Hm2).
    destruct (proj1 (Hm1 l1)) as [I1 _]; [by left|]. destruct (proj1 (Hm2 l2)) as [I2 _]; [by left|].
    assert (l = l') as <-.
    { apply (ok_nr _ Hok); [by eexists|by eexists|].
      rewrite (ring_nr _ _ _ l l1 Hok Hl), (ring_nr _ _ _ l' l2 Hok Hl'); [done|..];
        done || by left. }
    rewrite Hl in Hl'. injection Hl' as <-. by apply (Hone l1 l2 l fs); [by eexists|by eexists|..].
  - intros b l. rewrite Hch. split; intros [[fs Hl] Hb]; (split; [by eexists|]);
      destruct (Hlead _ _ Hl) as [E _]; congruence.
  - intros t' nr'. unfold att. rewrite Hnr. split.
    + intros [(l & fs & Hl & Hin) He]. destruct (Hfrom _ _ Hl) as (_ & l0 & fs0 & Hl0 & Hx).
      apply Hx in Hin as [Hin Hne]. rewrite decide_False in He by done. split; [|done].
      split; [|done]. eauto.
    + intros [[(l & fs & Hl & Hin) He] Hne]. rewrite decide_False by done. split; [|done].
      by eapply Hto.
Qed.

Lemma chain_hlist_del tb t b :
  chain (hlist_del t tb) b = filter (λ x, x ≠ t) (chain tb b).
Proof. unfold chain, hlist_del. cbn. rewrite lookup_fmap. by destruct (chains tb !! b). Qed.

Lemma elem_of_drop t x fs : x ∈ drop_member t fs ↔ x ∈ fs ∧ x ≠ t.
Proof. unfold drop_member. rewrite list_elem_of_filter. tauto. Qed.

(** A task that is not hashed leaves its list. *)
Lemma detach_follower tb t :
  tb_ok tb → rings tb !! t = None → detached tb t (detach_table shift tb t).1.
Proof.
  intros Hok Hn. unfold detach_table. rewrite Hn. cbn [fst].
  assert (∀ l fs, (drop_member t <$> rings tb) !! l = Some fs ↔
            ∃ fs0, rings tb !! l = Some fs0 ∧ fs = drop_member t fs0) as Hr.
  { intros l fs. rewrite lookup_fmap, fmap_Some. done. }
  assert (∀ l fs, rings tb !! l = Some fs → l ≠ t) as Hne by (intros l fs Hl ->; congruence).
  split; cbn [rings chains].
  - intros x. apply nr_insert.
  - intros l fs (fs0 & Hl & ->)%Hr. destruct (ok_ring _ Hok _ _ Hl) as [Hnd _].
    apply NoDup_cons in Hnd as [H1 H2]. split.
    + apply NoDup_cons. split; [by intros [? _]%elem_of_drop|]. by apply NoDup_filter.
    + exists l, fs0. split; [done|]. intros x. rewrite !elem_of_cons, elem_of_drop.
      pose proof (Hne _ _ Hl). split; [intros [->|[]]; auto|]. intros [[->|] ?]; auto.
  - intros l fs x Hl Hx Hxt. exists l, (drop_member t fs). split; [apply Hr; eauto|].
    apply elem_of_cons in Hx as [->|]; [by left|]. right. by apply elem_of_drop.
  - intros l1 l2 l fs [f1 (g1 & H1 & _)%Hr] [f2 (g2 & H2 & _)%Hr] Hl I1 I2.
    transitivity l.
    + by apply (ok_disj _ Hok _ _ _ _ l1 H1 Hl); [left|].
    + symmetry. by apply (ok_disj _ Hok _ _ _ _ l2 H2 Hl); [left|].
  - intros b l. change (chain _ b) with (chain tb b). rewrite (ok_chain _ Hok).
    split; intros [[fs Hl] Hb]; (split; [|done]).
    + eexists. apply Hr. eauto.
    + apply Hr in Hl as (fs0 & Hl & _). by eexists.
Qed.

(** A hashed task that is alone leaves the table. *)
Lemma detach_alone tb t :
  tb_ok tb → rings tb !! t = Some [] → detached tb t (detach_table shift tb t).1.
Proof.
  intros Hok Ht. unfold detach_table. rewrite Ht. cbn [fst].
  assert (∀ l fs, delete t (rings tb) !! l = Some fs ↔ l ≠ t ∧ rings tb !! l = Some fs) as Hr.
  { intros l fs. rewrite lookup_delete_Some. split; intros [? ?]; done. }
  assert (∀ l fs x, rings tb !! l = Some fs → x ∈ l :: fs → l ≠ t → x ≠ t) as Hne.
  { intros l fs x Hl Hx Hlt ->. by apply Hlt, (ok_disj _ Hok _ _ _ _ t Hl Ht); [|left]. }
  split; cbn [rings chains hlist_del].
  - intros x. apply nr_insert.
  - intros l fs [Hlt Hl]%Hr. destruct (ok_ring _ Hok _ _ Hl) as [Hnd _]. split; [done|].
    exists l, fs. split; [done|]. intros x. split; [|by intros [? _]]. intros Hx.
    split; [done|]. by eapply Hne.
  - intros l fs x Hl Hx Hxt. exists l, fs. split; [|done]. apply Hr. split; [|done]. intros ->.
    rewrite Ht in Hl. injection Hl as <-. by apply list_elem_of_singleton in Hx.
  - intros l1 l2 l fs [f1 [_ H1]%Hr] [f2 [_ H2]%Hr] Hl I1 I2. transitivity l.
    + by apply (ok_disj _ Hok _ _ _ _ l1 H1 Hl); [left|].
    + symmetry. by apply (ok_disj _ Hok _ _ _ _ l2 H2 Hl); [left|].
  - intros b l. change (chain _ b) with (chain (hlist_del t tb) b).
    rewrite chain_hlist_del, list_elem_of_filter, (ok_chain _ Hok). split.
    + intros [Hlt [[fs Hl] Hb]]. split; [|done]. eexists. by apply Hr.
    + intros [[fs [Hlt Hl]%Hr] Hb]. split; [done|]. split; [by eexists|done].
Qed.

(** A hashed task with others: the next one takes its place. *)
Lemma detach_replaced tb t next rest :
  tb_ok tb → rings tb !! t = Some (next :: rest) → detached tb t (detach_table shift tb t).1.
Proof.
  intros Hok Ht. unfold detach_table. rewrite Ht. cbn [fst].
  destruct (ok_ring _ Hok _ _ Ht) as [Hnd Hsame].
  apply NoDup_cons in Hnd as [Hnt Hnd]. apply not_elem_of_cons in Hnt as [Hnt Htr].
  assert (nr_of tb next = nr_of tb t) as Hnx by (apply Hsame; by left).
  assert (rings tb !! next = None) as Hfree.
  { destruct (rings tb !! next) as [fs|] eqn:E; [|done]. exfalso. apply Hnt.
    apply (ok_disj _ Hok _ _ _ _ next Ht E); [by right; left|by left]. }
  assert (∀ l fs, <[next := rest]> (delete t (rings tb)) !! l = Some fs ↔
            l = next ∧ fs = rest ∨ l ≠ next ∧ l ≠ t ∧ rings tb !! l = Some fs) as Hr.
  { intros l fs. destruct (decide (l = next)) as [->|].
    - rewrite lookup_insert_eq. split; [intros [= <-]; by left|]. by intros [[_ ->]|[? _]].
    - rewrite lookup_insert_ne by done. rewrite lookup_delete_Some.
      split; [intros [? ?]; by right|]. by intros [[? _]|(_ & ? & ?)]. }
  assert (∀ l fs x, rings tb !! l = Some fs → x ∈ l :: fs → l ≠ t → x ≠ t) as Hne.
  { intros l fs x Hl Hx Hlt ->. by apply Hlt, (ok_disj _ Hok _ _ _ _ t Hl Ht); [|left]. }
  assert (∀ l, is_Some (<[next := rest]> (delete t (rings tb)) !! l) → ∃ l0 fs0,
     rings tb !! l0 = Some fs0 ∧ l ∈ l0 :: fs0 ∧ (l0 = t → l = next) ∧ (l0 ≠ t → l = l0)) as Horig.
  { intros l [fs [[-> ->]|(H1 & H2 & Hl)]%Hr].
    - exists t, (next :: rest). split_and!; try done. by right; left.
    - exists l, fs. split_and!; try done. by left. }
  split; cbn [rings chains hlist_add_head hlist_del].
  - intros x. apply nr_insert.
  - intros l fs [[-> ->]|(Hln & Hlt & Hl)]%Hr.
    + split; [done|]. exists t, (next :: rest). split; [done|]. intros x.
      rewrite !elem_of_cons. split.
      * intros [->|Hx]; [auto|]. split; [auto|]. by intros ->.
      * by intros [[->|[->|]] ?]; auto.
    + destruct (ok_ring _ Hok _ _ Hl) as [Hnd' _]. split; [done|].
      exists l, fs. split; [done|]. intros x. split; [|by intros [? _]]. intros Hx.
      split; [done|]. by eapply Hne.
  - intros l fs x Hl Hx Hxt. destruct (decide (l = t)) as [->|Hlt].
    + rewrite Ht in Hl. injection Hl as <-. exists next, rest. split; [apply Hr; by left|].
      by apply elem_of_cons in Hx as [->|].
    + exists l, fs. split; [|done]. apply Hr. right. split_and!; try done. congruence.
  - intros l1 l2 l fs (a1 & f1 & A1 & B1 & C1 & D1)%Horig (a2 & f2 & A2 & B2 & C2 & D2)%Horig Hl I1 I2.
    pose proof (ok_disj _ Hok _ _ _ _ l1 A1 Hl B1 I1) as ->.
    pose proof (ok_disj _ Hok _ _ _ _ l2 A2 Hl B2 I2) as ->.
    destruct (decide (l = t)) as [->|Hlt].
    + by rewrite C1, C2.
    + by rewrite D1, D2.
  - intros b l. rewrite chain_insert.
    change (chain (mk_table (filter _ <$> chains tb) _ _) b) with (chain (hlist_del t tb) b).
    change (nr_of _ next) with (nr_of tb next).
    change (chain _ (pid_hashfn shift (nr_of tb next))) with
      (chain (hlist_del t tb) (pid_hashfn shift (nr_of tb next))).
    assert (l ∈ chain (hlist_del t tb) b ↔
            l ≠ next ∧ is_Some (<[next := rest]> (delete t (rings tb)) !! l) ∧
            b = pid_hashfn shift (nr_of tb l)) as Hc.
    { rewrite chain_hlist_del, list_elem_of_filter, (ok_chain _ Hok). split.
      - intros [Hlt [[fs Hl] Hb]]. assert (l ≠ next) by congruence. split; [done|].
        split; [|done]. eexists. apply Hr. by right.
      - intros (Hln & [fs [[? _]|(_ & Hlt & Hl)]%Hr] & Hb); [done|]. split; [done|].
        split; [by eexists|done]. }
    destruct (decide (b = pid_hashfn shift (nr_of tb next))) as [->|Hb].
    + rewrite elem_of_cons, Hc. split.
      * intros [->|(H1 & H2 & H3)]; [|done]. split; [|done]. eexists. apply Hr. by left.
      * intros [H1 H2]. destruct (decide (l = next)); [by left|by right].
    + rewrite Hc. split; [by intros (_ & ? & ?)|]. intros [H1 ->]. split; [|done].
      by intros ->.
Qed.

(** Detaching a task removes it from the relation; a number other than 0 is
    returned exactly when nobody in this table has it any more. *)
Lemma detach_table_ok tb t nr :
  tb_ok tb → att tb t nr →
  let tb' := (detach_table shift tb t).1 in
  let r := (detach_table shift tb t).2 in
  tb_ok tb' ∧ (∀ t' nr', att tb' t' nr' ↔ att tb t' nr' ∧ t' ≠ t) ∧
  ((r = nr ∧ ∀ t', ¬ att tb' t' nr) ∨ (r = 0 ∧ ∃ t', att tb' t' nr)).
Proof.
  intros Hok Hatt tb' r. pose proof Hatt as [(l & fs & Hl & Ht) Hn].
  destruct (rings tb !! t) as [[|next rest]|] eqn:E.
  - destruct (detached_ok _ _ _ Hok (detach_alone _ _ Hok E)) as [H1 H2].
    split; [done|]. split; [done|]. left. split.
    + unfold r, detach_table. rewrite E. done.
    + intros t' [H3 H4]%H2. destruct (att_leader _ _ _ Hok H3) as (l' & fs' & Hl' & Hin & He).
      assert (l' = t) as ->; [|rewrite E in Hl'; injection Hl' as <-; by apply list_elem_of_singleton in Hin].
      apply (ok_nr _ Hok); [by eexists|by eexists|congruence].
  - destruct (detached_ok _ _ _ Hok (detach_replaced _ _ _ _ Hok E)) as [H1 H2].
    split; [done|]. split; [done|]. right. split; [unfold r, detach_table; by rewrite E|].
    destruct (ok_ring _ Hok _ _ E) as [Hnd Hs]. exists next. apply H2. split.
    + split; [exists t, (next :: rest); split; [done|by right; left]|].
      rewrite (Hs next) by (by left). done.
    + intros ->. apply NoDup_cons in Hnd as [Hnd _]. apply Hnd. by left.
  - destruct (detached_ok _ _ _ Hok (detach_follower _ _ Hok E)) as [H1 H2].
    split; [done|]. split; [done|]. right. split; [unfold r, detach_table; by rewrite E|].
    exists l. apply H2. split; [|intros ->; congruence]. split.
    + exists l, fs. split; [done|by left].
    + rewrite <- Hn. eapply ring_nr; [done|exact Hl|by left|done].
Qed.

End table.
End PidHashFacts.
