(* ===== verification/PidTheorems.v ===== *)
(** * Process identifiers: bitmap and hash tables together

    Histories of allocations, attachments and detachments as fork, exit, setsid,
    setpgid and execve make them: the bitmap marks exactly the numbers in use, so
    that a number is not given out again while a task has it as process, thread
    group, process group or session id. *)

From stdpp Require Import prelude numbers list gmap relations.
From Stdlib Require Import ZArith Lia.
From S2P Require Import Prelude Pidmap PidmapFacts PidHash PidHashFacts.

#[local] Set Default Goal Selector "!".
#[local] Open Scope Z_scope.

Module PidTheorems.
Import Pidmap PidmapFacts PidHash PidHashFacts.

(** The number a task is attached with in one of the tables. *)
Definition attf (s : pid_state) (ty : pid_type) (t : nat) : option Z :=
  if linked (tables s ty) t then Some (nr_of (tables s ty) t) else None.

Definition tables_ok (s : pid_state) : Prop := ∀ ty, tb_ok (pidhash_shift s) (tables s ty).

Lemma attf_att s ty t nr : attf s ty t = Some nr ↔ att (tables s ty) t nr.
Proof.
  unfold attf, att. rewrite <- linked_spec. destruct (linked (tables s ty) t).
  - split; [by intros [= <-]|by intros [_ ->]].
  - split; [done|by intros [? _]].
Qed.

Lemma attf_none s ty t : attf s ty t = None ↔ linked (tables s ty) t = false.
Proof. unfold attf. by destruct (linked _ _). Qed.

(** Everything but the tables is as before. *)
Definition same_rest (s s' : pid_state) : Prop :=
  bitmap s' = bitmap s ∧ pidhash_shift s' = pidhash_shift s ∧ tasks s' = tasks s.

Lemma wp_attach t ty nr (Φ : unit → pid_state → Prop) Ψ s :
  tables_ok s → attf s ty t = None →
  (∀ s', tables_ok s' → same_rest s s' →
     (∀ ty' t', attf s' ty' t' = if decide (ty' = ty ∧ t' = t) then Some nr else attf s ty' t') →
     Φ tt s') →
  wp (attach_pid t ty nr) Φ Ψ s.
Proof.
  intros Hok Hn HΦ. apply attf_none in Hn. unfold attach_pid.
  apply wp_bind, wp_gets, wp_bind, wp_gets. rewrite Hn. apply wp_modify.
  destruct (attach_table_ok _ _ _ nr (Hok ty) Hn) as [H1 H2].
  apply HΦ; [|done|].
  - intros ty'. cbn. by destruct (decide (ty' = ty)).
  - intros ty' t'. apply option_eq. intros n. rewrite attf_att. cbn.
    destruct (decide (ty' = ty)) as [->|Hty].
    + rewrite H2, <- attf_att. destruct (decide (ty = ty ∧ t' = t)) as [[_ ->]|Hne].
      * apply attf_none in Hn. rewrite Hn. split; [by intros [|[_ ->]]|intros [= ->]; by right].
      * split; [|by left]. intros [|[-> _]]; [done|]. by destruct Hne.
    + rewrite decide_False by (by intros [? _]). by rewrite <- attf_att.
Qed.

Lemma wp_detach t ty nr (Φ : Z → pid_state → Prop) Ψ s :
  tables_ok s → attf s ty t = Some nr →
  (∀ r s', tables_ok s' → same_rest s s' →
     (∀ ty' t', attf s' ty' t' = if decide (ty' = ty ∧ t' = t) then None else attf s ty' t') →
     (r = nr ∧ (∀ t', attf s' ty t' ≠ Some nr)) ∨ (r = 0 ∧ ∃ t', attf s' ty t' = Some nr) →
     Φ r s') →
  wp (__detach_pid t ty) Φ Ψ s.
Proof.
  intros Hok Hatt HΦ. apply attf_att in Hatt as Ha. unfold __detach_pid.
  apply wp_bind, wp_gets, wp_bind, wp_gets.
  assert (linked (tables s ty) t = true) as -> by (apply linked_att; eauto). cbn [negb].
  apply wp_bind, wp_modify, wp_ret.
  destruct (detach_table_ok _ _ _ _ (Hok ty) Ha) as (H1 & H2 & H3).
  apply HΦ; [|done| |].
  - intros ty'. cbn. by destruct (decide (ty' = ty)).
  - intros ty' t'. apply option_eq. intros n. rewrite attf_att. cbn.
    destruct (decide (ty' = ty)) as [->|Hty].
    + rewrite H2, <- attf_att. destruct (decide (ty = ty ∧ t' = t)) as [[_ ->]|Hne].
      * split; [by intros [_ []]|done].
      * split; [by intros [? _]|]. intros ?. split; [done|]. intros ->. by destruct Hne.
    + rewrite decide_False by (by intros [? _]). by rewrite <- attf_att.
  - destruct H3 as [[-> H3]|[-> [t' H3]]]; [left|right]; (split; [done|]).
    + intros t' H. apply (H3 t'). apply attf_att in H. cbn in H. by rewrite decide_True in H.
    + exists t'. apply attf_att. cbn. by rewrite decide_True.
Qed.

Lemma wp_lift {A} (m : SM pids A) (Φ : A → pid_state → Prop) Ψ s :
  wp m (λ a b, Φ a (set_bitmap b s)) (λ e b, Ψ e (set_bitmap b s)) (bitmap s) →
  wp (lift_bitmap m) Φ Ψ s.
Proof. unfold wp, lift_bitmap. by destruct (m (bitmap s)) as [[a|e|] b]. Qed.

(** ** [free_pidmap] run alone *)

Lemma wp_free_pidmap q (Φ : unit → pids → Prop) Ψ s :
  wf s → used s q →
  (∀ s', wf s' → pid_max s' = pid_max s → (∀ x, used s' x ↔ used s x ∧ x ≠ q) → Φ tt s') →
  wp (free_pidmap q) Φ Ψ s.
Proof.
  intros [Hf Hl] Hq HΦ. destruct (used_page _ _ Hq) as (m & p & H0 & Ha & Hp & Hin).
  assert (0 <= q mod BITS_PER_PAGE < BITS_PER_PAGE) as Ho by (apply Z.mod_pos_bound; bpp).
  pose proof (lookup_lt_Some _ _ _ Ha) as Hlt.
  unfold free_pidmap. cbn [free_step]. rewrite land_page.
  apply wp_bind, wp_bind. eapply wp_clear_bit; [done|exact Ha|exact Hp|done|]. apply wp_ret.
  unfold atomic_inc, add_nr_free. eapply wp_bind, wp_bind, wp_bind, wp_get_map;
    [done|cbn; by apply list_lookup_insert_eq|].
  apply wp_modify, wp_ret, wp_ret. cbn. rewrite list_insert_insert_eq. unfold set_array. cbn.
  set (m' := mk_pidmap _ _). apply HΦ.
  - split; [|by apply (set_array_limits s)]. cbn. apply Forall_insert; [done|].
    pose proof (map_ok_clear _ _ _ _ (Forall_lookup_1 _ _ _ _ Hf Ha) Hp Hin) as Hm.
    unfold map_ok in *. cbn in *. destruct Hm. split; [done|]. lia.
  - done.
  - intros x. unfold used. cbn. rewrite (mk_pid_split q) at 2.
    rewrite <- (page_bit_clear _ _ _ _ _ _ H0 Ha Hp Ho).
    rewrite <- (list_insert_insert_eq (pidmap_array s) (Z.to_nat (q / BITS_PER_PAGE)) m'
                  (mk_pidmap (nr_free m) (Some (p ∖ {[q mod BITS_PER_PAGE]})))).
    apply (bit_count _ _ (mk_pidmap (nr_free m) (Some (p ∖ {[q mod BITS_PER_PAGE]})))); [done|].
    by apply list_lookup_insert_eq.
Qed.

(** ** The number of a detached task *)

Definition attached (s : pid_state) (q : Z) : Prop := ∃ ty t, attf s ty t = Some q.

Lemma in_other_spec s ty nr :
  tables_ok s →
  in_other_table s ty nr = true ↔ ∃ ty' t, ty' ≠ ty ∧ attf s ty' t = Some nr.
Proof.
  intros Hok. unfold in_other_table. rewrite existsb_exists. split.
  - intros (ty' & _ & [Hne Hf]%andb_true_iff). apply bool_decide_eq_true in Hne.
    pose proof (proj1 (find_pid_iff _ _ nr (Hok ty'))) as Hfind.
    destruct (find_pid _ _ _); [|done].
    destruct Hfind as [t Ht]; [by eexists|]. exists ty', t. by rewrite attf_att.
  - intros (ty' & t & Hne & Ht). exists ty'. split; [destruct ty'; cbn; tauto|].
    rewrite bool_decide_eq_true_2 by done. cbn.
    destruct (proj2 (find_pid_iff _ _ nr (Hok ty'))) as [p ->]; [|done].
    exists t. by apply attf_att.
Qed.

(** [detach_pid] gives a number back to the bitmap when its last user goes. *)
Lemma wp_detach_pid t ty nr (Φ : unit → pid_state → Prop) Ψ s :
  tables_ok s → wf (bitmap s) → attf s ty t = Some nr → used (bitmap s) nr →
  (∀ s', tables_ok s' → wf (bitmap s') → pidhash_shift s' = pidhash_shift s →
     tasks s' = tasks s → pid_max (bitmap s') = pid_max (bitmap s) →
     (∀ ty' t', attf s' ty' t' = if decide (ty' = ty ∧ t' = t) then None else attf s ty' t') →
     (∀ q, used (bitmap s') q ↔ used (bitmap s) q ∧ (q = nr → q = 0 ∨ attached s' q)) →
     Φ tt s') →
  wp (detach_pid t ty) Φ Ψ s.
Proof.
  intros Hok Hwf Hatt Hused HΦ. unfold detach_pid. apply wp_bind.
  eapply wp_detach; [done..|]. intros r s' Hok' (Hb & Hsh & Htk) Hf Hr.
  destruct (Z.eqb_spec r 0) as [Hr0|Hr0].
  - apply wp_ret. apply HΦ; rewrite ?Hb; try done. intros q. split; [|by intros [? _]].
    intros Hq. split; [done|]. intros ->.
    destruct Hr as [[<- _]|[_ [t' Ht']]]; [by left|]. right. by exists ty, t'.
  - destruct Hr as [[-> Hnone]|[? _]]; [|done].
    apply wp_bind, wp_gets. destruct (in_other_table s' ty nr) eqn:Hot.
    + apply wp_ret. apply HΦ; rewrite ?Hb; try done. intros q. split; [|by intros [? _]].
      intros Hq. split; [done|]. intros ->. right.
      apply in_other_spec in Hot as (ty' & t' & _ & Ht'); [|done]. by exists ty', t'.
    + apply wp_lift. apply wp_free_pidmap; rewrite ?Hb; [done..|].
      intros b Hwb Hpm Hub. apply HΦ; try done.
      intros q. cbn [bitmap set_bitmap]. rewrite Hub. split.
      * intros [H1 H2]. split; [done|]. intros ?; done.
      * intros [H1 H2]. split; [done|]. intros ->.
        destruct (H2 eq_refl) as [?|(ty' & t' & Ht')]; [done|].
        change (attf (set_bitmap b s') ty' t') with (attf s' ty' t') in Ht'.
        destruct (decide (ty' = ty)) as [->|Hne]; [by apply (Hnone t')|].
        assert (in_other_table s' ty nr = true); [|congruence].
        apply in_other_spec; [done|]. eauto.
Qed.

(** ** [switch_exec_pids] *)

(** What its caller guarantees: the leader is attached in all tables, the other
    thread of the group by its own pid and the group's. *)
Definition exec_ready (s : pid_state) (leader thread : nat) : bool :=
  match tasks s !! leader, tasks s !! thread with
  | Some l, Some th =>
    bool_decide (leader ≠ thread)
    && bool_decide (attf s PIDTYPE_PID leader = Some (t_pid l))
    && bool_decide (attf s PIDTYPE_TGID leader = Some (t_pid l))
    && bool_decide (attf s PIDTYPE_PGID leader = Some (t_pgrp l))
    && bool_decide (attf s PIDTYPE_SID leader = Some (t_session l))
    && bool_decide (attf s PIDTYPE_PID thread = Some (t_pid th))
    && bool_decide (attf s PIDTYPE_TGID thread = Some (t_tgid th))
    && bool_decide (attf s PIDTYPE_PGID thread = None)
    && bool_decide (attf s PIDTYPE_SID thread = None)
    && (t_tgid th =? t_pid l) && (t_pgrp th =? t_pgrp l) && (t_session th =? t_session l)
  | _, _ => false
  end.

(** The numbers of the two tasks afterwards. *)
Definition exec_attf (s : pid_state) (leader thread : nat) (l th : task)
    (ty : pid_type) (t : nat) : option Z :=
  if decide (t = leader) then
    Some (match ty with
          | PIDTYPE_PID | PIDTYPE_TGID => t_pid th
          | PIDTYPE_PGID => t_pgrp l
          | PIDTYPE_SID => t_session l
          end)
  else if decide (t = thread) then
    Some (match ty with
          | PIDTYPE_PID | PIDTYPE_TGID => t_tgid th
          | PIDTYPE_PGID => t_pgrp th
          | PIDTYPE_SID => t_session th
          end)
  else attf s ty t.

(** Evaluates the numbers of a state that was reached by attaching and detaching. *)
Ltac attf_eval :=
  repeat match goal with H : ∀ ty t, attf ?s' ty t = _ |- context [attf ?s' _ _] => rewrite H end;
  repeat match goal with
  | |- context [decide (?a = ?a ∧ ?b = ?b)] =>
    rewrite (decide_True (P := a = a ∧ b = b)) by done
  | |- context [decide (?a = ?b ∧ ?c = ?d)] =>
    rewrite (decide_False (P := a = b ∧ c = d)) by (intros [? ?]; congruence)
  end.
Ltac detach_next :=
  apply wp_bind; eapply wp_detach; [done|attf_eval; eassumption|];
  let r := fresh "r" in let s' := fresh "s" in let Hok := fresh "Hok" in
  let Hb := fresh "Hb" in let Hsh := fresh "Hsh" in let Htk := fresh "Htk" in
  let Hf := fresh "Hf" in intros r s' Hok (Hb & Hsh & Htk) Hf _.
Ltac attach_next :=
  try apply wp_bind; apply wp_attach; [done|by attf_eval|];
  let s' := fresh "s" in let Hok := fresh "Hok" in
  let Hb := fresh "Hb" in let Hsh := fresh "Hsh" in let Htk := fresh "Htk" in
  let Hf := fresh "Hf" in intros s' Hok (Hb & Hsh & Htk) Hf.

Lemma wp_switch_exec leader thread l th (Φ : unit → pid_state → Prop) Ψ s :
  tables_ok s → exec_ready s leader thread = true →
  tasks s !! leader = Some l → tasks s !! thread = Some th →
  (∀ s', tables_ok s' → bitmap s' = bitmap s → pidhash_shift s' = pidhash_shift s →
     (∀ ty t, attf s' ty t = exec_attf s leader thread l th ty t) → Φ tt s') →
  wp (switch_exec_pids leader thread) Φ Ψ s.
Proof.
  intros Hok Hr Hl Hth HΦ. unfold exec_ready in Hr. rewrite Hl, Hth in Hr.
  repeat (apply andb_true_iff in Hr as [Hr ?]).
  repeat match goal with H : bool_decide _ = true |- _ => apply bool_decide_eq_true in H end.
  zb_hyps. unfold switch_exec_pids. do 6 detach_next.
  apply wp_bind. unfold wp at 1, get_task. replace (tasks _ !! leader) with (Some l) by congruence.
  apply wp_bind. unfold wp at 1, get_task. replace (tasks _ !! thread) with (Some th) by congruence.
  apply wp_bind, wp_modify. set (s6 := set_tasks _ _).
  assert (∀ ty t, attf s6 ty t = attf s5 ty t) as Hf6 by done.
  assert (tables_ok s6 ∧ bitmap s6 = bitmap s5 ∧ pidhash_shift s6 = pidhash_shift s5)
    as (Hok6 & Hb6 & Hs6) by done. clearbody s6.
  do 8 attach_next. apply HΦ; [done|congruence|congruence|].
  intros ty t. unfold exec_attf. destruct (decide (t = leader)) as [->|N1].
  - destruct ty; by attf_eval.
  - destruct (decide (t = thread)) as [->|N2]; destruct ty; by attf_eval.
Qed.

(** ** Histories *)

(** [fresh]: numbers from [alloc_pidmap] that a fork in progress has not attached yet. *)
Record history := mk_history {
  ps : pid_state;
  fresh : gset Z;
}.

Inductive event :=
| Alloc (got : Z → bool)                        (* do_fork: alloc_pidmap *)
| Free (q : Z)                                  (* do_fork, on failure: free_pidmap *)
| Attach (t : nat) (ty : pid_type) (nr : Z)
| Detach (t : nat) (ty : pid_type)
| SetTask (t : nat) (p : task)                  (* fields of a task change *)
| Exec (leader thread : nat)
| SetMax (n : Z).

Definition in_use (h : history) (nr : Z) : bool :=
  (nr =? 0) || bool_decide (nr ∈ fresh h)
  || existsb (λ ty, match find_pid (pidhash_shift (ps h)) (tables (ps h) ty) nr with
                    | Some _ => true | None => false end) pid_types.

Definition enabled (e : event) (h : history) : bool :=
  match e with
  | Alloc _ | SetTask _ _ => true
  | Free q => bool_decide (q ∈ fresh h)
  | Attach t ty nr => bool_decide (attf (ps h) ty t = None) && in_use h nr
  | Detach t ty => negb (bool_decide (attf (ps h) ty t = None))
  | Exec leader thread => exec_ready (ps h) leader thread
  | SetMax n => (RESERVED_PIDS <? n) && (n <=? entries (bitmap (ps h)) * BITS_PER_PAGE)
  end.

Definition exec_code (e : event) (fr : gset Z) : SM pid_state (gset Z) :=
  match e with
  | Alloc got =>
    r ← lift_bitmap (alloc_pidmap got);
    mret (if 0 <=? r then {[r]} ∪ fr else fr)
  | Free q => lift_bitmap (free_pidmap q);; mret (fr ∖ {[q]})
  | Attach t ty nr => attach_pid t ty nr;; mret (fr ∖ {[nr]})
  | Detach t ty => detach_pid t ty;; mret fr
  | SetTask t p => modify (λ s, set_tasks (<[t := p]> (tasks s)) s);; mret fr
  | Exec leader thread => switch_exec_pids leader thread;; mret fr
  | SetMax n => lift_bitmap (modify (set_pid_max n));; mret fr
  end.

Definition exec (e : event) (h : history) : outcome history :=
  match exec_code e (fresh h) (ps h) with
  | (Ok fr, s) => Ok (mk_history s fr)
  | (Err n, _) => Err n
  | (Bug, _) => Bug
  end.

Inductive step : history → history → Prop :=
| step_exec e h h' : enabled e h = true → exec e h = Ok h' → step h h'.

Definition boot (megabytes : Z) (n : nat) : history :=
  mk_history (snd (pid_init (pidhash_init megabytes n))) ∅.

(** The bitmap marks exactly the numbers in use. *)
Definition marked_ok (s : pid_state) (fr : gset Z) : Prop :=
  ∀ q, used (bitmap s) q ↔ q = 0 ∨ q ∈ fr ∨ attached s q.

Definition state_ok (s : pid_state) (fr : gset Z) : Prop :=
  wf (bitmap s) ∧ tables_ok s ∧ marked_ok s fr ∧ (∀ q, q ∈ fr → ¬ attached s q ∧ q ≠ 0).

Lemma in_use_spec h nr :
  tables_ok (ps h) → in_use h nr = true ↔ nr = 0 ∨ nr ∈ fresh h ∨ attached (ps h) nr.
Proof.
  intros Hok. unfold in_use. rewrite !orb_true_iff, Z.eqb_eq, bool_decide_eq_true, existsb_exists.
  assert ((∃ ty, In ty pid_types ∧ match find_pid (pidhash_shift (ps h)) (tables (ps h) ty) nr with
             | Some _ => true | None => false end = true) ↔ attached (ps h) nr) as ->; [|tauto].
  split.
  - intros (ty & _ & Hf). pose proof (proj1 (find_pid_iff _ _ nr (Hok ty))) as H.
    destruct (find_pid _ _ _); [|done]. destruct H as [t Ht]; [by eexists|].
    exists ty, t. by apply attf_att.
  - intros (ty & t & Ht). exists ty. split; [destruct ty; cbn; tauto|].
    destruct (proj2 (find_pid_iff _ _ nr (Hok ty))) as [p ->]; [|done].
    exists t. by apply attf_att.
Qed.

Abbreviation keeps_ok m s := (wp m (λ fr' s', state_ok s' fr') (λ _ _, False) s).

Lemma alloc_event got s fr : state_ok s fr → keeps_ok (exec_code (Alloc got) fr) s.
Proof.
  intros (Hwf & Hok & Hm & Hfr). unfold marked_ok in Hm. cbn [exec_code]. apply wp_bind, wp_lift.
  eapply wp_impl; [by apply alloc_pidmap_spec| |done].
  intros r b (Hwb & _ & Hpost). apply wp_ret.
  split_and!; cbn [bitmap set_bitmap]; [done|done|..].
  - intros q. cbn [bitmap set_bitmap].
    change (attached (set_bitmap b s) q) with (attached s q).
    destruct Hpost as [(-> & _ & Hu & _)|(Hr & _ & _ & _ & Hu)]; rewrite Hu, Hm; [done|].
    destruct (Z.leb_spec 0 r); [|lia]. rewrite elem_of_union, elem_of_singleton. tauto.
  - intros q. change (attached (set_bitmap b s) q) with (attached s q).
    destruct Hpost as [(-> & _)|(Hr & Hn & _ & _ & _)]; [apply Hfr|].
    destruct (Z.leb_spec 0 r); [|lia].
    intros [->%elem_of_singleton|Hq]%elem_of_union; [|by apply Hfr]. split; [|lia].
    intros Ha. apply Hn, Hm. by right; right.
Qed.

Lemma free_event q s fr :
  state_ok s fr → q ∈ fr → keeps_ok (exec_code (Free q) fr) s.
Proof.
  intros (Hwf & Hok & Hm & Hfr) Hq. unfold marked_ok in Hm. cbn [exec_code]. apply wp_bind, wp_lift.
  apply wp_free_pidmap; [done|apply Hm; by right; left|]. intros b Hwb _ Hu. apply wp_ret.
  destruct (Hfr q Hq) as [Hna Hn0].
  split_and!; [done|done|..]; intros x; cbn [bitmap set_bitmap];
    change (attached (set_bitmap b s) x) with (attached s x);
    rewrite elem_of_difference, elem_of_singleton.
  - rewrite Hu, Hm. split; [tauto|]. intros [->|[[? ?]|Ha]];
      [split; [tauto|congruence]|tauto|].
    split; [tauto|]. intros ->. done.
  - intros [Hx _]. by apply Hfr.
Qed.

Lemma attach_event t ty nr s fr :
  state_ok s fr → attf s ty t = None → nr = 0 ∨ nr ∈ fr ∨ attached s nr →
  keeps_ok (exec_code (Attach t ty nr) fr) s.
Proof.
  intros (Hwf & Hok & Hm & Hfr) Hn Hnr. unfold marked_ok in Hm. cbn [exec_code]. apply wp_bind.
  apply wp_attach; [done..|]. intros s' Hok' (Hb & _ & _) Hf. apply wp_ret.
  assert (∀ x, attached s' x ↔ attached s x ∨ x = nr) as Ha.
  { intros x. split.
    - intros (ty' & t' & Ht'). rewrite Hf in Ht'. destruct (decide (ty' = ty ∧ t' = t)).
      + injection Ht' as ->. by right.
      + left. by exists ty', t'.
    - intros [(ty' & t' & Ht')| ->].
      + exists ty', t'. rewrite Hf. destruct (decide (ty' = ty ∧ t' = t)) as [[-> ->]|]; [|done].
        by rewrite Hn in Ht'.
      + exists ty, t. by rewrite Hf, decide_True. }
  split_and!; [by rewrite Hb|done|..]; intros x;
    rewrite elem_of_difference, elem_of_singleton, Ha.
  - rewrite Hb, Hm. destruct (decide (x = nr)) as [->|]; tauto.
  - intros [Hx Hne]. destruct (Hfr x Hx). tauto.
Qed.

Lemma detach_event t ty s fr :
  state_ok s fr → attf s ty t ≠ None → keeps_ok (exec_code (Detach t ty) fr) s.
Proof.
  intros (Hwf & Hok & Hm & Hfr) Ht. unfold marked_ok in Hm. destruct (attf s ty t) as [nr|] eqn:Hnr; [|done].
  cbn [exec_code]. apply wp_bind. eapply wp_detach_pid; [done..| |].
  { apply Hm. right; right. by exists ty, t. }
  intros s' Hok' Hwf' _ _ _ Hf Hu. apply wp_ret.
  assert (∀ x, attached s' x → attached s x) as Hsub.
  { intros x (ty' & t' & Ht'). rewrite Hf in Ht'. destruct (decide _); [done|].
    by exists ty', t'. }
  assert (∀ x, attached s x → x ≠ nr → attached s' x) as Hkeep.
  { intros x (ty' & t' & Ht') Hne. exists ty', t'. rewrite Hf.
    destruct (decide (ty' = ty ∧ t' = t)) as [[-> ->]|]; [congruence|done]. }
  split_and!; [done|done|..]; intros x.
  - rewrite Hu, Hm. split.
    + intros [[?|[?|Hax]] Hx]; [tauto..|]. destruct (decide (x = nr)) as [->|Hne].
      * destruct (Hx eq_refl); tauto.
      * right; right. by apply Hkeep.
    + intros [->|[Hx|Hx]].
      * split; [by left|]. by left.
      * split; [tauto|]. intros ->. exfalso. destruct (Hfr nr Hx) as [Hna _].
        apply Hna. by exists ty, t.
      * split; [right; right; by apply Hsub|]. by right.
  - intros Hx. destruct (Hfr x Hx) as [Hna Hn0]. split; [|done]. by intros ?%Hsub.
Qed.

Lemma exec_event leader thread s fr :
  state_ok s fr → exec_ready s leader thread = true →
  keeps_ok (exec_code (Exec leader thread) fr) s.
Proof.
  intros (Hwf & Hok & Hm & Hfr) Hr. unfold marked_ok in Hm. cbn [exec_code]. apply wp_bind.
  pose proof Hr as Hr'. unfold exec_ready in Hr'.
  destruct (tasks s !! leader) as [l|] eqn:Hl; [|done].
  destruct (tasks s !! thread) as [th|] eqn:Hth; [|done].
  eapply wp_switch_exec; [done|done|exact Hl|exact Hth|].
  intros s' Hok' Hb _ Hf. apply wp_ret.
  repeat (apply andb_true_iff in Hr' as [Hr' ?]).
  repeat match goal with H : bool_decide _ = true |- _ => apply bool_decide_eq_true in H end.
  zb_hyps.
  assert (∀ x, attached s' x ↔ attached s x) as Ha.
  { intros x. unfold attached. split.
    - intros (ty & t & Ht). rewrite Hf in Ht. unfold exec_attf in Ht.
      destruct (decide (t = leader)); [|destruct (decide (t = thread)); [|by exists ty, t]].
      + injection Ht as <-. destruct ty; [by exists PIDTYPE_PID, thread..| |].
        * by exists PIDTYPE_PGID, leader.
        * by exists PIDTYPE_SID, leader.
      + injection Ht as <-. destruct ty; [by exists PIDTYPE_TGID, thread..| |].
        * exists PIDTYPE_PGID, leader. congruence.
        * exists PIDTYPE_SID, leader. congruence.
    - intros (ty & t & Ht). destruct (decide (t = leader)) as [->|].
      + destruct ty; [exists PIDTYPE_PID, thread|exists PIDTYPE_PID, thread
          |exists PIDTYPE_PGID, leader|exists PIDTYPE_SID, leader]; rewrite Hf; unfold exec_attf;
          rewrite ?(decide_False (P := thread = leader)), ?(decide_True (P := leader = leader)),
            ?(decide_True (P := thread = thread)) by done; congruence.
      + destruct (decide (t = thread)) as [->|].
        * destruct ty; [exists PIDTYPE_PID, leader|exists PIDTYPE_TGID, thread|congruence|congruence];
            rewrite Hf; unfold exec_attf;
            rewrite ?(decide_False (P := thread = leader)), ?(decide_True (P := leader = leader)),
              ?(decide_True (P := thread = thread)) by done; congruence.
        * exists ty, t. rewrite Hf. unfold exec_attf. by rewrite !decide_False. }
  split_and!; [by rewrite Hb|done|..]; intros x; rewrite Ha; [by rewrite Hb|apply Hfr].
Qed.

Lemma event_ok e h :
  state_ok (ps h) (fresh h) → enabled e h = true → keeps_ok (exec_code e (fresh h)) (ps h).
Proof.
  intros Hs Hen. destruct e; cbn [enabled] in Hen.
  - by apply alloc_event.
  - apply bool_decide_eq_true in Hen. by apply free_event.
  - apply andb_true_iff in Hen as [Hn%bool_decide_eq_true Hu]. apply attach_event; [done..|].
    by apply in_use_spec; [apply Hs|].
  - apply negb_true_iff, bool_decide_eq_false in Hen. by apply detach_event.
  - apply wp_bind, wp_modify, wp_ret. exact Hs.
  - by apply exec_event.
  - apply wp_bind, wp_lift, wp_modify, wp_ret. destruct Hs as ((Hf & _ & Hl) & Hok & Hm & Hfr).
    zb_hyps. by split_and!.
Qed.

Lemma event_exec_ok e h :
  state_ok (ps h) (fresh h) → enabled e h = true →
  ∃ h', exec e h = Ok h' ∧ state_ok (ps h') (fresh h').
Proof.
  intros Hs Hen. destruct (wp_ok _ _ _ (event_ok _ _ Hs Hen)) as (fr & s' & He & Hs').
  eexists. split; [unfold exec; by rewrite He|done].
Qed.

Lemma empty_table_ok shift : tb_ok shift empty_table.
Proof.
  split; cbn.
  - intros l fs. by rewrite lookup_empty.
  - intros l fs l' fs' x. by rewrite lookup_empty.
  - intros l l' []. by rewrite lookup_empty in H.
  - intros b l. unfold chain. cbn. rewrite !lookup_empty. cbn. split; [by intros ?%not_elem_of_nil|].
    by intros [[] _].
Qed.

(** [pidmap_init] marks pid 0. *)
Lemma wp_pidmap_init n (Φ : unit → pids → Prop) Ψ :
  (0 < n)%nat → (∀ b, wf b → (∀ q, used b q ↔ q = 0) → Φ tt b) →
  wp pidmap_init Φ Ψ (pidmap_static n).
Proof.
  intros Hn HΦ. destruct n as [|n]; [lia|].
  set (m0 := mk_pidmap (BITS_PER_PAGE - 1) (Some ({[0]} ∪ ∅))).
  assert (pidmap_init (pidmap_static (S n)) = (Ok tt,
    mk_pids (m0 :: replicate n (mk_pidmap BITS_PER_PAGE None)) 0 PID_MAX_DEFAULT)) as Hi
    by reflexivity.
  unfold wp. rewrite Hi. apply HΦ.
  - split.
    + constructor; [|by apply Forall_replicate]. unfold map_ok, m0. cbn.
      rewrite union_empty_r_L, size_singleton. split; [|done].
      intros x ->%elem_of_singleton. bpp.
    + unfold limits_ok, entries. cbn [pid_max last_pid pidmap_array length].
      rewrite length_replicate. unfold PID_MAX_DEFAULT. bpp.
  - intros q. unfold used, bit_of. cbn [pidmap_array]. split.
    + intros [Hq Hb]. assert (0 <= q / BITS_PER_PAGE) as Hd by (apply Z.div_pos; bpp).
      destruct (Z.to_nat (q / BITS_PER_PAGE)) as [|i] eqn:E; cbn in Hb.
      * rewrite union_empty_r_L in Hb. apply elem_of_singleton in Hb.
        rewrite (mk_pid_split q), Hb. unfold mk_pid.
        assert (q / BITS_PER_PAGE = 0) as -> by lia. done.
      * destruct (replicate n _ !! i) eqn:Hr; [|done].
        by apply lookup_replicate in Hr as [-> _].
    + intros ->. split; [done|]. cbn. by apply elem_of_union_l, elem_of_singleton.
Qed.

Lemma boot_state_ok megabytes n :
  (0 < n)%nat → state_ok (ps (boot megabytes n)) (fresh (boot megabytes n)).
Proof.
  intros Hn. unfold boot. cbn [ps fresh]. set (s0 := pidhash_init megabytes n).
  assert (wp pid_init (λ _ s, state_ok s ∅) (λ _ _, False) s0) as H.
  { unfold pid_init. apply wp_bind, wp_lift, wp_pidmap_init; [done|]. intros b Hwf Hu.
    set (s1 := set_bitmap b s0).
    assert (tables_ok s1) as Hok by (intros ty; apply empty_table_ok).
    assert (∀ ty t, attf s1 ty t = None) as Hf by done.
    assert (bitmap s1 = b) as Hb1 by done. clearbody s1.
    do 4 attach_next. split_and!; [congruence|done|..].
    - intros q. replace (bitmap s4) with b by congruence. rewrite Hu. split; [by left|].
      intros [|[?%elem_of_empty|(ty & t & Ht)]]; [done..|].
      destruct (decide (t = 0%nat)) as [->|Hne].
      + revert Ht. destruct ty; attf_eval; congruence.
      + revert Ht. destruct ty; attf_eval; congruence.
    - by intros q ?%elem_of_empty. }
  unfold wp in H. by destruct (pid_init s0) as [[]].
Qed.

Lemma reachable_ok h h' :
  rtc step h h' → state_ok (ps h) (fresh h) → state_ok (ps h') (fresh h').
Proof.
  induction 1 as [|h h1 h' Hs _ IH]; [done|]. intros Hok. apply IH.
  inversion Hs as [e h2 h3 Hen Hex]; subst h2 h3.
  destruct (event_exec_ok _ _ Hok Hen) as (h2 & Hh & H). rewrite Hh in Hex. by injection Hex as <-.
Qed.

(** C25: In every history of fork, exit, setsid, setpgid and execve as far as they
    concern identifiers: no call faults; a number is marked in the bitmap exactly
    when it is 0, held by a fork in progress or the process, thread group, process
    group or session id of some task; [find_pid] finds a task with the number
    exactly when there is one; and [alloc_pidmap] never returns a number that any
    task still has in one of the four roles. *)
Theorem pid_system_safe megabytes n h :
  (0 < n)%nat → rtc step (boot megabytes n) h →
  (∀ e, enabled e h = true → ∃ h', exec e h = Ok h') ∧
  (∀ q, used (bitmap (ps h)) q ↔
     q = 0 ∨ q ∈ fresh h ∨ ∃ ty t, attf (ps h) ty t = Some q) ∧
  (∀ ty nr, match find_pid (pidhash_shift (ps h)) (tables (ps h) ty) nr with
            | Some t => attf (ps h) ty t = Some nr
            | None => ∀ t, attf (ps h) ty t ≠ Some nr
            end) ∧
  (∀ got r s', alloc_pidmap got (bitmap (ps h)) = (Ok r, s') → 0 <= r →
     ∀ ty t, attf (ps h) ty t ≠ Some r).
Proof.
  intros Hn Hr. pose proof (reachable_ok _ _ Hr (boot_state_ok megabytes n Hn)) as Hok.
  pose proof Hok as (Hwf & Htb & Hm & _). split; [|split; [|split]].
  - intros e Hen. destruct (event_exec_ok _ _ Hok Hen) as (h' & -> & _). eauto.
  - exact Hm.
  - intros ty nr. pose proof (find_pid_spec _ _ nr (Htb ty)) as Hf.
    destruct (find_pid _ _ _) as [t|].
    + apply attf_att. by apply Hf.
    + intros t Ht. apply (Hf t). by apply attf_att.
  - intros got r s' Ha Hpos ty t Ht. pose proof (alloc_pidmap_spec got _ Hwf) as Hp.
    unfold wp in Hp. rewrite Ha in Hp. destruct Hp as (_ & _ & [(-> & _)|(_ & Hnu & _)]); [lia|].
    apply Hnu, Hm. right; right. by exists ty, t.
Qed.

(** [alloc_pidmap] run alone, on any consistent bitmap: it terminates; it returns
    the first free number after [last_pid], continuing at [RESERVED_PIDS] when it
    reaches [pid_max], marks that number and no other, and remembers it; or it
    returns -1 and changes no mark, and then a page was not to be had or every
    number it could have returned is taken, except that [last_pid] itself is not
    looked at again. *)
Theorem alloc_pidmap_correct got s :
  wf s →
  ∃ r s', alloc_pidmap got s = (Ok r, s') ∧ wf s' ∧
    ((r = -1 ∧ last_pid s' = last_pid s ∧ (∀ q, used s' q ↔ used s q) ∧
      ((∃ i, got i = false) ∨
       ∀ q, last_pid s < q < pid_max s ∨ RESERVED_PIDS <= q < pid_max s →
         q ≠ last_pid s → used s q)) ∨
     (0 < r < pid_max s ∧ ¬ used s r ∧ last_pid s' = r ∧
      (∀ q, used s' q ↔ used s q ∨ q = r) ∧
      let first := if pid_max s <=? last_pid s + 1 then RESERVED_PIDS else last_pid s + 1 in
      if first <=? r then ∀ q, first <= q < r → used s q
      else (∀ q, first <= q < pid_max s → used s q) ∧ ∀ q, RESERVED_PIDS <= q < r → used s q)).
Proof.
  intros Hwf. destruct (wp_ok _ _ _ (alloc_pidmap_spec got s Hwf)) as (r & s' & He & Hp).
  exists r, s'. split; [done|]. destruct Hp as (Hwf' & _ & Hp). split; [done|].
  destruct Hp as [(H1 & H2 & H3 & H4)|(H1 & H2 & H3 & H4 & H5)].
  - left. split_and!; try done. destruct H4; [right|left]; done.
  - right. split; [exact H1|]. split; [exact H2|]. split; [exact H4|]. split; [exact H5|].
    exact H3.
Qed.

(** ** Concrete histories *)

Fixpoint run (es : list event) (h : history) : option history :=
  match es with
  | [] => Some h
  | e :: es' =>
    if enabled e h then match exec e h with Ok h' => run es' h' | _ => None end else None
  end.

Lemma pid_run_reachable es h h' : run es h = Some h' → rtc step h h'.
Proof.
  revert h. induction es as [|e es IH]; intros h; cbn; [by intros [= ->]|].
  destruct (enabled e h) eqn:Hen; [|done]. destruct (exec e h) as [h1| |] eqn:Hex; try done.
  intros Hr. eapply rtc_l; [by econstructor|]. by apply IH.
Qed.

(** Task 1 leads a session with task 2 in its group, makes a thread, task 3, which
    calls execve; then the old leader exits.  Number 1 is still in use. *)
Definition session_trace : list event :=
  let ok := λ _ : Z, true in
  [Alloc ok; Attach 1 PIDTYPE_PID 1; Attach 1 PIDTYPE_TGID 1; Attach 1 PIDTYPE_PGID 1;
   Attach 1 PIDTYPE_SID 1; SetTask 1 (mk_task 1 1 1 1);
   Alloc ok; Attach 2 PIDTYPE_PID 2; Attach 2 PIDTYPE_TGID 2; Attach 2 PIDTYPE_PGID 1;
   Attach 2 PIDTYPE_SID 1; Alloc ok; Attach 3 PIDTYPE_PID 3; Attach 3 PIDTYPE_TGID 1;
   SetTask 3 (mk_task 3 1 1 1); Exec 1 3;
   Detach 1 PIDTYPE_PID; Detach 1 PIDTYPE_TGID; Detach 1 PIDTYPE_PGID; Detach 1 PIDTYPE_SID].
Definition session : history := default (boot 64 1) (run session_trace (boot 64 1)).

Lemma pid_system_safe_witness :
  rtc step (boot 64 1) session ∧ used (bitmap (ps session)) 1 ∧
  find_pid (pidhash_shift (ps session)) (tables (ps session) PIDTYPE_PID) 1 = Some 3%nat.
Proof.
  assert (rtc step (boot 64 1) session) as Hr.
  { apply (pid_run_reachable session_trace). vm_compute. reflexivity. }
  split; [exact Hr|]. split.
  - apply (proj1 (proj2 (pid_system_safe 64 1 session ltac:(lia) Hr))).
    right; right. exists PIDTYPE_PID, 3%nat. vm_compute. reflexivity.
  - vm_compute. reflexivity.
Defined.

Lemma alloc_pidmap_correct_witness :
  wf (bitmap (ps session)) ∧
  ∃ r s', alloc_pidmap (λ _, true) (bitmap (ps session)) = (Ok r, s') ∧ wf s' ∧ r = 4.
Proof.
  assert (wf (bitmap (ps session))) as Hwf.
  { apply (reachable_ok (boot 64 1)); [|by apply boot_state_ok; lia].
    apply (pid_run_reachable session_trace). vm_compute. reflexivity. }
  split; [exact Hwf|].
  destruct (alloc_pidmap_correct (λ _, true) _ Hwf) as (r & s' & He & Hw & _).
  exists r, s'. split; [exact He|]. split; [exact Hw|].
  assert (fst (alloc_pidmap (λ _, true) (bitmap (ps session))) = Ok 4) as H4
    by (vm_compute; reflexivity).
  rewrite He in H4. by injection H4.
Defined.

End PidTheorems.
