(* ===== verification/Radix.v ===== *)
(** * lib/radix-tree.c: the radix tree

    A node owns what its slots point to, so the tree is an inductive type and an
    update rebuilds the path that the C code changes in place; the path array of the
    C code is the recursion stack.  Items are pointers, non-zero words.  A node
    that is given back to its slab cache must be all zero, as its constructor left
    it: giving back any other node is [Bug], like following a NULL pointer or
    reading beyond the table of maximal indices. *)

From stdpp Require Import prelude numbers list gmap.
From Stdlib Require Import ZArith Lia.
From S2P Require Import Prelude.

#[local] Set Default Goal Selector "!".
#[local] Open Scope Z_scope.

Module Radix.

Definition RADIX_TREE_MAP_SHIFT : Z := 6.
Definition RADIX_TREE_MAP_SIZE : Z := 64.
Definition RADIX_TREE_MAP_MASK : Z := RADIX_TREE_MAP_SIZE - 1.
Definition RADIX_TREE_INDEX_BITS : Z := 32.
Definition RADIX_TREE_MAX_PATH : Z := RADIX_TREE_INDEX_BITS / RADIX_TREE_MAP_SHIFT + 2.

(** What a slot holds: NULL, an item, or a node.  [tags] has the bit array of each
    of the two tags, 64 bits in two words. *)
#[local] Unset Elimination Schemes.
Inductive tree :=
| TNull
| TItem (v : Z)
| TNode (count : Z) (slots : list tree) (tags : Z * Z).
#[local] Set Elimination Schemes.

(** [struct radix_tree_root]; of [gfp_mask] only [__GFP_WAIT] matters. *)
Record radix_tree_root := mk_root {
  height : Z;
  gfp_wait : bool;
  rnode : tree;
}.

Definition INIT_RADIX_TREE (wait : bool) : radix_tree_root := mk_root 0 wait TNull.

(** Memory: the outcomes of the coming [kmem_cache_alloc] calls (after the list they
    succeed), and the number of nodes in the per-CPU pool. *)
Record mem := mk_mem {
  kmem : list bool;
  preload_nr : Z;
}.

Definition set_kmem (l : list bool) (e : mem) : mem := mk_mem l (preload_nr e).
Definition set_preload (n : Z) (e : mem) : mem := mk_mem (kmem e) n.

(** A constructed node. *)
Definition no_slots : list tree := replicate 64 TNull.
Definition new_node : tree := TNode 0 no_slots (0, 0).

Definition is_null (t : tree) : bool := match t with TNull => true | _ => false end.

(** ** Nodes *)

Definition kmem_cache_alloc : SM mem bool := λ e,
  match kmem e with
  | [] => (Ok true, e)
  | b :: l => (Ok b, set_kmem l e)
  end.

(** The result says whether there is a node. *)
Definition radix_tree_node_alloc (wait : bool) : SM mem bool :=
  ret ← kmem_cache_alloc;
  if negb ret && negb wait then
    nr ← gets preload_nr;
    if nr =? 0 then mret false
    else modify (set_preload (nr - 1));; mret true
  else mret ret.

(** [radix_tree_node_free], which needs a constructed node. *)
Definition node_clean (t : tree) : bool :=
  match t with
  | TNode c sl (a, b) => (c =? 0) && forallb is_null sl && (a =? 0) && (b =? 0)
  | _ => false
  end.
Definition radix_tree_node_free (t : tree) : outcome unit := BUG_ON (negb (node_clean t)).

(** One round of the loop of [radix_tree_preload]. *)
Fixpoint preload_loop (fuel : nat) : SM mem Z :=
  match fuel with
  | O => mret 0
  | S f =>
    nr ← gets preload_nr;
    if nr <? RADIX_TREE_MAX_PATH then
      ok ← kmem_cache_alloc;
      if ok : bool then modify (set_preload (nr + 1));; preload_loop f
      else mret (- ENOMEM)
    else mret 0
  end.
Definition radix_tree_preload : SM mem Z := preload_loop (Z.to_nat RADIX_TREE_MAX_PATH).

Definition get_tag (tags : Z * Z) (tag : bool) : Z := if tag then tags.2 else tags.1.
Definition put_tag (tags : Z * Z) (tag : bool) (m : Z) : Z * Z :=
  if tag then (tags.1, m) else (m, tags.2).
Definition tag_set (tags : Z * Z) (tag : bool) (offset : Z) : Z * Z :=
  put_tag tags tag (Z.setbit (get_tag tags tag) offset).
Definition tag_clear (tags : Z * Z) (tag : bool) (offset : Z) : Z * Z :=
  put_tag tags tag (Z.clearbit (get_tag tags tag) offset).
Definition tag_get (tags : Z * Z) (tag : bool) (offset : Z) : bool :=
  Z.testbit (get_tag tags tag) offset.
(** Some word of [tags[tag]] is not zero. *)
Definition any_tag (tags : Z * Z) (tag : bool) : bool := negb (get_tag tags tag =? 0).

(** ** Indices *)

Definition ULONG_MAX : Z := 2 ^ 32 - 1.

Definition __maxindex (height : Z) : Z :=
  let tmp := height * RADIX_TREE_MAP_SHIFT in
  if RADIX_TREE_INDEX_BITS <=? tmp then ULONG_MAX
  else Z.shiftr (Z.shiftr ULONG_MAX (RADIX_TREE_INDEX_BITS - tmp - 1)) 1.

Definition height_to_maxindex : list Z :=
  __maxindex <$> seqZ 0 RADIX_TREE_MAX_PATH.

Definition radix_tree_maxindex (height : Z) : outcome Z :=
  match (if 0 <=? height then height_to_maxindex !! Z.to_nat height else None) with
  | Some m => Ok m
  | None => Bug
  end.

(** [(index >> shift) & RADIX_TREE_MAP_MASK] at the level with [h] levels below. *)
Definition offset_at (h : nat) (index : Z) : Z :=
  Z.land (Z.shiftr index (Z.of_nat h * RADIX_TREE_MAP_SHIFT)) RADIX_TREE_MAP_MASK.

Definition get_slot (sl : list tree) (offset : Z) : tree := default TNull (sl !! Z.to_nat offset).
Definition put_slot (sl : list tree) (offset : Z) (t : tree) : list tree :=
  <[Z.to_nat offset := t]> sl.

(** Code without state, in the state monad. *)
Definition pure {S A} (o : outcome A) : SM S A := λ s, (o, s).

(** ** Insertion *)

(** The first loop of [radix_tree_extend]: a height at which [index] fits. *)
Fixpoint extend_height (fuel : nat) (h index : Z) : outcome Z :=
  match fuel with
  | O => Bug
  | S f =>
    m ← radix_tree_maxindex h;
    if m <? index then extend_height f (h + 1) index else Ok h
  end.

(** The second loop: one more level at a time. *)
Fixpoint extend_up (fuel : nat) (target : Z) (tags : bool * bool) (root : radix_tree_root)
    : SM mem (Z * radix_tree_root) :=
  match fuel with
  | O => bug
  | S f =>
    ok ← radix_tree_node_alloc (gfp_wait root);
    if ok : bool then
      let tg := if tags.1 then tag_set (0, 0) false 0 else (0, 0) in
      let tg := if tags.2 then tag_set tg true 0 else tg in
      let root := mk_root (height root + 1) (gfp_wait root)
                          (TNode 1 (put_slot no_slots 0 (rnode root)) tg) in
      if height root <? target then extend_up f target tags root else mret (0, root)
    else mret (- ENOMEM, root)
  end.

Definition radix_tree_extend (root : radix_tree_root) (index : Z)
    : SM mem (Z * radix_tree_root) :=
  h ← pure (extend_height (Z.to_nat RADIX_TREE_MAX_PATH) (height root + 1) index);
  match rnode root with
  | TNull => mret (0, mk_root h (gfp_wait root) TNull)
  | TNode _ _ tags =>
    extend_up (Z.to_nat RADIX_TREE_MAX_PATH) h (any_tag tags false, any_tag tags true) root
  | TItem _ => bug
  end.

(** The walk down: [h] levels below the slot that holds [t].  The slot's new
    content comes back with the error. *)
Fixpoint insert_at (wait : bool) (h : nat) (t : tree) (index item : Z) : SM mem (Z * tree) :=
  match h with
  | O => mret (if is_null t then (0, TItem item) else (- EEXIST, t))
  | S h' =>
    ok ← (if is_null t then radix_tree_node_alloc wait else mret true);
    if negb ok then mret (- ENOMEM, TNull) else
    match (if is_null t then new_node else t) with
    | TNode c sl tags =>
      let offset := offset_at h' index in
      let child := get_slot sl offset in
      '(e, child') ← insert_at wait h' child index item;
      let c' := if is_null child && negb (is_null child') then c + 1 else c in
      if match h' with O => (e =? 0) && (tag_get tags false offset || tag_get tags true offset)
         | S _ => false end
      then bug
      else mret (e, TNode c' (put_slot sl offset child') tags)
    | _ => bug
    end
  end.

Definition radix_tree_insert (root : radix_tree_root) (index item : Z)
    : SM mem (Z * radix_tree_root) :=
  high ← (if (index =? 0) && is_null (rnode root) then mret true
          else m ← pure (radix_tree_maxindex (height root)); mret (m <? index));
  '(e, root) ← (if high : bool then radix_tree_extend root index else mret (0, root));
  if negb (e =? 0) then mret (e, root) else
  '(e, t) ← insert_at (gfp_wait root) (Z.to_nat (height root)) (rnode root) index item;
  mret (e, mk_root (height root) (gfp_wait root) t).

(** ** Lookup *)

Fixpoint lookup_at (h : nat) (t : tree) (index : Z) : outcome tree :=
  match h with
  | O => Ok t
  | S h' =>
    match t with
    | TNull => Ok TNull
    | TNode _ sl _ => lookup_at h' (get_slot sl (offset_at h' index)) index
    | TItem _ => Bug
    end
  end.

(** The item a slot holds; 0 is NULL. *)
Definition item_of (t : tree) : Z := match t with TItem v => v | _ => 0 end.

Definition radix_tree_lookup (root : radix_tree_root) (index : Z) : outcome Z :=
  m ← radix_tree_maxindex (height root);
  if m <? index then Ok 0
  else t ← lookup_at (Z.to_nat (height root)) (rnode root) index; Ok (item_of t).

(** ** Tags *)

Fixpoint tag_set_at (h : nat) (t : tree) (index : Z) (tag : bool) : outcome (Z * tree) :=
  match h with
  | O => Ok (item_of t, t)
  | S h' =>
    match t with
    | TNode c sl tags =>
      let offset := offset_at h' index in
      if is_null (get_slot sl offset) then Bug else
      '(v, child) ← tag_set_at h' (get_slot sl offset) index tag;
      Ok (v, TNode c (put_slot sl offset child) (tag_set tags tag offset))
    | _ => Bug
    end
  end.

Definition radix_tree_tag_set (root : radix_tree_root) (index : Z) (tag : bool)
    : outcome (Z * radix_tree_root) :=
  m ← radix_tree_maxindex (height root);
  if m <? index then Ok (0, root) else
  '(v, t) ← tag_set_at (Z.to_nat (height root)) (rnode root) index tag;
  Ok (v, mk_root (height root) (gfp_wait root) t).

(** [None]: nothing there.  Otherwise the item, the new slot content, and whether
    the loop that clears the tag goes on to the parent. *)
Fixpoint tag_clear_at (h : nat) (t : tree) (index : Z) (tag : bool)
    : outcome (option (Z * tree * bool)) :=
  match h with
  | O => Ok (if is_null t then None else Some (item_of t, t, true))
  | S h' =>
    match t with
    | TNull => Ok None
    | TNode c sl tags =>
      let offset := offset_at h' index in
      r ← tag_clear_at h' (get_slot sl offset) index tag;
      match r with
      | None => Ok None
      | Some (v, child, go) =>
        if go : bool then
          let tags := tag_clear tags tag offset in
          Ok (Some (v, TNode c (put_slot sl offset child) tags, negb (any_tag tags tag)))
        else Ok (Some (v, TNode c (put_slot sl offset child) tags, false))
      end
    | TItem _ => Bug
    end
  end.

Definition radix_tree_tag_clear (root : radix_tree_root) (index : Z) (tag : bool)
    : outcome (Z * radix_tree_root) :=
  m ← radix_tree_maxindex (height root);
  if m <? index then Ok (0, root) else
  r ← tag_clear_at (Z.to_nat (height root)) (rnode root) index tag;
  match r with
  | None => Ok (0, root)
  | Some (v, t, _) => Ok (v, mk_root (height root) (gfp_wait root) t)
  end.

Definition radix_tree_tagged (root : radix_tree_root) (tag : bool) : bool :=
  match rnode root with
  | TNode _ _ tags => any_tag tags tag
  | _ => false
  end.

(** ** Deletion *)

(** One tag in one round of the loop that clears tags: [stop] is [tags[tag]]. *)
Definition clear_one (tags : Z * Z) (offset : Z) (tag stop : bool) : (Z * Z) * bool :=
  if stop then (tags, true)
  else let tags := tag_clear tags tag offset in (tags, any_tag tags tag).

(** State of that loop: [tags[0]], [tags[1]], and whether it goes on. *)
Definition clear_round (tags : Z * Z) (offset : Z) (st : bool * bool * bool)
    : (Z * Z) * (bool * bool * bool) :=
  let '(s0, s1, go) := st in
  if go : bool then
    let '(tags, s0') := clear_one tags offset false s0 in
    let '(tags, s1') := clear_one tags offset true s1 in
    (* nr_cleared_tags counts down for the tags that stopped in this round *)
    let nr := 2 - (if negb s0 && s0' then 1 else 0) - (if negb s1 && s1' then 1 else 0) in
    (tags, (s0', s1', negb (nr =? 0)))
  else (tags, st).

(** The item, the new slot content ([TNull] when the node is freed), the state. *)
Fixpoint delete_at (h : nat) (t : tree) (index : Z)
    : outcome (option (Z * tree * (bool * bool * bool))) :=
  match h with
  | O => Ok (if is_null t then None else Some (item_of t, TNull, (false, false, true)))
  | S h' =>
    match t with
    | TNull => Ok None
    | TNode c sl tags =>
      let offset := offset_at h' index in
      r ← delete_at h' (get_slot sl offset) index;
      match r with
      | None => Ok None
      | Some (v, child, st) =>
        let '(tags, st) := clear_round tags offset st in
        let sl := put_slot sl offset child in
        if is_null child then
          let node := TNode (c - 1) sl tags in
          if c - 1 =? 0 then radix_tree_node_free node;; Ok (Some (v, TNull, st))
          else Ok (Some (v, node, st))
        else Ok (Some (v, TNode c sl tags, st))
      end
    | TItem _ => Bug
    end
  end.

Definition radix_tree_delete (root : radix_tree_root) (index : Z)
    : outcome (Z * radix_tree_root) :=
  m ← radix_tree_maxindex (height root);
  if m <? index then Ok (0, root) else
  r ← delete_at (Z.to_nat (height root)) (rnode root) index;
  match r with
  | None => Ok (0, root)
  | Some (v, t, _) =>
    Ok (v, mk_root (if is_null t then 0 else height root) (gfp_wait root) t)
  end.

(** ** Gang lookup *)

(** Step of the inner loop over the slots of one level:
    [index &= ~((1UL << shift) - 1); index += 1UL << shift]. *)
Definition next_slot (h : nat) (index : Z) : Z :=
  let w := 2 ^ (Z.of_nat h * RADIX_TREE_MAP_SHIFT) in
  wrap32 (index - index mod w + w).

(** Does slot [i] stop the search?  In [__lookup] when it is not empty, in
    [__lookup_tag] when its tag is set, and then it must not be empty. *)
Definition slot_hit (tag : option bool) (sl : list tree) (tags : Z * Z) (i : Z) : outcome bool :=
  match tag with
  | None => Ok (negb (is_null (get_slot sl i)))
  | Some k =>
    if tag_get tags k i then if is_null (get_slot sl i) then Bug else Ok true
    else Ok false
  end.

(** The result is [i] and [index], or the index alone when it wrapped around. *)
Fixpoint skip_slots (fuel : nat) (hit : Z → outcome bool) (h : nat) (i index : Z)
    : outcome ((Z * Z) + Z) :=
  match fuel with
  | O => Ok (inl (i, index))
  | S f =>
    b ← hit i;
    if b : bool then Ok (inl (i, index))
    else
      let index := next_slot h index in
      if index =? 0 then Ok (inr index) else skip_slots f hit h (i + 1) index
  end.

(** The loop at the bottom: slots from [j] on, at most [max_items] of them. *)
Fixpoint grab (fuel : nat) (hit : Z → outcome bool) (sl : list tree) (j index max_items : Z)
    : outcome (list Z * Z) :=
  match fuel with
  | O => Ok ([], index)
  | S f =>
    let index := wrap32 (index + 1) in
    b ← hit j;
    if b : bool then
      let v := item_of (get_slot sl j) in
      if max_items =? 1 then Ok ([v], index)
      else '(vs, index) ← grab f hit sl (j + 1) index (max_items - 1); Ok (v :: vs, index)
    else grab f hit sl (j + 1) index max_items
  end.

(** [__lookup] and [__lookup_tag]: the items found and [next_index]. *)
Fixpoint __lookup (tag : option bool) (h : nat) (t : tree) (index max_items : Z)
    : outcome (list Z * Z) :=
  match h with
  | O => Ok ([], index)
  | S h' =>
    match t with
    | TNode _ sl tags =>
      let i := offset_at h' index in
      let hit := slot_hit tag sl tags in
      r ← skip_slots (Z.to_nat (RADIX_TREE_MAP_SIZE - i)) hit h' i index;
      match r with
      | inr index => Ok ([], index)
      | inl (i, index) =>
        if i =? RADIX_TREE_MAP_SIZE then Ok ([], index) else
        match h' with
        | O =>
          let j := Z.land index RADIX_TREE_MAP_MASK in
          grab (Z.to_nat (RADIX_TREE_MAP_SIZE - j)) hit sl j index max_items
        | S _ => __lookup tag h' (get_slot sl i) index max_items
        end
      end
    | _ => Bug
    end
  end.

(** One round of the outer loop: go on with more, or done. *)
Definition gang_round (tag : option bool) (root : radix_tree_root) (max_index max_items : Z)
    (st : list Z * Z) : outcome ((list Z * Z) + list Z) :=
  let '(found, cur) := st in
  let ret := Z.of_nat (length found) in
  if max_items <=? ret then Ok (inr found)
  else if max_index <? cur then Ok (inr found)
  else
    '(vs, next) ← __lookup tag (Z.to_nat (height root)) (rnode root) cur (max_items - ret);
    let found := found ++ vs in
    if next =? 0 then Ok (inr found) else Ok (inl (found, next)).

(** At most [2 ^ n] rounds. *)
Fixpoint rounds {S R} (n : nat) (body : S → outcome (S + R)) (s : S) : outcome (S + R) :=
  match n with
  | O => body s
  | S n' =>
    r ← rounds n' body s;
    match r with
    | inl s' => rounds n' body s'
    | inr x => Ok (inr x)
    end
  end.

Definition gang (tag : option bool) (root : radix_tree_root) (first_index max_items : Z)
    : outcome (list Z) :=
  max_index ← radix_tree_maxindex (height root);
  r ← rounds 33 (gang_round tag root max_index max_items) ([], first_index);
  match r with
  | inr vs => Ok vs
  | inl _ => Bug
  end.

Definition radix_tree_gang_lookup (root : radix_tree_root) (first_index max_items : Z)
    : outcome (list Z) := gang None root first_index max_items.
Definition radix_tree_gang_lookup_tag (root : radix_tree_root) (first_index max_items : Z)
    (tag : bool) : outcome (list Z) := gang (Some tag) root first_index max_items.

End Radix.
