(* ===== verification/RadixFacts.v ===== *)
(** * The radix tree: what it stands for, and the operations on one path

    [tget] and [ttag] read items and tags off a tree; [wf] is the invariant of a
    tree of a given height: counts are exact, and a tag bit is set in a node exactly
    when the slot below holds something tagged. *)

From stdpp Require Import prelude numbers list gmap.
From Stdlib Require Import ZArith Lia.
From S2P Require Import Prelude Radix.

#[local] Set Default Goal Selector "!".
#[local] Open Scope Z_scope.

Module RadixFacts.
Import Radix.

(** ** Indices *)

(** Number of indices below a slot with [h] levels. *)
Definition span (h : nat) : Z := 64 ^ Z.of_nat h.

Lemma span_pos h : 0 < span h.
Proof. apply Z.pow_pos_nonneg; lia. Qed.

Lemma span_S h : span (S h) = span h * 64.
Proof. unfold span. rewrite Nat2Z.inj_succ, Z.pow_succ_r by lia. lia. Qed.

Lemma span_pow2 h : 2 ^ (Z.of_nat h * RADIX_TREE_MAP_SHIFT) = span h.
Proof.
  unfold span, RADIX_TREE_MAP_SHIFT. rewrite Z.mul_comm, Z.pow_mul_r by lia. done.
Qed.

Lemma offset_at_div h i : 0 <= i → offset_at h i = (i / span h) mod 64.
Proof.
  intros Hi. unfold offset_at. rewrite Z.shiftr_div_pow2 by (unfold RADIX_TREE_MAP_SHIFT; lia).
  rewrite span_pow2. exact (land_mask _ 6 ltac:(lia)).
Qed.

Lemma offset_range h i : 0 <= i → 0 <= offset_at h i < 64.
Proof. intros Hi. rewrite offset_at_div by done. apply Z.mod_pos_bound. lia. Qed.

(** Two indices that a subtree with [h] levels does not distinguish. *)
Definition agree (h : nat) (i j : Z) : Prop := i mod span h = j mod span h.

#[export] Instance agree_dec h i j : Decision (agree h i j).
Proof. unfold agree. apply _. Defined.

Lemma mod_span_S h i : 0 <= i → i mod span (S h) = i mod span h + span h * offset_at h i.
Proof.
  intros Hi. rewrite offset_at_div, span_S by done.
  pose proof (span_pos h). by rewrite Z.rem_mul_r by lia.
Qed.

Lemma agree_S h i j :
  0 <= i → 0 <= j → agree (S h) i j ↔ offset_at h i = offset_at h j ∧ agree h i j.
Proof.
  intros Hi Hj. unfold agree. rewrite !mod_span_S by done.
  pose proof (Z.mod_pos_bound i _ (span_pos h)). pose proof (Z.mod_pos_bound j _ (span_pos h)).
  split; [|by intros [-> ->]]. intros He. pose proof (span_pos h).
  assert (offset_at h i = offset_at h j) as Ho by nia. split; [done|]. rewrite Ho in He. lia.
Qed.

Lemma agree_refl h i : agree h i i.
Proof. done. Qed.

(** ** Reading a tree *)

Fixpoint tget (h : nat) (t : tree) (i : Z) : option Z :=
  match h, t with
  | O, TItem v => Some v
  | S h', TNode _ sl _ => tget h' (get_slot sl (offset_at h' i)) i
  | _, _ => None
  end.

Fixpoint ttag (k : bool) (h : nat) (t : tree) (i : Z) : bool :=
  match h, t with
  | S O, TNode _ _ tags => tag_get tags k (offset_at 0 i)
  | S h', TNode _ sl _ => ttag k h' (get_slot sl (offset_at h' i)) i
  | _, _ => false
  end.

Lemma ttag_SS k h c sl tags i :
  ttag k (S (S h)) (TNode c sl tags) i = ttag k (S h) (get_slot sl (offset_at (S h) i)) i.
Proof. reflexivity. Qed.

Definition tags_of (t : tree) : Z * Z :=
  match t with TNode _ _ tags => tags | _ => (0, 0) end.

(** The bit of a slot: at the bottom the tag of the item, above whether anything
    below is tagged. *)
Definition bit_ok (h : nat) (bit : bool) (k : bool) (child : tree) : Prop :=
  match h with
  | O => bit = true → is_null child = false
  | S _ => bit = any_tag (tags_of child) k
  end.

Definition live (sl : list tree) : Z := Z.of_nat (length (filter (λ t, is_null t = false) sl)).

Fixpoint wf (h : nat) (t : tree) : Prop :=
  match t with
  | TNull => True
  | TItem v => h = O ∧ v ≠ 0
  | TNode c sl tags =>
    match h with
    | O => False
    | S h' =>
      length sl = 64%nat ∧ Forall (wf h') sl ∧ c = live sl ∧
      (∀ k, 0 <= get_tag tags k < 2 ^ 64) ∧
      (∀ k i, 0 <= i < 64 → bit_ok h' (tag_get tags k i) k (get_slot sl i))
    end
  end.

Lemma wf_null h : wf h TNull.
Proof. by destruct h. Qed.

Lemma tget_null h i : tget h TNull i = None.
Proof. by destruct h. Qed.
Lemma ttag_null k h i : ttag k h TNull i = false.
Proof. by destruct h as [|[]]. Qed.

(** ** Slots *)

Lemma get_put_slot sl o o' t :
  0 <= o → 0 <= o' → length sl = 64%nat → o < 64 →
  get_slot (put_slot sl o t) o' = if decide (o' = o) then t else get_slot sl o'.
Proof.
  intros Ho Ho' Hl Hlt. unfold get_slot, put_slot. destruct (decide (o' = o)) as [->|].
  - rewrite list_lookup_insert_eq by lia. done.
  - by rewrite list_lookup_insert_ne by lia.
Qed.

Lemma get_slot_wf h sl o : Forall (wf h) sl → wf h (get_slot sl o).
Proof.
  intros Hf. unfold get_slot. destruct (sl !! Z.to_nat o) as [t|] eqn:E; [|apply wf_null].
  by eapply Forall_lookup_1.
Qed.

Lemma put_slot_wf h sl o t : Forall (wf h) sl → wf h t → Forall (wf h) (put_slot sl o t).
Proof. intros. by apply Forall_insert. Qed.

Lemma put_slot_same sl o : put_slot sl o (get_slot sl o) = sl.
Proof.
  unfold put_slot, get_slot. destruct (sl !! Z.to_nat o) as [t|] eqn:E; cbn.
  - by apply list_insert_id.
  - apply list_insert_ge. by apply lookup_ge_None.
Qed.

Definition null0 (t : tree) : Z := if is_null t then 0 else 1.

Lemma live_cons t sl : live (t :: sl) = null0 t + live sl.
Proof.
  unfold live, null0. destruct (is_null t) eqn:E.
  - rewrite filter_cons_False by congruence. lia.
  - rewrite filter_cons_True by done. cbn [length]. lia.
Qed.

Lemma live_insert sl n x t : sl !! n = Some x → live (<[n := t]> sl) = live sl - null0 x + null0 t.
Proof.
  revert n. induction sl as [|y sl IH]; intros [|n] Hx; try done.
  - injection Hx as ->. change (<[0%nat := t]> (x :: sl)) with (t :: sl). rewrite !live_cons. lia.
  - change (<[S n := t]> (y :: sl)) with (y :: <[n := t]> sl). rewrite !live_cons, (IH _ Hx). lia.
Qed.

Lemma live_put sl o t :
  0 <= o < 64 → length sl = 64%nat →
  live (put_slot sl o t) = live sl - null0 (get_slot sl o) + null0 t.
Proof.
  intros Ho Hl. unfold put_slot, get_slot.
  assert (∃ x, sl !! Z.to_nat o = Some x) as [x Hx] by (apply lookup_lt_is_Some_2; lia).
  rewrite Hx. by apply live_insert.
Qed.

Lemma live_nonneg sl : 0 <= live sl.
Proof. unfold live. lia. Qed.

Lemma live_zero sl o : live sl = 0 → is_null (get_slot sl o) = true.
Proof.
  unfold live, get_slot. intros H.
  assert (filter (λ t, is_null t = false) sl = []) as Hn by (apply nil_length_inv; lia).
  destruct (sl !! Z.to_nat o) as [t|] eqn:E; [|done]. cbn.
  destruct (is_null t) eqn:Et; [done|]. apply list_elem_of_lookup_2 in E.
  assert (t ∈ filter (λ t, is_null t = false) sl) as Hin by (by apply list_elem_of_filter).
  rewrite Hn in Hin. by apply not_elem_of_nil in Hin.
Qed.

(** ** Tag words *)

Lemma get_put_tag tags k k' m : get_tag (put_tag tags k m) k' = if eqb k k' then m else get_tag tags k'.
Proof. by destruct tags, k, k'. Qed.

Lemma tag_get_set tags k o k' i :
  0 <= o → tag_get (tag_set tags k o) k' i = (eqb k k' && (o =? i)) || tag_get tags k' i.
Proof.
  intros Ho. unfold tag_get, tag_set. rewrite get_put_tag. destruct (eqb k k') eqn:E; [|done].
  apply eqb_prop in E as <-. by rewrite Z.setbit_eqb.
Qed.

Lemma tag_get_clear tags k o k' i :
  tag_get (tag_clear tags k o) k' i = negb (eqb k k' && (o =? i)) && tag_get tags k' i.
Proof.
  unfold tag_get, tag_clear. rewrite get_put_tag. destruct (eqb k k') eqn:E; [|done].
  apply eqb_prop in E as <-. rewrite Z.clearbit_eqb. by rewrite andb_comm.
Qed.

Lemma bits_range m n :
  0 <= n → 0 <= m → (∀ i, n <= i → Z.testbit m i = false) → m < 2 ^ n.
Proof.
  intros Hn Hm Hb. assert (m = m mod 2 ^ n) as ->.
  { rewrite <- Z.land_ones by done. apply Z.bits_inj'. intros i Hi. rewrite Z.land_spec.
    rewrite Z.testbit_ones_nonneg by done. destruct (Z.ltb_spec i n); [by rewrite andb_true_r|].
    rewrite Hb by done. done. }
  apply Z.mod_pos_bound. by apply Z.pow_pos_nonneg.
Qed.

Lemma high_bits m n i : 0 <= m < 2 ^ n → 0 <= n <= i → Z.testbit m i = false.
Proof.
  intros Hm Hi. destruct (Z.eq_dec m 0) as [->|]; [apply Z.testbit_0_l|].
  apply Z.bits_above_log2; [lia|]. apply Z.log2_lt_pow2; [lia|].
  apply Z.lt_le_trans with (2 ^ n); [lia|]. apply Z.pow_le_mono_r; lia.
Qed.

Definition tags_range (tags : Z * Z) : Prop := ∀ k, 0 <= get_tag tags k < 2 ^ 64.

Lemma tag_set_range tags k o : 0 <= o < 64 → tags_range tags → tags_range (tag_set tags k o).
Proof.
  intros Ho Hr k'. unfold tag_set. rewrite get_put_tag. destruct (eqb k k'); [|done].
  pose proof (Hr k) as Hk. assert (0 <= Z.setbit (get_tag tags k) o) as H0.
  { rewrite Z.setbit_spec'. apply Z.lor_nonneg. split; [lia|]. apply Z.pow_nonneg. lia. }
  split; [done|]. apply bits_range; [lia|done|]. intros i Hi.
  rewrite Z.setbit_eqb by lia. rewrite (high_bits _ 64) by lia. destruct (Z.eqb_spec o i); [lia|done].
Qed.

Lemma tag_clear_range tags k o : tags_range tags → tags_range (tag_clear tags k o).
Proof.
  intros Hr k'. unfold tag_clear. rewrite get_put_tag. destruct (eqb k k'); [|done].
  pose proof (Hr k) as Hk. assert (0 <= Z.clearbit (get_tag tags k) o) as H0.
  { rewrite Z.clearbit_spec'. apply Z.ldiff_nonneg. left. lia. }
  split; [done|]. apply bits_range; [lia|done|]. intros i Hi.
  rewrite Z.clearbit_eqb. by rewrite (high_bits _ 64) by lia.
Qed.

Lemma any_tag_spec tags k :
  tags_range tags → any_tag tags k = true ↔ ∃ i, 0 <= i < 64 ∧ tag_get tags k i = true.
Proof.
  intros Hr. pose proof (Hr k) as Hk. unfold any_tag, tag_get. split.
  - intros H. apply negb_true_iff, Z.eqb_neq in H.
    exists (Z.log2 (get_tag tags k)). split.
    + split; [apply Z.log2_nonneg|]. apply Z.log2_lt_pow2; lia.
    + apply Z.bit_log2. lia.
  - intros (i & Hi & Hb). apply negb_true_iff, Z.eqb_neq. intros H0.
    rewrite H0, Z.testbit_0_l in Hb. done.
Qed.

Lemma any_tag_none tags k :
  tags_range tags → any_tag tags k = false ↔ ∀ i, 0 <= i < 64 → tag_get tags k i = false.
Proof.
  intros Hr. rewrite <- not_true_iff_false, any_tag_spec by done. split.
  - intros H i Hi. apply not_true_iff_false. intros Hb. apply H. eauto.
  - intros H (i & Hi & Hb). by rewrite H in Hb.
Qed.

(** ** Destructing a well-formed node *)

Lemma wf_node h c sl tags :
  wf (S h) (TNode c sl tags) ↔
  length sl = 64%nat ∧ Forall (wf h) sl ∧ c = live sl ∧ tags_range tags ∧
  ∀ k i, 0 <= i < 64 → bit_ok h (tag_get tags k i) k (get_slot sl i).
Proof. done. Qed.

Lemma wf_S h t : wf (S h) t → t = TNull ∨ ∃ c sl tags, t = TNode c sl tags.
Proof. destruct t; cbn; [by left|by intros [? _]|]. right. eauto. Qed.

Lemma wf_O t : wf 0 t → t = TNull ∨ ∃ v, t = TItem v ∧ v ≠ 0.
Proof. destruct t; cbn; [by left|intros [_ ?]; right; eauto|done]. Qed.

Lemma tags_of_range h t : wf h t → tags_range (tags_of t).
Proof.
  intros Hw. destruct t as [|v|c sl tags]; [intros []; cbn; lia..|].
  destruct h; [done|]. by apply wf_node in Hw as (_ & _ & _ & ? & _).
Qed.

Lemma new_node_wf h : wf (S h) new_node.
Proof.
  apply wf_node. split; [done|]. split; [|split; [done|split; [intros []; cbn; lia|]]].
  - unfold no_slots. apply Forall_replicate, wf_null.
  - intros k i Hi. assert (tag_get (0, 0) k i = false) as ->.
    { unfold tag_get. destruct k; cbn; apply Z.testbit_0_l. }
    assert (get_slot no_slots i = TNull) as ->.
    { unfold get_slot, no_slots. destruct (replicate 64 TNull !! Z.to_nat i) eqn:E; [|done].
      by apply lookup_replicate in E as [-> _]. }
    destruct h, k; done.
Qed.

Lemma no_slots_get i : get_slot no_slots i = TNull.
Proof.
  unfold get_slot, no_slots. destruct (replicate 64 TNull !! Z.to_nat i) eqn:E; [|done].
  by apply lookup_replicate in E as [-> _].
Qed.

Lemma tget_new h i : tget (S h) new_node i = None.
Proof. cbn [tget new_node]. rewrite no_slots_get. apply tget_null. Qed.

Lemma ttag_new k h i : ttag k h new_node i = false.
Proof.
  destruct h as [|[|h]]; [done| |].
  - cbn. unfold tag_get. destruct k; cbn; apply Z.testbit_0_l.
  - unfold new_node. rewrite ttag_SS, no_slots_get. apply ttag_null.
Qed.

(** A node with one slot and its tag bits changed. *)
Lemma wf_change h c sl tags o child c' tags' :
  wf (S h) (TNode c sl tags) → 0 <= o < 64 → wf h child →
  c' = c - null0 (get_slot sl o) + null0 child → tags_range tags' →
  (∀ k i, 0 <= i < 64 → i ≠ o → tag_get tags' k i = tag_get tags k i) →
  (∀ k, bit_ok h (tag_get tags' k o) k child) →
  wf (S h) (TNode c' (put_slot sl o child) tags').
Proof.
  intros (Hl & Hf & -> & Hr & Hb)%wf_node Ho Hch -> Hr' Hsame Hbit. apply wf_node.
  split_and!; [| |by rewrite live_put|done|].
  - unfold put_slot. by rewrite length_insert.
  - by apply put_slot_wf.
  - intros k i Hi. rewrite get_put_slot by lia.
    destruct (decide (i = o)) as [->|Hne]; [done|]. rewrite Hsame by done. by apply Hb.
Qed.

Lemma tget_change h c sl tags o child c' tags' i :
  length sl = 64%nat → 0 <= o < 64 → 0 <= i →
  tget (S h) (TNode c' (put_slot sl o child) tags') i
  = if decide (offset_at h i = o) then tget h child i else tget (S h) (TNode c sl tags) i.
Proof.
  intros Hl Ho Hi. cbn [tget]. pose proof (offset_range h i Hi).
  rewrite get_put_slot by lia. by destruct (decide _).
Qed.

Lemma ttag_change k h c sl tags o child c' tags' i :
  length sl = 64%nat → 0 <= o < 64 → 0 <= i →
  ttag k (S (S h)) (TNode c' (put_slot sl o child) tags') i
  = if decide (offset_at (S h) i = o) then ttag k (S h) child i
    else ttag k (S (S h)) (TNode c sl tags) i.
Proof.
  intros Hl Ho Hi. rewrite !ttag_SS. pose proof (offset_range (S h) i Hi).
  rewrite get_put_slot by lia. by destruct (decide _).
Qed.

Lemma ttag_one k c sl tags i : ttag k 1 (TNode c sl tags) i = tag_get tags k (offset_at 0 i).
Proof. reflexivity. Qed.

(** A tagged index holds an item. *)
Lemma ttag_present k h t i : wf h t → 0 <= i → ttag k h t i = true → tget h t i ≠ None.
Proof.
  revert t. induction h as [|h IH]; intros t Hw Hi Ht; [by destruct t|].
  destruct (wf_S _ _ Hw) as [->|(c & sl & tags & ->)]; [by rewrite ttag_null in Ht|].
  apply wf_node in Hw as (Hl & Hf & _ & _ & Hb). pose proof (offset_range h i Hi) as Ho.
  pose proof (get_slot_wf h sl (offset_at h i) Hf) as Hch. cbn [tget]. destruct h as [|h].
  - rewrite ttag_one in Ht. specialize (Hb k _ Ho). cbn in Hb. specialize (Hb Ht).
    destruct (wf_O _ Hch) as [E|(v & -> & _)]; [|done]. by rewrite E in Hb.
  - rewrite ttag_SS in Ht. by apply IH.
Qed.

(** Nothing below an untagged node is tagged. *)
Lemma untagged k h t i :
  wf (S h) t → 0 <= i → any_tag (tags_of t) k = false → ttag k (S h) t i = false.
Proof.
  revert t. induction h as [|h IH]; intros t Hw Hi Ht;
    (destruct (wf_S _ _ Hw) as [->|(c & sl & tags & ->)]; [apply ttag_null|]);
    apply wf_node in Hw as (Hl & Hf & _ & Hr & Hb); cbn [tags_of] in Ht;
    rewrite any_tag_none in Ht by done.
  - rewrite ttag_one. by apply Ht, offset_range.
  - rewrite ttag_SS. pose proof (offset_range (S h) i Hi) as Ho.
    specialize (Hb k _ Ho). cbn in Hb. rewrite Ht in Hb by done.
    apply IH; [by apply get_slot_wf|done|done].
Qed.

(** ** Insertion below a slot *)

(** What memory is left of: later outcomes only. *)
Definition mem_le (e' e : mem) : Prop := ∀ b, b ∈ kmem e' → b ∈ kmem e.

#[export] Instance mem_le_preorder : PreOrder mem_le.
Proof. split; [by intros e b|]. intros a b c H1 H2 x Hx. by apply H2, H1. Qed.

Definition can_alloc (wait : bool) (e : mem) : bool :=
  match kmem e with
  | false :: _ => negb wait && negb (preload_nr e =? 0)
  | _ => true
  end.

Lemma wp_node_alloc wait (Φ : bool → mem → Prop) Ψ e :
  (∀ b e', mem_le e' e → b = can_alloc wait e → (b = false → false ∈ kmem e) → Φ b e') →
  wp (radix_tree_node_alloc wait) Φ Ψ e.
Proof.
  intros HΦ. unfold radix_tree_node_alloc, kmem_cache_alloc. apply wp_bind. unfold wp at 1.
  unfold can_alloc in HΦ. destruct (kmem e) as [|[] l] eqn:E; cbn [negb andb].
  - apply wp_ret. apply HΦ; [by intros ?|done|done].
  - apply wp_ret. apply HΦ; [|done|done]. intros b Hb. cbn in Hb. rewrite E. by right.
  - assert (∀ n, mem_le (set_preload n (set_kmem l e)) e) as Hle.
    { intros n b Hb. cbn in Hb. rewrite E. by right. }
    destruct wait; cbn [negb].
    + apply wp_ret. apply HΦ; [exact (Hle (preload_nr e))|done|]. intros _. by left.
    + apply wp_bind, wp_gets. cbn [preload_nr set_kmem]. destruct (preload_nr e =? 0).
      * apply wp_ret. apply HΦ; [exact (Hle (preload_nr e))|done|]. intros _. by left.
      * apply wp_bind, wp_modify, wp_ret. by apply HΦ.
Qed.

Definition insert_post (h : nat) (t : tree) (i v : Z) (e0 : mem) (e : Z) (t' : tree) : Prop :=
  wf h t' ∧ tags_of t' = tags_of t ∧ (∀ k j, 0 <= j → ttag k h t' j = ttag k h t j) ∧
  (is_null t = false → is_null t' = false) ∧
  ((e = 0 ∧ is_null t' = false ∧ tget h t i = None ∧
    ∀ j, 0 <= j → tget h t' j = if decide (agree h i j) then Some v else tget h t j) ∨
   (e = - EEXIST ∧ t' = t ∧ tget h t i ≠ None) ∨
   (e = - ENOMEM ∧ false ∈ kmem e0 ∧ tget h t i = None ∧
    ∀ j, 0 <= j → tget h t' j = tget h t j)).

Lemma insert_at_spec wait h t i v e0 :
  wf h t → 0 <= i → v ≠ 0 →
  wp (insert_at wait h t i v)
    (λ r e1, mem_le e1 e0 ∧ insert_post h t i v e0 r.1 r.2 ∧
             (can_alloc wait e0 = true → (0 < h)%nat → is_null r.2 = false)) (λ _ _, False) e0.
Proof.
  revert t e0. induction h as [|h IH]; intros t e0 Hw Hi Hv; cbn [insert_at].
  { apply wp_ret. destruct (wf_O _ Hw) as [->|(w & -> & Hnz)]; cbn [is_null fst snd].
    - split; [by intros ?|]. split; [|lia]. split; [done|]. split; [done|]. split; [done|].
      split; [done|]. left. split_and!; try done. intros j _.
      rewrite decide_True; [done|]. unfold agree, span. cbn. by rewrite !Z.mod_1_r.
    - split; [by intros ?|]. split; [|lia]. split; [done|]. split; [done|]. split; [done|].
      split; [done|]. right; left. by split_and!. }
  set (n := if is_null t then new_node else t).
  assert (wp (if is_null t then radix_tree_node_alloc wait else mret true)
    (λ b e1, mem_le e1 e0 ∧ (b = false → is_null t = true ∧ false ∈ kmem e0 ∧ can_alloc wait e0 = false))
    (λ _ _, False) e0) as Halloc.
  { destruct (is_null t) eqn:E.
    - apply wp_node_alloc. intros b e1 Hle Hb Hf. split; [done|]. intros ->. by split_and!; auto.
    - apply wp_ret. split; [by intros ?|done]. }
  apply wp_bind. eapply wp_mono; [exact Halloc|]. intros b e1 [Hle1 Hb].
  destruct b; cbn [negb].
  2:{ apply wp_ret. destruct (Hb eq_refl) as (Hnull & Hin & Hca). cbn [fst snd].
      destruct t; try done. split; [done|]. split; [|by rewrite Hca]. split; [done|].
      split; [done|]. split; [done|]. split; [done|]. right; right.
      split_and!; try done. }
  assert (wf (S h) n ∧ (∀ j, tget (S h) n j = tget (S h) t j) ∧ tags_of n = tags_of t ∧
          (∀ k j, ttag k (S h) n j = ttag k (S h) t j) ∧ (is_null t = false → t = n))
    as (Hwn & Hgn & Htn & Hkn & Hnt).
  { unfold n. destruct t; cbn [is_null]; try done.
    split_and!; [apply new_node_wf|intros; apply tget_new|done|intros; by rewrite ttag_new, ttag_null|done]. }
  assert (∃ c sl tags, n = TNode c sl tags) as (c & sl & tags & Hn).
  { unfold n. destruct (wf_S _ _ Hw) as [->|(c & sl & tags & ->)]; cbn; unfold new_node; eauto. }
  clearbody n. subst n. clear Halloc Hb.
  pose proof Hwn as (Hl & Hf & Hc & Hr & Hbit)%wf_node.
  pose proof (offset_range h i Hi) as Ho. set (o := offset_at h i) in *.
  pose proof (get_slot_wf h sl o Hf) as Hch. set (child := get_slot sl o) in *.
  apply wp_bind. eapply wp_mono; [exact (IH child e1 Hch Hi Hv)|].
  intros [er child'] e2 (Hle2 & (Hw' & Ht' & Hk' & Hnn & Hres) & _). cbn [fst snd] in *.
  assert (∀ b, b ∈ kmem e2 → b ∈ kmem e0) as Hle by (intros ? ?%Hle2; by apply Hle1).
  assert (c + (null0 child' - null0 child)
          = if is_null child && negb (is_null child') then c + 1 else c) as Hcount.
  { unfold null0. destruct (is_null child) eqn:E1, (is_null child') eqn:E2; cbn; lia. }
  rewrite <- Hcount.
  assert (match h with O => (er =? 0) && (tag_get tags false o || tag_get tags true o) | S _ => false end
          = false) as ->.
  { destruct h; [|done]. destruct Hres as [(-> & _ & Hnone & _)|[(-> & _)|(-> & _)]]; try done.
    assert (is_null child = true) as Hnull by (by destruct (wf_O _ Hch) as [->|(w & -> & _)]).
    apply andb_false_iff. right. apply orb_false_iff.
    split; apply not_true_iff_false; intros Hx; specialize (Hbit _ _ Ho Hx); fold child in Hbit;
      congruence. }
  apply wp_ret. cbn [fst snd]. split; [done|]. split; [|done].
  assert (∀ k j, 0 <= j →
    ttag k (S h) (TNode (c + (null0 child' - null0 child)) (put_slot sl o child') tags) j
    = ttag k (S h) t j) as Hkk.
  { intros k j Hj. rewrite <- Hkn. destruct h as [|h]; [done|].
    rewrite (ttag_change k h c sl tags) by done. destruct (decide _) as [E|]; [|done].
    rewrite Hk' by done. rewrite ttag_SS, E. done. }
  split; [|split; [done|split; [exact Hkk|split; [done|]]]].
  - eapply wf_change; [exact Hwn|done|done| |done|done|].
    + fold child. lia.
    + intros k. specialize (Hbit k _ Ho). fold child in Hbit. destruct h; cbn in *.
      * intros Hx. specialize (Hbit Hx). by apply Hnn.
      * by rewrite Ht'.
  - assert (∀ j, tget (S h) t j = tget h (get_slot sl (offset_at h j)) j) as Hgt.
    { intros j. by rewrite <- Hgn. }
    destruct Hres as [(-> & Hnn' & Hnone & Hget)|[(-> & -> & Hsome)|(-> & Hin & Hnone & Hget)]].
    + left. split_and!; try done; [by rewrite Hgt|]. intros j Hj.
      rewrite (tget_change h c sl tags) by done. rewrite Hgn.
      destruct (decide (offset_at h j = o)) as [E|E].
      * rewrite Hget by done. destruct (decide (agree h i j)) as [A|A].
        -- rewrite decide_True; [done|]. apply agree_S; [done..|]. by rewrite E.
        -- rewrite decide_False by (rewrite agree_S by done; tauto). by rewrite Hgt, E.
      * rewrite decide_False; [done|]. rewrite agree_S by done. intros [E' _]. by destruct E.
    + right; left. split; [done|]. split; [|by rewrite Hgt].
      unfold child. rewrite put_slot_same, Z.sub_diag, Z.add_0_r.
      symmetry. apply Hnt. destruct t; [|done..]. destruct Hsome.
      exact (eq_trans (eq_sym (Hgt i)) (tget_null _ i)).
    + right; right. split_and!; try done; [by apply Hle1|by rewrite Hgt|]. intros j Hj.
      rewrite (tget_change h c sl tags) by done. rewrite Hgn.
      destruct (decide (offset_at h j = o)) as [E|]; [|done]. by rewrite Hget, Hgt, E.
Qed.

End RadixFacts.
