(* ===== verification/RadixOps.v ===== *)
(** * The radix tree: lookup, tags and deletion below a slot *)

From stdpp Require Import prelude numbers list gmap.
From Stdlib Require Import ZArith Lia.
From S2P Require Import Prelude Radix RadixFacts.

#[local] Set Default Goal Selector "!".
#[local] Open Scope Z_scope.

Module RadixOps.
Import Radix RadixFacts.

Lemma lookup_at_spec h t i :
  wf h t → 0 <= i → ∃ t', lookup_at h t i = Ok t' ∧ item_of t' = default 0 (tget h t i).
Proof.
  revert t. induction h as [|h IH]; intros t Hw Hi; cbn [lookup_at].
  - destruct (wf_O _ Hw) as [->|(v & -> & _)]; eauto.
  - destruct (wf_S _ _ Hw) as [->|(c & sl & tags & ->)]; [rewrite tget_null; eauto|].
    apply wf_node in Hw as (_ & Hf & _). cbn [tget]. apply IH; [by apply get_slot_wf|done].
Qed.

(** The items are not NULL. *)
Lemma tget_nonzero h t i v : wf h t → tget h t i = Some v → v ≠ 0.
Proof.
  revert t. induction h as [|h IH]; intros t Hw Ht.
  - destruct (wf_O _ Hw) as [->|(w & -> & Hn)]; [done|]. by injection Ht as <-.
  - destruct (wf_S _ _ Hw) as [->|(c & sl & tags & ->)]; [done|].
    apply wf_node in Hw as (_ & Hf & _). cbn [tget] in Ht. by eapply IH, Ht; apply get_slot_wf.
Qed.

Lemma agree_0 i j : agree 0 i j.
Proof. unfold agree, span. cbn. by rewrite !Z.mod_1_r. Qed.

(** Changing one slot changes the items below it. *)
Lemma tget_update h c sl tags i child c' tags' (f : option Z → option Z) :
  length sl = 64%nat → 0 <= i →
  (∀ j, 0 <= j → tget h child j = if decide (agree h i j)
     then f (tget h (get_slot sl (offset_at h i)) j) else tget h (get_slot sl (offset_at h i)) j) →
  ∀ j, 0 <= j → tget (S h) (TNode c' (put_slot sl (offset_at h i) child) tags') j
    = if decide (agree (S h) i j) then f (tget (S h) (TNode c sl tags) j)
      else tget (S h) (TNode c sl tags) j.
Proof.
  intros Hl Hi Hch j Hj. pose proof (offset_range h i Hi) as Ho.
  rewrite (tget_change h c sl tags) by done.
  destruct (decide (offset_at h j = offset_at h i)) as [E|E].
  - rewrite Hch by done. cbn [tget]. rewrite E. destruct (decide (agree h i j)) as [A|A].
    + rewrite decide_True; [done|]. by apply agree_S.
    + rewrite decide_False; [done|]. rewrite agree_S by done. tauto.
  - rewrite decide_False; [done|]. rewrite agree_S by done. intros [E' _]. by destruct E.
Qed.

(** The same for tags: below the bottom level through the slot, at the bottom
    through the bit. *)
Lemma ttag_update k h c sl tags i child c' tags' (f : bool → bool) :
  length sl = 64%nat → 0 <= i →
  (∀ j, 0 <= j → (0 < h)%nat → ttag k h child j = if decide (agree h i j)
     then f (ttag k h (get_slot sl (offset_at h i)) j) else ttag k h (get_slot sl (offset_at h i)) j) →
  (∀ x, 0 <= x < 64 → h = O →
     tag_get tags' k x = if decide (x = offset_at h i) then f (tag_get tags k x) else tag_get tags k x) →
  ∀ j, 0 <= j → ttag k (S h) (TNode c' (put_slot sl (offset_at h i) child) tags') j
    = if decide (agree (S h) i j) then f (ttag k (S h) (TNode c sl tags) j)
      else ttag k (S h) (TNode c sl tags) j.
Proof.
  intros Hl Hi Hch Hbit j Hj. pose proof (offset_range h i Hi) as Ho.
  destruct h as [|h].
  - rewrite !ttag_one, Hbit by (done || by apply offset_range).
    destruct (decide (offset_at 0 j = offset_at 0 i)) as [E|E].
    + rewrite decide_True; [done|]. apply agree_S; [done..|]. split; [done|]. apply agree_0.
    + rewrite decide_False; [done|]. rewrite agree_S by done. intros [E' _]. by destruct E.
  - rewrite (ttag_change k h c sl tags) by done.
    destruct (decide (offset_at (S h) j = offset_at (S h) i)) as [E|E].
    + rewrite Hch by (done || lia). rewrite ttag_SS, E. destruct (decide (agree (S h) i j)) as [A|A].
      * rewrite decide_True; [done|]. by apply agree_S.
      * rewrite decide_False; [done|]. rewrite agree_S by done. tauto.
    + rewrite decide_False; [done|]. rewrite agree_S by done. intros [E' _]. by destruct E.
Qed.

(** ** Setting a tag *)

Definition tag_set_post (h : nat) (t : tree) (i : Z) (k0 : bool) (t' : tree) : Prop :=
  wf h t' ∧ is_null t' = false ∧
  (∀ j, 0 <= j → tget h t' j = tget h t j) ∧
  (∀ k j, 0 <= j → (0 < h)%nat → ttag k h t' j =
     if decide (agree h i j) then eqb k k0 || ttag k h t j else ttag k h t j) ∧
  (∀ k, (0 < h)%nat → any_tag (tags_of t') k = eqb k k0 || any_tag (tags_of t) k).

Lemma tag_set_at_spec h t i k0 v :
  wf h t → 0 <= i → tget h t i = Some v →
  ∃ t', tag_set_at h t i k0 = Ok (v, t') ∧ tag_set_post h t i k0 t'.
Proof.
  revert t. induction h as [|h IH]; intros t Hw Hi Ht; cbn [tag_set_at].
  { destruct (wf_O _ Hw) as [->|(w & -> & Hn)]; [done|]. injection Ht as <-. eexists.
    split; [done|]. split_and!; try done; intros; lia. }
  destruct (wf_S _ _ Hw) as [->|(c & sl & tags & ->)]; [done|].
  pose proof Hw as (Hl & Hf & Hc & Hr & Hb)%wf_node. pose proof (offset_range h i Hi) as Ho.
  cbn [tget] in Ht. destruct (is_null (get_slot sl (offset_at h i))) eqn:En.
  { by destruct (get_slot sl (offset_at h i)); [rewrite tget_null in Ht|..]. }
  destruct (IH _ (get_slot_wf h sl (offset_at h i) Hf) Hi Ht) as (child & -> & Hp).
  destruct Hp as (Hw' & Hn' & Hg & Hk & Ha). cbn. eexists. split; [done|].
  assert (tags_range (tag_set tags k0 (offset_at h i))) as Hr' by (by apply tag_set_range).
  split_and!.
  - eapply wf_change; [exact Hw|done|done| |done| |].
    + unfold null0. rewrite En, Hn'. lia.
    + intros k x Hx Hne. rewrite tag_get_set by lia.
      replace (offset_at h i =? x) with false by lia. by rewrite andb_false_r.
    + intros k. rewrite tag_get_set, Z.eqb_refl, andb_true_r by lia.
      specialize (Hb k _ Ho). destruct h as [|h]; cbn [bit_ok] in *.
      * intros _. done.
      * rewrite Ha, Hb by lia. f_equal. by destruct k, k0.
  - done.
  - intros j Hj. rewrite (tget_update h c sl tags i child _ _ id) by
      (done || (intros x Hx; rewrite Hg by done; by destruct (decide _))).
    by destruct (decide _).
  - intros k j Hj _. rewrite (ttag_update k h c sl tags i child _ _ (orb (eqb k k0))); try done.
    + intros x Hx Hh. by rewrite Hk.
    + intros x Hx Hh. rewrite tag_get_set by lia. destruct (decide (x = offset_at h i)) as [->|].
      * rewrite Z.eqb_refl, andb_true_r. f_equal. by destruct k, k0.
      * replace (offset_at h i =? x) with false by lia. by rewrite andb_false_r.
  - intros k _. cbn [tags_of]. apply eq_true_iff_eq. rewrite any_tag_spec by done.
    rewrite orb_true_iff, any_tag_spec by done. split.
    + intros (x & Hx & Hg'). rewrite tag_get_set in Hg' by lia. apply orb_true_iff in Hg' as [Hg'|].
      * left. apply andb_true_iff in Hg' as [Hg' _]. by destruct k, k0.
      * right. eauto.
    + intros [He|(x & Hx & Hg')].
      * exists (offset_at h i). split; [done|]. rewrite tag_get_set, Z.eqb_refl by lia.
        by destruct k, k0.
      * exists x. split; [done|]. rewrite tag_get_set by lia. rewrite Hg'. by rewrite orb_true_r.
Qed.

(** ** Clearing a tag *)

Definition tag_clear_post (h : nat) (t : tree) (i : Z) (k0 : bool) (t' : tree) (go : bool) : Prop :=
  wf h t' ∧ is_null t' = false ∧
  (∀ j, 0 <= j → tget h t' j = tget h t j) ∧
  (∀ k j, 0 <= j → (0 < h)%nat → ttag k h t' j =
     if decide (agree h i j) then negb (eqb k k0) && ttag k h t j else ttag k h t j) ∧
  (h = O → go = true) ∧
  ((0 < h)%nat → go = negb (any_tag (tags_of t') k0)) ∧
  (∀ k, (0 < h)%nat → any_tag (tags_of t') k = true → any_tag (tags_of t) k = true) ∧
  (∀ k, k ≠ k0 → get_tag (tags_of t') k = get_tag (tags_of t) k).

(** The tag words of a node after its round of the clearing loop. *)
Definition cleared (tags : Z * Z) (k0 : bool) (o : Z) (go : bool) : Z * Z :=
  if go then tag_clear tags k0 o else tags.

Lemma cleared_get tags k0 o go k x :
  tag_get (cleared tags k0 o go) k x
  = negb (go && eqb k0 k && (o =? x)) && tag_get tags k x.
Proof. unfold cleared. destruct go; [by rewrite tag_get_clear|done]. Qed.

Lemma cleared_range tags k0 o go : tags_range tags → tags_range (cleared tags k0 o go).
Proof. unfold cleared. destruct go; [apply tag_clear_range|done]. Qed.

Lemma cleared_any tags k0 o go k :
  tags_range tags → any_tag (cleared tags k0 o go) k = true → any_tag tags k = true.
Proof.
  intros Hr. rewrite !any_tag_spec by (done || by apply cleared_range).
  intros (x & Hx & Hg). exists x. split; [done|]. rewrite cleared_get in Hg.
  by apply andb_true_iff in Hg as [_ ?].
Qed.

Lemma tag_clear_at_spec h t i k0 :
  wf h t → 0 <= i →
  ∃ r, tag_clear_at h t i k0 = Ok r ∧
    match r with
    | None => tget h t i = None
    | Some (v, t', go) => tget h t i = Some v ∧ tag_clear_post h t i k0 t' go
    end.
Proof.
  revert t. induction h as [|h IH]; intros t Hw Hi; cbn [tag_clear_at].
  { destruct (wf_O _ Hw) as [->|(w & -> & Hn)]; cbn [is_null]; eexists; (split; [done|]); [done|].
    split; [done|]. split_and!; try done; intros; lia. }
  destruct (wf_S _ _ Hw) as [->|(c & sl & tags & ->)]; [by eexists|].
  pose proof Hw as (Hl & Hf & Hc & Hr & Hb)%wf_node. pose proof (offset_range h i Hi) as Ho.
  destruct (IH _ (get_slot_wf h sl (offset_at h i) Hf) Hi) as (r & -> & Hp). cbn.
  destruct r as [[[v child] go]|]; [|by eexists].
  destruct Hp as [Ht (Hw' & Hn' & Hg & Hk & Hgo0 & HgoS & Hmono & Hoth)].
  assert (is_null (get_slot sl (offset_at h i)) = false) as En.
  { by destruct (get_slot sl (offset_at h i)); [rewrite tget_null in Ht|..]. }
  set (tags' := cleared tags k0 (offset_at h i) go).
  assert (tag_clear_post (S h) (TNode c sl tags) i k0
            (TNode c (put_slot sl (offset_at h i) child) tags')
            (go && negb (any_tag tags' k0))) as Hpost.
  { pose proof (cleared_range tags k0 (offset_at h i) go Hr) as Hr'. fold tags' in Hr'.
    split_and!.
    - eapply wf_change; [exact Hw|done|done| |done| |].
      + unfold null0. rewrite En, Hn'. lia.
      + intros k x Hx Hne. unfold tags'. rewrite cleared_get.
        replace (offset_at h i =? x) with false by lia. by rewrite andb_false_r.
      + intros k. unfold tags'. rewrite cleared_get, Z.eqb_refl, andb_true_r.
        specialize (Hb k _ Ho). destruct h as [|h]; cbn [bit_ok] in *; [done|].
        rewrite Hb. destruct (decide (k = k0)) as [->|Hne].
        * rewrite HgoS by lia. replace (eqb k0 k0) with true by (by destruct k0).
          rewrite andb_true_r, negb_involutive.
          destruct (any_tag (tags_of child) k0) eqn:E; [|done].
          by rewrite (Hmono k0 ltac:(lia) E).
        * replace (eqb k0 k) with false by (by destruct k, k0). rewrite andb_false_r.
          unfold any_tag. by rewrite Hoth.
    - done.
    - intros j Hj. rewrite (tget_update h c sl tags i child _ _ id) by
        (done || (intros x Hx; rewrite Hg by done; by destruct (decide _))).
      by destruct (decide _).
    - intros k j Hj _. rewrite (ttag_update k h c sl tags i child _ _ (andb (negb (eqb k k0)))); try done.
      + intros x Hx Hh. by rewrite Hk.
      + intros x Hx Hh. unfold tags'. rewrite cleared_get, (Hgo0 Hh). cbn [andb].
        destruct (decide (x = offset_at h i)) as [->|].
        * rewrite Z.eqb_refl, andb_true_r. by destruct k, k0.
        * replace (offset_at h i =? x) with false by lia. by rewrite andb_false_r.
    - done.
    - intros _. cbn [tags_of]. destruct go eqn:Ego; [done|]. cbn [andb].
      destruct h as [|h]; [by specialize (Hgo0 eq_refl)|].
      symmetry in HgoS. symmetry. apply negb_false_iff. unfold tags', cleared.
      apply any_tag_spec; [done|]. exists (offset_at (S h) i). split; [done|].
      rewrite (Hb k0 _ Ho). cbn [bit_ok]. apply Hmono; [lia|]. apply negb_false_iff, HgoS. lia.
    - intros k _. cbn [tags_of]. apply cleared_any. done.
    - intros k Hne. cbn [tags_of]. unfold tags', cleared. destruct go; [|done].
      unfold tag_clear. rewrite get_put_tag. by destruct k, k0. }
  destruct go; eexists; (split; [reflexivity|]); (split; [exact Ht|]); exact Hpost.
Qed.

(** ** Deletion *)

Definition stop (st : bool * bool * bool) (k : bool) : bool := if k then st.1.2 else st.1.1.

(** The loop ends early only when both tags have stopped. *)
Definition loop_ok (st : bool * bool * bool) : Prop := st.2 = false → ∀ k, stop st k = true.

Lemma clear_one_spec tags o k s :
  clear_one tags o k s
  = (cleared tags k o (negb s), s || any_tag (cleared tags k o (negb s)) k).
Proof. by destruct s. Qed.

Lemma cleared_other tags k o go k' : k ≠ k' → get_tag (cleared tags k o go) k' = get_tag tags k'.
Proof.
  intros Hne. unfold cleared, tag_clear. destruct go; [|done]. rewrite get_put_tag.
  by destruct k, k'.
Qed.

(** One round: a tag that has not stopped is cleared, and stops when the node still
    has it. *)
Lemma clear_round_spec tags o st :
  loop_ok st →
  ∃ tags' st', clear_round tags o st = (tags', st') ∧ loop_ok st' ∧
    (tags_range tags → tags_range tags') ∧
    (∀ k x, tag_get tags' k x = negb (negb (stop st k) && (o =? x)) && tag_get tags k x) ∧
    (∀ k, stop st' k = stop st k || any_tag tags' k).
Proof.
  destruct st as [[s0 s1] go]. intros Hok. unfold clear_round. destruct go.
  - rewrite !clear_one_spec.
    set (t1 := cleared tags false o (negb s0)). set (t2 := cleared t1 true o (negb s1)).
    assert (any_tag t1 false = any_tag t2 false) as E.
    { unfold any_tag, t2. by rewrite cleared_other. }
    eexists _, _. split; [done|]. split_and!.
    + intros Hn k. cbn in Hn. rewrite E in Hn |- *. destruct k; cbn.
      * destruct s0, s1, (any_tag t2 false), (any_tag t2 true); done.
      * destruct s0, s1, (any_tag t2 false), (any_tag t2 true); done.
    + intros Hr. by do 2 apply cleared_range.
    + intros k x. unfold t2, t1. rewrite !cleared_get. by destruct k, s0, s1, (o =? x).
    + intros []; cbn; [done|by rewrite E].
  - eexists _, _. split; [done|]. split_and!; [done|done| |].
    + intros k x. by rewrite (Hok eq_refl k).
    + intros k. by rewrite (Hok eq_refl k).
Qed.

(** A node with no live slot is as the constructor left it. *)
Lemma empty_node h sl tags :
  wf (S h) (TNode 0 sl tags) →
  node_clean (TNode 0 sl tags) = true ∧ (∀ k, any_tag tags k = false) ∧
  (∀ j, tget (S h) (TNode 0 sl tags) j = None) ∧
  (∀ k j, 0 <= j → ttag k (S h) (TNode 0 sl tags) j = false).
Proof.
  intros Hw. pose proof Hw as (Hl & Hf & Hc & Hr & Hb)%wf_node.
  assert (∀ o, get_slot sl o = TNull) as Hnull.
  { intros o. pose proof (live_zero sl o (eq_sym Hc)). by destruct (get_slot sl o). }
  assert (∀ k, any_tag tags k = false) as Hz.
  { intros k. apply any_tag_none; [done|]. intros x Hx. specialize (Hb k x Hx).
    rewrite Hnull in Hb. apply not_true_iff_false. intros E. rewrite E in Hb.
    destruct h, k; cbn in Hb; (discriminate || by specialize (Hb eq_refl)). }
  split_and!; [|done| |].
  - assert (∀ k, get_tag tags k = 0) as Hg.
    { intros k. by apply Z.eqb_eq, negb_false_iff, (Hz k). }
    cbn. destruct tags as [a b]. rewrite (Hg false : a = 0), (Hg true : b = 0).
    rewrite !andb_true_r. apply forallb_forall. intros t Ht. apply list_elem_of_In in Ht.
    apply list_elem_of_lookup in Ht as [n Hn]. specialize (Hnull (Z.of_nat n)).
    unfold get_slot in Hnull. rewrite Nat2Z.id, Hn in Hnull. cbn in Hnull. by subst t.
  - intros j. cbn [tget]. rewrite Hnull. apply tget_null.
  - intros k j Hj. by apply untagged.
Qed.

Definition delete_post (h : nat) (t : tree) (i : Z) (t' : tree) (st : bool * bool * bool) : Prop :=
  wf h t' ∧ loop_ok st ∧
  (∀ j, 0 <= j → tget h t' j = if decide (agree h i j) then None else tget h t j) ∧
  (∀ k j, 0 <= j → (0 < h)%nat →
     ttag k h t' j = if decide (agree h i j) then false else ttag k h t j) ∧
  (h = O → t' = TNull ∧ ∀ k, stop st k = false) ∧
  (∀ k, (0 < h)%nat → stop st k = any_tag (tags_of t') k) ∧
  (∀ k, (0 < h)%nat → any_tag (tags_of t') k = true → any_tag (tags_of t) k = true).

(** The node on the path after its slot and its tags have changed. *)
Lemma delete_node h c sl tags i child st tags' st' :
  wf (S h) (TNode c sl tags) → 0 <= i → is_null (get_slot sl (offset_at h i)) = false →
  delete_post h (get_slot sl (offset_at h i)) i child st → loop_ok st' →
  (tags_range tags → tags_range tags') →
  (∀ k x, tag_get tags' k x = negb (negb (stop st k) && (offset_at h i =? x)) && tag_get tags k x) →
  (∀ k, stop st' k = stop st k || any_tag tags' k) →
  delete_post (S h) (TNode c sl tags) i
    (TNode (if is_null child then c - 1 else c) (put_slot sl (offset_at h i) child) tags') st'.
Proof.
  intros Hw Hi En (Hw' & Hlo & Hg & Hk & H0 & Hst & Hmono) Hlo' Hrr Hget Hst'.
  pose proof Hw as (Hl & Hf & Hc & Hr & Hb)%wf_node. pose proof (offset_range h i Hi) as Ho.
  specialize (Hrr Hr). set (o := offset_at h i) in *.
  assert (∀ k, tag_get tags' k o = stop st k && tag_get tags k o) as Hbo.
  { intros k. rewrite Hget, Z.eqb_refl. by destruct (stop st k). }
  assert (∀ k x, x ≠ o → tag_get tags' k x = tag_get tags k x) as Hne.
  { intros k x Hx. rewrite Hget. replace (o =? x) with false by lia. by rewrite andb_false_r. }
  assert (∀ k, stop st k = true → tag_get tags' k o = true) as Hsb.
  { intros k Hs. rewrite Hbo, Hs. specialize (Hb k o Ho). destruct h; cbn in Hb.
    - destruct (H0 eq_refl) as [_ Hz]. by rewrite Hz in Hs.
    - rewrite Hb. apply Hmono; [lia|]. by rewrite <- Hst by lia. }
  split_and!.
  - eapply wf_change; [exact Hw|done|done| |done|auto|].
    + fold o. unfold null0. rewrite En. destruct (is_null child); lia.
    + intros k. specialize (Hb k o Ho). destruct h; cbn [bit_ok] in *.
      * rewrite Hbo. destruct (H0 eq_refl) as [_ ->]. done.
      * rewrite <- Hst by lia. destruct (stop st k) eqn:Es; [by apply Hsb|].
        by rewrite Hbo, Es.
  - done.
  - intros j Hj. exact (tget_update h c sl tags i child _ _ (λ _, None) Hl Hi Hg j Hj).
  - intros k j Hj _. apply (ttag_update k h c sl tags i child _ _ (λ _, false)); try done.
    + intros x Hx Hh. by apply Hk.
    + intros x Hx Hh. destruct (decide _) as [->|]; [|by apply Hne]. fold o.
      rewrite Hbo. by destruct (H0 Hh) as [_ ->].
  - done.
  - intros k _. rewrite Hst'. destruct (stop st k) eqn:Es; [|done]. symmetry.
    apply any_tag_spec; [done|]. exists o. split; [done|]. by apply Hsb.
  - intros k _. cbn [tags_of]. rewrite !any_tag_spec by done. intros (x & Hx & Hg').
    exists x. split; [done|]. rewrite Hget in Hg'. by apply andb_true_iff in Hg' as [_ ?].
Qed.

(** ... and a node that has become empty may be freed. *)
Lemma delete_free h t i sl tags st :
  delete_post (S h) t i (TNode 0 sl tags) st →
  node_clean (TNode 0 sl tags) = true ∧ delete_post (S h) t i TNull st.
Proof.
  intros (Hw & Hlo & Hg & Hk & _ & Hst & _).
  destruct (empty_node _ _ _ Hw) as (Hclean & Hany & Hnone & Hfalse).
  split; [done|]. split_and!; try done.
  - intros j Hj. by rewrite <- Hg, Hnone by done.
  - intros k j Hj Hh. rewrite <- Hk, Hfalse by done. apply ttag_null.
  - intros k Hh. rewrite Hst by done. cbn [tags_of]. rewrite Hany. by destruct k.
  - intros k Hh. by destruct k.
Qed.

Lemma delete_at_spec h t i :
  wf h t → 0 <= i →
  ∃ r, delete_at h t i = Ok r ∧
    match r with
    | None => tget h t i = None
    | Some (v, t', st) => tget h t i = Some v ∧ delete_post h t i t' st
    end.
Proof.
  revert t. induction h as [|h IH]; intros t Hw Hi; cbn [delete_at].
  { destruct (wf_O _ Hw) as [->|(w & -> & Hn)]; cbn [is_null]; eexists; (split; [done|]); [done|].
    split; [done|]. split_and!; try done; try (intros; lia).
    - intros j Hj. by rewrite decide_True by apply agree_0.
    - intros _. split; [done|]. by intros []. }
  destruct (wf_S _ _ Hw) as [->|(c & sl & tags & ->)]; [by eexists|].
  pose proof Hw as (Hl & Hf & Hc & Hr & Hb)%wf_node.
  destruct (IH _ (get_slot_wf h sl (offset_at h i) Hf) Hi) as (r & -> & Hp). cbn.
  destruct r as [[[v child] st]|]; [|by eexists]. destruct Hp as [Ht Hp].
  assert (is_null (get_slot sl (offset_at h i)) = false) as En.
  { by destruct (get_slot sl (offset_at h i)); [rewrite tget_null in Ht|..]. }
  destruct (clear_round_spec tags (offset_at h i) st) as (tags' & st' & -> & Hlo' & Hrr & Hget & Hst').
  { by destruct Hp as (_ & ? & _). }
  pose proof (delete_node _ _ _ _ _ _ _ _ _ Hw Hi En Hp Hlo' Hrr Hget Hst') as Hpost.
  destruct (is_null child); [|by eexists].
  destruct (Z.eqb_spec (c - 1) 0) as [E|]; [|by eexists]. rewrite E in *.
  apply delete_free in Hpost as [Hclean Hpost]. unfold radix_tree_node_free.
  rewrite Hclean. by eexists.
Qed.

End RadixOps.
