(* ===== verification/RadixRoot.v ===== *)
(** * The radix tree: the operations of a root

    [rget] and [rtag] are what a root stands for.  [root_ok] holds between any two
    calls; a root is [settled] when the height of an empty tree is 0. *)

From stdpp Require Import prelude numbers list gmap.
From Stdlib Require Import ZArith Lia.
From S2P Require Import Prelude Radix RadixFacts RadixOps.

#[local] Set Default Goal Selector "!".
#[local] Open Scope Z_scope.

Module RadixRoot.
Import Radix RadixFacts RadixOps.

Abbreviation hn r := (Z.to_nat (height r)).

Definition rget (r : radix_tree_root) (i : Z) : option Z :=
  if i <? span (hn r) then tget (hn r) (rnode r) i else None.
Definition rtag (k : bool) (r : radix_tree_root) (i : Z) : bool :=
  (i <? span (hn r)) && ttag k (hn r) (rnode r) i.

Record root_ok (r : radix_tree_root) : Prop := mk_root_ok {
  ok_height : 0 <= height r <= 6;
  ok_wf : wf (hn r) (rnode r);
  ok_flat : height r = 0 → rnode r = TNull;
  ok_high : ∀ i, 2 ^ 32 <= i → rget r i = None;
}.
Definition settled (r : radix_tree_root) : Prop := rnode r = TNull → height r = 0.

Definition index_ok (i : Z) : Prop := 0 <= i < 2 ^ 32.

#[export] Instance null_dec t : Decision (t = TNull).
Proof. destruct t; [by left|by right..]. Defined.

(** Two roots with the same contents. *)
Definition same (r r' : radix_tree_root) : Prop :=
  (∀ i, 0 <= i → rget r' i = rget r i) ∧
  (∀ k i, 0 <= i → rtag k r' i = rtag k r i).

#[export] Instance same_preorder : PreOrder same.
Proof.
  split; [by intros r|]. intros a b c [H1 H2] [H3 H4]. split.
  - intros i Hi. by rewrite H3, H1.
  - intros k i Hi. by rewrite H4, H2.
Qed.

(** ** Maximal indices *)

Lemma maxindex_table h : 0 <= h <= 6 → radix_tree_maxindex h = Ok (Z.min (span (Z.to_nat h)) (2 ^ 32) - 1).
Proof.
  intros Hh. assert (h = 0 ∨ h = 1 ∨ h = 2 ∨ h = 3 ∨ h = 4 ∨ h = 5 ∨ h = 6) as Hc by lia.
  by repeat destruct Hc as [->|Hc]; try subst h.
Qed.

(** Whether an index is too high for the tree. *)
Lemma too_high h i : 0 <= h <= 6 → index_ok i →
  ∃ m, radix_tree_maxindex h = Ok m ∧ (m <? i) = negb (i <? span (Z.to_nat h)).
Proof.
  intros Hh Hi. eexists. split; [by apply maxindex_table|]. unfold index_ok in Hi.
  apply eq_true_iff_eq. rewrite negb_true_iff, Z.ltb_lt, Z.ltb_ge. lia.
Qed.

Lemma span_6 i : index_ok i → (i <? span 6) = true.
Proof. intros [_ H]. apply Z.ltb_lt. change (span 6) with (2 ^ 36). lia. Qed.

Lemma agree_eq h i j : 0 <= i < span h → 0 <= j < span h → agree h i j ↔ i = j.
Proof. intros Hi Hj. unfold agree. by rewrite !Z.mod_small. Qed.

(** ** Growing the tree *)

Lemma extend_height_spec fuel h i :
  1 <= h <= 6 → 7 - h <= Z.of_nat fuel → index_ok i →
  ∃ h', extend_height fuel h i = Ok h' ∧ h <= h' <= 6 ∧ (i <? span (Z.to_nat h')) = true.
Proof.
  revert h. induction fuel as [|f IH]; intros h Hh Hf Hi; [lia|]. cbn [extend_height].
  destruct (too_high h i) as (m & -> & E); [lia|done|]. cbn. rewrite E.
  destruct (i <? span (Z.to_nat h)) eqn:El; cbn; [exists h; by split_and!; [|lia..|]|].
  destruct (Z.eq_dec h 6) as [->|]; [by rewrite span_6 in El|].
  destruct (IH (h + 1)) as (h' & -> & ? & ?); [lia..|done|]. exists h'. by split_and!; [|lia..|].
Qed.

(** The tag words of the node that [extend_up] puts on top. *)
Definition top_tg (b : bool * bool) : Z * Z :=
  let tg := if b.1 then tag_set (0, 0) false 0 else (0, 0) in
  if b.2 then tag_set tg true 0 else tg.

Lemma top_tags b k i :
  0 <= i → tag_get (top_tg b) k i = (i =? 0) && (if k then b.2 else b.1).
Proof.
  destruct b as [b0 b1]. unfold top_tg. cbn [fst snd]. intros Hi. assert (∀ k, tag_get (0, 0) k i = false) as Hz.
  { intros []; unfold tag_get; cbn; apply Z.testbit_0_l. }
  destruct (Z.eqb_spec i 0) as [->|Hne].
  - by destruct b0, b1; rewrite ?tag_get_set, ?Hz by lia; destruct k.
  - assert ((0 =? i) = false) as E by lia.
    by destruct b0, b1; rewrite ?tag_get_set, ?Hz, ?E by lia; destruct k.
Qed.

Lemma offset_low h i : 0 <= i < span (S h) → offset_at h i = i / span h.
Proof.
  intros Hi. rewrite offset_at_div by lia. pose proof (span_pos h). rewrite span_S in Hi.
  apply Z.mod_small. split; [apply Z.div_pos; lia|]. apply Z.div_lt_upper_bound; lia.
Qed.

Lemma top_slot h i t :
  0 <= i < span (S h) →
  get_slot (put_slot no_slots 0 t) (offset_at h i) = if i <? span h then t else TNull.
Proof.
  intros Hi. pose proof (span_pos h). pose proof (offset_range h i ltac:(lia)).
  rewrite get_put_slot by done || lia. rewrite no_slots_get. rewrite offset_low by done.
  destruct (Z.ltb_spec i (span h)) as [Hlt|Hge].
  - by rewrite decide_True by (apply Z.div_small; lia).
  - rewrite decide_False; [done|]. intros E. apply Z.div_small_iff in E; lia.
Qed.

Lemma top_range b : tags_range (top_tg b).
Proof.
  assert (tags_range (0, 0)) by (intros []; cbn; lia).
  destruct b as [[] []]; unfold top_tg; cbn [fst snd]; repeat apply tag_set_range; try done; lia.
Qed.

Definition flags (t : tree) : bool * bool := (any_tag (tags_of t) false, any_tag (tags_of t) true).

Definition grown (r : radix_tree_root) : radix_tree_root :=
  mk_root (height r + 1) (gfp_wait r)
          (TNode 1 (put_slot no_slots 0 (rnode r)) (top_tg (flags (rnode r)))).

Lemma grown_flags r : flags (rnode (grown r)) = flags (rnode r).
Proof.
  assert (∀ k, any_tag (top_tg (flags (rnode r))) k = any_tag (tags_of (rnode r)) k) as E.
  { intros k. apply eq_true_iff_eq. rewrite any_tag_spec by apply top_range. split.
    - intros (i & Hi & Hg). rewrite top_tags in Hg by lia. apply andb_true_iff in Hg as [_ Hg].
      by destruct k.
    - intros H. exists 0. split; [lia|]. rewrite top_tags by lia. by destruct k. }
  unfold flags. cbn [rnode grown tags_of]. by rewrite !E.
Qed.

Lemma grown_wf h t : wf (S h) t → t ≠ TNull →
  wf (S (S h)) (TNode 1 (put_slot no_slots 0 t) (top_tg (flags t))).
Proof.
  intros Hw Hn. eapply (wf_change (S h) 0 no_slots (0, 0)).
  - apply (new_node_wf (S h)).
  - lia.
  - done.
  - rewrite no_slots_get. by destruct t.
  - apply top_range.
  - intros k i Hi Hne. rewrite top_tags by lia. replace (i =? 0) with false by lia.
    symmetry. destruct k; unfold tag_get; cbn; apply Z.testbit_0_l.
  - intros k. cbn [bit_ok]. rewrite top_tags by lia. by destruct k.
Qed.

Lemma hn_S r : root_ok r → rnode r ≠ TNull → ∃ h, hn r = S h ∧ hn (grown r) = S (S h).
Proof.
  intros Hok Hn. destruct (decide (height r = 0)) as [E|E]; [by destruct Hn; apply ok_flat|].
  pose proof (ok_height r Hok). exists (Z.to_nat (height r - 1)). cbn [height grown]. lia.
Qed.

(** One more level: the same tree. *)
Lemma grown_same r : root_ok r → rnode r ≠ TNull → same r (grown r).
Proof.
  intros Hok Hn. destruct (hn_S r Hok Hn) as (h & E & E'). pose proof (span_pos (S h)).
  assert (span (S (S h)) = span (S h) * 64) as Hsp by apply span_S. split.
  - intros i Hi. unfold rget. rewrite E, E'. destruct (Z.ltb_spec i (span (S (S h)))) as [Hlt|Hge].
    + cbn [rnode grown]. change (tget (S (S h)) _ i) with
        (tget (S h) (get_slot (put_slot no_slots 0 (rnode r)) (offset_at (S h) i)) i).
      rewrite top_slot by done. destruct (i <? span (S h)); [done|]. apply tget_null.
    + destruct (Z.ltb_spec i (span (S h))); [lia|done].
  - intros k i Hi. unfold rtag. rewrite E, E'. destruct (Z.ltb_spec i (span (S (S h)))) as [Hlt|Hge].
    + cbn [rnode grown]. rewrite ttag_SS, top_slot by done.
      destruct (i <? span (S h)); [done|]. by rewrite ttag_null.
    + destruct (Z.ltb_spec i (span (S h))); [lia|done].
Qed.

Lemma grown_ok r : root_ok r → rnode r ≠ TNull → height r < 6 → root_ok (grown r).
Proof.
  intros Hok Hn Hh. pose proof (ok_height r Hok). destruct (hn_S r Hok Hn) as (h & E & E').
  pose proof (ok_wf r Hok) as Hw. rewrite E in Hw. split.
  - cbn [height grown]. lia.
  - rewrite E'. by apply grown_wf.
  - cbn [height grown]. lia.
  - intros i Hi. rewrite (proj1 (grown_same r Hok Hn)) by lia. by apply ok_high.
Qed.

(** What growing a tree that has nodes gives. *)
Definition extend_post (r : radix_tree_root) (target : Z) (e0 : mem) (e : Z) (r' : radix_tree_root)
    : Prop :=
  root_ok r' ∧ rnode r' ≠ TNull ∧ same r r' ∧ gfp_wait r' = gfp_wait r ∧
  (e = 0 ∧ height r' = target ∨ e = - ENOMEM ∧ false ∈ kmem e0).

Lemma extend_up_spec fuel target r e0 :
  root_ok r → rnode r ≠ TNull → height r < target <= 6 → target - height r <= Z.of_nat fuel →
  wp (extend_up fuel target (flags (rnode r)) r)
    (λ x e1, mem_le e1 e0 ∧ extend_post r target e0 x.1 x.2) (λ _ _, False) e0.
Proof.
  revert r e0. induction fuel as [|f IH]; intros r e0 Hok Hn Hh Hf; [lia|]. cbn [extend_up].
  apply wp_bind, wp_node_alloc. intros b e1 Hle _ Hfail. destruct b.
  2:{ apply wp_ret. split; [done|]. split_and!; try done. right. by split; [|apply Hfail]. }
  change (mk_root _ _ _) with (grown r).
  pose proof (grown_ok r Hok Hn ltac:(lia)) as Hok'. pose proof (grown_same r Hok Hn) as Hsame.
  assert (height (grown r) = height r + 1) as Hg by done.
  destruct (Z.ltb_spec (height (grown r)) target) as [Hlt|Hge].
  - rewrite <- (grown_flags r). eapply wp_mono; [apply IH; [done|done|lia..]|].
    intros [e r'] e2 [Hle2 (Hok2 & Hn2 & Hs2 & Hw2 & Hres)]. cbn [fst snd] in *.
    split; [by intros ? ?%Hle2%Hle|]. split_and!; try done; [by etransitivity|].
    destruct Hres as [?|[-> ?]]; [by left|right]. by split; [|apply Hle].
  - apply wp_ret. split; [done|]. split_and!; try done. left. split; [done|]. cbn [snd]. lia.
Qed.

Lemma empty_get r i : rnode r = TNull → rget r i = None.
Proof. intros E. unfold rget. rewrite E, tget_null. by destruct (_ <? _). Qed.
Lemma empty_tag k r i : rnode r = TNull → rtag k r i = false.
Proof. intros E. unfold rtag. rewrite E, ttag_null. by rewrite andb_false_r. Qed.

Lemma same_empty r r' : rnode r = TNull → rnode r' = TNull → same r r'.
Proof. intros E E'. split; intros; by rewrite ?empty_get, ?empty_tag. Qed.

(** Whether the tree has to grow before an insertion. *)
Definition grows (r : radix_tree_root) (i : Z) : Prop :=
  height r <= 5 ∧ ((i <? span (hn r)) = false ∨ rnode r = TNull).

(** [radix_tree_extend]: an empty tree only gets its new height. *)
Lemma extend_spec r i e0 :
  root_ok r → index_ok i → grows r i →
  wp (radix_tree_extend r i)
    (λ x e1, root_ok x.2 ∧ same r x.2 ∧ gfp_wait x.2 = gfp_wait r ∧
       (rnode r = TNull ↔ rnode x.2 = TNull) ∧
       (x.1 = 0 ∧ 0 < height x.2 ∧ (i <? span (hn x.2)) = true ∧ (rnode r = TNull → e1 = e0) ∨
        x.1 = - ENOMEM ∧ rnode r ≠ TNull ∧ false ∈ kmem e0) ∧ mem_le e1 e0) (λ _ _, False) e0.
Proof.
  intros Hok Hi Hgr. pose proof (ok_height r Hok). unfold radix_tree_extend.
  destruct (extend_height_spec 7 (height r + 1) i) as (h & E & Hh & Hfit);
    [unfold grows in Hgr; lia..|done|].
  apply wp_bind. unfold wp at 1, pure. change (Z.to_nat RADIX_TREE_MAX_PATH) with 7%nat. rewrite E.
  destruct (rnode r) as [|v|c sl tags] eqn:En.
  - apply wp_ret. cbn [fst snd height gfp_wait rnode]. split_and!; try done.
    + split; cbn [height rnode]; [lia|apply wf_null|done|]. intros; by apply empty_get.
    + by apply same_empty.
    + left. by split_and!; [|lia|..].
  - pose proof (ok_wf r Hok) as Hw. rewrite En in Hw.
    assert (hn r = O) as Hz by (by destruct (hn r) as [|n]; [|destruct Hw]). pose proof (ok_flat r Hok ltac:(lia)). congruence.
  - change (any_tag tags false, any_tag tags true) with (flags (TNode c sl tags)). rewrite <- En.
    eapply wp_mono; [apply extend_up_spec; [done|by rewrite En|lia..]|].
    intros [e r'] e1 [Hle (Hok' & Hn' & Hs & Hw & Hres)]. cbn [fst snd] in *.
    split_and!; try done.
    + by rewrite En.
    + destruct Hres as [[-> Hht]|[-> Hfail]]; [left|by right; rewrite En].
      rewrite Hht, En. by split_and!; [|lia| |].
Qed.

(** A slot of the root changed below its height. *)
Lemma rget_new r t w (f : option Z → option Z) i :
  (i <? span (hn r)) = true → 0 <= i →
  (∀ j, 0 <= j → tget (hn r) t j
     = if decide (agree (hn r) i j) then f (tget (hn r) (rnode r) j) else tget (hn r) (rnode r) j) →
  ∀ j, 0 <= j → rget (mk_root (height r) w t) j = if decide (i = j) then f (rget r j) else rget r j.
Proof.
  intros Hfit Hi Ht j Hj. unfold rget. cbn [height rnode].
  destruct (Z.ltb_spec j (span (hn r))) as [Hlt|Hge].
  - rewrite Ht by done. pose proof (agree_eq (hn r) i j ltac:(lia) ltac:(lia)).
    by destruct (decide (agree _ _ _)), (decide (i = j)); try tauto.
  - rewrite decide_False by lia. done.
Qed.

Lemma rtag_new k r t w (f : bool → bool) i :
  (i <? span (hn r)) = true → 0 <= i → 
  (∀ j, 0 <= j → ttag k (hn r) t j
     = if decide (agree (hn r) i j) then f (ttag k (hn r) (rnode r) j) else ttag k (hn r) (rnode r) j) →
  ∀ j, 0 <= j → rtag k (mk_root (height r) w t) j = if decide (i = j) then f (rtag k r j) else rtag k r j.
Proof.
  intros Hfit Hi Ht j Hj. unfold rtag. cbn [height rnode].
  destruct (Z.ltb_spec j (span (hn r))) as [Hlt|Hge].
  - rewrite Ht by done. pose proof (agree_eq (hn r) i j ltac:(lia) ltac:(lia)). cbn [andb].
    by destruct (decide (agree _ _ _)), (decide (i = j)); try tauto.
  - rewrite decide_False by lia. done.
Qed.

(** ** The operations *)

(** The result of an insertion, for the contents. *)
Definition insert_res (r : radix_tree_root) (i v : Z) (e0 : mem) (e : Z) (r' : radix_tree_root) : Prop :=
  (∀ k j, 0 <= j → rtag k r' j = rtag k r j) ∧
  ((e = 0 ∧ rget r i = None ∧
    ∀ j, 0 <= j → rget r' j = if decide (i = j) then Some v else rget r j) ∨
   (e = - EEXIST ∧ rget r i ≠ None ∧ ∀ j, 0 <= j → rget r' j = rget r j) ∨
   (e = - ENOMEM ∧ false ∈ kmem e0 ∧ rget r i = None ∧ ∀ j, 0 <= j → rget r' j = rget r j)).

(** The walk down from a root that is high enough. *)
Lemma insert_down r i v e0 :
  root_ok r → index_ok i → v ≠ 0 → 0 < height r → (i <? span (hn r)) = true →
  wp (insert_at (gfp_wait r) (hn r) (rnode r) i v)
    (λ x e1, let r' := mk_root (height r) (gfp_wait r) x.2 in
       mem_le e1 e0 ∧ root_ok r' ∧ insert_res r i v e0 x.1 r' ∧
       (rnode r ≠ TNull ∨ can_alloc (gfp_wait r) e0 = true → settled r')) (λ _ _, False) e0.
Proof.
  intros Hok [Hi Hmax] Hv Hh Hfit. pose proof (ok_height r Hok).
  eapply wp_mono; [by apply insert_at_spec; [apply ok_wf| |]|].
  intros [e t] e1 (Hle & (Hw & _ & Htag & Hnn & Hres) & Hca). cbn [fst snd] in *.
  assert (rget r i = tget (hn r) (rnode r) i) as Hri by (unfold rget; by rewrite Hfit).
  assert (insert_res r i v e0 e (mk_root (height r) (gfp_wait r) t)) as Hir.
  { split; [intros k j Hj; unfold rtag; cbn [height rnode]; by rewrite Htag|]. rewrite Hri.
    destruct Hres as [(-> & _ & Hnone & Hg)|[(-> & -> & Hsome)|(-> & Hf & Hnone & Hg)]].
    - left. split_and!; [done..|]. by apply (rget_new r t (gfp_wait r) (λ _, Some v)).
    - right; left. by split_and!.
    - right; right. split_and!; try done. intros j Hj. unfold rget. cbn [height rnode].
      by rewrite Hg. }
  split_and!; [done|split; [done|done|cbn [height]; lia|]|done|].
  - intros j Hj. pose proof (ok_high r Hok j Hj) as Hno.
    destruct Hir as [_ [(_ & _ & Hg)|[(_ & _ & Hg)|(_ & _ & _ & Hg)]]]; rewrite Hg by lia; [|done..].
    by rewrite decide_False by lia.
  - intros Hor Hnull. cbn [rnode] in Hnull. rewrite Hnull in Hnn, Hca. cbn in Hnn, Hca.
    destruct Hor as [Hn|Hc]; [by destruct (rnode r); [|specialize (Hnn eq_refl)..]|].
    specialize (Hca Hc ltac:(lia)). done.
Qed.

Lemma insert_res_same r r1 i v e0 e r' :
  index_ok i → same r r1 → insert_res r1 i v e0 e r' → insert_res r i v e0 e r'.
Proof.
  intros Hi [Hg Ht] [Htag Hres]. split; [intros; by rewrite Htag, Ht|]. rewrite Hg in Hres by apply Hi.
  destruct Hres as [(-> & Hn & Hall)|[(-> & Hn & Hall)|(-> & Hf & Hn & Hall)]].
  - left. split_and!; [done..|]. intros j Hj. by rewrite Hall, Hg.
  - right; left. split_and!; [done..|]. intros j Hj. by rewrite Hall, Hg.
  - right; right. split_and!; [done..|]. intros j Hj. by rewrite Hall, Hg.
Qed.

Lemma insert_res_le r i v e0 e1 e r' :
  mem_le e1 e0 → insert_res r i v e1 e r' → insert_res r i v e0 e r'.
Proof.
  intros Hle [Htag Hres]. split; [done|].
  destruct Hres as [?|[?|(-> & Hf & ?)]]; [by left|by right; left|right; right].
  split; [done|]. by split; [apply Hle|].
Qed.

(** The test whether the tree is high enough. *)
Lemma high_spec r i :
  root_ok r → settled r → index_ok i →
  ∃ high : bool, (if high then grows r i else 0 < height r ∧ (i <? span (hn r)) = true) ∧
    ∀ e, (if (i =? 0) && is_null (rnode r) then mret true
          else m ← pure (radix_tree_maxindex (height r)); mret (M := SM mem) (m <? i)) e = (Ok high, e).
Proof.
  intros Hok Hset Hi. pose proof (ok_height r Hok) as Hh.
  destruct ((i =? 0) && is_null (rnode r)) eqn:E0.
  - exists true. split; [|done]. apply andb_true_iff in E0 as [_ En].
    assert (rnode r = TNull) as Hn by (by destruct (rnode r)). split; [by rewrite Hset|by right].
  - destruct (too_high (height r) i) as (m & -> & E); [done..|]. exists (m <? i). split; [|done].
    rewrite E. destruct (i <? span (hn r)) eqn:Ef; cbn [negb].
    + split; [|done]. destruct (decide (height r = 0)) as [Hz|]; [|lia].
      rewrite Hz in Ef. apply Z.ltb_lt in Ef. change (span (Z.to_nat 0)) with 1 in Ef.
      rewrite (ok_flat r Hok Hz) in E0. unfold index_ok in Hi. cbn in E0. lia.
    + split; [|by left]. destruct (decide (height r = 6)) as [E6|]; [|lia].
      rewrite E6 in Ef. by rewrite span_6 in Ef.
Qed.

Lemma radix_tree_insert_spec r i v e0 :
  root_ok r → settled r → index_ok i → v ≠ 0 →
  wp (radix_tree_insert r i v)
    (λ x e1, mem_le e1 e0 ∧ root_ok x.2 ∧ insert_res r i v e0 x.1 x.2 ∧
       (rnode r ≠ TNull ∨ can_alloc (gfp_wait r) e0 = true → settled x.2)) (λ _ _, False) e0.
Proof.
  intros Hok Hset Hi Hv. unfold radix_tree_insert.
  destruct (high_spec r i Hok Hset Hi) as (high & Hhigh & Ehigh).
  apply wp_bind. unfold wp at 1. rewrite Ehigh. apply wp_bind. destruct high.
  - eapply wp_mono; [by apply extend_spec|].
    intros [e r1] e1 (Hok1 & Hs1 & Hw1 & Hiff & Hres & Hle). cbn [fst snd] in *.
    destruct Hres as [(-> & Hh1 & Hfit & Hmem)|(-> & Hn & Hf)]; cbn [Z.eqb negb].
    + apply wp_bind. eapply wp_mono; [by apply insert_down|].
      intros [e t] e2 (Hle2 & Hok2 & Hres2 & Hset2). cbn [fst snd] in *. apply wp_ret. cbn [fst snd].
      split_and!; [by etransitivity|done| |].
      * by eapply insert_res_le, insert_res_same.
      * intros Hor. apply Hset2. rewrite Hw1. destruct (decide (rnode r = TNull)) as [E|E].
        -- rewrite (Hmem E). destruct Hor; [done|by right].
        -- left. tauto.
    + apply wp_ret. cbn [fst snd]. split_and!; [done|done| |].
      * split; [apply Hs1|]. right; right. split_and!; [done..| |apply Hs1].
        destruct Hhigh as [_ [Hnf|]]; [|done]. unfold rget. by rewrite Hnf.
      * intros _ E. tauto.
  - destruct Hhigh as [Hpos Hfit]. apply wp_ret. cbn [fst snd Z.eqb negb].
    apply wp_bind. eapply wp_mono; [by apply insert_down|].
    intros [e t] e2 (Hle2 & Hok2 & Hres2 & Hset2). cbn [fst snd] in *. by apply wp_ret.
Qed.

(** A root whose tree is changed below its height. *)
Lemma root_ok_put r t w :
  root_ok r → 0 < height r → wf (hn r) t →
  (∀ j, 2 ^ 32 <= j → tget (hn r) t j = None ∨ tget (hn r) t j = tget (hn r) (rnode r) j) →
  root_ok (mk_root (height r) w t).
Proof.
  intros Hok Hh Hw Hg. pose proof (ok_height r Hok). split; [done|done|cbn [height]; lia|].
  intros j Hj. pose proof (ok_high r Hok j Hj) as Hno. unfold rget in *. cbn [height rnode].
  destruct (j <? span (hn r)); [|done]. by destruct (Hg j Hj) as [->| ->].
Qed.

Lemma present_pos r i v : root_ok r → tget (hn r) (rnode r) i = Some v → 0 < height r.
Proof.
  intros Hok Ht. pose proof (ok_height r Hok). destruct (decide (height r = 0)) as [E|]; [|lia].
  by rewrite (ok_flat r Hok E), tget_null in Ht.
Qed.

Lemma radix_tree_lookup_spec r i :
  root_ok r → index_ok i → radix_tree_lookup r i = Ok (default 0 (rget r i)).
Proof.
  intros Hok Hi. unfold radix_tree_lookup, rget.
  destruct (too_high (height r) i) as (m & -> & E); [by apply ok_height|done|]. cbn. rewrite E.
  destruct (i <? span (hn r)); [|done]. cbn [negb].
  destruct (lookup_at_spec (hn r) (rnode r) i) as (t & -> & Ht); [by apply ok_wf|apply Hi|].
  cbn. by rewrite Ht.
Qed.

Lemma radix_tree_tag_set_spec r i k0 v :
  root_ok r → index_ok i → rget r i = Some v →
  ∃ r', radix_tree_tag_set r i k0 = Ok (v, r') ∧ root_ok r' ∧ rnode r' ≠ TNull ∧
    gfp_wait r' = gfp_wait r ∧
    (∀ j, 0 <= j → rget r' j = rget r j) ∧
    (∀ k j, 0 <= j → rtag k r' j = if decide (i = j) then eqb k k0 || rtag k r j else rtag k r j).
Proof.
  intros Hok Hi Hv. unfold radix_tree_tag_set. unfold rget in Hv.
  destruct (too_high (height r) i) as (m & -> & E); [by apply ok_height|done|]. cbn. rewrite E.
  destruct (i <? span (hn r)) eqn:Ef; [|done]. cbn [negb].
  destruct (tag_set_at_spec (hn r) (rnode r) i k0 v) as (t & -> & Hw & Hn & Hg & Hk & _);
    [by apply ok_wf|apply Hi|done|]. cbn. pose proof (present_pos r i v Hok Hv).
  eexists. split; [done|]. split_and!; [| |done| |].
  - apply root_ok_put; [done..|]. intros j Hj. right. apply Hg. lia.
  - intros En. cbn [rnode] in En. by subst t.
  - intros j Hj. unfold rget. cbn [height rnode]. by rewrite Hg.
  - intros k. apply (rtag_new k r t (gfp_wait r) (orb (eqb k k0)) i Ef); [apply Hi|].
    intros j Hj. apply Hk; [done|lia].
Qed.

Lemma absent_untagged k r i : root_ok r → 0 <= i → rget r i = None → rtag k r i = false.
Proof.
  intros Hok Hi Hn. unfold rtag, rget in *. destruct (i <? span (hn r)); [|done].
  apply not_true_iff_false. intros Ht. by eapply ttag_present; [apply ok_wf|..].
Qed.

Lemma radix_tree_tag_clear_spec r i k0 :
  root_ok r → index_ok i →
  ∃ r', radix_tree_tag_clear r i k0 = Ok (default 0 (rget r i), r') ∧ root_ok r' ∧
    (settled r → settled r') ∧ gfp_wait r' = gfp_wait r ∧
    (∀ j, 0 <= j → rget r' j = rget r j) ∧
    (∀ k j, 0 <= j → rtag k r' j = if decide (i = j) then negb (eqb k k0) && rtag k r j else rtag k r j).
Proof.
  intros Hok Hi. unfold radix_tree_tag_clear.
  assert (rget r i = None → ∀ k j, rtag k r j
    = if decide (i = j) then negb (eqb k k0) && rtag k r j else rtag k r j) as Hsame.
  { intros Hn k j. destruct (decide (i = j)) as [->|]; [|done]. rewrite absent_untagged by (done || apply Hi).
    by rewrite andb_false_r. }
  destruct (too_high (height r) i) as (m & -> & E); [by apply ok_height|done|]. cbn. rewrite E.
  destruct (i <? span (hn r)) eqn:Ef; cbn [negb].
  2:{ assert (rget r i = None) as Hn by (unfold rget; by rewrite Ef). rewrite Hn.
      exists r. split_and!; auto. }
  assert (rget r i = tget (hn r) (rnode r) i) as Hri by (unfold rget; by rewrite Ef).
  destruct (tag_clear_at_spec (hn r) (rnode r) i k0) as (x & -> & Hx); [by apply ok_wf|apply Hi|].
  cbn. destruct x as [[[v t] go]|].
  2:{ rewrite <- Hri in Hx. rewrite Hx. exists r. split_and!; auto. }
  destruct Hx as [Hv (Hw & Hn & Hg & Hk & _)]. rewrite Hri, Hv. pose proof (present_pos r i v Hok Hv).
  eexists. split; [done|]. split_and!; [| |done| |].
  - apply root_ok_put; [done..|]. intros j Hj. right. apply Hg. lia.
  - intros _ En. cbn [rnode] in En. by subst t.
  - intros j Hj. unfold rget. cbn [height rnode]. by rewrite Hg.
  - intros k. apply (rtag_new k r t (gfp_wait r) (andb (negb (eqb k k0))) i Ef); [apply Hi|].
    intros j Hj. apply Hk; [done|lia].
Qed.

Lemma radix_tree_delete_spec r i :
  root_ok r → settled r → index_ok i →
  ∃ r', radix_tree_delete r i = Ok (default 0 (rget r i), r') ∧ root_ok r' ∧ settled r' ∧
    gfp_wait r' = gfp_wait r ∧
    (∀ j, 0 <= j → rget r' j = if decide (i = j) then None else rget r j) ∧
    (∀ k j, 0 <= j → rtag k r' j = if decide (i = j) then false else rtag k r j).
Proof.
  intros Hok Hset Hi. unfold radix_tree_delete.
  assert (rget r i = None → ∃ r' : radix_tree_root, Ok (0, r) = Ok (default 0 (rget r i), r') ∧
    root_ok r' ∧ settled r' ∧ gfp_wait r' = gfp_wait r ∧
    (∀ j, 0 <= j → rget r' j = if decide (i = j) then None else rget r j) ∧
    (∀ k j, 0 <= j → rtag k r' j = if decide (i = j) then false else rtag k r j)) as Habs.
  { intros Hn. rewrite Hn. exists r. split_and!; [done..| |].
    - intros j Hj. by destruct (decide (i = j)) as [<-|].
    - intros k j Hj. destruct (decide (i = j)) as [<-|]; [|done]. by apply absent_untagged. }
  destruct (too_high (height r) i) as (m & -> & E); [by apply ok_height|done|]. cbn. rewrite E.
  destruct (i <? span (hn r)) eqn:Ef; cbn [negb].
  2:{ apply Habs. unfold rget. by rewrite Ef. }
  assert (rget r i = tget (hn r) (rnode r) i) as Hri by (unfold rget; by rewrite Ef).
  destruct (delete_at_spec (hn r) (rnode r) i) as (x & -> & Hx); [by apply ok_wf|apply Hi|].
  cbn. destruct x as [[[v t] st]|]; [|by apply Habs; rewrite Hri].
  destruct Hx as [Hv (Hw & _ & Hg & Hk & _)]. pose proof (present_pos r i v Hok Hv) as Hpos.
  set (r1 := mk_root (height r) (gfp_wait r) t).
  assert (root_ok r1) as Hok1.
  { apply root_ok_put; [done..|]. intros j Hj. rewrite Hg by lia. destruct (decide _); auto. }
  assert (∀ j, 0 <= j → rget r1 j = if decide (i = j) then None else rget r j) as Hg1
    by (apply (rget_new r t (gfp_wait r) (λ _, None) i Ef); [apply Hi|done]).
  assert (∀ k j, 0 <= j → rtag k r1 j = if decide (i = j) then false else rtag k r j) as Hk1.
  { intros k. apply (rtag_new k r t (gfp_wait r) (λ _, false) i Ef); [apply Hi|].
    intros j Hj. apply Hk; [done|lia]. }
  rewrite Hri, Hv. eexists. split; [done|]. destruct (is_null t) eqn:En.
  - assert (t = TNull) as -> by (by destruct t).
    pose proof (same_empty r1 (mk_root 0 (gfp_wait r) TNull) eq_refl eq_refl) as [Hs1 Hs2].
    split_and!; [split; cbn [height rnode]; [lia|done|done|intros; by apply empty_get]|done|done| |].
    + intros j Hj. by rewrite Hs1, Hg1.
    + intros k j Hj. by rewrite Hs2, Hk1.
  - split_and!; try done. intros E0. cbn [rnode] in E0. by subst t.
Qed.

(** ** A tag somewhere *)

Lemma ttag_agree k h t i j : 0 <= i → 0 <= j → agree h i j → ttag k h t i = ttag k h t j.
Proof.
  intros Hi Hj. revert t. induction h as [|[|h] IH]; intros t Ha; [done|..];
    apply agree_S in Ha as [Ho Ha]; try done; destruct t; try done.
  - by rewrite !ttag_one, Ho.
  - rewrite !ttag_SS, Ho. by apply IH.
Qed.

(** The index with offset [x] at the top level and [i] below. *)
Lemma index_compose h x i :
  0 <= x < 64 → 0 <= i < span h →
  0 <= x * span h + i < span (S h) ∧ offset_at h (x * span h + i) = x ∧ agree h (x * span h + i) i.
Proof.
  intros Hx Hi. pose proof (span_pos h). rewrite span_S.
  assert (0 <= x * span h + i < span h * 64) as Hr by nia. split; [done|]. split.
  - rewrite offset_low by (by rewrite span_S). rewrite Z.div_add_l, Z.div_small by lia. lia.
  - unfold agree. by rewrite Z.add_comm, Z.mod_add by lia.
Qed.

Lemma tagged_index k h t :
  wf (S h) t → any_tag (tags_of t) k = true → ∃ i, 0 <= i < span (S h) ∧ ttag k (S h) t i = true.
Proof.
  revert t. induction h as [|h IH]; intros t Hw Ha;
    (destruct (wf_S _ _ Hw) as [->|(c & sl & tags & ->)]; [by destruct k|]);
    pose proof Hw as (Hl & Hf & Hc & Hr & Hb)%wf_node; cbn [tags_of] in Ha;
    rewrite any_tag_spec in Ha by done; destruct Ha as (x & Hx & Hg).
  - destruct (index_compose 0 x 0) as (Hi & Ho & _); [done|by split|].
    eexists. split; [exact Hi|]. by rewrite ttag_one, Ho.
  - pose proof (Hb k x Hx) as Hbit. cbn [bit_ok] in Hbit. rewrite Hg in Hbit. symmetry in Hbit.
    destruct (IH _ (get_slot_wf (S h) sl x Hf) Hbit) as (i & Hi & Ht).
    destruct (index_compose (S h) x i Hx Hi) as (Hr' & Ho & Ha).
    eexists. split; [exact Hr'|]. rewrite ttag_SS, Ho. by rewrite (ttag_agree k _ _ _ i) by (done || lia).
Qed.

Lemma rtag_present k r i : root_ok r → 0 <= i → rtag k r i = true → rget r i ≠ None ∧ i < 2 ^ 32.
Proof.
  intros Hok Hi Ht. assert (rget r i ≠ None) as Hn.
  { unfold rtag, rget in *. destruct (i <? span (hn r)); [|done].
    by apply (ttag_present k); [apply ok_wf|..]. }
  split; [done|]. apply Z.nle_gt. intros Hge. by rewrite (ok_high r Hok) in Hn.
Qed.

Lemma radix_tree_tagged_spec r k :
  root_ok r → radix_tree_tagged r k = true ↔ ∃ i, index_ok i ∧ rtag k r i = true.
Proof.
  intros Hok. assert (radix_tree_tagged r k = any_tag (tags_of (rnode r)) k) as ->.
  { unfold radix_tree_tagged. destruct (rnode r); by destruct k. }
  destruct (decide (rnode r = TNull)) as [En|En].
  { rewrite En. split; [by destruct k|]. intros (i & _ & Ht). by rewrite empty_tag in Ht. }
  destruct (hn_S r Hok En) as (h & E & _). pose proof (ok_wf r Hok) as Hw. rewrite E in Hw. split.
  - intros Ha. destruct (tagged_index k h _ Hw Ha) as (i & Hi & Ht).
    assert (rtag k r i = true) as Hrt.
    { unfold rtag. rewrite E, Ht, andb_true_r. lia. }
    exists i. split; [|done]. split; [lia|]. by eapply rtag_present; [| |exact Hrt]; [|lia].
  - intros (i & [Hi _] & Ht). unfold rtag in Ht. rewrite E in Ht.
    apply andb_true_iff in Ht as [_ Ht]. apply not_false_iff_true. intros Hf.
    by rewrite untagged in Ht.
Qed.

End RadixRoot.
