(* ===== verification/RadixGang.v ===== *)
(** * The radix tree: gang lookup

    [__lookup] finds some of the wanted items from an index on; the calls of one
    gang lookup together find them all, in order, up to the number asked for. *)

From stdpp Require Import prelude numbers list gmap.
From Stdlib Require Import ZArith Lia.
From S2P Require Import Prelude Radix RadixFacts RadixOps RadixRoot.

#[local] Set Default Goal Selector "!".
#[local] Open Scope Z_scope.

Module RadixGang.
Import Radix RadixFacts RadixOps RadixRoot.

(** ** The loop *)

Lemma rounds_inv {S R} (body : S → outcome (S + R)) (I : S → Prop) (m : S → Z) (Q : R → Prop) :
  (∀ s, I s → ∃ x, body s = Ok x ∧
     match x with inl s' => I s' ∧ m s' < m s | inr r => Q r end) →
  ∀ n s, I s → ∃ x, rounds n body s = Ok x ∧
     match x with inl s' => I s' ∧ m s' + 2 ^ Z.of_nat n <= m s | inr r => Q r end.
Proof.
  intros Hbody. induction n as [|n IH]; intros s Hs; cbn [rounds].
  - destruct (Hbody s Hs) as ([s'|r] & -> & Hx); eexists; (split; [done|]); [|done].
    destruct Hx. split; [done|]. cbn. lia.
  - destruct (IH s Hs) as ([s'|r] & -> & Hx); cbn; [|by eexists].
    destruct Hx as [Hs' Hm]. destruct (IH s' Hs') as ([s2|r] & -> & Hx2); [|by eexists].
    eexists. split; [done|]. destruct Hx2. split; [done|].
    rewrite Nat2Z.inj_succ, Z.pow_succ_r by lia. lia.
Qed.

Lemma rounds_done {S R} (body : S → outcome (S + R)) (I : S → Prop) (m : S → Z) (Q : R → Prop) n s :
  (∀ s, I s → ∃ x, body s = Ok x ∧
     match x with inl s' => I s' ∧ m s' < m s | inr r => Q r end) →
  (∀ s, I s → 0 <= m s) → I s → m s < 2 ^ Z.of_nat n →
  ∃ r, rounds n body s = Ok (inr r) ∧ Q r.
Proof.
  intros Hbody Hm0 Hs Hm. destruct (rounds_inv body I m Q Hbody n s Hs) as ([s'|r] & E & Hx); [|eauto].
  destruct Hx as [Hs' Hle]. specialize (Hm0 _ Hs'). lia.
Qed.

(** ** Lists of selected items *)

Section select.
Context (f g : Z → option Z).

Lemma omap_seqZ_app a n m :
  0 <= n → 0 <= m → omap f (seqZ a (n + m)) = omap f (seqZ a n) ++ omap f (seqZ (a + n) m).
Proof. intros. rewrite seqZ_app by done. apply omap_app. Qed.

Lemma omap_seqZ_cons a n :
  0 < n → omap f (seqZ a n) = match f a with Some v => [v] | None => [] end ++ omap f (seqZ (a + 1) (n - 1)).
Proof.
  intros Hn. rewrite seqZ_cons by done. cbn. rewrite <- Z.add_1_r, <- Z.sub_1_r.
  by destruct (f a).
Qed.

Lemma omap_seqZ_ext a n :
  (∀ j, a <= j < a + n → f j = g j) → omap f (seqZ a n) = omap g (seqZ a n).
Proof.
  intros H. assert (Forall (λ j, f j = g j) (seqZ a n)) as Hf.
  { apply Forall_forall. intros j Hj%elem_of_seqZ. by apply H. }
  induction Hf as [|j l Hj Hl IH]; [done|]. cbn. by rewrite Hj, IH.
Qed.

Lemma omap_seqZ_none a n : (∀ j, a <= j < a + n → f j = None) → omap f (seqZ a n) = [].
Proof.
  intros H. assert (Forall (λ j, f j = None) (seqZ a n)) as Hf.
  { apply Forall_forall. intros j Hj%elem_of_seqZ. by apply H. }
  induction Hf as [|j l Hj Hl IH]; [done|]. cbn. by rewrite Hj, IH.
Qed.
End select.

(** ** One node *)

(** What is wanted. *)
Definition sel (tag : option bool) (h : nat) (t : tree) (i : Z) : option Z :=
  match tag with
  | None => tget h t i
  | Some k => if ttag k h t i then tget h t i else None
  end.

Definition hits (tag : option bool) (sl : list tree) (tags : Z * Z) (i : Z) : bool :=
  match tag with
  | None => negb (is_null (get_slot sl i))
  | Some k => tag_get tags k i
  end.

Lemma hit_live tag h c sl tags i :
  wf (S h) (TNode c sl tags) → 0 <= i < 64 → hits tag sl tags i = true →
  is_null (get_slot sl i) = false.
Proof.
  intros (_ & _ & _ & _ & Hb)%wf_node Hi Hh. destruct tag as [k|]; [|by apply negb_true_iff].
  cbn in Hh. specialize (Hb k i Hi). rewrite Hh in Hb. destruct h; cbn in Hb; [by apply Hb|].
  destruct (get_slot sl i); [|done..]. by destruct k.
Qed.

Lemma slot_hit_spec tag h c sl tags i :
  wf (S h) (TNode c sl tags) → 0 <= i < 64 → slot_hit tag sl tags i = Ok (hits tag sl tags i).
Proof.
  intros Hw Hi. pose proof (hit_live tag h c sl tags i Hw Hi) as Hl.
  destruct tag as [k|]; [|done]. cbn in *. destruct (tag_get tags k i); [|done]. by rewrite Hl.
Qed.

(** Nothing is wanted below a slot that is no hit. *)
Lemma sel_miss tag h c sl tags i :
  wf (S h) (TNode c sl tags) → 0 <= i → hits tag sl tags (offset_at h i) = false →
  sel tag (S h) (TNode c sl tags) i = None.
Proof.
  intros Hw Hi Hh. pose proof (offset_range h i Hi) as Ho.
  destruct tag as [k|]; cbn [sel hits] in *.
  - apply wf_node in Hw as (_ & Hf & _ & _ & Hb). specialize (Hb k _ Ho). destruct h as [|h].
    + by rewrite ttag_one, Hh.
    + cbn [bit_ok] in Hb. rewrite Hh in Hb. rewrite ttag_SS, untagged; [done|by apply get_slot_wf|done..].
  - apply negb_false_iff in Hh. cbn [tget]. destruct (get_slot sl (offset_at h i)); try done.
    apply tget_null.
Qed.

(** Above the bottom, what is wanted is below. *)
Lemma sel_below tag h c sl tags i :
  sel tag (S (S h)) (TNode c sl tags) i = sel tag (S h) (get_slot sl (offset_at (S h) i)) i.
Proof. done. Qed.

Lemma sel_bottom tag c sl tags i :
  wf 1 (TNode c sl tags) → 0 <= i →
  sel tag 1 (TNode c sl tags) i
  = if hits tag sl tags (offset_at 0 i) then Some (item_of (get_slot sl (offset_at 0 i))) else None.
Proof.
  intros Hw Hi. destruct (hits tag sl tags (offset_at 0 i)) eqn:Hh; [|by apply sel_miss].
  pose proof (hit_live tag _ _ _ _ _ Hw (offset_range 0 i Hi) Hh) as Hn.
  assert (tget 1 (TNode c sl tags) i = Some (item_of (get_slot sl (offset_at 0 i)))) as Hg.
  { apply wf_node in Hw as (_ & Hf & _). pose proof (get_slot_wf 0 sl (offset_at 0 i) Hf) as Hch.
    cbn [tget]. by destruct (wf_O _ Hch) as [E|(v & E & _)]; rewrite E in *. }
  destruct tag as [k|]; cbn [sel hits] in *; [|done]. by rewrite ttag_one, Hh.
Qed.

(** ** The search along the slots of one node *)

(** The end of the block of indices that a node with [S h] levels covers. *)
Definition block_end (h : nat) (i : Z) : Z := (i / span h + 1) * span h.

Lemma wrap32_small i : 0 <= i < 2 ^ 32 → wrap32 i = i.
Proof. intros Hi. unfold wrap32. by apply Z.mod_small. Qed.

Lemma span_divides h : (h <= 5)%nat → ∃ q, 2 ^ 32 = q * span h.
Proof.
  intros Hh. exists (2 ^ (32 - 6 * Z.of_nat h)). rewrite <- span_pow2, <- Z.pow_add_r;
    unfold RADIX_TREE_MAP_SHIFT; [f_equal; lia|lia|lia].
Qed.

Lemma next_slot_spec h i :
  (h <= 5)%nat → index_ok i →
  let n := (i / span h + 1) * span h in
  i < n <= 2 ^ 32 ∧ next_slot h i = wrap32 n ∧ n / span h = i / span h + 1 ∧
  (∀ j, i <= j < n → j / span h = i / span h).
Proof.
  intros Hh [Hi Hlt]. cbn zeta. pose proof (span_pos h) as Hs. destruct (span_divides h Hh) as [q Hq].
  pose proof (Z.div_mod i (span h) ltac:(lia)) as Hd. pose proof (Z.mod_pos_bound i _ Hs) as Hb.
  assert (i / span h < q) by (apply Z.div_lt_upper_bound; lia).
  split_and!; [nia|nia| |by apply Z.div_mul; lia|].
  - unfold next_slot. rewrite span_pow2. f_equal. lia.
  - intros j Hj. apply Z.le_antisymm; [|by apply Z.div_le_mono; lia].
    apply Z.lt_succ_r, Z.div_lt_upper_bound; [done|]. lia.
Qed.

(** [b] is the number of the node's block: its slots are [64 * b ...]. *)
Definition skip_post (hb : Z → bool) (h : nat) (b index : Z) (r : (Z * Z) + Z) : Prop :=
  ∃ n, index <= n <= 2 ^ 32 ∧ n <= (b + 1) * 64 * span h ∧
    (∀ j, index <= j < n → hb (j / span h - b * 64) = false) ∧
    (n = 2 ^ 32 ∧ r = inr 0 ∨
     n < 2 ^ 32 ∧ n = (b + 1) * 64 * span h ∧ r = inl (64, n) ∨
     n < 2 ^ 32 ∧ ∃ i, 0 <= i < 64 ∧ n / span h = b * 64 + i ∧ hb i = true ∧ r = inl (i, n)).

Lemma skip_slots_spec hit hb h fuel i b index :
  (∀ i, 0 <= i < 64 → hit i = Ok (hb i)) → (h <= 5)%nat → index_ok index →
  0 <= i <= 64 → Z.of_nat fuel = 64 - i → index / span h = b * 64 + i →
  (i = 64 → index = (b + 1) * 64 * span h) →
  ∃ r, skip_slots fuel hit h i index = Ok r ∧ skip_post hb h b index r.
Proof.
  intros Hhit Hh. revert i index. induction fuel as [|f IH]; intros i index Hix Hi Hf Hq H64;
    cbn [skip_slots].
  { assert (i = 64) as -> by lia. specialize (H64 eq_refl). eexists. split; [done|].
    exists index. unfold index_ok in Hix. split_and!; [lia|lia|lia|intros; lia|].
    right; left. by split_and!; [lia|..]. }
  rewrite Hhit by lia. cbn. pose proof (span_pos h).
  assert (index < (b + 1) * 64 * span h) as Hend.
  { pose proof (Z.div_mod index (span h) ltac:(lia)). pose proof (Z.mod_pos_bound index (span h) ltac:(lia)).
    nia. }
  destruct (hb i) eqn:Ehb.
  { eexists. split; [done|]. exists index. unfold index_ok in Hix. split_and!; [lia..|intros; lia|].
    right; right. split; [lia|]. exists i. split_and!; [lia..|done|done|done]. }
  destruct (next_slot_spec h index Hh Hix) as (Hn & -> & Hdiv & Hsame).
  set (n := (index / span h + 1) * span h) in *.
  assert (n <= (b + 1) * 64 * span h) as Hnend by (unfold n; rewrite Hq; nia).
  assert (∀ j, index <= j < n → hb (j / span h - b * 64) = false) as Hmiss.
  { intros j Hj. rewrite Hsame, Hq by done. by replace (b * 64 + i - b * 64) with i by lia. }
  unfold index_ok in Hix. destruct (Z.eq_dec n (2 ^ 32)) as [E|E].
  - rewrite E. change (wrap32 (2 ^ 32) =? 0) with true. cbn iota. eexists. split; [done|].
    exists (2 ^ 32). rewrite E in *. split_and!; [lia..|done|]. by left.
  - rewrite wrap32_small by lia. replace (n =? 0) with false by lia.
    destruct (IH (i + 1) n) as (r & -> & n' & H1 & H2 & H3 & H4);
      [unfold index_ok; lia|lia|lia|lia|unfold n; lia|].
    eexists. split; [done|]. exists n'. split_and!; [lia..| |done].
    intros j Hj. destruct (Z_lt_le_dec j n); [apply Hmiss; lia|apply H3; lia].
Qed.

(** ** The bottom *)

Lemma grab_spec hit (hb : Z → bool) sl b fuel j max :
  (∀ i, 0 <= i < 64 → hit i = Ok (hb i)) → 0 <= b → 1 <= max → 0 <= j → Z.of_nat fuel = 64 - j →
  let F x := if hb (x - b * 64) then Some (item_of (get_slot sl (x - b * 64))) else None in
  ∃ n vs, grab fuel hit sl j (wrap32 (b * 64 + j)) max = Ok (vs, wrap32 n) ∧
    b * 64 + j <= n <= (b + 1) * 64 ∧ (j < 64 → b * 64 + j < n) ∧
    vs = omap F (seqZ (b * 64 + j) (n - (b * 64 + j))) ∧ Z.of_nat (length vs) <= max.
Proof.
  intros Hhit Hb Hmax Hj Hf F. revert j max Hmax Hj Hf.
  induction fuel as [|f IH]; intros j max Hmax Hj Hf; cbn [grab].
  { exists (b * 64 + j), []. rewrite Z.sub_diag. split_and!; try done; cbn; lia. }
  rewrite Hhit by lia. cbn.
  assert (wrap32 (wrap32 (b * 64 + j) + 1) = wrap32 (b * 64 + (j + 1))) as ->.
  { unfold wrap32. rewrite Z.add_mod_idemp_l by lia. f_equal. lia. }
  assert (F (b * 64 + j) = if hb j then Some (item_of (get_slot sl j)) else None) as HF.
  { unfold F. by replace (b * 64 + j - b * 64) with j by lia. }
  assert (∀ n, b * 64 + j < n → omap F (seqZ (b * 64 + j) (n - (b * 64 + j)))
    = match F (b * 64 + j) with Some v => [v] | None => [] end
      ++ omap F (seqZ (b * 64 + (j + 1)) (n - (b * 64 + (j + 1))))) as Hcons.
  { intros n Hn. rewrite omap_seqZ_cons by lia. do 3 f_equal; lia. }
  destruct (hb j) eqn:Eh.
  - destruct (Z.eqb_spec max 1) as [->|Hne].
    + exists (b * 64 + (j + 1)), [item_of (get_slot sl j)]. split_and!; [done|lia..| |cbn; lia].
      rewrite Hcons, HF by lia. by rewrite Z.sub_diag.
    + destruct (IH (j + 1) (max - 1)) as (n & vs & -> & Hn & _ & Hvs & Hlen); [lia..|].
      exists n, (item_of (get_slot sl j) :: vs). split_and!; [done|lia..| |cbn [length]; lia].
      rewrite Hcons, HF by lia. by rewrite Hvs.
  - destruct (IH (j + 1) max) as (n & vs & -> & Hn & _ & Hvs & Hlen); [lia..|].
    exists n, vs. split_and!; [done|lia..| |done]. rewrite Hcons, HF by lia. done.
Qed.

(** ** One search *)

Lemma block_facts h i b : index_ok i → b = i / span (S h) →
  0 <= b ∧ i / span h = b * 64 + offset_at h i ∧ block_end (S h) i = (b + 1) * 64 * span h.
Proof.
  intros [Hi _] ->. pose proof (span_pos h). rewrite span_S.
  assert (i / (span h * 64) = i / span h / 64) as E by (by rewrite Z.div_div by lia).
  split_and!.
  - apply Z.div_pos; lia.
  - rewrite offset_at_div, E by done. pose proof (Z.div_mod (i / span h) 64). lia.
  - unfold block_end. rewrite span_S. lia.
Qed.

Lemma offset_of h j b : 0 <= j → 0 <= j / span h - b * 64 < 64 → offset_at h j = j / span h - b * 64.
Proof.
  intros Hj Hr. rewrite offset_at_div by done. symmetry. apply (Z.mod_unique _ _ b); lia.
Qed.

(** Slot numbers of a node's indices. *)
Lemma slot_range h b j i :
  0 <= i → b * 64 <= i / span h → i <= j < (b + 1) * 64 * span h → 0 <= j / span h - b * 64 < 64.
Proof.
  intros Hi Hb Hj. pose proof (span_pos h). split.
  - pose proof (Z.div_le_mono i j (span h)). lia.
  - assert (j / span h < (b + 1) * 64) by (apply Z.div_lt_upper_bound; lia). lia.
Qed.

Definition lookup_post (tag : option bool) (h : nat) (t : tree) (index max : Z)
    (r : list Z * Z) : Prop :=
  ∃ n, index < n <= 2 ^ 32 ∧ n <= block_end h index ∧ r.2 = wrap32 n ∧
    r.1 = omap (sel tag h t) (seqZ index (n - index)) ∧ Z.of_nat (length r.1) <= max.

(** The slots passed over hold nothing that is wanted. *)
Lemma skip_node tag h c sl tags index :
  (h <= 5)%nat → wf (S h) (TNode c sl tags) → index_ok index →
  ∃ r n, skip_slots (Z.to_nat (RADIX_TREE_MAP_SIZE - offset_at h index)) (slot_hit tag sl tags) h
           (offset_at h index) index = Ok r ∧
    index <= n <= 2 ^ 32 ∧ n <= block_end (S h) index ∧
    (∀ j, index <= j < n → sel tag (S h) (TNode c sl tags) j = None) ∧
    (index < n ∧ n = 2 ^ 32 ∧ r = inr 0 ∨
     index < n < 2 ^ 32 ∧ r = inl (64, n) ∨
     n < 2 ^ 32 ∧ n < block_end (S h) index ∧ n / span (S h) = index / span (S h) ∧
     hits tag sl tags (offset_at h n) = true ∧ r = inl (offset_at h n, n)).
Proof.
  intros Hh Hw Hix. destruct (block_facts h index _ Hix eq_refl) as (Hb & Hq & He).
  set (b := index / span (S h)) in *. pose proof (offset_range h index (proj1 Hix)) as Ho.
  pose proof (span_pos h) as Hs.
  destruct (skip_slots_spec (slot_hit tag sl tags) (hits tag sl tags) h
    (Z.to_nat (64 - offset_at h index)) (offset_at h index) b index)
    as (r & Er & n & Hn & Hne & Hmiss & Hr);
    [intros; by eapply slot_hit_spec|done|done|lia|lia|done|lia|].
  assert (index < (b + 1) * 64 * span h) as Hlt.
  { rewrite <- He. unfold block_end. pose proof (Z.mod_pos_bound index _ (span_pos (S h))).
    pose proof (Z.div_mod index (span (S h)) ltac:(lia)). lia. }
  unfold index_ok in Hix. exists r, n. split; [done|]. split; [done|]. split; [by rewrite He|]. split.
  - intros j Hj. apply sel_miss; [done|lia|]. rewrite (offset_of h j b); [by apply Hmiss|lia|].
    apply (slot_range h b j index); lia.
  - destruct Hr as [[-> ->]|[(Hl & -> & ->)|(Hl & i & Hi & Hdiv & Hhit & ->)]].
    + left. by split_and!; [lia|..].
    + right; left. by split_and!; [lia..|].
    + right; right. assert (offset_at h n = i) as Hoff by (rewrite (offset_of h n b); lia).
      pose proof (Z.div_mod n (span h) ltac:(lia)). pose proof (Z.mod_pos_bound n _ Hs).
      rewrite Hoff, He. split_and!; [done|nia| |done|done]. rewrite span_S.
      rewrite <- Z.div_div by lia. rewrite Hdiv, (Z.div_add_l b 64 i), (Z.div_small i) by lia. lia.
Qed.

Lemma lookup_nothing tag h t index n max r :
  index < n <= 2 ^ 32 → n <= block_end h index → 1 <= max → r = ([], wrap32 n) →
  (∀ j, index <= j < n → sel tag h t j = None) → lookup_post tag h t index max r.
Proof.
  intros Hn He Hmax -> Hnone. exists n. split_and!; try done; try lia; [|cbn; lia].
  rewrite omap_seqZ_none; [done|]. intros j Hj. apply Hnone. lia.
Qed.

(** What is found from [n] on, after nothing before it. *)
Lemma lookup_extend tag h t index n max r :
  0 <= index <= n → n / span h = index / span h →
  (∀ j, index <= j < n → sel tag h t j = None) →
  lookup_post tag h t n max r → lookup_post tag h t index max r.
Proof.
  intros Hn Hd Hnone (n' & Hn' & He & Hr2 & Hr1 & Hlen).
  exists n'. split_and!; try done; try lia; [by unfold block_end in *; rewrite <- Hd|].
  rewrite Hr1. replace (n' - index) with ((n - index) + (n' - n)) by lia.
  rewrite omap_seqZ_app, (omap_seqZ_none _ index) by (lia || (intros; apply Hnone; lia)).
  cbn [app]. by replace (index + (n - index)) with n by lia.
Qed.

(** What follows a hit: the items at the bottom, the node below elsewhere. *)
Definition descend (tag : option bool) (h : nat) (sl : list tree) (tags : Z * Z) (i index max : Z)
    : outcome (list Z * Z) :=
  match h with
  | O =>
    let j := Z.land index RADIX_TREE_MAP_MASK in
    grab (Z.to_nat (RADIX_TREE_MAP_SIZE - j)) (slot_hit tag sl tags) sl j index max
  | S _ => __lookup tag h (get_slot sl i) index max
  end.

Lemma lookup_unfold tag h c sl tags index max :
  __lookup tag (S h) (TNode c sl tags) index max
  = (r ← skip_slots (Z.to_nat (RADIX_TREE_MAP_SIZE - offset_at h index)) (slot_hit tag sl tags) h
          (offset_at h index) index;
     match r with
     | inr index => Ok ([], index)
     | inl (i, index) =>
       if i =? RADIX_TREE_MAP_SIZE then Ok ([], index) else descend tag h sl tags i index max
     end).
Proof. reflexivity. Qed.

Lemma lookup_step tag h c sl tags index max :
  (h <= 5)%nat → wf (S h) (TNode c sl tags) → index_ok index → 1 <= max →
  (∀ n, index_ok n → hits tag sl tags (offset_at h n) = true →
     ∃ r, descend tag h sl tags (offset_at h n) n max = Ok r ∧
          lookup_post tag (S h) (TNode c sl tags) n max r) →
  ∃ r, __lookup tag (S h) (TNode c sl tags) index max = Ok r ∧
       lookup_post tag (S h) (TNode c sl tags) index max r.
Proof.
  intros Hh Hw Hix Hmax Hdesc. rewrite lookup_unfold.
  destruct (skip_node tag _ c sl tags index Hh Hw Hix) as (r & n & -> & Hn & He & Hnone & Hr).
  unfold index_ok in Hix, Hdesc. cbn [mbind outcome_bind].
  destruct Hr as [(Hlt & -> & ->)|[(Hlt & ->)|(Hlt & Hin & Hd & Hhit & ->)]].
  - eexists. split; [done|]. by eapply lookup_nothing.
  - eexists. split; [done|]. eapply (lookup_nothing _ _ _ _ n); try done; [lia|].
    by rewrite wrap32_small by lia.
  - pose proof (offset_range h n ltac:(lia)) as Ho. unfold RADIX_TREE_MAP_SIZE.
    replace (offset_at h n =? 64) with false by lia.
    destruct (Hdesc n ltac:(lia) Hhit) as (r & -> & Hr). eexists. split; [done|].
    by apply (lookup_extend _ _ _ _ n); [lia|..].
Qed.

(** The items of a node at the bottom. *)
Lemma descend_bottom tag c sl tags i n max :
  wf 1 (TNode c sl tags) → index_ok n → 1 <= max →
  ∃ r, descend tag 0 sl tags i n max = Ok r ∧ lookup_post tag 1 (TNode c sl tags) n max r.
Proof.
  intros Hw Hn Hmax. destruct (block_facts 0 n _ Hn eq_refl) as (Hb & Hq & He).
  set (b := n / span 1) in *. change (span 0) with 1 in *. rewrite Z.div_1_r in Hq.
  pose proof (offset_range 0 n (proj1 Hn)) as Ho. unfold index_ok in Hn.
  assert (Z.land n RADIX_TREE_MAP_MASK = offset_at 0 n) as El by (unfold offset_at; by rewrite Z.shiftr_0_r).
  assert ((b + 1) * 64 <= 2 ^ 32) as Hend.
  { assert (b < 2 ^ 26) by (apply Z.div_lt_upper_bound; [done|]; change (span 1) with 64; lia). lia. }
  destruct (grab_spec (slot_hit tag sl tags) (hits tag sl tags) sl b
    (Z.to_nat (64 - offset_at 0 n)) (offset_at 0 n) max) as (n' & vs & Eg & Hn' & Hlt & Hvs & Hlen);
    [intros; by eapply slot_hit_spec|done|done|lia|lia|].
  rewrite <- Hq, wrap32_small in Eg by lia. rewrite <- Hq in *.
  cbn [descend]. rewrite El. unfold RADIX_TREE_MAP_SIZE. rewrite Eg. eexists. split; [done|].
  exists n'. split_and!; try done; try lia. cbn [fst]. rewrite Hvs. apply omap_seqZ_ext.
  intros j Hj. rewrite sel_bottom by (done || lia).
  by rewrite (offset_of 0 j b) by (change (span 0) with 1; rewrite ?Z.div_1_r; lia);
    change (span 0) with 1; rewrite Z.div_1_r.
Qed.

(** The node below a slot of a node above the bottom. *)
Lemma post_below tag h c sl tags n max r :
  index_ok n → lookup_post tag (S h) (get_slot sl (offset_at (S h) n)) n max r →
  lookup_post tag (S (S h)) (TNode c sl tags) n max r.
Proof.
  intros Hn (n' & Hn' & He & Hr2 & Hr1 & Hlen). pose proof (span_pos (S h)) as Hs.
  destruct (block_facts (S h) n _ Hn eq_refl) as (Hb & Hq & He2).
  pose proof (offset_range (S h) n (proj1 Hn)) as Ho. unfold index_ok in Hn.
  exists n'. split_and!; try done; try lia.
  - rewrite He2. unfold block_end in He. rewrite Hq in He. nia.
  - rewrite Hr1. apply omap_seqZ_ext. intros j Hj. rewrite sel_below. f_equal. f_equal.
    assert (j / span (S h) = n / span (S h)) as Hjn.
    { unfold block_end in He. apply Z.le_antisymm; [|apply Z.div_le_mono; lia].
      apply Z.lt_succ_r, Z.div_lt_upper_bound; lia. }
    by rewrite !offset_at_div, Hjn by lia.
Qed.

Lemma lookup_spec tag h c sl tags index max :
  (h <= 5)%nat → wf (S h) (TNode c sl tags) → index_ok index → 1 <= max →
  ∃ r, __lookup tag (S h) (TNode c sl tags) index max = Ok r ∧
       lookup_post tag (S h) (TNode c sl tags) index max r.
Proof.
  intros Hh Hw Hix Hmax. revert c sl tags index Hw Hix.
  induction h as [|h IH]; intros c sl tags index Hw Hix; apply lookup_step; try done;
    intros n Hn Hhit; [by apply descend_bottom|].
  pose proof (offset_range (S h) n (proj1 Hn)) as Ho.
  pose proof (hit_live tag _ _ _ _ _ Hw Ho Hhit) as Hlive.
  apply wf_node in Hw as (_ & Hf & _). pose proof (get_slot_wf _ sl (offset_at (S h) n) Hf) as Hch.
  cbn [descend]. destruct (wf_S _ _ Hch) as [E|(c' & sl' & tags' & E)]; [by rewrite E in Hlive|].
  rewrite E in Hch. destruct (IH ltac:(lia) _ _ _ n Hch Hn) as (r & Er & Hr). rewrite <- E in Er, Hr.
  exists r. split; [exact Er|]. by apply post_below.
Qed.

(** ** The whole lookup *)

Definition rsel (tag : option bool) (r : radix_tree_root) (i : Z) : option Z :=
  match tag with
  | None => rget r i
  | Some k => if rtag k r i then rget r i else None
  end.

Lemma rsel_sel tag r i : (i <? span (hn r)) = true → rsel tag r i = sel tag (hn r) (rnode r) i.
Proof. intros H. destruct tag; cbn; unfold rtag, rget; by rewrite H. Qed.

Lemma rsel_above tag r i : (i <? span (hn r)) = false → rsel tag r i = None.
Proof. intros H. destruct tag; cbn; unfold rtag, rget; by rewrite H. Qed.

(** What is found after the first rounds, up to [cur]. *)
Definition found_to (tag : option bool) (r : radix_tree_root) (first max : Z) (st : list Z * Z) : Prop :=
  first <= st.2 < 2 ^ 32 ∧ st.1 = omap (rsel tag r) (seqZ first (st.2 - first)) ∧
  Z.of_nat (length st.1) <= max.

Definition wanted (tag : option bool) (r : radix_tree_root) (first max : Z) : list Z :=
  take (Z.to_nat max) (omap (rsel tag r) (seqZ first (2 ^ 32 - first))).

Lemma wanted_split tag r first max n :
  first <= n <= 2 ^ 32 →
  wanted tag r first max
  = take (Z.to_nat max) (omap (rsel tag r) (seqZ first (n - first))
                         ++ omap (rsel tag r) (seqZ n (2 ^ 32 - n))).
Proof.
  intros Hn. unfold wanted. replace (2 ^ 32 - first) with ((n - first) + (2 ^ 32 - n)) by lia.
  rewrite omap_seqZ_app by lia. by replace (first + (n - first)) with n by lia.
Qed.

(** Nothing is wanted from [n] on. *)
Lemma wanted_all tag r first max n vs :
  first <= n <= 2 ^ 32 → vs = omap (rsel tag r) (seqZ first (n - first)) →
  Z.of_nat (length vs) <= max → (∀ j, n <= j < 2 ^ 32 → rsel tag r j = None) →
  vs = wanted tag r first max.
Proof.
  intros Hn -> Hlen Hnone. rewrite (wanted_split _ _ _ _ n), (omap_seqZ_none _ n) by (done || (intros; apply Hnone; lia)).
  rewrite app_nil_r, take_ge by lia. done.
Qed.

Lemma gang_round_spec tag r m first max st :
  root_ok r → rnode r ≠ TNull → radix_tree_maxindex (height r) = Ok m → 0 <= first →
  found_to tag r first max st →
  ∃ x, gang_round tag r m max st = Ok x ∧
    match x with
    | inl st' => found_to tag r first max st' ∧ 2 ^ 32 - st'.2 < 2 ^ 32 - st.2
    | inr vs => vs = wanted tag r first max
    end.
Proof.
  intros Hok Hn Hm Hf0. destruct st as [vs cur]. intros (Hcur & Hvs & Hlen). cbn [fst snd] in *.
  unfold gang_round. destruct (Z.leb_spec max (Z.of_nat (length vs))) as [Hge|Hlt].
  { eexists. split; [done|]. rewrite (wanted_split _ _ _ _ cur), <- Hvs by lia.
    by rewrite take_app_length' by lia. }
  destruct (too_high (height r) cur) as (m' & Hm' & Ehigh);
    [by apply ok_height|unfold index_ok; lia|]. rewrite Hm in Hm'. injection Hm' as <-. rewrite Ehigh.
  destruct (Z.ltb_spec cur (span (hn r))) as [Hfit|Habove]; cbn [negb].
  2:{ eexists. split; [done|]. apply (wanted_all _ _ _ _ cur); [lia|done|lia|].
      intros j Hj. apply rsel_above. lia. }
  destruct (hn_S r Hok Hn) as (h & E & _). pose proof (ok_height r Hok) as Hh.
  pose proof (ok_wf r Hok) as Hw. rewrite E in Hw, Hfit.
  destruct (wf_S _ _ Hw) as [?|(c & sl & tags & Et)]; [done|]. rewrite Et in Hw.
  destruct (lookup_spec tag h c sl tags cur (max - Z.of_nat (length vs)))
    as ([ws next] & El & n & Hn1 & Hn2 & Hnext & Hws & Hlw); [lia|done|unfold index_ok; lia|lia|].
  cbn [fst snd] in *. rewrite E, Et, El. cbn [mbind outcome_bind].
  assert (n <= span (S h)) as Hns.
  { unfold block_end in Hn2. rewrite Z.div_small in Hn2 by lia. lia. }
  assert (ws = omap (rsel tag r) (seqZ cur (n - cur))) as Hws'.
  { rewrite Hws. apply omap_seqZ_ext. intros j Hj. rewrite rsel_sel, E, Et; [done|]. rewrite E. lia. }
  assert (vs ++ ws = omap (rsel tag r) (seqZ first (n - first))) as Happ.
  { rewrite Hvs, Hws'. replace (n - first) with ((cur - first) + (n - cur)) by lia.
    rewrite omap_seqZ_app by lia. by replace (first + (cur - first)) with cur by lia. }
  assert (Z.of_nat (length (vs ++ ws)) <= max) as Hl by (rewrite length_app; lia).
  rewrite Hnext. destruct (Z.eq_dec n (2 ^ 32)) as [->|Hne].
  - change (wrap32 (2 ^ 32) =? 0) with true. eexists. split; [done|].
    apply (wanted_all _ _ _ _ (2 ^ 32)); [lia|done|done|intros; lia].
  - rewrite wrap32_small by lia. replace (n =? 0) with false by lia. eexists. split; [done|].
    cbn [fst snd]. split; [|lia]. split_and!; [cbn; lia..|done|done].
Qed.

Lemma rounds_stop {S R} n (body : S → outcome (S + R)) s x :
  body s = Ok (inr x) → rounds n body s = Ok (inr x).
Proof. intros Hb. induction n as [|n IHn]; cbn [rounds]; [done|by rewrite IHn]. Qed.

Lemma gang_rounds n tag r first max m vs :
  n = 33%nat → radix_tree_maxindex (height r) = Ok m →
  rounds n (gang_round tag r m max) ([], first) = Ok (inr vs) → gang tag r first max = Ok vs.
Proof. intros En Hm Hr. unfold gang. rewrite Hm, <- En. cbn [mbind outcome_bind]. by rewrite Hr. Qed.

Lemma wanted_empty tag r first max : rnode r = TNull → wanted tag r first max = [].
Proof.
  intros En. unfold wanted. rewrite omap_seqZ_none; [by rewrite take_nil|]. intros j _.
  destruct tag; cbn; rewrite empty_get by done; [by destruct (rtag _ _ _)|done].
Qed.

Lemma gang_spec tag r first max :
  root_ok r → settled r → index_ok first → 0 <= max →
  gang tag r first max = Ok (wanted tag r first max).
Proof.
  intros Hok Hset Hf Hmax. unfold index_ok in Hf.
  pose proof (maxindex_table _ (ok_height r Hok)) as Hm.
  set (m := Z.min (span (hn r)) (2 ^ 32) - 1) in Hm. apply (gang_rounds 33 _ _ _ _ m); [done..|].
  destruct (decide (rnode r = TNull)) as [En|En].
  - pose proof (Hset En) as Hz. rewrite wanted_empty by done. apply rounds_stop.
    assert (m = 0) as -> by (unfold m; by rewrite Hz). unfold gang_round.
    change (Z.of_nat (length [])) with 0. destruct (max <=? 0); [done|].
    destruct (Z.ltb_spec 0 first); [done|]. assert (first = 0) as -> by lia. by rewrite Hz.
  - destruct (rounds_done (gang_round tag r m max) (found_to tag r first max)
      (λ st, 2 ^ 32 - st.2) (λ vs, vs = wanted tag r first max) 33 ([], first))
      as (vs & E & ->); [| | | |exact E].
    + intros st Hst. apply gang_round_spec; [done..|lia|done].
    + intros st [Hst _]. lia.
    + split_and!; cbn [fst snd]; [lia..| |cbn; lia]. by rewrite Z.sub_diag.
    + change (2 ^ Z.of_nat 33) with (2 ^ 33). cbn [snd]. lia.
Qed.

End RadixGang.
