(* ===== verification/RadixTheorems.v ===== *)
(** * The radix tree as a map with two sets of tags

    Histories of calls on one root against the specification: a finite map from
    indices to items and a set of tagged indices for each tag.  Then what lack of
    memory does, in general and in the cases that the code does not survive. *)

From stdpp Require Import prelude numbers list gmap.
From Stdlib Require Import ZArith Lia.
From S2P Require Import Prelude Radix RadixFacts RadixOps RadixRoot RadixGang.

#[local] Set Default Goal Selector "!".
#[local] Open Scope Z_scope.

Module RadixTheorems.
Import Radix RadixFacts RadixOps RadixRoot RadixGang.

(** ** Specification *)

Record amap := mk_amap {
  items : gmap Z Z;
  tagset : gset (bool * Z);
}.
Definition aempty : amap := mk_amap ∅ ∅.

Inductive op :=
| Preload
| Insert (i v : Z)
| Lookup (i : Z)
| Delete (i : Z)
| TagSet (i : Z) (k : bool)
| TagClear (i : Z) (k : bool)
| Tagged (k : bool)
| Gang (tag : option bool) (first max : Z).

Inductive response := RVal (z : Z) | RList (l : list Z).

Definition asel (tag : option bool) (a : amap) (i : Z) : option Z :=
  match tag with
  | None => items a !! i
  | Some k => if bool_decide ((k, i) ∈ tagset a) then items a !! i else None
  end.

(** The response and the next state; [oom] when memory has run out. *)
Definition spec (a : amap) (o : op) (oom : bool) : response * amap :=
  match o with
  | Preload => (RVal (if oom then - ENOMEM else 0), a)
  | Insert i v =>
    match items a !! i with
    | Some _ => (RVal (- EEXIST), a)
    | None => if oom then (RVal (- ENOMEM), a)
              else (RVal 0, mk_amap (<[i := v]> (items a)) (tagset a))
    end
  | Lookup i => (RVal (default 0 (items a !! i)), a)
  | Delete i =>
    (RVal (default 0 (items a !! i)),
     mk_amap (delete i (items a)) (tagset a ∖ {[(false, i); (true, i)]}))
  | TagSet i k =>
    (RVal (default 0 (items a !! i)), mk_amap (items a) ({[(k, i)]} ∪ tagset a))
  | TagClear i k =>
    (RVal (default 0 (items a !! i)), mk_amap (items a) (tagset a ∖ {[(k, i)]}))
  | Tagged k =>
    (RVal (if bool_decide (filter (λ p, p.1 = k) (tagset a) = ∅) then 0 else 1), a)
  | Gang tag first max =>
    (RList (take (Z.to_nat max) (omap (asel tag a) (seqZ first (2 ^ 32 - first)))), a)
  end.

(** A history of the specification, with the responses seen. *)
Inductive spec_run (may_fail : bool) : amap → list (op * response) → amap → Prop :=
| spec_nil a : spec_run may_fail a [] a
| spec_cons a o oom x a' l a'' :
    (oom = true → may_fail = true) → spec a o oom = (x, a') → spec_run may_fail a' l a'' →
    spec_run may_fail a ((o, x) :: l) a''.

(** ** The code *)

Definition lift {A} (o : outcome A) (f : A → response * radix_tree_root)
    : SM mem (response * radix_tree_root) := a ← pure o; mret (f a).

Definition exec (r : radix_tree_root) (o : op) : SM mem (response * radix_tree_root) :=
  match o with
  | Preload => z ← radix_tree_preload; mret (RVal z, r)
  | Insert i v => '(z, r') ← radix_tree_insert r i v; mret (RVal z, r')
  | Lookup i => lift (radix_tree_lookup r i) (λ z, (RVal z, r))
  | Delete i => lift (radix_tree_delete r i) (λ x, (RVal x.1, x.2))
  | TagSet i k => lift (radix_tree_tag_set r i k) (λ x, (RVal x.1, x.2))
  | TagClear i k => lift (radix_tree_tag_clear r i k) (λ x, (RVal x.1, x.2))
  | Tagged k => mret (RVal (if radix_tree_tagged r k then 1 else 0), r)
  | Gang None first max => lift (radix_tree_gang_lookup r first max) (λ l, (RList l, r))
  | Gang (Some k) first max => lift (radix_tree_gang_lookup_tag r first max k) (λ l, (RList l, r))
  end.

(** Which calls a history may contain.  The caller owes indices of an unsigned long, items that
    are not NULL, and sets a tag only on an item that is present.  Beside these, which a caller
    can see to, an insertion into an empty tree must find memory for its first node, which no caller
    can see to; what happens otherwise is shown at the end of this file.  Every other
    allocation may fail. *)
Definition ready (r : radix_tree_root) (e : mem) (o : op) : Prop :=
  match o with
  | Preload | Tagged _ => True
  | Insert i v => index_ok i ∧ v ≠ 0 ∧ (rnode r ≠ TNull ∨ can_alloc (gfp_wait r) e = true)
  | Lookup i | Delete i | TagClear i _ => index_ok i
  | TagSet i _ => index_ok i ∧ radix_tree_lookup r i ≠ Ok 0
  | Gang _ first max => index_ok first ∧ 0 <= max
  end.

Inductive history : radix_tree_root → mem → list (op * response) → radix_tree_root → mem → Prop :=
| history_nil r e : history r e [] r e
| history_cons r e o x r' e' l r'' e'' :
    ready r e o → exec r o e = (Ok (x, r'), e') → history r' e' l r'' e'' →
    history r e ((o, x) :: l) r'' e''.

(** ** Simulation *)

Record rep (r : radix_tree_root) (a : amap) : Prop := mk_rep {
  rep_ok : root_ok r;
  rep_settled : settled r;
  rep_get : ∀ i, 0 <= i → rget r i = items a !! i;
  rep_tag : ∀ k i, 0 <= i → rtag k r i = bool_decide ((k, i) ∈ tagset a);
  rep_items : ∀ i, is_Some (items a !! i) → 0 <= i;
  rep_tags : ∀ k i, (k, i) ∈ tagset a → 0 <= i;
}.

Lemma rep_empty w : rep (INIT_RADIX_TREE w) aempty.
Proof.
  split; try done.
  - split; cbn; [lia|done|done|]. intros i _. by apply empty_get.
  - intros i _. by rewrite empty_get.
  - intros k i _. rewrite empty_tag by done. symmetry. by apply bool_decide_eq_false_2.
  - by intros i [v Hv].
Qed.

(** The step of the simulation. *)
Definition simulated (r : radix_tree_root) (a : amap) (o : op) (e : mem) : Prop :=
  wp (exec r o) (λ x e', mem_le e' e ∧
    ∃ oom a', (oom = true → false ∈ kmem e) ∧ spec a o oom = (x.1, a') ∧ rep x.2 a')
    (λ _ _, False) e.

Lemma sim_pure {A} (o : outcome A) v f r a op e a' :
  o = Ok v → exec r op = lift o f → spec a op false = ((f v).1, a') → rep (f v).2 a' →
  simulated r a op e.
Proof.
  intros -> He Hs Hr. unfold simulated. rewrite He. unfold lift. apply wp_bind. unfold wp at 1, pure.
  apply wp_ret. split; [reflexivity|]. exists false, a'. by split_and!.
Qed.

Lemma sim_preload r a e : rep r a → simulated r a Preload e.
Proof.
  intros Hr. unfold simulated. cbn [exec]. unfold radix_tree_preload. apply wp_bind.
  assert (∀ n e, wp (preload_loop n) (λ z e', mem_le e' e ∧ (z = 0 ∨ z = - ENOMEM ∧ false ∈ kmem e))
    (λ _ _, False) e) as Hloop.
  { clear. induction n as [|n IH]; intros e; cbn [preload_loop].
    - apply wp_ret. split; [reflexivity|by left].
    - apply wp_bind, wp_gets. destruct (_ <? _).
      + apply wp_bind. unfold kmem_cache_alloc, wp at 1. destruct (kmem e) as [|[] l] eqn:E.
        * apply wp_bind, wp_modify. eapply wp_mono; [apply IH|]. intros z e' [Hle Hz].
          cbn [kmem set_preload] in *. split; [|by rewrite E in Hz]. intros b Hb. exact (Hle b Hb).
        * apply wp_bind, wp_modify. eapply wp_mono; [apply IH|]. intros z e' [Hle Hz].
          cbn [kmem set_preload set_kmem] in *. unfold mem_le in *. cbn [kmem set_preload set_kmem] in Hle.
          rewrite E. split; [intros b Hb; right; by apply Hle|].
          destruct Hz as [?|[? ?]]; [by left|right; split; [done|by right]].
        * apply wp_ret. unfold mem_le. cbn [kmem set_kmem]. rewrite E. split; [by right|].
          right. split; [done|by left].
      + apply wp_ret. split; [reflexivity|by left]. }
  eapply wp_mono; [apply Hloop|]. intros z e' [Hle Hz]. apply wp_ret. split; [done|].
  destruct Hz as [->|[-> Hf]]; [exists false, a|exists true, a]; by split_and!.
Qed.

Lemma sim_insert r a i v e :
  rep r a → index_ok i → v ≠ 0 → rnode r ≠ TNull ∨ can_alloc (gfp_wait r) e = true →
  simulated r a (Insert i v) e.
Proof.
  intros Hr Hi Hv Hroom. unfold simulated. cbn [exec]. apply wp_bind.
  eapply wp_mono; [by apply radix_tree_insert_spec; [apply Hr..| |]|].
  intros [z r'] e' (Hle & Hok & (Htag & Hres) & Hset). cbn [fst snd] in *. apply wp_ret.
  split; [done|]. specialize (Hset Hroom). cbn [fst snd spec]. rewrite (rep_get _ _ Hr) in Hres by apply Hi.
  assert (∀ a', (∀ j, 0 <= j → rget r' j = items a' !! j) → tagset a' = tagset a →
            (∀ j, is_Some (items a' !! j) → 0 <= j) → rep r' a') as Hrep.
  { intros a' Hg Ht Hn. split; try done.
    - intros k j Hj. by rewrite Htag, Ht, (rep_tag _ _ Hr).
    - rewrite Ht. apply Hr. }
  destruct Hres as [(-> & Hno & Hall)|[(-> & Hno & Hall)|(-> & Hf & Hno & Hall)]].
  - rewrite Hno. exists false. eexists. split_and!; [done..|]. apply Hrep; [|done|].
    + intros j Hj. rewrite Hall by done. cbn [items]. destruct (decide (i = j)) as [->|Hne].
      * by rewrite lookup_insert_eq.
      * rewrite lookup_insert_ne by done. by apply Hr.
    + intros j Hj. cbn [items] in Hj. destruct (decide (i = j)) as [<-|Hne]; [apply Hi|].
      rewrite lookup_insert_ne in Hj by done. by apply (rep_items _ _ Hr).
  - destruct (items a !! i) eqn:E; [|done]. exists false, a. split_and!; [done..|]. apply Hrep; [|done|apply Hr].
    intros j Hj. rewrite Hall by done. by apply Hr.
  - rewrite Hno. exists true, a. split_and!; [done..|]. apply Hrep; [|done|apply Hr].
    intros j Hj. rewrite Hall by done. by apply Hr.
Qed.

(** A root that changed its tags only, or lost items. *)
Lemma rep_change r a r' a' :
  rep r a → root_ok r' → settled r' →
  (∀ j, 0 <= j → rget r' j = items a' !! j) →
  (∀ k j, 0 <= j → rtag k r' j = bool_decide ((k, j) ∈ tagset a')) →
  items a' ⊆ items a → (∀ k j, (k, j) ∈ tagset a' → (k, j) ∈ tagset a ∨ 0 <= j) → rep r' a'.
Proof.
  intros Hr Hok Hset Hg Ht Hsub Htag. split; try done.
  - intros j [v Hv]. apply (rep_items _ _ Hr). exists v. by eapply lookup_weaken.
  - intros k j Hin. destruct (Htag _ _ Hin) as [Hin'|?]; [by eapply (rep_tags _ _ Hr)|done].
Qed.

Ltac tags_solve :=
  rewrite ?elem_of_difference, ?elem_of_union, ?elem_of_singleton; intuition congruence.

Lemma sim_lookup r a i e : rep r a → index_ok i → simulated r a (Lookup i) e.
Proof.
  intros Hr Hi. eapply sim_pure; [apply radix_tree_lookup_spec; [apply Hr|done]|done| |exact Hr].
  cbn. by rewrite (rep_get _ _ Hr) by apply Hi.
Qed.

Lemma sim_delete r a i e : rep r a → index_ok i → simulated r a (Delete i) e.
Proof.
  intros Hr Hi. destruct (radix_tree_delete_spec r i) as (r' & E & Hok & Hset & _ & Hg & Ht);
    [apply Hr|apply Hr|done|].
  eapply sim_pure; [exact E|done|cbn; by rewrite (rep_get _ _ Hr) by apply Hi|]. cbn [fst snd].
  eapply rep_change; [exact Hr|done|done|..]; cbn [items tagset].
  - intros j Hj. rewrite Hg by done. destruct (decide (i = j)) as [<-|].
    + by rewrite lookup_delete_eq.
    + rewrite lookup_delete_ne by done. by apply Hr.
  - intros k j Hj. rewrite Ht by done. destruct (decide (i = j)) as [<-|Hne].
    + symmetry. apply bool_decide_eq_false_2. destruct k; tags_solve.
    + rewrite (rep_tag _ _ Hr) by done. apply bool_decide_ext. destruct k; tags_solve.
  - apply delete_subseteq.
  - intros k j Hin. left. revert Hin. tags_solve.
Qed.

Lemma sim_tag_set r a i k e :
  rep r a → index_ok i → radix_tree_lookup r i ≠ Ok 0 → simulated r a (TagSet i k) e.
Proof.
  intros Hr Hi Hp. rewrite radix_tree_lookup_spec in Hp by (done || apply Hr).
  destruct (rget r i) as [v|] eqn:Ev; [|done].
  destruct (radix_tree_tag_set_spec r i k v) as (r' & E & Hok & Hnn & _ & Hg & Ht); [apply Hr|done|done|].
  assert (settled r') as Hset by (by intros ?). rewrite (rep_get _ _ Hr) in Ev by apply Hi.
  eapply sim_pure; [exact E|done|cbn; by rewrite Ev|]. cbn [fst snd].
  eapply rep_change; [exact Hr|done|done|..]; cbn [items tagset].
  - intros j Hj. rewrite Hg by done. by apply Hr.
  - intros k' j Hj. rewrite Ht, (rep_tag _ _ Hr) by done. destruct (decide (i = j)) as [<-|Hne].
    + destruct (eqb k' k) eqn:Ek; cbn [orb].
      * apply eqb_prop in Ek as ->. symmetry. apply bool_decide_eq_true_2. tags_solve.
      * apply bool_decide_ext. assert (k' ≠ k) by (intros ->; by rewrite eqb_reflx in Ek). tags_solve.
    + apply bool_decide_ext. tags_solve.
  - done.
  - intros k' j Hin. apply elem_of_union in Hin as [Hin|]; [|by left]. right.
    apply elem_of_singleton in Hin. injection Hin as -> ->. apply Hi.
Qed.

Lemma sim_tag_clear r a i k e : rep r a → index_ok i → simulated r a (TagClear i k) e.
Proof.
  intros Hr Hi.
  destruct (radix_tree_tag_clear_spec r i k) as (r' & E & Hok & Hset & _ & Hg & Ht); [apply Hr|done|].
  rewrite (rep_get _ _ Hr) in E by apply Hi.
  eapply sim_pure; [exact E|done|done|]. cbn [fst snd].
  eapply rep_change; [exact Hr|done|apply Hset, Hr|..]; cbn [items tagset].
  - intros j Hj. rewrite Hg by done. by apply Hr.
  - intros k' j Hj. rewrite Ht, (rep_tag _ _ Hr) by done. destruct (decide (i = j)) as [<-|Hne].
    + destruct (eqb k' k) eqn:Ek; cbn [negb andb].
      * apply eqb_prop in Ek as ->. symmetry. apply bool_decide_eq_false_2. tags_solve.
      * apply bool_decide_ext. assert (k' ≠ k) by (intros ->; by rewrite eqb_reflx in Ek). tags_solve.
    + apply bool_decide_ext. tags_solve.
  - done.
  - intros k' j Hin. left. revert Hin. tags_solve.
Qed.

Lemma sim_tagged r a k e : rep r a → simulated r a (Tagged k) e.
Proof.
  intros Hr. unfold simulated. cbn [exec]. apply wp_ret. split; [reflexivity|]. exists false, a.
  split_and!; [done| |done]. cbn [spec fst]. do 2 f_equal.
  pose proof (radix_tree_tagged_spec r k (rep_ok _ _ Hr)) as Ht.
  destruct (bool_decide_reflect (filter (λ p : bool * Z, p.1 = k) (tagset a) = ∅)) as [E|E].
  - replace (radix_tree_tagged r k) with false; [done|]. symmetry. apply not_true_iff_false.
    rewrite Ht. intros (i & [Hi _] & Hti). rewrite (rep_tag _ _ Hr) in Hti by done.
    apply bool_decide_eq_true_1 in Hti. apply (filter_empty_not_elem_of_L _ _ (k, i)) in E; [done..|].
    done.
  - replace (radix_tree_tagged r k) with true; [done|]. symmetry. apply Ht.
    apply set_choose_L in E as [[k' i] Hin]. apply elem_of_filter in Hin as [Hk Hin]. cbn in Hk. subst k'.
    pose proof (rep_tags _ _ Hr _ _ Hin) as Hi.
    assert (rtag k r i = true) as Hti
      by (rewrite (rep_tag _ _ Hr) by done; by apply bool_decide_eq_true_2).
    exists i. split; [|done]. split; [done|]. by eapply (rtag_present k r i); [apply Hr|..].
Qed.

Lemma rsel_asel tag r a i : rep r a → 0 <= i → rsel tag r i = asel tag a i.
Proof.
  intros Hr Hi. destruct tag; cbn; [rewrite (rep_tag _ _ Hr) by done|]; by rewrite (rep_get _ _ Hr).
Qed.

Lemma sim_gang r a tag first max e :
  rep r a → index_ok first → 0 <= max → simulated r a (Gang tag first max) e.
Proof.
  intros Hr Hf Hmax. pose proof (gang_spec tag r first max) as Hg.
  assert (wanted tag r first max
    = take (Z.to_nat max) (omap (asel tag a) (seqZ first (2 ^ 32 - first)))) as Hw.
  { unfold wanted. f_equal. apply omap_seqZ_ext. intros j Hj. apply rsel_asel; [done|].
    destruct Hf. lia. }
  destruct tag; (eapply sim_pure; [apply Hg; [apply Hr..|done|done]|done|cbn; by rewrite <- Hw|done]).
Qed.

Lemma simulation r a o e : rep r a → ready r e o → simulated r a o e.
Proof.
  intros Hr. destruct o; cbn [ready].
  - intros _. by apply sim_preload.
  - intros (? & ? & ?). by apply sim_insert.
  - by apply sim_lookup.
  - by apply sim_delete.
  - intros [? ?]. by apply sim_tag_set.
  - by apply sim_tag_clear.
  - intros _. by apply sim_tagged.
  - intros [? ?]. by apply sim_gang.
Qed.

Lemma history_rep r e l r' e' a b :
  history r e l r' e' → rep r a → (false ∈ kmem e → b = true) →
  mem_le e' e ∧ ∃ a', spec_run b a l a' ∧ rep r' a'.
Proof.
  intros Hh. revert a. induction Hh as [r e|r e o x r1 e1 l r2 e2 Hready Hex Hh IH]; intros a Hr Hb.
  - split; [reflexivity|]. exists a. by split; [constructor|].
  - pose proof (simulation r a o e Hr Hready) as Hs. unfold simulated, wp in Hs. rewrite Hex in Hs.
    destruct Hs as (Hle & oom & a1 & Hoom & Hsp & Hr1). cbn [fst snd] in *.
    destruct (IH a1 Hr1 (λ H, Hb (Hle _ H))) as (Hle' & a2 & Hrun & Hr2).
    split; [by etransitivity|]. exists a2. split; [|done].
    econstructor; [|exact Hsp|exact Hrun]. auto.
Qed.

(** [gfp_mask] does not change. *)
Lemma bind_ok {S A B} (m : SM S A) (k : A → SM S B) s b s' :
  (m ≫= k) s = (Ok b, s') → ∃ a s1, m s = (Ok a, s1) ∧ k a s1 = (Ok b, s').
Proof. unfold mbind, SM_bind. destruct (m s) as [[a|?|] s1]; [eauto|done..]. Qed.

Lemma bind_ok_pure {A B} (m : outcome A) (k : A → outcome B) b :
  m ≫= k = Ok b → ∃ a, m = Ok a ∧ k a = Ok b.
Proof. destruct m; [eauto|done..]. Qed.

Lemma extend_up_wait fuel target tags r e x e' :
  extend_up fuel target tags r e = (Ok x, e') → gfp_wait x.2 = gfp_wait r.
Proof.
  revert r e. induction fuel as [|f IH]; intros r e; [done|]. cbn [extend_up].
  intros (b & e1 & _ & E)%bind_ok. destruct b; [|by injection E as <- _].
  destruct (_ <? _); [by apply IH in E|by injection E as <- _].
Qed.

Lemma insert_wait r i v e x e' :
  radix_tree_insert r i v e = (Ok x, e') → gfp_wait x.2 = gfp_wait r.
Proof.
  intros (high & e1 & _ & ([z r1] & e2 & Ex & E)%bind_ok)%bind_ok.
  assert (gfp_wait r1 = gfp_wait r) as Hw.
  { destruct high; [|by injection Ex as _ <- _]. apply bind_ok in Ex as (h & e3 & _ & Ex).
    destruct (rnode r); [by injection Ex as _ <- _|done|by apply extend_up_wait in Ex]. }
  destruct (negb (z =? 0)); [by injection E as <- _|].
  apply bind_ok in E as ([z1 t] & e3 & _ & E). by injection E as <- _.
Qed.

Lemma exec_wait r o e x r' e' : exec r o e = (Ok (x, r'), e') → gfp_wait r' = gfp_wait r.
Proof.
  destruct o as [|i v|i|i|i k|i k|k|[k|] first max]; cbn [exec]; unfold lift.
  - intros (z & e1 & _ & E)%bind_ok. by injection E as _ <- _.
  - intros ([z r1] & e1 & Ex & E)%bind_ok. injection E as _ <- _. by apply insert_wait in Ex.
  - intros (z & e1 & _ & E)%bind_ok. by injection E as _ <- _.
  - intros (y & e1 & Ey & E)%bind_ok. injection E as _ <- _. injection Ey as Ey _.
    apply bind_ok_pure in Ey as (m & _ & Ey). destruct (m <? i); [by injection Ey as <-|].
    apply bind_ok_pure in Ey as ([[[v t] st]|] & _ & Ey); by injection Ey as <-.
  - intros (y & e1 & Ey & E)%bind_ok. injection E as _ <- _. injection Ey as Ey _.
    apply bind_ok_pure in Ey as (m & _ & Ey). destruct (m <? i); [by injection Ey as <-|].
    apply bind_ok_pure in Ey as ([v t] & _ & Ey). by injection Ey as <-.
  - intros (y & e1 & Ey & E)%bind_ok. injection E as _ <- _. injection Ey as Ey _.
    apply bind_ok_pure in Ey as (m & _ & Ey). destruct (m <? i); [by injection Ey as <-|].
    apply bind_ok_pure in Ey as ([[[v t] st]|] & _ & Ey); by injection Ey as <-.
  - intros [= _ <- _]. done.
  - intros (z & e1 & _ & E)%bind_ok. by injection E as _ <- _.
  - intros (z & e1 & _ & E)%bind_ok. by injection E as _ <- _.
Qed.

Lemma history_wait r e l r' e' : history r e l r' e' → gfp_wait r' = gfp_wait r.
Proof. intros Hh. induction Hh as [|r e o x r1 e1 l r2 e2 _ E%exec_wait _ IH]; congruence. Qed.

(** C23: The radix tree implements a map with two sets of tags, as long as no insertion into an empty
    tree fails to get its first node.  From an empty root, in every history of insertions,
    deletions, lookups, tag operations and gang lookups by callers that keep to the interface, in which an
    insertion into an empty tree always finds memory for its first node (all other
    allocations may fail), every response is the one the map gives, -ENOMEM being possible
    only if some allocation fails; and no further such call runs into a NULL pointer, a
    BUG_ON or the end of a table, or frees a node that is in use.  Without that condition the
    statement is false, as the end of this file shows. *)
Theorem radix_tree_refines wait e0 l r e :
  history (INIT_RADIX_TREE wait) e0 l r e →
  (∃ a, spec_run (bool_decide (false ∈ kmem e0)) aempty l a ∧
        ∀ i, index_ok i → rget r i = items a !! i) ∧
  (∀ o, ready r e o → ∃ x r' e', exec r o e = (Ok (x, r'), e')).
Proof.
  intros Hh.
  destruct (history_rep _ _ _ _ _ aempty (bool_decide (false ∈ kmem e0)) Hh) as (_ & a & Hrun & Hr).
  - apply rep_empty.
  - apply bool_decide_eq_true_2.
  - split.
    + exists a. split; [done|]. intros i [Hi _]. by apply Hr.
    + intros o Ho. pose proof (wp_ok _ _ _ (simulation r a o e Hr Ho)) as ([x r'] & e' & E & _). eauto.
Qed.

(** A history on a root: two items far apart, a tag, two gang lookups, a deletion
    that takes the tag with it. *)
Lemma radix_tree_refines_witness :
  let l := [(Insert 5 100, RVal 0); (Insert 70000 200, RVal 0); (TagSet 70000 true, RVal 200);
            (Gang None 3 8, RList [100; 200]); (Gang (Some true) 0 8, RList [200]);
            (Insert 5 7, RVal (- EEXIST)); (Delete 70000, RVal 200); (Tagged true, RVal 0)] in
  ∃ r e a, history (INIT_RADIX_TREE false) (mk_mem [] 0) l r e ∧ spec_run false aempty l a.
Proof.
  intros l. eassert (history (INIT_RADIX_TREE false) (mk_mem [] 0) l _ _) as Hh.
  { unfold l. eapply history_cons; [split_and!; [done..|by right]|vm_compute; reflexivity|].
    eapply history_cons; [split_and!; [done..|by left]|vm_compute; reflexivity|].
    eapply history_cons; [split; [done|by vm_compute]|vm_compute; reflexivity|].
    do 2 (eapply history_cons; [by split|vm_compute; reflexivity|]).
    eapply history_cons; [split_and!; [done..|by left]|vm_compute; reflexivity|].
    do 2 (eapply history_cons; [done|vm_compute; reflexivity|]).
    apply history_nil. }
  destruct (radix_tree_refines _ _ _ _ _ Hh) as ((a & Hrun & _) & _).
  do 2 eexists. exists a. split; [exact Hh|exact Hrun].
Defined.

(** ** Memory *)

Lemma alloc_pool e :
  0 < preload_nr e →
  ∃ e', radix_tree_node_alloc false e = (Ok true, e') ∧ preload_nr e - 1 <= preload_nr e'.
Proof.
  intros Hp. unfold radix_tree_node_alloc, kmem_cache_alloc. sm_unfold.
  destruct (kmem e) as [|[] l]; cbn; [eexists; split; [done|cbn; lia]..|].
  replace (preload_nr e =? 0) with false by lia. eexists. split; [done|]. cbn. lia.
Qed.

(** Nodes that the walk down takes from the pool at most. *)
Definition walk_need (h : nat) (t : tree) : Z := if is_null t then Z.of_nat h else Z.of_nat h - 1.

Lemma insert_at_pool h t i v e r e' :
  walk_need h t <= preload_nr e → insert_at false h t i v e = (Ok r, e') → r.1 ≠ - ENOMEM.
Proof.
  revert t e r e'. induction h as [|h IH]; intros t e r e' Hp; cbn [insert_at].
  { unfold mret, SM_ret. intros [= <- _]. by destruct (is_null t). }
  unfold walk_need in Hp. unfold mbind at 1, SM_bind at 1.
  assert (∃ e1, (if is_null t then radix_tree_node_alloc false else mret true) e = (Ok true, e1) ∧
    Z.of_nat h <= preload_nr e1) as (e1 & -> & Hp1).
  { revert Hp. destruct (is_null t); intros Hp; [|eexists; split; [done|lia]].
    destruct (alloc_pool e) as (e1 & E & Hp1); [lia|]. eexists. split; [exact E|lia]. }
  cbn [negb]. destruct (if is_null t then new_node else t) as [|w|c sl tags]; [done..|].
  unfold mbind, SM_bind.
  destruct (insert_at false h (get_slot sl (offset_at h i)) i v e1) as [[[z ch]|z|] e2] eqn:E; try done.
  assert (z ≠ - ENOMEM) as Hz.
  { apply (IH _ _ _ _) in E; [done|]. unfold walk_need. destruct (is_null (get_slot _ _)); lia. }
  destruct h; [destruct (_ && _); [done|]|]; intros [= <- _]; done.
Qed.

Lemma extend_up_pool fuel target tags r e x e' :
  gfp_wait r = false → height r < target → target - height r <= preload_nr e →
  extend_up fuel target tags r e = (Ok x, e') →
  x.1 = 0 ∧ gfp_wait x.2 = false ∧ is_null (rnode x.2) = false ∧ height x.2 = target ∧
  preload_nr e - (target - height r) <= preload_nr e'.
Proof.
  revert r e. induction fuel as [|f IH]; intros r e Hw Hlt Hp; [done|]. cbn [extend_up].
  unfold mbind at 1, SM_bind at 1. rewrite Hw.
  destruct (alloc_pool e) as (e1 & -> & Hp1); [lia|].
  match goal with |- context [mk_root (height r + 1) false ?t] => set (r1 := mk_root (height r + 1) false t) end.
  change (height r1) with (height r + 1). destruct (Z.ltb_spec (height r + 1) target) as [Hl|Hl].
  - intros E. apply IH in E as (? & ? & ? & ? & Hq); [|done|change (height r1) with (height r + 1); lia..].
    split_and!; try done. change (height r1) with (height r + 1) in Hq. lia.
  - intros [= <- <-]. split_and!; try done; cbn [height snd r1]; lia.
Qed.

Lemma extend_pool r i e x e' :
  root_ok r → index_ok i → grows r i → gfp_wait r = false → 10 <= preload_nr e →
  radix_tree_extend r i e = (Ok x, e') →
  x.1 = 0 ∧ gfp_wait x.2 = false ∧ walk_need (hn x.2) (rnode x.2) <= preload_nr e'.
Proof.
  intros Hok Hi Hgr Hw Hp. pose proof (ok_height r Hok) as Hh. unfold radix_tree_extend.
  destruct (extend_height_spec 7 (height r + 1) i) as (h & E & Hr & _);
    [unfold grows in Hgr; lia..|done|].
  unfold mbind, SM_bind, pure. change (Z.to_nat RADIX_TREE_MAX_PATH) with 7%nat. rewrite E.
  destruct (rnode r) as [|w|c sl tags] eqn:En; [|done|].
  - intros [= <- <-]. cbn [fst snd gfp_wait rnode height]. split_and!; [done..|]. cbn. lia.
  - intros Eu. apply extend_up_pool in Eu as (Hz & Hw' & Hn & Ht & Hq); [|done|lia..].
    split_and!; [done..|]. unfold walk_need. rewrite Hn, Ht.
    assert (height r ≠ 0) by (intros H0; by rewrite (ok_flat r Hok H0) in En). lia.
Qed.

(** Nodes that an insertion takes from the pool at most: the levels added on top,
    and those below. *)
Lemma insert_pool r i v e z r' e' :
  root_ok r → settled r → index_ok i → gfp_wait r = false → 10 <= preload_nr e →
  radix_tree_insert r i v e = (Ok (z, r'), e') → z ≠ - ENOMEM.
Proof.
  intros Hok Hset Hi Hw Hp. pose proof (ok_height r Hok) as Hh. unfold radix_tree_insert.
  assert (∀ r1 e1 z1 t1 e2, walk_need (hn r1) (rnode r1) <= preload_nr e1 → gfp_wait r1 = false →
    insert_at (gfp_wait r1) (hn r1) (rnode r1) i v e1 = (Ok (z1, t1), e2) → z1 ≠ - ENOMEM) as Hdown.
  { intros r1 e1 z1 t1 e2 Hn Hw1. rewrite Hw1. intros E. by apply insert_at_pool in E. }
  assert (∀ r1 e1, walk_need (hn r1) (rnode r1) <= preload_nr e1 → gfp_wait r1 = false →
    ('(e, t) ← insert_at (gfp_wait r1) (hn r1) (rnode r1) i v;
     mret (M := SM mem) (e, mk_root (height r1) (gfp_wait r1) t)) e1 = (Ok (z, r'), e') →
    z ≠ - ENOMEM) as Htail.
  { intros r1 e1 Hn Hw1. unfold mbind, SM_bind.
    destruct (insert_at _ _ _ i v e1) as [[[z1 t1]|?|] e2] eqn:E; try done. intros [= <- _ _]. eauto. }
  destruct (high_spec r i Hok Hset Hi) as (high & Hhigh & E).
  unfold mbind at 1, SM_bind at 1. rewrite E. unfold mbind at 1, SM_bind at 1. destruct high.
  - destruct (radix_tree_extend r i e) as [[[z1 r1]|?|] e1] eqn:Ee; try done.
    apply extend_pool in Ee as (Hz & Hw1 & Hn1); [|done..]. cbn [fst snd] in *. subst z1.
    by apply Htail.
  - unfold mret at 1, SM_ret at 1. cbn [Z.eqb negb]. apply Htail; [|done].
    unfold walk_need. destruct (is_null (rnode r)); lia.
Qed.

(** A full pool, as [radix_tree_preload] leaves it. *)
Lemma preload_full e e' :
  0 <= preload_nr e → radix_tree_preload e = (Ok 0, e') → RADIX_TREE_MAX_PATH <= preload_nr e'.
Proof.
  unfold radix_tree_preload. change (Z.to_nat RADIX_TREE_MAX_PATH) with 7%nat.
  assert (∀ n e, RADIX_TREE_MAX_PATH - preload_nr e <= Z.of_nat n → preload_loop n e = (Ok 0, e') →
    RADIX_TREE_MAX_PATH <= preload_nr e') as H.
  { clear e. induction n as [|n IH]; intros e Hn; cbn [preload_loop].
    - intros [= <-]. lia.
    - sm_unfold. destruct (Z.ltb_spec (preload_nr e) RADIX_TREE_MAX_PATH) as [Hlt|]; [|intros [= <-]; lia].
      unfold kmem_cache_alloc. destruct (kmem e) as [|[] l]; [| |done]; intros E; apply IH in E;
        cbn [preload_nr set_preload set_kmem] in *; lia. }
  intros He. apply H. change RADIX_TREE_MAX_PATH with 7. lia.
Qed.

(** how many nodes an insertion can need.  Ten in the per-CPU pool are
    always enough: no history leads to an insertion that then fails for lack of
    memory.  radix_tree_preload fills the pool with seven and promises that the next
    insertion "cannot fail"; in a tree with one level the insertion of the highest
    index does. *)
Theorem radix_tree_insert_reserve :
  (∀ e0 l r e i v x r' e',
     history (INIT_RADIX_TREE false) e0 l r e → ready r e (Insert i v) → 10 <= preload_nr e →
     exec r (Insert i v) e = (Ok (x, r'), e') → x ≠ RVal (- ENOMEM)) ∧
  (∀ e e', 0 <= preload_nr e → radix_tree_preload e = (Ok 0, e') → 7 <= preload_nr e') ∧
  (∃ e0 l r e r' e',
     preload_nr e0 = 0 ∧
     history (INIT_RADIX_TREE false) e0 (l ++ [(Preload, RVal 0)]) r e ∧ ready r e (Insert (2 ^ 32 - 1) 2) ∧
     exec r (Insert (2 ^ 32 - 1) 2) e = (Ok (RVal (- ENOMEM), r'), e')).
Proof.
  split_and!; [|exact preload_full|].
  - intros e0 l r e i v x r' e' Hh (Hi & Hv & _) Hp Hex.
    destruct (history_rep _ _ _ _ _ aempty true Hh (rep_empty _)) as (_ & a & _ & Hr); [done|].
    assert (gfp_wait r = false) as Hw by exact (history_wait _ _ _ _ _ Hh).
    revert Hex. cbn [exec]. unfold mbind, SM_bind.
    destruct (radix_tree_insert r i v e) as [[[z r1]|?|] e1] eqn:E; try done.
    apply insert_pool in E; [|apply Hr|apply Hr|done..]. intros [= <- _ _] [= Hz]. done.
  - exists (mk_mem (replicate 8 true ++ replicate 10 false) 0), [(Insert 0 1, RVal 0)].
    do 4 eexists. split; [done|]. split; [|split].
    + eapply history_cons; [|vm_compute; reflexivity|].
      { split_and!; [done..|]. by right. }
      eapply history_cons; [done|vm_compute; reflexivity|]. apply history_nil.
    + split_and!; [done..|]. by left.
    + vm_compute. reflexivity.
Qed.

Lemma alloc_fails wait e :
  can_alloc wait e = false → ∃ e', radix_tree_node_alloc wait e = (Ok false, e').
Proof.
  unfold can_alloc, radix_tree_node_alloc, kmem_cache_alloc. sm_unfold.
  destruct (kmem e) as [|[] l]; [done..|]. destruct wait; cbn; [eauto|].
  destruct (preload_nr e =? 0); [eauto|done].
Qed.

(** An empty tree of any height, and no memory. *)
Lemma insert_no_node h wait i v e :
  0 <= h < 6 → index_ok i → (h = 0 ∨ i = 0) → can_alloc wait e = false →
  ∃ h' e', radix_tree_insert (mk_root h wait TNull) i v e = (Ok (- ENOMEM, mk_root h' wait TNull), e') ∧
    h < h' <= 6 ∧ (i = 0 → h' = h + 1) ∧ (i <? span (Z.to_nat h')) = true.
Proof.
  intros Hh Hi Hhi Hca. destruct (extend_height_spec 7 (h + 1) i) as (h' & E & Hr & Hfit); [lia..|done|].
  destruct (alloc_fails _ _ Hca) as (e' & Ea).
  assert (i = 0 → h' = h + 1) as Hzero.
  { intros ->. destruct (too_high (h + 1) 0) as (m & Hm & Hlt); [lia|done|].
    cbn [extend_height] in E. rewrite Hm in E. cbn in E. rewrite Hlt in E.
    pose proof (span_pos (Z.to_nat (h + 1))). replace (0 <? span _) with true in E by lia.
    by injection E as <-. }
  assert (∀ e, (if (i =? 0) && true then mret true
    else m ← pure (radix_tree_maxindex h); mret (M := SM mem) (m <? i)) e = (Ok true, e)) as Ehigh.
  { intros e1. destruct (Z.eqb_spec i 0) as [->|Hne]; [done|]. assert (h = 0) as -> by lia.
    unfold index_ok in Hi. cbn [andb]. change (radix_tree_maxindex 0) with (Ok 0).
    unfold mbind, SM_bind, pure. by replace (0 <? i) with true by lia. }
  exists h', e'. split; [|by split; [lia|]].
  unfold radix_tree_insert. unfold mbind at 1, SM_bind at 1. cbn [is_null rnode height]. rewrite Ehigh.
  unfold mbind at 1, SM_bind at 1. unfold radix_tree_extend, mbind at 1, SM_bind at 1, pure.
  change (Z.to_nat RADIX_TREE_MAX_PATH) with 7%nat. cbn [height rnode gfp_wait]. rewrite E.
  unfold mret at 1, SM_ret at 1. cbn [Z.eqb negb height gfp_wait rnode].
  assert (Z.to_nat h' = S (Z.to_nat (h' - 1))) as -> by lia. cbn [insert_at is_null].
  unfold mbind, SM_bind. by rewrite Ea.
Qed.

Lemma rounds_bug {S R} n (body : S → outcome (S + R)) s : body s = Bug → rounds n body s = Bug.
Proof. intros Hb. induction n as [|n IHn]; cbn [rounds]; [done|by rewrite IHn]. Qed.

Lemma gang_bug tag r first max m n :
  n = 33%nat → radix_tree_maxindex (height r) = Ok m →
  gang_round tag r m max ([], first) = Bug → gang tag r first max = Bug.
Proof.
  intros En Hm Hb. unfold gang. rewrite Hm, <- En. cbn [mbind outcome_bind]. by rewrite rounds_bug.
Qed.

(** C39: what is left when the first node of a tree cannot be allocated.  The
    insertion returns -ENOMEM, but the height stays raised over a root without
    nodes: a lookup still answers, a gang lookup follows the NULL pointer.  Each further
    failed insertion at index 0 raises the height by one, until
    radix_tree_maxindex reads beyond its table. *)
Theorem radix_tree_failed_first_insert wait i v e :
  index_ok i → can_alloc wait e = false →
  (∃ r e', radix_tree_insert (INIT_RADIX_TREE wait) i v e = (Ok (- ENOMEM, r), e') ∧
     radix_tree_lookup r i = Ok 0 ∧
     ∀ max, 0 < max → radix_tree_gang_lookup r i max = Bug) ∧
  (∀ h, 0 <= h < 6 → ∃ e', radix_tree_insert (mk_root h wait TNull) 0 v e
     = (Ok (- ENOMEM, mk_root (h + 1) wait TNull), e')) ∧
  radix_tree_insert (mk_root 6 wait TNull) 0 v e = (Bug, e).
Proof.
  intros Hi Hca. split_and!.
  - destruct (insert_no_node 0 wait i v e) as (h' & e' & E & Hh & _ & Hfit); [lia|done|by left|done|].
    exists (mk_root h' wait TNull), e'. split; [exact E|].
    destruct (too_high h' i) as (m & Hm & Hlt); [lia|done|]. rewrite Hfit in Hlt. cbn [negb] in Hlt.
    assert (Z.to_nat h' = S (Z.to_nat (h' - 1))) as Hs by lia. split.
    + unfold radix_tree_lookup. cbn [height rnode]. rewrite Hm. cbn [mbind outcome_bind].
      by rewrite Hlt, Hs.
    + intros max Hmax. unfold radix_tree_gang_lookup. apply (gang_bug _ _ _ _ m 33); [done..|].
      unfold gang_round. change (Z.of_nat (length [])) with 0. replace (max <=? 0) with false by lia.
      cbn [height rnode]. by rewrite Hlt, Hs.
  - intros h Hh. destruct (insert_no_node h wait 0 v e) as (h' & e' & E & _ & Hz & _); [done|done|by right|done|].
    exists e'. by rewrite <- (Hz eq_refl).
  - reflexivity.
Qed.

Lemma radix_tree_failed_first_insert_witness :
  ∃ r e', radix_tree_insert (INIT_RADIX_TREE true) 4096 1 (mk_mem [false] 7) = (Ok (- ENOMEM, r), e') ∧
    radix_tree_gang_lookup r 4096 1 = Bug.
Proof.
  destruct (radix_tree_failed_first_insert true 4096 1 (mk_mem [false] 7)) as ((r & e' & E & _ & Hb) & _);
    [done|done|].
  exists r, e'. split; [exact E|by apply Hb].
Defined.

End RadixTheorems.
