(* ===== verification/Msg.v ===== *)
(** * System V message queues (ipc/msg.c, ipc/msgutil.c): definitions

    Queues live in the identifier arrays of Ipc.v.  A queue is locked while a
    function works on it, so it is passed by value and stored back.  A system call
    is one step up to the point where it sleeps, and one step each time the task
    runs again; the [msg_sender] and [msg_receiver] on the stack of a sleeping task
    have the task's name.  The transient NULL in [r_msg], on which a receiver
    spins until the sender has finished, is never seen between two steps, and the two
    tests of [r_msg], before and after taking the lock, are one.

    A queue also is memory with a reference count: [refs] has the count of each
    allocated queue, by address, and a task that held on to a queue while it slept
    may find it removed from the arrays.  [pieces] counts the allocated parts of
    messages.  Using what is not there is [Bug]. *)

From stdpp Require Import prelude numbers list gmap.
From Stdlib Require Import ZArith Lia.
From S2P Require Import Prelude Ipc.

#[local] Set Default Goal Selector "!".
#[local] Open Scope Z_scope.

Module Msg.
Import Ipc.

Definition MSGMNI : Z := 16.
Definition MSGMAX : Z := 8192.
Definition MSGMNB : Z := 16384.
Definition MSGPOOL : Z := MSGMNI * MSGMNB / 1024.
Definition MSGTQL : Z := MSGMNB.
Definition MSGMAP : Z := MSGMNB.
Definition MSGSSZ : Z := 16.
Definition MSGSEG : Z :=
  let seg := MSGPOOL * 1024 / MSGSSZ in if seg <=? 0xffff then seg else 0xffff.
Definition MSG_NOERROR : Z := 0x1000.
Definition MSG_EXCEPT : Z := 0x2000.
Definition IPC_NOWAIT : Z := 0x800.
Definition IPC_CREAT : Z := 0x200.
Definition IPC_EXCL : Z := 0x400.
Definition IPC_PRIVATE : Z := 0.
Definition ENOMSG : Z := 42.
Definition ERESTARTNOHAND : Z := 514.

Definition SEARCH_ANY : Z := 1.
Definition SEARCH_EQUAL : Z := 2.
Definition SEARCH_NOTEQUAL : Z := 3.
Definition SEARCH_LESSEQUAL : Z := 4.

(** ** Data *)

(** A message: the bytes in the first page, and those in the segments. *)
Record msg_msg := mk_msg {
  m_type : Z;
  m_ts : Z;
  m_text : list Z;
  m_next : list (list Z)
}.

Record msg_queue := mk_msq {
  q_ptr : Z;               (* its address *)
  q_perm : kern_ipc_perm;
  q_stime : Z;
  q_rtime : Z;
  q_ctime : Z;
  q_cbytes : Z;
  q_qnum : Z;
  q_qbytes : Z;
  q_lspid : Z;
  q_lrpid : Z;
  q_messages : list msg_msg;
  q_receivers : list Z;
  q_senders : list Z
}.

Definition set_perm p (q : msg_queue) : msg_queue :=
  mk_msq (q_ptr q) p (q_stime q) (q_rtime q) (q_ctime q) (q_cbytes q) (q_qnum q) (q_qbytes q)
    (q_lspid q) (q_lrpid q) (q_messages q) (q_receivers q) (q_senders q).
Definition set_sent pid t (q : msg_queue) : msg_queue :=
  mk_msq (q_ptr q) (q_perm q) t (q_rtime q) (q_ctime q) (q_cbytes q) (q_qnum q) (q_qbytes q)
    pid (q_lrpid q) (q_messages q) (q_receivers q) (q_senders q).
Definition set_received pid t (q : msg_queue) : msg_queue :=
  mk_msq (q_ptr q) (q_perm q) (q_stime q) t (q_ctime q) (q_cbytes q) (q_qnum q) (q_qbytes q)
    (q_lspid q) pid (q_messages q) (q_receivers q) (q_senders q).
Definition set_limit n t (q : msg_queue) : msg_queue :=
  mk_msq (q_ptr q) (q_perm q) (q_stime q) (q_rtime q) t (q_cbytes q) (q_qnum q) n
    (q_lspid q) (q_lrpid q) (q_messages q) (q_receivers q) (q_senders q).
Definition set_messages c n l (q : msg_queue) : msg_queue :=
  mk_msq (q_ptr q) (q_perm q) (q_stime q) (q_rtime q) (q_ctime q) c n (q_qbytes q)
    (q_lspid q) (q_lrpid q) l (q_receivers q) (q_senders q).
Definition set_receivers l (q : msg_queue) : msg_queue :=
  mk_msq (q_ptr q) (q_perm q) (q_stime q) (q_rtime q) (q_ctime q) (q_cbytes q) (q_qnum q) (q_qbytes q)
    (q_lspid q) (q_lrpid q) (q_messages q) l (q_senders q).
Definition set_senders l (q : msg_queue) : msg_queue :=
  mk_msq (q_ptr q) (q_perm q) (q_stime q) (q_rtime q) (q_ctime q) (q_cbytes q) (q_qnum q) (q_qbytes q)
    (q_lspid q) (q_lrpid q) (q_messages q) (q_receivers q) l.

#[export, program] Instance msg_object : IpcObject msg_queue := {
  perm := q_perm;
  with_perm p x := set_perm p x
}.
Next Obligation. done. Qed.

(** What [r_msg] holds: -EAGAIN while waiting, a message, or another error. *)
Inductive r_slot := RWait | RMsg (m : msg_msg) | RErr (e : Z).

(** The arguments of a call, which the task keeps while it sleeps. *)
Record rcv_args := mk_rcv {
  rc_pid : Z;              (* current->pid and current->tgid *)
  rc_tgid : Z;
  rc_cred : cred;
  rc_id : Z;               (* msqid *)
  rc_msgsz : Z;
  rc_msgflg : Z
}.

Record msg_receiver := mk_receiver {
  r_args : rcv_args;
  r_ptr : Z;               (* msq *)
  r_mode : Z;
  r_msgtype : Z;
  r_maxsize : Z;
  r_msg : r_slot
}.

Record snd_args := mk_snd {
  sn_tgid : Z;
  sn_cred : cred;
  sn_id : Z;
  sn_msgsz : Z;
  sn_msgflg : Z
}.

Record msg_sender := mk_sender {
  s_args : snd_args;
  s_ptr : Z;
  s_msg : msg_msg;
  s_linked : bool          (* list.next is not NULL *)
}.

Record msys := mk_msys {
  msg_ids : ipc_ids msg_queue;
  refs : gmap Z Z;
  receivers : gmap Z msg_receiver;
  senders : gmap Z msg_sender;
  asleep : gset Z;         (* tasks in TASK_INTERRUPTIBLE *)
  pieces : Z;
  msg_bytes : Z;
  msg_hdrs : Z
}.

Definition on_ids f (s : msys) : msys :=
  mk_msys (f (msg_ids s)) (refs s) (receivers s) (senders s) (asleep s) (pieces s) (msg_bytes s) (msg_hdrs s).
Definition on_refs f (s : msys) : msys :=
  mk_msys (msg_ids s) (f (refs s)) (receivers s) (senders s) (asleep s) (pieces s) (msg_bytes s) (msg_hdrs s).
Definition on_receivers f (s : msys) : msys :=
  mk_msys (msg_ids s) (refs s) (f (receivers s)) (senders s) (asleep s) (pieces s) (msg_bytes s) (msg_hdrs s).
Definition on_senders f (s : msys) : msys :=
  mk_msys (msg_ids s) (refs s) (receivers s) (f (senders s)) (asleep s) (pieces s) (msg_bytes s) (msg_hdrs s).
Definition on_asleep f (s : msys) : msys :=
  mk_msys (msg_ids s) (refs s) (receivers s) (senders s) (f (asleep s)) (pieces s) (msg_bytes s) (msg_hdrs s).
Definition on_pieces f (s : msys) : msys :=
  mk_msys (msg_ids s) (refs s) (receivers s) (senders s) (asleep s) (f (pieces s)) (msg_bytes s) (msg_hdrs s).
(** [atomic_add] and [atomic_sub] on the two totals. *)
Definition count_bytes (n : Z) (s : msys) : msys :=
  mk_msys (msg_ids s) (refs s) (receivers s) (senders s) (asleep s) (pieces s)
    (sgn32 (msg_bytes s + n)) (msg_hdrs s).
Definition count_hdrs (n : Z) (s : msys) : msys :=
  mk_msys (msg_ids s) (refs s) (receivers s) (senders s) (asleep s) (pieces s)
    (msg_bytes s) (sgn32 (msg_hdrs s + n)).

Definition wake_up_process (t : Z) : SM msys unit := modify (on_asleep (λ a, a ∖ {[t]})).
Definition go_to_sleep (t : Z) : SM msys unit := modify (on_asleep (λ a, {[t]} ∪ a)).

Definition get_receiver (t : Z) : SM msys msg_receiver := λ s,
  match receivers s !! t with Some x => (Ok x, s) | None => (Bug, s) end.
Definition get_sender (t : Z) : SM msys msg_sender := λ s,
  match senders s !! t with Some x => (Ok x, s) | None => (Bug, s) end.
Definition set_r_msg (t : Z) (x : msg_receiver) (v : r_slot) : SM msys unit :=
  modify (on_receivers (insert t (mk_receiver (r_args x) (r_ptr x) (r_mode x) (r_msgtype x) (r_maxsize x) v))).
Definition set_linked (t : Z) (x : msg_sender) (b : bool) : SM msys unit :=
  modify (on_senders (insert t (mk_sender (s_args x) (s_ptr x) (s_msg x) b))).

(** [ipc_rcu_getref] and [ipc_rcu_putref]. *)
Definition ipc_rcu_getref (p : Z) : SM msys unit := λ s,
  match refs s !! p with Some n => (Ok tt, on_refs (insert p (n + 1)) s) | None => (Bug, s) end.
Definition ipc_rcu_putref (p : Z) : SM msys unit := λ s,
  match refs s !! p with
  | Some n => (Ok tt, on_refs (if n - 1 =? 0 then delete p else insert p (n - 1)) s)
  | None => (Bug, s)
  end.

(** [ipc_lock_by_ptr] on queue [p] of identifier [id]: [None] when it has been
    deleted. *)
Definition lock_by_ptr (id p : Z) : SM msys (option msg_queue) := λ s,
  match refs s !! p with
  | None => (Bug, s)
  | Some _ =>
    match entries (msg_ids s) !! Z.to_nat (lid id) with
    | Some (Some q) => (Ok (if q_ptr q =? p then Some q else None), s)
    | _ => (Ok None, s)
    end
  end.

(** [msg_lock] and [msg_checkid]. *)
Definition lock_check (msqid : Z) : SM msys msg_queue :=
  s ← gets id;
  match ipc_lock (msg_ids s) msqid with
  | None => fail EINVAL
  | Some q => if ipc_checkid (q_perm q) msqid then fail EIDRM else mret q
  end.
(** [msg_unlock]: the queue with its changes. *)
Definition unlock_put (msqid : Z) (q : msg_queue) : SM msys unit :=
  modify (on_ids (λ ids, put_obj ids msqid q)).

(** ** Message memory (ipc/msgutil.c) *)

Definition DATALEN_MSG : nat := Z.to_nat (4096 - 24).
Definition DATALEN_SEG : nat := Z.to_nat (4096 - 4).

Definition msg_pieces (m : msg_msg) : Z := 1 + Z.of_nat (length (m_next m)).

Definition free_msg (m : msg_msg) : SM msys unit := modify (on_pieces (λ n, n - msg_pieces m)).

(** [src] is what user memory holds; for each part the outcome of [kmalloc] and of
    [copy_from_user], success where the list ends. *)
Definition outcome_of (env : list (bool * bool)) : bool * bool := default (true, true) (head env).

(** The [while (len > 0)] loop: an error number, and the segments linked so far. *)
Fixpoint load_segs (fuel : nat) (src : list Z) (env : list (bool * bool))
    : SM msys (Z * list (list Z)) :=
  match src, fuel with
  | [], _ => mret (0, [])
  | _, O => bug
  | _, S f =>
    let '(alloc, copy) := outcome_of env in
    if negb alloc then mret (ENOMEM, []) else
    modify (on_pieces (λ n, n + 1));;
    let seg := take DATALEN_SEG src in
    if negb copy then mret (EFAULT, [seg]) else
    '(e, l) ← load_segs f (drop DATALEN_SEG src) (tail env);
    mret (e, seg :: l)
  end.

Definition load_msg (src : list Z) (env : list (bool * bool)) : SM msys msg_msg :=
  let '(alloc, copy) := outcome_of env in
  if negb alloc then fail ENOMEM else
  modify (on_pieces (λ n, n + 1));;
  let text := take DATALEN_MSG src in
  if negb copy then free_msg (mk_msg 0 0 text []);; fail EFAULT else
  '(e, segs) ← load_segs (length src) (drop DATALEN_MSG src) (tail env);
  if negb (e =? 0) then free_msg (mk_msg 0 0 text segs);; fail e
  else mret (mk_msg 0 0 text segs).

(** The bytes copied to user memory; [None] when a copy fails. *)
Fixpoint store_segs (segs : list (list Z)) (len : nat) (copies : list bool) : outcome (option (list Z)) :=
  match len, segs with
  | O, _ => Ok (Some [])
  | _, [] => Bug
  | _, seg :: l =>
    let alen := Nat.min len DATALEN_SEG in
    if negb (default true (head copies)) then Ok None else
    r ← store_segs l (len - alen) (tail copies);
    Ok (option_map (app (take alen seg)) r)
  end.

Definition store_msg (m : msg_msg) (len : nat) (copies : list bool) : outcome (option (list Z)) :=
  let alen := Nat.min len DATALEN_MSG in
  if negb (default true (head copies)) then Ok None else
  r ← store_segs (m_next m) (len - alen) (tail copies);
  Ok (option_map (app (take alen (m_text m))) r).

(** ** Waking *)

(** [ss_wakeup]. *)
Fixpoint ss_wakeup (l : list Z) (kill : bool) : SM msys unit :=
  match l with
  | [] => mret tt
  | t :: l =>
    x ← get_sender t;
    when kill (set_linked t x false);;
    wake_up_process t;;
    ss_wakeup l kill
  end.

Fixpoint expunge (l : list Z) (res : r_slot) : SM msys unit :=
  match l with
  | [] => mret tt
  | t :: l =>
    x ← get_receiver t;
    wake_up_process t;;
    set_r_msg t x res;;
    expunge l res
  end.
Definition expunge_all (q : msg_queue) (res : r_slot) : SM msys unit := expunge (q_receivers q) res.

(** ** Selecting messages and receivers *)

Definition testmsg (m : msg_msg) (type mode : Z) : bool :=
  if mode =? SEARCH_ANY then true
  else if mode =? SEARCH_LESSEQUAL then m_type m <=? type
  else if mode =? SEARCH_EQUAL then m_type m =? type
  else if mode =? SEARCH_NOTEQUAL then negb (m_type m =? type)
  else false.

Definition convert_mode (msgtyp msgflg : Z) : Z * Z :=
  if msgtyp =? 0 then (msgtyp, SEARCH_ANY)
  else if msgtyp <? 0 then (sgn32 (- msgtyp), SEARCH_LESSEQUAL)
  else if negb (Z.land msgflg MSG_EXCEPT =? 0) then (msgtyp, SEARCH_NOTEQUAL)
  else (msgtyp, SEARCH_EQUAL).

(** The position of the message that a receive call takes; [i] is the position of the
    head of [l], [best] what was found before it. *)
Fixpoint find_msg (l : list msg_msg) (msgtyp mode : Z) (i : nat) (best : option nat) : option nat :=
  match l with
  | [] => best
  | m :: l =>
    if testmsg m msgtyp mode then
      if (mode =? SEARCH_LESSEQUAL) && negb (m_type m =? 1)
      then find_msg l (m_type m - 1) mode (S i) (Some i)
      else Some i
    else find_msg l msgtyp mode (S i) best
  end.

(** [pipelined_send] from [l] on: whether the message was taken, and the receivers
    left in the queue. *)
Fixpoint pipelined_loop (l : list Z) (m : msg_msg) (now : Z) (q : msg_queue)
    : SM msys (bool * msg_queue) :=
  match l with
  | [] => mret (false, q)
  | t :: l =>
    x ← get_receiver t;
    if testmsg m (r_msgtype x) (r_mode x) then
      if decide (t ∈ q_receivers q) then
        let q := set_receivers (filter (λ j, j ≠ t) (q_receivers q)) q in
        if r_maxsize x <? m_ts m then
          wake_up_process t;;
          set_r_msg t x (RErr E2BIG);;
          pipelined_loop l m now q
        else
          let q := set_received (rc_pid (r_args x)) now q in
          wake_up_process t;;
          set_r_msg t x (RMsg m);;
          mret (true, q)
      else bug
    else pipelined_loop l m now q
  end.
Definition pipelined_send (q : msg_queue) (m : msg_msg) (now : Z) : SM msys (bool * msg_queue) :=
  pipelined_loop (q_receivers q) m now q.

(** ** The system calls *)

(** A call has returned, or its task sleeps. *)
Inductive call_result (A : Type) := Finished (a : A) | Sleeping.
Arguments Finished {A} _.
Arguments Sleeping {A}.

Section calls.
(** The limits of /proc/sys/kernel. *)
Context (msg_ctlmax msg_ctlmnb msg_ctlmni : Z).

Definition msg_init (alloc : bool) : msys :=
  mk_msys (ipc_init_ids msg_ctlmni alloc) ∅ ∅ ∅ ∅ 0 0 0.

(** [kmem]: the address of the new queue, or [None]. *)
Definition newque (c : cred) (k msgflg : Z) (kmem : option Z) (grow : bool) (now : Z) : SM msys Z :=
  match kmem with
  | None => fail ENOMEM
  | Some p =>
    modify (on_refs (insert p 1));;
    s ← gets id;
    let q := mk_msq p (mk_perm false k 0 0 0 0 (Z.land msgflg S_IRWXUGO) 0)
               0 0 0 0 0 0 0 0 [] [] [] in
    match ipc_addid (msg_ids s) q msg_ctlmni grow c with
    | Ok (None, ids) => modify (on_ids (λ _, ids));; ipc_rcu_putref p;; fail ENOSPC
    | Ok (Some (id, q), ids) =>
      modify (on_ids (λ _, put_obj ids id (set_limit msg_ctlmnb now q)));;
      mret (ipc_buildid id (seq (q_perm q)))
    | _ => bug
    end
  end.

Definition sys_msgget (c : cred) (k msgflg : Z) (kmem : option Z) (grow : bool) (now : Z) : SM msys Z :=
  s ← gets id;
  if k =? IPC_PRIVATE then newque c k msgflg kmem grow now else
  match ipc_findkey (msg_ids s) k with
  | Ok id =>
    if id =? -1 then
      if Z.land msgflg IPC_CREAT =? 0 then fail ENOENT else newque c k msgflg kmem grow now
    else if negb (Z.land msgflg IPC_CREAT =? 0) && negb (Z.land msgflg IPC_EXCL =? 0) then fail EEXIST
    else match ipc_lock (msg_ids s) id with
         | None => bug
         | Some q =>
           if ipcperms c (q_perm q) msgflg then fail EACCES
           else mret (ipc_buildid id (seq (q_perm q)))
         end
  | _ => bug
  end.

(** [free_msg] on the messages of a removed queue. *)
Fixpoint free_all (l : list msg_msg) : SM msys unit :=
  match l with
  | [] => mret tt
  | m :: l => modify (count_hdrs (-1));; free_msg m;; free_all l
  end.

Definition freeque (q : msg_queue) (msqid : Z) : SM msys unit :=
  expunge_all q (RErr EIDRM);;
  ss_wakeup (q_senders q) true;;
  s ← gets id;
  match ipc_rmid (msg_ids s) msqid with
  | Ok (q, ids) =>
    modify (on_ids (λ _, ids));;
    free_all (q_messages q);;
    modify (count_bytes (- q_cbytes q));;
    ipc_rcu_putref (q_ptr q)
  | _ => bug
  end.

(** *** msgctl *)

(** The two interfaces; the old one shows identifiers that need more than 16 bits as the
    values of /proc/sys/kernel/overflowuid and overflowgid. *)
Inductive ipc_version := IPC_64 | IPC_OLD (overflowuid overflowgid : Z).

Definition high2lowuid (overflow id : Z) : Z :=
  if negb (Z.land id (Z.lnot 0xffff) =? 0) then overflow else id.

(** The fields of [ipc64_perm] and of [ipc_perm]. *)
Definition kernel_to_ipc64_perm (p : kern_ipc_perm) : list Z :=
  [key p; uid p; gid p; cuid p; cgid p; mode p; seq p].
Definition ipc64_perm_to_ipc_perm (ou og : Z) (p : kern_ipc_perm) : list Z :=
  [key p; high2lowuid ou (uid p); high2lowuid og (gid p); high2lowuid ou (cuid p);
   high2lowuid og (cgid p); mode p; seq p].

(** What IPC_STAT and MSG_STAT copy out: the fields of [msqid64_ds], or of [msqid_ds] with
    its 16-bit counts, saturated, and the 32-bit ones (msg_lcbytes, msg_lqbytes). *)
Definition copy_msqid_to_user (version : ipc_version) (q : msg_queue) : list Z :=
  let sat v := if USHRT_MAX <? v then USHRT_MAX else v in
  match version with
  | IPC_64 =>
    kernel_to_ipc64_perm (q_perm q) ++
    [q_stime q; q_rtime q; q_ctime q; q_cbytes q; q_qnum q; q_qbytes q; q_lspid q; q_lrpid q]
  | IPC_OLD ou og =>
    ipc64_perm_to_ipc_perm ou og (q_perm q) ++
    [q_stime q; q_rtime q; q_ctime q; sat (q_cbytes q); q_cbytes q; sat (q_qnum q);
     sat (q_qbytes q); q_qbytes q; q_lspid q; q_lrpid q]
  end.

Inductive msgctl_info := IPC_INFO | MSG_INFO.

(** The fields of [msginfo]: msgpool, msgmap, msgmax, msgmnb, msgmni, msgssz, msgtql,
    msgseg. *)
Definition msginfo (cmd : msgctl_info) (s : msys) : list Z :=
  let '(pool, map, tql) := match cmd with
                           | MSG_INFO => (in_use (msg_ids s), msg_hdrs s, msg_bytes s)
                           | IPC_INFO => (MSGPOOL, MSGMAP, MSGTQL)
                           end in
  [pool; map; msg_ctlmax; msg_ctlmnb; msg_ctlmni; MSGSSZ; tql; MSGSEG].

(** [struct msq_setbuf] *)
Record msq_setbuf := mk_setbuf { sb_qbytes : Z; sb_uid : Z; sb_gid : Z; sb_mode : Z }.

(** [copy_msqid_from_user]: in the old interface the 32-bit limit is used when the 16-bit
    one is 0. *)
Definition copy_msqid_from_user (version : ipc_version) (qbytes lqbytes nuid ngid nmode : Z) : msq_setbuf :=
  mk_setbuf match version with
            | IPC_64 => qbytes
            | IPC_OLD _ _ => if qbytes =? 0 then lqbytes else qbytes
            end nuid ngid nmode.

Inductive msgctl_arg :=
| CtlInfo (cmd : msgctl_info)
| CtlStat (by_index buf : bool) (version : ipc_version)  (* MSG_STAT, IPC_STAT; [buf] is not NULL *)
| CtlSet (setbuf : option msq_setbuf)               (* [None]: the copy fails *)
| CtlRmid.

Definition may_change (c : cred) (p : kern_ipc_perm) : bool :=
  (euid c =? cuid p) || (euid c =? uid p) || cap_sys_admin c.

(** [copy]: the copy to user memory succeeds; [resource]: capable(CAP_SYS_RESOURCE). *)
Definition sys_msgctl (c : cred) (msqid : Z) (arg : msgctl_arg) (now : Z) (copy resource : bool)
    : SM msys (Z * list Z) :=
  if msqid <? 0 then fail EINVAL else
  match arg with
  | CtlInfo cmd =>
    s ← gets id;
    let max_id := max_id (msg_ids s) in
    if negb copy then fail EFAULT else mret (if max_id <? 0 then 0 else max_id, msginfo cmd s)
  | CtlStat by_index buf version =>
    s ← gets id;
    if negb buf then fail EFAULT else
    if by_index && (Z.of_nat (length (entries (msg_ids s))) <=? msqid) then fail EINVAL else
    match ipc_lock (msg_ids s) msqid with
    | None => fail EINVAL
    | Some q =>
      if negb by_index && ipc_checkid (q_perm q) msqid then fail EIDRM else
      if ipcperms c (q_perm q) S_IRUGO then fail EACCES else
      if negb copy then fail EFAULT else
      mret (if by_index then ipc_buildid msqid (seq (q_perm q)) else 0, copy_msqid_to_user version q)
    end
  | CtlSet None => fail EFAULT
  | CtlSet (Some b) =>
    q ← lock_check msqid;
    let p := q_perm q in
    if negb (may_change c p) then fail EPERM else
    if (msg_ctlmnb <? sb_qbytes b) && negb resource then fail EPERM else
    let p' := mk_perm (deleted p) (key p) (sb_uid b) (sb_gid b) (cuid p) (cgid p)
                (Z.lor (Z.land (mode p) (Z.lnot S_IRWXUGO)) (Z.land S_IRWXUGO (sb_mode b))) (seq p) in
    expunge_all q RWait;;
    ss_wakeup (q_senders q) false;;
    unlock_put msqid (set_perm p' (set_limit (sb_qbytes b) now q));;
    mret (0, [])
  | CtlRmid =>
    q ← lock_check msqid;
    if negb (may_change c (q_perm q)) then fail EPERM else
    freeque q msqid;;
    mret (0, [])
  end.

(** *** msgsnd *)

(** The queue is not full for a message of [msgsz] bytes. *)
Definition has_room (q : msg_queue) (msgsz : Z) : bool :=
  (wrap32 (msgsz + q_cbytes q) <=? q_qbytes q) && (wrap32 (1 + q_qnum q) <=? q_qbytes q).

(** [list_add_tail] of a message that nobody waits for. *)
Definition enqueue (q : msg_queue) (m : msg_msg) (msgsz : Z) : msg_queue :=
  set_messages (wrap32 (q_cbytes q + msgsz)) (wrap32 (q_qnum q + 1)) (q_messages q ++ [m]) q.

(** One round of the loop, and what follows it; [t] is current. *)
Definition snd_try (t : Z) (a : snd_args) (m : msg_msg) (q : msg_queue) (now : Z)
    : SM msys (call_result unit) :=
  if ipcperms (sn_cred a) (q_perm q) S_IWUGO then free_msg m;; fail EACCES else
  if has_room q (sn_msgsz a) then
    '(sent, q) ← pipelined_send (set_sent (sn_tgid a) now q) m now;
    (if sent : bool then unlock_put (sn_id a) q
     else
       unlock_put (sn_id a) (enqueue q m (sn_msgsz a));;
       modify (count_bytes (sn_msgsz a));;
       modify (count_hdrs 1));;
    mret (Finished tt)
  else if negb (Z.land (sn_msgflg a) IPC_NOWAIT =? 0) then free_msg m;; fail EAGAIN else
  modify (on_senders (insert t (mk_sender a (q_ptr q) m true)));;
  go_to_sleep t;;
  ipc_rcu_getref (q_ptr q);;
  unlock_put (sn_id a) (set_senders (q_senders q ++ [t]) q);;
  mret Sleeping.

(** [mtype]: what [get_user] reads, or [None]; [src]: the bytes at [msgp->mtext]. *)
Definition sys_msgsnd (t : Z) (a : snd_args) (mtype : option Z) (src : list Z)
    (env : list (bool * bool)) (now : Z) : SM msys (call_result unit) :=
  if (msg_ctlmax <? sn_msgsz a) || (sn_msgsz a <? 0) || (sn_id a <? 0) then fail EINVAL else
  match mtype with
  | None => fail EFAULT
  | Some ty =>
    if ty <? 1 then fail EINVAL else
    m ← load_msg (take (Z.to_nat (sn_msgsz a)) src) env;
    let m := mk_msg ty (sn_msgsz a) (m_text m) (m_next m) in
    s ← gets id;
    match ipc_lock (msg_ids s) (sn_id a) with
    | None => free_msg m;; fail EINVAL
    | Some q =>
      if ipc_checkid (q_perm q) (sn_id a) then free_msg m;; fail EIDRM
      else snd_try t a m q now
    end
  end.

(** After [schedule()]; [sig]: a signal is pending. *)
Definition msgsnd_wake (t : Z) (sig : bool) (now : Z) : SM msys (call_result unit) :=
  x ← get_sender t;
  let a := s_args x in
  r ← lock_by_ptr (sn_id a) (s_ptr x);
  ipc_rcu_putref (s_ptr x);;
  modify (on_senders (delete t));;
  match r with
  | None => free_msg (s_msg x);; fail EIDRM
  | Some q =>
    q ← (if s_linked x then
           if decide (t ∈ q_senders q) then mret (set_senders (filter (λ j, j ≠ t) (q_senders q)) q)
           else bug
         else mret q);
    unlock_put (sn_id a) q;;
    if sig then free_msg (s_msg x);; fail ERESTARTNOHAND
    else snd_try t a (s_msg x) q now
  end.

(** *** msgrcv *)

(** What the caller gets: the return value, and type and text when they were
    copied. *)
Record rcv_result := mk_res { res_ret : Z; res_msg : option (Z * list Z) }.

(** The end of the call with message [m]; [put]: [put_user] succeeds. *)
Definition rcv_finish (a : rcv_args) (m : msg_msg) (put : bool) (copies : list bool) : SM msys rcv_result :=
  let msgsz := if m_ts m <? rc_msgsz a then m_ts m else rc_msgsz a in
  match (if put then store_msg m (Z.to_nat msgsz) copies else Ok None) with
  | Ok r =>
    free_msg m;;
    mret match r with
         | Some text => mk_res msgsz (Some (m_type m, text))
         | None => mk_res (- EFAULT) None
         end
  | _ => bug
  end.

(** One round of the loop. *)
Definition rcv_try (t : Z) (a : rcv_args) (msgtyp mode : Z) (q : msg_queue) (now : Z)
    (put : bool) (copies : list bool) : SM msys (call_result rcv_result) :=
  if ipcperms (rc_cred a) (q_perm q) S_IRUGO then fail EACCES else
  let noerror := negb (Z.land (rc_msgflg a) MSG_NOERROR =? 0) in
  match find_msg (q_messages q) msgtyp mode 0 None with
  | Some i =>
    match q_messages q !! i with
    | None => bug
    | Some m =>
      if (rc_msgsz a <? m_ts m) && negb noerror then fail E2BIG else
      let q := set_messages (wrap32 (q_cbytes q - m_ts m)) (wrap32 (q_qnum q - 1))
                 (delete i (q_messages q)) q in
      modify (count_bytes (- m_ts m));;
      modify (count_hdrs (-1));;
      ss_wakeup (q_senders q) false;;
      unlock_put (rc_id a) (set_received (rc_tgid a) now q);;
      r ← rcv_finish a m put copies;
      mret (Finished r)
    end
  | None =>
    if negb (Z.land (rc_msgflg a) IPC_NOWAIT =? 0) then fail ENOMSG else
    modify (on_receivers (insert t (mk_receiver a (q_ptr q) mode msgtyp
              (if noerror then INT_MAX else rc_msgsz a) RWait)));;
    go_to_sleep t;;
    unlock_put (rc_id a) (set_receivers (q_receivers q ++ [t]) q);;
    mret Sleeping
  end.

Definition sys_msgrcv (t : Z) (a : rcv_args) (msgtyp : Z) (now : Z) (put : bool) (copies : list bool)
    : SM msys (call_result rcv_result) :=
  if (rc_id a <? 0) || (rc_msgsz a <? 0) then fail EINVAL else
  let '(msgtyp, mode) := convert_mode msgtyp (rc_msgflg a) in
  q ← lock_check (rc_id a);
  rcv_try t a msgtyp mode q now put copies.

(** After [schedule()].  A message or an error that the waker has left is taken without
    the lock. *)
Definition msgrcv_wake (t : Z) (sig : bool) (now : Z) (put : bool) (copies : list bool)
    : SM msys (call_result rcv_result) :=
  x ← get_receiver t;
  let a := r_args x in
  match r_msg x with
  | RMsg m => modify (on_receivers (delete t));; r ← rcv_finish a m put copies; mret (Finished r)
  | RErr e => modify (on_receivers (delete t));; fail e
  | RWait =>
    r ← lock_by_ptr (rc_id a) (r_ptr x);
    match r with
    | None => bug
    | Some q =>
      if decide (t ∈ q_receivers q) then
        let q := set_receivers (filter (λ j, j ≠ t) (q_receivers q)) q in
        modify (on_receivers (delete t));;
        unlock_put (rc_id a) q;;
        if sig then fail ERESTARTNOHAND
        else rcv_try t a (r_msgtype x) (r_mode x) q now put copies
      else bug
    end
  end.

End calls.
End Msg.
