(* ===== verification/MsgFacts.v ===== *)
(** * System V message queues: messages

    Which message a receive call selects, and that the text of a message comes back
    as it was sent. *)

From stdpp Require Import prelude numbers list gmap.
From Stdlib Require Import ZArith Lia.
From S2P Require Import Prelude Ipc Msg.

#[local] Set Default Goal Selector "!".
#[local] Open Scope Z_scope.

Module MsgFacts.
Import Ipc Msg.

(** ** Selection *)

(** The message at [i] is the one to take: of those that fit, the first, or with
    SEARCH_LESSEQUAL the first of the least type. *)
Definition better (mode : Z) (i : nat) (m : msg_msg) (j : nat) (m' : msg_msg) : Prop :=
  if mode =? SEARCH_LESSEQUAL
  then m_type m < m_type m' ∨ m_type m = m_type m' ∧ (i <= j)%nat
  else (i <= j)%nat.

Definition selected (l : list msg_msg) (type mode : Z) (i : nat) : Prop :=
  ∃ m, l !! i = Some m ∧ testmsg m type mode = true ∧
    ∀ j m', l !! j = Some m' → testmsg m' type mode = true → better mode i m j m'.

Definition types_ok (l : list msg_msg) : Prop := Forall (λ m, 1 <= m_type m) l.

Lemma testmsg_le m type : testmsg m type SEARCH_LESSEQUAL = (m_type m <=? type).
Proof. done. Qed.

(** SEARCH_LESSEQUAL: what was found before has a greater type than what is looked for
    now. *)
Lemma find_le l type i best :
  types_ok l →
  match find_msg l type SEARCH_LESSEQUAL i best with
  | Some k =>
    (best = Some k ∧ Forall (λ m, type < m_type m) l) ∨
    (∃ n m, k = (i + n)%nat ∧ l !! n = Some m ∧ m_type m <= type ∧
      ∀ j m', l !! j = Some m' → m_type m < m_type m' ∨ m_type m = m_type m' ∧ (n <= j)%nat)
  | None => best = None ∧ Forall (λ m, type < m_type m) l
  end.
Proof.
  intros Hl. revert type i best. induction Hl as [|m l Hm Hl IH]; intros type i best; cbn [find_msg].
  - destruct best; [by left|done].
  - rewrite testmsg_le. change (SEARCH_LESSEQUAL =? SEARCH_LESSEQUAL) with true. cbn [andb].
    destruct (Z.leb_spec (m_type m) type) as [Hle|Hgt].
    + destruct (Z.eqb_spec (m_type m) 1) as [E1|E1]; cbn [negb].
      * right. exists 0%nat, m. split_and!; [lia|done|done|]. intros [|j] m' Hj.
        { injection Hj as <-. right. lia. }
        pose proof (Forall_lookup_1 _ _ _ _ Hl Hj) as Hx. cbn in Hx. lia.
      * specialize (IH (m_type m - 1) (S i) (Some i)).
        destruct (find_msg l (m_type m - 1) SEARCH_LESSEQUAL (S i) (Some i)) as [k|]; [|by destruct IH].
        right. destruct IH as [[[= <-] Hno]|(n & m0 & -> & Hn & Hty & Hmin)].
        -- exists 0%nat, m. split_and!; [lia|done|done|]. intros [|j] m' Hj.
           { injection Hj as <-. right. lia. }
           pose proof (Forall_lookup_1 _ _ _ _ Hno Hj) as Hx. cbn in Hx. lia.
        -- exists (S n), m0. split_and!; [lia|done|lia|]. intros [|j] m' Hj.
           { injection Hj as <-. lia. }
           specialize (Hmin j m' Hj). lia.
    + specialize (IH type (S i) best).
      destruct (find_msg l type SEARCH_LESSEQUAL (S i) best) as [k|].
      * destruct IH as [[-> Hno]|(n & m0 & -> & Hn & Hty & Hmin)].
        -- left. split; [done|]. by constructor.
        -- right. exists (S n), m0. split_and!; [lia|done|done|]. intros [|j] m' Hj.
           { injection Hj as <-. lia. }
           specialize (Hmin j m' Hj). lia.
      * destruct IH as [-> Hno]. split; [done|]. by constructor.
Qed.

(** The other modes: the first that fits. *)
Lemma find_first l type mode i :
  mode ≠ SEARCH_LESSEQUAL →
  match find_msg l type mode i None with
  | Some k => ∃ n m, k = (i + n)%nat ∧ l !! n = Some m ∧ testmsg m type mode = true ∧
      ∀ j m', l !! j = Some m' → testmsg m' type mode = true → (n <= j)%nat
  | None => Forall (λ m, testmsg m type mode = false) l
  end.
Proof.
  intros Hmode. revert i. induction l as [|m l IH]; intros i; cbn [find_msg]; [by constructor|].
  apply Z.eqb_neq in Hmode as Hm. rewrite Hm. cbn [andb]. destruct (testmsg m type mode) eqn:E.
  - exists 0%nat, m. split_and!; [lia|done|done|]. intros; lia.
  - specialize (IH (S i)). destruct (find_msg l type mode (S i) None) as [k|].
    + destruct IH as (n & m0 & -> & Hn & Ht & Hmin). exists (S n), m0. split_and!; [lia|done|done|].
      intros [|j] m' Hj Hj'; [injection Hj as <-; congruence|]. specialize (Hmin j m' Hj Hj'). lia.
    + by constructor.
Qed.

Lemma find_msg_spec l type mode :
  types_ok l →
  match find_msg l type mode 0 None with
  | Some i => selected l type mode i
  | None => Forall (λ m, testmsg m type mode = false) l
  end.
Proof.
  intros Hl. destruct (decide (mode = SEARCH_LESSEQUAL)) as [->|Hne].
  - pose proof (find_le l type 0 None Hl) as H.
    destruct (find_msg l type SEARCH_LESSEQUAL 0 None) as [i|].
    + destruct H as [[? _]|(n & m & -> & Hn & Ht & Hmin)]; [done|]. exists m.
      split_and!; [done|rewrite testmsg_le; lia|]. intros j m' Hj _. exact (Hmin j m' Hj).
    + destruct H as [_ H]. eapply Forall_impl; [exact H|]. intros m Hm. cbn in Hm.
      rewrite testmsg_le. lia.
  - pose proof (find_first l type mode 0 Hne) as H. destruct (find_msg l type mode 0 None) as [i|]; [|done].
    destruct H as (n & m & -> & Hn & Ht & Hmin). exists m. split_and!; [done..|].
    intros j m' Hj Hj'. unfold better. apply Z.eqb_neq in Hne as ->. eauto.
Qed.

Lemma selected_unique l type mode i j : selected l type mode i → selected l type mode j → i = j.
Proof.
  intros (m & Hm & Ht & Hb) (m' & Hm' & Ht' & Hb').
  specialize (Hb j m' Hm' Ht'). specialize (Hb' i m Hm Ht). unfold better in *.
  destruct (mode =? SEARCH_LESSEQUAL); lia.
Qed.

(** ** The text *)

Lemma datalen_seg_pos : (0 < DATALEN_SEG)%nat.
Proof. unfold DATALEN_SEG. lia. Qed.
Lemma datalen_msg_pos : (0 < DATALEN_MSG)%nat.
Proof. unfold DATALEN_MSG. lia. Qed.

(** The segments of a text, and the parts of a message. *)
Fixpoint segs_of (fuel : nat) (src : list Z) : list (list Z) :=
  match src, fuel with
  | [], _ | _, O => []
  | _, S f => take DATALEN_SEG src :: segs_of f (drop DATALEN_SEG src)
  end.

Definition shape (m : msg_msg) (text : list Z) : Prop :=
  m_text m = take DATALEN_MSG text ∧ m_next m = segs_of (length text) (drop DATALEN_MSG text).

Definition all_ok (env : list (bool * bool)) : Prop := Forall (λ x, x = (true, true)) env.

Lemma outcome_of_ok env : all_ok env → outcome_of env = (true, true).
Proof. intros H. destruct env; [done|]. by inversion H. Qed.
Lemma all_ok_tail env : all_ok env → all_ok (tail env).
Proof. intros H. destruct env; [done|]. by inversion H. Qed.

(** What loading the segments leaves, on success and on failure: every part that was
    allocated is linked. *)
Lemma load_segs_spec fuel src env s :
  (length src <= fuel)%nat →
  wp (load_segs fuel src env) (λ r s', s' = on_pieces (λ n, n + Z.of_nat (length r.2)) s ∧
    (r.1 = 0 ∧ r.2 = segs_of fuel src ∨ (r.1 = ENOMEM ∨ r.1 = EFAULT) ∧ ¬ all_ok env))
    (λ _ _, False) s.
Proof.
  revert src env s. induction fuel as [|f IH]; intros src env s Hlen.
  { destruct src; [|cbn in Hlen; lia]. apply wp_ret. split; [|by left].
    destruct s. unfold on_pieces. cbn. f_equal. lia. }
  destruct src as [|x src]; [apply wp_ret; split; [|by left]; destruct s; unfold on_pieces; cbn; f_equal; lia|].
  cbn [load_segs]. destruct (outcome_of env) as [alloc copy] eqn:Eo.
  assert (alloc && copy = false → ¬ all_ok env) as Hbad.
  { intros H Hok. rewrite (outcome_of_ok _ Hok) in Eo. by injection Eo as <- <-. }
  destruct alloc; cbn [negb].
  2:{ apply wp_ret. split; [destruct s; unfold on_pieces; cbn; f_equal; lia|]. right. auto. }
  apply wp_bind, wp_modify. destruct copy; cbn [negb].
  2:{ apply wp_ret. split; [done|]. right. auto. }
  apply wp_bind. eapply wp_mono.
  { apply IH. rewrite length_drop. pose proof datalen_seg_pos. cbn in Hlen |- *. lia. }
  intros [e l] s' [-> Hr]. cbn [fst snd] in *. apply wp_ret. split.
  - unfold on_pieces. cbn. f_equal. lia.
  - destruct Hr as [[-> ->]|[He Hbad']]; [left; by split|right]. split; [done|].
    intros Hok. by apply Hbad', all_ok_tail.
Qed.

Lemma load_msg_spec src env s :
  wp (load_msg src env)
    (λ m s', s' = on_pieces (λ n, n + msg_pieces m) s ∧ shape m src)
    (λ e s', s' = s ∧ (e = ENOMEM ∨ e = EFAULT) ∧ ¬ all_ok env) s.
Proof.
  unfold load_msg. destruct (outcome_of env) as [alloc copy] eqn:Eo.
  assert (alloc && copy = false → ¬ all_ok env) as Hbad.
  { intros H Hok. rewrite (outcome_of_ok _ Hok) in Eo. by injection Eo as <- <-. }
  assert (∀ n k, n + k - k = n) as Hback by lia.
  destruct alloc; cbn [negb]; [|apply wp_fail; auto].
  apply wp_bind, wp_modify. destruct copy; cbn [negb].
  2:{ apply wp_bind, wp_modify, wp_fail. split; [destruct s; unfold on_pieces, msg_pieces; cbn; f_equal; lia|auto]. }
  apply wp_bind. eapply wp_impl; [apply load_segs_spec; rewrite length_drop; lia| |done].
  intros [e segs] s' [-> Hr]. cbn [fst snd] in *. destruct Hr as [[-> ->]|[He Hbad']]; cbn [Z.eqb negb].
  - apply wp_ret. split; [unfold on_pieces, msg_pieces; cbn; f_equal; lia|done].
  - replace (e =? 0) with false by (destruct He as [->| ->]; done). cbn [negb].
    apply wp_bind, wp_modify, wp_fail. split_and!; [|done|].
    + destruct s; unfold on_pieces, msg_pieces; cbn; f_equal; lia.
    + intros Hok. by apply Hbad', all_ok_tail.
Qed.

(** The beginning of a text in two steps. *)
Lemma take_in_steps (d len : nat) (l : list Z) :
  (len <= length l)%nat →
  take (len `min` d) (take d l) ++ take (len - len `min` d) (drop d l) = take len l.
Proof.
  intros Hlen. rewrite take_take. rewrite <- (take_drop d l) at 3. rewrite take_app, take_take.
  rewrite length_take. f_equal.
  - f_equal. lia.
  - f_equal. destruct (decide (len <= d)%nat); lia.
Qed.

(** Copying out gives the beginning of the text, or a copy fails. *)
Definition stored (src : list Z) (len : nat) (copies : list bool) (r : option (list Z)) : Prop :=
  match r with
  | Some b => b = take len src
  | None => false ∈ copies
  end.

Lemma store_step d src len copies (r : option (list Z)) :
  (len <= length src)%nat → stored (drop d src) (len - len `min` d) (tail copies) r →
  stored src len copies (option_map (app (take (len `min` d) (take d src))) r).
Proof.
  intros Hlen. destruct r as [b|]; cbn.
  - intros ->. by apply take_in_steps.
  - destruct copies; [done|]. by right.
Qed.

Lemma store_fails (src : list Z) len copies :
  default true (head copies) = false → stored src len copies None.
Proof. destruct copies as [|c copies]; [done|]. cbn. intros ->. by left. Qed.

Lemma store_segs_spec fuel src len copies :
  (length src <= fuel)%nat → (len <= length src)%nat →
  ∃ r, store_segs (segs_of fuel src) len copies = Ok r ∧ stored src len copies r.
Proof.
  revert src len copies. induction fuel as [|f IH]; intros src len copies Hf Hlen.
  { destruct src; cbn in *; [|lia]. assert (len = O) as -> by lia. eexists. by split. }
  destruct src as [|x src]; [assert (len = O) as -> by (cbn in Hlen; lia); eexists; by split|].
  destruct len as [|len]; [eexists; by split|]. pose proof datalen_seg_pos as Hp.
  cbn [segs_of store_segs]. destruct (default true (head copies)) eqn:Ec; cbn [negb].
  2:{ eexists. split; [done|]. by apply store_fails. }
  destruct (IH (drop DATALEN_SEG (x :: src)) (S len - S len `min` DATALEN_SEG)%nat (tail copies))
    as (r & -> & Hr).
  { rewrite length_drop. cbn [length] in * . lia. }
  { rewrite length_drop. cbn [length] in * . lia. }
  cbn [mbind outcome_bind]. eexists. split; [reflexivity|]. by apply store_step.
Qed.

Lemma store_msg_spec m text len copies :
  shape m text → (len <= length text)%nat →
  ∃ r, store_msg m len copies = Ok r ∧ stored text len copies r.
Proof.
  intros [Ht Hn] Hlen. unfold store_msg. rewrite Ht, Hn.
  destruct (default true (head copies)) eqn:Ec; cbn [negb].
  2:{ eexists. split; [done|]. by apply store_fails. }
  destruct (store_segs_spec (length text) (drop DATALEN_MSG text) (len - len `min` DATALEN_MSG) (tail copies))
    as (r & -> & Hr); [rewrite length_drop; lia..|].
  cbn [mbind outcome_bind]. eexists. split; [reflexivity|]. by apply store_step.
Qed.

End MsgFacts.
