(* ===== verification/MsgSystem.v ===== *)
(** * System V message queues: the invariant of the whole system

    Every message is in exactly one place: in a queue, in the hands of a receiver it was
    passed to, or with a sender that waits.  Sums over these places account for the memory
    of messages and for the reference counts of queues. *)

From stdpp Require Import prelude numbers list gmap.
From Stdlib Require Import ZArith Lia.
From S2P Require Import Prelude Ipc IpcFacts Msg MsgFacts.

#[local] Set Default Goal Selector "!".
#[local] Open Scope Z_scope.

Module MsgSystem.
Import Ipc IpcFacts Msg MsgFacts.

(** ** Sums *)

Definition lsum {A} (f : A → Z) (l : list A) : Z := foldr (λ x n, f x + n) 0 l.

Lemma lsum_app {A} (f : A → Z) l k : lsum f (l ++ k) = lsum f l + lsum f k.
Proof. unfold lsum. induction l as [|x l IH]; cbn; [done|]. rewrite IH. lia. Qed.

Lemma lsum_delete {A} (f : A → Z) l i x : l !! i = Some x → lsum f (delete i l) = lsum f l - f x.
Proof.
  revert i. induction l as [|y l IH]; intros [|i] Hi; try done.
  - injection Hi as ->. cbn. lia.
  - change (delete (S i) (y :: l)) with (y :: delete i l). change (lsum f (y :: ?k)) with (f y + lsum f k).
    cbn [lsum foldr]. fold (lsum f (delete i l)). rewrite (IH i Hi). unfold lsum. lia.
Qed.

Lemma lsum_nonneg {A} (f : A → Z) l : (∀ x, x ∈ l → 0 <= f x) → 0 <= lsum f l.
Proof.
  intros H. induction l as [|x l IH]; cbn; [lia|].
  pose proof (H x ltac:(by left)). pose proof (IH (λ y Hy, H y ltac:(by right))). unfold lsum in *. lia.
Qed.

(** Over the live queues. *)
Definition slot_val (f : msg_queue → Z) (ids : ipc_ids msg_queue) (i : nat) : Z :=
  match obj ids i with Some q => f q | None => 0 end.
Definition slot_sum (f : msg_queue → Z) (ids : ipc_ids msg_queue) : Z :=
  lsum (slot_val f ids) (List.seq 0 (Z.to_nat 32768)).

Lemma slot_sum_def f ids : slot_sum f ids = lsum (slot_val f ids) (List.seq 0 (Z.to_nat 32768)).
Proof. reflexivity. Qed.

Lemma lsum_change {A} `{!EqDecision A} (f g : A → Z) l i :
  NoDup l → i ∈ l → (∀ j, j ≠ i → g j = f j) → lsum g l = lsum f l - f i + g i.
Proof.
  intros Hnd Hi Hne. induction Hnd as [|j l Hj Hnd IH]; [by apply elem_of_nil in Hi|]. cbn.
  fold (lsum g l). fold (lsum f l). destruct (decide (j = i)) as [->|Hji].
  - enough (lsum g l = lsum f l) by lia. clear -Hj Hne. induction l as [|k l IH]; [done|].
    apply not_elem_of_cons in Hj as [? Hj]. cbn. fold (lsum g l). fold (lsum f l).
    rewrite IH, (Hne k) by (done || congruence). done.
  - apply elem_of_cons in Hi as [->|Hi]; [done|]. rewrite (IH Hi), (Hne j) by done. lia.
Qed.

Lemma slot_sum_change f ids ids' i :
  (Z.of_nat i < 32768) → (∀ j, j ≠ i → obj ids' j = obj ids j) →
  slot_sum f ids' = slot_sum f ids - slot_val f ids i + slot_val f ids' i.
Proof.
  intros Hi Hne. apply lsum_change; [apply NoDup_seq|apply elem_of_seq; lia|].
  intros j Hj. unfold slot_val. by rewrite Hne.
Qed.

Lemma slot_sum_ext f ids ids' : (∀ j, obj ids' j = obj ids j) → slot_sum f ids' = slot_sum f ids.
Proof.
  intros He. unfold slot_sum, lsum. induction (List.seq _ _) as [|i l IH]; [done|]. cbn.
  unfold slot_val at 1 3. by rewrite He, IH.
Qed.

Lemma slot_sum_ge f ids i q :
  (∀ j x, obj ids j = Some x → 0 <= f x) → (Z.of_nat i < 32768) → obj ids i = Some q →
  f q <= slot_sum f ids.
Proof.
  intros Hf Hi Hq. unfold slot_sum.
  assert (i ∈ List.seq 0 (Z.to_nat 32768)) as Hin by (apply elem_of_seq; lia).
  assert (∀ j, 0 <= slot_val f ids j) as Hv.
  { intros j. unfold slot_val. destruct (obj ids j) eqn:E; [eauto|lia]. }
  assert (∀ l, i ∈ l → f q <= lsum (slot_val f ids) l) as H; [|by apply H].
  induction l as [|j l IH]; intros Hil; [by apply elem_of_nil in Hil|]. cbn.
  fold (lsum (slot_val f ids) l). apply elem_of_cons in Hil as [<-|Hil].
  - unfold slot_val at 1. rewrite Hq. pose proof (lsum_nonneg (slot_val f ids) l (λ x _, Hv x)). lia.
  - specialize (IH Hil). specialize (Hv j). lia.
Qed.

(** Sums over 32768 slots are not to be computed. *)
#[global] Opaque slot_sum.

(** ** Identifiers *)

Definition qident (i : nat) (q : msg_queue) : Z := ipc_buildid (Z.of_nat i) (Ipc.seq (q_perm q)).

Lemma queue_small ids i (q : msg_queue) : ids_ok ids → obj ids i = Some q →
  Z.of_nat i < 32768 ∧ 0 <= Ipc.seq (q_perm q).
Proof.
  intros H Hi. pose proof (obj_lt _ _ _ Hi). pose proof (io_len _ H).
  destruct (io_obj _ H _ _ Hi) as [_ Hq]. cbn in Hq. lia.
Qed.

Lemma qident_split ids i q : ids_ok ids → obj ids i = Some q →
  0 <= qident i q ∧ Z.to_nat (lid (qident i q)) = i.
Proof.
  intros H Hi. destruct (queue_small _ _ _ H Hi) as [Hlt Hq]. unfold qident. split.
  - unfold ipc_buildid. change SEQ_MULTIPLIER with 32768. lia.
  - rewrite (proj1 (build_split (Z.of_nat i) _ ltac:(lia) Hq)). lia.
Qed.

Lemma qident_inj ids i j a b : ids_ok ids → obj ids i = Some a → obj ids j = Some b →
  qident i a = qident j b → i = j.
Proof.
  intros H Hi Hj E. destruct (qident_split _ _ _ H Hi) as (_ & <-).
  destruct (qident_split _ _ _ H Hj) as (_ & <-). by rewrite E.
Qed.

Lemma qident_checked msqid (q : msg_queue) : 0 <= msqid → ipc_checkid (q_perm q) msqid = false →
  msqid = qident (Z.to_nat (lid msqid)) q.
Proof.
  intros H0 Hc. rewrite (build_checked _ _ H0 Hc) at 1. unfold qident. f_equal.
  pose proof (lid_range _ H0). lia.
Qed.

(** ** The invariant *)

(** A message of the size it says, with its text in parts. *)
Definition msg_ok (m : msg_msg) : Prop :=
  1 <= m_type m ∧ ∃ text, shape m text ∧ m_ts m = Z.of_nat (length text).

Lemma msg_ok_size m : msg_ok m → 0 <= m_ts m.
Proof. intros (_ & text & _ & ->). lia. Qed.

(** The bytes that a message takes at least: [struct msg_msg] and the text. *)
Definition msg_mem (m : msg_msg) : Z := 24 + m_ts m.

Record queue_ok (R : gmap Z msg_receiver) (S : gmap Z msg_sender) (A : gset Z)
    (i : nat) (q : msg_queue) : Prop := {
  qo_msgs : Forall msg_ok (q_messages q);
  qo_num : q_qnum q = Z.of_nat (length (q_messages q));
  qo_bytes : q_cbytes q = lsum m_ts (q_messages q);
  qo_rnodup : NoDup (q_receivers q);
  qo_rcv : ∀ t, t ∈ q_receivers q → ∃ x, R !! t = Some x ∧ r_ptr x = q_ptr q ∧
    rc_id (r_args x) = qident i q ∧ r_msg x = RWait ∧
    Forall (λ m, testmsg m (r_msgtype x) (r_mode x) = false) (q_messages q);
  qo_snodup : NoDup (q_senders q);
  qo_snd : ∀ t, t ∈ q_senders q → ∃ x, S !! t = Some x ∧ s_ptr x = q_ptr q ∧
    sn_id (s_args x) = qident i q ∧ s_linked x = true ∧
    (t ∈ A → has_room q (sn_msgsz (s_args x)) = false)
}.

(** The frame of a receiver: it waits in a queue, or has been given a result. *)
Definition rcv_ok (ids : ipc_ids msg_queue) (A : gset Z) (t : Z) (x : msg_receiver) : Prop :=
  0 <= rc_msgsz (r_args x) ∧
  match r_msg x with
  | RWait => ∃ i q, obj ids i = Some q ∧ t ∈ q_receivers q
  | RMsg m => msg_ok m ∧ t ∉ A
  | RErr e => t ∉ A
  end.

Definition holds_ptr (p : Z) (q : msg_queue) : Z := if q_ptr q =? p then 1 else 0.
Definition refs_ptr (p : Z) (x : msg_sender) : Z := if s_ptr x =? p then 1 else 0.
Definition live (ids : ipc_ids msg_queue) (p : Z) : Z := slot_sum (holds_ptr p) ids.
Definition refcount (s : msys) (p : Z) : Z := live (msg_ids s) p + msum (refs_ptr p) (senders s).

(** The frame of a sender: it waits in a queue, or the queue is gone. *)
Definition snd_ok (ids : ipc_ids msg_queue) (A : gset Z) (t : Z) (x : msg_sender) : Prop :=
  0 <= sn_id (s_args x) ∧ msg_ok (s_msg x) ∧ m_ts (s_msg x) = sn_msgsz (s_args x) ∧
  if s_linked x then ∃ i q, obj ids i = Some q ∧ t ∈ q_senders q
  else live ids (s_ptr x) = 0 ∧ t ∉ A.

(** The messages of the system, weighed. *)
Definition slot_weight (w : msg_msg → Z) (x : msg_receiver) : Z :=
  match r_msg x with RMsg m => w m | _ => 0 end.
Definition weight (w : msg_msg → Z) (s : msys) : Z :=
  slot_sum (λ q, lsum w (q_messages q)) (msg_ids s) + msum (slot_weight w) (receivers s)
  + msum (λ x, w (s_msg x)) (senders s).

Lemma weight_pieces w f s : weight w (on_pieces f s) = weight w s.
Proof. reflexivity. Qed.

Record sys_ok (s : msys) : Prop := {
  so_ids : ids_ok (msg_ids s);
  so_queue : ∀ i q, obj (msg_ids s) i = Some q → queue_ok (receivers s) (senders s) (asleep s) i q;
  so_rcv : ∀ t x, receivers s !! t = Some x → rcv_ok (msg_ids s) (asleep s) t x;
  so_snd : ∀ t x, senders s !! t = Some x → snd_ok (msg_ids s) (asleep s) t x;
  so_one : ∀ t x, receivers s !! t = Some x → senders s !! t = None;
  so_live : ∀ p, live (msg_ids s) p <= 1;
  so_refs : ∀ p, refs s !! p = if refcount s p =? 0 then None else Some (refcount s p);
  so_pieces : pieces s = weight msg_pieces s;
  so_mem : weight msg_mem s < 2 ^ 32;
  so_bytes : msg_bytes s = sgn32 (slot_sum q_cbytes (msg_ids s));
  so_hdrs : msg_hdrs s = sgn32 (slot_sum q_qnum (msg_ids s))
}.

End MsgSystem.
