(* ===== verification/MsgSteps.v ===== *)
(** * System V message queues: waking and passing on *)

From stdpp Require Import prelude numbers list gmap.
From Stdlib Require Import ZArith Lia.
From S2P Require Import Prelude Ipc IpcFacts Msg MsgFacts MsgSystem.

#[local] Set Default Goal Selector "!".
#[local] Open Scope Z_scope.

Module MsgSteps.
Import Ipc IpcFacts Msg MsgFacts MsgSystem.

(** A state with other frames and another set of sleeping tasks. *)
Definition with_frames (R : gmap Z msg_receiver) (S : gmap Z msg_sender) (A : gset Z) (s : msys) : msys :=
  mk_msys (msg_ids s) (refs s) R S A (pieces s) (msg_bytes s) (msg_hdrs s).

Lemma with_frames_id s : with_frames (receivers s) (senders s) (asleep s) s = s.
Proof. by destruct s. Qed.

Definition rset (v : r_slot) (x : msg_receiver) : msg_receiver :=
  mk_receiver (r_args x) (r_ptr x) (r_mode x) (r_msgtype x) (r_maxsize x) v.
Definition sunlink (x : msg_sender) : msg_sender := mk_sender (s_args x) (s_ptr x) (s_msg x) false.

Lemma wp_get_receiver t x s (Φ : msg_receiver → msys → Prop) Ψ :
  receivers s !! t = Some x → Φ x s → wp (get_receiver t) Φ Ψ s.
Proof. intros H. unfold wp, get_receiver. by rewrite H. Qed.

Lemma wp_get_sender t x s (Φ : msg_sender → msys → Prop) Ψ :
  senders s !! t = Some x → Φ x s → wp (get_sender t) Φ Ψ s.
Proof. intros H. unfold wp, get_sender. by rewrite H. Qed.

(** ** Loops over frames *)

(** Tasks of [l] are awake. *)
Definition woken (l : list Z) (A A' : gset Z) : Prop := ∀ t, t ∈ A' ↔ t ∈ A ∧ t ∉ l.

Lemma ss_wakeup_spec l kill s Ψ :
  (∀ t, t ∈ l → is_Some (senders s !! t)) →
  wp (ss_wakeup l kill) (λ _ s', ∃ S' A', s' = with_frames (receivers s) S' A' s ∧ woken l (asleep s) A' ∧
    ∀ t, S' !! t = if bool_decide (t ∈ l) && kill then sunlink <$> senders s !! t else senders s !! t) Ψ s.
Proof.
  revert s. induction l as [|t l IH]; intros s Hl; cbn [ss_wakeup].
  { apply wp_ret. exists (senders s), (asleep s). split; [by rewrite with_frames_id|]. split.
    - intros t. split; [|tauto]. intros H. split; [done|]. apply not_elem_of_nil.
    - done. }
  destruct (Hl t ltac:(by left)) as [x Hx]. eapply wp_bind, wp_get_sender; [exact Hx|].
  set (s1 := if kill then on_senders (insert t (sunlink x)) s else s).
  assert (∀ (k : unit → SM msys unit) Φ Ψ, wp (k tt) Φ Ψ s1 → wp (when kill (set_linked t x false) ≫= k) Φ Ψ s) as Hwhen.
  { intros k Φ Ψ0 H. apply wp_bind, wp_when; intros ->; [by apply wp_modify|done]. }
  apply Hwhen. apply wp_bind, wp_modify.
  eapply wp_mono; [apply IH|].
  - intros u Hu. destruct (Hl u ltac:(by right)) as [y Hy]. unfold s1. destruct kill; cbn; [|eauto].
    destruct (decide (u = t)) as [->|]; [rewrite lookup_insert_eq; eauto|rewrite lookup_insert_ne by done; eauto].
  - intros _ s' (S' & A' & -> & HA & HS). exists S', A'. split_and!.
    + unfold s1. by destruct kill.
    + intros u. unfold woken in HA. rewrite HA. unfold s1. destruct kill; cbn [asleep on_senders on_asleep];
        rewrite elem_of_difference, elem_of_singleton, elem_of_cons; tauto.
    + intros u. rewrite HS. unfold s1. destruct (decide (u = t)) as [->|Hne].
      * rewrite (bool_decide_eq_true_2 (t ∈ t :: l)) by by left. destruct kill; cbn [andb senders on_senders on_asleep].
        -- rewrite lookup_insert_eq, Hx. by destruct (bool_decide (t ∈ l)).
        -- by rewrite !andb_false_r.
      * rewrite (bool_decide_ext (u ∈ t :: l) (u ∈ l)) by (rewrite elem_of_cons; tauto).
        destruct kill; cbn [andb senders on_senders on_asleep]; [by rewrite lookup_insert_ne|done].
Qed.

Lemma expunge_spec l v s Ψ :
  (∀ t, t ∈ l → is_Some (receivers s !! t)) →
  wp (expunge l v) (λ _ s', ∃ R' A', s' = with_frames R' (senders s) A' s ∧ woken l (asleep s) A' ∧
    ∀ t, R' !! t = if bool_decide (t ∈ l) then rset v <$> receivers s !! t else receivers s !! t) Ψ s.
Proof.
  revert s. induction l as [|t l IH]; intros s Hl; cbn [expunge].
  { apply wp_ret. exists (receivers s), (asleep s). split; [by rewrite with_frames_id|]. split.
    - intros t. split; [|tauto]. intros H. split; [done|]. apply not_elem_of_nil.
    - done. }
  destruct (Hl t ltac:(by left)) as [x Hx]. eapply wp_bind, wp_get_receiver; [exact Hx|].
  apply wp_bind, wp_modify, wp_bind, wp_modify. eapply wp_mono; [apply IH|].
  - intros u Hu. destruct (Hl u ltac:(by right)) as [y Hy]. cbn.
    destruct (decide (u = t)) as [->|]; [rewrite lookup_insert_eq; eauto|rewrite lookup_insert_ne by done; eauto].
  - intros _ s' (R' & A' & -> & HA & HR). exists R', A'. split_and!; [done| |].
    + intros u. unfold woken in HA. rewrite HA. cbn [asleep on_receivers on_asleep].
      rewrite elem_of_difference, elem_of_singleton, elem_of_cons; tauto.
    + intros u. rewrite HR. cbn [receivers on_receivers on_asleep]. destruct (decide (u = t)) as [->|Hne].
      * rewrite (bool_decide_eq_true_2 (t ∈ t :: l)) by by left. rewrite lookup_insert_eq, Hx.
        by destruct (bool_decide (t ∈ l)).
      * rewrite (bool_decide_ext (u ∈ t :: l) (u ∈ l)) by (rewrite elem_of_cons; tauto).
        by rewrite lookup_insert_ne.
Qed.

(** ** Passing a message on *)

(** The receivers that get E2BIG, and the one that gets the message. *)
Fixpoint deliver (R : gmap Z msg_receiver) (l : list Z) (m : msg_msg) : list Z * option Z :=
  match l with
  | [] => ([], None)
  | t :: l =>
    match R !! t with
    | None => ([], None)
    | Some x =>
      if testmsg m (r_msgtype x) (r_mode x) then
        if r_maxsize x <? m_ts m then let '(E, o) := deliver R l m in (t :: E, o)
        else ([], Some t)
      else deliver R l m
    end
  end.

(** They have left the queue. *)
Definition gone (E : list Z) (o : option Z) (t : Z) : Prop := t ∈ E ∨ o = Some t.
#[export] Instance gone_dec E o t : Decision (gone E o t).
Proof. unfold gone. apply _. Defined.

Definition passed (R : gmap Z msg_receiver) (E : list Z) (o : option Z) (m : msg_msg) (t : Z)
    : option msg_receiver :=
  if bool_decide (t ∈ E) then rset (RErr E2BIG) <$> R !! t
  else if bool_decide (o = Some t) then rset (RMsg m) <$> R !! t
  else R !! t.

Lemma deliver_sub R l m t : gone (deliver R l m).1 (deliver R l m).2 t → t ∈ l.
Proof.
  induction l as [|u l IH]; cbn [deliver]; [intros [H%not_elem_of_nil|H]; done|].
  destruct (R !! u) as [x|]; [|intros [H%not_elem_of_nil|H]; done].
  destruct (testmsg _ _ _); [|intros H; right; auto].
  destruct (r_maxsize x <? m_ts m).
  - destruct (deliver R l m) as [E o]. cbn in *. intros [[->|H]%elem_of_cons|H]; [by left| |];
      right; apply IH; [by left|by right].
  - intros [H%not_elem_of_nil|[= <-]]; [done|by left].
Qed.

Lemma deliver_ext R R' l m : (∀ t, t ∈ l → R' !! t = R !! t) → deliver R' l m = deliver R l m.
Proof.
  induction l as [|u l IH]; intros H; cbn [deliver]; [done|].
  rewrite (H u) by by left. rewrite IH by (intros; apply H; by right). done.
Qed.

(** Who stays does not match the message, when nobody took it. *)
Lemma deliver_stay R l m t x :
  (deliver R l m).2 = None → (∀ u, u ∈ l → is_Some (R !! u)) → t ∈ l → t ∉ (deliver R l m).1 →
  R !! t = Some x → testmsg m (r_msgtype x) (r_mode x) = false.
Proof.
  induction l as [|u l IH]; intros Ho Hl Ht Hn Hx; [by apply not_elem_of_nil in Ht|]. cbn [deliver] in *.
  destruct (Hl u ltac:(by left)) as [y Hy]. rewrite Hy in Ho, Hn.
  destruct (testmsg m (r_msgtype y) (r_mode y)) eqn:Et.
  - destruct (r_maxsize y <? m_ts m); [|done]. destruct (deliver R l m) as [E o]. cbn in *.
    apply not_elem_of_cons in Hn as [Hne Hn]. apply elem_of_cons in Ht as [->|Ht]; [done|].
    apply IH; [done| |done..]. intros; apply Hl. by right.
  - destruct (decide (t = u)) as [->|Hne]; [congruence|]. apply elem_of_cons in Ht as [->|Ht]; [done|].
    apply IH; [done| |done..]. intros; apply Hl. by right.
Qed.

(** What the code makes of it. *)
Definition taken_by (R : gmap Z msg_receiver) (o : option Z) (now : Z) (q : msg_queue) : msg_queue :=
  match o ≫= λ t, R !! t with Some x => set_received (rc_pid (r_args x)) now q | None => q end.

Lemma list_filter_stay (P : Z → Prop) `{!∀ x, Decision (P x)} (l : list Z) :
  (∀ x, x ∈ l → P x) → filter P l = l.
Proof.
  intros HP. induction l as [|x l IH]; [done|]. rewrite filter_cons_True by (apply HP; by left).
  f_equal. apply IH. intros y Hy. apply HP. by right.
Qed.

Lemma pipelined_spec l m now q s Ψ :
  NoDup l → (∀ t, t ∈ l → t ∈ q_receivers q ∧ is_Some (receivers s !! t)) →
  let E := (deliver (receivers s) l m).1 in
  let o := (deliver (receivers s) l m).2 in
  wp (pipelined_loop l m now q) (λ r s', ∃ R' A',
    s' = with_frames R' (senders s) A' s ∧
    r = (bool_decide (is_Some o),
         taken_by (receivers s) o now (set_receivers (filter (λ t, ¬ gone E o t) (q_receivers q)) q)) ∧
    (∀ t, R' !! t = passed (receivers s) E o m t) ∧
    (∀ t, t ∈ A' ↔ t ∈ asleep s ∧ ¬ gone E o t)) Ψ s.
Proof.
  revert q s. induction l as [|t l IH]; intros q s Hnd Hl; cbn [pipelined_loop deliver fst snd].
  { apply wp_ret. exists (receivers s), (asleep s). split_and!; [by rewrite with_frames_id| |done|].
    - rewrite bool_decide_eq_false_2 by by intros []. f_equal. cbn. destruct q. unfold set_receivers. cbn. f_equal.
      symmetry. apply list_filter_stay. intros t _ [H%not_elem_of_nil|H]; done.
    - intros t. split; [|tauto]. intros H. split; [done|]. intros [H'%not_elem_of_nil|H']; done. }
  apply NoDup_cons in Hnd as [Htl Hnd]. destruct (Hl t ltac:(by left)) as [Hin [x Hx]].
  eapply wp_bind, wp_get_receiver; [exact Hx|]. rewrite Hx.
  destruct (testmsg m (r_msgtype x) (r_mode x)) eqn:Et.
  2:{ apply IH; [done|]. intros u Hu. apply Hl. by right. }
  rewrite decide_True by done. destruct (r_maxsize x <? m_ts m) eqn:Eb.
  - apply wp_bind, wp_modify, wp_bind, wp_modify.
    set (s1 := on_receivers _ _). set (q1 := set_receivers _ q).
    assert (deliver (receivers s1) l m = deliver (receivers s) l m) as Hd.
    { apply deliver_ext. intros u Hu. cbn. rewrite lookup_insert_ne; [done|]. by intros ->. }
    eapply wp_mono; [apply IH; [done|]|].
    + intros u Hu. assert (u ≠ t) by (by intros ->). destruct (Hl u ltac:(by right)) as [Hq [y Hy]]. split.
      * cbn. by apply list_elem_of_filter.
      * cbn. rewrite lookup_insert_ne by done. eauto.
    + rewrite Hd. pose proof (deliver_sub (receivers s) l m) as Hsub.
      destruct (deliver (receivers s) l m) as [E o]. cbn [fst snd] in *.
      intros r s' (R' & A' & -> & -> & HR & HA). exists R', A'. split_and!; [done| | |].
      * f_equal. unfold taken_by.
        assert (o ≫= (λ u, receivers s1 !! u) = o ≫= (λ u, receivers s !! u)) as ->.
        { destruct o as [u|]; [|done]. cbn. rewrite lookup_insert_ne; [done|]. intros ->.
          apply Htl, Hsub. by right. }
        assert (set_receivers (filter (λ u, ¬ gone E o u) (q_receivers q1)) q1
          = set_receivers (filter (λ u, ¬ gone (t :: E) o u) (q_receivers q)) q) as ->; [|done].
        unfold q1, set_receivers. cbn. f_equal. rewrite list_filter_filter. apply list_filter_iff.
        intros u. unfold gone. rewrite elem_of_cons. tauto.
      * intros u. rewrite HR. unfold passed. cbn. destruct (decide (u = t)) as [->|Hne].
        -- rewrite (bool_decide_eq_false_2 (t ∈ E)), (bool_decide_eq_false_2 (o = Some t)), (bool_decide_eq_true_2 (t ∈ t :: E)).
           ++ by rewrite lookup_insert_eq, Hx.
           ++ by left.
           ++ intros ->. apply Htl, Hsub. by right.
           ++ intros Hin'. apply Htl, Hsub. by left.
        -- rewrite lookup_insert_ne by done.
           by rewrite (bool_decide_ext (u ∈ t :: E) (u ∈ E)) by (rewrite elem_of_cons; tauto).
      * intros u. rewrite HA. cbn. rewrite elem_of_difference, elem_of_singleton. unfold gone.
        rewrite elem_of_cons. tauto.
  - apply wp_bind, wp_modify, wp_bind, wp_modify, wp_ret. cbn [fst snd].
    eexists _, _. split_and!; [reflexivity| | |].
    + f_equal. unfold taken_by. cbn. rewrite Hx.
      assert (filter (λ j, j ≠ t) (q_receivers q) = filter (λ u, ¬ gone [] (Some t) u) (q_receivers q)) as ->; [|done].
      apply list_filter_iff. intros u. unfold gone. rewrite elem_of_nil. split; [|intros H ->; tauto].
      intros H [?|[= ->]]; done.
    + intros u. unfold passed. rewrite (bool_decide_eq_false_2 (u ∈ [])) by apply not_elem_of_nil. cbn.
      destruct (decide (u = t)) as [->|Hne].
      * by rewrite lookup_insert_eq, bool_decide_eq_true_2, Hx.
      * rewrite lookup_insert_ne, bool_decide_eq_false_2 by congruence. done.
    + intros u. cbn. rewrite elem_of_difference, elem_of_singleton. unfold gone. rewrite elem_of_nil.
      split; [intros [? ?]; split; [done|]; intros [?|[= ->]]; done|]. intros [? H]. split; [done|].
      intros ->. tauto.
Qed.

End MsgSteps.
