(* ===== verification/MsgKeep.v ===== *)
(** * System V message queues: what keeps the invariant

    One lemma per kind of change: of one queue and its sleepers, of a frame that is in no
    queue, of the whole array. *)

From stdpp Require Import prelude numbers list gmap.
From Stdlib Require Import ZArith Lia.
From S2P Require Import Prelude Ipc IpcFacts Msg MsgFacts MsgSystem MsgSteps.

#[local] Set Default Goal Selector "!".
#[local] Open Scope Z_scope.

Module MsgKeep.
Import Ipc IpcFacts Msg MsgFacts MsgSystem MsgSteps.

(** ** Sums *)

Lemma msum_fmap {A} (f : A → Z) (m m' : gmap Z A) : f <$> m' = f <$> m → msum f m' = msum f m.
Proof.
  intros H. assert (∀ m : gmap Z A, msum f m = msum id (f <$> m)) as E.
  { intros m0. unfold msum. by rewrite map_fold_fmap. }
  by rewrite !E, H.
Qed.

Lemma msum_alike {A} (f : A → Z) (m m' : gmap Z A) :
  (∀ t, f <$> m' !! t = f <$> m !! t) → msum f m' = msum f m.
Proof. intros H. apply msum_fmap. apply map_eq. intros t. rewrite !lookup_fmap. apply H. Qed.

Lemma msum_nonneg {A} (f : A → Z) (m : gmap Z A) : (∀ t x, m !! t = Some x → 0 <= f x) → 0 <= msum f m.
Proof.
  intros H. unfold msum. apply (map_fold_weak_ind (λ n m, (∀ t x, m !! t = Some x → 0 <= f x) → 0 <= n)); [done| |done].
  intros t x m' r Ht IH Hm. pose proof (Hm t x (lookup_insert_eq _ _ _)).
  assert (0 <= r); [|lia]. apply IH. intros u y Hu. apply (Hm u y).
  rewrite lookup_insert_ne; [done|]. intros ->. congruence.
Qed.

Lemma slot_sum_nonneg f ids : (∀ i q, obj ids i = Some q → 0 <= f q) → 0 <= slot_sum f ids.
Proof.
  intros H. rewrite slot_sum_def. apply lsum_nonneg. intros i _. unfold slot_val. destruct (obj ids i) eqn:E; [eauto|lia].
Qed.

Definition mem_nonneg (w : msg_msg → Z) : Prop := ∀ m, msg_ok m → 0 <= w m.

Lemma lsum_msgs w l : mem_nonneg w → Forall msg_ok l → 0 <= lsum w l.
Proof.
  intros Hw Hl. apply lsum_nonneg. intros m Hm. apply Hw. by eapply Forall_forall.
Qed.

Lemma weight_parts w s : mem_nonneg w → sys_ok s →
  0 <= msum (slot_weight w) (receivers s) ∧ 0 <= msum (λ x, w (s_msg x)) (senders s) ∧
  ∀ i q, obj (msg_ids s) i = Some q → 0 <= lsum w (q_messages q).
Proof.
  intros Hw Hs. split_and!.
  - apply msum_nonneg. intros t x Hx. unfold slot_weight.
    pose proof (so_rcv _ Hs t x Hx) as [_ H]. destruct (r_msg x); [lia| |lia]. apply Hw, H.
  - apply msum_nonneg. intros t x Hx. pose proof (so_snd _ Hs t x Hx) as (_ & H & _). by apply Hw.
  - intros i q Hq. apply lsum_msgs; [done|]. apply (so_queue _ Hs i q Hq).
Qed.

Lemma msg_mem_nonneg : mem_nonneg msg_mem.
Proof. intros m Hm%msg_ok_size. unfold msg_mem. lia. Qed.

Lemma lsum_mem l : lsum msg_mem l = 24 * Z.of_nat (length l) + lsum m_ts l.
Proof. induction l as [|m l IH]; [done|]. cbn -[Z.mul]. unfold lsum, msg_mem in *. cbn -[Z.mul]. lia. Qed.

(** The counts of a queue do not wrap around. *)
Lemma queue_bounds s i q :
  sys_ok s → obj (msg_ids s) i = Some q →
  0 <= q_cbytes q ∧ 0 <= q_qnum q ∧ 24 * q_qnum q + q_cbytes q <= weight msg_mem s.
Proof.
  intros Hs Hq. destruct (weight_parts _ s msg_mem_nonneg Hs) as (H1 & H2 & H3).
  pose proof (so_queue _ Hs i q Hq) as Hqo. pose proof (queue_small _ _ _ (so_ids _ Hs) Hq) as [Hi _].
  pose proof (slot_sum_ge (λ q, lsum msg_mem (q_messages q)) _ i q H3 Hi Hq) as H4. cbn beta in H4.
  rewrite (qo_num _ _ _ _ _ Hqo), (qo_bytes _ _ _ _ _ Hqo). rewrite lsum_mem in H4.
  pose proof (lsum_msgs m_ts _ msg_ok_size (qo_msgs _ _ _ _ _ Hqo)). unfold weight. lia.
Qed.

(** A task waits in one queue only. *)
Lemma rcv_elsewhere s t i q j y : sys_ok s → obj (msg_ids s) i = Some q →
  obj (msg_ids s) j = Some y → j ≠ i → t ∈ q_receivers y → t ∉ q_receivers q.
Proof.
  intros Hs Hi Hj Hne Ht Hq.
  destruct (qo_rcv _ _ _ _ _ (so_queue _ Hs _ _ Hj) t Ht) as (x & Hx & _ & Ex & _).
  destruct (qo_rcv _ _ _ _ _ (so_queue _ Hs _ _ Hi) t Hq) as (x' & Hx' & _ & Ex' & _).
  rewrite Hx in Hx'. injection Hx' as <-. rewrite Ex in Ex'. by eapply Hne, qident_inj; [apply Hs|..].
Qed.

Lemma snd_elsewhere s t i q j y : sys_ok s → obj (msg_ids s) i = Some q →
  obj (msg_ids s) j = Some y → j ≠ i → t ∈ q_senders y → t ∉ q_senders q.
Proof.
  intros Hs Hi Hj Hne Ht Hq.
  destruct (qo_snd _ _ _ _ _ (so_queue _ Hs _ _ Hj) t Ht) as (x & Hx & _ & Ex & _).
  destruct (qo_snd _ _ _ _ _ (so_queue _ Hs _ _ Hi) t Hq) as (x' & Hx' & _ & Ex' & _).
  rewrite Hx in Hx'. injection Hx' as <-. rewrite Ex in Ex'. by eapply Hne, qident_inj; [apply Hs|..].
Qed.

(** ** Changing one queue *)

Record queue_change (s s' : msys) (i : nat) (q q' : msg_queue) : Prop := {
  qc_old : obj (msg_ids s) i = Some q;
  qc_ids : ids_ok (msg_ids s');
  qc_obj : ∀ j, obj (msg_ids s') j = if decide (j = i) then Some q' else obj (msg_ids s) j;
  qc_ptr : q_ptr q' = q_ptr q;
  qc_ident : qident i q' = qident i q;
  (* frames elsewhere *)
  qc_rcv : ∀ t x, receivers s !! t = Some x → t ∉ q_receivers q → receivers s' !! t = Some x;
  qc_snd : ∀ t x, senders s !! t = Some x → t ∉ q_senders q → senders s' !! t = Some x;
  qc_asleep : ∀ t, t ∈ asleep s' → t ∈ asleep s ∨ receivers s !! t = None ∧ senders s !! t = None;
  (* the queue, and the frames that changed *)
  qc_queue : queue_ok (receivers s') (senders s') (asleep s') i q';
  qc_rcv' : ∀ t x, receivers s' !! t = Some x →
    receivers s !! t = Some x ∧ t ∉ q_receivers q ∨ rcv_ok (msg_ids s') (asleep s') t x;
  qc_snd' : ∀ t x, senders s' !! t = Some x →
    senders s !! t = Some x ∧ t ∉ q_senders q ∨ snd_ok (msg_ids s') (asleep s') t x;
  qc_one : ∀ t x, receivers s' !! t = Some x → senders s' !! t = None
}.

Section change.
Context (s s' : msys) (i : nat) (q q' : msg_queue).
Context (Hs : sys_ok s) (Hc : queue_change s s' i q q').

Lemma change_sum f : slot_sum f (msg_ids s') = slot_sum f (msg_ids s) - f q + f q'.
Proof.
  rewrite (slot_sum_change f (msg_ids s) (msg_ids s') i).
  - unfold slot_val. rewrite (qc_obj _ _ _ _ _ Hc), decide_True by done. by rewrite (qc_old _ _ _ _ _ Hc).
  - by apply (queue_small _ _ _ (so_ids _ Hs) (qc_old _ _ _ _ _ Hc)).
  - intros j Hj. by rewrite (qc_obj _ _ _ _ _ Hc), decide_False.
Qed.

Lemma change_live p : live (msg_ids s') p = live (msg_ids s) p.
Proof. unfold live. rewrite change_sum. unfold holds_ptr. rewrite (qc_ptr _ _ _ _ _ Hc). lia. Qed.

Lemma change_weight w :
  weight w s' = weight w s - lsum w (q_messages q) + lsum w (q_messages q')
    + (msum (slot_weight w) (receivers s') - msum (slot_weight w) (receivers s))
    + (msum (λ x, w (s_msg x)) (senders s') - msum (λ x, w (s_msg x)) (senders s)).
Proof. unfold weight. rewrite change_sum. lia. Qed.

Lemma change_queues j y :
  obj (msg_ids s') j = Some y → queue_ok (receivers s') (senders s') (asleep s') j y.
Proof.
  rewrite (qc_obj _ _ _ _ _ Hc). destruct (decide (j = i)) as [->|Hne].
  { intros [= <-]. apply Hc. }
  intros Hj. pose proof (so_queue _ Hs _ _ Hj) as [M N B RN R SN S]. split; try done.
  - intros t Ht. destruct (R t Ht) as (x & Hx & Hr). exists x. split; [|done].
    apply (qc_rcv _ _ _ _ _ Hc); [done|]. eapply (rcv_elsewhere s); [done|apply Hc|done..].
  - intros t Ht. destruct (S t Ht) as (x & Hx & ? & ? & ? & Hroom). exists x. split_and!; try done.
    + apply (qc_snd _ _ _ _ _ Hc); [done|]. eapply (snd_elsewhere s); [done|apply Hc|done..].
    + intros Ha. apply Hroom. destruct (qc_asleep _ _ _ _ _ Hc t Ha) as [?|[_ ?]]; [done|congruence].
Qed.

Lemma change_rcv t x : receivers s' !! t = Some x → rcv_ok (msg_ids s') (asleep s') t x.
Proof.
  intros Hx. destruct (qc_rcv' _ _ _ _ _ Hc t x Hx) as [[Hold Hn]|?]; [|done].
  destruct (so_rcv _ Hs t x Hold) as [Hz Hr]. split; [done|].
  assert (t ∉ asleep s → t ∉ asleep s') as Ha.
  { intros Hna H. destruct (qc_asleep _ _ _ _ _ Hc t H) as [?|[? _]]; [done|congruence]. }
  destruct (r_msg x); [|destruct Hr; auto|auto].
  destruct Hr as (j & y & Hj & Ht). exists j, y. split; [|done]. rewrite (qc_obj _ _ _ _ _ Hc).
  rewrite decide_False; [done|]. intros ->. rewrite (qc_old _ _ _ _ _ Hc) in Hj. by injection Hj as <-.
Qed.

Lemma change_snd t x : senders s' !! t = Some x → snd_ok (msg_ids s') (asleep s') t x.
Proof.
  intros Hx. destruct (qc_snd' _ _ _ _ _ Hc t x Hx) as [[Hold Hn]|?]; [|done].
  destruct (so_snd _ Hs t x Hold) as (H0 & Hm & Hz & Hl). split_and!; [done..|].
  destruct (s_linked x).
  - destruct Hl as (j & y & Hj & Ht). exists j, y. split; [|done]. rewrite (qc_obj _ _ _ _ _ Hc).
    rewrite decide_False; [done|]. intros ->. rewrite (qc_old _ _ _ _ _ Hc) in Hj. by injection Hj as <-.
  - destruct Hl as [Hl Ha]. split; [by rewrite change_live|]. intros H.
    destruct (qc_asleep _ _ _ _ _ Hc t H) as [?|[_ ?]]; [done|congruence].
Qed.

Lemma sys_change :
  (∀ p, refs s' !! p = if refcount s' p =? 0 then None else Some (refcount s' p)) →
  pieces s' = weight msg_pieces s' → weight msg_mem s' < 2 ^ 32 →
  msg_bytes s' = sgn32 (slot_sum q_cbytes (msg_ids s) - q_cbytes q + q_cbytes q') →
  msg_hdrs s' = sgn32 (slot_sum q_qnum (msg_ids s) - q_qnum q + q_qnum q') → sys_ok s'.
Proof.
  intros Hr Hp Hm Hb Hh. split; try done.
  - apply Hc.
  - apply change_queues.
  - apply change_rcv.
  - apply change_snd.
  - apply (qc_one _ _ _ _ _ Hc).
  - intros p. rewrite change_live. apply Hs.
  - by rewrite change_sum.
  - by rewrite change_sum.
Qed.
End change.

(** ** Dropping frames that are in no queue *)

Lemma sys_drop s s' :
  sys_ok s → msg_ids s' = msg_ids s → asleep s' ⊆ asleep s →
  receivers s' ⊆ receivers s → senders s' ⊆ senders s →
  (∀ t x, receivers s !! t = Some x → r_msg x = RWait → receivers s' !! t = Some x) →
  (∀ t x, senders s !! t = Some x → s_linked x = true → senders s' !! t = Some x) →
  (∀ p, refs s' !! p = if refcount s' p =? 0 then None else Some (refcount s' p)) →
  pieces s' = weight msg_pieces s' → weight msg_mem s' < 2 ^ 32 →
  msg_bytes s' = msg_bytes s → msg_hdrs s' = msg_hdrs s → sys_ok s'.
Proof.
  intros Hs Hi HA HR HS Hr Hsn Hrefs Hp Hm Hb Hh. split; rewrite ?Hi; try done.
  - apply Hs.
  - intros i q Hq. destruct (so_queue _ Hs i q Hq) as [M N B RN R SN S]. split; try done.
    + intros t Ht. destruct (R t Ht) as (x & Hx & ? & ? & ? & ?). exists x. split; [by apply Hr|done].
    + intros t Ht. destruct (S t Ht) as (x & Hx & ? & ? & ? & Hroom). exists x.
      split_and!; [by apply Hsn|done..|]. intros Ha. apply Hroom. by apply HA.
  - intros t x Hx. destruct (so_rcv _ Hs t x) as [Hz H]; [by eapply lookup_weaken|]. split; [done|].
    destruct (r_msg x); [done| |].
    + destruct H. split; [done|]. intros H'. by apply HA in H'.
    + intros H'. by apply HA in H'.
  - intros t x Hx. destruct (so_snd _ Hs t x) as (H0 & Hmx & Hz & H); [by eapply lookup_weaken|].
    split_and!; [done..|]. destruct (s_linked x); [done|]. destruct H. split; [done|].
    intros H'. by apply HA in H'.
  - intros t x Hx. destruct (senders s' !! t) as [y|] eqn:E; [|done].
    assert (senders s !! t = None) by (apply (so_one _ Hs t x); by eapply lookup_weaken).
    assert (senders s !! t = Some y) by (by eapply lookup_weaken). congruence.
  - apply Hs.
  - rewrite Hb. apply Hs.
  - rewrite Hh. apply Hs.
Qed.

End MsgKeep.
