(* ===== verification/MsgSend.v ===== *)
(** * System V message queues: sending *)

From stdpp Require Import prelude numbers list gmap.
From Stdlib Require Import ZArith Lia.
From S2P Require Import Prelude Ipc IpcFacts Msg MsgFacts MsgSystem MsgSteps MsgKeep.

#[local] Set Default Goal Selector "!".
#[local] Open Scope Z_scope.

Module MsgSend.
Import Ipc IpcFacts Msg MsgFacts MsgSystem MsgSteps MsgKeep.

(** ** Passing a message on *)

Lemma deliver_disj R l m t :
  NoDup l → (deliver R l m).2 = Some t → t ∉ (deliver R l m).1.
Proof.
  induction 1 as [|u l Hu Hnd IH]; cbn [deliver]; [done|].
  destruct (R !! u) as [x|]; [|done]. destruct (testmsg _ _ _); [|done].
  destruct (r_maxsize x <? m_ts m); [|intros _; apply not_elem_of_nil].
  pose proof (deliver_sub R l m t) as Hsub. destruct (deliver R l m) as [E o]. cbn [fst snd] in *.
  intros Ho. rewrite not_elem_of_cons. split; [|by apply IH]. intros ->. apply Hu, Hsub. by right.
Qed.

(** What passing a message to the receivers of a queue gives. *)
Section passing.
Context (R R' : gmap Z msg_receiver) (l : list Z) (m : msg_msg).
Let E := (deliver R l m).1.
Let o := (deliver R l m).2.
Context (Hnd : NoDup l) (Hwait : ∀ t, t ∈ l → ∃ x, R !! t = Some x ∧ r_msg x = RWait).
Context (HR : ∀ t, R' !! t = passed R E o m t).

Lemma passed_same t : ¬ gone E o t → R' !! t = R !! t.
Proof.
  intros H. rewrite HR. unfold passed. rewrite !bool_decide_eq_false_2; [done|..]; intros ?; apply H.
  - by right.
  - by left.
Qed.

Lemma passed_gone t x :
  gone E o t → R' !! t = Some x → t ∈ l ∧ ∃ y, R !! t = Some y ∧
    (t ∈ E ∧ x = rset (RErr E2BIG) y ∨ o = Some t ∧ x = rset (RMsg m) y).
Proof.
  intros Hg Hx. pose proof (deliver_sub R l m t Hg) as Ht. split; [done|].
  destruct (Hwait t Ht) as (y & Hy & _). exists y. split; [done|].
  rewrite HR in Hx. unfold passed in Hx. rewrite Hy in Hx. cbn in Hx.
  destruct (bool_decide_reflect (t ∈ E)); [injection Hx as <-; by left|].
  destruct Hg as [?|Ho]; [done|]. rewrite bool_decide_eq_true_2 in Hx by done. injection Hx as <-. by right.
Qed.

Lemma passed_weight w :
  msum (slot_weight w) R' = msum (slot_weight w) R + match o with Some _ => w m | None => 0 end.
Proof.
  assert (∀ t, t ∈ l → slot_weight w <$> R !! t = Some 0) as Hz.
  { intros t Ht. destruct (Hwait t Ht) as (x & -> & Hx). cbn. unfold slot_weight. by rewrite Hx. }
  destruct o as [t0|] eqn:Ho.
  - assert (gone E (Some t0) t0) as Hg by by right.
    assert (t0 ∈ l) as Ht0 by (apply (deliver_sub R l m); by right).
    assert (t0 ∉ E) as HE by (by apply deliver_disj). destruct (Hwait t0 Ht0) as (x & Hx & Hm).
    assert (R' !! t0 = Some (rset (RMsg m) x)) as Hx'.
    { rewrite HR. unfold passed. rewrite bool_decide_eq_false_2, bool_decide_eq_true_2 by done. by rewrite Hx. }
    assert (R' = <[t0 := rset (RMsg m) x]> (<[t0 := x]> R')) as -> by (by rewrite insert_insert_eq, insert_id).
    rewrite (msum_replace _ _ t0 x) by apply lookup_insert_eq. unfold slot_weight at 2 3. cbn. rewrite Hm.
    assert (msum (slot_weight w) (<[t0 := x]> R') = msum (slot_weight w) R) as ->; [|lia].
    apply msum_alike. intros t. destruct (decide (t = t0)) as [->|Hne]; [by rewrite lookup_insert_eq, Hx|].
    rewrite lookup_insert_ne, HR by done. unfold passed.
    destruct (bool_decide_reflect (t ∈ E)) as [HtE|]; [|by rewrite bool_decide_eq_false_2 by congruence].
    rewrite Hz; [|apply (deliver_sub R l m); by left].
    destruct (Hwait t) as (y & -> & _); [apply (deliver_sub R l m); by left|done].
  - rewrite Z.add_0_r. apply msum_alike. intros t. rewrite HR. unfold passed.
    destruct (bool_decide_reflect (t ∈ E)) as [HtE|]; [|by rewrite bool_decide_eq_false_2].
    rewrite Hz; [|apply (deliver_sub R l m); by left].
    destruct (Hwait t) as (y & -> & _); [apply (deliver_sub R l m); by left|done].
Qed.
End passing.

(** ** A message in hand *)

(** The system with a message that is in no queue and with no sleeping task. *)
Record in_hand (m : msg_msg) (s : msys) : Prop := {
  ih_ok : sys_ok (on_pieces (λ n, n - msg_pieces m) s);
  ih_msg : msg_ok m;
  ih_mem : weight msg_mem s + msg_mem m < 2 ^ 32
}.

Lemma wp_free_msg m s (P : msys → Prop) Ψ :
  in_hand m s → (∀ s', sys_ok s' → P s') → wp (free_msg m) (λ _ s', P s') Ψ s.
Proof. intros Hh HP. apply wp_modify. apply HP, Hh. Qed.

(** ** Sending *)

(** The state in which a call ends with queue [q'] stored back. *)
Definition stored_back (s : msys) (msqid : Z) (q' : msg_queue) : msys :=
  on_ids (λ ids, put_obj ids msqid q') s.

(** The queue that a call has locked. *)
Record locked (s : msys) (msqid : Z) (i : nat) (q : msg_queue) : Prop := {
  lk_id : 0 <= msqid;
  lk_slot : i = Z.to_nat (lid msqid);
  lk_obj : obj (msg_ids s) i = Some q;
  lk_ident : msqid = qident i q
}.

Lemma put_back ids msqid i (q q' : msg_queue) :
  ids_ok ids → 0 <= msqid → i = Z.to_nat (lid msqid) → obj ids i = Some q →
  q_perm q' = q_perm q →
  ids_ok (put_obj ids msqid q') ∧
  (∀ j, obj (put_obj ids msqid q') j = if decide (j = i) then Some q' else obj ids j).
Proof.
  intros Hok H0 -> Ho Hp. destruct (io_obj _ Hok _ _ Ho) as [Hd _]. cbn in Hd.
  apply (put_spec ids msqid q q'); [done..| |]; cbn; by rewrite Hp.
Qed.

Lemma room_false q q' n :
  q_qbytes q' = q_qbytes q → 0 <= n → 0 <= q_cbytes q <= q_cbytes q' → 0 <= q_qnum q <= q_qnum q' →
  n + q_cbytes q' < 2 ^ 32 → 1 + q_qnum q' < 2 ^ 32 → has_room q n = false → has_room q' n = false.
Proof.
  intros Hq Hn Hb Hm H1 H2. unfold has_room, wrap32. rewrite Hq, !Z.mod_small by lia.
  rewrite !andb_false_iff, !Z.leb_gt. lia.
Qed.

Section send.
Context (s : msys) (msqid : Z) (i : nat) (q : msg_queue) (m : msg_msg) (now tgid : Z).
Context (Hh : in_hand m s) (Hl : locked s msqid i q).
Context (R' : gmap Z msg_receiver) (A' : gset Z).
Let E := (deliver (receivers s) (q_receivers q) m).1.
Let o := (deliver (receivers s) (q_receivers q) m).2.
Context (HR : ∀ t, R' !! t = passed (receivers s) E o m t).
Context (HA : ∀ t, t ∈ A' ↔ t ∈ asleep s ∧ ¬ gone E o t).

(** The queue without the receivers that are served, with [k] more messages at its end. *)
Definition sent_queue (ms : list msg_msg) : msg_queue :=
  let q1 := taken_by (receivers s) o now
              (set_receivers (filter (λ t, ¬ gone E o t) (q_receivers q)) (set_sent tgid now q)) in
  set_messages (q_cbytes q + lsum m_ts ms) (q_qnum q + Z.of_nat (length ms)) (q_messages q ++ ms) q1.

Let s0 := on_pieces (λ n, n - msg_pieces m) s.
Let Hs : sys_ok s0 := ih_ok _ _ Hh.

Lemma taken_by_fields R u x :
  q_ptr (taken_by R u now x) = q_ptr x ∧ q_perm (taken_by R u now x) = q_perm x ∧
  q_qbytes (taken_by R u now x) = q_qbytes x ∧ q_receivers (taken_by R u now x) = q_receivers x ∧
  q_senders (taken_by R u now x) = q_senders x ∧ q_cbytes (taken_by R u now x) = q_cbytes x ∧
  q_qnum (taken_by R u now x) = q_qnum x ∧ q_messages (taken_by R u now x) = q_messages x.
Proof. unfold taken_by. by destruct (u ≫= _). Qed.

Lemma sent_fields ms :
  q_ptr (sent_queue ms) = q_ptr q ∧ q_perm (sent_queue ms) = q_perm q ∧
  q_qbytes (sent_queue ms) = q_qbytes q ∧
  q_receivers (sent_queue ms) = filter (λ t, ¬ gone E o t) (q_receivers q) ∧
  q_senders (sent_queue ms) = q_senders q.
Proof. unfold sent_queue, taken_by. by destruct (o ≫= _). Qed.

Lemma wait_frames t :
  t ∈ q_receivers q → ∃ x, receivers s !! t = Some x ∧ r_msg x = RWait.
Proof.
  intros Ht. destruct (qo_rcv _ _ _ _ _ (so_queue _ Hs i q (lk_obj _ _ _ _ Hl)) t Ht) as (x & Hx & _ & _ & Hm & _).
  eauto.
Qed.

(** The queue that is left: [ms] is the message, if nobody took it. *)
Lemma sent_queue_ok ms :
  ms = match o with Some _ => [] | None => [m] end →
  queue_ok R' (senders s) A' i (sent_queue ms).
Proof.
  intros Hms. pose proof (so_queue _ Hs i q (lk_obj _ _ _ _ Hl)) as [M N B RN R SN S].
  destruct (queue_bounds s0 i q Hs (lk_obj _ _ _ _ Hl)) as (B1 & B2 & B3).
  pose proof (ih_mem _ _ Hh) as Hmem. unfold s0 in B3. rewrite weight_pieces in B3.
  destruct (sent_fields ms) as (Hp & Hpm & Hqb & Hr & Hsn).
  assert (qident i (sent_queue ms) = qident i q) as Hid by (unfold qident; by rewrite Hpm).
  split.
  - cbn [q_messages sent_queue set_messages]. apply Forall_app. split; [done|]. subst ms.
    destruct o; [done|]. constructor; [apply Hh|done].
  - cbn [q_qnum q_messages sent_queue set_messages]. rewrite length_app, N. lia.
  - cbn [q_cbytes q_messages sent_queue set_messages]. by rewrite lsum_app, B.
  - rewrite Hr. by apply NoDup_filter.
  - rewrite Hr, Hp, Hid. intros t [Hg Ht]%list_elem_of_filter. destruct (R t Ht) as (x & Hx & ? & ? & ? & Hno).
    exists x. split_and!; try done.
    + by rewrite (passed_same (receivers s) R' (q_receivers q) m HR) by done.
    + cbn [q_messages sent_queue set_messages]. apply Forall_app. split; [done|]. subst ms.
      destruct o eqn:Ho; [done|]. constructor; [|done].
      apply (deliver_stay (receivers s) (q_receivers q) m t x); [done| |done| |done].
      * intros u Hu. destruct (R u Hu) as (y & Hy & _). eauto.
      * intros HE. apply Hg. by left.
  - by rewrite Hsn.
  - rewrite Hsn, Hp, Hid. intros t Ht. destruct (S t Ht) as (x & Hx & ? & ? & ? & Hroom).
    exists x. split_and!; try done. intros Ha%HA. destruct Ha as [Ha _]. specialize (Hroom Ha).
    pose proof (so_snd _ Hs t x Hx) as (_ & Hmx & Hz & _). apply msg_ok_size in Hmx as Hn. rewrite Hz in Hn.
    assert (msg_mem (s_msg x) + 24 * q_qnum q + q_cbytes q <= weight msg_mem s) as Hw.
    { destruct (weight_parts _ s0 msg_mem_nonneg Hs) as (W1 & W2 & W3).
      pose proof (queue_small _ _ _ (so_ids _ Hs) (lk_obj _ _ _ _ Hl)) as [Hi _].
      pose proof (slot_sum_ge (λ q, lsum msg_mem (q_messages q)) _ i q W3 Hi (lk_obj _ _ _ _ Hl)) as H4.
      cbn beta in H4. rewrite lsum_mem, <- N, <- B in H4.
      pose proof (msum_delete (λ x, msg_mem (s_msg x)) (senders s) t x Hx) as Hd.
      assert (0 <= msum (λ x, msg_mem (s_msg x)) (delete t (senders s))) as Hnn.
      { apply msum_nonneg. intros u y [_ Hu]%lookup_delete_Some. apply msg_mem_nonneg.
        by destruct (so_snd _ Hs u y Hu) as (_ & ? & _). }
      unfold s0 in W1, W2, H4. cbn [receivers senders msg_ids on_pieces] in W1, W2, H4. cbn beta in Hd. unfold weight. lia. }
    unfold msg_mem in Hw. rewrite Hz in Hw. unfold msg_mem in Hmem. pose proof (msg_ok_size _ (ih_msg _ _ Hh)).
    apply (room_false q); [done|done| | | | |done]; cbn [q_cbytes q_qnum sent_queue set_messages];
      subst ms; destruct o; cbn; lia.
Qed.

(** The state after the call. *)
Definition sent_state (ms : list msg_msg) (mb mh : Z) : msys :=
  mk_msys (put_obj (msg_ids s) msqid (sent_queue ms)) (refs s) R' (senders s) A' (pieces s) mb mh.

Lemma sent_change ms mb mh :
  ms = match o with Some _ => [] | None => [m] end →
  queue_change s0 (sent_state ms mb mh) i q (sent_queue ms).
Proof.
  intros Hms. destruct (sent_fields ms) as (Hp & Hpm & Hqb & Hr & Hsn).
  pose proof (so_queue _ Hs i q (lk_obj _ _ _ _ Hl)) as Hqo.
  destruct (put_back (msg_ids s) msqid i q (sent_queue ms) (so_ids _ Hs) (lk_id _ _ _ _ Hl)
    (lk_slot _ _ _ _ Hl) (lk_obj _ _ _ _ Hl) Hpm) as [Hok Hobj].
  split; cbn [msg_ids receivers senders asleep sent_state]; try done.
  - apply Hl.
  - unfold qident. by rewrite Hpm.
  - intros t x Hx Ht. rewrite (passed_same (receivers s) R' (q_receivers q) m HR); [done|].
    intros Hg. by apply Ht, (deliver_sub (receivers s) _ m).
  - intros t [Ha _]%HA. by left.
  - by apply sent_queue_ok.
  - intros t x Hx. destruct (decide (gone E o t)) as [Hg|Hg].
    + right. destruct (passed_gone (receivers s) R' (q_receivers q) m wait_frames HR t x Hg Hx)
        as (Ht & y & Hy & Hxy). destruct (so_rcv _ Hs t y Hy) as [Hz _].
      assert (t ∉ A') as Hna by (rewrite HA; tauto).
      destruct Hxy as [[_ ->]|[_ ->]]; (split; [exact Hz|]); cbn [r_msg rset]; [done|].
      split; [apply Hh|done].
    + rewrite (passed_same (receivers s) R' (q_receivers q) m HR) in Hx by done.
      destruct (decide (t ∈ q_receivers q)) as [Ht|Ht]; [right|by left].
      destruct (so_rcv _ Hs t x Hx) as [Hz _]. split; [done|].
      destruct (wait_frames t Ht) as (y & Hy & Hm). rewrite Hx in Hy. injection Hy as <-. rewrite Hm.
      exists i, (sent_queue ms). rewrite Hobj, decide_True by done. split; [done|]. rewrite Hr.
      by apply list_elem_of_filter.
  - intros t x Hx. destruct (decide (t ∈ q_senders q)) as [Ht|Ht]; [right|by left].
    destruct (so_snd _ Hs t x Hx) as (H0 & Hm & Hz & _). split_and!; [done..|].
    destruct (qo_snd _ _ _ _ _ Hqo t Ht) as (y & Hy & _ & _ & Hlk & _).
    pose proof (eq_trans (eq_sym Hx) Hy) as [= <-]. rewrite Hlk. exists i, (sent_queue ms).
    rewrite Hobj, decide_True, Hsn by done. done.
  - intros t x Hx. destruct (receivers s !! t) as [y|] eqn:Hy; [by apply (so_one _ Hs t y)|].
    rewrite HR in Hx. unfold passed in Hx. rewrite Hy in Hx. cbn in Hx.
    by destruct (bool_decide (t ∈ E)); [|destruct (bool_decide (o = Some t))].
Qed.

Lemma sent_ok ms mb mh :
  ms = match o with Some _ => [] | None => [m] end →
  mb = sgn32 (slot_sum q_cbytes (msg_ids s) + lsum m_ts ms) →
  mh = sgn32 (slot_sum q_qnum (msg_ids s) + Z.of_nat (length ms)) → sys_ok (sent_state ms mb mh).
Proof.
  intros Hms Hb Hm. pose proof (sent_change ms mb mh Hms) as Hc.
  pose proof (so_queue _ Hs i q (lk_obj _ _ _ _ Hl)) as Hqo.
  assert (∀ w, weight w (sent_state ms mb mh) = weight w s + w m) as Hw.
  { intros w. rewrite (change_weight _ _ _ _ _ Hs Hc). unfold s0. rewrite weight_pieces.
    cbn [receivers senders on_pieces sent_state].
    rewrite (passed_weight (receivers s) R' (q_receivers q) m (qo_rnodup _ _ _ _ _ Hqo) wait_frames HR w).
    cbn [q_messages sent_queue set_messages]. rewrite lsum_app, Hms. fold o. destruct o; cbn; lia. }
  apply (sys_change _ _ _ _ _ Hs Hc).
  - intros p. pose proof (so_refs _ Hs p) as Hr.
    assert (refcount (sent_state ms mb mh) p = refcount s0 p) as ->; [|exact Hr].
    unfold refcount. by rewrite (change_live _ _ _ _ _ Hs Hc).
  - rewrite Hw. pose proof (so_pieces _ Hs) as Hp. unfold s0 in Hp. rewrite weight_pieces in Hp.
    cbn in Hp |- *. lia.
  - rewrite Hw. apply Hh.
  - cbn [msg_bytes sent_state q_cbytes sent_queue set_messages]. rewrite Hb. f_equal. cbn. lia.
  - cbn [msg_hdrs sent_state q_qnum sent_queue set_messages]. rewrite Hm. f_equal. cbn. lia.
Qed.

End send.

(** ** Waiting for room *)

Lemma live_member s i q : sys_ok s → obj (msg_ids s) i = Some q → live (msg_ids s) (q_ptr q) = 1.
Proof.
  intros Hs Hq. pose proof (so_live _ Hs (q_ptr q)) as H1.
  assert (holds_ptr (q_ptr q) q <= live (msg_ids s) (q_ptr q)) as H2.
  { apply (slot_sum_ge _ _ i); [|by apply (queue_small _ _ _ (so_ids _ Hs) Hq)|done].
    intros j x _. unfold holds_ptr. case_zb; lia. }
  unfold holds_ptr in H2. rewrite Z.eqb_refl in H2. lia.
Qed.

Lemma refs_ptr_nonneg p (M : gmap Z msg_sender) : 0 <= msum (refs_ptr p) M.
Proof. apply msum_nonneg. intros t x _. unfold refs_ptr. case_zb; lia. Qed.

Lemma live_refs s i q : sys_ok s → obj (msg_ids s) i = Some q →
  refs s !! q_ptr q = Some (refcount s (q_ptr q)) ∧ 1 <= refcount s (q_ptr q).
Proof.
  intros Hs Hq. pose proof (live_member s i q Hs Hq) as Hl. pose proof (refs_ptr_nonneg (q_ptr q) (senders s)).
  assert (1 <= refcount s (q_ptr q)) by (unfold refcount; lia). split; [|done].
  rewrite (so_refs _ Hs). by replace (refcount s (q_ptr q) =? 0) with false by lia.
Qed.

Section wait.
Context (s : msys) (i : nat) (q : msg_queue) (m : msg_msg) (t : Z) (a : snd_args).
Context (Hh : in_hand m s) (Hl : locked s (sn_id a) i q) (Ha : m_ts m = sn_msgsz a).
Context (Hr : receivers s !! t = None) (Hsn : senders s !! t = None).
Context (Hfull : has_room q (sn_msgsz a) = false).

Let q' := set_senders (q_senders q ++ [t]) q.
Let s' := mk_msys (put_obj (msg_ids s) (sn_id a) q')
            (<[q_ptr q := refcount s (q_ptr q) + 1]> (refs s)) (receivers s)
            (<[t := mk_sender a (q_ptr q) m true]> (senders s)) ({[t]} ∪ asleep s)
            (pieces s) (msg_bytes s) (msg_hdrs s).
Let s0 := on_pieces (λ n, n - msg_pieces m) s.
Let Hs : sys_ok s0 := ih_ok _ _ Hh.

Lemma wait_change : queue_change s0 s' i q q'.
Proof.
  pose proof (so_queue _ Hs i q (lk_obj _ _ _ _ Hl)) as [M N B RN R SN S].
  destruct (put_back (msg_ids s) (sn_id a) i q q' (so_ids _ Hs) (lk_id _ _ _ _ Hl)
    (lk_slot _ _ _ _ Hl) (lk_obj _ _ _ _ Hl) eq_refl) as [Hok Hobj].
  assert (t ∉ q_senders q) as Hnin.
  { intros Ht. destruct (S t Ht) as (x & Hx & _). by pose proof (eq_trans (eq_sym Hsn) Hx). }
  split; cbn [msg_ids receivers senders asleep s']; try done.
  - apply Hl.
  - intros u x Hx Hu. rewrite lookup_insert_ne; [done|]. intros <-. by pose proof (eq_trans (eq_sym Hsn) Hx).
  - intros u [->%elem_of_singleton|Hu]%elem_of_union; [by right|by left].
  - split; try done.
    + cbn. apply NoDup_app. split_and!; [done| |apply NoDup_singleton].
      intros x Hx ->%list_elem_of_singleton. done.
    + cbn. intros u [Hu| ->%list_elem_of_singleton]%elem_of_app.
      * destruct (S u Hu) as (x & Hx & ? & ? & ? & Hroom). exists x.
        assert (u ≠ t) by (by intros ->). rewrite lookup_insert_ne by done. split_and!; try done.
        intros [?%elem_of_singleton|Hu']%elem_of_union; [done|by apply Hroom].
      * eexists. rewrite lookup_insert_eq. split; [done|]. cbn. split_and!; [done|apply Hl|done|done].
  - intros u x Hx. destruct (decide (u ∈ q_receivers q)) as [Hu|Hu]; [right|by left].
    destruct (so_rcv _ Hs u x Hx) as [Hz _]. split; [done|].
    destruct (R u Hu) as (y & Hy & _ & _ & Hm & _). pose proof (eq_trans (eq_sym Hx) Hy) as [= <-].
    rewrite Hm. exists i, q'. by rewrite Hobj, decide_True.
  - intros u x Hx. destruct (decide (u = t)) as [->|Hne].
    + rewrite lookup_insert_eq in Hx. injection Hx as <-. right. split_and!; cbn.
      * apply Hl.
      * apply Hh.
      * done.
      * exists i, q'. rewrite Hobj, decide_True by done. split; [done|]. cbn. apply elem_of_app. right.
        by apply list_elem_of_singleton.
    + rewrite lookup_insert_ne in Hx by done.
      destruct (decide (u ∈ q_senders q)) as [Hu|Hu]; [right|by left].
      destruct (so_snd _ Hs u x Hx) as (H0 & Hm & Hz & _). split_and!; [done..|].
      destruct (S u Hu) as (y & Hy & _ & _ & Hlk & _). pose proof (eq_trans (eq_sym Hx) Hy) as [= <-].
      rewrite Hlk. exists i, q'. rewrite Hobj, decide_True by done. split; [done|]. cbn.
      apply elem_of_app. by left.
  - intros u x Hx. rewrite lookup_insert_ne; [by apply (so_one _ Hs u x)|]. intros <-. by pose proof (eq_trans (eq_sym Hr) Hx).
Qed.

Lemma wait_ok : sys_ok s'.
Proof.
  pose proof wait_change as Hc.
  assert (∀ w, weight w s' = weight w s + w m) as Hw.
  { intros w. rewrite (change_weight _ _ _ _ _ Hs Hc). unfold s0. rewrite weight_pieces.
    cbn [receivers senders on_pieces s' q' q_messages set_senders]. rewrite msum_insert by done. cbn. lia. }
  assert (∀ p, refcount s' p = refcount s p + (if q_ptr q =? p then 1 else 0)) as Hrc.
  { intros p. unfold refcount. rewrite (change_live _ _ _ _ _ Hs Hc).
    cbn [senders s']. rewrite msum_insert by done. unfold refs_ptr at 1. cbn. lia. }
  apply (sys_change _ _ _ _ _ Hs Hc).
  - intros p. rewrite Hrc. cbn [refs s']. pose proof (so_refs _ Hs p) as Hp. 
    change (refcount s0 p) with (refcount s p) in Hp. change (refs s0) with (refs s) in Hp.
    destruct (Z.eqb_spec (q_ptr q) p) as [<-|Hne].
    + rewrite lookup_insert_eq. destruct (live_refs s0 i q Hs (lk_obj _ _ _ _ Hl)) as [_ Hge].
      change (refcount s0 (q_ptr q)) with (refcount s (q_ptr q)) in Hge.
      by replace (refcount s (q_ptr q) + 1 =? 0) with false by lia.
    + by rewrite lookup_insert_ne, Z.add_0_r.
  - rewrite Hw. pose proof (so_pieces _ Hs) as Hp. unfold s0 in Hp. rewrite weight_pieces in Hp.
    cbn in Hp |- *. lia.
  - rewrite Hw. apply Hh.
  - cbn [msg_bytes s' q_cbytes q' set_senders]. rewrite (so_bytes _ Hs : msg_bytes s = _). f_equal. cbn. lia.
  - cbn [msg_hdrs s' q_qnum q' set_senders]. rewrite (so_hdrs _ Hs : msg_hdrs s = _). f_equal. cbn. lia.
Qed.
End wait.

(** ** One round of msgsnd *)

(** Code that keeps the invariant, whether it succeeds or fails. *)
Definition keeps {A} (c : SM msys A) (s : msys) : Prop :=
  wp c (λ _ s', sys_ok s') (λ _ s', sys_ok s') s.

Lemma keeps_free_fail {A} m e s : in_hand m s → keeps (A := A) (free_msg m;; fail e) s.
Proof. intros Hh. apply wp_bind, wp_modify, wp_fail. apply Hh. Qed.

Lemma sent_nil s q m now tgid :
  sent_queue s q m now tgid [] =
  taken_by (receivers s) (deliver (receivers s) (q_receivers q) m).2 now
    (set_receivers (filter (λ t, ¬ gone (deliver (receivers s) (q_receivers q) m).1
                                        (deliver (receivers s) (q_receivers q) m).2 t) (q_receivers q))
       (set_sent tgid now q)).
Proof.
  unfold sent_queue, taken_by. rewrite Z.add_0_r, Z.add_0_r, app_nil_r.
  by destruct (_ ≫= _); destruct q.
Qed.

Lemma sent_one s q m now tgid n :
  m_ts m = n → 0 <= n → 0 <= q_cbytes q → 0 <= q_qnum q → n + q_cbytes q < 2 ^ 32 → 1 + q_qnum q < 2 ^ 32 →
  enqueue (sent_queue s q m now tgid []) m n = sent_queue s q m now tgid [m].
Proof.
  intros <- Hn Hb Hq H1 H2. unfold enqueue. unfold sent_queue at 1 2 3.
  cbn [q_cbytes q_qnum q_messages set_messages]. cbn [lsum foldr length]. rewrite app_nil_r.
  unfold wrap32. rewrite !Z.mod_small by lia. unfold sent_queue. cbn [lsum foldr length].
  unfold set_messages. cbn. f_equal; lia.
Qed.

Lemma sgn32_idem_add a b : sgn32 (sgn32 a + b) = sgn32 (a + b).
Proof.
  unfold sgn32. assert (wrap32 ((if wrap32 a <? 2 ^ 31 then wrap32 a else wrap32 a - 2 ^ 32) + b)
    = wrap32 (a + b)) as ->; [|done].
  unfold wrap32. destruct (_ <? _).
  - by rewrite Z.add_mod_idemp_l by lia.
  - replace (a mod 2 ^ 32 - 2 ^ 32 + b) with (a mod 2 ^ 32 + b + (-1) * 2 ^ 32) by lia.
    rewrite Z.mod_add by lia. by rewrite Z.add_mod_idemp_l by lia.
Qed.

(** A round with room: the receivers are served, and the message is taken or stored. *)
Lemma snd_room t a m q now s i Ψ :
  in_hand m s → locked s (sn_id a) i q → m_ts m = sn_msgsz a →
  ipcperms (sn_cred a) (q_perm q) S_IWUGO = false → has_room q (sn_msgsz a) = true →
  let E := (deliver (receivers s) (q_receivers q) m).1 in
  let o := (deliver (receivers s) (q_receivers q) m).2 in
  let ms := match o with Some _ => [] | None => [m] end in
  wp (snd_try t a m q now) (λ r s', r = Finished tt ∧ ∃ R' A' mb mh,
    s' = sent_state s (sn_id a) q m now (sn_tgid a) R' A' ms mb mh ∧
    (∀ u, R' !! u = passed (receivers s) E o m u) ∧ (∀ u, u ∈ A' ↔ u ∈ asleep s ∧ ¬ gone E o u) ∧
    mb = sgn32 (slot_sum q_cbytes (msg_ids s) + lsum m_ts ms) ∧
    mh = sgn32 (slot_sum q_qnum (msg_ids s) + Z.of_nat (length ms))) Ψ s.
Proof.
  intros Hh Hl Hts Hperm Eroom. pose proof (ih_ok _ _ Hh) as Hs. pose proof (lk_obj _ _ _ _ Hl) as Ho.
  pose proof (so_queue _ Hs i q Ho) as Hqo. pose proof (msg_ok_size _ (ih_msg _ _ Hh)) as Hsz.
  destruct (queue_bounds _ i q Hs Ho) as (B1 & B2 & B3). rewrite weight_pieces in B3.
  pose proof (ih_mem _ _ Hh) as Hmem. unfold msg_mem in Hmem at 2.
  cbv zeta. unfold snd_try. rewrite Hperm, Eroom.
  apply wp_bind. unfold pipelined_send. eapply wp_mono; [apply pipelined_spec|].
  - apply Hqo.
  - intros u Hu. split; [done|]. destruct (qo_rcv _ _ _ _ _ Hqo u Hu) as (x & Hx & _). eauto.
  - intros r s1 (R' & A' & -> & -> & HR & HA).
    change (q_receivers (set_sent (sn_tgid a) now q)) with (q_receivers q) in *.
    rewrite <- (sent_nil s q m now (sn_tgid a)).
    destruct (deliver (receivers s) (q_receivers q) m).2 as [t0|] eqn:Ed; cbn [fst snd] in *.
    + rewrite bool_decide_eq_true_2 by eauto. apply wp_bind, wp_modify, wp_ret. split; [done|].
      exists R', A', (msg_bytes s), (msg_hdrs s). split_and!; [done..| |]; cbn; rewrite Z.add_0_r;
        [apply (so_bytes _ Hs)|apply (so_hdrs _ Hs)].
    + rewrite bool_decide_eq_false_2 by by intros []. apply wp_bind, wp_bind, wp_modify, wp_bind, wp_modify, wp_modify, wp_ret.
      rewrite (sent_one s q m now (sn_tgid a) (sn_msgsz a)) by lia. split; [done|].
      exists R', A', (sgn32 (msg_bytes s + sn_msgsz a)), (sgn32 (msg_hdrs s + 1)). split_and!; [done..| |].
      * rewrite (so_bytes _ Hs : msg_bytes s = _), sgn32_idem_add. f_equal. cbn. lia.
      * rewrite (so_hdrs _ Hs : msg_hdrs s = _), sgn32_idem_add. f_equal.
Qed.

Lemma snd_try_keeps t a m q now s i :
  in_hand m s → locked s (sn_id a) i q → m_ts m = sn_msgsz a →
  receivers s !! t = None → senders s !! t = None →
  keeps (snd_try t a m q now) s.
Proof.
  intros Hh Hl Hts Hr Hsn. pose proof (ih_ok _ _ Hh) as Hs. pose proof (lk_obj _ _ _ _ Hl) as Ho.
  destruct (ipcperms (sn_cred a) (q_perm q) S_IWUGO) eqn:Eperm.
  { unfold snd_try. rewrite Eperm. by apply keeps_free_fail. }
  destruct (has_room q (sn_msgsz a)) eqn:Eroom.
  - eapply wp_mono; [by eapply snd_room|]. intros r s1 (_ & R' & A' & mb & mh & -> & HR & HA & Hb & Hm).
    by apply (sent_ok s (sn_id a) i q m now (sn_tgid a) Hh Hl R' A' HR HA).
  - unfold snd_try. rewrite Eperm, Eroom. destruct (negb _); [by apply keeps_free_fail|].
    apply wp_bind, wp_modify, wp_bind, wp_modify, wp_bind. unfold wp at 1, ipc_rcu_getref.
    cbn [refs on_asleep on_senders]. destruct (live_refs _ i q Hs Ho) as [Href _].
    rewrite (Href : refs s !! q_ptr q = _). apply wp_bind, wp_modify, wp_ret.
    exact (wait_ok s i q m t a Hh Hl Hts Hr Hsn Eroom).
Qed.

End MsgSend.
