(* ===== verification/MsgSleep.v ===== *)
(** * System V message queues: senders that sleep and wake up *)

From stdpp Require Import prelude numbers list gmap.
From Stdlib Require Import ZArith Lia.
From S2P Require Import Prelude Ipc IpcFacts Msg MsgFacts MsgSystem MsgSteps MsgKeep MsgSend.

#[local] Set Default Goal Selector "!".
#[local] Open Scope Z_scope.

Module MsgSleep.
Import Ipc IpcFacts Msg MsgFacts MsgSystem MsgSteps MsgKeep MsgSend.

Lemma locked_of s msqid q :
  ids_ok (msg_ids s) → 0 <= msqid → ipc_lock (msg_ids s) msqid = Some q →
  ipc_checkid (q_perm q) msqid = false → locked s msqid (Z.to_nat (lid msqid)) q.
Proof.
  intros Hok H0 Hl Hc. split; [done|done|by apply lock_spec|]. by apply qident_checked.
Qed.

(** ** The call *)

Lemma load_in_hand s m k text ty n :
  sys_ok s → shape m text → 1 <= ty → n = Z.of_nat (length text) →
  weight msg_mem s + 24 + n < 2 ^ 32 → k = mk_msg ty n (m_text m) (m_next m) →
  in_hand k (on_pieces (λ x, x + msg_pieces m) s).
Proof.
  intros Hs Hsh Hty Hn Hmem ->. split.
  - assert (on_pieces (λ x, x - msg_pieces (mk_msg ty n (m_text m) (m_next m))) (on_pieces (λ x, x + msg_pieces m) s) = s) as ->; [|done].
    destruct s. unfold on_pieces, msg_pieces. cbn. f_equal. lia.
  - split; [done|]. exists text. done.
  - rewrite weight_pieces. unfold msg_mem at 2. cbn. lia.
Qed.

(** What a task that sends owes: it is not asleep elsewhere, its buffer is as long as it
    says, and there is address space for the message. *)
Record snd_pre (t : Z) (a : snd_args) (src : list Z) (s : msys) : Prop := {
  sp_rcv : receivers s !! t = None;
  sp_snd : senders s !! t = None;
  sp_src : sn_msgsz a <= Z.of_nat (length src);
  sp_mem : weight msg_mem s + 24 + sn_msgsz a < 2 ^ 32
}.

Lemma sys_msgsnd_keeps msg_ctlmax t a mtype src env now s :
  sys_ok s → snd_pre t a src s → keeps (sys_msgsnd msg_ctlmax t a mtype src env now) s.
Proof.
  intros Hs Hp. unfold sys_msgsnd. unfold keeps.
  destruct ((_ <? _) || _ || _) eqn:Ebad; [by apply wp_fail|]. apply orb_false_iff in Ebad as [Ebad Eid].
  apply orb_false_iff in Ebad as [_ Esz]. apply Z.ltb_ge in Eid, Esz.
  destruct mtype as [ty|]; [|by apply wp_fail]. destruct (Z.ltb_spec ty 1); [by apply wp_fail|].
  apply wp_bind. eapply wp_impl; [apply load_msg_spec| |].
  2:{ intros e s' (-> & _). done. }
  intros m s' [-> Hsh]. set (k := mk_msg ty (sn_msgsz a) (m_text m) (m_next m)).
  assert (in_hand k (on_pieces (λ x, x + msg_pieces m) s)) as Hh.
  { eapply (load_in_hand s m k _ ty (sn_msgsz a)); [done|exact Hsh|lia| |apply Hp|done]. rewrite length_take.
    pose proof (sp_src _ _ _ _ Hp). lia. }
  apply wp_bind, wp_gets. cbn [id msg_ids on_pieces].
  destruct (ipc_lock (msg_ids s) (sn_id a)) as [q|] eqn:El; [|by apply keeps_free_fail].
  destruct (ipc_checkid (q_perm q) (sn_id a)) eqn:Ec; [by apply keeps_free_fail|].
  eapply snd_try_keeps; [done| |done|apply Hp|apply Hp].
  apply (locked_of (on_pieces (λ x, x + msg_pieces m) s)); [apply Hs|done..].
Qed.

(** ** Waking up *)

Definition enc (n : Z) : option Z := if n =? 0 then None else Some n.

Lemma putref_refs (M : gmap Z Z) p0 n p :
  (if n - 1 =? 0 then delete p0 else insert p0 (n - 1)) M !! p
  = if decide (p = p0) then enc (n - 1) else M !! p.
Proof.
  unfold enc. destruct (n - 1 =? 0), (decide (p = p0)) as [->|Hne].
  - by rewrite lookup_delete_eq.
  - by rewrite lookup_delete_ne.
  - by rewrite lookup_insert_eq.
  - by rewrite lookup_insert_ne.
Qed.

(** The counts after a sender has gone. *)
Lemma refs_less s t x (M : gmap Z Z) (c : Z → Z) :
  sys_ok s → senders s !! t = Some x →
  (∀ p, c p = refcount s p - refs_ptr p x) →
  M = (if refcount s (s_ptr x) - 1 =? 0 then delete (s_ptr x) else insert (s_ptr x) (refcount s (s_ptr x) - 1)) (refs s) →
  ∀ p, M !! p = if c p =? 0 then None else Some (c p).
Proof.
  intros Hs Hx Hc -> p. rewrite putref_refs, Hc. unfold refs_ptr, enc.
  destruct (decide (p = s_ptr x)) as [->|Hne]; [by rewrite Z.eqb_refl|].
  replace (s_ptr x =? p) with false by lia. rewrite Z.sub_0_r. apply (so_refs _ Hs).
Qed.

Lemma sender_refs s t x : sys_ok s → senders s !! t = Some x →
  refs s !! s_ptr x = Some (refcount s (s_ptr x)).
Proof.
  intros Hs Hx. rewrite (so_refs _ Hs).
  assert (1 <= msum (refs_ptr (s_ptr x)) (senders s)) as H1.
  { pose proof (msum_ge (refs_ptr (s_ptr x)) (senders s) t x) as H. unfold refs_ptr in H at 2.
    rewrite Z.eqb_refl in H. apply H; [|done]. intros y. unfold refs_ptr. case_zb; lia. }
  assert (0 <= live (msg_ids s) (s_ptr x)) as H2.
  { apply slot_sum_nonneg. intros i q _. unfold holds_ptr. case_zb; lia. }
  by replace (refcount s (s_ptr x) =? 0) with false by (unfold refcount; lia).
Qed.

(** A sender leaves the queue that it waited in: its message is in its hand again. *)
Section unwait.
Context (s : msys) (t : Z) (x : msg_sender) (i : nat) (q : msg_queue).
Context (Hs : sys_ok s) (Hx : senders s !! t = Some x) (Hl : locked s (sn_id (s_args x)) i q).
Context (Ht : t ∈ q_senders q) (M : gmap Z Z).
Context (HM : M = (if refcount s (s_ptr x) - 1 =? 0 then delete (s_ptr x)
                   else insert (s_ptr x) (refcount s (s_ptr x) - 1)) (refs s)).

Let q' := set_senders (filter (λ j, j ≠ t) (q_senders q)) q.
Let s2 := mk_msys (put_obj (msg_ids s) (sn_id (s_args x)) q') M (receivers s) (delete t (senders s))
            (asleep s) (pieces s) (msg_bytes s) (msg_hdrs s).
Let s1 := on_pieces (λ n, n - msg_pieces (s_msg x)) s2.

Lemma unwait_obj j : obj (put_obj (msg_ids s) (sn_id (s_args x)) q') j
  = if decide (j = i) then Some q' else obj (msg_ids s) j.
Proof.
  by destruct (put_back (msg_ids s) (sn_id (s_args x)) i q q' (so_ids _ Hs) (lk_id _ _ _ _ Hl)
    (lk_slot _ _ _ _ Hl) (lk_obj _ _ _ _ Hl) eq_refl) as [_ ->].
Qed.

Lemma unwait_change : queue_change s s1 i q q'.
Proof.
  pose proof (so_queue _ Hs i q (lk_obj _ _ _ _ Hl)) as [Ms N B RN R SN S].
  pose proof unwait_obj as Hobj.
  split; cbn [msg_ids receivers senders asleep s1 s2 on_pieces]; try done.
  - apply Hl.
  - by destruct (put_back (msg_ids s) (sn_id (s_args x)) i q q' (so_ids _ Hs) (lk_id _ _ _ _ Hl)
      (lk_slot _ _ _ _ Hl) (lk_obj _ _ _ _ Hl) eq_refl) as [? _].
  - intros u y Hy Hu. rewrite lookup_delete_ne; [done|]. by intros <-.
  - by left.
  - split; try done.
    + cbn. by apply NoDup_filter.
    + cbn. intros u [Hne Hu]%list_elem_of_filter. destruct (S u Hu) as (y & Hy & ?). exists y.
      by rewrite lookup_delete_ne.
  - intros u y Hy. destruct (decide (u ∈ q_receivers q)) as [Hu|Hu]; [right|by left].
    destruct (so_rcv _ Hs u y Hy) as [Hz _]. split; [done|].
    destruct (R u Hu) as (y' & Hy' & _ & _ & Hm & _). rewrite Hy in Hy'. injection Hy' as <-.
    rewrite Hm. exists i, q'. by rewrite Hobj, decide_True.
  - intros u y [Hne Hy]%lookup_delete_Some.
    destruct (decide (u ∈ q_senders q)) as [Hu|Hu]; [right|by left].
    destruct (so_snd _ Hs u y Hy) as (H0 & Hm & Hz & _). split_and!; [done..|].
    destruct (S u Hu) as (y' & Hy' & _ & _ & Hlk & _). rewrite Hy in Hy'. injection Hy' as <-.
    rewrite Hlk. exists i, q'. rewrite Hobj, decide_True by done. split; [done|]. cbn.
    by apply list_elem_of_filter.
  - intros u y Hy. rewrite lookup_delete_None. right. by apply (so_one _ Hs u y).
Qed.

Lemma unwait_hand : in_hand (s_msg x) s2.
Proof.
  pose proof unwait_change as Hc. destruct (so_snd _ Hs t x Hx) as (_ & Hm & _).
  assert (∀ w, weight w s1 = weight w s - w (s_msg x)) as Hw.
  { intros w. rewrite (change_weight _ _ _ _ _ Hs Hc). cbn [receivers senders s1 s2 on_pieces q' q_messages set_senders].
    rewrite (msum_delete _ _ _ _ Hx). lia. }
  split.
  - apply (sys_change _ _ _ _ _ Hs Hc).
    + cbn [refs s1 s2 on_pieces]. apply (refs_less s t x); [done|done| |exact HM].
      intros p. unfold refcount. rewrite (change_live _ _ _ _ _ Hs Hc).
      cbn [senders s1 s2 on_pieces]. rewrite (msum_delete _ _ _ _ Hx). lia.
    + rewrite Hw. cbn. rewrite (so_pieces _ Hs). done.
    + rewrite Hw. pose proof (msg_mem_nonneg _ Hm). pose proof (so_mem _ Hs). lia.
    + cbn. rewrite (so_bytes _ Hs). f_equal. lia.
    + cbn. rewrite (so_hdrs _ Hs). f_equal. lia.
  - done.
  - unfold s1 in Hw. specialize (Hw msg_mem). rewrite weight_pieces in Hw. pose proof (so_mem _ Hs). lia.
Qed.

Lemma unwait_locked : locked s2 (sn_id (s_args x)) i q'.
Proof.
  split; [apply Hl|apply Hl| |].
  - cbn [msg_ids s2]. by rewrite unwait_obj, decide_True.
  - rewrite (lk_ident _ _ _ _ Hl) at 1. done.
Qed.
End unwait.

(** A sender whose queue is gone. *)
Lemma orphan_hand s t x M :
  sys_ok s → senders s !! t = Some x → s_linked x = false →
  M = (if refcount s (s_ptr x) - 1 =? 0 then delete (s_ptr x)
       else insert (s_ptr x) (refcount s (s_ptr x) - 1)) (refs s) →
  in_hand (s_msg x) (mk_msys (msg_ids s) M (receivers s) (delete t (senders s)) (asleep s)
                       (pieces s) (msg_bytes s) (msg_hdrs s)).
Proof.
  intros Hs Hx Hlk HM. set (s2 := mk_msys _ _ _ _ _ _ _ _).
  destruct (so_snd _ Hs t x Hx) as (_ & Hm & _).
  assert (∀ w, weight w s2 = weight w s - w (s_msg x)) as Hw.
  { intros w. unfold weight. cbn [msg_ids receivers senders s2]. rewrite (msum_delete _ _ _ _ Hx). lia. }
  split.
  - apply (sys_drop s); try done; cbn [senders on_pieces s2].
    + apply delete_subseteq.
    + intros u y Hy Hl. rewrite lookup_delete_ne; [done|]. intros ->. rewrite Hx in Hy. injection Hy as <-. congruence.
    + cbn [refs s2 on_pieces]. apply (refs_less s t x); [done|done| |exact HM].
      intros p. unfold refcount. cbn [msg_ids senders s2 on_pieces]. rewrite (msum_delete _ _ _ _ Hx). lia.
    + rewrite weight_pieces, Hw. cbn. rewrite (so_pieces _ Hs). done.
    + rewrite weight_pieces, Hw. pose proof (msg_mem_nonneg _ Hm). pose proof (so_mem _ Hs). lia.
  - done.
  - rewrite Hw. pose proof (so_mem _ Hs). lia.
Qed.

(** [ipc_lock_by_ptr] finds the queue of a sender that is still linked, and no queue for
    one whose queue is gone. *)
Lemma lock_by_ptr_sender s t x (Φ : option msg_queue → msys → Prop) Ψ :
  sys_ok s → senders s !! t = Some x →
  (∀ i q, s_linked x = true → locked s (sn_id (s_args x)) i q → t ∈ q_senders q → Φ (Some q) s) →
  (s_linked x = false → Φ None s) →
  wp (lock_by_ptr (sn_id (s_args x)) (s_ptr x)) Φ Ψ s.
Proof.
  intros Hs Hx Hlive Hgone. destruct (so_snd _ Hs t x Hx) as (H0 & _ & _ & Hl).
  unfold wp, lock_by_ptr. rewrite (sender_refs s t x) by done. destruct (s_linked x).
  - destruct Hl as (i & q & Hq & Ht). destruct (qo_snd _ _ _ _ _ (so_queue _ Hs i q Hq) t Ht)
      as (y & Hy & Hp & Hid & _). rewrite Hx in Hy. injection Hy as <-.
    destruct (qident_split _ _ _ (so_ids _ Hs) Hq) as [Hpos Hslot].
    assert (Z.to_nat (lid (sn_id (s_args x))) = i) as Ei by (by rewrite Hid).
    rewrite Ei. pose proof Hq as Hq'. apply obj_Some in Hq' as ->. rewrite Hp, Z.eqb_refl.
    apply (Hlive i q); [done| |done]. by split.
  - destruct Hl as [Hl _].
    destruct (entries (msg_ids s) !! Z.to_nat (lid (sn_id (s_args x)))) as [[q|]|] eqn:E; [|by apply Hgone..].
    destruct (Z.eqb_spec (q_ptr q) (s_ptr x)) as [Ep|]; [|by apply Hgone].
    apply obj_Some in E. pose proof (live_member s _ q Hs E) as H1. rewrite Ep in H1. lia.
Qed.

Lemma wp_putref p n s (Φ : unit → msys → Prop) Ψ :
  refs s !! p = Some n →
  Φ tt (on_refs (if n - 1 =? 0 then delete p else insert p (n - 1)) s) → wp (ipc_rcu_putref p) Φ Ψ s.
Proof. intros H. unfold wp, ipc_rcu_putref. by rewrite H. Qed.

Lemma msgsnd_wake_keeps t sig now s :
  sys_ok s → is_Some (senders s !! t) → keeps (msgsnd_wake t sig now) s.
Proof.
  intros Hs [x Hx]. unfold keeps, msgsnd_wake. eapply wp_bind, wp_get_sender; [exact Hx|].
  destruct (so_snd _ Hs t x Hx) as (H0 & Hm & Hts & _).
  apply wp_bind. apply (lock_by_ptr_sender s t x); [done|done| |].
  - intros i q Hlk Hl Ht. eapply wp_bind, wp_putref; [by apply (sender_refs s t x)|].
    apply wp_bind, wp_modify. rewrite Hlk, decide_True by done.
    apply wp_bind, wp_ret, wp_bind, wp_modify.
    pose proof (unwait_hand s t x i q Hs Hx Hl Ht _ eq_refl) as Hh.
    destruct sig; [by apply keeps_free_fail|].
    eapply snd_try_keeps; [exact Hh|by apply (unwait_locked s t x i q Hs Hl)|done| |cbn; apply lookup_delete_eq].
    cbn. destruct (receivers s !! t) as [y|] eqn:E; [|done]. by rewrite (so_one _ Hs t y E) in Hx.
  - intros Hlk. eapply wp_bind, wp_putref; [by apply (sender_refs s t x)|].
    apply wp_bind, wp_modify. apply keeps_free_fail. by apply (orphan_hand s t x).
Qed.

End MsgSleep.
