(* ===== verification/MsgReceive.v ===== *)
(** * System V message queues: receiving *)

From stdpp Require Import prelude numbers list gmap.
From Stdlib Require Import ZArith Lia.
From S2P Require Import Prelude Ipc IpcFacts Msg MsgFacts MsgSystem MsgSteps MsgKeep MsgSend MsgSleep.

#[local] Set Default Goal Selector "!".
#[local] Open Scope Z_scope.

Module MsgReceive.
Import Ipc IpcFacts Msg MsgFacts MsgSystem MsgSteps MsgKeep MsgSend MsgSleep.

Lemma msum_sub {A} (f : A → Z) (m' m : gmap Z A) :
  m' ⊆ m → (∀ t x, m !! t = Some x → m' !! t = None → f x = 0) → msum f m' = msum f m.
Proof.
  revert m'. induction m as [|t x m Ht IH] using map_ind; intros m' Hsub Hz.
  { assert (m' = ∅) as ->; [|done]. apply map_eq. intros t. destruct (m' !! t) as [y|] eqn:Hy; [|done].
    by pose proof (lookup_weaken _ _ _ _ Hy Hsub). }
  rewrite msum_insert by done. destruct (m' !! t) as [y|] eqn:Hy.
  - pose proof (lookup_weaken _ _ _ _ Hy Hsub) as Hy'. rewrite lookup_insert_eq in Hy'. injection Hy' as <-.
    rewrite <- (insert_delete_id m' t x) by done. rewrite msum_insert by apply lookup_delete_eq.
    f_equal. apply IH.
    + rewrite <- (delete_insert_id m t x) by done. by apply delete_mono.
    + intros u y Hu Hn. apply lookup_delete_None in Hn as [<-|Hn]; [congruence|].
      apply (Hz u); [|done]. rewrite lookup_insert_ne; [done|]. intros ->. congruence.
  - rewrite (Hz t x); [|apply lookup_insert_eq|done]. apply IH.
    + rewrite <- (delete_insert_id m t x), <- (delete_id m' t) by done. by apply delete_mono.
    + intros u y Hu Hn. apply (Hz u); [|done]. rewrite lookup_insert_ne; [done|]. intros ->. congruence.
Qed.

(** ** A queue with fewer receivers and messages *)

(** The senders of a queue stay; receivers may leave it, messages too. *)
Record queue_less (s s' : msys) (msqid : Z) (i : nat) (q q' : msg_queue) : Prop := {
  ql_ids : msg_ids s' = put_obj (msg_ids s) msqid q';
  ql_seq : seq (q_perm q') = seq (q_perm q);
  ql_deleted : deleted (q_perm q') = false;
  ql_ptr : q_ptr q' = q_ptr q;
  ql_senders : q_senders q' = q_senders q;
  ql_snd : senders s' = senders s;
  ql_asleep : asleep s' ⊆ asleep s;
  ql_rcv : receivers s' ⊆ receivers s;
  ql_stay : ∀ t x, receivers s !! t = Some x → t ∉ q_receivers q → receivers s' !! t = Some x;
  ql_nodup : NoDup (q_receivers q');
  ql_receivers : ∀ t, t ∈ q_receivers q' ↔ t ∈ q_receivers q ∧ is_Some (receivers s' !! t);
  ql_msgs : ∀ m, m ∈ q_messages q' → m ∈ q_messages q;
  ql_num : q_qnum q' = Z.of_nat (length (q_messages q'));
  ql_bytes : q_cbytes q' = lsum m_ts (q_messages q');
  ql_room : ∀ t x, t ∈ q_senders q → senders s !! t = Some x → t ∈ asleep s' →
    has_room q' (sn_msgsz (s_args x)) = false
}.

Section less.
Context (s s' : msys) (msqid : Z) (i : nat) (q q' : msg_queue).
Context (Hs : sys_ok s) (Hl : locked s msqid i q) (Hq : queue_less s s' msqid i q q').

Lemma less_put : ids_ok (msg_ids s') ∧
  ∀ j, obj (msg_ids s') j = if decide (j = i) then Some q' else obj (msg_ids s) j.
Proof.
  destruct Hl as [H0 Hi Ho Hid]. destruct Hq. rewrite ql_ids0, Hi.
  apply (put_spec _ _ q); [apply Hs|done|by rewrite <- Hi|done..].
Qed.

Lemma less_ident : qident i q' = qident i q.
Proof. unfold qident. by rewrite (ql_seq _ _ _ _ _ _ Hq). Qed.

Lemma less_change : queue_change s s' i q q'.
Proof.
  destruct less_put as [Hok Hobj]. pose proof less_ident as Hid.
  pose proof (so_queue _ Hs i q (lk_obj _ _ _ _ Hl)) as [Ms N B RN R SN S]. destruct Hq.
  assert (∀ t x, receivers s' !! t = Some x → receivers s !! t = Some x) as Hweak by (intros; by eapply lookup_weaken).
  split; try done.
  - apply Hl.
  - intros t x Hx _. by rewrite ql_snd0.
  - intros t Ht. left. by apply ql_asleep0.
  - split; try done.
    + rewrite Forall_forall in *. auto.
    + intros t [Ht [x Hx]]%ql_receivers0. destruct (R t Ht) as (y & Hy & Hp & Hi & Hm & Hno).
      exists x. apply Hweak in Hx as Hx'. rewrite Hy in Hx'. injection Hx' as <-.
      rewrite Hid, ql_ptr0. split_and!; try done. rewrite Forall_forall in *. auto.
    + by rewrite ql_senders0.
    + rewrite ql_senders0, Hid, ql_snd0, ql_ptr0. intros t Ht. destruct (S t Ht) as (x & Hx & ? & ? & ? & _).
      exists x. split_and!; try done. by eapply ql_room0.
  - intros t x Hx. apply Hweak in Hx as Hx'. destruct (decide (t ∈ q_receivers q)) as [Ht|]; [right|by left].
    destruct (so_rcv _ Hs t x Hx') as [Hz _]. split; [done|]. destruct (R t Ht) as (y & Hy & _ & _ & Hm & _).
    rewrite Hx' in Hy. injection Hy as <-. rewrite Hm. exists i, q'. rewrite Hobj, decide_True by done.
    split; [done|]. apply ql_receivers0. eauto.
  - rewrite ql_snd0. intros t x Hx. destruct (decide (t ∈ q_senders q)) as [Ht|]; [right|by left].
    destruct (so_snd _ Hs t x Hx) as (H0 & Hm & Hz & _). split_and!; [done..|].
    destruct (S t Ht) as (y & Hy & _ & _ & Hlk & _). rewrite Hx in Hy. injection Hy as <-.
    rewrite Hlk. exists i, q'. rewrite Hobj, decide_True, ql_senders0 by done. done.
  - intros t x Hx. rewrite ql_snd0. by apply (so_one _ Hs t x), Hweak.
Qed.

Lemma less_weight w :
  weight w s' = weight w s - lsum w (q_messages q) + lsum w (q_messages q').
Proof.
  rewrite (change_weight _ _ _ _ _ Hs less_change), (ql_snd _ _ _ _ _ _ Hq).
  rewrite (msum_sub (slot_weight w) (receivers s') (receivers s)); [lia|apply Hq|].
  intros t x Hx Hnone. destruct (decide (t ∈ q_receivers q)) as [Ht|Ht].
  - destruct (qo_rcv _ _ _ _ _ (so_queue _ Hs i q (lk_obj _ _ _ _ Hl)) t Ht) as (y & Hy & _ & _ & Hm & _).
    rewrite Hx in Hy. injection Hy as <-. unfold slot_weight. by rewrite Hm.
  - by rewrite (ql_stay _ _ _ _ _ _ Hq t x Hx Ht) in Hnone.
Qed.

Lemma less_ok :
  refs s' = refs s → pieces s' = weight msg_pieces s' →
  lsum msg_mem (q_messages q') <= lsum msg_mem (q_messages q) →
  msg_bytes s' = sgn32 (msg_bytes s + (q_cbytes q' - q_cbytes q)) →
  msg_hdrs s' = sgn32 (msg_hdrs s + (q_qnum q' - q_qnum q)) → sys_ok s'.
Proof.
  intros Hr Hp Hm Hb Hh. pose proof less_change as Hc. apply (sys_change _ _ _ _ _ Hs Hc); [|done|..].
  - intros p. rewrite Hr, (so_refs _ Hs). unfold refcount.
    by rewrite (change_live _ _ _ _ _ Hs Hc), (ql_snd _ _ _ _ _ _ Hq).
  - rewrite less_weight. pose proof (so_mem _ Hs). lia.
  - rewrite Hb, (so_bytes _ Hs), sgn32_idem_add. f_equal. lia.
  - rewrite Hh, (so_hdrs _ Hs), sgn32_idem_add. f_equal. lia.
Qed.
End less.


(** ** Taking a message *)

Lemma rcv_finish_keeps a m put copies s :
  in_hand m s → 0 <= rc_msgsz a → keeps (rcv_finish a m put copies) s.
Proof.
  intros Hh Hsz. destruct (ih_msg _ _ Hh) as (_ & text & Hsh & Hts). unfold keeps, rcv_finish.
  set (n := if _ <? _ then _ else _).
  destruct (store_msg_spec m text (Z.to_nat n) copies Hsh) as (r & -> & _).
  { subst n. case_zb; lia. }
  destruct put; apply wp_bind, wp_modify, wp_ret, Hh.
Qed.

Section take.
Context (s : msys) (msqid : Z) (i : nat) (q : msg_queue) (k : nat) (m : msg_msg) (tgid now : Z).
Context (Hs : sys_ok s) (Hl : locked s msqid i q) (Hk : q_messages q !! k = Some m).
Context (A' : gset Z) (HA : woken (q_senders q) (asleep s) A').

Let q' := set_received tgid now
  (set_messages (wrap32 (q_cbytes q - m_ts m)) (wrap32 (q_qnum q - 1)) (delete k (q_messages q)) q).
Let s' := mk_msys (put_obj (msg_ids s) msqid q') (refs s) (receivers s) (senders s) A' (pieces s)
            (sgn32 (msg_bytes s + - m_ts m)) (sgn32 (msg_hdrs s + -1)).

Lemma take_msg_ok : msg_ok m.
Proof.
  pose proof (so_queue _ Hs i q (lk_obj _ _ _ _ Hl)) as Hqo.
  by apply (Forall_lookup_1 _ _ _ _ (qo_msgs _ _ _ _ _ Hqo) Hk).
Qed.

(** The counts do not go below zero. *)
Lemma take_counts : wrap32 (q_cbytes q - m_ts m) = q_cbytes q - m_ts m ∧ wrap32 (q_qnum q - 1) = q_qnum q - 1.
Proof.
  pose proof (so_queue _ Hs i q (lk_obj _ _ _ _ Hl)) as [Ms N B _ _ _ _].
  destruct (queue_bounds s i q Hs (lk_obj _ _ _ _ Hl)) as (B1 & B2 & B3). pose proof (so_mem _ Hs) as Hm.
  pose proof (msg_ok_size _ take_msg_ok). pose proof (lookup_lt_Some _ _ _ Hk).
  assert (m_ts m <= q_cbytes q) as Hle.
  { rewrite B. pose proof (lsum_delete m_ts _ _ _ Hk) as Hd.
    assert (0 <= lsum m_ts (delete k (q_messages q))); [|lia].
    apply lsum_msgs; [exact msg_ok_size|]. by apply Forall_delete. }
  unfold wrap32. rewrite !Z.mod_small by lia. done.
Qed.

Lemma take_less : queue_less s (on_pieces (λ n, n - msg_pieces m) s') msqid i q q'.
Proof.
  pose proof (so_queue _ Hs i q (lk_obj _ _ _ _ Hl)) as [Ms N B RN R SN S].
  destruct take_counts as [C1 C2]. pose proof (lookup_lt_Some _ _ _ Hk) as Hlt.
  split; cbn [msg_ids receivers senders asleep s' on_pieces q' set_received set_messages q_perm q_ptr
    q_senders q_receivers q_messages q_qnum q_cbytes]; try done.
  - by destruct (io_obj _ (so_ids _ Hs) i q (lk_obj _ _ _ _ Hl)) as [? _].
  - intros t Ht. by apply HA in Ht as [? _].
  - intros t. split; [|by intros [? _]]. intros Ht. split; [done|]. destruct (R t Ht) as (x & Hx & _). eauto.
  - intros x Hx. apply list_elem_of_lookup in Hx as (j & Hj).
    destruct (decide (j < k)%nat).
    + rewrite list_lookup_delete_lt in Hj by done. by eapply list_elem_of_lookup_2.
    + rewrite list_lookup_delete_ge in Hj by lia. by eapply list_elem_of_lookup_2.
  - rewrite C2, N, length_delete by eauto. lia.
  - rewrite C1, B. by rewrite (lsum_delete _ _ _ _ Hk).
  - intros t x Ht _ Ha. by apply HA in Ha as [_ ?].
Qed.

Lemma take_ok : in_hand m s'.
Proof.
  pose proof take_less as Hq. destruct take_counts as [C1 C2].
  assert (∀ w, weight w s' = weight w s - w m) as Hw.
  { intros w. pose proof (less_weight _ _ _ _ _ _ Hs Hl Hq w) as Hw. rewrite weight_pieces in Hw. rewrite Hw.
    cbn [q' set_received set_messages q_messages]. rewrite (lsum_delete _ _ _ _ Hk). lia. }
  split.
  - apply (less_ok _ _ _ _ _ _ Hs Hl Hq); cbn [refs pieces msg_bytes msg_hdrs on_pieces s' q' set_received
      set_messages q_messages q_cbytes q_qnum].
    + done.
    + rewrite weight_pieces, Hw. by rewrite (so_pieces _ Hs).
    + rewrite (lsum_delete _ _ _ _ Hk). pose proof (msg_mem_nonneg _ take_msg_ok). lia.
    + rewrite C1. f_equal. lia.
    + rewrite C2. f_equal. lia.
  - apply take_msg_ok.
  - rewrite Hw. pose proof (so_mem _ Hs). lia.
Qed.
End take.

(** ** Waiting for a message *)

Section wait.
Context (s : msys) (i : nat) (q : msg_queue) (t : Z) (x : msg_receiver).
Context (Hs : sys_ok s) (Hl : locked s (rc_id (r_args x)) i q).
Context (Hr : receivers s !! t = None) (Hsn : senders s !! t = None).
Context (Hz : 0 <= rc_msgsz (r_args x)) (Hp : r_ptr x = q_ptr q) (Hx : r_msg x = RWait).
Context (Hno : Forall (λ m, testmsg m (r_msgtype x) (r_mode x) = false) (q_messages q)).

Let q' := set_receivers (q_receivers q ++ [t]) q.
Let s' := mk_msys (put_obj (msg_ids s) (rc_id (r_args x)) q') (refs s) (<[t := x]> (receivers s))
            (senders s) ({[t]} ∪ asleep s) (pieces s) (msg_bytes s) (msg_hdrs s).

Lemma rwait_change : queue_change s s' i q q'.
Proof.
  pose proof (so_queue _ Hs i q (lk_obj _ _ _ _ Hl)) as [M N B RN R SN S].
  destruct (put_back (msg_ids s) (rc_id (r_args x)) i q q' (so_ids _ Hs) (lk_id _ _ _ _ Hl)
    (lk_slot _ _ _ _ Hl) (lk_obj _ _ _ _ Hl) eq_refl) as [Hok Hobj].
  assert (t ∉ q_receivers q) as Hnin.
  { intros Ht. destruct (R t Ht) as (y & Hy & _). congruence. }
  split; cbn [msg_ids receivers senders asleep s']; try done.
  - apply Hl.
  - intros u y Hy Hu. rewrite lookup_insert_ne; [done|]. congruence.
  - intros u [->%elem_of_singleton|Hu]%elem_of_union; [by right|by left].
  - split; try done.
    + cbn. apply NoDup_app. split_and!; [done| |apply NoDup_singleton].
      intros u Hu ->%list_elem_of_singleton. done.
    + cbn. intros u [Hu| ->%list_elem_of_singleton]%elem_of_app.
      * rewrite lookup_insert_ne by (by intros ->). by apply R.
      * exists x. rewrite lookup_insert_eq. split_and!; [done..|apply Hl|done|done].
    + cbn. intros u Hu. destruct (S u Hu) as (y & Hy & ? & ? & ? & Hroom). exists y. split_and!; try done.
      intros [->%elem_of_singleton|Hu']%elem_of_union; [congruence|by apply Hroom].
  - intros u y Hy. destruct (decide (u = t)) as [->|Hne].
    + rewrite lookup_insert_eq in Hy. injection Hy as <-. right. split; [done|]. rewrite Hx.
      exists i, q'. rewrite Hobj, decide_True by done. split; [done|]. cbn. apply elem_of_app. right.
      by apply list_elem_of_singleton.
    + rewrite lookup_insert_ne in Hy by done.
      destruct (decide (u ∈ q_receivers q)) as [Hu|Hu]; [right|by left].
      destruct (so_rcv _ Hs u y Hy) as [Hy0 _]. split; [done|].
      destruct (R u Hu) as (y' & Hy' & _ & _ & Hm & _). rewrite Hy in Hy'. injection Hy' as <-. rewrite Hm.
      exists i, q'. rewrite Hobj, decide_True by done. split; [done|]. cbn. apply elem_of_app. by left.
  - intros u y Hy. destruct (decide (u ∈ q_senders q)) as [Hu|Hu]; [right|by left].
    destruct (so_snd _ Hs u y Hy) as (H0 & Hm & Hy0 & _). split_and!; [done..|].
    destruct (S u Hu) as (y' & Hy' & _ & _ & Hlk & _). rewrite Hy in Hy'. injection Hy' as <-.
    rewrite Hlk. exists i, q'. by rewrite Hobj, decide_True.
  - intros u y Hy. destruct (decide (u = t)) as [->|Hne]; [done|].
    rewrite lookup_insert_ne in Hy by done. by apply (so_one _ Hs u y).
Qed.

Lemma rwait_ok : sys_ok s'.
Proof.
  pose proof rwait_change as Hc.
  assert (∀ w, weight w s' = weight w s) as Hw.
  { intros w. rewrite (change_weight _ _ _ _ _ Hs Hc).
    cbn [receivers senders s' q' q_messages set_receivers]. rewrite msum_insert by done.
    unfold slot_weight at 1. rewrite Hx. lia. }
  apply (sys_change _ _ _ _ _ Hs Hc).
  - intros p. unfold refcount. rewrite (change_live _ _ _ _ _ Hs Hc). apply (so_refs _ Hs).
  - rewrite Hw. apply Hs.
  - rewrite Hw. apply Hs.
  - cbn [msg_bytes s' q_cbytes q' set_receivers]. rewrite (so_bytes _ Hs). f_equal. lia.
  - cbn [msg_hdrs s' q_qnum q' set_receivers]. rewrite (so_hdrs _ Hs). f_equal. lia.
Qed.
End wait.

(** ** One round of msgrcv *)

Lemma types_of s i q : sys_ok s → obj (msg_ids s) i = Some q → types_ok (q_messages q).
Proof.
  intros Hs Hq. eapply Forall_impl; [apply (so_queue _ Hs i q Hq)|]. by intros m [? _].
Qed.

Lemma rcv_try_keeps t a ty mode q now put copies s i :
  sys_ok s → locked s (rc_id a) i q → 0 <= rc_msgsz a →
  receivers s !! t = None → senders s !! t = None →
  keeps (rcv_try t a ty mode q now put copies) s.
Proof.
  intros Hs Hl Hz Hr Hsn. pose proof (lk_obj _ _ _ _ Hl) as Ho.
  pose proof (so_queue _ Hs i q Ho) as Hqo. unfold keeps, rcv_try.
  destruct (ipcperms _ _ _); [by apply wp_fail|].
  pose proof (find_msg_spec (q_messages q) ty mode (types_of s i q Hs Ho)) as Hf.
  destruct (find_msg (q_messages q) ty mode 0 None) as [k|].
  - destruct Hf as (m & Hk & _). rewrite Hk. destruct (_ && _); [by apply wp_fail|].
    apply wp_bind, wp_modify, wp_bind, wp_modify, wp_bind.
    eapply wp_mono; [apply ss_wakeup_spec|].
    + intros u Hu. destruct (qo_snd _ _ _ _ _ Hqo u Hu) as (x & Hx & _). eauto.
    + intros _ s1 (S' & A' & -> & HA & HS). apply wp_bind, wp_modify, wp_bind.
      assert (S' = senders s) as ->.
      { apply map_eq. intros u. rewrite HS. by rewrite andb_false_r. }
      eapply wp_impl; [apply rcv_finish_keeps; [|done]|intros r s1 H1; by apply wp_ret|done].
      exact (take_ok s (rc_id a) i q k m (rc_tgid a) now Hs Hl Hk A' HA).
  - destruct (negb _); [by apply wp_fail|].
    apply wp_bind, wp_modify, wp_bind, wp_modify, wp_bind, wp_modify, wp_ret.
    by apply (rwait_ok s i q t (mk_receiver a (q_ptr q) mode ty _ RWait)).
Qed.

Lemma lock_check_spec msqid s (Φ : msg_queue → msys → Prop) (Ψ : Z → msys → Prop) :
  ids_ok (msg_ids s) → 0 <= msqid → (∀ i q, locked s msqid i q → Φ q s) → (∀ e, Ψ e s) →
  wp (lock_check msqid) Φ Ψ s.
Proof.
  intros Hok H0 HΦ HΨ. unfold lock_check. apply wp_bind, wp_gets. cbn.
  destruct (ipc_lock _ _) as [q|] eqn:El; [|by apply wp_fail].
  destruct (ipc_checkid _ _) eqn:Ec; [by apply wp_fail|]. apply wp_ret.
  eapply HΦ. by apply locked_of.
Qed.

Lemma sys_msgrcv_keeps t a ty now put copies s :
  sys_ok s → receivers s !! t = None → senders s !! t = None →
  keeps (sys_msgrcv t a ty now put copies) s.
Proof.
  intros Hs Hr Hsn. unfold keeps, sys_msgrcv.
  destruct (_ || _) eqn:Ebad; [by apply wp_fail|]. apply orb_false_iff in Ebad as [Eid Esz].
  apply Z.ltb_ge in Eid, Esz. destruct (convert_mode _ _) as [ty' mode].
  apply wp_bind, lock_check_spec; [apply Hs|done| |done].
  intros i q Hl. by eapply rcv_try_keeps.
Qed.

(** ** Waking up *)

(** A receiver with its result leaves. *)
Lemma drop_receiver s t x :
  let s' := on_receivers (delete t) s in
  sys_ok s → receivers s !! t = Some x → r_msg x ≠ RWait →
  (∀ w, weight w s' = weight w s - slot_weight w x) ∧
  (∀ n, n = slot_weight msg_pieces x → sys_ok (on_pieces (λ k, k - n) s')).
Proof.
  intros s' Hs Hx Hw.
  assert (∀ w, weight w (on_receivers (delete t) s) = weight w s - slot_weight w x) as Hwt.
  { intros w. unfold weight. cbn [msg_ids receivers senders on_receivers]. rewrite (msum_delete _ _ _ _ Hx). lia. }
  split; [done|]. intros n ->. apply (sys_drop s); try done.
  - cbn. apply delete_subseteq.
  - intros u y Hy Hm. cbn. rewrite lookup_delete_ne; [done|]. congruence.
  - apply (so_refs _ Hs).
  - rewrite weight_pieces, Hwt. cbn. by rewrite (so_pieces _ Hs).
  - rewrite weight_pieces, Hwt. pose proof (so_mem _ Hs).
    assert (0 <= slot_weight msg_mem x); [|lia]. unfold slot_weight.
    pose proof (so_rcv _ Hs t x Hx) as [_ H']. destruct (r_msg x); [lia| |lia]. apply msg_mem_nonneg, H'.
Qed.

(** A receiver that was woken for nothing leaves the queue. *)
Lemma unwait_less s t x i q :
  sys_ok s → receivers s !! t = Some x → locked s (rc_id (r_args x)) i q → t ∈ q_receivers q →
  let q' := set_receivers (filter (λ j, j ≠ t) (q_receivers q)) q in
  let s' := on_ids (λ ids, put_obj ids (rc_id (r_args x)) q') (on_receivers (delete t) s) in
  queue_less s s' (rc_id (r_args x)) i q q'.
Proof.
  intros Hs Hx Hl Ht q' s'. pose proof (so_queue _ Hs i q (lk_obj _ _ _ _ Hl)) as [Ms N B RN R SN S].
  split; try done.
  - by destruct (io_obj _ (so_ids _ Hs) i q (lk_obj _ _ _ _ Hl)) as [? _].
  - cbn. apply delete_subseteq.
  - intros u y Hy Hu. cbn. rewrite lookup_delete_ne; [done|]. congruence.
  - cbn. by apply NoDup_filter.
  - intros u. cbn. rewrite list_elem_of_filter. split.
    + intros [Hne Hu]. split; [done|]. rewrite lookup_delete_ne by done. destruct (R u Hu) as (y & Hy & _). eauto.
    + intros [Hu [y Hy]]. split; [|done]. intros ->. by rewrite lookup_delete_eq in Hy.
  - intros u y Hu Hy Ha. cbn. destruct (S u Hu) as (y' & Hy' & _ & _ & _ & Hroom).
    rewrite Hy in Hy'. injection Hy' as <-. by apply Hroom.
Qed.

Lemma msgrcv_wake_keeps t sig now put copies s :
  sys_ok s → is_Some (receivers s !! t) → keeps (msgrcv_wake t sig now put copies) s.
Proof.
  intros Hs [x Hx]. unfold keeps, msgrcv_wake. eapply wp_bind, wp_get_receiver; [exact Hx|].
  destruct (so_rcv _ Hs t x Hx) as [Hz Hm]. pose proof (drop_receiver s t x Hs Hx) as Hd.
  destruct (r_msg x) as [|m|e] eqn:Em.
  - destruct Hm as (i & q & Hq & Ht). destruct (qo_rcv _ _ _ _ _ (so_queue _ Hs i q Hq) t Ht)
      as (y & Hy & Hp & Hid & _). rewrite Hx in Hy. injection Hy as <-.
    destruct (qident_split _ _ _ (so_ids _ Hs) Hq) as [Hpos Hslot]. rewrite <- Hid in Hpos, Hslot.
    assert (locked s (rc_id (r_args x)) i q) as Hl by by split.
    apply wp_bind. unfold wp at 1, lock_by_ptr. rewrite Hp.
    destruct (live_refs s i q Hs Hq) as [-> _]. rewrite Hslot. pose proof Hq as Hq'. apply obj_Some in Hq' as ->.
    rewrite Z.eqb_refl, decide_True by done. apply wp_bind, wp_modify, wp_bind, wp_modify.
    pose proof (unwait_less s t x i q Hs Hx Hl Ht) as Hle. cbv zeta in Hle.
    set (q' := set_receivers _ q) in *. set (s' := on_ids _ _) in *.
    assert (sys_ok s') as Hs'.
    { apply (less_ok _ _ _ _ _ _ Hs Hl Hle); try done.
      - rewrite (less_weight _ _ _ _ _ _ Hs Hl Hle). rewrite Z.sub_add. apply (so_pieces _ Hs).
      - cbn. rewrite (so_bytes _ Hs), sgn32_idem_add. f_equal. lia.
      - cbn. rewrite (so_hdrs _ Hs), sgn32_idem_add. f_equal. lia. }
    destruct sig; [by apply wp_fail|]. apply (rcv_try_keeps _ _ _ _ _ _ _ _ _ i); [done| |done|..].
    + destruct (less_put _ _ _ _ _ _ Hs Hl Hle) as [_ Hobj]. split; [done|done| |].
      * by rewrite Hobj, decide_True.
      * by rewrite (less_ident _ _ _ _ _ _ Hle).
    + apply lookup_delete_eq.
    + apply (so_one _ Hs t x Hx).
  - apply wp_bind, wp_modify, wp_bind. destruct (Hd ltac:(done)) as [Hw Hok].
    eapply wp_impl; [apply rcv_finish_keeps; [|done]|intros r s1 H1; by apply wp_ret|done].
    unfold slot_weight in Hw, Hok. rewrite Em in Hw, Hok. split; [by apply Hok|apply Hm|].
    rewrite Hw. pose proof (so_mem _ Hs). lia.
  - apply wp_bind, wp_modify, wp_fail. destruct (Hd ltac:(done)) as [_ Hok].
    unfold slot_weight in Hok. rewrite Em in Hok. specialize (Hok 0 eq_refl).
    assert (on_pieces (λ k, k - 0) (on_receivers (delete t) s) = on_receivers (delete t) s) as E; [|by rewrite <- E].
    destruct s. unfold on_pieces, on_receivers. cbn. f_equal. lia.
Qed.

End MsgReceive.
