(* ===== verification/MsgCalls.v ===== *)
(** * System V message queues: making, changing and removing queues *)

From stdpp Require Import prelude numbers list gmap.
From Stdlib Require Import ZArith Lia.
From S2P Require Import Prelude Ipc IpcFacts Msg MsgFacts MsgSystem MsgSteps MsgKeep MsgSend MsgSleep MsgReceive.

#[local] Set Default Goal Selector "!".
#[local] Open Scope Z_scope.

Module MsgCalls.
Import Ipc IpcFacts Msg MsgFacts MsgSystem MsgSteps MsgKeep MsgSend MsgSleep MsgReceive.

Lemma live_ge0 ids p : 0 <= live ids p.
Proof. apply slot_sum_nonneg. intros i q _. unfold holds_ptr. case_zb; lia. Qed.

(** ** The array grows *)

Lemma sys_regrow s ids :
  sys_ok s → ids_ok ids → (∀ i, obj ids i = obj (msg_ids s) i) → sys_ok (on_ids (λ _, ids) s).
Proof.
  intros Hs Hok Ho. assert (∀ f, slot_sum f ids = slot_sum f (msg_ids s)) as Hsum.
  { intros f. by apply slot_sum_ext. }
  assert (∀ w, weight w (on_ids (λ _, ids) s) = weight w s) as Hw.
  { intros w. unfold weight. cbn [msg_ids receivers senders on_ids]. by rewrite Hsum. }
  assert (∀ p, live ids p = live (msg_ids s) p) as Hlv by (intros p; apply Hsum).
  destruct Hs. split; cbn [msg_ids receivers senders asleep refs pieces msg_bytes msg_hdrs on_ids]; try done.
  - intros i q. rewrite Ho. apply so_queue0.
  - intros t x Hx. destruct (so_rcv0 t x Hx) as [? H]. split; [done|]. destruct (r_msg x); [|done..].
    destruct H as (i & q & ? & ?). exists i, q. by rewrite Ho.
  - intros t x Hx. destruct (so_snd0 t x Hx) as (? & ? & ? & H). split_and!; [done..|].
    rewrite Hlv. destruct (s_linked x); [|done]. destruct H as (i & q & ? & ?). exists i, q. by rewrite Ho.
  - intros p. by rewrite Hlv.
  - intros p. unfold refcount. cbn [msg_ids senders on_ids]. rewrite Hlv. apply so_refs0.
  - by rewrite Hw.
  - by rewrite Hw.
  - by rewrite Hsum.
  - by rewrite Hsum.
Qed.

(** ** A new queue *)

Section add.
Context (s : msys) (n : nat) (q : msg_queue) (ids : ipc_ids msg_queue).
Context (Hs : sys_ok s) (Hids : ids_ok ids) (Hn : Z.of_nat n < 32768) (Hfree : obj (msg_ids s) n = None).
Context (Hobj : ∀ j, obj ids j = if decide (j = n) then Some q else obj (msg_ids s) j).
Context (Hp : refs s !! q_ptr q = None).
Context (Hq : q_messages q = [] ∧ q_receivers q = [] ∧ q_senders q = [] ∧ q_qnum q = 0 ∧ q_cbytes q = 0).

Let s' := on_ids (λ _, ids) (on_refs (insert (q_ptr q) 1) s).

Lemma add_sum f : slot_sum f ids = slot_sum f (msg_ids s) + f q.
Proof.
  rewrite (slot_sum_change f (msg_ids s) ids n Hn).
  - unfold slot_val. rewrite Hfree, Hobj, decide_True by done. lia.
  - intros j Hj. by rewrite Hobj, decide_False.
Qed.

Lemma add_live p : live ids p = live (msg_ids s) p + if q_ptr q =? p then 1 else 0.
Proof. apply add_sum. Qed.

Lemma add_fresh : refcount s (q_ptr q) = 0 ∧ live (msg_ids s) (q_ptr q) = 0.
Proof.
  pose proof (so_refs _ Hs (q_ptr q)) as Hr. rewrite Hp in Hr.
  destruct (Z.eqb_spec (refcount s (q_ptr q)) 0) as [E|]; [|done]. split; [done|]. unfold refcount in E.
  pose proof (live_ge0 (msg_ids s) (q_ptr q)). pose proof (refs_ptr_nonneg (q_ptr q) (senders s)). lia.
Qed.

Lemma add_old j y : obj (msg_ids s) j = Some y → obj ids j = Some y.
Proof. intros Hj. rewrite Hobj, decide_False; [done|]. intros ->. congruence. Qed.

Lemma add_weight w : weight w s' = weight w s.
Proof.
  unfold weight. cbn [msg_ids receivers senders s' on_ids on_refs]. rewrite add_sum.
  destruct Hq as (-> & _). cbn. lia.
Qed.

Lemma add_ok : sys_ok s'.
Proof.
  destruct add_fresh as [Hrc Hlv]. destruct Hq as (Q1 & Q2 & Q3 & Q4 & Q5).
  split; cbn [msg_ids receivers senders asleep refs pieces msg_bytes msg_hdrs s' on_ids on_refs]; try done.
  - intros i y. rewrite Hobj. destruct (decide (i = n)) as [->|]; [intros [= <-]|apply Hs].
    split; rewrite ?Q1, ?Q2, ?Q3, ?Q4, ?Q5; try done; try apply NoDup_nil_2;
      intros t Ht; by apply not_elem_of_nil in Ht.
  - intros t x Hx. destruct (so_rcv _ Hs t x Hx) as [? H]. split; [done|]. destruct (r_msg x); [|done..].
    destruct H as (i & y & Hi & ?). exists i, y. by rewrite (add_old i y Hi).
  - intros t x Hx. destruct (so_snd _ Hs t x Hx) as (? & ? & ? & H). split_and!; [done..|].
    destruct (s_linked x); [destruct H as (i & y & Hi & ?); exists i, y; by rewrite (add_old i y Hi)|].
    destruct H as [Hl Ha]. split; [|done]. rewrite add_live, Hl.
    destruct (Z.eqb_spec (q_ptr q) (s_ptr x)) as [E|]; [|done].
    rewrite E, (sender_refs s t x Hs Hx) in Hp. done.
  - apply (so_one _ Hs).
  - intros p. rewrite add_live. destruct (Z.eqb_spec (q_ptr q) p) as [<-|]; [lia|].
    rewrite Z.add_0_r. apply Hs.
  - intros p. assert (refcount s' p = refcount s p + if q_ptr q =? p then 1 else 0) as ->.
    { unfold refcount. cbn [msg_ids senders s' on_ids on_refs]. rewrite add_live. lia. }
    destruct (Z.eqb_spec (q_ptr q) p) as [<-|Hne].
    + by rewrite Hrc, lookup_insert_eq.
    + rewrite lookup_insert_ne, Z.add_0_r by done. apply Hs.
  - rewrite add_weight. apply Hs.
  - rewrite add_weight. apply Hs.
  - rewrite add_sum, Q5, Z.add_0_r. apply Hs.
  - rewrite add_sum, Q4, Z.add_0_r. apply Hs.
Qed.
End add.

(** ** Removal *)

Lemma free_all_spec l s (Φ : unit → msys → Prop) Ψ :
  (∀ n mh, msg_hdrs s = sgn32 n → mh = sgn32 (n - Z.of_nat (length l)) →
    Φ tt (mk_msys (msg_ids s) (refs s) (receivers s) (senders s) (asleep s)
            (pieces s - lsum msg_pieces l) (msg_bytes s) mh)) →
  (∃ n, msg_hdrs s = sgn32 n) → wp (free_all l) Φ Ψ s.
Proof.
  revert s. induction l as [|m l IH]; intros s HΦ [n Hn]; cbn [free_all].
  - apply wp_ret. specialize (HΦ n (msg_hdrs s) Hn). cbn in HΦ. rewrite !Z.sub_0_r in HΦ.
    specialize (HΦ Hn). by destruct s.
  - apply wp_bind, wp_modify, wp_bind, wp_modify.
    apply IH; [|by eexists]. intros n' mh Hn' ->. cbn in Hn'.
    specialize (HΦ n (sgn32 (n' - Z.of_nat (length l))) Hn).
    cbn [msg_ids refs receivers senders asleep pieces msg_bytes on_pieces count_hdrs].
    replace (pieces s - msg_pieces m - lsum msg_pieces l) with (pieces s - lsum msg_pieces (m :: l))
      by (unfold lsum; cbn; lia).
    apply HΦ. rewrite <- (Z.add_opp_r n'), <- (sgn32_idem_add n'), <- Hn', Hn, sgn32_idem_add,
      <- Z.add_assoc, sgn32_idem_add. f_equal.
    cbn [length]. lia.
Qed.

Section remove.
Context (s : msys) (msqid : Z) (i : nat) (q : msg_queue) (ids : ipc_ids msg_queue).
Context (Hs : sys_ok s) (Hl : locked s msqid i q) (Hids : ids_ok ids).
Context (Hobj : ∀ j, obj ids j = if decide (j = i) then None else obj (msg_ids s) j).
Context (R' : gmap Z msg_receiver) (S' : gmap Z msg_sender) (A' : gset Z) (M : gmap Z Z).
Context (HR : ∀ t, R' !! t = if bool_decide (t ∈ q_receivers q) then rset (RErr EIDRM) <$> receivers s !! t
                             else receivers s !! t).
Context (HS : ∀ t, S' !! t = if bool_decide (t ∈ q_senders q) then sunlink <$> senders s !! t
                             else senders s !! t).
Context (HA : ∀ t, t ∈ A' ↔ t ∈ asleep s ∧ (t ∉ q_receivers q) ∧ (t ∉ q_senders q)).
Context (HM : ∀ p, M !! p = if decide (p = q_ptr q) then enc (refcount s p - 1) else refs s !! p).

Let s' := mk_msys ids M R' S' A' (pieces s - lsum msg_pieces (q_messages q))
            (sgn32 (msg_bytes s - q_cbytes q)) (sgn32 (msg_hdrs s - q_qnum q)).
Let Hq : obj (msg_ids s) i = Some q := lk_obj _ _ _ _ Hl.

Lemma rm_sum f : slot_sum f ids = slot_sum f (msg_ids s) - f q.
Proof.
  rewrite (slot_sum_change f (msg_ids s) ids i).
  - unfold slot_val. rewrite Hq, Hobj, decide_True by done. lia.
  - by destruct (queue_small _ _ _ (so_ids _ Hs) Hq).
  - intros j Hj. by rewrite Hobj, decide_False.
Qed.

Lemma rm_live p : live ids p = live (msg_ids s) p - holds_ptr p q.
Proof. apply rm_sum. Qed.

Lemma rm_weight w : weight w s' = weight w s - lsum w (q_messages q).
Proof.
  unfold weight. cbn [msg_ids receivers senders s']. rewrite rm_sum.
  assert (msum (slot_weight w) R' = msum (slot_weight w) (receivers s)) as ->.
  { apply msum_alike. intros t. rewrite HR. destruct (bool_decide_reflect (t ∈ q_receivers q)) as [Ht|]; [|done].
    destruct (qo_rcv _ _ _ _ _ (so_queue _ Hs i q Hq) t Ht) as (x & -> & _ & _ & Hm & _).
    cbn. unfold slot_weight. cbn. by rewrite Hm. }
  assert (msum (λ x, w (s_msg x)) S' = msum (λ x, w (s_msg x)) (senders s)) as ->; [|lia].
  apply msum_alike. intros t. rewrite HS. destruct (bool_decide _); [|done]. by destruct (senders s !! t).
Qed.

(** A linked frame is in the queue that goes, or in another that stays. *)
Lemma rm_queues j y : obj ids j = Some y → queue_ok R' S' A' j y.
Proof.
  rewrite Hobj. destruct (decide (j = i)) as [|Hne]; [done|]. intros Hj.
  destruct (so_queue _ Hs j y Hj) as [Ms N B RN R SN S]. split; try done.
  - intros t Ht. destruct (R t Ht) as (x & Hx & ?). exists x. split; [|done].
    rewrite HR, bool_decide_eq_false_2; [done|]. by apply (rcv_elsewhere s t i q j y).
  - intros t Ht. destruct (S t Ht) as (x & Hx & ? & ? & ? & Hroom). exists x. split_and!; try done.
    + rewrite HS, bool_decide_eq_false_2; [done|]. by apply (snd_elsewhere s t i q j y).
    + intros [Ha _]%HA. by apply Hroom.
Qed.

Lemma rm_rcv t x : R' !! t = Some x → rcv_ok ids A' t x.
Proof.
  rewrite HR. destruct (bool_decide_reflect (t ∈ q_receivers q)) as [Ht|Ht].
  - intros (y & Hy & ->)%fmap_Some_1. destruct (so_rcv _ Hs t y Hy) as [Hz _]. split; [done|]. cbn.
    rewrite HA. tauto.
  - intros Hx. destruct (so_rcv _ Hs t x Hx) as [Hz H]. split; [done|].
    assert (t ∉ asleep s → t ∉ A') as Ha by (rewrite HA; tauto).
    destruct (r_msg x); [|destruct H; auto|auto]. destruct H as (j & y & Hj & Hy). exists j, y.
    split; [|done]. rewrite Hobj, decide_False; [done|]. intros ->. rewrite Hq in Hj. by injection Hj as <-.
Qed.

Lemma rm_snd t x : S' !! t = Some x → snd_ok ids A' t x.
Proof.
  assert (∀ p, live ids p <= live (msg_ids s) p) as Hle.
  { intros p. rewrite rm_live. unfold holds_ptr. case_zb; lia. }
  rewrite HS. destruct (bool_decide_reflect (t ∈ q_senders q)) as [Ht|Ht].
  - intros (y & Hy & ->)%fmap_Some_1. destruct (so_snd _ Hs t y Hy) as (H0 & Hm & Hz & _).
    split_and!; [done..|]. cbn. split; [|rewrite HA; tauto].
    destruct (qo_snd _ _ _ _ _ (so_queue _ Hs i q Hq) t Ht) as (y' & Hy' & Hp & _).
    rewrite Hy in Hy'. injection Hy' as <-. rewrite Hp, rm_live. unfold holds_ptr. rewrite Z.eqb_refl.
    pose proof (live_member s i q Hs Hq). pose proof (so_live _ Hs (q_ptr q)). lia.
  - intros Hx. destruct (so_snd _ Hs t x Hx) as (H0 & Hm & Hz & H). split_and!; [done..|].
    destruct (s_linked x).
    + destruct H as (j & y & Hj & Hy). exists j, y. split; [|done].
      rewrite Hobj, decide_False; [done|]. intros ->. rewrite Hq in Hj. by injection Hj as <-.
    + destruct H as [Hlv Ha]. split; [|rewrite HA; tauto]. pose proof (Hle (s_ptr x)).
      pose proof (live_ge0 ids (s_ptr x)). lia.
Qed.

Lemma rm_refs p : M !! p = enc (refcount s' p).
Proof.
  assert (refcount s' p = refcount s p - holds_ptr p q) as ->.
  { unfold refcount. cbn [msg_ids senders s']. rewrite rm_live.
    assert (msum (refs_ptr p) S' = msum (refs_ptr p) (senders s)) as ->; [|lia].
    apply msum_alike. intros t. rewrite HS. destruct (bool_decide _); [|done]. by destruct (senders s !! t). }
  rewrite HM. unfold holds_ptr. destruct (decide (p = q_ptr q)) as [->|Hne]; [by rewrite Z.eqb_refl|].
  replace (q_ptr q =? p) with false by lia. rewrite Z.sub_0_r. apply (so_refs _ Hs).
Qed.

Lemma remove_ok : sys_ok s'.
Proof.
  split; cbn [msg_ids receivers senders asleep refs pieces msg_bytes msg_hdrs s']; try done.
  - apply rm_queues.
  - apply rm_rcv.
  - apply rm_snd.
  - intros t x. rewrite HR, HS. intros Hx. destruct (receivers s !! t) as [y|] eqn:Hy.
    + rewrite (so_one _ Hs t y Hy). by destruct (bool_decide (t ∈ q_senders q)).
    + by destruct (bool_decide (t ∈ q_receivers q)).
  - intros p. rewrite rm_live. pose proof (so_live _ Hs p). unfold holds_ptr. case_zb; lia.
  - apply rm_refs.
  - by rewrite rm_weight, (so_pieces _ Hs).
  - rewrite rm_weight. pose proof (so_mem _ Hs).
    destruct (weight_parts _ s msg_mem_nonneg Hs) as (_ & _ & H3). pose proof (H3 i q Hq). lia.
  - rewrite rm_sum, (so_bytes _ Hs), <- !Z.add_opp_r. apply sgn32_idem_add.
  - rewrite rm_sum, (so_hdrs _ Hs), <- !Z.add_opp_r. apply sgn32_idem_add.
Qed.
End remove.

Lemma freeque_keeps q msqid i s : sys_ok s → locked s msqid i q → keeps (freeque q msqid) s.
Proof.
  intros Hs Hl. pose proof (lk_obj _ _ _ _ Hl) as Hq. pose proof (so_queue _ Hs i q Hq) as Hqo.
  unfold keeps, freeque, expunge_all. apply wp_bind. eapply wp_mono; [apply expunge_spec|].
  { intros t Ht. destruct (qo_rcv _ _ _ _ _ Hqo t Ht) as (x & Hx & _). eauto. }
  intros _ s1 (R' & A1 & -> & HA1 & HR). apply wp_bind. eapply wp_mono; [apply ss_wakeup_spec|].
  { intros t Ht. destruct (qo_snd _ _ _ _ _ Hqo t Ht) as (x & Hx & _). eauto. }
  intros _ s1 (S' & A' & -> & HA & HS). cbn [receivers senders asleep with_frames] in *.
  apply wp_bind, wp_gets. cbn [id msg_ids with_frames].
  destruct (rmid_spec (msg_ids s) msqid q) as (ids & -> & Hok & _ & Hobj);
    [apply Hs|apply Hl|by rewrite <- (lk_slot _ _ _ _ Hl)|]. rewrite <- (lk_slot _ _ _ _ Hl) in Hobj.
  apply wp_bind, wp_modify, wp_bind. apply free_all_spec.
  2:{ eexists. apply (so_hdrs _ Hs). }
  intros n mh Hn ->. apply wp_bind, wp_modify.
  destruct (live_refs s i q Hs Hq) as [Hr _]. eapply wp_putref; [exact Hr|].
  assert (msg_hdrs s = sgn32 n) as Hn' by done.
  assert (sgn32 (n - Z.of_nat (length (q_messages (removed q)))) = sgn32 (msg_hdrs s - q_qnum q)) as E.
  { rewrite Hn', <- !Z.add_opp_r, sgn32_idem_add, (qo_num _ _ _ _ _ Hqo). done. }
  rewrite E. apply (remove_ok s msqid i q ids Hs Hl Hok Hobj); [done| | |].
  - intros t. rewrite HS. by rewrite andb_true_r.
  - intros t. pose proof (HA t) as H2. pose proof (HA1 t) as H1. cbn. tauto.
  - intros p. cbn [refs]. rewrite putref_refs. by destruct (decide (p = _)) as [->|].
Qed.

Section calls.
Context (msg_ctlmax msg_ctlmnb msg_ctlmni : Z) (Hmni : 0 <= msg_ctlmni).

(** The allocator gives memory that is not in use. *)
Definition fresh (kmem : option Z) (s : msys) : Prop := ∀ p, kmem = Some p → refs s !! p = None.

Lemma newque_keeps c k flg kmem grow now s :
  sys_ok s → fresh kmem s → keeps (newque msg_ctlmnb msg_ctlmni c k flg kmem grow now) s.
Proof.
  intros Hs Hf. unfold keeps, newque. destruct kmem as [p|]; [|by apply wp_fail].
  specialize (Hf p eq_refl). apply wp_bind, wp_modify, wp_bind, wp_gets. cbn [id msg_ids on_refs].
  set (q := mk_msq p _ _ _ _ _ _ _ _ _ _ _ _).
  destruct (addid_spec (msg_ids s) q msg_ctlmni grow c (so_ids _ Hs) Hmni) as (r & ids & -> & Hok & Hr).
  destruct r as [[id q1]|].
  - destruct Hr as (n & -> & Hn & Hfree & -> & _ & Hobj). apply wp_bind, wp_modify, wp_ret.
    assert (Z.to_nat (lid (Z.of_nat n)) = n) as Hlid.
    { unfold lid. change SEQ_MULTIPLIER with 32768. rewrite Z.rem_small by lia. lia. }
    destruct (put_spec ids (Z.of_nat n) (added c (ids_seq (msg_ids s)) q)
      (set_limit msg_ctlmnb now (added c (ids_seq (msg_ids s)) q))) as [Hok' Hobj']; [done|lia| |done..|].
    { by rewrite Hlid, Hobj, decide_True. }
    rewrite Hlid in Hobj'.
    refine (add_ok s n (set_limit msg_ctlmnb now (added c (ids_seq (msg_ids s)) q)) _ Hs Hok' Hn Hfree _ Hf _); [|done].
    intros j. rewrite Hobj', Hobj. by destruct (decide (j = n)).
  - destruct Hr as [_ Ho]. apply wp_bind, wp_modify. eapply wp_bind, wp_putref.
    { cbn. apply lookup_insert_eq. }
    apply wp_fail. assert (sys_ok (on_ids (λ _, ids) s)) as H by by apply sys_regrow.
    assert (on_refs (if 1 - 1 =? 0 then delete p else insert p (1 - 1))
      (on_ids (λ _, ids) (on_refs (insert p 1) s)) = on_ids (λ _, ids) s) as E; [|by rewrite E].
    unfold on_refs, on_ids. cbn [msg_ids refs receivers senders asleep pieces msg_bytes msg_hdrs].
    change (1 - 1 =? 0) with true. cbn iota. by rewrite delete_insert_id.
Qed.

Lemma sys_msgget_keeps c k flg kmem grow now s :
  sys_ok s → fresh kmem s → keeps (sys_msgget msg_ctlmnb msg_ctlmni c k flg kmem grow now) s.
Proof.
  intros Hs Hf. unfold sys_msgget. apply wp_bind, wp_gets. cbn [id].
  destruct (k =? IPC_PRIVATE); [by apply newque_keeps|].
  destruct (findkey_spec (msg_ids s) k (so_ids _ Hs)) as (r & -> & [[-> _]|(j & q & -> & Hj & Hq & _)]).
  - cbn [Z.eqb]. change (-1 =? -1) with true. cbn iota. destruct (_ =? 0); [by apply wp_fail|].
    by apply newque_keeps.
  - replace (Z.of_nat j =? -1) with false by lia. destruct (_ && _); [by apply wp_fail|].
    assert (ipc_lock (msg_ids s) (Z.of_nat j) = Some q) as ->.
    { apply lock_spec; [apply Hs|lia|]. unfold lid. change SEQ_MULTIPLIER with 32768.
      rewrite Z.rem_small by lia. by rewrite Nat2Z.id. }
    destruct (ipcperms _ _ _); [by apply wp_fail|by apply wp_ret].
Qed.

Lemma msgctl_set_less s msqid i q p' n now A1 :
  sys_ok s → locked s msqid i q → deleted p' = false → seq p' = seq (q_perm q) →
  (∀ t, t ∈ A1 → t ∈ asleep s ∧ t ∉ q_senders q) →
  let q' := set_perm p' (set_limit n now q) in
  let s' := mk_msys (put_obj (msg_ids s) msqid q') (refs s) (receivers s) (senders s) A1
              (pieces s) (msg_bytes s) (msg_hdrs s) in
  sys_ok s'.
Proof.
  intros Hs Hl Hd Hseq HA q' s'. pose proof (so_queue _ Hs i q (lk_obj _ _ _ _ Hl)) as [Ms N B RN R SN S].
  assert (queue_less s s' msqid i q q') as Hle.
  { split; try done.
    - intros t Ht. by apply HA in Ht as [? _].
    - intros t. split; [|by intros [? _]]. intros Ht. split; [done|]. destruct (R t Ht) as (x & Hx & _). eauto.
    - intros t x Ht _ Ha. by apply HA in Ha as [_ ?]. }
  apply (less_ok _ _ _ _ _ _ Hs Hl Hle); try done.
  - rewrite (less_weight _ _ _ _ _ _ Hs Hl Hle). rewrite Z.sub_add. apply (so_pieces _ Hs).
  - cbn. rewrite (so_bytes _ Hs), sgn32_idem_add. f_equal. lia.
  - cbn. rewrite (so_hdrs _ Hs), sgn32_idem_add. f_equal. lia.
Qed.

Lemma sys_msgctl_keeps c msqid arg now copy resource s :
  sys_ok s → keeps (sys_msgctl msg_ctlmax msg_ctlmnb msg_ctlmni c msqid arg now copy resource) s.
Proof.
  intros Hs. unfold keeps, sys_msgctl. destruct (Z.ltb_spec msqid 0) as [|H0]; [by apply wp_fail|].
  destruct arg as [cmd|by_index buf version|[b|]|]; [| | |by apply wp_fail|].
  - apply wp_bind, wp_gets. destruct copy; [by apply wp_ret|by apply wp_fail].
  - apply wp_bind, wp_gets. destruct buf; [|by apply wp_fail]. cbn [negb].
    destruct (_ && _); [by apply wp_fail|].
    destruct (ipc_lock _ _); [|by apply wp_fail]. destruct (_ && _); [by apply wp_fail|].
    destruct (ipcperms _ _ _); [by apply wp_fail|]. destruct copy; [by apply wp_ret|by apply wp_fail].
  - apply wp_bind, lock_check_spec; [apply Hs|done| |done]. intros i q Hl. pose proof (lk_obj _ _ _ _ Hl) as Hq.
    pose proof (so_queue _ Hs i q Hq) as Hqo.
    destruct (negb _); [by apply wp_fail|]. destruct (_ && _); [by apply wp_fail|].
    apply wp_bind. unfold expunge_all. eapply wp_mono; [apply expunge_spec|].
    { intros t Ht. destruct (qo_rcv _ _ _ _ _ Hqo t Ht) as (x & Hx & _). eauto. }
    intros _ s1 (R' & A1 & -> & HA1 & HR). apply wp_bind. eapply wp_mono; [apply ss_wakeup_spec|].
    { intros t Ht. destruct (qo_snd _ _ _ _ _ Hqo t Ht) as (x & Hx & _). eauto. }
    intros _ s1 (S' & A' & -> & HA & HS). cbn [receivers senders asleep with_frames] in *.
    apply wp_bind, wp_modify, wp_ret.
    assert (R' = receivers s) as ->.
    { apply map_eq. intros t. rewrite HR. destruct (bool_decide_reflect (t ∈ q_receivers q)) as [Ht|]; [|done].
      destruct (qo_rcv _ _ _ _ _ Hqo t Ht) as ([] & -> & _ & _ & Hm & _). cbn in Hm |- *. unfold rset. cbn. by rewrite Hm. }
    assert (S' = senders s) as ->.
    { apply map_eq. intros t. rewrite HS. by rewrite andb_false_r. }
    apply (msgctl_set_less s msqid i q); [done|done| |done|].
    + by destruct (io_obj _ (so_ids _ Hs) i q Hq) as [? _].
    + intros t Ht. pose proof (HA t) as H2. pose proof (HA1 t) as H1. tauto.
  - apply wp_bind, lock_check_spec; [apply Hs|done| |done]. intros i q Hl.
    destruct (negb _); [by apply wp_fail|]. apply wp_bind.
    eapply wp_impl; [by eapply freeque_keeps|intros; by apply wp_ret|done].
Qed.

(** ** The beginning, and signals *)

Lemma init_sys_ok alloc : sys_ok (msg_init msg_ctlmni alloc).
Proof.
  assert (∀ i, obj (ipc_init_ids (A := msg_queue) msg_ctlmni alloc) i = None) as Hno.
  { intros i. unfold obj, ipc_init_ids. cbn [entries].
    match goal with |- replicate ?n _ !! _ ≫= _ = _ => destruct (replicate n (@None msg_queue) !! i) eqn:E end; [|done].
    by apply lookup_replicate in E as [-> _]. }
  assert (∀ f, slot_sum f (ipc_init_ids msg_ctlmni alloc) = 0) as Hsum.
  { intros f. rewrite slot_sum_def. unfold slot_val. unfold lsum. induction (List.seq _ _) as [|i l IH]; [done|].
    cbn [foldr]. by rewrite Hno, IH. }
  assert (∀ w, weight w (msg_init msg_ctlmni alloc) = 0) as Hw.
  { intros w. unfold weight. cbn [msg_ids msg_init receivers senders]. by rewrite Hsum. }
  split; cbn [msg_ids receivers senders asleep refs pieces msg_bytes msg_hdrs msg_init]; try done.
  - by apply init_ok.
  - intros i q. by rewrite Hno.
  - intros p. unfold live. rewrite Hsum. lia.
  - intros p. unfold refcount, live. cbn [msg_ids senders msg_init]. by rewrite Hsum.
  - change (weight msg_mem (msg_init msg_ctlmni alloc) < 2 ^ 32). by rewrite Hw.
  - by rewrite Hsum.
  - by rewrite Hsum.
Qed.

Lemma wake_keeps t s : sys_ok s → keeps (wake_up_process t) s.
Proof.
  intros Hs. apply wp_modify. apply (sys_drop s); try done; try apply Hs.
  intros u Hu. cbn in Hu. by apply elem_of_difference in Hu as [? _].
Qed.

End calls.
End MsgCalls.
