(* ===== verification/MsgTrace.v ===== *)
(** * System V message queues: histories *)

From stdpp Require Import prelude numbers list gmap.
From Stdlib Require Import ZArith Lia.
From S2P Require Import Prelude Ipc IpcFacts Msg MsgFacts MsgSystem MsgSteps MsgKeep MsgSend MsgSleep MsgReceive MsgCalls.

#[local] Set Default Goal Selector "!".
#[local] Open Scope Z_scope.

Module MsgTrace.
Import Ipc IpcFacts Msg MsgFacts MsgSystem MsgSteps MsgKeep MsgSend MsgSleep MsgReceive MsgCalls.

(** What can happen: a call, a task that runs again after it slept in one, a signal that makes
    a task runnable. *)
Inductive msg_call :=
| CMsgget (c : cred) (k msgflg : Z) (kmem : option Z) (grow : bool) (now : Z)
| CMsgctl (c : cred) (msqid : Z) (arg : msgctl_arg) (now : Z) (copy resource : bool)
| CMsgsnd (t : Z) (a : snd_args) (mtype : option Z) (src : list Z) (env : list (bool * bool)) (now : Z)
| CSndWake (t : Z) (sig : bool) (now : Z)
| CMsgrcv (t : Z) (a : rcv_args) (msgtyp now : Z) (put : bool) (copies : list bool)
| CRcvWake (t : Z) (sig : bool) (now : Z) (put : bool) (copies : list bool)
| CSignal (t : Z).

Section history.
Context (msg_ctlmax msg_ctlmnb msg_ctlmni : Z).

Definition void {A} (m : SM msys A) : SM msys unit := m;; mret tt.

Definition run_call (x : msg_call) : SM msys unit :=
  match x with
  | CMsgget c k flg kmem grow now => void (sys_msgget msg_ctlmnb msg_ctlmni c k flg kmem grow now)
  | CMsgctl c msqid arg now copy resource =>
    void (sys_msgctl msg_ctlmax msg_ctlmnb msg_ctlmni c msqid arg now copy resource)
  | CMsgsnd t a mtype src env now => void (sys_msgsnd msg_ctlmax t a mtype src env now)
  | CSndWake t sig now => void (msgsnd_wake t sig now)
  | CMsgrcv t a ty now put copies => void (sys_msgrcv t a ty now put copies)
  | CRcvWake t sig now put copies => void (msgrcv_wake t sig now put copies)
  | CSignal t => wake_up_process t
  end.

(** A task calls only when it is not asleep in another call, and goes on only when it was made
    runnable; the allocator hands out memory that is not in use, and the memory of all messages
    is within 4 GB. *)
Definition call_pre (x : msg_call) (s : msys) : Prop :=
  match x with
  | CMsgget _ _ _ kmem _ _ => fresh kmem s
  | CMsgsnd t a _ src _ _ => snd_pre t a src s
  | CSndWake t _ _ => is_Some (senders s !! t) ∧ t ∉ asleep s
  | CMsgrcv t _ _ _ _ _ => receivers s !! t = None ∧ senders s !! t = None
  | CRcvWake t _ _ _ _ => is_Some (receivers s !! t) ∧ t ∉ asleep s
  | _ => True
  end.

Inductive reach : msys → Prop :=
| reach_init alloc : reach (msg_init msg_ctlmni alloc)
| reach_call s x : reach s → call_pre x s → reach (run_call x s).2.

Context (Hmni : 0 <= msg_ctlmni).

Lemma keeps_void {A} (m : SM msys A) s : keeps m s → keeps (void m) s.
Proof. intros H. apply wp_bind. eapply wp_mono; [exact H|]. intros a s' Hs. by apply wp_ret. Qed.

Lemma run_call_keeps x s : sys_ok s → call_pre x s → keeps (run_call x) s.
Proof.
  intros Hs Hp. destruct x; cbn [run_call call_pre] in *; try apply keeps_void.
  - by apply sys_msgget_keeps.
  - by apply sys_msgctl_keeps.
  - by apply sys_msgsnd_keeps.
  - destruct Hp. by apply msgsnd_wake_keeps.
  - destruct Hp. by apply sys_msgrcv_keeps.
  - destruct Hp. by apply msgrcv_wake_keeps.
  - by apply wake_keeps.
Qed.

Lemma msg_keeps_state {A} (m : SM msys A) s : keeps m s → (m s).1 ≠ Bug ∧ sys_ok (m s).2.
Proof. unfold keeps, wp. by destruct (m s) as [[a|e|] s']. Qed.

Lemma msg_reach_ok s : reach s → sys_ok s.
Proof.
  induction 1 as [alloc|s x Hr IH Hp]; [by apply init_sys_ok|]. by apply msg_keeps_state, run_call_keeps.
Qed.
End history.

End MsgTrace.
