(* ===== verification/MsgTheorems.v ===== *)
(** * Properties of message queues *)

From stdpp Require Import prelude numbers list gmap.
From Stdlib Require Import ZArith Lia.
From S2P Require Import Prelude Ipc IpcFacts Msg MsgFacts MsgSystem MsgSteps MsgKeep MsgSend MsgSleep MsgReceive MsgCalls MsgTrace.

#[local] Set Default Goal Selector "!".
#[local] Open Scope Z_scope.

Module MsgTheorems.
Import Ipc IpcFacts Msg MsgFacts MsgSystem MsgSteps MsgKeep MsgSend MsgSleep MsgReceive MsgCalls MsgTrace.

(** ** Histories *)

(** C11: The message system is safe in every history.  From boot, after any sequence of msgget,
    msgctl, msgsnd and msgrcv calls, of tasks that go on after sleeping in one, and of signals,
    with any outcome of the allocations, copies and permission checks, the next call uses no
    freed queue and no missing frame, and the system is consistent again: every waiting task is
    in the list of exactly one live queue or has its result, the reference count of a queue is
    the number of its users, all allocated parts of messages belong to messages that are in a
    queue, with a sleeping sender or handed to a receiver, and [q_cbytes], [q_qnum], [msg_bytes]
    and [msg_hdrs] are what they count. *)
Theorem msg_system_safe msg_ctlmax msg_ctlmnb msg_ctlmni s x :
  0 <= msg_ctlmni → reach msg_ctlmax msg_ctlmnb msg_ctlmni s → call_pre x s →
  (run_call msg_ctlmax msg_ctlmnb msg_ctlmni x s).1 ≠ Bug ∧
  sys_ok (run_call msg_ctlmax msg_ctlmnb msg_ctlmni x s).2.
Proof.
  intros Hm Hr Hp. apply msg_keeps_state, run_call_keeps; [done| |done]. by eapply msg_reach_ok.
Qed.

(** Root makes a queue; task 1 sleeps for a message of type 5; task 2 sends one of 3 bytes,
    which goes to task 1, and one of type 7. *)
Definition demo_root : cred := mk_cred 0 0 (λ _, false) true true.
Definition demo_get : msg_call := CMsgget demo_root 0 0x180 (Some 4096) true 5.
Definition demo_rcv : rcv_args := mk_rcv 1 1 demo_root 0 100 0.
Definition demo_snd : snd_args := mk_snd 2 demo_root 0 3 0.
Definition demo_wait : msg_call := CMsgrcv 1 demo_rcv 5 6 true [].
Definition demo_send (ty : Z) : msg_call := CMsgsnd 2 demo_snd (Some ty) [10; 11; 12] [] 7.
Definition demo_run := run_call MSGMAX MSGMNB MSGMNI.
Definition demo_reach := reach MSGMAX MSGMNB MSGMNI.
Definition demo_s1 : msys := (demo_run demo_get (msg_init MSGMNI true)).2.
Definition demo_s2 : msys := (demo_run demo_wait demo_s1).2.
Definition demo_s3 : msys := (demo_run (demo_send 5) demo_s2).2.
Definition demo_s4 : msys := (demo_run (demo_send 7) demo_s3).2.

Lemma demo_reach1 : demo_reach demo_s1.
Proof. apply reach_call; [apply reach_init|]. by intros p [= <-]. Qed.
Lemma demo_reach2 : demo_reach demo_s2.
Proof. apply reach_call; [apply demo_reach1|]. by vm_compute. Qed.
Lemma demo_reach3 : demo_reach demo_s3.
Proof. apply reach_call; [apply demo_reach2|]. constructor; by vm_compute. Qed.
Lemma demo_reach4 : demo_reach demo_s4.
Proof. apply reach_call; [apply demo_reach3|]. constructor; by vm_compute. Qed.

Lemma msg_system_safe_witness :
  (∃ x, receivers demo_s4 !! 1 = Some x ∧ r_msg x = RMsg (mk_msg 5 3 [10; 11; 12] [])) ∧
  (demo_run (CRcvWake 1 false 8 true []) demo_s4).1 ≠ Bug ∧
  sys_ok (demo_run (CRcvWake 1 false 8 true []) demo_s4).2.
Proof.
  split; [eexists; split; [by vm_compute|done]|].
  apply (msg_system_safe MSGMAX MSGMNB MSGMNI demo_s4 (CRcvWake 1 false 8 true [])); [by vm_compute| |].
  - apply demo_reach4.
  - split; [eexists; by vm_compute|]. apply (bool_decide_unpack (1 ∉ asleep demo_s4)). by vm_compute.
Defined.

(** ** Sleeping *)

(** C12: No wake-up is lost.  In every history, a task asleep in msgrcv waits in the queue that its
    call named, and this queue holds no message that the call accepts; a task asleep in msgsnd
    waits in the queue that its call named, and this queue is too full for its message. *)
Theorem msg_no_lost_wakeup msg_ctlmax msg_ctlmnb msg_ctlmni s t :
  0 <= msg_ctlmni → reach msg_ctlmax msg_ctlmnb msg_ctlmni s → t ∈ asleep s →
  (∀ x, receivers s !! t = Some x → ∃ i q, obj (msg_ids s) i = Some q ∧ qident i q = rc_id (r_args x) ∧
    t ∈ q_receivers q ∧ ∀ m, m ∈ q_messages q → testmsg m (r_msgtype x) (r_mode x) = false) ∧
  (∀ x, senders s !! t = Some x → ∃ i q, obj (msg_ids s) i = Some q ∧ qident i q = sn_id (s_args x) ∧
    t ∈ q_senders q ∧ has_room q (m_ts (s_msg x)) = false).
Proof.
  intros Hm Hr Ha. pose proof (msg_reach_ok _ _ _ Hm _ Hr) as Hs. split; intros x Hx.
  - destruct (so_rcv _ Hs t x Hx) as [_ H]. destruct (r_msg x); [|tauto..]. destruct H as (i & q & Hq & Ht).
    exists i, q. destruct (qo_rcv _ _ _ _ _ (so_queue _ Hs i q Hq) t Ht) as (y & Hy & _ & Hid & _ & Hno).
    rewrite Hx in Hy. injection Hy as <-. split_and!; [done..|]. by apply Forall_forall.
  - destruct (so_snd _ Hs t x Hx) as (_ & _ & Hz & H). destruct (s_linked x); [|tauto].
    destruct H as (i & q & Hq & Ht). exists i, q.
    destruct (qo_snd _ _ _ _ _ (so_queue _ Hs i q Hq) t Ht) as (y & Hy & _ & Hid & _ & Hroom).
    rewrite Hx in Hy. injection Hy as <-. rewrite Hz. auto.
Qed.

(** Task 3 waits for type 9 in the queue of the demonstration, which holds a message of type 7. *)
Definition demo_s5 : msys := (demo_run (CMsgrcv 3 demo_rcv 9 9 true []) demo_s4).2.

Lemma demo_reach5 : demo_reach demo_s5.
Proof. apply reach_call; [apply demo_reach4|]. by vm_compute. Qed.

Lemma msg_no_lost_wakeup_witness :
  ∃ x, receivers demo_s5 !! 3 = Some x ∧ ∃ i q, obj (msg_ids demo_s5) i = Some q ∧
    qident i q = rc_id (r_args x) ∧ 3 ∈ q_receivers q ∧
    ∀ m, m ∈ q_messages q → testmsg m (r_msgtype x) (r_mode x) = false.
Proof.
  destruct (msg_no_lost_wakeup MSGMAX MSGMNB MSGMNI demo_s5 3) as [H _];
    [by vm_compute|apply demo_reach5|apply (bool_decide_unpack (3 ∈ asleep demo_s5)); by vm_compute|].
  eexists. split; [by vm_compute|]. apply H. by vm_compute.
Defined.

(** ** Selection *)

(** A call with [msgtyp] and [msgflg] accepts messages of type [ty]. *)
Definition wanted (msgtyp msgflg ty : Z) : Prop :=
  if msgtyp =? 0 then True
  else if msgtyp <? 0 then ty <= - msgtyp
  else if negb (Z.land msgflg MSG_EXCEPT =? 0) then ty ≠ msgtyp else ty = msgtyp.

(** The message at [i] is the one a call takes. *)
Definition chosen (l : list msg_msg) (msgtyp msgflg : Z) (i : nat) : Prop :=
  ∃ m, l !! i = Some m ∧ wanted msgtyp msgflg (m_type m) ∧
    ∀ j m', l !! j = Some m' → wanted msgtyp msgflg (m_type m') →
      if msgtyp <? 0 then m_type m < m_type m' ∨ m_type m = m_type m' ∧ (i <= j)%nat else (i <= j)%nat.

Lemma convert_mode_spec msgtyp msgflg :
  - 2 ^ 31 < msgtyp < 2 ^ 31 →
  (∀ m, testmsg m (convert_mode msgtyp msgflg).1 (convert_mode msgtyp msgflg).2 = true
        ↔ wanted msgtyp msgflg (m_type m)) ∧
  ((convert_mode msgtyp msgflg).2 =? SEARCH_LESSEQUAL) = (msgtyp <? 0).
Proof.
  intros Hr. unfold convert_mode, wanted.
  destruct (Z.eqb_spec msgtyp 0) as [->|H0]; [done|].
  destruct (Z.ltb_spec msgtyp 0) as [Hn|Hn]; cbn [fst snd].
  - assert (sgn32 (- msgtyp) = - msgtyp) as ->.
    { unfold sgn32, wrap32. rewrite Z.mod_small by lia. case_zb; lia. }
    split; [|done]. intros m. rewrite testmsg_le. lia.
  - destruct (negb _); cbn [fst snd]; (split; [|done]); intros m; unfold testmsg; cbn; lia.
Qed.

Lemma selected_chosen l msgtyp msgflg i :
  - 2 ^ 31 < msgtyp < 2 ^ 31 →
  selected l (convert_mode msgtyp msgflg).1 (convert_mode msgtyp msgflg).2 i ↔ chosen l msgtyp msgflg i.
Proof.
  intros Hr. destruct (convert_mode_spec msgtyp msgflg Hr) as [Ht Hm]. unfold selected, chosen, better.
  rewrite Hm. split; intros (m & Hi & Hw & Hb); exists m; (split_and!; [done|by apply Ht|]);
    intros j m' Hj Hw'; by apply Hb, Ht.
Qed.

Lemma find_msg_chosen l msgtyp msgflg :
  types_ok l → - 2 ^ 31 < msgtyp < 2 ^ 31 →
  let found := find_msg l (convert_mode msgtyp msgflg).1 (convert_mode msgtyp msgflg).2 0 None in
  (∀ i, found = Some i ↔ chosen l msgtyp msgflg i) ∧
  (found = None ↔ ∀ m, m ∈ l → ¬ wanted msgtyp msgflg (m_type m)).
Proof.
  intros Hl Hr found. subst found.
  pose proof (find_msg_spec l (convert_mode msgtyp msgflg).1 (convert_mode msgtyp msgflg).2 Hl) as Hf.
  pose proof (selected_chosen l msgtyp msgflg) as Hsc.
  destruct (convert_mode_spec msgtyp msgflg Hr) as [Ht _].
  destruct (find_msg l _ _ 0 None) as [k|].
  - apply Hsc in Hf as Hk; [|done]. split.
    + intros i. split; [by intros [= <-]|]. intros Hi%Hsc; [|done]. f_equal. by eapply selected_unique.
    + split; [done|]. intros Hno. destruct Hk as (m & Hm & Hw & _).
      by destruct (Hno m (list_elem_of_lookup_2 _ _ _ Hm)).
  - rewrite Forall_forall in Hf.
    assert (∀ m, m ∈ l → ¬ wanted msgtyp msgflg (m_type m)) as Hno.
    { intros m Hm Hw. apply Ht in Hw. by rewrite (Hf m Hm) in Hw. }
    split; [|done]. intros i. split; [done|]. intros (m & Hm & Hw & _).
    by destruct (Hno m (list_elem_of_lookup_2 _ _ _ Hm)).
Qed.

(** The negation of the least [msgtyp] overflows. *)
Lemma find_msg_long_min l msgflg : types_ok l →
  find_msg l (convert_mode (- 2 ^ 31) msgflg).1 (convert_mode (- 2 ^ 31) msgflg).2 0 None = None.
Proof.
  intros Hl. change (convert_mode (- 2 ^ 31) msgflg) with (- 2 ^ 31, SEARCH_LESSEQUAL). cbn [fst snd].
  pose proof (find_msg_spec l (- 2 ^ 31) SEARCH_LESSEQUAL Hl) as Hf.
  destruct (find_msg _ _ _ 0 None) as [k|]; [|done]. destruct Hf as (m & Hk & Ht & _).
  pose proof (Forall_lookup_1 _ _ _ _ Hl Hk) as H1. cbn in H1. rewrite testmsg_le in Ht. lia.
Qed.

(** C31: Which message is taken.  For message types as msgsnd lets them in, the search loop of
    msgrcv with the mode that [convert_mode] computes finds: for [msgtyp] 0 the first message;
    for a positive one the first of this type, or with MSG_EXCEPT the first of another type; for
    a negative one above LONG_MIN, of the messages whose type is at most [- msgtyp], the first
    of the least type; and it finds nothing exactly if no message is wanted.  For LONG_MIN,
    whose negation overflows, it never finds a message. *)
Theorem msgrcv_selects l msgtyp msgflg :
  types_ok l → - 2 ^ 31 <= msgtyp < 2 ^ 31 →
  let found := find_msg l (convert_mode msgtyp msgflg).1 (convert_mode msgtyp msgflg).2 0 None in
  if msgtyp =? - 2 ^ 31 then found = None else
  (∀ i, found = Some i ↔ chosen l msgtyp msgflg i) ∧
  (found = None ↔ ∀ m, m ∈ l → ¬ wanted msgtyp msgflg (m_type m)).
Proof.
  intros Hl Hr. cbv zeta. destruct (Z.eqb_spec msgtyp (- 2 ^ 31)) as [->|Hne].
  - by apply find_msg_long_min.
  - apply find_msg_chosen; [done|lia].
Qed.

Definition demo_list : list msg_msg := [mk_msg 7 0 [] []; mk_msg 3 0 [] []; mk_msg 2 0 [] []; mk_msg 2 1 [5] []].

Lemma msgrcv_selects_witness : chosen demo_list (-5) 0 2%nat.
Proof.
  apply (msgrcv_selects demo_list (-5) 0); [repeat constructor; by vm_compute|lia|by vm_compute].
Defined.

(** The least [msgtyp] finds nothing.  A call with [msgtyp] = LONG_MIN asks for a message
    of any type, but the negation in [convert_mode] overflows, and the call never returns a
    message, whatever the queue holds: it fails or sleeps. *)
Theorem msgrcv_long_min msg_ctlmax msg_ctlmnb msg_ctlmni s t a now put copies r :
  0 <= msg_ctlmni → reach msg_ctlmax msg_ctlmnb msg_ctlmni s →
  (sys_msgrcv t a (- 2 ^ 31) now put copies s).1 ≠ Ok (Finished r).
Proof.
  intros Hm Hr. pose proof (msg_reach_ok _ _ _ Hm _ Hr) as Hs.
  assert (wp (sys_msgrcv t a (- 2 ^ 31) now put copies) (λ v _, v = Sleeping) (λ _ _, True) s) as H.
  { unfold sys_msgrcv. destruct (_ || _) eqn:Ebad; [by apply wp_fail|].
    apply orb_false_iff in Ebad as [Eid _]. apply Z.ltb_ge in Eid.
    change (convert_mode (- 2 ^ 31) (rc_msgflg a)) with (- 2 ^ 31, SEARCH_LESSEQUAL).
    apply wp_bind, lock_check_spec; [apply Hs|done| |done]. intros i q Hl.
    pose proof (types_of s i q Hs (lk_obj _ _ _ _ Hl)) as Hty.
    unfold rcv_try. destruct (ipcperms _ _ _); [by apply wp_fail|].
    pose proof (find_msg_long_min (q_messages q) (rc_msgflg a) Hty) as Hf.
    change (find_msg (q_messages q) (- 2 ^ 31) SEARCH_LESSEQUAL 0 None = None) in Hf. rewrite Hf.
    destruct (negb _); [by apply wp_fail|]. by apply wp_bind, wp_modify, wp_bind, wp_modify, wp_bind, wp_modify. }
  unfold wp in H. destruct (sys_msgrcv _ _ _ _ _ _ s) as [[v|e|] s']; cbn; [|done..]. subst v. congruence.
Qed.

(** In the queue with a message of type 7, a call for types up to 2^31 - 1 finds it. *)
Lemma msgrcv_long_min_witness :
  (sys_msgrcv 4 demo_rcv (- (2 ^ 31 - 1)) 9 true [] demo_s4).1
    = Ok (Finished (mk_res 3 (Some (7, [10; 11; 12])))) ∧
  (sys_msgrcv 4 demo_rcv (- 2 ^ 31) 9 true [] demo_s4).1
    ≠ Ok (Finished (mk_res 3 (Some (7, [10; 11; 12])))).
Proof.
  split; [by vm_compute|]. apply (msgrcv_long_min MSGMAX MSGMNB MSGMNI); [by vm_compute|apply demo_reach4].
Defined.

(** ** Sending *)

(** The queue that a call names. *)
Lemma locked_named s i q msqid :
  sys_ok s → obj (msg_ids s) i = Some q → msqid = qident i q → locked s msqid i q.
Proof. intros Hs Hq ->. destruct (qident_split _ _ _ (so_ids _ Hs) Hq) as [? Hi]. by split. Qed.

Lemma locked_lock s i q msqid :
  ids_ok (msg_ids s) → locked s msqid i q →
  ipc_lock (msg_ids s) msqid = Some q ∧ ipc_checkid (q_perm q) msqid = false.
Proof.
  intros Hok [H0 Hi Hq Hid]. split; [apply lock_spec; [done..|]; by rewrite <- Hi|].
  rewrite Hid. destruct (queue_small _ _ _ Hok Hq). unfold qident. apply checkid_build; lia.
Qed.

(** What a msgsnd that has returned 0 did. *)
Lemma msgsnd_sent msg_ctlmax t a ty src env now s s' i q :
  sys_ok s → snd_pre t a src s → locked s (sn_id a) i q →
  sys_msgsnd msg_ctlmax t a (Some ty) src env now s = (Ok (Finished tt), s') →
  ∃ m R' A' mb mh, let s0 := on_pieces (λ n, n + msg_pieces m) s in
  let E := (deliver (receivers s) (q_receivers q) m).1 in
  let o := (deliver (receivers s) (q_receivers q) m).2 in
  let ms := match o with Some _ => [] | None => [m] end in
  0 <= sn_msgsz a ∧ m_type m = ty ∧ m_ts m = sn_msgsz a ∧ shape m (take (Z.to_nat (sn_msgsz a)) src) ∧ in_hand m s0 ∧
  s' = sent_state s0 (sn_id a) q m now (sn_tgid a) R' A' ms mb mh ∧
  (∀ u, R' !! u = passed (receivers s) E o m u) ∧ (∀ u, u ∈ A' ↔ u ∈ asleep s ∧ ¬ gone E o u) ∧ sys_ok s'.
Proof.
  intros Hs Hp Hl He. destruct (locked_lock _ _ _ _ (so_ids _ Hs) Hl) as [Elock Eck].
  match goal with |- ?P => assert (wp (sys_msgsnd msg_ctlmax t a (Some ty) src env now)
    (λ r s1, r = Finished tt → s1 = s' → P) (λ _ _, True) s) as H end.
  2:{ unfold wp in H. rewrite He in H. by apply H. }
  unfold sys_msgsnd. destruct ((_ <? _) || _ || _) eqn:Ebad; [by apply wp_fail|].
  apply orb_false_iff in Ebad as [Ebad _]. apply orb_false_iff in Ebad as [_ Esz]. apply Z.ltb_ge in Esz.
  destruct (Z.ltb_spec ty 1); [by apply wp_fail|].
  apply wp_bind. eapply wp_impl; [apply load_msg_spec| |done].
  intros m0 s1 [-> Hsh]. set (m := mk_msg ty (sn_msgsz a) (m_text m0) (m_next m0)).
  assert (in_hand m (on_pieces (λ n, n + msg_pieces m) s)) as Hh.
  { eapply (load_in_hand s m0 m _ ty (sn_msgsz a)); [done|exact Hsh|lia| |apply Hp|done]. rewrite length_take.
    pose proof (sp_src _ _ _ _ Hp). lia. }
  change (msg_pieces m0) with (msg_pieces m). apply wp_bind, wp_gets. cbn [id msg_ids on_pieces].
  rewrite Elock, Eck. destruct (ipcperms (sn_cred a) (q_perm q) S_IWUGO) eqn:Eperm.
  { unfold snd_try. rewrite Eperm. by apply wp_bind, wp_modify. }
  assert (locked (on_pieces (λ n, n + msg_pieces m) s) (sn_id a) i q) as Hl' by (destruct Hl; by split).
  destruct (has_room q (sn_msgsz a)) eqn:Eroom.
  - eapply wp_mono; [by eapply snd_room|].
    intros r s1 (_ & R' & A' & mb & mh & -> & HR & HA & Hb & Hm) _ <-. exists m, R', A', mb, mh.
    split_and!; try done. by eapply sent_ok.
  - unfold snd_try. rewrite Eperm, Eroom. destruct (negb _); [by apply wp_bind, wp_modify|].
    apply wp_bind, wp_modify, wp_bind, wp_modify, wp_bind. unfold wp at 1, ipc_rcu_getref.
    destruct (refs _ !! _) as [n|] eqn:Er; [by apply wp_bind, wp_modify|].
    destruct (live_refs s i q Hs (lk_obj _ _ _ _ Hl)) as [Href _]. cbn in Er. by rewrite Href in Er.
Qed.

(** Which receivers accept a message, and which can also hold it. *)
Definition accepts (R : gmap Z msg_receiver) (m : msg_msg) (u : Z) : bool :=
  match R !! u with Some x => testmsg m (r_msgtype x) (r_mode x) | None => false end.
Definition fits (R : gmap Z msg_receiver) (m : msg_msg) (u : Z) : bool :=
  match R !! u with
  | Some x => testmsg m (r_msgtype x) (r_mode x) && (m_ts m <=? r_maxsize x)
  | None => false
  end.

Lemma deliver_find R l m :
  (∀ u, u ∈ l → is_Some (R !! u)) →
  let first := list_find (λ u, fits R m u = true) l in
  let before := match first with Some (k, _) => take k l | None => l end in
  deliver R l m = (filter (λ v, accepts R m v = true) before, snd <$> first).
Proof.
  induction l as [|u l IH]; intros Hl; [done|]. destruct (Hl u ltac:(by left)) as [x Hx].
  specialize (IH (λ v Hv, Hl v ltac:(by right))). cbv zeta in IH |- *. cbn [deliver list_find]. rewrite Hx.
  assert (fits R m u = testmsg m (r_msgtype x) (r_mode x) && (m_ts m <=? r_maxsize x)) as Ef by (unfold fits; by rewrite Hx).
  assert (accepts R m u = testmsg m (r_msgtype x) (r_mode x)) as Ea by (unfold accepts; by rewrite Hx).
  destruct (testmsg m (r_msgtype x) (r_mode x)); cbn [andb] in Ef.
  - destruct (Z.ltb_spec (r_maxsize x) (m_ts m)) as [Hlt|Hge].
    + replace (m_ts m <=? r_maxsize x) with false in Ef by lia. rewrite IH, decide_False by congruence.
      destruct (list_find _ l) as [[k v]|]; cbn [fmap option_fmap option_map prod_map fst snd take id]; by rewrite filter_cons_True.
    + replace (m_ts m <=? r_maxsize x) with true in Ef by lia. by rewrite decide_True.
  - rewrite IH, decide_False by congruence.
    destruct (list_find _ l) as [[k v]|]; cbn [fmap option_fmap option_map prod_map fst snd take id]; by rewrite filter_cons_False by congruence.
Qed.

(** C13: A message goes to the first receiver that can take it.  When msgsnd has returned 0 in a
    reachable state, then of the tasks waiting in the queue, in the order in which they came, the
    first one that accepts the message and has a buffer that is large enough has been given the
    message, and the queue holds what it held before; without such a task the message is at the
    end of the queue.  The tasks before it that accept the message but have a buffer that is too
    small have been given E2BIG; all of these have left the list and are awake, and all other
    tasks wait as before. *)
Theorem msgsnd_first_fit msg_ctlmax msg_ctlmnb msg_ctlmni s t a ty src env now s' i q :
  0 <= msg_ctlmni → reach msg_ctlmax msg_ctlmnb msg_ctlmni s → snd_pre t a src s →
  obj (msg_ids s) i = Some q → sn_id a = qident i q →
  sys_msgsnd msg_ctlmax t a (Some ty) src env now s = (Ok (Finished tt), s') →
  ∃ m q', m_type m = ty ∧ m_ts m = sn_msgsz a ∧ shape m (take (Z.to_nat (sn_msgsz a)) src) ∧
  obj (msg_ids s') i = Some q' ∧
  let l := q_receivers q in
  let first := list_find (λ u, fits (receivers s) m u = true) l in
  let before := match first with Some (k, _) => take k l | None => l end in
  let served u := (u ∈ before ∧ accepts (receivers s) m u = true) ∨ snd <$> first = Some u in
  q_messages q' = q_messages q ++ match first with Some _ => [] | None => [m] end ∧
  (∀ u, u ∈ q_receivers q' ↔ u ∈ l ∧ ¬ served u) ∧
  (∀ u, u ∈ asleep s' ↔ u ∈ asleep s ∧ ¬ served u) ∧
  (∀ u, receivers s' !! u =
    if decide (u ∈ before ∧ accepts (receivers s) m u = true) then rset (RErr E2BIG) <$> receivers s !! u
    else if decide (snd <$> first = Some u) then rset (RMsg m) <$> receivers s !! u
    else receivers s !! u).
Proof.
  intros Hm Hr Hp Hq Hid He. pose proof (msg_reach_ok _ _ _ Hm _ Hr) as Hs.
  pose proof (locked_named s i q (sn_id a) Hs Hq Hid) as Hl.
  destruct (msgsnd_sent _ _ _ _ _ _ _ _ _ _ _ Hs Hp Hl He) as (m & R' & A' & mb & mh & H).
  cbv zeta in H. destruct H as (H0 & Hty & Hts & Hsh & Hh & -> & HR & HA & Hok).
  exists m, (sent_queue (on_pieces (λ n, n + msg_pieces m) s) q m now (sn_tgid a)
               match (deliver (receivers s) (q_receivers q) m).2 with Some _ => [] | None => [m] end).
  split_and!; [done..| |].
  { cbn [msg_ids sent_state]. destruct (put_back (msg_ids s) (sn_id a) i q (sent_queue (on_pieces (λ n, n + msg_pieces m) s) q m now (sn_tgid a)
        match (deliver (receivers s) (q_receivers q) m).2 with Some _ => [] | None => [m] end))
      as [_ Hobj]; [apply Hs|apply Hl|apply Hl|done|by apply sent_fields|].
    cbn [msg_ids on_pieces]. by rewrite Hobj, decide_True. }
  cbv zeta. destruct (sent_fields (on_pieces (λ n, n + msg_pieces m) s) q m now (sn_tgid a)
    match (deliver (receivers s) (q_receivers q) m).2 with Some _ => [] | None => [m] end) as (_ & _ & _ & -> & _).
  cbn [sent_queue set_messages q_messages sent_state asleep receivers on_pieces].
  assert (∀ u, u ∈ q_receivers q → is_Some (receivers s !! u)) as Hsome.
  { intros u Hu. destruct (qo_rcv _ _ _ _ _ (so_queue _ Hs i q Hq) u Hu) as (x & Hx & _). eauto. }
  rewrite (deliver_find _ _ m Hsome) in *. cbn [fst snd] in *. unfold gone in *.
  set (first := list_find _ (q_receivers q)) in *. set (before := match first with Some (k, _) => take k _ | None => _ end) in *.
  split_and!.
  - by destruct first.
  - intros u. rewrite list_elem_of_filter, list_elem_of_filter. tauto.
  - intros u. rewrite HA, list_elem_of_filter. tauto.
  - intros u. rewrite HR. unfold passed.
    rewrite (bool_decide_ext (u ∈ filter (λ v, accepts (receivers s) m v = true) before)
      (u ∈ before ∧ accepts (receivers s) m u = true)) by (rewrite list_elem_of_filter; tauto).
    repeat case_bool_decide; repeat case_decide; done || tauto.
Qed.

(** The message of type 5 goes to task 1. *)
Definition demo_queue (s : msys) : msg_queue :=
  default (mk_msq 0 (mk_perm false 0 0 0 0 0 0 0) 0 0 0 0 0 0 0 0 [] [] []) (obj (msg_ids s) 0).

Lemma demo_pre2 : snd_pre 2 demo_snd [10; 11; 12] demo_s2.
Proof. constructor; by vm_compute. Qed.

Lemma msgsnd_first_fit_witness :
  q_receivers (demo_queue demo_s2) = [1] ∧ ∃ m q', m_type m = 5 ∧ obj (msg_ids demo_s3) 0 = Some q' ∧
    q_messages q' = q_messages (demo_queue demo_s2) ++
      match list_find (λ u, fits (receivers demo_s2) m u = true) (q_receivers (demo_queue demo_s2)) with
      | Some _ => [] | None => [m] end.
Proof.
  split; [by vm_compute|].
  destruct (msgsnd_first_fit MSGMAX MSGMNB MSGMNI demo_s2 2 demo_snd 5 [10; 11; 12] [] 7 demo_s3 0 (demo_queue demo_s2))
    as (m & q' & Hty & _ & _ & Hq & Hm & _); [by vm_compute|apply demo_reach2|apply demo_pre2|by vm_compute..|].
  by exists m, q'.
Defined.

(** ** Round trip *)

Lemma find_last l m msgtyp msgflg :
  types_ok (l ++ [m]) → - 2 ^ 31 < msgtyp < 2 ^ 31 →
  (∀ x, x ∈ l → ¬ wanted msgtyp msgflg (m_type x)) → wanted msgtyp msgflg (m_type m) →
  find_msg (l ++ [m]) (convert_mode msgtyp msgflg).1 (convert_mode msgtyp msgflg).2 0 None = Some (length l).
Proof.
  intros Hty Hr Hno Hw.
  assert (selected (l ++ [m]) (convert_mode msgtyp msgflg).1 (convert_mode msgtyp msgflg).2 (length l)) as Hsel.
  { apply selected_chosen; [done|]. exists m. split_and!; [by rewrite lookup_app_r, Nat.sub_diag by lia|done|].
    intros j x Hj Hx. destruct (decide (j < length l)%nat).
    - rewrite lookup_app_l in Hj by done. by destruct (Hno x (list_elem_of_lookup_2 _ _ _ Hj)).
    - pose proof (lookup_lt_Some _ _ _ Hj) as Hlt. rewrite length_app in Hlt. cbn in Hlt.
      assert (j = length l) as -> by lia. rewrite lookup_app_r, Nat.sub_diag in Hj by lia. injection Hj as <-.
      case_zb; lia. }
  pose proof (find_msg_spec _ (convert_mode msgtyp msgflg).1 (convert_mode msgtyp msgflg).2 Hty) as Hf.
  destruct (find_msg _ _ _ 0 None) as [k|].
  - f_equal. by eapply selected_unique.
  - destruct Hsel as (x & Hx & Ht & _). rewrite (Forall_lookup_1 _ _ _ _ Hf Hx) in Ht. done.
Qed.

(** The end of msgrcv gives the beginning of the text. *)
Lemma rcv_finish_text a m copies s text :
  shape m text → m_ts m = Z.of_nat (length text) → 0 <= rc_msgsz a → false ∉ copies →
  wp (rcv_finish a m true copies) (λ r s', s' = on_pieces (λ n, n - msg_pieces m) s ∧
    r = mk_res (Z.min (m_ts m) (rc_msgsz a)) (Some (m_type m, take (Z.to_nat (rc_msgsz a)) text))) (λ _ _, False) s.
Proof.
  intros Hsh Hts Hz Hc. unfold rcv_finish.
  assert ((if m_ts m <? rc_msgsz a then m_ts m else rc_msgsz a) = Z.min (m_ts m) (rc_msgsz a)) as -> by (case_zb; lia).
  destruct (store_msg_spec m text (Z.to_nat (Z.min (m_ts m) (rc_msgsz a))) copies Hsh) as (r & -> & Hr); [lia|].
  destruct r as [b|]; [|done]. apply wp_bind, wp_modify, wp_ret. split; [done|]. cbn in Hr. rewrite Hr.
  f_equal. f_equal. f_equal. destruct (decide (rc_msgsz a <= m_ts m)).
  - by rewrite Z.min_r by lia.
  - rewrite Z.min_l by lia. by rewrite !take_ge by lia.
Qed.

(** A call that has found a message does not sleep. *)
Lemma rcv_try_takes u b ty mode q now copies s i k m text :
  sys_ok s → locked s (rc_id b) i q → ipcperms (rc_cred b) (q_perm q) S_IRUGO = false →
  find_msg (q_messages q) ty mode 0 None = Some k → q_messages q !! k = Some m →
  shape m text → m_ts m = Z.of_nat (length text) → 0 <= rc_msgsz b → false ∉ copies →
  m_ts m <= rc_msgsz b ∨ Z.land (rc_msgflg b) MSG_NOERROR ≠ 0 →
  wp (rcv_try u b ty mode q now true copies) (λ v s2,
    v = Finished (mk_res (Z.min (m_ts m) (rc_msgsz b)) (Some (m_type m, take (Z.to_nat (rc_msgsz b)) text))) ∧
    ∃ q2, obj (msg_ids s2) i = Some q2 ∧ q_messages q2 = delete k (q_messages q)) (λ _ _, False) s.
Proof.
  intros Hs Hl Hperm Hfind Hk Hsh Hts Hz Hc Hbuf. pose proof (lk_obj _ _ _ _ Hl) as Hq.
  pose proof (so_queue _ Hs i q Hq) as Hqo.
  unfold rcv_try. rewrite Hperm, Hfind, Hk.
  replace ((rc_msgsz b <? m_ts m) && negb (negb (Z.land (rc_msgflg b) MSG_NOERROR =? 0))) with false.
  2:{ symmetry. rewrite andb_false_iff, negb_involutive, Z.ltb_ge, Z.eqb_neq. tauto. }
  apply wp_bind, wp_modify, wp_bind, wp_modify, wp_bind. eapply wp_mono; [apply ss_wakeup_spec|].
  { intros v Hv. destruct (qo_snd _ _ _ _ _ Hqo v Hv) as (x & Hx & _). eauto. }
  intros _ s' (S' & A' & -> & _). apply wp_bind, wp_modify, wp_bind.
  eapply wp_mono; [by apply (rcv_finish_text b m copies _ text)|].
  intros r s' [-> ->]. apply wp_ret. split; [done|]. cbn [msg_ids on_pieces on_ids with_frames count_hdrs count_bytes].
  destruct (put_back (msg_ids s) (rc_id b) i q (set_received (rc_tgid b) now
    (set_messages (wrap32 (q_cbytes q - m_ts m)) (wrap32 (q_qnum q - 1)) (delete k (q_messages q)) q))
    (so_ids _ Hs) (lk_id _ _ _ _ Hl) (lk_slot _ _ _ _ Hl) Hq eq_refl) as [_ Hobj].
  eexists. split; [by rewrite Hobj, decide_True|done].
Qed.

(** C14: What is sent is received.  In a reachable state, let msgsnd put a message of type [ty] into
    a queue where nobody waits, and let a task that may read the queue call msgrcv for a type
    that [ty] fits and that none of the messages before it fits, with a buffer that is large
    enough or MSG_NOERROR.  The call does not sleep: it returns the type and the bytes that were
    sent, up to the size of the buffer, and their number, and the queue holds the messages it
    held before. *)
Theorem msgsnd_msgrcv_roundtrip msg_ctlmax msg_ctlmnb msg_ctlmni s i q t a ty src env now s1 u b msgtyp now' copies :
  0 <= msg_ctlmni → reach msg_ctlmax msg_ctlmnb msg_ctlmni s → snd_pre t a src s →
  obj (msg_ids s) i = Some q → sn_id a = qident i q → rc_id b = qident i q → q_receivers q = [] →
  sys_msgsnd msg_ctlmax t a (Some ty) src env now s = (Ok (Finished tt), s1) →
  - 2 ^ 31 < msgtyp < 2 ^ 31 → wanted msgtyp (rc_msgflg b) ty →
  (∀ m, m ∈ q_messages q → ¬ wanted msgtyp (rc_msgflg b) (m_type m)) →
  ipcperms (rc_cred b) (q_perm q) S_IRUGO = false → 0 <= rc_msgsz b →
  sn_msgsz a <= rc_msgsz b ∨ Z.land (rc_msgflg b) MSG_NOERROR ≠ 0 → false ∉ copies →
  ∃ s2 q2, sys_msgrcv u b msgtyp now' true copies s1 =
      (Ok (Finished (mk_res (Z.min (sn_msgsz a) (rc_msgsz b))
        (Some (ty, take (Z.to_nat (rc_msgsz b)) (take (Z.to_nat (sn_msgsz a)) src))))), s2) ∧
    obj (msg_ids s2) i = Some q2 ∧ q_messages q2 = q_messages q.
Proof.
  intros Hm Hr Hp Hq Hid Hidb Hnone He Hty Hw Hno Hperm Hz Hbuf Hc.
  pose proof (msg_reach_ok _ _ _ Hm _ Hr) as Hs. pose proof (locked_named s i q (sn_id a) Hs Hq Hid) as Hl.
  destruct (msgsnd_sent _ _ _ _ _ _ _ _ _ _ _ Hs Hp Hl He) as (m & R' & A' & mb & mh & H).
  cbv zeta in H. rewrite Hnone in H. cbn [deliver fst snd] in H.
  destruct H as (H0 & Hmt & Hts & Hsh & Hh & Hs1 & HR & HA & Hok).
  set (q1 := sent_queue (on_pieces (λ n, n + msg_pieces m) s) q m now (sn_tgid a) [m]).
  destruct (sent_fields (on_pieces (λ n, n + msg_pieces m) s) q m now (sn_tgid a) [m]) as (_ & Hq1p & _ & _ & Hq1s).
  fold q1 in Hq1p, Hq1s.
  destruct (put_back (msg_ids s) (sn_id a) i q q1 (so_ids _ Hs) (lk_id _ _ _ _ Hl) (lk_slot _ _ _ _ Hl) Hq Hq1p)
    as [Hids1 Hobj1].
  assert (obj (msg_ids s1) i = Some q1) as Hq1.
  { rewrite Hs1. cbn [msg_ids sent_state on_pieces]. fold q1. by rewrite Hobj1, decide_True. }
  assert (qident i q1 = qident i q) as Hid1 by (unfold qident; by rewrite Hq1p).
  assert (q_messages q1 = q_messages q ++ [m]) as Hm1 by done.
  pose proof (locked_named s1 i q1 (rc_id b) Hok Hq1 ltac:(congruence)) as Hl1.
  assert (sn_msgsz a = Z.of_nat (length (take (Z.to_nat (sn_msgsz a)) src))) as Hlen.
  { rewrite length_take. pose proof (sp_src _ _ _ _ Hp). lia. }
  match goal with |- ∃ s2 q2, _ = (Ok ?r, _) ∧ _ => assert (wp (sys_msgrcv u b msgtyp now' true copies)
    (λ v s2, v = r ∧ ∃ q2, obj (msg_ids s2) i = Some q2 ∧ q_messages q2 = q_messages q) (λ _ _, False) s1) as H end.
  2:{ apply wp_ok in H as (v & s2 & Hrun & -> & q2 & ? & ?). eauto. }
  unfold sys_msgrcv. replace ((rc_id b <? 0) || (rc_msgsz b <? 0)) with false.
  2:{ pose proof (lk_id _ _ _ _ Hl1). symmetry. apply orb_false_iff. lia. }
  pose proof (find_last (q_messages q) m msgtyp (rc_msgflg b)) as Hfind.
  rewrite <- Hm1, Hmt in Hfind. specialize (Hfind (types_of s1 i q1 Hok Hq1) Hty Hno Hw).
  destruct (convert_mode msgtyp (rc_msgflg b)) as [ty' mode]. cbn [fst snd] in Hfind.
  apply wp_bind. destruct (locked_lock _ _ _ _ (so_ids _ Hok) Hl1) as [Elock Eck].
  unfold lock_check. apply wp_bind, wp_gets. cbn [id]. rewrite Elock, Eck. apply wp_ret.
  rewrite <- Hq1p in Hperm. rewrite <- Hts in Hbuf. rewrite <- Hts in Hlen at 1.
  eapply wp_mono; [apply (rcv_try_takes u b ty' mode q1 now' copies s1 i (length (q_messages q)) m
    (take (Z.to_nat (sn_msgsz a)) src)); try done|].
  - by rewrite Hm1, lookup_app_r, Nat.sub_diag by lia.
  - intros v s2 (-> & q2 & Hq2 & Hm2). split; [by rewrite Hts, Hmt|]. exists q2. split; [done|].
    rewrite Hm2, Hm1, delete_middle. apply app_nil_r.
Qed.

(** A queue with no waiting task: the message comes back. *)
Lemma msgsnd_msgrcv_roundtrip_witness :
  ∃ s2 q2, sys_msgrcv 3 demo_rcv (-8) 9 true [] (demo_run (demo_send 5) demo_s1).2 =
    (Ok (Finished (mk_res 3 (Some (5, [10; 11; 12])))), s2) ∧
    obj (msg_ids s2) 0 = Some q2 ∧ q_messages q2 = [].
Proof.
  apply (msgsnd_msgrcv_roundtrip MSGMAX MSGMNB MSGMNI demo_s1 0 (demo_queue demo_s1) 2 demo_snd 5 [10; 11; 12] [] 7
    (demo_run (demo_send 5) demo_s1).2 3 demo_rcv (-8) 9 []); try (by vm_compute).
  - apply demo_reach1.
  - intros m Hm. by apply not_elem_of_nil in Hm.
  - by left.
  - apply not_elem_of_nil.
Defined.

End MsgTheorems.
