(* ===== verification/Rbtree.v ===== *)
(** * Red-black trees (lib/rbtree.c, include/linux/rbtree.h): definitions

    The nodes live in a memory, by address; a pointer is an address or NULL.  Reading
    or writing through NULL or outside the memory is [Bug].  The C code writes every
    case of rebalancing twice, once for each side; here a direction [d] stands for
    the side, and a comment names the text for left. *)

From stdpp Require Import prelude numbers list gmap.
From Stdlib Require Import ZArith Lia.
From S2P Require Import Prelude.

#[local] Set Default Goal Selector "!".
#[local] Open Scope Z_scope.

Module Rbtree.

Definition RB_RED : Z := 0.
Definition RB_BLACK : Z := 1.

Definition ptr : Type := option Z.

Record rb_node := mk_node {
  rb_parent : ptr;
  rb_color : Z;
  rb_right : ptr;
  rb_left : ptr
}.

Record rbs := mk_rbs {
  nodes : gmap Z rb_node;
  rb_root : ptr            (* root->rb_node *)
}.

(** ** Sides *)

Inductive dir := L | R.
#[export] Instance dir_eq_dec : EqDecision dir.
Proof. solve_decision. Defined.
Definition opp (d : dir) : dir := match d with L => R | R => L end.

Definition child (d : dir) (x : rb_node) : ptr := match d with L => rb_left x | R => rb_right x end.
Definition with_child (d : dir) (v : ptr) (x : rb_node) : rb_node :=
  match d with
  | L => mk_node (rb_parent x) (rb_color x) (rb_right x) v
  | R => mk_node (rb_parent x) (rb_color x) v (rb_left x)
  end.
Definition with_parent (v : ptr) (x : rb_node) : rb_node :=
  mk_node v (rb_color x) (rb_right x) (rb_left x).
Definition with_color (c : Z) (x : rb_node) : rb_node :=
  mk_node (rb_parent x) c (rb_right x) (rb_left x).

(** ** Memory accesses *)

Definition deref (p : ptr) : SM rbs rb_node := λ s,
  match p ≫= λ n, nodes s !! n with Some x => (Ok x, s) | None => (Bug, s) end.
Definition write (p : ptr) (x : rb_node) : SM rbs unit :=
  match p with
  | Some n => modify (λ s, mk_rbs (<[n := x]> (nodes s)) (rb_root s))
  | None => bug
  end.
Definition update (f : rb_node → rb_node) (p : ptr) : SM rbs unit := x ← deref p; write p (f x).

Definition parent_of (p : ptr) : SM rbs ptr := x ← deref p; mret (rb_parent x).
Definition color_of (p : ptr) : SM rbs Z := x ← deref p; mret (rb_color x).
Definition child_of (d : dir) (p : ptr) : SM rbs ptr := x ← deref p; mret (child d x).
Definition set_child (d : dir) (p v : ptr) : SM rbs unit := update (with_child d v) p.
Definition set_parent (p v : ptr) : SM rbs unit := update (with_parent v) p.
Definition set_color (p : ptr) (c : Z) : SM rbs unit := update (with_color c) p.
Definition set_root (p : ptr) : SM rbs unit := modify (λ s, mk_rbs (nodes s) p).

(** [if (p) p->rb_parent = v] and [if (p) p->rb_color = c] *)
Definition set_parent_if (p v : ptr) : SM rbs unit :=
  match p with Some _ => set_parent p v | None => mret tt end.
Definition set_color_if (p : ptr) (c : Z) : SM rbs unit :=
  match p with Some _ => set_color p c | None => mret tt end.

(** [p && p->rb_color == RB_RED] and [!p || p->rb_color == RB_BLACK] *)
Definition is_red (p : ptr) : SM rbs bool :=
  match p with Some _ => c ← color_of p; mret (c =? RB_RED) | None => mret false end.
Definition is_black (p : ptr) : SM rbs bool :=
  match p with Some _ => c ← color_of p; mret (c =? RB_BLACK) | None => mret true end.

(** The link of [parent], or of the root, that leads to [old] leads to [new]. *)
Definition replace_child (d : dir) (parent old new : ptr) : SM rbs unit :=
  match parent with
  | Some _ =>
    c ← child_of d parent;
    if decide (c = old) then set_child d parent new else set_child (opp d) parent new
  | None => set_root new
  end.

(** ** Insertion *)

(** [__rb_rotate_left] for [L]. *)
Definition rotate (d : dir) (node : ptr) : SM rbs unit :=
  right ← child_of (opp d) node;
  inner ← child_of d right;
  set_child (opp d) node inner;;
  set_parent_if inner node;;
  set_child d right node;;
  parent ← parent_of node;
  set_parent right parent;;
  replace_child d parent node right;;
  set_parent node right.

Definition __rb_rotate_left : ptr → SM rbs unit := rotate L.
Definition __rb_rotate_right : ptr → SM rbs unit := rotate R.

(** [rb_link]: NULL for the root, or the side of the parent. *)
Definition rb_link_node (node parent : ptr) (rb_link : option dir) : SM rbs unit :=
  deref node;;
  write node (mk_node parent RB_RED None None);;
  match rb_link with
  | Some d => set_child d parent node
  | None => set_root node
  end.

Fixpoint insert_loop (fuel : nat) (node : ptr) : SM rbs unit :=
  match fuel with
  | O => bug
  | S fuel =>
    parent ← parent_of node;
    match parent with
    | None => mret tt
    | Some _ =>
      c ← color_of parent;
      if negb (c =? RB_RED) then mret tt else
      gparent ← parent_of parent;
      gleft ← child_of L gparent;
      let d := if decide (parent = gleft) then L else R in
      uncle ← child_of (opp d) gparent;
      red ← is_red uncle;
      if red : bool then
        set_color uncle RB_BLACK;;
        set_color parent RB_BLACK;;
        set_color gparent RB_RED;;
        insert_loop fuel gparent
      else
        inner ← child_of (opp d) parent;
        '(parent, node) ← (if decide (inner = node) then rotate d parent;; mret (node, parent)
                           else mret (parent, node));
        set_color parent RB_BLACK;;
        set_color gparent RB_RED;;
        rotate (opp d) gparent;;
        insert_loop fuel node
    end
  end.

(** As many rounds as there are nodes, and two more. *)
Definition rounds (s : rbs) : nat := S (S (size (nodes s))).

Definition rb_insert_color (node : ptr) : SM rbs unit :=
  fuel ← gets rounds;
  insert_loop fuel node;;
  root ← gets rb_root;
  set_color root RB_BLACK.

(** ** Removal *)

(** The last steps of the loop of [__rb_erase_color], when a child of the sibling is
    red; with [node = root->rb_node] after them.  [L] is the case [parent->rb_left == node]. *)
Definition erase_last (d : dir) (parent other : ptr) : SM rbs ptr :=
  pc ← color_of parent;
  set_color other pc;;
  set_color parent RB_BLACK;;
  far ← child_of (opp d) other;
  set_color_if far RB_BLACK;;
  rotate d parent;;
  gets rb_root.

(** The rest of a round, once the sibling [other] is black. *)
Definition erase_black (again : ptr → ptr → SM rbs ptr) (d : dir) (parent other : ptr) : SM rbs ptr :=
  ol ← child_of L other;
  bl ← is_black ol;
  br ← (if bl : bool then or ← child_of R other; is_black or else mret false);
  if br : bool then
    set_color other RB_RED;;
    up ← parent_of parent;
    again parent up
  else
    far ← child_of (opp d) other;
    bf ← is_black far;
    other ← (if bf : bool then
               near ← child_of d other;
               set_color_if near RB_BLACK;;
               set_color other RB_RED;;
               rotate (opp d) other;;
               child_of (opp d) parent
             else mret other);
    erase_last d parent other.

(** The loop, with the last [node]. *)
Fixpoint erase_loop (fuel : nat) (node parent : ptr) : SM rbs ptr :=
  match fuel with
  | O => bug
  | S fuel =>
    black ← is_black node;
    root ← gets rb_root;
    if negb (black && negb (bool_decide (node = root))) then mret node else
    left ← child_of L parent;
    let d := if decide (left = node) then L else R in
    other ← child_of (opp d) parent;
    c ← color_of other;
    other ← (if c =? RB_RED then
               set_color other RB_BLACK;;
               set_color parent RB_RED;;
               rotate d parent;;
               child_of (opp d) parent
             else mret other);
    erase_black (erase_loop fuel) d parent other
  end.

Definition __rb_erase_color (node parent : ptr) : SM rbs unit :=
  fuel ← gets rounds;
  node ← erase_loop fuel node parent;
  set_color_if node RB_BLACK.

(** [while (n->rb_left) n = n->rb_left], for [L]. *)
Fixpoint outermost (d : dir) (fuel : nat) (n : ptr) : SM rbs ptr :=
  match fuel with
  | O => bug
  | S fuel =>
    l ← child_of d n;
    match l with Some _ => outermost d fuel l | None => mret n end
  end.

(** A node that has one child at most leaves the tree: [child] takes its place. *)
Definition unlink (node child : ptr) : SM rbs (ptr * Z) :=
  parent ← parent_of node;
  color ← color_of node;
  set_parent_if child parent;;
  replace_child L parent node child;;
  mret (parent, color).

Definition rb_erase (node : ptr) : SM rbs unit :=
  left ← child_of L node;
  right ← child_of R node;
  '(child, parent, color) ←
    match left, right with
    | None, _ =>
      '(parent, color) ← unlink node right;
      mret (right, parent, color)
    | Some _, None =>
      '(parent, color) ← unlink node left;
      mret (left, parent, color)
    | Some _, Some _ =>
      let old := node in
      fuel ← gets rounds;
      node ← outermost L fuel right;
      child ← child_of R node;
      '(parent, color) ← unlink node child;
      np ← parent_of node;
      let parent := if decide (np = old) then node else parent in
      x ← deref old;
      write node x;;
      replace_child L (rb_parent x) old node;;
      set_parent (rb_left x) node;;
      set_parent_if (rb_right x) node;;
      mret (child, parent, color)
    end;
  if color =? RB_BLACK then __rb_erase_color child parent else mret tt.

(** ** Walking and replacing *)

(** [rb_first] for [L], [rb_last] for [R]. *)
Definition rb_end (d : dir) : SM rbs ptr :=
  root ← gets rb_root;
  match root with
  | None => mret None
  | Some _ => fuel ← gets rounds; outermost d fuel root
  end.
Definition rb_first : SM rbs ptr := rb_end L.
Definition rb_last : SM rbs ptr := rb_end R.

(** [while (node->rb_parent && node == node->rb_parent->rb_right) node = node->rb_parent],
    for [R], and the parent then. *)
Fixpoint climb (d : dir) (fuel : nat) (node : ptr) : SM rbs ptr :=
  match fuel with
  | O => bug
  | S fuel =>
    parent ← parent_of node;
    match parent with
    | None => mret None
    | Some _ =>
      c ← child_of d parent;
      if decide (node = c) then climb d fuel parent else mret parent
    end
  end.

(** [rb_next] for [R], [rb_prev] for [L]. *)
Definition rb_step (d : dir) (node : ptr) : SM rbs ptr :=
  fuel ← gets rounds;
  c ← child_of d node;
  match c with
  | Some _ => outermost (opp d) fuel c
  | None => climb d fuel node
  end.
Definition rb_next : ptr → SM rbs ptr := rb_step R.
Definition rb_prev : ptr → SM rbs ptr := rb_step L.

Definition rb_replace_node (victim new : ptr) : SM rbs unit :=
  x ← deref victim;
  replace_child L (rb_parent x) victim new;;
  set_parent_if (rb_left x) new;;
  set_parent_if (rb_right x) new;;
  y ← deref victim;
  deref new;;
  write new y.

End Rbtree.
