(* ===== verification/RbtreeFacts.v ===== *)
(** * Red-black trees: trees in memory

    A functional tree describes what the memory holds; a context, the path from a node to the
    root, describes the rest of the tree around a subtree. *)

From stdpp Require Import prelude numbers list gmap.
From Stdlib Require Import ZArith Lia.
From S2P Require Import Prelude Rbtree.

#[local] Set Default Goal Selector "!".
#[local] Open Scope Z_scope.

Module RbtreeFacts.
Import Rbtree.

(** ** Trees and contexts *)

Inductive tree := E | T (c : Z) (l : tree) (n : Z) (r : tree).

(** The child on side [d] is [a], the other one [b]. *)
Definition nd (d : dir) (c : Z) (a : tree) (n : Z) (b : tree) : tree :=
  match d with L => T c a n b | R => T c b n a end.

Definition top (t : tree) : ptr := match t with E => None | T _ _ n _ => Some n end.

Fixpoint inorder (t : tree) : list Z :=
  match t with E => [] | T _ l n r => inorder l ++ n :: inorder r end.

(** A node on the path: the hole is its child on side [f_dir]. *)
Record frame := F { f_dir : dir; f_col : Z; f_node : Z; f_sib : tree }.

Definition fill (f : frame) (t : tree) : tree := nd (f_dir f) (f_col f) t (f_node f) (f_sib f).
Fixpoint plug (k : list frame) (t : tree) : tree :=
  match k with [] => t | f :: k => plug k (fill f t) end.
Definition above (k : list frame) : ptr := f_node <$> head k.

Fixpoint knodes (k : list frame) : list Z :=
  match k with [] => [] | f :: k => f_node f :: inorder (f_sib f) ++ knodes k end.

Lemma top_nd d c a n b : top (nd d c a n b) = Some n.
Proof. by destruct d. Qed.

Lemma opp_opp d : opp (opp d) = d.
Proof. by destruct d. Qed.

Lemma nd_opp d c a n b : nd (opp d) c a n b = nd d c b n a.
Proof. by destruct d. Qed.

Lemma nd_perm d c a n b : inorder (nd d c a n b) ≡ₚ n :: inorder a ++ inorder b.
Proof.
  destruct d; cbn; rewrite <- Permutation_middle; [done|]. by rewrite (Permutation_app_comm (inorder b)).
Qed.

Lemma plug_perm k t : inorder (plug k t) ≡ₚ inorder t ++ knodes k.
Proof.
  revert t. induction k as [|f k IH]; intros t; cbn; [by rewrite app_nil_r|].
  rewrite IH. unfold fill. rewrite nd_perm. rewrite <- Permutation_middle. cbn. by rewrite <- app_assoc.
Qed.

Lemma plug_app k k' t : plug (k ++ k') t = plug k' (plug k t).
Proof. revert t. induction k as [|f k IH]; intros t; cbn; [done|apply IH]. Qed.

(** ** Trees in memory *)

Fixpoint repr (m : gmap Z rb_node) (p : ptr) (t : tree) : Prop :=
  match t with
  | E => True
  | T c l n r => m !! n = Some (mk_node p c (top r) (top l)) ∧ repr m (Some n) l ∧ repr m (Some n) r
  end.

(** A node with its children by side. *)
Definition mkd (d : dir) (p : ptr) (c : Z) (a b : ptr) : rb_node :=
  match d with L => mk_node p c b a | R => mk_node p c a b end.

Lemma repr_nd m p d c a n b :
  repr m p (nd d c a n b) ↔
  m !! n = Some (mkd d p c (top a) (top b)) ∧ repr m (Some n) a ∧ repr m (Some n) b.
Proof. destruct d; cbn; tauto. Qed.

Lemma child_mkd d p c a b : child d (mkd d p c a b) = a.
Proof. by destruct d. Qed.
Lemma child_opp_mkd d p c a b : child (opp d) (mkd d p c a b) = b.
Proof. by destruct d. Qed.
Lemma with_child_mkd d p c a b v : with_child d v (mkd d p c a b) = mkd d p c v b.
Proof. by destruct d. Qed.
Lemma with_child_opp_mkd d p c a b v : with_child (opp d) v (mkd d p c a b) = mkd d p c a v.
Proof. by destruct d. Qed.
Lemma with_parent_mkd d p c a b v : with_parent v (mkd d p c a b) = mkd d v c a b.
Proof. by destruct d. Qed.
Lemma with_color_mkd d p c a b v : with_color v (mkd d p c a b) = mkd d p v a b.
Proof. by destruct d. Qed.
Lemma parent_mkd d p c a b : rb_parent (mkd d p c a b) = p.
Proof. by destruct d. Qed.
Lemma color_mkd d p c a b : rb_color (mkd d p c a b) = c.
Proof. by destruct d. Qed.

(** The context, with [h] the pointer in the hole. *)
Fixpoint reprk (m : gmap Z rb_node) (k : list frame) (h : ptr) : Prop :=
  match k with
  | [] => True
  | f :: k =>
    m !! f_node f = Some (mkd (f_dir f) (above k) (f_col f) h (top (f_sib f))) ∧
    repr m (Some (f_node f)) (f_sib f) ∧ reprk m k (Some (f_node f))
  end.

Lemma repr_plug m k t : repr m None (plug k t) ↔ repr m (above k) t ∧ reprk m k (top t).
Proof.
  revert t. induction k as [|f k IH]; intros t; cbn [plug reprk]; [cbn; tauto|].
  rewrite IH. unfold fill. rewrite repr_nd, top_nd. cbn. tauto.
Qed.

Lemma repr_agree m m' p t : (∀ n, n ∈ inorder t → m' !! n = m !! n) → repr m p t → repr m' p t.
Proof.
  revert p. induction t as [|c l IHl n r IHr]; intros p Hm; cbn; [done|]. cbn in Hm.
  intros (Hn & Hl & Hr). split_and!.
  - rewrite Hm; [done|]. apply elem_of_app. right. by left.
  - apply IHl; [|done]. intros j Hj. apply Hm, elem_of_app. by left.
  - apply IHr; [|done]. intros j Hj. apply Hm, elem_of_app. right. by right.
Qed.

Lemma reprk_agree m m' k h : (∀ n, n ∈ knodes k → m' !! n = m !! n) → reprk m k h → reprk m' k h.
Proof.
  revert h. induction k as [|f k IH]; intros h Hm; cbn; [done|]. cbn in Hm. intros (Hn & Hs & Hk). split_and!.
  - rewrite Hm; [done|]. by left.
  - eapply repr_agree; [|exact Hs]. intros j Hj. apply Hm. right. apply elem_of_app. by left.
  - apply IH; [|done]. intros j Hj. apply Hm. right. apply elem_of_app. by right.
Qed.

(** The memory holds tree [t], and what [M] says outside of it. *)
Record holds (M : gmap Z rb_node) (s : rbs) (t : tree) : Prop := {
  ho_root : rb_root s = top t;
  ho_repr : repr (nodes s) None t;
  ho_nodup : NoDup (inorder t);
  ho_rest : ∀ n, n ∉ inorder t → nodes s !! n = M !! n
}.

(** ** Steps *)

Lemma wp_deref_in n x s (Φ : rb_node → rbs → Prop) Ψ :
  nodes s !! n = Some x → Φ x s → wp (deref (Some n)) Φ Ψ s.
Proof. intros H. unfold wp, deref. cbn. by rewrite H. Qed.

Lemma wp_deref n x m r (Φ : rb_node → rbs → Prop) Ψ :
  m !! n = Some x → Φ x (mk_rbs m r) → wp (deref (Some n)) Φ Ψ (mk_rbs m r).
Proof. apply (wp_deref_in n x (mk_rbs m r)). Qed.

Lemma wp_read {A} (f : rb_node → A) n x m r (Φ : A → rbs → Prop) Ψ :
  m !! n = Some x → Φ (f x) (mk_rbs m r) → wp (x ← deref (Some n); mret (f x)) Φ Ψ (mk_rbs m r).
Proof. intros H HΦ. eapply wp_bind, wp_deref; [exact H|]. by apply wp_ret. Qed.

Lemma wp_update f n x m r (Φ : unit → rbs → Prop) Ψ :
  m !! n = Some x → Φ tt (mk_rbs (<[n := f x]> m) r) → wp (update f (Some n)) Φ Ψ (mk_rbs m r).
Proof. intros H HΦ. eapply wp_bind, wp_deref; [exact H|]. by apply wp_modify. Qed.

(** Two memories that differ only on [l]. *)
Definition only (l : list Z) (m m' : gmap Z rb_node) : Prop := ∀ n, n ∉ l → m' !! n = m !! n.

Lemma wp_set_parent_if t p q m r (Φ : unit → rbs → Prop) Ψ :
  repr m p t → NoDup (inorder t) →
  (∀ m', repr m' q t → only (inorder t) m m' → Φ tt (mk_rbs m' r)) →
  wp (set_parent_if (top t) q) Φ Ψ (mk_rbs m r).
Proof.
  intros Ht Hnd HΦ. destruct t as [|c l n rt]; cbn [set_parent_if top].
  { apply wp_ret, HΦ; done. }
  destruct Ht as (Hn & Hl & Hr). cbn in Hnd.
  apply NoDup_app in Hnd as (_ & Hln & Hnd). apply NoDup_cons in Hnd as [Hnr _].
  assert (n ∉ inorder l) as Hnl by (intros H; apply (Hln n H); by left).
  eapply wp_update; [exact Hn|]. apply HΦ.
  - cbn. split_and!; [by rewrite lookup_insert_eq| |]; (eapply repr_agree; [|eassumption]);
      intros j Hj; by rewrite lookup_insert_ne by (by intros ->).
  - intros j Hj. rewrite lookup_insert_ne; [done|]. intros ->. apply Hj. cbn. apply elem_of_app. right. by left.
Qed.

Lemma wp_replace_child d k old new m r (Φ : unit → rbs → Prop) Ψ :
  reprk m k (Some old) → NoDup (old :: knodes k) →
  (∀ m', reprk m' k new → only (knodes k) m m' → Φ tt (mk_rbs m' (if k is [] then new else r))) →
  wp (replace_child d (above k) (Some old) new) Φ Ψ (mk_rbs m r).
Proof.
  intros Hk Hnd HΦ. destruct k as [|f k]; cbn [replace_child above head fmap option_fmap option_map].
  { apply wp_modify, HΦ; done. }
  cbn in Hk, Hnd. destruct Hk as (Hn & Hs & Hk). apply NoDup_cons in Hnd as [Hold Hnd].
  apply not_elem_of_cons in Hold as [_ Hold]. apply not_elem_of_app in Hold as [Hold _].
  apply NoDup_cons in Hnd as [Hfn _]. apply not_elem_of_app in Hfn as [Hfs Hfk].
  assert (top (f_sib f) ≠ Some old) as Hne.
  { intros Ht. apply Hold. destruct (f_sib f); [done|]. injection Ht as ->. cbn. apply elem_of_app. right. by left. }
  eapply wp_bind, wp_read; [exact Hn|].
  assert (∀ v, m !! f_node f = Some v → wp (set_child (f_dir f) (Some (f_node f)) new) Φ Ψ (mk_rbs m r)) as Hgo.
  { intros _ _. eapply wp_update; [exact Hn|]. rewrite with_child_mkd. apply HΦ.
    - cbn. split_and!; [by rewrite lookup_insert_eq| |].
      + eapply repr_agree; [|exact Hs]. intros j Hj. by rewrite lookup_insert_ne by (by intros <-).
      + eapply reprk_agree; [|exact Hk]. intros j Hj. by rewrite lookup_insert_ne by (by intros <-).
    - intros j Hj. apply not_elem_of_cons in Hj as [Hj _]. by rewrite lookup_insert_ne. }
  destruct (decide (d = f_dir f)) as [->|Hd].
  - rewrite child_mkd, decide_True by done. by eapply Hgo.
  - assert (d = opp (f_dir f)) as -> by (by destruct d, (f_dir f)).
    rewrite child_opp_mkd, decide_False, opp_opp by done. by eapply Hgo.
Qed.

(** ** Rotation *)

(** A tree with the same nodes keeps the rest. *)
Lemma holds_perm M s t t' r m :
  holds M s t → inorder t' ≡ₚ inorder t → r = top t' → repr m None t' →
  only (inorder t) (nodes s) m → holds M (mk_rbs m r) t'.
Proof.
  intros [_ _ Hnd Hrest] Hp -> Hr Ho. split; cbn; [done|done|by rewrite Hp|].
  intros n Hn. rewrite Hp in Hn. rewrite Ho by done. by apply Hrest.
Qed.

Lemma top_plug k t t' : top t = top t' ∨ k ≠ [] → top (plug k t) = top (plug k t').
Proof.
  revert t t'. induction k as [|f k IH]; intros t t' H; cbn; [by destruct H|].
  apply IH. left. unfold fill. by rewrite !top_nd.
Qed.

Lemma top_plug_root k t h r : r = top (plug k t) → (if k is [] then top h else r) = top (plug k h).
Proof. intros ->. destruct k as [|f k]; [done|]. apply top_plug. by right. Qed.

Ltac nodup_split :=
  repeat match goal with
  | H : NoDup (_ :: _) |- _ => apply NoDup_cons in H as [? ?]
  | H : NoDup (_ ++ _) |- _ => apply NoDup_app in H as (? & ? & ?)
  | H : _ ∉ _ :: _ |- _ => apply not_elem_of_cons in H as [? ?]
  | H : _ ∉ _ ++ _ |- _ => apply not_elem_of_app in H as [? ?]
  end.

(** Membership in one of several lists without common elements. *)
Ltac apart :=
  let H := fresh in intros H; subst;
  first [ done
        | match goal with
          | Hd : ∀ x, x ∈ ?l → x ∉ _, Hj : _ ∈ ?l |- False =>
            apply (Hd _ Hj); rewrite ?elem_of_cons, ?elem_of_app, ?elem_of_cons; tauto
          end ].

Lemma rotate_spec M d k c a x e b y f s Ψ :
  holds M s (plug k (nd d c a x (nd d e b y f))) →
  wp (rotate d (Some x)) (λ _ s', holds M s' (plug k (nd d e (nd d c a x b) y f))) Ψ s.
Proof.
  intros Hh. pose proof Hh as [Hroot Hrep Hnd _]. destruct s as [m r]. cbn [nodes rb_root] in *.
  apply repr_plug in Hrep as [Hx Hk]. apply repr_nd in Hx as (Hx & Ha & Hy).
  apply repr_nd in Hy as (Hy & Hb & Hf). rewrite top_nd in *.
  rewrite plug_perm, nd_perm, nd_perm in Hnd.
  assert (NoDup (x :: y :: inorder b ++ inorder a ++ inorder f ++ knodes k)) as Hnd'.
  { eapply NoDup_Permutation_proper; [|exact Hnd]. solve_Permutation. }
  clear Hnd. assert (NoDup (x :: knodes k)) as Hxk.
  { clear -Hnd'. nodup_split. apply NoDup_cons. done. }
  assert (NoDup (inorder b)) as Hndb by (clear -Hnd'; nodup_split; done).
  unfold rotate. eapply wp_bind, wp_read; [exact Hx|]. rewrite child_opp_mkd.
  eapply wp_bind, wp_read; [exact Hy|]. rewrite child_mkd.
  eapply wp_bind, wp_update; [exact Hx|]. rewrite with_child_opp_mkd.
  nodup_split.
  assert (y ≠ x) by congruence.
  apply wp_bind. eapply (wp_set_parent_if b (Some y) (Some x)); [|done|].
  { eapply repr_agree; [|exact Hb]. intros j Hj. rewrite lookup_insert_ne; [done|apart]. }
  intros m2 Hb2 Ho2.
  assert (m2 !! x = Some (mkd d (above k) c (top a) (top b))) as Hx2 by (by rewrite Ho2, lookup_insert_eq).
  assert (m2 !! y = Some (mkd d (Some x) e (top b) (top f))) as Hy2 by (by rewrite Ho2, lookup_insert_ne).
  eapply wp_bind, wp_update; [exact Hy2|]. rewrite with_child_mkd.
  eapply wp_bind, wp_read; [by rewrite lookup_insert_ne|]. rewrite parent_mkd.
  eapply wp_bind, wp_update; [apply lookup_insert_eq|]. rewrite with_parent_mkd, insert_insert_eq.
  apply wp_bind. apply (wp_replace_child d k x (Some y)); [|by apply NoDup_cons|].
  { eapply reprk_agree; [|exact Hk]. intros j Hj.
    rewrite lookup_insert_ne, Ho2, lookup_insert_ne by apart. done. }
  intros m5 Hk5 Ho5.
  assert (m5 !! x = Some (mkd d (above k) c (top a) (top b))) as Hx5 by (by rewrite Ho5, lookup_insert_ne).
  assert (m5 !! y = Some (mkd d (above k) e (Some x) (top f))) as Hy5 by (by rewrite Ho5, lookup_insert_eq).
  eapply wp_update; [exact Hx5|]. rewrite with_parent_mkd.
  set (m6 := <[x:=_]> m5).
  assert (∀ j, j ≠ x → j ≠ y → j ∉ inorder b → j ∉ knodes k → m6 !! j = m !! j) as Hout.
  { intros j J1 J2 J3 J4. unfold m6. by rewrite lookup_insert_ne, Ho5, lookup_insert_ne, Ho2, lookup_insert_ne. }
  eapply (holds_perm M _ _ _ _ _ Hh).
  - rewrite !plug_perm, !nd_perm. solve_Permutation.
  - rewrite <- (top_plug_root k _ (nd d e (nd d c a x b) y f) r Hroot), top_nd. done.
  - apply repr_plug. rewrite repr_nd, repr_nd, !top_nd. split_and!.
    + unfold m6. by rewrite lookup_insert_ne.
    + unfold m6. by rewrite lookup_insert_eq.
    + eapply repr_agree; [|exact Ha]. intros j Hj. apply Hout; apart.
    + eapply repr_agree; [|exact Hb2]. intros j Hj. unfold m6. rewrite lookup_insert_ne, Ho5, lookup_insert_ne by apart. done.
    + eapply repr_agree; [|exact Hf]. intros j Hj. apply Hout; apart.
    + eapply reprk_agree; [|exact Hk5]. intros j Hj. unfold m6. by rewrite lookup_insert_ne by apart.
  - intros j. cbn [nodes]. rewrite plug_perm, nd_perm, nd_perm. intros Hj. nodup_split. by apply Hout.
Qed.

(** ** Reading and painting a node of the tree *)

Definition tcol (t : tree) : Z := match t with E => RB_BLACK | T c _ _ _ => c end.

Section at_node.
Context (M : gmap Z rb_node) (s : rbs) (k : list frame) (d : dir) (c : Z) (a : tree) (n : Z) (b : tree).
Context (Hh : holds M s (plug k (nd d c a n b))).

Lemma holds_node : nodes s !! n = Some (mkd d (above k) c (top a) (top b)).
Proof.
  pose proof (ho_repr _ _ _ Hh) as H. apply repr_plug in H as [H _]. by apply repr_nd in H as [H _].
Qed.

Lemma wp_node (Φ : rb_node → rbs → Prop) Ψ :
  Φ (mkd d (above k) c (top a) (top b)) s → wp (deref (Some n)) Φ Ψ s.
Proof. intros H. by eapply wp_deref_in; [apply holds_node|]. Qed.

Lemma wp_parent (Φ : ptr → rbs → Prop) Ψ : Φ (above k) s → wp (parent_of (Some n)) Φ Ψ s.
Proof. intros H. apply wp_bind, wp_node, wp_ret. by rewrite parent_mkd. Qed.

Lemma wp_color (Φ : Z → rbs → Prop) Ψ : Φ c s → wp (color_of (Some n)) Φ Ψ s.
Proof. intros H. apply wp_bind, wp_node, wp_ret. by rewrite color_mkd. Qed.

Lemma wp_child (Φ : ptr → rbs → Prop) Ψ : Φ (top a) s → wp (child_of d (Some n)) Φ Ψ s.
Proof. intros H. apply wp_bind, wp_node, wp_ret. by rewrite child_mkd. Qed.

Lemma wp_child_opp (Φ : ptr → rbs → Prop) Ψ : Φ (top b) s → wp (child_of (opp d) (Some n)) Φ Ψ s.
Proof. intros H. apply wp_bind, wp_node, wp_ret. by rewrite child_opp_mkd. Qed.

Lemma wp_set_color c' (Φ : unit → rbs → Prop) Ψ :
  (∀ s', holds M s' (plug k (nd d c' a n b)) → Φ tt s') → wp (set_color (Some n) c') Φ Ψ s.
Proof.
  intros HΦ. pose proof holds_node as Hn. pose proof Hh as [Hroot Hrep Hnd _].
  eapply wp_bind, wp_deref_in; [exact Hn|]. apply wp_modify. rewrite with_color_mkd. apply HΦ.
  apply repr_plug in Hrep as [Hx Hk]. apply repr_nd in Hx as (Hx & Ha & Hb). rewrite top_nd in *.
  rewrite plug_perm, nd_perm in Hnd. cbn in Hnd. nodup_split.
  eapply (holds_perm M _ _ _ _ _ Hh).
  - by rewrite !plug_perm, !nd_perm.
  - rewrite Hroot. apply top_plug. left. by rewrite !top_nd.
  - apply repr_plug. rewrite repr_nd, top_nd. split_and!.
    + by rewrite lookup_insert_eq.
    + eapply repr_agree; [|exact Ha]. intros j Hj. by rewrite lookup_insert_ne by apart.
    + eapply repr_agree; [|exact Hb]. intros j Hj. by rewrite lookup_insert_ne by apart.
    + eapply reprk_agree; [|exact Hk]. intros j Hj. by rewrite lookup_insert_ne by apart.
  - intros j. cbn [nodes]. rewrite plug_perm, nd_perm. intros Hj. cbn in Hj. nodup_split. by rewrite lookup_insert_ne by apart.
Qed.
End at_node.

(** The same for a subtree that may be empty. *)
Section at_tree.
Context (M : gmap Z rb_node) (s : rbs) (k : list frame) (t : tree) (Hh : holds M s (plug k t)).

Lemma wp_is_red (Φ : bool → rbs → Prop) Ψ : Φ (tcol t =? RB_RED) s → wp (is_red (top t)) Φ Ψ s.
Proof.
  intros H. destruct t as [|c l n r]; [by apply wp_ret|]. apply wp_bind.
  by apply (wp_color M s k L c l n r), wp_ret.
Qed.

Lemma wp_is_black (Φ : bool → rbs → Prop) Ψ : Φ (tcol t =? RB_BLACK) s → wp (is_black (top t)) Φ Ψ s.
Proof.
  intros H. destruct t as [|c l n r]; [by apply wp_ret|]. apply wp_bind.
  by apply (wp_color M s k L c l n r), wp_ret.
Qed.

Definition paint (c : Z) (u : tree) : tree := match u with E => E | T _ l n r => T c l n r end.

Lemma wp_set_color_if c (Φ : unit → rbs → Prop) Ψ :
  (∀ s', holds M s' (plug k (paint c t)) → Φ tt s') → wp (set_color_if (top t) c) Φ Ψ s.
Proof.
  intros HΦ. destruct t as [|c0 l n r]; [by apply wp_ret, HΦ|].
  apply (wp_set_color M s k L c0 l n r); [done|]. exact HΦ.
Qed.
End at_tree.

(** Going down: a subtree of a subtree. *)
Lemma plug_near k d c a n b : plug k (nd d c a n b) = plug (F d c n b :: k) a.
Proof. done. Qed.
Lemma plug_far k d c a n b : plug k (nd d c a n b) = plug (F (opp d) c n a :: k) b.
Proof. cbn. unfold fill. cbn. by rewrite nd_opp. Qed.

(** ** Enough rounds *)

Lemma holds_size M s t : holds M s t → (length (inorder t) <= size (nodes s))%nat.
Proof.
  intros [_ Hr Hnd _]. rewrite <- size_dom, <- (size_list_to_set (C := gset Z)) by done. apply subseteq_size.
  intros n Hn. apply elem_of_list_to_set in Hn. apply elem_of_dom. clear Hnd.
  revert Hr Hn. generalize (@None Z : ptr). induction t as [|c l IHl x r IHr]; intros p Hr Hn; [by apply not_elem_of_nil in Hn|].
  destruct Hr as (Hx & Hl & Hr). cbn in Hn. apply elem_of_app in Hn as [Hn|[->|Hn]%elem_of_cons]; eauto.
Qed.

Lemma knodes_length k : (length k <= length (knodes k))%nat.
Proof. induction k as [|f k IH]; cbn; [lia|]. rewrite length_app. lia. Qed.

Lemma holds_depth M s k t : holds M s (plug k t) → (length k <= size (nodes s))%nat.
Proof.
  intros H. apply holds_size in H. rewrite plug_perm, length_app in H. pose proof (knodes_length k). lia.
Qed.

End RbtreeFacts.
