(* ===== verification/RbtreeInsert.v ===== *)
(** * Red-black trees: the colours, and insertion *)

From stdpp Require Import prelude numbers list gmap.
From Stdlib Require Import ZArith Lia.
From S2P Require Import Prelude Rbtree RbtreeFacts.

#[local] Set Default Goal Selector "!".
#[local] Open Scope Z_scope.

Module RbtreeInsert.
Import Rbtree RbtreeFacts.

(** ** Red-black trees *)

(** No red node has a red child, and all paths down have [h] black nodes. *)
Inductive is_rb : tree → nat → Prop :=
| rb_empty : is_rb E 0
| rb_red l n r h : tcol l = RB_BLACK → tcol r = RB_BLACK → is_rb l h → is_rb r h → is_rb (T RB_RED l n r) h
| rb_black l n r h : is_rb l h → is_rb r h → is_rb (T RB_BLACK l n r) (S h).

Definition good (t : tree) : Prop := tcol t = RB_BLACK ∧ ∃ h, is_rb t h.

(** The hole takes a tree of black height [h]; if it does not take a red one, it is [false].
    A red root is not taken. *)
Inductive ctx_ok : list frame → bool → nat → Prop :=
| ck_nil h : ctx_ok [] false h
| ck_red d n sib k h : ctx_ok k true h → is_rb sib h → tcol sib = RB_BLACK → ctx_ok (F d RB_RED n sib :: k) false h
| ck_black d n sib k b h : ctx_ok k b (S h) → is_rb sib h → ctx_ok (F d RB_BLACK n sib :: k) true h.

Lemma is_rb_red d a n b h :
  tcol a = RB_BLACK → tcol b = RB_BLACK → is_rb a h → is_rb b h → is_rb (nd d RB_RED a n b) h.
Proof. intros. destruct d; by constructor. Qed.
Lemma is_rb_black d a n b h : is_rb a h → is_rb b h → is_rb (nd d RB_BLACK a n b) (S h).
Proof. intros. destruct d; by constructor. Qed.
Lemma tcol_nd d c a n b : tcol (nd d c a n b) = c.
Proof. by destruct d. Qed.

Lemma is_rb_nd_inv d c a n b h :
  is_rb (nd d c a n b) h →
  c = RB_RED ∧ tcol a = RB_BLACK ∧ tcol b = RB_BLACK ∧ is_rb a h ∧ is_rb b h ∨
  c = RB_BLACK ∧ ∃ h', h = S h' ∧ is_rb a h' ∧ is_rb b h'.
Proof. destruct d; cbn; inversion 1; subst; eauto 10. Qed.

Lemma tcol_cases t h : is_rb t h → tcol t = RB_RED ∨ tcol t = RB_BLACK.
Proof. destruct 1; auto. Qed.

Lemma plug_ok k b h t : ctx_ok k b h → is_rb t h → (b = true ∨ tcol t = RB_BLACK) → good (plug k t).
Proof.
  intros Hk. revert t. induction Hk as [h|d n sib k h Hk IH Hs Hc|d n sib k b h Hk IH Hs]; intros t Ht Hb; cbn [plug].
  - split; [by destruct Hb|eauto].
  - destruct Hb as [|Hb]; [done|]. apply IH; [by apply is_rb_red|by left].
  - apply IH; [by apply is_rb_black|]. right. apply tcol_nd.
Qed.

Lemma plug_inv k t : good (plug k t) → ∃ b h, ctx_ok k b h ∧ is_rb t h ∧ (b = true ∨ tcol t = RB_BLACK).
Proof.
  revert t. induction k as [|[d c n sib] k IH]; intros t; cbn [plug].
  - intros [Hc [h Hh]]. exists false, h. split; [constructor|auto].
  - intros (b & h & Hk & Ht & Hb)%IH. unfold fill in Ht, Hb. cbn in Ht, Hb. rewrite tcol_nd in Hb.
    apply is_rb_nd_inv in Ht as [(-> & Ca & Cb & Ha & Hb')|(-> & h' & -> & Ha & Hb')].
    + destruct Hb as [->|]; [|done]. exists false, h. split; [by constructor|auto].
    + exists true, h'. split; [by econstructor|auto].
Qed.

(** ** Order *)

Fixpoint before (k : list frame) : list Z :=
  match k with
  | [] => []
  | f :: k => match f_dir f with L => before k | R => before k ++ inorder (f_sib f) ++ [f_node f] end
  end.
Fixpoint after (k : list frame) : list Z :=
  match k with
  | [] => []
  | f :: k => match f_dir f with L => f_node f :: inorder (f_sib f) ++ after k | R => after k end
  end.

Lemma inorder_plug k t : inorder (plug k t) = before k ++ inorder t ++ after k.
Proof.
  revert t. induction k as [|[[] c n sib] k IH]; intros t; cbn [plug before after f_dir f_node f_sib].
  - by rewrite app_nil_r.
  - rewrite IH. cbn. by rewrite <- !app_assoc.
  - rewrite IH. cbn. by rewrite <- !app_assoc.
Qed.

Lemma inorder_plug_eq k t t' : inorder t = inorder t' → inorder (plug k t) = inorder (plug k t').
Proof. intros H. by rewrite !inorder_plug, H. Qed.

Lemma rotate_order d c a x e b y f : inorder (nd d c a x (nd d e b y f)) = inorder (nd d e (nd d c a x b) y f).
Proof. destruct d; cbn; by rewrite <- !app_assoc. Qed.

(** ** Insertion *)

(** The children of a node differ. *)
Lemma holds_sides M s k d c a n b :
  holds M s (plug k (nd d c a n b)) → is_Some (top a) → top a ≠ top b.
Proof.
  intros Hh [x Hx]. pose proof (ho_nodup _ _ _ Hh) as Hnd. rewrite plug_perm, nd_perm in Hnd. cbn in Hnd. nodup_split.
  assert (∀ t, top t = Some x → x ∈ inorder t) as Hin.
  { intros [|c0 l0 n0 r0]; [done|]. intros [= ->]. cbn. apply elem_of_app. right. by left. }
  intros Hb. rewrite Hx in Hb. apply Hin in Hx. symmetry in Hb. apply Hin in Hb. revert Hb. apart.
Qed.

(** [node == parent->rb_left] finds out on which side [node] is. *)
Lemma wp_side {A} M s k d c a n b x (g : ptr → SM rbs A) (Φ : A → rbs → Prop) Ψ :
  holds M s (plug k (nd d c a n b)) → top a = x → is_Some x ∨ is_Some (top b) →
  (∀ v, (∀ D : Decision (x = v), (if D then L else R) = d) →
        (∀ D : Decision (v = x), (if D then L else R) = d) → wp (g v) Φ Ψ s) →
  wp (v ← child_of L (Some n); g v) Φ Ψ s.
Proof.
  intros Hh Hx Hsome HΦ. apply wp_bind.
  assert (d = R → top b ≠ x) as Hne.
  { intros -> Hb. destruct Hsome as [Hsome|Hsome].
    - rewrite <- Hx in Hsome. apply (holds_sides M s k R c a n b Hh Hsome). congruence.
    - apply (holds_sides M s k L c b n a Hh Hsome). congruence. }
  destruct d.
  - apply (wp_child M s k L c a n b Hh), HΦ; intros []; congruence.
  - specialize (Hne eq_refl). apply (wp_child_opp M s k R c a n b Hh), HΦ; intros []; congruence.
Qed.

(** The node's parent is black: the loop ends. *)
Lemma insert_stop fuel M s k d a n g u c x y (Φ : unit → rbs → Prop) Ψ :
  holds M s (plug k (nd d RB_BLACK a n g)) → a = T c x u y → Φ tt s → wp (insert_loop (S fuel) (Some u)) Φ Ψ s.
Proof.
  intros Hh -> HΦ. cbn [insert_loop]. apply wp_bind.
  apply (wp_parent M s (F d RB_BLACK n g :: k) L c x u y); [done|]. cbn [above head fmap option_fmap option_map f_node].
  apply wp_bind. apply (wp_color M s k d RB_BLACK (T c x u y) n g Hh). by apply wp_ret.
Qed.

(** The case of the outer grandchild. *)
Lemma insert_outer fuel M s k e a q b g u c x n y (Φ : unit → rbs → Prop) Ψ :
  holds M s (plug k (nd e RB_BLACK (nd e RB_RED a q b) g u)) → a = T c x n y →
  (∀ s', holds M s' (plug k (nd e RB_BLACK a q (nd e RB_RED b g u))) → Φ tt s') →
  wp (set_color (Some q) RB_BLACK;; set_color (Some g) RB_RED;; rotate (opp e) (Some g);;
      insert_loop (S fuel) (Some n)) Φ Ψ s.
Proof.
  intros Hh Ha HΦ. apply wp_bind. apply (wp_set_color M s (F e RB_BLACK g u :: k) e RB_RED a q b Hh).
  intros s1 H1. apply wp_bind. apply (wp_set_color M s1 k e RB_BLACK (nd e RB_BLACK a q b) g u H1).
  intros s2 H2. apply wp_bind. eapply wp_mono.
  { apply (rotate_spec M (opp e) k RB_RED u g RB_BLACK b q a). by rewrite !nd_opp. }
  intros v s3 H3. rewrite !nd_opp in H3. eapply insert_stop; [exact H3|exact Ha|]. by apply HΦ.
Qed.

Definition inserted (M : gmap Z rb_node) (t : tree) (s : rbs) : Prop :=
  ∃ t', holds M s t' ∧ inorder t' = inorder t ∧ good (paint RB_BLACK t').

Lemma inserted_order M t t' s : inserted M t s → inorder t = inorder t' → inserted M t' s.
Proof. intros (x & Hh & Hx & Hg) H. exists x. by rewrite Hx. Qed.

Lemma paint_good t : good t → paint RB_BLACK t = t.
Proof. intros [Hc _]. destruct t; cbn in *; [done|]. by rewrite Hc. Qed.

Lemma good_paint t : good t → good (paint RB_BLACK t).
Proof. intros H. by rewrite paint_good. Qed.

(** A red uncle: colours change, and the grandparent is the next node. *)
Lemma insert_recolor {A} M s k e d t p sib g ul un ur (m : SM rbs A) (Φ : A → rbs → Prop) Ψ :
  holds M s (plug k (nd e RB_BLACK (nd d RB_RED t p sib) g (T RB_RED ul un ur))) →
  (∀ s', holds M s' (plug k (nd e RB_RED (nd d RB_BLACK t p sib) g (T RB_BLACK ul un ur))) → wp m Φ Ψ s') →
  wp (set_color (Some un) RB_BLACK;; set_color (Some p) RB_BLACK;; set_color (Some g) RB_RED;; m) Φ Ψ s.
Proof.
  intros Hh Hm. rewrite plug_far in Hh. apply wp_bind. apply (wp_set_color M s _ L RB_RED ul un ur Hh). intros s1 H1.
  change (nd L RB_BLACK ul un ur) with (T RB_BLACK ul un ur) in H1. rewrite <- plug_far in H1.
  apply wp_bind. apply (wp_set_color M s1 (F e RB_BLACK g (T RB_BLACK ul un ur) :: k) d RB_RED t p sib H1).
  intros s2 H2. apply wp_bind.
  apply (wp_set_color M s2 k e RB_BLACK (nd d RB_BLACK t p sib) g (T RB_BLACK ul un ur) H2). exact Hm.
Qed.

(** A black uncle: one rotation or two, and the loop ends. *)
Section black_uncle.
Context (M : gmap Z rb_node) (k : list frame) (b : bool) (h : nat) (e d : dir).
Context (l r : tree) (n p : Z) (sib : tree) (g : Z) (u : tree).
Context (Hk : ctx_ok k b (S h)) (Hl : is_rb l h) (Hr : is_rb r h).
Context (Cl : tcol l = RB_BLACK) (Cr : tcol r = RB_BLACK).
Context (Hs : is_rb sib h) (Cs : tcol sib = RB_BLACK) (Hu : is_rb u h) (Cu : tcol u = RB_BLACK).
Let P := nd d RB_RED (T RB_RED l n r) p sib.
Let whole := plug k (nd e RB_BLACK P g u).

Lemma uncle_outer fuel s a q x m y sb Ψ :
  a = T RB_RED x m y → is_rb a h → is_rb sb h → tcol sb = RB_BLACK →
  holds M s (plug k (nd e RB_BLACK (nd e RB_RED a q sb) g u)) → inorder (nd e RB_RED a q sb) = inorder P →
  wp (set_color (Some q) RB_BLACK;; set_color (Some g) RB_RED;; rotate (opp e) (Some g);;
      insert_loop (S fuel) (Some m)) (λ _ s', inserted M whole s') Ψ s.
Proof.
  intros Ha Hra Hrb Cb H1 Hord. eapply insert_outer; [exact H1|exact Ha|]. intros s2 H2.
  exists (plug k (nd e RB_BLACK a q (nd e RB_RED sb g u))). split_and!; [done| |].
  - apply inorder_plug_eq. rewrite rotate_order. clear -Hord. destruct e; cbn in *; by rewrite Hord.
  - apply good_paint. eapply (plug_ok k b (S h)); [done| |right; apply tcol_nd].
    apply is_rb_black; [done|]. by apply is_rb_red.
Qed.

Lemma uncle_ok fuel s Ψ :
  holds M s whole →
  wp (inner ← child_of (opp e) (Some p);
      '(parent, node) ← (if decide (inner = Some n) then rotate e (Some p);; mret (Some n, Some p)
                         else mret (Some p, Some n));
      set_color parent RB_BLACK;; set_color (Some g) RB_RED;; rotate (opp e) (Some g);;
      insert_loop (S fuel) node) (λ _ s', inserted M whole s') Ψ s.
Proof.
  intros Hh. assert (is_rb (T RB_RED l n r) h) as Ht by by constructor.
  assert (holds M s (plug (F e RB_BLACK g u :: k) P)) as H1 by exact Hh. apply wp_bind.
  destruct (decide (d = e)) as [Hd|Hde].
  - assert (P = nd e RB_RED (T RB_RED l n r) p sib) as EP by (unfold P; by rewrite Hd). rewrite EP in H1.
    apply (wp_child_opp M s _ e RB_RED (T RB_RED l n r) p sib H1). rewrite decide_False.
    2:{ intros Hx. eapply (holds_sides M s (F e RB_BLACK g u :: k) e); [exact H1|by eexists|by symmetry]. }
    apply wp_bind, wp_ret. eapply (uncle_outer fuel s (T RB_RED l n r) p l n r sib); [done..|exact H1|by rewrite EP].
  - assert (d = opp e) as Hd by (by destruct d, e).
    apply (wp_child M s (F e RB_BLACK g u :: k) (opp e) RB_RED (T RB_RED l n r) p sib); [by rewrite <- Hd|].
    rewrite decide_True by done. apply wp_bind, wp_bind.
    assert (∃ x y, T RB_RED l n r = nd e RB_RED x n y ∧ is_rb x h ∧ is_rb y h ∧ tcol x = RB_BLACK ∧ tcol y = RB_BLACK)
      as (x & y & Hxy & Hrx & Hry & Cx & Cy) by (destruct e; [by exists l, r|by exists r, l]).
    assert (P = nd e RB_RED sib p (nd e RB_RED x n y)) as EP by (unfold P; by rewrite Hd, nd_opp, Hxy).
    eapply wp_mono; [apply (rotate_spec M e (F e RB_BLACK g u :: k) RB_RED sib p RB_RED x n y); by rewrite <- EP|].
    intros v s1 H2. apply wp_ret. cbv beta iota.
    assert (is_rb (nd e RB_RED sib p x) h) as Ha by by apply is_rb_red.
    assert (∃ x' y', nd e RB_RED sib p x = T RB_RED x' p y') as (x' & y' & Ea) by (destruct e; eauto).
    eapply (uncle_outer fuel s1 _ n x' p y' y Ψ Ea); [done..|exact H2|]. rewrite EP. symmetry. apply rotate_order.
Qed.
End black_uncle.

Lemma insert_loop_ok fuel M s k b h l n r Ψ :
  holds M s (plug k (T RB_RED l n r)) → ctx_ok k b h → is_rb l h → is_rb r h →
  tcol l = RB_BLACK → tcol r = RB_BLACK → (length k < fuel)%nat →
  wp (insert_loop fuel (Some n)) (λ _ s', inserted M (plug k (T RB_RED l n r)) s') Ψ s.
Proof.
  revert s k b h l n r. induction fuel as [fuel IH] using lt_wf_ind.
  intros s k b h l n r Hh Hk Hl Hr Cl Cr Hf. destruct fuel as [|fuel]; [lia|].
  inversion Hk as [h0 E1|d p sib k' h0 Hk' Hs Cs E1|d p sib k' b' h0 Hk' Hs E1]; subst.
  - (* the root *)
    cbn [insert_loop]. apply wp_bind. apply (wp_parent M s [] L RB_RED l n r Hh). apply wp_ret.
    eexists. split_and!; [exact Hh|done|]. cbn. split; [done|]. eexists. by constructor.
  - (* a red parent, which has a black parent *)
    inversion Hk' as [| |e g u k2 b2 h0 Hk2 Hu]; subst. cbn [length] in Hf.
    cbn [insert_loop]. apply wp_bind.
    apply (wp_parent M s (F d RB_RED p sib :: F e RB_BLACK g u :: k2) L RB_RED l n r Hh).
    cbn [above head fmap option_fmap option_map f_node]. apply wp_bind.
    apply (wp_color M s (F e RB_BLACK g u :: k2) d RB_RED (T RB_RED l n r) p sib Hh).
    change (RB_RED =? RB_RED) with true. cbn [negb]. apply wp_bind.
    apply (wp_parent M s (F e RB_BLACK g u :: k2) d RB_RED (T RB_RED l n r) p sib Hh).
    cbn [above head fmap option_fmap option_map f_node].
    set (P := nd d RB_RED (T RB_RED l n r) p sib).
    assert (holds M s (plug k2 (nd e RB_BLACK P g u))) as Hg by exact Hh.
    apply (wp_side M s k2 e RB_BLACK P g u (Some p) _ _ _ Hg); [apply top_nd|by left; eexists|].
    intros v Hv _. cbv beta zeta. rewrite Hv. apply wp_bind. apply (wp_child_opp M s k2 e RB_BLACK P g u Hg).
    apply wp_bind. pose proof Hg as Hgu. rewrite plug_far in Hgu. apply (wp_is_red M s _ u Hgu).
    destruct (Z.eqb_spec (tcol u) RB_RED) as [Cu|Cu].
    + destruct u as [|cu ul un ur]; [done|]. cbn in Cu. subst cu. cbn [top].
      apply (is_rb_nd_inv L) in Hu as [(_ & Cul & Cur & Hul & Hur)|[? _]]; [|done].
      apply (insert_recolor M s k2 e d (T RB_RED l n r) p sib g ul un ur _ _ _ Hg). intros s3 H3.
      assert (is_rb (nd d RB_BLACK (T RB_RED l n r) p sib) (S h)) as HP' by (apply is_rb_black; [by constructor|done]).
      assert (is_rb (T RB_BLACK ul un ur) (S h)) as HU' by by constructor.
      apply (wp_mono _ _ (λ _ s', inserted M (plug k2 (nd e RB_RED (nd d RB_BLACK (T RB_RED l n r) p sib) g
        (T RB_BLACK ul un ur))) s')); [|intros v' s' Hi; eapply inserted_order; [exact Hi|]].
      * destruct e; eapply (IH fuel ltac:(lia) s3 k2 b2 (S h)); try exact H3; try apply tcol_nd; done || lia.
      * apply (inorder_plug_eq k2). unfold fill. by destruct e, d.
    + destruct fuel as [|fuel]; [lia|].
      apply (uncle_ok M k2 b2 h e d l r n p sib g u); try done. by destruct (tcol_cases u h Hu).
  - (* a black parent *)
    eapply (insert_stop fuel M s k' d); [exact Hh|done|]. eexists. split_and!; [exact Hh|done|].
    apply good_paint. eapply plug_ok; [exact Hk|by constructor|by left].
Qed.

(** ** The whole insertion *)

(** The link that leads to the hole. *)
Definition link (k : list frame) : option dir := f_dir <$> head k.

Lemma link_ok M s k n Ψ :
  holds M s (plug k E) → n ∉ inorder (plug k E) → is_Some (nodes s !! n) →
  wp (rb_link_node (Some n) (above k) (link k)) (λ _ s', holds M s' (plug k (T RB_RED E n E))) Ψ s.
Proof.
  intros Hh Hn [x Hx]. pose proof Hh as [Hroot Hrep Hnd Hrest]. destruct s as [m r]. cbn [nodes rb_root] in *.
  apply repr_plug in Hrep as [_ Hk]. rewrite plug_perm in Hnd, Hn. cbn [inorder app top] in *.
  assert (inorder (plug k (T RB_RED E n E)) ≡ₚ n :: knodes k) as Hp by (rewrite plug_perm; done).
  unfold rb_link_node. eapply wp_bind, wp_deref; [exact Hx|]. apply wp_bind, wp_modify. cbn [nodes rb_root].
  destruct k as [|[d c p sib] k]; cbn [link head fmap option_fmap option_map f_dir].
  - apply wp_modify. split; cbn; [done|by rewrite lookup_insert_eq|apply NoDup_singleton|].
    intros j Hj%not_elem_of_cons. rewrite lookup_insert_ne by (by destruct Hj). apply Hrest. apply not_elem_of_nil.
  - cbn in Hk, Hnd, Hn. destruct Hk as (Hf & Hs & Hk). nodup_split.
    cbn [above head fmap option_fmap option_map f_node].
    eapply wp_update; [rewrite lookup_insert_ne by done; exact Hf|]. cbn [f_dir]. rewrite with_child_mkd.
    split.
    + cbn [rb_root]. rewrite Hroot. apply top_plug. by right.
    + cbn [nodes]. apply repr_plug. cbn [top repr reprk f_node f_dir f_col f_sib above head fmap option_fmap option_map]. split_and!; [|done..| | |].
      * by rewrite lookup_insert_ne, lookup_insert_eq.
      * by rewrite lookup_insert_eq.
      * eapply repr_agree; [|exact Hs]. intros j Hj. by rewrite !lookup_insert_ne by apart.
      * eapply reprk_agree; [|exact Hk]. intros j Hj. by rewrite !lookup_insert_ne by apart.
    + rewrite Hp. cbn. apply NoDup_cons. split.
      * rewrite not_elem_of_cons, not_elem_of_app. done.
      * apply NoDup_cons. split; [by rewrite not_elem_of_app|]. by apply NoDup_app.
    + intros j. rewrite Hp. cbn. intros Hj. nodup_split. cbn [nodes]. rewrite !lookup_insert_ne by done.
      apply Hrest. rewrite plug_perm. cbn. by rewrite not_elem_of_cons, not_elem_of_app.
Qed.

Lemma insert_ok M s k n Ψ :
  holds M s (plug k E) → good (plug k E) → n ∉ inorder (plug k E) → is_Some (nodes s !! n) →
  wp (rb_link_node (Some n) (above k) (link k);; rb_insert_color (Some n))
    (λ _ s', ∃ t, holds M s' t ∧ good t ∧ inorder t = before k ++ n :: after k) Ψ s.
Proof.
  intros Hh Hg Hn Hx. destruct (plug_inv k E Hg) as (b & h & Hk & Hrb & _). inversion Hrb; subst.
  apply wp_bind. eapply wp_mono; [by apply (link_ok M)|]. intros v s1 H1. unfold rb_insert_color.
  apply wp_bind, wp_gets, wp_bind. eapply wp_mono.
  { eapply (insert_loop_ok _ M s1 k b 0 E n E); [done..|]. pose proof (holds_depth M s1 k _ H1). unfold rounds. lia. }
  intros v' s2 (t & Ht & Hord & Hgood). apply wp_bind, wp_gets.
  assert (inorder t = before k ++ n :: after k) as Ho by (rewrite Hord, inorder_plug; done).
  destruct t as [|c l x r]; [by destruct (before k)|]. rewrite (ho_root _ _ _ Ht). cbn [top].
  apply (wp_set_color M s2 [] L c l x r Ht). intros s3 H3. exists (T RB_BLACK l x r). done.
Qed.

End RbtreeInsert.
