(* ===== verification/RbtreeErase.v ===== *)
(** * Red-black trees: removal *)

From stdpp Require Import prelude numbers list gmap.
From Stdlib Require Import ZArith Lia.
From S2P Require Import Prelude Rbtree RbtreeFacts RbtreeInsert.

#[local] Set Default Goal Selector "!".
#[local] Open Scope Z_scope.

Module RbtreeErase.
Import Rbtree RbtreeFacts RbtreeInsert.

(** ** Rebalancing *)

(** What the loop leaves: the last [node] is to be painted black. *)
Definition erased (M : gmap Z rb_node) (l : list Z) (v : ptr) (s : rbs) : Prop :=
  ∃ k t, v = top t ∧ holds M s (plug k t) ∧ inorder (plug k t) = l ∧ good (plug k (paint RB_BLACK t)).

(** The subtree [t] lacks one black node: the hole wants [S h]. *)
Definition short (t : tree) (h : nat) : Prop :=
  tcol t = RB_BLACK ∧ is_rb t h ∨ tcol t = RB_RED ∧ is_rb (paint RB_BLACK t) (S h).

Lemma paint_nd c' d c a n b : paint c' (nd d c a n b) = nd d c' a n b.
Proof. by destruct d. Qed.

Lemma tcol_paint c t : t ≠ E → tcol (paint c t) = c.
Proof. by destruct t. Qed.

Lemma inorder_paint c t : inorder (paint c t) = inorder t.
Proof. by destruct t. Qed.

Lemma paint_red t h : is_rb t h → tcol t = RB_RED → is_rb (paint RB_BLACK t) (S h).
Proof. destruct 1; [done| |done]. intros _. by constructor. Qed.

Lemma top_paint c t : top (paint c t) = top t.
Proof. by destruct t. Qed.

(** A context around [nd d cp _ p _], by the colour of [p]. *)
Lemma frame_ok d cp p k b h sib :
  ctx_ok (F d cp p sib :: k) b (S h) → is_rb sib (S h) ∧
  (cp = RB_RED ∧ tcol sib = RB_BLACK ∧ ctx_ok k true (S h) ∨
   cp = RB_BLACK ∧ ∃ b', ctx_ok k b' (S (S h))).
Proof. inversion 1; subst; eauto 10. Qed.

Lemma frame_plug k cp h t :
  (cp = RB_RED ∧ ctx_ok k true (S h) ∧ is_rb t (S h) ∨
   cp = RB_BLACK ∧ tcol t = RB_BLACK ∧ ∃ b', ctx_ok k b' (S (S h)) ∧ is_rb t (S (S h))) → good (plug k t).
Proof.
  intros [(_ & Hk & Ht)|(_ & Hc & b' & Hk & Ht)]; (eapply plug_ok; [exact Hk|done|auto]).
Qed.

Section last.
Context (M : gmap Z rb_node) (d : dir) (cp : Z) (t : tree) (p : Z) (k : list frame) (h : nat).
Context (Ht : is_rb t h).
Context (Hk : cp = RB_RED ∧ ctx_ok k true (S h) ∨ cp = RB_BLACK ∧ ∃ b', ctx_ok k b' (S (S h))).

(** The far child of the sibling is red. *)
Lemma erase_last_ok s near o far Ψ :
  holds M s (plug k (nd d cp t p (nd d RB_BLACK near o far))) →
  is_rb near h → is_rb far h → tcol far = RB_RED →
  wp (erase_last d (Some p) (Some o))
    (erased M (inorder (plug k (nd d cp t p (nd d RB_BLACK near o far))))) Ψ s.
Proof.
  intros Hh Hnear Hfar Cf. unfold erase_last. apply wp_bind.
  apply (wp_color M s k d cp t p (nd d RB_BLACK near o far) Hh).
  pose proof Hh as H1. rewrite plug_far in H1. apply wp_bind. apply (wp_set_color M s _ d RB_BLACK near o far H1).
  intros s2 H2. rewrite <- plug_far in H2. apply wp_bind.
  apply (wp_set_color M s2 k d cp t p (nd d cp near o far) H2). intros s3 H3.
  apply wp_bind. pose proof H3 as H4. rewrite plug_far in H4.
  apply (wp_child_opp M s3 _ d cp near o far H4). pose proof H4 as H5. rewrite plug_far in H5.
  apply wp_bind. apply (wp_set_color_if M s3 _ far H5). intros s6 H6. rewrite <- plug_far, <- plug_far in H6.
  apply wp_bind. eapply wp_mono; [apply (rotate_spec M d k RB_BLACK t p cp near o (paint RB_BLACK far) s6 _ H6)|].
  intros v s7 H7. apply wp_gets. eexists [], _. split_and!; [by rewrite (ho_root _ _ _ H7)|exact H7| |].
  - cbn. apply inorder_plug_eq. rewrite <- rotate_order. clear. destruct d; cbn; by rewrite inorder_paint.
  - cbn. apply good_paint, (frame_plug k cp h). destruct far as [|cf fl fn fr]; [done|].
    assert (is_rb (paint RB_BLACK (T cf fl fn fr)) (S h)) as Hf' by by apply paint_red.
    assert (is_rb (nd d RB_BLACK t p near) (S h)) as Hn' by by apply is_rb_black.
    destruct Hk as [[-> Hk']|[-> [b' Hk']]]; [left|right]; (split_and!; [done| |]).
    + done.
    + apply is_rb_red; [apply tcol_nd|done..].
    + apply tcol_nd.
    + exists b'. split; [done|]. by apply is_rb_black.
Qed.

(** Both children are looked at: [near] is the left one for [L]. *)
Lemma erase_tests {A} s kk c near o far (g : bool → SM rbs A) (Φ : A → rbs → Prop) Ψ :
  holds M s (plug kk (nd d c near o far)) →
  wp (g ((tcol near =? RB_BLACK) && (tcol far =? RB_BLACK))) Φ Ψ s →
  wp (ol ← child_of L (Some o); bl ← is_black ol;
      br ← (if bl : bool then or ← child_of R (Some o); is_black or else mret false); g br) Φ Ψ s.
Proof.
  intros Hh HΦ.
  assert (∃ x y, nd d c near o far = nd L c x o y ∧
    (tcol near =? RB_BLACK) && (tcol far =? RB_BLACK) = (tcol x =? RB_BLACK) && (tcol y =? RB_BLACK))
    as (x & y & Exy & Eb).
  { destruct d; [by exists near, far|]. exists far, near. split; [done|]. by rewrite andb_comm. }
  rewrite Exy in Hh. rewrite Eb in HΦ. apply wp_bind. apply (wp_child M s kk L c x o y Hh).
  apply wp_bind. pose proof Hh as Hx. rewrite plug_near in Hx. apply (wp_is_black M s _ x Hx).
  apply wp_bind. destruct (tcol x =? RB_BLACK).
  - apply wp_bind. apply (wp_child_opp M s kk L c x o y Hh). pose proof Hh as Hy. rewrite plug_far in Hy.
    by apply (wp_is_black M s _ y Hy).
  - by apply wp_ret.
Qed.

Lemma erase_black_ok again s near o far Ψ :
  let whole c := plug k (nd d cp t p (nd d c near o far)) in
  holds M s (whole RB_BLACK) → tcol t = RB_BLACK → is_rb near h → is_rb far h →
  (∀ s' h0 b0, holds M s' (whole RB_RED) → ctx_ok k b0 (S h0) → short (nd d cp t p (nd d RB_RED near o far)) h0 →
    wp (again (Some p) (above k)) (erased M (inorder (whole RB_RED))) Ψ s') →
  wp (erase_black again d (Some p) (Some o)) (erased M (inorder (whole RB_BLACK))) Ψ s.
Proof.
  intros whole Hh Ct Hnear Hfar Hagain. pose proof Hh as H1. unfold whole in H1. rewrite plug_far in H1.
  unfold erase_black. apply (erase_tests s _ RB_BLACK near o far _ _ _ H1).
  assert (inorder (whole RB_BLACK) = inorder (whole RB_RED)) as Eord.
  { apply inorder_plug_eq. by destruct d. }
  destruct (Z.eqb_spec (tcol near) RB_BLACK) as [Cn|Cn], (Z.eqb_spec (tcol far) RB_BLACK) as [Cf|Cf]; cbn [andb].
  - (* both black: the sibling becomes red, and the parent lacks a black node *)
    apply wp_bind. apply (wp_set_color M s _ d RB_BLACK near o far H1). intros s2 H2. rewrite <- plug_far in H2.
    apply wp_bind. apply (wp_parent M s2 k d cp t p (nd d RB_RED near o far) H2). rewrite Eord.
    assert (is_rb (nd d RB_RED near o far) h) as Ho by by apply is_rb_red.
    destruct Hk as [[-> Hk']|[-> [b' Hk']]].
    + apply (Hagain s2 h true H2 Hk'). right. rewrite tcol_nd, paint_nd. split; [done|]. by apply is_rb_black.
    + apply (Hagain s2 (S h) b' H2 Hk'). left. rewrite tcol_nd. split; [done|]. by apply is_rb_black.
  - (* far red *)
    apply wp_bind. apply (wp_child_opp M s _ d RB_BLACK near o far H1). apply wp_bind.
    pose proof H1 as H2. rewrite plug_far in H2. apply (wp_is_black M s _ far H2). rewrite (proj2 (Z.eqb_neq _ _) Cf).
    apply wp_bind, wp_ret. apply erase_last_ok; [done..|]. by destruct (tcol_cases far h Hfar).
  - (* near red, far black: one rotation more *)
    apply wp_bind. apply (wp_child_opp M s _ d RB_BLACK near o far H1). apply wp_bind.
    pose proof H1 as H2. rewrite plug_far in H2. apply (wp_is_black M s _ far H2).
    rewrite (proj2 (Z.eqb_eq _ _) Cf). apply wp_bind, wp_bind. apply (wp_child M s _ d RB_BLACK near o far H1).
    assert (∃ x n y, near = nd d RB_RED x n y) as (x & n & y & ->).
    { destruct near as [|cn nl n nr]; [done|]. destruct (tcol_cases _ h Hnear) as [Ec|Ec]; [|done].
      cbn in Ec. subst cn. destruct d; eauto. }
    apply is_rb_nd_inv in Hnear as [(_ & Cx & Cy & Hx & Hy)|[? _]]; [|done].
    pose proof H1 as H3. rewrite plug_near in H3.
    apply wp_bind. apply (wp_set_color_if M s _ (nd d RB_RED x n y) H3). intros s4 H4.
    rewrite paint_nd, <- plug_near in H4. apply wp_bind.
    apply (wp_set_color M s4 _ d RB_BLACK (nd d RB_BLACK x n y) o far H4). intros s5 H5.
    rewrite <- (nd_opp d RB_RED), <- (nd_opp d RB_BLACK) in H5. apply wp_bind.
    eapply wp_mono; [apply (rotate_spec M (opp d) _ RB_RED far o RB_BLACK y n x s5 _ H5)|].
    intros v s6 H6. rewrite !nd_opp in H6. rewrite <- plug_far in H6.
    apply (wp_child_opp M s6 k d cp t p (nd d RB_BLACK x n (nd d RB_RED y o far)) H6). rewrite top_nd.
    assert (inorder (whole RB_BLACK) = inorder (plug k (nd d cp t p (nd d RB_BLACK x n (nd d RB_RED y o far))))) as ->.
    { apply inorder_plug_eq. pose proof (rotate_order d RB_BLACK x n RB_RED y o far) as Er.
      clear -Er. destruct d; cbn in *; by rewrite Er. }
    apply erase_last_ok; [done|done| |apply tcol_nd]. by apply is_rb_red.
  - apply wp_bind. apply (wp_child_opp M s _ d RB_BLACK near o far H1). apply wp_bind.
    pose proof H1 as H2. rewrite plug_far in H2. apply (wp_is_black M s _ far H2). rewrite (proj2 (Z.eqb_neq _ _) Cf).
    apply wp_bind, wp_ret. apply erase_last_ok; [done..|]. by destruct (tcol_cases far h Hfar).
Qed.

End last.

(** A node below the root is not the root. *)
Lemma top_in t n : top t = Some n → n ∈ inorder t.
Proof. destruct t; [done|]. intros [= ->]. cbn. apply elem_of_app. right. by left. Qed.

Lemma plug_root_knodes f k t : ∃ n, top (plug (f :: k) t) = Some n ∧ n ∈ knodes (f :: k).
Proof.
  revert f t. induction k as [|g k IH]; intros f t.
  - exists (f_node f). cbn. unfold fill. rewrite top_nd. split; [done|]. by left.
  - destruct (IH g (fill f t)) as (n & Hn & Hin). exists n. split; [exact Hn|].
    change (knodes (f :: g :: k)) with (f_node f :: inorder (f_sib f) ++ knodes (g :: k)).
    right. apply elem_of_app. by right.
Qed.

Lemma below_root M s f k t : holds M s (plug (f :: k) t) → top t ≠ rb_root s.
Proof.
  intros Hh. rewrite (ho_root _ _ _ Hh). destruct (plug_root_knodes f k t) as (n & -> & Hn). intros Ht%top_in.
  pose proof (ho_nodup _ _ _ Hh) as Hnd. rewrite plug_perm in Hnd. apply NoDup_app in Hnd as (_ & Hd & _).
  by apply (Hd n).
Qed.

(** A tree with a black node on its paths is not empty. *)
Lemma is_rb_split d t h : is_rb t (S h) → ∃ c a n b, t = nd d c a n b.
Proof. inversion 1; subst; destruct d; [by eexists _, l, n, r|by eexists _, r, n, l|by eexists _, l, n, r|by eexists _, r, n, l]. Qed.

Lemma short_red_stop M s k b h t : holds M s (plug k t) → ctx_ok k b (S h) → short t h → tcol t ≠ RB_BLACK →
  erased M (inorder (plug k t)) (top t) s.
Proof.
  intros Hh Hk [[? _]|[Ct Ht]] Hc; [done|]. exists k, t. split_and!; [done..|].
  eapply plug_ok; [exact Hk|done|]. right. destruct t; [done|]. by cbn.
Qed.

Lemma erase_loop_ok fuel M s k b h t Ψ :
  holds M s (plug k t) → ctx_ok k b (S h) → short t h →
  (length k < fuel ∨ tcol t ≠ RB_BLACK ∧ 0 < fuel)%nat →
  wp (erase_loop fuel (top t) (above k)) (erased M (inorder (plug k t))) Ψ s.
Proof.
  revert s k b h t. induction fuel as [|fuel IH]; intros s k b h t Hh Hk Hsh Hf; [lia|].
  cbn [erase_loop]. apply wp_bind, (wp_is_black M s k t Hh), wp_bind, wp_gets.
  destruct (Z.eqb_spec (tcol t) RB_BLACK) as [Ct|Ct]; cbn [andb negb].
  2:{ apply wp_ret. by eapply short_red_stop. }
  destruct Hsh as [[_ Ht]|[Hc _]]; [|by rewrite Ct in Hc]. destruct Hf as [Hf|[? _]]; [|done].
  destruct k as [|[d cp p sib] k].
  { rewrite bool_decide_eq_true_2 by (by rewrite (ho_root _ _ _ Hh)). apply wp_ret.
    exists [], t. split_and!; [done..|]. apply good_paint. cbn. split; eauto. }
  rewrite bool_decide_eq_false_2 by by eapply below_root. cbn [negb above head fmap option_fmap option_map f_node].
  destruct (frame_ok d cp p k b h sib Hk) as [Hs Hcp]. destruct (is_rb_split d sib h Hs) as (cs & near & o & far & ->).
  set (sib := nd d cs near o far) in *.
  assert (holds M s (plug k (nd d cp t p sib))) as H1 by exact Hh.
  apply (wp_side M s k d cp t p sib (top t) _ _ _ H1); [done|right; unfold sib; rewrite top_nd; by eexists|].
  intros v _ Hv. cbv beta zeta. rewrite Hv. apply wp_bind, (wp_child_opp M s k d cp t p sib H1).
  unfold sib. rewrite top_nd. pose proof H1 as H2. unfold sib in H2. rewrite plug_far in H2.
  apply wp_bind, (wp_color M s _ d cs near o far H2). apply wp_bind.
  apply is_rb_nd_inv in Hs as [(-> & Cn & Cf & Hn & Hfar)|(-> & h' & [= <-] & Hn & Hfar)].
  - (* a red sibling *)
    subst sib. destruct Hcp as [(_ & Cs & _)|(-> & b' & Hk')]; [by rewrite tcol_nd in Cs|].
    change (RB_RED =? RB_RED) with true. cbn iota. apply wp_bind.
    apply (wp_set_color M s _ d RB_RED near o far H2). intros s3 H3. rewrite <- plug_far in H3. apply wp_bind.
    apply (wp_set_color M s3 k d RB_BLACK t p (nd d RB_BLACK near o far) H3). intros s4 H4. apply wp_bind.
    eapply wp_mono; [apply (rotate_spec M d k RB_RED t p RB_BLACK near o far s4 _ H4)|]. intros v' s5 H5.
    rewrite plug_near in H5. apply (wp_child_opp M s5 _ d RB_RED t p near H5).
    destruct (is_rb_split d near h Hn) as (c1 & n1 & o1 & n2 & ->). rewrite tcol_nd in Cn. subst c1. rewrite top_nd.
    apply is_rb_nd_inv in Hn as [[? _]|(_ & h' & [= <-] & Hn1 & Hn2)]; [done|].
    assert (inorder (plug (F d RB_BLACK p (nd d RB_RED (nd d RB_BLACK n1 o1 n2) o far) :: k) t)
      = inorder (plug (F d RB_BLACK o far :: k) (nd d RB_RED t p (nd d RB_BLACK n1 o1 n2)))) as ->.
    { apply (inorder_plug_eq k). unfold fill. cbn [f_dir f_col f_node f_sib].
      pose proof (rotate_order d RB_RED t p RB_BLACK (nd d RB_BLACK n1 o1 n2) o far) as Er.
      rewrite <- Er. clear. by destruct d. }
    assert (ctx_ok (F d RB_BLACK o far :: k) true (S h)) as Hk2 by by econstructor.
    apply (erase_black_ok M d RB_RED t p _ h Ht); [by left|done..|].
    intros s6 h0 b0 H6 Hc6 Hs6. 
    eapply wp_mono; [|intros v1 s7 H7; exact H7].
    pose proof (IH s6 (F d RB_BLACK o far :: k) b0 h0 _ H6 Hc6 Hs6) as Hagain. rewrite top_nd in Hagain.
    apply Hagain. right. rewrite tcol_nd. split; [done|]. cbn in Hf. lia.
  - (* a black sibling *)
    change (RB_BLACK =? RB_RED) with false. cbn iota. apply wp_ret.
    apply (erase_black_ok M d cp t p k h Ht); [|exact H1|done..|].
    + destruct Hcp as [(-> & _ & Hk')|(-> & b' & Hk')]; eauto.
    + intros s6 h0 b0 H6 Hc6 Hs6. pose proof (IH s6 k b0 h0 _ H6 Hc6 Hs6) as Hagain. rewrite top_nd in Hagain.
      apply Hagain. left. cbn in Hf. lia.
Qed.

Lemma erase_color_ok M s k b h t Ψ :
  holds M s (plug k t) → ctx_ok k b (S h) → short t h →
  wp (__rb_erase_color (top t) (above k))
    (λ _ s', ∃ t', holds M s' t' ∧ good t' ∧ inorder t' = inorder (plug k t)) Ψ s.
Proof.
  intros Hh Hk Hsh. unfold __rb_erase_color. apply wp_bind, wp_gets, wp_bind. eapply wp_mono.
  { eapply erase_loop_ok; [done..|]. left. pose proof (holds_depth M s k t Hh). unfold rounds. lia. }
  intros v s1 (k' & t' & -> & H1 & Ho & Hg). apply (wp_set_color_if M s1 k' t' H1). intros s2 H2.
  eexists. split_and!; [exact H2|done|]. rewrite <- Ho. apply inorder_plug_eq, inorder_paint.
Qed.

End RbtreeErase.
