(* ===== verification/RbtreeOps.v ===== *)
(** * Red-black trees: taking nodes out, replacing them, walking *)

From stdpp Require Import prelude numbers list gmap.
From Stdlib Require Import ZArith Lia.
From S2P Require Import Prelude Rbtree RbtreeFacts RbtreeInsert RbtreeErase.

#[local] Set Default Goal Selector "!".
#[local] Open Scope Z_scope.

Module RbtreeOps.
Import Rbtree RbtreeFacts RbtreeInsert RbtreeErase.

(** ** A node with one child at most *)

Lemma unlink_ok M s k d c a n Ψ :
  holds M s (plug k (nd d c a n E)) →
  wp (unlink (Some n) (top a)) (λ r s', r = (above k, c) ∧
    holds (<[n := mkd d (above k) c (top a) None]> M) s' (plug k a)) Ψ s.
Proof.
  intros Hh. pose proof Hh as [Hroot Hrep Hnd Hrest]. destruct s as [m r]. cbn [nodes rb_root] in *.
  apply repr_plug in Hrep as [Hn Hk]. apply repr_nd in Hn as (Hn & Ha & _). rewrite top_nd in Hk.
  rewrite plug_perm, nd_perm in Hnd. cbn [inorder app] in Hnd. rewrite app_nil_r in Hnd.
  assert (NoDup (inorder a)) as Hna by (clear -Hnd; nodup_split; done).
  assert (NoDup (n :: knodes k)) as Hnk by (clear -Hnd; cbn in Hnd; nodup_split; by apply NoDup_cons).
  assert (NoDup (inorder a ++ knodes k)) as Hnak by (clear -Hnd; cbn in Hnd; by apply NoDup_cons in Hnd as [_ ?]).
  unfold unlink. apply wp_bind. eapply wp_read; [exact Hn|]. apply wp_bind. eapply wp_read; [exact Hn|].
  rewrite parent_mkd, color_mkd. apply wp_bind. apply (wp_set_parent_if a (Some n) (above k)); [done..|].
  intros m1 Ha1 Ho1. cbn [app] in Hnd. nodup_split. apply wp_bind, wp_replace_child.
  { eapply reprk_agree; [|exact Hk]. intros j Hj. apply Ho1. apart. }
  { by apply NoDup_cons. }
  intros m2 Hk2 Ho2. apply wp_ret. split; [done|].
  assert (m2 !! n = Some (mkd d (above k) c (top a) None)) as Hn2 by (by rewrite Ho2, Ho1).
  split; cbn [nodes rb_root].
  - apply (top_plug_root k (nd d c a n E) a). exact Hroot.
  - apply repr_plug. split; [|done]. eapply repr_agree; [|exact Ha1]. intros j Hj. apply Ho2. apart.
  - rewrite plug_perm. by apply NoDup_app.
  - intros j. rewrite plug_perm. intros Hj. destruct (decide (j = n)) as [->|Hne].
    + by rewrite lookup_insert_eq.
    + nodup_split. rewrite lookup_insert_ne, Ho2, Ho1 by done. apply Hrest.
      rewrite plug_perm, nd_perm. cbn. rewrite app_nil_r, not_elem_of_cons, not_elem_of_app. done.
Qed.

(** ** Replacing a node *)

(** The memory after node [j] has taken the place of [n]. *)
Lemma swapped M m m' r r' k c lt n rt j :
  holds M (mk_rbs m r) (plug k (T c lt n rt)) → j ∉ inorder (plug k (T c lt n rt)) →
  m' !! j = Some (mk_node (above k) c (top rt) (top lt)) →
  repr m' (Some j) lt → repr m' (Some j) rt → reprk m' k (Some j) →
  only (j :: inorder lt ++ inorder rt ++ knodes k) m m' →
  r' = (if k is [] then Some j else r) →
  holds (<[n := mk_node (above k) c (top rt) (top lt)]> M) (mk_rbs m' r') (plug k (T c lt j rt)).
Proof.
  intros [Hroot Hrep Hnd Hrest] Hj Hm Hl Hr Hk Ho ->. cbn [nodes rb_root] in *.
  apply repr_plug in Hrep as [Hn _]. destruct Hn as (Hn & _ & _).
  assert (inorder (plug k (T c lt n rt)) ≡ₚ n :: inorder lt ++ inorder rt ++ knodes k) as Hp.
  { rewrite plug_perm. cbn. rewrite <- Permutation_middle. cbn. by rewrite <- app_assoc. }
  assert (inorder (plug k (T c lt j rt)) ≡ₚ j :: inorder lt ++ inorder rt ++ knodes k) as Hp'.
  { rewrite plug_perm. cbn. rewrite <- Permutation_middle. cbn. by rewrite <- app_assoc. }
  rewrite Hp in Hnd, Hj. apply NoDup_cons in Hnd as [Hn1 Hnd]. apply not_elem_of_cons in Hj as [Hjn Hj].
  split; cbn [nodes rb_root].
  - apply (top_plug_root k (T c lt n rt) (T c lt j rt)). exact Hroot.
  - apply repr_plug. by cbn.
  - rewrite Hp'. by apply NoDup_cons.
  - intros x. rewrite Hp'. intros Hx. rewrite Ho by done. destruct (decide (x = n)) as [->|Hne].
    + by rewrite lookup_insert_eq.
    + rewrite lookup_insert_ne by done. apply Hrest. rewrite Hp, not_elem_of_cons. apply not_elem_of_cons in Hx as [_ ?]. done.
Qed.

Lemma replace_ok M s k c lt n rt j Ψ :
  holds M s (plug k (T c lt n rt)) → j ∉ inorder (plug k (T c lt n rt)) → is_Some (nodes s !! j) →
  wp (rb_replace_node (Some n) (Some j)) (λ _ s',
    holds (<[n := mk_node (above k) c (top rt) (top lt)]> M) s' (plug k (T c lt j rt))) Ψ s.
Proof.
  intros Hh Hj [y Hy]. pose proof Hh as [Hroot Hrep Hnd _]. destruct s as [m r]. cbn [nodes rb_root] in *.
  apply repr_plug in Hrep as [Hn Hk]. destruct Hn as (Hn & Hl & Hr).
  pose proof Hj as Hj'. rewrite plug_perm in Hnd, Hj'. cbn in Hnd, Hj'. rewrite <- app_assoc in Hnd, Hj'. cbn in Hnd, Hj'.
  rewrite <- Permutation_middle in Hnd. nodup_split.
  unfold rb_replace_node. eapply wp_bind, wp_deref; [exact Hn|]. cbn [rb_parent rb_left rb_right].
  apply wp_bind, wp_replace_child; [done|by apply NoDup_cons|]. intros m1 Hk1 Ho1.
  apply wp_bind. apply (wp_set_parent_if lt (Some n)); [|done|].
  { eapply repr_agree; [|exact Hl]. intros x Hx. apply Ho1. apart. }
  intros m2 Hl2 Ho2. apply wp_bind. apply (wp_set_parent_if rt (Some n)); [|done|].
  { eapply repr_agree; [|exact Hr]. intros x Hx. rewrite Ho2, Ho1 by apart. done. }
  intros m3 Hr3 Ho3.
  assert (∀ x, x ∉ inorder lt → x ∉ inorder rt → x ∉ knodes k → m3 !! x = m !! x) as Hout.
  { intros x X1 X2 X3. by rewrite Ho3, Ho2, Ho1. }
  eapply wp_bind, wp_deref; [rewrite Hout by done; exact Hn|].
  eapply wp_bind, wp_deref; [rewrite Hout by done; exact Hy|]. apply wp_modify. cbn [nodes rb_root].
  eapply (swapped M m); [exact Hh|done|by rewrite lookup_insert_eq|..].
  - eapply repr_agree; [|exact Hl2]. intros x Hx. rewrite lookup_insert_ne, Ho3 by apart. done.
  - eapply repr_agree; [|exact Hr3]. intros x Hx. rewrite lookup_insert_ne by apart. done.
  - eapply reprk_agree; [|exact Hk1]. intros x Hx. rewrite lookup_insert_ne, Ho3, Ho2 by apart. done.
  - intros x Hx. nodup_split. rewrite lookup_insert_ne by done. by apply Hout.
  - by destruct k.
Qed.

(** The steps of [rb_erase] that put [j] in the place of [n]. *)
Lemma transplant_ok {A} M s k c lt n rt j (g : SM rbs A) (Φ : A → rbs → Prop) Ψ :
  let x := mk_node (above k) c (top rt) (top lt) in
  holds M s (plug k (T c lt n rt)) → j ∉ inorder (plug k (T c lt n rt)) → lt ≠ E →
  (∀ s', holds (<[n := x]> M) s' (plug k (T c lt j rt)) → wp g Φ Ψ s') →
  wp (write (Some j) x;; replace_child L (rb_parent x) (Some n) (Some j);;
      set_parent (rb_left x) (Some j);; set_parent_if (rb_right x) (Some j);; g) Φ Ψ s.
Proof.
  intros x Hh Hj Hlt HΦ. pose proof Hh as [Hroot Hrep Hnd _]. destruct s as [m r]. cbn [nodes rb_root] in *.
  apply repr_plug in Hrep as [Hn Hk]. destruct Hn as (Hn & Hl & Hr).
  pose proof Hj as Hj'. rewrite plug_perm in Hnd, Hj'. cbn in Hnd, Hj'. rewrite <- app_assoc in Hnd, Hj'. cbn in Hnd, Hj'.
  rewrite <- Permutation_middle in Hnd. nodup_split.
  apply wp_bind, wp_modify. cbn [nodes rb_root x rb_parent rb_left rb_right].
  apply wp_bind, wp_replace_child; [|by apply NoDup_cons|].
  { eapply reprk_agree; [|exact Hk]. intros y Hy. by rewrite lookup_insert_ne by apart. }
  intros m1 Hk1 Ho1. apply wp_bind.
  assert (∀ v, set_parent (top lt) v = set_parent_if (top lt) v) as -> by (intros v; by destruct lt).
  apply (wp_set_parent_if lt (Some n)); [|done|].
  { eapply repr_agree; [|exact Hl]. intros y Hy. rewrite Ho1, lookup_insert_ne by apart. done. }
  intros m2 Hl2 Ho2. apply wp_bind. apply (wp_set_parent_if rt (Some n)); [|done|].
  { eapply repr_agree; [|exact Hr]. intros y Hy. rewrite Ho2, Ho1, lookup_insert_ne by apart. done. }
  intros m3 Hr3 Ho3. apply HΦ. eapply (swapped M m); [exact Hh|done|..].
  - by rewrite Ho3, Ho2, Ho1, lookup_insert_eq.
  - eapply repr_agree; [|exact Hl2]. intros y Hy. rewrite Ho3 by apart. done.
  - done.
  - eapply reprk_agree; [|exact Hk1]. intros y Hy. rewrite Ho3, Ho2 by apart. done.
  - intros y Hy. nodup_split. by rewrite Ho3, Ho2, Ho1, lookup_insert_ne.
  - by destruct k.
Qed.

(** ** Down to the end *)

Definition spine (d : dir) (sp : list frame) : Prop := Forall (λ f, f_dir f = d) sp.

Lemma outermost_ok d fuel M s k t n Ψ :
  holds M s (plug k t) → top t = Some n → (length (inorder t) <= fuel)%nat →
  ∃ sp c m b, t = plug sp (nd d c E m b) ∧ spine d sp ∧
    wp (outermost d fuel (Some n)) (λ v s', v = Some m ∧ s' = s) Ψ s.
Proof.
  revert k t n. induction fuel as [|fuel IH]; intros k t n Hh Ht Hf.
  { apply top_in in Ht. destruct (inorder t); [by apply not_elem_of_nil in Ht|cbn in Hf; lia]. }
  assert (∃ c a b, t = nd d c a n b) as (c & a & b & ->).
  { destruct t as [|c l n' r]; [done|]. injection Ht as ->. destruct d; [by exists c, l, r|by exists c, r, l]. }
  cbn [outermost]. destruct (top a) as [n'|] eqn:Ea.
  - rewrite plug_near in Hh. rewrite nd_perm in Hf. cbn in Hf. rewrite length_app in Hf.
    destruct (IH _ a n' Hh Ea) as (sp & c' & m & b' & -> & Hsp & Hw); [lia|].
    exists (sp ++ [F d c n b]), c', m, b'. split_and!.
    + by rewrite plug_app.
    + apply Forall_app. split; [done|]. by constructor.
    + apply wp_bind. rewrite <- plug_near in Hh. apply (wp_child M s k d c _ n b Hh). rewrite Ea. exact Hw.
  - destruct a; [|done]. exists [], c, n, b. split_and!; [done|constructor|].
    apply wp_bind, (wp_child M s k d c E n b Hh). by apply wp_ret.
Qed.

Lemma spine_before sp : spine L sp → before sp = [].
Proof. induction 1 as [|f sp Hf _ IH]; cbn; [done|]. by rewrite Hf. Qed.
Lemma spine_after sp : spine R sp → after sp = [].
Proof. induction 1 as [|f sp Hf _ IH]; cbn; [done|]. by rewrite Hf. Qed.

(** ** Removal *)

Lemma ctx_rename sp d c n m sib k b h : ctx_ok (sp ++ F d c n sib :: k) b h → ctx_ok (sp ++ F d c m sib :: k) b h.
Proof.
  revert b h. induction sp as [|f sp IH]; intros b h; cbn.
  - inversion 1; subst; by econstructor.
  - inversion 1; subst; econstructor; eauto.
Qed.

Lemma good_unlink k c d a n b h :
  ctx_ok k b h → is_rb (nd d c a n E) h → (b = true ∨ c = RB_BLACK) →
  c ≠ RB_BLACK ∧ good (plug k a) ∨ c = RB_BLACK ∧ ∃ h', ctx_ok k b (S h') ∧ short a h'.
Proof.
  intros Hk Ht Hb. apply is_rb_nd_inv in Ht as [(-> & Ca & _ & Ha & _)|(-> & h' & -> & Ha & _)].
  - left. split; [done|]. eapply plug_ok; [exact Hk|done|by right].
  - right. split; [done|]. exists h'. split; [done|].
    destruct (tcol_cases a h' Ha) as [Ca|Ca]; [right|left]; (split; [done|]); [by apply paint_red|done].
Qed.

(** The colour of the node that has left decides whether to rebalance. *)
Lemma erase_finish M s k b h c d a n Ψ :
  holds M s (plug k a) → ctx_ok k b h → is_rb (nd d c a n E) h → (b = true ∨ c = RB_BLACK) →
  wp (if c =? RB_BLACK then __rb_erase_color (top a) (above k) else mret tt)
    (λ _ s', ∃ t, holds M s' t ∧ good t ∧ inorder t = inorder (plug k a)) Ψ s.
Proof.
  intros Hh Hk Ht Hb. destruct (good_unlink k c d a n b h Hk Ht Hb) as [[Hc Hg]|(-> & h' & Hk' & Hs)].
  - rewrite (proj2 (Z.eqb_neq _ _) Hc). apply wp_ret. eauto.
  - by eapply erase_color_ok.
Qed.

Lemma knodes_mid sp f k : f_node f ∈ knodes (sp ++ f :: k).
Proof. induction sp as [|g sp IH]; cbn; [by left|]. right. apply elem_of_app. by right. Qed.

(** The parent of the hole, after [m] has taken the place of [n] on the path. *)
Lemma up_rename sp d c n m sib k (D : Decision (above (sp ++ F d c n sib :: k) = Some n)) :
  NoDup (knodes (sp ++ F d c n sib :: k)) →
  (if D then Some m else above (sp ++ F d c n sib :: k)) = above (sp ++ F d c m sib :: k).
Proof.
  intros Hnd. destruct sp as [|f sp]; cbn in *; [by destruct D|]. destruct D as [[= HD]|]; [|done].
  apply NoDup_cons in Hnd as [Hf _]. destruct Hf. rewrite HD. apply elem_of_app. right.
  apply (knodes_mid sp (F d c n sib)).
Qed.

Definition removed (M : gmap Z rb_node) (t0 : tree) (n : Z) (l : list Z) (s : rbs) : Prop :=
  ∃ M' t, holds M' s t ∧ good t ∧ inorder t = l ∧ (∀ j, j ∉ inorder t0 → M' !! j = M !! j) ∧ is_Some (M' !! n).

Lemma erase_one M s k d c a n Ψ :
  let t0 := plug k (nd d c a n E) in
  holds M s t0 → good t0 →
  wp ('(parent, color) ← unlink (Some n) (top a); mret (top a, parent, color))
    (λ r s', let '(child, parent, color) := r in
      wp (if color =? RB_BLACK then __rb_erase_color child parent else mret tt)
        (λ _ s'', removed M t0 n (before k ++ inorder a ++ after k) s'') Ψ s') Ψ s.
Proof.
  intros t0 Hh Hg. destruct (plug_inv _ _ Hg) as (b & h & Hk & Ht & Hb). rewrite tcol_nd in Hb.
  apply wp_bind. eapply wp_mono; [by apply (unlink_ok M)|]. intros r s1 [-> H1]. apply wp_ret.
  eapply wp_mono; [by eapply erase_finish|]. intros v s2 (t & H2 & Hgt & Ho).
  exists (<[n := mkd d (above k) c (top a) None]> M), t. split_and!; [done|done| | |].
  - by rewrite Ho, inorder_plug.
  - intros j Hj. rewrite lookup_insert_ne; [done|]. intros ->. apply Hj. unfold t0. rewrite plug_perm, nd_perm. by left.
  - rewrite lookup_insert_eq. eauto.
Qed.

(** A node with two children: the next node takes its place. *)
Lemma erase_two M s k c lt n rt nr Ψ :
  let t0 := plug k (T c lt n rt) in
  holds M s t0 → good t0 → lt ≠ E → top rt = Some nr →
  wp (fuel ← gets rounds;
      node ← outermost L fuel (Some nr);
      child ← child_of R node;
      '(parent, color) ← unlink node child;
      np ← parent_of node;
      let parent := if decide (np = Some n) then node else parent in
      x ← deref (Some n);
      write node x;;
      replace_child L (rb_parent x) (Some n) node;;
      set_parent (rb_left x) node;;
      set_parent_if (rb_right x) node;;
      mret (child, parent, color))
    (λ r s', let '(child, parent, color) := r in
      wp (if color =? RB_BLACK then __rb_erase_color child parent else mret tt)
        (λ _ s'', removed M t0 n (before k ++ inorder lt ++ inorder rt ++ after k) s'') Ψ s') Ψ s.
Proof.
  intros t0 Hh Hg Hlt Hnr. apply wp_bind, wp_gets.
  pose proof Hh as H0. unfold t0 in H0. change (T c lt n rt) with (nd L c lt n rt) in H0. rewrite plug_far in H0. cbn [opp] in H0.
  destruct (outermost_ok L (rounds s) M s _ rt nr (λ _ _, False) H0 Hnr) as (sp & cs & m & rs & -> & Hsp & Hw).
  { pose proof (holds_size _ _ _ H0) as Hsz. rewrite plug_perm, length_app in Hsz. unfold rounds. lia. }
  apply wp_bind. eapply wp_mono; [apply wp_noerr, Hw|]. intros v s0 [-> ->].
  set (kr := F R c n lt :: k) in *. rewrite <- plug_app in H0.
  apply wp_bind. apply (wp_child_opp M s _ L cs E m rs H0). apply wp_bind.
  change (nd L cs E m rs) with (nd R cs rs m E) in H0. eapply wp_mono; [by apply (unlink_ok M)|].
  intros r s1 [-> H1]. set (M1 := <[m := _]> M) in H1.
  assert (NoDup (inorder (plug (sp ++ kr) (nd R cs rs m E)))) as Hnd by apply (ho_nodup _ _ _ H0).
  rewrite plug_perm, nd_perm in Hnd. cbn [inorder app] in Hnd. rewrite app_nil_r in Hnd.
  apply NoDup_cons in Hnd as [Hm _].
  assert (m ∉ inorder (plug (sp ++ kr) rs)) as Hm1 by (by rewrite plug_perm).
  apply wp_bind. eapply wp_bind, wp_deref_in.
  { rewrite (ho_rest _ _ _ H1) by done. apply lookup_insert_eq. }
  apply wp_ret. rewrite parent_mkd. cbv zeta.
  pose proof H1 as H2. rewrite plug_app in H2. unfold kr in H2. cbn [plug] in H2. unfold fill in H2. cbn [f_dir f_col f_node f_sib nd] in H2.
  set (r' := plug sp rs) in H2. apply wp_bind. apply (wp_node M1 s1 k L c lt n r' H2). cbn [mkd].
  pose proof (ho_nodup _ _ _ H1) as Hnd1. rewrite plug_perm in Hnd1. apply NoDup_app in Hnd1 as (_ & _ & Hndk).
  assert (m ∉ inorder (plug k (T c lt n r'))) as Hm2.
  { intros Hin. apply Hm1. rewrite plug_app. exact Hin. }
  apply (transplant_ok M1 s1 k c lt n r' m); [done..|]. intros s2 H3. apply wp_ret. cbv beta iota.
  unfold kr. rewrite (up_rename sp R c n m lt k _ Hndk).
  destruct (plug_inv (sp ++ kr) (nd R cs rs m E)) as (b & h & Hk & Ht & Hb).
  { rewrite plug_app. exact Hg. }
  rewrite tcol_nd in Hb. apply (ctx_rename sp R c n m) in Hk.
  assert (plug k (T c lt m r') = plug (sp ++ F R c m lt :: k) rs) as E3 by (rewrite plug_app; done).
  pose proof H3 as H4. rewrite E3 in H4. eapply wp_mono; [by eapply erase_finish|].
  intros v s3 (t & H5 & Hgt & Ho). eexists _, t. split_and!; [exact H5|done| | |].
  - rewrite Ho, <- E3, !inorder_plug. cbn [inorder nd]. unfold r'. rewrite inorder_plug, (spine_before sp Hsp).
    rewrite <- !app_assoc. cbn. by rewrite <- ?app_assoc.
  - intros j Hj. unfold t0 in Hj. rewrite plug_perm in Hj. cbn in Hj. rewrite inorder_plug in Hj. cbn in Hj. nodup_split.
    unfold M1. by rewrite !lookup_insert_ne by done.
  - rewrite lookup_insert_eq. eauto.
Qed.

Lemma erase_ok M s k c lt n rt Ψ :
  let t0 := plug k (T c lt n rt) in
  holds M s t0 → good t0 →
  wp (rb_erase (Some n)) (λ _ s', removed M t0 n (before k ++ inorder lt ++ inorder rt ++ after k) s') Ψ s.
Proof.
  intros t0 Hh Hg. unfold rb_erase. apply wp_bind, (wp_child M s k L c lt n rt Hh).
  apply wp_bind, (wp_child_opp M s k L c lt n rt Hh). apply wp_bind.
  assert (∀ A (m : SM rbs A) Φ Φ', (∀ a s', Φ' a s' → Φ a s') → wp m Φ' Ψ s → wp m Φ Ψ s) as Hmono
    by (intros; by eapply wp_mono).
  destruct (top lt) as [nl|] eqn:El; [destruct (top rt) as [nr|] eqn:Er|].
  - eapply Hmono; [|apply (erase_two M s k c lt n rt nr); try done; by intros ->]. by intros [[? ?] ?].
  - destruct rt; [|done]. rewrite <- El. eapply Hmono; [|by apply (erase_one M s k L c lt n)].
    by intros [[? ?] ?].
  - destruct lt; [|done]. eapply Hmono; [|by apply (erase_one M s k R c rt n)]. by intros [[? ?] ?].
Qed.

End RbtreeOps.
