(* ===== verification/RbtreeTheorems.v ===== *)
(** * Red-black trees: walking, and histories against a list *)

From stdpp Require Import prelude numbers list gmap.
From Stdlib Require Import ZArith Lia.
From S2P Require Import Prelude Rbtree RbtreeFacts RbtreeInsert RbtreeErase RbtreeOps.

#[local] Set Default Goal Selector "!".
#[local] Open Scope Z_scope.

Module RbtreeTheorems.
Import Rbtree RbtreeFacts RbtreeInsert RbtreeErase RbtreeOps.

(** ** Walking *)

(** The first element in direction [opp d] of a list. *)
Definition end_of (d : dir) (l : list Z) : option Z := match d with L => head l | R => last l end.

Lemma rb_end_ok d M s t Ψ :
  holds M s t → wp (rb_end d) (λ v s', v = end_of d (inorder t) ∧ s' = s) Ψ s.
Proof.
  intros Hh. unfold rb_end. apply wp_bind, wp_gets. rewrite (ho_root _ _ _ Hh).
  destruct (top t) as [n|] eqn:Et.
  2:{ destruct t; [|done]. apply wp_ret. by destruct d. }
  apply wp_bind, wp_gets.
  destruct (outermost_ok d (rounds s) M s [] t n Ψ Hh Et) as (sp & c & m & b & -> & Hsp & Hw).
  { pose proof (holds_size _ _ _ Hh). unfold rounds. lia. }
  eapply wp_mono; [exact Hw|]. intros v s' [-> ->]. split; [|done]. rewrite inorder_plug.
  destruct d; cbn [end_of nd inorder].
  - by rewrite (spine_before sp Hsp).
  - rewrite (spine_after sp Hsp), app_nil_r, app_assoc. by rewrite last_snoc.
Qed.

(** What follows the hole of a context in direction [d]. *)
Definition beyond (d : dir) (k : list frame) : option Z :=
  match d with R => head (after k) | L => last (before k) end.

Lemma climb_ok d fuel M s k t n Ψ :
  holds M s (plug k t) → top t = Some n → (length k < fuel)%nat →
  wp (climb d fuel (Some n)) (λ v s', v = beyond d k ∧ s' = s) Ψ s.
Proof.
  revert k t n. induction fuel as [|fuel IH]; intros k t n Hh Ht Hf; [lia|].
  assert (∃ c l r, t = nd L c l n r) as (c0 & l0 & r0 & Et).
  { destruct t; [done|]. injection Ht as ->. by eexists _, _, _. }
  cbn [climb]. apply wp_bind. pose proof Hh as Hh'. rewrite Et in Hh'. apply (wp_parent M s k L c0 l0 n r0 Hh').
  destruct k as [|[e c p sib] k]; cbn [above head fmap option_fmap option_map f_node].
  { apply wp_ret. by destruct d. }
  apply wp_bind. assert (holds M s (plug k (nd e c t p sib))) as H1 by exact Hh.
  destruct (decide (e = d)) as [->|Hed].
  - apply (wp_child M s k d c t p sib H1). rewrite Ht, decide_True by done.
    eapply wp_mono; [eapply (IH k _ p H1); [apply top_nd|cbn in Hf; lia]|].
    intros v s' [-> ->]. split; [|done]. by destruct d.
  - assert (d = opp e) as -> by (by destruct d, e). apply (wp_child_opp M s k e c t p sib H1).
    rewrite decide_False.
    2:{ rewrite <- Ht. apply (holds_sides M s k e c t p sib H1). by rewrite Ht. }
    apply wp_ret. split; [|done]. destruct e; cbn; [done|]. by rewrite app_assoc, last_snoc.
Qed.

Lemma rb_step_ok d M s k c a n b Ψ :
  holds M s (plug k (nd d c a n b)) →
  wp (rb_step d (Some n)) (λ v s', v = match end_of (opp d) (inorder a) with
                                        | Some x => Some x | None => beyond d k end ∧ s' = s) Ψ s.
Proof.
  intros Hh. unfold rb_step. apply wp_bind, wp_gets, wp_bind, (wp_child M s k d c a n b Hh).
  destruct (top a) as [x|] eqn:Ea.
  - pose proof Hh as Ha. rewrite plug_near in Ha.
    destruct (outermost_ok (opp d) (rounds s) M s _ a x Ψ Ha Ea) as (sp & c' & m & b' & -> & Hsp & Hw).
    { pose proof (holds_size _ _ _ Ha) as Hs. rewrite plug_perm, length_app in Hs. unfold rounds. lia. }
    eapply wp_mono; [exact Hw|]. intros v s' [-> ->]. split; [|done]. rewrite inorder_plug.
    destruct d; cbn [end_of nd inorder opp] in *.
    + rewrite (spine_after sp Hsp), app_nil_r, app_assoc. by rewrite last_snoc.
    + by rewrite (spine_before sp Hsp).
  - destruct a; [|done]. eapply wp_mono; [eapply (climb_ok d _ M s k (nd d c E n b) n)|].
    + done.
    + apply top_nd.
    + pose proof (holds_depth M s k _ Hh). unfold rounds. lia.
    + intros v s' [-> ->]. by destruct d.
Qed.

(** ** Positions in the list *)

Lemma in_tree n t : n ∈ inorder t → ∃ k c l r, t = plug k (T c l n r).
Proof.
  intros Hn. enough (∀ k0, ∃ k c l r, plug k0 t = plug k (T c l n r)) as H by apply (H []).
  induction t as [|c l IHl x r IHr]; intros k0; [by apply not_elem_of_nil in Hn|].
  cbn in Hn. apply elem_of_app in Hn as [Hn|[->|Hn]%elem_of_cons].
  - apply (IHl Hn (F L c x r :: k0)).
  - by exists k0, c, l, r.
  - apply (IHr Hn (F R c x l :: k0)).
Qed.

Lemma nodup_split_at (n : Z) l1 l2 l1' l2' :
  NoDup (l1 ++ n :: l2) → l1 ++ n :: l2 = l1' ++ n :: l2' → l1 = l1' ∧ l2 = l2'.
Proof.
  revert l1'. induction l1 as [|x l1 IH]; intros [|y l1'] Hnd He; cbn in *.
  - by injection He.
  - injection He as <- ->. apply NoDup_cons in Hnd as [[] _]. apply elem_of_app. right. by left.
  - injection He as -> _. apply NoDup_cons in Hnd as [[] _]. apply elem_of_app. right. by left.
  - injection He as <- He. apply NoDup_cons in Hnd as [_ Hnd]. destruct (IH l1' Hnd He) as [-> ->]. done.
Qed.

(** The list around a node. *)
Lemma around k c lt n rt : inorder (plug k (T c lt n rt)) = (before k ++ inorder lt) ++ n :: (inorder rt ++ after k).
Proof. rewrite inorder_plug. cbn. by rewrite <- !app_assoc. Qed.

(** ** Histories *)

(** A node is linked at the root or at side [d] of a node and coloured, removed, or
    replaced by another one; the ends and the neighbours of a node are looked up. *)
Inductive rb_call :=
| CInsert (n : Z) (parent : ptr) (lk : option dir)
| CErase (n : Z)
| CReplace (victim new : Z)
| CFirst | CLast
| CNext (n : Z) | CPrev (n : Z).

Definition run_call (x : rb_call) : SM rbs ptr :=
  match x with
  | CInsert n parent lk => rb_link_node (Some n) parent lk;; rb_insert_color (Some n);; mret None
  | CErase n => rb_erase (Some n);; mret None
  | CReplace v n => rb_replace_node (Some v) (Some n);; mret None
  | CFirst => rb_first
  | CLast => rb_last
  | CNext n => rb_next (Some n)
  | CPrev n => rb_prev (Some n)
  end.

(** The specification: a list.  A node linked at the left of [p] comes before it, one linked
    at the right after it. *)
Definition beside (d : dir) (p n : Z) : list Z := match d with L => [n; p] | R => [p; n] end.

Fixpoint put (d : dir) (p n : Z) (l : list Z) : list Z :=
  match l with
  | [] => []
  | x :: l => if x =? p then beside d p n ++ l else x :: put d p n l
  end.
Fixpoint next_in (n : Z) (l : list Z) : option Z :=
  match l with [] => None | x :: l => if x =? n then head l else next_in n l end.

Definition spec_list (x : rb_call) (l : list Z) : list Z :=
  match x with
  | CInsert n (Some p) (Some d) => put d p n l
  | CInsert n _ _ => [n]
  | CErase n => filter (λ y, y ≠ n) l
  | CReplace v n => (λ y, if y =? v then n else y) <$> l
  | _ => l
  end.
Definition spec_answer (x : rb_call) (l : list Z) : option Z :=
  match x with
  | CFirst => head l
  | CLast => last l
  | CNext n => next_in n l
  | CPrev n => next_in n (reverse l)
  | _ => None
  end.

(** What callers owe: the node linked in is in memory and in no tree, and the link is NULL;
    what is removed, replaced or asked for is in the tree. *)
Definition call_pre (x : rb_call) (s : rbs) (l : list Z) : Prop :=
  match x with
  | CInsert n parent lk => is_Some (nodes s !! n) ∧ (n ∉ l) ∧
    match parent, lk with
    | None, None => l = []
    | Some p, Some d => p ∈ l ∧ ∃ y, nodes s !! p = Some y ∧ child d y = None
    | _, _ => False
    end
  | CErase n | CNext n | CPrev n => n ∈ l
  | CReplace v n => v ∈ l ∧ (n ∉ l) ∧ is_Some (nodes s !! n)
  | _ => True
  end.

(** From any memory, with an empty tree. *)
Inductive reach : rbs → list Z → Prop :=
| reach_init m : reach (mk_rbs m None) []
| reach_call s l x : reach s l → call_pre x s l → reach (run_call x s).2 (spec_list x l).

Lemma put_at d p n l1 l2 : p ∉ l1 → put d p n (l1 ++ p :: l2) = l1 ++ beside d p n ++ l2.
Proof.
  induction l1 as [|x l1 IH]; intros Hp; cbn [put app]; [by rewrite Z.eqb_refl|].
  apply not_elem_of_cons in Hp as [Hne Hp]. replace (x =? p) with false by lia. by rewrite IH.
Qed.

Lemma next_at n l1 l2 : n ∉ l1 → next_in n (l1 ++ n :: l2) = head l2.
Proof.
  induction l1 as [|x l1 IH]; intros Hp; cbn [next_in app]; [by rewrite Z.eqb_refl|].
  apply not_elem_of_cons in Hp as [Hne Hp]. replace (x =? n) with false by lia. by apply IH.
Qed.

Lemma erase_at (n : Z) l1 l2 : n ∉ l1 → n ∉ l2 → filter (λ y, y ≠ n) (l1 ++ n :: l2) = l1 ++ l2.
Proof.
  intros H1 H2. rewrite filter_app, filter_cons_False by (intros H; by apply H).
  assert (∀ l : list Z, n ∉ l → filter (λ y, y ≠ n) l = l) as Hid.
  { induction l as [|x l IH]; intros Hl; [done|]. apply not_elem_of_cons in Hl as [? ?].
    rewrite filter_cons_True by done. by rewrite IH. }
  by rewrite !Hid.
Qed.

Lemma replace_at (v n : Z) l1 l2 : v ∉ l1 → v ∉ l2 →
  (λ y, if y =? v then n else y) <$> (l1 ++ v :: l2) = l1 ++ n :: l2.
Proof.
  intros H1 H2. rewrite fmap_app. cbn. rewrite Z.eqb_refl.
  assert (∀ l : list Z, v ∉ l → (λ y, if y =? v then n else y) <$> l = l) as Hid.
  { induction l as [|x l IH]; intros Hl; [done|]. apply not_elem_of_cons in Hl as [? ?]. cbn.
    replace (x =? v) with false by lia. by rewrite IH. }
  by rewrite !Hid.
Qed.

(** Between two calls. *)
Definition tree_ok (s : rbs) (l : list Z) : Prop := ∃ M t, holds M s t ∧ good t ∧ inorder t = l.

Definition does (x : rb_call) (s : rbs) (l : list Z) : Prop :=
  wp (run_call x) (λ v s', v = spec_answer x l ∧ tree_ok s' (spec_list x l)) (λ _ _, False) s.

Lemma insert_does n parent lk s l : tree_ok s l → call_pre (CInsert n parent lk) s l → does (CInsert n parent lk) s l.
Proof.
  intros (M & t & Hh & Hg & Ht) (Hx & Hn & Hp).
  assert (∃ k, t = plug k E ∧ above k = parent ∧ link k = lk ∧ before k ++ n :: after k = spec_list (CInsert n parent lk) l)
    as (k & -> & <- & <- & Hl).
  { destruct parent as [p|], lk as [d|]; [|done|done|].
    - destruct Hp as [Hp (y & Hy & Hc)]. rewrite <- Ht in Hp. destruct (in_tree p t Hp) as (k & c & lt & rt & ->).
      pose proof (ho_nodup _ _ _ Hh) as Hnd. rewrite around in Hnd, Ht.
      apply NoDup_app in Hnd as (_ & Hd & _).
      assert (p ∉ before k ++ inorder lt) as Hpl by (intros H'; apply (Hd p H'); by left).
      assert (∃ sib, T c lt p rt = nd d c E p sib) as (sib & Es).
      { pose proof (holds_node M s k L c lt p rt Hh) as Hy'. rewrite Hy in Hy'. injection Hy' as ->.
        destruct d; cbn in Hc; [destruct lt|destruct rt]; try done; by eexists. }
      exists (F d c p sib :: k). split_and!; [by rewrite Es|done|done|]. cbn [spec_list]. rewrite <- Ht, put_at by done.
      destruct d; cbn in Es |- *; injection Es as -> ->; rewrite ?app_nil_r; cbn; [done|].
      by rewrite <- !app_assoc.
    - subst l. assert (t = E) as ->. { destruct t; [done|]. cbn in Hp. by destruct (inorder t1). }
      by exists []. }
  subst l. unfold does. cbn [run_call spec_answer].
  pose proof (insert_ok M s k n (λ _ _, False) Hh Hg Hn Hx) as Hi. apply wp_bind_inv in Hi.
  apply wp_bind. eapply wp_mono; [exact Hi|]. intros v s1 H1. cbn beta in H1. apply wp_bind.
  eapply wp_mono; [exact H1|]. intros v' s2 (t & H2 & Hg2 & Ho). apply wp_ret. split; [done|].
  exists M, t. by rewrite <- Hl.
Qed.

(** A node of the tree, in the tree and in the list. *)
Lemma located s l n : tree_ok s l → n ∈ l → ∃ M k c lt rt, holds M s (plug k (T c lt n rt)) ∧
  good (plug k (T c lt n rt)) ∧ l = (before k ++ inorder lt) ++ n :: (inorder rt ++ after k) ∧
  (n ∉ before k ++ inorder lt) ∧ (n ∉ inorder rt ++ after k).
Proof.
  intros (M & t & Hh & Hg & <-) Hn. destruct (in_tree n t Hn) as (k & c & lt & rt & ->). exists M, k, c, lt, rt.
  pose proof (ho_nodup _ _ _ Hh) as Hnd. rewrite around in Hnd |- *. apply NoDup_app in Hnd as (_ & Hd & Hnd).
  apply NoDup_cons in Hnd as [Hr _]. split_and!; [done..| |done]. intros H. apply (Hd n H). by left.
Qed.

Lemma erase_does n s l : tree_ok s l → n ∈ l → does (CErase n) s l.
Proof.
  intros Hs Hn. destruct (located s l n Hs Hn) as (M & k & c & lt & rt & Hh & Hg & -> & H1 & H2).
  unfold does. cbn [run_call]. apply wp_bind. eapply wp_mono; [by apply erase_ok|].
  intros v s' (M' & t & Ht & Hgt & Ho & _). apply wp_ret. split; [done|]. exists M', t. split_and!; [done..|].
  cbn [spec_list]. by rewrite erase_at, Ho, <- app_assoc.
Qed.

Lemma good_swap k c lt n j rt : good (plug k (T c lt n rt)) → good (plug k (T c lt j rt)).
Proof.
  intros (b & h & Hk & Ht & Hb)%plug_inv. eapply plug_ok; [exact Hk| |done].
  inversion Ht; subst; by constructor.
Qed.

Lemma replace_does v n s l : tree_ok s l → call_pre (CReplace v n) s l → does (CReplace v n) s l.
Proof.
  intros Hs (Hv & Hn & Hx). destruct (located s l v Hs Hv) as (M & k & c & lt & rt & Hh & Hg & -> & H1 & H2).
  unfold does. cbn [run_call]. apply wp_bind. eapply wp_mono; [apply replace_ok; [done|by rewrite around|done]|].
  intros u s' Ht. apply wp_ret. split; [done|]. eexists _, _. split_and!; [exact Ht|by eapply good_swap|].
  cbn [spec_list]. by rewrite replace_at, around.
Qed.

Lemma head_app_or (l l' : list Z) : head (l ++ l') = match head l with Some x => Some x | None => head l' end.
Proof. by destruct l. Qed.
Lemma last_app_or (l l' : list Z) : last (l' ++ l) = match last l with Some x => Some x | None => last l' end.
Proof. by rewrite last_app. Qed.

Lemma step_does d n s l : tree_ok s l → n ∈ l →
  wp (rb_step d (Some n)) (λ v s', v = spec_answer (match d with R => CNext n | L => CPrev n end) l ∧
    tree_ok s' l) (λ _ _, False) s.
Proof.
  intros Hs Hn. destruct (located s l n Hs Hn) as (M & k & c & lt & rt & Hh & Hg & Hl & H1 & H2).
  destruct d.
  - eapply wp_mono; [apply (rb_step_ok L M s k c lt n rt _ Hh)|]. intros v s' [-> ->]. split; [|done].
    cbn [spec_answer]. rewrite Hl, reverse_app, reverse_cons, <- app_assoc. cbn [app].
    rewrite next_at by (by rewrite elem_of_reverse). rewrite <- last_reverse, reverse_involutive, last_app_or. done.
  - eapply wp_mono; [apply (rb_step_ok R M s k c rt n lt _ Hh)|]. intros v s' [-> ->]. split; [|done].
    cbn [spec_answer]. rewrite Hl, next_at by done. by rewrite head_app_or.
Qed.

Lemma run_call_does x s l : tree_ok s l → call_pre x s l → does x s l.
Proof.
  intros Hs Hp. destruct x; cbn [call_pre] in Hp.
  - by apply insert_does.
  - by apply erase_does.
  - by apply replace_does.
  - destruct Hs as (M & t & Hh & Hg & <-). unfold does. eapply wp_mono; [apply (rb_end_ok L M s t _ Hh)|].
    intros v s' [-> ->]. split; [done|]. by exists M, t.
  - destruct Hs as (M & t & Hh & Hg & <-). unfold does. eapply wp_mono; [apply (rb_end_ok R M s t _ Hh)|].
    intros v s' [-> ->]. split; [done|]. by exists M, t.
  - by apply (step_does R).
  - by apply (step_does L).
Qed.

Lemma tree_reach_ok s l : reach s l → tree_ok s l.
Proof.
  induction 1 as [m|s l x _ IH Hp].
  - exists m, E. split_and!; [|split; [done|by exists 0%nat; constructor]|done].
    split; [done|done|apply NoDup_nil_2|done].
  - pose proof (run_call_does x s l IH Hp) as H. unfold does, wp in H.
    destruct (run_call x s) as [[v|e|] s']; [|done..]. by destruct H.
Qed.

(** C24: A red-black tree is a list.  From any memory with an empty root, after any sequence of calls
    that link a node at a NULL link of the tree and colour it, remove a node, replace one by
    another, or walk, the next call terminates, follows no NULL pointer, and answers as the list
    of the nodes in order does: [rb_first] and [rb_last] its ends, [rb_next] and [rb_prev] the
    neighbours of a node.  Linking at the left of a node puts the new node directly before it,
    at the right directly after it; removal and replacement change nothing else. *)
Theorem rb_tree_refines s l x :
  reach s l → call_pre x s l → (run_call x s).1 = Ok (spec_answer x l).
Proof.
  intros Hr Hp. pose proof (run_call_does x s l (tree_reach_ok s l Hr) Hp) as H. unfold does, wp in H.
  destruct (run_call x s) as [[v|e|] s']; [|done..]. destruct H as [-> _]. done.
Qed.

(** Nodes 1, 2, 3 are linked each at the right of the one before. *)
Definition blank : rb_node := mk_node None 0 None None.
Definition demo_mem : rbs := mk_rbs (<[1 := blank]> (<[2 := blank]> (<[3 := blank]> ∅))) None.
Definition demo_1 : rbs := (run_call (CInsert 1 None None) demo_mem).2.
Definition demo_2 : rbs := (run_call (CInsert 2 (Some 1) (Some R)) demo_1).2.
Definition demo_3 : rbs := (run_call (CInsert 3 (Some 2) (Some R)) demo_2).2.

Lemma rb_demo_reach : reach demo_3 [1; 2; 3].
Proof.
  assert (reach demo_1 [1]) as H1.
  { apply (reach_call demo_mem [] (CInsert 1 None None)); [apply reach_init|].
    split_and!; [by eexists|apply not_elem_of_nil|done]. }
  assert (reach demo_2 [1; 2]) as H2.
  { apply (reach_call demo_1 [1] (CInsert 2 (Some 1) (Some R))); [done|].
    split_and!; [by eexists|by apply (bool_decide_unpack (2 ∉ [1]))|by left|by eexists]. }
  apply (reach_call demo_2 [1; 2] (CInsert 3 (Some 2) (Some R))); [done|].
  split_and!; [by eexists|by apply (bool_decide_unpack (3 ∉ [1; 2]))|by right; left|by eexists].
Qed.

Lemma rb_tree_refines_witness :
  rb_root demo_3 = Some 2 ∧ (run_call (CNext 2) demo_3).1 = Ok (Some 3).
Proof.
  split; [by vm_compute|]. apply (rb_tree_refines demo_3 [1; 2; 3] (CNext 2)); [apply rb_demo_reach|by right; left].
Defined.

(** ** Balance *)

Fixpoint height (t : tree) : nat := match t with E => 0 | T _ l _ r => S (Nat.max (height l) (height r)) end.

Lemma rb_bounds t h : is_rb t h →
  (height t <= 2 * h + (if (tcol t =? RB_RED)%Z then 1 else 0) ∧ 2 ^ h <= S (length (inorder t)))%nat.
Proof.
  assert (∀ c, (if (c =? RB_RED)%Z then 1 else 0) <= 1)%nat as Hc by (intros c; destruct (c =? RB_RED); lia).
  induction 1 as [|l n r h Cl Cr Hl [IHl Sl] Hr [IHr Sr]|l n r h Hl [IHl Sl] Hr [IHr Sr]].
  - cbn. lia.
  - rewrite Cl in IHl. rewrite Cr in IHr. change (RB_BLACK =? RB_RED) with false in *.
    cbn [height inorder tcol]. change (RB_RED =? RB_RED) with true. rewrite length_app. cbn [length]. cbn iota in *. lia.
  - cbn [height inorder tcol Nat.pow]. change (RB_BLACK =? RB_RED) with false. rewrite length_app. cbn [length]. cbn iota.
    pose proof (Hc (tcol l)). pose proof (Hc (tcol r)). lia.
Qed.

(** C32: Red-black trees are balanced.  In every history the memory holds a tree of the nodes in
    order, linked in both directions, in which no red node has a red child and all paths from
    the root have the same number of black nodes; so the height of a tree of n nodes is at most
    2 log2 (n + 1). *)
Theorem rb_tree_balanced s l :
  reach s l → ∃ M t, holds M s t ∧ good t ∧ inorder t = l ∧ (2 ^ height t <= S (length l) ^ 2)%nat.
Proof.
  intros (M & t & Hh & Hg & <-)%tree_reach_ok. exists M, t. split_and!; [done..|]. destruct Hg as [Hc [h Ht]].
  destruct (rb_bounds t h Ht) as [Hb Hs]. rewrite Hc in Hb. change (RB_BLACK =? RB_RED) with false in Hb. cbn iota in Hb.
  transitivity (2 ^ (h * 2))%nat; [apply Nat.pow_le_mono_r; lia|]. rewrite Nat.pow_mul_r. by apply Nat.pow_le_mono_l.
Qed.

Lemma rb_tree_balanced_witness :
  ∃ M t, holds M demo_3 t ∧ good t ∧ inorder t = [1; 2; 3] ∧ (2 ^ height t <= 4 ^ 2)%nat.
Proof. apply (rb_tree_balanced demo_3 [1; 2; 3] rb_demo_reach). Defined.

End RbtreeTheorems.
