(* ===== verification/Waitq.v ===== *)
(** * Wait queues (kernel/sched.c, kernel/wait.c, include/linux/wait.h)

    The queue of tasks that wait on a primitive, and what its users share: a spinlock,
    tasks that go to sleep in [schedule] and are woken by [try_to_wake_up], and the scan
    of [__wake_up_common].  The users are the kernel's semaphores, its completions and
    its event macros: [D] is the data they keep beside the queue, [X] what they know of a task (where it
    is in their code).  Any number of tasks interleave; a user's step is what a task
    does between two accesses that others can see. *)

From stdpp Require Import prelude numbers list gmap.
From Stdlib Require Import ZArith Lia.
From S2P Require Import Prelude.

#[local] Set Default Goal Selector "!".
#[local] Open Scope Z_scope.

Module Waitq.

Definition TASK_RUNNING : Z := 0.
Definition TASK_INTERRUPTIBLE : Z := 1.
Definition TASK_UNINTERRUPTIBLE : Z := 2.

(** The mode of [wake_up]. *)
Definition TASK_NORMAL : Z := Z.lor TASK_UNINTERRUPTIBLE TASK_INTERRUPTIBLE.

Definition WQ_FLAG_EXCLUSIVE : Z := 1.

Inductive wait_queue_func_t := default_wake_function | autoremove_wake_function.
#[export] Instance wait_queue_func_eq_dec : EqDecision wait_queue_func_t.
Proof. solve_decision. Defined.

(** [wait_queue_t].  It lives on the stack of the task that waits, one for each. *)
Record wait_queue_t := mk_wait {
  wq_flags : Z;
  wq_task : Z;
  wq_func : wait_queue_func_t;
}.
#[export] Instance wait_queue_eq_dec : EqDecision wait_queue_t.
Proof. solve_decision. Defined.

(** [wait_queue_head_t]; [lock] is the holder of the spinlock. *)
Record wait_queue_head_t := mk_head {
  lock : option Z;
  task_list : list wait_queue_t;
}.

(** What this code uses of a [task_struct]: its state, whether it is on a run queue
    ([array] is not NULL), [signal_pending], and the user's part. *)
Record task (X : Type) := mk_task {
  state : Z;
  array : bool;
  sigpending : bool;
  here : X;
}.
Arguments mk_task {X} _ _ _ _.
Arguments state {X} _.
Arguments array {X} _.
Arguments sigpending {X} _.
Arguments here {X} _.

Record wsys (D X : Type) := mk_sys {
  data : D;
  wait : wait_queue_head_t;
  tasks : gmap Z (task X);
}.
Arguments mk_sys {D X} _ _ _.
Arguments data {D X} _.
Arguments wait {D X} _.
Arguments tasks {D X} _.

Definition init_waitqueue_head : wait_queue_head_t := mk_head None [].

Definition DECLARE_WAITQUEUE (t : Z) : wait_queue_t := mk_wait 0 t default_wake_function.
Definition DEFINE_WAIT (t : Z) : wait_queue_t := mk_wait 0 t autoremove_wake_function.

Definition set_exclusive (w : wait_queue_t) : wait_queue_t :=
  mk_wait (Z.lor (wq_flags w) WQ_FLAG_EXCLUSIVE) (wq_task w) (wq_func w).
Definition clear_exclusive (w : wait_queue_t) : wait_queue_t :=
  mk_wait (Z.land (wq_flags w) (Z.lnot WQ_FLAG_EXCLUSIVE)) (wq_task w) (wq_func w).

(** [list_del(&wait->task_list)] for the entry of task [t]. *)
Definition unqueue (t : Z) (l : list wait_queue_t) : list wait_queue_t :=
  filter (λ e, wq_task e ≠ t) l.
Definition queued_in (t : Z) (l : list wait_queue_t) : bool := bool_decide (t ∈ wq_task <$> l).

(** ** Sleeping and waking one task *)

(** [try_to_wake_up]: the return value and the task. *)
Definition try_to_wake_up {X} (mode : Z) (p : task X) : bool * task X :=
  if Z.land (state p) mode =? 0 then (false, p)
  else (negb (array p), mk_task TASK_RUNNING true (sigpending p) (here p)).

(** What [schedule] does with the task that calls it. *)
Definition sched_out {X} (p : task X) : task X :=
  if state p =? TASK_RUNNING then p
  else if negb (Z.land (state p) TASK_INTERRUPTIBLE =? 0) && sigpending p
  then mk_task TASK_RUNNING (array p) (sigpending p) (here p)
  else mk_task (state p) false (sigpending p) (here p).

Section wsys.
Context {D X : Type}.

Definition get_task (t : Z) : SM (wsys D X) (task X) := λ s,
  match tasks s !! t with Some p => (Ok p, s) | None => (Bug, s) end.
Definition put_task (t : Z) (p : task X) : SM (wsys D X) unit :=
  modify (λ s, mk_sys (data s) (wait s) (<[t := p]> (tasks s))).
Definition get_data : SM (wsys D X) D := gets data.
Definition put_data (d : D) : SM (wsys D X) unit := modify (λ s, mk_sys d (wait s) (tasks s)).

(** [set_current_state(st)] *)
Definition set_current_state (t : Z) (st : Z) : SM (wsys D X) unit :=
  p ← get_task t; put_task t (mk_task st (array p) (sigpending p) (here p)).
(** The task goes on in its code. *)
Definition goto (t : Z) (x : X) : SM (wsys D X) unit :=
  p ← get_task t; put_task t (mk_task (state p) (array p) (sigpending p) x).
Definition signal_pending (t : Z) : SM (wsys D X) bool := p ← get_task t; mret (sigpending p).
Definition schedule (t : Z) : SM (wsys D X) unit := p ← get_task t; put_task t (sched_out p).

(** [spin_lock(&q->lock)] once the lock is free. *)
Definition spin_lock (t : Z) : SM (wsys D X) unit := λ s,
  match lock (wait s) with
  | None => (Ok tt, mk_sys (data s) (mk_head (Some t) (task_list (wait s))) (tasks s))
  | Some _ => (Bug, s)
  end.
Definition spin_unlock : SM (wsys D X) unit :=
  modify (λ s, mk_sys (data s) (mk_head None (task_list (wait s))) (tasks s)).

(** ** The queue *)

Definition set_list (l : list wait_queue_t) : SM (wsys D X) unit :=
  modify (λ s, mk_sys (data s) (mk_head (lock (wait s)) l) (tasks s)).

Definition __add_wait_queue (w : wait_queue_t) : SM (wsys D X) unit :=
  l ← gets (λ s, task_list (wait s)); set_list (w :: l).
Definition __add_wait_queue_tail (w : wait_queue_t) : SM (wsys D X) unit :=
  l ← gets (λ s, task_list (wait s)); set_list (l ++ [w]).
(** [list_del] of an entry that is not linked follows stray pointers. *)
Definition __remove_wait_queue (t : Z) : SM (wsys D X) unit :=
  l ← gets (λ s, task_list (wait s));
  if queued_in t l then set_list (unqueue t l) else bug.

Definition add_wait_queue_exclusive_locked (w : wait_queue_t) : SM (wsys D X) unit :=
  __add_wait_queue_tail (set_exclusive w).
Definition remove_wait_queue_locked : Z → SM (wsys D X) unit := __remove_wait_queue.

(** [default_wake_function]: [try_to_wake_up] on the task of an entry *)
Definition wake_task (mode : Z) (e : wait_queue_t) : SM (wsys D X) bool :=
  p ← get_task (wq_task e);
  put_task (wq_task e) (try_to_wake_up mode p).2;;
  mret (try_to_wake_up mode p).1.

(** [list_del_init(&wait->task_list)]: nothing happens to an entry that is not linked. *)
Definition list_del_init (t : Z) : SM (wsys D X) unit :=
  l ← gets (λ s, task_list (wait s)); set_list (unqueue t l).

(** The end of a round of the loop of [__wake_up_common] for the entry with [flags]:
    whether the loop ends, and [nr_exclusive]. *)
Definition after_wake (flags nr_exclusive : Z) (ret : bool) : bool * Z :=
  if ret && negb (Z.land flags WQ_FLAG_EXCLUSIVE =? 0) then
    let nr := sgn32 (nr_exclusive - 1) in (nr =? 0, nr)
  else (false, nr_exclusive).

(** A round for an entry with [default_wake_function]. *)
Definition wake_one (mode nr_exclusive : Z) (e : wait_queue_t) : SM (wsys D X) (bool * Z) :=
  ret ← wake_task mode e;
  mret (after_wake (wq_flags e) nr_exclusive ret).

End wsys.

(** ** What waking does to a task *)

Lemma wake_here {X} mode (p : task X) : here (try_to_wake_up mode p).2 = here p.
Proof. unfold try_to_wake_up. by case_zb. Qed.

Lemma sched_here {X} (p : task X) : here (sched_out p) = here p.
Proof. unfold sched_out. by repeat (case_match; try done). Qed.

(** ** Running tasks *)

Definition runs {X} (T : gmap Z (task X)) (t : Z) : Prop :=
  ∃ p, T !! t = Some p ∧ state p = TASK_RUNNING.

Lemma runs_insert {X} (T : gmap Z (task X)) t p p' u : T !! t = Some p → (state p = TASK_RUNNING → state p' = TASK_RUNNING) →
  runs T u → runs (<[t := p']> T) u.
Proof.
  intros Ht Hs (q & Hq & Hr). destruct (decide (u = t)) as [->|Hne].
  - exists p'. rewrite lookup_insert_eq. split; [done|]. apply Hs. congruence.
  - exists q. by rewrite lookup_insert_ne.
Qed.

Lemma wake_running {X} mode (p : task X) :
  state p = TASK_RUNNING → state (try_to_wake_up mode p).2 = TASK_RUNNING.
Proof. intros E. unfold try_to_wake_up. by case_zb. Qed.

Lemma size_replace {X} (T : gmap Z (task X)) t p p' : T !! t = Some p → size (<[t := p']> T) = size T.
Proof. intros H. by rewrite map_size_insert, H. Qed.

Lemma elem_of_suffix {A} (x : A) k l : k `suffix_of` l → x ∈ k → x ∈ l.
Proof. intros [pre ->] Hx. apply elem_of_app. by right. Qed.

(** ** Running code *)

Lemma wp_get_wtask {D X} t p (Φ : task X → wsys D X → Prop) Ψ s :
  tasks s !! t = Some p → Φ p s → wp (get_task t) Φ Ψ s.
Proof. intros H HΦ. unfold wp, get_task. by rewrite H. Qed.

Lemma wp_wspin_lock {D X} t (Φ : unit → wsys D X → Prop) Ψ s :
  lock (wait s) = None → Φ tt (mk_sys (data s) (mk_head (Some t) (task_list (wait s))) (tasks s)) →
  wp (spin_lock t) Φ Ψ s.
Proof. intros H HΦ. unfold wp, spin_lock. by rewrite H. Qed.

(** Runs straight-line code on a state whose parts are named. *)
Ltac wlookup := cbn [tasks data wait]; first [apply lookup_insert_eq | eassumption].
Ltac wrun1 :=
  lazymatch goal with
  | |- wp (mbind _ _) _ _ _ => apply wp_bind
  | |- wp (modify _) _ _ _ => apply wp_modify
  | |- wp (gets _) _ _ _ => apply wp_gets
  | |- wp (mret _) _ _ _ => apply wp_ret
  | |- wp (get_task _) _ _ _ => eapply wp_get_wtask; [wlookup|]
  | |- wp (spin_lock _) _ _ _ => apply wp_wspin_lock; [cbn; assumption|]
  end.
Ltac wrun_with simp :=
  repeat wrun1;
  cbn [tasks data wait lock task_list state array sigpending here]; simp;
  rewrite ?insert_insert_eq.

(** ** The lock and the queue

    [locked x]: a task at [x] holds the spinlock; [queued x]: its entry is in the queue. *)
Section wq_ok.
Context {X : Type} (locked queued : X → bool) (entry : Z → wait_queue_t).
Hypothesis entry_task : ∀ t, wq_task (entry t) = t.

Record wq_ok (lk : option Z) (l : list wait_queue_t) (T : gmap Z (task X)) : Prop := {
  wq_holder : ∀ t p, T !! t = Some p → locked (here p) = true → lk = Some t;
  wq_locked : ∀ t, lk = Some t → ∃ p, T !! t = Some p ∧ locked (here p) = true;
  wq_nodup : NoDup (wq_task <$> l);
  wq_in : ∀ t, t ∈ wq_task <$> l ↔ ∃ p, T !! t = Some p ∧ queued (here p) = true;
  wq_entry : ∀ e, e ∈ l → e = entry (wq_task e);
}.

(** The lock and the queue after a step of task [t] from [p] to [p']. *)
Definition lock_after (t : Z) (lk : option Z) (x x' : X) : option Z :=
  if locked x' then Some t else if locked x then None else lk.

Inductive queue_after (t : Z) (x x' : X) (l : list wait_queue_t) : list wait_queue_t → Prop :=
| queue_same : queued x = queued x' → queue_after t x x' l l
| queue_append : queued x = false → queued x' = true → queue_after t x x' l (l ++ [entry t])
| queue_push : queued x = false → queued x' = true → queue_after t x x' l (entry t :: l)
| queue_remove : queued x = true → queued x' = false → queue_after t x x' l (unqueue t l).

Lemma unqueue_elem t u l : u ∈ wq_task <$> unqueue t l ↔ u ≠ t ∧ u ∈ wq_task <$> l.
Proof.
  rewrite !list_elem_of_fmap. split.
  - intros (e & -> & [? ?]%list_elem_of_filter). split; [done|]. by exists e.
  - intros (? & e & -> & ?). exists e. split; [done|]. by apply list_elem_of_filter.
Qed.

Lemma unqueue_sub t l e : e ∈ unqueue t l → e ∈ l.
Proof. by intros [_ ?]%list_elem_of_filter. Qed.

Lemma unqueue_nodup t l : NoDup (wq_task <$> l) → NoDup (wq_task <$> unqueue t l).
Proof.
  unfold unqueue. induction l as [|e l IH]; [done|]. rewrite fmap_cons. intros [Hn Hl]%NoDup_cons.
  rewrite filter_cons. destruct (decide (wq_task e ≠ t)); [|by apply IH].
  rewrite fmap_cons. apply NoDup_cons. split; [|by apply IH]. intros H. apply Hn.
  by apply (unqueue_elem t) in H as [_ ?].
Qed.

Lemma queue_after_nodup t x x' l l' : queue_after t x x' l l' →
  (queued x = false → t ∉ wq_task <$> l) → NoDup (wq_task <$> l) → NoDup (wq_task <$> l').
Proof.
  intros [Hq|Hx Hx'|Hx Hx'|Hx Hx'] Hn Hl; [done| | |by apply unqueue_nodup].
  - rewrite fmap_app. apply NoDup_app. split_and!; [done| |apply NoDup_singleton].
    intros u Hu [->|[]%not_elem_of_nil]%elem_of_cons. rewrite entry_task in Hu. by apply Hn in Hx.
  - rewrite fmap_cons, entry_task. apply NoDup_cons. auto.
Qed.

Lemma queue_after_elem t x x' l l' : queue_after t x x' l l' →
  (t ∈ wq_task <$> l ↔ queued x = true) → ∀ u, u ∈ wq_task <$> l' ↔ if decide (u = t) then queued x' = true else u ∈ wq_task <$> l.
Proof.
  intros H Ht u. destruct H as [Hq|Hx Hx'|Hx Hx'|Hx Hx'].
  - rewrite <- Hq. destruct (decide (u = t)) as [->|]; done.
  - rewrite fmap_app, elem_of_app, fmap_cons, fmap_nil, list_elem_of_singleton. rewrite Hx' , entry_task. destruct (decide (u = t)); tauto.
  - rewrite fmap_cons, elem_of_cons, Hx', entry_task. destruct (decide (u = t)); tauto.
  - rewrite unqueue_elem, Hx'. destruct (decide (u = t)); [|tauto]. split; [tauto|done].
Qed.

(** A step of a task. *)
Lemma wq_step lk l T t p p' l' :
  wq_ok lk l T → T !! t = Some p →
  (locked (here p') = true → locked (here p) = true ∨ lk = None) →
  queue_after t (here p) (here p') l l' →
  wq_ok (lock_after t lk (here p) (here p')) l' (<[t := p']> T).
Proof.
  intros [Hh Hk Hn Hi He] Ht Hlk Hq.
  assert (t ∈ wq_task <$> l ↔ queued (here p) = true) as Hin.
  { rewrite Hi. split; [intros (p0 & E & ?); congruence|by exists p]. }
  split.
  - intros u q Hu Hlq. unfold lock_after. destruct (decide (u = t)) as [->|Hne].
    + rewrite lookup_insert_eq in Hu. injection Hu as <-. by rewrite Hlq.
    + rewrite lookup_insert_ne in Hu by done. pose proof (Hh u q Hu Hlq) as ->.
      destruct (locked (here p')).
      * destruct (Hlk eq_refl) as [Hp|]; [|done]. pose proof (Hh t p Ht Hp). congruence.
      * destruct (locked (here p)) eqn:Hp; [|done]. pose proof (Hh t p Ht Hp). congruence.
  - intros u. unfold lock_after. destruct (locked (here p')) eqn:Hp'.
    + intros [= <-]. exists p'. by rewrite lookup_insert_eq.
    + destruct (locked (here p)) eqn:Hp; [done|]. intros Hu. destruct (Hk u Hu) as (q & Hq' & ?).
      exists q. rewrite lookup_insert_ne; [done|]. intros <-. congruence.
  - eapply queue_after_nodup; [exact Hq| |done]. intros Hx. rewrite Hin, Hx. done.
  - intros u. rewrite (queue_after_elem _ _ _ _ _ Hq Hin). destruct (decide (u = t)) as [->|Hne].
    + rewrite lookup_insert_eq. split; [by exists p'|]. intros (q & [= <-] & ?). done.
    + rewrite lookup_insert_ne by done. apply Hi.
  - intros e Hel. destruct Hq as [Hq|Hx Hx'|Hx Hx'|Hx Hx'].
    + auto.
    + apply elem_of_app in Hel as [?| ->%list_elem_of_singleton]; [auto|by rewrite entry_task].
    + apply elem_of_cons in Hel as [->|?]; [by rewrite entry_task|auto].
    + apply He. by apply unqueue_sub in Hel.
Qed.

(** A change of a task that its code does not see. *)
Lemma wq_same lk l T t p p' :
  wq_ok lk l T → T !! t = Some p → here p' = here p → wq_ok lk l (<[t := p']> T).
Proof.
  intros H Ht E. pose proof (wq_step lk l T t p p' l H Ht) as Hs. rewrite E in Hs.
  unfold lock_after in Hs. destruct (locked (here p)) eqn:Hp.
  - rewrite (wq_holder _ _ _ H t p Ht Hp). apply Hs; [by left|by constructor].
  - apply Hs; [done|by constructor].
Qed.

Lemma wq_task_in lk l T e : wq_ok lk l T → e ∈ l →
  ∃ p, T !! wq_task e = Some p ∧ queued (here p) = true.
Proof. intros H He. apply (wq_in _ _ _ H). apply list_elem_of_fmap. by exists e. Qed.

(** The queue is no longer than the number of tasks. *)
Lemma wq_short lk l T : wq_ok lk l T → (length l <= size T)%nat.
Proof.
  intros H. assert (length (wq_task <$> l) ≤ length (map_to_list T).*1)%nat as Hle.
  { apply submseteq_length, NoDup_submseteq; [apply (wq_nodup _ _ _ H)|]. intros u (p & Hp & _)%(wq_in _ _ _ H).
    apply list_elem_of_fmap. exists (u, p). split; [done|]. by apply elem_of_map_to_list. }
  by rewrite !length_fmap, length_map_to_list in Hle.
Qed.

End wq_ok.

End Waitq.
