(* ===== verification/Ksem.v ===== *)
(** * Kernel semaphores (arch/i386/kernel/semaphore.c, include/asm-i386/semaphore.h)

    One semaphore used by any number of tasks on any number of processors.  The counter
    is changed by single atomic instructions, without the lock, on the fast paths and
    with the lock on the slow ones; [sleepers] and the queue are only touched under the
    lock.  So the code is cut at the accesses that others can see: the atomic
    instructions, the state and the signal flag of the task, the lock, [schedule], and
    each wake-up.  The program counter [pc] says before which of them a task is. *)

From stdpp Require Import prelude numbers list gmap.
From Stdlib Require Import ZArith Lia.
From S2P Require Import Prelude Waitq.

#[local] Set Default Goal Selector "!".
#[local] Open Scope Z_scope.

Module Ksem.
Import Waitq.

(** [struct semaphore], beside its wait queue. *)
Record semaphore := mk_sem {
  count : Z;
  sleepers : Z;
}.

(** [__down] and [__down_interruptible], which have the same text but for the state
    they sleep in and the test for signals. *)
Inductive how := Down | Intr.
Definition sleep_state (h : how) : Z :=
  match h with Down => TASK_UNINTERRUPTIBLE | Intr => TASK_INTERRUPTIBLE end.

(** What follows the wake-up in a section. *)
Inductive after :=
| AfterDown (ret : Z)
| AfterTry
| AfterUp.

Inductive pc :=
| Run                              (* outside *)
| DSet (h : how)                   (* tsk->state = TASK_...; *)
| DLock (h : how)                  (* spin_lock_irqsave(&sem->wait.lock, flags); *)
| DTest (h : how)                  (* if (signal_pending(current)) *)
| DSig                             (* atomic_add(sleepers, &sem->count); *)
| DAdd (h : how)                   (* if (!atomic_add_negative(sleepers - 1, ...)) *)
| DSched (h : how)                 (* schedule(); *)
| DRelock (h : how)                (* spin_lock_irqsave(...); tsk->state = ...; *)
| DDone (ret : Z)                  (* tsk->state = TASK_RUNNING; return *)
| TLock                            (* __down_trylock: spin_lock_irqsave *)
| TAdd (sleepers : Z)              (* if (!atomic_add_negative(sleepers, ...)) *)
| ULock                            (* __up: wake_up(&sem->wait): spin_lock_irqsave *)
| Scan (rest : list wait_queue_t) (nr : Z) (k : after).  (* in __wake_up_common *)

(** Where a task is, and how many units it has: calls that returned 0, less ups. *)
Record thread := mk_thread {
  at_pc : pc;
  got : Z;
}.

Definition ksys : Type := wsys semaphore thread.

Definition sema_init (val : Z) : semaphore := mk_sem val 0.

(** ** Accesses *)

Definition get_count : SM ksys Z := d ← get_data; mret (count d).
Definition set_count (c : Z) : SM ksys unit := d ← get_data; put_data (mk_sem c (sleepers d)).
Definition get_sleepers : SM ksys Z := d ← get_data; mret (sleepers d).
Definition set_sleepers (n : Z) : SM ksys unit := d ← get_data; put_data (mk_sem (count d) n).

(** [atomic_add(i, &sem->count)] *)
Definition atomic_add (i : Z) : SM ksys unit := c ← get_count; set_count (sgn32 (c + i)).
(** [atomic_add_negative(i, &sem->count)]: the sign of the result. *)
Definition atomic_add_negative (i : Z) : SM ksys bool :=
  c ← get_count;
  let c' := sgn32 (c + i) in
  set_count c';;
  mret (c' <? 0).

Definition go (t : Z) (c : pc) : SM ksys unit :=
  p ← get_task t; goto t (mk_thread c (got (here p))).

(** A down function returns; 0 means that the caller has the semaphore. *)
Definition ret_down (t : Z) (ret : Z) : SM ksys unit :=
  p ← get_task t; goto t (mk_thread Run (got (here p) + if ret =? 0 then 1 else 0)).

(** [wake_up_locked(&sem->wait)], or [wake_up] once it has the lock *)
Definition scan (t : Z) (k : after) : SM ksys unit :=
  l ← gets (λ s, task_list (wait s)); go t (Scan l 1 k).

(** ** The calls *)

(** [down], [down_interruptible] and [down_trylock]: decl, js *)
Definition down (t : Z) (h : how) : SM ksys unit :=
  neg ← atomic_add_negative (-1);
  if neg : bool then go t (DSet h) else ret_down t 0.
Definition down_trylock (t : Z) : SM ksys unit :=
  neg ← atomic_add_negative (-1);
  if neg : bool then go t TLock else ret_down t 0.

(** [up]: incl, jle.  The jump compares the exact sum. *)
Definition up (t : Z) : SM ksys unit :=
  c ← get_count;
  set_count (sgn32 (c + 1));;
  p ← get_task t;
  goto t (mk_thread (if c + 1 <=? 0 then ULock else Run) (got (here p) - 1)).

(** ** The slow paths *)

(** [add_wait_queue_exclusive_locked(&sem->wait, &wait); sem->sleepers++;] *)
Definition down_enter (t : Z) (h : how) : SM ksys unit :=
  spin_lock t;;
  add_wait_queue_exclusive_locked (DECLARE_WAITQUEUE t);;
  n ← get_sleepers;
  set_sleepers (sgn32 (n + 1));;
  go t (DTest h).

Definition down_test (t : Z) (h : how) : SM ksys unit :=
  match h with
  | Down => go t (DAdd h)
  | Intr => sig ← signal_pending t; if sig : bool then go t DSig else go t (DAdd h)
  end.

(** [retval = -EINTR; sem->sleepers = 0; atomic_add(sleepers, &sem->count); break;] *)
Definition down_interrupted (t : Z) : SM ksys unit :=
  n ← get_sleepers;
  set_sleepers 0;;
  atomic_add n;;
  remove_wait_queue_locked t;;
  scan t (AfterDown (- EINTR)).

Definition down_try (t : Z) (h : how) : SM ksys unit :=
  n ← get_sleepers;
  neg ← atomic_add_negative (sgn32 (n - 1));
  if negb neg then
    set_sleepers 0;;
    remove_wait_queue_locked t;;
    scan t (AfterDown 0)
  else
    set_sleepers 1;;
    spin_unlock;;
    go t (DSched h).

Definition down_relock (t : Z) (h : how) : SM ksys unit :=
  spin_lock t;;
  set_current_state t (sleep_state h);;
  go t (DTest h).

(** [sleepers = sem->sleepers + 1; sem->sleepers = 0;] *)
Definition trylock_enter (t : Z) : SM ksys unit :=
  spin_lock t;;
  n ← get_sleepers;
  set_sleepers 0;;
  go t (TAdd (sgn32 (n + 1))).

Definition trylock_add (t : Z) (n : Z) : SM ksys unit :=
  neg ← atomic_add_negative n;
  if negb neg then scan t AfterTry
  else spin_unlock;; ret_down t 1.

(** The end of the scan. *)
Definition scan_done (t : Z) (k : after) : SM ksys unit :=
  spin_unlock;;
  match k with
  | AfterDown ret => go t (DDone ret)
  | AfterTry => ret_down t 1
  | AfterUp => go t Run
  end.

(** The next piece of a call in progress. *)
Definition continue (t : Z) (c : pc) : SM ksys unit :=
  match c with
  | Run => mret tt
  | DSet h => set_current_state t (sleep_state h);; go t (DLock h)
  | DLock h => down_enter t h
  | DTest h => down_test t h
  | DSig => down_interrupted t
  | DAdd h => down_try t h
  | DSched h => schedule t;; go t (DRelock h)
  | DRelock h => down_relock t h
  | DDone ret => set_current_state t TASK_RUNNING;; ret_down t ret
  | TLock => trylock_enter t
  | TAdd n => trylock_add t n
  | ULock => spin_lock t;; scan t AfterUp
  | Scan [] _ k => scan_done t k
  | Scan (e :: rest) nr k =>
    '(brk, nr') ← wake_one TASK_NORMAL nr e;
    go t (Scan (if brk : bool then [] else rest) nr' k)
  end.

(** ** Interleaving *)

Inductive call := CDown | CDownInterruptible | CDownTrylock | CUp.

Definition do_call (t : Z) (c : call) : SM ksys unit :=
  match c with
  | CDown => down t Down
  | CDownInterruptible => down t Intr
  | CDownTrylock => down_trylock t
  | CUp => up t
  end.

(** [Call]: a task enters a function; [Next]: a task inside one goes on; [Wakeup]:
    anybody else wakes a task; [Signal]: its signal flag is set, or cleared while it is
    outside. *)
Inductive label :=
| Call (t : Z) (c : call)
| Next (t : Z)
| Wakeup (t : Z) (mode : Z)
| Signal (t : Z) (b : bool).

(** Units that are neither held nor promised: a task whose call will return 0 has one. *)
Definition promised (c : pc) : Z :=
  match c with
  | Scan _ _ (AfterDown r) | DDone r => if r =? 0 then 1 else 0
  | _ => 0
  end.
Definition taken (p : task thread) : Z := got (here p) + promised (at_pc (here p)).
Definition value (val : Z) (T : gmap Z (task thread)) : Z := val - msum taken T.

Definition takes_lock (c : pc) : bool :=
  match c with DLock _ | DRelock _ | TLock | ULock => true | _ => false end.

(** A task waits for the spinlock, and in [schedule] until it is on a run queue again.
    An [up] that would make more than 2^31 - 1 units is excluded. *)
Definition enabled (val : Z) (l : label) (s : ksys) : bool :=
  match l with
  | Call t c =>
    match tasks s !! t with
    | Some (mk_task _ _ _ (mk_thread Run _)) =>
      match c with CUp => value val (tasks s) <? 2 ^ 31 - 1 | _ => true end
    | _ => false
    end
  | Next t =>
    match tasks s !! t with
    | Some (mk_task _ _ _ (mk_thread Run _)) | None => false
    | Some p => array p && (negb (takes_lock (at_pc (here p))) || bool_decide (lock (wait s) = None))
    end
  | Wakeup t _ => bool_decide (is_Some (tasks s !! t))
  | Signal t b =>
    match tasks s !! t with
    | Some (mk_task _ _ _ (mk_thread Run _)) => true
    | Some _ => b
    | None => false
    end
  end.

Definition exec (l : label) : SM ksys unit :=
  match l with
  | Call t c => do_call t c
  | Next t => p ← get_task t; continue t (at_pc (here p))
  | Wakeup t mode => p ← get_task t; put_task t (try_to_wake_up mode p).2
  | Signal t b => p ← get_task t; put_task t (mk_task (state p) (array p) b (here p))
  end.

(** A semaphore with [val] units and tasks [ts] that run. *)
Definition idle : task thread := mk_task TASK_RUNNING true false (mk_thread Run 0).
Definition boot (val : Z) (ts : gset Z) : ksys :=
  mk_sys (sema_init val) init_waitqueue_head (gset_to_gmap idle ts).

Inductive step (val : Z) : ksys → ksys → Prop :=
| step_exec l s s' : enabled val l s = true → exec l s = (Ok tt, s') → step val s s'.

(** The same for the tasks that are inside the code. *)
Inductive inner (val : Z) : ksys → ksys → Prop :=
| inner_next t s s' : enabled val (Next t) s = true → exec (Next t) s = (Ok tt, s') → inner val s s'.

(** A run of a list of labels, for concrete executions. *)
Fixpoint run (val : Z) (ls : list label) (s : ksys) : outcome ksys :=
  match ls with
  | [] => Ok s
  | l :: ls' =>
    if enabled val l s then
      match exec l s with
      | (Ok _, s') => run val ls' s'
      | _ => Bug
      end
    else Err EAGAIN
  end.

End Ksem.
