(* ===== verification/KsemFacts.v ===== *)
(** * Kernel semaphores: the invariant

    The counter and [sleepers] together account for every unit: they add up to the free
    units less the tasks that have decremented the counter and are not registered yet. *)

From stdpp Require Import prelude numbers list gmap.
From Stdlib Require Import ZArith Lia.
From S2P Require Import Prelude Waitq Ksem.

#[local] Set Default Goal Selector "!".
#[local] Open Scope Z_scope.

Module KsemFacts.
Import Waitq Ksem.

Definition locked (x : thread) : bool :=
  match at_pc x with DTest _ | DSig | DAdd _ | TAdd _ | Scan _ _ _ => true | _ => false end.
Definition queued (x : thread) : bool :=
  match at_pc x with DTest _ | DSig | DAdd _ | DSched _ | DRelock _ => true | _ => false end.
Definition entry (t : Z) : wait_queue_t := set_exclusive (DECLARE_WAITQUEUE t).

(** Decrements that [sleepers] does not count yet. *)
Definition pending (c : pc) : Z :=
  match c with
  | DSet _ | DLock _ | TLock => 1
  | TAdd n => Z.max 0 (Z.min 2 n)
  | _ => 0
  end.
Definition weight (p : task thread) : Z := pending (at_pc (here p)).

(** A queued task that sleeps or is about to, and a task that will look at the
    semaphore again or wake another one. *)
Definition waiting (p : task thread) : Prop :=
  match at_pc (here p) with DSched _ | DRelock _ => state p ≠ TASK_RUNNING | _ => False end.
Definition active (p : task thread) : Prop :=
  match at_pc (here p) with
  | Run | DDone _ => False
  | DSched _ | DRelock _ => state p = TASK_RUNNING
  | _ => True
  end.

Definition task_ok (p : task thread) : Prop :=
  match at_pc (here p) with
  | DRelock h => (array p = true ∧ state p = TASK_RUNNING) ∨ (array p = false ∧ state p = sleep_state h)
  | DSched h => array p = true ∧ (state p = TASK_RUNNING ∨ state p = sleep_state h)
  | DSet _ | Run | TLock | TAdd _ | ULock => array p = true ∧ state p = TASK_RUNNING
  | DLock h | DTest h | DAdd h => array p = true ∧ (state p = TASK_RUNNING ∨ state p = sleep_state h)
  | DSig => array p = true
  | Scan _ _ (AfterDown _) | DDone _ => array p = true
  | Scan _ _ _ => array p = true ∧ state p = TASK_RUNNING
  end.

(** A scan with [rest] to go: the others have been woken, or one of them has. *)
Definition scan_ok (rest l : list wait_queue_t) (T : gmap Z (task thread)) : Prop :=
  (∀ e, e ∈ l → e ∈ rest ∨ runs T (wq_task e)) ∨ (∃ e, e ∈ l ∧ runs T (wq_task e)).

(** What the holder of the lock knows. *)
Definition holder_ok (n : Z) (l : list wait_queue_t) (T : gmap Z (task thread)) (c : pc) : Prop :=
  match c with
  | TAdd m => n = 0 ∧ 1 <= m <= 2
  | Scan rest nr _ => n <= 1 ∧ rest `suffix_of` l ∧ (rest = [] ∨ nr = 1) ∧ scan_ok rest l T
  | _ => True
  end.

(** No wake-up is lost: while a task waits, another one is active or there is no unit
    and the counter will show the next one. *)
Definition good (n v : Z) (T : gmap Z (task thread)) : Prop :=
  (∃ t p, T !! t = Some p ∧ waiting p) → (∃ t p, T !! t = Some p ∧ active p) ∨ (n = 1 ∧ v = 0).

Definition MAX_TASKS : Z := 2 ^ 22.

Record inv (val : Z) (c n : Z) (lk : option Z) (l : list wait_queue_t) (T : gmap Z (task thread)) : Prop := {
  i_wq : wq_ok locked queued entry lk l T;
  i_bal : c + n = value val T - msum weight T;
  i_val : 0 <= value val T <= 2 ^ 31 - 1;
  i_size : Z.of_nat (size T) <= MAX_TASKS;
  i_sl : 0 <= n <= 2 ∧ (lk = None → n <= 1);
  i_empty : l = [] → n = 0;
  i_task : ∀ t p, T !! t = Some p → task_ok p;
  i_hold : ∀ t p, T !! t = Some p → locked (here p) = true → holder_ok n l T (at_pc (here p));
  i_good : good n (value val T) T;
}.

Definition sys_inv (val : Z) (s : ksys) : Prop :=
  inv val (count (data s)) (sleepers (data s)) (lock (wait s)) (task_list (wait s)) (tasks s).

Lemma ksem_entry_task t : wq_task (entry t) = t.
Proof. done. Qed.

(** ** Sums *)

Lemma weight_bounds p : 0 <= weight p <= 2.
Proof. unfold weight, pending. destruct (at_pc (here p)); lia. Qed.

Lemma weights_bounds (T : gmap Z (task thread)) : 0 <= msum weight T <= 2 * Z.of_nat (size T).
Proof. apply msum_bounds, weight_bounds. Qed.

Lemma value_replace val T t p p' : T !! t = Some p →
  value val (<[t := p']> T) = value val T + taken p - taken p'.
Proof. intros H. unfold value. rewrite (msum_replace taken T t p p' H). lia. Qed.

Lemma pending_active (T : gmap Z (task thread)) : 0 < msum weight T → ∃ t p, T !! t = Some p ∧ active p.
Proof.
  intros (t & p & Hp & Hw)%msum_pos; [|intros; apply weight_bounds]. exists t, p. split; [done|].
  unfold weight, active in *. by destruct (at_pc (here p)).
Qed.

(** The counter is an int. *)
Lemma count_range val c n lk l T : inv val c n lk l T → - 2 ^ 24 <= c <= 2 ^ 31 - 1.
Proof.
  intros H. pose proof (i_bal _ _ _ _ _ _ H). pose proof (i_val _ _ _ _ _ _ H).
  pose proof (weights_bounds T). pose proof (i_size _ _ _ _ _ _ H). unfold MAX_TASKS in *.
  pose proof (i_sl _ _ _ _ _ _ H). lia.
Qed.

(** ** Waiting tasks *)

Lemma ksem_waiting_queued p : waiting p → queued (here p) = true.
Proof. unfold waiting, queued. by destruct (at_pc (here p)). Qed.

Lemma good_active n v T t p : T !! t = Some p → active p → good n v T.
Proof. intros Ht Ha _. left. by exists t, p. Qed.

Lemma good_keep n v n' v' T t p p' : good n v T → T !! t = Some p →
  ¬ active p → (waiting p' → waiting p) → (n = 1 ∧ v = 0 → n' = 1 ∧ v' = 0) →
  good n' v' (<[t := p']> T).
Proof.
  intros Hg Ht Ha Hw Hv (u & q & Hu & Hq). destruct Hg as [(r & a & Hr & Hac)|E].
  - destruct (decide (u = t)) as [->|Hne].
    + rewrite lookup_insert_eq in Hu. injection Hu as <-. exists t, p. auto.
    + rewrite lookup_insert_ne in Hu by done. by exists u, q.
  - left. exists r, a. split; [|done]. rewrite lookup_insert_ne; [done|]. intros <-. congruence.
  - right. auto.
Qed.

(** ** Steps *)

Lemma scan_mono rest l T T' : (∀ e, e ∈ l → runs T (wq_task e) → runs T' (wq_task e)) →
  scan_ok rest l T → scan_ok rest l T'.
Proof.
  intros H [Ha|(e & He & Hr)]; [left|right].
  - intros e He. destruct (Ha e He); [by left|right; auto].
  - exists e. auto.
Qed.

(** A step of task [t]; the invariant but for what depends on the step. *)
Lemma ksem_inv_step val c n lk l T t p p' c' n' lk' l' :
  inv val c n lk l T → T !! t = Some p →
  lk' = lock_after locked t lk (here p) (here p') →
  (locked (here p') = true → locked (here p) = true ∨ lk = None) →
  queue_after queued entry t (here p) (here p') l l' →
  c' + n' = c + n + taken p - taken p' + weight p - weight p' →
  0 <= value val T + taken p - taken p' <= 2 ^ 31 - 1 →
  0 <= n' <= 2 → (lk' = None → n' <= 1) → (l' = [] → n' = 0) → task_ok p' →
  (locked (here p') = true → holder_ok n' l' (<[t := p']> T) (at_pc (here p'))) →
  (locked (here p) = false → locked (here p') = false →
     n' = n ∧ l' = l ∧ (queued (here p) = true → state p = TASK_RUNNING → state p' = TASK_RUNNING)) →
  good n' (value val T + taken p - taken p') (<[t := p']> T) →
  inv val c' n' lk' l' (<[t := p']> T).
Proof.
  intros H Ht -> Hlk Hq Hb Hv Hn Hnone Hem Hok Hh Ho Hg.
  pose proof (wq_step locked queued entry ksem_entry_task lk l T t p p' l' (i_wq _ _ _ _ _ _ H) Ht Hlk Hq) as Hw.
  split; [done| | | |done|done| | |].
  - rewrite (value_replace _ _ _ _ _ Ht), (msum_replace weight T t p p' Ht).
    pose proof (i_bal _ _ _ _ _ _ H). lia.
  - by rewrite (value_replace _ _ _ _ _ Ht).
  - rewrite (size_replace _ _ _ _ Ht). apply (i_size _ _ _ _ _ _ H).
  - intros u q Hu. destruct (decide (u = t)) as [->|Hne].
    + rewrite lookup_insert_eq in Hu. by injection Hu as <-.
    + rewrite lookup_insert_ne in Hu by done. by apply (i_task _ _ _ _ _ _ H u).
  - intros u q Hu Hlu. destruct (decide (u = t)) as [->|Hne].
    { rewrite lookup_insert_eq in Hu. injection Hu as <-. auto. }
    pose proof (wq_holder _ _ _ _ _ _ Hw u q Hu Hlu) as E. unfold lock_after in E.
    rewrite lookup_insert_ne in Hu by done.
    destruct (locked (here p')) eqn:E'; [congruence|]. destruct (locked (here p)) eqn:E0; [done|].
    destruct (Ho eq_refl eq_refl) as (-> & -> & Hst). pose proof (i_hold _ _ _ _ _ _ H u q Hu Hlu) as Hhold.
    unfold holder_ok in *. destruct (at_pc (here q)); [done..|]. destruct Hhold as (? & ? & ? & Hs). split_and!; [done..|].
    eapply scan_mono; [|exact Hs]. intros e He Hr. destruct (decide (wq_task e = t)) as [Et|Hne'].
    + rewrite Et in *. eapply runs_insert; [exact Ht| |done]. apply Hst.
      destruct (wq_task_in locked queued entry _ _ _ e (i_wq _ _ _ _ _ _ H) He) as (q' & Hq' & ?). congruence.
    + destruct Hr as (q' & Hq' & ?). exists q'. by rewrite lookup_insert_ne.
  - by rewrite (value_replace _ _ _ _ _ Ht).
Qed.

(** A change of a task from outside: its state becomes running, or its signal flag. *)
Lemma ksem_inv_poke val c n lk l T t p st ar sg : inv val c n lk l T → T !! t = Some p →
  let p' := mk_task st ar sg (here p) in
  task_ok p' → (state p = TASK_RUNNING → st = TASK_RUNNING) →
  inv val c n lk l (<[t := p']> T).
Proof.
  intros H Ht p' Hok Hst.
  assert (taken p' = taken p) as Et by done. assert (weight p' = weight p) as Ew by done.
  pose proof (i_val _ _ _ _ _ _ H). pose proof (i_bal _ _ _ _ _ _ H).
  split.
  - eapply wq_same; [apply ksem_entry_task|apply (i_wq _ _ _ _ _ _ H)|exact Ht|done].
  - rewrite (value_replace _ _ _ _ _ Ht), (msum_replace weight T t p p' Ht). lia.
  - rewrite (value_replace _ _ _ _ _ Ht). lia.
  - rewrite (size_replace _ _ _ _ Ht). apply (i_size _ _ _ _ _ _ H).
  - apply (i_sl _ _ _ _ _ _ H).
  - apply (i_empty _ _ _ _ _ _ H).
  - intros u q Hu. destruct (decide (u = t)) as [->|Hne].
    + rewrite lookup_insert_eq in Hu. by injection Hu as <-.
    + rewrite lookup_insert_ne in Hu by done. by apply (i_task _ _ _ _ _ _ H u).
  - intros u q Hu Hlu. assert (holder_ok n l T (at_pc (here q))) as Hhold.
    { destruct (decide (u = t)) as [->|Hne].
      + rewrite lookup_insert_eq in Hu. injection Hu as <-. by apply (i_hold _ _ _ _ _ _ H t p).
      + rewrite lookup_insert_ne in Hu by done. by apply (i_hold _ _ _ _ _ _ H u). }
    unfold holder_ok in *. destruct (at_pc (here q)); [done..|]. destruct Hhold as (? & ? & ? & Hs). split_and!; [done..|].
    eapply scan_mono; [|exact Hs]. intros e He Hr. by eapply runs_insert.
  - rewrite (value_replace _ _ _ _ _ Ht), Et. replace (value val T + taken p - taken p) with (value val T) by lia.
    intros (u & q & Hu & Hq). assert (∃ t0 p0, T !! t0 = Some p0 ∧ waiting p0) as Hw.
    { destruct (decide (u = t)) as [->|Hne].
      - rewrite lookup_insert_eq in Hu. injection Hu as <-. exists t, p. split; [done|].
        unfold waiting in *. cbn [here p' state] in Hq. destruct (at_pc (here p)); try done; intros E; apply Hq; auto.
      - rewrite lookup_insert_ne in Hu by done. by exists u, q. }
    destruct (i_good _ _ _ _ _ _ H Hw) as [(r & a & Hr & Ha)|E]; [left|by right].
    destruct (decide (r = t)) as [->|Hne].
    + exists t, p'. rewrite lookup_insert_eq. split; [done|]. assert (a = p) as -> by congruence.
      unfold active in *. cbn [here p' state]. destruct (at_pc (here p)); try done; auto.
    + exists r, a. by rewrite lookup_insert_ne.
Qed.

End KsemFacts.
