(* ===== verification/KsemSteps.v ===== *)
(** * Kernel semaphores: every step keeps the invariant *)

From stdpp Require Import prelude numbers list gmap.
From Stdlib Require Import ZArith Lia.
From S2P Require Import Prelude Waitq Ksem KsemFacts.

#[local] Set Default Goal Selector "!".
#[local] Open Scope Z_scope.

Module KsemSteps.
Import Waitq Ksem KsemFacts.

Ltac wrun := wrun_with ltac:(cbn [count sleepers got at_pc]).

Definition ksem (c n : Z) (lk : option Z) (l : list wait_queue_t) (T : gmap Z (task thread)) : ksys :=
  mk_sys (mk_sem c n) (mk_head lk l) T.

Ltac kunfold :=
  unfold scan; unfold ksem, go, ret_down, goto, set_current_state, signal_pending, schedule,
    add_wait_queue_exclusive_locked, remove_wait_queue_locked, atomic_add, atomic_add_negative;
  unfold get_count, set_count, get_sleepers, set_sleepers, __remove_wait_queue, __add_wait_queue_tail;
  unfold put_task, get_data, put_data, spin_unlock, set_list; cbv zeta.

(** The conditions of [ksem_inv_step] that hold by computation. *)
Ltac istep_with H Ht :=
  unfold sys_inv; cbn [data wait tasks count sleepers lock task_list];
  eapply ksem_inv_step; [exact H|exact Ht|..];
  [ try done | try (cbn; intros; solve [auto | done]) | try (by apply queue_same)
  | unfold taken, weight; cbn; change (- EINTR =? 0) with false; cbn iota; try lia
  | unfold taken, weight; cbn; change (- EINTR =? 0) with false; cbn iota; try lia | try lia
  | try (cbn; intros; solve [done | lia | intuition lia])
  | try solve [done | exact (i_empty _ _ _ _ _ _ H)]
  | cbn; try solve [done | auto | intuition done] | try (cbn; done) | try (cbn; intros; solve [done | auto | split_and!; auto]) | ].

Definition keeps (val : Z) (m : SM ksys unit) (s : ksys) : Prop :=
  wp m (λ _ s', sys_inv val s') (λ _ _, False) s.

Section steps.
Context (val c n : Z) (lk : option Z) (l : list wait_queue_t) (T : gmap Z (task thread)) (t : Z).
Hypothesis H : inv val c n lk l T.

Abbreviation s := (ksem c n lk l T).

Ltac istep := lazymatch goal with Ht : T !! t = Some _ |- _ => istep_with H Ht end.

Lemma count_id x : c - 1 <= x <= 2 ^ 31 - 1 → sgn32 x = x.
Proof. intros Hx. apply sgn32_id. pose proof (count_range _ _ _ _ _ _ H). lia. Qed.

Lemma value_eq : value val T = c + n + msum weight T.
Proof. pose proof (i_bal _ _ _ _ _ _ H). lia. Qed.

Lemma facts : - 2 ^ 24 <= c <= 2 ^ 31 - 1 ∧ 0 <= n <= 2 ∧ (lk = None → n <= 1) ∧
  value val T = c + n + msum weight T ∧ 0 <= value val T <= 2 ^ 31 - 1 ∧ 0 <= msum weight T.
Proof.
  pose proof (count_range _ _ _ _ _ _ H). pose proof (i_sl _ _ _ _ _ _ H) as [? ?].
  pose proof value_eq. pose proof (i_val _ _ _ _ _ _ H). pose proof (weights_bounds T). split_and!; (done || lia).
Qed.

Lemma ksem_held p : T !! t = Some p → locked (here p) = true → lk = Some t.
Proof. apply (wq_holder _ _ _ _ _ _ (i_wq _ _ _ _ _ _ H)). Qed.

Lemma ksem_at_queue p : T !! t = Some p → queued (here p) = true → queued_in t l = true.
Proof.
  intros Ht Hq. apply bool_decide_eq_true, (wq_in _ _ _ _ _ _ (i_wq _ _ _ _ _ _ H)). by exists p.
Qed.

Lemma good_here n' v' p' : active p' → good n' v' (<[t := p']> T).
Proof. intros Ha. eapply good_active; [apply lookup_insert_eq|done]. Qed.

Ltac at_pc_is p Hpc Ht :=
  let st := fresh "st" in let ar := fresh "ar" in let sg := fresh "sg" in let g := fresh "g" in let k := fresh "k" in
  destruct p as [st ar sg [k g]]; cbn in Hpc; subst k;
  pose proof (i_task _ _ _ _ _ _ H t _ Ht) as Hok; cbn in Hok; pose proof facts as (Hc & Hn & Hn1 & Hv & Hv0 & Hw).

(** ** Fast paths *)

Lemma dec_keeps x p : (x = TLock ∨ ∃ h, x = DSet h) → T !! t = Some p → at_pc (here p) = Run →
  keeps val (neg ← atomic_add_negative (-1); if neg : bool then go t x else ret_down t 0) s.
Proof.
  intros Hx Ht Hpc. at_pc_is p Hpc Ht. unfold keeps. kunfold. wrun.
  rewrite (count_id (c + -1)) by lia. destruct (Z.ltb_spec (c + -1) 0); wrun.
  - destruct Hx as [->|[h ->]]; istep; by apply good_here.
  - istep. eapply good_keep; [apply (i_good _ _ _ _ _ _ H)|exact Ht|by intros []|by intros []|].
    unfold taken; cbn. intros [-> ?]. lia.
Qed.

Lemma down_keeps h p : T !! t = Some p → at_pc (here p) = Run → keeps val (down t h) s.
Proof. apply dec_keeps. eauto. Qed.
Lemma down_trylock_keeps p : T !! t = Some p → at_pc (here p) = Run → keeps val (down_trylock t) s.
Proof. apply dec_keeps. auto. Qed.

Lemma up_keeps p : T !! t = Some p → at_pc (here p) = Run → value val T < 2 ^ 31 - 1 → keeps val (up t) s.
Proof.
  intros Ht Hpc Hlt. at_pc_is p Hpc Ht. unfold keeps, up. kunfold. wrun.
  rewrite (count_id (c + 1)) by lia. destruct (Z.leb_spec (c + 1) 0).
  - istep. by apply good_here.
  - istep. eapply good_keep; [apply (i_good _ _ _ _ _ _ H)|exact Ht|by intros []|by intros []|].
    unfold taken; cbn. intros [-> ?]. lia.
Qed.

(** ** Registering, testing, waiting *)

Lemma set_keeps h p : T !! t = Some p → at_pc (here p) = DSet h → keeps val (continue t (DSet h)) s.
Proof.
  intros Ht Hpc. at_pc_is p Hpc Ht. unfold keeps, continue. kunfold. wrun. istep. by apply good_here.
Qed.

Lemma ksem_enter_keeps h p : T !! t = Some p → at_pc (here p) = DLock h → lk = None →
  keeps val (continue t (DLock h)) s.
Proof.
  intros Ht Hpc Hlk. at_pc_is p Hpc Ht. unfold keeps, continue, down_enter. kunfold. wrun.
  specialize (Hn1 Hlk). rewrite (sgn32_id (n + 1)) by lia. istep; [by apply queue_append|by intros [_ ?]%app_eq_nil|by apply good_here].
Qed.

Lemma ksem_test_keeps h p : T !! t = Some p → at_pc (here p) = DTest h → keeps val (continue t (DTest h)) s.
Proof.
  intros Ht Hpc. at_pc_is p Hpc Ht. pose proof (ksem_held _ Ht eq_refl) as Hl. unfold keeps, continue, down_test. kunfold.
  destruct h; [|wrun; destruct sg]; wrun; istep; by apply good_here.
Qed.

Lemma scan_all l' T' : scan_ok l' l' T'.
Proof. left. auto. Qed.

Lemma ksem_sig_keeps p : T !! t = Some p → at_pc (here p) = DSig → keeps val (continue t DSig) s.
Proof.
  intros Ht Hpc. at_pc_is p Hpc Ht. pose proof (ksem_held _ Ht eq_refl) as Hl. unfold keeps, continue, down_interrupted. kunfold.
  wrun. rewrite (ksem_at_queue _ Ht eq_refl). wrun. rewrite (count_id (c + n)) by lia. istep.
  - by apply queue_remove.
  - intros _. split_and!; [lia|by exists []|by right|apply scan_all].
  - by apply good_here.
Qed.

Lemma add_keeps h p : T !! t = Some p → at_pc (here p) = DAdd h → keeps val (continue t (DAdd h)) s.
Proof.
  intros Ht Hpc. at_pc_is p Hpc Ht. pose proof (ksem_held _ Ht eq_refl) as Hl. unfold keeps, continue, down_try. kunfold.
  wrun. rewrite (sgn32_id (n - 1)) by lia. rewrite (count_id (c + (n - 1))) by lia.
  destruct (Z.ltb_spec (c + (n - 1)) 0); cbn [negb]; wrun.
  - istep; [intros E; pose proof (ksem_at_queue _ Ht eq_refl) as Hin; by rewrite E in Hin|].
    unfold taken; cbn. intros _. destruct (decide (0 < msum weight T)) as [Hp|Hp]; [left|right; lia].
    apply pending_active. rewrite (msum_replace weight T t _ _ Ht). unfold weight at 2 3; cbn. lia.
  - rewrite (ksem_at_queue _ Ht eq_refl). wrun. istep.
    + by apply queue_remove.
    + intros _. split_and!; [lia|by exists []|by right|apply scan_all].
    + by apply good_here.
Qed.

Lemma ksem_sched_keeps h p : T !! t = Some p → at_pc (here p) = DSched h → keeps val (continue t (DSched h)) s.
Proof.
  intros Ht Hpc. at_pc_is p Hpc Ht. unfold keeps, continue. kunfold. wrun. rewrite sched_here. cbn [here got].
  destruct Hok as [-> Hst]. unfold sched_out. cbn [state array sigpending here].
  destruct (Z.eqb_spec st TASK_RUNNING) as [->|Hne]; cbn [state array sigpending].
  { istep. by apply good_here. }
  destruct Hst as [?| ->]; [done|].
  destruct (negb (Z.land (sleep_state h) TASK_INTERRUPTIBLE =? 0) && sg); cbn [state array sigpending].
  - istep. by apply good_here.
  - istep. unfold taken; cbn. replace (value val T + (g + 0) - (g + 0)) with (value val T) by lia.
    eapply good_keep; [apply (i_good _ _ _ _ _ _ H)|exact Ht|by intros ?|done|done].
Qed.

Lemma ksem_relock_keeps h p : T !! t = Some p → at_pc (here p) = DRelock h → lk = None → array p = true →
  keeps val (continue t (DRelock h)) s.
Proof.
  intros Ht Hpc Hlk Har. at_pc_is p Hpc Ht. cbn in Har. subst ar. unfold keeps, continue, down_relock. kunfold. wrun.
  istep. by apply good_here.
Qed.

Lemma done_keeps r p : T !! t = Some p → at_pc (here p) = DDone r → keeps val (continue t (DDone r)) s.
Proof.
  intros Ht Hpc. at_pc_is p Hpc Ht. unfold keeps, continue. kunfold. wrun. istep.
  eapply good_keep; [apply (i_good _ _ _ _ _ _ H)|exact Ht|by intros []|by intros []|]. unfold taken; cbn. lia.
Qed.

(** ** Trylock and up *)

Lemma tlock_keeps p : T !! t = Some p → at_pc (here p) = TLock → lk = None → keeps val (continue t TLock) s.
Proof.
  intros Ht Hpc Hlk. at_pc_is p Hpc Ht. specialize (Hn1 Hlk). unfold keeps, continue, trylock_enter. kunfold. wrun.
  rewrite (sgn32_id (n + 1)) by lia. istep; [|by apply good_here]. intros _. cbn. lia.
Qed.

Lemma tadd_keeps m p : T !! t = Some p → at_pc (here p) = TAdd m → keeps val (continue t (TAdd m)) s.
Proof.
  intros Ht Hpc. at_pc_is p Hpc Ht. pose proof (ksem_held _ Ht eq_refl) as Hl.
  destruct (i_hold _ _ _ _ _ _ H t _ Ht eq_refl) as [Hn0 Hm]. unfold keeps, continue, trylock_add. kunfold.
  assert (m <= msum weight T) as Hge.
  { pose proof (msum_ge weight T t _ (λ y, proj1 (weight_bounds y)) Ht) as Hge. unfold weight at 1 in Hge; cbn in Hge. lia. }
  wrun. rewrite (count_id (c + m)) by lia. destruct (Z.ltb_spec (c + m) 0); cbn [negb]; wrun.
  - istep. unfold taken; cbn. intros _. left. apply pending_active.
    rewrite (msum_replace weight T t _ _ Ht). unfold weight at 2 3; cbn. lia.
  - istep; [|by apply good_here]. intros _. split_and!; [lia|by exists []|by right|apply scan_all].
Qed.

Lemma ulock_keeps p : T !! t = Some p → at_pc (here p) = ULock → lk = None → keeps val (continue t ULock) s.
Proof.
  intros Ht Hpc Hlk. at_pc_is p Hpc Ht. unfold keeps, continue. kunfold. wrun. istep; [|by apply good_here].
  intros _. split_and!; [auto|by exists []|by right|apply scan_all].
Qed.

(** ** The scan *)

(** A task in the queue, while another one scans it, waits or will look again. *)
Lemma queue_tasks u q : lk = Some t → u ≠ t → T !! u = Some q → queued (here q) = true →
  waiting q ∨ (active q ∧ state q = TASK_RUNNING).
Proof.
  intros Hl Hu Hq Hqq. destruct (locked (here q)) eqn:E.
  { pose proof (wq_holder _ _ _ _ _ _ (i_wq _ _ _ _ _ _ H) u q Hq E). congruence. }
  unfold locked, queued, waiting, active in *. destruct (at_pc (here q)); try done;
    (destruct (decide (state q = TASK_RUNNING)); [by right|by left]).
Qed.

(** After a scan. *)
Lemma good_scanned n' v' p p' : lk = Some t → T !! t = Some p → queued (here p) = false → ¬ waiting p' →
  scan_ok [] l T → good n' v' (<[t := p']> T).
Proof.
  intros Hl Ht Hq Hw Hs (u & q & Hu & Hwq). destruct (decide (u = t)) as [->|Hne].
  { rewrite lookup_insert_eq in Hu. by injection Hu as <-. }
  rewrite lookup_insert_ne in Hu by done.
  assert (∃ e, e ∈ l ∧ runs T (wq_task e)) as (e & He & r & Hr & Hrun).
  { destruct Hs as [Hs|?]; [|done]. pose proof (proj2 (wq_in _ _ _ _ _ _ (i_wq _ _ _ _ _ _ H) u)) as Hin.
    apply list_elem_of_fmap in Hin as (e & -> & He); [|exists q; split; [done|by apply ksem_waiting_queued]].
    exists e. split; [done|]. by destruct (Hs e He) as [[]%not_elem_of_nil|?]. }
  left. destruct (wq_task_in _ _ _ _ _ _ e (i_wq _ _ _ _ _ _ H) He) as (r' & Hr' & Hqr).
  assert (r' = r) as -> by congruence. assert (wq_task e ≠ t) as Hne' by (intros E; congruence).
  exists (wq_task e), r. rewrite lookup_insert_ne by done. split; [done|].
  destruct (queue_tasks _ _ Hl Hne' Hr Hqr) as [Hwr|[? _]]; [|done].
  unfold waiting in Hwr. by destruct (at_pc (here r)).
Qed.

Lemma ksem_scan_end_keeps nr k p : T !! t = Some p → at_pc (here p) = Scan [] nr k →
  keeps val (continue t (Scan [] nr k)) s.
Proof.
  intros Ht Hpc. at_pc_is p Hpc Ht. pose proof (ksem_held _ Ht eq_refl) as Hl.
  destruct (i_hold _ _ _ _ _ _ H t _ Ht eq_refl) as (Hn1' & _ & _ & Hs). unfold keeps, continue, scan_done. kunfold.
  destruct k; wrun; istep; (eapply good_scanned; [done|exact Ht|done|by intros []|done]).
Qed.

Lemma ksem_wake_task_ok mode p : task_ok p → task_ok (try_to_wake_up mode p).2.
Proof.
  unfold try_to_wake_up. case_zb; [done|]. unfold task_ok. cbn. destruct (at_pc (here p)); intuition.
  by destruct k; intuition.
Qed.

Lemma ksem_wake_keeps mode u q : T !! u = Some q → inv val c n lk l (<[u := (try_to_wake_up mode q).2]> T).
Proof.
  intros Hu. pose proof (ksem_wake_task_ok mode q (i_task _ _ _ _ _ _ H u q Hu)) as Hok.
  pose proof (wake_running mode q) as Hr. pose proof (wake_here mode q) as Eh.
  destruct (try_to_wake_up mode q).2 as [st ar sg x]. cbn in *. subst x. by apply ksem_inv_poke.
Qed.

End steps.

Lemma ksem_normal_mode h : (Z.land (sleep_state h) TASK_NORMAL =? 0) = false.
Proof. by destruct h. Qed.

(** The task of the entry runs after its wake-up, whether or not it slept. *)
Lemma ksem_wake_runs q : task_ok q → queued (here q) = true → locked (here q) = false →
  state (try_to_wake_up TASK_NORMAL q).2 = TASK_RUNNING.
Proof.
  intros Hok Hq Hl. unfold try_to_wake_up. destruct (Z.eqb_spec (Z.land (state q) TASK_NORMAL) 0) as [E|E]; [|done]. cbn.
  assert (state q = TASK_RUNNING ∨ ∃ h, state q = sleep_state h) as [?|[h Eh]]; [|done|].
  - unfold queued, locked, task_ok in *. destruct (at_pc (here q)); try done; intuition eauto.
  - rewrite Eh in E. pose proof (ksem_normal_mode h) as Hm. apply Z.eqb_neq in Hm. done.
Qed.

Lemma ksem_scan_keeps val c n lk l T t e rest nr k p : inv val c n lk l T →
  T !! t = Some p → at_pc (here p) = Scan (e :: rest) nr k →
  keeps val (continue t (Scan (e :: rest) nr k)) (ksem c n lk l T).
Proof.
  intros H Ht Hpc. destruct p as [st ar sg [x g]]. cbn in Hpc. subst x.
  pose proof (ksem_held _ _ _ _ _ _ _ H _ Ht eq_refl) as Hl. pose proof (i_task _ _ _ _ _ _ H t _ Ht) as Hokt.
  destruct (i_hold _ _ _ _ _ _ H t _ Ht eq_refl) as (Hn1 & Hsuf & Hnr & Hs). destruct Hnr as [?|Hnr]; [done|].
  pose proof (λ x, elem_of_suffix x _ _ Hsuf) as Hsub.
  pose proof (Hsub e ltac:(by left)) as He. pose proof (wq_entry _ _ _ _ _ _ (i_wq _ _ _ _ _ _ H) e He) as Ee.
  destruct (wq_task_in _ _ _ _ _ _ e (i_wq _ _ _ _ _ _ H) He) as (q & Hq & Hqq).
  assert (wq_task e ≠ t) as Hne by (intros E; rewrite E, Ht in Hq; by injection Hq as <-).
  assert (locked (here q) = false) as Hlq.
  { destruct (locked (here q)) eqn:E; [|done]. pose proof (ksem_held _ _ _ _ _ _ _ H _ Hq E). congruence. }
  pose proof (ksem_wake_runs q (i_task _ _ _ _ _ _ H _ _ Hq) Hqq Hlq) as Hrun.
  pose proof (ksem_wake_keeps _ _ _ _ _ _ H TASK_NORMAL _ _ Hq) as H1.
  set (q' := (try_to_wake_up TASK_NORMAL q).2) in *. set (T1 := <[wq_task e := q']> T) in *.
  assert (T1 !! t = Some (mk_task st ar sg (mk_thread (Scan (e :: rest) nr k) g))) as Ht1 by (unfold T1; by rewrite lookup_insert_ne).
  assert (runs T1 (wq_task e)) as Hre by (exists q'; unfold T1; by rewrite lookup_insert_eq).
  assert (∀ rest' nr', rest' `suffix_of` l → (rest' = [] ∨ nr' = 1) → scan_ok rest' l T1 →
    inv val c n lk l (<[t := mk_task st ar sg (mk_thread (Scan rest' nr' k) g)]> T1)) as Hgo.
  { intros rest' nr' Hr1 Hr2 Hr3. eapply (ksem_inv_step _ c n lk l T1 t _ _ c n lk l H1 Ht1); cbn; try done.
    - by left.
    - by apply queue_same.
    - unfold taken, weight; cbn. lia.
    - unfold taken; cbn. pose proof (i_val _ _ _ _ _ _ H1). lia.
    - apply (i_sl _ _ _ _ _ _ H).
    - apply (i_empty _ _ _ _ _ _ H).
    - intros _. split_and!; [done..|]. eapply scan_mono; [|exact Hr3]. intros x _ Hx. by eapply runs_insert.
    - eapply good_active; [apply lookup_insert_eq|done]. }
  assert (scan_ok rest l T1) as Hs1.
  { assert (∀ x, runs T (wq_task x) → runs T1 (wq_task x)) as Hmono.
    { intros x Hx. eapply runs_insert; [exact Hq| |exact Hx]. done. }
    destruct Hs as [Hs|(x & Hx & Hr)]; [left|right; eauto].
    intros x Hx. destruct (Hs x Hx) as [[->|?]%elem_of_cons|?]; auto. }
  unfold keeps, continue, wake_one, wake_task, after_wake. kunfold. wrun.
  destruct (try_to_wake_up TASK_NORMAL q) as [b q0] eqn:Eq. cbn in q'. subst q'. rewrite Ee. cbn [wq_func entry set_exclusive DECLARE_WAITQUEUE wq_task wq_flags].
  wrun. change (Z.land _ WQ_FLAG_EXCLUSIVE =? 0) with false. cbn [negb fst snd]. rewrite andb_true_r.
  destruct b; cbn [fst snd andb]; cbv beta iota zeta; wrun; unfold sys_inv; cbn.
  - subst nr. apply Hgo; [apply suffix_nil|by left|]. right. by exists e.
  - apply Hgo; [by eapply suffix_cons_l|by right|done].
Qed.

End KsemSteps.
