(* ===== verification/KsemSettle.v ===== *)
(** * Kernel semaphores: the code comes to rest

    Without new calls, signals and other wake-ups, the tasks inside the semaphore code
    stop after a bounded number of steps: every one has left or sleeps.  The measure
    counts what a task has to do before it sleeps or leaves; a task that has not left
    yet owns the cost of one scan of the queue besides. *)

From stdpp Require Import prelude numbers list gmap.
From Stdlib Require Import ZArith Lia.
From S2P Require Import Prelude Waitq Ksem KsemFacts KsemSteps.

#[local] Set Default Goal Selector "!".
#[local] Open Scope Z_scope.

Module KsemSettle.
Import Waitq Ksem KsemFacts KsemSteps.

(** The task will not sleep at its next [schedule]. *)
Definition alert (h : how) (p : task thread) : bool :=
  (state p =? TASK_RUNNING) || match h with Intr => sigpending p | Down => false end.
Definition signalled (h : how) (p : task thread) : bool :=
  match h with Intr => sigpending p | Down => false end.

(** Steps to go; [N] bounds the length of the queue. *)
Definition cost (N : Z) (p : task thread) : Z :=
  let b := 5 * N + 3 in
  match at_pc (here p) with
  | Run => 0
  | DSet _ => b + 9
  | DLock _ => b + 8
  | DTest h => b + if signalled h p then 3 else if state p =? TASK_RUNNING then 7 else 3
  | DSig => b + 2
  | DAdd h => b + if alert h p then 6 else 2
  | DSched h => b + if alert h p then 5 else 1
  | DRelock _ => b + if array p then 4 else 0
  | DDone _ => 1
  | TLock => b + 2
  | TAdd _ => b + 1
  | ULock => b
  | Scan rest _ _ => 5 * Z.of_nat (length rest) + 2
  end.
Definition measure (T : gmap Z (task thread)) : Z := msum (cost (Z.of_nat (size T))) T.

Definition lowers (m : SM ksys unit) (s : ksys) : Prop :=
  wp m (λ _ s', size (tasks s') = size (tasks s) ∧ measure (tasks s') < measure (tasks s)) (λ _ _, False) s.

Lemma cost_nonneg N p : 0 <= N → 0 <= cost N p.
Proof. intros HN. unfold cost. destruct (at_pc (here p)); repeat case_match; lia. Qed.

Lemma sched_out_sleep h sg g : let p := mk_task (sleep_state h) true sg g in
  sched_out p = if signalled h p then mk_task TASK_RUNNING true sg g else mk_task (sleep_state h) false sg g.
Proof. by destruct h, sg. Qed.

Section settle.
Context (val c n : Z) (lk : option Z) (l : list wait_queue_t) (T : gmap Z (task thread)) (t : Z).
Hypothesis H : inv val c n lk l T.

Abbreviation s := (ksem c n lk l T).
Abbreviation N := (Z.of_nat (size T)).

Lemma queue_short : Z.of_nat (length l) <= N.
Proof. pose proof (wq_short _ _ _ _ _ _ (i_wq _ _ _ _ _ _ H)). lia. Qed.

Lemma measure_step p p' : T !! t = Some p → cost N p' < cost N p →
  size (<[t := p']> T) = size T ∧ measure (<[t := p']> T) < measure T.
Proof.
  intros Ht Hc. pose proof (size_replace T t p p' Ht) as Es. split; [done|]. unfold measure.
  rewrite Es, (msum_replace _ T t p p' Ht). lia.
Qed.

Ltac mstep := cbn [tasks]; lazymatch goal with Ht : T !! t = Some _ |- _ => eapply measure_step; [exact Ht|] end;
  unfold cost; cbn [at_pc here state array sigpending].

Lemma unqueue_short : Z.of_nat (length (unqueue t l)) <= N.
Proof.
  pose proof queue_short. unfold unqueue. pose proof (length_filter (λ e, wq_task e ≠ t) l). lia.
Qed.

Lemma next_lowers p : T !! t = Some p → at_pc (here p) ≠ Run → array p = true →
  (takes_lock (at_pc (here p)) = true → lk = None) →
  (∀ e rest nr k, at_pc (here p) ≠ Scan (e :: rest) nr k) → lowers (continue t (at_pc (here p))) s.
Proof.
  intros Ht Hrun Har Hlk Hscan. pose proof queue_short as Hq. pose proof unqueue_short as Hu. unfold lowers.
  destruct p as [st ar sg [k g]]. cbn in *. subst ar. pose proof (i_task _ _ _ _ _ _ H t _ Ht) as Hok.
  pose proof (ksem_at_queue _ _ _ _ _ _ _ H _ Ht) as Hin.
  destruct k; cbn in Hok, Hlk; try specialize (Hlk eq_refl); unfold continue, down_enter, down_test, down_interrupted,
    down_try, down_relock, trylock_enter, trylock_add, scan_done; kunfold; try done.
  - wrun. mstep. lia.
  - wrun. mstep. repeat case_match; lia.
  - destruct h; [|wrun; destruct sg]; wrun; mstep; unfold signalled, alert; cbn [state sigpending]; destruct (st =? TASK_RUNNING); cbn; lia.
  - specialize (Hin eq_refl). wrun. rewrite Hin. wrun. mstep. lia.
  - specialize (Hin eq_refl). wrun. destruct (_ <? 0); cbn [negb]; wrun.
    + mstep. unfold alert; cbn [state sigpending]. destruct (_ || _); lia.
    + rewrite Hin. wrun. mstep. repeat case_match; lia.
  - wrun. rewrite sched_here. mstep. destruct Hok as [_ [->| ->]]; [cbn; lia|].
    rewrite sched_out_sleep. destruct h, sg; cbn; lia.
  - destruct Hok as [[_ ->]|[? _]]; [|done]. wrun. mstep. unfold signalled; cbn [state sigpending].
    destruct h, sg; cbn; lia.
  - wrun. mstep. lia.
  - wrun. mstep. lia.
  - wrun. destruct (_ <? 0); cbn [negb]; wrun; mstep; lia.
  - wrun. mstep. lia.
  - destruct rest as [|e rest]; [|by destruct (Hscan e rest nr k)]. destruct k; wrun; mstep; cbn; lia.
Qed.

End settle.

Lemma cost_scan N st ar sg rest nr k g :
  cost N (mk_task st ar sg (mk_thread (Scan rest nr k) g)) = 5 * Z.of_nat (length rest) + 2.
Proof. done. Qed.

Lemma wake_cost N q : queued (here q) = true → locked (here q) = false →
  cost N (try_to_wake_up TASK_NORMAL q).2 <= cost N q + 4.
Proof.
  intros Hq Hl. unfold try_to_wake_up. case_zb; cbn [snd]; [lia|]. unfold cost, queued, locked in *. cbn.
  destruct (at_pc (here q)); try done; repeat case_match; lia.
Qed.

Lemma scan_lowers val c n lk l T t e rest nr k p : inv val c n lk l T →
  T !! t = Some p → at_pc (here p) = Scan (e :: rest) nr k → lowers (continue t (Scan (e :: rest) nr k)) (ksem c n lk l T).
Proof.
  intros H Ht Hpc. destruct p as [st ar sg [x g]]. cbn in Hpc. subst x.
  destruct (i_hold _ _ _ _ _ _ H t _ Ht eq_refl) as (_ & Hsuf & _ & _).
  pose proof (elem_of_suffix e _ _ Hsuf ltac:(by left)) as He.
  pose proof (wq_entry _ _ _ _ _ _ (i_wq _ _ _ _ _ _ H) e He) as Ee.
  destruct (wq_task_in _ _ _ _ _ _ e (i_wq _ _ _ _ _ _ H) He) as (q & Hq & Hqq).
  assert (wq_task e ≠ t) as Hne by (intros E; rewrite E, Ht in Hq; by injection Hq as <-).
  assert (locked (here q) = false) as Hlq.
  { destruct (locked (here q)) eqn:E; [|done]. pose proof (ksem_held _ _ _ _ _ _ _ H _ Hq E).
    pose proof (ksem_held _ _ _ _ _ _ _ H _ Ht eq_refl). congruence. }
  pose proof (wake_cost (Z.of_nat (size T)) q Hqq Hlq) as Hw.
  unfold lowers, continue, wake_one, wake_task, after_wake. kunfold. wrun.
  destruct (try_to_wake_up TASK_NORMAL q) as [b q0]. rewrite Ee in Hne, Hq |- *. cbn in Hne, Hq.
  cbn [wq_func entry set_exclusive DECLARE_WAITQUEUE wq_task wq_flags].
  assert (<[wq_task e := q0]> T !! t = Some (mk_task st ar sg (mk_thread (Scan (e :: rest) nr k) g))) as Ht1
    by (by rewrite lookup_insert_ne).
  wrun. change (Z.land _ WQ_FLAG_EXCLUSIVE =? 0) with false. cbn [negb fst snd]. rewrite andb_true_r.
  assert (∀ rest' nr', (length rest' <= length rest)%nat →
    let T' := <[t := mk_task st ar sg (mk_thread (Scan rest' nr' k) g)]> (<[wq_task e := q0]> T) in
    size T' = size T ∧ measure T' < measure T) as Hgo.
  { intros rest' nr' Hr T'. assert (size T' = size T) as Es.
    { unfold T'. erewrite size_replace by exact Ht1. by eapply size_replace. }
    split; [done|]. unfold measure. rewrite Es. unfold T'. rewrite (msum_replace _ _ _ _ _ Ht1), (msum_replace _ _ _ _ _ Hq).
    cbn [snd] in Hw. rewrite !cost_scan. cbn [length]. lia. }
  destruct b; cbn [fst snd andb]; cbv beta iota zeta; wrun; apply Hgo; cbn [length]; [destruct (_ =? 0); cbn; lia|lia].
Qed.

End KsemSettle.
