(* ===== verification/KsemTheorems.v ===== *)
(** * Kernel semaphores: exclusion, no lost wake-up, rest *)

From stdpp Require Import prelude numbers list gmap.
From Stdlib Require Import ZArith Lia.
From S2P Require Import Prelude Waitq Ksem KsemFacts KsemSteps KsemSettle.

#[local] Set Default Goal Selector "!".
#[local] Open Scope Z_scope.

Module KsemTheorems.
Import Waitq Ksem KsemFacts KsemSteps KsemSettle.

(** ** Histories *)

Lemma ksem_next_inv val t s : enabled val (Next t) s = true → ∃ p, tasks s !! t = Some p ∧
  at_pc (here p) ≠ Run ∧ array p = true ∧ (takes_lock (at_pc (here p)) = true → lock (wait s) = None).
Proof.
  cbn. destruct (tasks s !! t) as [[st ar sg [k g]]|] eqn:Ht; [|done]. intros E.
  exists (mk_task st ar sg (mk_thread k g)). split; [done|].
  destruct k; try done; cbn in E |- *; apply andb_true_iff in E as [-> E]; split_and!; try done;
    intros _; by apply bool_decide_eq_true in E.
Qed.

Lemma ksem_next_keeps val t s : sys_inv val s → enabled val (Next t) s = true → keeps val (exec (Next t)) s.
Proof.
  intros H (p & Ht & Hrun & Har & Hlk)%ksem_next_inv. destruct s as [[c n] [lk l] T]. unfold sys_inv in H. cbn in *.
  unfold keeps. apply wp_bind. eapply wp_get_wtask; [exact Ht|].
  change (keeps val (continue t (at_pc (here p))) (ksem c n lk l T)). destruct (at_pc (here p)) eqn:E; [done|..].
  all: cbn in Hlk; try specialize (Hlk eq_refl).
  12: destruct rest.
  all: solve [eauto using set_keeps, ksem_enter_keeps, ksem_test_keeps, ksem_sig_keeps, add_keeps, ksem_sched_keeps, ksem_relock_keeps,
    done_keeps, tlock_keeps, tadd_keeps, ulock_keeps, ksem_scan_end_keeps, ksem_scan_keeps].
Qed.

Lemma call_keeps val t c s : sys_inv val s → enabled val (Call t c) s = true → keeps val (exec (Call t c)) s.
Proof.
  intros H E. destruct s as [[k n] [lk l] T]. unfold sys_inv in H. cbn in *.
  destruct (T !! t) as [[st ar sg [[] g]]|] eqn:Ht; try done.
  destruct c; cbn; [by eapply down_keeps..|by eapply down_trylock_keeps|].
  apply Z.ltb_lt in E. by eapply up_keeps.
Qed.

Lemma ksem_exec_keeps val l s : sys_inv val s → enabled val l s = true → keeps val (exec l) s.
Proof.
  intros H E. destruct l as [t c|t|t mode|t b]; [by apply call_keeps|by apply ksem_next_keeps|..].
  - apply bool_decide_eq_true in E as [p Ht]. unfold keeps, exec. apply wp_bind.
    eapply wp_get_wtask; [exact Ht|]. apply wp_modify. by apply ksem_wake_keeps.
  - cbn in E. destruct (tasks s !! t) as [p|] eqn:Ht; [|done]. unfold keeps, exec. apply wp_bind.
    eapply wp_get_wtask; [exact Ht|]. apply wp_modify. eapply ksem_inv_poke; [exact H|exact Ht| |done].
    apply (i_task _ _ _ _ _ _ H t p Ht).
Qed.

Lemma ksem_boot_inv val ts : 0 <= val <= 2 ^ 31 - 1 → Z.of_nat (size ts) <= MAX_TASKS → sys_inv val (boot val ts).
Proof.
  intros Hv Hs. assert (∀ t p, gset_to_gmap idle ts !! t = Some p → p = idle) as Hi.
  { intros t p E. by apply lookup_gset_to_gmap_Some in E as [_ <-]. }
  assert (msum taken (gset_to_gmap idle ts) = 0) as Et.
  { apply msum_zero. intros t p E. by rewrite (Hi _ _ E). }
  split; cbn.
  - split; cbn; try done.
    + intros t p E. by rewrite (Hi _ _ E).
    + apply NoDup_nil_2.
    + intros t. split; [by intros ?%not_elem_of_nil|]. intros (p & E & Hq). by rewrite (Hi _ _ E) in Hq.
    + by intros e ?%not_elem_of_nil.
  - unfold value. rewrite Et, msum_zero; [lia|]. intros t p E. by rewrite (Hi _ _ E).
  - unfold value. rewrite Et. lia.
  - by rewrite <- size_dom, dom_gset_to_gmap.
  - lia.
  - done.
  - intros t p E. by rewrite (Hi _ _ E).
  - intros t p E. by rewrite (Hi _ _ E).
  - intros (t & p & E & Hw). by rewrite (Hi _ _ E) in Hw.
Qed.

Lemma ksem_step_inv val s s' : step val s s' → sys_inv val s → sys_inv val s'.
Proof.
  intros [l s0 s1 E Hx] H. pose proof (ksem_exec_keeps val l s0 H E) as Hk. unfold keeps, wp in Hk. by rewrite Hx in Hk.
Qed.

Definition held_units (s : ksys) : Z := msum (λ p, got (here p)) (tasks s).

Lemma promised_bounds k : 0 <= promised k <= 1.
Proof. unfold promised. repeat case_match; lia. Qed.

Lemma held_le_taken s : held_units s <= msum taken (tasks s).
Proof.
  apply msum_mono. intros t p _. unfold taken. pose proof (promised_bounds (at_pc (here p))). lia.
Qed.

Section reachable.
Context (val : Z) (ts : gset Z) (s : ksys).
Hypothesis Hval : 0 <= val <= 2 ^ 31 - 1.
Hypothesis Hts : Z.of_nat (size ts) <= MAX_TASKS.
Hypothesis Hs : rtc (step val) (boot val ts) s.

Lemma ksem_reachable_inv : sys_inv val s.
Proof.
  pose proof (ksem_boot_inv val ts Hval Hts) as Hb. revert Hs Hb. generalize (boot val ts). clear.
  induction 1 as [|x y z Hxy _ IH]; [done|]. intros Hx. apply IH. by eapply ksem_step_inv.
Qed.

Lemma units_le : held_units s <= val.
Proof.
  pose proof (i_val _ _ _ _ _ _ ksem_reachable_inv) as Hv. unfold value in Hv. pose proof (held_le_taken s). lia.
Qed.

End reachable.

Lemma msum_two {A} (f : A → Z) m t u x y : (∀ v z, m !! v = Some z → 0 <= f z) → t ≠ u →
  m !! t = Some x → m !! u = Some y → f x + f y <= msum f m.
Proof.
  intros Hf Hne Ht Hu.
  assert (msum (λ z, Z.max 0 (f z)) m <= msum f m) as Hle.
  { apply msum_mono. intros v z Hz. pose proof (Hf v z Hz). lia. }
  pose proof (msum_delete (λ z, Z.max 0 (f z)) m t x Ht) as Hd.
  pose proof (msum_ge (λ z, Z.max 0 (f z)) (delete t m) u y (λ z, Z.le_max_l _ _)) as Hg.
  rewrite lookup_delete_ne in Hg by done. specialize (Hg Hu). cbn beta in *. lia.
Qed.

(** C19: Semaphores exclude.  For any number of tasks that call down, down_interruptible,
    down_trylock and up at will, with signals and other wake-ups, in every interleaving of their
    atomic instructions: no step fails; the units that tasks have (calls that returned 0, less
    ups) are never more than the initial value, so that of the users of a mutex who only release
    what they hold at most one holds it; and when no call is in progress the counter is exactly
    the number of free units, with nobody counted as sleeping and an empty queue. *)
Theorem semaphore_exclusion val ts s :
  0 <= val <= 2 ^ 31 - 1 → Z.of_nat (size ts) <= MAX_TASKS → rtc (step val) (boot val ts) s →
  (∀ l, enabled val l s = true → ∃ s', exec l s = (Ok tt, s')) ∧
  held_units s <= val ∧
  (val = 1 → (∀ t p, tasks s !! t = Some p → 0 <= got (here p)) → ∀ t u p q,
     tasks s !! t = Some p → tasks s !! u = Some q → 0 < got (here p) → 0 < got (here q) → t = u) ∧
  ((∀ t p, tasks s !! t = Some p → at_pc (here p) = Run) →
     count (data s) = val - held_units s ∧ sleepers (data s) = 0 ∧ task_list (wait s) = []).
Proof.
  intros Hv Hts Hs. pose proof (ksem_reachable_inv val ts s Hv Hts Hs) as H. pose proof (units_le val ts s Hv Hts Hs) as Hu.
  split_and!; [|done|..].
  - intros l E. pose proof (ksem_exec_keeps val l s H E) as Hk. apply wp_ok in Hk as ([] & s' & ? & _). by exists s'.
  - intros -> Hpos t u p q Ht Huq Hp Hq. destruct (decide (t = u)) as [|Hne]; [done|].
    pose proof (msum_two (λ p, got (here p)) _ t u p q Hpos Hne Ht Huq) as Hsum. unfold held_units in Hu. cbn beta in Hsum. lia.
  - intros Hrun. assert (task_list (wait s) = []) as El.
    { destruct (task_list (wait s)) as [|e l] eqn:El; [done|].
      pose proof (wq_task_in _ _ _ _ _ _ e (i_wq _ _ _ _ _ _ H)) as Hin. rewrite El in Hin.
      destruct (Hin ltac:(by left)) as (p & Hp & Hq). unfold queued in Hq. by rewrite (Hrun _ _ Hp) in Hq. }
    pose proof (i_empty _ _ _ _ _ _ H El) as En. split_and!; [|done|done].
    pose proof (i_bal _ _ _ _ _ _ H) as Hb. unfold value in Hb.
    rewrite (msum_zero weight) in Hb by (intros t p Hp; unfold weight; by rewrite (Hrun _ _ Hp)).
    assert (msum taken (tasks s) <= held_units s) as Hle.
    { apply msum_mono. intros t p Hp. unfold taken. rewrite (Hrun _ _ Hp). cbn. lia. }
    pose proof (held_le_taken s). lia.
Qed.

(** ** Sleeping *)

Lemma stuck_lock val s : sys_inv val s → (∀ t, enabled val (Next t) s = false) → lock (wait s) = None.
Proof.
  intros H Hst. destruct (lock (wait s)) as [t|] eqn:E; [|done].
  destruct (wq_locked _ _ _ _ _ _ (i_wq _ _ _ _ _ _ H) t E) as (p & Hp & Hl). specialize (Hst t). cbn in Hst. rewrite Hp in Hst.
  pose proof (i_task _ _ _ _ _ _ H t p Hp) as Hok. destruct p as [st ar sg [k g]]. unfold locked, task_ok in *. cbn in *.
  destruct k; try done; cbn in Hst; rewrite andb_true_r in Hst; repeat case_match; intuition congruence.
Qed.

(** A task that cannot go on sleeps in the queue. *)
Lemma ksem_stuck_asleep val s t p : sys_inv val s → (∀ u, enabled val (Next u) s = false) → tasks s !! t = Some p →
  at_pc (here p) ≠ Run → waiting p ∧ array p = false.
Proof.
  intros H Hst Hp Hrun. pose proof (stuck_lock val s H Hst) as Hl. specialize (Hst t). cbn in Hst. rewrite Hp in Hst.
  pose proof (i_task _ _ _ _ _ _ H t p Hp) as Hok. destruct p as [st ar sg [k g]]. unfold task_ok, waiting in *. cbn in *.
  rewrite Hl in Hst. cbn in Hst. rewrite orb_true_r, andb_true_r in Hst.
  destruct k; try done; cbn in Hst; repeat case_match; try intuition congruence.
  destruct Hok as [[? _]|[? ->]]; [congruence|]. by destruct h.
Qed.

Lemma stuck_inactive val s t p : sys_inv val s → (∀ u, enabled val (Next u) s = false) → tasks s !! t = Some p → ¬ active p.
Proof.
  intros H Hst Hp Ha. assert (at_pc (here p) ≠ Run) as E.
  - intros E. unfold active in Ha. by rewrite E in Ha.
  - destruct (ksem_stuck_asleep val s t p H Hst Hp E) as [Hw _]. unfold active, waiting in *. by destruct (at_pc (here p)).
Qed.

(** C20: No wake-up is lost.  In every interleaving, when none of the tasks inside the semaphore
    code can go on, each of them sleeps in the queue and all units of the semaphore are held: no
    task sleeps although a unit is free, whatever the order of up, down, trylock, signals and
    wake-ups was. *)
Theorem semaphore_no_lost_wakeup val ts s t p :
  0 <= val <= 2 ^ 31 - 1 → Z.of_nat (size ts) <= MAX_TASKS → rtc (step val) (boot val ts) s →
  (∀ u, enabled val (Next u) s = false) → tasks s !! t = Some p → at_pc (here p) ≠ Run →
  held_units s = val ∧ array p = false ∧ t ∈ wq_task <$> task_list (wait s).
Proof.
  intros Hv Hts Hs Hst Hp Hrun. pose proof (ksem_reachable_inv val ts s Hv Hts Hs) as H.
  destruct (ksem_stuck_asleep val s t p H Hst Hp Hrun) as [Hw Ha]. split_and!; [|done|].
  - destruct (i_good _ _ _ _ _ _ H) as [(u & q & Hq & Hac)|[_ E]]; [by exists t, p| |].
    { by destruct (stuck_inactive val s u q H Hst Hq). }
    assert (msum taken (tasks s) <= held_units s) as Hle.
    { apply msum_mono. intros u q Hq. unfold taken. destruct (at_pc (here q)) eqn:Eq; cbn; try lia.
      all: destruct (ksem_stuck_asleep val s u q H Hst Hq) as [Hwq _]; [by rewrite Eq|]; unfold waiting in Hwq; by rewrite Eq in Hwq. }
    pose proof (held_le_taken s). unfold value in E. lia.
  - apply (wq_in _ _ _ _ _ _ (i_wq _ _ _ _ _ _ H)). exists p. split; [done|by apply ksem_waiting_queued].
Qed.

(** ** Coming to rest *)

Lemma inner_lowers val s s' : sys_inv val s → inner val s s' →
  sys_inv val s' ∧ size (tasks s') = size (tasks s) ∧ measure (tasks s') < measure (tasks s).
Proof.
  intros H Hi. destruct Hi as [t s0 s1 E Hx]. split; [by eapply ksem_step_inv; [econstructor|]|].
  destruct (ksem_next_inv val t s0 E) as (p & Ht & Hrun & Har & Hlk).
  assert (lowers (exec (Next t)) s0) as Hl; [|unfold lowers, wp in Hl; by rewrite Hx in Hl].
  destruct s0 as [[c n] [lk l] T]. unfold sys_inv in H. cbn in *. unfold lowers. apply wp_bind.
  eapply wp_get_wtask; [exact Ht|]. change (lowers (continue t (at_pc (here p))) (ksem c n lk l T)).
  destruct (at_pc (here p)) as [| | | | | | | | | | | |[|e rest] nr k] eqn:Epc;
    [..|rewrite <- Epc; eapply next_lowers; eauto; rewrite Epc; done|by eapply scan_lowers].
  all: rewrite <- Epc; eapply next_lowers; [exact H|exact Ht|by rewrite Epc|done|by rewrite Epc|by rewrite Epc].
Qed.

Lemma measure_bound val s : sys_inv val s →
  0 <= measure (tasks s) <= Z.of_nat (size (tasks s)) * (5 * Z.of_nat (size (tasks s)) + 12).
Proof.
  intros H. set (N := Z.of_nat (size (tasks s))). assert (0 <= N) as HN by lia. unfold measure. fold N. split.
  - assert (msum (λ _ : task thread, 0) (tasks s) <= msum (cost N) (tasks s)) as Hm
      by (apply msum_mono; intros; by apply cost_nonneg).
    rewrite msum_zero in Hm; done.
  - transitivity (msum (λ _ : task thread, 5 * N + 12) (tasks s)).
    + apply msum_mono. intros t p Hp. unfold cost. destruct (at_pc (here p)) eqn:E; try (repeat case_match; lia).
      pose proof (i_hold _ _ _ _ _ _ H t p Hp) as Hh. unfold locked in Hh. rewrite E in Hh.
      destruct (Hh eq_refl) as (_ & Hsuf & _).
      pose proof (suffix_length _ _ Hsuf). pose proof (queue_short _ _ _ _ _ _ H). lia.
    + pose proof (msum_bounds (λ _ : task thread, 5 * N + 12) (tasks s) (5 * N + 12)
        ltac:(intros; lia)) as [_ Hb]. fold N in Hb. lia.
Qed.

Lemma inner_steps val k s s' : sys_inv val s → nsteps (inner val) k s s' →
  sys_inv val s' ∧ Z.of_nat k + measure (tasks s') <= measure (tasks s).
Proof.
  intros H Hk. induction Hk as [x|k x y z Hxy _ IH]; [split; [done|lia]|].
  destruct (inner_lowers val x y H Hxy) as (Hy & _ & Hm). destruct (IH Hy) as [? ?]. split; [done|lia].
Qed.

Lemma inner_rests val s : sys_inv val s → ∃ s', rtc (inner val) s s' ∧ ∀ t, enabled val (Next t) s' = false.
Proof.
  remember (Z.to_nat (measure (tasks s))) as m eqn:Em. revert s Em.
  induction (lt_wf m) as [m _ IH]. intros s -> H.
  destruct (decide (map_Exists (λ t _, enabled val (Next t) s = true) (tasks s))) as [(t & p & Ht & E)|Hn].
  - pose proof (ksem_next_keeps val t s H E) as Hk. apply wp_ok in Hk as ([] & s1 & Hx & _).
    assert (inner val s s1) as Hi by (by econstructor). destruct (inner_lowers val s s1 H Hi) as (H1 & _ & Hm).
    pose proof (measure_bound val s1 H1). destruct (IH (Z.to_nat (measure (tasks s1))) ltac:(lia) s1 eq_refl H1) as (s' & Hr & Hst).
    exists s'. split; [by eapply rtc_l|done].
  - exists s. split; [done|]. intros t. destruct (tasks s !! t) as [p|] eqn:Ht; [|cbn; by rewrite Ht].
    destruct (enabled val (Next t) s) eqn:E; [|done]. destruct Hn. exists t, p. done.
Qed.

(** C29: The semaphore code comes to rest.  From every reachable state, however the scheduler
    chooses among the N tasks inside the code, they take at most N (5 N + 12) steps without a new
    call, signal or other wake-up, and they reach a state in which none can go on: nobody loops
    between being woken and going back to sleep. *)
Theorem semaphore_settles val ts s :
  0 <= val <= 2 ^ 31 - 1 → Z.of_nat (size ts) <= MAX_TASKS → rtc (step val) (boot val ts) s →
  let N := Z.of_nat (size (tasks s)) in
  (∀ k s', nsteps (inner val) k s s' → Z.of_nat k <= N * (5 * N + 12)) ∧
  ∃ s', rtc (inner val) s s' ∧ ∀ t, enabled val (Next t) s' = false.
Proof.
  intros Hv Hts Hs N. pose proof (ksem_reachable_inv val ts s Hv Hts Hs) as H. split; [|by apply inner_rests].
  intros k s' Hk. destruct (inner_steps val k s s' H Hk) as [H' Hm]. pose proof (measure_bound val s H).
  pose proof (measure_bound val s' H'). lia.
Qed.

(** ** A mutex and two tasks: one holds it, the other sleeps; then it is released *)

Lemma ksem_run_reachable val ls s s' : run val ls s = Ok s' → rtc (step val) s s'.
Proof.
  revert s. induction ls as [|l ls IH]; intros s; cbn; [by intros [= ->]|].
  destruct (enabled val l s) eqn:E; [|done]. destruct (exec l s) as [[[]|?|] s1] eqn:Hx; try done.
  intros Hr. eapply rtc_l; [by econstructor|]. by apply IH.
Qed.

Definition demo_tasks : gset Z := {[1; 2]}.
Definition sleep_trace : list label :=
  [Call 1 CDown; Call 2 CDown; Next 2; Next 2; Next 2; Next 2; Next 2].
Definition final (o : outcome ksys) : ksys := match o with Ok s => s | _ => boot 1 demo_tasks end.
Definition asleep : ksys := final (run 1 sleep_trace (boot 1 demo_tasks)).
Definition released : ksys := final (run 1 (sleep_trace ++ [Call 1 CUp]) (boot 1 demo_tasks)).

Lemma ksem_asleep : rtc (step 1) (boot 1 demo_tasks) asleep.
Proof. apply (ksem_run_reachable 1 sleep_trace). by vm_compute. Qed.
Lemma ksem_released : rtc (step 1) (boot 1 demo_tasks) released.
Proof. apply (ksem_run_reachable 1 (sleep_trace ++ [Call 1 CUp])). by vm_compute. Qed.

Lemma ksem_asleep_stuck u : enabled 1 (Next u) asleep = false.
Proof.
  assert (∀ t p, tasks asleep !! t = Some p → t = 1 ∨ t = 2) as Hd.
  { intros t p Ht. assert (t ∈ dom (tasks asleep)) as Hin by (by apply elem_of_dom_2 in Ht).
    assert (dom (tasks asleep) = demo_tasks) as E by (by vm_compute). rewrite E in Hin.
    apply elem_of_union in Hin as [?%elem_of_singleton|?%elem_of_singleton]; auto. }
  destruct (tasks asleep !! u) as [p|] eqn:Hu; [|cbn [enabled]; by rewrite Hu].
  destruct (Hd u p Hu) as [->| ->]; by vm_compute.
Qed.

Lemma semaphore_exclusion_witness : held_units asleep <= 1.
Proof. apply (semaphore_exclusion 1 demo_tasks asleep); [lia|by vm_compute|apply ksem_asleep]. Defined.

Lemma semaphore_no_lost_wakeup_witness :
  held_units asleep = 1 ∧ 2 ∈ wq_task <$> task_list (wait asleep).
Proof.
  destruct (semaphore_no_lost_wakeup 1 demo_tasks asleep 2
    (mk_task TASK_UNINTERRUPTIBLE false false (mk_thread (DRelock Down) 0))) as (E & _ & Hin);
    [lia|by vm_compute|apply ksem_asleep|apply ksem_asleep_stuck|by vm_compute|done|]. exact (conj E Hin).
Defined.

Lemma semaphore_settles_witness :
  ∃ s', rtc (inner 1) released s' ∧ ∀ t, enabled 1 (Next t) s' = false.
Proof. apply (semaphore_settles 1 demo_tasks released); [lia|by vm_compute|apply ksem_released]. Defined.

End KsemTheorems.
