(* ===== verification/Completion.v ===== *)
(** * Completions (kernel/sched.c, include/linux/completion.h)

    One completion used by any number of tasks.  [done] and the queue are only touched
    under the lock of the queue; the code is cut at the lock, the accesses to the state
    and the signal flag of a task, [schedule] and each wake-up. *)

From stdpp Require Import prelude numbers list gmap.
From Stdlib Require Import ZArith Lia.
From S2P Require Import Prelude Waitq.

#[local] Set Default Goal Selector "!".
#[local] Open Scope Z_scope.

Module Completion.
Import Waitq.

Definition UINT_MAX : Z := 2 ^ 32 - 1.

(** The four wait functions: with the test for signals or without, with a timeout or
    without. *)
Record how := mk_how {
  interruptible : bool;
  timed : bool;
}.
Definition sleep_state (h : how) : Z :=
  if interruptible h then TASK_INTERRUPTIBLE else TASK_UNINTERRUPTIBLE.

Inductive pc :=
| Run                                    (* outside *)
| WLock (h : how)                        (* spin_lock_irq; if (!x->done) ... *)
| WTest (h : how)                        (* if (signal_pending(current)) ... set state, unlock *)
| WSched (h : how)                       (* schedule() or schedule_timeout(timeout) *)
| WRelock (h : how)                      (* spin_lock_irq; if (!timeout) ...; while (!x->done) *)
| CLock (all : bool)                     (* complete, complete_all: spin_lock_irqsave *)
| Scan (rest : list wait_queue_t) (nr : Z).  (* in __wake_up_common *)

(** Where a task is, and its waits that ended with the event less the events it gave. *)
Record thread := mk_thread {
  at_pc : pc;
  got : Z;
}.

(** The data beside the queue is the field [done], an unsigned int. *)
Definition csys : Type := wsys Z thread.

Definition init_completion : csys → csys := λ s, mk_sys 0 init_waitqueue_head (tasks s).

Definition go (t : Z) (c : pc) : SM csys unit :=
  p ← get_task t; goto t (mk_thread c (got (here p))).

(** A call returns; it took the event or not. *)
Definition ret (t : Z) (event : Z) : SM csys unit :=
  p ← get_task t; goto t (mk_thread Run (got (here p) + event)).

(** [x->done--; spin_unlock_irq(&x->wait.lock);] *)
Definition take (t : Z) : SM csys unit :=
  d ← get_data;
  put_data (wrap32 (d - 1));;
  spin_unlock;;
  ret t 1.

(** [__remove_wait_queue(&x->wait, &wait); goto out;] *)
Definition leave (t : Z) : SM csys unit :=
  __remove_wait_queue t;;
  spin_unlock;;
  ret t 0.

Definition wait_enter (t : Z) (h : how) : SM csys unit :=
  spin_lock t;;
  d ← get_data;
  if d =? 0 then
    __add_wait_queue_tail (set_exclusive (DECLARE_WAITQUEUE t));;
    go t (WTest h)
  else take t.

Definition wait_test (t : Z) (h : how) : SM csys unit :=
  sig ← (if interruptible h then signal_pending t else mret false);
  if sig : bool then leave t
  else
    set_current_state t (sleep_state h);;
    spin_unlock;;
    go t (WSched h).

(** [expired]: [schedule_timeout] returned 0. *)
Definition wait_relock (t : Z) (h : how) (expired : bool) : SM csys unit :=
  spin_lock t;;
  if expired then leave t
  else
    d ← get_data;
    if d =? 0 then go t (WTest h)
    else __remove_wait_queue t;; take t.

(** What a completer adds to [done]. *)
Definition amount (all : bool) : Z := if all then UINT_MAX / 2 else 1.

(** [complete] and [complete_all], up to the scan of the queue *)
Definition complete_enter (t : Z) (all : bool) : SM csys unit :=
  spin_lock t;;
  d ← get_data;
  put_data (wrap32 (d + amount all));;
  l ← gets (λ s, task_list (wait s));
  p ← get_task t;
  goto t (mk_thread (Scan l (if all then 0 else 1)) (got (here p) - amount all)).

Definition continue (t : Z) (c : pc) : SM csys unit :=
  match c with
  | Run => mret tt
  | WLock h => wait_enter t h
  | WTest h => wait_test t h
  | WSched h => schedule t;; go t (WRelock h)
  | WRelock h => wait_relock t h false
  | CLock all => complete_enter t all
  | Scan [] _ => spin_unlock;; go t Run
  | Scan (e :: rest) nr =>
    '(brk, nr') ← wake_one TASK_NORMAL nr e;
    go t (Scan (if brk : bool then [] else rest) nr')
  end.

(** ** Interleaving *)

Inductive call :=
| CWait (h : how)
| CComplete (all : bool).

(** [Expired]: a task with a timeout goes on after its time is over. *)
Inductive label :=
| Call (t : Z) (c : call)
| Next (t : Z)
| Expired (t : Z)
| Wakeup (t : Z) (mode : Z)
| Signal (t : Z) (b : bool).

(** Events given and to be given, which must fit in an unsigned int. *)
Definition events (p : task thread) : Z :=
  match at_pc (here p) with CLock all => amount all | _ => 0 end - got (here p).

Definition takes_lock (c : pc) : bool :=
  match c with WLock _ | WRelock _ | CLock _ => true | _ => false end.

Definition enabled (l : label) (s : csys) : bool :=
  match l with
  | Call t c =>
    match tasks s !! t with
    | Some (mk_task _ _ _ (mk_thread Run _)) =>
      match c with
      | CWait _ => true
      | CComplete all => msum events (tasks s) + amount all <=? UINT_MAX
      end
    | _ => false
    end
  | Next t =>
    match tasks s !! t with
    | Some (mk_task _ _ _ (mk_thread Run _)) | None => false
    | Some p => array p && (negb (takes_lock (at_pc (here p))) || bool_decide (lock (wait s) = None))
    end
  | Expired t =>
    match tasks s !! t with
    | Some (mk_task _ ar _ (mk_thread (WRelock h) _)) => ar && timed h && bool_decide (lock (wait s) = None)
    | _ => false
    end
  | Wakeup t _ => bool_decide (is_Some (tasks s !! t))
  | Signal t b =>
    match tasks s !! t with
    | Some (mk_task _ _ _ (mk_thread Run _)) => true
    | Some _ => b
    | None => false
    end
  end.

Definition exec (l : label) : SM csys unit :=
  match l with
  | Call t (CWait h) => go t (WLock h)
  | Call t (CComplete all) => go t (CLock all)
  | Next t => p ← get_task t; continue t (at_pc (here p))
  | Expired t =>
    p ← get_task t;
    match at_pc (here p) with WRelock h => wait_relock t h true | _ => bug end
  | Wakeup t mode => p ← get_task t; put_task t (try_to_wake_up mode p).2
  | Signal t b => p ← get_task t; put_task t (mk_task (state p) (array p) b (here p))
  end.

Definition idle : task thread := mk_task TASK_RUNNING true false (mk_thread Run 0).
Definition boot (ts : gset Z) : csys :=
  init_completion (mk_sys 0 init_waitqueue_head (gset_to_gmap idle ts)).

(** Steps; without expired timeouts if [patient]. *)
Inductive step (patient : bool) : csys → csys → Prop :=
| step_exec l s s' : enabled l s = true → (patient = true → ∀ t, l ≠ Expired t) →
    exec l s = (Ok tt, s') → step patient s s'.

Fixpoint run (ls : list label) (s : csys) : outcome csys :=
  match ls with
  | [] => Ok s
  | l :: ls' =>
    if enabled l s then
      match exec l s with
      | (Ok _, s') => run ls' s'
      | _ => Bug
      end
    else Err EAGAIN
  end.

End Completion.
