(* ===== verification/CompletionFacts.v ===== *)
(** * Completions: the invariant

    [done] is the number of events given less the waits that took one.  While a task
    sleeps in the queue, at least as many queued tasks are awake as there are events. *)

From stdpp Require Import prelude numbers list gmap.
From Stdlib Require Import ZArith Lia.
From S2P Require Import Prelude Waitq Completion.

#[local] Set Default Goal Selector "!".
#[local] Open Scope Z_scope.

Module CompletionFacts.
Import Waitq Completion.

Definition locked (x : thread) : bool :=
  match at_pc x with WTest _ | Scan _ _ => true | _ => false end.
Definition queued (x : thread) : bool :=
  match at_pc x with WTest _ | WSched _ | WRelock _ => true | _ => false end.
Definition entry (t : Z) : wait_queue_t := set_exclusive (DECLARE_WAITQUEUE t).

Definition waiting (p : task thread) : Prop :=
  match at_pc (here p) with WSched _ | WRelock _ => state p ≠ TASK_RUNNING | _ => False end.
Definition awake (p : task thread) : Z :=
  match at_pc (here p) with
  | WSched _ | WRelock _ => if state p =? TASK_RUNNING then 1 else 0
  | _ => 0
  end.

Definition task_ok (p : task thread) : Prop :=
  match at_pc (here p) with
  | WRelock h => (array p = true ∧ state p = TASK_RUNNING) ∨ (array p = false ∧ state p = sleep_state h)
  | WSched h => array p = true ∧ (state p = TASK_RUNNING ∨ state p = sleep_state h)
  | _ => array p = true ∧ state p = TASK_RUNNING
  end.

Definition good (d : Z) (T : gmap Z (task thread)) : Prop :=
  (∃ t p, T !! t = Some p ∧ waiting p) → d <= msum awake T.

(** A scan with [rest] to go: the others have been woken, and the event that
    [complete] gave is still to be announced; or it has been. *)
Definition scan_ok (rest : list wait_queue_t) (nr d : Z) (l : list wait_queue_t) (T : gmap Z (task thread)) : Prop :=
  ((∀ e, e ∈ l → e ∈ rest ∨ runs T (wq_task e)) ∧ (nr = 1 → good (d - 1) T)) ∨ (rest = [] ∧ good d T).

Definition holder_ok (patient : bool) (d : Z) (l : list wait_queue_t) (T : gmap Z (task thread)) (c : pc) : Prop :=
  match c with
  | WTest _ => d = 0
  | Scan rest nr => rest `suffix_of` l ∧
      (rest = [] ∨ nr = 1 ∨ (nr <= 0 ∧ Z.of_nat (length rest) - nr <= Z.of_nat (size T))) ∧
      (patient = true → scan_ok rest nr d l T)
  | _ => True
  end.

Definition MAX_TASKS : Z := 2 ^ 22.

Record inv (patient : bool) (d : Z) (lk : option Z) (l : list wait_queue_t) (T : gmap Z (task thread)) : Prop := {
  i_wq : wq_ok locked queued entry lk l T;
  i_done : d = - msum (λ p, got (here p)) T;
  i_pos : 0 <= d;
  i_events : msum events T <= UINT_MAX;
  i_size : Z.of_nat (size T) <= MAX_TASKS;
  i_task : ∀ t p, T !! t = Some p → task_ok p;
  i_hold : ∀ t p, T !! t = Some p → locked (here p) = true → holder_ok patient d l T (at_pc (here p));
  i_good : patient = true → lk = None → good d T;
}.

Definition sys_inv (patient : bool) (s : csys) : Prop :=
  inv patient (data s) (lock (wait s)) (task_list (wait s)) (tasks s).

Lemma comp_entry_task t : wq_task (entry t) = t.
Proof. done. Qed.

Lemma awake_bounds p : 0 <= awake p <= 1.
Proof. unfold awake. repeat case_match; lia. Qed.

Lemma amount_pos all : 0 < amount all.
Proof. by destruct all. Qed.

Lemma comp_waiting_queued p : waiting p → queued (here p) = true.
Proof. unfold waiting, queued. by destruct (at_pc (here p)). Qed.

Lemma msum_taken T : msum (λ p : task thread, - got (here p)) T = - msum (λ p, got (here p)) T.
Proof.
  unfold msum. induction T as [|u x m Hm IH] using map_ind; [done|]. rewrite !map_fold_insert_L by (done || intros; lia). lia.
Qed.

Lemma taken_events T : msum (λ p : task thread, - got (here p)) T <= msum events T.
Proof.
  apply msum_mono. intros u x _. unfold events. destruct (at_pc (here x)); try lia. pose proof (amount_pos all). lia.
Qed.

(** Events cover [done] and what completers will still add. *)
Lemma done_events p d lk l T t : inv p d lk l T → ∀ q, T !! t = Some q → d + (events q + got (here q)) <= UINT_MAX.
Proof.
  intros H q Hq. pose proof (i_done _ _ _ _ _ H) as Hd. pose proof (i_events _ _ _ _ _ H) as He.
  pose proof (msum_taken T) as En. pose proof (taken_events (delete t T)) as Hle.
  rewrite (msum_delete _ _ _ _ Hq) in Hle. rewrite (msum_delete events _ _ _ Hq) in Hle. lia.
Qed.

Lemma done_le p d lk l T : inv p d lk l T → d <= msum events T.
Proof. intros H. rewrite (i_done _ _ _ _ _ H), <- msum_taken. apply taken_events. Qed.

Lemma done_range p d lk l T : inv p d lk l T → 0 <= d <= UINT_MAX.
Proof.
  intros H. pose proof (i_pos _ _ _ _ _ H). split; [done|].
  destruct (map_choose_or_empty T) as [(t & q & Hq)| ->].
  - pose proof (done_events _ _ _ _ _ t H q Hq) as Hd. unfold events in Hd.
    destruct (at_pc (here q)); try lia. pose proof (amount_pos all). lia.
  - pose proof (i_done _ _ _ _ _ H) as Hd. unfold msum in Hd. rewrite map_fold_empty in Hd. unfold UINT_MAX. lia.
Qed.

(** ** Steps *)

Lemma good_le d d' T : good d T → d' <= d → good d' T.
Proof. intros Hg Hd Hw. specialize (Hg Hw). lia. Qed.

Lemma good_zero T : good 0 T.
Proof. intros _. apply (msum_bounds awake T 1 awake_bounds). Qed.

(** A step of one task, in which [done] loses no more than the awake tasks. *)
Lemma good_step d d' T t p p' : good d T → T !! t = Some p → (waiting p' → waiting p) →
  d' - d <= awake p' - awake p → good d' (<[t := p']> T).
Proof.
  intros Hg Ht Hw Hd (u & q & Hu & Hq). rewrite (msum_replace awake T t p p' Ht).
  assert (d <= msum awake T); [|lia]. apply Hg. destruct (decide (u = t)) as [->|Hne].
  - rewrite lookup_insert_eq in Hu. injection Hu as <-. exists t, p. auto.
  - rewrite lookup_insert_ne in Hu by done. by exists u, q.
Qed.

Lemma scan_step rest nr d l T t p p' : scan_ok rest nr d l T → T !! t = Some p →
  (waiting p' → waiting p) → awake p <= awake p' →
  (∀ e, e ∈ l → wq_task e = t → state p = TASK_RUNNING → state p' = TASK_RUNNING) →
  scan_ok rest nr d l (<[t := p']> T).
Proof.
  intros Hs Ht Hw Ha Hr. destruct Hs as [[Hs Hg]|[-> Hg]]; [left|right].
  - split; [|intros E; eapply good_step; [by apply Hg|exact Ht|done|lia]].
    intros e He. destruct (Hs e He) as [?|Hrun]; [by left|right].
    destruct (decide (wq_task e = t)) as [E|Hne].
    + rewrite E in *. eapply runs_insert; [exact Ht|by eapply Hr|done].
    + destruct Hrun as (q & Hq & ?). exists q. by rewrite lookup_insert_ne.
  - split; [done|]. eapply good_step; [done|exact Ht|done|lia].
Qed.

Lemma comp_inv_step pt d lk l T t p p' d' lk' l' :
  inv pt d lk l T → T !! t = Some p →
  lk' = lock_after locked t lk (here p) (here p') →
  (locked (here p') = true → locked (here p) = true ∨ lk = None) →
  queue_after queued entry t (here p) (here p') l l' →
  d' = d + got (here p) - got (here p') → 0 <= d' → events p' <= events p → task_ok p' →
  (locked (here p') = true → holder_ok pt d' l' (<[t := p']> T) (at_pc (here p'))) →
  (locked (here p) = false → locked (here p') = false → lk ≠ None →
     d' = d ∧ l' = l ∧ (waiting p' → waiting p) ∧ awake p <= awake p' ∧
     (queued (here p) = true → state p = TASK_RUNNING → state p' = TASK_RUNNING)) →
  (pt = true → lk' = None → good d' (<[t := p']> T)) →
  inv pt d' lk' l' (<[t := p']> T).
Proof.
  intros H Ht -> Hlk Hq Hd Hp He Hok Hh Ho Hg.
  pose proof (wq_step locked queued entry comp_entry_task lk l T t p p' l' (i_wq _ _ _ _ _ H) Ht Hlk Hq) as Hw.
  split; [done| |done| | | | |done].
  - rewrite (msum_replace _ T t p p' Ht). pose proof (i_done _ _ _ _ _ H). lia.
  - rewrite (msum_replace _ T t p p' Ht). pose proof (i_events _ _ _ _ _ H). lia.
  - rewrite (size_replace _ _ _ _ Ht). apply (i_size _ _ _ _ _ H).
  - intros u q Hu. destruct (decide (u = t)) as [->|Hne].
    + rewrite lookup_insert_eq in Hu. by injection Hu as <-.
    + rewrite lookup_insert_ne in Hu by done. by apply (i_task _ _ _ _ _ H u).
  - intros u q Hu Hlu. destruct (decide (u = t)) as [->|Hne].
    { rewrite lookup_insert_eq in Hu. injection Hu as <-. auto. }
    pose proof (wq_holder _ _ _ _ _ _ Hw u q Hu Hlu) as E. unfold lock_after in E.
    rewrite lookup_insert_ne in Hu by done.
    destruct (locked (here p')) eqn:E'; [congruence|]. destruct (locked (here p)) eqn:E0; [done|].
    destruct (Ho eq_refl eq_refl ltac:(congruence)) as (-> & -> & Hwt & Haw & Hst).
    pose proof (i_hold _ _ _ _ _ H u q Hu Hlu) as Hhold. unfold holder_ok in *. rewrite (size_replace _ _ _ _ Ht).
    destruct (at_pc (here q)); [done..|]. destruct Hhold as (? & ? & Hs). split_and!; [done..|].
    intros Hpt. eapply scan_step; [by apply Hs|exact Ht|done|done|]. intros e Hel <-. apply Hst.
    destruct (wq_task_in locked queued entry _ _ _ e (i_wq _ _ _ _ _ H) Hel) as (q' & Hq' & ?). congruence.
Qed.

(** A change of a task from outside. *)
Lemma comp_inv_poke pt d lk l T t p st ar sg : inv pt d lk l T → T !! t = Some p →
  let p' := mk_task st ar sg (here p) in
  task_ok p' → (state p = TASK_RUNNING → st = TASK_RUNNING) → inv pt d lk l (<[t := p']> T).
Proof.
  intros H Ht p' Hok Hst.
  assert (waiting p' → waiting p) as Hw.
  { unfold waiting. cbn. destruct (at_pc (here p)); auto. }
  assert (awake p <= awake p') as Ha.
  { unfold awake. cbn. destruct (at_pc (here p)); try lia; repeat case_zb; lia || tauto. }
  split.
  - eapply wq_same; [apply comp_entry_task|apply (i_wq _ _ _ _ _ H)|exact Ht|done].
  - rewrite (msum_replace _ T t p p' Ht). pose proof (i_done _ _ _ _ _ H). cbn. lia.
  - apply (i_pos _ _ _ _ _ H).
  - rewrite (msum_replace _ T t p p' Ht). pose proof (i_events _ _ _ _ _ H). change (events p') with (events p). lia.
  - rewrite (size_replace _ _ _ _ Ht). apply (i_size _ _ _ _ _ H).
  - intros u q Hu. destruct (decide (u = t)) as [->|Hne].
    + rewrite lookup_insert_eq in Hu. by injection Hu as <-.
    + rewrite lookup_insert_ne in Hu by done. by apply (i_task _ _ _ _ _ H u).
  - intros u q Hu Hlu. assert (holder_ok pt d l T (at_pc (here q))) as Hhold.
    { destruct (decide (u = t)) as [->|Hne].
      + rewrite lookup_insert_eq in Hu. injection Hu as <-. by apply (i_hold _ _ _ _ _ H t p).
      + rewrite lookup_insert_ne in Hu by done. by apply (i_hold _ _ _ _ _ H u). }
    unfold holder_ok in *. rewrite (size_replace _ _ _ _ Ht). destruct (at_pc (here q)); [done..|].
    destruct Hhold as (? & ? & Hs). split_and!; [done..|]. intros Hpt. eapply scan_step; eauto.
  - intros Hpt Hl. eapply good_step; [by apply (i_good _ _ _ _ _ H)|exact Ht|done|lia].
Qed.

End CompletionFacts.
