(* ===== verification/CompletionSteps.v ===== *)
(** * Completions: every step keeps the invariant *)

From stdpp Require Import prelude numbers list gmap.
From Stdlib Require Import ZArith Lia.
From S2P Require Import Prelude Waitq Completion CompletionFacts.

#[local] Set Default Goal Selector "!".
#[local] Open Scope Z_scope.

Module CompletionSteps.
Import Waitq Completion CompletionFacts.

Ltac wrun := wrun_with ltac:(cbn [got at_pc]).

Definition cst (d : Z) (lk : option Z) (l : list wait_queue_t) (T : gmap Z (task thread)) : csys :=
  mk_sys d (mk_head lk l) T.

Ltac cunfold :=
  unfold leave, take; unfold cst, go, ret, goto, set_current_state, signal_pending, schedule;
  unfold __remove_wait_queue, __add_wait_queue_tail;
  unfold put_task, get_data, put_data, spin_unlock, set_list; cbv zeta.

Definition keeps (pt : bool) (m : SM csys unit) (s : csys) : Prop :=
  wp m (λ _ s', sys_inv pt s') (λ _ _, False) s.

(** The conditions of [comp_inv_step] that hold by computation. *)
Ltac istep_with H Ht :=
  unfold sys_inv; cbn [data wait tasks lock task_list];
  eapply comp_inv_step; [exact H|exact Ht|..];
  [ try done | try (cbn; intros; solve [auto | done]) | try (by apply queue_same)
  | cbn; try lia | cbn; try lia | unfold events; cbn; try lia | cbn; try solve [done | auto | intuition done]
  | try (cbn; done) | try (cbn; intros; solve [done | split_and!; auto; lia]) | ].

Section steps.
Context (pt : bool) (d : Z) (lk : option Z) (l : list wait_queue_t) (T : gmap Z (task thread)) (t : Z).
Hypothesis H : inv pt d lk l T.

Abbreviation s := (cst d lk l T).
Ltac istep := lazymatch goal with Ht : T !! t = Some _ |- _ => istep_with H Ht end.

Lemma comp_held p : T !! t = Some p → locked (here p) = true → lk = Some t.
Proof. apply (wq_holder _ _ _ _ _ _ (i_wq _ _ _ _ _ H)). Qed.

Lemma comp_at_queue p : T !! t = Some p → queued (here p) = true → queued_in t l = true.
Proof. intros Ht Hq. apply bool_decide_eq_true, (wq_in _ _ _ _ _ _ (i_wq _ _ _ _ _ H)). by exists p. Qed.

Ltac at_pc_is p Hpc Ht :=
  let st := fresh "st" in let ar := fresh "ar" in let sg := fresh "sg" in let g := fresh "g" in let k := fresh "k" in
  destruct p as [st ar sg [k g]]; cbn in Hpc; subst k;
  pose proof (i_task _ _ _ _ _ H t _ Ht) as Hok; cbn in Hok; pose proof (done_range _ _ _ _ _ H) as Hd.

(** Leaving the queue or the outside with an event, or without one. *)
Lemma wrap_pred : 0 <= d <= UINT_MAX → d ≠ 0 → wrap32 (d - 1) = d - 1.
Proof. intros Hd Hne. apply wrap32_id. unfold is_u32, UINT_MAX in *. lia. Qed.

Lemma comp_enter_keeps h p : T !! t = Some p → at_pc (here p) = WLock h → lk = None → keeps pt (continue t (WLock h)) s.
Proof.
  intros Ht Hpc Hlk. at_pc_is p Hpc Ht. unfold keeps, continue, wait_enter. cunfold. wrun.
  destruct (Z.eqb_spec d 0) as [E|E]; wrun.
  - istep; [by apply queue_append|by intros _].
  - rewrite wrap_pred by done. istep. intros Hpt _. eapply good_step; [by apply (i_good _ _ _ _ _ H)|exact Ht|done|cbn; lia].
Qed.

Lemma comp_test_keeps h p : T !! t = Some p → at_pc (here p) = WTest h → keeps pt (continue t (WTest h)) s.
Proof.
  intros Ht Hpc. at_pc_is p Hpc Ht. pose proof (comp_held _ Ht eq_refl) as Hl. pose proof (comp_at_queue _ Ht eq_refl) as Hin.
  pose proof (i_hold _ _ _ _ _ H t _ Ht eq_refl) as Hd0. cbn in Hd0.
  unfold keeps, continue, wait_test. cunfold. apply wp_bind.
  destruct (interruptible h); wrun; [destruct sg|]; wrun; try (rewrite Hin; wrun); istep;
    try (by apply queue_remove); intros _ _; rewrite Hd0; replace (0 + g - (g + 0)) with 0 by lia; apply good_zero.
Qed.

Lemma comp_sched_keeps h p : T !! t = Some p → at_pc (here p) = WSched h → keeps pt (continue t (WSched h)) s.
Proof.
  intros Ht Hpc. at_pc_is p Hpc Ht. unfold keeps, continue. cunfold. wrun. rewrite sched_here. cbn [here got].
  destruct Hok as [-> Hst].
  set (p' := mk_task _ _ _ (mk_thread (WRelock h) g)).
  assert (task_ok p' ∧ (waiting p' → st ≠ TASK_RUNNING) ∧ (st = TASK_RUNNING → state p' = TASK_RUNNING)) as (Hok' & Hw & Hr).
  { unfold p', task_ok, waiting, sched_out. cbn [state at_pc here array]. destruct (Z.eqb_spec st TASK_RUNNING) as [->|Hne]; [cbn; auto|].
    destruct Hst as [?| ->]; [done|]. destruct (_ && _); cbn; auto. }
  assert (awake (mk_task st true sg (mk_thread (WSched h) g)) <= awake p') as Ha.
  { pose proof (awake_bounds p'). unfold awake at 1. cbn [at_pc here state].
    destruct (Z.eqb_spec st TASK_RUNNING) as [E|]; [|lia]. unfold awake, p' in *. cbn [at_pc here] in *. by rewrite (Hr E). }
  subst p'. istep.
  intros Hpt Hlk. eapply good_step; [by apply (i_good _ _ _ _ _ H)|exact Ht|done|]. cbn [got here] in *. lia.
Qed.

Lemma comp_relock_keeps h (ex : bool) p : T !! t = Some p → at_pc (here p) = WRelock h → lk = None → array p = true →
  (ex = true → pt = false) → keeps pt (wait_relock t h ex) s.
Proof.
  intros Ht Hpc Hlk Har Hex. at_pc_is p Hpc Ht. cbn in Har. subst ar. destruct Hok as [[_ ->]|[? _]]; [|done].
  pose proof (comp_at_queue _ Ht eq_refl) as Hin. unfold keeps, wait_relock. destruct ex; cunfold; wrun.
  - rewrite Hin. wrun. istep; [by apply queue_remove|]. intros Hpt. by rewrite Hex in Hpt.
  - destruct (Z.eqb_spec d 0) as [E|E]; wrun.
    + istep. by intros _.
    + rewrite Hin. wrun. rewrite wrap_pred by done. istep; [by apply queue_remove|].
      intros Hpt _. eapply good_step; [by apply (i_good _ _ _ _ _ H)|exact Ht|done|]. unfold awake; cbn. lia.
Qed.

Lemma complete_keeps all p : T !! t = Some p → at_pc (here p) = CLock all → lk = None →
  keeps pt (continue t (CLock all)) s.
Proof.
  intros Ht Hpc Hlk. at_pc_is p Hpc Ht. unfold keeps, continue, complete_enter. cunfold. wrun.
  pose proof (done_events _ _ _ _ _ t H _ Ht) as He. unfold events in He. cbn in He. pose proof (amount_pos all).
  rewrite wrap32_id by (unfold is_u32, UINT_MAX in *; lia). pose proof (wq_short _ _ _ _ _ _ (i_wq _ _ _ _ _ H)) as Hsh.
  istep; [|done].
  intros _. split_and!; [by exists []| |].
  - right. destruct all; [right|by left]. rewrite (size_replace _ _ _ _ Ht). lia.
  - intros Hpt. left. split; [auto|]. destruct all; [done|]. intros _.
    eapply good_step; [by apply (i_good _ _ _ _ _ H)|exact Ht|done|]. unfold awake; cbn. lia.
Qed.

Lemma good_all_run n : (∀ e, e ∈ l → runs T (wq_task e)) → good n T.
Proof.
  intros Hr (u & q & Hu & Hw). pose proof (comp_waiting_queued _ Hw) as Hq.
  pose proof (proj2 (wq_in _ _ _ _ _ _ (i_wq _ _ _ _ _ H) u)) as Hin.
  apply list_elem_of_fmap in Hin as (e & -> & He); [|by exists q].
  destruct (Hr e He) as (q' & Hq' & Hrun). assert (q' = q) as -> by congruence.
  unfold waiting in Hw. by destruct (at_pc (here q)).
Qed.

Lemma comp_scan_end_keeps nr p : T !! t = Some p → at_pc (here p) = Scan [] nr → keeps pt (continue t (Scan [] nr)) s.
Proof.
  intros Ht Hpc. at_pc_is p Hpc Ht. pose proof (comp_held _ Ht eq_refl) as Hl.
  destruct (i_hold _ _ _ _ _ H t _ Ht eq_refl) as (_ & _ & Hs). unfold keeps, continue. cunfold. wrun. istep.
  intros Hpt _. eapply (good_step d _ T t); [|exact Ht|done|unfold awake; cbn; lia].
  destruct (Hs Hpt) as [[Hr _]|[_ Hg]]; [|done]. apply good_all_run. intros e He.
  by destruct (Hr e He) as [[]%not_elem_of_nil|?].
Qed.

Lemma comp_wake_task_ok mode p : task_ok p → task_ok (try_to_wake_up mode p).2.
Proof. unfold try_to_wake_up. case_zb; [done|]. unfold task_ok. cbn. destruct (at_pc (here p)); intuition. Qed.

Lemma comp_wake_keeps mode u q : T !! u = Some q → inv pt d lk l (<[u := (try_to_wake_up mode q).2]> T).
Proof.
  intros Hu. pose proof (comp_wake_task_ok mode q (i_task _ _ _ _ _ H u q Hu)) as Hok.
  pose proof (wake_running mode q) as Hr. pose proof (wake_here mode q) as Eh.
  destruct (try_to_wake_up mode q).2 as [st ar sg x]. cbn in *. subst x. by apply comp_inv_poke.
Qed.

End steps.

Lemma comp_normal_mode h : (Z.land (sleep_state h) TASK_NORMAL =? 0) = false.
Proof. unfold sleep_state. by destruct (interruptible h). Qed.

(** A wake-up in the scan: the task runs; if it slept there is one more awake task. *)
Lemma comp_wake_runs q : task_ok q → queued (here q) = true → locked (here q) = false →
  let '(b, q') := try_to_wake_up TASK_NORMAL q in
  state q' = TASK_RUNNING ∧ awake q <= awake q' ∧ (b = true → awake q' = awake q + 1) ∧ (waiting q' → waiting q).
Proof.
  intros Hok Hq Hl. unfold try_to_wake_up.
  assert (Z.land (state q) TASK_NORMAL = 0 → state q = TASK_RUNNING) as Hz.
  { intros E. assert (state q = TASK_RUNNING ∨ ∃ h, state q = sleep_state h) as [?|[h Eh]]; [|done|].
    - unfold queued, locked, task_ok in *. destruct (at_pc (here q)); try done; intuition eauto.
    - rewrite Eh in E. pose proof (comp_normal_mode h) as Hm. by apply Z.eqb_neq in Hm. }
  destruct (Z.eqb_spec (Z.land (state q) TASK_NORMAL) 0) as [E|E].
  - split_and!; [auto|lia|done|done].
  - unfold awake, waiting, queued, locked, task_ok in *. cbn [state at_pc here].
    assert (state q ≠ TASK_RUNNING) as Hne by (intros Er; by rewrite Er in E).
    apply Z.eqb_neq in Hne as Hb. rewrite Hb. destruct (at_pc (here q)); try done; cbn; split_and!; (lia || done).
Qed.

Lemma comp_scan_keeps pt d lk l T t e rest nr p : inv pt d lk l T →
  T !! t = Some p → at_pc (here p) = Scan (e :: rest) nr →
  keeps pt (continue t (Scan (e :: rest) nr)) (cst d lk l T).
Proof.
  intros H Ht Hpc. destruct p as [st ar sg [x g]]. cbn in Hpc. subst x.
  pose proof (comp_held _ _ _ _ _ _ H _ Ht eq_refl) as Hl. pose proof (i_task _ _ _ _ _ H t _ Ht) as Hokt.
  destruct (i_hold _ _ _ _ _ H t _ Ht eq_refl) as (Hsuf & Hnr & Hs). destruct Hnr as [?|Hnr]; [done|].
  pose proof (elem_of_suffix e _ _ Hsuf ltac:(by left)) as He. pose proof (wq_entry _ _ _ _ _ _ (i_wq _ _ _ _ _ H) e He) as Ee.
  destruct (wq_task_in _ _ _ _ _ _ e (i_wq _ _ _ _ _ H) He) as (q & Hq & Hqq).
  assert (wq_task e ≠ t) as Hne by (intros E; rewrite E, Ht in Hq; by injection Hq as <-).
  assert (locked (here q) = false) as Hlq.
  { destruct (locked (here q)) eqn:E; [|done]. pose proof (comp_held _ _ _ _ _ _ H _ Hq E). congruence. }
  pose proof (comp_wake_runs q (i_task _ _ _ _ _ H _ _ Hq) Hqq Hlq) as Hrun.
  pose proof (comp_wake_keeps _ _ _ _ _ H TASK_NORMAL _ _ Hq) as H1.
  destruct (try_to_wake_up TASK_NORMAL q) as [b q'] eqn:Eq. cbn [snd] in H1. destruct Hrun as (Hrun & Haw & Hb & Hwt).
  set (T1 := <[wq_task e := q']> T) in *.
  assert (T1 !! t = Some (mk_task st ar sg (mk_thread (Scan (e :: rest) nr) g))) as Ht1 by (unfold T1; by rewrite lookup_insert_ne).
  assert (∀ rest' nr', rest' `suffix_of` l →
    (rest' = [] ∨ nr' = 1 ∨ (nr' <= 0 ∧ Z.of_nat (length rest') - nr' <= Z.of_nat (size T))) →
    (pt = true → scan_ok rest' nr' d l T1) →
    inv pt d lk l (<[t := mk_task st ar sg (mk_thread (Scan rest' nr') g)]> T1)) as Hgo.
  { intros rest' nr' Hr1 Hr2 Hr3. eapply (comp_inv_step _ d lk l T1 t _ _ d lk l H1 Ht1); cbn; try done.
    - by left.
    - by apply queue_same.
    - lia.
    - apply (i_pos _ _ _ _ _ H).
    - intros _. split_and!; [done| |].
      + rewrite (size_replace _ _ _ _ Ht1). unfold T1. by rewrite (size_replace _ _ _ _ Hq).
      + intros Hpt. eapply scan_step; [by apply Hr3|exact Ht1|done|done|done].
    - intros _. by rewrite Hl. }
  assert (nr ≠ 1 ∨ b = false → pt = true → scan_ok rest nr d l T1) as Hs1.
  { intros _ Hpt. destruct (Hs Hpt) as [[Hr Hg]|[? _]]; [left|done]. split.
    - intros x Hx. destruct (Hr x Hx) as [[->|?]%elem_of_cons|Hx']; [right; exists q'; unfold T1; by rewrite lookup_insert_eq|by left|right].
      by eapply runs_insert.
    - intros E. eapply good_step; [by apply Hg|exact Hq|done|lia]. }
  unfold keeps, continue, wake_one, wake_task, after_wake. cunfold. wrun. rewrite Eq. rewrite Ee.
  cbn [wq_func entry set_exclusive DECLARE_WAITQUEUE wq_task wq_flags].
  wrun. change (Z.land _ WQ_FLAG_EXCLUSIVE =? 0) with false. cbn [negb fst snd]. rewrite andb_true_r.
  pose proof (suffix_length _ _ Hsuf) as Hlen. pose proof (wq_short _ _ _ _ _ _ (i_wq _ _ _ _ _ H)) as Hsh.
  pose proof (i_size _ _ _ _ _ H) as Hsz. unfold MAX_TASKS in Hsz. cbn [length] in *.
  destruct b; cbn [fst snd andb]; cbv beta iota zeta; wrun; unfold sys_inv; cbn [data wait tasks lock task_list].
  - rewrite sgn32_id by (destruct Hnr as [->|?]; lia). destruct Hnr as [->|[Hn0 Hn]].
    + cbn. apply Hgo; [apply suffix_nil|by left|]. intros Hpt. right. split; [done|].
      destruct (Hs Hpt) as [[_ Hg]|[? _]]; [|done].
      eapply good_step; [by apply Hg|exact Hq|done|]. specialize (Hb eq_refl). lia.
    + destruct (Z.eqb_spec (nr - 1) 0); [lia|]. apply Hgo; [by eapply suffix_cons_l|right; right; lia|].
      intros Hpt. destruct (Hs1 ltac:(left; lia) Hpt) as [[Hr _]|Hg]; [left|by right]. split; [done|lia].
  - apply Hgo; [by eapply suffix_cons_l|destruct Hnr as [->|?]; [by right; left|right; right; lia]|]. intros Hpt. apply Hs1; auto.
Qed.

End CompletionSteps.
