(* ===== verification/CompletionTheorems.v ===== *)
(** * Completions: events are counted, and announced unless a timeout interferes *)

From stdpp Require Import prelude numbers list gmap.
From Stdlib Require Import ZArith Lia.
From S2P Require Import Prelude Waitq Completion CompletionFacts CompletionSteps.

#[local] Set Default Goal Selector "!".
#[local] Open Scope Z_scope.

Module CompletionTheorems.
Import Waitq Completion CompletionFacts CompletionSteps.

(** ** Histories *)

Lemma comp_next_inv t s : enabled (Next t) s = true → ∃ p, tasks s !! t = Some p ∧
  at_pc (here p) ≠ Run ∧ array p = true ∧ (takes_lock (at_pc (here p)) = true → lock (wait s) = None).
Proof.
  cbn. destruct (tasks s !! t) as [[st ar sg [k g]]|] eqn:Ht; [|done]. intros E.
  exists (mk_task st ar sg (mk_thread k g)). split; [done|].
  destruct k; try done; cbn in E |- *; apply andb_true_iff in E as [-> E]; split_and!; try done;
    intros _; by apply bool_decide_eq_true in E.
Qed.

Lemma comp_next_keeps pt t s : sys_inv pt s → enabled (Next t) s = true → keeps pt (exec (Next t)) s.
Proof.
  intros H (p & Ht & Hrun & Har & Hlk)%comp_next_inv. destruct s as [d [lk l] T]. unfold sys_inv in H. cbn in *.
  unfold keeps. apply wp_bind. eapply wp_get_wtask; [exact Ht|].
  change (keeps pt (continue t (at_pc (here p))) (cst d lk l T)).
  destruct (at_pc (here p)) as [|h|h|h|h|all|[|e rest] nr] eqn:E; [done|..].
  all: cbn in Hlk; try specialize (Hlk eq_refl).
  4: by eapply comp_relock_keeps.
  all: solve [eauto using comp_enter_keeps, comp_test_keeps, comp_sched_keeps, complete_keeps, comp_scan_end_keeps, comp_scan_keeps].
Qed.

(** Entering a function only changes where the task is. *)
Lemma enter_call pt d lk l T t p k : inv pt d lk l T → T !! t = Some p → at_pc (here p) = Run →
  locked (mk_thread k 0) = false → queued (mk_thread k 0) = false →
  (∀ st ar sg g, task_ok (mk_task st ar sg (mk_thread k g)) ↔ ar = true ∧ st = TASK_RUNNING) →
  msum events T + (events (mk_task 0 true false (mk_thread k 0))) <= UINT_MAX →
  inv pt d lk l (<[t := mk_task (state p) (array p) (sigpending p) (mk_thread k (got (here p)))]> T).
Proof.
  intros H Ht Hpc Hl Hq Hok He. destruct p as [st ar sg [x g]]. cbn in Hpc. subst x.
  pose proof (i_task _ _ _ _ _ H t _ Ht) as Hokt. cbn in Hokt |- *.
  set (p' := mk_task st ar sg (mk_thread k g)).
  assert (locked (here p') = false) as Hl' by done. assert (queued (here p') = false) as Hq' by done.
  assert (¬ waiting p') as Hw by (intros E%comp_waiting_queued; congruence).
  assert (awake p' = 0) as Ha by (unfold awake, queued in *; cbn in *; by destruct k).
  assert (events p' = events (mk_task 0 true false (mk_thread k 0)) - g) as Ee by (unfold events; cbn; lia).
  split.
  - pose proof (wq_step locked queued entry comp_entry_task lk l T t _ p' l (i_wq _ _ _ _ _ H) Ht) as Hs.
    unfold lock_after in Hs. rewrite Hl' in Hs. cbn in Hs. apply Hs; [done|]. by apply queue_same.
  - rewrite (msum_replace _ T t _ p' Ht). pose proof (i_done _ _ _ _ _ H). cbn. lia.
  - apply (i_pos _ _ _ _ _ H).
  - rewrite (msum_replace _ T t _ p' Ht), Ee. unfold events at 2. cbn. lia.
  - rewrite (size_replace _ _ _ _ Ht). apply (i_size _ _ _ _ _ H).
  - intros u q Hu. destruct (decide (u = t)) as [->|Hne].
    + rewrite lookup_insert_eq in Hu. injection Hu as <-. by apply Hok.
    + rewrite lookup_insert_ne in Hu by done. by apply (i_task _ _ _ _ _ H u).
  - intros u q Hu Hlu. destruct (decide (u = t)) as [->|Hne].
    { rewrite lookup_insert_eq in Hu. injection Hu as <-. congruence. }
    rewrite lookup_insert_ne in Hu by done. pose proof (i_hold _ _ _ _ _ H u q Hu Hlu) as Hh.
    unfold holder_ok in *. rewrite (size_replace _ _ _ _ Ht). destruct (at_pc (here q)); [done..|].
    destruct Hh as (? & ? & Hs). split_and!; [done..|]. intros Hpt.
    eapply scan_step; [by apply Hs|exact Ht|done| |done]. rewrite Ha. unfold awake. cbn. lia.
  - intros Hpt Hlk. eapply good_step; [by apply (i_good _ _ _ _ _ H)|exact Ht|done|]. rewrite Ha. unfold awake. cbn. lia.
Qed.

Lemma comp_exec_keeps pt l s : sys_inv pt s → enabled l s = true → (pt = true → ∀ t, l ≠ Expired t) → keeps pt (exec l) s.
Proof.
  intros H E Hex. destruct s as [d [lk q] T]. unfold sys_inv in H. cbn in H.
  destruct l as [t c|t|t|t mode|t b].
  - cbn in E. destruct (T !! t) as [[st ar sg [[] g]]|] eqn:Ht; try done. pose proof (i_events _ _ _ _ _ H) as He.
    unfold keeps. destruct c as [h|all]; cbn [exec]; unfold go, goto, put_task; wrun;
      (apply (enter_call _ _ _ _ _ _ _ _ H Ht); [done..|]).
    + unfold events at 2. cbn. lia.
    + apply Z.leb_le in E. unfold events at 2. cbn. lia.
  - by apply comp_next_keeps.
  - cbn in E. destruct (T !! t) as [[st ar sg [[] g]]|] eqn:Ht; try done.
    apply andb_true_iff in E as [[-> _]%andb_true_iff Hlk%bool_decide_eq_true]. unfold keeps, exec. apply wp_bind.
    eapply wp_get_wtask; [exact Ht|]. cbn. eapply (comp_relock_keeps _ _ _ _ _ _ H _ true); [exact Ht|done..|].
    intros _. destruct pt; [|done]. by destruct (Hex eq_refl t).
  - apply bool_decide_eq_true in E as [p Ht]. unfold keeps, exec. apply wp_bind.
    eapply wp_get_wtask; [exact Ht|]. apply wp_modify. by apply comp_wake_keeps.
  - cbn in E. destruct (T !! t) as [p|] eqn:Ht; [|done]. unfold keeps, exec. apply wp_bind.
    eapply wp_get_wtask; [exact Ht|]. apply wp_modify. eapply comp_inv_poke; [exact H|exact Ht| |done].
    apply (i_task _ _ _ _ _ H t p Ht).
Qed.

Lemma comp_boot_inv pt ts : Z.of_nat (size ts) <= MAX_TASKS → sys_inv pt (boot ts).
Proof.
  intros Hs. assert (∀ t p, gset_to_gmap idle ts !! t = Some p → p = idle) as Hi.
  { intros t p E. by apply lookup_gset_to_gmap_Some in E as [_ <-]. }
  split; cbn.
  - split; cbn; try done.
    + intros t p E. by rewrite (Hi _ _ E).
    + apply NoDup_nil_2.
    + intros t. split; [by intros ?%not_elem_of_nil|]. intros (p & E & Hq). by rewrite (Hi _ _ E) in Hq.
    + by intros e ?%not_elem_of_nil.
  - rewrite msum_zero; [lia|]. intros t p E. by rewrite (Hi _ _ E).
  - done.
  - rewrite msum_zero; [done|]. intros t p E. by rewrite (Hi _ _ E).
  - by rewrite <- size_dom, dom_gset_to_gmap.
  - intros t p E. by rewrite (Hi _ _ E).
  - intros t p E. by rewrite (Hi _ _ E).
  - intros _ _ (t & p & E & Hw). by rewrite (Hi _ _ E) in Hw.
Qed.

Lemma completion_reach pt ts s : Z.of_nat (size ts) <= MAX_TASKS → rtc (step pt) (boot ts) s → sys_inv pt s.
Proof.
  intros Hts Hs. pose proof (comp_boot_inv pt ts Hts) as Hb. revert Hs Hb. generalize (boot ts). clear.
  induction 1 as [|x y z Hxy _ IH]; [done|]. intros Hx. apply IH. destruct Hxy as [l s0 s1 E Hex Ho].
  pose proof (comp_exec_keeps pt l s0 Hx E Hex) as Hk. unfold keeps, wp in Hk. by rewrite Ho in Hk.
Qed.

(** ** Sleeping *)

Lemma comp_stuck_asleep pt s t p : sys_inv pt s → (∀ u, enabled (Next u) s = false) → tasks s !! t = Some p →
  at_pc (here p) ≠ Run → lock (wait s) = None ∧ waiting p ∧ array p = false.
Proof.
  intros H Hst Hp Hrun. assert (lock (wait s) = None) as Hl.
  { destruct (lock (wait s)) as [u|] eqn:E; [|done].
    destruct (wq_locked _ _ _ _ _ _ (i_wq _ _ _ _ _ H) u E) as (q & Hq & Hl). specialize (Hst u). cbn in Hst. rewrite Hq in Hst.
    pose proof (i_task _ _ _ _ _ H u q Hq) as Hok. destruct q as [st ar sg [k g]]. unfold locked, task_ok in *. cbn in *.
    destruct k; try done; cbn in Hst; destruct Hok as [-> _]; done. }
  specialize (Hst t). cbn in Hst. rewrite Hp, Hl in Hst.
  pose proof (i_task _ _ _ _ _ H t p Hp) as Hok. destruct p as [st ar sg [k g]]. unfold task_ok, waiting in *. cbn in *.
  rewrite orb_true_r, andb_true_r in Hst. split; [done|].
  destruct k; try done; cbn in Hst; try (destruct Hok; congruence).
  destruct Hok as [[? _]|[? ->]]; [congruence|]. unfold sleep_state. by destruct (interruptible h).
Qed.

(** C21: Completions count events and announce them.  For any number of tasks that wait, with or
    without signals, and complete, in every interleaving: no step fails, and [done] is exactly
    the number of events given less the waits that returned with one, so that no wait returns
    without an event.  As long as no timeout of a waiter expires, no wake-up is lost: when none
    of the tasks inside can go on, each of them sleeps and [done] is zero. *)
Theorem completion_correct patient ts s :
  Z.of_nat (size ts) <= MAX_TASKS → rtc (step patient) (boot ts) s →
  (∀ l, enabled l s = true → (patient = true → ∀ t, l ≠ Expired t) → ∃ s', exec l s = (Ok tt, s')) ∧
  data s = - msum (λ p, got (here p)) (tasks s) ∧ 0 <= data s ∧
  (patient = true → (∀ u, enabled (Next u) s = false) → ∀ t p, tasks s !! t = Some p → at_pc (here p) ≠ Run →
     array p = false ∧ data s = 0).
Proof.
  intros Hts Hs. pose proof (completion_reach patient ts s Hts Hs) as H. split_and!.
  - intros l E Hex. pose proof (comp_exec_keeps patient l s H E Hex) as Hk. apply wp_ok in Hk as ([] & s' & ? & _). by exists s'.
  - apply (i_done _ _ _ _ _ H).
  - apply (i_pos _ _ _ _ _ H).
  - intros Hpt Hst t p Hp Hrun. destruct (comp_stuck_asleep _ s t p H Hst Hp Hrun) as (Hl & Hw & Ha). split; [done|].
    pose proof (i_good _ _ _ _ _ H Hpt Hl ltac:(by exists t, p)) as Hg. pose proof (i_pos _ _ _ _ _ H).
    rewrite msum_zero in Hg; [lia|]. intros u q Hq. unfold awake. destruct (at_pc (here q)) eqn:E; try done.
    all: destruct (comp_stuck_asleep _ s u q H Hst Hq ltac:(by rewrite E)) as (_ & Hwq & _); unfold waiting in Hwq; rewrite E in Hwq;
      by apply Z.eqb_neq in Hwq as ->.
Qed.

(** ** Runs *)

Lemma completion_run_reach ls s s' : run ls s = Ok s' → rtc (step false) s s'.
Proof.
  revert s. induction ls as [|l ls IH]; intros s; cbn; [by intros [= ->]|].
  destruct (enabled l s) eqn:E; [|done]. destruct (exec l s) as [[[]|?|] s1] eqn:Hx; try done.
  intros Hr. eapply rtc_l; [by econstructor|]. by apply IH.
Qed.

Lemma completion_run_patient ls s s' : forallb (λ l, match l with Expired _ => false | _ => true end) ls = true →
  run ls s = Ok s' → rtc (step true) s s'.
Proof.
  revert s. induction ls as [|l ls IH]; intros s; cbn; [by intros _ [= ->]|]. intros [Hl Hls]%andb_true_iff.
  destruct (enabled l s) eqn:E; [|done]. destruct (exec l s) as [[[]|?|] s1] eqn:Hx; try done.
  intros Hr. eapply rtc_l; [|by apply IH]. econstructor; [done| |done]. intros _ t ->. done.
Qed.

(** Task 1 waits with a timeout and task 2 without one behind it. *)
Definition demo_tasks : gset Z := {[1; 2; 3]}.
Definition wait_trace : list label :=
  [Call 1 (CWait (mk_how false true)); Next 1; Next 1; Next 1; Call 2 (CWait (mk_how false false)); Next 2; Next 2; Next 2].
Definition final (o : outcome csys) : csys := match o with Ok s => s | _ => boot demo_tasks end.
Definition waiting_state : csys := final (run wait_trace (boot demo_tasks)).

Lemma demo_stuck s u : dom (tasks s) = demo_tasks →
  enabled (Next 1) s = false → enabled (Next 2) s = false → enabled (Next 3) s = false → enabled (Next u) s = false.
Proof.
  intros Hd H1 H2 H3. destruct (tasks s !! u) as [p|] eqn:Hu; [|cbn; by rewrite Hu].
  apply elem_of_dom_2 in Hu. rewrite Hd in Hu. unfold demo_tasks in Hu.
  apply elem_of_union in Hu as [[->%elem_of_singleton| ->%elem_of_singleton]%elem_of_union| ->%elem_of_singleton]; done.
Qed.

(** ** An event that nobody takes *)

Lemma run_step l ls s s' : enabled l s = true → wp (exec l) (λ _ x, x = s') (λ _ _, False) s → run (l :: ls) s = run ls s'.
Proof. intros E H. apply wp_ok in H as ([] & x & Ex & ->). cbn [run]. by rewrite E, Ex. Qed.

(** [complete] when the first in the queue sleeps: it is woken, and nobody else. *)
Lemma run_complete d w c l T sw sgw kw gw st sg g ls : c ≠ w → Z.land sw TASK_NORMAL ≠ 0 →
  T !! w = Some (mk_task sw false sgw (mk_thread kw gw)) → T !! c = Some (mk_task st true sg (mk_thread Run g)) →
  msum events T + amount false <= UINT_MAX →
  run (Call c (CComplete false) :: Next c :: Next c :: Next c :: ls) (cst d None (entry w :: l) T) =
  run ls (cst (wrap32 (d + 1)) None (entry w :: l)
    (<[c := mk_task st true sg (mk_thread Run (g - 1))]> (<[w := mk_task TASK_RUNNING true sgw (mk_thread kw gw)]> T))).
Proof.
  intros Hne Hst Hw Hc He. apply Z.leb_le in He.
  set (at_ k g := mk_task st true sg (mk_thread k g)). set (up := mk_task TASK_RUNNING true sgw (mk_thread kw gw)).
  set (l0 := entry w :: l). set (d1 := wrap32 (d + 1)).
  rewrite (run_step _ _ _ (cst d None l0 (<[c := at_ (CLock false) g]> T))); cycle 1.
  { unfold enabled, cst. cbn [tasks]. rewrite Hc. exact He. }
  { cbn [exec]. cunfold. wrun. done. }
  rewrite (run_step _ _ _ (cst d1 (Some c) l0 (<[c := at_ (Scan l0 1) (g - 1)]> T))); cycle 1.
  { cbn. by rewrite lookup_insert_eq. }
  { cbn [exec]. unfold at_. cunfold. wrun. unfold continue, complete_enter. cunfold. wrun1.
    apply wp_wspin_lock; [done|]. wrun. done. }
  rewrite (run_step _ _ _ (cst d1 (Some c) l0 (<[c := at_ (Scan [] 0) (g - 1)]> (<[w := up]> T)))); cycle 1.
  { cbn. by rewrite lookup_insert_eq. }
  { cbn [exec]. unfold at_. cunfold. wrun. unfold l0. cbn [continue]. unfold wake_one, wake_task, after_wake. cunfold.
    wrun1. wrun1. wrun1. eapply wp_get_wtask; [cbn; rewrite lookup_insert_ne by done; exact Hw|].
    unfold try_to_wake_up. cbn [state array sigpending here]. apply Z.eqb_neq in Hst. rewrite Hst. wrun.
    change (if _ && negb (Z.land (wq_flags (entry w)) WQ_FLAG_EXCLUSIVE =? 0) then _ else _) with (true, 0).
    cbv beta iota. do 2 (wrun1; eapply wp_get_wtask; [cbn; rewrite lookup_insert_ne by done; apply lookup_insert_eq|]; cbv beta). wrun.
    f_equal. change (wq_task (entry w)) with w. cbn [snd]. by rewrite (insert_insert_ne _ w c), insert_insert_eq by done. }
  rewrite (run_step _ _ _ (cst d1 None l0 (<[c := at_ Run (g - 1)]> (<[w := up]> T)))); cycle 1.
  { cbn. by rewrite lookup_insert_eq. }
  { cbn [exec]. unfold at_. cunfold. wrun. cbn [continue]. cunfold. wrun. done. }
  done.
Qed.

Lemma unqueue_first w l : w ∉ wq_task <$> l → unqueue w (entry w :: l) = l.
Proof.
  intros Hw. unfold unqueue. rewrite filter_cons, decide_False by (by intros H; apply H).
  induction l as [|e l IH]; [done|]. cbn in Hw. apply not_elem_of_cons in Hw as [? ?]. rewrite filter_cons, decide_True by done.
  f_equal. by apply IH.
Qed.

(** The first in the queue leaves because its time is over, although it has been woken. *)
Lemma run_expired d w l T sg h g ls : timed h = true → w ∉ wq_task <$> l →
  T !! w = Some (mk_task TASK_RUNNING true sg (mk_thread (WRelock h) g)) →
  run (Expired w :: ls) (cst d None (entry w :: l) T) =
  run ls (cst d None l (<[w := mk_task TASK_RUNNING true sg (mk_thread Run g)]> T)).
Proof.
  intros Hh Hnw Hw. apply run_step.
  - cbn. rewrite Hw. cbn. by rewrite Hh.
  - cbn [exec]. cunfold. wrun. cbn [at_pc here]. unfold wait_relock. cunfold. wrun1.
    apply wp_wspin_lock; [done|]. wrun. assert (queued_in w (entry w :: l) = true) as -> by (apply bool_decide_eq_true; by left). wrun.
    rewrite unqueue_first by done. cbn. by rewrite Z.add_0_r.
Qed.

(** C38: A timeout can lose an event.  In every reachable state whose lock is free and in which the
    first of the queue sleeps in one of the wait functions with a timeout, let a task call complete.
    If the time of the woken task is over when it goes on, its call reports the timeout: it leaves
    the queue without the event and without waking another.  The event stays in [done]; no other
    task has been touched, so that if none could go on before, none can afterwards, and those that sleep
    in the queue sleep on beside an event that is there. *)
Theorem completion_timeout_loses ts s w c pw pt h :
  Z.of_nat (size ts) <= MAX_TASKS → rtc (step false) (boot ts) s → lock (wait s) = None →
  wq_task <$> head (task_list (wait s)) = Some w → tasks s !! w = Some pw → at_pc (here pw) = WRelock h →
  timed h = true → array pw = false → tasks s !! c = Some pt → enabled (Call c (CComplete false)) s = true →
  ∃ s', run [Call c (CComplete false); Next c; Next c; Next c; Expired w] s = Ok s' ∧
    rtc (step false) (boot ts) s' ∧ data s' = data s + 1 ∧ lock (wait s') = None ∧
    task_list (wait s') = tail (task_list (wait s)) ∧
    tasks s' !! w = Some (mk_task TASK_RUNNING true (sigpending pw) (mk_thread Run (got (here pw)))) ∧
    tasks s' !! c = Some (mk_task TASK_RUNNING true (sigpending pt) (mk_thread Run (got (here pt) - 1))) ∧
    (∀ u, u ≠ w → u ≠ c → tasks s' !! u = tasks s !! u) ∧
    ((∀ u, enabled (Next u) s = false) → ∀ u, enabled (Next u) s' = false).
Proof.
  intros Hts Hr Hlk Hhd Hw Hpc Hh Har Hc He. pose proof (completion_reach false ts s Hts Hr) as Hi.
  destruct s as [d [lk l] T]. cbn [data wait tasks lock task_list] in *. subst lk. unfold sys_inv in Hi. cbn in Hi.
  destruct l as [|e l]; [done|]. injection Hhd as Hhd.
  pose proof (wq_entry _ _ _ _ _ _ (i_wq _ _ _ _ _ Hi) e (list_elem_of_here _ _)) as Ee. rewrite Hhd in Ee. subst e. clear Hhd.
  destruct pw as [sw aw sgw [kw gw]], pt as [st ar sg [k g]]. cbn in Hpc, Har. subst kw aw.
  cbn in He. rewrite Hc in He. destruct k; try done. apply Z.leb_le in He.
  destruct (i_task _ _ _ _ _ Hi c _ Hc) as [Ea Est]. cbn in Ea, Est. subst ar st.
  destruct (i_task _ _ _ _ _ Hi w _ Hw) as [[? _]|[_ Esw]]; [done|]. cbn in Esw.
  assert (c ≠ w) as Hne by congruence.
  pose proof (done_le _ _ _ _ _ Hi) as Hd. pose proof (i_pos _ _ _ _ _ Hi) as Hp.
  set (T' := <[w := mk_task TASK_RUNNING true sgw (mk_thread Run gw)]> (<[c := mk_task TASK_RUNNING true sg (mk_thread Run (g - 1))]> T)).
  assert (run [Call c (CComplete false); Next c; Next c; Next c; Expired w] (cst d None (entry w :: l) T) = Ok (cst (d + 1) None l T')) as E.
  { rewrite (run_complete d w c l T sw sgw (WRelock h) gw TASK_RUNNING sg g); try done.
    - rewrite (run_expired _ _ _ _ sgw h gw _ Hh); cycle 1.
      { pose proof (wq_nodup _ _ _ _ _ _ (i_wq _ _ _ _ _ Hi)) as Hnd. cbn in Hnd. by apply NoDup_cons in Hnd as [? _]. }
      { by rewrite lookup_insert_ne, lookup_insert_eq by done. }
      cbn [run]. rewrite wrap32_id by (unfold is_u32, UINT_MAX, amount in *; lia). unfold cst, T'. do 2 f_equal.
      by rewrite (insert_insert_ne _ w c), insert_insert_eq, (insert_insert_ne _ c w) by done.
    - rewrite Esw. apply Z.eqb_neq, comp_normal_mode. }
  eexists. split; [exact E|]. split_and!; try done.
  - etrans; [exact Hr|]. exact (completion_run_reach _ _ _ E).
  - unfold T'. cbn. by rewrite lookup_insert_eq.
  - unfold T'. cbn. by rewrite lookup_insert_ne, lookup_insert_eq.
  - intros u ??. unfold T'. cbn. by rewrite !lookup_insert_ne.
  - intros Hst u. specialize (Hst u). unfold enabled in *. cbn [tasks wait lock cst] in *. unfold T'.
    destruct (decide (u = w)) as [->|]; [by rewrite lookup_insert_eq|]. destruct (decide (u = c)) as [->|].
    + by rewrite lookup_insert_ne, lookup_insert_eq.
    + by rewrite !lookup_insert_ne.
Qed.

Lemma completion_timeout_loses_witness : ∃ s',
  run [Call 3 (CComplete false); Next 3; Next 3; Next 3; Expired 1] waiting_state = Ok s' ∧ data s' = 0 + 1 ∧
  (∀ u, enabled (Next u) s' = false) ∧
  tasks s' !! 2 = Some (mk_task TASK_UNINTERRUPTIBLE false false (mk_thread (WRelock (mk_how false false)) 0)).
Proof.
  destruct (completion_timeout_loses demo_tasks waiting_state 1 3
    (mk_task TASK_UNINTERRUPTIBLE false false (mk_thread (WRelock (mk_how false true)) 0)) idle (mk_how false true))
    as (s' & Hr & _ & Hd & _ & _ & _ & _ & Hu & Hst);
    [by vm_compute|by apply (completion_run_reach wait_trace); vm_compute|done..|].
  exists s'. split; [exact Hr|]. split; [exact Hd|]. split.
  - apply Hst. intros u. apply demo_stuck; by vm_compute.
  - rewrite (Hu 2); [by vm_compute|done|done].
Defined.

Lemma completion_correct_witness : data waiting_state = 0.
Proof.
  apply (completion_correct true demo_tasks waiting_state) with (t := 2)
    (p := mk_task TASK_UNINTERRUPTIBLE false false (mk_thread (WRelock (mk_how false false)) 0));
    [by vm_compute|apply (completion_run_patient wait_trace); by vm_compute|done| |by vm_compute|done].
  intros u. apply demo_stuck; by vm_compute.
Defined.

End CompletionTheorems.
