(* ===== verification/Event.v ===== *)
(** * Waiting for a condition (kernel/wait.c, the wait_event macros of include/linux/wait.h)

    Tasks wait until a condition holds; others change the condition and wake the
    queue.  The wait structure lives in the frame of the waiting task and is linked into
    the queue by [prepare_to_wait]; [autoremove_wake_function] unlinks it, and
    [finish_wait] unlinks it if that has not happened.  [finish_wait] looks at the two
    link fields of the entry without the lock, while a waker on another CPU may be
    between its stores to them, so these reads and stores are steps of their own.
    Touching a wait structure after its owner has returned is [Bug]. *)

From stdpp Require Import prelude numbers list gmap.
From Stdlib Require Import ZArith Lia.
From S2P Require Import Prelude Waitq.

#[local] Set Default Goal Selector "!".
#[local] Open Scope Z_scope.

Module Event.
Import Waitq.

(** wait_event, wait_event_timeout, wait_event_interruptible,
    wait_event_interruptible_timeout, wait_event_interruptible_exclusive *)
Record how := mk_how {
  interruptible : bool;
  timed : bool;
  exclusive : bool;
}.
Definition sleep_state (h : how) : Z :=
  if interruptible h then TASK_INTERRUPTIBLE else TASK_UNINTERRUPTIBLE.

(** The wait structure as the prepare functions set it. *)
Definition entry (h : how) (t : Z) : wait_queue_t :=
  (if exclusive h then set_exclusive else clear_exclusive) (DEFINE_WAIT t).

Inductive pc :=
| Run                               (* outside *)
| EPrep (h : how)                   (* prepare_to_wait(&wq, &__wait, ...); *)
| ECond (h : how)                   (* if (condition) break; *)
| ESig (h : how)                    (* if (!signal_pending(current)) *)
| ESched (h : how)                  (* schedule(); or schedule_timeout(ret); *)
| EWake (h : how)                   (* back from schedule *)
| EFin (h : how)                    (* finish_wait: __set_current_state(TASK_RUNNING); *)
| ETestNext (h : how)               (* list_empty_careful: next == head *)
| ETestPrev (h : how)               (* list_empty_careful: next == head->prev *)
| EDel (h : how)                    (* spin_lock; list_del_init; spin_unlock *)
| WLock (nr : Z)                    (* __wake_up: spin_lock_irqsave *)
| Scan (rest : list wait_queue_t) (nr : Z)        (* in __wake_up_common *)
| ScanDel (e : wait_queue_t) (rest : list wait_queue_t) (nr : Z) (ret : bool)
                                    (* in autoremove_wake_function, after the wake-up *)
| DelNext (e : wait_queue_t) (rest : list wait_queue_t) (nr : Z)  (* entry->next = entry; *)
| DelPrev (e : wait_queue_t) (rest : list wait_queue_t) (nr : Z). (* entry->prev = entry; *)

(** The link fields of a wait structure: whether [task_list.next] and [task_list.prev]
    point to the entry itself. *)
Record links := mk_links {
  next_self : bool;
  prev_self : bool;
}.
(** [LIST_HEAD_INIT], and the links of an entry in the queue: as the head of the queue
    is in the ring, no neighbour of an entry is the entry itself. *)
Definition unlinked : links := mk_links true true.
Definition in_queue : links := mk_links false false.

(** The data beside the queue: the condition, and the wait structures that exist, by the
    task in whose frame they are. *)
Record edata := mk_edata {
  cond : bool;
  frames : gmap Z links;
}.
Definition esys : Type := wsys edata pc.

Definition get_links (t : Z) : SM esys links :=
  d ← get_data; match frames d !! t with Some k => mret k | None => bug end.
Definition put_links (t : Z) (k : links) : SM esys unit :=
  d ← get_data; put_data (mk_edata (cond d) (<[t := k]> (frames d))).
Definition set_cond (b : bool) : SM esys unit :=
  d ← get_data; put_data (mk_edata b (frames d)).

(** The macro returns: the wait structure is gone. *)
Definition leave (t : Z) : SM esys unit :=
  d ← get_data;
  put_data (mk_edata (cond d) (delete t (frames d)));;
  goto t Run.

(** [prepare_to_wait] and [prepare_to_wait_exclusive]; [list_empty] reads [next] *)
Definition prepare_to_wait (t : Z) (h : how) : SM esys unit :=
  spin_lock t;;
  k ← get_links t;
  when (next_self k)
    ((if exclusive h then __add_wait_queue_tail (entry h t) else __add_wait_queue (entry h t));;
     put_links t in_queue);;
  set_current_state t (sleep_state h);;
  spin_unlock;;
  goto t (ECond h).

Definition test_condition (t : Z) (h : how) : SM esys unit :=
  d ← get_data;
  if cond d then goto t (EFin h)
  else goto t (if interruptible h then ESig h else ESched h).

Definition test_signal (t : Z) (h : how) : SM esys unit :=
  sig ← signal_pending t;
  goto t (if sig : bool then EFin h else ESched h).

(** [finish_wait] *)
Definition finish_next (t : Z) (h : how) : SM esys unit :=
  k ← get_links t; goto t (if next_self k then ETestPrev h else EDel h).
Definition finish_prev (t : Z) (h : how) : SM esys unit :=
  k ← get_links t; if prev_self k then leave t else goto t (EDel h).
Definition finish_del (t : Z) : SM esys unit :=
  spin_lock t;;
  _ ← get_links t;
  list_del_init t;;
  put_links t unlinked;;
  spin_unlock;;
  leave t.

(** A round of [__wake_up_common], cut between the wake-up and the removal of
    [autoremove_wake_function]. *)
Definition scan_wake (t : Z) (e : wait_queue_t) (rest : list wait_queue_t) (nr : Z) : SM esys unit :=
  _ ← get_links (wq_task e);
  ret ← wake_task TASK_NORMAL e;
  goto t (ScanDel e rest nr ret).

(** The end of a round. *)
Definition round (t : Z) (e : wait_queue_t) (rest : list wait_queue_t) (nr : Z) (ret : bool) : SM esys unit :=
  let '(brk, nr') := after_wake (wq_flags e) nr ret in
  goto t (Scan (if brk : bool then [] else rest) nr').

(** [list_del_init(&wait->task_list)].  The stores of [__list_del] to the neighbours of the
    entry are one step: without the lock a link field is only compared with its own entry,
    and they never make a neighbour point to itself. *)
Definition scan_del (t : Z) (e : wait_queue_t) (rest : list wait_queue_t) (nr : Z) (ret : bool) : SM esys unit :=
  match wq_func e with
  | default_wake_function => round t e rest nr ret
  | autoremove_wake_function =>
    if ret then
      _ ← get_links (wq_task e);
      l ← gets (λ s, task_list (wait s));
      set_list (unqueue (wq_task e) l);;
      goto t (DelNext e rest nr)
    else round t e rest nr ret
  end.
Definition del_next (t : Z) (e : wait_queue_t) (rest : list wait_queue_t) (nr : Z) : SM esys unit :=
  k ← get_links (wq_task e);
  put_links (wq_task e) (mk_links true (prev_self k));;
  goto t (DelPrev e rest nr).
Definition del_prev (t : Z) (e : wait_queue_t) (rest : list wait_queue_t) (nr : Z) : SM esys unit :=
  k ← get_links (wq_task e);
  put_links (wq_task e) (mk_links (next_self k) true);;
  round t e rest nr true.

Definition continue (t : Z) (c : pc) : SM esys unit :=
  match c with
  | Run => mret tt
  | EPrep h => prepare_to_wait t h
  | ECond h => test_condition t h
  | ESig h => test_signal t h
  | ESched h => schedule t;; goto t (EWake h)
  | EWake h => goto t (EPrep h)
  | EFin h => set_current_state t TASK_RUNNING;; goto t (ETestNext h)
  | ETestNext h => finish_next t h
  | ETestPrev h => finish_prev t h
  | EDel _ => finish_del t
  | WLock nr => spin_lock t;; l ← gets (λ s, task_list (wait s)); goto t (Scan l nr)
  | Scan [] _ => spin_unlock;; goto t Run
  | Scan (e :: rest) nr => scan_wake t e rest nr
  | ScanDel e rest nr ret => scan_del t e rest nr ret
  | DelNext e rest nr => del_next t e rest nr
  | DelPrev e rest nr => del_prev t e rest nr
  end.

(** ** Interleaving *)

(** [CWait]: one of the macros, whose first test has seen no condition unless it
    returned at once; [CSignal]: set the condition, then wake; [CWake]: only wake;
    [CReset]: clear the condition. *)
Inductive call :=
| CWait (h : how)
| CSignal (nr : Z)
| CWake (nr : Z)
| CReset.

Definition do_call (t : Z) (c : call) : SM esys unit :=
  match c with
  | CWait h =>
    d ← get_data;
    if cond d then mret tt else put_links t unlinked;; goto t (EPrep h)
  | CSignal nr => set_cond true;; goto t (WLock nr)
  | CWake nr => goto t (WLock nr)
  | CReset => set_cond false
  end.

Inductive label :=
| Call (t : Z) (c : call)
| Next (t : Z)
| Expired (t : Z)
| Wakeup (t : Z) (mode : Z)
| Signal (t : Z) (b : bool).

Definition takes_lock (c : pc) : bool :=
  match c with EPrep _ | EDel _ | WLock _ => true | _ => false end.

(** [wake_up] and [wake_up_nr] with a positive number, [wake_up_all] with 0. *)
Definition call_ok (c : call) : bool :=
  match c with CSignal nr | CWake nr => (0 <=? nr) && (nr <? 2 ^ 31) | _ => true end.

Definition enabled (l : label) (s : esys) : bool :=
  match l with
  | Call t c => match tasks s !! t with Some (mk_task _ _ _ Run) => call_ok c | _ => false end
  | Next t =>
    match tasks s !! t with
    | Some (mk_task _ _ _ Run) | None => false
    | Some p => array p && (negb (takes_lock (here p)) || bool_decide (lock (wait s) = None))
    end
  | Expired t =>
    match tasks s !! t with Some (mk_task _ ar _ (EWake h)) => ar && timed h | _ => false end
  | Wakeup t _ => bool_decide (is_Some (tasks s !! t))
  | Signal t b => match tasks s !! t with Some (mk_task _ _ _ Run) => true | Some _ => b | None => false end
  end.

Definition exec (l : label) : SM esys unit :=
  match l with
  | Call t c => do_call t c
  | Next t => p ← get_task t; continue t (here p)
  | Expired t => p ← get_task t; match here p with EWake h => goto t (EFin h) | _ => bug end
  | Wakeup t mode => p ← get_task t; put_task t (try_to_wake_up mode p).2
  | Signal t b => p ← get_task t; put_task t (mk_task (state p) (array p) b (here p))
  end.

Definition idle : task pc := mk_task TASK_RUNNING true false Run.
Definition boot (cond : bool) (ts : gset Z) : esys :=
  mk_sys (mk_edata cond ∅) init_waitqueue_head (gset_to_gmap idle ts).

Inductive step : esys → esys → Prop :=
| step_exec l s s' : enabled l s = true → exec l s = (Ok tt, s') → step s s'.

Fixpoint run (ls : list label) (s : esys) : outcome esys :=
  match ls with
  | [] => Ok s
  | l :: ls' =>
    if enabled l s then
      match exec l s with
      | (Ok _, s') => run ls' s'
      | _ => Bug
      end
    else Err EAGAIN
  end.

End Event.
