(* ===== verification/EventFacts.v ===== *)
(** * Waiting for a condition: the invariant

    A task that sleeps is linked; the link fields of a wait structure say whether it is
    in the queue, unless the holder of the lock is unlinking it; while the condition holds, every non-exclusive task
    that sleeps or is about to is still ahead of some waker. *)

From stdpp Require Import prelude numbers list gmap.
From Stdlib Require Import ZArith Lia.
From S2P Require Import Prelude Waitq Event.

#[local] Set Default Goal Selector "!".
#[local] Open Scope Z_scope.

Module EventFacts.
Import Waitq Event.

Definition locked (c : pc) : bool :=
  match c with Scan _ _ | ScanDel _ _ _ _ | DelNext _ _ _ | DelPrev _ _ _ => true | _ => false end.

(** The wait structure of a task at [c] exists. *)
Definition frame (c : pc) : option how :=
  match c with
  | EPrep h | ECond h | ESig h | ESched h | EWake h | EFin h | ETestNext h | ETestPrev h | EDel h => Some h
  | _ => None
  end.

(** The entry whose own link fields a waker is about to change. *)
Definition unlinking (c : pc) : option Z :=
  match c with DelNext e _ _ | DelPrev e _ _ => Some (wq_task e) | _ => None end.

Definition linked (t : Z) (l : list wait_queue_t) : Prop := t ∈ wq_task <$> l.

Definition excl (e : wait_queue_t) : Prop := Z.land (wq_flags e) WQ_FLAG_EXCLUSIVE ≠ 0.

(** Exclusive waiters come last. *)
Definition ordered (l : list wait_queue_t) : Prop :=
  ∃ a b, l = a ++ b ∧ Forall (λ e, ¬ excl e) a ∧ Forall excl b.

(** Every entry belongs to a task that is still in its wait function. *)
Definition owned (l : list wait_queue_t) (T : gmap Z (task pc)) : Prop :=
  ∀ e, e ∈ l → ∃ p h, T !! wq_task e = Some p ∧ frame (here p) = Some h ∧ e = entry h (wq_task e).

Definition task_ok (t : Z) (l : list wait_queue_t) (p : task pc) : Prop :=
  match here p with
  | ECond h | ESig h | ESched h =>
      array p = true ∧ (state p = TASK_RUNNING ∨ (state p = sleep_state h ∧ linked t l))
  | EWake h =>
      (array p = true ∧ state p = TASK_RUNNING) ∨ (array p = false ∧ state p = sleep_state h ∧ linked t l)
  | EFin h => array p = true ∧ (state p = TASK_RUNNING ∨ state p = sleep_state h)
  | _ => array p = true ∧ state p = TASK_RUNNING
  end.

(** A waker after [__list_del]. *)
Definition half_ok (K : gmap Z links) (l : list wait_queue_t) (e : wait_queue_t) (rest : list wait_queue_t) (k : links) : Prop :=
  rest `suffix_of` l ∧ ¬ linked (wq_task e) l ∧ (excl e → Forall excl rest) ∧ K !! wq_task e = Some k.

Definition holder_ok (K : gmap Z links) (l : list wait_queue_t) (T : gmap Z (task pc)) (c : pc) : Prop :=
  match c with
  | Scan rest _ => rest `suffix_of` l
  | ScanDel e rest _ _ => (e :: rest) `suffix_of` l ∧ runs T (wq_task e)
  | DelNext e rest _ => half_ok K l e rest in_queue
  | DelPrev e rest _ => half_ok K l e rest (mk_links true false)
  | _ => True
  end.

(** The wait structures: each belongs to a task inside, and its fields are those of an entry
    in the queue, those of an entry out of it, or a waker is about to change them. *)
Record links_ok (K : gmap Z links) (l : list wait_queue_t) (T : gmap Z (task pc)) : Prop := {
  l_frame : ∀ t, is_Some (K !! t) ↔ ∃ p, T !! t = Some p ∧ frame (here p) ≠ None;
  l_in : ∀ t k, K !! t = Some k → linked t l → k = in_queue;
  l_out : ∀ t k, K !! t = Some k → ¬ linked t l →
    (∀ u p, T !! u = Some p → unlinking (here p) ≠ Some t) → k = unlinked;
}.

(** A task that a waker must not miss, and what a waker still has ahead. *)
Definition needs (p : task pc) : Prop :=
  match here p with
  | ESig h | ESched h | EWake h => exclusive h = false ∧ state p ≠ TASK_RUNNING
  | _ => False
  end.
Definition covers (x : Z) (c : pc) : Prop :=
  match c with
  | WLock _ => True
  | Scan rest _ | ScanDel _ rest _ _ | DelNext _ rest _ | DelPrev _ rest _ => linked x rest
  | _ => False
  end.
Definition cover (T : gmap Z (task pc)) : Prop :=
  ∀ x p, T !! x = Some p → needs p → ∃ u q, T !! u = Some q ∧ covers x (here q).

Record inv (cond : bool) (K : gmap Z links) (lk : option Z) (l : list wait_queue_t) (T : gmap Z (task pc)) : Prop := {
  e_holder : ∀ t p, T !! t = Some p → locked (here p) = true → lk = Some t;
  e_locked : ∀ t, lk = Some t → ∃ p, T !! t = Some p ∧ locked (here p) = true;
  e_nodup : NoDup (wq_task <$> l);
  e_order : ordered l;
  e_owned : owned l T;
  e_task : ∀ t p, T !! t = Some p → task_ok t l p;
  e_hold : ∀ t p, T !! t = Some p → holder_ok K l T (here p);
  e_links : links_ok K l T;
  e_cover : cond = true → cover T;
}.

Definition sys_inv (s : esys) : Prop := inv (cond (data s)) (frames (data s)) (lock (wait s)) (task_list (wait s)) (tasks s).

(** ** Entries *)

Lemma event_entry_task h t : wq_task (entry h t) = t.
Proof. unfold entry. by destruct (exclusive h). Qed.

Lemma entry_excl h t : excl (entry h t) ↔ exclusive h = true.
Proof.
  unfold entry, excl. destruct (exclusive h); (split; [intros H|done]); [done|].
  exfalso. by apply H.
Qed.

Lemma ordered_push h t l : exclusive h = false → ordered l → ordered (entry h t :: l).
Proof.
  intros E (a & b & -> & Ha & Hb). exists (entry h t :: a), b. split_and!; [done| |done].
  constructor; [rewrite entry_excl; congruence|done].
Qed.
Lemma ordered_append h t l : exclusive h = true → ordered l → ordered (l ++ [entry h t]).
Proof.
  intros E (a & b & -> & Ha & Hb). exists a, (b ++ [entry h t]). split_and!; [by rewrite <- app_assoc|done|].
  apply Forall_app. split; [done|]. constructor; [by rewrite entry_excl|constructor].
Qed.
Lemma ordered_unqueue t l : ordered l → ordered (unqueue t l).
Proof.
  intros (a & b & -> & Ha & Hb). exists (unqueue t a), (unqueue t b). split_and!; [apply filter_app| |];
    apply Forall_forall; intros e He%unqueue_sub; rewrite Forall_forall in Ha, Hb; auto.
Qed.
(** What follows an exclusive entry is exclusive. *)
Lemma ordered_after l e rest : ordered l → (e :: rest) `suffix_of` l → excl e → Forall excl rest.
Proof.
  intros (a & b & -> & Ha & Hb) [pre E] He. apply app_eq_inv in E as [(k & -> & Ek)|(k & -> & Ek)].
  - destruct k as [|x k]; cbn in Ek; [subst b; by inversion Hb|]. injection Ek as -> ->.
    apply Forall_app in Ha as [_ Ha]. inversion Ha; done.
  - rewrite Ek in Hb. apply Forall_app in Hb as [_ Hb]. by inversion Hb.
Qed.

Lemma suffix_unqueue e rest l : NoDup (wq_task <$> l) → (e :: rest) `suffix_of` l → rest `suffix_of` unqueue (wq_task e) l.
Proof.
  intros Hn [pre ->]. rewrite fmap_app, fmap_cons in Hn. apply NoDup_app in Hn as (_ & _ & [Hn _]%NoDup_cons).
  unfold unqueue. rewrite filter_app, filter_cons. rewrite decide_False by (intros E; by apply E).
  exists (filter (λ x, wq_task x ≠ wq_task e) pre). f_equal. apply list_filter_all, Forall_forall. intros x Hx E.
  apply Hn. apply list_elem_of_fmap. by exists x.
Qed.

Lemma linked_suffix x rest l : rest `suffix_of` l → linked x rest → linked x l.
Proof. intros [pre ->] Hx. unfold linked. rewrite fmap_app. apply elem_of_app. by right. Qed.

Lemma runs_keep (T : gmap Z (task pc)) t p p' u : T !! t = Some p →
  (u = t → state p = TASK_RUNNING → state p' = TASK_RUNNING) → runs T u → runs (<[t := p']> T) u.
Proof.
  intros Ht Hs (q & Hq & Hr). destruct (decide (u = t)) as [->|Hne].
  - exists p'. rewrite lookup_insert_eq. split; [done|]. apply Hs; congruence.
  - exists q. by rewrite lookup_insert_ne.
Qed.

Lemma sleep_ne h : sleep_state h ≠ TASK_RUNNING.
Proof. unfold sleep_state. by destruct (interruptible h). Qed.

Lemma task_ok_links t l l' p : (linked t l → linked t l' ∨ state p = TASK_RUNNING) → task_ok t l p → task_ok t l' p.
Proof.
  intros Hx Hok. unfold task_ok in *. destruct (here p); try solve [intuition].
  destruct Hok as [?|(Ha & Hs & Hl)]; [by left|right]. destruct (Hx Hl) as [?|E]; [done|].
  rewrite Hs in E. by destruct (sleep_ne h).
Qed.

(** ** Link fields *)

Section links.
Context (K : gmap Z links) (l : list wait_queue_t) (T : gmap Z (task pc)) (t : Z) (p p' : task pc).
Hypothesis HK : links_ok K l T.
Hypothesis Ht : T !! t = Some p.

(** The table of frames after a step of [t] that creates or ends frame [t] or none. *)
Lemma frames_after (K' : gmap Z links) : (∀ x, x ≠ t → is_Some (K' !! x) ↔ is_Some (K !! x)) → (is_Some (K' !! t) ↔ frame (here p') ≠ None) →
  ∀ x, is_Some (K' !! x) ↔ ∃ q, <[t := p']> T !! x = Some q ∧ frame (here q) ≠ None.
Proof.
  intros Ho Hn x. destruct (decide (x = t)) as [->|Hne].
  - rewrite Hn, lookup_insert_eq. split; [intros ?; by exists p'|by intros (q & [= <-] & ?)].
  - rewrite lookup_insert_ne, Ho by done. apply (l_frame _ _ _ HK).
Qed.

(** Nobody unlinks [x] before the step if nobody does after it and [t] did not. *)
Lemma unlinking_before x : (∀ u q, <[t := p']> T !! u = Some q → unlinking (here q) ≠ Some x) →
  unlinking (here p) ≠ Some x → ∀ u q, T !! u = Some q → unlinking (here q) ≠ Some x.
Proof.
  intros Hn Hp u q Hu. destruct (decide (u = t)) as [->|Hne]; [congruence|]. apply (Hn u q). by rewrite lookup_insert_ne.
Qed.

Lemma links_goto : (frame (here p') = None ↔ frame (here p) = None) →
  unlinking (here p) = None ∨ unlinking (here p') = unlinking (here p) → links_ok K l (<[t := p']> T).
Proof.
  intros Hf Hu. split.
  - apply frames_after; [done|]. rewrite (l_frame _ _ _ HK), Hf. split; [intros (q & Hq & ?); congruence|by exists p].
  - apply (l_in _ _ _ HK).
  - intros x k Hx Hl Hn. apply (l_out _ _ _ HK x k Hx Hl), (unlinking_before x Hn).
    destruct Hu as [-> |<-]; [done|]. apply (Hn t p'). apply lookup_insert_eq.
Qed.

(** [t] enters. *)
Lemma links_enter : frame (here p') ≠ None → unlinking (here p) = None → ¬ linked t l →
  links_ok (<[t := unlinked]> K) l (<[t := p']> T).
Proof.
  intros Hf Hu Hl. split.
  - apply frames_after; [intros x Hx; by rewrite lookup_insert_ne|]. rewrite lookup_insert_eq. by split.
  - intros x k [[<- <-]|[_ Hx]]%lookup_insert_Some Hlx; [done|]. by apply (l_in _ _ _ HK x).
  - intros x k [[<- <-]|[_ Hx]]%lookup_insert_Some Hlx Hn; [done|].
    apply (l_out _ _ _ HK x k Hx Hlx), (unlinking_before x Hn). by rewrite Hu.
Qed.

(** [t] leaves; [l'] may lack its entry. *)
Lemma links_leave l' : frame (here p') = None → unlinking (here p) = None → (∀ x, x ≠ t → linked x l' ↔ linked x l) →
  links_ok (delete t K) l' (<[t := p']> T).
Proof.
  intros Hf Hu Hl. split.
  - apply frames_after; [intros x Hx; by rewrite lookup_delete_ne|]. rewrite lookup_delete_eq, Hf. split; [by intros []|done].
  - intros x k [Hne Hx]%lookup_delete_Some Hlx. apply (l_in _ _ _ HK x k Hx). by apply Hl.
  - intros x k [Hne Hx]%lookup_delete_Some Hlx Hn. apply (l_out _ _ _ HK x k Hx); [by rewrite <- Hl|].
    apply (unlinking_before x Hn). by rewrite Hu.
Qed.

(** [t] links its entry. *)
Lemma links_add l' : frame (here p') ≠ None → unlinking (here p) = None → linked t l' → (∀ x, x ≠ t → linked x l' ↔ linked x l) →
  links_ok (<[t := in_queue]> K) l' (<[t := p']> T).
Proof.
  intros Hf Hu Hlt Hl. split.
  - apply frames_after; [intros x Hx; by rewrite lookup_insert_ne|]. rewrite lookup_insert_eq. by split.
  - intros x k [[<- <-]|[Hne Hx]]%lookup_insert_Some Hlx; [done|]. apply (l_in _ _ _ HK x k Hx). by apply Hl.
  - intros x k [[<- <-]|[Hne Hx]]%lookup_insert_Some Hlx Hn; [done|].
    apply (l_out _ _ _ HK x k Hx); [by rewrite <- Hl|]. apply (unlinking_before x Hn). by rewrite Hu.
Qed.

(** A waker takes entry [y] out of the queue, and changes its fields. *)
Lemma links_cut y : frame (here p) = None → frame (here p') = None → unlinking (here p) = None → unlinking (here p') = Some y →
  links_ok K (unqueue y l) (<[t := p']> T).
Proof.
  intros Hf Hf' Hu Hu'. split.
  - apply frames_after; [done|]. rewrite (l_frame _ _ _ HK), Hf'. split; [intros (q & Hq & ?); congruence|done].
  - intros x k Hx [_ Hl]%unqueue_elem. by apply (l_in _ _ _ HK x).
  - intros x k Hx Hl Hn. assert (x ≠ y) as Hne.
    { intros ->. destruct (Hn t p'); [apply lookup_insert_eq|done]. }
    apply (l_out _ _ _ HK x k Hx); [|apply (unlinking_before x Hn); by rewrite Hu].
    intros Hlx. apply Hl, unqueue_elem. by split.
Qed.
Lemma links_store y k' : frame (here p) = None → frame (here p') = None → unlinking (here p) = Some y → is_Some (K !! y) →
  ¬ linked y l → unlinking (here p') = Some y ∨ (unlinking (here p') = None ∧ k' = unlinked) →
  links_ok (<[y := k']> K) l (<[t := p']> T).
Proof.
  intros Hf Hf' Hu Hy Hly Hu'. split.
  - assert (∀ x, is_Some (<[y := k']> K !! x) ↔ is_Some (K !! x)) as Hd.
    { intros x. destruct (decide (x = y)) as [->|Hne]; [rewrite lookup_insert_eq; by split|by rewrite lookup_insert_ne]. }
    apply frames_after; [done|]. rewrite Hd, (l_frame _ _ _ HK), Hf'. split; [intros (q & Hq & ?); congruence|done].
  - intros x k [[<- _]|[_ Hx]]%lookup_insert_Some Hlx; [done|]. by apply (l_in _ _ _ HK x).
  - intros x k [[<- <-]|[Hne Hx]]%lookup_insert_Some Hlx Hn.
    + destruct Hu' as [Hu'|[_ ?]]; [|done]. destruct (Hn t p'); [apply lookup_insert_eq|done].
    + apply (l_out _ _ _ HK x k Hx Hlx), (unlinking_before x Hn). rewrite Hu. congruence.
Qed.
End links.

(** ** A step of one task *)

Lemma event_inv_step cond K lk l T t p p' cond' K' lk' l' :
  inv cond K lk l T → T !! t = Some p →
  lk' = (if locked (here p') then Some t else if locked (here p) then None else lk) →
  (locked (here p') = true → locked (here p) = true ∨ lk = None) →
  NoDup (wq_task <$> l') → ordered l' → owned l' (<[t := p']> T) →
  (∀ x q, x ≠ t → T !! x = Some q → linked x l → linked x l' ∨ state q = TASK_RUNNING) →
  task_ok t l' p' →
  holder_ok K' l' (<[t := p']> T) (here p') → links_ok K' l' (<[t := p']> T) →
  (locked (here p) = false → locked (here p') = false → lk ≠ None →
     l' = l ∧ (state p = TASK_RUNNING → state p' = TASK_RUNNING) ∧
     ∀ x k, K !! x = Some k → k ≠ unlinked → ¬ linked x l → K' !! x = Some k) →
  (cond' = true → (needs p' → cond = true ∧ needs p) ∧
     ((∀ x, covers x (here p')) ∨
      cond = true ∧ ∀ x q, T !! x = Some q → needs q → covers x (here p) → covers x (here p'))) →
  inv cond' K' lk' l' (<[t := p']> T).
Proof.
  intros H Ht -> Hlk Hn Ho Hown Hlink Hok Hhold HK Hother Hcov. split; [..|done|done|done| | |done|].
  - intros u q Hu Hlq. destruct (decide (u = t)) as [->|Hne].
    + rewrite lookup_insert_eq in Hu. injection Hu as <-. by rewrite Hlq.
    + rewrite lookup_insert_ne in Hu by done. pose proof (e_holder _ _ _ _ _ H u q Hu Hlq) as ->.
      destruct (locked (here p')).
      * destruct (Hlk eq_refl) as [Hp|]; [|done]. pose proof (e_holder _ _ _ _ _ H t p Ht Hp). congruence.
      * destruct (locked (here p)) eqn:Hp; [|done]. pose proof (e_holder _ _ _ _ _ H t p Ht Hp). congruence.
  - intros u. destruct (locked (here p')) eqn:Hp'.
    + intros [= <-]. exists p'. by rewrite lookup_insert_eq.
    + destruct (locked (here p)) eqn:Hp; [done|]. intros Hu. destruct (e_locked _ _ _ _ _ H u Hu) as (q & Hq' & ?).
      exists q. rewrite lookup_insert_ne; [done|]. intros <-. congruence.
  - intros u q Hu. destruct (decide (u = t)) as [->|Hne].
    + rewrite lookup_insert_eq in Hu. by injection Hu as <-.
    + rewrite lookup_insert_ne in Hu by done. pose proof (e_task _ _ _ _ _ H u q Hu) as Hq.
      pose proof (Hlink u q Hne Hu) as Hx. by eapply task_ok_links.
  - intros u q Hu. destruct (decide (u = t)) as [->|Hne].
    { rewrite lookup_insert_eq in Hu. by injection Hu as <-. }
    rewrite lookup_insert_ne in Hu by done. destruct (locked (here q)) eqn:Hlq; [|by destruct (here q)].
    pose proof (e_holder _ _ _ _ _ H u q Hu Hlq) as El.
    assert (locked (here p) = false) as Hp.
    { destruct (locked (here p)) eqn:E; [|done]. pose proof (e_holder _ _ _ _ _ H t p Ht E). congruence. }
    assert (locked (here p') = false) as Hp'.
    { destruct (locked (here p')) eqn:E; [|done]. destruct (Hlk eq_refl); congruence. }
    destruct (Hother Hp Hp' ltac:(congruence)) as (-> & Hst & HKx). pose proof (e_hold _ _ _ _ _ H u q Hu) as Hh.
    unfold holder_ok, half_ok in *. destruct (here q); try done.
    + destruct Hh as [? Hr]. split; [done|]. by eapply runs_keep.
    + destruct Hh as (? & ? & ? & ?). split_and!; [done..|]. by apply HKx.
    + destruct Hh as (? & ? & ? & ?). split_and!; [done..|]. by apply HKx.
  - intros Hc x q Hx Hq. destruct (Hcov Hc) as [Hneed Hcv].
    assert (cond = true → ∃ q0, T !! x = Some q0 ∧ needs q0) as Hold.
    { intros Hc0. destruct (decide (x = t)) as [->|Hne].
      - rewrite lookup_insert_eq in Hx. injection Hx as <-. exists p. split; [done|]. by apply Hneed.
      - rewrite lookup_insert_ne in Hx by done. by exists q. }
    destruct Hcv as [Hall|[Hc0 Hkeep]]; [exists t, p'; by rewrite lookup_insert_eq|].
    destruct (Hold Hc0) as (q0 & Hq0 & Hn0). destruct (e_cover _ _ _ _ _ H Hc0 x q0 Hq0 Hn0) as (u & r & Hr & Hcr).
    destruct (decide (u = t)) as [->|Hne].
    + exists t, p'. rewrite lookup_insert_eq. split; [done|]. assert (r = p) as -> by congruence. by eapply Hkeep.
    + exists u, r. by rewrite lookup_insert_ne.
Qed.

(** A step that does not change the queue. *)
Lemma owned_same l T t p p' : owned l T → T !! t = Some p → (linked t l → frame (here p') = frame (here p)) →
  owned l (<[t := p']> T).
Proof.
  intros Ho Ht Hf e He. destruct (Ho e He) as (q & h & Hq & Hh & Ee). destruct (decide (wq_task e = t)) as [E|Hne].
  - exists p', h. rewrite E, lookup_insert_eq. assert (q = p) as -> by congruence. split_and!; [done| |by rewrite <- E].
    rewrite Hf; [done|]. apply list_elem_of_fmap. by exists e.
  - exists q, h. by rewrite lookup_insert_ne.
Qed.

Lemma inv_goto cond K lk l T t p p' cond' lk' :
  inv cond K lk l T → T !! t = Some p →
  lk' = (if locked (here p') then Some t else if locked (here p) then None else lk) →
  (locked (here p') = true → locked (here p) = true ∨ lk = None) →
  frame (here p') = frame (here p) →
  unlinking (here p) = None ∨ unlinking (here p') = unlinking (here p) →
  task_ok t l p' → holder_ok K l (<[t := p']> T) (here p') →
  (state p = TASK_RUNNING → state p' = TASK_RUNNING) →
  (cond' = true → (needs p' → cond = true ∧ needs p) ∧
     ((∀ x, covers x (here p')) ∨
      cond = true ∧ ∀ x q, T !! x = Some q → needs q → covers x (here p) → covers x (here p'))) →
  inv cond' K lk' l (<[t := p']> T).
Proof.
  intros H Ht Hlk' Hlk Hf Hu Hok Hh Hst Hcov. eapply event_inv_step; try done.
  - apply (e_nodup _ _ _ _ _ H).
  - apply (e_order _ _ _ _ _ H).
  - eapply owned_same; [apply (e_owned _ _ _ _ _ H)|exact Ht|done].
  - auto.
  - eapply links_goto; [apply (e_links _ _ _ _ _ H)|exact Ht|by rewrite Hf|done].
Qed.

(** A change of a task from outside. *)
Lemma event_inv_poke cond K lk l T t p st ar sg : inv cond K lk l T → T !! t = Some p →
  let p' := mk_task st ar sg (here p) in
  task_ok t l p' → (state p = TASK_RUNNING → st = TASK_RUNNING) → inv cond K lk l (<[t := p']> T).
Proof.
  intros H Ht p' Hok Hst. eapply inv_goto; [exact H|exact Ht|..]; cbn; try done.
  - destruct (locked (here p)) eqn:E; [|done]. by rewrite (e_holder _ _ _ _ _ H t p Ht E).
  - auto.
  - by right.
  - pose proof (e_hold _ _ _ _ _ H t p Ht) as Hh. unfold holder_ok in *. destruct (here p); try done.
    destruct Hh as [? Hr]. split; [done|]. eapply runs_keep; [exact Ht|done|done].
  - intros ->. split; [|right; split; auto]. intros Hn. split; [done|]. unfold needs in *. cbn in Hn.
    destruct (here p); try done; destruct Hn as [? Hn]; split; auto.
Qed.

End EventFacts.
