(* ===== verification/EventSteps.v ===== *)
(** * Waiting for a condition: every step keeps the invariant *)

From stdpp Require Import prelude numbers list gmap.
From Stdlib Require Import ZArith Lia.
From S2P Require Import Prelude Waitq Event EventFacts.

#[local] Set Default Goal Selector "!".
#[local] Open Scope Z_scope.

Module EventSteps.
Import Waitq Event EventFacts.

Ltac wrun := wrun_with ltac:(cbn [cond frames]).

Definition est (b : bool) (K : gmap Z links) (lk : option Z) (l : list wait_queue_t) (T : gmap Z (task pc)) : esys :=
  mk_sys (mk_edata b K) (mk_head lk l) T.

Ltac eunfold :=
  unfold est, list_del_init, goto, set_current_state, signal_pending, schedule, __add_wait_queue, __add_wait_queue_tail;
  unfold put_task, put_links, set_cond, leave, get_data, put_data, spin_unlock, set_list; unfold goto; unfold put_task; cbv zeta.

Definition keeps (m : SM esys unit) (s : esys) : Prop := wp m (λ _ s', sys_inv s') (λ _ _, False) s.

Lemma wp_get_links t k (Φ : links → esys → Prop) Ψ s :
  frames (data s) !! t = Some k → Φ k s → wp (get_links t) Φ Ψ s.
Proof. intros Hk HΦ. unfold get_links, get_data. apply wp_bind, wp_gets. rewrite Hk. by apply wp_ret. Qed.

Section steps.
Context (b : bool) (K : gmap Z links) (lk : option Z) (l : list wait_queue_t) (T : gmap Z (task pc)) (t : Z).
Hypothesis H : inv b K lk l T.

Abbreviation s := (est b K lk l T).

Lemma event_held p : T !! t = Some p → locked (here p) = true → lk = Some t.
Proof. apply (e_holder _ _ _ _ _ H). Qed.

Lemma not_linked p : T !! t = Some p → frame (here p) = None → ¬ linked t l.
Proof.
  intros Ht Hf (e & -> & He)%list_elem_of_fmap. destruct (e_owned _ _ _ _ _ H e He) as (q & h & Hq & Hh & _). congruence.
Qed.

Lemma needs_linked x q : T !! x = Some q → needs q → linked x l.
Proof.
  intros Hx Hn. pose proof (e_task _ _ _ _ _ H x q Hx) as Hok. unfold needs, task_ok in *.
  destruct (here q); try done; destruct Hn as [_ Hn]; intuition.
Qed.

(** The wait structure of a task inside. *)
Lemma frame_links p : T !! t = Some p → frame (here p) ≠ None → ∃ k, K !! t = Some k.
Proof. intros Ht Hf. apply (l_frame _ _ _ (e_links _ _ _ _ _ H)). by exists p. Qed.
Lemma no_frame p : T !! t = Some p → frame (here p) = None → K !! t = None.
Proof.
  intros Ht Hf. apply eq_None_not_Some. rewrite (l_frame _ _ _ (e_links _ _ _ _ _ H)). intros (q & Hq & ?). congruence.
Qed.

(** An entry with a link field that points to itself is not in the queue. *)
Lemma self_not_linked k : K !! t = Some k → next_self k = true ∨ prev_self k = true → ¬ linked t l.
Proof. intros Hk Hs Hl. rewrite (l_in _ _ _ (e_links _ _ _ _ _ H) t k Hk Hl) in Hs. by destruct Hs. Qed.

(** While the lock is free the fields of an entry tell whether it is queued. *)
Lemma free_links k : lk = None → K !! t = Some k → k = if queued_in t l then in_queue else unlinked.
Proof.
  intros Hl Hk. destruct (queued_in t l) eqn:E.
  - apply (l_in _ _ _ (e_links _ _ _ _ _ H) t k Hk). by apply bool_decide_eq_true in E.
  - apply (l_out _ _ _ (e_links _ _ _ _ _ H) t k Hk); [by apply bool_decide_eq_false in E|].
    intros u p Hu E'. assert (locked (here p) = true) as Hlk by (by destruct (here p)).
    pose proof (e_holder _ _ _ _ _ H u p Hu Hlk). congruence.
Qed.

(** [prev] is the field that is set last. *)
Lemma prev_self_unlinked k : K !! t = Some k → prev_self k = true → k = unlinked.
Proof.
  intros Hk Hs. apply (l_out _ _ _ (e_links _ _ _ _ _ H) t k Hk); [eapply self_not_linked; eauto|].
  intros u p Hu E. pose proof (e_hold _ _ _ _ _ H u p Hu) as Hh.
  unfold unlinking, holder_ok, half_ok in *. destruct (here p); try done; injection E as E; rewrite E, Hk in Hh;
    destruct Hh as (_ & _ & _ & [= ->]); done.
Qed.

Ltac at_is p Hpc Ht :=
  let st := fresh "st" in let ar := fresh "ar" in let sg := fresh "sg" in let k := fresh "k" in
  destruct p as [st ar sg k]; cbn in Hpc; subst k; pose proof (e_task _ _ _ _ _ H t _ Ht) as Hok; cbn in Hok.

(** The conditions of [inv_goto] that hold by computation. *)
Ltac igoto :=
  unfold sys_inv; cbn [data wait tasks lock task_list cond frames];
  lazymatch goal with Ht : T !! t = Some _ |- _ =>
    eapply inv_goto; [exact H|exact Ht|..];
    [ try done | try (cbn; intros; solve [auto | done])
    | try done
    | try solve [by left | by right]
    | cbn; try solve [done | auto | intuition done] | try (cbn; done) | cbn; try solve [done | auto]
    | try solve [ done | let E := fresh in intros E; split; [done|right; split; done] | intros _; split; [done|left; done]
                | let E := fresh in cbn; intros E; split; [intros ?; split; [done|]; cbn; intuition | right; split; done] ] ]
  end.

(** ** Calls *)

Lemma wait_keeps h p : T !! t = Some p → here p = Run → keeps (do_call t (CWait h)) s.
Proof.
  intros Ht Hpc. at_is p Hpc Ht. unfold keeps, do_call. eunfold. wrun.
  case_eq b; intros E; wrun; [rewrite <- E; apply H|]. pose proof (not_linked _ Ht eq_refl) as Hnl.
  pose proof (no_frame _ Ht eq_refl) as Hk. unfold sys_inv. cbn.
  eapply event_inv_step; [exact H|exact Ht|..]; cbn; try done.
  - apply (e_nodup _ _ _ _ _ H).
  - apply (e_order _ _ _ _ _ H).
  - eapply owned_same; [apply (e_owned _ _ _ _ _ H)|exact Ht|done].
  - auto.
  - by eapply links_enter; [apply (e_links _ _ _ _ _ H)|exact Ht|..].
  - intros _ _ _. split_and!; [done..|]. intros x k Hx _ _. rewrite lookup_insert_ne; congruence.
Qed.

Lemma signal_keeps nr p : T !! t = Some p → here p = Run → keeps (do_call t (CSignal nr)) s.
Proof. intros Ht Hpc. at_is p Hpc Ht. unfold keeps, do_call. eunfold. wrun. igoto. Qed.
Lemma wakeup_keeps nr p : T !! t = Some p → here p = Run → keeps (do_call t (CWake nr)) s.
Proof. intros Ht Hpc. at_is p Hpc Ht. unfold keeps, do_call. eunfold. wrun. igoto. Qed.
Lemma reset_keeps : keeps (do_call t CReset) s.
Proof. unfold keeps, do_call. eunfold. wrun. unfold sys_inv. cbn. destruct H. by split. Qed.

(** ** The waiter *)

Lemma cond_keeps h p : T !! t = Some p → here p = ECond h → keeps (continue t (ECond h)) s.
Proof.
  intros Ht Hpc. at_is p Hpc Ht. unfold keeps, continue, test_condition. eunfold. wrun. case_eq b; intros E; wrun.
  - igoto.
  - destruct (interruptible h); igoto.
Qed.

Lemma event_sig_keeps h p : T !! t = Some p → here p = ESig h → keeps (continue t (ESig h)) s.
Proof.
  intros Ht Hpc. at_is p Hpc Ht. unfold keeps, continue, test_signal. eunfold. wrun. destruct sg; igoto.
Qed.

Lemma fin_keeps h p : T !! t = Some p → here p = EFin h → keeps (continue t (EFin h)) s.
Proof. intros Ht Hpc. at_is p Hpc Ht. unfold keeps, continue. eunfold. wrun. igoto. Qed.

Lemma event_wake_keeps h p : T !! t = Some p → here p = EWake h → array p = true → keeps (continue t (EWake h)) s.
Proof.
  intros Ht Hpc Har. at_is p Hpc Ht. cbn in Har. subst ar. destruct Hok as [[_ ->]|[? _]]; [|done].
  unfold keeps, continue. eunfold. wrun. igoto.
Qed.

Lemma expired_keeps h p : T !! t = Some p → here p = EWake h → array p = true → keeps (goto t (EFin h)) s.
Proof.
  intros Ht Hpc Har. at_is p Hpc Ht. cbn in Har. subst ar. destruct Hok as [[_ ->]|[? _]]; [|done].
  unfold keeps. eunfold. wrun. igoto.
Qed.

Lemma event_sched_keeps h p : T !! t = Some p → here p = ESched h → keeps (continue t (ESched h)) s.
Proof.
  intros Ht Hpc. at_is p Hpc Ht. unfold keeps, continue. eunfold. wrun.
  destruct Hok as [-> Hst]. unfold sched_out. cbn [state array sigpending here].
  destruct (Z.eqb_spec st TASK_RUNNING) as [->|Hne]; cbn [state array sigpending].
  { igoto. }
  destruct Hst as [?|[-> Hl]]; [done|].
  destruct (negb (Z.land (sleep_state h) TASK_INTERRUPTIBLE =? 0) && sg); cbn [state array sigpending]; igoto.
Qed.

Lemma test_next_keeps h p : T !! t = Some p → here p = ETestNext h → keeps (continue t (ETestNext h)) s.
Proof.
  intros Ht Hpc. at_is p Hpc Ht. destruct (frame_links _ Ht ltac:(done)) as [k Hk].
  unfold keeps, continue, finish_next. eunfold. eapply wp_bind, wp_get_links; [exact Hk|]. wrun.
  destruct (next_self k); igoto.
Qed.

(** The entry is out of the queue and nobody is about to write to it. *)
Lemma test_prev_keeps h p : T !! t = Some p → here p = ETestPrev h → keeps (continue t (ETestPrev h)) s.
Proof.
  intros Ht Hpc. at_is p Hpc Ht. destruct (frame_links _ Ht ltac:(done)) as [k Hk].
  unfold keeps, continue, finish_prev. eunfold. eapply wp_bind, wp_get_links; [exact Hk|].
  destruct (prev_self k) eqn:E; wrun; [|igoto].
  assert (¬ linked t l) as Hnl by (eapply self_not_linked; eauto). unfold sys_inv. cbn.
  eapply event_inv_step; [exact H|exact Ht|..]; cbn; try done.
  - apply (e_nodup _ _ _ _ _ H).
  - apply (e_order _ _ _ _ _ H).
  - eapply owned_same; [apply (e_owned _ _ _ _ _ H)|exact Ht|done].
  - auto.
  - by eapply links_leave; [apply (e_links _ _ _ _ _ H)|exact Ht|..].
  - intros _ _ Hlk. split_and!; [done..|]. intros x k' Hx Hne Hnx. apply lookup_delete_Some. split; [|done].
    intros <-. destruct Hne. assert (k' = k) as -> by congruence. by apply prev_self_unlinked.
  - intros Eb. split; [done|right]. split; [done|by intros].
Qed.

(** ** Linking and unlinking *)

(** While the lock is free the only covering tasks are wakers before their scan. *)
Lemma free_hold p : T !! t = Some p → lk = None → holder_ok K l T (here p) ∧ locked (here p) = false.
Proof.
  intros Ht Hl. split; [apply (e_hold _ _ _ _ _ H t p Ht)|]. destruct (locked (here p)) eqn:E; [|done].
  pose proof (event_held p Ht E). congruence.
Qed.

Lemma linked_queued x : queued_in x l = true ↔ linked x l.
Proof. apply bool_decide_eq_true. Qed.

Definition prepared (h : how) : list wait_queue_t :=
  if queued_in t l then l else if exclusive h then l ++ [entry h t] else entry h t :: l.

Lemma prepared_linked h x : linked x (prepared h) ↔ x = t ∨ linked x l.
Proof.
  unfold prepared, linked. destruct (queued_in t l) eqn:E.
  - apply linked_queued in E. split; [by right|]. by intros [->|?].
  - destruct (exclusive h).
    + rewrite fmap_app, elem_of_app, fmap_cons, fmap_nil, list_elem_of_singleton, event_entry_task. tauto.
    + rewrite fmap_cons, elem_of_cons, event_entry_task. tauto.
Qed.

Lemma prepared_elem h e : e ∈ prepared h → e ∈ l ∨ (e = entry h t ∧ ¬ linked t l).
Proof.
  unfold prepared. destruct (queued_in t l) eqn:E; [by left|].
  assert (¬ linked t l) as Hn by (by rewrite <- linked_queued, E).
  destruct (exclusive h); [rewrite elem_of_app, list_elem_of_singleton|rewrite elem_of_cons]; intuition.
Qed.

Lemma prepared_nodup h : NoDup (wq_task <$> prepared h).
Proof.
  pose proof (e_nodup _ _ _ _ _ H) as Hn. unfold prepared. destruct (queued_in t l) eqn:E; [done|].
  assert (¬ linked t l) as Hnl by (by rewrite <- linked_queued, E). destruct (exclusive h).
  - rewrite fmap_app. apply NoDup_app. split_and!; [done| |apply NoDup_singleton].
    intros x Hx [->|[]%not_elem_of_nil]%elem_of_cons. by rewrite event_entry_task in Hx.
  - rewrite fmap_cons, event_entry_task. by apply NoDup_cons.
Qed.

Lemma prepared_ordered h : ordered (prepared h).
Proof.
  pose proof (e_order _ _ _ _ _ H). unfold prepared. destruct (queued_in t l); [done|].
  destruct (exclusive h) eqn:E; [by apply ordered_append|by apply ordered_push].
Qed.

Lemma prep_inv h p ar sg : T !! t = Some p → here p = EPrep h → lk = None → array p = true → ar = true →
  inv b (<[t := in_queue]> K) lk (prepared h) (<[t := mk_task (sleep_state h) ar sg (ECond h)]> T).
Proof.
  intros Ht Hpc Hlk Har ->. eapply event_inv_step; [exact H|exact Ht|..]; rewrite ?Hpc; cbn; try done.
  - apply prepared_nodup.
  - apply prepared_ordered.
  - intros e [He|[-> _]]%prepared_elem.
    + eapply owned_same; [apply (e_owned _ _ _ _ _ H)|exact Ht|by rewrite Hpc|done].
    + rewrite event_entry_task. eexists _, h. by rewrite lookup_insert_eq.
  - intros x q _ _ Hx. left. apply prepared_linked. by right.
  - split; [done|right]. split; [done|]. apply prepared_linked. by left.
  - eapply links_add; [apply (e_links _ _ _ _ _ H)|exact Ht|done|by rewrite Hpc|apply prepared_linked; by left|].
    intros x Hx. rewrite prepared_linked. tauto.
  - intros E. split; [done|right]. split; [done|by intros].
Qed.

Lemma prep_keeps h p : T !! t = Some p → here p = EPrep h → lk = None → keeps (continue t (EPrep h)) s.
Proof.
  intros Ht Hpc Hlk. at_is p Hpc Ht. destruct Hok as [-> ->].
  pose proof (prep_inv h _ true sg Ht eq_refl Hlk eq_refl eq_refl) as Hi. unfold prepared in Hi.
  destruct (frame_links _ Ht ltac:(done)) as [k Hk]. pose proof (free_links k Hlk Hk) as Ek.
  unfold keeps, continue, prepare_to_wait, when. eunfold. wrun. eapply wp_get_links; [exact Hk|].
  rewrite Hlk in Hi. rewrite Ek. destruct (queued_in t l); cbn [next_self in_queue unlinked].
  - rewrite Ek in Hk. rewrite insert_id in Hi by done. wrun. exact Hi.
  - destruct (exclusive h); wrun; exact Hi.
Qed.

Lemma owned_unqueue u T' : owned l T' → owned (unqueue u l) T'.
Proof. intros Ho e He%unqueue_sub. by apply Ho. Qed.

Lemma del_keeps h p : T !! t = Some p → here p = EDel h → lk = None → keeps (continue t (EDel h)) s.
Proof.
  intros Ht Hpc Hlk. at_is p Hpc Ht. destruct (frame_links _ Ht ltac:(done)) as [k Hk].
  unfold keeps, continue, finish_del. eunfold. wrun. eapply wp_get_links; [exact Hk|]. wrun.
  rewrite delete_insert_eq. unfold sys_inv. cbn.
  eapply event_inv_step; [exact H|exact Ht|..]; cbn; try done.
  - apply unqueue_nodup, (e_nodup _ _ _ _ _ H).
  - apply ordered_unqueue, (e_order _ _ _ _ _ H).
  - intros e He. pose proof (unqueue_sub _ _ _ He) as He'. destruct (e_owned _ _ _ _ _ H e He') as (q & k' & Hq & Hf & Ee).
    apply list_elem_of_filter in He as [Hne _]. exists q, k'. by rewrite lookup_insert_ne.
  - intros x q Hne _ Hx. left. by apply unqueue_elem.
  - eapply links_leave; [apply (e_links _ _ _ _ _ H)|exact Ht|done..|]. intros x Hx. unfold linked. rewrite unqueue_elem. tauto.
  - intros E. split; [done|right]. split; [done|by intros].
Qed.

(** ** Wakers *)

Lemma wlock_keeps nr p : T !! t = Some p → here p = WLock nr → lk = None → keeps (continue t (WLock nr)) s.
Proof.
  intros Ht Hpc Hlk. at_is p Hpc Ht. unfold keeps, continue. eunfold. wrun. igoto.
  intros E. split; [done|right]. split; [done|]. intros x q Hx Hn _. by eapply needs_linked.
Qed.

Lemma event_scan_end_keeps nr p : T !! t = Some p → here p = Scan [] nr → keeps (continue t (Scan [] nr)) s.
Proof.
  intros Ht Hpc. at_is p Hpc Ht. pose proof (event_held _ Ht eq_refl) as Hl. unfold keeps, continue. eunfold. wrun. igoto.
  intros E. split; [done|right]. split; [done|]. intros x q _ _ Hx. cbn in Hx. by apply not_elem_of_nil in Hx.
Qed.

Lemma event_wake_task_ok mode u q : task_ok u l q → task_ok u l (try_to_wake_up mode q).2.
Proof. unfold try_to_wake_up. case_zb; [done|]. unfold task_ok. cbn. destruct (here q); intuition. Qed.

Lemma poke_wake mode u q : T !! u = Some q → inv b K lk l (<[u := (try_to_wake_up mode q).2]> T).
Proof.
  intros Hu. pose proof (event_wake_task_ok mode u q (e_task _ _ _ _ _ H u q Hu)) as Hok.
  pose proof (wake_running mode q) as Hr. pose proof (wake_here mode q) as Eh.
  destruct (try_to_wake_up mode q).2 as [st ar sg x]. cbn in *. subst x. by apply event_inv_poke.
Qed.

End steps.

(** The task of an entry runs after its wake-up. *)
Lemma event_wake_runs t l q h : task_ok t l q → frame (here q) = Some h → state (try_to_wake_up TASK_NORMAL q).2 = TASK_RUNNING.
Proof.
  intros Hok Hf. unfold try_to_wake_up. destruct (Z.eqb_spec (Z.land (state q) TASK_NORMAL) 0) as [E|E]; [|done]. cbn.
  assert (state q = TASK_RUNNING ∨ ∃ h, state q = sleep_state h) as [?|[k Ek]]; [|done|].
  - unfold task_ok in Hok. destruct (here q); try done; intuition eauto.
  - rewrite Ek in E. unfold sleep_state in E. by destruct (interruptible k).
Qed.

(** A queued entry can be touched. *)
Lemma queued_links b K lk l T e : inv b K lk l T → e ∈ l → K !! wq_task e = Some in_queue.
Proof.
  intros H He. destruct (e_owned _ _ _ _ _ H e He) as (q & h & Hq & Hf & _).
  destruct (proj2 (l_frame _ _ _ (e_links _ _ _ _ _ H) (wq_task e))) as [k Hk]; [exists q; by rewrite Hf|].
  rewrite Hk. f_equal. apply (l_in _ _ _ (e_links _ _ _ _ _ H) _ _ Hk). apply list_elem_of_fmap. by exists e.
Qed.

Lemma event_scan_keeps b K lk l T t e rest nr p : inv b K lk l T → T !! t = Some p → here p = Scan (e :: rest) nr →
  keeps (continue t (Scan (e :: rest) nr)) (est b K lk l T).
Proof.
  intros H Ht Hpc. destruct p as [st ar sg x]. cbn in Hpc. subst x.
  pose proof (e_holder _ _ _ _ _ H t _ Ht eq_refl) as Hl. pose proof (e_task _ _ _ _ _ H t _ Ht) as Hok.
  pose proof (e_hold _ _ _ _ _ H t _ Ht) as Hsuf. cbn in Hsuf.
  pose proof (elem_of_suffix e _ _ Hsuf ltac:(by left)) as He. destruct (e_owned _ _ _ _ _ H e He) as (q & h & Hq & Hf & Ee).
  assert (wq_task e ≠ t) as Hne by (intros E; rewrite E, Ht in Hq; by injection Hq as <-).
  pose proof (event_wake_runs _ _ _ _ (e_task _ _ _ _ _ H _ _ Hq) Hf) as Hrun. pose proof (poke_wake _ _ _ _ _ H TASK_NORMAL _ _ Hq) as H1.
  unfold keeps, continue, scan_wake, wake_task. eunfold. eapply wp_bind, wp_get_links; [by eapply queued_links|]. wrun.
  set (q' := (try_to_wake_up TASK_NORMAL q).2) in *. set (T1 := <[wq_task e := q']> T) in *.
  assert (T1 !! t = Some (mk_task st ar sg (Scan (e :: rest) nr))) as Ht1 by (unfold T1; by rewrite lookup_insert_ne).
  wrun. unfold sys_inv. cbn [data wait tasks lock task_list cond frames].
  eapply inv_goto; [exact H1|exact Ht1|..]; cbn; try done.
  - by left.
  - by left.
  - split; [done|]. exists q'. by rewrite lookup_insert_ne; [unfold T1; rewrite lookup_insert_eq|].
  - intros E. split; [done|right]. split; [done|]. intros x r Hx Hn [E'|Hr]%elem_of_cons; [|done].
    subst x. unfold T1 in Hx. rewrite lookup_insert_eq in Hx. injection Hx as <-. unfold needs in Hn.
    destruct (here q'); try done; by destruct Hn.
Qed.

Section wakers.
Context (b : bool) (K : gmap Z links) (lk : option Z) (l : list wait_queue_t) (T : gmap Z (task pc)) (t : Z).
Context (e : wait_queue_t) (rest : list wait_queue_t) (nr : Z) (st : Z) (ar sg : bool).
Hypothesis H : inv b K lk l T.

(** No task that a waker must not miss is skipped when an exclusive entry ends the scan. *)
Lemma none_skipped x r : Forall excl rest → rest `suffix_of` l → T !! x = Some r → needs r → ¬ linked x rest.
Proof.
  intros Hall Hsuf Hx Hn Hxr. apply list_elem_of_fmap in Hxr as (y & -> & Hy). rewrite Forall_forall in Hall. specialize (Hall y Hy).
  pose proof (elem_of_suffix y _ _ Hsuf Hy) as Hyl. destruct (e_owned _ _ _ _ _ H y Hyl) as (r' & k & Hr' & Hfr & Ey).
  assert (r' = r) as -> by congruence. rewrite Ey in Hall. apply entry_excl in Hall.
  unfold needs, frame in *. destruct (here r); try done; destruct Hn; congruence.
Qed.

(** The round ends: the scan goes on with [rest], or is over after an exclusive entry. *)
Definition rounds (K' : gmap Z links) : Prop :=
  ∀ rest' nr', rest' = rest ∨ (rest' = [] ∧ excl e) → inv b K' lk l (<[t := mk_task st ar sg (Scan rest' nr')]> T).

Lemma wp_round ret K' c : T !! t = Some (mk_task st ar sg c) → rounds K' → keeps (round t e rest nr ret) (est b K' lk l T).
Proof.
  intros Ht Hr. unfold rounds in Hr. unfold keeps, round, after_wake. eunfold.
  destruct ret; cbn [andb]; cbv zeta.
  - destruct (Z.eqb_spec (Z.land (wq_flags e) WQ_FLAG_EXCLUSIVE) 0) as [E|E]; cbn [negb]; wrun; unfold sys_inv; cbn.
    + apply Hr. by left.
    + destruct (sgn32 (nr - 1) =? 0); apply Hr; [right|left]; done.
  - wrun. unfold sys_inv; cbn. apply Hr. by left.
Qed.

(** What remains to be covered when [rest'] follows. *)
Lemma rounds_cover rest' nr' : rest `suffix_of` l → (excl e → Forall excl rest) → rest' = rest ∨ (rest' = [] ∧ excl e) →
  ∀ x q, T !! x = Some q → needs q → linked x rest → covers x (Scan rest' nr').
Proof. intros Hs Hex [->|[-> He]] x q Hx Hn Hl; [done|]. by destruct (none_skipped x q (Hex He) Hs Hx Hn). Qed.

(** No removal. *)
Lemma scan_skip ret : T !! t = Some (mk_task st ar sg (ScanDel e rest nr ret)) → rounds K.
Proof.
  intros Ht rest' nr' Hr'. pose proof (e_holder _ _ _ _ _ H t _ Ht eq_refl) as Hl.
  destruct (e_hold _ _ _ _ _ H t _ Ht) as [Hsuf _].
  pose proof (ordered_after _ _ _ (e_order _ _ _ _ _ H) Hsuf) as Hex. apply suffix_cons_l in Hsuf as Hs0.
  eapply inv_goto; [exact H|exact Ht|..]; cbn; try done; [by left|by left| | |].
  - apply (e_task _ _ _ _ _ H t _ Ht).
  - destruct Hr' as [->|[-> _]]; [done|apply suffix_nil].
  - intros E. split; [done|right]. split; [done|]. intros x q Hx Hn Hxr. by eapply (rounds_cover rest' nr').
Qed.

(** [__list_del] *)
Lemma scan_cut : T !! t = Some (mk_task st ar sg (ScanDel e rest nr true)) →
  inv b K lk (unqueue (wq_task e) l) (<[t := mk_task st ar sg (DelNext e rest nr)]> T).
Proof.
  intros Ht. pose proof (e_holder _ _ _ _ _ H t _ Ht eq_refl) as Hl.
  destruct (e_hold _ _ _ _ _ H t _ Ht) as [Hsuf Hrun].
  pose proof (ordered_after _ _ _ (e_order _ _ _ _ _ H) Hsuf) as Hex.
  pose proof (elem_of_suffix e _ _ Hsuf ltac:(by left)) as He. pose proof (queued_links _ _ _ _ _ _ H He) as Hk.
  eapply event_inv_step; [exact H|exact Ht|..]; cbn; try done.
  - by left.
  - apply unqueue_nodup, (e_nodup _ _ _ _ _ H).
  - apply ordered_unqueue, (e_order _ _ _ _ _ H).
  - apply owned_unqueue. eapply owned_same; [apply (e_owned _ _ _ _ _ H)|exact Ht|done].
  - intros x r Hx Hr Hlx. destruct (decide (x = wq_task e)) as [->|Hxe].
    + right. destruct Hrun as (q' & Hq' & ?). congruence.
    + left. by apply unqueue_elem.
  - apply (e_task _ _ _ _ _ H t _ Ht).
  - split_and!; [by apply suffix_unqueue; [apply (e_nodup _ _ _ _ _ H)|]| |done|done]. by intros [? _]%unqueue_elem.
  - by eapply links_cut; [apply (e_links _ _ _ _ _ H)|exact Ht|..].
  - intros E. split; [done|right]. split; [done|by intros].
Qed.

Lemma half_task k c : half_ok K l e rest k → T !! t = Some (mk_task st ar sg c) → frame c = None → wq_task e ≠ t.
Proof.
  intros (_ & _ & _ & Hk) Ht Hf E. rewrite E in Hk. by rewrite (no_frame _ _ _ _ _ _ H _ Ht Hf) in Hk.
Qed.

(** A store to a link field of the entry by the waker, at [c] before and [c'] after. *)
Definition half_at (c : pc) : Prop := c = DelNext e rest nr ∨ c = DelPrev e rest nr.

Lemma store_inv c c' k k' : T !! t = Some (mk_task st ar sg c) → half_at c → half_ok K l e rest k →
  frame c' = None → locked c' = true → task_ok t l (mk_task st ar sg c') →
  holder_ok (<[wq_task e := k']> K) l (<[t := mk_task st ar sg c']> T) c' →
  unlinking c' = Some (wq_task e) ∨ (unlinking c' = None ∧ k' = unlinked) → ¬ needs (mk_task st ar sg c') →
  (∀ x q, T !! x = Some q → needs q → linked x rest → covers x c') →
  inv b (<[wq_task e := k']> K) lk l (<[t := mk_task st ar sg c']> T).
Proof.
  intros Ht Hc (Hsuf & Hnl & Hex & Hk) Hf' Hlc' Hok' Hh Hu Hn Hcov.
  assert (locked c = true ∧ frame c = None ∧ unlinking c = Some (wq_task e)) as (Hlc & Hf & Huc) by (by destruct Hc as [->| ->]).
  pose proof (e_holder _ _ _ _ _ H t _ Ht Hlc) as Hl.
  eapply event_inv_step; [exact H|exact Ht|..]; cbn; try done.
  - by rewrite Hlc'.
  - by left.
  - apply (e_nodup _ _ _ _ _ H).
  - apply (e_order _ _ _ _ _ H).
  - eapply owned_same; [apply (e_owned _ _ _ _ _ H)|exact Ht|]. intros _. cbn. by rewrite Hf, Hf'.
  - auto.
  - eapply links_store; [apply (e_links _ _ _ _ _ H)|exact Ht|done..|by eexists|done|done].
  - rewrite Hlc. done.
  - intros E. split; [done|right]. split; [done|]. intros x q Hx Hnq Hcx. apply (Hcov x q Hx Hnq). by destruct Hc as [->| ->].
Qed.

Lemma half_step k : T !! t = Some (mk_task st ar sg (DelNext e rest nr)) → half_ok K l e rest k →
  inv b (<[wq_task e := mk_links true false]> K) lk l (<[t := mk_task st ar sg (DelPrev e rest nr)]> T).
Proof.
  intros Ht Hh. eapply store_inv; [exact Ht|by left|exact Hh|done..| | |by left|by intros []|by intros].
  - apply (e_task _ _ _ _ _ H t _ Ht).
  - destruct Hh as (? & ? & ? & _). split_and!; [done..|]. apply lookup_insert_eq.
Qed.

Lemma half_end k : T !! t = Some (mk_task st ar sg (DelPrev e rest nr)) → half_ok K l e rest k →
  rounds (<[wq_task e := unlinked]> K).
Proof.
  intros Ht Hh rest' nr' Hr'. pose proof Hh as (Hsuf & _ & Hex & _).
  eapply store_inv; [exact Ht|by right|exact Hh|done..| | |by right|by intros []|].
  - apply (e_task _ _ _ _ _ H t _ Ht).
  - cbn. destruct Hr' as [->|[-> _]]; [done|apply suffix_nil].
  - intros x q Hx Hn Hxr. by eapply (rounds_cover rest' nr').
Qed.
End wakers.

Lemma scan_del_keeps b K lk l T t e rest nr ret p : inv b K lk l T → T !! t = Some p → here p = ScanDel e rest nr ret →
  keeps (continue t (ScanDel e rest nr ret)) (est b K lk l T).
Proof.
  intros H Ht Hpc. destruct p as [st ar sg x]. cbn in Hpc. subst x.
  destruct (e_hold _ _ _ _ _ H t _ Ht) as [Hsuf _].
  pose proof (elem_of_suffix e _ _ Hsuf ltac:(by left)) as He. destruct (e_owned _ _ _ _ _ H e He) as (q & h & Hq & Hf & Ee).
  assert (wq_func e = autoremove_wake_function) as Efun by (rewrite Ee; unfold entry; by destruct (exclusive h)).
  cbn [continue]. unfold scan_del. rewrite Efun. destruct ret.
  - unfold keeps. eunfold. eapply wp_bind, wp_get_links; [by eapply queued_links|]. wrun. unfold sys_inv; cbn. by apply scan_cut.
  - eapply wp_round; [exact Ht|]. by eapply scan_skip.
Qed.

Lemma del_next_keeps b K lk l T t e rest nr p : inv b K lk l T → T !! t = Some p → here p = DelNext e rest nr →
  keeps (continue t (DelNext e rest nr)) (est b K lk l T).
Proof.
  intros H Ht Hpc. destruct p as [st ar sg x]. cbn in Hpc. subst x. pose proof (e_hold _ _ _ _ _ H t _ Ht) as Hh. cbn in Hh.
  pose proof (half_step _ _ _ _ _ _ _ _ _ _ _ _ H _ Ht Hh) as Hi. unfold keeps, continue, del_next. eunfold.
  eapply wp_bind, wp_get_links; [apply Hh|]. wrun. exact Hi.
Qed.

Lemma del_prev_keeps b K lk l T t e rest nr p : inv b K lk l T → T !! t = Some p → here p = DelPrev e rest nr →
  keeps (continue t (DelPrev e rest nr)) (est b K lk l T).
Proof.
  intros H Ht Hpc. destruct p as [st ar sg x]. cbn in Hpc. subst x. pose proof (e_hold _ _ _ _ _ H t _ Ht) as Hh. cbn in Hh.
  pose proof (half_end _ _ _ _ _ _ _ _ _ _ _ _ H _ Ht Hh) as Hr. unfold keeps, continue, del_prev. unfold put_links, get_data, put_data.
  eapply wp_bind, wp_get_links; [apply Hh|]. wrun. by eapply wp_round.
Qed.

End EventSteps.
