(* ===== verification/EventTheorems.v ===== *)
(** * Waiting for a condition: no stale entry, no lost wake-up *)

From stdpp Require Import prelude numbers list gmap.
From Stdlib Require Import ZArith Lia.
From S2P Require Import Prelude Waitq Event EventFacts EventSteps.

#[local] Set Default Goal Selector "!".
#[local] Open Scope Z_scope.

Module EventTheorems.
Import Waitq Event EventFacts EventSteps.

Lemma event_next_inv t s : enabled (Next t) s = true → ∃ p, tasks s !! t = Some p ∧
  here p ≠ Run ∧ array p = true ∧ (takes_lock (here p) = true → lock (wait s) = None).
Proof.
  cbn. destruct (tasks s !! t) as [[st ar sg k]|] eqn:Ht; [|done]. intros E.
  exists (mk_task st ar sg k). split; [done|].
  destruct k; try done; cbn in E |- *; apply andb_true_iff in E as [-> E]; split_and!; try done;
    intros _; by apply bool_decide_eq_true in E.
Qed.

Lemma event_next_keeps t s : sys_inv s → enabled (Next t) s = true → keeps (exec (Next t)) s.
Proof.
  intros H (p & Ht & Hrun & Har & Hlk)%event_next_inv. destruct s as [[b K] [lk l] T]. unfold sys_inv in H. cbn in *.
  unfold keeps. apply wp_bind. eapply wp_get_wtask; [exact Ht|].
  change (keeps (continue t (here p)) (est b K lk l T)).
  destruct (here p) as [|h|h|h|h|h|h|h|h|h|nr|[|e rest] nr|e rest nr ret|e rest nr|e rest nr] eqn:E; [done|..].
  all: cbn in Hlk; try specialize (Hlk eq_refl).
  all: solve [eauto using prep_keeps, cond_keeps, event_sig_keeps, event_sched_keeps, event_wake_keeps, fin_keeps, test_next_keeps, test_prev_keeps, del_keeps,
    wlock_keeps, event_scan_end_keeps, event_scan_keeps, scan_del_keeps, del_next_keeps, del_prev_keeps].
Qed.

Lemma event_exec_keeps l s : sys_inv s → enabled l s = true → keeps (exec l) s.
Proof.
  intros H E. destruct s as [[d K] [lk q] T]. unfold sys_inv in H. cbn in H. destruct l as [t c|t|t|t mode|t b].
  - cbn in E. destruct (T !! t) as [[st ar sg []]|] eqn:Ht; try done. cbn [exec].
    destruct c; [by eapply wait_keeps|by eapply signal_keeps|by eapply wakeup_keeps|by apply reset_keeps].
  - by apply event_next_keeps.
  - cbn in E. destruct (T !! t) as [[st ar sg []]|] eqn:Ht; try done.
    apply andb_true_iff in E as [-> _]. unfold keeps, exec. apply wp_bind. eapply wp_get_wtask; [exact Ht|]. cbn [here].
    by eapply (expired_keeps _ _ _ _ _ _ H).
  - apply bool_decide_eq_true in E as [p Ht]. unfold keeps, exec. apply wp_bind.
    eapply wp_get_wtask; [exact Ht|]. apply wp_modify. by apply poke_wake.
  - cbn in E. destruct (T !! t) as [p|] eqn:Ht; [|done]. unfold keeps, exec. apply wp_bind.
    eapply wp_get_wtask; [exact Ht|]. apply wp_modify. eapply event_inv_poke; [exact H|exact Ht| |done].
    apply (e_task _ _ _ _ _ H t p Ht).
Qed.

Lemma event_boot_inv cond ts : sys_inv (boot cond ts).
Proof.
  assert (∀ t p, gset_to_gmap idle ts !! t = Some p → p = idle) as Hi.
  { intros t p E. by apply lookup_gset_to_gmap_Some in E as [_ <-]. }
  split; cbn; try done.
  - intros t p E. by rewrite (Hi _ _ E).
  - apply NoDup_nil_2.
  - exists [], []. by split_and!.
  - by intros e ?%not_elem_of_nil.
  - intros t p E. by rewrite (Hi _ _ E).
  - intros t p E. by rewrite (Hi _ _ E).
  - split; cbn; [|done|done]. intros t. rewrite lookup_empty. split; [by intros []|]. intros (p & E & Hf).
    by rewrite (Hi _ _ E) in Hf.
  - intros _ t p E Hn. by rewrite (Hi _ _ E) in Hn.
Qed.

Lemma event_reach cond ts s : rtc step (boot cond ts) s → sys_inv s.
Proof.
  intros Hs. pose proof (event_boot_inv cond ts) as Hb. revert Hs Hb. generalize (boot cond ts). clear.
  induction 1 as [|x y z Hxy _ IH]; [done|]. intros Hx. apply IH. destruct Hxy as [l s0 s1 E Ho].
  pose proof (event_exec_keeps l s0 Hx E) as Hk. unfold keeps, wp in Hk. by rewrite Ho in Hk.
Qed.

Lemma event_stuck_asleep s t p : sys_inv s → (∀ u, enabled (Next u) s = false) → tasks s !! t = Some p →
  here p ≠ Run → ∃ h, here p = EWake h ∧ state p = sleep_state h.
Proof.
  intros H Hst Hp Hrun. assert (lock (wait s) = None) as Hl.
  { destruct (lock (wait s)) as [u|] eqn:E; [|done].
    destruct (e_locked _ _ _ _ _ H u E) as (q & Hq & Hl). specialize (Hst u). cbn in Hst. rewrite Hq in Hst.
    pose proof (e_task _ _ _ _ _ H u q Hq) as Hok. destruct q as [st ar sg k]. unfold task_ok in *. cbn in *.
    destruct k; try done; cbn in Hst; destruct Hok as [-> _]; done. }
  specialize (Hst t). cbn in Hst. rewrite Hp, Hl in Hst.
  pose proof (e_task _ _ _ _ _ H t p Hp) as Hok. destruct p as [st ar sg k]. unfold task_ok in *. cbn in *.
  rewrite orb_true_r, andb_true_r in Hst.
  destruct k; try done; cbn in Hst; try (destruct Hok; congruence).
  exists h. split; [done|]. destruct Hok as [[? _]|(_ & ? & _)]; [congruence|done].
Qed.

(** C28: Waiting for a condition.  For any number of tasks in the wait_event macros, plain,
    interruptible, exclusive or with a timeout, and any number of tasks that set the condition
    and wake the queue, in every interleaving: no step touches a wait structure whose owner has
    returned, although [finish_wait] reads the two link fields of its entry without the lock
    while a waker may be between the stores of [list_del_init]; a task that has returned is not in
    the queue; and no wake-up is lost: when no task inside can go on and the condition holds,
    only exclusive waiters sleep. *)
Theorem wait_event_correct c0 ts s :
  rtc step (boot c0 ts) s →
  (∀ l, enabled l s = true → ∃ s', exec l s = (Ok tt, s')) ∧
  (∀ t p, tasks s !! t = Some p → frame (here p) = None → t ∉ wq_task <$> task_list (wait s)) ∧
  ((∀ u, enabled (Next u) s = false) → cond (data s) = true → ∀ t p, tasks s !! t = Some p → here p ≠ Run →
     ∃ h, here p = EWake h ∧ exclusive h = true).
Proof.
  intros Hs. pose proof (event_reach c0 ts s Hs) as H. split_and!.
  - intros l E. pose proof (event_exec_keeps l s H E) as Hk. apply wp_ok in Hk as ([] & s' & ? & _). by exists s'.
  - intros t p Hp Hf. by eapply not_linked.
  - intros Hst Hc t p Hp Hrun. destruct (event_stuck_asleep s t p H Hst Hp Hrun) as (h & Eh & Es). exists h. split; [done|].
    destruct (exclusive h) eqn:Ex; [done|]. destruct (e_cover _ _ _ _ _ H Hc t p Hp) as (u & q & Hq & Hcv).
    { unfold needs. rewrite Eh, Es. split; [done|apply sleep_ne]. }
    destruct (event_stuck_asleep s u q H Hst Hq) as (k & Ek & _); [by destruct (here q)|]. by rewrite Ek in Hcv.
Qed.

(** ** Three waiters and a waker *)

Lemma event_run_reach ls s s' : run ls s = Ok s' → rtc step s s'.
Proof.
  revert s. induction ls as [|l ls IH]; intros s; cbn; [by intros [= ->]|].
  destruct (enabled l s) eqn:E; [|done]. destruct (exec l s) as [[[]|?|] s1] eqn:Hx; try done.
  intros Hr. eapply rtc_l; [by econstructor|]. by apply IH.
Qed.

(** Tasks 1 and 4 wait exclusively, task 2 does not and has a timeout.  Task 3 sets the condition
    and wakes one exclusive task.  Between its two stores to the entry of task 2 that task runs
    out of time; it finds [next] changed but not [prev], so it waits for the lock.  In the end
    tasks 2 and 1 have returned, and task 4 sleeps on. *)
Definition demo_tasks : gset Z := {[1; 2; 3; 4]}.
Definition excl_wait : how := mk_how true false true.
Definition timed_wait : how := mk_how false true false.
Definition sleep (t : Z) (h : how) : list label :=
  Call t (CWait h) :: replicate (if interruptible h then 4 else 3)%nat (Next t).
Definition half_trace : list label :=
  sleep 1 excl_wait ++ sleep 2 timed_wait ++ sleep 4 excl_wait ++
  Call 3 (CSignal 1) :: replicate 4 (Next 3) ++ Expired 2 :: replicate 3 (Next 2).
Definition demo_trace : list label :=
  half_trace ++ replicate 6 (Next 3) ++ replicate 6 (Next 1) ++ [Next 2].
Definition final (o : outcome esys) : esys := match o with Ok s => s | _ => boot false demo_tasks end.
Definition half : esys := final (run half_trace (boot false demo_tasks)).
Definition demo : esys := final (run demo_trace (boot false demo_tasks)).

Lemma event_demo_stuck u : enabled (Next u) demo = false.
Proof.
  destruct (tasks demo !! u) as [p|] eqn:Hu; [|cbn [enabled]; by rewrite Hu]. apply elem_of_dom_2 in Hu.
  assert (dom (tasks demo) = demo_tasks) as Hd by (by vm_compute). rewrite Hd in Hu. unfold demo_tasks in Hu.
  repeat (apply elem_of_union in Hu as [Hu|Hu]); apply elem_of_singleton in Hu as ->; by vm_compute.
Qed.

Lemma wait_event_correct_witness :
  (frames (data half) !! 2 = Some (mk_links true false) ∧ (here <$> tasks half !! 2) = Some (EDel timed_wait) ∧
   ∃ s', exec (Next 3) half = (Ok tt, s')) ∧
  cond (data demo) = true ∧ (1 ∉ wq_task <$> task_list (wait demo)) ∧ ∃ h, EWake excl_wait = EWake h ∧ exclusive h = true.
Proof.
  assert (rtc step (boot false demo_tasks) half) as Hh by (apply (event_run_reach half_trace); by vm_compute).
  assert (rtc step (boot false demo_tasks) demo) as Hr by (apply (event_run_reach demo_trace); by vm_compute).
  destruct (wait_event_correct false demo_tasks half Hh) as (Hn & _).
  destruct (wait_event_correct false demo_tasks demo Hr) as (_ & Hl & Hs). split.
  - split; [by vm_compute|]. split; [by vm_compute|]. apply Hn. by vm_compute.
  - split; [by vm_compute|]. split.
    + apply (Hl 1 idle); by vm_compute.
    + apply (Hs event_demo_stuck ltac:(by vm_compute) 4 (mk_task TASK_INTERRUPTIBLE false false (EWake excl_wait)));
        [by vm_compute|done].
Defined.

End EventTheorems.
