(* ===== verification/WaitqSched.v ===== *)
(** * Wait queues on top of the scheduler

    The models of wait queues see a task as its state, whether it is on a run queue, and
    its signal flag.  The scheduler of Sched.v implements what they assume of
    [try_to_wake_up] and [schedule]. *)

From stdpp Require Import prelude numbers list gmap.
From Stdlib Require Import ZArith Lia.
From S2P Require Import Prelude Sched SchedFacts RunqueueFacts SchedSafety SchedOps SchedTheorems Waitq.

#[local] Set Default Goal Selector "!".
#[local] Open Scope Z_scope.

Module WaitqSched.

(** What a wait queue sees of a task of the scheduler. *)
Definition view (t : Sched.task_struct) : Waitq.task unit :=
  Waitq.mk_task (Sched.state t) (bool_decide (is_Some (Sched.array t))) (Sched.sigpending t) tt.

Import Sched SchedPrio Runqueue SchedSafety SchedTick SchedOps SchedTheorems.

Lemma recalc_signals t now : sigpending (recalc_task_prio t now) = sigpending t.
Proof. unfold recalc_task_prio. cbv zeta. cbn [sigpending set_prio]. by repeat (case_match; simplify_eq). Qed.

Lemma view_woken clock irq a t :
  view (set_state TASK_RUNNING (activated_task clock irq a (woken t))) = Waitq.mk_task Waitq.TASK_RUNNING true (sigpending t) tt.
Proof.
  unfold view, activated_task, recharged_task. cbv zeta. f_equal. cbn [sigpending set_state set_array set_timestamp].
  case_match; cbn [sigpending set_activated]; rewrite recalc_signals; unfold woken; by case_match.
Qed.

Lemma view_outgoing t : pf_dead t = false → view (outgoing false t) = Waitq.sched_out (view t).
Proof.
  intros Hd. unfold outgoing, Waitq.sched_out. rewrite Hd, andb_true_r. cbn [view Waitq.state Waitq.array Waitq.sigpending Waitq.here].
  change Waitq.TASK_RUNNING with 0. change Waitq.TASK_INTERRUPTIBLE with TASK_INTERRUPTIBLE.
  destruct (state t =? 0); cbn [negb]; [done|]. by destruct (_ && _).
Qed.

(** ** What wait queues see of the run queue *)

Definition seen (r : runqueue) : gmap Z (Waitq.task unit) := view <$> tasks r.

Lemma seen_upd p t t' r : tasks r !! p = Some t → view t' = view t → seen (rq_set_tasks (<[p := t']> (tasks r)) r) = seen r.
Proof. intros Ht Hv. unfold seen. cbn [tasks rq_set_tasks]. rewrite fmap_insert, Hv, insert_id; [done|]. by rewrite lookup_fmap, Ht. Qed.

(** Code that wait queues do not notice. *)
Definition unseen {A} (m : SM runqueue A) : Prop := ∀ r, post m (λ _ r', seen r' = seen r) r.

Lemma unseen_bind {A B} (m : SM runqueue A) (f : A → SM runqueue B) : unseen m → (∀ a, unseen (f a)) → unseen (m ≫= f).
Proof.
  intros Hm Hf r. apply post_bind. eapply post_mono; [apply Hm|]. cbv beta. intros a r1 E1.
  eapply post_mono; [apply Hf|]. cbv beta. intros _ r2 E2. congruence.
Qed.
Lemma unseen_modify f : (∀ r, tasks (f r) = tasks r) → unseen (modify f).
Proof. intros H r. unfold post, modify, seen. by rewrite H. Qed.
Lemma unseen_upd p f : (∀ t, view (f t) = view t) → unseen (upd_task p f).
Proof.
  intros H r. unfold post, upd_task. destruct (tasks r !! p) as [t|] eqn:Ht; [|done]. by eapply seen_upd.
Qed.
Lemma unseen_get p : unseen (get_task p).
Proof. intros r. unfold post, get_task. by destruct (tasks r !! p). Qed.
Lemma unseen_gets {A} (f : runqueue → A) : unseen (gets f).
Proof. done. Qed.
Lemma unseen_ret {A} (a : A) : unseen (mret a).
Proof. done. Qed.
Lemma unseen_when b m : unseen m → unseen (when b m).
Proof. by destruct b. Qed.
Lemma unseen_array a : unseen (get_array a).
Proof. intros r. unfold post, get_array. by destruct (arrays r !! a). Qed.
Lemma unseen_queue x pr : unseen (get_queue x pr).
Proof. intros r. unfold post, get_queue. by repeat case_match; simplify_eq. Qed.

Create HintDb unseen.
#[local] Hint Resolve unseen_get unseen_gets unseen_ret unseen_array unseen_queue unseen_when : unseen.
#[local] Hint Extern 3 (unseen (upd_task _ _)) => apply unseen_upd; intros []; reflexivity : unseen.
#[local] Hint Extern 3 (unseen (modify _)) => apply unseen_modify; reflexivity : unseen.
#[local] Hint Extern 3 (unseen (_ ≫= _)) => apply unseen_bind; [|intros ?] : unseen.

Lemma unseen_switch_arrays : unseen switch_arrays.
Proof. unfold switch_arrays. auto 10 with unseen. Qed.
Lemma unseen_first_task : unseen first_task.
Proof. unfold first_task. apply unseen_bind; [auto with unseen|]. intros r. apply unseen_bind; [auto with unseen|]. intros x. apply unseen_bind; [auto with unseen|]. by intros []. Qed.
Lemma unseen_switch_tasks prev next run_time now : unseen (switch_tasks prev next run_time now).
Proof. unfold switch_tasks. auto 10 with unseen. Qed.

Lemma view_recalc t now : view (recalc_task_prio t now) = view t.
Proof.
  destruct (recalc_frame t now) as (_ & _ & _ & Ha & Hs & _). unfold view. by rewrite recalc_signals, Ha, Hs.
Qed.

(** A task that is taken off its queue, given a new priority and queued again. *)
Lemma seen_requeued p a t f r : tasks r !! p = Some t → array t = Some a → (∀ t, view (f t) = view t) →
  post (_ ← dequeue_task p a; _ ← upd_task p f; enqueue_task p a) (λ _ r', seen r' = seen r) r.
Proof.
  intros Ht Ha Hf. apply post_bind. eapply post_mono; [by apply post_dequeue|]. cbv beta. intros _ r1 [[l ->] _].
  apply post_bind. eapply post_upd; [exact Ht|]. eapply post_mono; [apply (post_enqueue _ _ (f t)), lookup_insert_eq|].
  cbv beta. intros _ r' (r3 & [[l' ->] _] & ->). unfold seen. cbn [tasks rq_set_tasks rq_set_arrays].
  rewrite insert_insert_eq, fmap_insert, insert_id; [done|]. rewrite lookup_fmap, Ht. cbn. f_equal.
  rewrite <- (Hf t). unfold view. cbn [state array sigpending set_array]. f_equal.
  assert (bool_decide (is_Some (array (f t))) = bool_decide (is_Some (array t))) as ->.
  { change (Waitq.array (view (f t)) = Waitq.array (view t)). by rewrite Hf. }
  by rewrite Ha.
Qed.

Lemma unseen_pick_next now : unseen (pick_next now).
Proof.
  unfold pick_next. apply unseen_bind; [apply unseen_switch_arrays|intros _]. apply unseen_bind; [apply unseen_first_task|intros p].
  intros r. apply post_bind. unfold post at 1, get_task. destruct (tasks r !! p) as [t|] eqn:Ht; [|done].
  apply post_bind. eapply (post_mono _ (λ _ r', seen r' = seen r)).
  - destruct (negb (rt_task t) && _); [|done]. cbn [when]. cbv zeta. destruct (array t) as [a|] eqn:Ha; [|done].
    eapply seen_requeued; [exact Ht|exact Ha|]. intros u. apply view_recalc.
  - cbv beta. intros _ r1 <-. revert r1. change (unseen (_ ← upd_task p (set_activated 0); mret p)). auto with unseen.
Qed.

(** The whole of [schedule] against its first half. *)
Lemma seen_schedule clock preempt r r1 next r' : schedule_out (curr r) preempt r = (Ok tt, r1) →
  schedule clock preempt r = (Ok next, r') → seen r' = seen r1.
Proof.
  intros Ho. unfold schedule. unfold mbind at 1, SM_bind at 1, gets at 1. cbn [id].
  unfold mbind at 1, SM_bind at 1, get_task at 1. destruct (tasks r !! curr r) as [t|]; [|done].
  unfold mbind at 1, SM_bind at 1. rewrite Ho. match goal with |- ?m r1 = _ → _ => assert (unseen m) as H end.
  - apply unseen_bind; [apply unseen_gets|intros r2]. apply unseen_bind; [|intros; apply unseen_bind; [apply unseen_switch_tasks|auto with unseen]].
    destruct (nr_running r2 =? 0); [auto with unseen|apply unseen_pick_next].
  - intros E. specialize (H r1). unfold post in H. by rewrite E in H.
Qed.

(** C30: The scheduler implements what wait queues rely on.  [try_to_wake_up] of the scheduler
    reports success and changes state and queueing of the task exactly as the wait queues assume,
    on every branch, and leaves what they see of every other task alone.  [schedule] succeeds and
    takes a calling task that is not dead off the run queue unless it runs or is interruptible with a
    signal pending, in which case it is made running again; a preemption leaves its state
    and queueing alone; whatever task is chosen and requeued on the way, wait queues see no other change. *)
Theorem scheduler_serves_waitq r p t :
  rq_ok r → tasks r !! p = Some t →
  (∀ mode sync clock irq, ∃ res r', try_to_wake_up p mode sync clock irq r = (Ok res, r') ∧ rq_ok r' ∧
     negb (res =? 0) = (Waitq.try_to_wake_up mode (view t)).1 ∧
     view <$> tasks r' !! p = Some (Waitq.try_to_wake_up mode (view t)).2 ∧
     ∀ u, u ≠ p → view <$> tasks r' !! u = view <$> tasks r !! u) ∧
  (p = curr r → pf_dead t = false → ∀ clock preempt, ∃ next r', schedule clock preempt r = (Ok next, r') ∧ rq_ok r' ∧
     view <$> tasks r' !! p = Some (if preempt then view t else Waitq.sched_out (view t)) ∧
     ∀ u, u ≠ p → view <$> tasks r' !! u = view <$> tasks r !! u).
Proof.
  intros Hr Ht. split.
  - intros mode sync clock irq. pose proof (wp_try_to_wake_up p t mode sync clock irq r (λ _ _, False) Hr Ht) as H.
    apply wp_ok in H as (res & r' & E & Hr' & Hp). exists res, r'. split; [done|]. split; [done|].
    unfold Waitq.try_to_wake_up. cbn [view Waitq.state Waitq.array Waitq.sigpending Waitq.here].
    destruct (Z.land (state t) mode =? 0); [destruct Hp as [-> ->]; rewrite Ht; done|].
    destruct (array t) as [a|] eqn:Ea.
    + destruct Hp as [-> ->]. cbn. rewrite lookup_insert_eq. cbn. split_and!; [done| |intros u Hu; by rewrite lookup_insert_ne].
      unfold view. cbn. by rewrite Ea.
    + destruct Hp as (-> & _ & Htp & Ho & c & Hc & Hc'). split_and!; [done|rewrite Htp; cbn; by rewrite view_woken|].
      intros u Hu. destruct (decide (u = curr r)) as [->|Huc]; [|by rewrite Ho].
      rewrite Hc, Hc'. by destruct (negb sync && _).
  - intros -> Hd clock preempt. destruct (schedule_spec clock preempt t r Hr Ht) as (r1 & next & r' & Ho & E1 & Es & Hr' & _).
    exists next, r'. split; [done|]. split; [done|]. pose proof (seen_schedule _ _ _ _ _ _ Ho Es) as Hs.
    assert (∀ u, view <$> tasks r' !! u = view <$> tasks r1 !! u) as Hu.
    { intros u. rewrite <- !lookup_fmap. change (seen r' !! u = seen r1 !! u). by rewrite Hs. }
    split; [|intros u ?; by rewrite Hu, E1, lookup_insert_ne].
    rewrite Hu, E1, lookup_insert_eq. cbn [fmap option_fmap option_map]. f_equal. destruct preempt; [|by apply view_outgoing].
    unfold outgoing. rewrite Hd. by destruct (negb _).
Qed.

(** Task 1 about to sleep. *)
Definition demo_sleepy : runqueue := (exec (SetState TASK_INTERRUPTIBLE) demo).2.
Lemma demo_sleepy_ok : rq_ok demo_sleepy.
Proof. apply exec_state_ok; [apply demo_ok|]. by vm_compute. Qed.
Lemma demo_sleepy_curr : tasks demo_sleepy !! 1 = Some (set_state TASK_INTERRUPTIBLE demo_curr) ∧ 1 = curr demo_sleepy ∧
  Waitq.sched_out (view (set_state TASK_INTERRUPTIBLE demo_curr)) = Waitq.mk_task TASK_INTERRUPTIBLE false false tt.
Proof. by vm_compute. Qed.
Lemma demo_two : tasks demo !! 2 = Some (demo_task (-5) TASK_INTERRUPTIBLE).
Proof. by vm_compute. Qed.

Lemma scheduler_serves_waitq_witness :
  (∃ res r', try_to_wake_up 2 Waitq.TASK_NORMAL false 9000 true demo = (Ok res, r') ∧ res ≠ 0) ∧
  (∃ next r', schedule 9000 false demo_sleepy = (Ok next, r') ∧ rq_ok r' ∧
     view <$> tasks r' !! 1 = Some (Waitq.mk_task TASK_INTERRUPTIBLE false false tt)).
Proof.
  destruct (proj1 (scheduler_serves_waitq demo 2 (demo_task (-5) TASK_INTERRUPTIBLE) demo_ok demo_two)
    Waitq.TASK_NORMAL false 9000 true) as (res & r' & E & _ & Hres & _).
  destruct (proj2 (scheduler_serves_waitq demo_sleepy 1 _ demo_sleepy_ok (proj1 demo_sleepy_curr))
    (proj1 (proj2 demo_sleepy_curr)) eq_refl 9000 false) as (next & r2 & E2 & Hr2 & Hv & _).
  rewrite (proj2 (proj2 demo_sleepy_curr)) in Hv.
  exact (conj (ex_intro _ res (ex_intro _ r' (conj E (λ H : res = 0, ltac:(rewrite H in Hres; discriminate Hres)))))
    (ex_intro _ next (ex_intro _ r2 (conj E2 (conj Hr2 Hv))))).
Defined.

End WaitqSched.
